(* ===== verification/_CoqProject ===== *)
-Q . S2P
Prelude.v
RiscvCsr.v
RiscvOp.v
RiscvDecode.v
RiscvEncode.v
RiscvDecodeProps.v
Disasm.v
Mmu.v
Softfp.v
SoftfpSpec.v
SoftfpRound.v
SoftfpArith.v
SoftfpMul.v
SoftfpConv.v
SoftfpRange.v
HartState.v
Hart.v
HartCsr.v
HartStep.v
HartStepExt.v
HartTrap.v
HartBlock.v
HartLogic.v
HartInv.v
HartWf.v
HartReach.v
HartIrq.v
HartBlockProps.v
IrqPin.v
Plic.v
PlicProps.v
EventLoop.v
Clint.v
TimerProps.v
X86Op.v
X86Encode.v
X86Decode.v
X86Props.v
X86RoundTrip.v
Words.v
X86Sem.v
Signal.v
Dbt.v
DbtLogic.v
DbtDiv.v
DbtProps.v
DbtCorrect.v
SignalProps.v
Pipeline.v
DbtBlock.v
DbtBlockProps.v
DbtWhole.v
DbtMem.v
P9.v
P9Props.v
P9Handler.v
P9HandlerProps.v
FiberMutex.v
FiberMutexProps.v
FiberRwLock.v
FiberCondvar.v
VirtioQueue.v
VirtioQueueProps.v
VirtioMmio.v
VirtioMmioProps.v
VirtioBlock.v
VirtioBlockProps.v
VirtioDevices.v
VirtioDevicesProps.v
Fdt.v
IoSystem.v
IoSystemProps.v
FiberSched.v
FiberSchedProps.v
Loader.v
LoaderProps.v
LoaderUser.v
Main.v
Syscall.v
NetDevices.v
