(* ===== verification/Prelude.v ===== *)
(** * A verification development for r2vm

    r2vm is a RISC-V full-system simulator written in Rust.  A guest hart is
    executed by an interpreter and by a binary translator that emits x86 code
    per basic block; around it are a decoder, a software floating point
    library, an MMU, and emulated devices.

    ** Parts of the program and the files that model them

    - Instruction set ([lib/riscv/src]).  [RiscvCsr] is the CSR numbering
      ([csr.rs]); [RiscvOp] the type [Op] with its queries ([op.rs]);
      [RiscvDecode] the functions [decode] and [decode_compressed] with their
      field helpers ([decode.rs]).  [RiscvEncode] is a reference encoder,
      written from the encoding tables and not from the decoder;
      [RiscvDecodeProps] relates the two.  [Disasm] is the disassembler
      ([disasm.rs]) with a reader of its lines, which has its own tables of
      names.
    - Address translation ([lib/riscv/src/mmu.rs]): [Mmu], with a relational
      specification of the Sv39/Sv48 walk.
    - Floating point ([lib/softfp/src/fp.rs], [int.rs]): [Softfp] is the
      library, generic in the format; [SoftfpSpec] specifies correct rounding
      over exact integer quotients; [SoftfpRound], [SoftfpArith], [SoftfpMul]
      and [SoftfpConv] prove the operations against it; [SoftfpRange] proves
      that results are bit patterns of the format.
    - The hart ([src/emu/interp.rs], with [src/sim/memory/mod.rs] and small
      parts of [src/main.rs] and [src/emu/mod.rs]).  [HartState] has the
      records [Context], [SharedContext], [ICache] and the machine they live
      in, and the monad of fallible, panicking, stateful code; [Hart] the
      methods of the two contexts, address translation through the L0 caches
      and the memory accesses; [HartCsr] the CSR accesses; [HartStep] and
      [HartStepExt] the function [step], one definition per group of
      instructions, and the SBI calls; [HartTrap] trap entry,
      [check_interrupt] and the emulation of misaligned accesses; [HartBlock]
      block discovery, the code cache allocator and [find_block].
      [HartLogic] is a program logic for the monad, [HartInv] the
      well-formedness invariant, [HartWf] its preservation by every operation,
      [HartReach] the step relation of a hart (instructions, traps, the look-up
      and translation of code, interrupt checks, emulated misaligned accesses,
      what other threads do) and reachability, [HartIrq] the
      delivery of interrupts, [HartBlockProps] the safety of translation.
    - Interrupt controllers ([lib/io/src/hw/intc]) and the event loop
      ([src/emu/event.rs]).  [IrqPin] is the trait of interrupt pins with the
      pins of the harts as an instance; [Plic] the external interrupt
      controller, [PlicProps] its invariant; [EventLoop] the clock and the
      queue of timed events, [Clint] the timer and software interrupts,
      [TimerProps] the timing of timer interrupts.
    - Code generation.  Of [lib/x86/src], [X86Op] has the operand and operation
      types, [X86Encode] the encoder, [X86Decode] the decoder; [X86Props] and
      [X86RoundTrip] relate the two.  [X86Sem] is a semantics of the operations,
      written from the manual of the architecture, and [Words] the arithmetic of
      words it needs.  Of [src/emu/dbt.rs], [Dbt] is the code for integer
      computation, with [DbtLogic] (a program logic for emitted code),
      [DbtDiv], [DbtProps] and [DbtCorrect] (agreement with [step]); it emits
      through the class [Encoder], whose instance is [x86::encode] with the
      panic on operations it refuses; [DbtBlock]
      is the translator as a whole, with [DbtBlockProps] and [DbtWhole] (blocks
      are closed) and [DbtMem] (accesses through the caches of level 0).
      [Pipeline] has the timing models of [src/sim/pipeline]; [Signal] and
      [SignalProps] are the handlers of [src/emu/signal.rs] that finish
      faulting instructions, with the instruction pointer they return to.
    - File sharing ([lib/p9/src], [lib/io/src/hw/virtio/p9.rs]).  [P9] is the
      trait [Serializable] with its instances and the 9P messages, [P9Props]
      their round trips against a client written from the protocol;
      [P9Handler] is the server over the class [FileSystem], whose operations
      may panic, with the passthrough file system ([passthrough.rs]) as an
      instance and the round of the virtio device that serves a request;
      [P9HandlerProps] says when it answers and when it panics.
    - Synchronisation of fibers ([lib/fiber/src]).  [FiberMutex] is the mutex
      and the parking lot as steps of any number of fibers, [FiberMutexProps]
      its safety and progress; [FiberRwLock] is the reader-writer
      lock over the lock the mutex implements, with its properties; [FiberCondvar]
      is the condition variable, with its properties; [FiberSched] and
      [FiberSchedProps] are the ring of fibers of a group with the chain of
      those that can run ([lib.rs] and the loops of [fiber.s]).
    - Virtio devices ([lib/io/src/hw/virtio], [lib/io/src/block]).
      [VirtioQueue] has the queues over the class [DmaContext], [VirtioMmio]
      the transport over the class [Device], [VirtioBlock] the block device and
      the block device that keeps writes in memory, [VirtioDevices] the entropy
      source, the network card, the console and the file share; each has its
      [Props].
    - Other devices.  [NetDevices] has the Ethernet controller, the clock, the
      logger of a network and the terminal ([lib/io/src/hw/network/xemaclite.rs],
      [lib/io/src/hw/rtc/zyncmp.rs], [lib/io/src/network/logger.rs],
      [lib/io/src/serial/console.rs]), with their properties.
    - The machine.  [Fdt] is the device tree and its encoding ([lib/fdt/src]);
      [IoSystem] the I/O memory map, the devices a configuration asks for and
      the tree that describes them ([src/emu/mod.rs], [src/config.rs]);
      [Loader] the loading of kernels, firmware and user programs
      ([src/emu/loader.rs]), with [LoaderProps] for the first two and
      [LoaderUser] for the last; [Main] the command line, the start of a run
      and what happens when the harts stop ([src/main.rs], [src/sim/mod.rs]);
      [Syscall] the system calls of user programs and the structures they
      convert ([src/emu/syscall.rs], [src/emu/abi.rs]).  The properties of
      [IoSystem] are in [IoSystemProps], those of the others in their files.

    ** How the code is modelled

    A Rust integer is a [Z] in the range of its type; [wrap] and [sext] write
    out the reductions ([as], [wrapping_*]), and plain [+], [-], [*] on [u64]
    wrap as they do in the release profile.  A [panic!], failed [assert!],
    index out of range or [unimplemented!] is [None] (decoder, floating
    point) or [Panic] (hart); an [Err] return is [Err]; exiting the process is
    [ProcessExit].  The state of all harts is one record, with the index of the
    hart that runs ([own]); the closures other harts queue are data ([Task]).
    What the sources only call is a parameter: the devices, the clock, system
    call emulation and the sleep primitives are the class [Platform] (its laws,
    which say what they leave alone, [PlatformLaws]), the code generator as
    [translate_code] uses it the class [Compiler] (its law: a block fits the
    space reserved for it), the host of the loader and of the system calls the
    classes [Host], [Files] and [Libc], the file system behind 9P the class
    [FileSystem] (the calls of the host that its instance for the files of the
    host makes are arguments), and the memory of devices the class
    [DmaContext].  They have
    instances for which the laws are proved.  Translated code is a list of x86
    instructions, in which positions count instructions where the source counts
    bytes.  A task of a device is a function from one round to the next; what
    it waits for is an argument, so that theorems over sequences of rounds hold
    for every order of arrival.

    ** Fuel and bounds

    [translate_loop] gets 2048 iterations: an instruction has at least two
    bytes and a block stays in its page of 4096, and [block_discovery] shows
    that the loop never runs out.  The digit loops of division and square root
    run over the number of bits of the significand as the source's loops do.
    [EventLoop.handle_events] gets the number of queued events and live timers,
    which [timer_interrupts] shows to be enough; [P9Handler.readdir_loop] one
    iteration per 24 bytes of the reply, the least an entry takes, which
    [server_answers] shows to be enough; the UTF-8 check one iteration per
    byte.  The chain of descriptors of a virtio buffer gets the size of its
    queue, and what is longer loops ([virtio_take]); reading, writing and
    copying streams one iteration per byte; hexadecimal digits of 64-bit
    numbers 16 and decimal ones 20 iterations; the search for the previous
    fiber of a ring the number of fibers, and the loop that yields the cycles
    that are left plus one, which [fibers_scheduled] shows to be enough; the
    reader of device trees the length of the blob; reading a string of the
    guest the bound [string_limit] of the class [Libc].

    ** What the theorems show

    - Decoding and encoding are inverse on the operations and words that have
      an encoding, and the disassembly of an operation is read back; decoding
      is total; the 16-bit instructions expand to the
      32-bit instructions the specification names.
    - The page walk returns exactly the mapping the tables define, and access
      checks are those of the privileged specification but for one case
      ([Mmu.supervisor_executes_user_page]).
    - Addition, subtraction, multiplication, fused multiply-add, division,
      square root, conversions and comparisons return the correctly rounded
      result with the IEEE 754 flags, on every operand; the exceptions are
      theorems too.
    - Every state a hart reaches is well typed; x0 is zero as long as no
      misaligned load into x0 is emulated, which writes it
      ([misaligned_load_spoils]); an interrupt that can be taken raises the
      alarm; the discovery of blocks ends, stays in its page and cannot fail.
    - Over every history of accesses and pin changes, the outputs of the
      interrupt controller are those its specification demands, and a claim
      returns the right interrupt; in lockstep mode a timer interrupt is never
      early and is pending once its time has passed ([timer_callback_race] and
      [threaded_wait_oversleeps] are what threads do to it).
    - The x86 decoder inverts the encoder; an instruction has at most 15 bytes.
      The code the translator emits for integer computation leaves the
      registers the interpreter leaves, its lookup in the data cache does what
      address translation does, and every jump of a finished block leads to an
      instruction of the block or to a helper; the translator panics exactly
      when the encoder refuses an operation, as for shifts by a negative
      constant.  The handler of memory faults completes a device access as the
      instruction would have and resumes after it.
    - The 9P server reads what a client writes and writes what a client reads;
      every request on open fids is answered if the calls it makes on the file
      system return and the reply fits the buffer of the guest (but for times
      of 2^63 seconds or more, which panic), the fids change as the protocol
      says, and a directory is listed completely.  [passthrough_returns] says
      when the calls on the files of the host return.
    - The fiber mutex refines a lock under every interleaving, and of the
      fibers that wait for it one gets it without help from fibers outside; a
      writer of the reader-writer lock is alone; the condition variable loses
      no wake-up while fibers take turns and none returns, and can read a dead
      entry when they run in parallel ([unpark_all_dangles]) or leave one when a
      fiber returns ([exit_leaves_entry]); the ring of fibers and its chain stay
      consistent in every order of the operations, and a fiber that returns can
      resume one that is parked ([exit_resumes_parked]).
    - Virtio: a buffer is the chain of its descriptors, requests are served
      byte for byte, the registers stay within their types and the panics are
      known, a shadow disk reads like a disk, a device has one receiver.  The
      Ethernet controller sends each packet once and in order, keeps received
      frames until they are taken, and on aligned accesses panics only when it
      is to send after a send has failed; what is typed at the terminal reaches
      its reader in order.
    - The I/O memory map has disjoint regions and finds them; the nodes of the
      device tree are those of the registered devices, one for one; the encoded
      tree is read back by a reader of the specification; the machine starts
      for every configuration within its limits.
    - A system boots with the kernel, the tree and the firmware in memory and
      the harts at their entry; a user program finds its segments, its stack,
      arguments and auxiliary vectors; the break of its heap moves over zeroed
      memory.

    ** Not modelled

    Logging, the disassembly of x86 code, statistics and the trace of system
    calls (output only).  The distances in bytes of short jumps, the assembly stubs that
    enter and leave translated code, and the switch of stacks between fibers.
    What the host does behind its system calls: the files of the host, the modes
    of the terminal, the user-mode network (a binding to the C library
    libslirp), the entropy source, threads and the installation of signal
    handlers.  Fences and the memory model
    of the host: operations of different harts are interleaved at the
    granularity of one operation of the model, those of different fibers at
    the granularity of one shared access, and atomics are sequentially
    consistent. *)

From Stdlib Require Import ZArith Lia Bool List Btauto.
Import ListNotations.
Local Open Scope Z_scope.

(** * Machine integers

    Every Rust integer is a [Z] kept in the range of its type.  [wrap n] is the
    reduction to [n] unsigned bits ([as uN], [wrapping_*]) and [sext n] the
    reinterpretation as an [n]-bit two's complement number ([as iN]). *)

Definition wrap (n x : Z) : Z := x mod 2 ^ n.

Definition sext (n x : Z) : Z :=
  let y := x mod 2 ^ n in if y <? 2 ^ (n - 1) then y else y - 2 ^ n.

Definition u8 : Z -> Z := wrap 8.
Definition u16 : Z -> Z := wrap 16.
Definition u32 : Z -> Z := wrap 32.
Definition u64 : Z -> Z := wrap 64.
Definition u128 : Z -> Z := wrap 128.
Definition i8 : Z -> Z := sext 8.
Definition i16 : Z -> Z := sext 16.
Definition i32 : Z -> Z := sext 32.
Definition i64 : Z -> Z := sext 64.
Definition i128 : Z -> Z := sext 128.

Definition in_u (n x : Z) : Prop := 0 <= x < 2 ^ n.
Definition in_i (n x : Z) : Prop := - 2 ^ (n - 1) <= x < 2 ^ (n - 1).

Declare Scope rust_scope.
Delimit Scope rust_scope with rust.

(** The bit operators, with the precedence they have in Rust: below the
    additive operators and above the comparisons, shifts binding tightest. *)
Notation "a << b" := (Z.shiftl a b) (at level 52, left associativity) : rust_scope.
Notation "a >> b" := (Z.shiftr a b) (at level 52, left associativity) : rust_scope.
Notation "a .& b" := (Z.land a b) (at level 54, left associativity) : rust_scope.
Notation "a .^ b" := (Z.lxor a b) (at level 56, left associativity) : rust_scope.
Notation "a .| b" := (Z.lor a b) (at level 58, left associativity) : rust_scope.
Notation "a <>? b" := (negb (Z.eqb a b)) (at level 70) : rust_scope.

(** Sequencing of computations that may panic ([None]). *)
Notation "'let?' x ':=' m 'in' k" := (match m with Some x => k | None => None end)
  (at level 10, x pattern, m at level 100, k at level 200) : rust_scope.

Local Open Scope rust_scope.

Create HintDb r2vm discriminated.
Create HintDb bits discriminated.

(** ** Ranges *)

Lemma pow2_pos n : 0 <= n -> 0 < 2 ^ n.
Proof. intros; apply Z.pow_pos_nonneg; lia. Qed.

Lemma pow2_split n : 0 < n -> 2 ^ n = 2 * 2 ^ (n - 1).
Proof. intros; rewrite <- Z.pow_succ_r by lia; f_equal; lia. Qed.

Lemma wrap_range n x : 0 <= n -> in_u n (wrap n x).
Proof. intros; apply Z.mod_pos_bound, pow2_pos; assumption. Qed.

Lemma wrap_id n x : in_u n x -> wrap n x = x.
Proof. apply Z.mod_small. Qed.

Lemma sext_range n x : 0 < n -> in_i n (sext n x).
Proof.
  intros; unfold sext, in_i.
  pose proof (Z.mod_pos_bound x (2 ^ n) (pow2_pos n ltac:(lia))).
  rewrite (pow2_split n) in * by lia.
  destruct (Z.ltb_spec (x mod (2 * 2 ^ (n - 1))) (2 ^ (n - 1))); lia.
Qed.

Lemma sext_id n x : 0 < n -> in_i n x -> sext n x = x.
Proof.
  unfold sext, in_i; intros Hn Hx.
  rewrite (pow2_split n) in * by lia.
  set (h := 2 ^ (n - 1)) in *.
  destruct (Z.ltb_spec x 0).
  - rewrite <- (Z.mod_unique_pos x (2 * h) (-1) (x + 2 * h)) by lia.
    destruct (Z.ltb_spec (x + 2 * h) h); lia.
  - rewrite Z.mod_small by lia. destruct (Z.ltb_spec x h); lia.
Qed.

Lemma sext_wrap n x : sext n (wrap n x) = sext n x.
Proof. unfold sext, wrap. rewrite Zmod_mod. reflexivity. Qed.

Lemma wrap_sext n x : 0 < n -> wrap n (sext n x) = wrap n x.
Proof.
  intros; unfold sext, wrap. destruct (_ <? _).
  - apply Zmod_mod.
  - rewrite <- (Z_mod_plus_full (x mod 2 ^ n - 2 ^ n) 1 (2 ^ n)).
    replace (x mod 2 ^ n - 2 ^ n + 1 * 2 ^ n) with (x mod 2 ^ n) by lia.
    apply Zmod_mod.
Qed.

(** A signed value of [n] bits survives a trip through a wider unsigned type. *)
Lemma sext_wrap_id n x : 0 < n -> in_i n x -> sext n (wrap n x) = x.
Proof. intros; rewrite sext_wrap; apply sext_id; assumption. Qed.

#[export] Hint Resolve wrap_range sext_range pow2_pos : r2vm.

(** ** Masks and shifts as arithmetic *)

Lemma land_mask x n : 0 <= n -> x .& (2 ^ n - 1) = x mod 2 ^ n.
Proof.
  intros; rewrite <- Z.land_ones by assumption.
  rewrite Z.ones_equiv, <- Z.sub_1_r; reflexivity.
Qed.

(** The bits of a value of [n] bits vanish from position [n] on, and this is
    how a range is established for the result of a bit operation. *)
Lemma testbit_high n x i : in_u n x -> n <= i -> Z.testbit x i = false.
Proof.
  unfold in_u; intros Hx Hi. destruct (Z.eq_dec x 0) as [->|]; [apply Z.bits_0|].
  apply Z.bits_above_log2; [lia|].
  destruct (Z.lt_ge_cases n 0); [rewrite Z.pow_neg_r in Hx; lia|].
  apply Z.lt_le_trans with n; [apply Z.log2_lt_pow2; lia|lia].
Qed.

Lemma in_u_of_bits n x :
  0 <= n -> 0 <= x -> (forall i, n <= i -> Z.testbit x i = false) -> in_u n x.
Proof.
  intros Hn Hx Hb. split; [assumption|].
  destruct (Z.eq_dec x 0) as [->|]; [apply pow2_pos; assumption|].
  apply Z.log2_lt_pow2; [lia|].
  destruct (Z.lt_ge_cases (Z.log2 x) n) as [|Hge]; [assumption|].
  specialize (Hb _ Hge). rewrite Z.bit_log2 in Hb by lia. discriminate.
Qed.

Lemma land_in_u_r n x m : 0 <= n -> in_u n m -> in_u n (x .& m).
Proof.
  intros Hn Hm. apply in_u_of_bits; [assumption|apply Z.land_nonneg; right; apply Hm|].
  intros i Hi. rewrite Z.land_spec, (testbit_high n m i), andb_false_r by assumption.
  reflexivity.
Qed.

Lemma land_in_u_l n x m : 0 <= n -> in_u n x -> in_u n (x .& m).
Proof. rewrite Z.land_comm; apply land_in_u_r. Qed.

Lemma lor_in_u n x y : 0 <= n -> in_u n x -> in_u n y -> in_u n (x .| y).
Proof.
  intros Hn Hx Hy. apply in_u_of_bits; [assumption|apply Z.lor_nonneg; split; [apply Hx|apply Hy]|].
  intros i Hi. rewrite Z.lor_spec, (testbit_high n x i), (testbit_high n y i) by assumption.
  reflexivity.
Qed.

Lemma lxor_in_u n x y : 0 <= n -> in_u n x -> in_u n y -> in_u n (x .^ y).
Proof.
  intros Hn Hx Hy. apply in_u_of_bits; [assumption|apply Z.lxor_nonneg; split; intros; [apply Hy|apply Hx]|].
  intros i Hi. rewrite Z.lxor_spec, (testbit_high n x i), (testbit_high n y i) by assumption.
  reflexivity.
Qed.

Lemma shiftr_in_u n x k : 0 <= k -> in_u n x -> in_u n (x >> k).
Proof.
  unfold in_u; intros Hk Hx. rewrite Z.shiftr_div_pow2 by assumption.
  pose proof (pow2_pos k Hk). split; [apply Z.div_pos; lia|].
  apply Z.le_lt_trans with x; [apply Z.div_le_upper_bound; nia|lia].
Qed.

Lemma in_u_mono m n x : m <= n -> in_u m x -> in_u n x.
Proof.
  unfold in_u; intros Hmn [H0 H1]; split; [assumption|].
  apply Z.lt_le_trans with (2 ^ m); [assumption|apply Z.pow_le_mono_r; lia].
Qed.

#[export] Hint Resolve land_in_u_r land_in_u_l lor_in_u lxor_in_u shiftr_in_u : r2vm.

(** A contiguous mask extracts a field; [lo] is its position, [len] its width. *)
Lemma land_field x lo len :
  0 <= lo -> 0 <= len ->
  x .& ((2 ^ len - 1) * 2 ^ lo) = (x / 2 ^ lo mod 2 ^ len) * 2 ^ lo.
Proof.
  intros. rewrite <- !Z.shiftl_mul_pow2, <- Z.shiftr_div_pow2 by assumption.
  rewrite <- land_mask by assumption.
  apply Z.bits_inj'; intros i Hi.
  rewrite Z.land_spec, !Z.shiftl_spec by assumption.
  destruct (Z.lt_ge_cases i lo).
  - rewrite !Z.testbit_neg_r with (n := i - lo) by lia. apply andb_false_r.
  - rewrite Z.land_spec, Z.shiftr_spec by lia. do 2 f_equal; lia.
Qed.

(** A disjunction of fields in descending order is their sum. *)
Lemma lor_add a b k :
  0 <= k -> 0 <= b < 2 ^ k -> a mod 2 ^ k = 0 -> a .| b = a + b.
Proof.
  intros Hk Hb Ha. pose proof (pow2_pos k Hk).
  rewrite Z.add_nocarry_lxor, Z.lxor_lor; [reflexivity| |];
    (apply Z.bits_inj'; intros i Hi; rewrite Z.land_spec, Z.bits_0;
     destruct (Z.lt_ge_cases i k);
     [replace a with (a / 2 ^ k * 2 ^ k)
        by (rewrite (Z.div_mod a (2 ^ k)) at 2; lia);
      rewrite Z.mul_pow2_bits_low by assumption; reflexivity
     |rewrite (testbit_high k b i) by assumption; apply andb_false_r]).
Qed.

(** The same with the low part first. *)
Lemma lor_add_low b a k : 0 <= k -> in_u k b -> b .| (a * 2 ^ k) = b + a * 2 ^ k.
Proof.
  intros Hk Hb. rewrite Z.lor_comm, (lor_add _ _ k); try assumption; [lia|].
  apply Z.mod_mul. pose proof (pow2_pos k Hk). lia.
Qed.

Lemma lor4_add a b c d i j k :
  0 <= k <= j -> j <= i ->
  0 <= b < 2 ^ i -> 0 <= c < 2 ^ j -> 0 <= d < 2 ^ k ->
  a mod 2 ^ i = 0 -> b mod 2 ^ j = 0 -> c mod 2 ^ k = 0 ->
  a .| b .| c .| d = a + b + c + d.
Proof.
  assert (forall x m n, 0 <= n <= m -> x mod 2 ^ m = 0 -> x mod 2 ^ n = 0) as Hmono.
  { intros x m n Hmn Hx. replace m with (n + (m - n)) in Hx by lia.
    rewrite Z.pow_add_r in Hx by lia. apply Z.mod_divide in Hx;
      [|pose proof (pow2_pos n); pose proof (pow2_pos (m - n)); nia].
    apply Z.mod_divide; [pose proof (pow2_pos n); lia|].
    apply Z.divide_trans with (2 ^ n * 2 ^ (m - n)); [apply Z.divide_factor_l|assumption]. }
  assert (forall x y n, 0 <= n -> x mod 2 ^ n = 0 -> y mod 2 ^ n = 0 -> (x + y) mod 2 ^ n = 0) as Hadd.
  { intros x y n Hn Hx Hy. rewrite Zplus_mod, Hx, Hy. apply Zmod_0_l. }
  intros Hk Hj Hb Hc Hd Ha Hb' Hc'.
  assert (a mod 2 ^ j = 0) by (apply (Hmono a i); trivial; lia).
  assert (a mod 2 ^ k = 0) by (apply (Hmono a j); trivial; lia).
  assert (b mod 2 ^ k = 0) by (apply (Hmono b j); trivial; lia).
  rewrite (lor_add a b i), (lor_add (a + b) c j), (lor_add (a + b + c) d k);
    repeat apply Hadd; trivial; lia.
Qed.

(** Replacing the field of width [len] at position [lo], the idiom
    [(x & !mask) | (v << lo)]. *)
Lemma land_lnot x m : x .& Z.lnot m = x - (x .& m).
Proof.
  rewrite <- Z.ldiff_land, Z.sub_nocarry_ldiff;
    apply Z.bits_inj'; intros i Hi; rewrite ?Z.ldiff_spec, ?Z.land_spec, ?Z.bits_0;
    destruct (Z.testbit x i), (Z.testbit m i); reflexivity.
Qed.

Lemma set_field h f l g lo len :
  0 <= lo -> 0 <= len -> in_u len f -> in_u len g -> in_u lo l ->
  (((h * 2 ^ len + f) * 2 ^ lo + l) .& Z.lnot ((2 ^ len - 1) * 2 ^ lo)) .| (g * 2 ^ lo)
  = (h * 2 ^ len + g) * 2 ^ lo + l.
Proof.
  unfold in_u; intros Hlo Hlen Hf Hg Hl.
  pose proof (pow2_pos lo Hlo). pose proof (pow2_pos len Hlen).
  rewrite land_lnot, land_field by assumption.
  rewrite Z.div_add_l, (Z.div_small l), Z.add_0_r by lia.
  rewrite Z.add_comm with (n := h * 2 ^ len), Z.mod_add, Z.mod_small by lia.
  replace ((f + h * 2 ^ len) * 2 ^ lo + l - f * 2 ^ lo) with (h * 2 ^ len * 2 ^ lo + l) by ring.
  rewrite <- (lor_add (h * 2 ^ len * 2 ^ lo) l lo), <- Z.lor_assoc, (Z.lor_comm l), Z.lor_assoc
    by (first [lia | apply Z.mod_mul; lia]).
  rewrite (lor_add (h * 2 ^ len * 2 ^ lo) (g * 2 ^ lo) (len + lo)), <- Z.mul_add_distr_r;
    rewrite ?Z.pow_add_r, <- ?Z.mul_assoc by lia;
    [apply (lor_add _ l lo); first [lia | apply Z.mod_mul; lia] | lia | nia | apply Z.mod_mul; nia].
Qed.

(** [as i32], [as i64] on a value already known to fit the unsigned type. *)
Lemma sext_unsigned n x :
  in_u n x -> sext n x = if x <? 2 ^ (n - 1) then x else x - 2 ^ n.
Proof. intros; unfold sext; rewrite Z.mod_small by assumption; reflexivity. Qed.

(** Testing a flag, the Rust idiom [x & FLAG == 0]. *)
Lemma land_pow2 x k : 0 <= k -> x .& 2 ^ k = if Z.testbit x k then 2 ^ k else 0.
Proof.
  intros Hk. apply Z.bits_inj'; intros i Hi. rewrite Z.land_spec, Z.pow2_bits_eqb by assumption.
  destruct (Z.eqb_spec k i) as [->|Hne].
  - rewrite andb_true_r. destruct (Z.testbit x i);
      [rewrite Z.pow2_bits_true by assumption|rewrite Z.bits_0]; reflexivity.
  - rewrite andb_false_r. destruct (Z.testbit x k); [|rewrite Z.bits_0; reflexivity].
    rewrite Z.pow2_bits_false by congruence. reflexivity.
Qed.

Lemma flag_clear x k : 0 <= k -> (x .& 2 ^ k =? 0) = negb (Z.testbit x k).
Proof.
  intros Hk. rewrite land_pow2 by assumption. pose proof (pow2_pos k Hk).
  destruct (Z.testbit x k); [apply Z.eqb_neq; lia|reflexivity].
Qed.

Lemma testbit_lor_flag x y k : Z.testbit (x .| y) k = Z.testbit x k || Z.testbit y k.
Proof. apply Z.lor_spec. Qed.

(** ** Tactics *)

(** Close a goal by evaluating it. *)
Ltac computed := vm_compute; first [reflexivity | intuition congruence].

(** Case analysis on the tests of the goal, remembering their outcome. *)
Ltac split_if :=
  match goal with
  | |- context [if ?b then _ else _] => destruct b eqn:?
  end.

(** Turn boolean comparisons of [Z] in the context into propositions. *)
Ltac zbool :=
  repeat match goal with
  | H : (_ =? _) = true |- _ => apply Z.eqb_eq in H
  | H : (_ =? _) = false |- _ => apply Z.eqb_neq in H
  | H : (_ <? _) = true |- _ => apply Z.ltb_lt in H
  | H : (_ <? _) = false |- _ => apply Z.ltb_ge in H
  | H : (_ <=? _) = true |- _ => apply Z.leb_le in H
  | H : (_ <=? _) = false |- _ => apply Z.leb_gt in H
  | H : negb _ = true |- _ => apply negb_true_iff in H
  | H : negb _ = false |- _ => apply negb_false_iff in H
  | H : _ && _ = true |- _ => apply andb_true_iff in H as [? ?]
  | H : _ || _ = false |- _ => apply orb_false_iff in H as [? ?]
  end.

(** Evaluate the powers of two with a closed exponent. *)
Ltac pow2_consts :=
  repeat match goal with
  | |- context [2 ^ ?k] =>
      let v := eval vm_compute in (2 ^ k) in
      progress change (2 ^ k) with v
  | H : context [2 ^ ?k] |- _ =>
      let v := eval vm_compute in (2 ^ k) in
      progress change (2 ^ k) with v in H
  end.

(** Linear arithmetic with division and remainder by constants. *)
Ltac dlia :=
  unfold in_u, in_i in *; pow2_consts; Z.div_mod_to_equations; lia.
