(* ===== verification/RiscvCsr.v ===== *)
(** The control and status registers of lib/riscv/src/csr.rs: the numbering,
    the privilege level and the read-only property a CSR number encodes. *)

From Stdlib Require Import ZArith Lia Bool List.
From S2P Require Import Prelude.
Local Open Scope Z_scope.
Local Open Scope rust_scope.

(** [struct Csr(pub u16)], a transparent wrapper: the 12-bit CSR number. *)
Definition Csr : Type := Z.

Module Csr.

Definition Fflags : Csr := 0x001.
Definition Frm : Csr := 0x002.
Definition Fcsr : Csr := 0x003.
Definition Cycle : Csr := 0xc00.
Definition Time : Csr := 0xc01.
Definition Instret : Csr := 0xc02.
Definition Cycleh : Csr := 0xc80.
Definition Timeh : Csr := 0xc81.
Definition Instreth : Csr := 0xc82.
Definition Sstatus : Csr := 0x100.
Definition Sie : Csr := 0x104.
Definition Stvec : Csr := 0x105.
Definition Scounteren : Csr := 0x106.
Definition Sscratch : Csr := 0x140.
Definition Sepc : Csr := 0x141.
Definition Scause : Csr := 0x142.
Definition Stval : Csr := 0x143.
Definition Sip : Csr := 0x144.
Definition Satp : Csr := 0x180.
Definition Mvendorid : Csr := 0xf11.
Definition Marchid : Csr := 0xf12.
Definition Mimpid : Csr := 0xf13.
Definition Mhartid : Csr := 0xf14.
Definition Mstatus : Csr := 0x300.
Definition Misa : Csr := 0x301.
Definition Medeleg : Csr := 0x302.
Definition Mideleg : Csr := 0x303.
Definition Mie : Csr := 0x304.
Definition Mtvec : Csr := 0x305.
Definition Mcounteren : Csr := 0x306.
Definition Mscratch : Csr := 0x340.
Definition Mepc : Csr := 0x341.
Definition Mcause : Csr := 0x342.
Definition Mtval : Csr := 0x343.
Definition Mip : Csr := 0x344.
Definition Mcycle : Csr := 0xb00.
Definition Mtime : Csr := 0xb01.
Definition Minstret : Csr := 0xb02.

(** [Csr::min_prv_level]: bits 9:8 of the number. *)
Definition min_prv_level (self : Csr) : Z := u8 ((self >> 8) .& 3).

(** [Csr::readonly]: bits 11:10 both set. *)
Definition readonly (self : Csr) : bool := ((self >> 10) .& 3) =? 3.

End Csr.

Lemma csr_min_prv_level_range c : 0 <= Csr.min_prv_level c < 4.
Proof.
  unfold Csr.min_prv_level, u8.
  assert (in_u 2 ((c >> 8) .& 3)) by (apply land_in_u_r; [lia|split; [lia|reflexivity]]).
  rewrite wrap_id by (apply (in_u_mono 2); [lia|assumption]). assumption.
Qed.

#[export] Hint Resolve csr_min_prv_level_range : r2vm.
