(* ===== verification/RiscvOp.v ===== *)
(** The instruction set of lib/riscv/src/op.rs: the decoded operations and the
    three queries on them the translator and the pipeline models use. *)

From Stdlib Require Import ZArith Lia Bool List.
From S2P Require Import Prelude RiscvCsr.
Local Open Scope Z_scope.
Local Open Scope rust_scope.

Module Op.

(** [enum Ordering]: the aq/rl bits of an atomic. *)
Inductive Ordering : Type := Relaxed | Release | Acquire | SeqCst.

(** [core::sync::atomic::Ordering], the target of [From<Ordering>]. *)
Inductive MemOrder : Type := MoRelaxed | MoRelease | MoAcquire | MoAcqRel | MoSeqCst.

(** [impl From<Ordering> for MemOrder]. *)
Definition from_ordering (ord : Ordering) : MemOrder :=
  match ord with
  | Relaxed => MoRelaxed
  | Acquire => MoAcquire
  | Release => MoRelease
  | SeqCst => MoSeqCst
  end.

(** [enum Op].  The [u8] register numbers, the [i32] immediates and the [u8]
    rounding modes are [Z]. *)
Inductive Op : Type :=
| Illegal
  (* RV64I *)
  (* Base Opcode = LOAD *)
| Lb (rd rs1 imm : Z)
| Lh (rd rs1 imm : Z)
| Lw (rd rs1 imm : Z)
| Ld (rd rs1 imm : Z)
| Lbu (rd rs1 imm : Z)
| Lhu (rd rs1 imm : Z)
| Lwu (rd rs1 imm : Z)
  (* Base Opcode = LOAD-FP *)
  (* Base Opcode = MISC-MEM *)
| Fence
| FenceI
  (* Base Opcode = OP-IMM *)
| Addi (rd rs1 imm : Z)
| Slli (rd rs1 imm : Z)
| Slti (rd rs1 imm : Z)
| Sltiu (rd rs1 imm : Z)
| Xori (rd rs1 imm : Z)
| Srli (rd rs1 imm : Z)
| Srai (rd rs1 imm : Z)
| Ori (rd rs1 imm : Z)
| Andi (rd rs1 imm : Z)
  (* Base Opcode = AUIPC *)
| Auipc (rd imm : Z)
  (* Base Opcode = OP-IMM-32 *)
| Addiw (rd rs1 imm : Z)
| Slliw (rd rs1 imm : Z)
| Srliw (rd rs1 imm : Z)
| Sraiw (rd rs1 imm : Z)
  (* Base Opcode = STORE *)
| Sb (rs1 rs2 imm : Z)
| Sh (rs1 rs2 imm : Z)
| Sw (rs1 rs2 imm : Z)
| Sd (rs1 rs2 imm : Z)
  (* Base Opcode = STORE-FP *)
  (* Base Opcode = AMO *)
  (* Base Opcode = OP *)
| Add (rd rs1 rs2 : Z)
| Sub (rd rs1 rs2 : Z)
| Sll (rd rs1 rs2 : Z)
| Slt (rd rs1 rs2 : Z)
| Sltu (rd rs1 rs2 : Z)
| Xor (rd rs1 rs2 : Z)
| Srl (rd rs1 rs2 : Z)
| Sra (rd rs1 rs2 : Z)
| Or (rd rs1 rs2 : Z)
| And (rd rs1 rs2 : Z)
  (* Base Opcode = LUI *)
| Lui (rd imm : Z)
  (* Base Opcode = OP-32 *)
| Addw (rd rs1 rs2 : Z)
| Subw (rd rs1 rs2 : Z)
| Sllw (rd rs1 rs2 : Z)
| Srlw (rd rs1 rs2 : Z)
| Sraw (rd rs1 rs2 : Z)
  (* Base Opcode = MADD *)
  (* Base Opcode = MSUB *)
  (* Base Opcode = NMSUB *)
  (* Base Opcode = NMADD *)
  (* Base Opcode = OP-FP *)
  (* Base Opcode = BRANCH *)
| Beq (rs1 rs2 imm : Z)
| Bne (rs1 rs2 imm : Z)
| Blt (rs1 rs2 imm : Z)
| Bge (rs1 rs2 imm : Z)
| Bltu (rs1 rs2 imm : Z)
| Bgeu (rs1 rs2 imm : Z)
  (* Base Opcode = JALR *)
| Jalr (rd rs1 imm : Z)
  (* Base Opcode = JAL *)
| Jal (rd imm : Z)
  (* Base Opcode = SYSTEM *)
| Ecall
| Ebreak
| Csrrw (rd rs1 : Z) (csr : Csr)
| Csrrs (rd rs1 : Z) (csr : Csr)
| Csrrc (rd rs1 : Z) (csr : Csr)
| Csrrwi (rd imm : Z) (csr : Csr)
| Csrrsi (rd imm : Z) (csr : Csr)
| Csrrci (rd imm : Z) (csr : Csr)
  (* M extension *)
  (* Base Opcode = OP *)
| Mul (rd rs1 rs2 : Z)
| Mulh (rd rs1 rs2 : Z)
| Mulhsu (rd rs1 rs2 : Z)
| Mulhu (rd rs1 rs2 : Z)
| Div (rd rs1 rs2 : Z)
| Divu (rd rs1 rs2 : Z)
| Rem (rd rs1 rs2 : Z)
| Remu (rd rs1 rs2 : Z)
  (* Base Opcode = OP-32 *)
| Mulw (rd rs1 rs2 : Z)
| Divw (rd rs1 rs2 : Z)
| Divuw (rd rs1 rs2 : Z)
| Remw (rd rs1 rs2 : Z)
| Remuw (rd rs1 rs2 : Z)
  (* A extension *)
  (* Base Opcode = AMO *)
| LrW (rd rs1 : Z) (aqrl : Ordering)
| LrD (rd rs1 : Z) (aqrl : Ordering)
| ScW (rd rs1 rs2 : Z) (aqrl : Ordering)
| ScD (rd rs1 rs2 : Z) (aqrl : Ordering)
| AmoswapW (rd rs1 rs2 : Z) (aqrl : Ordering)
| AmoswapD (rd rs1 rs2 : Z) (aqrl : Ordering)
| AmoaddW (rd rs1 rs2 : Z) (aqrl : Ordering)
| AmoaddD (rd rs1 rs2 : Z) (aqrl : Ordering)
| AmoxorW (rd rs1 rs2 : Z) (aqrl : Ordering)
| AmoxorD (rd rs1 rs2 : Z) (aqrl : Ordering)
| AmoandW (rd rs1 rs2 : Z) (aqrl : Ordering)
| AmoandD (rd rs1 rs2 : Z) (aqrl : Ordering)
| AmoorW (rd rs1 rs2 : Z) (aqrl : Ordering)
| AmoorD (rd rs1 rs2 : Z) (aqrl : Ordering)
| AmominW (rd rs1 rs2 : Z) (aqrl : Ordering)
| AmominD (rd rs1 rs2 : Z) (aqrl : Ordering)
| AmomaxW (rd rs1 rs2 : Z) (aqrl : Ordering)
| AmomaxD (rd rs1 rs2 : Z) (aqrl : Ordering)
| AmominuW (rd rs1 rs2 : Z) (aqrl : Ordering)
| AmominuD (rd rs1 rs2 : Z) (aqrl : Ordering)
| AmomaxuW (rd rs1 rs2 : Z) (aqrl : Ordering)
| AmomaxuD (rd rs1 rs2 : Z) (aqrl : Ordering)
  (* F extension *)
  (* Base Opcode = LOAD-FP *)
| Flw (frd rs1 imm : Z)
  (* Base Opcode = STORE-FP *)
| Fsw (rs1 frs2 imm : Z)
  (* Base Opcode = OP-FP *)
| FaddS (frd frs1 frs2 rm : Z)
| FsubS (frd frs1 frs2 rm : Z)
| FmulS (frd frs1 frs2 rm : Z)
| FdivS (frd frs1 frs2 rm : Z)
| FsqrtS (frd frs1 rm : Z)
| FsgnjS (frd frs1 frs2 : Z)
| FsgnjnS (frd frs1 frs2 : Z)
| FsgnjxS (frd frs1 frs2 : Z)
| FminS (frd frs1 frs2 : Z)
| FmaxS (frd frs1 frs2 : Z)
| FcvtWS (rd frs1 rm : Z)
| FcvtWuS (rd frs1 rm : Z)
| FcvtLS (rd frs1 rm : Z)
| FcvtLuS (rd frs1 rm : Z)
| FmvXW (rd frs1 : Z)
| FclassS (rd frs1 : Z)
| FeqS (rd frs1 frs2 : Z)
| FltS (rd frs1 frs2 : Z)
| FleS (rd frs1 frs2 : Z)
| FcvtSW (frd rs1 rm : Z)
| FcvtSWu (frd rs1 rm : Z)
| FcvtSL (frd rs1 rm : Z)
| FcvtSLu (frd rs1 rm : Z)
| FmvWX (frd rs1 : Z)
  (* Base Opcode = MADD *)
| FmaddS (frd frs1 frs2 frs3 rm : Z)
  (* Base Opcode = MSUB *)
| FmsubS (frd frs1 frs2 frs3 rm : Z)
  (* Base Opcode = NMSUB *)
| FnmsubS (frd frs1 frs2 frs3 rm : Z)
  (* Base Opcode = NMADD *)
| FnmaddS (frd frs1 frs2 frs3 rm : Z)
  (* D extension *)
  (* Base Opcode = LOAD-FP *)
| Fld (frd rs1 imm : Z)
  (* Base Opcode = STORE-FP *)
| Fsd (rs1 frs2 imm : Z)
  (* Base Opcode = OP-FP *)
| FaddD (frd frs1 frs2 rm : Z)
| FsubD (frd frs1 frs2 rm : Z)
| FmulD (frd frs1 frs2 rm : Z)
| FdivD (frd frs1 frs2 rm : Z)
| FsqrtD (frd frs1 rm : Z)
| FsgnjD (frd frs1 frs2 : Z)
| FsgnjnD (frd frs1 frs2 : Z)
| FsgnjxD (frd frs1 frs2 : Z)
| FminD (frd frs1 frs2 : Z)
| FmaxD (frd frs1 frs2 : Z)
| FcvtSD (frd frs1 rm : Z)
| FcvtDS (frd frs1 rm : Z)
| FcvtWD (rd frs1 rm : Z)
| FcvtWuD (rd frs1 rm : Z)
| FcvtLD (rd frs1 rm : Z)
| FcvtLuD (rd frs1 rm : Z)
| FmvXD (rd frs1 : Z)
| FclassD (rd frs1 : Z)
| FeqD (rd frs1 frs2 : Z)
| FltD (rd frs1 frs2 : Z)
| FleD (rd frs1 frs2 : Z)
| FcvtDW (frd rs1 rm : Z)
| FcvtDWu (frd rs1 rm : Z)
| FcvtDL (frd rs1 rm : Z)
| FcvtDLu (frd rs1 rm : Z)
| FmvDX (frd rs1 : Z)
  (* Base Opcode = MADD *)
| FmaddD (frd frs1 frs2 frs3 rm : Z)
  (* Base Opcode = MSUB *)
| FmsubD (frd frs1 frs2 frs3 rm : Z)
  (* Base Opcode = NMSUB *)
| FnmsubD (frd frs1 frs2 frs3 rm : Z)
  (* Base Opcode = NMADD *)
| FnmaddD (frd frs1 frs2 frs3 rm : Z)
  (* Privileged *)
| Mret
| Sret
| Wfi
| SfenceVma (rs1 rs2 : Z).

(** [Op::can_change_control_flow]: whether a basic block ends at the op. *)
Definition can_change_control_flow (self : Op) : bool :=
  match self with
  | Beq _ _ _ | Bne _ _ _ | Blt _ _ _ | Bge _ _ _ | Bltu _ _ _ | Bgeu _ _ _
  | Jalr _ _ _ | Jal _ _
  | Mret | Sret
  | Ecall | Ebreak | Illegal
  | FenceI | SfenceVma _ _ => true
  | Csrrw _ _ csr | Csrrs _ _ csr | Csrrc _ _ csr
  | Csrrwi _ _ csr | Csrrsi _ _ csr | Csrrci _ _ csr =>
      (csr =? Csr.Instret) || (csr =? Csr.Instreth) || (csr =? Csr.Satp)
  | _ => false
  end.

(** [Op::min_prv_level]: the privilege level needed to execute the op. *)
Definition min_prv_level (self : Op) : Z :=
  match self with
  | Csrrw _ _ csr | Csrrs _ _ csr | Csrrc _ _ csr
  | Csrrwi _ _ csr | Csrrsi _ _ csr | Csrrci _ _ csr => Csr.min_prv_level csr
  | Mret => 3
  | Sret | Wfi | SfenceVma _ _ => 1
  | _ => 0
  end.

(** [Op::get_regs]: the integer (rd, rs1, rs2) of the op, 0 where it has none. *)
Definition get_regs (self : Op) : Z * Z * Z :=
  match self with
  | Illegal => (0, 0, 0)
  | Lui rd _ | Auipc rd _ => (rd, 0, 0)
  | Jal rd _ => (rd, 0, 0)
  | Beq rs1 rs2 _ | Bne rs1 rs2 _ | Blt rs1 rs2 _ | Bge rs1 rs2 _ | Bltu rs1 rs2 _
  | Bgeu rs1 rs2 _ => (0, rs1, rs2)
  | Lb rd rs1 _ | Lh rd rs1 _ | Lw rd rs1 _ | Ld rd rs1 _ | Lbu rd rs1 _ | Lhu rd rs1 _
  | Lwu rd rs1 _ => (rd, rs1, 0)
  | Jalr rd rs1 _ => (rd, rs1, 0)
  | Fence => (0, 0, 0)
  | FenceI => (0, 0, 0)
  | Ecall | Ebreak => (0, 0, 0)
  | Mret | Sret => (0, 0, 0)
  | Wfi => (0, 0, 0)
  | SfenceVma rs1 rs2 => (0, rs1, rs2)
  | Sb rs1 rs2 _ | Sh rs1 rs2 _ | Sw rs1 rs2 _ | Sd rs1 rs2 _ => (0, rs1, rs2)
  | Addi rd rs1 _ | Slti rd rs1 _ | Sltiu rd rs1 _ | Xori rd rs1 _ | Ori rd rs1 _
  | Andi rd rs1 _ | Addiw rd rs1 _ | Slli rd rs1 _ | Srli rd rs1 _ | Srai rd rs1 _
  | Slliw rd rs1 _ | Srliw rd rs1 _ | Sraiw rd rs1 _ => (rd, rs1, 0)
  | Add rd rs1 rs2 | Sub rd rs1 rs2 | Sll rd rs1 rs2 | Slt rd rs1 rs2 | Sltu rd rs1 rs2
  | Xor rd rs1 rs2 | Srl rd rs1 rs2 | Sra rd rs1 rs2 | Or rd rs1 rs2 | And rd rs1 rs2
  | Addw rd rs1 rs2 | Subw rd rs1 rs2 | Sllw rd rs1 rs2 | Srlw rd rs1 rs2
  | Sraw rd rs1 rs2 => (rd, rs1, rs2)
  | Mul rd rs1 rs2 => (rd, rs1, rs2)
  | Mulh rd rs1 rs2 | Mulhsu rd rs1 rs2 | Mulhu rd rs1 rs2 => (rd, rs1, rs2)
  | Div rd rs1 rs2 | Divu rd rs1 rs2 | Rem rd rs1 rs2 | Remu rd rs1 rs2 => (rd, rs1, rs2)
  | Mulw rd rs1 rs2 => (rd, rs1, rs2)
  | Divw rd rs1 rs2 | Divuw rd rs1 rs2 | Remw rd rs1 rs2 | Remuw rd rs1 rs2 => (rd, rs1, rs2)
  | Csrrw rd rs1 _ | Csrrs rd rs1 _ | Csrrc rd rs1 _ => (rd, rs1, 0)
  | Csrrwi rd _ _ | Csrrsi rd _ _ | Csrrci rd _ _ => (rd, 0, 0)
  | LrW rd rs1 _ | LrD rd rs1 _ => (rd, rs1, 0)
  | ScW rd rs1 rs2 _ | ScD rd rs1 rs2 _ | AmoswapW rd rs1 rs2 _ | AmoswapD rd rs1 rs2 _
  | AmoaddW rd rs1 rs2 _ | AmoaddD rd rs1 rs2 _ | AmoxorW rd rs1 rs2 _
  | AmoxorD rd rs1 rs2 _ | AmoandW rd rs1 rs2 _ | AmoandD rd rs1 rs2 _
  | AmoorW rd rs1 rs2 _ | AmoorD rd rs1 rs2 _ | AmominW rd rs1 rs2 _
  | AmominD rd rs1 rs2 _ | AmomaxW rd rs1 rs2 _ | AmomaxD rd rs1 rs2 _
  | AmominuW rd rs1 rs2 _ | AmominuD rd rs1 rs2 _ | AmomaxuW rd rs1 rs2 _
  | AmomaxuD rd rs1 rs2 _ => (rd, rs1, rs2)
  | Flw _ rs1 _ | Fld _ rs1 _ => (0, rs1, 0)
  | Fsw rs1 _ _ | Fsd rs1 _ _ => (0, rs1, 0)
  | FaddS _ _ _ _ | FsubS _ _ _ _ | FmulS _ _ _ _ | FdivS _ _ _ _ | FsgnjS _ _ _
  | FsgnjnS _ _ _ | FsgnjxS _ _ _ | FminS _ _ _ | FmaxS _ _ _ | FaddD _ _ _ _
  | FsubD _ _ _ _ | FmulD _ _ _ _ | FdivD _ _ _ _ | FsgnjD _ _ _ | FsgnjnD _ _ _
  | FsgnjxD _ _ _ | FminD _ _ _ | FmaxD _ _ _ => (0, 0, 0)
  | FsqrtS _ _ _ | FsqrtD _ _ _ | FcvtSD _ _ _ | FcvtDS _ _ _ => (0, 0, 0)
  | FcvtWS rd _ _ | FcvtWuS rd _ _ | FcvtLS rd _ _ | FcvtLuS rd _ _ | FmvXW rd _
  | FclassS rd _ | FcvtWD rd _ _ | FcvtWuD rd _ _ | FcvtLD rd _ _ | FcvtLuD rd _ _
  | FmvXD rd _ | FclassD rd _ => (rd, 0, 0)
  | FcvtSW _ rs1 _ | FcvtSWu _ rs1 _ | FcvtSL _ rs1 _ | FcvtSLu _ rs1 _ | FmvWX _ rs1
  | FcvtDW _ rs1 _ | FcvtDWu _ rs1 _ | FcvtDL _ rs1 _ | FcvtDLu _ rs1 _ | FmvDX _ rs1 => (0, rs1, 0)
  | FeqS rd _ _ | FltS rd _ _ | FleS rd _ _ | FeqD rd _ _ | FltD rd _ _ | FleD rd _ _ => (rd, 0, 0)
  | FmaddS _ _ _ _ _ | FmsubS _ _ _ _ _ | FnmsubS _ _ _ _ _ | FnmaddS _ _ _ _ _
  | FmaddD _ _ _ _ _ | FmsubD _ _ _ _ _ | FnmsubD _ _ _ _ _ | FnmaddD _ _ _ _ _ => (0, 0, 0)
  end.

End Op.
