(* ===== verification/RiscvDecode.v ===== *)
(** The instruction decoder of lib/riscv/src/decode.rs.

    [decode] and [decode_compressed] return [None] where the Rust code panics
    (the [assert!] on the two low bits and the [unreachable!] arms).  The long
    match of each function is cut at its major opcode (for [decode]) or
    quadrant (for [decode_compressed]); the arms are in the source's order. *)

From Stdlib Require Import ZArith Lia Bool List.
From S2P Require Import Prelude RiscvCsr RiscvOp.
Import Op.
Local Open Scope Z_scope.
Local Open Scope rust_scope.

(** ** Decoding helpers for 32-bit instructions *)

Definition rd (bits : Z) : Z := u8 ((bits >> 7) .& 0x1f).
Definition rs1 (bits : Z) : Z := u8 ((bits >> 15) .& 0x1f).
Definition rs2 (bits : Z) : Z := u8 ((bits >> 20) .& 0x1f).
Definition rs3 (bits : Z) : Z := u8 ((bits >> 27) .& 0x1f).
Definition funct3 (bits : Z) : Z := (bits >> 12) .& 7.
Definition funct7 (bits : Z) : Z := (bits >> 25) .& 0x7f.
Definition csr (bits : Z) : Z := u16 (bits >> 20).

Definition i_imm (bits : Z) : Z := i32 bits >> 20.

Definition s_imm (bits : Z) : Z :=
  i32 (bits .& 0xfe000000) >> 20 .| i32 (bits .& 0x00000f80) >> 7.

Definition b_imm (bits : Z) : Z :=
  i32 (bits .& 0x80000000) >> 19
  .| i32 (i32 (bits .& 0x00000080) << 4)
  .| i32 (bits .& 0x7e000000) >> 20
  .| i32 (bits .& 0x00000f00) >> 7.

Definition u_imm (bits : Z) : Z := i32 (bits .& 0xfffff000).

Definition j_imm (instr : Z) : Z :=
  i32 (instr .& 0x80000000) >> 11
  .| i32 (instr .& 0x000ff000) >> 0
  .| i32 (instr .& 0x00100000) >> 9
  .| i32 (instr .& 0x7fe00000) >> 20.

(** ** Decoding helpers for compressed 16-bit instructions *)

(** [i32]'s left shift drops the bits beyond the type. *)
Definition shl32 (x k : Z) : Z := i32 (x << k).

Definition c_funct3 (bits : Z) : Z := (bits >> 13) .& 7.
Definition c_rd (bits : Z) : Z := u8 ((bits >> 7) .& 0x1f).
Definition c_rs1 (bits : Z) : Z := c_rd bits.
Definition c_rs2 (bits : Z) : Z := u8 ((bits >> 2) .& 0x1f).
Definition c_rds (bits : Z) : Z := u8 (u8 ((bits >> 2) .& 7) + 8).
Definition c_rs1s (bits : Z) : Z := u8 (u8 ((bits >> 7) .& 7) + 8).
Definition c_rs2s (bits : Z) : Z := c_rds bits.

Definition ci_imm (bits : Z) : Z :=
  shl32 (bits .& 0x1000) (31 - 12) >> (31 - 5) .| (bits .& 0x007c) >> 2.

Definition ci_lwsp_imm (bits : Z) : Z :=
  shl32 (bits .& 0x000c) 4 .| (bits .& 0x1000) >> 7 .| (bits .& 0x0070) >> 2.

Definition ci_ldsp_imm (bits : Z) : Z :=
  shl32 (bits .& 0x001c) 4 .| (bits .& 0x1000) >> 7 .| (bits .& 0x0060) >> 2.

Definition ci_addi16sp_imm (bits : Z) : Z :=
  shl32 (bits .& 0x1000) (31 - 12) >> (31 - 9)
  .| shl32 (bits .& 0x0018) 4
  .| shl32 (bits .& 0x0020) 1
  .| shl32 (bits .& 0x0004) 3
  .| (bits .& 0x0040) >> 2.

Definition css_swsp_imm (bits : Z) : Z :=
  (bits .& 0x0180) >> 1 .| (bits .& 0x1e00) >> 7.

Definition css_sdsp_imm (bits : Z) : Z :=
  (bits .& 0x0380) >> 1 .| (bits .& 0x1c00) >> 7.

Definition ciw_imm (bits : Z) : Z :=
  (bits .& 0x0780) >> 1
  .| (bits .& 0x1800) >> 7
  .| (bits .& 0x0020) >> 2
  .| (bits .& 0x0040) >> 4.

Definition cl_lw_imm (bits : Z) : Z :=
  shl32 (bits .& 0x0020) 1 .| (bits .& 0x1c00) >> 7 .| (bits .& 0x0040) >> 4.

Definition cl_ld_imm (bits : Z) : Z :=
  shl32 (bits .& 0x0060) 1 .| (bits .& 0x1c00) >> 7.

Definition cs_sw_imm (bits : Z) : Z := cl_lw_imm bits.
Definition cs_sd_imm (bits : Z) : Z := cl_ld_imm bits.

Definition cb_imm (bits : Z) : Z :=
  shl32 (bits .& 0x1000) (31 - 12) >> (31 - 8)
  .| shl32 (bits .& 0x0060) 1
  .| shl32 (bits .& 0x0004) 3
  .| (bits .& 0x0c00) >> 7
  .| (bits .& 0x0018) >> 2.

Definition cj_imm (bits : Z) : Z :=
  shl32 (bits .& 0x1000) (31 - 12) >> (31 - 11)
  .| shl32 (bits .& 0x0100) 2
  .| (bits .& 0x0600) >> 1
  .| shl32 (bits .& 0x0040) 1
  .| (bits .& 0x0080) >> 1
  .| shl32 (bits .& 0x0004) 3
  .| (bits .& 0x0800) >> 7
  .| (bits .& 0x0038) >> 2.

(** ** Compressed instructions *)

(** [match bits & 0b11 { 0b00 => .. }] *)
Definition decode_compressed_q0 (bits function : Z) : option Op :=
  match function with
  | 0 =>
      let imm := ciw_imm bits in
      if imm =? 0 then Some Illegal
      else (* C.ADDI4SPN *) Some (Addi (c_rds bits) 2 imm)
  | 1 => (* C.FLD *) Some (Fld (c_rds bits) (c_rs1s bits) (cl_ld_imm bits))
  | 2 => (* C.LW *) Some (Lw (c_rds bits) (c_rs1s bits) (cl_lw_imm bits))
  | 3 => (* C.LD *) Some (Ld (c_rds bits) (c_rs1s bits) (cl_ld_imm bits))
  | 4 => (* Reserved *) Some Illegal
  | 5 => (* C.FSD *) Some (Fsd (c_rs1s bits) (c_rs2s bits) (cs_sd_imm bits))
  | 6 => (* C.SW *) Some (Sw (c_rs1s bits) (c_rs2s bits) (cs_sw_imm bits))
  | 7 => (* C.SD *) Some (Sd (c_rs1s bits) (c_rs2s bits) (cs_sd_imm bits))
  | _ => None
  end.

(** The register-register group of quadrant 1 ([0b100 => ..]). *)
Definition decode_compressed_alu (bits : Z) : option Op :=
  let rs1 := c_rs1s bits in
  match (bits >> 10) .& 3 with
  | 0 => (* C.SRLI *) Some (Srli rs1 rs1 (ci_imm bits .& 63))
  | 1 => (* C.SRAI *) Some (Srai rs1 rs1 (ci_imm bits .& 63))
  | 2 => (* C.ANDI *) Some (Andi rs1 rs1 (ci_imm bits))
  | 3 =>
      if (bits .& 0x1000) =? 0 then
        let rs2 := c_rs2s bits in
        match (bits >> 5) .& 3 with
        | 0 => Some (Sub rs1 rs1 rs2)
        | 1 => Some (Xor rs1 rs1 rs2)
        | 2 => Some (Or rs1 rs1 rs2)
        | 3 => Some (And rs1 rs1 rs2)
        | _ => None
        end
      else
        let rs2 := c_rs2s bits in
        match (bits >> 5) .& 3 with
        | 0 => Some (Subw rs1 rs1 rs2)
        | 1 => Some (Addw rs1 rs1 rs2)
        | _ => Some Illegal
        end
  | _ => None
  end.

(** [match bits & 0b11 { 0b01 => .. }] *)
Definition decode_compressed_q1 (bits function : Z) : option Op :=
  match function with
  | 0 => (* C.ADDI, C.NOP *)
      let rd := c_rd bits in Some (Addi rd rd (ci_imm bits))
  | 1 =>
      let rd := c_rd bits in
      if rd =? 0 then Some Illegal
      else (* C.ADDIW *) Some (Addiw rd rd (ci_imm bits))
  | 2 => (* C.LI *) Some (Addi (c_rd bits) 0 (ci_imm bits))
  | 3 =>
      let rd := c_rd bits in
      if rd =? 2 then
        let imm := ci_addi16sp_imm bits in
        if imm =? 0 then Some Illegal
        else (* C.ADDI16SP *) Some (Addi 2 2 imm)
      else (* C.LUI *) Some (Lui rd (shl32 (ci_imm bits) 12))
  | 4 => decode_compressed_alu bits
  | 5 => (* C.J *) Some (Jal 0 (cj_imm bits))
  | 6 => (* C.BEQZ *) Some (Beq (c_rs1s bits) 0 (cb_imm bits))
  | 7 => (* C.BNEZ *) Some (Bne (c_rs1s bits) 0 (cb_imm bits))
  | _ => None
  end.

(** [match bits & 0b11 { 0b10 => .. }] *)
Definition decode_compressed_q2 (bits function : Z) : option Op :=
  match function with
  | 0 => (* C.SLLI *)
      let rd := c_rd bits in Some (Slli rd rd (ci_imm bits .& 63))
  | 1 => (* C.FLDSP *) Some (Fld (c_rd bits) 2 (ci_ldsp_imm bits))
  | 2 =>
      let rd := c_rd bits in
      if rd =? 0 then Some Illegal
      else (* C.LWSP *) Some (Lw rd 2 (ci_lwsp_imm bits))
  | 3 =>
      let rd := c_rd bits in
      if rd =? 0 then Some Illegal
      else (* C.LDSP *) Some (Ld rd 2 (ci_ldsp_imm bits))
  | 4 =>
      let rs2 := c_rs2 bits in
      if (bits .& 0x1000) =? 0 then
        if rs2 =? 0 then
          let rs1 := c_rs1 bits in
          if rs1 =? 0 then Some Illegal
          else (* C.JR *) Some (Jalr 0 rs1 0)
        else (* C.MV *) Some (Add (c_rd bits) 0 rs2)
      else
        let rs1 := c_rs1 bits in
        if rs1 =? 0 then (* C.EBREAK *) Some Ebreak
        else if rs2 =? 0 then (* C.JALR *) Some (Jalr 1 rs1 0)
        else (* C.ADD *) let rd := c_rd bits in Some (Add rd rd rs2)
  | 5 => (* C.FSDSP *) Some (Fsd 2 (c_rs2 bits) (css_sdsp_imm bits))
  | 6 => (* C.SWSP *) Some (Sw 2 (c_rs2 bits) (css_swsp_imm bits))
  | 7 => (* C.SDSP *) Some (Sd 2 (c_rs2 bits) (css_sdsp_imm bits))
  | _ => None
  end.

(** [pub fn decode_compressed(bits: u16) -> Op] *)
Definition decode_compressed (bits : Z) : option Op :=
  let function := c_funct3 bits in
  match bits .& 3 with
  | 0 => decode_compressed_q0 bits function
  | 1 => decode_compressed_q1 bits function
  | 2 => decode_compressed_q2 bits function
  | _ => None
  end.

(** ** 32-bit instructions *)

(** The [rm!] macro: a reserved static rounding mode makes [decode] return
    [Op::Illegal] at once; [k] builds the op from an accepted one. *)
Definition with_rm (function : Z) (k : Z -> Op) : option Op :=
  let rm := u8 function in
  if (4 <? rm) && (rm <>? 7) then Some Illegal else Some (k rm).

Definition decode_load (bits function rd rs1 : Z) : option Op :=
  let imm := i_imm bits in
  match function with
  | 0 => Some (Lb rd rs1 imm)
  | 1 => Some (Lh rd rs1 imm)
  | 2 => Some (Lw rd rs1 imm)
  | 3 => Some (Ld rd rs1 imm)
  | 4 => Some (Lbu rd rs1 imm)
  | 5 => Some (Lhu rd rs1 imm)
  | 6 => Some (Lwu rd rs1 imm)
  | _ => Some Illegal
  end.

Definition decode_load_fp (bits function rd rs1 : Z) : option Op :=
  let imm := i_imm bits in
  match function with
  | 2 => Some (Flw rd rs1 imm)
  | 3 => Some (Fld rd rs1 imm)
  | _ => Some Illegal
  end.

Definition decode_op_imm (bits function rd rs1 : Z) : option Op :=
  let imm := i_imm bits in
  match function with
  | 0 => Some (Addi rd rs1 imm)
  | 1 => if 64 <=? imm then Some Illegal else Some (Slli rd rs1 imm)
  | 2 => Some (Slti rd rs1 imm)
  | 3 => Some (Sltiu rd rs1 imm)
  | 4 => Some (Xori rd rs1 imm)
  | 5 =>
      if 64 <=? (imm .& Z.lnot 0x400) then Some Illegal
      else if (imm .& 0x400) <>? 0 then Some (Srai rd rs1 (imm .& Z.lnot 0x400))
      else Some (Srli rd rs1 imm)
  | 6 => Some (Ori rd rs1 imm)
  | 7 => Some (Andi rd rs1 imm)
  | _ => None
  end.

Definition decode_misc_mem (function : Z) : option Op :=
  match function with
  | 0 => Some Fence
  | 1 => Some FenceI
  | _ => Some Illegal
  end.

Definition decode_op_imm_32 (bits function rd rs1 : Z) : option Op :=
  let imm := i_imm bits in
  match function with
  | 0 => Some (Addiw rd rs1 imm)
  | 1 => if 32 <=? imm then Some Illegal else Some (Slliw rd rs1 imm)
  | 5 =>
      if 32 <=? (imm .& Z.lnot 0x400) then Some Illegal
      else if (imm .& 0x400) <>? 0 then Some (Sraiw rd rs1 (imm .& Z.lnot 0x400))
      else Some (Srliw rd rs1 imm)
  | _ => Some Illegal
  end.

Definition decode_store (bits function rs1 rs2 : Z) : option Op :=
  let imm := s_imm bits in
  match function with
  | 0 => Some (Sb rs1 rs2 imm)
  | 1 => Some (Sh rs1 rs2 imm)
  | 2 => Some (Sw rs1 rs2 imm)
  | 3 => Some (Sd rs1 rs2 imm)
  | _ => Some Illegal
  end.

Definition decode_store_fp (bits function rs1 rs2 : Z) : option Op :=
  let imm := s_imm bits in
  match function with
  | 2 => Some (Fsw rs1 rs2 imm)
  | 3 => Some (Fsd rs1 rs2 imm)
  | _ => Some Illegal
  end.

(** [match funct7(bits) & 3 { 0 => Ordering::Relaxed, .. }] *)
Definition decode_aqrl (bits : Z) : option Ordering :=
  match funct7 bits .& 3 with
  | 0 => Some Relaxed
  | 1 => Some Release
  | 2 => Some Acquire
  | 3 => Some SeqCst
  | _ => None
  end.

Definition decode_amo_w (func rd rs1 rs2 : Z) (aqrl : Ordering) : option Op :=
  match func with
  | 0x02 => if rs2 <>? 0 then Some Illegal else Some (LrW rd rs1 aqrl)
  | 0x03 => Some (ScW rd rs1 rs2 aqrl)
  | 0x01 => Some (AmoswapW rd rs1 rs2 aqrl)
  | 0x00 => Some (AmoaddW rd rs1 rs2 aqrl)
  | 0x04 => Some (AmoxorW rd rs1 rs2 aqrl)
  | 0x0c => Some (AmoandW rd rs1 rs2 aqrl)
  | 0x08 => Some (AmoorW rd rs1 rs2 aqrl)
  | 0x10 => Some (AmominW rd rs1 rs2 aqrl)
  | 0x14 => Some (AmomaxW rd rs1 rs2 aqrl)
  | 0x18 => Some (AmominuW rd rs1 rs2 aqrl)
  | 0x1c => Some (AmomaxuW rd rs1 rs2 aqrl)
  | _ => Some Illegal
  end.

Definition decode_amo_d (func rd rs1 rs2 : Z) (aqrl : Ordering) : option Op :=
  match func with
  | 0x02 => if rs2 <>? 0 then Some Illegal else Some (LrD rd rs1 aqrl)
  | 0x03 => Some (ScD rd rs1 rs2 aqrl)
  | 0x01 => Some (AmoswapD rd rs1 rs2 aqrl)
  | 0x00 => Some (AmoaddD rd rs1 rs2 aqrl)
  | 0x04 => Some (AmoxorD rd rs1 rs2 aqrl)
  | 0x0c => Some (AmoandD rd rs1 rs2 aqrl)
  | 0x08 => Some (AmoorD rd rs1 rs2 aqrl)
  | 0x10 => Some (AmominD rd rs1 rs2 aqrl)
  | 0x14 => Some (AmomaxD rd rs1 rs2 aqrl)
  | 0x18 => Some (AmominuD rd rs1 rs2 aqrl)
  | 0x1c => Some (AmomaxuD rd rs1 rs2 aqrl)
  | _ => Some Illegal
  end.

Definition decode_amo (bits function rd rs1 rs2 : Z) : option Op :=
  let func := funct7 bits >> 2 in
  let? aqrl := decode_aqrl bits in
  if function =? 2 then decode_amo_w func rd rs1 rs2 aqrl
  else if function =? 3 then decode_amo_d func rd rs1 rs2 aqrl
  else Some Illegal.

Definition decode_op (bits function rd rs1 rs2 : Z) : option Op :=
  match funct7 bits with
  | 0x01 =>
      match function with
      | 0 => Some (Mul rd rs1 rs2)
      | 1 => Some (Mulh rd rs1 rs2)
      | 2 => Some (Mulhsu rd rs1 rs2)
      | 3 => Some (Mulhu rd rs1 rs2)
      | 4 => Some (Div rd rs1 rs2)
      | 5 => Some (Divu rd rs1 rs2)
      | 6 => Some (Rem rd rs1 rs2)
      | 7 => Some (Remu rd rs1 rs2)
      | _ => None
      end
  | 0x00 =>
      match function with
      | 0 => Some (Add rd rs1 rs2)
      | 1 => Some (Sll rd rs1 rs2)
      | 2 => Some (Slt rd rs1 rs2)
      | 3 => Some (Sltu rd rs1 rs2)
      | 4 => Some (Xor rd rs1 rs2)
      | 5 => Some (Srl rd rs1 rs2)
      | 6 => Some (Or rd rs1 rs2)
      | 7 => Some (And rd rs1 rs2)
      | _ => None
      end
  | 0x20 =>
      match function with
      | 0 => Some (Sub rd rs1 rs2)
      | 5 => Some (Sra rd rs1 rs2)
      | _ => Some Illegal
      end
  | _ => Some Illegal
  end.

Definition decode_op_32 (bits function rd rs1 rs2 : Z) : option Op :=
  match funct7 bits with
  | 0x01 =>
      match function with
      | 0 => Some (Mulw rd rs1 rs2)
      | 4 => Some (Divw rd rs1 rs2)
      | 5 => Some (Divuw rd rs1 rs2)
      | 6 => Some (Remw rd rs1 rs2)
      | 7 => Some (Remuw rd rs1 rs2)
      | _ => Some Illegal
      end
  | 0x00 =>
      match function with
      | 0 => Some (Addw rd rs1 rs2)
      | 1 => Some (Sllw rd rs1 rs2)
      | 5 => Some (Srlw rd rs1 rs2)
      | _ => Some Illegal
      end
  | 0x20 =>
      match function with
      | 0 => Some (Subw rd rs1 rs2)
      | 5 => Some (Sraw rd rs1 rs2)
      | _ => Some Illegal
      end
  | _ => Some Illegal
  end.

(** The four fused multiply-add opcodes have the same shape. *)
Definition decode_fma (bits function rd rs1 rs2 : Z)
    (single double : Z -> Z -> Z -> Z -> Z -> Op) : option Op :=
  match funct7 bits .& 3 with
  | 0 => with_rm function (single rd rs1 rs2 (rs3 bits))
  | 1 => with_rm function (double rd rs1 rs2 (rs3 bits))
  | _ => Some Illegal
  end.

Definition decode_op_fp (bits function rd rs1 rs2 : Z) : option Op :=
  match funct7 bits with
  | 0x00 => with_rm function (FaddS rd rs1 rs2)
  | 0x01 => with_rm function (FaddD rd rs1 rs2)
  | 0x04 => with_rm function (FsubS rd rs1 rs2)
  | 0x05 => with_rm function (FsubD rd rs1 rs2)
  | 0x08 => with_rm function (FmulS rd rs1 rs2)
  | 0x09 => with_rm function (FmulD rd rs1 rs2)
  | 0x0c => with_rm function (FdivS rd rs1 rs2)
  | 0x0d => with_rm function (FdivD rd rs1 rs2)
  | 0x2c => match rs2 with
            | 0 => with_rm function (FsqrtS rd rs1)
            | _ => Some Illegal
            end
  | 0x2d => match rs2 with
            | 0 => with_rm function (FsqrtD rd rs1)
            | _ => Some Illegal
            end
  | 0x10 => match function with
            | 0 => Some (FsgnjS rd rs1 rs2)
            | 1 => Some (FsgnjnS rd rs1 rs2)
            | 2 => Some (FsgnjxS rd rs1 rs2)
            | _ => Some Illegal
            end
  | 0x11 => match function with
            | 0 => Some (FsgnjD rd rs1 rs2)
            | 1 => Some (FsgnjnD rd rs1 rs2)
            | 2 => Some (FsgnjxD rd rs1 rs2)
            | _ => Some Illegal
            end
  | 0x14 => match function with
            | 0 => Some (FminS rd rs1 rs2)
            | 1 => Some (FmaxS rd rs1 rs2)
            | _ => Some Illegal
            end
  | 0x15 => match function with
            | 0 => Some (FminD rd rs1 rs2)
            | 1 => Some (FmaxD rd rs1 rs2)
            | _ => Some Illegal
            end
  | 0x20 => match rs2 with
            | 1 => with_rm function (FcvtSD rd rs1)
            | _ => Some Illegal
            end
  | 0x21 => match rs2 with
            | 0 => with_rm function (FcvtDS rd rs1)
            | _ => Some Illegal
            end
  | 0x60 => match rs2 with
            | 0 => with_rm function (FcvtWS rd rs1)
            | 1 => with_rm function (FcvtWuS rd rs1)
            | 2 => with_rm function (FcvtLS rd rs1)
            | 3 => with_rm function (FcvtLuS rd rs1)
            | _ => Some Illegal
            end
  | 0x61 => match rs2 with
            | 0 => with_rm function (FcvtWD rd rs1)
            | 1 => with_rm function (FcvtWuD rd rs1)
            | 2 => with_rm function (FcvtLD rd rs1)
            | 3 => with_rm function (FcvtLuD rd rs1)
            | _ => Some Illegal
            end
  | 0x70 => match rs2, function with
            | 0, 0 => Some (FmvXW rd rs1)
            | 0, 1 => Some (FclassS rd rs1)
            | _, _ => Some Illegal
            end
  | 0x71 => match rs2, function with
            | 0, 0 => Some (FmvXD rd rs1)
            | 0, 1 => Some (FclassD rd rs1)
            | _, _ => Some Illegal
            end
  | 0x50 => match function with
            | 0 => Some (FleS rd rs1 rs2)
            | 1 => Some (FltS rd rs1 rs2)
            | 2 => Some (FeqS rd rs1 rs2)
            | _ => Some Illegal
            end
  | 0x51 => match function with
            | 0 => Some (FleD rd rs1 rs2)
            | 1 => Some (FltD rd rs1 rs2)
            | 2 => Some (FeqD rd rs1 rs2)
            | _ => Some Illegal
            end
  | 0x68 => match rs2 with
            | 0 => with_rm function (FcvtSW rd rs1)
            | 1 => with_rm function (FcvtSWu rd rs1)
            | 2 => with_rm function (FcvtSL rd rs1)
            | 3 => with_rm function (FcvtSLu rd rs1)
            | _ => Some Illegal
            end
  | 0x69 => match rs2 with
            | 0 => with_rm function (FcvtDW rd rs1)
            | 1 => with_rm function (FcvtDWu rd rs1)
            | 2 => with_rm function (FcvtDL rd rs1)
            | 3 => with_rm function (FcvtDLu rd rs1)
            | _ => Some Illegal
            end
  | 0x78 => match rs2, function with
            | 0, 0 => Some (FmvWX rd rs1)
            | _, _ => Some Illegal
            end
  | 0x79 => match rs2, function with
            | 0, 0 => Some (FmvDX rd rs1)
            | _, _ => Some Illegal
            end
  | _ => Some Illegal
  end.

Definition decode_branch (bits function rs1 rs2 : Z) : option Op :=
  let imm := b_imm bits in
  match function with
  | 0 => Some (Beq rs1 rs2 imm)
  | 1 => Some (Bne rs1 rs2 imm)
  | 4 => Some (Blt rs1 rs2 imm)
  | 5 => Some (Bge rs1 rs2 imm)
  | 6 => Some (Bltu rs1 rs2 imm)
  | 7 => Some (Bgeu rs1 rs2 imm)
  | _ => Some Illegal
  end.

(** The CSR instructions ([_ => ..] of SYSTEM): a write to a read-only CSR is
    illegal; [csrrs]/[csrrc] with a zero [rs1] do not write. *)
Definition decode_csr (bits function rd rs1 : Z) : option Op :=
  let csr := csr bits in
  let readonly := ((function .& 2) <>? 0) && (rs1 =? 0) in
  if Csr.readonly csr && negb readonly then Some Illegal
  else
    match function with
    | 1 => Some (Csrrw rd rs1 csr)
    | 2 => Some (Csrrs rd rs1 csr)
    | 3 => Some (Csrrc rd rs1 csr)
    | 5 => Some (Csrrwi rd rs1 csr)
    | 6 => Some (Csrrsi rd rs1 csr)
    | 7 => Some (Csrrci rd rs1 csr)
    | _ => None
    end.

Definition decode_system (bits function rd rs1 rs2 : Z) : option Op :=
  match function with
  | 0 =>
      if bits =? 0x73 then Some Ecall
      else if bits =? 0x100073 then Some Ebreak
      else if bits =? 0x30200073 then Some Mret
      else if bits =? 0x10200073 then Some Sret
      else if bits =? 0x10500073 then Some Wfi
      else if (rd =? 0) && (funct7 bits =? 9) then Some (SfenceVma rs1 rs2)
      else Some Illegal
  | 4 => Some Illegal
  | _ => decode_csr bits function rd rs1
  end.

(** [pub fn decode(bits: u32) -> Op] *)
Definition decode (bits : Z) : option Op :=
  if negb ((bits .& 3) =? 3) then None
  else if (bits .& 0x1f) =? 0x1f then Some Illegal
  else
    let function := funct3 bits in
    let rd := rd bits in
    let rs1 := rs1 bits in
    let rs2 := rs2 bits in
    match bits .& 0x7f with
    | 0x03 => decode_load bits function rd rs1
    | 0x07 => decode_load_fp bits function rd rs1
    | 0x13 => decode_op_imm bits function rd rs1
    | 0x0f => decode_misc_mem function
    | 0x1b => decode_op_imm_32 bits function rd rs1
    | 0x23 => decode_store bits function rs1 rs2
    | 0x27 => decode_store_fp bits function rs1 rs2
    | 0x2f => decode_amo bits function rd rs1 rs2
    | 0x33 => decode_op bits function rd rs1 rs2
    | 0x37 => Some (Lui rd (u_imm bits))
    | 0x3b => decode_op_32 bits function rd rs1 rs2
    | 0x43 => decode_fma bits function rd rs1 rs2 FmaddS FmaddD
    | 0x47 => decode_fma bits function rd rs1 rs2 FmsubS FmsubD
    | 0x4b => decode_fma bits function rd rs1 rs2 FnmsubS FnmsubD
    | 0x4f => decode_fma bits function rd rs1 rs2 FnmaddS FnmaddD
    | 0x17 => Some (Auipc rd (u_imm bits))
    | 0x53 => decode_op_fp bits function rd rs1 rs2
    | 0x63 => decode_branch bits function rs1 rs2
    | 0x67 => Some (Jalr rd rs1 (i_imm bits))
    | 0x6f => Some (Jal rd (j_imm bits))
    | 0x73 => decode_system bits function rd rs1 rs2
    | _ => Some Illegal
    end.
