(* ===== verification/RiscvEncode.v ===== *)
(** A reference encoder, written from the instruction formats of the RISC-V
    unprivileged ISA (it has no counterpart in the source), and the set of
    operations that have an encoding.  It is the specification the decoder is
    proved against in RiscvDecodeProps. *)

From Stdlib Require Import ZArith Lia Bool List.
From S2P Require Import Prelude RiscvCsr RiscvOp.
Import Op.
Local Open Scope Z_scope.
Local Open Scope rust_scope.

(** ** Instruction formats *)

Definition enc_r (f7 rs2 rs1 f3 rd opcode : Z) : Z :=
  f7 * 2 ^ 25 + rs2 * 2 ^ 20 + rs1 * 2 ^ 15 + f3 * 2 ^ 12 + rd * 2 ^ 7 + opcode.

Definition enc_i (imm rs1 f3 rd opcode : Z) : Z :=
  (imm mod 2 ^ 12) * 2 ^ 20 + rs1 * 2 ^ 15 + f3 * 2 ^ 12 + rd * 2 ^ 7 + opcode.

(** imm[11:5] | rs2 | rs1 | funct3 | imm[4:0] | opcode *)
Definition enc_s (imm rs2 rs1 f3 opcode : Z) : Z :=
  (imm / 2 ^ 5 mod 2 ^ 7) * 2 ^ 25 + rs2 * 2 ^ 20 + rs1 * 2 ^ 15 + f3 * 2 ^ 12
  + (imm mod 2 ^ 5) * 2 ^ 7 + opcode.

(** imm[12|10:5] | rs2 | rs1 | funct3 | imm[4:1|11] | opcode *)
Definition enc_b (imm rs2 rs1 f3 opcode : Z) : Z :=
  (imm / 2 ^ 12 mod 2) * 2 ^ 31 + (imm / 2 ^ 5 mod 2 ^ 6) * 2 ^ 25
  + rs2 * 2 ^ 20 + rs1 * 2 ^ 15 + f3 * 2 ^ 12
  + (imm / 2 mod 2 ^ 4) * 2 ^ 8 + (imm / 2 ^ 11 mod 2) * 2 ^ 7 + opcode.

(** imm[31:12] | rd | opcode *)
Definition enc_u (imm rd opcode : Z) : Z :=
  (imm / 2 ^ 12 mod 2 ^ 20) * 2 ^ 12 + rd * 2 ^ 7 + opcode.

(** imm[20|10:1|11|19:12] | rd | opcode *)
Definition enc_j (imm rd opcode : Z) : Z :=
  (imm / 2 ^ 20 mod 2) * 2 ^ 31 + (imm / 2 mod 2 ^ 10) * 2 ^ 21
  + (imm / 2 ^ 11 mod 2) * 2 ^ 20 + (imm / 2 ^ 12 mod 2 ^ 8) * 2 ^ 12
  + rd * 2 ^ 7 + opcode.

Definition aqrl_code (ord : Ordering) : Z :=
  match ord with Relaxed => 0 | Release => 1 | Acquire => 2 | SeqCst => 3 end.

(** ** The encoder *)

Definition encode (op : Op) : Z :=
  match op with
  | Illegal => 0xffffffff
  | Lb rd rs1 imm => enc_i imm rs1 0 rd 0x03
  | Lh rd rs1 imm => enc_i imm rs1 1 rd 0x03
  | Lw rd rs1 imm => enc_i imm rs1 2 rd 0x03
  | Ld rd rs1 imm => enc_i imm rs1 3 rd 0x03
  | Lbu rd rs1 imm => enc_i imm rs1 4 rd 0x03
  | Lhu rd rs1 imm => enc_i imm rs1 5 rd 0x03
  | Lwu rd rs1 imm => enc_i imm rs1 6 rd 0x03
  | Fence => 0x0ff0000f
  | FenceI => 0x100f
  | Addi rd rs1 imm => enc_i imm rs1 0 rd 0x13
  | Slli rd rs1 imm => enc_i imm rs1 1 rd 0x13
  | Slti rd rs1 imm => enc_i imm rs1 2 rd 0x13
  | Sltiu rd rs1 imm => enc_i imm rs1 3 rd 0x13
  | Xori rd rs1 imm => enc_i imm rs1 4 rd 0x13
  | Srli rd rs1 imm => enc_i imm rs1 5 rd 0x13
  | Srai rd rs1 imm => enc_i (imm + 0x400) rs1 5 rd 0x13
  | Ori rd rs1 imm => enc_i imm rs1 6 rd 0x13
  | Andi rd rs1 imm => enc_i imm rs1 7 rd 0x13
  | Auipc rd imm => enc_u imm rd 0x17
  | Addiw rd rs1 imm => enc_i imm rs1 0 rd 0x1b
  | Slliw rd rs1 imm => enc_i imm rs1 1 rd 0x1b
  | Srliw rd rs1 imm => enc_i imm rs1 5 rd 0x1b
  | Sraiw rd rs1 imm => enc_i (imm + 0x400) rs1 5 rd 0x1b
  | Sb rs1 rs2 imm => enc_s imm rs2 rs1 0 0x23
  | Sh rs1 rs2 imm => enc_s imm rs2 rs1 1 0x23
  | Sw rs1 rs2 imm => enc_s imm rs2 rs1 2 0x23
  | Sd rs1 rs2 imm => enc_s imm rs2 rs1 3 0x23
  | Add rd rs1 rs2 => enc_r 0x0 rs2 rs1 0 rd 0x33
  | Sub rd rs1 rs2 => enc_r 0x20 rs2 rs1 0 rd 0x33
  | Sll rd rs1 rs2 => enc_r 0x0 rs2 rs1 1 rd 0x33
  | Slt rd rs1 rs2 => enc_r 0x0 rs2 rs1 2 rd 0x33
  | Sltu rd rs1 rs2 => enc_r 0x0 rs2 rs1 3 rd 0x33
  | Xor rd rs1 rs2 => enc_r 0x0 rs2 rs1 4 rd 0x33
  | Srl rd rs1 rs2 => enc_r 0x0 rs2 rs1 5 rd 0x33
  | Sra rd rs1 rs2 => enc_r 0x20 rs2 rs1 5 rd 0x33
  | Or rd rs1 rs2 => enc_r 0x0 rs2 rs1 6 rd 0x33
  | And rd rs1 rs2 => enc_r 0x0 rs2 rs1 7 rd 0x33
  | Lui rd imm => enc_u imm rd 0x37
  | Addw rd rs1 rs2 => enc_r 0x0 rs2 rs1 0 rd 0x3b
  | Subw rd rs1 rs2 => enc_r 0x20 rs2 rs1 0 rd 0x3b
  | Sllw rd rs1 rs2 => enc_r 0x0 rs2 rs1 1 rd 0x3b
  | Srlw rd rs1 rs2 => enc_r 0x0 rs2 rs1 5 rd 0x3b
  | Sraw rd rs1 rs2 => enc_r 0x20 rs2 rs1 5 rd 0x3b
  | Beq rs1 rs2 imm => enc_b imm rs2 rs1 0 0x63
  | Bne rs1 rs2 imm => enc_b imm rs2 rs1 1 0x63
  | Blt rs1 rs2 imm => enc_b imm rs2 rs1 4 0x63
  | Bge rs1 rs2 imm => enc_b imm rs2 rs1 5 0x63
  | Bltu rs1 rs2 imm => enc_b imm rs2 rs1 6 0x63
  | Bgeu rs1 rs2 imm => enc_b imm rs2 rs1 7 0x63
  | Jalr rd rs1 imm => enc_i imm rs1 0 rd 0x67
  | Jal rd imm => enc_j imm rd 0x6f
  | Ecall => 0x73
  | Ebreak => 0x100073
  | Csrrw rd rs1 csr => enc_i csr rs1 1 rd 0x73
  | Csrrs rd rs1 csr => enc_i csr rs1 2 rd 0x73
  | Csrrc rd rs1 csr => enc_i csr rs1 3 rd 0x73
  | Csrrwi rd imm csr => enc_i csr imm 5 rd 0x73
  | Csrrsi rd imm csr => enc_i csr imm 6 rd 0x73
  | Csrrci rd imm csr => enc_i csr imm 7 rd 0x73
  | Mul rd rs1 rs2 => enc_r 0x1 rs2 rs1 0 rd 0x33
  | Mulh rd rs1 rs2 => enc_r 0x1 rs2 rs1 1 rd 0x33
  | Mulhsu rd rs1 rs2 => enc_r 0x1 rs2 rs1 2 rd 0x33
  | Mulhu rd rs1 rs2 => enc_r 0x1 rs2 rs1 3 rd 0x33
  | Div rd rs1 rs2 => enc_r 0x1 rs2 rs1 4 rd 0x33
  | Divu rd rs1 rs2 => enc_r 0x1 rs2 rs1 5 rd 0x33
  | Rem rd rs1 rs2 => enc_r 0x1 rs2 rs1 6 rd 0x33
  | Remu rd rs1 rs2 => enc_r 0x1 rs2 rs1 7 rd 0x33
  | Mulw rd rs1 rs2 => enc_r 0x1 rs2 rs1 0 rd 0x3b
  | Divw rd rs1 rs2 => enc_r 0x1 rs2 rs1 4 rd 0x3b
  | Divuw rd rs1 rs2 => enc_r 0x1 rs2 rs1 5 rd 0x3b
  | Remw rd rs1 rs2 => enc_r 0x1 rs2 rs1 6 rd 0x3b
  | Remuw rd rs1 rs2 => enc_r 0x1 rs2 rs1 7 rd 0x3b
  | LrW rd rs1 aqrl => enc_r (0x2 * 4 + aqrl_code aqrl) 0 rs1 2 rd 0x2f
  | LrD rd rs1 aqrl => enc_r (0x2 * 4 + aqrl_code aqrl) 0 rs1 3 rd 0x2f
  | ScW rd rs1 rs2 aqrl => enc_r (0x3 * 4 + aqrl_code aqrl) rs2 rs1 2 rd 0x2f
  | ScD rd rs1 rs2 aqrl => enc_r (0x3 * 4 + aqrl_code aqrl) rs2 rs1 3 rd 0x2f
  | AmoswapW rd rs1 rs2 aqrl => enc_r (0x1 * 4 + aqrl_code aqrl) rs2 rs1 2 rd 0x2f
  | AmoswapD rd rs1 rs2 aqrl => enc_r (0x1 * 4 + aqrl_code aqrl) rs2 rs1 3 rd 0x2f
  | AmoaddW rd rs1 rs2 aqrl => enc_r (0x0 * 4 + aqrl_code aqrl) rs2 rs1 2 rd 0x2f
  | AmoaddD rd rs1 rs2 aqrl => enc_r (0x0 * 4 + aqrl_code aqrl) rs2 rs1 3 rd 0x2f
  | AmoxorW rd rs1 rs2 aqrl => enc_r (0x4 * 4 + aqrl_code aqrl) rs2 rs1 2 rd 0x2f
  | AmoxorD rd rs1 rs2 aqrl => enc_r (0x4 * 4 + aqrl_code aqrl) rs2 rs1 3 rd 0x2f
  | AmoandW rd rs1 rs2 aqrl => enc_r (0xc * 4 + aqrl_code aqrl) rs2 rs1 2 rd 0x2f
  | AmoandD rd rs1 rs2 aqrl => enc_r (0xc * 4 + aqrl_code aqrl) rs2 rs1 3 rd 0x2f
  | AmoorW rd rs1 rs2 aqrl => enc_r (0x8 * 4 + aqrl_code aqrl) rs2 rs1 2 rd 0x2f
  | AmoorD rd rs1 rs2 aqrl => enc_r (0x8 * 4 + aqrl_code aqrl) rs2 rs1 3 rd 0x2f
  | AmominW rd rs1 rs2 aqrl => enc_r (0x10 * 4 + aqrl_code aqrl) rs2 rs1 2 rd 0x2f
  | AmominD rd rs1 rs2 aqrl => enc_r (0x10 * 4 + aqrl_code aqrl) rs2 rs1 3 rd 0x2f
  | AmomaxW rd rs1 rs2 aqrl => enc_r (0x14 * 4 + aqrl_code aqrl) rs2 rs1 2 rd 0x2f
  | AmomaxD rd rs1 rs2 aqrl => enc_r (0x14 * 4 + aqrl_code aqrl) rs2 rs1 3 rd 0x2f
  | AmominuW rd rs1 rs2 aqrl => enc_r (0x18 * 4 + aqrl_code aqrl) rs2 rs1 2 rd 0x2f
  | AmominuD rd rs1 rs2 aqrl => enc_r (0x18 * 4 + aqrl_code aqrl) rs2 rs1 3 rd 0x2f
  | AmomaxuW rd rs1 rs2 aqrl => enc_r (0x1c * 4 + aqrl_code aqrl) rs2 rs1 2 rd 0x2f
  | AmomaxuD rd rs1 rs2 aqrl => enc_r (0x1c * 4 + aqrl_code aqrl) rs2 rs1 3 rd 0x2f
  | Flw frd rs1 imm => enc_i imm rs1 2 frd 0x07
  | Fsw rs1 frs2 imm => enc_s imm frs2 rs1 2 0x27
  | FaddS frd frs1 frs2 rm => enc_r 0x0 frs2 frs1 rm frd 0x53
  | FsubS frd frs1 frs2 rm => enc_r 0x4 frs2 frs1 rm frd 0x53
  | FmulS frd frs1 frs2 rm => enc_r 0x8 frs2 frs1 rm frd 0x53
  | FdivS frd frs1 frs2 rm => enc_r 0xc frs2 frs1 rm frd 0x53
  | FsqrtS frd frs1 rm => enc_r 0x2c 0 frs1 rm frd 0x53
  | FsgnjS frd frs1 frs2 => enc_r 0x10 frs2 frs1 0 frd 0x53
  | FsgnjnS frd frs1 frs2 => enc_r 0x10 frs2 frs1 1 frd 0x53
  | FsgnjxS frd frs1 frs2 => enc_r 0x10 frs2 frs1 2 frd 0x53
  | FminS frd frs1 frs2 => enc_r 0x14 frs2 frs1 0 frd 0x53
  | FmaxS frd frs1 frs2 => enc_r 0x14 frs2 frs1 1 frd 0x53
  | FcvtWS rd frs1 rm => enc_r 0x60 0 frs1 rm rd 0x53
  | FcvtWuS rd frs1 rm => enc_r 0x60 1 frs1 rm rd 0x53
  | FcvtLS rd frs1 rm => enc_r 0x60 2 frs1 rm rd 0x53
  | FcvtLuS rd frs1 rm => enc_r 0x60 3 frs1 rm rd 0x53
  | FmvXW rd frs1 => enc_r 0x70 0 frs1 0 rd 0x53
  | FclassS rd frs1 => enc_r 0x70 0 frs1 1 rd 0x53
  | FeqS rd frs1 frs2 => enc_r 0x50 frs2 frs1 2 rd 0x53
  | FltS rd frs1 frs2 => enc_r 0x50 frs2 frs1 1 rd 0x53
  | FleS rd frs1 frs2 => enc_r 0x50 frs2 frs1 0 rd 0x53
  | FcvtSW frd rs1 rm => enc_r 0x68 0 rs1 rm frd 0x53
  | FcvtSWu frd rs1 rm => enc_r 0x68 1 rs1 rm frd 0x53
  | FcvtSL frd rs1 rm => enc_r 0x68 2 rs1 rm frd 0x53
  | FcvtSLu frd rs1 rm => enc_r 0x68 3 rs1 rm frd 0x53
  | FmvWX frd rs1 => enc_r 0x78 0 rs1 0 frd 0x53
  | FmaddS frd frs1 frs2 frs3 rm => enc_r (frs3 * 4 + 0) frs2 frs1 rm frd 0x43
  | FmsubS frd frs1 frs2 frs3 rm => enc_r (frs3 * 4 + 0) frs2 frs1 rm frd 0x47
  | FnmsubS frd frs1 frs2 frs3 rm => enc_r (frs3 * 4 + 0) frs2 frs1 rm frd 0x4b
  | FnmaddS frd frs1 frs2 frs3 rm => enc_r (frs3 * 4 + 0) frs2 frs1 rm frd 0x4f
  | Fld frd rs1 imm => enc_i imm rs1 3 frd 0x07
  | Fsd rs1 frs2 imm => enc_s imm frs2 rs1 3 0x27
  | FaddD frd frs1 frs2 rm => enc_r 0x1 frs2 frs1 rm frd 0x53
  | FsubD frd frs1 frs2 rm => enc_r 0x5 frs2 frs1 rm frd 0x53
  | FmulD frd frs1 frs2 rm => enc_r 0x9 frs2 frs1 rm frd 0x53
  | FdivD frd frs1 frs2 rm => enc_r 0xd frs2 frs1 rm frd 0x53
  | FsqrtD frd frs1 rm => enc_r 0x2d 0 frs1 rm frd 0x53
  | FsgnjD frd frs1 frs2 => enc_r 0x11 frs2 frs1 0 frd 0x53
  | FsgnjnD frd frs1 frs2 => enc_r 0x11 frs2 frs1 1 frd 0x53
  | FsgnjxD frd frs1 frs2 => enc_r 0x11 frs2 frs1 2 frd 0x53
  | FminD frd frs1 frs2 => enc_r 0x15 frs2 frs1 0 frd 0x53
  | FmaxD frd frs1 frs2 => enc_r 0x15 frs2 frs1 1 frd 0x53
  | FcvtSD frd frs1 rm => enc_r 0x20 1 frs1 rm frd 0x53
  | FcvtDS frd frs1 rm => enc_r 0x21 0 frs1 rm frd 0x53
  | FcvtWD rd frs1 rm => enc_r 0x61 0 frs1 rm rd 0x53
  | FcvtWuD rd frs1 rm => enc_r 0x61 1 frs1 rm rd 0x53
  | FcvtLD rd frs1 rm => enc_r 0x61 2 frs1 rm rd 0x53
  | FcvtLuD rd frs1 rm => enc_r 0x61 3 frs1 rm rd 0x53
  | FmvXD rd frs1 => enc_r 0x71 0 frs1 0 rd 0x53
  | FclassD rd frs1 => enc_r 0x71 0 frs1 1 rd 0x53
  | FeqD rd frs1 frs2 => enc_r 0x51 frs2 frs1 2 rd 0x53
  | FltD rd frs1 frs2 => enc_r 0x51 frs2 frs1 1 rd 0x53
  | FleD rd frs1 frs2 => enc_r 0x51 frs2 frs1 0 rd 0x53
  | FcvtDW frd rs1 rm => enc_r 0x69 0 rs1 rm frd 0x53
  | FcvtDWu frd rs1 rm => enc_r 0x69 1 rs1 rm frd 0x53
  | FcvtDL frd rs1 rm => enc_r 0x69 2 rs1 rm frd 0x53
  | FcvtDLu frd rs1 rm => enc_r 0x69 3 rs1 rm frd 0x53
  | FmvDX frd rs1 => enc_r 0x79 0 rs1 0 frd 0x53
  | FmaddD frd frs1 frs2 frs3 rm => enc_r (frs3 * 4 + 1) frs2 frs1 rm frd 0x43
  | FmsubD frd frs1 frs2 frs3 rm => enc_r (frs3 * 4 + 1) frs2 frs1 rm frd 0x47
  | FnmsubD frd frs1 frs2 frs3 rm => enc_r (frs3 * 4 + 1) frs2 frs1 rm frd 0x4b
  | FnmaddD frd frs1 frs2 frs3 rm => enc_r (frs3 * 4 + 1) frs2 frs1 rm frd 0x4f
  | Mret => 0x30200073
  | Sret => 0x10200073
  | Wfi => 0x10500073
  | SfenceVma rs1 rs2 => enc_r 0x9 rs2 rs1 0 0 0x73
  end.

(** ** Encodable operations *)

Definition reg_ok (r : Z) : bool := (0 <=? r) && (r <? 32).
Definition rm_ok (r : Z) : bool := (0 <=? r) && (r <? 8) && negb ((4 <? r) && (r <>? 7)).
Definition csr_ok (c : Z) : bool := (0 <=? c) && (c <? 4096).
Definition imm12_ok (imm : Z) : bool := (-2048 <=? imm) && (imm <? 2048).
Definition imm13_ok (imm : Z) : bool :=
  (-4096 <=? imm) && (imm <? 4096) && (imm mod 2 =? 0).
Definition imm20_ok (imm : Z) : bool :=
  (- 2 ^ 31 <=? imm) && (imm <? 2 ^ 31) && (imm mod 2 ^ 12 =? 0).
Definition imm21_ok (imm : Z) : bool :=
  (- 2 ^ 20 <=? imm) && (imm <? 2 ^ 20) && (imm mod 2 =? 0).

(** Immediates the decoder accepts for a right shift: bit 10 (which selects the
    arithmetic shift) is clear and the signed value is below the width. *)
Definition shift_imm_ok (width imm : Z) : bool :=
  (-2048 <=? imm) && (imm <? width) && (imm / 2 ^ 10 mod 2 =? 0).

(** The operations with a 32-bit encoding. *)
Definition op_ok (op : Op) : bool :=
  match op with
  | Illegal => true
  | Lb rd rs1 imm => reg_ok rd && reg_ok rs1 && imm12_ok imm
  | Lh rd rs1 imm => reg_ok rd && reg_ok rs1 && imm12_ok imm
  | Lw rd rs1 imm => reg_ok rd && reg_ok rs1 && imm12_ok imm
  | Ld rd rs1 imm => reg_ok rd && reg_ok rs1 && imm12_ok imm
  | Lbu rd rs1 imm => reg_ok rd && reg_ok rs1 && imm12_ok imm
  | Lhu rd rs1 imm => reg_ok rd && reg_ok rs1 && imm12_ok imm
  | Lwu rd rs1 imm => reg_ok rd && reg_ok rs1 && imm12_ok imm
  | Fence => true
  | FenceI => true
  | Addi rd rs1 imm => reg_ok rd && reg_ok rs1 && imm12_ok imm
  | Slli rd rs1 imm => reg_ok rd && reg_ok rs1 && (-2048 <=? imm) && (imm <? 64)
  | Slti rd rs1 imm => reg_ok rd && reg_ok rs1 && imm12_ok imm
  | Sltiu rd rs1 imm => reg_ok rd && reg_ok rs1 && imm12_ok imm
  | Xori rd rs1 imm => reg_ok rd && reg_ok rs1 && imm12_ok imm
  | Srli rd rs1 imm => reg_ok rd && reg_ok rs1 && shift_imm_ok 64 imm
  | Srai rd rs1 imm => reg_ok rd && reg_ok rs1 && shift_imm_ok 64 imm
  | Ori rd rs1 imm => reg_ok rd && reg_ok rs1 && imm12_ok imm
  | Andi rd rs1 imm => reg_ok rd && reg_ok rs1 && imm12_ok imm
  | Auipc rd imm => reg_ok rd && imm20_ok imm
  | Addiw rd rs1 imm => reg_ok rd && reg_ok rs1 && imm12_ok imm
  | Slliw rd rs1 imm => reg_ok rd && reg_ok rs1 && (-2048 <=? imm) && (imm <? 32)
  | Srliw rd rs1 imm => reg_ok rd && reg_ok rs1 && shift_imm_ok 32 imm
  | Sraiw rd rs1 imm => reg_ok rd && reg_ok rs1 && shift_imm_ok 32 imm
  | Sb rs1 rs2 imm => reg_ok rs1 && reg_ok rs2 && imm12_ok imm
  | Sh rs1 rs2 imm => reg_ok rs1 && reg_ok rs2 && imm12_ok imm
  | Sw rs1 rs2 imm => reg_ok rs1 && reg_ok rs2 && imm12_ok imm
  | Sd rs1 rs2 imm => reg_ok rs1 && reg_ok rs2 && imm12_ok imm
  | Add rd rs1 rs2 => reg_ok rd && reg_ok rs1 && reg_ok rs2
  | Sub rd rs1 rs2 => reg_ok rd && reg_ok rs1 && reg_ok rs2
  | Sll rd rs1 rs2 => reg_ok rd && reg_ok rs1 && reg_ok rs2
  | Slt rd rs1 rs2 => reg_ok rd && reg_ok rs1 && reg_ok rs2
  | Sltu rd rs1 rs2 => reg_ok rd && reg_ok rs1 && reg_ok rs2
  | Xor rd rs1 rs2 => reg_ok rd && reg_ok rs1 && reg_ok rs2
  | Srl rd rs1 rs2 => reg_ok rd && reg_ok rs1 && reg_ok rs2
  | Sra rd rs1 rs2 => reg_ok rd && reg_ok rs1 && reg_ok rs2
  | Or rd rs1 rs2 => reg_ok rd && reg_ok rs1 && reg_ok rs2
  | And rd rs1 rs2 => reg_ok rd && reg_ok rs1 && reg_ok rs2
  | Lui rd imm => reg_ok rd && imm20_ok imm
  | Addw rd rs1 rs2 => reg_ok rd && reg_ok rs1 && reg_ok rs2
  | Subw rd rs1 rs2 => reg_ok rd && reg_ok rs1 && reg_ok rs2
  | Sllw rd rs1 rs2 => reg_ok rd && reg_ok rs1 && reg_ok rs2
  | Srlw rd rs1 rs2 => reg_ok rd && reg_ok rs1 && reg_ok rs2
  | Sraw rd rs1 rs2 => reg_ok rd && reg_ok rs1 && reg_ok rs2
  | Beq rs1 rs2 imm => reg_ok rs1 && reg_ok rs2 && imm13_ok imm
  | Bne rs1 rs2 imm => reg_ok rs1 && reg_ok rs2 && imm13_ok imm
  | Blt rs1 rs2 imm => reg_ok rs1 && reg_ok rs2 && imm13_ok imm
  | Bge rs1 rs2 imm => reg_ok rs1 && reg_ok rs2 && imm13_ok imm
  | Bltu rs1 rs2 imm => reg_ok rs1 && reg_ok rs2 && imm13_ok imm
  | Bgeu rs1 rs2 imm => reg_ok rs1 && reg_ok rs2 && imm13_ok imm
  | Jalr rd rs1 imm => reg_ok rd && reg_ok rs1 && imm12_ok imm
  | Jal rd imm => reg_ok rd && imm21_ok imm
  | Ecall => true
  | Ebreak => true
  | Csrrw rd rs1 csr => reg_ok rd && reg_ok rs1 && csr_ok csr && negb (Csr.readonly csr)
  | Csrrs rd rs1 csr => reg_ok rd && reg_ok rs1 && csr_ok csr && (negb (Csr.readonly csr) || (rs1 =? 0))
  | Csrrc rd rs1 csr => reg_ok rd && reg_ok rs1 && csr_ok csr && (negb (Csr.readonly csr) || (rs1 =? 0))
  | Csrrwi rd imm csr => reg_ok rd && reg_ok imm && csr_ok csr && negb (Csr.readonly csr)
  | Csrrsi rd imm csr => reg_ok rd && reg_ok imm && csr_ok csr && (negb (Csr.readonly csr) || (imm =? 0))
  | Csrrci rd imm csr => reg_ok rd && reg_ok imm && csr_ok csr && (negb (Csr.readonly csr) || (imm =? 0))
  | Mul rd rs1 rs2 => reg_ok rd && reg_ok rs1 && reg_ok rs2
  | Mulh rd rs1 rs2 => reg_ok rd && reg_ok rs1 && reg_ok rs2
  | Mulhsu rd rs1 rs2 => reg_ok rd && reg_ok rs1 && reg_ok rs2
  | Mulhu rd rs1 rs2 => reg_ok rd && reg_ok rs1 && reg_ok rs2
  | Div rd rs1 rs2 => reg_ok rd && reg_ok rs1 && reg_ok rs2
  | Divu rd rs1 rs2 => reg_ok rd && reg_ok rs1 && reg_ok rs2
  | Rem rd rs1 rs2 => reg_ok rd && reg_ok rs1 && reg_ok rs2
  | Remu rd rs1 rs2 => reg_ok rd && reg_ok rs1 && reg_ok rs2
  | Mulw rd rs1 rs2 => reg_ok rd && reg_ok rs1 && reg_ok rs2
  | Divw rd rs1 rs2 => reg_ok rd && reg_ok rs1 && reg_ok rs2
  | Divuw rd rs1 rs2 => reg_ok rd && reg_ok rs1 && reg_ok rs2
  | Remw rd rs1 rs2 => reg_ok rd && reg_ok rs1 && reg_ok rs2
  | Remuw rd rs1 rs2 => reg_ok rd && reg_ok rs1 && reg_ok rs2
  | LrW rd rs1 _ => reg_ok rd && reg_ok rs1
  | LrD rd rs1 _ => reg_ok rd && reg_ok rs1
  | ScW rd rs1 rs2 _ => reg_ok rd && reg_ok rs1 && reg_ok rs2
  | ScD rd rs1 rs2 _ => reg_ok rd && reg_ok rs1 && reg_ok rs2
  | AmoswapW rd rs1 rs2 _ => reg_ok rd && reg_ok rs1 && reg_ok rs2
  | AmoswapD rd rs1 rs2 _ => reg_ok rd && reg_ok rs1 && reg_ok rs2
  | AmoaddW rd rs1 rs2 _ => reg_ok rd && reg_ok rs1 && reg_ok rs2
  | AmoaddD rd rs1 rs2 _ => reg_ok rd && reg_ok rs1 && reg_ok rs2
  | AmoxorW rd rs1 rs2 _ => reg_ok rd && reg_ok rs1 && reg_ok rs2
  | AmoxorD rd rs1 rs2 _ => reg_ok rd && reg_ok rs1 && reg_ok rs2
  | AmoandW rd rs1 rs2 _ => reg_ok rd && reg_ok rs1 && reg_ok rs2
  | AmoandD rd rs1 rs2 _ => reg_ok rd && reg_ok rs1 && reg_ok rs2
  | AmoorW rd rs1 rs2 _ => reg_ok rd && reg_ok rs1 && reg_ok rs2
  | AmoorD rd rs1 rs2 _ => reg_ok rd && reg_ok rs1 && reg_ok rs2
  | AmominW rd rs1 rs2 _ => reg_ok rd && reg_ok rs1 && reg_ok rs2
  | AmominD rd rs1 rs2 _ => reg_ok rd && reg_ok rs1 && reg_ok rs2
  | AmomaxW rd rs1 rs2 _ => reg_ok rd && reg_ok rs1 && reg_ok rs2
  | AmomaxD rd rs1 rs2 _ => reg_ok rd && reg_ok rs1 && reg_ok rs2
  | AmominuW rd rs1 rs2 _ => reg_ok rd && reg_ok rs1 && reg_ok rs2
  | AmominuD rd rs1 rs2 _ => reg_ok rd && reg_ok rs1 && reg_ok rs2
  | AmomaxuW rd rs1 rs2 _ => reg_ok rd && reg_ok rs1 && reg_ok rs2
  | AmomaxuD rd rs1 rs2 _ => reg_ok rd && reg_ok rs1 && reg_ok rs2
  | Flw frd rs1 imm => reg_ok frd && reg_ok rs1 && imm12_ok imm
  | Fsw rs1 frs2 imm => reg_ok rs1 && reg_ok frs2 && imm12_ok imm
  | FaddS frd frs1 frs2 rm => reg_ok frd && reg_ok frs1 && reg_ok frs2 && rm_ok rm
  | FsubS frd frs1 frs2 rm => reg_ok frd && reg_ok frs1 && reg_ok frs2 && rm_ok rm
  | FmulS frd frs1 frs2 rm => reg_ok frd && reg_ok frs1 && reg_ok frs2 && rm_ok rm
  | FdivS frd frs1 frs2 rm => reg_ok frd && reg_ok frs1 && reg_ok frs2 && rm_ok rm
  | FsqrtS frd frs1 rm => reg_ok frd && reg_ok frs1 && rm_ok rm
  | FsgnjS frd frs1 frs2 => reg_ok frd && reg_ok frs1 && reg_ok frs2
  | FsgnjnS frd frs1 frs2 => reg_ok frd && reg_ok frs1 && reg_ok frs2
  | FsgnjxS frd frs1 frs2 => reg_ok frd && reg_ok frs1 && reg_ok frs2
  | FminS frd frs1 frs2 => reg_ok frd && reg_ok frs1 && reg_ok frs2
  | FmaxS frd frs1 frs2 => reg_ok frd && reg_ok frs1 && reg_ok frs2
  | FcvtWS rd frs1 rm => reg_ok rd && reg_ok frs1 && rm_ok rm
  | FcvtWuS rd frs1 rm => reg_ok rd && reg_ok frs1 && rm_ok rm
  | FcvtLS rd frs1 rm => reg_ok rd && reg_ok frs1 && rm_ok rm
  | FcvtLuS rd frs1 rm => reg_ok rd && reg_ok frs1 && rm_ok rm
  | FmvXW rd frs1 => reg_ok rd && reg_ok frs1
  | FclassS rd frs1 => reg_ok rd && reg_ok frs1
  | FeqS rd frs1 frs2 => reg_ok rd && reg_ok frs1 && reg_ok frs2
  | FltS rd frs1 frs2 => reg_ok rd && reg_ok frs1 && reg_ok frs2
  | FleS rd frs1 frs2 => reg_ok rd && reg_ok frs1 && reg_ok frs2
  | FcvtSW frd rs1 rm => reg_ok frd && reg_ok rs1 && rm_ok rm
  | FcvtSWu frd rs1 rm => reg_ok frd && reg_ok rs1 && rm_ok rm
  | FcvtSL frd rs1 rm => reg_ok frd && reg_ok rs1 && rm_ok rm
  | FcvtSLu frd rs1 rm => reg_ok frd && reg_ok rs1 && rm_ok rm
  | FmvWX frd rs1 => reg_ok frd && reg_ok rs1
  | FmaddS frd frs1 frs2 frs3 rm => reg_ok frd && reg_ok frs1 && reg_ok frs2 && reg_ok frs3 && rm_ok rm
  | FmsubS frd frs1 frs2 frs3 rm => reg_ok frd && reg_ok frs1 && reg_ok frs2 && reg_ok frs3 && rm_ok rm
  | FnmsubS frd frs1 frs2 frs3 rm => reg_ok frd && reg_ok frs1 && reg_ok frs2 && reg_ok frs3 && rm_ok rm
  | FnmaddS frd frs1 frs2 frs3 rm => reg_ok frd && reg_ok frs1 && reg_ok frs2 && reg_ok frs3 && rm_ok rm
  | Fld frd rs1 imm => reg_ok frd && reg_ok rs1 && imm12_ok imm
  | Fsd rs1 frs2 imm => reg_ok rs1 && reg_ok frs2 && imm12_ok imm
  | FaddD frd frs1 frs2 rm => reg_ok frd && reg_ok frs1 && reg_ok frs2 && rm_ok rm
  | FsubD frd frs1 frs2 rm => reg_ok frd && reg_ok frs1 && reg_ok frs2 && rm_ok rm
  | FmulD frd frs1 frs2 rm => reg_ok frd && reg_ok frs1 && reg_ok frs2 && rm_ok rm
  | FdivD frd frs1 frs2 rm => reg_ok frd && reg_ok frs1 && reg_ok frs2 && rm_ok rm
  | FsqrtD frd frs1 rm => reg_ok frd && reg_ok frs1 && rm_ok rm
  | FsgnjD frd frs1 frs2 => reg_ok frd && reg_ok frs1 && reg_ok frs2
  | FsgnjnD frd frs1 frs2 => reg_ok frd && reg_ok frs1 && reg_ok frs2
  | FsgnjxD frd frs1 frs2 => reg_ok frd && reg_ok frs1 && reg_ok frs2
  | FminD frd frs1 frs2 => reg_ok frd && reg_ok frs1 && reg_ok frs2
  | FmaxD frd frs1 frs2 => reg_ok frd && reg_ok frs1 && reg_ok frs2
  | FcvtSD frd frs1 rm => reg_ok frd && reg_ok frs1 && rm_ok rm
  | FcvtDS frd frs1 rm => reg_ok frd && reg_ok frs1 && rm_ok rm
  | FcvtWD rd frs1 rm => reg_ok rd && reg_ok frs1 && rm_ok rm
  | FcvtWuD rd frs1 rm => reg_ok rd && reg_ok frs1 && rm_ok rm
  | FcvtLD rd frs1 rm => reg_ok rd && reg_ok frs1 && rm_ok rm
  | FcvtLuD rd frs1 rm => reg_ok rd && reg_ok frs1 && rm_ok rm
  | FmvXD rd frs1 => reg_ok rd && reg_ok frs1
  | FclassD rd frs1 => reg_ok rd && reg_ok frs1
  | FeqD rd frs1 frs2 => reg_ok rd && reg_ok frs1 && reg_ok frs2
  | FltD rd frs1 frs2 => reg_ok rd && reg_ok frs1 && reg_ok frs2
  | FleD rd frs1 frs2 => reg_ok rd && reg_ok frs1 && reg_ok frs2
  | FcvtDW frd rs1 rm => reg_ok frd && reg_ok rs1 && rm_ok rm
  | FcvtDWu frd rs1 rm => reg_ok frd && reg_ok rs1 && rm_ok rm
  | FcvtDL frd rs1 rm => reg_ok frd && reg_ok rs1 && rm_ok rm
  | FcvtDLu frd rs1 rm => reg_ok frd && reg_ok rs1 && rm_ok rm
  | FmvDX frd rs1 => reg_ok frd && reg_ok rs1
  | FmaddD frd frs1 frs2 frs3 rm => reg_ok frd && reg_ok frs1 && reg_ok frs2 && reg_ok frs3 && rm_ok rm
  | FmsubD frd frs1 frs2 frs3 rm => reg_ok frd && reg_ok frs1 && reg_ok frs2 && reg_ok frs3 && rm_ok rm
  | FnmsubD frd frs1 frs2 frs3 rm => reg_ok frd && reg_ok frs1 && reg_ok frs2 && reg_ok frs3 && rm_ok rm
  | FnmaddD frd frs1 frs2 frs3 rm => reg_ok frd && reg_ok frs1 && reg_ok frs2 && reg_ok frs3 && rm_ok rm
  | Mret => true
  | Sret => true
  | Wfi => true
  | SfenceVma rs1 rs2 => reg_ok rs1 && reg_ok rs2
  end.
