(* ===== verification/RiscvDecodeProps.v ===== *)
(** Correctness of the decoder of RiscvDecode against the reference encoder of
    RiscvEncode: totality, the range of every decoded field, and the two round
    trips, which together make [decode] a bijection between the legal 32-bit
    words (fences apart) and the encodable operations. *)

From Stdlib Require Import ZArith Lia Bool List.
From S2P Require Import Prelude RiscvCsr RiscvOp RiscvDecode RiscvEncode.
Import ListNotations Op.
Local Open Scope Z_scope.
Local Open Scope rust_scope.

(** ** The decoding helpers as arithmetic on the word *)

Section Fields.

Lemma field_eq bits lo len :
  0 <= lo -> 0 <= len ->
  (bits >> lo) .& (2 ^ len - 1) = bits / 2 ^ lo mod 2 ^ len.
Proof. intros; rewrite land_mask, Z.shiftr_div_pow2 by assumption; reflexivity. Qed.

Lemma field5_eq bits lo :
  0 <= lo -> u8 ((bits >> lo) .& 0x1f) = bits / 2 ^ lo mod 2 ^ 5.
Proof.
  intros. change 0x1f with (2 ^ 5 - 1). rewrite field_eq by lia.
  apply wrap_id. pose proof (Z.mod_pos_bound (bits / 2 ^ lo) (2 ^ 5)).
  unfold in_u. lia.
Qed.

Lemma rd_eq bits : rd bits = bits / 2 ^ 7 mod 2 ^ 5.
Proof. apply field5_eq; lia. Qed.
Lemma rs1_eq bits : rs1 bits = bits / 2 ^ 15 mod 2 ^ 5.
Proof. apply field5_eq; lia. Qed.
Lemma rs2_eq bits : rs2 bits = bits / 2 ^ 20 mod 2 ^ 5.
Proof. apply field5_eq; lia. Qed.
Lemma rs3_eq bits : rs3 bits = bits / 2 ^ 27 mod 2 ^ 5.
Proof. apply field5_eq; lia. Qed.
Lemma funct3_eq bits : funct3 bits = bits / 2 ^ 12 mod 2 ^ 3.
Proof. apply (field_eq bits 12 3); lia. Qed.
Lemma funct7_eq bits : funct7 bits = bits / 2 ^ 25 mod 2 ^ 7.
Proof. apply (field_eq bits 25 7); lia. Qed.
Lemma opcode_eq bits : bits .& 0x7f = bits mod 2 ^ 7.
Proof. apply (land_mask bits 7); lia. Qed.
Lemma csr_eq bits : csr bits = bits / 2 ^ 20 mod 2 ^ 16.
Proof. unfold csr. rewrite Z.shiftr_div_pow2 by lia. reflexivity. Qed.

(** The immediates of a 32-bit word.  [hi] is the word's sign bit. *)
Variable bits : Z.
Hypothesis Hbits : in_u 32 bits.
Let hi := bits / 2 ^ 31.

Lemma i32_bits : i32 bits = bits - hi * 2 ^ 32.
Proof.
  unfold i32; rewrite sext_unsigned by exact Hbits. 
  subst hi. destruct (Z.ltb_spec bits (2 ^ (32 - 1))); dlia.
Qed.

Lemma i_imm_eq : i_imm bits = bits / 2 ^ 20 - hi * 2 ^ 12.
Proof.
  unfold i_imm. rewrite i32_bits, Z.shiftr_div_pow2 by lia. subst hi. dlia.
Qed.

(** A field of the word below the sign bit is not changed by [as i32]. *)
Lemma i32_field lo len :
  0 <= lo -> 0 <= len -> lo + len <= 31 ->
  i32 (bits .& ((2 ^ len - 1) * 2 ^ lo)) = (bits / 2 ^ lo mod 2 ^ len) * 2 ^ lo.
Proof.
  intros. rewrite land_field by assumption. apply sext_id; [lia|].
  pose proof (Z.mod_pos_bound (bits / 2 ^ lo) (2 ^ len) (pow2_pos len ltac:(lia))).
  pose proof (pow2_pos lo). pose proof (Z.pow_le_mono_r 2 (lo + len) 31).
  rewrite Z.pow_add_r in * by lia. unfold in_i. change (32 - 1) with 31. nia.
Qed.

Lemma i32_sign : i32 (bits .& 0x80000000) = - hi * 2 ^ 31.
Proof.
  change 0x80000000 with ((2 ^ 1 - 1) * 2 ^ 31). rewrite land_field by lia.
  unfold i32. rewrite sext_unsigned by dlia. subst hi.
   destruct (Z.ltb_spec (bits / 2 ^ 31 mod 2 ^ 1 * 2 ^ 31) (2 ^ (32 - 1))); dlia.
Qed.

Lemma s_imm_eq :
  s_imm bits = (bits / 2 ^ 25) * 2 ^ 5 + bits / 2 ^ 7 mod 2 ^ 5 - hi * 2 ^ 12.
Proof.
  unfold s_imm. change 0x00000f80 with ((2 ^ 5 - 1) * 2 ^ 7).
  rewrite i32_field by lia.
  replace (i32 (bits .& 0xfe000000)) with (bits / 2 ^ 25 * 2 ^ 25 - hi * 2 ^ 32).
  2: { change 0xfe000000 with ((2 ^ 7 - 1) * 2 ^ 25). rewrite land_field by lia.
       unfold i32. rewrite sext_unsigned by dlia. subst hi. 
       destruct (Z.ltb_spec (bits / 2 ^ 25 mod 2 ^ 7 * 2 ^ 25) (2 ^ (32 - 1))); dlia. }
  rewrite !Z.shiftr_div_pow2 by lia.
  rewrite (lor_add _ _ 5); subst hi; dlia.
Qed.

Lemma b_imm_eq :
  b_imm bits = (bits / 2 ^ 7 mod 2) * 2 ^ 11 + (bits / 2 ^ 25 mod 2 ^ 6) * 2 ^ 5
               + (bits / 2 ^ 8 mod 2 ^ 4) * 2 - hi * 2 ^ 12.
Proof.
  unfold b_imm. rewrite i32_sign.
  change 0x00000080 with ((2 ^ 1 - 1) * 2 ^ 7).
  change 0x7e000000 with ((2 ^ 6 - 1) * 2 ^ 25).
  change 0x00000f00 with ((2 ^ 4 - 1) * 2 ^ 8).
  rewrite !i32_field by lia.
  rewrite !Z.shiftr_div_pow2, Z.shiftl_mul_pow2 by lia.
  unfold i32; rewrite sext_id by dlia.
  subst hi.
  rewrite (lor4_add _ _ _ _ 12 11 5); dlia.
Qed.

Lemma u_imm_eq : u_imm bits = (bits / 2 ^ 12) * 2 ^ 12 - hi * 2 ^ 32.
Proof.
  unfold u_imm. change 0xfffff000 with ((2 ^ 20 - 1) * 2 ^ 12).
  rewrite land_field by lia. unfold i32. rewrite sext_unsigned by dlia.
  subst hi. 
  destruct (Z.ltb_spec (bits / 2 ^ 12 mod 2 ^ 20 * 2 ^ 12) (2 ^ (32 - 1))); dlia.
Qed.

Lemma j_imm_eq :
  j_imm bits = (bits / 2 ^ 12 mod 2 ^ 8) * 2 ^ 12 + (bits / 2 ^ 20 mod 2) * 2 ^ 11
               + (bits / 2 ^ 21 mod 2 ^ 10) * 2 - hi * 2 ^ 20.
Proof.
  unfold j_imm. rewrite i32_sign.
  change 0x000ff000 with ((2 ^ 8 - 1) * 2 ^ 12).
  change 0x00100000 with ((2 ^ 1 - 1) * 2 ^ 20).
  change 0x7fe00000 with ((2 ^ 10 - 1) * 2 ^ 21).
  rewrite !i32_field by lia.
  rewrite !Z.shiftr_div_pow2 by lia. subst hi.
  rewrite (lor4_add _ _ _ _ 20 12 11); dlia.
Qed.

End Fields.

(** ** Reassembling a word from its fields *)

Ltac fields :=
  rewrite ?rd_eq, ?rs1_eq, ?rs2_eq, ?rs3_eq, ?funct3_eq, ?funct7_eq, ?opcode_eq, ?csr_eq.

Lemma word_r bits :
  in_u 32 bits ->
  enc_r (funct7 bits) (rs2 bits) (rs1 bits) (funct3 bits) (rd bits) (bits .& 0x7f) = bits.
Proof. intros. fields. unfold enc_r. dlia. Qed.

Lemma word_i bits :
  in_u 32 bits ->
  enc_i (i_imm bits) (rs1 bits) (funct3 bits) (rd bits) (bits .& 0x7f) = bits.
Proof. intros. rewrite i_imm_eq by assumption. fields. unfold enc_i. dlia. Qed.

Lemma word_csr bits :
  in_u 32 bits ->
  enc_i (csr bits) (rs1 bits) (funct3 bits) (rd bits) (bits .& 0x7f) = bits.
Proof. intros. fields. unfold enc_i. dlia. Qed.

Lemma word_s bits :
  in_u 32 bits ->
  enc_s (s_imm bits) (rs2 bits) (rs1 bits) (funct3 bits) (bits .& 0x7f) = bits.
Proof. intros. rewrite s_imm_eq by assumption. fields. unfold enc_s. dlia. Qed.

Lemma word_b bits :
  in_u 32 bits ->
  enc_b (b_imm bits) (rs2 bits) (rs1 bits) (funct3 bits) (bits .& 0x7f) = bits.
Proof. intros. rewrite b_imm_eq by assumption. fields. unfold enc_b. dlia. Qed.

Lemma word_u bits : in_u 32 bits -> enc_u (u_imm bits) (rd bits) (bits .& 0x7f) = bits.
Proof. intros. rewrite u_imm_eq by assumption. fields. unfold enc_u. dlia. Qed.

Lemma word_j bits : in_u 32 bits -> enc_j (j_imm bits) (rd bits) (bits .& 0x7f) = bits.
Proof. intros. rewrite j_imm_eq by assumption. fields. unfold enc_j. dlia. Qed.

(** ** Field ranges *)

Lemma rd_range bits : 0 <= rd bits < 32.
Proof. fields. dlia. Qed.
Lemma rs1_range bits : 0 <= rs1 bits < 32.
Proof. fields. dlia. Qed.
Lemma rs2_range bits : 0 <= rs2 bits < 32.
Proof. fields. dlia. Qed.
Lemma rs3_range bits : 0 <= rs3 bits < 32.
Proof. fields. dlia. Qed.
Lemma funct3_range bits : 0 <= funct3 bits < 8.
Proof. fields. dlia. Qed.
Lemma funct7_range bits : 0 <= funct7 bits < 128.
Proof. fields. dlia. Qed.
Lemma csr_range bits : in_u 32 bits -> 0 <= csr bits < 4096.
Proof. intros. fields. dlia. Qed.

Lemma i_imm_range bits : in_u 32 bits -> -2048 <= i_imm bits < 2048.
Proof. intros. rewrite i_imm_eq by assumption. dlia. Qed.
Lemma s_imm_range bits : in_u 32 bits -> -2048 <= s_imm bits < 2048.
Proof. intros. rewrite s_imm_eq by assumption. dlia. Qed.

Ltac range_ok :=
  repeat match goal with
  | |- _ && _ = true => apply andb_true_iff; split
  | |- (_ <=? _) = true => apply Z.leb_le
  | |- (_ <? _) = true => apply Z.ltb_lt
  | |- (_ =? _) = true => apply Z.eqb_eq
  end.

Lemma reg_ok_range r : 0 <= r < 32 -> reg_ok r = true.
Proof. unfold reg_ok; intros; range_ok; lia. Qed.

Lemma reg_ok_rd bits : reg_ok (rd bits) = true.
Proof. apply reg_ok_range, rd_range. Qed.
Lemma reg_ok_rs1 bits : reg_ok (rs1 bits) = true.
Proof. apply reg_ok_range, rs1_range. Qed.
Lemma reg_ok_rs2 bits : reg_ok (rs2 bits) = true.
Proof. apply reg_ok_range, rs2_range. Qed.
Lemma reg_ok_rs3 bits : reg_ok (rs3 bits) = true.
Proof. apply reg_ok_range, rs3_range. Qed.
Lemma imm12_ok_i bits : in_u 32 bits -> imm12_ok (i_imm bits) = true.
Proof. intros Hb. pose proof (i_imm_range bits Hb). unfold imm12_ok; range_ok; lia. Qed.
Lemma imm12_ok_s bits : in_u 32 bits -> imm12_ok (s_imm bits) = true.
Proof. intros Hb. pose proof (s_imm_range bits Hb). unfold imm12_ok; range_ok; lia. Qed.
Lemma imm13_ok_b bits : in_u 32 bits -> imm13_ok (b_imm bits) = true.
Proof. intros. rewrite b_imm_eq by assumption. unfold imm13_ok; range_ok; dlia. Qed.
Lemma imm20_ok_u bits : in_u 32 bits -> imm20_ok (u_imm bits) = true.
Proof. intros. rewrite u_imm_eq by assumption. unfold imm20_ok; range_ok; dlia. Qed.
Lemma imm21_ok_j bits : in_u 32 bits -> imm21_ok (j_imm bits) = true.
Proof. intros. rewrite j_imm_eq by assumption. unfold imm21_ok; range_ok; dlia. Qed.
Lemma csr_ok_csr bits : in_u 32 bits -> csr_ok (csr bits) = true.
Proof. intros Hb. pose proof (csr_range bits Hb). unfold csr_ok; range_ok; lia. Qed.

Create Rewrite HintDb field_ok.
#[local] Hint Rewrite reg_ok_rd reg_ok_rs1 reg_ok_rs2 reg_ok_rs3 : field_ok.
#[local] Hint Rewrite imm12_ok_i imm12_ok_s imm13_ok_b imm20_ok_u imm21_ok_j csr_ok_csr
  using assumption : field_ok.

(** Clearing bit 10 of the immediate ([imm & !0x400]) in the right shifts. *)
Lemma shift_imm_split imm :
  imm = (imm .& Z.lnot 0x400) + (imm / 2 ^ 10 mod 2) * 2 ^ 10
  /\ (imm .& 0x400) = (imm / 2 ^ 10 mod 2) * 2 ^ 10.
Proof.
  assert (imm .& 0x400 = (imm / 2 ^ 10 mod 2) * 2 ^ 10) as E
    by exact (land_field imm 10 1 ltac:(lia) ltac:(lia)).
  split; [|exact E]. rewrite <- E.
  rewrite Z.add_nocarry_lxor, Z.lxor_lor.
  - rewrite <- Z.land_lor_distr_r. replace (Z.lnot 0x400 .| 0x400) with (-1) by reflexivity.
    symmetry; apply Z.land_m1_r.
  - rewrite Z.land_assoc, (Z.land_comm (imm .& _) imm), Z.land_assoc, Z.land_diag.
    rewrite <- Z.land_assoc. apply Z.land_0_r.
  - rewrite Z.land_assoc, (Z.land_comm (imm .& _) imm), Z.land_assoc, Z.land_diag.
    rewrite <- Z.land_assoc. apply Z.land_0_r.
Qed.

(** ** What a decoded operation says about the word *)

(** Fences drop their ordering fields, illegal words are all alike and the
    decoder does not look at the funct3 field of JALR; every other operation
    determines the word it came from. *)
Definition faithful (bits : Z) (op : Op) : Prop :=
  match op with
  | Illegal | Fence | FenceI => True
  | Jalr _ _ _ => op_ok op = true /\ encode op + funct3 bits * 2 ^ 12 = bits
  | _ => op_ok op = true /\ encode op = bits
  end.

Lemma some_inj {A} (x y : A) : Some x = Some y -> x = y.
Proof. congruence. Qed.

(** Run through the arms of the literal matches of a decoding function. *)
Ltac arms :=
  repeat match goal with
  | H : None = Some _ |- _ => discriminate H
  | H : Some _ = Some ?op |- _ => apply some_inj in H; subst op
  | |- faithful _ Illegal => exact I
  | H : (match ?x with _ => _ end) = Some _ |- _ => destruct x eqn:?
  end.

Section Faithful.
Variable bits : Z.
Hypothesis Hbits : in_u 32 bits.

Ltac ok_goal := cbn [op_ok]; autorewrite with field_ok; cbn [andb]; try reflexivity.

Ltac enc_goal :=
  cbn [encode];
  first
    [ etransitivity; [|exact (word_r bits Hbits)]; congruence
    | etransitivity; [|exact (word_i bits Hbits)]; congruence
    | etransitivity; [|exact (word_s bits Hbits)]; congruence
    | etransitivity; [|exact (word_b bits Hbits)]; congruence
    | etransitivity; [|exact (word_u bits Hbits)]; congruence
    | etransitivity; [|exact (word_j bits Hbits)]; congruence
    | etransitivity; [|exact (word_csr bits Hbits)]; congruence ].

Ltac faithful_arms :=
  intros Hop op H; arms; try exact I; (split; [ok_goal|enc_goal]).

Lemma decode_load_faithful :
  bits .& 0x7f = 0x03 -> forall op,
  decode_load bits (funct3 bits) (rd bits) (rs1 bits) = Some op -> faithful bits op.
Proof. unfold decode_load. faithful_arms. Qed.

Lemma decode_load_fp_faithful :
  bits .& 0x7f = 0x07 -> forall op,
  decode_load_fp bits (funct3 bits) (rd bits) (rs1 bits) = Some op -> faithful bits op.
Proof. unfold decode_load_fp. faithful_arms. Qed.

Lemma decode_store_faithful :
  bits .& 0x7f = 0x23 -> forall op,
  decode_store bits (funct3 bits) (rs1 bits) (rs2 bits) = Some op -> faithful bits op.
Proof. unfold decode_store. faithful_arms. Qed.

Lemma decode_store_fp_faithful :
  bits .& 0x7f = 0x27 -> forall op,
  decode_store_fp bits (funct3 bits) (rs1 bits) (rs2 bits) = Some op -> faithful bits op.
Proof. unfold decode_store_fp. faithful_arms. Qed.

Lemma decode_branch_faithful :
  bits .& 0x7f = 0x63 -> forall op,
  decode_branch bits (funct3 bits) (rs1 bits) (rs2 bits) = Some op -> faithful bits op.
Proof. unfold decode_branch. faithful_arms. Qed.

Lemma decode_misc_mem_faithful op :
  decode_misc_mem (funct3 bits) = Some op -> faithful bits op.
Proof. unfold decode_misc_mem. intros H; arms; exact I. Qed.

Lemma decode_op_faithful :
  bits .& 0x7f = 0x33 -> forall op,
  decode_op bits (funct3 bits) (rd bits) (rs1 bits) (rs2 bits) = Some op -> faithful bits op.
Proof. unfold decode_op. faithful_arms. Qed.

Lemma decode_op_32_faithful :
  bits .& 0x7f = 0x3b -> forall op,
  decode_op_32 bits (funct3 bits) (rd bits) (rs1 bits) (rs2 bits) = Some op -> faithful bits op.
Proof. unfold decode_op_32. faithful_arms. Qed.

(** Shifts: the six- or five-bit amount, with bit 10 telling arithmetic ones. *)
Lemma shift_imm_facts width :
  0 <= width <= 64 ->
  (width <=? (i_imm bits .& Z.lnot 0x400)) = false ->
  if (i_imm bits .& 0x400) <>? 0
  then shift_imm_ok width (i_imm bits .& Z.lnot 0x400) = true
       /\ (i_imm bits .& Z.lnot 0x400) + 0x400 = i_imm bits
  else shift_imm_ok width (i_imm bits) = true.
Proof.
  intros Hw Hlt. zbool. destruct (shift_imm_split (i_imm bits)) as [E1 E2].
  pose proof (i_imm_range bits Hbits).
  set (a := i_imm bits .& Z.lnot 0x400) in *.
  destruct ((i_imm bits .& 0x400) <>? 0) eqn:B; zbool; unfold shift_imm_ok.
  - split; [range_ok|]; dlia.
  - range_ok; dlia.
Qed.

Ltac shift_enc :=
  cbn [encode]; etransitivity; [|exact (word_i bits Hbits)];
  match goal with
  | E : _ = i_imm bits |- _ => rewrite E
  | _ => idtac
  end; f_equal; congruence.

Ltac shift_arms :=
  intros Hop op H; arms; try exact I;
  repeat match goal with
  | L : (?w <=? (i_imm bits .& _)) = false, B : ((i_imm bits .& 0x400) <>? 0) = _ |- _ =>
      pose proof (shift_imm_facts w ltac:(lia) L) as S; rewrite B in S; clear L
  | S : _ /\ _ |- _ => destruct S
  end;
  (split; [ok_goal; try (zbool; range_ok; pose proof (i_imm_range bits Hbits); lia);
           trivial
          |shift_enc]).

Lemma decode_op_imm_faithful :
  bits .& 0x7f = 0x13 -> forall op,
  decode_op_imm bits (funct3 bits) (rd bits) (rs1 bits) = Some op -> faithful bits op.
Proof. unfold decode_op_imm. shift_arms. Qed.

Lemma decode_op_imm_32_faithful :
  bits .& 0x7f = 0x1b -> forall op,
  decode_op_imm_32 bits (funct3 bits) (rd bits) (rs1 bits) = Some op -> faithful bits op.
Proof. unfold decode_op_imm_32. shift_arms. Qed.

(** Atomics: funct7 is the operation followed by the two ordering bits. *)
Lemma decode_aqrl_code ord :
  decode_aqrl bits = Some ord ->
  funct7 bits = (funct7 bits >> 2) * 4 + aqrl_code ord.
Proof.
  unfold decode_aqrl. change 3 with (2 ^ 2 - 1). rewrite land_mask, Z.shiftr_div_pow2 by lia.
  intros H. assert (funct7 bits mod 2 ^ 2 = aqrl_code ord) by (arms; reflexivity).
  dlia.
Qed.

Lemma decode_amo_faithful :
  bits .& 0x7f = 0x2f -> forall op,
  decode_amo bits (funct3 bits) (rd bits) (rs1 bits) (rs2 bits) = Some op ->
  faithful bits op.
Proof.
  unfold decode_amo. intros Hop op. destruct (decode_aqrl bits) as [ord|] eqn:Ho; [|discriminate].
  apply decode_aqrl_code in Ho. unfold decode_amo_w, decode_amo_d.
  intros H; arms; try exact I; zbool; (split; [ok_goal|enc_goal]).
Qed.

(** The static rounding mode of the floating-point operations is funct3. *)
Lemma with_rm_faithful k op :
  with_rm (funct3 bits) k = Some op ->
  (rm_ok (funct3 bits) = true -> faithful bits (k (funct3 bits))) ->
  faithful bits op.
Proof.
  unfold with_rm. pose proof (funct3_range bits).
  replace (u8 (funct3 bits)) with (funct3 bits)
    by (symmetry; apply wrap_id; unfold in_u; lia).
  intros H' K. destruct ((4 <? funct3 bits) && (funct3 bits <>? 7)) eqn:E;
    injection H' as <-; [exact I|].
  apply K. unfold rm_ok. rewrite E. range_ok; try lia; reflexivity.
Qed.

Ltac rm_arms :=
  intros Hop op H; arms; try exact I;
  repeat match goal with
  | H : with_rm _ _ = Some _ |- _ => apply (with_rm_faithful _ _ H); intros ?Hrm; clear H
  end;
  (split; [ok_goal; trivial|enc_goal]).

Lemma decode_fma_faithful opc (single double : Z -> Z -> Z -> Z -> Z -> Op) :
  bits .& 0x7f = opc ->
  (forall d a b c m, (reg_ok d && reg_ok a && reg_ok b && reg_ok c && rm_ok m)%bool = true ->
     faithful (enc_r (c * 4) b a m d opc) (single d a b c m) /\
     faithful (enc_r (c * 4 + 1) b a m d opc) (double d a b c m)) ->
  forall op,
  decode_fma bits (funct3 bits) (rd bits) (rs1 bits) (rs2 bits) single double = Some op ->
  faithful bits op.
Proof.
  intros Hop K op. unfold decode_fma.
  assert (funct7 bits = rs3 bits * 4 + (funct7 bits .& 3)) as E7.
  { change 3 with (2 ^ 2 - 1). rewrite land_mask by lia. fields. dlia. }
  assert (rm_ok (funct3 bits) = true -> forall n, (funct7 bits .& 3) = n ->
    enc_r (rs3 bits * 4 + n) (rs2 bits) (rs1 bits) (funct3 bits) (rd bits) opc = bits) as Ew.
  { intros _ n En. etransitivity; [|exact (word_r bits Hbits)]. congruence. }
  intros H; arms; try exact I; apply (with_rm_faithful _ _ H); intros Hrm;
    specialize (Ew Hrm _ eq_refl);
    rewrite ?Z.add_0_r in Ew; rewrite <- Ew at 1; apply K;
    autorewrite with field_ok; rewrite Hrm; reflexivity.
Qed.

Lemma decode_op_fp_faithful :
  bits .& 0x7f = 0x53 -> forall op,
  decode_op_fp bits (funct3 bits) (rd bits) (rs1 bits) (rs2 bits) = Some op ->
  faithful bits op.
Proof. unfold decode_op_fp. rm_arms. Qed.

Lemma decode_csr_faithful :
  bits .& 0x7f = 0x73 -> funct3 bits <> 0 -> forall op,
  decode_csr bits (funct3 bits) (rd bits) (rs1 bits) = Some op -> faithful bits op.
Proof.
  unfold decode_csr. intros Hop H0 op H.
  destruct (Csr.readonly (csr bits)) eqn:Hro, (rs1 bits =? 0) eqn:Hz;
    rewrite ?andb_true_r, ?andb_false_r in H; cbn [negb andb] in H;
    arms; try exact I; try discriminate;
    (split; [ok_goal; rewrite ?Hro, ?Hz; try reflexivity; congruence|enc_goal]).
Qed.

Lemma decode_system_csr function rd rs1 rs2 :
  function <> 0 -> function <> 4 ->
  decode_system bits function rd rs1 rs2 = decode_csr bits function rd rs1.
Proof.
  intros H0 H4. unfold decode_system.
  destruct function as [|[p|[q|[p|p|]|]|]|p]; try reflexivity; congruence.
Qed.

Lemma decode_system_faithful :
  bits .& 0x7f = 0x73 -> forall op,
  decode_system bits (funct3 bits) (rd bits) (rs1 bits) (rs2 bits) = Some op ->
  faithful bits op.
Proof.
  intros Hop op. destruct (Z.eq_dec (funct3 bits) 0) as [E|N0];
    [|destruct (Z.eq_dec (funct3 bits) 4) as [E|N4]].
  - rewrite E. unfold decode_system. intros H.
    arms; try exact I; zbool; (split; [ok_goal|first [symmetry; assumption|enc_goal]]).
  - rewrite E. intros [= <-]. exact I.
  - rewrite decode_system_csr by assumption. apply (decode_csr_faithful Hop N0).
Qed.

End Faithful.

Ltac single_word :=
  match goal with
  | Hb : in_u 32 ?bits, Hop : _ .& _ = _ |- _ + _ = _ =>
      etransitivity; [|exact (word_i bits Hb)]; unfold enc_i; rewrite Hop; ring
  | Hb : in_u 32 ?bits |- enc_u _ _ _ = _ => etransitivity; [|exact (word_u bits Hb)]
  | Hb : in_u 32 ?bits |- enc_j _ _ _ = _ => etransitivity; [|exact (word_j bits Hb)]
  end; try congruence.

(** The tests on the low bits of the word only look at the opcode. *)
Lemma opcode_low bits m : 0x7f .& m = m -> bits .& m = (bits .& 0x7f) .& m.
Proof. intros E. rewrite <- Z.land_assoc, E. reflexivity. Qed.

Lemma decode_faithful bits op :
  in_u 32 bits -> decode bits = Some op -> faithful bits op.
Proof.
  intros Hb. unfold decode.
  destruct (negb _); [discriminate|].
  destruct (_ =? 0x1f); [intros H; arms|].
  destruct (bits .& 0x7f) eqn:Hop; [intros H; arms| |intros H; arms].
  repeat match goal with
  | |- (match ?p with _ => _ end) = Some op -> _ => destruct p
  end;
  lazymatch goal with
  | |- decode_load _ _ _ _ = _ -> _ => apply decode_load_faithful; assumption
  | |- decode_load_fp _ _ _ _ = _ -> _ => apply decode_load_fp_faithful; assumption
  | |- decode_op_imm _ _ _ _ = _ -> _ => apply decode_op_imm_faithful; assumption
  | |- decode_misc_mem _ = _ -> _ => apply decode_misc_mem_faithful
  | |- decode_op_imm_32 _ _ _ _ = _ -> _ => apply decode_op_imm_32_faithful; assumption
  | |- decode_store _ _ _ _ = _ -> _ => apply decode_store_faithful; assumption
  | |- decode_store_fp _ _ _ _ = _ -> _ => apply decode_store_fp_faithful; assumption
  | |- decode_amo _ _ _ _ _ = _ -> _ => apply decode_amo_faithful; assumption
  | |- decode_op _ _ _ _ _ = _ -> _ => apply decode_op_faithful; assumption
  | |- decode_op_32 _ _ _ _ _ = _ -> _ => apply decode_op_32_faithful; assumption
  | |- decode_op_fp _ _ _ _ _ = _ -> _ => apply decode_op_fp_faithful; assumption
  | |- decode_branch _ _ _ _ = _ -> _ => apply decode_branch_faithful; assumption
  | |- decode_system _ _ _ _ _ = _ -> _ => apply decode_system_faithful; assumption
  | |- decode_fma _ _ _ _ _ _ _ = _ -> _ =>
      apply (decode_fma_faithful bits Hb _ _ _ Hop);
      intros; split; (split; [assumption|cbn [encode]; rewrite ?Z.add_0_r; reflexivity])
  | |- _ => intros H; arms;
      (split; [cbn [op_ok]; autorewrite with field_ok; reflexivity|cbn [encode]; single_word])
  end.
Qed.

(** ** Decoding an encoded operation *)

(** [has_fields] lists what [decode] reads of a word. *)
Definition has_fields (bits f7 s2 s1 f3 d opc : Z) : Prop :=
  bits .& 0x7f = opc /\ rd bits = d /\ funct3 bits = f3 /\ rs1 bits = s1 /\
  rs2 bits = s2 /\ funct7 bits = f7 /\ in_u 32 bits.

Lemma enc_r_fields f7 s2 s1 f3 d opc :
  in_u 7 f7 -> in_u 5 s2 -> in_u 5 s1 -> in_u 3 f3 -> in_u 5 d -> in_u 7 opc ->
  has_fields (enc_r f7 s2 s1 f3 d opc) f7 s2 s1 f3 d opc.
Proof.
  intros. unfold has_fields. fields. unfold enc_r. repeat split; dlia.
Qed.

(** The immediate formats put the immediate where the other fields would be. *)
Lemma enc_i_r imm s1 f3 d opc :
  enc_i imm s1 f3 d opc
  = enc_r (imm mod 2 ^ 12 / 2 ^ 5) (imm mod 2 ^ 5) s1 f3 d opc.
Proof. unfold enc_i, enc_r. dlia. Qed.

Lemma enc_s_r imm s2 s1 f3 opc :
  enc_s imm s2 s1 f3 opc = enc_r (imm / 2 ^ 5 mod 2 ^ 7) s2 s1 f3 (imm mod 2 ^ 5) opc.
Proof. unfold enc_s, enc_r. dlia. Qed.

Lemma enc_b_r imm s2 s1 f3 opc :
  enc_b imm s2 s1 f3 opc
  = enc_r ((imm / 2 ^ 12 mod 2) * 2 ^ 6 + imm / 2 ^ 5 mod 2 ^ 6) s2 s1 f3
      ((imm / 2 mod 2 ^ 4) * 2 + imm / 2 ^ 11 mod 2) opc.
Proof. unfold enc_b, enc_r. dlia. Qed.

Lemma enc_u_r imm d opc :
  enc_u imm d opc
  = enc_r (imm / 2 ^ 25 mod 2 ^ 7) (imm / 2 ^ 20 mod 2 ^ 5) (imm / 2 ^ 15 mod 2 ^ 5)
      (imm / 2 ^ 12 mod 2 ^ 3) d opc.
Proof. unfold enc_u, enc_r. dlia. Qed.

Lemma enc_j_r imm d opc :
  enc_j imm d opc
  = enc_r ((imm / 2 ^ 20 mod 2) * 2 ^ 6 + imm / 2 ^ 5 mod 2 ^ 6)
      ((imm / 2 mod 2 ^ 4) * 2 + imm / 2 ^ 11 mod 2)
      (imm / 2 ^ 15 mod 2 ^ 5) (imm / 2 ^ 12 mod 2 ^ 3) d opc.
Proof. unfold enc_j, enc_r. dlia. Qed.

Lemma reg_ok_in_u r : reg_ok r = true -> in_u 5 r.
Proof. unfold reg_ok, in_u; intros; zbool; lia. Qed.

Ltac imm_fields :=
  intros; apply enc_r_fields; try assumption; dlia.

Lemma enc_i_fields imm s1 f3 d opc :
  in_u 5 s1 -> in_u 3 f3 -> in_u 5 d -> in_u 7 opc ->
  has_fields (enc_i imm s1 f3 d opc) (imm mod 2 ^ 12 / 2 ^ 5) (imm mod 2 ^ 5) s1 f3 d opc.
Proof. rewrite enc_i_r. imm_fields. Qed.

Lemma enc_s_fields imm s2 s1 f3 opc :
  in_u 5 s2 -> in_u 5 s1 -> in_u 3 f3 -> in_u 7 opc ->
  has_fields (enc_s imm s2 s1 f3 opc) (imm / 2 ^ 5 mod 2 ^ 7) s2 s1 f3 (imm mod 2 ^ 5) opc.
Proof. rewrite enc_s_r. imm_fields. Qed.

Lemma enc_b_fields imm s2 s1 f3 opc :
  in_u 5 s2 -> in_u 5 s1 -> in_u 3 f3 -> in_u 7 opc ->
  has_fields (enc_b imm s2 s1 f3 opc)
    ((imm / 2 ^ 12 mod 2) * 2 ^ 6 + imm / 2 ^ 5 mod 2 ^ 6) s2 s1 f3
    ((imm / 2 mod 2 ^ 4) * 2 + imm / 2 ^ 11 mod 2) opc.
Proof. rewrite enc_b_r. imm_fields. Qed.

Lemma enc_u_fields imm d opc :
  in_u 5 d -> in_u 7 opc ->
  has_fields (enc_u imm d opc) (imm / 2 ^ 25 mod 2 ^ 7) (imm / 2 ^ 20 mod 2 ^ 5)
    (imm / 2 ^ 15 mod 2 ^ 5) (imm / 2 ^ 12 mod 2 ^ 3) d opc.
Proof. rewrite enc_u_r. imm_fields. Qed.

Lemma enc_j_fields imm d opc :
  in_u 5 d -> in_u 7 opc ->
  has_fields (enc_j imm d opc)
    ((imm / 2 ^ 20 mod 2) * 2 ^ 6 + imm / 2 ^ 5 mod 2 ^ 6)
    ((imm / 2 mod 2 ^ 4) * 2 + imm / 2 ^ 11 mod 2)
    (imm / 2 ^ 15 mod 2 ^ 5) (imm / 2 ^ 12 mod 2 ^ 3) d opc.
Proof. rewrite enc_j_r. imm_fields. Qed.

(** The scattered immediates, from the fields they are spread over. *)
Lemma b_imm_fields bits :
  in_u 32 bits ->
  b_imm bits = (rd bits mod 2) * 2 ^ 11 + (funct7 bits mod 2 ^ 6) * 2 ^ 5
               + (rd bits / 2) * 2 - (funct7 bits / 2 ^ 6) * 2 ^ 12.
Proof. intros. rewrite b_imm_eq by assumption. fields. dlia. Qed.

Lemma j_imm_fields bits :
  in_u 32 bits ->
  j_imm bits = (rs1 bits * 2 ^ 3 + funct3 bits) * 2 ^ 12 + (rs2 bits mod 2) * 2 ^ 11
               + (funct7 bits mod 2 ^ 6) * 2 ^ 5 + (rs2 bits / 2) * 2
               - (funct7 bits / 2 ^ 6) * 2 ^ 20.
Proof. intros. rewrite j_imm_eq by assumption. fields. dlia. Qed.

(** The immediates come back. *)
Lemma i_imm_enc imm s1 f3 d opc :
  in_u 5 s1 -> in_u 3 f3 -> in_u 5 d -> in_u 7 opc -> -2048 <= imm < 2048 ->
  i_imm (enc_i imm s1 f3 d opc) = imm.
Proof.
  intros. rewrite i_imm_eq by (apply enc_i_fields; assumption). unfold enc_i. dlia.
Qed.

Lemma csr_enc c s1 f3 d opc :
  in_u 5 s1 -> in_u 3 f3 -> in_u 5 d -> in_u 7 opc -> 0 <= c < 4096 ->
  csr (enc_i c s1 f3 d opc) = c.
Proof. intros. fields. unfold enc_i. dlia. Qed.

Lemma s_imm_enc imm s2 s1 f3 opc :
  in_u 5 s2 -> in_u 5 s1 -> in_u 3 f3 -> in_u 7 opc -> -2048 <= imm < 2048 ->
  s_imm (enc_s imm s2 s1 f3 opc) = imm.
Proof.
  intros. rewrite s_imm_eq by (apply enc_s_fields; assumption). unfold enc_s. dlia.
Qed.

Lemma b_imm_enc imm s2 s1 f3 opc :
  in_u 5 s2 -> in_u 5 s1 -> in_u 3 f3 -> in_u 7 opc ->
  -4096 <= imm < 4096 -> imm mod 2 = 0 ->
  b_imm (enc_b imm s2 s1 f3 opc) = imm.
Proof.
  intros. destruct (enc_b_fields imm s2 s1 f3 opc) as (_ & Ed & _ & _ & _ & E7 & Hu);
    try assumption.
  rewrite b_imm_fields, Ed, E7 by assumption. dlia.
Qed.

Lemma u_imm_enc imm d opc :
  in_u 5 d -> in_u 7 opc -> - 2 ^ 31 <= imm < 2 ^ 31 -> imm mod 2 ^ 12 = 0 ->
  u_imm (enc_u imm d opc) = imm.
Proof.
  intros. rewrite u_imm_eq by (apply enc_u_fields; assumption). unfold enc_u. dlia.
Qed.

Lemma j_imm_enc imm d opc :
  in_u 5 d -> in_u 7 opc -> - 2 ^ 20 <= imm < 2 ^ 20 -> imm mod 2 = 0 ->
  j_imm (enc_j imm d opc) = imm.
Proof.
  intros. destruct (enc_j_fields imm d opc) as (_ & _ & E3 & E1 & E2 & E7 & Hu);
    try assumption.
  rewrite j_imm_fields, E1, E2, E3, E7 by assumption. dlia.
Qed.

Lemma with_rm_ok m k : rm_ok m = true -> with_rm m k = Some (k m).
Proof.
  unfold rm_ok, with_rm. intros H. zbool.
  replace (u8 m) with m by (symmetry; apply wrap_id; unfold in_u; lia).
  match goal with E : _ = false |- _ => rewrite E end. reflexivity.
Qed.

Lemma rm_ok_in_u m : rm_ok m = true -> in_u 3 m.
Proof. unfold rm_ok, in_u. intros; zbool; lia. Qed.

Lemma aqrl_code_range o : 0 <= aqrl_code o < 4.
Proof. destruct o; cbn; lia. Qed.

Lemma decode_aqrl_enc bits o f :
  funct7 bits = f * 4 + aqrl_code o -> decode_aqrl bits = Some o /\ funct7 bits >> 2 = f.
Proof.
  intros E. unfold decode_aqrl. rewrite E. pose proof (aqrl_code_range o).
  change 3 with (2 ^ 2 - 1). rewrite land_mask, Z.shiftr_div_pow2 by lia. split; [|dlia].
  replace ((f * 4 + aqrl_code o) mod 2 ^ 2) with (aqrl_code o) by dlia.
  destruct o; reflexivity.
Qed.

Lemma decode_fma_enc bits c n :
  in_u 32 bits -> in_u 5 c -> 0 <= n < 4 -> funct7 bits = c * 4 + n ->
  rs3 bits = c /\ (funct7 bits .& 3) = n.
Proof.
  intros Hb Hc Hn E. change 3 with (2 ^ 2 - 1). rewrite land_mask by lia.
  revert E. fields. intros E. split; dlia.
Qed.

Ltac side :=
  first [assumption | apply reg_ok_in_u; assumption | apply rm_ok_in_u; assumption
        | (unfold in_u; lia)
        | (repeat match goal with H : reg_ok _ = true |- _ => apply reg_ok_in_u in H end; dlia) ].

(** Expose the fields and the immediate of an encoded word. *)
Ltac word_facts w :=
  lazymatch w with
  | enc_r ?a ?b ?c ?d ?e ?f =>
      destruct (enc_r_fields a b c d e f ltac:(side) ltac:(side) ltac:(side) ltac:(side)
                  ltac:(side) ltac:(side)) as (? & ? & ? & ? & ? & ? & ?)
  | enc_i ?a ?b ?c ?d ?e =>
      destruct (enc_i_fields a b c d e ltac:(side) ltac:(side) ltac:(side) ltac:(side))
        as (? & ? & ? & ? & ? & ? & ?);
      try pose proof (i_imm_enc a b c d e ltac:(side) ltac:(side) ltac:(side) ltac:(side)
                        ltac:(side));
      try pose proof (csr_enc a b c d e ltac:(side) ltac:(side) ltac:(side) ltac:(side)
                        ltac:(side))
  | enc_s ?a ?b ?c ?d ?e =>
      destruct (enc_s_fields a b c d e ltac:(side) ltac:(side) ltac:(side) ltac:(side))
        as (? & ? & ? & ? & ? & ? & ?);
      pose proof (s_imm_enc a b c d e ltac:(side) ltac:(side) ltac:(side) ltac:(side)
                    ltac:(side))
  | enc_b ?a ?b ?c ?d ?e =>
      destruct (enc_b_fields a b c d e ltac:(side) ltac:(side) ltac:(side) ltac:(side))
        as (? & ? & ? & ? & ? & ? & ?);
      pose proof (b_imm_enc a b c d e ltac:(side) ltac:(side) ltac:(side) ltac:(side)
                    ltac:(side) ltac:(side))
  | enc_u ?a ?b ?c =>
      destruct (enc_u_fields a b c ltac:(side) ltac:(side))
        as (? & ? & ? & ? & ? & ? & ?);
      pose proof (u_imm_enc a b c ltac:(side) ltac:(side) ltac:(side) ltac:(side))
  | enc_j ?a ?b ?c =>
      destruct (enc_j_fields a b c ltac:(side) ltac:(side))
        as (? & ? & ? & ? & ? & ? & ?);
      pose proof (j_imm_enc a b c ltac:(side) ltac:(side) ltac:(side) ltac:(side))
  end.

(** Evaluate [decode] on a word whose fields are known. *)
Ltac run_decode :=
  lazymatch goal with
  | |- decode ?w = _ =>
      word_facts w; generalize dependent w; intros bits; intros; unfold decode;
      rewrite (opcode_low bits 3), (opcode_low bits 0x1f) by reflexivity;
      repeat match goal with
      | H : bits .& 0x7f = _ |- _ => rewrite H; clear H
      | H : rd bits = _ |- _ => rewrite H; clear H
      | H : funct3 bits = _ |- _ => rewrite H; clear H
      | H : rs1 bits = _ |- _ => rewrite H; clear H
      | H : rs2 bits = _ |- _ => rewrite H; clear H
      | H : i_imm bits = _ |- _ => rewrite H; clear H
      end;
      cbv beta iota zeta delta [negb Z.eqb Pos.eqb Z.land Pos.land Pos.Ndouble Pos.Nsucc_double
                                Z.of_N Z.double N.double N.succ_double]
  end.

Ltac op_facts :=
  cbn [op_ok encode]; intros;
  unfold imm12_ok, imm13_ok, imm20_ok, imm21_ok, csr_ok, shift_imm_ok in *; zbool.

(** The two right shifts share an opcode and differ in bit 10. *)
Lemma shift_imm_logical imm :
  imm / 2 ^ 10 mod 2 = 0 -> (imm .& Z.lnot 0x400) = imm /\ (imm .& 0x400) = 0.
Proof. intros. destruct (shift_imm_split imm) as [E1 E2]. dlia. Qed.

Lemma shift_imm_arith imm :
  imm / 2 ^ 10 mod 2 = 0 ->
  ((imm + 0x400) .& Z.lnot 0x400) = imm /\ ((imm + 0x400) .& 0x400) = 0x400.
Proof. intros. destruct (shift_imm_split (imm + 0x400)) as [E1 E2]. dlia. Qed.

Ltac finish_decode :=
  unfold decode_load, decode_load_fp, decode_op_imm, decode_misc_mem, decode_op_imm_32,
    decode_store, decode_store_fp, decode_op, decode_op_32, decode_op_fp, decode_branch,
    decode_system, decode_csr;
  repeat match goal with
  | H : i_imm ?b = _ |- context [i_imm ?b] => rewrite H
  | H : s_imm ?b = _ |- context [s_imm ?b] => rewrite H
  | H : b_imm ?b = _ |- context [b_imm ?b] => rewrite H
  | H : u_imm ?b = _ |- context [u_imm ?b] => rewrite H
  | H : j_imm ?b = _ |- context [j_imm ?b] => rewrite H
  | H : csr ?b = _ |- context [csr ?b] => rewrite H
  | H : funct7 ?b = _ |- context [funct7 ?b] => rewrite H
  | H : Csr.readonly _ = _ |- _ => rewrite H
  | H : ?imm / 2 ^ 10 mod 2 = 0 |- context [(?imm + 1024) .& _] =>
      destruct (shift_imm_arith imm H) as [-> ->]
  | H : ?imm / 2 ^ 10 mod 2 = 0 |- context [?imm .& _] =>
      destruct (shift_imm_logical imm H) as [-> ->]
  | |- context [_ <=? ?imm] => rewrite (proj2 (Z.leb_gt _ imm)) by lia
  end;
  rewrite ?with_rm_ok by assumption; reflexivity.

Ltac amo_decode :=
  run_decode; unfold decode_amo;
  match goal with
  | H : funct7 ?b = ?f * 4 + aqrl_code ?o |- _ =>
      destruct (decode_aqrl_enc b o f H) as [-> ->]
  end; reflexivity.

Ltac fma_decode :=
  run_decode; unfold decode_fma;
  match goal with
  | H : funct7 ?b = ?c * 4 + ?n, Hb : in_u 32 ?b |- _ =>
      destruct (decode_fma_enc b c n Hb ltac:(side) ltac:(lia) H) as [-> ->]
  end; rewrite ?with_rm_ok by assumption; reflexivity.

(** A [csrrs] or [csrrc] with a zero source may name a read-only CSR. *)
Ltac csr_decode :=
  unfold decode_system, decode_csr;
  match goal with H : csr ?b = _ |- _ => rewrite H end;
  match goal with
  | H : negb (Csr.readonly ?c) || (?s =? 0) = true |- _ =>
      destruct (Csr.readonly c), (s =? 0); try discriminate H; reflexivity
  end.

Lemma decode_sfence bits s1 s2 :
  funct7 bits = 9 -> decode_system bits 0 0 s1 s2 = Some (SfenceVma s1 s2).
Proof.
  intros H7.
  assert (forall k, funct7 k <> 9 -> (bits =? k) = false) as Hne
    by (intros k Hk; apply Z.eqb_neq; congruence).
  unfold decode_system. rewrite !Hne, H7 by discriminate. reflexivity.
Qed.

Lemma decode_encode_op op : op_ok op = true -> decode (encode op) = Some op.
Proof.
  destruct op; try (intros _; reflexivity); op_facts.
  all: try match goal with o : Ordering |- _ => pose proof (aqrl_code_range o) end.
  all: lazymatch goal with
       | |- _ = Some (FmaddS _ _ _ _ _) => fma_decode
       | |- _ = Some (FmaddD _ _ _ _ _) => fma_decode
       | |- _ = Some (FmsubS _ _ _ _ _) => fma_decode
       | |- _ = Some (FmsubD _ _ _ _ _) => fma_decode
       | |- _ = Some (FnmsubS _ _ _ _ _) => fma_decode
       | |- _ = Some (FnmsubD _ _ _ _ _) => fma_decode
       | |- _ = Some (FnmaddS _ _ _ _ _) => fma_decode
       | |- _ = Some (FnmaddD _ _ _ _ _) => fma_decode
       | o : Ordering |- _ => amo_decode
       | |- _ = Some (SfenceVma _ _) => run_decode; apply decode_sfence; assumption
       | |- _ = Some (Csrrs _ _ _) => run_decode; csr_decode
       | |- _ = Some (Csrrc _ _ _) => run_decode; csr_decode
       | |- _ = Some (Csrrsi _ _ _) => run_decode; csr_decode
       | |- _ = Some (Csrrci _ _ _) => run_decode; csr_decode
       | |- _ => run_decode; finish_decode
       end.
Qed.

(** ** The compressed instructions, exhaustively

    There are 2^16 words: the checks below are evaluated on all of them. *)

Fixpoint all_words (n : nat) (base : Z) (f : Z -> bool) : bool :=
  match n with
  | O => f base
  | S n => all_words n (2 * base) f && all_words n (2 * base + 1) f
  end.

Lemma all_words_spec n f : forall base,
  all_words n base f = true ->
  forall x, base * 2 ^ Z.of_nat n <= x < (base + 1) * 2 ^ Z.of_nat n -> f x = true.
Proof.
  induction n as [|n IH]; intros base H x Hx.
  - rewrite Z.pow_0_r, !Z.mul_1_r in Hx. replace x with base by lia. exact H.
  - cbn [all_words] in H. apply andb_true_iff in H as [H0 H1].
    rewrite Nat2Z.inj_succ, Z.pow_succ_r in Hx by lia.
    destruct (Z.lt_ge_cases x ((2 * base + 1) * 2 ^ Z.of_nat n)).
    + apply (IH _ H0). lia.
    + apply (IH _ H1). lia.
Qed.

Lemma all_words_16 f : all_words 16 0 f = true -> forall x, in_u 16 x -> f x = true.
Proof. intros H x Hx. apply (all_words_spec _ _ _ H). unfold in_u in Hx. lia. Qed.

Definition compressed_ok (bits : Z) : bool :=
  if (bits .& 3) =? 3 then true
  else match decode_compressed bits with Some op => op_ok op | None => false end.

Lemma compressed_ok_all : all_words 16 0 compressed_ok = true.
Proof. vm_cast_no_check (eq_refl true). Qed.

(** The immediate layouts of the RVC chapter: a list of (position in the word,
    position in the immediate). *)
Definition gather (bits : Z) (layout : list (Z * Z)) : Z :=
  fold_right (fun '(src, dst) acc => (Z.b2z (Z.testbit bits src) << dst) + acc) 0 layout.

Definition layout_ci := [(12, 5); (6, 4); (5, 3); (4, 2); (3, 1); (2, 0)].
Definition layout_lwsp := [(12, 5); (6, 4); (5, 3); (4, 2); (3, 7); (2, 6)].
Definition layout_ldsp := [(12, 5); (6, 4); (5, 3); (4, 8); (3, 7); (2, 6)].
Definition layout_addi16sp := [(12, 9); (6, 4); (5, 6); (4, 8); (3, 7); (2, 5)].
Definition layout_swsp := [(12, 5); (11, 4); (10, 3); (9, 2); (8, 7); (7, 6)].
Definition layout_sdsp := [(12, 5); (11, 4); (10, 3); (9, 8); (8, 7); (7, 6)].
Definition layout_ciw :=
  [(12, 5); (11, 4); (10, 9); (9, 8); (8, 7); (7, 6); (6, 2); (5, 3)].
Definition layout_lw := [(12, 5); (11, 4); (10, 3); (6, 2); (5, 6)].
Definition layout_ld := [(12, 5); (11, 4); (10, 3); (6, 7); (5, 6)].
Definition layout_cb := [(12, 8); (11, 4); (10, 3); (6, 7); (5, 6); (4, 2); (3, 1); (2, 5)].
Definition layout_cj :=
  [(12, 11); (11, 4); (10, 9); (9, 8); (8, 10); (7, 6); (6, 7); (5, 3); (4, 2); (3, 1); (2, 5)].

Definition compressed_imms_ok (bits : Z) : bool :=
  (ci_imm bits =? sext 6 (gather bits layout_ci)) &&
  (ci_lwsp_imm bits =? gather bits layout_lwsp) &&
  (ci_ldsp_imm bits =? gather bits layout_ldsp) &&
  (ci_addi16sp_imm bits =? sext 10 (gather bits layout_addi16sp)) &&
  (css_swsp_imm bits =? gather bits layout_swsp) &&
  (css_sdsp_imm bits =? gather bits layout_sdsp) &&
  (ciw_imm bits =? gather bits layout_ciw) &&
  (cl_lw_imm bits =? gather bits layout_lw) &&
  (cl_ld_imm bits =? gather bits layout_ld) &&
  (cb_imm bits =? sext 9 (gather bits layout_cb)) &&
  (cj_imm bits =? sext 12 (gather bits layout_cj)).

Lemma compressed_imms_all : all_words 16 0 compressed_imms_ok = true.
Proof. vm_cast_no_check (eq_refl true). Qed.

(** ** Totality of [decode] *)

Lemma small_cases n x :
  0 <= x < Z.of_nat n -> exists k, (k < n)%nat /\ x = Z.of_nat k.
Proof. exists (Z.to_nat x). lia. Qed.

Ltac funct3_cases bits :=
  let k := fresh "k" in let Hk := fresh "Hk" in let E := fresh "E" in
  destruct (small_cases 8 (funct3 bits) (funct3_range bits)) as (k & Hk & E);
  rewrite E; clear E;
  destruct k as [|[|[|[|[|[|[|[|k]]]]]]]]; [..|exfalso; lia];
  cbn [Z.of_nat Pos.of_succ_nat Pos.succ].

Lemma decode_aqrl_total bits : exists o, decode_aqrl bits = Some o.
Proof.
  unfold decode_aqrl. change 3 with (2 ^ 2 - 1). rewrite land_mask by lia.
  destruct (small_cases 4 (funct7 bits mod 2 ^ 2)) as (k & Hk & ->); [dlia|].
  destruct k as [|[|[|[|k]]]]; [..|exfalso; lia]; eexists; reflexivity.
Qed.

Lemma with_rm_total m k : exists op, with_rm m k = Some op.
Proof. unfold with_rm. split_if; eexists; reflexivity. Qed.

Ltac some_arms :=
  repeat first
    [ eexists; reflexivity | apply with_rm_total
    | match goal with |- exists _, (match ?x with _ => _ end) = Some _ => destruct x end ].

Lemma decode_csr_total bits : 
  funct3 bits <> 0 -> funct3 bits <> 4 ->
  exists op, decode_csr bits (funct3 bits) (rd bits) (rs1 bits) = Some op.
Proof.
  unfold decode_csr. intros H0 H4. split_if; [eexists; reflexivity|].
  revert H0 H4. funct3_cases bits; intros; first [eexists; reflexivity|congruence].
Qed.

Lemma decode_system_total bits :
  exists op, decode_system bits (funct3 bits) (rd bits) (rs1 bits) (rs2 bits) = Some op.
Proof.
  destruct (Z.eq_dec (funct3 bits) 0) as [E|N0];
    [|destruct (Z.eq_dec (funct3 bits) 4) as [E|N4]].
  - rewrite E. unfold decode_system. some_arms.
  - rewrite E. eexists; reflexivity.
  - rewrite decode_system_csr by assumption. apply decode_csr_total; assumption.
Qed.

Lemma decode_op_imm_total bits d s1 :
  exists op, decode_op_imm bits (funct3 bits) d s1 = Some op.
Proof. unfold decode_op_imm. funct3_cases bits; some_arms. Qed.

Lemma decode_op_total bits d s1 s2 :
  exists op, decode_op bits (funct3 bits) d s1 s2 = Some op.
Proof. unfold decode_op. funct3_cases bits; some_arms. Qed.

Lemma decode_amo_total bits f d s1 s2 : exists op, decode_amo bits f d s1 s2 = Some op.
Proof.
  unfold decode_amo. destruct (decode_aqrl_total bits) as [o ->].
  unfold decode_amo_w, decode_amo_d. some_arms.
Qed.

(** * Theorems *)

(** C5. Round trip: every operation with a 32-bit encoding is recovered by the
    decoder from the word the ISA's formats assign to it, with the same
    register numbers, immediate, rounding mode, ordering bits and CSR. *)
Theorem decode_encode op : op_ok op = true -> decode (encode op) = Some op.
Proof. apply decode_encode_op. Qed.

Lemma decode_encode_witness :
  op_ok (Beq 10 11 (-20)) = true /\ decode (encode (Beq 10 11 (-20))) = Some (Beq 10 11 (-20)).
Proof. split; [reflexivity|apply decode_encode; reflexivity]. Defined.

(** Converse: an operation decoded from a 32-bit word has all its fields in
    range and, encoded again, gives the word it was decoded from.  The decoder
    keeps nothing of a fence but its kind and ignores funct3 of JALR. *)
Theorem encode_decode bits op :
  in_u 32 bits -> decode bits = Some op -> faithful bits op.
Proof. apply decode_faithful. Qed.

Lemma encode_decode_witness :
  decode 0xfe0518e3 = Some (Bne 10 0 (-16)) /\ faithful 0xfe0518e3 (Bne 10 0 (-16)).
Proof.
  split; [reflexivity|apply encode_decode; [split; [discriminate|reflexivity]|reflexivity]].
Defined.

Lemma decode_some bits : bits .& 3 = 3 -> exists op, decode bits = Some op.
Proof.
  intros H3. unfold decode. rewrite H3. cbn [Z.eqb Pos.eqb negb].
  split_if; [eexists; reflexivity|].
  destruct (bits .& 0x7f) as [|p|p]; [eexists; reflexivity| |eexists; reflexivity].
  repeat match goal with
  | |- exists _, (match ?x with _ => _ end) = Some _ => destruct x
  end;
  lazymatch goal with
  | |- exists _, decode_op_imm _ _ _ _ = _ => apply decode_op_imm_total
  | |- exists _, decode_op _ _ _ _ _ = _ => apply decode_op_total
  | |- exists _, decode_amo _ _ _ _ _ = _ => apply decode_amo_total
  | |- exists _, decode_system _ _ _ _ _ = _ => apply decode_system_total
  | |- _ => unfold decode_load, decode_load_fp, decode_misc_mem, decode_op_imm_32,
              decode_store, decode_store_fp, decode_op_32, decode_fma, decode_op_fp,
              decode_branch; some_arms
  end.
Qed.

(** The decoder never panics: on every word whose two low bits are set (the
    only words it is called on) the [assert!] holds and none of the
    [unreachable!] arms is reached. *)
Theorem decode_total bits : bits .& 3 = 3 -> exists op, decode bits = Some op.
Proof. apply decode_some. Qed.

Lemma decode_total_witness : 0x00a50533 .& 3 = 3 /\ exists op, decode 0x00a50533 = Some op.
Proof. split; [reflexivity|apply decode_total; reflexivity]. Defined.

(** Every 16-bit word is an abbreviation of a 32-bit instruction:
    [decode_compressed] does not panic on it and yields an operation whose
    32-bit encoding decodes to the same operation. *)
Theorem decode_compressed_expands bits :
  in_u 16 bits -> bits .& 3 <> 3 ->
  exists op, decode_compressed bits = Some op /\ op_ok op = true /\
             decode (encode op) = Some op.
Proof.
  intros Hb H3. pose proof (all_words_16 _ compressed_ok_all bits Hb) as H.
  unfold compressed_ok in H. apply Z.eqb_neq in H3. rewrite H3 in H.
  destruct (decode_compressed bits) as [op|]; [|discriminate].
  exists op. auto using decode_encode_op.
Qed.

Lemma decode_compressed_expands_witness :
  in_u 16 0x1141 /\ exists op, decode_compressed 0x1141 = Some op /\ op_ok op = true /\
                              decode (encode op) = Some op.
Proof.
  split; [split; [discriminate|reflexivity]|].
  apply decode_compressed_expands; [split; [discriminate|reflexivity]|discriminate].
Defined.

(** The eleven immediates of the compressed formats are the bit gatherings
    of the RVC specification, sign-extended where the specification says so. *)
Theorem compressed_immediates bits :
  in_u 16 bits ->
  ci_imm bits = sext 6 (gather bits layout_ci) /\
  ci_lwsp_imm bits = gather bits layout_lwsp /\
  ci_ldsp_imm bits = gather bits layout_ldsp /\
  ci_addi16sp_imm bits = sext 10 (gather bits layout_addi16sp) /\
  css_swsp_imm bits = gather bits layout_swsp /\
  css_sdsp_imm bits = gather bits layout_sdsp /\
  ciw_imm bits = gather bits layout_ciw /\
  cl_lw_imm bits = gather bits layout_lw /\
  cl_ld_imm bits = gather bits layout_ld /\
  cb_imm bits = sext 9 (gather bits layout_cb) /\
  cj_imm bits = sext 12 (gather bits layout_cj).
Proof.
  intros Hb. pose proof (all_words_16 _ compressed_imms_all bits Hb) as H.
  unfold compressed_imms_ok in H. zbool. repeat split; assumption.
Qed.

Lemma compressed_immediates_witness :
  in_u 16 0x1141 /\ ci_imm 0x1141 = sext 6 (gather 0x1141 layout_ci).
Proof.
  split; [split; [discriminate|reflexivity]|].
  apply (compressed_immediates 0x1141). split; [discriminate|reflexivity].
Defined.

(** The range check on the amount of an immediate shift is signed: a
    reserved encoding with bit 31 set is accepted, and the decoded shift has a
    negative amount. *)
Theorem decode_reserved_shift d s1 :
  reg_ok d = true -> reg_ok s1 = true ->
  decode (enc_i (-2048) s1 1 d 0x13) = Some (Slli d s1 (-2048)) /\
  decode (enc_i (-2048) s1 5 d 0x13) = Some (Srli d s1 (-2048)).
Proof.
  intros Hd Hs.
  split; [apply (decode_encode_op (Slli d s1 (-2048)))|apply (decode_encode_op (Srli d s1 (-2048)))];
    cbn [op_ok]; rewrite Hd, Hs; reflexivity.
Qed.

Lemma decode_reserved_shift_witness :
  decode 0x80051513 = Some (Slli 10 10 (-2048)).
Proof. apply (decode_reserved_shift 10 10); reflexivity. Defined.
