(* ===== verification/Disasm.v ===== *)
(** The disassembler of lib/riscv/src/disasm.rs, with the names of CSRs of lib/riscv/src/csr.rs,
    and a reader of its output, with tables of names of its own: every operation is read back
    from its line, but for the rounding mode, which is not printed. *)

From Stdlib Require Import ZArith Lia Bool List Ascii String.
From S2P Require Import Prelude RiscvCsr RiscvOp RiscvDecode RiscvEncode.
Import ListNotations.
Local Open Scope string_scope.
Local Open Scope Z_scope.
Local Open Scope rust_scope.

Import Op.

Module Disasm.

(** ** Formatting *)

Definition digit (d : Z) : ascii := ascii_of_N (Z.to_N (if d <? 10 then 48 + d else 87 + d)).

Fixpoint digits (base : Z) (fuel : nat) (n : Z) (acc : string) : string :=
  match fuel with
  | O => acc
  | S fuel => let acc := String (digit (n mod base)) acc in if n / base =? 0 then acc else digits base fuel (n / base) acc
  end.

(** [{}] of unsigned and signed numbers, [{:x}] and [{:#x}] *)
Definition fmt_u (n : Z) : string := digits 10 20 n "".
Definition fmt_i (n : Z) : string := if n <? 0 then "-" ++ fmt_u (- n) else fmt_u n.
Definition fmt_x (prefix : bool) (n : Z) : string := (if prefix then "0x" else "") ++ digits 16 16 n "".

Fixpoint fill_with (c : ascii) (n : nat) : string := match n with O => "" | S n => String c (fill_with c n) end.
Definition pad_left (c : ascii) (width : nat) (s : string) : string := fill_with c (width - length s) ++ s.

(** Pieces of text, each of which may panic *)
Definition lit (s : string) : option string := Some s.
Fixpoint cat (l : list (option string)) : option string :=
  match l with [] => Some "" | x :: l => let? a := x in let? b := cat l in Some (a ++ b) end.

(** ** The disassembler *)

Definition REG_NAMES : list string :=
  ["zero"; "ra"; "sp"; "gp"; "tp"; "t0"; "t1"; "t2"; "s0"; "s1"; "a0"; "a1"; "a2"; "a3"; "a4"; "a5"; "a6"; "a7"; "s2"
   ; "s3"; "s4"; "s5"; "s6"; "s7"; "s8"; "s9"; "s10"; "s11"; "t3"; "t4"; "t5"; "t6"].

(** [register_name]: a panic past the end of the array *)
Definition register_name (reg : Z) : option string := nth_error REG_NAMES (Z.to_nat reg).

(** [Display] for [Csr] *)
Definition csr_name (csr : Csr) : string :=
  if csr =? Csr.Fflags then "fflags" else if csr =? Csr.Frm then "frm" else if csr =? Csr.Fcsr then "fcsr"
  else if csr =? Csr.Cycle then "cycle" else if csr =? Csr.Time then "time" else if csr =? Csr.Instret then "instret"
  else if csr =? Csr.Cycleh then "cycleh" else if csr =? Csr.Timeh then "timeh"
  else if csr =? Csr.Instreth then "instreth" else if csr =? Csr.Sstatus then "sstatus"
  else if csr =? Csr.Sie then "sie" else if csr =? Csr.Stvec then "stvec"
  else if csr =? Csr.Scounteren then "scounteren" else if csr =? Csr.Sscratch then "sscratch"
  else if csr =? Csr.Sepc then "sepc" else if csr =? Csr.Scause then "scause" else if csr =? Csr.Stval then "stval"
  else if csr =? Csr.Sip then "sip" else if csr =? Csr.Satp then "satp"
  else "#0x" ++ fmt_x false csr.

Definition mnemonic (op : Op) : string :=
  match op with
  | Illegal => "illegal" | Lb _ _ _ => "lb" | Lh _ _ _ => "lh" | Lw _ _ _ => "lw" | Ld _ _ _ => "ld"
  | Lbu _ _ _ => "lbu" | Lhu _ _ _ => "lhu" | Lwu _ _ _ => "lwu" | Fence => "fence" | FenceI => "fence.i"
  | Addi _ _ _ => "addi" | Slli _ _ _ => "slli" | Slti _ _ _ => "slti" | Sltiu _ _ _ => "sltiu" | Xori _ _ _ => "xori"
  | Srli _ _ _ => "srli" | Srai _ _ _ => "srai" | Ori _ _ _ => "ori" | Andi _ _ _ => "andi" | Auipc _ _ => "auipc"
  | Addiw _ _ _ => "addiw" | Slliw _ _ _ => "slliw" | Srliw _ _ _ => "srliw" | Sraiw _ _ _ => "sraiw"
  | Sb _ _ _ => "sb" | Sh _ _ _ => "sh" | Sw _ _ _ => "sw" | Sd _ _ _ => "sd" | Add _ _ _ => "add"
  | Sub _ _ _ => "sub" | Sll _ _ _ => "sll" | Slt _ _ _ => "slt" | Sltu _ _ _ => "sltu" | Xor _ _ _ => "xor"
  | Srl _ _ _ => "srl" | Sra _ _ _ => "sra" | Or _ _ _ => "or" | And _ _ _ => "and" | Lui _ _ => "lui"
  | Addw _ _ _ => "addw" | Subw _ _ _ => "subw" | Sllw _ _ _ => "sllw" | Srlw _ _ _ => "srlw" | Sraw _ _ _ => "sraw"
  | Beq _ _ _ => "beq" | Bne _ _ _ => "bne" | Blt _ _ _ => "blt" | Bge _ _ _ => "bge" | Bltu _ _ _ => "bltu"
  | Bgeu _ _ _ => "bgeu" | Jalr _ _ _ => "jalr" | Jal _ _ => "jal" | Ecall => "ecall" | Ebreak => "ebreak"
  | Csrrw _ _ _ => "csrrw" | Csrrs _ _ _ => "csrrs" | Csrrc _ _ _ => "csrrc" | Csrrwi _ _ _ => "csrrwi"
  | Csrrsi _ _ _ => "csrrsi" | Csrrci _ _ _ => "csrrci" | Mul _ _ _ => "mul" | Mulh _ _ _ => "mulh"
  | Mulhsu _ _ _ => "mulhsu" | Mulhu _ _ _ => "mulhu" | Div _ _ _ => "div" | Divu _ _ _ => "divu" | Rem _ _ _ => "rem"
  | Remu _ _ _ => "remu" | Mulw _ _ _ => "mulw" | Divw _ _ _ => "divw" | Divuw _ _ _ => "divuw" | Remw _ _ _ => "remw"
  | Remuw _ _ _ => "remuw" | LrW _ _ _ => "lr.w" | LrD _ _ _ => "lr.d" | ScW _ _ _ _ => "sc.w" | ScD _ _ _ _ => "sc.d"
  | AmoswapW _ _ _ _ => "amoswap.w" | AmoswapD _ _ _ _ => "amoswap.d" | AmoaddW _ _ _ _ => "amoadd.w"
  | AmoaddD _ _ _ _ => "amoadd.d" | AmoxorW _ _ _ _ => "amoxor.w" | AmoxorD _ _ _ _ => "amoxor.d"
  | AmoandW _ _ _ _ => "amoand.w" | AmoandD _ _ _ _ => "amoand.d" | AmoorW _ _ _ _ => "amoor.w"
  | AmoorD _ _ _ _ => "amoor.d" | AmominW _ _ _ _ => "amomin.w" | AmominD _ _ _ _ => "amomin.d"
  | AmomaxW _ _ _ _ => "amomax.w" | AmomaxD _ _ _ _ => "amomax.d" | AmominuW _ _ _ _ => "amominu.w"
  | AmominuD _ _ _ _ => "amominu.d" | AmomaxuW _ _ _ _ => "amomaxu.w" | AmomaxuD _ _ _ _ => "amomaxu.d"
  | Flw _ _ _ => "flw" | Fsw _ _ _ => "fsw" | FaddS _ _ _ _ => "fadd.s" | FsubS _ _ _ _ => "fsub.s"
  | FmulS _ _ _ _ => "fmul.s" | FdivS _ _ _ _ => "fdiv.s" | FsqrtS _ _ _ => "fsqrt.s" | FsgnjS _ _ _ => "fsgnj.s"
  | FsgnjnS _ _ _ => "fsgnjn.s" | FsgnjxS _ _ _ => "fsgnjx.s" | FminS _ _ _ => "fmin.s" | FmaxS _ _ _ => "fmax.s"
  | FcvtWS _ _ _ => "fcvt.w.s" | FcvtWuS _ _ _ => "fcvt.wu.s" | FcvtLS _ _ _ => "fcvt.l.s"
  | FcvtLuS _ _ _ => "fcvt.lu.s" | FmvXW _ _ => "fmv.x.w" | FclassS _ _ => "fclass.s" | FeqS _ _ _ => "feq.s"
  | FltS _ _ _ => "flt.s" | FleS _ _ _ => "fle.s" | FcvtSW _ _ _ => "fcvt.s.w" | FcvtSWu _ _ _ => "fcvt.s.wu"
  | FcvtSL _ _ _ => "fcvt.s.l" | FcvtSLu _ _ _ => "fcvt.s.lu" | FmvWX _ _ => "fmv.w.x" | FmaddS _ _ _ _ _ => "fmadd.s"
  | FmsubS _ _ _ _ _ => "fmsub.s" | FnmsubS _ _ _ _ _ => "fnmsub.s" | FnmaddS _ _ _ _ _ => "fnmadd.s"
  | Fld _ _ _ => "fld" | Fsd _ _ _ => "fsd" | FaddD _ _ _ _ => "fadd.d" | FsubD _ _ _ _ => "fsub.d"
  | FmulD _ _ _ _ => "fmul.d" | FdivD _ _ _ _ => "fdiv.d" | FsqrtD _ _ _ => "fsqrt.d" | FsgnjD _ _ _ => "fsgnj.d"
  | FsgnjnD _ _ _ => "fsgnjn.d" | FsgnjxD _ _ _ => "fsgnjx.d" | FminD _ _ _ => "fmin.d" | FmaxD _ _ _ => "fmax.d"
  | FcvtSD _ _ _ => "fcvt.s.d" | FcvtDS _ _ _ => "fcvt.d.s" | FcvtWD _ _ _ => "fcvt.w.d"
  | FcvtWuD _ _ _ => "fcvt.wu.d" | FcvtLD _ _ _ => "fcvt.l.d" | FcvtLuD _ _ _ => "fcvt.lu.d" | FmvXD _ _ => "fmv.x.d"
  | FclassD _ _ => "fclass.d" | FeqD _ _ _ => "feq.d" | FltD _ _ _ => "flt.d" | FleD _ _ _ => "fle.d"
  | FcvtDW _ _ _ => "fcvt.d.w" | FcvtDWu _ _ _ => "fcvt.d.wu" | FcvtDL _ _ _ => "fcvt.d.l"
  | FcvtDLu _ _ _ => "fcvt.d.lu" | FmvDX _ _ => "fmv.d.x" | FmaddD _ _ _ _ _ => "fmadd.d"
  | FmsubD _ _ _ _ _ => "fmsub.d" | FnmsubD _ _ _ _ _ => "fnmsub.d" | FnmaddD _ _ _ _ _ => "fnmadd.d" | Mret => "mret"
  | Sret => "sret" | Wfi => "wfi" | SfenceVma _ _ => "sfence.vma"
  end.

Definition suffix (op : Op) : string :=
  match op with
  | LrW _ _ aqrl | LrD _ _ aqrl | ScW _ _ _ aqrl | ScD _ _ _ aqrl | AmoswapW _ _ _ aqrl | AmoswapD _ _ _ aqrl
  | AmoaddW _ _ _ aqrl | AmoaddD _ _ _ aqrl | AmoxorW _ _ _ aqrl | AmoxorD _ _ _ aqrl | AmoandW _ _ _ aqrl
  | AmoandD _ _ _ aqrl | AmoorW _ _ _ aqrl | AmoorD _ _ _ aqrl | AmominW _ _ _ aqrl | AmominD _ _ _ aqrl
  | AmomaxW _ _ _ aqrl | AmomaxD _ _ _ aqrl | AmominuW _ _ _ aqrl | AmominuD _ _ _ aqrl | AmomaxuW _ _ _ aqrl
  | AmomaxuD _ _ _ aqrl =>
      match aqrl with Relaxed => "" | Acquire => ".aq" | Release => ".rl" | SeqCst => ".aqrl" end
  | _ => ""
  end.

(** The target of jumps and branches *)
Definition target (pc : option Z) (imm : Z) : option string :=
  let '(sign, uimm) := if imm <? 0 then ("-", i32 (- imm)) else ("+", imm) in
  Some ("pc " ++ sign ++ " " ++ fmt_i uimm ++ match pc with Some pc => " <" ++ fmt_x false (u64 (pc + imm)) ++ ">" | None => "" end).

Definition operands (op : Op) (pc : option Z) : option string :=
  match op with
  | Illegal =>
      cat []
  | Lui rd imm | Auipc rd imm =>
      cat [register_name rd; lit ", "; Some (fmt_x true (u32 imm >> 12))]
  | Jal rd imm =>
      cat [register_name rd; lit ", "; target pc imm]
  | Beq rs1 rs2 imm | Bne rs1 rs2 imm | Blt rs1 rs2 imm | Bge rs1 rs2 imm | Bltu rs1 rs2 imm | Bgeu rs1 rs2 imm =>
      cat [register_name rs1; lit ", "; register_name rs2; lit ", "; target pc imm]
  | Lb rd rs1 imm | Lh rd rs1 imm | Lw rd rs1 imm | Ld rd rs1 imm | Lbu rd rs1 imm | Lhu rd rs1 imm | Lwu rd rs1 imm
  | Jalr rd rs1 imm =>
      cat [register_name rd; lit ", "; Some (fmt_i imm); lit "("; register_name rs1; lit ")"]
  | Fence | FenceI | Ecall | Ebreak | Mret | Sret | Wfi =>
      cat []
  | SfenceVma rs1 rs2 =>
      cat [register_name rs1; lit ", "; register_name rs2]
  | Sb rs1 rs2 imm | Sh rs1 rs2 imm | Sw rs1 rs2 imm | Sd rs1 rs2 imm =>
      cat [register_name rs2; lit ", "; Some (fmt_i imm); lit "("; register_name rs1; lit ")"]
  | Addi rd rs1 imm | Slti rd rs1 imm | Sltiu rd rs1 imm | Xori rd rs1 imm | Ori rd rs1 imm | Andi rd rs1 imm
  | Addiw rd rs1 imm | Slli rd rs1 imm | Srli rd rs1 imm | Srai rd rs1 imm | Slliw rd rs1 imm | Srliw rd rs1 imm
  | Sraiw rd rs1 imm =>
      cat [register_name rd; lit ", "; register_name rs1; lit ", "; Some (fmt_i imm)]
  | Add rd rs1 rs2 | Sub rd rs1 rs2 | Sll rd rs1 rs2 | Slt rd rs1 rs2 | Sltu rd rs1 rs2 | Xor rd rs1 rs2
  | Srl rd rs1 rs2 | Sra rd rs1 rs2 | Or rd rs1 rs2 | And rd rs1 rs2 | Addw rd rs1 rs2 | Subw rd rs1 rs2
  | Sllw rd rs1 rs2 | Srlw rd rs1 rs2 | Sraw rd rs1 rs2 | Mul rd rs1 rs2 | Mulh rd rs1 rs2 | Mulhsu rd rs1 rs2
  | Mulhu rd rs1 rs2 | Div rd rs1 rs2 | Divu rd rs1 rs2 | Rem rd rs1 rs2 | Remu rd rs1 rs2 | Mulw rd rs1 rs2
  | Divw rd rs1 rs2 | Divuw rd rs1 rs2 | Remw rd rs1 rs2 | Remuw rd rs1 rs2 =>
      cat [register_name rd; lit ", "; register_name rs1; lit ", "; register_name rs2]
  | Csrrw rd rs1 csr | Csrrs rd rs1 csr | Csrrc rd rs1 csr =>
      cat [register_name rd; lit ", #"; Some (csr_name csr); lit ", "; register_name rs1]
  | Csrrwi rd imm csr | Csrrsi rd imm csr | Csrrci rd imm csr =>
      cat [register_name rd; lit ", #"; Some (csr_name csr); lit ", "; Some (fmt_i imm)]
  | LrW rd rs1 _ | LrD rd rs1 _ =>
      cat [register_name rd; lit ", ("; register_name rs1; lit ")"]
  | ScW rd rs1 rs2 _ | ScD rd rs1 rs2 _ | AmoswapW rd rs1 rs2 _ | AmoswapD rd rs1 rs2 _ | AmoaddW rd rs1 rs2 _
  | AmoaddD rd rs1 rs2 _ | AmoxorW rd rs1 rs2 _ | AmoxorD rd rs1 rs2 _ | AmoandW rd rs1 rs2 _ | AmoandD rd rs1 rs2 _
  | AmoorW rd rs1 rs2 _ | AmoorD rd rs1 rs2 _ | AmominW rd rs1 rs2 _ | AmominD rd rs1 rs2 _ | AmomaxW rd rs1 rs2 _
  | AmomaxD rd rs1 rs2 _ | AmominuW rd rs1 rs2 _ | AmominuD rd rs1 rs2 _ | AmomaxuW rd rs1 rs2 _
  | AmomaxuD rd rs1 rs2 _ =>
      cat [register_name rd; lit ", "; register_name rs2; lit ", ("; register_name rs1; lit ")"]
  | Flw frd rs1 imm | Fld frd rs1 imm =>
      cat [lit "f"; Some (fmt_u frd); lit ", "; Some (fmt_i imm); lit "("; register_name rs1; lit ")"]
  | Fsw rs1 frs2 imm | Fsd rs1 frs2 imm =>
      cat [lit "f"; Some (fmt_u frs2); lit ", "; Some (fmt_i imm); lit "("; register_name rs1; lit ")"]
  | FaddS frd frs1 frs2 _ | FsubS frd frs1 frs2 _ | FmulS frd frs1 frs2 _ | FdivS frd frs1 frs2 _
  | FsgnjS frd frs1 frs2 | FsgnjnS frd frs1 frs2 | FsgnjxS frd frs1 frs2 | FminS frd frs1 frs2 | FmaxS frd frs1 frs2
  | FaddD frd frs1 frs2 _ | FsubD frd frs1 frs2 _ | FmulD frd frs1 frs2 _ | FdivD frd frs1 frs2 _
  | FsgnjD frd frs1 frs2 | FsgnjnD frd frs1 frs2 | FsgnjxD frd frs1 frs2 | FminD frd frs1 frs2 | FmaxD frd frs1 frs2 =>
      cat [lit "f"; Some (fmt_u frd); lit ", f"; Some (fmt_u frs1); lit ", f"; Some (fmt_u frs2)]
  | FsqrtS frd frs1 _ | FsqrtD frd frs1 _ | FcvtSD frd frs1 _ | FcvtDS frd frs1 _ =>
      cat [lit "f"; Some (fmt_u frd); lit ", f"; Some (fmt_u frs1)]
  | FcvtWS rd frs1 _ | FcvtWuS rd frs1 _ | FcvtLS rd frs1 _ | FcvtLuS rd frs1 _ | FmvXW rd frs1 | FclassS rd frs1
  | FcvtWD rd frs1 _ | FcvtWuD rd frs1 _ | FcvtLD rd frs1 _ | FcvtLuD rd frs1 _ | FmvXD rd frs1 | FclassD rd frs1 =>
      cat [register_name rd; lit ", f"; Some (fmt_u frs1)]
  | FcvtSW frd rs1 _ | FcvtSWu frd rs1 _ | FcvtSL frd rs1 _ | FcvtSLu frd rs1 _ | FmvWX frd rs1 | FcvtDW frd rs1 _
  | FcvtDWu frd rs1 _ | FcvtDL frd rs1 _ | FcvtDLu frd rs1 _ | FmvDX frd rs1 =>
      cat [lit "f"; Some (fmt_u frd); lit ", "; register_name rs1]
  | FeqS rd frs1 frs2 | FltS rd frs1 frs2 | FleS rd frs1 frs2 | FeqD rd frs1 frs2 | FltD rd frs1 frs2
  | FleD rd frs1 frs2 =>
      cat [register_name rd; lit ", f"; Some (fmt_u frs1); lit ", f"; Some (fmt_u frs2)]
  | FmaddS frd frs1 frs2 frs3 _ | FmsubS frd frs1 frs2 frs3 _ | FnmsubS frd frs1 frs2 frs3 _
  | FnmaddS frd frs1 frs2 frs3 _ | FmaddD frd frs1 frs2 frs3 _ | FmsubD frd frs1 frs2 frs3 _
  | FnmsubD frd frs1 frs2 frs3 _ | FnmaddD frd frs1 frs2 frs3 _ =>
      cat [lit "f"; Some (fmt_u frd); lit ", f"; Some (fmt_u frs1); lit ", f"; Some (fmt_u frs2); lit ", f"; Some (fmt_u frs3)]
  end.

(** [Op::print] *)
Definition print (op : Op) (pc : option Z) : option string :=
  let mnemonic := mnemonic op in
  let suffix := suffix op in
  let len := (length mnemonic + length suffix)%nat in
  let? s := operands op pc in Some (mnemonic ++ suffix ++ fill_with " " (8 - Nat.modulo len 8) ++ s).

(** [Display] for [Op] and for [Disasm] *)
Definition display (op : Op) : option string := print op None.
Definition pretty_print (pc bits : Z) (op : Op) : option string :=
  let? s := print op (Some pc) in
  Some ((if (pc .& 0xFFFFFFFF) =? pc then pad_left " " 8 (fmt_x false pc) else pad_left " " 16 (fmt_x false pc)) ++ ":       " ++
        (if (bits .& 3) =? 3 then pad_left "0" 8 (fmt_x false bits) else pad_left "0" 4 (fmt_x false (bits .& 0xFFFF)) ++ "    ") ++
        "        " ++ s).

End Disasm.

(** ** A reader *)

Import Disasm.

Definition undigit (c : ascii) : Z := let n := Z.of_N (N_of_ascii c) in if n <? 58 then n - 48 else n - 87.
Fixpoint value (base : Z) (v : Z) (s : string) : Z := match s with "" => v | String c s => value base (v * base + undigit c) s end.

(** Words: letters, digits, and the signs that are part of names and numbers *)
Definition in_word (c : ascii) : bool :=
  let n := N_of_ascii c in
  ((48 <=? n) && (n <=? 57) || (97 <=? n) && (n <=? 122) || (n =? 46) || (n =? 45) || (n =? 35))%N.

Fixpoint span (s : string) : string * string :=
  match s with
  | "" => ("", "")
  | String c t => if in_word c then let (w, r) := span t in (String c w, r) else ("", s)
  end.

Fixpoint skip_spaces (s : string) : string := match s with String " " t => skip_spaces t | _ => s end.
Fixpoint strip (l s : string) : option string :=
  match l, s with
  | "", _ => Some s
  | String a l, String b s => if Ascii.eqb a b then strip l s else None
  | _, _ => None
  end.

Inductive Kind : Type := Reg | FReg | Num | UImm | CsrName.
Inductive Piece : Type := Lit (s : string) | Word (k : Kind) | Target.

Fixpoint index (s : string) (l : list string) (i : Z) : option Z :=
  match l with [] => None | x :: l => if String.eqb s x then Some i else index s l (i + 1) end.

(** The names of the calling convention, of the floating point registers, and of the CSRs with
    their numbers: the tables of the reader, written from the RISC-V manual and not from the
    disassembler. *)
Definition abi_names : list string :=
  ["zero"; "ra"; "sp"; "gp"; "tp"; "t0"; "t1"; "t2"; "s0"; "s1"; "a0"; "a1"; "a2"; "a3"; "a4"; "a5"; "a6"; "a7"; "s2"
   ; "s3"; "s4"; "s5"; "s6"; "s7"; "s8"; "s9"; "s10"; "s11"; "t3"; "t4"; "t5"; "t6"].
Definition float_names : list string :=
  ["f0"; "f1"; "f2"; "f3"; "f4"; "f5"; "f6"; "f7"; "f8"; "f9"; "f10"; "f11"; "f12"; "f13"; "f14"; "f15"; "f16"; "f17"
   ; "f18"; "f19"; "f20"; "f21"; "f22"; "f23"; "f24"; "f25"; "f26"; "f27"; "f28"; "f29"; "f30"; "f31"].
Definition csr_numbers : list (string * Csr) :=
  [("fflags", 0x1); ("frm", 0x2); ("fcsr", 0x3); ("sstatus", 0x100); ("sie", 0x104); ("stvec", 0x105)
   ; ("scounteren", 0x106); ("sscratch", 0x140); ("sepc", 0x141); ("scause", 0x142); ("stval", 0x143); ("sip", 0x144)
   ; ("satp", 0x180); ("cycle", 0xC00); ("time", 0xC01); ("instret", 0xC02); ("cycleh", 0xC80); ("timeh", 0xC81)
   ; ("instreth", 0xC82)].

(** An entry of a table, by its name *)
Definition entry {A} (table : list (string * A)) (w : string) : option A :=
  let? e := List.find (fun e => String.eqb w (fst e)) table in Some (snd e).

Definition read_csr (w : string) : option Csr :=
  let? w := strip "#" w in match strip "#0x" w with Some t => Some (value 16 0 t) | None => entry csr_numbers w end.

Definition of_word (k : Kind) (w : string) : option Z :=
  match k with
  | Reg => index w abi_names 0
  | FReg => index w float_names 0
  | Num => Some (match w with String "-" t => - value 10 0 t | _ => value 10 0 w end)
  | UImm => let? t := strip "0x" w in Some (i32 (value 16 0 t << 12))
  | CsrName => read_csr w
  end.

Fixpoint read_pieces (ps : list Piece) (s : string) : option (list Z) :=
  match ps with
  | [] => Some []
  | Lit l :: ps => let? s := strip l s in read_pieces ps s
  | Word k :: ps => let (w, s) := span s in let? v := of_word k w in let? vs := read_pieces ps s in Some (v :: vs)
  | Target :: _ =>
      let? s := strip "pc " s in
      match s with
      | String "+" s => let? s := strip " " s in Some [value 10 0 (fst (span s))]
      | String "-" s => let? s := strip " " s in Some [- value 10 0 (fst (span s))]
      | _ => None
      end
  end.

(** The syntax of the operands, and the operands in the order of the line *)
Definition shape (op : Op) : list Piece :=
  match op with
  | Illegal => []
  | Lui _ _ | Auipc _ _ => [Word Reg; Lit ", "; Word UImm]
  | Jal _ _ => [Word Reg; Lit ", "; Target]
  | Beq _ _ _ | Bne _ _ _ | Blt _ _ _ | Bge _ _ _ | Bltu _ _ _ | Bgeu _ _ _ => [Word Reg; Lit ", "; Word Reg; Lit ", "; Target]
  | Lb _ _ _ | Lh _ _ _ | Lw _ _ _ | Ld _ _ _ | Lbu _ _ _ | Lhu _ _ _ | Lwu _ _ _ | Jalr _ _ _ => [Word Reg; Lit ", "; Word Num; Lit "("; Word Reg; Lit ")"]
  | Fence | FenceI | Ecall | Ebreak | Mret | Sret | Wfi => []
  | SfenceVma _ _ => [Word Reg; Lit ", "; Word Reg]
  | Sb _ _ _ | Sh _ _ _ | Sw _ _ _ | Sd _ _ _ => [Word Reg; Lit ", "; Word Num; Lit "("; Word Reg; Lit ")"]
  | Addi _ _ _ | Slti _ _ _ | Sltiu _ _ _ | Xori _ _ _ | Ori _ _ _ | Andi _ _ _ | Addiw _ _ _ | Slli _ _ _
  | Srli _ _ _ | Srai _ _ _ | Slliw _ _ _ | Srliw _ _ _ | Sraiw _ _ _ => [Word Reg; Lit ", "; Word Reg; Lit ", "; Word Num]
  | Add _ _ _ | Sub _ _ _ | Sll _ _ _ | Slt _ _ _ | Sltu _ _ _ | Xor _ _ _ | Srl _ _ _ | Sra _ _ _ | Or _ _ _
  | And _ _ _ | Addw _ _ _ | Subw _ _ _ | Sllw _ _ _ | Srlw _ _ _ | Sraw _ _ _ | Mul _ _ _ | Mulh _ _ _ | Mulhsu _ _ _
  | Mulhu _ _ _ | Div _ _ _ | Divu _ _ _ | Rem _ _ _ | Remu _ _ _ | Mulw _ _ _ | Divw _ _ _ | Divuw _ _ _ | Remw _ _ _
  | Remuw _ _ _ => [Word Reg; Lit ", "; Word Reg; Lit ", "; Word Reg]
  | Csrrw _ _ _ | Csrrs _ _ _ | Csrrc _ _ _ => [Word Reg; Lit ", "; Word CsrName; Lit ", "; Word Reg]
  | Csrrwi _ _ _ | Csrrsi _ _ _ | Csrrci _ _ _ => [Word Reg; Lit ", "; Word CsrName; Lit ", "; Word Num]
  | LrW _ _ _ | LrD _ _ _ => [Word Reg; Lit ", ("; Word Reg; Lit ")"]
  | ScW _ _ _ _ | ScD _ _ _ _ | AmoswapW _ _ _ _ | AmoswapD _ _ _ _ | AmoaddW _ _ _ _ | AmoaddD _ _ _ _
  | AmoxorW _ _ _ _ | AmoxorD _ _ _ _ | AmoandW _ _ _ _ | AmoandD _ _ _ _ | AmoorW _ _ _ _ | AmoorD _ _ _ _
  | AmominW _ _ _ _ | AmominD _ _ _ _ | AmomaxW _ _ _ _ | AmomaxD _ _ _ _ | AmominuW _ _ _ _ | AmominuD _ _ _ _
  | AmomaxuW _ _ _ _ | AmomaxuD _ _ _ _ => [Word Reg; Lit ", "; Word Reg; Lit ", ("; Word Reg; Lit ")"]
  | Flw _ _ _ | Fld _ _ _ => [Word FReg; Lit ", "; Word Num; Lit "("; Word Reg; Lit ")"]
  | Fsw _ _ _ | Fsd _ _ _ => [Word FReg; Lit ", "; Word Num; Lit "("; Word Reg; Lit ")"]
  | FaddS _ _ _ _ | FsubS _ _ _ _ | FmulS _ _ _ _ | FdivS _ _ _ _ | FsgnjS _ _ _ | FsgnjnS _ _ _ | FsgnjxS _ _ _
  | FminS _ _ _ | FmaxS _ _ _ | FaddD _ _ _ _ | FsubD _ _ _ _ | FmulD _ _ _ _ | FdivD _ _ _ _ | FsgnjD _ _ _
  | FsgnjnD _ _ _ | FsgnjxD _ _ _ | FminD _ _ _ | FmaxD _ _ _ => [Word FReg; Lit ", "; Word FReg; Lit ", "; Word FReg]
  | FsqrtS _ _ _ | FsqrtD _ _ _ | FcvtSD _ _ _ | FcvtDS _ _ _ => [Word FReg; Lit ", "; Word FReg]
  | FcvtWS _ _ _ | FcvtWuS _ _ _ | FcvtLS _ _ _ | FcvtLuS _ _ _ | FmvXW _ _ | FclassS _ _ | FcvtWD _ _ _
  | FcvtWuD _ _ _ | FcvtLD _ _ _ | FcvtLuD _ _ _ | FmvXD _ _ | FclassD _ _ => [Word Reg; Lit ", "; Word FReg]
  | FcvtSW _ _ _ | FcvtSWu _ _ _ | FcvtSL _ _ _ | FcvtSLu _ _ _ | FmvWX _ _ | FcvtDW _ _ _ | FcvtDWu _ _ _
  | FcvtDL _ _ _ | FcvtDLu _ _ _ | FmvDX _ _ => [Word FReg; Lit ", "; Word Reg]
  | FeqS _ _ _ | FltS _ _ _ | FleS _ _ _ | FeqD _ _ _ | FltD _ _ _ | FleD _ _ _ => [Word Reg; Lit ", "; Word FReg; Lit ", "; Word FReg]
  | FmaddS _ _ _ _ _ | FmsubS _ _ _ _ _ | FnmsubS _ _ _ _ _ | FnmaddS _ _ _ _ _ | FmaddD _ _ _ _ _ | FmsubD _ _ _ _ _
  | FnmsubD _ _ _ _ _ | FnmaddD _ _ _ _ _ => [Word FReg; Lit ", "; Word FReg; Lit ", "; Word FReg; Lit ", "; Word FReg]
  end.

Definition vals (op : Op) : list Z :=
  match op with
  | Illegal => []
  | Lui rd imm | Auipc rd imm => [rd; imm]
  | Jal rd imm => [rd; imm]
  | Beq rs1 rs2 imm | Bne rs1 rs2 imm | Blt rs1 rs2 imm | Bge rs1 rs2 imm | Bltu rs1 rs2 imm | Bgeu rs1 rs2 imm => [rs1; rs2; imm]
  | Lb rd rs1 imm | Lh rd rs1 imm | Lw rd rs1 imm | Ld rd rs1 imm | Lbu rd rs1 imm | Lhu rd rs1 imm | Lwu rd rs1 imm
  | Jalr rd rs1 imm => [rd; imm; rs1]
  | Fence | FenceI | Ecall | Ebreak | Mret | Sret | Wfi => []
  | SfenceVma rs1 rs2 => [rs1; rs2]
  | Sb rs1 rs2 imm | Sh rs1 rs2 imm | Sw rs1 rs2 imm | Sd rs1 rs2 imm => [rs2; imm; rs1]
  | Addi rd rs1 imm | Slti rd rs1 imm | Sltiu rd rs1 imm | Xori rd rs1 imm | Ori rd rs1 imm | Andi rd rs1 imm
  | Addiw rd rs1 imm | Slli rd rs1 imm | Srli rd rs1 imm | Srai rd rs1 imm | Slliw rd rs1 imm | Srliw rd rs1 imm
  | Sraiw rd rs1 imm => [rd; rs1; imm]
  | Add rd rs1 rs2 | Sub rd rs1 rs2 | Sll rd rs1 rs2 | Slt rd rs1 rs2 | Sltu rd rs1 rs2 | Xor rd rs1 rs2
  | Srl rd rs1 rs2 | Sra rd rs1 rs2 | Or rd rs1 rs2 | And rd rs1 rs2 | Addw rd rs1 rs2 | Subw rd rs1 rs2
  | Sllw rd rs1 rs2 | Srlw rd rs1 rs2 | Sraw rd rs1 rs2 | Mul rd rs1 rs2 | Mulh rd rs1 rs2 | Mulhsu rd rs1 rs2
  | Mulhu rd rs1 rs2 | Div rd rs1 rs2 | Divu rd rs1 rs2 | Rem rd rs1 rs2 | Remu rd rs1 rs2 | Mulw rd rs1 rs2
  | Divw rd rs1 rs2 | Divuw rd rs1 rs2 | Remw rd rs1 rs2 | Remuw rd rs1 rs2 => [rd; rs1; rs2]
  | Csrrw rd rs1 csr | Csrrs rd rs1 csr | Csrrc rd rs1 csr => [rd; csr; rs1]
  | Csrrwi rd imm csr | Csrrsi rd imm csr | Csrrci rd imm csr => [rd; csr; imm]
  | LrW rd rs1 _ | LrD rd rs1 _ => [rd; rs1]
  | ScW rd rs1 rs2 _ | ScD rd rs1 rs2 _ | AmoswapW rd rs1 rs2 _ | AmoswapD rd rs1 rs2 _ | AmoaddW rd rs1 rs2 _
  | AmoaddD rd rs1 rs2 _ | AmoxorW rd rs1 rs2 _ | AmoxorD rd rs1 rs2 _ | AmoandW rd rs1 rs2 _ | AmoandD rd rs1 rs2 _
  | AmoorW rd rs1 rs2 _ | AmoorD rd rs1 rs2 _ | AmominW rd rs1 rs2 _ | AmominD rd rs1 rs2 _ | AmomaxW rd rs1 rs2 _
  | AmomaxD rd rs1 rs2 _ | AmominuW rd rs1 rs2 _ | AmominuD rd rs1 rs2 _ | AmomaxuW rd rs1 rs2 _
  | AmomaxuD rd rs1 rs2 _ => [rd; rs2; rs1]
  | Flw frd rs1 imm | Fld frd rs1 imm => [frd; imm; rs1]
  | Fsw rs1 frs2 imm | Fsd rs1 frs2 imm => [frs2; imm; rs1]
  | FaddS frd frs1 frs2 _ | FsubS frd frs1 frs2 _ | FmulS frd frs1 frs2 _ | FdivS frd frs1 frs2 _
  | FsgnjS frd frs1 frs2 | FsgnjnS frd frs1 frs2 | FsgnjxS frd frs1 frs2 | FminS frd frs1 frs2 | FmaxS frd frs1 frs2
  | FaddD frd frs1 frs2 _ | FsubD frd frs1 frs2 _ | FmulD frd frs1 frs2 _ | FdivD frd frs1 frs2 _
  | FsgnjD frd frs1 frs2 | FsgnjnD frd frs1 frs2 | FsgnjxD frd frs1 frs2 | FminD frd frs1 frs2 | FmaxD frd frs1 frs2 => [frd; frs1; frs2]
  | FsqrtS frd frs1 _ | FsqrtD frd frs1 _ | FcvtSD frd frs1 _ | FcvtDS frd frs1 _ => [frd; frs1]
  | FcvtWS rd frs1 _ | FcvtWuS rd frs1 _ | FcvtLS rd frs1 _ | FcvtLuS rd frs1 _ | FmvXW rd frs1 | FclassS rd frs1
  | FcvtWD rd frs1 _ | FcvtWuD rd frs1 _ | FcvtLD rd frs1 _ | FcvtLuD rd frs1 _ | FmvXD rd frs1 | FclassD rd frs1 => [rd; frs1]
  | FcvtSW frd rs1 _ | FcvtSWu frd rs1 _ | FcvtSL frd rs1 _ | FcvtSLu frd rs1 _ | FmvWX frd rs1 | FcvtDW frd rs1 _
  | FcvtDWu frd rs1 _ | FcvtDL frd rs1 _ | FcvtDLu frd rs1 _ | FmvDX frd rs1 => [frd; rs1]
  | FeqS rd frs1 frs2 | FltS rd frs1 frs2 | FleS rd frs1 frs2 | FeqD rd frs1 frs2 | FltD rd frs1 frs2
  | FleD rd frs1 frs2 => [rd; frs1; frs2]
  | FmaddS frd frs1 frs2 frs3 _ | FmsubS frd frs1 frs2 frs3 _ | FnmsubS frd frs1 frs2 frs3 _
  | FnmaddS frd frs1 frs2 frs3 _ | FmaddD frd frs1 frs2 frs3 _ | FmsubD frd frs1 frs2 frs3 _
  | FnmsubD frd frs1 frs2 frs3 _ | FnmaddD frd frs1 frs2 frs3 _ => [frd; frs1; frs2; frs3]
  end.

Definition rebuild (template : Op) (vs : list Z) : option Op :=
  match template, vs with
  | Illegal, [] => Some Illegal
  | Lui _ _, [rd'; imm'] => Some (Lui rd' imm')
  | Auipc _ _, [rd'; imm'] => Some (Auipc rd' imm')
  | Jal _ _, [rd'; imm'] => Some (Jal rd' imm')
  | Beq _ _ _, [rs1'; rs2'; imm'] => Some (Beq rs1' rs2' imm')
  | Bne _ _ _, [rs1'; rs2'; imm'] => Some (Bne rs1' rs2' imm')
  | Blt _ _ _, [rs1'; rs2'; imm'] => Some (Blt rs1' rs2' imm')
  | Bge _ _ _, [rs1'; rs2'; imm'] => Some (Bge rs1' rs2' imm')
  | Bltu _ _ _, [rs1'; rs2'; imm'] => Some (Bltu rs1' rs2' imm')
  | Bgeu _ _ _, [rs1'; rs2'; imm'] => Some (Bgeu rs1' rs2' imm')
  | Lb _ _ _, [rd'; imm'; rs1'] => Some (Lb rd' rs1' imm')
  | Lh _ _ _, [rd'; imm'; rs1'] => Some (Lh rd' rs1' imm')
  | Lw _ _ _, [rd'; imm'; rs1'] => Some (Lw rd' rs1' imm')
  | Ld _ _ _, [rd'; imm'; rs1'] => Some (Ld rd' rs1' imm')
  | Lbu _ _ _, [rd'; imm'; rs1'] => Some (Lbu rd' rs1' imm')
  | Lhu _ _ _, [rd'; imm'; rs1'] => Some (Lhu rd' rs1' imm')
  | Lwu _ _ _, [rd'; imm'; rs1'] => Some (Lwu rd' rs1' imm')
  | Jalr _ _ _, [rd'; imm'; rs1'] => Some (Jalr rd' rs1' imm')
  | Fence, [] => Some Fence
  | FenceI, [] => Some FenceI
  | Ecall, [] => Some Ecall
  | Ebreak, [] => Some Ebreak
  | Mret, [] => Some Mret
  | Sret, [] => Some Sret
  | Wfi, [] => Some Wfi
  | SfenceVma _ _, [rs1'; rs2'] => Some (SfenceVma rs1' rs2')
  | Sb _ _ _, [rs2'; imm'; rs1'] => Some (Sb rs1' rs2' imm')
  | Sh _ _ _, [rs2'; imm'; rs1'] => Some (Sh rs1' rs2' imm')
  | Sw _ _ _, [rs2'; imm'; rs1'] => Some (Sw rs1' rs2' imm')
  | Sd _ _ _, [rs2'; imm'; rs1'] => Some (Sd rs1' rs2' imm')
  | Addi _ _ _, [rd'; rs1'; imm'] => Some (Addi rd' rs1' imm')
  | Slti _ _ _, [rd'; rs1'; imm'] => Some (Slti rd' rs1' imm')
  | Sltiu _ _ _, [rd'; rs1'; imm'] => Some (Sltiu rd' rs1' imm')
  | Xori _ _ _, [rd'; rs1'; imm'] => Some (Xori rd' rs1' imm')
  | Ori _ _ _, [rd'; rs1'; imm'] => Some (Ori rd' rs1' imm')
  | Andi _ _ _, [rd'; rs1'; imm'] => Some (Andi rd' rs1' imm')
  | Addiw _ _ _, [rd'; rs1'; imm'] => Some (Addiw rd' rs1' imm')
  | Slli _ _ _, [rd'; rs1'; imm'] => Some (Slli rd' rs1' imm')
  | Srli _ _ _, [rd'; rs1'; imm'] => Some (Srli rd' rs1' imm')
  | Srai _ _ _, [rd'; rs1'; imm'] => Some (Srai rd' rs1' imm')
  | Slliw _ _ _, [rd'; rs1'; imm'] => Some (Slliw rd' rs1' imm')
  | Srliw _ _ _, [rd'; rs1'; imm'] => Some (Srliw rd' rs1' imm')
  | Sraiw _ _ _, [rd'; rs1'; imm'] => Some (Sraiw rd' rs1' imm')
  | Add _ _ _, [rd'; rs1'; rs2'] => Some (Add rd' rs1' rs2')
  | Sub _ _ _, [rd'; rs1'; rs2'] => Some (Sub rd' rs1' rs2')
  | Sll _ _ _, [rd'; rs1'; rs2'] => Some (Sll rd' rs1' rs2')
  | Slt _ _ _, [rd'; rs1'; rs2'] => Some (Slt rd' rs1' rs2')
  | Sltu _ _ _, [rd'; rs1'; rs2'] => Some (Sltu rd' rs1' rs2')
  | Xor _ _ _, [rd'; rs1'; rs2'] => Some (Xor rd' rs1' rs2')
  | Srl _ _ _, [rd'; rs1'; rs2'] => Some (Srl rd' rs1' rs2')
  | Sra _ _ _, [rd'; rs1'; rs2'] => Some (Sra rd' rs1' rs2')
  | Or _ _ _, [rd'; rs1'; rs2'] => Some (Or rd' rs1' rs2')
  | And _ _ _, [rd'; rs1'; rs2'] => Some (And rd' rs1' rs2')
  | Addw _ _ _, [rd'; rs1'; rs2'] => Some (Addw rd' rs1' rs2')
  | Subw _ _ _, [rd'; rs1'; rs2'] => Some (Subw rd' rs1' rs2')
  | Sllw _ _ _, [rd'; rs1'; rs2'] => Some (Sllw rd' rs1' rs2')
  | Srlw _ _ _, [rd'; rs1'; rs2'] => Some (Srlw rd' rs1' rs2')
  | Sraw _ _ _, [rd'; rs1'; rs2'] => Some (Sraw rd' rs1' rs2')
  | Mul _ _ _, [rd'; rs1'; rs2'] => Some (Mul rd' rs1' rs2')
  | Mulh _ _ _, [rd'; rs1'; rs2'] => Some (Mulh rd' rs1' rs2')
  | Mulhsu _ _ _, [rd'; rs1'; rs2'] => Some (Mulhsu rd' rs1' rs2')
  | Mulhu _ _ _, [rd'; rs1'; rs2'] => Some (Mulhu rd' rs1' rs2')
  | Div _ _ _, [rd'; rs1'; rs2'] => Some (Div rd' rs1' rs2')
  | Divu _ _ _, [rd'; rs1'; rs2'] => Some (Divu rd' rs1' rs2')
  | Rem _ _ _, [rd'; rs1'; rs2'] => Some (Rem rd' rs1' rs2')
  | Remu _ _ _, [rd'; rs1'; rs2'] => Some (Remu rd' rs1' rs2')
  | Mulw _ _ _, [rd'; rs1'; rs2'] => Some (Mulw rd' rs1' rs2')
  | Divw _ _ _, [rd'; rs1'; rs2'] => Some (Divw rd' rs1' rs2')
  | Divuw _ _ _, [rd'; rs1'; rs2'] => Some (Divuw rd' rs1' rs2')
  | Remw _ _ _, [rd'; rs1'; rs2'] => Some (Remw rd' rs1' rs2')
  | Remuw _ _ _, [rd'; rs1'; rs2'] => Some (Remuw rd' rs1' rs2')
  | Csrrw _ _ _, [rd'; csr'; rs1'] => Some (Csrrw rd' rs1' csr')
  | Csrrs _ _ _, [rd'; csr'; rs1'] => Some (Csrrs rd' rs1' csr')
  | Csrrc _ _ _, [rd'; csr'; rs1'] => Some (Csrrc rd' rs1' csr')
  | Csrrwi _ _ _, [rd'; csr'; imm'] => Some (Csrrwi rd' imm' csr')
  | Csrrsi _ _ _, [rd'; csr'; imm'] => Some (Csrrsi rd' imm' csr')
  | Csrrci _ _ _, [rd'; csr'; imm'] => Some (Csrrci rd' imm' csr')
  | LrW _ _ aqrl, [rd'; rs1'] => Some (LrW rd' rs1' aqrl)
  | LrD _ _ aqrl, [rd'; rs1'] => Some (LrD rd' rs1' aqrl)
  | ScW _ _ _ aqrl, [rd'; rs2'; rs1'] => Some (ScW rd' rs1' rs2' aqrl)
  | ScD _ _ _ aqrl, [rd'; rs2'; rs1'] => Some (ScD rd' rs1' rs2' aqrl)
  | AmoswapW _ _ _ aqrl, [rd'; rs2'; rs1'] => Some (AmoswapW rd' rs1' rs2' aqrl)
  | AmoswapD _ _ _ aqrl, [rd'; rs2'; rs1'] => Some (AmoswapD rd' rs1' rs2' aqrl)
  | AmoaddW _ _ _ aqrl, [rd'; rs2'; rs1'] => Some (AmoaddW rd' rs1' rs2' aqrl)
  | AmoaddD _ _ _ aqrl, [rd'; rs2'; rs1'] => Some (AmoaddD rd' rs1' rs2' aqrl)
  | AmoxorW _ _ _ aqrl, [rd'; rs2'; rs1'] => Some (AmoxorW rd' rs1' rs2' aqrl)
  | AmoxorD _ _ _ aqrl, [rd'; rs2'; rs1'] => Some (AmoxorD rd' rs1' rs2' aqrl)
  | AmoandW _ _ _ aqrl, [rd'; rs2'; rs1'] => Some (AmoandW rd' rs1' rs2' aqrl)
  | AmoandD _ _ _ aqrl, [rd'; rs2'; rs1'] => Some (AmoandD rd' rs1' rs2' aqrl)
  | AmoorW _ _ _ aqrl, [rd'; rs2'; rs1'] => Some (AmoorW rd' rs1' rs2' aqrl)
  | AmoorD _ _ _ aqrl, [rd'; rs2'; rs1'] => Some (AmoorD rd' rs1' rs2' aqrl)
  | AmominW _ _ _ aqrl, [rd'; rs2'; rs1'] => Some (AmominW rd' rs1' rs2' aqrl)
  | AmominD _ _ _ aqrl, [rd'; rs2'; rs1'] => Some (AmominD rd' rs1' rs2' aqrl)
  | AmomaxW _ _ _ aqrl, [rd'; rs2'; rs1'] => Some (AmomaxW rd' rs1' rs2' aqrl)
  | AmomaxD _ _ _ aqrl, [rd'; rs2'; rs1'] => Some (AmomaxD rd' rs1' rs2' aqrl)
  | AmominuW _ _ _ aqrl, [rd'; rs2'; rs1'] => Some (AmominuW rd' rs1' rs2' aqrl)
  | AmominuD _ _ _ aqrl, [rd'; rs2'; rs1'] => Some (AmominuD rd' rs1' rs2' aqrl)
  | AmomaxuW _ _ _ aqrl, [rd'; rs2'; rs1'] => Some (AmomaxuW rd' rs1' rs2' aqrl)
  | AmomaxuD _ _ _ aqrl, [rd'; rs2'; rs1'] => Some (AmomaxuD rd' rs1' rs2' aqrl)
  | Flw _ _ _, [frd'; imm'; rs1'] => Some (Flw frd' rs1' imm')
  | Fld _ _ _, [frd'; imm'; rs1'] => Some (Fld frd' rs1' imm')
  | Fsw _ _ _, [frs2'; imm'; rs1'] => Some (Fsw rs1' frs2' imm')
  | Fsd _ _ _, [frs2'; imm'; rs1'] => Some (Fsd rs1' frs2' imm')
  | FaddS _ _ _ _, [frd'; frs1'; frs2'] => Some (FaddS frd' frs1' frs2' 0)
  | FsubS _ _ _ _, [frd'; frs1'; frs2'] => Some (FsubS frd' frs1' frs2' 0)
  | FmulS _ _ _ _, [frd'; frs1'; frs2'] => Some (FmulS frd' frs1' frs2' 0)
  | FdivS _ _ _ _, [frd'; frs1'; frs2'] => Some (FdivS frd' frs1' frs2' 0)
  | FsgnjS _ _ _, [frd'; frs1'; frs2'] => Some (FsgnjS frd' frs1' frs2')
  | FsgnjnS _ _ _, [frd'; frs1'; frs2'] => Some (FsgnjnS frd' frs1' frs2')
  | FsgnjxS _ _ _, [frd'; frs1'; frs2'] => Some (FsgnjxS frd' frs1' frs2')
  | FminS _ _ _, [frd'; frs1'; frs2'] => Some (FminS frd' frs1' frs2')
  | FmaxS _ _ _, [frd'; frs1'; frs2'] => Some (FmaxS frd' frs1' frs2')
  | FaddD _ _ _ _, [frd'; frs1'; frs2'] => Some (FaddD frd' frs1' frs2' 0)
  | FsubD _ _ _ _, [frd'; frs1'; frs2'] => Some (FsubD frd' frs1' frs2' 0)
  | FmulD _ _ _ _, [frd'; frs1'; frs2'] => Some (FmulD frd' frs1' frs2' 0)
  | FdivD _ _ _ _, [frd'; frs1'; frs2'] => Some (FdivD frd' frs1' frs2' 0)
  | FsgnjD _ _ _, [frd'; frs1'; frs2'] => Some (FsgnjD frd' frs1' frs2')
  | FsgnjnD _ _ _, [frd'; frs1'; frs2'] => Some (FsgnjnD frd' frs1' frs2')
  | FsgnjxD _ _ _, [frd'; frs1'; frs2'] => Some (FsgnjxD frd' frs1' frs2')
  | FminD _ _ _, [frd'; frs1'; frs2'] => Some (FminD frd' frs1' frs2')
  | FmaxD _ _ _, [frd'; frs1'; frs2'] => Some (FmaxD frd' frs1' frs2')
  | FsqrtS _ _ _, [frd'; frs1'] => Some (FsqrtS frd' frs1' 0)
  | FsqrtD _ _ _, [frd'; frs1'] => Some (FsqrtD frd' frs1' 0)
  | FcvtSD _ _ _, [frd'; frs1'] => Some (FcvtSD frd' frs1' 0)
  | FcvtDS _ _ _, [frd'; frs1'] => Some (FcvtDS frd' frs1' 0)
  | FcvtWS _ _ _, [rd'; frs1'] => Some (FcvtWS rd' frs1' 0)
  | FcvtWuS _ _ _, [rd'; frs1'] => Some (FcvtWuS rd' frs1' 0)
  | FcvtLS _ _ _, [rd'; frs1'] => Some (FcvtLS rd' frs1' 0)
  | FcvtLuS _ _ _, [rd'; frs1'] => Some (FcvtLuS rd' frs1' 0)
  | FmvXW _ _, [rd'; frs1'] => Some (FmvXW rd' frs1')
  | FclassS _ _, [rd'; frs1'] => Some (FclassS rd' frs1')
  | FcvtWD _ _ _, [rd'; frs1'] => Some (FcvtWD rd' frs1' 0)
  | FcvtWuD _ _ _, [rd'; frs1'] => Some (FcvtWuD rd' frs1' 0)
  | FcvtLD _ _ _, [rd'; frs1'] => Some (FcvtLD rd' frs1' 0)
  | FcvtLuD _ _ _, [rd'; frs1'] => Some (FcvtLuD rd' frs1' 0)
  | FmvXD _ _, [rd'; frs1'] => Some (FmvXD rd' frs1')
  | FclassD _ _, [rd'; frs1'] => Some (FclassD rd' frs1')
  | FcvtSW _ _ _, [frd'; rs1'] => Some (FcvtSW frd' rs1' 0)
  | FcvtSWu _ _ _, [frd'; rs1'] => Some (FcvtSWu frd' rs1' 0)
  | FcvtSL _ _ _, [frd'; rs1'] => Some (FcvtSL frd' rs1' 0)
  | FcvtSLu _ _ _, [frd'; rs1'] => Some (FcvtSLu frd' rs1' 0)
  | FmvWX _ _, [frd'; rs1'] => Some (FmvWX frd' rs1')
  | FcvtDW _ _ _, [frd'; rs1'] => Some (FcvtDW frd' rs1' 0)
  | FcvtDWu _ _ _, [frd'; rs1'] => Some (FcvtDWu frd' rs1' 0)
  | FcvtDL _ _ _, [frd'; rs1'] => Some (FcvtDL frd' rs1' 0)
  | FcvtDLu _ _ _, [frd'; rs1'] => Some (FcvtDLu frd' rs1' 0)
  | FmvDX _ _, [frd'; rs1'] => Some (FmvDX frd' rs1')
  | FeqS _ _ _, [rd'; frs1'; frs2'] => Some (FeqS rd' frs1' frs2')
  | FltS _ _ _, [rd'; frs1'; frs2'] => Some (FltS rd' frs1' frs2')
  | FleS _ _ _, [rd'; frs1'; frs2'] => Some (FleS rd' frs1' frs2')
  | FeqD _ _ _, [rd'; frs1'; frs2'] => Some (FeqD rd' frs1' frs2')
  | FltD _ _ _, [rd'; frs1'; frs2'] => Some (FltD rd' frs1' frs2')
  | FleD _ _ _, [rd'; frs1'; frs2'] => Some (FleD rd' frs1' frs2')
  | FmaddS _ _ _ _ _, [frd'; frs1'; frs2'; frs3'] => Some (FmaddS frd' frs1' frs2' frs3' 0)
  | FmsubS _ _ _ _ _, [frd'; frs1'; frs2'; frs3'] => Some (FmsubS frd' frs1' frs2' frs3' 0)
  | FnmsubS _ _ _ _ _, [frd'; frs1'; frs2'; frs3'] => Some (FnmsubS frd' frs1' frs2' frs3' 0)
  | FnmaddS _ _ _ _ _, [frd'; frs1'; frs2'; frs3'] => Some (FnmaddS frd' frs1' frs2' frs3' 0)
  | FmaddD _ _ _ _ _, [frd'; frs1'; frs2'; frs3'] => Some (FmaddD frd' frs1' frs2' frs3' 0)
  | FmsubD _ _ _ _ _, [frd'; frs1'; frs2'; frs3'] => Some (FmsubD frd' frs1' frs2' frs3' 0)
  | FnmsubD _ _ _ _ _, [frd'; frs1'; frs2'; frs3'] => Some (FnmsubD frd' frs1' frs2' frs3' 0)
  | FnmaddD _ _ _ _ _, [frd'; frs1'; frs2'; frs3'] => Some (FnmaddD frd' frs1' frs2' frs3' 0)
  | _, _ => None
  end.

(** The names of the instruction set, each with an operation of that name *)
Definition assembly : list (string * Op) :=
  [("illegal", Illegal); ("lb", Lb 0 0 0); ("lh", Lh 0 0 0); ("lw", Lw 0 0 0); ("ld", Ld 0 0 0); ("lbu", Lbu 0 0 0)
   ; ("lhu", Lhu 0 0 0); ("lwu", Lwu 0 0 0); ("fence", Fence); ("fence.i", FenceI); ("addi", Addi 0 0 0)
   ; ("slli", Slli 0 0 0); ("slti", Slti 0 0 0); ("sltiu", Sltiu 0 0 0); ("xori", Xori 0 0 0); ("srli", Srli 0 0 0)
   ; ("srai", Srai 0 0 0); ("ori", Ori 0 0 0); ("andi", Andi 0 0 0); ("auipc", Auipc 0 0); ("addiw", Addiw 0 0 0)
   ; ("slliw", Slliw 0 0 0); ("srliw", Srliw 0 0 0); ("sraiw", Sraiw 0 0 0); ("sb", Sb 0 0 0); ("sh", Sh 0 0 0)
   ; ("sw", Sw 0 0 0); ("sd", Sd 0 0 0); ("add", Add 0 0 0); ("sub", Sub 0 0 0); ("sll", Sll 0 0 0)
   ; ("slt", Slt 0 0 0); ("sltu", Sltu 0 0 0); ("xor", Xor 0 0 0); ("srl", Srl 0 0 0); ("sra", Sra 0 0 0)
   ; ("or", Or 0 0 0); ("and", And 0 0 0); ("lui", Lui 0 0); ("addw", Addw 0 0 0); ("subw", Subw 0 0 0)
   ; ("sllw", Sllw 0 0 0); ("srlw", Srlw 0 0 0); ("sraw", Sraw 0 0 0); ("beq", Beq 0 0 0); ("bne", Bne 0 0 0)
   ; ("blt", Blt 0 0 0); ("bge", Bge 0 0 0); ("bltu", Bltu 0 0 0); ("bgeu", Bgeu 0 0 0); ("jalr", Jalr 0 0 0)
   ; ("jal", Jal 0 0); ("ecall", Ecall); ("ebreak", Ebreak); ("csrrw", Csrrw 0 0 0); ("csrrs", Csrrs 0 0 0)
   ; ("csrrc", Csrrc 0 0 0); ("csrrwi", Csrrwi 0 0 0); ("csrrsi", Csrrsi 0 0 0); ("csrrci", Csrrci 0 0 0)
   ; ("mul", Mul 0 0 0); ("mulh", Mulh 0 0 0); ("mulhsu", Mulhsu 0 0 0); ("mulhu", Mulhu 0 0 0); ("div", Div 0 0 0)
   ; ("divu", Divu 0 0 0); ("rem", Rem 0 0 0); ("remu", Remu 0 0 0); ("mulw", Mulw 0 0 0); ("divw", Divw 0 0 0)
   ; ("divuw", Divuw 0 0 0); ("remw", Remw 0 0 0); ("remuw", Remuw 0 0 0); ("lr.w", LrW 0 0 Relaxed)
   ; ("lr.w.aq", LrW 0 0 Acquire); ("lr.w.rl", LrW 0 0 Release); ("lr.w.aqrl", LrW 0 0 SeqCst)
   ; ("lr.d", LrD 0 0 Relaxed); ("lr.d.aq", LrD 0 0 Acquire); ("lr.d.rl", LrD 0 0 Release)
   ; ("lr.d.aqrl", LrD 0 0 SeqCst); ("sc.w", ScW 0 0 0 Relaxed); ("sc.w.aq", ScW 0 0 0 Acquire)
   ; ("sc.w.rl", ScW 0 0 0 Release); ("sc.w.aqrl", ScW 0 0 0 SeqCst); ("sc.d", ScD 0 0 0 Relaxed)
   ; ("sc.d.aq", ScD 0 0 0 Acquire); ("sc.d.rl", ScD 0 0 0 Release); ("sc.d.aqrl", ScD 0 0 0 SeqCst)
   ; ("amoswap.w", AmoswapW 0 0 0 Relaxed); ("amoswap.w.aq", AmoswapW 0 0 0 Acquire)
   ; ("amoswap.w.rl", AmoswapW 0 0 0 Release); ("amoswap.w.aqrl", AmoswapW 0 0 0 SeqCst)
   ; ("amoswap.d", AmoswapD 0 0 0 Relaxed); ("amoswap.d.aq", AmoswapD 0 0 0 Acquire)
   ; ("amoswap.d.rl", AmoswapD 0 0 0 Release); ("amoswap.d.aqrl", AmoswapD 0 0 0 SeqCst)
   ; ("amoadd.w", AmoaddW 0 0 0 Relaxed); ("amoadd.w.aq", AmoaddW 0 0 0 Acquire)
   ; ("amoadd.w.rl", AmoaddW 0 0 0 Release); ("amoadd.w.aqrl", AmoaddW 0 0 0 SeqCst)
   ; ("amoadd.d", AmoaddD 0 0 0 Relaxed); ("amoadd.d.aq", AmoaddD 0 0 0 Acquire)
   ; ("amoadd.d.rl", AmoaddD 0 0 0 Release); ("amoadd.d.aqrl", AmoaddD 0 0 0 SeqCst)
   ; ("amoxor.w", AmoxorW 0 0 0 Relaxed); ("amoxor.w.aq", AmoxorW 0 0 0 Acquire)
   ; ("amoxor.w.rl", AmoxorW 0 0 0 Release); ("amoxor.w.aqrl", AmoxorW 0 0 0 SeqCst)
   ; ("amoxor.d", AmoxorD 0 0 0 Relaxed); ("amoxor.d.aq", AmoxorD 0 0 0 Acquire)
   ; ("amoxor.d.rl", AmoxorD 0 0 0 Release); ("amoxor.d.aqrl", AmoxorD 0 0 0 SeqCst)
   ; ("amoand.w", AmoandW 0 0 0 Relaxed); ("amoand.w.aq", AmoandW 0 0 0 Acquire)
   ; ("amoand.w.rl", AmoandW 0 0 0 Release); ("amoand.w.aqrl", AmoandW 0 0 0 SeqCst)
   ; ("amoand.d", AmoandD 0 0 0 Relaxed); ("amoand.d.aq", AmoandD 0 0 0 Acquire)
   ; ("amoand.d.rl", AmoandD 0 0 0 Release); ("amoand.d.aqrl", AmoandD 0 0 0 SeqCst)
   ; ("amoor.w", AmoorW 0 0 0 Relaxed); ("amoor.w.aq", AmoorW 0 0 0 Acquire); ("amoor.w.rl", AmoorW 0 0 0 Release)
   ; ("amoor.w.aqrl", AmoorW 0 0 0 SeqCst); ("amoor.d", AmoorD 0 0 0 Relaxed); ("amoor.d.aq", AmoorD 0 0 0 Acquire)
   ; ("amoor.d.rl", AmoorD 0 0 0 Release); ("amoor.d.aqrl", AmoorD 0 0 0 SeqCst); ("amomin.w", AmominW 0 0 0 Relaxed)
   ; ("amomin.w.aq", AmominW 0 0 0 Acquire); ("amomin.w.rl", AmominW 0 0 0 Release)
   ; ("amomin.w.aqrl", AmominW 0 0 0 SeqCst); ("amomin.d", AmominD 0 0 0 Relaxed)
   ; ("amomin.d.aq", AmominD 0 0 0 Acquire); ("amomin.d.rl", AmominD 0 0 0 Release)
   ; ("amomin.d.aqrl", AmominD 0 0 0 SeqCst); ("amomax.w", AmomaxW 0 0 0 Relaxed)
   ; ("amomax.w.aq", AmomaxW 0 0 0 Acquire); ("amomax.w.rl", AmomaxW 0 0 0 Release)
   ; ("amomax.w.aqrl", AmomaxW 0 0 0 SeqCst); ("amomax.d", AmomaxD 0 0 0 Relaxed)
   ; ("amomax.d.aq", AmomaxD 0 0 0 Acquire); ("amomax.d.rl", AmomaxD 0 0 0 Release)
   ; ("amomax.d.aqrl", AmomaxD 0 0 0 SeqCst); ("amominu.w", AmominuW 0 0 0 Relaxed)
   ; ("amominu.w.aq", AmominuW 0 0 0 Acquire); ("amominu.w.rl", AmominuW 0 0 0 Release)
   ; ("amominu.w.aqrl", AmominuW 0 0 0 SeqCst); ("amominu.d", AmominuD 0 0 0 Relaxed)
   ; ("amominu.d.aq", AmominuD 0 0 0 Acquire); ("amominu.d.rl", AmominuD 0 0 0 Release)
   ; ("amominu.d.aqrl", AmominuD 0 0 0 SeqCst); ("amomaxu.w", AmomaxuW 0 0 0 Relaxed)
   ; ("amomaxu.w.aq", AmomaxuW 0 0 0 Acquire); ("amomaxu.w.rl", AmomaxuW 0 0 0 Release)
   ; ("amomaxu.w.aqrl", AmomaxuW 0 0 0 SeqCst); ("amomaxu.d", AmomaxuD 0 0 0 Relaxed)
   ; ("amomaxu.d.aq", AmomaxuD 0 0 0 Acquire); ("amomaxu.d.rl", AmomaxuD 0 0 0 Release)
   ; ("amomaxu.d.aqrl", AmomaxuD 0 0 0 SeqCst); ("flw", Flw 0 0 0); ("fsw", Fsw 0 0 0); ("fadd.s", FaddS 0 0 0 0)
   ; ("fsub.s", FsubS 0 0 0 0); ("fmul.s", FmulS 0 0 0 0); ("fdiv.s", FdivS 0 0 0 0); ("fsqrt.s", FsqrtS 0 0 0)
   ; ("fsgnj.s", FsgnjS 0 0 0); ("fsgnjn.s", FsgnjnS 0 0 0); ("fsgnjx.s", FsgnjxS 0 0 0); ("fmin.s", FminS 0 0 0)
   ; ("fmax.s", FmaxS 0 0 0); ("fcvt.w.s", FcvtWS 0 0 0); ("fcvt.wu.s", FcvtWuS 0 0 0); ("fcvt.l.s", FcvtLS 0 0 0)
   ; ("fcvt.lu.s", FcvtLuS 0 0 0); ("fmv.x.w", FmvXW 0 0); ("fclass.s", FclassS 0 0); ("feq.s", FeqS 0 0 0)
   ; ("flt.s", FltS 0 0 0); ("fle.s", FleS 0 0 0); ("fcvt.s.w", FcvtSW 0 0 0); ("fcvt.s.wu", FcvtSWu 0 0 0)
   ; ("fcvt.s.l", FcvtSL 0 0 0); ("fcvt.s.lu", FcvtSLu 0 0 0); ("fmv.w.x", FmvWX 0 0); ("fmadd.s", FmaddS 0 0 0 0 0)
   ; ("fmsub.s", FmsubS 0 0 0 0 0); ("fnmsub.s", FnmsubS 0 0 0 0 0); ("fnmadd.s", FnmaddS 0 0 0 0 0)
   ; ("fld", Fld 0 0 0); ("fsd", Fsd 0 0 0); ("fadd.d", FaddD 0 0 0 0); ("fsub.d", FsubD 0 0 0 0)
   ; ("fmul.d", FmulD 0 0 0 0); ("fdiv.d", FdivD 0 0 0 0); ("fsqrt.d", FsqrtD 0 0 0); ("fsgnj.d", FsgnjD 0 0 0)
   ; ("fsgnjn.d", FsgnjnD 0 0 0); ("fsgnjx.d", FsgnjxD 0 0 0); ("fmin.d", FminD 0 0 0); ("fmax.d", FmaxD 0 0 0)
   ; ("fcvt.s.d", FcvtSD 0 0 0); ("fcvt.d.s", FcvtDS 0 0 0); ("fcvt.w.d", FcvtWD 0 0 0); ("fcvt.wu.d", FcvtWuD 0 0 0)
   ; ("fcvt.l.d", FcvtLD 0 0 0); ("fcvt.lu.d", FcvtLuD 0 0 0); ("fmv.x.d", FmvXD 0 0); ("fclass.d", FclassD 0 0)
   ; ("feq.d", FeqD 0 0 0); ("flt.d", FltD 0 0 0); ("fle.d", FleD 0 0 0); ("fcvt.d.w", FcvtDW 0 0 0)
   ; ("fcvt.d.wu", FcvtDWu 0 0 0); ("fcvt.d.l", FcvtDL 0 0 0); ("fcvt.d.lu", FcvtDLu 0 0 0); ("fmv.d.x", FmvDX 0 0)
   ; ("fmadd.d", FmaddD 0 0 0 0 0); ("fmsub.d", FmsubD 0 0 0 0 0); ("fnmsub.d", FnmsubD 0 0 0 0 0)
   ; ("fnmadd.d", FnmaddD 0 0 0 0 0); ("mret", Mret); ("sret", Sret); ("wfi", Wfi); ("sfence.vma", SfenceVma 0 0)].

(** The rounding mode is not part of the line. *)
Definition without_rm (op : Op) : Op :=
  match op with
  | FaddS frd frs1 frs2 _ => FaddS frd frs1 frs2 0
  | FsubS frd frs1 frs2 _ => FsubS frd frs1 frs2 0
  | FmulS frd frs1 frs2 _ => FmulS frd frs1 frs2 0
  | FdivS frd frs1 frs2 _ => FdivS frd frs1 frs2 0
  | FsqrtS frd frs1 _ => FsqrtS frd frs1 0
  | FcvtWS rd frs1 _ => FcvtWS rd frs1 0
  | FcvtWuS rd frs1 _ => FcvtWuS rd frs1 0
  | FcvtLS rd frs1 _ => FcvtLS rd frs1 0
  | FcvtLuS rd frs1 _ => FcvtLuS rd frs1 0
  | FcvtSW frd rs1 _ => FcvtSW frd rs1 0
  | FcvtSWu frd rs1 _ => FcvtSWu frd rs1 0
  | FcvtSL frd rs1 _ => FcvtSL frd rs1 0
  | FcvtSLu frd rs1 _ => FcvtSLu frd rs1 0
  | FmaddS frd frs1 frs2 frs3 _ => FmaddS frd frs1 frs2 frs3 0
  | FmsubS frd frs1 frs2 frs3 _ => FmsubS frd frs1 frs2 frs3 0
  | FnmsubS frd frs1 frs2 frs3 _ => FnmsubS frd frs1 frs2 frs3 0
  | FnmaddS frd frs1 frs2 frs3 _ => FnmaddS frd frs1 frs2 frs3 0
  | FaddD frd frs1 frs2 _ => FaddD frd frs1 frs2 0
  | FsubD frd frs1 frs2 _ => FsubD frd frs1 frs2 0
  | FmulD frd frs1 frs2 _ => FmulD frd frs1 frs2 0
  | FdivD frd frs1 frs2 _ => FdivD frd frs1 frs2 0
  | FsqrtD frd frs1 _ => FsqrtD frd frs1 0
  | FcvtSD frd frs1 _ => FcvtSD frd frs1 0
  | FcvtDS frd frs1 _ => FcvtDS frd frs1 0
  | FcvtWD rd frs1 _ => FcvtWD rd frs1 0
  | FcvtWuD rd frs1 _ => FcvtWuD rd frs1 0
  | FcvtLD rd frs1 _ => FcvtLD rd frs1 0
  | FcvtLuD rd frs1 _ => FcvtLuD rd frs1 0
  | FcvtDW frd rs1 _ => FcvtDW frd rs1 0
  | FcvtDWu frd rs1 _ => FcvtDWu frd rs1 0
  | FcvtDL frd rs1 _ => FcvtDL frd rs1 0
  | FcvtDLu frd rs1 _ => FcvtDLu frd rs1 0
  | FmaddD frd frs1 frs2 frs3 _ => FmaddD frd frs1 frs2 frs3 0
  | FmsubD frd frs1 frs2 frs3 _ => FmsubD frd frs1 frs2 frs3 0
  | FnmsubD frd frs1 frs2 frs3 _ => FnmsubD frd frs1 frs2 frs3 0
  | FnmaddD frd frs1 frs2 frs3 _ => FnmaddD frd frs1 frs2 frs3 0
  | _ => op
  end.

Definition read_op (s : string) : option Op :=
  let (w, s) := span s in
  let? t := entry assembly w in
  let? vs := read_pieces (shape t) (skip_spaces s) in
  rebuild t vs.

Definition read_line (s : string) : option (Z * Z * Op) :=
  let (pc, s) := span (skip_spaces s) in
  let? s := strip ":" s in
  let (bits, s) := span (skip_spaces s) in
  let? op := read_op (skip_spaces s) in
  Some (value 16 0 pc, value 16 0 bits, op).

(** ** Reading back *)

(** The name a line opens with *)
Definition name (op : Op) : string := mnemonic op ++ suffix op.

Definition no_space (s : string) : Prop := match s with String " " _ => False | _ => True end.
Definition ends_word (s : string) : bool := match s with "" => true | String c _ => negb (in_word c) end.
Fixpoint all_word (s : string) : bool := match s with "" => true | String c s => in_word c && all_word s end.

Lemma all_from (P : Z -> bool) n v : forallb (fun i => P (Z.of_nat i)) (seq 0 n) = true -> 0 <= v < Z.of_nat n -> P v = true.
Proof. intros H Hv. rewrite forallb_forall in H. rewrite <- (Z2Nat.id v) by lia. apply H, in_seq. lia. Qed.

Lemma all_pairs (P : Z -> Z -> bool) n m a b : forallb (fun i => forallb (fun j => P (Z.of_nat i) (Z.of_nat j)) (seq 0 m)) (seq 0 n) = true -> 0 <= a < Z.of_nat n -> 0 <= b < Z.of_nat m -> P a b = true.
Proof. intros H Ha Hb. apply (all_from (P a) m b); [|exact Hb]. exact (all_from (fun a => forallb (fun j => P a (Z.of_nat j)) (seq 0 m)) n a H Ha). Qed.

Lemma digit_ok d : 0 <= d < 16 -> undigit (digit d) = d /\ in_word (digit d) = true.
Proof. intros H. assert (E := all_from (fun d => (undigit (digit d) =? d) && in_word (digit d)) 16 d eq_refl H). apply andb_true_iff in E as [E ?]. apply Z.eqb_eq in E. auto. Qed.

Lemma value_digits base fuel : 2 <= base <= 16 -> forall n acc, 0 <= n < base ^ Z.of_nat fuel -> value base 0 (digits base fuel n acc) = value base n acc.
Proof.
  intros Hb. induction fuel as [|fuel IH]; intros n acc Hn; [cbn in *; replace n with 0 by lia; reflexivity|].
  cbn [digits]. pose proof (Z.mod_pos_bound n base ltac:(lia)) as Hm. destruct (digit_ok (n mod base) ltac:(lia)) as [E _]. pose proof (Z.div_mod n base ltac:(lia)) as Hd.
  destruct (Z.eqb_spec (n / base) 0) as [Hz|Hz].
  - cbn [value]. rewrite E. f_equal. lia.
  - rewrite IH; [cbn [value]; rewrite E; f_equal; lia|]. rewrite Nat2Z.inj_succ, Z.pow_succ_r in Hn by lia. split; [apply Z.div_pos; lia|apply Z.div_lt_upper_bound; lia].
Qed.

Lemma digits_word base fuel : 2 <= base <= 16 -> forall n acc, all_word acc = true -> all_word (digits base fuel n acc) = true.
Proof.
  intros Hb. induction fuel as [|fuel IH]; intros n acc Ha; [exact Ha|]. cbn [digits]. pose proof (Z.mod_pos_bound n base ltac:(lia)) as Hm. destruct (digit_ok (n mod base) ltac:(lia)) as [_ E].
  destruct (n / base =? 0); [|apply IH]; cbn [all_word]; rewrite E; exact Ha.
Qed.

(** The first character is a digit. *)
Lemma digits_first base fuel : 2 <= base <= 16 -> forall n acc, exists d s, 0 <= d < base /\ digits base (S fuel) n acc = String (digit d) s.
Proof.
  intros Hb. induction fuel as [|fuel IH]; intros n acc; cbn [digits]; pose proof (Z.mod_pos_bound n base ltac:(lia)).
  - exists (n mod base), acc. destruct (n / base =? 0); auto.
  - destruct (n / base =? 0); [exists (n mod base), acc; auto|]. apply IH.
Qed.

Lemma span_word w rest : all_word w = true -> ends_word rest = true -> span (w ++ rest) = (w, rest).
Proof.
  intros Hw Hr. induction w as [|c w IH]; cbn [String.append].
  - destruct rest as [|c t]; [reflexivity|]. cbn [ends_word span] in *. apply negb_true_iff in Hr. rewrite Hr. reflexivity.
  - cbn [all_word span] in *. apply andb_true_iff in Hw as [Hc Hw]. rewrite Hc, (IH Hw). reflexivity.
Qed.

Lemma strip_app l s : strip l (l ++ s) = Some s.
Proof. induction l as [|c l IH]; [reflexivity|]. cbn [String.append strip]. rewrite Ascii.eqb_refl. exact IH. Qed.

Lemma append_assoc (a b c : string) : (a ++ b) ++ c = a ++ (b ++ c).
Proof. induction a as [|x a IH]; [reflexivity|]. cbn [String.append]. rewrite IH. reflexivity. Qed.

Lemma skip_fill n s : no_space s -> skip_spaces (fill_with " " n ++ s) = s.
Proof.
  intros Hs. induction n as [|n IH]; cbn [fill_with String.append skip_spaces]; [|exact IH].
  destruct s as [|c s]; [reflexivity|]. cbn [skip_spaces]. cbn [no_space] in Hs. destruct c as [[|] [|] [|] [|] [|] [|] [|] [|]]; first [contradiction|reflexivity].
Qed.

Lemma word_no_space w s : all_word w = true -> w <> "" -> no_space (w ++ s).
Proof. destruct w as [|c w]; [congruence|]. cbn [all_word String.append no_space]. intros H _. destruct c as [[|] [|] [|] [|] [|] [|] [|] [|]]; first [exact Logic.I|discriminate H]. Qed.

Lemma value_zeros n s : value 16 0 (fill_with "0" n ++ s) = value 16 0 s.
Proof. induction n as [|n IH]; [reflexivity|]. cbn [fill_with String.append value]. exact IH. Qed.

Lemma fill_zeros n s : all_word s = true -> all_word (fill_with "0" n ++ s) = true.
Proof. intros H. induction n as [|n IH]; [exact H|]. exact IH. Qed.

(** *** The pieces *)

Definition text_of (k : Kind) (v : Z) : option string :=
  match k with
  | Reg => register_name v
  | FReg => Some ("f" ++ fmt_u v)
  | Num => Some (fmt_i v)
  | UImm => Some (fmt_x true (u32 v >> 12))
  | CsrName => Some ("#" ++ csr_name v)
  end.

Definition kind_ok (k : Kind) (v : Z) : bool :=
  match k with
  | Reg | FReg => reg_ok v
  | Num => (- 2 ^ 31 <? v) && (v <? 2 ^ 31)
  | UImm => imm20_ok v
  | CsrName => csr_ok v
  end.

Lemma num_ok v : - 2 ^ 31 < v < 2 ^ 31 -> all_word (fmt_i v) = true /\ fmt_i v <> "" /\ of_word Num (fmt_i v) = Some v /\ (0 <= v -> value 10 0 (fmt_i v) = v).
Proof.
  intros Hv. assert (D : forall n, 0 <= n < 2 ^ 31 -> value 10 0 (fmt_u n) = n) by (intros n Hn; unfold fmt_u; rewrite value_digits by (change (10 ^ Z.of_nat 20) with 100000000000000000000; lia); reflexivity).
  assert (W : forall n, all_word (fmt_u n) = true) by (intros n; apply digits_word; [lia|reflexivity]).
  unfold fmt_i. destruct (Z.ltb_spec v 0) as [Hn|Hn].
  - split; [cbn [String.append all_word]; rewrite W; reflexivity|]. split; [discriminate|]. split; [|lia]. cbn [of_word String.append]. rewrite D by lia. f_equal. lia.
  - split; [apply W|]. destruct (digits_first 10 19 ltac:(lia) v "") as (d & s & Hd & E). fold (fmt_u v) in E. split; [rewrite E; discriminate|]. split; [|intros _; apply D; lia].
    assert (X := all_from (fun d => negb (Ascii.eqb (digit d) "-")) 10 d eq_refl Hd). apply negb_true_iff, Ascii.eqb_neq in X.
    pose proof (D v ltac:(lia)) as Dv. rewrite E in *. cbn [of_word]. destruct (digit d) as [[|] [|] [|] [|] [|] [|] [|] [|]]; first [rewrite Dv; reflexivity|contradiction].
Qed.

Lemma uimm_back v : - 2 ^ 31 <= v < 2 ^ 31 -> v mod 2 ^ 12 = 0 -> i32 ((u32 v >> 12) << 12) = v.
Proof.
  intros Hv Hm. rewrite Z.shiftr_div_pow2, Z.shiftl_mul_pow2 by lia. unfold i32, u32, sext, wrap.
  assert (E : v mod 2 ^ 32 / 2 ^ 12 * 2 ^ 12 = v mod 2 ^ 32) by (Z.to_euclidean_division_equations; lia). rewrite E, Z.mod_mod by lia.
  assert (V : v mod 2 ^ 32 = if v <? 0 then v + 2 ^ 32 else v) by (destruct (Z.ltb_spec v 0); [rewrite <- (Z_mod_plus_full v 1), Z.mul_1_l|]; apply Z.mod_small; lia).
  rewrite V. destruct (Z.ltb_spec v 0), (Z.ltb_spec (v + 2 ^ 32) (2 ^ (32 - 1))), (Z.ltb_spec v (2 ^ (32 - 1))); lia.
Qed.

Lemma word_ok k v : kind_ok k v = true -> exists w, text_of k v = Some w /\ all_word w = true /\ w <> "" /\ of_word k w = Some v.
Proof.
  intros H. assert (R : reg_ok v = true -> 0 <= v < Z.of_nat 32) by (unfold reg_ok; intros E; lia).
  assert (T : forall k, match text_of k v with Some w => all_word w && negb (String.eqb w "") && match of_word k w with Some x => x =? v | None => false end | None => false end = true ->
    exists w, text_of k v = Some w /\ all_word w = true /\ w <> "" /\ of_word k w = Some v).
  { intros k' E. destruct (text_of k' v) as [w|]; [|discriminate E]. exists w. split; [reflexivity|]. apply andb_true_iff in E as [E1 E2]. apply andb_true_iff in E1 as [E1 E3]. split; [exact E1|].
    split; [apply negb_true_iff, String.eqb_neq in E3; exact E3|]. destruct (of_word k' w); [|discriminate E2]. apply Z.eqb_eq in E2. congruence. }
  destruct k; cbn [kind_ok] in H.
  - apply T. apply (all_from (fun v => match text_of Reg v with Some w => all_word w && negb (String.eqb w "") && match of_word Reg w with Some x => x =? v | None => false end | None => false end) 32 v); [vm_compute; reflexivity|auto].
  - apply T. apply (all_from (fun v => match text_of FReg v with Some w => all_word w && negb (String.eqb w "") && match of_word FReg w with Some x => x =? v | None => false end | None => false end) 32 v); [vm_compute; reflexivity|auto].
  - destruct (num_ok v ltac:(lia)) as (? & ? & ? & _). eexists. split; [reflexivity|]. auto.
  - unfold imm20_ok in H. assert (Hx : 0 <= u32 v >> 12 < 2 ^ 20) by (pose proof (wrap_range 32 v ltac:(lia)) as Hr; unfold in_u in Hr; rewrite Z.shiftr_div_pow2 by lia; unfold u32; split; [apply Z.div_pos; lia|apply Z.div_lt_upper_bound; lia]).
    eexists. split; [reflexivity|]. unfold fmt_x. split; [cbn [String.append all_word]; rewrite digits_word by (lia || reflexivity); reflexivity|]. split; [discriminate|].
    cbn [of_word String.append strip]. rewrite !Ascii.eqb_refl. rewrite value_digits by (lia || (change (16 ^ Z.of_nat 16) with (2 ^ 64); lia)). cbn [value]. f_equal. apply uimm_back; lia.
  - apply T. apply (all_from (fun v => match text_of CsrName v with Some w => all_word w && negb (String.eqb w "") && match of_word CsrName w with Some x => x =? v | None => false end | None => false end) (Z.to_nat 4096) v); [vm_compute; reflexivity|unfold csr_ok in H; lia].
Qed.

(** *** Lines *)

Fixpoint render (ps : list Piece) (vs : list Z) (pc : option Z) : option string :=
  match ps, vs with
  | [], _ => Some ""
  | Lit l :: ps, _ => let? s := render ps vs pc in Some (l ++ s)
  | Word k :: ps, v :: vs => let? w := text_of k v in let? s := render ps vs pc in Some (w ++ s)
  | Target :: _, v :: _ => target pc v
  | _, [] => None
  end.

Fixpoint pieces_ok (ps : list Piece) (vs : list Z) : bool :=
  match ps, vs with
  | [], [] => true
  | Lit l :: ps, _ => pieces_ok ps vs
  | Word k :: ps, v :: vs => kind_ok k v && match ps with [] => true | Lit l :: _ => negb (String.eqb l "") && ends_word l | _ => false end && pieces_ok ps vs
  | [Target], [v] => kind_ok Num v
  | _, _ => false
  end.

Lemma read_target pc v : kind_ok Num v = true -> exists s, target pc v = Some s /\ no_space s /\ read_pieces [Target] s = Some [v].
Proof.
  cbn [kind_ok]. intros Hv. unfold target. set (tail := match pc with Some pc => " <" ++ fmt_x false (u64 (pc + v)) ++ ">" | None => "" end).
  assert (Ht : ends_word tail = true) by (subst tail; destruct pc; reflexivity). clearbody tail.
  assert (N : forall n, 0 <= n < 2 ^ 31 -> value 10 0 (fst (span (fmt_i n ++ tail))) = n).
  { intros n Hn. destruct (num_ok n ltac:(lia)) as (W & _ & _ & V). rewrite span_word by assumption. apply V. lia. }
  destruct (Z.ltb_spec v 0) as [Hs|Hs].
  - unfold i32. rewrite sext_id by (unfold in_i; lia). eexists. split; [reflexivity|]. split; [exact Logic.I|].
    cbn [read_pieces String.append strip Ascii.eqb Bool.eqb]. rewrite N by lia. f_equal. f_equal. lia.
  - eexists. split; [reflexivity|]. split; [exact Logic.I|]. cbn [read_pieces String.append strip Ascii.eqb Bool.eqb]. rewrite N by lia. reflexivity.
Qed.

Lemma render_reads pc ps : forall vs, pieces_ok ps vs = true -> exists s, render ps vs pc = Some s /\ read_pieces ps s = Some vs /\
  (match ps with Lit l :: _ => negb (String.eqb l "") && ends_word l = true -> ends_word s = true | [] => ends_word s = true | _ => no_space s end).
Proof.
  induction ps as [|[l|k|] ps IH]; intros vs H.
  - destruct vs; [|discriminate H]. exists "". auto.
  - cbn [pieces_ok] in H. destruct (IH vs H) as (s & E & R & _). exists (l ++ s). cbn [render read_pieces]. rewrite E, strip_app. split; [reflexivity|]. split; [exact R|].
    destruct l; [discriminate|]. cbn [String.append ends_word]. intros Hl. apply andb_true_iff in Hl as [_ Hl]. exact Hl.
  - destruct vs as [|v vs]; [discriminate H|]. cbn [pieces_ok] in H. apply andb_true_iff in H as [H Hr]. apply andb_true_iff in H as [Hk Hs].
    destruct (IH vs Hr) as (s & E & R & Hx). destruct (word_ok k v Hk) as (w & Ew & Aw & Nw & Ow). exists (w ++ s). cbn [render read_pieces]. rewrite Ew, E.
    assert (He : ends_word s = true) by (destruct ps as [|[l|k'|] ps]; [exact Hx|exact (Hx Hs)|discriminate Hs..]).
    rewrite (span_word w s Aw He), Ow, R. split; [reflexivity|]. split; [reflexivity|]. apply word_no_space; assumption.
  - destruct vs as [|v [|]], ps; try discriminate H. destruct (read_target pc v H) as (s & E & Hn & R). exists s. cbn [render]. auto.
Qed.

Lemma append_nil (s : string) : s ++ "" = s.
Proof. induction s as [|c s IH]; [reflexivity|]. cbn [String.append]. rewrite IH. reflexivity. Qed.

Lemma operands_render op pc : operands op pc = render (shape op) (vals op) pc.
Proof.
  destruct op; cbn [operands shape vals cat render lit text_of target]; try reflexivity;
    repeat match goal with |- context [register_name ?r] => destruct (register_name r); try reflexivity end;
    repeat match goal with |- context [target ?p ?i] => destruct (target p i); try reflexivity end; cbn [String.append]; rewrite ?append_assoc, ?append_nil; reflexivity.
Qed.

(** The name finds the operation, with its syntax. *)
Lemma template_found op : exists t, entry assembly (name op) = Some t /\ shape t = shape op /\ rebuild t (vals op) = Some (without_rm op).
Proof. destruct op; try destruct aqrl; eexists; (split; [vm_compute; reflexivity|]); split; reflexivity. Qed.

Lemma name_word op : all_word (name op) = true.
Proof. destruct op; try destruct aqrl; vm_compute; reflexivity. Qed.

Lemma name_first op s : no_space (name op ++ s).
Proof. apply word_no_space; [apply name_word|]. destruct op; try destruct aqrl; vm_compute; discriminate. Qed.

Lemma shape_ok op : op_ok op = true -> pieces_ok (shape op) (vals op) = true.
Proof.
  intros H. destruct op; try reflexivity; cbn [op_ok shape vals pieces_ok kind_ok] in *; unfold imm12_ok, imm13_ok, imm21_ok, shift_imm_ok in *;
    rewrite ?andb_true_iff in H; repeat match goal with H : _ /\ _ |- _ => destruct H end; repeat match goal with H : reg_ok _ = true |- _ => rewrite H; clear H | H : imm20_ok _ = true |- _ => rewrite H; clear H | H : csr_ok _ = true |- _ => rewrite H; clear H end;
    change (negb (String.eqb ", " "") && ends_word ", ") with true; change (negb (String.eqb "(" "") && ends_word "(") with true; change (negb (String.eqb ")" "") && ends_word ")") with true;
    change (negb (String.eqb ", (" "") && ends_word ", (") with true; rewrite ?andb_true_r; cbn [andb]; try reflexivity; try (unfold reg_ok in *; lia).
Qed.

Lemma print_reads op pc : op_ok op = true -> exists s, print op pc = Some s /\ no_space s /\ read_op s = Some (without_rm op).
Proof.
  intros H. unfold print. rewrite operands_render. destruct (render_reads pc _ _ (shape_ok op H)) as (s & E & R & Hs). rewrite E. eexists. split; [reflexivity|].
  rewrite <- append_assoc. fold (name op). split; [apply name_first|].
  assert (Hf : exists k, (8 - Nat.modulo (length (mnemonic op) + length (suffix op)) 8)%nat = S k) by (pose proof (Nat.mod_upper_bound (length (mnemonic op) + length (suffix op)) 8 ltac:(lia)); eexists (8 - Nat.modulo (length (mnemonic op) + length (suffix op)) 8 - 1)%nat; lia).
  destruct Hf as (k & ->). unfold read_op. rewrite span_word; [|apply name_word|reflexivity]. destruct (template_found op) as (t & -> & Et & Er). rewrite skip_fill.
  - rewrite Et, R. exact Er.
  - destruct op; cbn [shape] in Hs; try exact Hs; try (vm_compute in E; injection E as <-; exact Logic.I).
Qed.

(** [Display] also prints the offset of a compressed jump or branch as it is decoded, where the
    comment on it says that the immediate of those is incorrect: the line without an address
    reads back as the operation that a 16-bit word decodes to. *)
Definition offset_op (op : Op) : bool := match op with Jal _ _ | Beq _ _ _ | Bne _ _ _ => true | _ => false end.

Definition jump_encodable (bits : Z) : bool := match decode_compressed bits with Some op => if offset_op op then op_ok op else true | None => true end.

Lemma compressed_jumps_encodable bits : 0 <= bits < 2 ^ 16 -> jump_encodable bits = true.
Proof.
  intros H. rewrite (Z.div_mod bits 256), Z.mul_comm by lia.
  apply (all_pairs (fun h l => jump_encodable (h * 256 + l)) 256 256); [vm_compute; reflexivity|split; [apply Z.div_pos; lia|apply Z.div_lt_upper_bound; lia]|apply Z.mod_pos_bound; lia].
Qed.

Theorem compressed_jumps_displayed bits op : 0 <= bits < 2 ^ 16 -> decode_compressed bits = Some op -> offset_op op = true -> exists s, display op = Some s /\ read_op s = Some op.
Proof.
  intros Hb Hd Ho. pose proof (compressed_jumps_encodable bits Hb) as E. unfold jump_encodable in E. rewrite Hd, Ho in E. destruct (print_reads op None E) as (s & ? & _ & R). exists s. split; [assumption|].
  rewrite R. destruct op; try discriminate Ho; reflexivity.
Qed.

Example compressed_jump_displayed : decode_compressed 0xA011 = Some (Jal 0 4) /\ display (Jal 0 4) = Some "jal     zero, pc + 4".
Proof. split; vm_compute; reflexivity. Qed.

(** A number in hexadecimal, as a word *)
Lemma hex_word n : 0 <= n < 2 ^ 64 -> all_word (fmt_x false n) = true /\ fmt_x false n <> "" /\ value 16 0 (fmt_x false n) = n.
Proof.
  intros Hn. unfold fmt_x. cbn [String.append]. split; [apply digits_word; [lia|reflexivity]|]. split.
  - destruct (digits_first 16 15 ltac:(lia) n "") as (d & s & _ & ->). discriminate.
  - rewrite value_digits by (lia || (change (16 ^ Z.of_nat 16) with (2 ^ 64); lia)). reflexivity.
Qed.

(** What the line shows of the instruction: its 16 or 32 bits *)
Definition shown_bits (bits : Z) : Z := if (bits .& 3) =? 3 then bits else bits .& 0xFFFF.

(** C40. Disassembly is unambiguous: for every operation that has an encoding, the line that is
    printed for it, at any address and with any instruction bits, is defined (no register name
    is looked up out of range), and a reader with the names of the RISC-V manual (registers,
    CSRs and instructions, in tables of its own) gets back the address, the bits and the
    operation with all its operands; the same holds of the operation printed on its own.  Only
    the rounding mode is lost: no line shows it, and [without_rm] clears it. *)
Theorem disasm_reads_back op pc bits : op_ok op = true -> 0 <= pc < 2 ^ 64 -> 0 <= bits < 2 ^ 32 ->
  (exists s, display op = Some s /\ read_op s = Some (without_rm op)) /\
  (exists s, pretty_print pc bits op = Some s /\ read_line s = Some (pc, shown_bits bits, without_rm op)).
Proof.
  intros Hop Hpc Hb. split; [destruct (print_reads op None Hop) as (s & ? & _ & ?); exists s; auto|].
  destruct (print_reads op (Some pc) Hop) as (s & E & Hs & R). unfold pretty_print. rewrite E. eexists. split; [reflexivity|].
  destruct (hex_word pc Hpc) as (W & N & V).
  assert (P : forall k t, span (skip_spaces (pad_left " " k (fmt_x false pc) ++ ":       " ++ t)) = (fmt_x false pc, ":" ++ "       " ++ t)).
  { intros k t. unfold pad_left. rewrite append_assoc, skip_fill by (apply word_no_space; assumption). apply span_word; [exact W|reflexivity]. }
  assert (Q : forall n k t, 0 <= n < 2 ^ 32 -> span (skip_spaces ("       " ++ pad_left "0" k (fmt_x false n) ++ " " ++ t)) = (pad_left "0" k (fmt_x false n), " " ++ t) /\ value 16 0 (pad_left "0" k (fmt_x false n)) = n).
  { intros n k t Hn. destruct (hex_word n ltac:(lia)) as (Wn & Nn & Vn). unfold pad_left. split; [|rewrite value_zeros; exact Vn]. rewrite (skip_fill 7).
    - apply span_word; [apply fill_zeros; exact Wn|reflexivity].
    - apply word_no_space; [apply fill_zeros; exact Wn|]. destruct (k - length (fmt_x false n))%nat; [exact Nn|discriminate]. }
  assert (B : 0 <= bits .& 0xFFFF < 2 ^ 32) by (change 0xFFFF with (Z.ones 16); rewrite Z.land_ones by lia; pose proof (Z.mod_pos_bound bits (2 ^ 16) ltac:(lia)); lia).
  unfold read_line, shown_bits. destruct ((pc .& 0xFFFFFFFF) =? pc); rewrite P; (destruct ((bits .& 3) =? 3);
    [destruct (Q bits 8%nat ("       " ++ s) Hb) as [Q1 Q2]|destruct (Q (bits .& 0xFFFF) 4%nat ("           " ++ s) B) as [Q1 Q2]]);
    rewrite (strip_app ":"); rewrite ?(append_assoc _ "    "); change ("        " ++ s) with (" " ++ "       " ++ s); change ("    " ++ " " ++ "       " ++ s) with (" " ++ "           " ++ s);
    rewrite Q1, Q2, V; [change (" " ++ "       " ++ s) with (fill_with " " 8 ++ s)|change (" " ++ "           " ++ s) with (fill_with " " 12 ++ s)|change (" " ++ "       " ++ s) with (fill_with " " 8 ++ s)|change (" " ++ "           " ++ s) with (fill_with " " 12 ++ s)];
    rewrite (skip_fill _ s Hs), R; reflexivity.
Qed.

Lemma disasm_reads_back_witness : pretty_print 0x10000 0xFEB50CE3 (Beq 10 11 (-8)) = Some "   10000:       feb50ce3        beq     a0, a1, pc - 8 <fff8>" /\
  exists s, pretty_print 0x10000 0xFEB50CE3 (Beq 10 11 (-8)) = Some s /\ read_line s = Some (0x10000, 0xFEB50CE3, Beq 10 11 (-8)).
Proof. split; [vm_compute; reflexivity|]. exact (proj2 (disasm_reads_back (Beq 10 11 (-8)) 0x10000 0xFEB50CE3 eq_refl ltac:(lia) ltac:(lia))). Defined.
