(* ===== verification/Mmu.v ===== *)
(** Address translation, lib/riscv/src/mmu.rs: the Sv39 page walk
    ([walk_page]) and the permission check on the leaf ([check_permission]),
    with a reference definition of Sv39 translation they are proved against. *)

From Stdlib Require Import ZArith Lia Bool List.
From S2P Require Import Prelude.
Import ListNotations.
Local Open Scope Z_scope.
Local Open Scope rust_scope.

Definition PTE_V : Z := 0x01.
Definition PTE_R : Z := 0x02.
Definition PTE_W : Z := 0x04.
Definition PTE_X : Z := 0x08.
Definition PTE_U : Z := 0x10.
Definition PTE_G : Z := 0x20.
Definition PTE_A : Z := 0x40.
Definition PTE_D : Z := 0x80.

(** [enum AccessType] *)
Inductive AccessType : Type := Read | Write | Execute.

Definition access_eqb (a b : AccessType) : bool :=
  match a, b with
  | Read, Read | Write, Write | Execute, Execute => true
  | _, _ => false
  end.

(** The canonical-address test at the head of [walk_page]. *)
Definition vpn_canonical (vpn : Z) : bool :=
  (u64 (i64 (u64 (vpn << (64 - 27))) >> (64 - 27 - 12)) >> 12) =? vpn.

(** One turn of the loop of [walk_page] ends the walk ([return]) or goes on to
    the next level ([continue]) with the new [ppn] and [global]. *)
Inductive WalkStep : Type :=
| Done (pte : Z)
| Continue (ppn : Z) (global : bool).

(** The body of [for i in 0..3]. *)
Definition walk_level (read_mem : Z -> Z) (vpn ppn : Z) (global : bool) (i : Z) : WalkStep :=
  let bits_left := 18 - i * 9 in
  let index := (vpn >> bits_left) .& 511 in
  let pte_addr := u64 (u64 (ppn << 12) + index * 8) in
  let pte := read_mem pte_addr in
  let ppn := pte >> 10 in
  if (pte .& PTE_V) =? 0 then Done 0
  else if (pte .& (PTE_R .| PTE_W .| PTE_X)) =? PTE_W then Done 0
  else if (pte .& (PTE_R .| PTE_W .| PTE_X)) =? (PTE_W .| PTE_X) then Done 0
  else
    let global := if (pte .& PTE_G) <>? 0 then true else global in
    if (pte .& (PTE_R .| PTE_W .| PTE_X)) =? 0 then Continue ppn global
    else if (ppn .& ((1 << bits_left) - 1)) <>? 0 then Done 0
    else
      let ppn := ppn .| (vpn .& ((1 << bits_left) - 1)) in
      Done (u64 (ppn << 10) .| (pte .& ((1 << 10) - 1)) .| (if global then PTE_G else 0)).

Fixpoint walk_loop (read_mem : Z -> Z) (vpn ppn : Z) (global : bool) (levels : list Z) : Z :=
  match levels with
  | [] => 0
  | i :: levels =>
      match walk_level read_mem vpn ppn global i with
      | Done pte => pte
      | Continue ppn global => walk_loop read_mem vpn ppn global levels
      end
  end.

(** [pub fn walk_page(satp: u64, vpn: u64, read_mem: impl FnMut(u64) -> u64) -> u64] *)
Definition walk_page (satp vpn : Z) (read_mem : Z -> Z) : Z :=
  if negb (vpn_canonical vpn) then 0
  else walk_loop read_mem vpn (satp .& ((1 << 44) - 1)) false [0; 1; 2].

(** [pub fn check_permission(pte, access, prv, status) -> Result<(), ()>];
    [true] is [Ok(())]. *)
Definition check_permission (pte : Z) (access : AccessType) (prv status : Z) : bool :=
  if (pte .& PTE_V) =? 0 then false
  else if (if prv =? 0 then (pte .& PTE_U) =? 0
           else ((pte .& PTE_U) <>? 0) && ((status .& (1 << 18)) =? 0)) then false
  else if (pte .& PTE_A) =? 0 then false
  else
    match access with
    | Read => negb (((pte .& PTE_R) =? 0) &&
                    (((pte .& PTE_X) =? 0) || ((status .& (1 << 19)) =? 0)))
    | Write => negb (((pte .& PTE_W) =? 0) || ((pte .& PTE_D) =? 0))
    | Execute => negb ((pte .& PTE_X) =? 0)
    end.

(** * Reference definition of Sv39 *)

Definition pteV (pte : Z) : bool := Z.testbit pte 0.
Definition pteR (pte : Z) : bool := Z.testbit pte 1.
Definition pteW (pte : Z) : bool := Z.testbit pte 2.
Definition pteX (pte : Z) : bool := Z.testbit pte 3.
Definition pteU (pte : Z) : bool := Z.testbit pte 4.
Definition pteG (pte : Z) : bool := Z.testbit pte 5.
Definition pteA (pte : Z) : bool := Z.testbit pte 6.
Definition pteD (pte : Z) : bool := Z.testbit pte 7.
Definition ptePPN (pte : Z) : Z := pte / 2 ^ 10.

(** A leaf found by the walk: the 4 KiB physical page the virtual page falls
    in, the entry it comes from and whether an entry on the path is global. *)
Record leaf : Type := Leaf { leaf_ppn : Z; leaf_pte : Z; leaf_global : bool }.

Definition pte_address (table vpn level : Z) : Z :=
  u64 (table * 4096 + vpn / 2 ^ (9 * level) mod 2 ^ 9 * 8).

(** The walk of the privileged specification from the table [table] at
    [level] (2 is the root); [None] is a page fault. *)
Inductive sv39 (mem : Z -> Z) (vpn : Z) : Z -> Z -> bool -> option leaf -> Prop :=
| sv39_invalid level table g pte :
    pte = mem (pte_address table vpn level) ->
    pteV pte = false \/ (pteW pte = true /\ pteR pte = false) ->
    sv39 mem vpn level table g None
| sv39_pointer level table g pte res :
    pte = mem (pte_address table vpn level) ->
    pteV pte = true -> pteR pte = false -> pteW pte = false -> pteX pte = false ->
    0 < level ->
    sv39 mem vpn (level - 1) (ptePPN pte) (g || pteG pte) res ->
    sv39 mem vpn level table g res
| sv39_dangling table g pte :
    pte = mem (pte_address table vpn 0) ->
    pteV pte = true -> pteR pte = false -> pteW pte = false -> pteX pte = false ->
    sv39 mem vpn 0 table g None
| sv39_misaligned level table g pte :
    pte = mem (pte_address table vpn level) ->
    pteV pte = true -> (pteW pte = true -> pteR pte = true) ->
    pteR pte = true \/ pteX pte = true ->
    ptePPN pte mod 2 ^ (9 * level) <> 0 ->
    sv39 mem vpn level table g None
| sv39_leaf level table g pte :
    pte = mem (pte_address table vpn level) ->
    pteV pte = true -> (pteW pte = true -> pteR pte = true) ->
    pteR pte = true \/ pteX pte = true ->
    ptePPN pte mod 2 ^ (9 * level) = 0 ->
    sv39 mem vpn level table g
      (Some (Leaf (ptePPN pte + vpn mod 2 ^ (9 * level)) pte (g || pteG pte))).

(** The 4 KiB entry [walk_page] synthesizes for a leaf; 0 (an invalid entry)
    for a fault. *)
Definition leaf_entry (res : option leaf) : Z :=
  match res with
  | None => 0
  | Some l => leaf_ppn l * 2 ^ 10 + (leaf_pte l mod 2 ^ 10 .| (if leaf_global l then PTE_G else 0))
  end.

(** * Lemmas *)

Lemma rwx_field pte :
  pte .& (PTE_R .| PTE_W .| PTE_X)
  = Z.b2z (pteR pte) * 2 + Z.b2z (pteW pte) * 4 + Z.b2z (pteX pte) * 8.
Proof.
  change (PTE_R .| PTE_W .| PTE_X) with (2 ^ 1 .| 2 ^ 2 .| 2 ^ 3).
  rewrite !Z.land_lor_distr_r, !land_pow2 by lia. unfold pteR, pteW, pteX.
  destruct (Z.testbit pte 1), (Z.testbit pte 2), (Z.testbit pte 3); reflexivity.
Qed.

Lemma rwx_tests pte :
  let rwx := pte .& (PTE_R .| PTE_W .| PTE_X) in
  (rwx =? PTE_W) = negb (pteR pte) && pteW pte && negb (pteX pte) /\
  (rwx =? (PTE_W .| PTE_X)) = negb (pteR pte) && pteW pte && pteX pte /\
  (rwx =? 0) = negb (pteR pte) && negb (pteW pte) && negb (pteX pte).
Proof.
  cbv zeta. rewrite rwx_field.
  destruct (pteR pte), (pteW pte), (pteX pte); repeat split; reflexivity.
Qed.

Lemma vpn_canonical_spec vpn :
  in_u 52 vpn -> vpn_canonical vpn = true <-> vpn = wrap 52 (sext 27 vpn).
Proof.
  intros Hv. unfold vpn_canonical. rewrite Z.eqb_eq.
  replace (u64 (i64 (u64 (vpn << (64 - 27))) >> (64 - 27 - 12)) >> 12) with (wrap 52 (sext 27 vpn));
    [split; congruence|].
  rewrite !Z.shiftr_div_pow2, Z.shiftl_mul_pow2 by lia.
  unfold u64, i64, sext, wrap.
  repeat split_if; zbool; dlia.
Qed.

Lemma flag_set x k : 0 <= k -> ((x .& 2 ^ k) <>? 0) = Z.testbit x k.
Proof. intros. rewrite flag_clear, negb_involutive by assumption. reflexivity. Qed.

Section Walk.
Context (mem : Z -> Z) (vpn : Z).
Hypothesis Hmem : forall a, in_u 64 (mem a).
Hypothesis Hvpn : in_u 52 vpn.

Lemma index_address ppn level :
  in_u 54 ppn -> 0 <= level <= 2 ->
  u64 (u64 (ppn << 12) + ((vpn >> (9 * level)) .& 511) * 8) = pte_address ppn vpn level.
Proof.
  intros. unfold pte_address, u64, wrap. change 511 with (2 ^ 9 - 1).
  rewrite land_mask, Z.shiftr_div_pow2, Z.shiftl_mul_pow2 by lia.
  rewrite Zplus_mod_idemp_l. reflexivity.
Qed.

(** A leaf entry with the offset of the virtual page inside a large page. *)
Lemma leaf_entry_eq pte level (g : bool) :
  in_u 64 pte -> 0 <= level <= 2 -> ptePPN pte mod 2 ^ (9 * level) = 0 ->
  u64 ((pte >> 10 .| (vpn .& ((1 << (9 * level)) - 1))) << 10) .| (pte .& ((1 << 10) - 1))
    .| (if g then PTE_G else 0)
  = leaf_entry (Some (Leaf (ptePPN pte + vpn mod 2 ^ (9 * level)) pte g)).
Proof.
  intros Hp Hl Ha. unfold leaf_entry, ptePPN in *. cbn [leaf_ppn leaf_pte leaf_global].
  rewrite !Z.shiftl_1_l, !land_mask, Z.shiftr_div_pow2, Z.shiftl_mul_pow2 by lia.
  rewrite (lor_add (pte / 2 ^ 10) _ (9 * level)) by (try assumption; try lia;
    apply Z.mod_pos_bound, pow2_pos; lia).
  assert (in_u 54 (pte / 2 ^ 10 + vpn mod 2 ^ (9 * level))) as Hs.
  { assert (level = 0 \/ level = 1 \/ level = 2) as [-> | [-> | ->]] by lia; dlia. }
  unfold u64; rewrite wrap_id by dlia.
  rewrite <- Z.lor_assoc. apply (lor_add _ _ 10); [lia| |].
  - apply lor_in_u; [lia|dlia|destruct g; split; [discriminate|reflexivity|discriminate|reflexivity]].
  - apply Z.mod_mul. discriminate.
Qed.

Lemma large_page_test pte level :
  0 <= level -> (pte >> 10 .& ((1 << (9 * level)) - 1)) = ptePPN pte mod 2 ^ (9 * level).
Proof. intros. rewrite Z.shiftl_1_l, land_mask, Z.shiftr_div_pow2 by lia. reflexivity. Qed.

Definition walk_result (level table : Z) (g : bool) (r : WalkStep) : Prop :=
  let pte := mem (pte_address table vpn level) in
  match r with
  | Done e => exists res, sv39 mem vpn level table g res /\ e = leaf_entry res
  | Continue ppn g' =>
      pteV pte = true /\ pteR pte = false /\ pteW pte = false /\ pteX pte = false /\
      ppn = ptePPN pte /\ g' = (g || pteG pte)%bool
  end.

Lemma walk_level_spec i table g :
  0 <= i <= 2 -> in_u 54 table ->
  walk_result (2 - i) table g (walk_level mem vpn table g i).
Proof.
  intros Hi Ht. unfold walk_level, walk_result.
  replace (18 - i * 9) with (9 * (2 - i)) by lia.
  rewrite (index_address table (2 - i)) by (assumption || lia).
  set (pte := mem (pte_address table vpn (2 - i))).
  pose proof (Hmem (pte_address table vpn (2 - i)) : in_u 64 pte) as Hpte.
  change PTE_V with (2 ^ 0). change (pte .& PTE_G) with (pte .& 2 ^ 5).
  destruct (rwx_tests pte) as (-> & -> & ->).
  rewrite flag_clear, flag_set by lia. fold (pteV pte) (pteG pte).
  replace (if pteG pte then true else g) with (g || pteG pte)%bool
    by (destruct g, (pteG pte); reflexivity).
  destruct (pteV pte) eqn:EV; cbn [negb];
    [|exists None; split; [apply (sv39_invalid _ _ _ _ _ pte); auto|reflexivity]].
  destruct (pteR pte) eqn:ER, (pteW pte) eqn:EW, (pteX pte) eqn:EX; cbn [negb andb];
    try (exists None; split; [apply (sv39_invalid _ _ _ _ _ pte); auto|reflexivity]);
    try (repeat split; apply Z.shiftr_div_pow2; lia).
  all: rewrite (large_page_test pte (2 - i)) by lia;
    destruct (ptePPN pte mod 2 ^ (9 * (2 - i)) =? 0) eqn:Ea; cbn [negb]; zbool;
    [eexists; split; [apply (sv39_leaf _ _ _ _ _ pte); auto; congruence|]
    |exists None; split; [apply (sv39_misaligned _ _ _ _ _ pte); auto; congruence|reflexivity]].
  all: apply leaf_entry_eq; (assumption || lia).
Qed.

Lemma ppn_range pte : in_u 64 pte -> in_u 54 (ptePPN pte).
Proof. unfold ptePPN. dlia. Qed.

Lemma walk_loop_spec table :
  in_u 54 table ->
  exists res, sv39 mem vpn 2 table false res /\
              walk_loop mem vpn table false [0; 1; 2] = leaf_entry res.
Proof.
  intros Ht. cbn [walk_loop].
  pose proof (walk_level_spec 0 table false ltac:(lia) Ht) as H0.
  destruct (walk_level mem vpn table false 0) as [e|t1 g1]; [exact H0|].
  destruct H0 as (V0 & R0 & W0 & X0 & -> & ->). cbn [Z.sub] in *.
  pose proof (ppn_range _ (Hmem (pte_address table vpn 2))) as Hp.
  pose proof (walk_level_spec 1 _ (false || pteG (mem (pte_address table vpn 2))) ltac:(lia) Hp) as H1.
  destruct (walk_level _ _ _ _ 1) as [e|t1 g1].
  { destruct H1 as (res & H1 & ->). exists res. split; [|reflexivity].
    eapply sv39_pointer; eauto; lia. }
  destruct H1 as (V1 & R1 & W1 & X1 & -> & ->). cbn in *.
  pose proof (ppn_range _ (Hmem (pte_address (ptePPN (mem (pte_address table vpn 2))) vpn 1))) as Hp1.
  pose proof (walk_level_spec 2 _ (pteG (mem (pte_address table vpn 2)) ||
    pteG (mem (pte_address (ptePPN (mem (pte_address table vpn 2))) vpn 1))) ltac:(lia) Hp1) as H2.
  destruct (walk_level _ _ _ _ 2) as [e|t1 g1].
  - destruct H2 as (res & H2 & ->). exists res. split; [|reflexivity].
    eapply sv39_pointer; eauto; [lia|]. eapply sv39_pointer; eauto; lia.
  - destruct H2 as (V2 & R2 & W2 & X2 & -> & ->). exists None. split; [|reflexivity].
    eapply sv39_pointer; eauto; [lia|]. eapply sv39_pointer; eauto; [lia|].
    eapply sv39_dangling; eauto.
Qed.

End Walk.

(** The flags of a synthesized entry are those of the leaf it comes from. *)
Lemma leaf_entry_flags l k :
  in_u 64 (leaf_pte l) -> 0 <= k < 10 -> k <> 5 ->
  Z.testbit (leaf_entry (Some l)) k = Z.testbit (leaf_pte l) k.
Proof.
  intros Hl Hk H5. unfold leaf_entry.
  rewrite Z.add_comm, <- (lor_add_low _ (leaf_ppn l) 10) by
    first [lia | apply lor_in_u; [lia|dlia|destruct (leaf_global l);
       split; first [discriminate|reflexivity]]].
  rewrite !Z.lor_spec, Z.mul_pow2_bits_low, Z.mod_pow2_bits_low by lia.
  cbn [orb]. replace (Z.testbit (if leaf_global l then PTE_G else 0) k) with false;
    [rewrite !orb_false_r; reflexivity|].
  destruct (leaf_global l); [|symmetry; apply Z.bits_0].
  change PTE_G with (2 ^ 5). symmetry; apply Z.pow2_bits_false; lia.
Qed.

Lemma sv39_leaf_flags mem vpn level table g l :
  sv39 mem vpn level table g (Some l) ->
  pteV (leaf_pte l) = true /\ (pteW (leaf_pte l) = true -> pteR (leaf_pte l) = true).
Proof.
  remember (Some l) as res eqn:E. induction 1; try discriminate; auto.
  injection E as <-. auto.
Qed.

Lemma sv39_leaf_pte_in_u mem vpn level table g l :
  (forall a, in_u 64 (mem a)) ->
  sv39 mem vpn level table g (Some l) -> in_u 64 (leaf_pte l).
Proof.
  intros Hm. remember (Some l) as res eqn:E. induction 1; try discriminate; auto.
  injection E as <-. subst pte. apply Hm.
Qed.

Lemma walk_page_cases satp vpn mem :
  (forall a, in_u 64 (mem a)) -> in_u 52 vpn ->
  walk_page satp vpn mem = 0 \/
  exists l, sv39 mem vpn 2 (satp mod 2 ^ 44) false (Some l) /\
            walk_page satp vpn mem = leaf_entry (Some l).
Proof.
  intros Hm Hv. unfold walk_page. rewrite Z.shiftl_1_l, land_mask by lia.
  destruct (vpn_canonical vpn); [cbn [negb]|left; reflexivity].
  destruct (walk_loop_spec mem vpn Hm Hv (satp mod 2 ^ 44)) as ([l|] & Hs & ->); [dlia| |].
  - right. exists l. auto.
  - left. reflexivity.
Qed.

Lemma check_permission_bits pte access prv status :
  check_permission pte access prv status =
  pteV pte && (if prv =? 0 then pteU pte else negb (pteU pte) || Z.testbit status 18)
  && pteA pte &&
  match access with
  | Read => pteR pte || (pteX pte && Z.testbit status 19)
  | Write => pteW pte && pteD pte
  | Execute => pteX pte
  end.
Proof.
  unfold check_permission. rewrite !Z.shiftl_1_l.
  change PTE_V with (2 ^ 0). change PTE_R with (2 ^ 1). change PTE_W with (2 ^ 2).
  change PTE_X with (2 ^ 3). change PTE_U with (2 ^ 4). change PTE_A with (2 ^ 6).
  change PTE_D with (2 ^ 7).
  rewrite !flag_clear by lia. fold (pteV pte) (pteR pte) (pteW pte) (pteX pte) (pteU pte)
    (pteA pte) (pteD pte).
  destruct (prv =? 0), access, (pteV pte), (pteU pte), (pteA pte), (pteR pte), (pteX pte),
    (pteW pte), (pteD pte), (Z.testbit status 18), (Z.testbit status 19); reflexivity.
Qed.

(** * Theorems *)

(** C6. Refinement: on a canonical page number [walk_page] computes the result
    of the Sv39 walk of the privileged specification, a page fault being the
    invalid entry 0; a page number that is not the sign extension of its low
    27 bits faults. *)
Theorem walk_page_sv39 satp vpn mem :
  (forall a, in_u 64 (mem a)) -> in_u 52 vpn ->
  (vpn = wrap 52 (sext 27 vpn) ->
     exists res, sv39 mem vpn 2 (satp mod 2 ^ 44) false res /\
                 walk_page satp vpn mem = leaf_entry res) /\
  (vpn <> wrap 52 (sext 27 vpn) -> walk_page satp vpn mem = 0).
Proof.
  intros Hm Hv. pose proof (vpn_canonical_spec vpn Hv) as Hc. unfold walk_page.
  rewrite Z.shiftl_1_l, land_mask by lia. split; intros Hcan.
  - rewrite (proj2 Hc Hcan). apply walk_loop_spec; [assumption|assumption|dlia].
  - destruct (vpn_canonical vpn); [tauto|reflexivity].
Qed.

(** A two-level table: the root maps its entry 0 to the table at page 2, whose
    entry 0 is a 2 MiB page. *)
Definition sample_table (a : Z) : Z :=
  if a =? 0x1000 then 0x801 else if a =? 0x2000 then 0x200000cf else 0.

Lemma sample_table_in_u a : in_u 64 (sample_table a).
Proof. unfold sample_table. repeat split_if; split; first [discriminate|reflexivity]. Qed.

Lemma walk_page_sv39_witness :
  walk_page (8 * 2 ^ 60 + 1) 5 sample_table = 0x200014cf /\
  exists res, sv39 sample_table 5 2 ((8 * 2 ^ 60 + 1) mod 2 ^ 44) false res /\
              walk_page (8 * 2 ^ 60 + 1) 5 sample_table = leaf_entry res.
Proof.
  split; [reflexivity|].
  apply (walk_page_sv39 (8 * 2 ^ 60 + 1) 5 sample_table); [exact sample_table_in_u| |reflexivity].
  split; [discriminate|reflexivity].
Defined.

(** Write permission implies read permission on every entry the walk
    returns (a writable page that is not readable is rejected by the walk).
    The L0 data cache relies on it: a line inserted by a write also serves
    reads, without a second check. *)
Theorem write_implies_read satp vpn mem prv status :
  (forall a, in_u 64 (mem a)) -> in_u 52 vpn ->
  check_permission (walk_page satp vpn mem) Write prv status = true ->
  check_permission (walk_page satp vpn mem) Read prv status = true.
Proof.
  intros Hm Hv. destruct (walk_page_cases satp vpn mem Hm Hv) as [-> | (l & Hl & ->)];
    [discriminate|].
  rewrite !check_permission_bits.
  destruct (sv39_leaf_flags _ _ _ _ _ _ Hl) as [_ HW].
  pose proof (sv39_leaf_pte_in_u _ _ _ _ _ _ Hm Hl) as Hu.
  unfold pteR, pteW in *. rewrite !(leaf_entry_flags l) by (assumption || lia).
  intros H. zbool. rewrite HW by assumption.
  repeat match goal with E : _ = true |- _ => rewrite E; clear E end. reflexivity.
Qed.

Lemma write_implies_read_witness :
  check_permission (walk_page (8 * 2 ^ 60 + 1) 5 sample_table) Write 1 0 = true /\
  check_permission (walk_page (8 * 2 ^ 60 + 1) 5 sample_table) Read 1 0 = true.
Proof.
  split; [reflexivity|].
  apply write_implies_read; [exact sample_table_in_u| |reflexivity].
  split; [discriminate|reflexivity].
Defined.

(** The supervisor may execute user pages when SUM is set: the permission
    check treats instruction fetches like data accesses, while the privileged
    specification forbids them whatever SUM is. *)
Theorem supervisor_executes_user_page pte prv status :
  prv <> 0 ->
  pteV pte = true -> pteU pte = true -> pteA pte = true -> pteX pte = true ->
  check_permission pte Execute prv status = Z.testbit status 18.
Proof.
  intros Hp HV HU HA HX. rewrite check_permission_bits, HV, HU, HA, HX.
  apply Z.eqb_neq in Hp. rewrite Hp. cbn [andb orb negb]. rewrite !andb_true_r. reflexivity.
Qed.

Lemma supervisor_executes_user_page_witness :
  check_permission 0x59 Execute 1 (2 ^ 18) = true.
Proof. apply (supervisor_executes_user_page 0x59 1 (2 ^ 18)); first [discriminate|reflexivity]. Defined.
