(* ===== verification/Softfp.v ===== *)
(** The software floating point of lib/softfp/src/fp.rs (with the integer
    traits of lib/softfp/src/int.rs), generic in the format like the source.

    A value of [Fp<Desc>] is its bit pattern, a [Z] below [2 ^ HOLDER].  The
    integer types are modelled at their width: [wrap HOLDER] is the arithmetic
    of [Desc::Holder], and a function generic in an integer type [T: UInt]
    takes the width of [T] as an argument.  Exponents ([i32]) and shift amounts
    ([u32]) are plain [Z]. *)

From Stdlib Require Import ZArith Lia Bool List.
From S2P Require Import Prelude.
Local Open Scope Z_scope.
Local Open Scope rust_scope.

(** ** Rounding modes, exception flags, classes *)

Inductive RoundingMode : Type :=
| TiesToEven | TowardZero | TowardNegative | TowardPositive | TiesToAway.

(** [RoundingMode as u32] and [TryFrom<u32> for RoundingMode]. *)
Definition rm_code (rm : RoundingMode) : Z :=
  match rm with
  | TiesToEven => 0 | TowardZero => 1 | TowardNegative => 2 | TowardPositive => 3
  | TiesToAway => 4
  end.

Definition rm_try_from (value : Z) : option RoundingMode :=
  match value with
  | 0 => Some TiesToEven
  | 1 => Some TowardZero
  | 2 => Some TowardNegative
  | 3 => Some TowardPositive
  | 4 => Some TiesToAway
  | _ => None
  end.

Definition rm_eqb (a b : RoundingMode) : bool := rm_code a =? rm_code b.

(** [bitflags! struct ExceptionFlags: u32] *)
Definition INEXACT : Z := 1.
Definition UNDERFLOW : Z := 2.
Definition OVERFLOW : Z := 4.
Definition DIVIDE_BY_ZERO : Z := 8.
Definition INVALID_OPERATION : Z := 16.

(** [enum Class], by the number [fclass] shifts by. *)
Inductive Class : Type :=
| NegativeInfinity | NegativeNormal | NegativeSubnormal | NegativeZero
| PositiveZero | PositiveSubnormal | PositiveNormal | PositiveInfinity
| SignalingNan | QuietNan.

Definition class_code (c : Class) : Z :=
  match c with
  | NegativeInfinity => 0 | NegativeNormal => 1 | NegativeSubnormal => 2
  | NegativeZero => 3 | PositiveZero => 4 | PositiveSubnormal => 5
  | PositiveNormal => 6 | PositiveInfinity => 7 | SignalingNan => 8 | QuietNan => 9
  end.

Definition class_try_from (value : Z) : option Class :=
  match value with
  | 0 => Some NegativeInfinity | 1 => Some NegativeNormal | 2 => Some NegativeSubnormal
  | 3 => Some NegativeZero | 4 => Some PositiveZero | 5 => Some PositiveSubnormal
  | 6 => Some PositiveNormal | 7 => Some PositiveInfinity | 8 => Some SignalingNan
  | 9 => Some QuietNan
  | _ => None
  end.

(** ** Effects

    The operations read the rounding mode and accumulate exception flags
    through two registered callbacks ([get_rounding_mode] and
    [set_exception_flag]), and may panic ([None]). *)

Definition FpM (A : Type) : Type := RoundingMode -> Z -> option (A * Z).

Definition ret {A} (a : A) : FpM A := fun _ flags => Some (a, flags).
Definition panic {A} : FpM A := fun _ _ => None.
Definition bind {A B} (m : FpM A) (k : A -> FpM B) : FpM B :=
  fun rm flags =>
    match m rm flags with
    | Some (a, flags) => k a rm flags
    | None => None
    end.

Definition get_rounding_mode : FpM RoundingMode := fun rm flags => Some (rm, flags).
Definition set_exception_flag (flag : Z) : FpM unit :=
  fun _ flags => Some (tt, flags .| flag).

Definition unwrap {A} (o : option A) : FpM A :=
  match o with Some a => ret a | None => panic end.

Declare Scope fp_scope.
Delimit Scope fp_scope with fp.
Notation "'let!' x ':=' m 'in' k" := (bind m (fun x => k))
  (at level 10, x pattern, m at level 100, k at level 200) : fp_scope.
Notation "m ;; k" := (bind m (fun _ => k))
  (at level 100, k at level 200, right associativity) : fp_scope.
Local Open Scope fp_scope.

(** ** Formats *)

(** [trait FpDesc]; [HOLDER] and [DOUBLE] are the widths of the associated
    types [Holder] and [DoubleHolder]. *)
Class FpDesc : Type := {
  EXPONENT_WIDTH : Z;
  SIGNIFICAND_WIDTH : Z;
  HOLDER : Z;
  DOUBLE : Z;
}.

Definition F32Desc : FpDesc :=
  {| EXPONENT_WIDTH := 8; SIGNIFICAND_WIDTH := 23; HOLDER := 32; DOUBLE := 64 |}.

Definition F64Desc : FpDesc :=
  {| EXPONENT_WIDTH := 11; SIGNIFICAND_WIDTH := 52; HOLDER := 64; DOUBLE := 128 |}.

(** [UInt::log2_floor]: [bit_width - 1 - leading_zeros], which wraps on zero. *)
Definition log2_floor (self : Z) : Z := if self =? 0 then u32 (-1) else Z.log2 self.

Module Fp.
Section Fp.
Context {Desc : FpDesc}.

Definition INFINITY_BIASED_EXPONENT : Z := (1 << EXPONENT_WIDTH) - 1.
Definition MAXIMUM_BIASED_EXPONENT : Z := INFINITY_BIASED_EXPONENT - 1.
Definition EXPONENT_BIAS : Z := (1 << (EXPONENT_WIDTH - 1)) - 1.
Definition MINIMUM_EXPONENT : Z := 1 - EXPONENT_BIAS.
Definition MAXIMUM_EXPONENT : Z := MAXIMUM_BIASED_EXPONENT - EXPONENT_BIAS.

(** ** Component accessors *)

Definition sign (self : Z) : bool := (self >> (EXPONENT_WIDTH + SIGNIFICAND_WIDTH)) <>? 0.

Definition set_sign (self : Z) (sign : bool) : Z :=
  let mask := 1 << (EXPONENT_WIDTH + SIGNIFICAND_WIDTH) in
  if sign then self .| mask else self .& Z.lnot mask.

Definition biased_exponent (self : Z) : Z :=
  let mask := (1 << EXPONENT_WIDTH) - 1 in
  u32 ((self >> SIGNIFICAND_WIDTH) .& mask).

Definition set_biased_exponent (self exp : Z) : Z :=
  let mask := ((1 << EXPONENT_WIDTH) - 1) << SIGNIFICAND_WIDTH in
  (self .& Z.lnot mask) .| (wrap HOLDER (exp << SIGNIFICAND_WIDTH) .& mask).

Definition trailing_significand (self : Z) : Z :=
  let mask := (1 << SIGNIFICAND_WIDTH) - 1 in self .& mask.

Definition set_trailing_significand (self value : Z) : Z :=
  let mask := (1 << SIGNIFICAND_WIDTH) - 1 in
  (self .& Z.lnot mask) .| (value .& mask).

(** ** Special constants *)

Definition quiet_nan : Z :=
  let value := 0 in
  let value := set_biased_exponent value INFINITY_BIASED_EXPONENT in
  set_trailing_significand value (1 << (SIGNIFICAND_WIDTH - 1)).

Definition infinity (sign : bool) : Z :=
  let value := set_sign 0 sign in
  set_biased_exponent value INFINITY_BIASED_EXPONENT.

Definition zero (sign : bool) : Z := set_sign 0 sign.

(** ** Classification *)

Definition is_normal (self : Z) : bool :=
  let exponent := biased_exponent self in
  (exponent <>? 0) && (exponent <>? INFINITY_BIASED_EXPONENT).

Definition is_finite (self : Z) : bool := biased_exponent self <>? INFINITY_BIASED_EXPONENT.

Definition is_zero (self : Z) : bool :=
  (biased_exponent self =? 0) && (trailing_significand self =? 0).

Definition is_subnormal (self : Z) : bool :=
  (biased_exponent self =? 0) && (trailing_significand self <>? 0).

Definition is_infinite (self : Z) : bool :=
  (biased_exponent self =? INFINITY_BIASED_EXPONENT) && (trailing_significand self =? 0).

Definition is_nan (self : Z) : bool :=
  (biased_exponent self =? INFINITY_BIASED_EXPONENT) && (trailing_significand self <>? 0).

Definition is_signaling (self : Z) : bool :=
  if biased_exponent self <>? INFINITY_BIASED_EXPONENT then false
  else
    let t := trailing_significand self in
    if t =? 0 then false
    else (t .& (1 << (SIGNIFICAND_WIDTH - 1))) =? 0.

Definition classify (self : Z) : FpM Class :=
  let sign := sign self in
  let exponent := biased_exponent self in
  let significand := trailing_significand self in
  let signed positive_class :=
    unwrap (class_try_from (if sign : bool then 7 - positive_class else positive_class)) in
  if exponent =? 0 then
    if significand =? 0 then signed (class_code PositiveZero)
    else signed (class_code PositiveSubnormal)
  else if exponent =? INFINITY_BIASED_EXPONENT then
    if significand =? 0 then signed (class_code PositiveInfinity)
    else if (significand .& (1 << (SIGNIFICAND_WIDTH - 1))) =? 0 then ret SignalingNan
    else ret QuietNan
  else signed (class_code PositiveNormal).

(** ** Shifting and rounding helpers *)

(** [right_shift<T>]: the last bit of the result is the OR of the bits shifted
    out; [tw] is the width of [T]. *)
Definition right_shift (tw significand shift_amount : Z) : Z :=
  let '(value, residue) :=
    if tw <=? shift_amount then (0, significand)
    else (significand >> shift_amount,
          significand .& (wrap tw (1 << shift_amount) - 1)) in
  if residue <>? 0 then value .| 1 else value.

(** [normalize<T>] *)
Definition normalize (tw exponent significand : Z) : Z * Z :=
  let width := log2_floor significand - 2 in
  let width_diff := width - SIGNIFICAND_WIDTH in
  let exponent := exponent + width_diff in
  let significand :=
    if width_diff <=? 0
    then wrap HOLDER (wrap HOLDER significand << (- width_diff))
    else wrap HOLDER (right_shift tw significand width_diff) in
  (exponent, significand).

Definition round_significand (sign : bool) (significand : Z) : FpM (bool * Z) :=
  if (significand .& 3) <>? 0 then
    let! rm := get_rounding_mode in
    let significand :=
      match rm with
      | TiesToEven => wrap HOLDER (significand + (((significand >> 2) .& 1) + 1))
      | TowardZero => significand
      | TowardNegative => if sign then wrap HOLDER (significand + 3) else significand
      | TowardPositive => if negb sign then wrap HOLDER (significand + 3) else significand
      | TiesToAway => wrap HOLDER (significand + 2)
      end in
    ret (true, significand >> 2)
  else ret (false, significand >> 2).

Definition round_overflow (sign : bool) : FpM Z :=
  set_exception_flag (OVERFLOW .| INEXACT) ;;
  let value := infinity sign in
  let! rm := get_rounding_mode in
  if (sign && rm_eqb rm TowardPositive) || (negb sign && rm_eqb rm TowardNegative)
     || rm_eqb rm TowardZero
  then ret (wrap HOLDER (value - 1))
  else ret value.

(** [if cond { set_exception_flag(flag) }] *)
Definition flag_if (cond : bool) (flag : Z) : FpM unit :=
  if cond then set_exception_flag flag else ret tt.

Definition round (sgn : bool) (exponent significand : Z) : FpM Z :=
  if MAXIMUM_EXPONENT <? exponent then round_overflow sgn
  else
    let value := set_sign 0 sgn in
    let rounded := significand in
    let rounded :=
      if exponent <? MINIMUM_EXPONENT
      then right_shift HOLDER rounded (MINIMUM_EXPONENT - exponent)
      else rounded in
    let! (inexact, rounded) := round_significand sgn rounded in
    flag_if inexact INEXACT ;;
    let '(exponent, rounded) :=
      if inexact && (rounded =? (1 << (SIGNIFICAND_WIDTH + 1)))
      then (exponent + 1, rounded >> 1)
      else (exponent, rounded) in
    if exponent <? MINIMUM_EXPONENT then
      if rounded =? (1 << SIGNIFICAND_WIDTH) then
        let! (_, unbounded) := round_significand sgn significand in
        flag_if (unbounded <>? (1 << (SIGNIFICAND_WIDTH + 1))) UNDERFLOW ;;
        ret (set_trailing_significand (set_biased_exponent value 1) 0)
      else
        flag_if inexact UNDERFLOW ;;
        ret (set_trailing_significand (set_biased_exponent value 0) rounded)
    else if MAXIMUM_EXPONENT <? exponent then round_overflow sgn
    else
      ret (set_trailing_significand
             (set_biased_exponent value (u32 (exponent + EXPONENT_BIAS))) rounded).

Definition normalize_and_round (tw : Z) (sgn : bool) (exponent significand : Z) : FpM Z :=
  let '(exponent, final_significand) := normalize tw exponent significand in
  round sgn exponent final_significand.

Definition propagate_nan (a b : Z) : FpM Z :=
  flag_if (is_signaling a || is_signaling b) INVALID_OPERATION ;;
  ret quiet_nan.

Definition cancellation_zero : FpM Z :=
  let! rm := get_rounding_mode in
  ret (zero (rm_eqb rm TowardNegative)).

Definition get_normalized_significand (self : Z) : FpM (Z * Z) :=
  let biased := biased_exponent self in
  let trailing := trailing_significand self in
  if (biased =? INFINITY_BIASED_EXPONENT) || ((biased =? 0) && (trailing =? 0)) then panic
  else if biased =? 0 then
    let width_diff := SIGNIFICAND_WIDTH - log2_floor trailing in
    ret (MINIMUM_EXPONENT - width_diff, wrap HOLDER (trailing << (width_diff + 2)))
  else
    let exponent := biased - EXPONENT_BIAS in
    let significand := trailing .| (1 << SIGNIFICAND_WIDTH) in
    ret (exponent, wrap HOLDER (significand << 2)).

Definition get_significand (self : Z) : FpM (Z * Z) :=
  let biased := biased_exponent self in
  let trailing := trailing_significand self in
  if biased =? INFINITY_BIASED_EXPONENT then panic
  else if biased =? 0 then ret (MINIMUM_EXPONENT, wrap HOLDER (trailing << 2))
  else
    let exponent := biased - EXPONENT_BIAS in
    let significand := trailing .| (1 << SIGNIFICAND_WIDTH) in
    ret (exponent, wrap HOLDER (significand << 2)).

(** ** Sign operations *)

Definition abs (self : Z) : Z := set_sign self false.
Definition negate (self : Z) : Z := set_sign self (negb (sign self)).
Definition copy_sign (self another : Z) : Z := set_sign self (sign another).
Definition copy_sign_negated (self another : Z) : Z := set_sign self (negb (sign another)).
Definition copy_sign_xored (self another : Z) : Z :=
  set_sign self (xorb (sign self) (sign another)).

(** ** Comparison *)

Definition total_order_magnitude (a b : Z) : comparison :=
  let a := set_sign a false in
  let b := set_sign b false in
  (a ?= b).

Definition total_order (a b : Z) : comparison :=
  if Bool.eqb (sign a) (sign b) then
    let ret := total_order_magnitude a b in
    if sign a then CompOpp ret else ret
  else if sign a then Lt
  else Gt.

Definition is_less (c : comparison) : bool := match c with Lt => true | _ => false end.

Definition min_max (a b : Z) : FpM (Z * Z) :=
  if is_nan a || is_nan b then
    if is_signaling a || is_signaling b then
      set_exception_flag INVALID_OPERATION ;;
      ret (quiet_nan, quiet_nan)
    else if is_nan a then
      if is_nan b then ret (quiet_nan, quiet_nan) else ret (b, b)
    else ret (a, a)
  else if is_less (total_order a b) then ret (a, b) else ret (b, a).

Definition min (a b : Z) : FpM Z := let! (x, _) := min_max a b in ret x.
Definition max (a b : Z) : FpM Z := let! (_, x) := min_max a b in ret x.

Definition compare_quiet (a b : Z) : option comparison :=
  if is_nan a || is_nan b then None
  else if is_zero a && is_zero b then Some Eq
  else Some (total_order a b).

Definition compare_signaling (a b : Z) : FpM (option comparison) :=
  if is_nan a || is_nan b then set_exception_flag INVALID_OPERATION ;; ret None
  else if is_zero a && is_zero b then ret (Some Eq)
  else ret (Some (total_order a b)).

(** [PartialEq] is [compare_quiet], [PartialOrd] is [compare_signaling]. *)
Definition fp_eq (a b : Z) : bool :=
  match compare_quiet a b with Some Eq => true | _ => false end.

Definition fp_lt (a b : Z) : FpM bool :=
  let! c := compare_signaling a b in
  ret (match c with Some Lt => true | _ => false end).

Definition fp_le (a b : Z) : FpM bool :=
  let! c := compare_signaling a b in
  ret (match c with Some Lt | Some Eq => true | _ => false end).

(** ** Arithmetic *)

(** [a] and [b] have the same sign, [a] the greater magnitude. *)
Definition add_magnitude (a b : Z) : FpM Z :=
  if is_infinite a then ret a
  else if biased_exponent a =? 0 then
    let significand_sum := wrap HOLDER (trailing_significand a + trailing_significand b) in
    ret (set_sign significand_sum (sign a))
  else
    let! (exponent_a, significand_a) := get_significand a in
    let! (exponent_b, significand_b) := get_significand b in
    let significand_b :=
      if exponent_a <>? exponent_b
      then right_shift HOLDER significand_b (u32 (exponent_a - exponent_b))
      else significand_b in
    let significand_sum := wrap HOLDER (significand_a + significand_b) in
    let '(exponent_a, significand_sum) :=
      if (significand_sum .& (1 << (SIGNIFICAND_WIDTH + 3))) <>? 0
      then (exponent_a + 1, right_shift HOLDER significand_sum 1)
      else (exponent_a, significand_sum) in
    round (sign a) exponent_a significand_sum.

Definition subtract_magnitude (a b : Z) : FpM Z :=
  if is_infinite a then
    if is_infinite b then set_exception_flag INVALID_OPERATION ;; ret quiet_nan
    else ret a
  else
    let! (exponent_a, significand_a) := get_significand a in
    let! (exponent_b, significand_b) := get_significand b in
    if exponent_a =? exponent_b then
      let significand_difference := wrap HOLDER (significand_a - significand_b) in
      if significand_difference =? 0 then cancellation_zero
      else normalize_and_round HOLDER (sign a) exponent_a significand_difference
    else
      let significand_a := wrap HOLDER (significand_a << 1) in
      let significand_b := wrap HOLDER (significand_b << 1) in
      let significand_b := right_shift HOLDER significand_b (u32 (exponent_a - exponent_b)) in
      let significand_difference := wrap HOLDER (significand_a - significand_b) in
      normalize_and_round HOLDER (sign a) (exponent_a - 1) significand_difference.

(** [ops::Add::add], [ops::Sub::sub] *)
Definition add (self rhs : Z) : FpM Z :=
  let '(a, b) :=
    if is_less (total_order_magnitude self rhs) then (rhs, self) else (self, rhs) in
  if is_nan a then propagate_nan a b
  else if Bool.eqb (sign a) (sign b) then add_magnitude a b
  else subtract_magnitude a (negate b).

Definition sub (self rhs : Z) : FpM Z := add self (negate rhs).

Definition multiply (a b : Z) : FpM Z :=
  let '(a, b) := if is_less (total_order_magnitude a b) then (b, a) else (a, b) in
  if is_nan a then propagate_nan a b
  else
    let sgn := xorb (sign a) (sign b) in
    if is_infinite a then
      if is_zero b then set_exception_flag INVALID_OPERATION ;; ret quiet_nan
      else ret (set_sign a sgn)
    else if is_zero b then ret (set_sign b sgn)
    else
      let! (exponent_a, significand_a) := get_normalized_significand a in
      let! (exponent_b, significand_b) := get_normalized_significand b in
      let product_exponent := exponent_a + exponent_b - SIGNIFICAND_WIDTH in
      let product := wrap DOUBLE ((significand_a >> 2) * significand_b) in
      normalize_and_round DOUBLE sgn product_exponent product.

(** The digit loop of [divide], [while bit != 1]; [None] when [fuel] iterations
    do not end it. *)
Fixpoint divide_loop (fuel : nat) (significand_b bit quotient remainder_over_bit : Z)
  : option (Z * Z) :=
  if bit =? 1 then Some (quotient, remainder_over_bit)
  else
    match fuel with
    | O => None
    | S fuel =>
        let '(remainder_over_bit, quotient) :=
          if significand_b <=? remainder_over_bit
          then (remainder_over_bit - significand_b, wrap HOLDER (quotient + bit))
          else (remainder_over_bit, quotient) in
        divide_loop fuel significand_b (bit >> 1) quotient
          (wrap HOLDER (remainder_over_bit << 1))
    end.

Definition divide (a b : Z) : FpM Z :=
  if is_nan a || is_nan b then propagate_nan a b
  else
    let sgn := xorb (sign a) (sign b) in
    if is_infinite a then
      if is_infinite b then set_exception_flag INVALID_OPERATION ;; ret quiet_nan
      else ret (infinity sgn)
    else if is_infinite b then ret (zero sgn)
    else if is_zero a then
      if is_zero b then set_exception_flag INVALID_OPERATION ;; ret quiet_nan
      else ret (zero sgn)
    else if is_zero b then set_exception_flag DIVIDE_BY_ZERO ;; ret (infinity sgn)
    else
      let! (exponent_a, significand_a) := get_normalized_significand a in
      let! (exponent_b, significand_b) := get_normalized_significand b in
      let quotient_exponent := exponent_a - exponent_b in
      let '(significand_a, quotient_exponent) :=
        if significand_a <? significand_b
        then (wrap HOLDER (significand_a << 1), quotient_exponent - 1)
        else (significand_a, quotient_exponent) in
      let quotient := 1 << (SIGNIFICAND_WIDTH + 2) in
      let bit := 1 << (SIGNIFICAND_WIDTH + 1) in
      let remainder_over_bit := wrap HOLDER (wrap HOLDER (significand_a - significand_b) << 1) in
      let! (quotient, remainder_over_bit) :=
        unwrap (divide_loop (Z.to_nat HOLDER) significand_b bit quotient remainder_over_bit) in
      let quotient := if remainder_over_bit <>? 0 then quotient .| 1 else quotient in
      round sgn quotient_exponent quotient.

(** The digit loop of [square_root], [while half_bit != 0]; [rest] is
    [half_significand_minus_result_squared_over_bit]. *)
Fixpoint square_root_loop (fuel : nat) (half_bit result rest : Z) : option (Z * Z) :=
  if half_bit =? 0 then Some (result, rest)
  else
    match fuel with
    | O => None
    | S fuel =>
        let '(rest, result) :=
          if wrap HOLDER (result + half_bit) <=? rest
          then (rest - wrap HOLDER (result + half_bit),
                wrap HOLDER (result + wrap HOLDER (half_bit << 1)))
          else (rest, result) in
        square_root_loop fuel (half_bit >> 1) result (wrap HOLDER (rest << 1))
    end.

Definition square_root (self : Z) : FpM Z :=
  if is_nan self then
    if is_signaling self then set_exception_flag DIVIDE_BY_ZERO ;; ret quiet_nan
    else ret quiet_nan
  else if is_zero self then ret self
  else if sign self then set_exception_flag INVALID_OPERATION ;; ret quiet_nan
  else if is_infinite self then ret self
  else
    let! (exponent, significand) := get_normalized_significand self in
    let '(exponent, significand) :=
      if Z.rem exponent 2 <>? 0
      then (exponent - 1, wrap HOLDER (significand << 1))
      else (exponent, significand) in
    let result := 1 << (SIGNIFICAND_WIDTH + 2) in
    let half_bit := 1 << SIGNIFICAND_WIDTH in
    let! (result, rest) :=
      unwrap (square_root_loop (Z.to_nat HOLDER) half_bit result
                (wrap HOLDER (significand - result))) in
    let result := if rest <>? 0 then result .| 1 else result in
    round false (Z.quot exponent 2) result.

Definition fused_multiply_add (a b c : Z) : FpM Z :=
  let '(a, b) := if is_less (total_order_magnitude a b) then (b, a) else (a, b) in
  if is_nan a then
    let! ab := propagate_nan a b in propagate_nan ab c
  else
    let sign_product := xorb (sign a) (sign b) in
    if is_infinite a then
      if is_zero b then set_exception_flag INVALID_OPERATION ;; ret quiet_nan
      else if is_nan c then propagate_nan c c
      else if is_infinite c && negb (Bool.eqb (sign c) sign_product)
      then set_exception_flag INVALID_OPERATION ;; ret quiet_nan
      else ret (infinity sign_product)
    else if is_nan c then propagate_nan c c
    else if is_infinite c then ret c
    else if is_zero b then
      if is_zero c then cancellation_zero else ret c
    else
      let! (exponent_a, significand_a) := get_normalized_significand a in
      let! (exponent_b, significand_b) := get_normalized_significand b in
      let product_exponent := exponent_a + exponent_b - SIGNIFICAND_WIDTH in
      let product := wrap DOUBLE ((significand_a >> 2) * significand_b) in
      if is_zero c then normalize_and_round DOUBLE sign_product product_exponent product
      else
        let! (exponent_c, significand_c) := get_normalized_significand c in
        let exponent_c := exponent_c - SIGNIFICAND_WIDTH in
        let significand_c := wrap DOUBLE (significand_c << SIGNIFICAND_WIDTH) in
        let '(product_exponent, product, significand_c) :=
          if exponent_c <? product_exponent then
            (product_exponent, product,
             right_shift DOUBLE significand_c (u32 (product_exponent - exponent_c)))
          else if product_exponent <? exponent_c then
            (exponent_c, right_shift DOUBLE product (u32 (exponent_c - product_exponent)),
             significand_c)
          else (product_exponent, product, significand_c) in
        if Bool.eqb (sign c) sign_product then
          normalize_and_round DOUBLE sign_product product_exponent
            (wrap DOUBLE (product + significand_c))
        else if product =? significand_c then cancellation_zero
        else if product <? significand_c then
          normalize_and_round DOUBLE (negb sign_product) product_exponent
            (wrap DOUBLE (significand_c - product))
        else
          normalize_and_round DOUBLE sign_product product_exponent
            (wrap DOUBLE (product - significand_c)).

(** ** Conversions; [tw] is the width of the integer type [T] *)

Definition convert_from_int_with_sign (tw : Z) (sgn : bool) (value : Z) : FpM Z :=
  if value =? 0 then ret (zero false)
  else normalize_and_round tw sgn (SIGNIFICAND_WIDTH + 2) value.

Definition convert_from_uint (tw value : Z) : FpM Z :=
  convert_from_int_with_sign tw false value.

Definition convert_from_sint (tw value : Z) : FpM Z :=
  if (value >> (tw - 1)) <>? 0 then
    let abs := wrap tw (Z.lnot value + 1) in
    convert_from_int_with_sign tw true abs
  else convert_from_int_with_sign tw false value.

Definition convert_to_int (tw self positive_max negative_max : Z) : FpM (bool * Z) :=
  if is_nan self then set_exception_flag INVALID_OPERATION ;; ret (false, positive_max)
  else
    let sgn := sign self in
    let max := if sgn then negative_max else positive_max in
    if is_infinite self then set_exception_flag INVALID_OPERATION ;; ret (sgn, max)
    else if is_zero self then ret (false, 0)
    else
      let! (exponent, significand) := get_normalized_significand self in
      let effective_exponent := exponent - SIGNIFICAND_WIDTH in
      if effective_exponent <? 0 then
        let significand := right_shift HOLDER significand (- effective_exponent) in
        let! (inexact, significand) := round_significand sgn significand in
        if significand =? 0 then set_exception_flag INEXACT ;; ret (false, 0)
        else if (significand <? 2 ^ tw) && (significand <=? max) then
          flag_if inexact INEXACT ;; ret (sgn, significand)
        else set_exception_flag INVALID_OPERATION ;; ret (sgn, max)
      else
        let significand := significand >> 2 in
        let remaining_bits := tw - SIGNIFICAND_WIDTH + 1 in
        if (remaining_bits <? 0) || (remaining_bits <? effective_exponent) then
          set_exception_flag INVALID_OPERATION ;; ret (sgn, max)
        else
          let result := wrap tw (wrap tw significand << effective_exponent) in
          if max <? result then set_exception_flag INVALID_OPERATION ;; ret (sgn, max)
          else ret (sgn, result).

Definition convert_to_uint (tw self : Z) : FpM Z :=
  let max := 2 ^ tw - 1 in
  let! (_, value) := convert_to_int tw self max 0 in
  ret value.

Definition convert_to_sint (tw self : Z) : FpM Z :=
  let max := (2 ^ tw - 1) >> 1 in
  let min := wrap tw (Z.lnot max) in
  let! (sgn, value) := convert_to_int tw self max min in
  ret (if sgn then wrap tw (Z.lnot value + 1) else value).

End Fp.

(** [Fp<Desc>::convert_format<TDesc>] *)
Definition convert_format (Desc TDesc : FpDesc) (self : Z) : FpM Z :=
  if is_nan (Desc := Desc) self then
    flag_if (is_signaling (Desc := Desc) self) INVALID_OPERATION ;;
    ret (quiet_nan (Desc := TDesc))
  else
    let sgn := sign (Desc := Desc) self in
    if is_infinite (Desc := Desc) self then ret (infinity (Desc := TDesc) sgn)
    else if is_zero (Desc := Desc) self then ret (zero (Desc := TDesc) sgn)
    else
      let! (exponent, signficand) := get_normalized_significand (Desc := Desc) self in
      normalize_and_round (Desc := TDesc) (@HOLDER Desc) sgn
        (exponent - @SIGNIFICAND_WIDTH Desc + @SIGNIFICAND_WIDTH TDesc)
        signficand.

End Fp.
