(* ===== verification/SoftfpSpec.v ===== *)
(** An executable IEEE 754 specification for the software floating point.

    An exact positive result is a value of [exact]: a rational scaled by a power
    of two, or a square root of an integer scaled by a power of two.  All that
    rounding needs of it is [trunc x e], its integer part in units of [2 ^ e]
    together with whether that is all of it.  [ieee_round] rounds an exact value
    to a format and says which flags the standard raises; [ieee_add] and its
    siblings say what each operation returns on every class of operands. *)

From Stdlib Require Import ZArith Lia Bool List.
From S2P Require Import Prelude Softfp.
Import Fp.
Local Open Scope Z_scope.
Local Open Scope rust_scope.

(** ** Truncations *)

(** [(q, true)] is exactly [q], [(q, false)] lies strictly between [q] and
    [q + 1]. *)
Definition shr (n : Z) (p : Z * bool) : Z * bool :=
  (fst p / 2 ^ n, snd p && (fst p mod 2 ^ n =? 0)).

(** Round to odd: the encoding of a truncation in one integer. *)
Definition sticky (p : Z * bool) : Z :=
  if snd p then fst p else 2 * (fst p / 2) + 1.

(** [Ratio n d k] is [n / d * 2 ^ k]; [Root n k] is [sqrt n * 2 ^ k]. *)
Inductive exact : Type :=
| Ratio (n d k : Z)
| Root (n k : Z).

Definition positive (x : exact) : Prop :=
  match x with
  | Ratio n d _ => 0 < n /\ 0 < d
  | Root n _ => 0 < n
  end.

Definition trunc (x : exact) (e : Z) : Z * bool :=
  match x with
  | Ratio n d k =>
      let n := if e <=? k then n * 2 ^ (k - e) else n in
      let d := if e <=? k then d else d * 2 ^ (e - k) in
      (n / d, n mod d =? 0)
  | Root n k =>
      let n' := if e <=? k then n * 4 ^ (k - e) else n in
      let d := if e <=? k then 1 else 4 ^ (e - k) in
      let r := Z.sqrt (n' / d) in
      (r, r * r * d =? n')
  end.

(** A unit fine enough for the integer part to be positive, and the binary
    logarithm it gives. *)
Definition base (x : exact) : Z :=
  match x with
  | Ratio _ d k => k - Z.log2 d - 1
  | Root _ k => k
  end.

Definition ilog2 (x : exact) : Z := base x + Z.log2 (fst (trunc x (base x))).

(** ** Rounding *)

(** Round a magnitude to an integer, given its truncation in half units. *)
Definition rnd (rm : RoundingMode) (sgn : bool) (p : Z * bool) : Z :=
  let q := fst p / 2 in
  let half := Z.odd (fst p) in
  let above := negb (snd p) in
  let up :=
    match rm with
    | TiesToEven => half && (above || Z.odd q)
    | TiesToAway => half
    | TowardZero => false
    | TowardNegative => sgn && (half || above)
    | TowardPositive => negb sgn && (half || above)
    end in
  if up then q + 1 else q.

Section Format.
Context {Desc : FpDesc}.

(** The unit of the smallest subnormal number. *)
Definition e0 : Z := MINIMUM_EXPONENT - SIGNIFICAND_WIDTH.

Definition sign_bit (sgn : bool) : Z :=
  if sgn then 2 ^ (EXPONENT_WIDTH + SIGNIFICAND_WIDTH) else 0.

(** The bit pattern of [m * 2 ^ e] where [e0 <= e]: a number of the lowest
    binade when [e = e0], a normal one when [2 ^ SIGNIFICAND_WIDTH <= m]. *)
Definition encode_finite (sgn : bool) (m e : Z) : Z :=
  sign_bit sgn + (e - e0) * 2 ^ SIGNIFICAND_WIDTH + m.

Definition ieee_overflow (rm : RoundingMode) (sgn : bool) : Z :=
  let to_infinity :=
    match rm with
    | TiesToEven | TiesToAway => true
    | TowardZero => false
    | TowardNegative => sgn
    | TowardPositive => negb sgn
    end in
  if to_infinity then infinity sgn
  else encode_finite sgn (2 ^ (SIGNIFICAND_WIDTH + 1) - 1) (MAXIMUM_EXPONENT - SIGNIFICAND_WIDTH).

Definition quantum (x : exact) : Z := Z.max (ilog2 x - SIGNIFICAND_WIDTH) e0.

(** Tininess is detected after rounding: the value rounded as if the exponent
    were unbounded is below the smallest normal number. *)
Definition tiny (rm : RoundingMode) (sgn : bool) (x : exact) : bool :=
  let e := ilog2 x - SIGNIFICAND_WIDTH in
  (e <? e0) && (rnd rm sgn (trunc x (e - 1)) <? 2 ^ (MINIMUM_EXPONENT - e)).

(** The bit pattern and the flags of the exact value [x] with sign [sgn]. *)
Definition ieee_round (rm : RoundingMode) (sgn : bool) (x : exact) : Z * Z :=
  let e := quantum x in
  let m := rnd rm sgn (trunc x (e - 1)) in
  let inexact := negb (snd (trunc x e)) in
  if 2 ^ (MAXIMUM_EXPONENT + 1 - e0) <=? m * 2 ^ (e - e0)
  then (ieee_overflow rm sgn, OVERFLOW .| INEXACT)
  else (encode_finite sgn m e,
        (if inexact then INEXACT else 0)
        .| (if inexact && tiny rm sgn x then UNDERFLOW else 0)).

(** ** Operations *)

(** The magnitude of a finite number in units of [2 ^ e0], and its value. *)
Definition units (a : Z) : Z :=
  if biased_exponent a =? 0 then trailing_significand a
  else (trailing_significand a + 2 ^ SIGNIFICAND_WIDTH) * 2 ^ (biased_exponent a - 1).

Definition value (a : Z) : Z := if sign a then - units a else units a.

Definition invalid : Z * Z := (quiet_nan, INVALID_OPERATION).

(** The quiet NaN, invalid when an operand is signaling. *)
Definition ieee_nan (signaling : bool) : Z * Z :=
  (quiet_nan, if signaling then INVALID_OPERATION else 0).

(** The sign of an exact zero sum of operands of different signs. *)
Definition zero_sum (rm : RoundingMode) : Z := zero (rm_eqb rm TowardNegative).

Definition ieee_add (rm : RoundingMode) (a b : Z) : Z * Z :=
  if is_nan a || is_nan b then ieee_nan (is_signaling a || is_signaling b)
  else if is_infinite a then
    if is_infinite b && negb (Bool.eqb (sign a) (sign b)) then invalid
    else (infinity (sign a), 0)
  else if is_infinite b then (infinity (sign b), 0)
  else
    let v := value a + value b in
    if v =? 0 then
      (if Bool.eqb (sign a) (sign b) then zero (sign a) else zero_sum rm, 0)
    else ieee_round rm (v <? 0) (Ratio (Z.abs v) 1 e0).

Definition ieee_mul (rm : RoundingMode) (a b : Z) : Z * Z :=
  let sgn := xorb (sign a) (sign b) in
  if is_nan a || is_nan b then ieee_nan (is_signaling a || is_signaling b)
  else if is_infinite a || is_infinite b then
    if is_zero a || is_zero b then invalid else (infinity sgn, 0)
  else if is_zero a || is_zero b then (zero sgn, 0)
  else ieee_round rm sgn (Ratio (units a * units b) 1 (2 * e0)).

Definition ieee_div (rm : RoundingMode) (a b : Z) : Z * Z :=
  let sgn := xorb (sign a) (sign b) in
  if is_nan a || is_nan b then ieee_nan (is_signaling a || is_signaling b)
  else if is_infinite a then if is_infinite b then invalid else (infinity sgn, 0)
  else if is_infinite b then (zero sgn, 0)
  else if is_zero b then if is_zero a then invalid else (infinity sgn, DIVIDE_BY_ZERO)
  else if is_zero a then (zero sgn, 0)
  else ieee_round rm sgn (Ratio (units a) (units b) 0).

Definition ieee_sqrt (rm : RoundingMode) (a : Z) : Z * Z :=
  if is_nan a then ieee_nan (is_signaling a)
  else if is_zero a then (a, 0)
  else if sign a then invalid
  else if is_infinite a then (a, 0)
  else ieee_round rm false (Root (units a * 2 ^ (e0 mod 2)) (e0 / 2)).

(** Zero times infinity is invalid even when [c] is a quiet NaN, as RISC-V
    requires. *)
Definition ieee_fma (rm : RoundingMode) (a b c : Z) : Z * Z :=
  let sgn := xorb (sign a) (sign b) in
  if is_nan a || is_nan b then
    ieee_nan (is_signaling a || is_signaling b || is_signaling c)
  else if is_infinite a || is_infinite b then
    if is_zero a || is_zero b then invalid
    else if is_nan c then ieee_nan (is_signaling c)
    else if is_infinite c && negb (Bool.eqb (sign c) sgn) then invalid
    else (infinity sgn, 0)
  else if is_nan c then ieee_nan (is_signaling c)
  else if is_infinite c then (c, 0)
  else
    let v := value a * value b + value c * 2 ^ (- e0) in
    if v =? 0 then
      (if Bool.eqb (sign c) sgn then zero sgn else zero_sum rm, 0)
    else ieee_round rm (v <? 0) (Ratio (Z.abs v) 1 (2 * e0)).

(** Conversion of an integer, and to an integer with bounds [lo] and [hi]. *)
Definition ieee_of_int (rm : RoundingMode) (v : Z) : Z * Z :=
  if v =? 0 then (zero false, 0) else ieee_round rm (v <? 0) (Ratio (Z.abs v) 1 0).

Definition ieee_to_int (rm : RoundingMode) (lo hi : Z) (a : Z) : Z * Z :=
  if is_nan a then (hi, INVALID_OPERATION)
  else if is_infinite a then (if sign a then lo else hi, INVALID_OPERATION)
  else
    let x := Ratio (units a) 1 e0 in
    let m := rnd rm (sign a) (trunc x (-1)) in
    let v := if sign a then - m else m in
    if v <? lo then (lo, INVALID_OPERATION)
    else if hi <? v then (hi, INVALID_OPERATION)
    else (v, if snd (trunc x 0) then 0 else INEXACT).

End Format.

(** Conversion between formats. *)
Definition ieee_convert (Desc TDesc : FpDesc) (rm : RoundingMode) (a : Z) : Z * Z :=
  if is_nan (Desc := Desc) a then ieee_nan (Desc := TDesc) (is_signaling (Desc := Desc) a)
  else
    let sgn := sign (Desc := Desc) a in
    if is_infinite (Desc := Desc) a then (infinity (Desc := TDesc) sgn, 0)
    else if is_zero (Desc := Desc) a then (zero (Desc := TDesc) sgn, 0)
    else ieee_round (Desc := TDesc) rm sgn (Ratio (units (Desc := Desc) a) 1 (e0 (Desc := Desc))).

(** ** Laws of truncation *)

Lemma eqb_iff a b c d : (a = b <-> c = d) -> (a =? b) = (c =? d).
Proof. intros H. apply eq_true_iff_eq. rewrite !Z.eqb_eq. exact H. Qed.

Lemma shr_0 p : shr 0 p = p.
Proof.
  destruct p as [q ex]. unfold shr; cbn [fst snd]. rewrite Z.pow_0_r, Z.div_1_r, Z.mod_1_r.
  f_equal. apply andb_true_r.
Qed.

Lemma mod_mul_zero a b c :
  0 < b -> 0 < c -> (a mod (b * c) = 0 <-> a mod b = 0 /\ (a / b) mod c = 0).
Proof.
  intros Hb Hc. rewrite Z.rem_mul_r by lia.
  pose proof (Z.mod_pos_bound a b Hb). pose proof (Z.mod_pos_bound (a / b) c Hc). nia.
Qed.

Lemma shr_shr m n p : 0 <= m -> 0 <= n -> shr m (shr n p) = shr (n + m) p.
Proof.
  intros. pose proof (pow2_pos m ltac:(lia)). pose proof (pow2_pos n ltac:(lia)).
  destruct p as [q ex]; unfold shr; cbn [fst snd]. rewrite Z.pow_add_r by lia.
  rewrite Z.div_div by lia. f_equal. rewrite <- andb_assoc. f_equal.
  apply eq_true_iff_eq. rewrite andb_true_iff, !Z.eqb_eq, mod_mul_zero by lia. reflexivity.
Qed.

(** Quotients *)
Definition quo (n d : Z) : Z * bool := (n / d, n mod d =? 0).

Lemma quo_shr n d k : 0 < d -> 0 <= k -> shr k (quo n d) = quo n (d * 2 ^ k).
Proof.
  intros Hd Hk. pose proof (pow2_pos k Hk). unfold shr, quo; cbn [fst snd].
  rewrite Z.div_div by lia. f_equal.
  apply eq_true_iff_eq. rewrite andb_true_iff, !Z.eqb_eq, mod_mul_zero by lia. reflexivity.
Qed.

Lemma quo_scale n d c : 0 < d -> 0 < c -> quo (n * c) (d * c) = quo n d.
Proof.
  intros. unfold quo. rewrite Z.div_mul_cancel_r, Z.mul_mod_distr_r by lia.
  f_equal. apply eqb_iff. nia.
Qed.

(** Square roots *)
Definition root (n d : Z) : Z * bool :=
  let r := Z.sqrt (n / d) in (r, r * r * d =? n).

Lemma pow4 k : 0 <= k -> 4 ^ k = 2 ^ k * 2 ^ k.
Proof. intros. change 4 with (2 * 2). apply Z.pow_mul_l. Qed.

Lemma sqrt_div_square m c : 0 <= m -> 0 < c -> Z.sqrt m / c = Z.sqrt (m / (c * c)).
Proof.
  intros Hm Hc. symmetry. apply Z.sqrt_unique.
  pose proof (Z.sqrt_spec m Hm) as Hs; cbv zeta in Hs. pose proof (Z.sqrt_nonneg m).
  set (s := Z.sqrt m) in *. pose proof (Z.div_mod s c ltac:(lia)).
  pose proof (Z.mod_pos_bound s c Hc). set (q := s / c) in *.
  assert (0 <= q) by (apply Z.div_pos; lia).
  assert (0 <= c * q) by nia. split.
  - apply Z.div_le_lower_bound; [nia|].
    assert (c * q * (c * q) <= s * s) by (apply Z.mul_le_mono_nonneg; lia).
    replace (c * c * (q * q)) with (c * q * (c * q)) by ring. lia.
  - apply Z.div_lt_upper_bound; [nia|]. unfold Z.succ in *.
    assert ((s + 1) * (s + 1) <= (c * q + c) * (c * q + c))
      by (apply Z.mul_le_mono_nonneg; lia).
    replace (c * c * ((q + 1) * (q + 1))) with ((c * q + c) * (c * q + c)) by ring. lia.
Qed.

Lemma root_shr n d k :
  0 <= n -> 0 < d -> 0 <= k -> shr k (root n d) = root n (d * 4 ^ k).
Proof.
  intros Hn Hd Hk. pose proof (pow2_pos k Hk). unfold shr, root; cbn [fst snd].
  rewrite pow4 by assumption.
  assert (Hr : Z.sqrt (n / d) / 2 ^ k = Z.sqrt (n / (d * (2 ^ k * 2 ^ k)))).
  { rewrite <- Z.div_div by nia. apply sqrt_div_square; [apply Z.div_pos; lia|assumption]. }
  rewrite <- Hr. f_equal. apply eq_true_iff_eq. rewrite andb_true_iff, !Z.eqb_eq.
  assert (0 <= n / d) by (apply Z.div_pos; lia).
  pose proof (Z.sqrt_spec (n / d) ltac:(assumption)) as Hs; cbv zeta in Hs.
  pose proof (Z.sqrt_nonneg (n / d)).
  set (r := Z.sqrt (n / d)) in *. set (c := 2 ^ k) in *.
  pose proof (Z.div_mod r c ltac:(lia)). pose proof (Z.mod_pos_bound r c ltac:(lia)).
  set (q := r / c) in *. split.
  - intros [Heq Hm]. assert (Hrc : r = c * q) by lia. rewrite Hrc in Heq. nia.
  - intros Heq. assert (Hnd : n / d = (q * c) * (q * c)).
    { rewrite <- Heq. replace (q * q * (d * (c * c))) with ((q * c) * (q * c) * d) by ring.
      apply Z.div_mul; lia. }
    assert (Hrc : r = q * c).
    { subst r. rewrite Hnd. apply Z.sqrt_square. apply Z.mul_nonneg_nonneg; [apply Z.div_pos|]; lia. }
    split; [rewrite Hrc; nia|]. rewrite Hrc. apply Z.mod_mul; lia.
Qed.

Lemma root_scale n d c : 0 < d -> 0 < c -> root (n * c) (d * c) = root n d.
Proof.
  intros. unfold root. rewrite Z.div_mul_cancel_r by lia. f_equal. apply eqb_iff. nia.
Qed.

Lemma trunc_ratio n d k e :
  trunc (Ratio n d k) e =
  if e <=? k then quo (n * 2 ^ (k - e)) d else quo n (d * 2 ^ (e - k)).
Proof. unfold trunc, quo. destruct (e <=? k); reflexivity. Qed.

Lemma trunc_root n k e :
  trunc (Root n k) e =
  if e <=? k then root (n * 4 ^ (k - e)) 1 else root n (4 ^ (e - k)).
Proof. unfold trunc, root. destruct (e <=? k); reflexivity. Qed.

(** A coarser truncation is a shift of a finer one. *)
Lemma trunc_shr x e k : positive x -> 0 <= k -> trunc x (e + k) = shr k (trunc x e).
Proof.
  destruct x as [n d b|n b]; cbn [positive]; intros Hx Hk.
  - rewrite !trunc_ratio. destruct Hx.
    destruct (Z.leb_spec (e + k) b), (Z.leb_spec e b); try lia; rewrite quo_shr by
      (first [lia | apply Z.mul_pos_pos; [lia|apply pow2_pos; lia]]).
    + replace (b - e) with (b - (e + k) + k) by lia.
      rewrite Z.pow_add_r, Z.mul_assoc, quo_scale by (first [lia | apply pow2_pos; lia]).
      reflexivity.
    + replace k with (e + k - b + (b - e)) at 2 by lia.
      rewrite Z.pow_add_r, Z.mul_assoc, quo_scale
        by (first [lia | apply pow2_pos; lia | apply Z.mul_pos_pos; [lia|apply pow2_pos; lia]]).
      reflexivity.
    + rewrite <- Z.mul_assoc, <- Z.pow_add_r by lia. do 3 f_equal. lia.
  - rewrite !trunc_root.
    assert (forall j, 0 <= j -> 0 < 4 ^ j) as H4 by (intros; apply Z.pow_pos_nonneg; lia).
    destruct (Z.leb_spec (e + k) b), (Z.leb_spec e b); try lia; rewrite root_shr by
      (first [lia | apply H4; lia | apply Z.mul_nonneg_nonneg; [lia|apply Z.lt_le_incl, H4; lia]]).
    + replace (b - e) with (b - (e + k) + k) by lia.
      rewrite Z.pow_add_r, Z.mul_assoc, root_scale by (first [lia | apply H4; lia]).
      reflexivity.
    + replace k with (e + k - b + (b - e)) at 2 by lia.
      rewrite Z.pow_add_r, Z.mul_assoc, root_scale by (first [lia | rewrite ?Z.mul_1_l; apply H4; lia]).
      rewrite Z.mul_1_l. reflexivity.
    + rewrite <- Z.pow_add_r by lia. do 2 f_equal. lia.
Qed.

Lemma base_pos x : positive x -> 1 <= fst (trunc x (base x)).
Proof.
  destruct x as [n d k|n k]; cbn [positive base]; intros Hx.
  - rewrite trunc_ratio. pose proof (Z.log2_nonneg d). pose proof (Z.log2_spec d ltac:(lia)).
    replace (k - Z.log2 d - 1 <=? k) with true by (symmetry; apply Z.leb_le; lia).
    unfold quo; cbn [fst]. apply Z.div_le_lower_bound; [lia|].
    replace (k - (k - Z.log2 d - 1)) with (Z.succ (Z.log2 d)) by lia. nia.
  - rewrite trunc_root, Z.leb_refl, Z.sub_diag, Z.mul_1_r. unfold root; cbn [fst].
    rewrite Z.div_1_r. change 1 with (Z.sqrt 1). apply Z.sqrt_le_mono. lia.
Qed.

Lemma log2_shr n p : 0 <= n -> 1 <= fst (shr n p) -> Z.log2 (fst p) = n + Z.log2 (fst (shr n p)).
Proof.
  unfold shr; cbn [fst]; intros Hn H1. pose proof (pow2_pos n Hn).
  rewrite <- Z.shiftr_div_pow2 in * by assumption.
  assert (0 < fst p).
  { destruct (Z.lt_ge_cases 0 (fst p)); [assumption|].
    rewrite Z.shiftr_div_pow2 in H1 by assumption.
    assert (fst p / 2 ^ n <= 0) by (apply Z.div_le_upper_bound; lia). lia. }
  assert (n <= Z.log2 (fst p)).
  { apply Z.log2_le_pow2; [assumption|]. rewrite Z.shiftr_div_pow2 in H1 by assumption.
    pose proof (Z.mul_div_le (fst p) (2 ^ n)). nia. }
  rewrite Z.log2_shiftr by assumption. lia.
Qed.

(** The logarithm can be read off any unit that leaves an integer part. *)
Lemma ilog2_trunc x e :
  positive x -> 1 <= fst (trunc x e) -> ilog2 x = e + Z.log2 (fst (trunc x e)).
Proof.
  intros Hx He. pose proof (base_pos x Hx) as Hb. unfold ilog2.
  destruct (Z.le_ge_cases e (base x)).
  - replace (base x) with (e + (base x - e)) in Hb |- * by lia.
    rewrite trunc_shr in * by (assumption || lia).
    rewrite (log2_shr (base x - e) (trunc x e)) by (assumption || lia). lia.
  - replace e with (base x + (e - base x)) in He |- * by lia.
    rewrite trunc_shr in * by (assumption || lia).
    rewrite (log2_shr (e - base x) (trunc x (base x))) by (assumption || lia). lia.
Qed.

Lemma ilog2_unique x e j :
  positive x -> 0 <= j -> 2 ^ j <= fst (trunc x e) < 2 ^ (j + 1) -> ilog2 x = e + j.
Proof.
  intros Hx Hj H. pose proof (pow2_pos j Hj). rewrite (ilog2_trunc x e) by (assumption || lia).
  f_equal. apply Z.log2_unique; assumption.
Qed.

(** Equal fractions truncate alike. *)
Lemma quo_cross n d n' d' : 0 < d -> 0 < d' -> n * d' = n' * d -> quo n d = quo n' d'.
Proof.
  intros Hd Hd' H. rewrite <- (quo_scale n d d'), H, (Z.mul_comm d d') by assumption.
  apply quo_scale; assumption.
Qed.

Lemma trunc_quo n d k e n' d' i j :
  0 < d -> 0 < d' -> 0 <= i -> 0 <= j -> i - j = k - e ->
  n * d' * 2 ^ i = n' * d * 2 ^ j -> trunc (Ratio n d k) e = quo n' d'.
Proof.
  intros Hd Hd' Hi Hj Hij H. rewrite trunc_ratio.
  pose proof (pow2_pos i Hi). pose proof (pow2_pos j Hj).
  destruct (Z.leb_spec e k).
  - apply quo_cross; try assumption. replace i with (k - e + j) in H by lia.
    rewrite Z.pow_add_r in H by lia. apply (Z.mul_reg_r _ _ (2 ^ j)); lia.
  - pose proof (pow2_pos (e - k) ltac:(lia)). apply quo_cross; try nia.
    replace j with (e - k + i) in H by lia.
    rewrite Z.pow_add_r in H by lia. apply (Z.mul_reg_r _ _ (2 ^ i)); lia.
Qed.

Lemma quo_1 n : quo n 1 = (n, true).
Proof. unfold quo. rewrite Z.div_1_r, Z.mod_1_r. reflexivity. Qed.

(** Adding to, and subtracting from, an even number commute with the sticky
    encoding. *)
Lemma sticky_add a n d :
  0 < d -> a mod 2 = 0 -> sticky (quo (a * d + n) d) = a + sticky (quo n d).
Proof.
  intros Hd Ha. unfold sticky, quo; cbn [fst snd].
  rewrite Z.div_add_l, Z.add_comm, Z.mod_add by lia.
  destruct (n mod d =? 0); [reflexivity|]. Z.div_mod_to_equations; lia.
Qed.

Lemma sticky_sub a n d :
  0 < d -> a mod 2 = 0 -> sticky (quo (a * d - n) d) = a - sticky (quo n d).
Proof.
  intros Hd Ha. unfold sticky, quo; cbn [fst snd].
  pose proof (Z.div_mod n d ltac:(lia)) as Hn. pose proof (Z.mod_pos_bound n d Hd).
  set (q := n / d) in *. set (r := n mod d) in *. clearbody q r.
  destruct (Z.eqb_spec r 0) as [->|Hr].
  - replace (a * d - n) with ((a - q) * d) by nia.
    rewrite Z.mod_mul, Z.div_mul by lia. reflexivity.
  - replace (a * d - n) with ((a - q - 1) * d + (d - r)) by nia.
    rewrite Z.add_comm, Z.mod_add, Z.mod_small, Z.add_comm, Z.div_add_l, (Z.div_small (d - r)) by lia.
    rewrite (proj2 (Z.eqb_neq (d - r) 0)) by lia. Z.div_mod_to_equations; lia.
Qed.
