(* ===== verification/SoftfpRound.v ===== *)
(** The fields of a floating point number and the rounding core of
    lib/softfp/src/fp.rs: [right_shift] composes, [round_significand] is the
    rounding of the specification, [normalize] and [round] together compute
    [ieee_round] of the exact value their arguments stand for. *)

From Stdlib Require Import ZArith Lia Bool List.
From S2P Require Import Prelude Softfp SoftfpSpec.
Import Fp.
Local Open Scope Z_scope.
Local Open Scope rust_scope.
Local Open Scope fp_scope.

(** What the generic code needs of a format: the holder has exactly the bits of
    the number, the double holder twice as many, and the exponent field is wide
    enough for the significand, its carry and its rounding bits to fit. *)
Class FpDescLaws (Desc : FpDesc) : Prop := {
  holder_width : HOLDER = 1 + EXPONENT_WIDTH + SIGNIFICAND_WIDTH;
  double_width : DOUBLE = 2 * HOLDER;
  exponent_width_range : 4 <= EXPONENT_WIDTH <= 30;
  significand_width_range : 4 <= SIGNIFICAND_WIDTH <= 2 ^ 20;
}.

#[export] Instance F32Desc_laws : FpDescLaws F32Desc.
Proof. split; cbn; lia. Qed.

#[export] Instance F64Desc_laws : FpDescLaws F64Desc.
Proof. split; cbn; lia. Qed.

(** Bring the bounds of the format into the context. *)
Ltac fmt :=
  pose proof holder_width; pose proof double_width;
  pose proof exponent_width_range; pose proof significand_width_range.

Section Round.
Context {Desc : FpDesc} {Laws : FpDescLaws Desc}.

Local Notation w := (@SIGNIFICAND_WIDTH Desc).
Local Notation ew := (@EXPONENT_WIDTH Desc).

Lemma w_pos : 0 < 2 ^ w. Proof. fmt. apply pow2_pos; lia. Qed.
Lemma ew_pos : 0 < 2 ^ ew. Proof. fmt. apply pow2_pos; lia. Qed.

Lemma one_shl k : 0 <= k -> 1 << k = 2 ^ k.
Proof. intros; rewrite Z.shiftl_mul_pow2 by assumption; lia. Qed.

(** ** Fields *)

Definition pack (sgn : bool) (be t : Z) : Z := sign_bit sgn + be * 2 ^ w + t.

Definition fields_ok (be t : Z) : Prop := in_u ew be /\ in_u w t.

Lemma pack_split sgn be t :
  pack sgn be t = ((if sgn then 1 else 0) * 2 ^ ew + be) * 2 ^ w + t.
Proof.
  fmt. unfold pack, sign_bit. destruct sgn; rewrite ?Z.pow_add_r by lia; ring.
Qed.

Lemma pack_holder sgn be t : fields_ok be t -> in_u HOLDER (pack sgn be t).
Proof.
  unfold fields_ok, in_u; intros [? ?]. fmt. pose proof w_pos. pose proof ew_pos.
  rewrite pack_split, holder_width, !Z.pow_add_r by lia. change (2 ^ 1) with 2.
  destruct sgn; nia.
Qed.

Lemma sign_pack sgn be t : fields_ok be t -> sign (pack sgn be t) = sgn.
Proof.
  unfold fields_ok, in_u; intros [? ?]. fmt. pose proof w_pos. pose proof ew_pos.
  unfold sign. rewrite Z.shiftr_div_pow2, pack_split, (Z.add_comm ew), Z.pow_add_r by lia.
  rewrite <- Z.div_div, Z.div_add_l, (Z.div_small t), Z.add_0_r by lia.
  rewrite Z.div_add_l, (Z.div_small be) by lia. destruct sgn; reflexivity.
Qed.

Lemma biased_pack sgn be t : fields_ok be t -> biased_exponent (pack sgn be t) = be.
Proof.
  unfold fields_ok, in_u; intros [? ?]. fmt. pose proof w_pos. pose proof ew_pos.
  unfold biased_exponent. rewrite one_shl, land_mask, Z.shiftr_div_pow2, pack_split by lia.
  rewrite Z.div_add_l, (Z.div_small t), Z.add_0_r, Z.add_comm, Z.mod_add, Z.mod_small by lia.
  apply wrap_id. apply (in_u_mono ew); [lia|assumption].
Qed.

Lemma trailing_pack sgn be t : fields_ok be t -> trailing_significand (pack sgn be t) = t.
Proof.
  unfold fields_ok, in_u; intros [? ?]. fmt. pose proof w_pos. pose proof ew_pos.
  unfold trailing_significand. rewrite one_shl, land_mask, pack_split by lia.
  rewrite Z.add_comm, Z.mod_add, Z.mod_small by lia. reflexivity.
Qed.

(** Every bit pattern is the packing of its fields. *)
Lemma unpack a :
  in_u HOLDER a ->
  exists sgn be t, a = pack sgn be t /\ fields_ok be t.
Proof.
  unfold in_u; intros Ha. fmt. pose proof w_pos. pose proof ew_pos.
  exists (2 ^ (ew + w) <=? a), (a / 2 ^ w mod 2 ^ ew), (a mod 2 ^ w).
  split; [|split; apply Z.mod_pos_bound; lia].
  rewrite pack_split. rewrite holder_width, !Z.pow_add_r in * by lia. change (2 ^ 1) with 2 in *.
  pose proof (Z.div_mod a (2 ^ w) ltac:(lia)). pose proof (Z.mod_pos_bound a (2 ^ w) ltac:(lia)).
  assert (0 <= a / 2 ^ w < 2 * 2 ^ ew)
    by (split; [apply Z.div_pos|apply Z.div_lt_upper_bound]; lia).
  rewrite (Z.mod_eq (a / 2 ^ w)) by lia.
  destruct (Z.leb_spec (2 ^ ew * 2 ^ w) a).
  - assert (2 ^ ew <= a / 2 ^ w) by (apply Z.div_le_lower_bound; lia).
    replace (a / 2 ^ w / 2 ^ ew) with 1 by
      (apply Z.div_unique with (a / 2 ^ w - 2 ^ ew); lia). lia.
  - assert (a / 2 ^ w < 2 ^ ew) by (apply Z.div_lt_upper_bound; lia).
    rewrite (Z.div_small (a / 2 ^ w)) by lia. lia.
Qed.

Lemma set_sign_pack sgn sgn' be t :
  fields_ok be t -> set_sign (pack sgn be t) sgn' = pack sgn' be t.
Proof.
  unfold fields_ok, in_u; intros [? ?]. fmt. pose proof w_pos. pose proof ew_pos.
  unfold set_sign. rewrite one_shl by lia.
  assert (Hin : in_u (ew + w) (be * 2 ^ w + t))
    by (unfold in_u; rewrite Z.pow_add_r by lia; nia).
  assert (Hbit : Z.testbit (pack true be t) (ew + w) = true).
  { unfold pack, sign_bit. rewrite <- Z.add_assoc, Z.add_comm.
    rewrite <- (Z.mul_1_l (2 ^ (ew + w))) at 1. rewrite <- lor_add_low by (assumption || lia).
    rewrite Z.lor_spec, (testbit_high (ew + w)) by (assumption || lia).
    rewrite Z.mul_1_l, Z.pow2_bits_true by lia. reflexivity. }
  destruct sgn'.
  - destruct sgn.
    + apply Z.bits_inj'; intros i Hi. rewrite Z.lor_spec.
      destruct (Z.eqb_spec (ew + w) i) as [<-|].
      * rewrite Hbit. reflexivity.
      * rewrite Z.pow2_bits_false by congruence. apply orb_false_r.
    + unfold pack, sign_bit at 1. rewrite Z.add_0_l, <- (Z.mul_1_l (2 ^ (ew + w))).
      rewrite lor_add_low by (assumption || lia). unfold sign_bit. ring.
  - rewrite land_lnot, land_pow2 by lia. destruct sgn.
    + rewrite Hbit. unfold pack, sign_bit. ring.
    + unfold pack, sign_bit. rewrite Z.add_0_l.
      rewrite (testbit_high (ew + w)) by (assumption || lia). ring.
Qed.

Lemma set_biased_pack sgn be be' t :
  fields_ok be t -> in_u ew be' -> set_biased_exponent (pack sgn be t) be' = pack sgn be' t.
Proof.
  unfold fields_ok; intros [? ?] ?. fmt. pose proof w_pos. pose proof ew_pos.
  unfold set_biased_exponent. rewrite one_shl, !Z.shiftl_mul_pow2 by lia.
  rewrite wrap_id by (unfold in_u in *; rewrite holder_width, !Z.pow_add_r by lia; nia).
  replace ((be' * 2 ^ w) .& ((2 ^ ew - 1) * 2 ^ w)) with (be' * 2 ^ w).
  - rewrite !pack_split. apply set_field; assumption || lia.
  - rewrite land_field, Z.div_mul, Z.mod_small by (unfold in_u in *; lia). reflexivity.
Qed.

Lemma set_trailing_pack sgn be t t' :
  fields_ok be t -> set_trailing_significand (pack sgn be t) t' = pack sgn be (t' mod 2 ^ w).
Proof.
  unfold fields_ok; intros [? ?]. fmt. pose proof w_pos. pose proof ew_pos.
  unfold set_trailing_significand. rewrite one_shl by lia. rewrite land_mask with (x := t') by lia.
  pose proof (set_field ((if sgn then 1 else 0) * 2 ^ ew + be) t 0 (t' mod 2 ^ w) 0 w) as Hs.
  rewrite !Z.pow_0_r, !Z.mul_1_r, !Z.add_0_r in Hs. rewrite !pack_split. apply Hs;
    first [lia | assumption | apply Z.mod_pos_bound; lia | unfold in_u; cbn; lia].
Qed.

Lemma set_sign_0 sgn : set_sign 0 sgn = pack sgn 0 0.
Proof.
  fmt. change 0 with (pack false 0 0) at 1. apply set_sign_pack.
  pose proof w_pos; pose proof ew_pos; split; unfold in_u; lia.
Qed.

(** ** Shifting *)

Lemma lor_one q : q .| 1 = 2 * (q / 2) + 1.
Proof.
  rewrite (Z.div_mod q 2) at 1 by lia.
  pose proof (Z.mod_pos_bound q 2 ltac:(lia)).
  assert (q mod 2 = 0 \/ q mod 2 = 1) as [-> | ->] by lia.
  - rewrite Z.add_0_r, (lor_add _ 1 1); [reflexivity|lia|cbn; lia|].
    rewrite Z.mul_comm. apply Z.mod_mul. lia.
  - rewrite <- (lor_add (2 * (q / 2)) 1 1), <- Z.lor_assoc; [reflexivity|lia|cbn; lia|].
    rewrite Z.mul_comm. apply Z.mod_mul. lia.
Qed.

Lemma right_shift_quo tw s n :
  in_u tw s -> 0 <= n -> 0 <= tw -> right_shift tw s n = sticky (shr n (s, true)).
Proof.
  unfold in_u; intros Hs Hn Htw. pose proof (pow2_pos n Hn).
  unfold right_shift, sticky, shr; cbn [fst snd andb].
  rewrite <- lor_one. destruct (Z.leb_spec tw n).
  - assert (2 ^ tw <= 2 ^ n) by (apply Z.pow_le_mono_r; lia).
    rewrite Z.div_small, Z.mod_small by lia. destruct (s =? 0); reflexivity.
  - rewrite one_shl, wrap_id, land_mask, Z.shiftr_div_pow2
      by (first [lia | split; [lia|apply Z.pow_lt_mono_r; lia]]).
    destruct (s mod 2 ^ n =? 0); reflexivity.
Qed.

Lemma sticky_bounds p : fst p <= sticky p <= fst p + 1.
Proof. unfold sticky. destruct (snd p); [lia|]. Z.div_mod_to_equations; lia. Qed.

(** Shifting the sticky encoding of a truncation coarsens the truncation. *)
Lemma right_shift_sticky tw p n :
  in_u tw (sticky p) -> 0 <= n -> 0 <= tw -> right_shift tw (sticky p) n = sticky (shr n p).
Proof.
  intros Hs Hn Htw. rewrite right_shift_quo by assumption. destruct p as [q [|]]; [reflexivity|].
  destruct (Z.eq_dec n 0) as [->|]; [rewrite !shr_0; reflexivity|].
  unfold sticky, shr; cbn [fst snd andb].
  replace n with (1 + (n - 1)) by lia. rewrite Z.pow_add_r by lia. change (2 ^ 1) with 2.
  pose proof (pow2_pos (n - 1) ltac:(lia)). rewrite <- !Z.div_div by lia.
  replace ((2 * (q / 2) + 1) / 2) with (q / 2) by (Z.div_mod_to_equations; lia).
  destruct (Z.eqb_spec ((2 * (q / 2) + 1) mod (2 * 2 ^ (n - 1))) 0) as [H0|]; [|reflexivity].
  apply mod_mul_zero in H0; [|lia|lia].
  exfalso. destruct H0 as [H0 _]. rewrite Z.add_comm, Z.mul_comm, Z.mod_add in H0 by lia.
  discriminate.
Qed.

(** ** Rounding the significand *)

Lemma odd_eqb x : Z.odd x = (x mod 2 =? 1).
Proof. rewrite Zmod_odd. destruct (Z.odd x); reflexivity. Qed.

Lemma round_significand_spec sgn p rm flags :
  0 <= fst p -> sticky p + 3 < 2 ^ HOLDER ->
  round_significand sgn (sticky p) rm flags
  = Some ((negb (snd (shr 2 p)), rnd rm sgn (shr 1 p)), flags).
Proof.
  intros H0 Hb. pose proof (sticky_bounds p) as Hs.
  assert (Hw : forall c, 0 <= c <= 3 -> wrap HOLDER (sticky p + c) = sticky p + c)
    by (intros; apply wrap_id; split; lia).
  unfold round_significand, bind, get_rounding_mode, ret; cbv beta zeta iota.
  change (sticky p .& 3) with (sticky p .& (2 ^ 2 - 1)). rewrite land_mask by lia.
  change ((sticky p >> 2) .& 1) with ((sticky p >> 2) .& (2 ^ 1 - 1)).
  rewrite land_mask, !Z.shiftr_div_pow2 by lia.
  assert (Hk : 0 <= (sticky p / 2 ^ 2) mod 2 ^ 1 < 2) by (apply Z.mod_pos_bound; lia).
  rewrite !Hw by lia. clear Hw Hs Hk Hb.
  unfold rnd. rewrite !odd_eqb. destruct p as [q ex]. unfold shr; cbn [fst snd] in *.
  unfold sticky; cbn [fst snd].
  change (2 ^ 2) with 4. change (2 ^ 1) with 2.
  pose proof (Z.div_mod q 4 ltac:(lia)) as Hq. pose proof (Z.mod_pos_bound q 4 ltac:(lia)) as Hr.
  set (k := q / 4) in *. set (r := q mod 4) in *. clearbody k r. subst q.
  replace ((4 * k + r) / 2) with (2 * k + r / 2) by (Z.div_mod_to_equations; lia).
  replace ((4 * k + r) mod 2) with (r mod 2) by (Z.div_mod_to_equations; lia).
  replace ((4 * k + r) mod 4) with r by (Z.div_mod_to_equations; lia).
  replace (2 * (2 * k + r / 2) + 1) with (4 * k + (2 * (r / 2) + 1)) by lia.
  assert (Hdiv : forall c, 0 <= c < 4 -> (4 * k + c) / 4 = k)
    by (intros; Z.div_mod_to_equations; lia).
  assert (Hdiv' : forall c, 4 <= c < 8 -> (4 * k + c) / 4 = k + 1)
    by (intros; Z.div_mod_to_equations; lia).
  assert (Hmod : forall c, 0 <= c < 4 -> (4 * k + c) mod 4 = c)
    by (intros; Z.div_mod_to_equations; lia).
  assert (Hhalf : forall c, 0 <= c < 2 -> (2 * k + c) / 2 = k)
    by (intros; Z.div_mod_to_equations; lia).
  assert (Hpar : forall c, 0 <= c < 2 -> (2 * k + c) mod 2 = c)
    by (intros; Z.div_mod_to_equations; lia).
  assert (Hm2 : k mod 2 = 0 \/ k mod 2 = 1)
    by (pose proof (Z.mod_pos_bound k 2 ltac:(lia)); lia).
  set (k4 := 4 * k) in *. set (k2 := 2 * k) in *. clearbody k4 k2.
  assert (r = 0 \/ r = 1 \/ r = 2 \/ r = 3) as [-> | [-> | [-> | ->]]] by lia;
    destruct ex;
    change (0 / 2) with 0; change (1 / 2) with 0; change (2 / 2) with 1; change (3 / 2) with 1;
    change (0 mod 2) with 0; change (1 mod 2) with 1; change (2 mod 2) with 0;
    change (3 mod 2) with 1; cbn [andb Z.mul Pos.mul Z.add Pos.add];
    rewrite ?Hmod, ?Hdiv, ?Hhalf, ?Hpar by lia;
    destruct Hm2 as [Hm | Hm]; rewrite ?Hm;
    destruct rm, sgn; cbn [andb orb negb Z.eqb Pos.eqb Z.add Pos.add];
    rewrite ?Z.shiftr_div_pow2 by lia; change (2 ^ 2) with 4;
    rewrite <- ?Z.add_assoc; cbn [Z.add Pos.add Pos.succ]; rewrite ?Hdiv, ?Hdiv' by lia; reflexivity.
Qed.

(** ** Rounding to the format *)

Lemma rnd_bounds rm sgn p :
  fst (shr 1 p) <= rnd rm sgn p <= fst (shr 1 p) + 1.
Proof.
  unfold rnd, shr; cbn [fst]. change (2 ^ 1) with 2.
  match goal with |- context [if ?b then _ else _] => destruct b end; lia.
Qed.

Lemma rnd_exact rm sgn p : snd (shr 1 p) = true -> rnd rm sgn p = fst (shr 1 p).
Proof.
  unfold rnd, shr; cbn [fst snd]. change (2 ^ 1) with 2. rewrite odd_eqb.
  intros [-> Hm]%andb_true_iff. apply Z.eqb_eq in Hm. rewrite Hm.
  destruct rm, sgn; reflexivity.
Qed.

(** Rounding up across a power of two on a finer grid does so on a coarser one. *)
Lemma rnd_coarser rm sgn p k :
  fst (shr 1 p) = 2 * k - 1 -> rnd rm sgn p = 2 * k -> rnd rm sgn (shr 1 p) = k.
Proof.
  unfold rnd, shr; cbn [fst snd]. change (2 ^ 1) with 2. intros Hq. rewrite Hq, !odd_eqb.
  replace ((2 * k - 1) mod 2) with 1 by (Z.div_mod_to_equations; lia).
  replace ((2 * k - 1) / 2) with (k - 1) by (Z.div_mod_to_equations; lia).
  destruct (Z.eqb_spec (fst p mod 2) 0) as [H0|H0];
    destruct (Z.eqb_spec (fst p mod 2) 1) as [H1|H1]; try lia;
    destruct rm, sgn, (snd p); cbn; lia.
Qed.

(** The arithmetic of the exponent constants. *)
Lemma exponents :
  exists bias,
    EXPONENT_BIAS = bias /\ MINIMUM_EXPONENT = 1 - bias /\ MAXIMUM_EXPONENT = bias
    /\ e0 = 1 - bias - w /\ INFINITY_BIASED_EXPONENT = 2 * bias + 1
    /\ 2 ^ ew = 2 * bias + 2 /\ 7 <= bias < 2 ^ 30.
Proof.
  fmt. exists EXPONENT_BIAS. unfold e0, MINIMUM_EXPONENT, MAXIMUM_EXPONENT,
    MAXIMUM_BIASED_EXPONENT, INFINITY_BIASED_EXPONENT, EXPONENT_BIAS.
  rewrite !one_shl, (pow2_split ew) by lia.
  assert (2 ^ 3 <= 2 ^ (ew - 1)) by (apply Z.pow_le_mono_r; lia).
  assert (2 ^ (ew - 1) <= 2 ^ 29) by (apply Z.pow_le_mono_r; lia). lia.
Qed.

Lemma fields_ok_zero : fields_ok 0 0.
Proof. pose proof w_pos; pose proof ew_pos; split; unfold in_u; lia. Qed.

Lemma infinity_pack sgn : infinity sgn = pack sgn INFINITY_BIASED_EXPONENT 0.
Proof.
  unfold infinity. rewrite set_sign_0. apply set_biased_pack; [apply fields_ok_zero|].
  destruct exponents as (bias & ? & ? & ? & ? & -> & ? & ?). unfold in_u. lia.
Qed.

Lemma round_overflow_spec sgn rm flags :
  round_overflow sgn rm flags
  = Some (ieee_overflow rm sgn, flags .| (OVERFLOW .| INEXACT)).
Proof.
  unfold round_overflow, bind, set_exception_flag, get_rounding_mode, ret.
  assert (Hdec : wrap HOLDER (infinity sgn - 1)
    = encode_finite sgn (2 ^ (w + 1) - 1) (MAXIMUM_EXPONENT - w)).
  { rewrite infinity_pack. unfold pack, encode_finite.
    destruct exponents as (bias & ? & ? & -> & -> & -> & Hew & ?).
    fmt. pose proof w_pos. rewrite wrap_id.
    - rewrite Z.pow_add_r by lia. change (2 ^ 1) with 2. ring.
    - unfold in_u, sign_bit. rewrite holder_width, !Z.pow_add_r, Hew by lia.
      change (2 ^ 1) with 2. destruct sgn; nia. }
  unfold ieee_overflow. destruct rm, sgn; cbn [andb orb negb rm_eqb rm_code Z.eqb Pos.eqb];
    rewrite ?Hdec; reflexivity.
Qed.

(** The significand with two rounding bits that [round] receives for [x]. *)
Definition normal_significand (x : exact) (exponent : Z) : Prop :=
  positive x /\ 2 ^ (w + 2) <= fst (trunc x (exponent - w - 2)) < 2 ^ (w + 3).

Lemma normal_ilog2 x exponent : normal_significand x exponent -> ilog2 x = exponent.
Proof.
  intros [Hx Hq]. fmt. rewrite (ilog2_unique x (exponent - w - 2) (w + 2)); try assumption; try lia.
  replace (w + 2 + 1) with (w + 3) by lia. assumption.
Qed.

Lemma trunc_bounds x exponent k :
  normal_significand x exponent -> 0 <= k <= w + 2 ->
  2 ^ (w + 2 - k) <= fst (trunc x (exponent - w - 2 + k)) < 2 ^ (w + 3 - k).
Proof.
  intros [Hx Hq] Hk. rewrite trunc_shr by (assumption || lia). unfold shr; cbn [fst].
  pose proof (pow2_pos k ltac:(lia)).
  replace (w + 2) with (w + 2 - k + k) in Hq by lia.
  replace (w + 3) with (w + 3 - k + k) in Hq by lia. rewrite !Z.pow_add_r in Hq by lia.
  split; [apply Z.div_le_lower_bound|apply Z.div_lt_upper_bound]; lia.
Qed.

Lemma sticky_holder p : fst p < 2 ^ (w + 3) -> 0 <= fst p -> sticky p + 3 < 2 ^ HOLDER.
Proof.
  intros. fmt. pose proof (sticky_bounds p).
  assert (2 ^ (w + 4) <= 2 ^ HOLDER) by (apply Z.pow_le_mono_r; lia).
  assert (2 ^ 4 <= 2 ^ (w + 3)) by (apply Z.pow_le_mono_r; lia).
  rewrite (pow2_split (w + 4)) in * by lia. replace (w + 4 - 1) with (w + 3) in * by lia. lia.
Qed.

(** [round] after [round_significand]: the cases of a normal exponent. *)
Lemma pack_normal sgn exponent m :
  MINIMUM_EXPONENT <= exponent <= MAXIMUM_EXPONENT -> 2 ^ w <= m < 2 ^ (w + 1) ->
  set_trailing_significand
    (set_biased_exponent (pack sgn 0 0) (u32 (exponent + EXPONENT_BIAS))) m
  = encode_finite sgn m (exponent - w).
Proof.
  destruct exponents as (bias & -> & -> & -> & He0 & ? & Hew & Hb). intros He Hm. fmt.
  pose proof w_pos. unfold u32. rewrite wrap_id by (unfold in_u; lia).
  rewrite set_biased_pack by (first [apply fields_ok_zero | unfold in_u; lia]).
  rewrite set_trailing_pack by (split; unfold in_u; lia).
  unfold pack, encode_finite. rewrite He0. rewrite Z.pow_add_r in Hm by lia. change (2 ^ 1) with 2 in Hm.
  replace (m mod 2 ^ w) with (m - 2 ^ w); [ring|].
  apply Z.mod_unique_pos with 1; lia.
Qed.

Lemma pack_subnormal sgn m :
  0 <= m < 2 ^ w ->
  set_trailing_significand (set_biased_exponent (pack sgn 0 0) 0) m = encode_finite sgn m e0.
Proof.
  intros Hm. rewrite set_biased_pack by (first [apply fields_ok_zero | pose proof ew_pos; unfold in_u; lia]).
  rewrite set_trailing_pack, Z.mod_small by (assumption || apply fields_ok_zero).
  unfold pack, encode_finite. ring.
Qed.

Lemma pack_min_normal sgn :
  set_trailing_significand (set_biased_exponent (pack sgn 0 0) 1) 0 = encode_finite sgn (2 ^ w) e0.
Proof.
  destruct exponents as (bias & ? & ? & ? & ? & ? & Hew & Hb). pose proof w_pos.
  rewrite set_biased_pack by (first [apply fields_ok_zero | unfold in_u; lia]).
  rewrite set_trailing_pack by (split; unfold in_u; lia).
  rewrite Z.mod_small by lia. unfold pack, encode_finite. ring.
Qed.

(** Whether the rounded value overflows the format. *)
Lemma overflow_test m e k :
  e0 <= e -> 0 <= k -> e + k <= MAXIMUM_EXPONENT -> 0 <= m < 2 ^ (k + 1) ->
  (2 ^ (MAXIMUM_EXPONENT + 1 - e0) <=? m * 2 ^ (e - e0)) = false.
Proof.
  intros He Hk Hmax Hm. apply Z.leb_gt. assert (0 < 2 ^ (e - e0)) by (apply pow2_pos; lia).
  apply Z.lt_le_trans with (2 ^ (k + 1) * 2 ^ (e - e0)); [nia|].
  rewrite <- Z.pow_add_r by lia. apply Z.pow_le_mono_r; lia.
Qed.

Lemma overflow_test_true m e k :
  e0 <= e -> 0 <= k -> MAXIMUM_EXPONENT < e + k -> 2 ^ k <= m ->
  (2 ^ (MAXIMUM_EXPONENT + 1 - e0) <=? m * 2 ^ (e - e0)) = true.
Proof.
  intros He Hk Hmax Hm. apply Z.leb_le. assert (0 < 2 ^ (e - e0)) by (apply pow2_pos; lia).
  apply Z.le_trans with (2 ^ k * 2 ^ (e - e0)); [|nia].
  rewrite <- Z.pow_add_r by lia. apply Z.pow_le_mono_r; lia.
Qed.

(** The outcome of an operation that returns [fst r] and raises [snd r]. *)
Definition returns (r : Z * Z) (flags : Z) : option (Z * Z) := Some (fst r, flags .| snd r).

Lemma flag_if_run b f rm flags :
  flag_if b f rm flags = Some (tt, flags .| (if b then f else 0)).
Proof.
  unfold flag_if, set_exception_flag, ret. destruct b; [reflexivity|].
  rewrite Z.lor_0_r. reflexivity.
Qed.

Lemma round_normal sgn x exponent rm flags :
  normal_significand x exponent -> MINIMUM_EXPONENT <= exponent <= MAXIMUM_EXPONENT ->
  round sgn exponent (sticky (trunc x (exponent - w - 2))) rm flags
  = returns (ieee_round rm sgn x) flags.
Proof.
  intros Hn He. fmt. pose proof (proj1 Hn) as Hpos.
  pose proof (normal_ilog2 x exponent Hn) as Hlog.
  pose proof (trunc_bounds x exponent 0 Hn ltac:(lia)) as B0.
  pose proof (trunc_bounds x exponent 2 Hn ltac:(lia)) as B2.
  replace (exponent - w - 2 + 0) with (exponent - w - 2) in B0 by lia.
  replace (exponent - w - 2 + 2) with (exponent - w) in B2 by lia.
  replace (w + 2 - 2) with w in B2 by lia. replace (w + 3 - 2) with (w + 1) in B2 by lia.
  pose proof w_pos. assert (0 < 2 ^ (w + 2 - 0)) by (apply pow2_pos; lia).
  unfold round. rewrite (proj2 (Z.ltb_ge _ _)), (proj2 (Z.ltb_ge _ _)) by lia.
  unfold bind at 1. rewrite round_significand_spec
    by (try apply sticky_holder; replace (w + 3 - 0) with (w + 3) in * by lia; lia).
  rewrite <- !trunc_shr by (assumption || lia).
  replace (exponent - w - 2 + 2) with (exponent - w) by lia.
  replace (exponent - w - 2 + 1) with (exponent - w - 1) by lia.
  unfold bind at 1. rewrite flag_if_run, set_sign_0.
  unfold returns, ieee_round, quantum, tiny. rewrite Hlog.
  assert (Hmin : e0 <= exponent - w) by (unfold e0; lia).
  rewrite Z.max_l, (proj2 (Z.ltb_ge (exponent - w) e0)) by assumption. cbn [andb].
  pose proof (rnd_bounds rm sgn (trunc x (exponent - w - 1))) as Hr.
  rewrite <- trunc_shr in Hr by (assumption || lia).
  replace (exponent - w - 1 + 1) with (exponent - w) in Hr by lia.
  pose proof (rnd_exact rm sgn (trunc x (exponent - w - 1))) as Hx.
  rewrite <- trunc_shr in Hx by (assumption || lia).
  replace (exponent - w - 1 + 1) with (exponent - w) in Hx by lia.
  set (m := rnd rm sgn (trunc x (exponent - w - 1))) in *.
  set (ex := snd (trunc x (exponent - w))) in *.
  rewrite one_shl by lia. rewrite andb_false_r, Z.lor_0_r.
  destruct (Z.eqb_spec m (2 ^ (w + 1))) as [Heq|Hne].
  - assert (ex = false) as -> by (destruct ex; [specialize (Hx eq_refl); lia|reflexivity]).
    cbn [negb andb]. rewrite (proj2 (Z.ltb_ge _ _)) by lia.
    destruct (Z.ltb_spec MAXIMUM_EXPONENT (exponent + 1)).
    + rewrite round_overflow_spec, (overflow_test_true _ _ (w + 1)) by lia.
      rewrite <- Z.lor_assoc. reflexivity.
    + rewrite (overflow_test _ _ (w + 1))
        by (rewrite ?Heq; first [lia | split; [lia|apply Z.pow_lt_mono_r; lia]]).
      rewrite Z.shiftr_div_pow2, Heq, Z.pow_add_r, Z.div_mul by lia.
      rewrite pack_normal
        by (first [lia | split; [lia|apply Z.pow_lt_mono_r; lia]]).
      unfold ret. cbn [fst snd]. do 2 f_equal. unfold encode_finite.
      change (2 ^ 1) with 2. ring.
  - rewrite andb_false_r, (proj2 (Z.ltb_ge _ _)), (proj2 (Z.ltb_ge _ _)) by lia.
    rewrite (overflow_test _ _ w) by lia. rewrite pack_normal by lia. reflexivity.
Qed.

(** Coarser units divide the bound. *)
Lemma coarse_bounds x exponent k d :
  normal_significand x exponent -> 0 <= k <= w + 2 -> 0 <= d ->
  0 <= fst (trunc x (exponent - w - 2 + k + d))
  /\ fst (trunc x (exponent - w - 2 + k + d)) * 2 ^ d < 2 ^ (w + 3 - k).
Proof.
  intros Hn Hk Hd. pose proof (trunc_bounds x exponent k Hn Hk) as B.
  rewrite trunc_shr by (first [lia | apply Hn]). unfold shr; cbn [fst].
  pose proof (pow2_pos d Hd). pose proof (pow2_pos (w + 2 - k) ltac:(lia)).
  pose proof (Z.mul_div_le (fst (trunc x (exponent - w - 2 + k))) (2 ^ d) ltac:(lia)).
  split; [apply Z.div_pos|]; lia.
Qed.

(** What rounding to the subnormal unit can give: at most the smallest normal
    number, that only from the binade below it. *)
Lemma subnormal_rnd sgn rm x exponent :
  normal_significand x exponent -> exponent < MINIMUM_EXPONENT ->
  let m := rnd rm sgn (trunc x (e0 - 1)) in
  let u := rnd rm sgn (trunc x (exponent - w - 1)) in
  0 <= m <= 2 ^ w
  /\ (snd (trunc x e0) = true -> m < 2 ^ w)
  /\ (m = 2 ^ w -> exponent = MINIMUM_EXPONENT - 1)
  /\ (u < 2 ^ (MINIMUM_EXPONENT - (exponent - w)) <-> ~ (m = 2 ^ w /\ u = 2 ^ (w + 1))).
Proof.
  intros Hn He m u. fmt. pose proof (proj1 Hn) as Hpos. pose proof w_pos.
  destruct exponents as (bias & ? & Hmin & Hmax & He0 & _ & _ & Hb).
  set (d := MINIMUM_EXPONENT - exponent) in *.
  destruct (coarse_bounds x exponent 2 d Hn) as [C0 C1]; [lia|lia|].
  replace (exponent - w - 2 + 2 + d) with e0 in * by lia.
  replace (w + 3 - 2) with (w + 1) in * by lia.
  pose proof (rnd_bounds rm sgn (trunc x (e0 - 1))) as Hr.
  pose proof (rnd_exact rm sgn (trunc x (e0 - 1))) as Hx.
  rewrite <- trunc_shr in Hr, Hx by (assumption || lia).
  replace (e0 - 1 + 1) with e0 in * by lia. fold m in Hr, Hx.
  pose proof (trunc_bounds x exponent 2 Hn ltac:(lia)) as B2.
  replace (exponent - w - 2 + 2) with (exponent - w) in B2 by lia.
  replace (w + 3 - 2) with (w + 1) in B2 by lia. replace (w + 2 - 2) with w in B2 by lia.
  pose proof (rnd_bounds rm sgn (trunc x (exponent - w - 1))) as Hu.
  rewrite <- trunc_shr in Hu by (assumption || lia).
  replace (exponent - w - 1 + 1) with (exponent - w) in Hu by lia. fold u in Hu.
  pose proof (pow2_split (w + 1) ltac:(lia)) as Hp. replace (w + 1 - 1) with w in Hp by lia.
  assert (2 ^ 4 <= 2 ^ w) by (apply Z.pow_le_mono_r; lia).
  assert (Hd1 : d = 1 \/ 2 <= d) by lia.
  assert (Hq : fst (trunc x e0) < 2 ^ w /\ (2 <= d -> fst (trunc x e0) + 1 < 2 ^ w)).
  { destruct Hd1 as [->|Hd]; [change (2 ^ 1) with 2 in C1; lia|].
    assert (2 ^ 2 <= 2 ^ d) by (apply Z.pow_le_mono_r; lia). change (2 ^ 2) with 4 in *. nia. }
  split; [lia|]. split; [intros E; specialize (Hx E); lia|]. split; [lia|].
  replace (MINIMUM_EXPONENT - (exponent - w)) with (w + d) by lia.
  destruct Hd1 as [Hd|Hd].
  - rewrite Hd in *. split; [lia|]. intros Hnot.
    destruct (Z.lt_ge_cases u (2 ^ (w + 1))) as [|Hge]; [assumption|].
    assert (u = 2 * 2 ^ w) as Hu2 by lia. exfalso. apply Hnot. split; [|lia].
    unfold m. replace (e0 - 1) with (exponent - w - 1 + 1) by lia.
    rewrite trunc_shr by (assumption || lia).
    apply rnd_coarser; [|exact Hu2].
    rewrite <- trunc_shr by (assumption || lia).
    replace (exponent - w - 1 + 1) with (exponent - w) by lia. lia.
  - assert (2 ^ (w + 2) <= 2 ^ (w + d)) by (apply Z.pow_le_mono_r; lia).
    pose proof (pow2_split (w + 2) ltac:(lia)) as Hp2.
    replace (w + 2 - 1) with (w + 1) in Hp2 by lia. lia.
Qed.

(** An exponent below the normal range: the significand is shifted to the unit
    of the subnormal numbers first. *)
Lemma round_subnormal sgn x exponent rm flags :
  normal_significand x exponent -> exponent < MINIMUM_EXPONENT ->
  round sgn exponent (sticky (trunc x (exponent - w - 2))) rm flags
  = returns (ieee_round rm sgn x) flags.
Proof.
  intros Hn He. fmt. pose proof (proj1 Hn) as Hpos.
  destruct exponents as (bias & ? & Hmin & Hmax & He0 & _ & _ & Hb).
  pose proof (normal_ilog2 x exponent Hn) as Hlog. pose proof w_pos.
  pose proof (trunc_bounds x exponent 0 Hn ltac:(lia)) as B0.
  destruct (coarse_bounds x exponent 0 (MINIMUM_EXPONENT - exponent) Hn) as [C0 C1]; [lia|lia|].
  replace (exponent - w - 2 + 0) with (exponent - w - 2) in * by lia.
  replace (w + 3 - 0) with (w + 3) in * by lia.
  assert (0 < 2 ^ (w + 2 - 0)) by (apply pow2_pos; lia).
  destruct (subnormal_rnd sgn rm x exponent Hn He) as (M0 & M1 & M2 & M3).
  unfold round. rewrite (proj2 (Z.ltb_ge _ _)), (proj2 (Z.ltb_lt _ _)) by lia.
  rewrite right_shift_sticky by
    (first [lia | pose proof (sticky_holder _ (proj2 B0) ltac:(lia));
                  pose proof (sticky_bounds (trunc x (exponent - w - 2))); unfold in_u; lia]).
  rewrite <- trunc_shr by (assumption || lia).
  replace (exponent - w - 2 + (MINIMUM_EXPONENT - exponent)) with (e0 - 2) in * by lia.
  assert (0 < 2 ^ (MINIMUM_EXPONENT - exponent)) by (apply pow2_pos; lia).
  unfold bind at 1. rewrite round_significand_spec by (try apply sticky_holder; nia).
  rewrite <- !trunc_shr by (assumption || lia).
  replace (e0 - 2 + 2) with e0 by lia. replace (e0 - 2 + 1) with (e0 - 1) by lia.
  unfold bind at 1. rewrite flag_if_run, set_sign_0.
  unfold returns, ieee_round, quantum, tiny. rewrite Hlog.
  rewrite Z.max_r, (proj2 (Z.ltb_lt (exponent - w) e0)) by lia. cbn [andb].
  set (m := rnd rm sgn (trunc x (e0 - 1))) in *. set (ex := snd (trunc x e0)) in *.
  set (u := rnd rm sgn (trunc x (exponent - w - 1))) in *.
  pose proof (pow2_split (w + 1) ltac:(lia)) as Hp. replace (w + 1 - 1) with w in Hp by lia.
  rewrite !one_shl by lia.
  rewrite (proj2 (Z.eqb_neq m (2 ^ (w + 1)))), andb_false_r by lia.
  rewrite (proj2 (Z.ltb_lt exponent _)) by lia.
  rewrite (overflow_test _ _ w) by lia.
  destruct (Z.eqb_spec m (2 ^ w)) as [Heq|Hne].
  - assert (ex = false) as -> by (destruct ex; [specialize (M1 eq_refl); lia|reflexivity]).
    unfold bind. rewrite round_significand_spec by (try apply sticky_holder; lia).
    rewrite <- !trunc_shr by (assumption || lia).
    replace (exponent - w - 2 + 1) with (exponent - w - 1) by lia. fold u.
    rewrite flag_if_run, pack_min_normal. cbn [negb andb fst snd]. unfold ret.
    rewrite <- Z.lor_assoc, <- Heq.
    replace (u <? 2 ^ (MINIMUM_EXPONENT - (exponent - w))) with (negb (u =? 2 ^ (w + 1)));
      [reflexivity|].
    apply eq_true_iff_eq. rewrite negb_true_iff, Z.eqb_neq, Z.ltb_lt. intuition.
  - unfold bind. rewrite flag_if_run, pack_subnormal by lia. unfold ret. cbn [fst snd].
    rewrite (proj2 (Z.ltb_lt u _)), andb_true_r by (apply M3; tauto).
    rewrite <- Z.lor_assoc. reflexivity.
Qed.

(** [round] is the rounding of the standard, for any exact value whose
    truncation it is given with two extra bits, the last one sticky. *)
Lemma round_spec sgn x exponent rm flags :
  normal_significand x exponent ->
  round sgn exponent (sticky (trunc x (exponent - w - 2))) rm flags
  = returns (ieee_round rm sgn x) flags.
Proof.
  intros Hn. destruct (Z.lt_ge_cases exponent MINIMUM_EXPONENT);
    [apply round_subnormal; assumption|].
  destruct (Z.lt_ge_cases MAXIMUM_EXPONENT exponent);
    [|apply round_normal; [assumption|lia]].
  unfold round. rewrite (proj2 (Z.ltb_lt _ _)), round_overflow_spec by assumption.
  fmt. unfold returns, ieee_round, quantum. rewrite (normal_ilog2 _ _ Hn).
  rewrite Z.max_l by (unfold e0; lia).
  pose proof (rnd_bounds rm sgn (trunc x (exponent - w - 1))) as Hr.
  rewrite <- trunc_shr in Hr by (first [lia | apply Hn]).
  pose proof (trunc_bounds x exponent 2 Hn ltac:(lia)) as B2.
  replace (exponent - w - 2 + 2) with (exponent - w - 1 + 1) in B2 by lia.
  replace (w + 2 - 2) with w in B2 by lia.
  rewrite (overflow_test_true _ _ w) by (unfold e0; lia). reflexivity.
Qed.

(** ** Normalization *)

(** An exact truncation determines the finer ones. *)
Lemma trunc_finer x e k :
  positive x -> 0 <= k -> snd (trunc x e) = true ->
  trunc x (e - k) = (fst (trunc x e) * 2 ^ k, true).
Proof.
  intros Hx Hk. replace e with (e - k + k) at 1 3 by lia. rewrite trunc_shr by assumption.
  unfold shr; cbn [fst snd]. intros [Hex Hm]%andb_true_iff. apply Z.eqb_eq in Hm.
  destruct (trunc x (e - k)) as [q ex]; cbn [fst snd] in *. subst ex.
  pose proof (pow2_pos k Hk). rewrite (Z.div_mod q (2 ^ k)) at 1 by lia.
  f_equal. rewrite Hm. ring.
Qed.

Lemma log2_sticky p : 0 < fst p -> Z.log2 (sticky p) = Z.log2 (fst p).
Proof.
  intros H. unfold sticky. destruct (snd p); [reflexivity|].
  replace (2 * (fst p / 2) + 1) with (if Z.odd (fst p) then fst p else Z.succ (fst p)).
  - destruct (Z.odd (fst p)) eqn:Ho; [reflexivity|].
    rewrite odd_eqb in Ho. apply Z.eqb_neq in Ho.
    assert (E : fst p = 2 * (fst p / 2)) by (Z.div_mod_to_equations; lia).
    set (h := fst p / 2) in *. rewrite E, <- Z.add_1_r.
    rewrite Z.log2_succ_double, Z.log2_double by lia. reflexivity.
  - rewrite odd_eqb. destruct (Z.eqb_spec (fst p mod 2) 1); Z.div_mod_to_equations; lia.
Qed.

(** The truncation at the logarithm is normal. *)
Lemma ilog2_normal x : positive x -> normal_significand x (ilog2 x).
Proof.
  intros Hx. split; [assumption|]. fmt. pose proof (base_pos x Hx) as Hb.
  assert (Hone : 1 <= fst (trunc x (ilog2 x - w - 2))).
  { unfold ilog2. set (L := Z.log2 (fst (trunc x (base x)))).
    destruct (Z.le_ge_cases L (w + 2)) as [HL|HL].
    - pose proof (trunc_shr x (base x + L - w - 2) (w + 2 - L) Hx ltac:(lia)) as Hs.
      replace (base x + L - w - 2 + (w + 2 - L)) with (base x) in Hs by lia.
      rewrite Hs in Hb. unfold shr in Hb; cbn [fst] in Hb.
      assert (0 < 2 ^ (w + 2 - L)) by (apply pow2_pos; lia).
      pose proof (Z.mul_div_le (fst (trunc x (base x + L - w - 2))) (2 ^ (w + 2 - L)) ltac:(lia)).
      nia.
    - replace (base x + L - w - 2) with (base x + (L - w - 2)) by lia.
      rewrite trunc_shr by (assumption || lia). unfold shr; cbn [fst].
      assert (0 < 2 ^ (L - w - 2)) by (apply pow2_pos; lia).
      apply Z.div_le_lower_bound; [assumption|]. rewrite Z.mul_1_r.
      apply Z.le_trans with (2 ^ L); [apply Z.pow_le_mono_r; lia|].
      apply Z.log2_spec. lia. }
  pose proof (ilog2_trunc x (ilog2 x - w - 2) Hx Hone) as Hlog.
  pose proof (Z.log2_spec (fst (trunc x (ilog2 x - w - 2))) ltac:(lia)) as Hs.
  replace (Z.log2 (fst (trunc x (ilog2 x - w - 2)))) with (w + 2) in Hs by lia.
  replace (w + 3) with (Z.succ (w + 2)) by lia. assumption.
Qed.

(** The bits a significand needs before [normalize]: something to normalize,
    and full precision when it is not exact. *)
Definition enough_bits (p : Z * bool) : Prop :=
  0 < fst p /\ (snd p = false -> 2 ^ (w + 2) <= fst p).

Lemma normalize_spec tw x exponent :
  positive x -> 0 <= tw -> enough_bits (trunc x (exponent - w - 2)) ->
  in_u tw (sticky (trunc x (exponent - w - 2))) ->
  normalize tw exponent (sticky (trunc x (exponent - w - 2)))
  = (ilog2 x, sticky (trunc x (ilog2 x - w - 2)))
  /\ normal_significand x (ilog2 x).
Proof.
  intros Hx Htw [Hq Hinex] Hin. fmt. pose proof w_pos.
  set (p := trunc x (exponent - w - 2)) in *.
  assert (Hlog : ilog2 x = exponent + (Z.log2 (fst p) - 2 - w))
    by (rewrite (ilog2_trunc x (exponent - w - 2)) by (assumption || (fold p; lia)); fold p; lia).
  pose proof (ilog2_normal x Hx) as Hn.
  split; [|assumption]. unfold normalize, log2_floor.
  pose proof (sticky_bounds p). rewrite (proj2 (Z.eqb_neq _ _)) by lia.
  rewrite log2_sticky by assumption. set (d := Z.log2 (fst p) - 2 - w) in *.
  pose proof (trunc_bounds x _ 0 Hn ltac:(lia)) as B.
  replace (ilog2 x - w - 2 + 0) with (ilog2 x - w - 2) in B by lia.
  replace (w + 3 - 0) with (w + 3) in B by lia.
  assert (0 < 2 ^ (w + 2 - 0)) by (apply pow2_pos; lia).
  assert (Hfit : wrap HOLDER (sticky (trunc x (ilog2 x - w - 2))) = sticky (trunc x (ilog2 x - w - 2))).
  { apply wrap_id. pose proof (sticky_holder _ (proj2 B) ltac:(lia)).
    pose proof (sticky_bounds (trunc x (ilog2 x - w - 2))). unfold in_u. lia. }
  f_equal; [lia|]. destruct (Z.leb_spec d 0) as [Hd|Hd].
  - destruct (Z.eq_dec d 0) as [E|E].
    + rewrite E, Z.shiftl_0_r. replace p with (trunc x (ilog2 x - w - 2)) by (unfold p; f_equal; lia).
      rewrite !Hfit. reflexivity.
    + assert (Hex : snd p = true).
      { destruct (snd p) eqn:Ep; [reflexivity|]. specialize (Hinex eq_refl).
        apply Z.log2_le_mono in Hinex. rewrite Z.log2_pow2 in Hinex by lia. lia. }
      assert (Hf : trunc x (ilog2 x - w - 2) = (fst p * 2 ^ (- d), true)).
      { unfold p. rewrite <- trunc_finer by (assumption || lia). f_equal. lia. }
      rewrite Hf in *. unfold sticky in *. rewrite Hex in *. cbn [fst snd] in *.
      rewrite Z.shiftl_mul_pow2 by lia. rewrite (wrap_id HOLDER (fst p)); [assumption|].
      assert (1 <= 2 ^ (- d)) by (pose proof (pow2_pos (- d) ltac:(lia)); lia).
      pose proof (sticky_holder (fst p * 2 ^ (- d), true) (proj2 B) ltac:(cbn [fst]; lia)).
      unfold sticky in *; cbn [fst snd] in *. unfold in_u. nia.
  - rewrite right_shift_sticky by (assumption || lia). unfold p.
    rewrite <- trunc_shr by (assumption || lia).
    replace (exponent - w - 2 + d) with (ilog2 x - w - 2) by lia. apply Hfit.
Qed.

Lemma normalize_and_round_spec tw sgn x exponent rm flags :
  positive x -> 0 <= tw -> enough_bits (trunc x (exponent - w - 2)) ->
  in_u tw (sticky (trunc x (exponent - w - 2))) ->
  normalize_and_round tw sgn exponent (sticky (trunc x (exponent - w - 2))) rm flags
  = returns (ieee_round rm sgn x) flags.
Proof.
  intros Hx Htw He Hin. unfold normalize_and_round.
  destruct (normalize_spec tw x exponent Hx Htw He Hin) as [-> Hn]. apply round_spec. assumption.
Qed.

End Round.
