(* ===== verification/SoftfpArith.v ===== *)
(** The arithmetic of lib/softfp/src/fp.rs against the specification: addition,
    subtraction, multiplication, division, square root and fused multiply-add
    return the correctly rounded result and raise the flags of the standard, for
    all operands, rounding modes and formats that satisfy [FpDescLaws]. *)

From Stdlib Require Import ZArith Lia Bool List.
From S2P Require Import Prelude Softfp SoftfpSpec SoftfpRound.
Import Fp.
Local Open Scope Z_scope.
Local Open Scope rust_scope.
Local Open Scope fp_scope.

Ltac fmtw := fmt; pose proof w_pos.

Section Operands.
Context {Desc : FpDesc} {Laws : FpDescLaws Desc}.

Local Notation w := (@SIGNIFICAND_WIDTH Desc).
Local Notation ew := (@EXPONENT_WIDTH Desc).
Local Notation INF := (@INFINITY_BIASED_EXPONENT Desc).
Local Notation MIN := (@MINIMUM_EXPONENT Desc).
Local Notation e0 := (@e0 Desc).

(** ** Operands *)

(** Exponent and significand of a finite number, without the rounding bits. *)
Definition expo (be : Z) : Z := if be =? 0 then MIN else be - EXPONENT_BIAS.
Definition mant (be t : Z) : Z := if be =? 0 then t else t + 2 ^ w.

Section Fields.
Context (sgn : bool) (be t : Z) (Hok : fields_ok be t).

Lemma is_nan_pack : is_nan (pack sgn be t) = (be =? INF) && (t <>? 0).
Proof. unfold is_nan. rewrite biased_pack, trailing_pack by assumption. reflexivity. Qed.

Lemma is_infinite_pack : is_infinite (pack sgn be t) = (be =? INF) && (t =? 0).
Proof. unfold is_infinite. rewrite biased_pack, trailing_pack by assumption. reflexivity. Qed.

Lemma is_zero_pack : is_zero (pack sgn be t) = (be =? 0) && (t =? 0).
Proof. unfold is_zero. rewrite biased_pack, trailing_pack by assumption. reflexivity. Qed.

Lemma is_signaling_nan : is_signaling (pack sgn be t) = true -> is_nan (pack sgn be t) = true.
Proof.
  rewrite is_nan_pack. unfold is_signaling. rewrite biased_pack, trailing_pack by assumption.
  destruct (be =? INF), (t =? 0); cbn; congruence.
Qed.

Lemma expo_range : MIN <= expo be.
Proof.
  unfold expo. destruct (exponents (Desc := Desc)) as (bias & -> & -> & _).
  pose proof Hok as [? ?]. unfold in_u in *. destruct (Z.eqb_spec be 0); lia.
Qed.

Lemma mant_range : 0 <= mant be t < 2 ^ (w + 1).
Proof.
  fmtw. pose proof Hok as [? ?]. unfold in_u in *. unfold mant.
  rewrite Z.pow_add_r by lia. change (2 ^ 1) with 2. destruct (be =? 0); lia.
Qed.

Lemma units_pack : units (pack sgn be t) = mant be t * 2 ^ (expo be - MIN).
Proof.
  unfold units, mant, expo. rewrite biased_pack, trailing_pack by assumption.
  destruct (exponents (Desc := Desc)) as (bias & -> & -> & _).
  destruct (Z.eqb_spec be 0); [rewrite Z.sub_diag; lia|]. f_equal. f_equal. lia.
Qed.

Lemma mant_shift : (t .| (1 << w)) = t + 2 ^ w.
Proof.
  fmtw. pose proof Hok as [? ?]. rewrite one_shl by lia.
  rewrite <- (Z.mul_1_l (2 ^ w)). apply lor_add_low; [lia|assumption].
Qed.

Lemma shl2_fits m : 0 <= m < 2 ^ (w + 1) -> wrap HOLDER (m << 2) = 4 * m.
Proof.
  intros Hm. fmtw. rewrite Z.shiftl_mul_pow2 by lia. change (2 ^ 2) with 4. rewrite wrap_id; [lia|].
  unfold in_u. assert (2 ^ (w + 3) <= 2 ^ HOLDER) by (apply Z.pow_le_mono_r; lia).
  replace (w + 3) with (w + 1 + 2) in * by lia. rewrite (Z.pow_add_r 2 (w + 1) 2) in * by lia. lia.
Qed.

Lemma get_significand_pack rm flags :
  be <> INF -> get_significand (pack sgn be t) rm flags = Some ((expo be, 4 * mant be t), flags).
Proof.
  intros Hb. unfold get_significand. rewrite biased_pack, trailing_pack by assumption.
  rewrite (proj2 (Z.eqb_neq _ _)) by assumption. rewrite mant_shift.
  pose proof mant_range as Hm. unfold expo, mant in *.
  destruct (be =? 0); rewrite shl2_fits by assumption; reflexivity.
Qed.

(** The normalized significand is a multiple of four, and stands for the same
    magnitude. *)
Lemma get_normalized_pack rm flags :
  be <> INF -> 0 < mant be t ->
  exists e s,
    get_normalized_significand (pack sgn be t) rm flags = Some ((e, 4 * s), flags)
    /\ 2 ^ w <= s < 2 ^ (w + 1)
    /\ e0 <= e <= expo be /\ s * 2 ^ (e - e0) = units (pack sgn be t) * 2 ^ w.
Proof.
  intros Hb Hm. fmtw. pose proof Hok as [Hbe Ht]. unfold in_u in *.
  pose proof (pow2_split (w + 1) ltac:(lia)) as Hp. replace (w + 1 - 1) with w in Hp by lia.
  unfold get_normalized_significand. rewrite units_pack, biased_pack, trailing_pack by assumption.
  rewrite (proj2 (Z.eqb_neq be INF)) by assumption. rewrite mant_shift.
  unfold expo, mant in *. pose proof expo_range as He. unfold expo in He.
  destruct (Z.eqb_spec be 0) as [->|Hz]; cbn [andb orb].
  - rewrite (proj2 (Z.eqb_neq t 0)) by lia. unfold log2_floor.
    rewrite (proj2 (Z.eqb_neq t 0)) by lia.
    pose proof (Z.log2_spec t Hm) as Hl. pose proof (Z.log2_nonneg t).
    assert (Z.log2 t < w) by (apply Z.log2_lt_pow2; lia).
    set (d := w - Z.log2 t) in *. exists (MIN - d), (t * 2 ^ d).
    assert (2 ^ w = 2 ^ Z.log2 t * 2 ^ d) as Hw
      by (rewrite <- Z.pow_add_r by lia; f_equal; lia).
    assert (0 < 2 ^ d) by (apply pow2_pos; lia).
    rewrite Z.pow_succ_r in Hl by lia.
    assert (2 ^ w <= t * 2 ^ d < 2 ^ (w + 1)) by nia.
    assert (e0 = MIN - w) as Hed by reflexivity.
    split; [|split; [assumption|split; [lia|]]].
    + unfold ret. do 3 f_equal. rewrite Z.shiftl_mul_pow2, Z.pow_add_r, Z.mul_assoc by lia.
      rewrite <- Z.shiftl_mul_pow2 by lia. apply shl2_fits. lia.
    + rewrite Z.sub_diag. replace (MIN - d - e0) with (Z.log2 t) by lia. rewrite Hw. ring.
  - exists (be - EXPONENT_BIAS), (t + 2 ^ w). rewrite shl2_fits by lia.
    split; [reflexivity|]. split; [lia|].
    assert (e0 = MIN - w) as Hed by reflexivity. split; [lia|].
    replace (be - EXPONENT_BIAS - e0) with (be - EXPONENT_BIAS - MIN + w) by lia.
    rewrite Z.pow_add_r by lia. ring.
Qed.

End Fields.

(** The powers of two next to the significand width, as multiples of [2 ^ w]. *)
Lemma w_powers :
  2 ^ (w + 1) = 2 * 2 ^ w /\ 2 ^ (w + 2) = 4 * 2 ^ w /\ 2 ^ (w + 3) = 8 * 2 ^ w
  /\ 2 ^ (w + 4) = 16 * 2 ^ w /\ 2 ^ (w + 5) = 32 * 2 ^ w /\ 16 * 2 ^ w * 2 <= 2 ^ HOLDER
  /\ 16 <= 2 ^ w.
Proof.
  fmtw. assert (2 ^ (w + 5) <= 2 ^ HOLDER) by (apply Z.pow_le_mono_r; lia).
  assert (2 ^ 4 <= 2 ^ w) by (apply Z.pow_le_mono_r; lia).
  rewrite !Z.pow_add_r in * by lia.
  change (2 ^ 1) with 2. change (2 ^ 2) with 4. change (2 ^ 3) with 8.
  change (2 ^ 4) with 16 in *. change (2 ^ 5) with 32 in *. lia.
Qed.

Lemma e0_eq : e0 = MIN - w. Proof. reflexivity. Qed.

End Operands.

(** Numeric facts about the format, for linear arithmetic. *)
Ltac powers :=
  fmtw; pose proof w_powers as (? & ? & ? & ? & ? & ? & ?); pose proof e0_eq.

Section Arith.
Context {Desc : FpDesc} {Laws : FpDescLaws Desc}.

Local Notation w := (@SIGNIFICAND_WIDTH Desc).
Local Notation ew := (@EXPONENT_WIDTH Desc).
Local Notation INF := (@INFINITY_BIASED_EXPONENT Desc).
Local Notation MIN := (@MINIMUM_EXPONENT Desc).
Local Notation e0 := (@e0 Desc).

Lemma units_nonneg sgn be t : fields_ok be t -> 0 <= units (pack sgn be t).
Proof.
  intros Hok. rewrite units_pack by assumption. pose proof (mant_range be t Hok).
  pose proof (expo_range be t Hok). assert (0 < 2 ^ (expo be - MIN)) by (apply pow2_pos; lia). nia.
Qed.

(** The significand that [get_significand] gives, in units of [2 ^ e0]. *)
Lemma units_significand sgn be t :
  fields_ok be t ->
  4 * mant be t * 2 ^ (expo be - e0) = units (pack sgn be t) * 2 ^ (w + 2).
Proof.
  intros Hok. powers. rewrite units_pack by assumption. pose proof (expo_range be t Hok).
  replace (expo be - e0) with (expo be - MIN + w) by lia.
  rewrite !Z.pow_add_r by lia. change (2 ^ 2) with 4. ring.
Qed.

Lemma right_shift_is_quo tw s n :
  in_u tw s -> 0 <= n -> 0 <= tw -> right_shift tw s n = sticky (quo s (2 ^ n)).
Proof. intros. rewrite right_shift_quo by assumption. reflexivity. Qed.

Lemma sticky_half p : sticky p / 2 = fst p / 2.
Proof. unfold sticky. destruct (snd p); [reflexivity|]. Z.div_mod_to_equations; lia. Qed.

Lemma quo_nonneg n d : 0 <= n -> 0 < d -> 0 <= fst (quo n d) <= n.
Proof.
  intros. unfold quo; cbn [fst]. split; [apply Z.div_pos; lia|].
  apply Z.div_le_upper_bound; nia.
Qed.

(** A small multiple of the smallest number is representable. *)
Lemma ieee_round_small rm sgn n :
  0 < n < 2 ^ (w + 1) -> ieee_round rm sgn (Ratio n 1 e0) = (encode_finite sgn n e0, 0).
Proof.
  intros Hn. powers. destruct (exponents (Desc := Desc)) as (bias & _ & ? & ? & ? & _ & _ & ?).
  assert (Hx : positive (Ratio n 1 e0)) by (cbn; lia).
  assert (Ht : trunc (Ratio n 1 e0) e0 = (n, true))
    by (rewrite (trunc_quo n 1 e0 e0 n 1 0 0) by lia; apply quo_1).
  assert (Hl : ilog2 (Ratio n 1 e0) = e0 + Z.log2 n)
    by (rewrite (ilog2_trunc _ e0), Ht by (rewrite ?Ht; cbn; lia); reflexivity).
  assert (Z.log2 n < w + 1) by (apply Z.log2_lt_pow2; lia).
  unfold ieee_round, quantum. rewrite Hl, Z.max_r by lia. rewrite Ht.
  rewrite rnd_exact, <- trunc_shr; replace (e0 - 1 + 1) with e0 by lia;
    rewrite ?Ht; try reflexivity; try lia; try assumption.
  2:{ rewrite <- trunc_shr by (assumption || lia). replace (e0 - 1 + 1) with e0 by lia.
      rewrite Ht. reflexivity. }
  cbn [fst snd negb andb]. rewrite (overflow_test _ _ w) by lia. reflexivity.
Qed.

Lemma set_sign_magnitude v sgn : in_u (ew + w) v -> set_sign v sgn = sign_bit sgn + v.
Proof.
  intros Hv. fmtw. destruct (unpack v) as (s & be & t & -> & Hok).
  { apply (in_u_mono (ew + w)); [lia|assumption]. }
  rewrite set_sign_pack by assumption. destruct s; [|unfold pack, sign_bit; lia].
  exfalso. destruct Hok as [? ?]. unfold in_u, pack, sign_bit in *. nia.
Qed.

(** ** Addition *)

(** The order of magnitudes is the order of the remaining bits. *)
Definition magnitude (be t : Z) : Z := be * 2 ^ w + t.

Lemma magnitude_expo be t be' t' :
  fields_ok be t -> fields_ok be' t' -> magnitude be' t' <= magnitude be t ->
  be' <= be /\ expo be' <= expo be /\ (expo be' = expo be -> mant be' t' <= mant be t)
  /\ (expo be' < expo be -> 2 ^ w <= mant be t).
Proof.
  unfold fields_ok, in_u, magnitude; intros [? ?] [? ?] Hm. fmtw.
  destruct (exponents (Desc := Desc)) as (bias & HB & HM & _).
  assert (be' <= be) by nia. unfold expo, mant. rewrite HB, HM.
  destruct (Z.eqb_spec be 0), (Z.eqb_spec be' 0); repeat split; try nia.
Qed.

Lemma add_magnitude_subnormal sgn t t' rm flags :
  fields_ok 0 t -> fields_ok 0 t' ->
  add_magnitude (pack sgn 0 t) (pack sgn 0 t') rm flags
  = returns (if t + t' =? 0 then (zero sgn, 0) else ieee_round rm sgn (Ratio (t + t') 1 e0)) flags.
Proof.
  intros Ha Hb. powers. destruct (exponents (Desc := Desc)) as (bias & _ & _ & _ & _ & Hinf & Hew & ?).
  unfold add_magnitude. rewrite is_infinite_pack, biased_pack, !trailing_pack, sign_pack by assumption.
  rewrite (proj2 (Z.eqb_neq 0 INF)) by lia. cbn [andb Z.eqb].
  destruct Ha as [_ ?], Hb as [_ ?]. unfold in_u in *.
  rewrite wrap_id by (unfold in_u; lia). unfold ret, returns.
  rewrite set_sign_magnitude by (unfold in_u; rewrite Z.pow_add_r by lia; nia).
  destruct (Z.eqb_spec (t + t') 0) as [->|]; cbn [fst snd].
  - unfold zero. rewrite set_sign_0. unfold pack. rewrite Z.lor_0_r. do 2 f_equal. lia.
  - rewrite ieee_round_small by lia. cbn [fst snd]. rewrite Z.lor_0_r. do 2 f_equal.
    unfold encode_finite. lia.
Qed.

Lemma bind_run {A B} (m : FpM A) (k : A -> FpM B) rm flags a flags' :
  m rm flags = Some (a, flags') -> bind m k rm flags = k a rm flags'.
Proof. unfold bind; intros ->; reflexivity. Qed.

(** The sum of two magnitudes, truncated at the unit of the greater one. *)
Lemma trunc_sum sgn sgn' be t be' t' :
  fields_ok be t -> fields_ok be' t' -> expo be' <= expo be ->
  trunc (Ratio (units (pack sgn be t) + units (pack sgn' be' t')) 1 e0) (expo be - w - 2)
  = quo (4 * mant be t * 2 ^ (expo be - expo be') + 4 * mant be' t') (2 ^ (expo be - expo be')).
Proof.
  intros Ha Hb He. powers. pose proof (expo_range be t Ha). pose proof (expo_range be' t' Hb).
  assert (0 < 2 ^ (expo be - expo be')) by (apply pow2_pos; lia).
  apply (trunc_quo _ _ _ _ _ _ (w + 2) (expo be - e0)); try lia.
  pose proof (units_significand sgn be t Ha) as Ua.
  pose proof (units_significand sgn' be' t' Hb) as Ub.
  replace (expo be - e0) with (expo be - expo be' + (expo be' - e0)) in * by lia.
  rewrite Z.pow_add_r in Ua by lia. rewrite (Z.pow_add_r 2 (expo be - expo be')) by lia.
  nia.
Qed.

Lemma add_magnitude_normal sgn be t be' t' rm flags :
  fields_ok be t -> fields_ok be' t' -> 0 < be < INF -> magnitude be' t' <= magnitude be t ->
  add_magnitude (pack sgn be t) (pack sgn be' t') rm flags
  = returns (ieee_round rm sgn (Ratio (units (pack sgn be t) + units (pack sgn be' t')) 1 e0)) flags.
Proof.
  intros Ha Hb Hbe Hmag. powers.
  destruct (exponents (Desc := Desc)) as (bias & HB & HM & _ & _ & Hinf & Hew & ?).
  destruct (magnitude_expo _ _ _ _ Ha Hb Hmag) as (Hle & He & _ & _).
  pose proof (trunc_sum sgn sgn _ _ _ _ Ha Hb He) as Ht.
  set (x := Ratio _ 1 e0) in *.
  pose proof (mant_range _ _ Ha) as Ma. pose proof (mant_range _ _ Hb) as Mb.
  assert (2 ^ w <= mant be t)
    by (unfold mant; rewrite (proj2 (Z.eqb_neq be 0)) by lia; destruct Ha as [? ?]; unfold in_u in *; lia).
  pose proof (expo_range _ _ Hb).
  assert (expo be <= bias) by (unfold expo; rewrite (proj2 (Z.eqb_neq be 0)) by lia; lia).
  set (n := expo be - expo be') in *. assert (0 < 2 ^ n) by (apply pow2_pos; lia).
  assert (Hx : positive x).
  { subst x. cbn. split; [|lia]. pose proof (units_nonneg sgn be' t' Hb).
    rewrite (units_pack sgn be t) by assumption.
    assert (0 < 2 ^ (expo be - MIN)) by (apply pow2_pos; lia). nia. }
  unfold add_magnitude.
  rewrite is_infinite_pack, biased_pack, sign_pack by assumption.
  rewrite (proj2 (Z.eqb_neq be INF)), (proj2 (Z.eqb_neq be 0)) by lia. cbn [andb].
  rewrite (bind_run _ _ _ _ _ _ (get_significand_pack sgn be t Ha rm flags ltac:(lia))).
  rewrite (bind_run _ _ _ _ _ _ (get_significand_pack sgn be' t' Hb rm flags ltac:(lia))).
  assert (in_u HOLDER (4 * mant be' t')) by (unfold in_u; lia).
  replace (if expo be <>? expo be'
           then right_shift HOLDER (4 * mant be' t') (u32 (expo be - expo be'))
           else 4 * mant be' t') with (sticky (quo (4 * mant be' t') (2 ^ n))).
  2:{ rewrite <- right_shift_is_quo with (tw := HOLDER) by (assumption || lia).
      destruct (Z.eqb_spec (expo be) (expo be')) as [E|E]; cbn [negb].
      - replace n with 0 by lia. rewrite right_shift_is_quo, quo_1 by (assumption || lia). reflexivity.
      - unfold u32. rewrite wrap_id by (unfold in_u; lia). reflexivity. }
  assert (Hq : 0 <= fst (quo (4 * mant be' t') (2 ^ n)) <= 4 * mant be' t')
    by (apply quo_nonneg; lia).
  pose proof (sticky_bounds (quo (4 * mant be' t') (2 ^ n))).
  assert (Hsum : 4 * mant be t + sticky (quo (4 * mant be' t') (2 ^ n))
                 = sticky (trunc x (expo be - w - 2))).
  { rewrite Ht, sticky_add; [reflexivity|lia|].
    replace (4 * mant be t) with (2 * mant be t * 2) by ring. apply Z.mod_mul. lia. }
  rewrite wrap_id, Hsum by (unfold in_u; lia). clear Hsum.
  assert (Hfst : fst (trunc x (expo be - w - 2)) = 4 * mant be t + fst (quo (4 * mant be' t') (2 ^ n)))
    by (rewrite Ht; unfold quo; cbn [fst]; rewrite Z.div_add_l by lia; reflexivity).
  set (p := trunc x (expo be - w - 2)) in *. pose proof (sticky_bounds p). pose proof (sticky_half p).
  rewrite one_shl, land_pow2 by lia.
  assert (Hbit : Z.testbit (sticky p) (w + 3) = (2 ^ (w + 3) <=? sticky p)).
  { rewrite Z.testbit_eqb by lia. destruct (Z.leb_spec (2 ^ (w + 3)) (sticky p)).
    - replace (sticky p / 2 ^ (w + 3)) with 1; [reflexivity|].
      apply Z.div_unique with (sticky p - 2 ^ (w + 3)); lia.
    - rewrite Z.div_small by lia. reflexivity. }
  rewrite Hbit. destruct (Z.leb_spec (2 ^ (w + 3)) (sticky p)) as [Hc|Hc].
  - rewrite (proj2 (Z.eqb_neq _ _)) by lia. cbn [negb].
    rewrite right_shift_sticky by (unfold in_u; lia). subst p.
    rewrite <- trunc_shr by (assumption || lia).
    replace (expo be - w - 2 + 1) with (expo be + 1 - w - 2) by lia.
    apply round_spec. split; [assumption|].
    replace (expo be + 1 - w - 2) with (expo be - w - 2 + 1) by lia.
    rewrite trunc_shr by (assumption || lia). unfold shr; cbn [fst]. change (2 ^ 1) with 2.
    Z.div_mod_to_equations; lia.
  - cbn [negb Z.eqb]. apply round_spec. split; [assumption|]. fold p. lia.
Qed.

(** ** Subtraction of magnitudes *)

Lemma trunc_diff sgn sgn' be t be' t' k :
  fields_ok be t -> fields_ok be' t' -> expo be' <= expo be -> 0 <= k ->
  trunc (Ratio (units (pack sgn be t) - units (pack sgn' be' t')) 1 e0) (expo be - k - w - 2)
  = quo (4 * 2 ^ k * mant be t * 2 ^ (expo be - expo be') - 4 * 2 ^ k * mant be' t')
        (2 ^ (expo be - expo be')).
Proof.
  intros Ha Hb He Hk. powers. pose proof (expo_range be t Ha). pose proof (expo_range be' t' Hb).
  assert (0 < 2 ^ (expo be - expo be')) by (apply pow2_pos; lia).
  apply (trunc_quo _ _ _ _ _ _ (w + 2 + k) (expo be - e0)); try lia.
  pose proof (units_significand sgn be t Ha) as Ua.
  pose proof (units_significand sgn' be' t' Hb) as Ub.
  replace (expo be - e0) with (expo be - expo be' + (expo be' - e0)) in * by lia.
  rewrite Z.pow_add_r in Ua by lia. rewrite (Z.pow_add_r 2 (expo be - expo be')) by lia.
  rewrite (Z.pow_add_r 2 (w + 2) k) by lia. set (c := 2 ^ k). clearbody c.
  transitivity ((units (pack sgn be t) * 2 ^ (w + 2) - units (pack sgn' be' t') * 2 ^ (w + 2))
                * 2 ^ (expo be - expo be') * c); [ring|]. rewrite <- Ua, <- Ub. ring.
Qed.

(** The difference of the units, as a difference of significands. *)
Lemma units_diff sgn sgn' be t be' t' :
  fields_ok be t -> fields_ok be' t' -> expo be' <= expo be ->
  units (pack sgn be t) - units (pack sgn' be' t')
  = (mant be t * 2 ^ (expo be - expo be') - mant be' t') * 2 ^ (expo be' - MIN).
Proof.
  intros Ha Hb He. pose proof (expo_range be' t' Hb). rewrite !units_pack by assumption.
  replace (expo be - MIN) with (expo be - expo be' + (expo be' - MIN)) by lia.
  rewrite Z.pow_add_r by lia. ring.
Qed.

Lemma subtract_same_exponent sgn sgn' be t be' t' rm flags :
  fields_ok be t -> fields_ok be' t' -> be < INF -> magnitude be' t' <= magnitude be t ->
  expo be' = expo be ->
  let v := units (pack sgn be t) - units (pack sgn' be' t') in
  subtract_magnitude (pack sgn be t) (pack sgn' be' t') rm flags
  = returns (if v =? 0 then (zero_sum rm, 0) else ieee_round rm sgn (Ratio v 1 e0)) flags.
Proof.
  intros Ha Hb Hbe Hmag He v. powers.
  destruct (magnitude_expo _ _ _ _ Ha Hb Hmag) as (Hle & _ & Hm & _). specialize (Hm He).
  pose proof (mant_range _ _ Ha) as Ma. pose proof (mant_range _ _ Hb) as Mb.
  pose proof (expo_range _ _ Hb).
  pose proof (units_diff sgn sgn' _ _ _ _ Ha Hb ltac:(lia)) as Hv.
  pose proof (trunc_diff sgn sgn' _ _ _ _ 0 Ha Hb ltac:(lia) ltac:(lia)) as Ht.
  rewrite He, Z.sub_diag, !Z.pow_0_r, !Z.mul_1_r in Hv, Ht. rewrite quo_1 in Ht. fold v in Hv, Ht.
  change (4 * 1) with 4 in Ht.
  replace (expo be - 0 - w - 2) with (expo be - w - 2) in Ht by lia.
  assert (0 < 2 ^ (expo be - MIN)) by (apply pow2_pos; lia).
  unfold subtract_magnitude. rewrite is_infinite_pack, sign_pack by assumption.
  rewrite (proj2 (Z.eqb_neq be INF)) by lia. cbn [andb].
  rewrite (bind_run _ _ _ _ _ _ (get_significand_pack sgn be t Ha rm flags ltac:(lia))).
  rewrite (bind_run _ _ _ _ _ _ (get_significand_pack sgn' be' t' Hb rm flags ltac:(lia))).
  rewrite He, Z.eqb_refl, wrap_id by (unfold in_u; lia).
  destruct (Z.eqb_spec v 0) as [E|E].
  - rewrite (proj2 (Z.eqb_eq _ 0)) by nia.
    unfold cancellation_zero, bind, get_rounding_mode, ret, returns, zero_sum; cbn [fst snd].
    rewrite Z.lor_0_r. reflexivity.
  - rewrite (proj2 (Z.eqb_neq _ 0)) by nia.
    change (4 * mant be t - 4 * mant be' t') with (sticky (4 * mant be t - 4 * mant be' t', true)).
    assert (mant be' t' < mant be t) by nia. assert (0 < v) by nia.
    rewrite <- Ht. apply normalize_and_round_spec; rewrite ?Ht.
    + cbn [positive]. lia.
    + lia.
    + split; cbn [fst snd]; [lia|discriminate].
    + unfold sticky, in_u; cbn [fst snd]. lia.
Qed.

Lemma subtract_different_exponent sgn sgn' be t be' t' rm flags :
  fields_ok be t -> fields_ok be' t' -> be < INF -> magnitude be' t' <= magnitude be t ->
  expo be' < expo be ->
  let v := units (pack sgn be t) - units (pack sgn' be' t') in
  0 < v /\
  subtract_magnitude (pack sgn be t) (pack sgn' be' t') rm flags
  = returns (ieee_round rm sgn (Ratio v 1 e0)) flags.
Proof.
  intros Ha Hb Hbe Hmag He v. powers.
  destruct (exponents (Desc := Desc)) as (bias & HB & HM & _ & _ & Hinf & Hew & ?).
  destruct (magnitude_expo _ _ _ _ Ha Hb Hmag) as (Hle & _ & _ & Hm). specialize (Hm He).
  pose proof (mant_range _ _ Ha) as Ma. pose proof (mant_range _ _ Hb) as Mb.
  pose proof (expo_range _ _ Hb).
  pose proof (units_diff sgn sgn' _ _ _ _ Ha Hb ltac:(lia)) as Hv.
  pose proof (trunc_diff sgn sgn' _ _ _ _ 1 Ha Hb ltac:(lia) ltac:(lia)) as Ht.
  fold v in Hv, Ht. change (4 * 2 ^ 1) with 8 in Ht.
  assert (expo be <= bias) by (unfold expo in *; destruct (be =? 0); lia).
  set (n := expo be - expo be') in *.
  assert (0 < 2 ^ (expo be' - MIN)) by (apply pow2_pos; lia).
  assert (2 ^ 1 <= 2 ^ n) by (apply Z.pow_le_mono_r; lia). change (2 ^ 1) with 2 in *.
  assert (mant be' t' < mant be t * 2 ^ n) by nia.
  assert (0 < v) by nia. split; [assumption|].
  unfold subtract_magnitude. rewrite is_infinite_pack, sign_pack by assumption.
  rewrite (proj2 (Z.eqb_neq be INF)) by lia. cbn [andb].
  rewrite (bind_run _ _ _ _ _ _ (get_significand_pack sgn be t Ha rm flags ltac:(lia))).
  rewrite (bind_run _ _ _ _ _ _ (get_significand_pack sgn' be' t' Hb rm flags ltac:(lia))).
  rewrite (proj2 (Z.eqb_neq (expo be) _)) by lia.
  rewrite !Z.shiftl_mul_pow2 by lia. change (2 ^ 1) with 2.
  unfold u32. rewrite !(wrap_id HOLDER (_ * 2)), (wrap_id 32) by (unfold in_u; lia). fold n.
  rewrite right_shift_is_quo by (unfold in_u; lia).
  replace (4 * mant be t * 2) with (8 * mant be t) by ring.
  replace (4 * mant be' t' * 2) with (8 * mant be' t') by ring.
  assert (Hq : fst (quo (8 * mant be' t') (2 ^ n)) * 2 ^ n <= 8 * mant be' t').
  { unfold quo; cbn [fst]. rewrite Z.mul_comm. apply Z.mul_div_le. lia. }
  assert (0 <= fst (quo (8 * mant be' t') (2 ^ n)) <= 8 * mant be' t')
    by (apply quo_nonneg; lia).
  pose proof (sticky_bounds (quo (8 * mant be' t') (2 ^ n))).
  assert (Hs : 8 * mant be t - sticky (quo (8 * mant be' t') (2 ^ n))
               = sticky (trunc (Ratio v 1 e0) (expo be - 1 - w - 2))).
  { rewrite Ht, sticky_sub; [reflexivity|lia|].
    replace (8 * mant be t) with (4 * mant be t * 2) by ring. apply Z.mod_mul. lia. }
  rewrite wrap_id, Hs by (unfold in_u; nia).
  apply normalize_and_round_spec; [cbn; lia|lia| |rewrite <- Hs; unfold in_u; nia].
  pose proof (sticky_bounds (trunc (Ratio v 1 e0) (expo be - 1 - w - 2))).
  split; [nia|]. rewrite Ht. unfold quo at 1; cbn [snd]. intros Hinex.
  assert (Hn4 : 4 <= n).
  { destruct (Z.le_gt_cases 4 n); [assumption|]. exfalso. apply Z.eqb_neq in Hinex. apply Hinex.
    assert (8 = 2 ^ (3 - n) * 2 ^ n) as E8 by (rewrite <- Z.pow_add_r by lia; replace (3 - n + n) with 3 by lia; reflexivity).
    replace (8 * mant be t * 2 ^ n - 8 * mant be' t')
      with ((8 * mant be t - 2 ^ (3 - n) * mant be' t') * 2 ^ n) by (rewrite E8 at 3; ring).
    apply Z.mod_mul. lia. }
  assert (2 ^ 4 <= 2 ^ n) by (apply Z.pow_le_mono_r; lia). change (2 ^ 4) with 16 in *.
  rewrite <- Ht. nia.
Qed.

(** ** Sums *)

Lemma biased_le_inf be t : fields_ok be t -> be <= INF.
Proof.
  destruct (exponents (Desc := Desc)) as (bias & _ & _ & _ & _ & -> & Hew & _).
  intros [? _]. unfold in_u in *. lia.
Qed.

Lemma total_order_magnitude_pack sgn sgn' be t be' t' :
  fields_ok be t -> fields_ok be' t' ->
  total_order_magnitude (pack sgn be t) (pack sgn' be' t') = (magnitude be t ?= magnitude be' t').
Proof.
  intros. unfold total_order_magnitude. rewrite !set_sign_pack by assumption. reflexivity.
Qed.

Lemma propagate_nan_run a b rm flags :
  propagate_nan a b rm flags = returns (ieee_nan (is_signaling a || is_signaling b)) flags.
Proof.
  unfold propagate_nan. rewrite (bind_run _ _ _ _ _ _ (flag_if_run _ _ _ _)). reflexivity.
Qed.

Lemma negate_pack sgn be t : fields_ok be t -> negate (pack sgn be t) = pack (negb sgn) be t.
Proof. intros. unfold negate. rewrite sign_pack, set_sign_pack by assumption. reflexivity. Qed.

Lemma value_pack sgn be t :
  fields_ok be t -> value (pack sgn be t) = if sgn then - units (pack sgn be t) else units (pack sgn be t).
Proof. intros. unfold value. rewrite sign_pack by assumption. reflexivity. Qed.

Lemma units_sign sgn sgn' be t : fields_ok be t -> units (pack sgn be t) = units (pack sgn' be t).
Proof. intros. rewrite !units_pack by assumption. reflexivity. Qed.

Lemma returns_pure r flags : Some (r, flags) = returns (r, 0) flags.
Proof. unfold returns; cbn [fst snd]. rewrite Z.lor_0_r. reflexivity. Qed.

Lemma add_finite sgn sgn' be t be' t' rm flags :
  fields_ok be t -> fields_ok be' t' -> be < INF -> magnitude be' t' <= magnitude be t ->
  (if Bool.eqb sgn sgn' then add_magnitude (pack sgn be t) (pack sgn' be' t')
   else subtract_magnitude (pack sgn be t) (pack (negb sgn') be' t')) rm flags
  = returns (ieee_add rm (pack sgn be t) (pack sgn' be' t')) flags.
Proof.
  intros Ha Hb Hbe Hmag. powers.
  destruct (magnitude_expo _ _ _ _ Ha Hb Hmag) as (Hle & He & Hm & _).
  unfold ieee_add. rewrite !is_nan_pack, !is_infinite_pack, !value_pack, !sign_pack by assumption.
  rewrite !(proj2 (Z.eqb_neq _ INF)) by lia. cbn [andb orb].
  pose proof (units_nonneg sgn _ _ Ha) as Ua. pose proof (units_nonneg sgn' _ _ Hb) as Ub.
  destruct (Bool.eqb_spec sgn sgn') as [<-|Hs].
  - destruct (Z.eq_dec be 0) as [->|Hz].
    + assert (be' = 0) as -> by (destruct Hb as [? _]; unfold in_u in *; lia).
      rewrite add_magnitude_subnormal by assumption.
      rewrite !units_pack by assumption. unfold expo, mant. cbn [Z.eqb].
      rewrite Z.sub_diag, !Z.mul_1_r. destruct Ha as [_ ?], Hb as [_ ?]. unfold in_u in *. f_equal.
      destruct (Z.eqb_spec (t + t') 0), (Z.eqb_spec ((if sgn then - t else t) + (if sgn then - t' else t')) 0);
        destruct sgn; try lia; try reflexivity; f_equal; try lia; f_equal; lia.
    + destruct (Ha) as [[? ?] _].
      rewrite add_magnitude_normal by (assumption || lia).
      assert (0 < units (pack sgn be t)).
      { rewrite units_pack by assumption. pose proof (expo_range _ _ Ha).
        assert (0 < 2 ^ (expo be - MIN)) by (apply pow2_pos; lia).
        unfold mant. rewrite (proj2 (Z.eqb_neq be 0)) by assumption.
        destruct Ha as [_ [? ?]]. nia. }
      rewrite (proj2 (Z.eqb_neq _ 0)) by (destruct sgn; lia). f_equal.
      destruct sgn; f_equal; try lia; f_equal; lia.
  - assert (Hu : units (pack (negb sgn') be' t') = units (pack sgn' be' t'))
      by (apply units_sign; assumption).
    destruct (Z.eq_dec (expo be') (expo be)) as [E|E].
    + rewrite subtract_same_exponent by assumption. rewrite Hu.
      pose proof (units_diff sgn sgn' _ _ _ _ Ha Hb He) as Hd. rewrite E, Z.sub_diag, Z.mul_1_r in Hd.
      specialize (Hm E). assert (0 < 2 ^ (expo be - MIN)) by (apply pow2_pos; pose proof (expo_range _ _ Ha); lia).
      assert (0 <= units (pack sgn be t) - units (pack sgn' be' t')) by nia. clear Hd. f_equal.
      destruct sgn, sgn'; try congruence;
        match goal with |- context [?v =? 0] => destruct (Z.eqb_spec v 0) end;
        match goal with |- _ = (if ?b then _ else _) => destruct b eqn:Eb end; zbool; try lia;
        try reflexivity; f_equal; try lia; f_equal; lia.
    + destruct (subtract_different_exponent sgn (negb sgn') be t be' t' rm flags Ha Hb Hbe Hmag) as [Hv ->];
        [lia|]. rewrite Hu in *. f_equal.
      rewrite (proj2 (Z.eqb_neq _ 0)) by (destruct sgn, sgn'; congruence || lia).
      destruct sgn, sgn'; try congruence; f_equal; try lia; f_equal; lia.
Qed.

Lemma add_ordered sgn sgn' be t be' t' rm flags :
  fields_ok be t -> fields_ok be' t' -> magnitude be' t' <= magnitude be t ->
  let a := pack sgn be t in let b := pack sgn' be' t' in
  (if is_nan a then propagate_nan a b
   else if Bool.eqb (sign a) (sign b) then add_magnitude a b
   else subtract_magnitude a (negate b)) rm flags
  = returns (ieee_add rm a b) flags.
Proof.
  intros Ha Hb Hmag a b. powers. pose proof (biased_le_inf _ _ Ha) as Hinf.
  destruct (magnitude_expo _ _ _ _ Ha Hb Hmag) as (Hle & _).
  unfold a, b. rewrite !sign_pack, negate_pack by assumption.
  destruct (Z.eq_dec be INF) as [->|]; [|rewrite is_nan_pack, (proj2 (Z.eqb_neq be INF)) by assumption;
    apply add_finite; try assumption; lia].
  unfold ieee_add. rewrite !is_nan_pack, Z.eqb_refl by assumption. cbn [andb].
  destruct (Z.eqb_spec t 0) as [->|Ht]; cbn [negb orb]; [|apply propagate_nan_run].
  assert ((be' =? INF) && (t' <>? 0) = false) as ->.
  { destruct (Z.eqb_spec be' INF) as [->|]; [|reflexivity]. unfold magnitude in Hmag.
    destruct Hb as [_ [? _]]. destruct (Z.eqb_spec t' 0); [reflexivity|lia]. }
  unfold add_magnitude, subtract_magnitude. rewrite !is_infinite_pack, Z.eqb_refl, !sign_pack by assumption.
  cbn [andb Z.eqb]. rewrite infinity_pack.
  destruct (Bool.eqb sgn sgn') eqn:Hs; cbn [negb].
  - rewrite andb_false_r. apply returns_pure.
  - rewrite andb_true_r. destruct ((be' =? INF) && (t' =? 0)); [reflexivity|apply returns_pure].
Qed.

Lemma ieee_add_comm rm a b : ieee_add rm a b = ieee_add rm b a.
Proof.
  unfold ieee_add. rewrite (orb_comm (is_nan a)), (orb_comm (is_signaling a)), (Z.add_comm (value a)).
  destruct (is_nan b || is_nan a); [reflexivity|].
  destruct (is_infinite a), (is_infinite b), (sign a), (sign b); reflexivity.
Qed.

Lemma add_run a b rm flags :
  in_u HOLDER a -> in_u HOLDER b -> add a b rm flags = returns (ieee_add rm a b) flags.
Proof.
  intros Ha Hb. destruct (unpack a Ha) as (sgn & be & t & -> & Hoka).
  destruct (unpack b Hb) as (sgn' & be' & t' & -> & Hokb).
  unfold add. rewrite total_order_magnitude_pack by assumption.
  destruct (Z.compare_spec (magnitude be t) (magnitude be' t')); cbn [is_less];
    [apply add_ordered; assumption || lia
    |rewrite ieee_add_comm; apply add_ordered; assumption || lia
    |apply add_ordered; assumption || lia].
Qed.

Lemma negate_holder a : in_u HOLDER a -> in_u HOLDER (negate a).
Proof.
  intros Ha. destruct (unpack a Ha) as (sgn & be & t & -> & Hok).
  rewrite negate_pack by assumption. apply pack_holder. assumption.
Qed.

(** C17. For every pair of bit patterns, every rounding mode and every format
    that satisfies the laws, [add] returns the correctly rounded sum and raises
    exactly the flags of IEEE 754 (NaN propagation, infinities, signed zeros,
    subnormals, overflow and underflow after rounding included), and [sub] does
    so for the difference; neither panics. *)
Theorem add_sub_ieee a b rm flags :
  in_u HOLDER a -> in_u HOLDER b ->
  add a b rm flags = returns (ieee_add rm a b) flags
  /\ sub a b rm flags = returns (ieee_add rm a (negate b)) flags.
Proof.
  intros Ha Hb. split; [apply add_run; assumption|].
  apply add_run; [assumption|apply negate_holder; assumption].
Qed.

End Arith.

(** 0x3f800000 is 1.0 and 0x33800000 is 2 ^ -24: a tie, broken to even. *)
Lemma add_sub_ieee_witness :
  add (Desc := F32Desc) 0x3f800000 0x33800000 TiesToEven 0 = Some (0x3f800000, INEXACT)
  /\ sub (Desc := F32Desc) 0x3f800000 0x33800000 TiesToEven 0 = Some (0x3f7fffff, 0).
Proof.
  refine (_ (add_sub_ieee (Desc := F32Desc) 0x3f800000 0x33800000 TiesToEven 0 _ _)).
  - intros [-> ->]. vm_compute. split; reflexivity.
  - unfold in_u; cbn; lia.
  - unfold in_u; cbn; lia.
Defined.
