(* ===== verification/SoftfpMul.v ===== *)
(** Products, quotients, square roots and fused multiply-add of
    lib/softfp/src/fp.rs against the specification.  The digit loops of
    [divide] and [square_root] are shown to end within the bits of the holder
    and to compute the sticky truncation of the exact result. *)

From Stdlib Require Import ZArith Lia Bool List.
From S2P Require Import Prelude Softfp SoftfpSpec SoftfpRound SoftfpArith.
Import Fp.
Local Open Scope Z_scope.
Local Open Scope rust_scope.
Local Open Scope fp_scope.

Section Mul.
Context {Desc : FpDesc} {Laws : FpDescLaws Desc}.

Local Notation w := (@SIGNIFICAND_WIDTH Desc).
Local Notation INF := (@INFINITY_BIASED_EXPONENT Desc).
Local Notation MIN := (@MINIMUM_EXPONENT Desc).
Local Notation e0 := (@e0 Desc).
Local Notation mant := (@mant Desc).
Local Notation expo := (@expo Desc).

Lemma double_bound : 2 ^ (2 * w + 8) <= 2 ^ DOUBLE.
Proof. fmt. apply Z.pow_le_mono_r; lia. Qed.

Lemma double_powers : 2 ^ (2 * w + 8) = 256 * (2 ^ w * 2 ^ w).
Proof.
  fmt. replace (2 * w + 8) with (8 + (w + w)) by lia.
  rewrite !Z.pow_add_r by lia. reflexivity.
Qed.

(** A nonzero finite operand. *)
Lemma mant_pos be t :
  fields_ok be t -> (be =? 0) && (t =? 0) = false -> 0 < mant be t.
Proof.
  intros [[? ?] [? ?]] Hz. fmtw. unfold mant.
  destruct (Z.eqb_spec be 0), (Z.eqb_spec t 0); cbn in Hz; try congruence; lia.
Qed.

Lemma units_pos sgn be t : fields_ok be t -> 0 < mant be t -> 0 < units (pack sgn be t).
Proof.
  intros Hok Hm. rewrite units_pack by assumption. pose proof (expo_range be t Hok).
  assert (0 < 2 ^ (expo be - MIN)) by (apply pow2_pos; lia). nia.
Qed.

(** ** Multiplication *)

Section Product.
Context (ea sa ua eb sb ub : Z)
        (Ha : 2 ^ w <= sa < 2 ^ (w + 1)) (Hea : e0 <= ea) (Hua : sa * 2 ^ (ea - e0) = ua * 2 ^ w)
        (Hb : 2 ^ w <= sb < 2 ^ (w + 1)) (Heb : e0 <= eb) (Hub : sb * 2 ^ (eb - e0) = ub * 2 ^ w).

Lemma trunc_product :
  trunc (Ratio (ua * ub) 1 (2 * e0)) (ea + eb - w - w - 2) = (4 * sa * sb, true).
Proof using Ha Hea Hua Hb Heb Hub Laws.
  powers. rewrite <- quo_1.
  apply (trunc_quo _ _ _ _ _ _ (w + w + 2) ((ea - e0) + (eb - e0))); try lia.
  rewrite !Z.pow_add_r by lia. change (2 ^ 2) with 4.
  transitivity ((ua * 2 ^ w) * (ub * 2 ^ w) * 4); [ring|]. rewrite <- Hua, <- Hub. ring.
Qed.

Lemma product_fits : 4 * sa * sb < 2 ^ DOUBLE.
Proof using Ha Hb Laws.
  clear - Ha Hb Laws.
  powers. pose proof double_bound. pose proof double_powers. nia.
Qed.

Lemma product_run : wrap DOUBLE (((4 * sa) >> 2) * (4 * sb)) = 4 * sa * sb.
Proof using Ha Hb Laws.
  clear - Ha Hb Laws.
  powers. pose proof product_fits. rewrite Z.shiftr_div_pow2 by lia. change (2 ^ 2) with 4.
  rewrite (Z.mul_comm 4 sa), Z.div_mul by lia. rewrite wrap_id by (unfold in_u; nia). ring.
Qed.

End Product.

Lemma multiply_finite sgn sgn' sgn'' be t be' t' rm flags :
  fields_ok be t -> fields_ok be' t' -> be <> INF -> be' <> INF -> 0 < mant be t -> 0 < mant be' t' ->
  bind (get_normalized_significand (pack sgn be t)) (fun '(exponent_a, significand_a) =>
  bind (get_normalized_significand (pack sgn' be' t')) (fun '(exponent_b, significand_b) =>
    normalize_and_round DOUBLE sgn'' (exponent_a + exponent_b - w)
      (wrap DOUBLE ((significand_a >> 2) * significand_b)))) rm flags
  = returns (ieee_round rm sgn''
               (Ratio (units (pack sgn be t) * units (pack sgn' be' t')) 1 (2 * e0))) flags.
Proof.
  intros Ha Hb Hia Hib Hma Hmb. powers.
  destruct (get_normalized_pack sgn be t Ha rm flags Hia Hma) as (ea & sa & Ra & Sa & [Ea _] & Ua).
  destruct (get_normalized_pack sgn' be' t' Hb rm flags Hib Hmb) as (eb & sb & Rb & Sb & [Eb _] & Ub).
  rewrite (bind_run _ _ _ _ _ _ Ra), (bind_run _ _ _ _ _ _ Rb).
  rewrite product_run by assumption.
  pose proof (trunc_product _ _ _ _ _ _ Sa Ea Ua Sb Eb Ub) as Ht.
  pose proof (product_fits _ _ Sa Sb).
  change (4 * sa * sb) with (sticky (4 * sa * sb, true)). rewrite <- Ht.
  apply normalize_and_round_spec; rewrite ?Ht.
  - cbn [positive]. pose proof (units_pos sgn _ _ Ha Hma). pose proof (units_pos sgn' _ _ Hb Hmb). nia.
  - lia.
  - split; cbn [fst snd]; [nia|discriminate].
  - unfold sticky, in_u; cbn [fst snd]. nia.
Qed.

Lemma multiply_ordered sgn sgn' be t be' t' rm flags :
  fields_ok be t -> fields_ok be' t' -> magnitude be' t' <= magnitude be t ->
  let a := pack sgn be t in let b := pack sgn' be' t' in
  (if is_nan a then propagate_nan a b
   else
     let sgn := xorb (sign a) (sign b) in
     if is_infinite a then
       if is_zero b then set_exception_flag INVALID_OPERATION ;; ret quiet_nan
       else ret (set_sign a sgn)
     else if is_zero b then ret (set_sign b sgn)
     else
       let! (exponent_a, significand_a) := get_normalized_significand a in
       let! (exponent_b, significand_b) := get_normalized_significand b in
       normalize_and_round DOUBLE sgn (exponent_a + exponent_b - w)
         (wrap DOUBLE ((significand_a >> 2) * significand_b))) rm flags
  = returns (ieee_mul rm a b) flags.
Proof.
  intros Ha Hb Hmag a b. powers. pose proof (biased_le_inf _ _ Ha) as Hinf.
  destruct (exponents (Desc := Desc)) as (bias & _ & _ & _ & _ & Hi & _ & _).
  destruct (magnitude_expo _ _ _ _ Ha Hb Hmag) as (Hle & _).
  unfold a, b, ieee_mul. cbv zeta.
  rewrite !is_nan_pack, !is_infinite_pack, !is_zero_pack, !sign_pack, !set_sign_pack by assumption.
  destruct Ha as [[? ?] [? ?]] eqn:EHa, Hb as [[? ?] [? ?]] eqn:EHb. clear EHa EHb.
  unfold magnitude in Hmag.
  destruct (Z.eqb_spec be INF) as [->|Hbe]; cbn [andb orb].
  - destruct (Z.eqb_spec t 0) as [->|Ht]; cbn [negb orb]; [|apply propagate_nan_run].
    replace ((be' =? INF) && (t' <>? 0)) with false
      by (destruct (Z.eqb_spec be' INF), (Z.eqb_spec t' 0); cbn; nia).
    rewrite (proj2 (Z.eqb_neq INF 0)) by lia. cbn [andb orb].
    destruct ((be' =? 0) && (t' =? 0)); [reflexivity|]. rewrite infinity_pack. apply returns_pure.
  - rewrite (proj2 (Z.eqb_neq be' INF)) by lia. cbn [andb orb].
    destruct ((be' =? 0) && (t' =? 0)) eqn:Hz'.
    + rewrite orb_true_r. apply andb_true_iff in Hz' as [->%Z.eqb_eq ->%Z.eqb_eq].
      unfold zero. rewrite set_sign_0. apply returns_pure.
    + replace ((be =? 0) && (t =? 0)) with false.
      * apply multiply_finite; try assumption; try lia; apply mant_pos; try assumption.
        destruct (Z.eqb_spec be 0), (Z.eqb_spec t 0), (Z.eqb_spec be' 0), (Z.eqb_spec t' 0);
          cbn in *; try congruence; nia.
      * destruct (Z.eqb_spec be 0), (Z.eqb_spec t 0), (Z.eqb_spec be' 0), (Z.eqb_spec t' 0);
          cbn in *; try congruence; nia.
Qed.

Lemma ieee_mul_comm rm a b : ieee_mul rm a b = ieee_mul rm b a.
Proof.
  unfold ieee_mul. rewrite (orb_comm (is_nan a)), (orb_comm (is_signaling a)),
    (orb_comm (is_infinite a)), (orb_comm (is_zero a)), (xorb_comm (sign a)), (Z.mul_comm (units a)).
  reflexivity.
Qed.

(** C18. [multiply] returns the correctly rounded product and raises exactly the
    flags of IEEE 754, for all operands, rounding modes and formats. *)
Theorem multiply_ieee a b rm flags :
  in_u HOLDER a -> in_u HOLDER b -> multiply a b rm flags = returns (ieee_mul rm a b) flags.
Proof.
  intros Ha Hb. destruct (unpack a Ha) as (sgn & be & t & -> & Hoka).
  destruct (unpack b Hb) as (sgn' & be' & t' & -> & Hokb).
  unfold multiply. rewrite total_order_magnitude_pack by assumption.
  destruct (Z.compare_spec (magnitude be t) (magnitude be' t')); cbn [is_less];
    [apply multiply_ordered; assumption || lia
    |rewrite ieee_mul_comm; apply multiply_ordered; assumption || lia
    |apply multiply_ordered; assumption || lia].
Qed.

(** ** Division *)

(** The invariant of the digit loop: [q * b + rem * bit] is constant, the
    remainder stays below twice the divisor and the quotient is a multiple of
    twice the bit. *)
Lemma divide_loop_spec b (j : nat) : forall fuel q rem,
  (j <= fuel)%nat -> 0 < b -> 2 * b <= 2 ^ HOLDER ->
  0 <= rem < 2 * b -> 0 <= q -> q + 2 * 2 ^ Z.of_nat j <= 2 ^ HOLDER ->
  q mod (2 * 2 ^ Z.of_nat j) = 0 ->
  exists q' rem',
    divide_loop fuel b (2 ^ Z.of_nat j) q rem = Some (q', rem')
    /\ q * b + rem * 2 ^ Z.of_nat j = q' * b + rem' /\ 0 <= rem' < 2 * b /\ q' mod 2 = 0.
Proof.
  induction j as [|j IH]; intros fuel q rem Hf Hb Hb2 Hr Hq Hfit Hm.
  - exists q, rem. destruct fuel; cbn; rewrite Z.mul_1_r; auto.
  - destruct fuel as [|fuel]; [lia|].
    rewrite Nat2Z.inj_succ, Z.pow_succ_r in * by lia.
    pose proof (pow2_pos (Z.of_nat j) ltac:(lia)). set (bit := 2 ^ Z.of_nat j) in *.
    cbn [divide_loop]. rewrite (proj2 (Z.eqb_neq (2 * bit) 1)) by lia.
    replace ((2 * bit) >> 1) with bit
      by (rewrite Z.shiftr_div_pow2, Z.mul_comm by lia; symmetry; apply Z.div_mul; lia).
    assert (Hm0 : q mod (2 * bit) = 0).
    { apply Z.mod_divide in Hm; [|lia]. apply Z.mod_divide; [lia|].
      apply Z.divide_trans with (2 * (2 * bit)); [|assumption]. apply Z.divide_factor_r. }
    destruct (Z.leb_spec b rem).
    + rewrite (wrap_id _ (q + _)), Z.shiftl_mul_pow2 by (unfold in_u; lia). change (2 ^ 1) with 2.
      rewrite wrap_id by (unfold in_u; lia).
      destruct (IH fuel (q + 2 * bit) ((rem - b) * 2)) as (q' & rem' & -> & Heq & ? & ?); try lia.
      * replace (q + 2 * bit) with (q + 1 * (2 * bit)) by lia. rewrite Z.mod_add by lia. assumption.
      * exists q', rem'. split; [reflexivity|]. split; [rewrite <- Heq; ring|auto].
    + rewrite Z.shiftl_mul_pow2 by lia. change (2 ^ 1) with 2. rewrite wrap_id by (unfold in_u; lia).
      destruct (IH fuel q (rem * 2)) as (q' & rem' & -> & Heq & ? & ?); try lia.
      exists q', rem'. split; [reflexivity|]. split; [rewrite <- Heq; ring|auto].
Qed.

(** The last digit is the sticky bit. *)
Lemma divide_sticky n b q rem :
  0 < b -> n = q * b + rem -> 0 <= rem < 2 * b -> q mod 2 = 0 ->
  (if rem <>? 0 then q .| 1 else q) = sticky (quo n b).
Proof.
  intros Hb -> Hr Hq. rewrite lor_one. unfold sticky, quo; cbn [fst snd].
  destruct (Z.eqb_spec rem 0) as [->|Hne]; cbn [negb].
  - rewrite Z.add_0_r, Z.mod_mul, Z.div_mul by lia. reflexivity.
  - replace ((q * b + rem) mod b) with (rem mod b) by (rewrite Z.add_comm; symmetry; apply Z.mod_add; lia).
    rewrite Z.div_add_l by lia. destruct (Z.lt_ge_cases rem b).
    + rewrite (Z.mod_small rem b), (Z.div_small rem b) by lia. rewrite (proj2 (Z.eqb_neq rem 0)) by lia.
      Z.div_mod_to_equations; lia.
    + replace (rem / b) with 1 by (apply Z.div_unique with (rem - b); lia).
      destruct (rem mod b =? 0); Z.div_mod_to_equations; lia.
Qed.

Lemma divide_finite sgn sgn' sgn'' be t be' t' rm flags :
  fields_ok be t -> fields_ok be' t' -> be <> INF -> be' <> INF -> 0 < mant be t -> 0 < mant be' t' ->
  (let! (exponent_a, significand_a) := get_normalized_significand (pack sgn be t) in
   let! (exponent_b, significand_b) := get_normalized_significand (pack sgn' be' t') in
   let quotient_exponent := exponent_a - exponent_b in
   let '(significand_a, quotient_exponent) :=
     if significand_a <? significand_b
     then (wrap HOLDER (significand_a << 1), quotient_exponent - 1)
     else (significand_a, quotient_exponent) in
   let quotient := 1 << (w + 2) in
   let bit := 1 << (w + 1) in
   let remainder_over_bit := wrap HOLDER (wrap HOLDER (significand_a - significand_b) << 1) in
   let! (quotient, remainder_over_bit) :=
     unwrap (divide_loop (Z.to_nat HOLDER) significand_b bit quotient remainder_over_bit) in
   let quotient := if remainder_over_bit <>? 0 then quotient .| 1 else quotient in
   round sgn'' quotient_exponent quotient) rm flags
  = returns (ieee_round rm sgn''
               (Ratio (units (pack sgn be t)) (units (pack sgn' be' t')) 0)) flags.
Proof.
  intros Ha Hb Hia Hib Hma Hmb. powers.
  destruct (get_normalized_pack sgn be t Ha rm flags Hia Hma) as (ea & sa & Ra & Sa & [Ea _] & Ua).
  destruct (get_normalized_pack sgn' be' t' Hb rm flags Hib Hmb) as (eb & sb & Rb & Sb & [Eb _] & Ub).
  rewrite (bind_run _ _ _ _ _ _ Ra), (bind_run _ _ _ _ _ _ Rb). cbv zeta.
  pose proof (units_pos sgn _ _ Ha Hma) as Pa. pose proof (units_pos sgn' _ _ Hb Hmb) as Pb.
  set (ua := units (pack sgn be t)) in *. set (ub := units (pack sgn' be' t')) in *.
  assert (Hq : exists e s,
    (if 4 * sa <? 4 * sb then (wrap HOLDER ((4 * sa) << 1), ea - eb - 1) else (4 * sa, ea - eb))
    = (s, e) /\ 4 * sb <= s < 2 * (4 * sb)
    /\ trunc (Ratio ua ub 0) (e - w - 2) = quo (s * 2 ^ (w + 2)) (4 * sb)).
  { assert (Hcross : ua * sb * 2 ^ (eb - e0) = sa * ub * 2 ^ (ea - e0)).
    { apply (Z.mul_reg_r _ _ (2 ^ w)); [lia|].
      transitivity ((ua * 2 ^ w) * (sb * 2 ^ (eb - e0))); [ring|]. rewrite <- Ua, Ub. ring. }
    destruct (Z.ltb_spec (4 * sa) (4 * sb)).
    - exists (ea - eb - 1), (4 * sa * 2).
      rewrite Z.shiftl_mul_pow2 by lia. change (2 ^ 1) with 2. rewrite wrap_id by (unfold in_u; lia).
      split; [reflexivity|]. split; [lia|].
      apply (trunc_quo _ _ _ _ _ _ (eb - e0 + (w + 3)) (ea - e0)); try lia.
      rewrite Z.pow_add_r by lia. replace (2 ^ (w + 3)) with (2 * 2 ^ (w + 2)) by lia.
      transitivity (ua * sb * 2 ^ (eb - e0) * (8 * 2 ^ (w + 2))); [ring|]. rewrite Hcross. ring.
    - exists (ea - eb), (4 * sa). split; [reflexivity|]. split; [lia|].
      apply (trunc_quo _ _ _ _ _ _ (eb - e0 + (w + 2)) (ea - e0)); try lia.
      rewrite Z.pow_add_r by lia.
      transitivity (ua * sb * 2 ^ (eb - e0) * (4 * 2 ^ (w + 2))); [ring|]. rewrite Hcross. ring. }
  destruct Hq as (e & s & -> & Hs & Ht).
  rewrite !one_shl, Z.shiftl_mul_pow2 by lia. change (2 ^ 1) with 2.
  rewrite (wrap_id _ (s - 4 * sb)), wrap_id by (unfold in_u; lia).
  destruct (divide_loop_spec (4 * sb) (Z.to_nat (w + 1)) (Z.to_nat HOLDER) (2 ^ (w + 2)) ((s - 4 * sb) * 2))
    as (q & rem & Hl & Heq & Hrem & Heven); rewrite ?Z2Nat.id in * by lia; try lia.
  { replace (2 * 2 ^ (w + 1)) with (2 ^ (w + 2)) by lia. apply Z.mod_same. lia. }
  rewrite Hl. unfold unwrap.
  rewrite (bind_run _ _ _ _ _ _ (eq_refl : ret (q, rem) rm flags = Some ((q, rem), flags))).
  rewrite (divide_sticky (s * 2 ^ (w + 2)) (4 * sb)) by (assumption || lia).
  rewrite <- Ht. apply round_spec. split; [cbn; lia|]. rewrite Ht. unfold quo; cbn [fst].
  split; [apply Z.div_le_lower_bound|apply Z.div_lt_upper_bound]; try lia.
  - apply Z.mul_le_mono_nonneg_r; lia.
  - replace (4 * sb * 2 ^ (w + 3)) with (2 * (4 * sb) * 2 ^ (w + 2)) by lia.
    apply Z.mul_lt_mono_pos_r; lia.
Qed.

(** C19. [divide] returns the correctly rounded quotient and raises exactly the
    flags of IEEE 754 (division by zero included); its digit loop ends within
    the width of the holder, so it never panics. *)
Theorem divide_ieee a b rm flags :
  in_u HOLDER a -> in_u HOLDER b -> divide a b rm flags = returns (ieee_div rm a b) flags.
Proof.
  intros Ha Hb. destruct (unpack a Ha) as (sgn & be & t & -> & Hoka).
  destruct (unpack b Hb) as (sgn' & be' & t' & -> & Hokb).
  unfold divide, ieee_div.
  destruct (is_nan (pack sgn be t) || is_nan (pack sgn' be' t')) eqn:Hnan;
    [apply propagate_nan_run|]. cbv zeta.
  destruct (is_infinite (pack sgn be t)) eqn:Hia, (is_infinite (pack sgn' be' t')) eqn:Hib;
    [reflexivity|apply returns_pure|apply returns_pure|].
  destruct (is_zero (pack sgn be t)) eqn:Hza, (is_zero (pack sgn' be' t')) eqn:Hzb;
    [reflexivity|apply returns_pure|reflexivity|].
  rewrite is_zero_pack in Hza, Hzb by assumption. rewrite is_infinite_pack in Hia, Hib by assumption.
  rewrite !is_nan_pack in Hnan by assumption. apply orb_false_iff in Hnan as [Hna Hnb].
  apply divide_finite; try assumption; try (apply mant_pos; assumption);
    intros ->; rewrite Z.eqb_refl in *; cbn [andb] in *;
    [rewrite Hia in Hna|rewrite Hib in Hnb]; discriminate.
Qed.

(** ** Square root *)

(** [half_bit] while [j] digits are left. *)
Definition half_bit (j : nat) : Z := match j with O => 0 | S j => 2 ^ Z.of_nat j end.

Lemma square_root_loop_spec (j : nat) : forall fuel r rest,
  (j <= fuel)%nat -> 0 <= r -> r + 2 ^ (Z.of_nat j + 1) <= 2 ^ (w + 3) ->
  0 <= rest < 2 * r + 2 ^ (Z.of_nat j + 1) -> r mod 2 ^ (Z.of_nat j + 1) = 0 ->
  exists r' rest',
    square_root_loop fuel (half_bit j) r rest = Some (r', rest')
    /\ r * r + rest * 2 ^ (Z.of_nat j + 1) = r' * r' + rest' * 2
    /\ 0 <= rest' < 2 * r' + 2 /\ r' mod 2 = 0 /\ r <= r'.
Proof.
  induction j as [|j IH]; intros fuel r rest Hf Hr Hfit Hrest Hm.
  - exists r, rest. destruct fuel; cbn in *; auto with zarith.
  - destruct fuel as [|fuel]; [lia|]. powers.
    rewrite Nat2Z.inj_succ in *. replace (Z.succ (Z.of_nat j) + 1) with (Z.of_nat j + 1 + 1) in * by lia.
    rewrite (Z.pow_add_r 2 (Z.of_nat j + 1)) in * by lia. change (2 ^ 1) with 2 in *.
    cbn [half_bit square_root_loop]. pose proof (pow2_pos (Z.of_nat j) ltac:(lia)).
    assert (Hb : 2 ^ (Z.of_nat j + 1) = 2 * 2 ^ Z.of_nat j)
      by (rewrite Z.pow_add_r by lia; change (2 ^ 1) with 2; ring).
    set (hb := 2 ^ Z.of_nat j) in *. rewrite (proj2 (Z.eqb_neq hb 0)) by lia.
    replace (hb >> 1) with (half_bit j).
    2:{ unfold hb. destruct j as [|j]; [reflexivity|].
        rewrite Nat2Z.inj_succ, Z.pow_succ_r, Z.shiftr_div_pow2, Z.mul_comm by lia. cbn [half_bit].
        symmetry. apply Z.div_mul. lia. }
    assert (Hm0 : r mod (2 * hb) = 0).
    { rewrite Hb in Hm. apply Z.mod_divide in Hm; [|lia]. apply Z.mod_divide; [lia|].
      apply Z.divide_trans with (2 * hb * 2); [|assumption]. apply Z.divide_factor_l. }
    rewrite !(wrap_id _ (r + _)) by (unfold in_u; rewrite ?wrap_id, ?Z.shiftl_mul_pow2; unfold in_u; lia).
    destruct (Z.leb_spec (r + hb) rest).
    + rewrite !Z.shiftl_mul_pow2 by lia. change (2 ^ 1) with 2.
      rewrite !wrap_id by (unfold in_u; rewrite ?wrap_id; unfold in_u; lia).
      destruct (IH fuel (r + hb * 2) ((rest - (r + hb)) * 2)) as (r' & rest' & -> & Heq & ? & ? & ?);
        try lia.
      { rewrite Hb. replace (r + hb * 2) with (r + 1 * (2 * hb)) by ring.
        rewrite Z.mod_add by lia. assumption. }
      exists r', rest'. split; [reflexivity|]. split; [rewrite <- Heq, Hb; ring|]. repeat split; lia.
    + rewrite !Z.shiftl_mul_pow2 by lia. change (2 ^ 1) with 2. rewrite wrap_id by (unfold in_u; lia).
      destruct (IH fuel r (rest * 2)) as (r' & rest' & -> & Heq & ? & ? & ?); try lia.
      { rewrite Hb. assumption. }
      exists r', rest'. split; [reflexivity|]. split; [rewrite <- Heq, Hb; ring|]. repeat split; lia.
Qed.

Lemma square_root_sticky n r rest :
  0 <= r -> n = r * r + rest * 2 -> 0 <= rest < 2 * r + 2 -> r mod 2 = 0 ->
  (if rest <>? 0 then r .| 1 else r) = sticky (root n 1).
Proof.
  intros Hr -> Hrest Hm. rewrite lor_one. unfold root. rewrite Z.div_1_r, Z.mul_1_r.
  destruct (Z.lt_ge_cases (rest * 2) (2 * r + 1)) as [Hlt|Hge].
  - rewrite (Z.sqrt_unique _ r) by lia. unfold sticky; cbn [fst snd].
    destruct (Z.eqb_spec rest 0) as [->|]; cbn [negb].
    + rewrite (proj2 (Z.eqb_eq _ _)) by lia. reflexivity.
    + rewrite (proj2 (Z.eqb_neq _ _)) by lia. reflexivity.
  - rewrite (Z.sqrt_unique _ (r + 1)) by nia. unfold sticky; cbn [fst snd].
    rewrite (proj2 (Z.eqb_neq rest 0)), (proj2 (Z.eqb_neq _ _)) by lia. cbn [negb].
    Z.div_mod_to_equations; lia.
Qed.

Lemma trunc_root_eq n k e n' i j :
  0 <= i -> 0 <= j -> i - j = k - e -> n * 4 ^ i = n' * 4 ^ j ->
  trunc (Root n k) e = root n' 1.
Proof.
  intros Hi Hj Hij H. rewrite trunc_root.
  assert (forall m, 0 <= m -> 0 < 4 ^ m) as H4 by (intros; apply Z.pow_pos_nonneg; lia).
  pose proof (H4 i Hi). pose proof (H4 j Hj).
  destruct (Z.leb_spec e k).
  - replace i with (k - e + j) in H by lia. rewrite Z.pow_add_r in H by lia.
    rewrite (Z.mul_reg_r (n * 4 ^ (k - e)) n' (4 ^ j)) by lia. reflexivity.
  - replace j with (e - k + i) in H by lia. rewrite Z.pow_add_r in H by lia.
    pose proof (H4 (e - k) ltac:(lia)).
    rewrite (Z.mul_reg_r n (n' * 4 ^ (e - k)) (4 ^ i)) by lia.
    rewrite <- (Z.mul_1_l (4 ^ (e - k))) at 2. apply root_scale; lia.
Qed.

(** The exponent is made even; the significand absorbs the factor of two. *)
Lemma square_root_exponent e s :
  2 ^ w <= s < 2 ^ (w + 1) ->
  exists h f,
    (if Z.rem e 2 <>? 0 then (e - 1, wrap HOLDER ((4 * s) << 1)) else (e, 4 * s))
    = (2 * h, 4 * s * 2 ^ f) /\ e = 2 * h + f /\ 0 <= f <= 1.
Proof.
  intros Hs. powers. exists (e / 2), (e mod 2).
  pose proof (Z.div_mod e 2 ltac:(lia)). pose proof (Z.mod_pos_bound e 2 ltac:(lia)).
  split; [|lia]. destruct (Z.eqb_spec (Z.rem e 2) 0) as [E|E]; cbn [negb].
  - assert (Em : e mod 2 = 0) by (apply Z.mod_divide, Z.rem_divide; lia || assumption).
    rewrite Em. f_equal; lia.
  - assert (Em : e mod 2 = 1).
    { assert (e mod 2 = 0 \/ e mod 2 = 1) as [E0|] by lia; [|assumption].
      exfalso. apply E. apply Z.rem_divide; [lia|]. apply Z.mod_divide; [lia|assumption]. }
    rewrite Em, Z.shiftl_mul_pow2 by lia. change (2 ^ 1) with 2. rewrite wrap_id by (unfold in_u; lia).
    f_equal; lia.
Qed.

Lemma square_root_finite be t rm flags :
  fields_ok be t -> be <> INF -> 0 < mant be t ->
  (let! (exponent, significand) := get_normalized_significand (pack false be t) in
   let '(exponent, significand) :=
     if Z.rem exponent 2 <>? 0
     then (exponent - 1, wrap HOLDER (significand << 1))
     else (exponent, significand) in
   let result := 1 << (w + 2) in
   let half_bit := 1 << w in
   let! (result, rest) :=
     unwrap (square_root_loop (Z.to_nat HOLDER) half_bit result (wrap HOLDER (significand - result))) in
   let result := if rest <>? 0 then result .| 1 else result in
   round false (Z.quot exponent 2) result) rm flags
  = returns (ieee_round rm false (Root (units (pack false be t) * 2 ^ (e0 mod 2)) (e0 / 2))) flags.
Proof.
  intros Ha Hia Hma. powers.
  destruct (get_normalized_pack false be t Ha rm flags Hia Hma) as (e & s & Ra & Sa & [Ea _] & Ua).
  rewrite (bind_run _ _ _ _ _ _ Ra). pose proof (units_pos false _ _ Ha Hma) as Pa.
  set (u := units (pack false be t)) in *.
  destruct (square_root_exponent e s Sa) as (h & f & -> & He & Hf).
  assert (Hpf : 1 <= 2 ^ f <= 2) by (assert (f = 0 \/ f = 1) as [-> | ->] by lia; cbn; lia).
  set (S := 4 * s * 2 ^ f). assert (HS : 2 ^ (w + 2) <= S < 2 ^ (w + 4)) by (unfold S; nia).
  pose proof (Z.div_mod e0 2 ltac:(lia)) as De. pose proof (Z.mod_pos_bound e0 2 ltac:(lia)).
  set (h0 := e0 / 2) in *. set (r0 := e0 mod 2) in *.
  assert (Hx : positive (Root (u * 2 ^ r0) h0))
    by (cbn; assert (0 < 2 ^ r0) by (apply pow2_pos; lia); nia).
  assert (Ht : trunc (Root (u * 2 ^ r0) h0) (h - w - 2) = root (S * 2 ^ (w + 2)) 1).
  { apply (trunc_root_eq _ _ _ _ (w + 2) (h - h0)); try lia.
    rewrite !pow4 by lia. rewrite <- (Z.pow_add_r 2 (h - h0)) by lia.
    transitivity ((u * 2 ^ w) * (4 * 2 ^ r0 * 2 ^ (w + 2))); [rewrite H5; ring|].
    rewrite <- Ua. unfold S.
    transitivity (s * (2 ^ (e - e0) * 2 ^ r0) * (4 * 2 ^ (w + 2))); [ring|].
    rewrite <- Z.pow_add_r by lia.
    replace (e - e0 + r0) with (f + (h - h0 + (h - h0))) by lia.
    rewrite Z.pow_add_r by lia. ring. }
  cbv zeta. rewrite !one_shl, wrap_id by (unfold in_u; rewrite ?one_shl; lia).
  destruct (square_root_loop_spec (Z.to_nat (w + 1)) (Z.to_nat HOLDER) (2 ^ (w + 2)) (S - 2 ^ (w + 2)))
    as (r & rest & Hl & Heq & Hrest & Heven & Hle); rewrite ?Z2Nat.id in * by lia;
    replace (w + 1 + 1) with (w + 2) in * by lia; try lia.
  { apply Z.mod_same. lia. }
  replace (half_bit (Z.to_nat (w + 1))) with (2 ^ w) in Hl.
  2:{ replace (Z.to_nat (w + 1)) with (Datatypes.S (Z.to_nat w)) by lia.
      cbn [half_bit]. rewrite Z2Nat.id by lia. reflexivity. }
  rewrite Hl. unfold unwrap.
  rewrite (bind_run _ _ _ _ _ _ (eq_refl : ret (r, rest) rm flags = Some ((r, rest), flags))).
  rewrite (square_root_sticky (S * 2 ^ (w + 2)) r rest) by (try assumption; lia).
  rewrite Z.mul_comm, Z.quot_mul, <- Ht by lia. apply round_spec.
  split; [assumption|]. rewrite Ht. unfold root; cbn [fst]. rewrite Z.div_1_r.
  split.
  - apply Z.sqrt_le_square; [apply Z.mul_nonneg_nonneg; lia|lia|].
    apply Z.mul_le_mono_nonneg_r; lia.
  - assert (S * 2 ^ w < 16 * 2 ^ w * 2 ^ w) by (apply Z.mul_lt_mono_pos_r; lia).
    apply Z.sqrt_lt_square; [apply Z.mul_nonneg_nonneg; lia|lia|].
    rewrite H5, H6. lia.
Qed.

(** C33. [square_root] returns the correctly rounded square root and raises
    exactly the flags of IEEE 754 on every operand but a signaling NaN; its
    digit loop ends within the width of the holder. *)
Theorem square_root_ieee a rm flags :
  in_u HOLDER a -> is_signaling a = false ->
  square_root a rm flags = returns (ieee_sqrt rm a) flags.
Proof.
  intros Ha Hsig. destruct (unpack a Ha) as (sgn & be & t & -> & Hok).
  unfold square_root, ieee_sqrt. rewrite Hsig, sign_pack by assumption.
  destruct (is_nan (pack sgn be t)) eqn:Hnan; [apply returns_pure|].
  destruct (is_zero (pack sgn be t)) eqn:Hz; [apply returns_pure|].
  destruct sgn; [reflexivity|].
  destruct (is_infinite (pack false be t)) eqn:Hi; [apply returns_pure|].
  rewrite is_nan_pack in Hnan by assumption. rewrite is_infinite_pack in Hi by assumption.
  rewrite is_zero_pack in Hz by assumption.
  apply square_root_finite; [assumption| |apply mant_pos; assumption].
  intros ->. rewrite Z.eqb_refl in *. cbn [andb] in *. rewrite Hi in Hnan. discriminate.
Qed.

(** ** Representable values *)

(** A finite number rounds to itself, without flags, whatever the unit its
    magnitude is given in. *)
Lemma ieee_round_value rm sgn be t k i :
  fields_ok be t -> be <> INF -> 0 < mant be t -> 0 <= i -> k = e0 - i ->
  ieee_round rm sgn (Ratio (units (pack sgn be t) * 2 ^ i) 1 k) = (pack sgn be t, 0).
Proof.
  intros Hok Hi Hm Hi0 Hk. powers. pose proof (biased_le_inf _ _ Hok).
  destruct (exponents (Desc := Desc)) as (bias & HB & HM & HX & ? & Hinf & Hew & ?).
  pose proof (mant_range _ _ Hok) as Mr. pose proof (expo_range _ _ Hok) as Er.
  pose proof (units_pos sgn _ _ Hok Hm). assert (0 < 2 ^ i) by (apply pow2_pos; lia).
  set (x := Ratio _ 1 k). assert (Hx : positive x) by (cbn; nia).
  assert (Ht : trunc x (expo be - w) = (mant be t, true)).
  { rewrite <- quo_1. apply (trunc_quo _ _ _ _ _ _ 0 (expo be - e0 + i - w)); try lia.
    pose proof (units_significand sgn be t Hok) as U. rewrite H5 in U.
    replace (expo be - e0) with (w + (expo be - MIN)) in * by lia.
    rewrite Z.pow_add_r in U by lia. replace (w + (expo be - MIN) + i - w) with (expo be - MIN + i) by lia.
    rewrite Z.pow_add_r by lia. rewrite units_pack by assumption. ring. }
  assert (Hq : quantum x = expo be - w).
  { unfold quantum. rewrite (ilog2_trunc x (expo be - w)) by (rewrite ?Ht; cbn [fst]; assumption || lia).
    rewrite Ht; cbn [fst]. pose proof (Z.log2_nonneg (mant be t)).
    assert (Z.log2 (mant be t) < w + 1) by (apply Z.log2_lt_pow2; lia).
    destruct (Z.eq_dec be 0) as [->|Hz]; [unfold expo; cbn [Z.eqb]; lia|].
    assert (w <= Z.log2 (mant be t)).
    { apply Z.log2_le_pow2; [assumption|]. unfold mant. rewrite (proj2 (Z.eqb_neq be 0)) by assumption.
      destruct Hok as [_ [? _]]. lia. }
    lia. }
  unfold ieee_round. rewrite Hq, Ht.
  assert (Hsh : shr 1 (trunc x (expo be - w - 1)) = (mant be t, true)).
  { rewrite <- trunc_shr by (assumption || lia).
    replace (expo be - w - 1 + 1) with (expo be - w) by lia. assumption. }
  rewrite rnd_exact by (rewrite Hsh; reflexivity). rewrite Hsh. cbn [fst snd negb andb].
  destruct Hok as [[? ?] [? ?]].
  assert (expo be <= bias) by (unfold expo; destruct (be =? 0); lia).
  rewrite (overflow_test _ _ w) by (unfold SoftfpSpec.e0 in *; lia).
  f_equal. unfold encode_finite, pack. unfold expo, mant.
  destruct (Z.eqb_spec be 0) as [->|]; [replace (MIN - w - e0) with 0 by lia; lia|].
  replace (be - EXPONENT_BIAS - w - e0) with (be - 1) by lia. ring.
Qed.

(** ** Fused multiply-add *)

(** What [normalize_and_round] needs of a significand for the magnitude [x] in
    units of [2 ^ k]. *)
Definition rounds (e k x significand : Z) : Prop :=
  0 < x /\ significand = sticky (trunc (Ratio x 1 k) (e - w - 2))
  /\ enough_bits (trunc (Ratio x 1 k) (e - w - 2)) /\ 0 <= significand < 2 ^ DOUBLE.

(** Significands [p] and [q] that may be added, subtracted and compared in the
    place of the magnitudes [u] and [v]. *)
Definition combines (e k u v p q : Z) : Prop :=
  0 < u /\ 0 < v /\ rounds e k (u + v) (p + q) /\ (p = q <-> u = v)
  /\ (q < p -> v < u /\ rounds e k (u - v) (p - q))
  /\ (p < q -> u < v /\ rounds e k (v - u) (q - p)).

Lemma combines_sym e k u v p q : combines e k u v p q -> combines e k v u q p.
Proof.
  unfold combines. rewrite (Z.add_comm v u), (Z.add_comm q p).
  intros (? & ? & ? & [? ?] & ? & ?).
  do 3 (split; [assumption|]). split; [split; intros; symmetry; auto|]. split; assumption.
Qed.

(** Two magnitudes [a], [b] in units of [2 ^ (e - w - 2)] and
    [2 ^ (e - n - w - 2)], that stand for [u] and [v] in units of [2 ^ k]. *)
Section Align.
Context (a b u v e n k z : Z)
        (Hn : 0 <= n) (Hz : 0 <= e - n - z) (Hk : z = k - w)
        (Hu : a * 2 ^ (e - z) = u * 2 ^ (2 * w + 2))
        (Hv : b * 2 ^ (e - n - z) = v * 2 ^ (2 * w + 2))
        (Ha : 4 * (2 ^ w * 2 ^ w) <= a < 16 * (2 ^ w * 2 ^ w)) (Ha4 : a mod 4 = 0)
        (Hb : 0 < b < 16 * (2 ^ w * 2 ^ w)) (Hb4 : b mod 4 = 0).

Local Notation b' := (sticky (quo b (2 ^ n))).

Lemma align_unit s t :
  trunc (Ratio (s * u + t * v) 1 k) (e - w - 2) = quo (s * a * 2 ^ n + t * b) (2 ^ n).
Proof using All.
  fmtw. assert (0 < 2 ^ n) by (apply pow2_pos; lia).
  apply (trunc_quo _ _ _ _ _ _ (2 * w + 2) (e - z)); try lia.
  transitivity ((s * (u * 2 ^ (2 * w + 2)) + t * (v * 2 ^ (2 * w + 2))) * 2 ^ n); [ring|].
  rewrite <- Hu, <- Hv. replace (e - z) with (e - n - z + n) by lia.
  rewrite Z.pow_add_r by lia. ring.
Qed.

Lemma align_order : u < v <-> a * 2 ^ n < b.
Proof using All.
  fmtw. assert (0 < 2 ^ (e - n - z)) by (apply pow2_pos; lia).
  assert (0 < 2 ^ (2 * w + 2)) by (apply pow2_pos; lia).
  replace (e - z) with (n + (e - n - z)) in Hu by lia. rewrite Z.pow_add_r, Z.mul_assoc in Hu by lia.
  rewrite (Z.mul_lt_mono_pos_r (2 ^ (2 * w + 2)) u v), <- Hu, <- Hv by assumption.
  symmetry. apply Z.mul_lt_mono_pos_r. assumption.
Qed.

Lemma align_equal : u = v <-> a * 2 ^ n = b.
Proof using All.
  fmtw. assert (0 < 2 ^ (e - n - z)) by (apply pow2_pos; lia).
  assert (0 < 2 ^ (2 * w + 2)) by (apply pow2_pos; lia).
  replace (e - z) with (n + (e - n - z)) in Hu by lia. rewrite Z.pow_add_r, Z.mul_assoc in Hu by lia.
  rewrite <- (Z.mul_cancel_r u v (2 ^ (2 * w + 2))), <- Hu, <- Hv by lia.
  apply Z.mul_cancel_r. lia.
Qed.

Lemma align_pos : 0 < u /\ 0 < v.
Proof using All.
  fmtw. assert (0 < 2 ^ (e - z)) by (apply pow2_pos; lia).
  assert (0 < 2 ^ (e - n - z)) by (apply pow2_pos; lia).
  assert (0 < 2 ^ (2 * w + 2)) by (apply pow2_pos; lia). split; nia.
Qed.

(** A shift that loses bits leaves the smaller magnitude far below. *)
Lemma align_cases :
  (snd (quo b (2 ^ n)) = true /\ b = b' * 2 ^ n /\ 0 < b')
  \/ (snd (quo b (2 ^ n)) = false /\ 8 <= 2 ^ n /\ 0 <= b' <= 2 * (2 ^ w * 2 ^ w) + 1).
Proof using All.
  fmtw. assert (0 < 2 ^ n) by (apply pow2_pos; lia).
  unfold sticky, quo; cbn [fst snd].
  destruct (Z.eqb_spec (b mod 2 ^ n) 0) as [E|E]; [left|right]; (split; [reflexivity|]).
  - pose proof (Z.div_mod b (2 ^ n) ltac:(lia)). split; [lia|]. nia.
  - assert (8 <= 2 ^ n).
    { destruct (Z.le_gt_cases 3 n); [change 8 with (2 ^ 3); apply Z.pow_le_mono_r; lia|].
      exfalso. apply E.
      assert (n = 0 \/ n = 1 \/ n = 2) as [-> | [-> | ->]] by lia; cbn; Z.div_mod_to_equations; lia. }
    split; [assumption|]. assert (0 <= b / 2 ^ n <= 2 * (2 ^ w * 2 ^ w)).
    { split; [apply Z.div_pos; lia|]. apply Z.div_le_upper_bound; [lia|].
      assert (8 * (2 * (2 ^ w * 2 ^ w)) <= 2 ^ n * (2 * (2 ^ w * 2 ^ w)))
        by (apply Z.mul_le_mono_nonneg_r; lia). lia. }
    Z.div_mod_to_equations; lia.
Qed.

Lemma align_even : a mod 2 = 0.
Proof using All. clear - Ha4. Z.div_mod_to_equations; lia. Qed.

Lemma align_sum : rounds e k (u + v) (a + b').
Proof using All.
  powers. pose proof align_pos. pose proof align_even. pose proof double_bound. pose proof double_powers.
  assert (0 < 2 ^ n) by (apply pow2_pos; lia).
  pose proof (align_unit 1 1) as Ht. rewrite !Z.mul_1_l in Ht.
  pose proof (quo_nonneg b (2 ^ n) ltac:(lia) ltac:(lia)).
  pose proof (sticky_bounds (quo b (2 ^ n))).
  unfold rounds, enough_bits. rewrite Ht, sticky_add by assumption.
  assert (Hf : fst (quo (a * 2 ^ n + b) (2 ^ n)) = a + fst (quo b (2 ^ n)))
    by (unfold quo; cbn [fst]; apply Z.div_add_l; lia).
  rewrite Hf. assert (16 * 2 ^ w <= 2 ^ w * 2 ^ w) by (apply Z.mul_le_mono_nonneg_r; lia).
  repeat split; try lia.
Qed.

Lemma align_sub : b' < a -> v < u /\ rounds e k (u - v) (a - b').
Proof using All.
  intros Hlt. powers. pose proof align_pos. pose proof align_even. pose proof double_bound.
  pose proof double_powers. pose proof align_order. pose proof align_equal.
  assert (0 < 2 ^ n) by (apply pow2_pos; lia).
  assert (16 * 2 ^ w <= 2 ^ w * 2 ^ w) by (apply Z.mul_le_mono_nonneg_r; lia).
  pose proof (align_unit 1 (-1)) as Ht. rewrite !Z.mul_1_l in Ht.
  replace (u + -1 * v) with (u - v) in Ht by ring.
  replace (a * 2 ^ n + -1 * b) with (a * 2 ^ n - b) in Ht by ring.
  assert (Hvu : v < u).
  { assert (b < a * 2 ^ n); [|lia].
    destruct align_cases as [(_ & -> & _)|(_ & ? & ?)];
      [apply Z.mul_lt_mono_pos_r; assumption|].
    assert (a * 8 <= a * 2 ^ n) by (apply Z.mul_le_mono_nonneg_l; lia). lia. }
  split; [assumption|]. unfold rounds, enough_bits. rewrite Ht, sticky_sub by assumption.
  pose proof (sticky_bounds (quo (a * 2 ^ n - b) (2 ^ n))) as Hb2.
  rewrite sticky_sub in Hb2 by assumption.
  assert (Hs : snd (quo (a * 2 ^ n - b) (2 ^ n)) = snd (quo b (2 ^ n))).
  { unfold quo; cbn [snd]. apply eqb_iff. rewrite !Z.mod_divide by lia.
    split; intros [c Hc]; exists (a - c); lia. }
  rewrite Hs. destruct align_cases as [(E & Hbb & ?)|(E & ? & ?)]; rewrite E.
  - repeat split; try lia; try congruence.
    assert (a * 2 ^ n - b = (a - b') * 2 ^ n) as -> by lia.
    unfold quo at 1; cbn [fst]. rewrite Z.div_mul by lia. lia.
  - repeat split; lia.
Qed.

Lemma align_rsub : a < b' -> u < v /\ rounds e k (v - u) (b' - a).
Proof using All.
  intros Hlt. powers. pose proof align_pos. pose proof align_even. pose proof double_bound.
  pose proof double_powers. pose proof align_order.
  assert (0 < 2 ^ n) by (apply pow2_pos; lia).
  assert (16 * 2 ^ w <= 2 ^ w * 2 ^ w) by (apply Z.mul_le_mono_nonneg_r; lia).
  destruct align_cases as [(E & Hbb & ?)|(E & ? & ?)]; [|lia].
  assert (u < v) by (apply align_order; rewrite Hbb; apply Z.mul_lt_mono_pos_r; assumption).
  pose proof (align_unit (-1) 1) as Ht. rewrite !Z.mul_1_l in Ht.
  replace (-1 * u + v) with (v - u) in Ht by ring.
  assert (Hq : quo (-1 * a * 2 ^ n + b) (2 ^ n) = (b' - a, true)).
  { replace (-1 * a * 2 ^ n + b) with ((b' - a) * 2 ^ n) by lia.
    unfold quo at 1. rewrite Z.div_mul, Z.mod_mul by lia. reflexivity. }
  split; [assumption|]. unfold rounds, enough_bits. rewrite Ht, Hq. unfold sticky at 2; cbn [fst snd].
  assert (b' <= b) by nia. repeat split; try lia; discriminate.
Qed.

Lemma align_cancel : a = b' <-> u = v.
Proof using All.
  pose proof align_even. pose proof align_equal as He. fmtw.
  assert (0 < 2 ^ n) by (apply pow2_pos; lia). pose proof (w_powers (Desc := Desc)) as (_ & _ & _ & _ & _ & _ & ?).
  assert (16 * 2 ^ w <= 2 ^ w * 2 ^ w) by (apply Z.mul_le_mono_nonneg_r; lia).
  rewrite He. destruct align_cases as [(E & Hbb & ?)|(E & ? & ?)].
  - split; [intros ->; congruence|]. intros Hab. rewrite Hbb in Hab at 1.
    apply (Z.mul_reg_r _ _ (2 ^ n)) in Hab; lia.
  - split; [lia|]. intros Hab. assert (a * 8 <= a * 2 ^ n) by (apply Z.mul_le_mono_nonneg_l; lia). lia.
Qed.

Lemma align_combines : combines e k u v a b'.
Proof using All.
  destruct align_pos. do 2 (split; [assumption|]).
  split; [apply align_sum|]. split; [apply align_cancel|]. split; [apply align_sub|apply align_rsub].
Qed.

End Align.

Lemma expo_max be t : fields_ok be t -> be <> INF -> expo be <= MAXIMUM_EXPONENT.
Proof.
  intros Hok Hb. pose proof (biased_le_inf _ _ Hok).
  destruct (exponents (Desc := Desc)) as (bias & HB & HM & -> & _ & Hinf & _ & ?).
  unfold expo. destruct (be =? 0); lia.
Qed.

Lemma rounds_run sgn k e x significand rm flags :
  rounds e k x significand ->
  normalize_and_round DOUBLE sgn e (wrap DOUBLE significand) rm flags
  = returns (ieee_round rm sgn (Ratio x 1 k)) flags.
Proof.
  intros (Hx & -> & He & Hr). fmt. rewrite wrap_id by exact Hr.
  apply normalize_and_round_spec; [cbn; lia|lia|assumption|exact Hr].
Qed.

(** The exact sum of two signed magnitudes [u] and [v]. *)
Definition signed_sum (sgn sgn' : bool) (u v : Z) : Z :=
  (if sgn then - u else u) + (if sgn' then - v else v).

(** The addition at the end of [fused_multiply_add], for aligned significands:
    [p] stands for [u] and [q] for [v]. *)
Lemma fma_combine sgn sgn' e k u v p q rm flags :
  combines e k u v p q ->
  (if Bool.eqb sgn' sgn then normalize_and_round DOUBLE sgn e (wrap DOUBLE (p + q))
   else if p =? q then cancellation_zero
   else if p <? q then normalize_and_round DOUBLE (negb sgn) e (wrap DOUBLE (q - p))
   else normalize_and_round DOUBLE sgn e (wrap DOUBLE (p - q))) rm flags
  = returns (let x := signed_sum sgn sgn' u v in
             if x =? 0 then (zero_sum rm, 0)
             else ieee_round rm (x <? 0) (Ratio (Z.abs x) 1 k)) flags.
Proof.
  intros (Hu & Hv & Hsum & Heq & Hsub & Hrsub). unfold signed_sum; cbv zeta.
  destruct (Bool.eqb_spec sgn' sgn) as [->|Hs].
  - rewrite (rounds_run _ _ _ _ _ _ _ Hsum). rewrite (proj2 (Z.eqb_neq _ 0)) by (destruct sgn; lia).
    f_equal. destruct sgn; f_equal; try lia; f_equal; lia.
  - destruct (Z.eqb_spec p q) as [E|E].
    + apply Heq in E. subst v. rewrite (proj2 (Z.eqb_eq _ 0)) by (destruct sgn, sgn'; congruence || lia).
      apply returns_pure.
    + assert (u <> v) by tauto.
      rewrite (proj2 (Z.eqb_neq _ 0)) by (destruct sgn, sgn'; congruence || lia).
      destruct (Z.ltb_spec p q).
      * destruct Hrsub as [? Hr]; [assumption|]. rewrite (rounds_run _ _ _ _ _ _ _ Hr). f_equal.
        destruct sgn, sgn'; try congruence; f_equal; try lia; f_equal; lia.
      * destruct Hsub as [? Hr]; [lia|]. rewrite (rounds_run _ _ _ _ _ _ _ Hr). f_equal.
        destruct sgn, sgn'; try congruence; f_equal; try lia; f_equal; lia.
Qed.

(** Aligning product and addend, whichever has the greater exponent. *)
Lemma fma_align sgn sgn' ep ec p c u v rm flags :
  0 <= ep - ec < 2 ^ 32 \/ 0 <= ec - ep < 2 ^ 32 ->
  2 * e0 <= ep + w -> 2 * e0 <= ec + w ->
  p * 2 ^ (ep - (2 * e0 - w)) = u * 2 ^ (2 * w + 2) ->
  c * 2 ^ (ec - (2 * e0 - w)) = v * 2 ^ (2 * w + 2) ->
  4 * (2 ^ w * 2 ^ w) <= p < 16 * (2 ^ w * 2 ^ w) -> p mod 4 = 0 ->
  4 * (2 ^ w * 2 ^ w) <= c < 16 * (2 ^ w * 2 ^ w) -> c mod 4 = 0 ->
  (let '(product_exponent, product, significand_c) :=
     if ec <? ep then (ep, p, right_shift DOUBLE c (u32 (ep - ec)))
     else if ep <? ec then (ec, right_shift DOUBLE p (u32 (ec - ep)), c)
     else (ep, p, c) in
   if Bool.eqb sgn' sgn then
     normalize_and_round DOUBLE sgn product_exponent (wrap DOUBLE (product + significand_c))
   else if product =? significand_c then cancellation_zero
   else if product <? significand_c then
     normalize_and_round DOUBLE (negb sgn) product_exponent (wrap DOUBLE (significand_c - product))
   else normalize_and_round DOUBLE sgn product_exponent (wrap DOUBLE (product - significand_c))) rm flags
  = returns (let x := signed_sum sgn sgn' u v in
             if x =? 0 then (zero_sum rm, 0)
             else ieee_round rm (x <? 0) (Ratio (Z.abs x) 1 (2 * e0))) flags.
Proof.
  intros Hr Hp Hc Hup Hvc Hpr Hp4 Hcr Hc4. powers.
  pose proof double_bound. pose proof double_powers. assert (0 < 2 ^ w * 2 ^ w) by lia.
  destruct (Z.ltb_spec ec ep) as [Hlt|Hge]; [|destruct (Z.ltb_spec ep ec) as [Hlt|Hle]].
  - unfold u32. rewrite (wrap_id 32), right_shift_is_quo by (unfold in_u; lia).
    assert (Hvc' : c * 2 ^ (ep - (ep - ec) - (2 * e0 - w)) = v * 2 ^ (2 * w + 2))
      by (replace (ep - (ep - ec)) with ec by lia; assumption).
    apply fma_combine, (align_combines p c u v ep (ep - ec) (2 * e0) (2 * e0 - w)); assumption || lia.
  - unfold u32. rewrite (wrap_id 32), right_shift_is_quo by (unfold in_u; lia).
    assert (Hup' : p * 2 ^ (ec - (ec - ep) - (2 * e0 - w)) = u * 2 ^ (2 * w + 2))
      by (replace (ec - (ec - ep)) with ep by lia; assumption).
    apply fma_combine, combines_sym, (align_combines c p v u ec (ec - ep) (2 * e0) (2 * e0 - w));
      assumption || lia.
  - assert (ec = ep) as -> by lia.
    assert (Hvc' : c * 2 ^ (ep - 0 - (2 * e0 - w)) = v * 2 ^ (2 * w + 2))
      by (rewrite Z.sub_0_r; assumption).
    assert (Hall : combines ep (2 * e0) u v p (sticky (quo c (2 ^ 0))))
      by (apply (align_combines p c u v ep 0 (2 * e0) (2 * e0 - w)); assumption || lia).
    rewrite Z.pow_0_r, quo_1 in Hall. apply fma_combine, Hall.
Qed.

(** The value of a product, and of an addend in its unit. *)
Lemma value_mul a b :
  value a * value b = (if xorb (sign a) (sign b) then - (units a * units b) else units a * units b).
Proof. unfold value. destruct (sign a), (sign b); cbn [xorb]; ring. Qed.

Lemma fma_finite sgn sgn' sgn'' be t be' t' be'' t'' rm flags :
  fields_ok be t -> fields_ok be' t' -> fields_ok be'' t'' ->
  be <> INF -> be' <> INF -> be'' <> INF ->
  0 < mant be t -> 0 < mant be' t' -> 0 < mant be'' t'' ->
  let sign_product := xorb sgn sgn' in
  (let! (exponent_a, significand_a) := get_normalized_significand (pack sgn be t) in
   let! (exponent_b, significand_b) := get_normalized_significand (pack sgn' be' t') in
   let product_exponent := exponent_a + exponent_b - w in
   let product := wrap DOUBLE ((significand_a >> 2) * significand_b) in
     let! (exponent_c, significand_c) := get_normalized_significand (pack sgn'' be'' t'') in
     let exponent_c := exponent_c - w in
     let significand_c := wrap DOUBLE (significand_c << w) in
     let '(product_exponent, product, significand_c) :=
       if exponent_c <? product_exponent then
         (product_exponent, product,
          right_shift DOUBLE significand_c (u32 (product_exponent - exponent_c)))
       else if product_exponent <? exponent_c then
         (exponent_c, right_shift DOUBLE product (u32 (exponent_c - product_exponent)),
          significand_c)
       else (product_exponent, product, significand_c) in
     if Bool.eqb sgn'' sign_product then
       normalize_and_round DOUBLE sign_product product_exponent
         (wrap DOUBLE (product + significand_c))
     else if product =? significand_c then cancellation_zero
     else if product <? significand_c then
       normalize_and_round DOUBLE (negb sign_product) product_exponent
         (wrap DOUBLE (significand_c - product))
     else
       normalize_and_round DOUBLE sign_product product_exponent
         (wrap DOUBLE (product - significand_c))) rm flags
  = returns (let x := signed_sum sign_product sgn'' (units (pack sgn be t) * units (pack sgn' be' t'))
                        (units (pack sgn'' be'' t'') * 2 ^ (- e0)) in
             if x =? 0 then (zero_sum rm, 0)
             else ieee_round rm (x <? 0) (Ratio (Z.abs x) 1 (2 * e0))) flags.
Proof.
  intros Ha Hb Hc Hia Hib Hic Hma Hmb Hmc sp. powers.
  destruct (exponents (Desc := Desc)) as (bias & _ & HM & HX & _ & _ & _ & ?).
  destruct (get_normalized_pack sgn be t Ha rm flags Hia Hma) as (ea & sa & Ra & Sa & [Ea Xa] & Ua).
  destruct (get_normalized_pack sgn' be' t' Hb rm flags Hib Hmb) as (eb & sb & Rb & Sb & [Eb Xb] & Ub).
  destruct (get_normalized_pack sgn'' be'' t'' Hc rm flags Hic Hmc) as (ec & sc & Rc & Sc & [Ec Xc] & Uc).
  pose proof (expo_max _ _ Ha Hia). pose proof (expo_max _ _ Hb Hib). pose proof (expo_max _ _ Hc Hic).
  rewrite (bind_run _ _ _ _ _ _ Ra), (bind_run _ _ _ _ _ _ Rb). cbv zeta.
  rewrite product_run by assumption.
  rewrite (bind_run _ _ _ _ _ _ Rc). pose proof double_bound. pose proof double_powers.
  assert (2 ^ w * 2 ^ w <= sa * sb < (2 * 2 ^ w) * (2 * 2 ^ w))
    by (split; [apply Z.mul_le_mono_nonneg|apply Z.mul_lt_mono_nonneg]; lia).
  assert (2 ^ w * 2 ^ w <= sc * 2 ^ w < 2 * 2 ^ w * 2 ^ w)
    by (split; [apply Z.mul_le_mono_nonneg_r|apply Z.mul_lt_mono_pos_r]; lia).
  rewrite Z.shiftl_mul_pow2, (wrap_id _ (4 * sc * 2 ^ w)) by (unfold in_u; lia).
  apply (fma_align sp sgn'' (ea + eb - w) (ec - w) (4 * sa * sb) (4 * sc * 2 ^ w)
           (units (pack sgn be t) * units (pack sgn' be' t')) (units (pack sgn'' be'' t'') * 2 ^ (- e0)));
    try lia.
  - replace (ea + eb - w - (2 * e0 - w)) with ((ea - e0) + (eb - e0)) by lia.
    replace (2 * w + 2) with (w + w + 2) by lia. rewrite !Z.pow_add_r by lia. change (2 ^ 2) with 4.
    transitivity ((sa * 2 ^ (ea - e0)) * (sb * 2 ^ (eb - e0)) * 4); [ring|]. rewrite Ua, Ub. ring.
  - replace (ec - w - (2 * e0 - w)) with ((ec - e0) + - e0) by lia.
    replace (2 * w + 2) with (w + w + 2) by lia. rewrite !Z.pow_add_r by lia. change (2 ^ 2) with 4.
    transitivity ((sc * 2 ^ (ec - e0)) * (2 ^ w * 4 * 2 ^ (- e0))); [ring|]. rewrite Uc. ring.
  - replace (4 * sa * sb) with (sa * sb * 4) by ring. apply Z.mod_mul. lia.
  - replace (4 * sc * 2 ^ w) with (sc * 2 ^ w * 4) by ring. apply Z.mod_mul. lia.
Qed.

Lemma ieee_fma_comm rm a b c : ieee_fma rm a b c = ieee_fma rm b a c.
Proof.
  unfold ieee_fma. rewrite (orb_comm (is_nan a)), (orb_comm (is_signaling a)),
    (orb_comm (is_infinite a)), (orb_comm (is_zero a)), (xorb_comm (sign a)), (Z.mul_comm (value a)).
  reflexivity.
Qed.

Lemma quiet_nan_pack : quiet_nan = pack false INF (2 ^ (w - 1)).
Proof.
  powers. destruct (exponents (Desc := Desc)) as (bias & _ & _ & _ & _ & Hinf & Hew & ?).
  unfold quiet_nan. change 0 with (pack false 0 0).
  rewrite set_biased_pack by (first [apply fields_ok_zero | unfold in_u; lia]).
  rewrite set_trailing_pack by (split; unfold in_u; lia). rewrite one_shl by lia.
  rewrite Z.mod_small; [reflexivity|]. split; [apply Z.lt_le_incl, pow2_pos; lia|].
  apply Z.pow_lt_mono_r; lia.
Qed.

Lemma quiet_nan_fields : fields_ok INF (2 ^ (w - 1)).
Proof.
  powers. destruct (exponents (Desc := Desc)) as (bias & _ & _ & _ & _ & Hinf & Hew & ?).
  split; unfold in_u; [lia|]. split; [apply Z.lt_le_incl, pow2_pos; lia|].
  apply Z.pow_lt_mono_r; lia.
Qed.

Lemma is_signaling_quiet : is_signaling quiet_nan = false.
Proof.
  fmt. rewrite quiet_nan_pack. unfold is_signaling.
  rewrite biased_pack, trailing_pack, Z.eqb_refl by apply quiet_nan_fields. cbn [negb].
  rewrite one_shl, Z.land_diag by lia. destruct (2 ^ (w - 1) =? 0); reflexivity.
Qed.

(** The swap at the start of the operations. *)
Lemma order_operands sgn sgn' be t be' t' :
  fields_ok be t -> fields_ok be' t' ->
  let a := pack sgn be t in let b := pack sgn' be' t' in
  exists s1 e1 t1 s2 e2 t2,
    (if is_less (total_order_magnitude a b) then (b, a) else (a, b)) = (pack s1 e1 t1, pack s2 e2 t2)
    /\ fields_ok e1 t1 /\ fields_ok e2 t2 /\ magnitude e2 t2 <= magnitude e1 t1
    /\ ((a, b) = (pack s1 e1 t1, pack s2 e2 t2) \/ (b, a) = (pack s1 e1 t1, pack s2 e2 t2)).
Proof.
  intros Ha Hb a b. unfold a, b. rewrite total_order_magnitude_pack by assumption.
  destruct (Z.compare_spec (magnitude be t) (magnitude be' t')); cbn [is_less].
  - exists sgn, be, t, sgn', be', t'. auto 6 with zarith.
  - exists sgn', be', t', sgn, be, t. auto 6 with zarith.
  - exists sgn, be, t, sgn', be', t'. auto 6 with zarith.
Qed.

Lemma magnitude_finite be t be' t' :
  fields_ok be t -> fields_ok be' t' -> magnitude be' t' <= magnitude be t ->
  (be =? INF) && (t <>? 0) = false -> (be' =? INF) && (t' <>? 0) = false.
Proof.
  intros Ha Hb Hmag Hn. destruct (magnitude_expo _ _ _ _ Ha Hb Hmag) as (Hle & _).
  pose proof (biased_le_inf _ _ Ha). unfold magnitude in Hmag. destruct Ha as [_ [? ?]], Hb as [_ [? ?]].
  destruct (Z.eqb_spec be' INF) as [->|]; [|reflexivity].
  assert (be = INF) as -> by lia. rewrite Z.eqb_refl in Hn. cbn [andb] in *.
  destruct (Z.eqb_spec t 0); [|discriminate]. destruct (Z.eqb_spec t' 0); [reflexivity|lia].
Qed.

Lemma units_zero sgn be t : fields_ok be t -> (be =? 0) && (t =? 0) = true -> units (pack sgn be t) = 0.
Proof.
  intros Hok [Hb Ht]%andb_true_iff. rewrite units_pack by assumption. unfold mant. rewrite Hb.
  apply Z.eqb_eq in Ht. subst t. reflexivity.
Qed.

(** The exact result of a fused multiply-add of finite operands. *)
Definition fma_sum (rm : RoundingMode) (sgn sgn' : bool) (u v : Z) : Z * Z :=
  let x := signed_sum sgn sgn' u v in
  if x =? 0 then (if Bool.eqb sgn' sgn then zero sgn else zero_sum rm, 0)
  else ieee_round rm (x <? 0) (Ratio (Z.abs x) 1 (2 * e0)).

(** Adding to a zero product, and adding a zero. *)
Lemma fma_sum_addend rm sgn sgn' be t :
  fields_ok be t -> be <> INF -> 0 < mant be t ->
  fma_sum rm sgn sgn' 0 (units (pack sgn' be t) * 2 ^ (- e0)) = (pack sgn' be t, 0).
Proof.
  intros Hok Hb Hm. powers. destruct (exponents (Desc := Desc)) as (bias & _ & HM & _ & He0 & _ & _ & ?).
  pose proof (ieee_round_value rm sgn' be t (2 * e0) (- e0) Hok Hb Hm ltac:(lia) ltac:(lia)) as Hr.
  assert (0 < units (pack sgn' be t) * 2 ^ (- e0))
    by (apply Z.mul_pos_pos; [apply units_pos; assumption|apply pow2_pos; lia]).
  unfold fma_sum, signed_sum. set (V := _ * 2 ^ (- e0)) in *. clearbody V.
  rewrite (proj2 (Z.eqb_neq _ 0)) by (destruct sgn, sgn'; lia).
  rewrite <- Hr. f_equal; [destruct sgn, sgn'; lia|f_equal; destruct sgn, sgn'; lia].
Qed.

Lemma fma_sum_product rm sgn sgn' u :
  0 < u -> fma_sum rm sgn sgn' u 0 = ieee_round rm sgn (Ratio u 1 (2 * e0)).
Proof.
  intros Hu. unfold fma_sum, signed_sum.
  rewrite (proj2 (Z.eqb_neq _ 0)) by (destruct sgn, sgn'; lia).
  f_equal; [destruct sgn, sgn'; lia|f_equal; destruct sgn, sgn'; lia].
Qed.

Lemma fma_sum_nonzero rm sgn sgn' u v :
  0 < u -> 0 < v ->
  (let x := signed_sum sgn sgn' u v in
   if x =? 0 then (zero_sum rm, 0) else ieee_round rm (x <? 0) (Ratio (Z.abs x) 1 (2 * e0)))
  = fma_sum rm sgn sgn' u v.
Proof.
  intros Hu Hv. unfold fma_sum, signed_sum; cbv zeta.
  destruct (Z.eqb_spec ((if sgn then - u else u) + (if sgn' then - v else v)) 0); [|reflexivity].
  destruct sgn, sgn'; try reflexivity; lia.
Qed.

Lemma ieee_fma_finite rm a b c :
  is_nan a || is_nan b = false -> is_infinite a || is_infinite b = false ->
  is_nan c = false -> is_infinite c = false ->
  ieee_fma rm a b c
  = fma_sum rm (xorb (sign a) (sign b)) (sign c) (units a * units b) (units c * 2 ^ (- e0)).
Proof.
  intros H1 H2 H3 H4. unfold ieee_fma, fma_sum, signed_sum. rewrite H1, H2, H3, H4, value_mul.
  unfold value. replace ((if sign c then - units c else units c) * 2 ^ (- e0))
    with (if sign c then - (units c * 2 ^ (- e0)) else units c * 2 ^ (- e0)); [reflexivity|].
  destruct (sign c); ring.
Qed.

(** An operand that is neither NaN nor infinite. *)
Lemma finite_pack sgn be t :
  fields_ok be t -> is_nan (pack sgn be t) = false -> is_infinite (pack sgn be t) = false -> be <> INF.
Proof.
  intros Hok Hn Hi ->. rewrite is_nan_pack in Hn by assumption. rewrite is_infinite_pack in Hi by assumption.
  rewrite Z.eqb_refl in *. cbn [andb] in *. rewrite Hi in Hn. discriminate.
Qed.

Lemma is_nan_ordered sgn sgn' be t be' t' :
  fields_ok be t -> fields_ok be' t' -> magnitude be' t' <= magnitude be t ->
  is_nan (pack sgn be t) || is_nan (pack sgn' be' t') = is_nan (pack sgn be t).
Proof.
  intros Ha Hb Hmag. rewrite !is_nan_pack by assumption.
  destruct ((be =? INF) && (t <>? 0)) eqn:Hn; [reflexivity|].
  apply (magnitude_finite _ _ _ _ Ha Hb Hmag Hn).
Qed.

Lemma fma_ordered sgn sgn' be t be' t' :
  fields_ok be t -> fields_ok be' t' -> magnitude be' t' <= magnitude be t ->
  let a := pack sgn be t in let b := pack sgn' be' t' in
  is_nan a = false ->
  is_infinite a || is_infinite b = is_infinite a /\ is_zero a || is_zero b = is_zero b.
Proof.
  intros Ha Hb Hmag a b. unfold a, b. destruct (magnitude_expo _ _ _ _ Ha Hb Hmag) as (Hle & _).
  pose proof (biased_le_inf _ _ Ha). unfold magnitude in Hmag.
  rewrite is_nan_pack, !is_infinite_pack, !is_zero_pack by assumption.
  destruct Ha as [[? ?] [? ?]], Hb as [[? ?] [? ?]]. fmtw. intros Hn.
  split.
  - destruct (Z.eqb_spec be' INF) as [->|]; [|apply orb_false_r].
    assert (be = INF) as -> by lia. rewrite Z.eqb_refl in *. cbn [andb] in *.
    apply negb_false_iff in Hn. rewrite Hn. reflexivity.
  - destruct (Z.eqb_spec be 0) as [->|]; [|reflexivity]. destruct (Z.eqb_spec t 0) as [->|]; [|reflexivity].
    assert (be' = 0) as -> by lia. rewrite (proj2 (Z.eqb_eq t' 0)) by lia. reflexivity.
Qed.

Lemma fma_nan a b c rm flags :
  is_nan a || is_nan b = true ->
  bind (propagate_nan a b) (fun ab => propagate_nan ab c) rm flags
  = returns (ieee_fma rm a b c) flags.
Proof.
  intros Hn. unfold ieee_fma. rewrite Hn.
  rewrite (bind_run _ _ _ _ _ _ (propagate_nan_run _ _ _ _)). unfold ieee_nan at 1 2; cbn [fst snd].
  rewrite propagate_nan_run, is_signaling_quiet. unfold returns, ieee_nan; cbn [fst snd orb].
  rewrite <- Z.lor_assoc. do 3 f_equal.
  destruct (is_signaling a), (is_signaling b), (is_signaling c); reflexivity.
Qed.

Lemma fma_infinite a b c rm flags :
  is_nan a || is_nan b = false -> is_infinite a || is_infinite b = true ->
  is_zero a || is_zero b = is_zero b ->
  let sign_product := xorb (sign a) (sign b) in
  (if is_zero b then set_exception_flag INVALID_OPERATION ;; ret quiet_nan
   else if is_nan c then propagate_nan c c
   else if is_infinite c && negb (Bool.eqb (sign c) sign_product)
   then set_exception_flag INVALID_OPERATION ;; ret quiet_nan
   else ret (infinity sign_product)) rm flags
  = returns (ieee_fma rm a b c) flags.
Proof.
  intros Hn Hi Hz sp. unfold ieee_fma. rewrite Hn, Hi, Hz. fold sp.
  destruct (is_zero b); [reflexivity|].
  destruct (is_nan c); [rewrite propagate_nan_run, orb_diag; reflexivity|].
  destruct (is_infinite c && negb (Bool.eqb (sign c) sp)); [reflexivity|apply returns_pure].
Qed.

Lemma units_is_zero a : is_zero a = true -> units a = 0.
Proof.
  unfold is_zero, units. intros [-> ->%Z.eqb_eq]%andb_true_iff. reflexivity.
Qed.

Lemma fma_zero a b c rm flags :
  is_zero b = true -> is_zero c = true -> sign c <> xorb (sign a) (sign b) ->
  cancellation_zero rm flags
  = returns (fma_sum rm (xorb (sign a) (sign b)) (sign c) (units a * units b) (units c * 2 ^ (- e0))) flags.
Proof.
  intros Hb Hc Hs. rewrite (units_is_zero b Hb), (units_is_zero c Hc), Z.mul_0_r.
  unfold fma_sum, signed_sum. destruct (Bool.eqb_spec (sign c) (xorb (sign a) (sign b))); [contradiction|].
  destruct (xorb (sign a) (sign b)), (sign c); cbn; apply returns_pure.
Qed.

(** C34. [fused_multiply_add] computes [a * b + c] with a single rounding, and
    raises exactly the flags of IEEE 754, unless product and addend are zeros
    of the same sign. *)
Theorem fused_multiply_add_ieee a b c rm flags :
  in_u HOLDER a -> in_u HOLDER b -> in_u HOLDER c ->
  ((is_zero a || is_zero b) && is_zero c = true -> sign c <> xorb (sign a) (sign b)) ->
  fused_multiply_add a b c rm flags = returns (ieee_fma rm a b c) flags.
Proof.
  intros Ha0 Hb0 Hc0. destruct (unpack a Ha0) as (sa & ba & ta & -> & Ha).
  destruct (unpack b Hb0) as (sb & bb & tb & -> & Hb). destruct (unpack c Hc0) as (s'' & be'' & t'' & -> & Hc).
  destruct (order_operands sa sb _ _ _ _ Ha Hb) as (s & be & t & s' & be' & t' & Hsw & H1 & H2 & Hmag & Heq).
  intros Hz. unfold fused_multiply_add. rewrite Hsw.
  assert (ieee_fma rm (pack sa ba ta) (pack sb bb tb) (pack s'' be'' t'')
          = ieee_fma rm (pack s be t) (pack s' be' t') (pack s'' be'' t'')
          /\ ((is_zero (pack s be t) || is_zero (pack s' be' t')) && is_zero (pack s'' be'' t'') = true
              -> sign (pack s'' be'' t'') <> xorb (sign (pack s be t)) (sign (pack s' be' t')))) as [-> Hz'].
  { destruct Heq as [Heq|Heq]; injection Heq as E1 E2; rewrite <- E1, <- E2; [auto|].
    rewrite (ieee_fma_comm rm (pack sb bb tb)), (xorb_comm (sign (pack sb bb tb))),
      (orb_comm (is_zero (pack sb bb tb))). auto. }
  clear Hz Hsw Heq Ha0 Hb0 Hc0 Ha Hb.
  destruct (is_nan (pack s be t)) eqn:Hna; [apply fma_nan; rewrite Hna; reflexivity|].
  assert (Hnan : is_nan (pack s be t) || is_nan (pack s' be' t') = false)
    by (rewrite is_nan_ordered; assumption).
  destruct (is_infinite (pack s be t)) eqn:Hia;
    destruct (fma_ordered s s' _ _ _ _ H1 H2 Hmag Hna) as [Hinf Hzero]; rewrite Hia in Hinf at 2;
    [apply fma_infinite; assumption|].
  destruct (is_nan (pack s'' be'' t'')) eqn:Hnc.
  { unfold ieee_fma. rewrite Hnan, Hinf, Hnc, propagate_nan_run, orb_diag. reflexivity. }
  destruct (is_infinite (pack s'' be'' t'')) eqn:Hic.
  { unfold ieee_fma. rewrite Hnan, Hinf, Hnc, Hic. apply returns_pure. }
  rewrite ieee_fma_finite by assumption.
  pose proof (finite_pack _ _ _ H1 Hna Hia) as Fa. pose proof (finite_pack _ _ _ Hc Hnc Hic) as Fc.
  pose proof (magnitude_expo _ _ _ _ H1 H2 Hmag) as (Hle & _). pose proof (biased_le_inf _ _ H1).
  rewrite Hzero in Hz'. apply orb_false_iff in Hnan as [_ Hnb]. apply orb_false_iff in Hinf as [_ Hib].
  pose proof (finite_pack _ _ _ H2 Hnb Hib) as Fb.
  destruct (is_zero (pack s' be' t')) eqn:Hzb, (is_zero (pack s'' be'' t'')) eqn:Hzc.
  - apply fma_zero; auto.
  - rewrite (units_is_zero _ Hzb), Z.mul_0_r, (sign_pack s'') by assumption.
    rewrite is_zero_pack in Hzc by assumption.
    rewrite fma_sum_addend by (assumption || (apply mant_pos; assumption)). apply returns_pure.
  - apply orb_false_iff in Hzero as [Hza _]. rewrite is_zero_pack in Hza, Hzb by assumption.
    rewrite (units_is_zero _ Hzc), Z.mul_0_l, !sign_pack by assumption.
    rewrite multiply_finite, fma_sum_product; try assumption; try (apply mant_pos; assumption).
    + reflexivity.
    + apply Z.mul_pos_pos; apply units_pos; try assumption; apply mant_pos; assumption.
  - apply orb_false_iff in Hzero as [Hza _]. rewrite is_zero_pack in Hza, Hzb, Hzc by assumption.
    rewrite !sign_pack, fma_finite by (assumption || (apply mant_pos; assumption)).
    rewrite fma_sum_nonzero; [reflexivity| |].
    + apply Z.mul_pos_pos; apply units_pos; try assumption; apply mant_pos; assumption.
    + apply Z.mul_pos_pos; [apply units_pos; try assumption; apply mant_pos; assumption|].
      destruct (exponents (Desc := Desc)) as (bias & _ & HM & _ & He0 & _ & _ & ?). fmt. apply pow2_pos; lia.
Qed.

End Mul.

Lemma multiply_ieee_witness :
  multiply (Desc := F64Desc) 0x3fb999999999999a 0x4024000000000000 TowardZero 0
  = Some (0x3ff0000000000000, INEXACT).
Proof.
  refine (_ (multiply_ieee (Desc := F64Desc) 0x3fb999999999999a 0x4024000000000000 TowardZero 0 _ _)).
  - intros ->. vm_compute. reflexivity.
  - unfold in_u; cbn; lia.
  - unfold in_u; cbn; lia.
Defined.

Lemma divide_ieee_witness :
  divide (Desc := F32Desc) 0x3f800000 0x40400000 TiesToEven 0 = Some (0x3eaaaaab, INEXACT).
Proof.
  refine (_ (divide_ieee (Desc := F32Desc) 0x3f800000 0x40400000 TiesToEven 0 _ _)).
  - intros ->. vm_compute. reflexivity.
  - unfold in_u; cbn; lia.
  - unfold in_u; cbn; lia.
Defined.

Lemma square_root_ieee_witness :
  square_root (Desc := F32Desc) 0x40000000 TiesToEven 0 = Some (0x3fb504f3, INEXACT).
Proof.
  refine (_ (square_root_ieee (Desc := F32Desc) 0x40000000 TiesToEven 0 _ _)).
  - intros ->. vm_compute. reflexivity.
  - unfold in_u; cbn; lia.
  - vm_compute. reflexivity.
Defined.

Lemma fused_multiply_add_ieee_witness :
  fused_multiply_add (Desc := F32Desc) 0x3f800001 0x3f7ffffe 0xbf800000 TiesToEven 0
  = Some (0xa8800000, 0).
Proof.
  refine (_ (fused_multiply_add_ieee (Desc := F32Desc) 0x3f800001 0x3f7ffffe 0xbf800000 TiesToEven 0 _ _ _ _)).
  - intros ->. vm_compute. reflexivity.
  - unfold in_u; cbn; lia.
  - unfold in_u; cbn; lia.
  - unfold in_u; cbn; lia.
  - vm_compute. discriminate.
Defined.

(** A signaling NaN makes [square_root] raise the division-by-zero flag
    instead of the invalid-operation flag the standard requires. *)
Theorem square_root_signaling (Desc : FpDesc) a rm flags :
  is_nan a = true -> is_signaling a = true ->
  square_root a rm flags = Some (quiet_nan, flags .| DIVIDE_BY_ZERO)
  /\ ieee_sqrt rm a = (quiet_nan, INVALID_OPERATION).
Proof.
  intros Hn Hs. unfold square_root, ieee_sqrt, ieee_nan. rewrite Hn, Hs. split; reflexivity.
Qed.

Lemma square_root_signaling_witness :
  square_root (Desc := F32Desc) 0x7f800001 TiesToEven 0 = Some (0x7fc00000, DIVIDE_BY_ZERO).
Proof.
  refine (_ (square_root_signaling F32Desc 0x7f800001 TiesToEven 0 _ _)).
  - intros [-> _]. vm_compute. reflexivity.
  - vm_compute. reflexivity.
  - vm_compute. reflexivity.
Defined.

(** When the product and the addend of [fused_multiply_add] are zeros of the
    same sign, the result has the sign of a cancellation instead of theirs:
    [(-0) * 0 + (-0)] is [+0] in every mode but rounding toward negative, and
    [0 * 0 + 0] is [-0] in that mode. *)
Theorem fused_multiply_add_zero_sign rm flags :
  fused_multiply_add (Desc := F32Desc) 0x80000000 0 0x80000000 rm flags
  = Some (if rm_eqb rm TowardNegative then 0x80000000 else 0, flags)
  /\ fused_multiply_add (Desc := F32Desc) 0 0 0 rm flags
     = Some (if rm_eqb rm TowardNegative then 0x80000000 else 0, flags)
  /\ ieee_fma (Desc := F32Desc) rm 0x80000000 0 0x80000000 = (0x80000000, 0)
  /\ ieee_fma (Desc := F32Desc) rm 0 0 0 = (0, 0).
Proof. destruct rm; repeat split; reflexivity. Qed.
