(* ===== verification/SoftfpConv.v ===== *)
(** Conversions, comparisons and classification of lib/softfp/src/fp.rs against
    the specification. *)

From Stdlib Require Import ZArith Lia Bool List.
From S2P Require Import Prelude Softfp SoftfpSpec SoftfpRound SoftfpArith SoftfpMul.
Import Fp.
Local Open Scope Z_scope.
Local Open Scope rust_scope.
Local Open Scope fp_scope.

Section Conv.
Context {Desc : FpDesc} {Laws : FpDescLaws Desc}.

Local Notation w := (@SIGNIFICAND_WIDTH Desc).
Local Notation INF := (@INFINITY_BIASED_EXPONENT Desc).
Local Notation MIN := (@MINIMUM_EXPONENT Desc).
Local Notation e0 := (@e0 Desc).
Local Notation mant := (@mant Desc).
Local Notation expo := (@expo Desc).

(** ** From integers *)

Lemma convert_from_int_run tw sgn v rm flags :
  0 <= tw -> in_u tw v ->
  convert_from_int_with_sign tw sgn v rm flags
  = returns (if v =? 0 then (zero false, 0) else ieee_round rm sgn (Ratio v 1 0)) flags.
Proof.
  intros Htw Hv. unfold convert_from_int_with_sign.
  destruct (Z.eqb_spec v 0); [apply returns_pure|]. unfold in_u in Hv.
  assert (Ht : trunc (Ratio v 1 0) (w + 2 - w - 2) = (v, true))
    by (replace (w + 2 - w - 2) with 0 by lia; rewrite (trunc_quo v 1 0 0 v 1 0 0) by lia; apply quo_1).
  change v with (sticky (v, true)) at 1. rewrite <- Ht.
  apply normalize_and_round_spec; rewrite ?Ht; [cbn; lia|assumption| |assumption].
  split; cbn [fst snd]; [lia|discriminate].
Qed.

Lemma convert_from_uint_run tw v rm flags :
  0 <= tw -> in_u tw v ->
  convert_from_uint tw v rm flags = returns (ieee_of_int rm v) flags.
Proof.
  intros Htw Hv. unfold convert_from_uint, ieee_of_int. rewrite convert_from_int_run by assumption.
  f_equal. destruct (v =? 0); [reflexivity|]. destruct Hv.
  rewrite (proj2 (Z.ltb_ge v 0)), Z.abs_eq by assumption. reflexivity.
Qed.

Lemma convert_from_sint_run tw v rm flags :
  0 < tw -> in_u tw v ->
  convert_from_sint tw v rm flags = returns (ieee_of_int rm (sext tw v)) flags.
Proof.
  intros Htw Hv. unfold convert_from_sint, ieee_of_int. rewrite sext_unsigned by assumption.
  pose proof (pow2_split tw Htw). assert (0 < 2 ^ (tw - 1)) by (apply pow2_pos; lia).
  unfold in_u in Hv. rewrite Z.shiftr_div_pow2 by lia.
  destruct (Z.ltb_spec v (2 ^ (tw - 1))) as [Hlt|Hge].
  - rewrite Z.div_small by lia. cbn [Z.eqb negb]. rewrite convert_from_int_run by (assumption || lia).
    rewrite (proj2 (Z.ltb_ge v 0)), Z.abs_eq by lia. reflexivity.
  - replace (v / 2 ^ (tw - 1)) with 1 by (apply Z.div_unique with (v - 2 ^ (tw - 1)); lia).
    cbn [Z.eqb negb]. replace (Z.lnot v + 1) with (- v) by (unfold Z.lnot; lia).
    assert (wrap tw (- v) = 2 ^ tw - v) as ->
      by (symmetry; apply Z.mod_unique_pos with (-1); lia).
    rewrite convert_from_int_run by (unfold in_u; lia).
    rewrite (proj2 (Z.eqb_neq (2 ^ tw - v) 0)), (proj2 (Z.eqb_neq (v - 2 ^ tw) 0)) by lia.
    f_equal. f_equal; [|f_equal; lia]. symmetry. apply Z.ltb_lt. lia.
Qed.

(** Integers of any width, unsigned and signed, convert to the nearest
    number by the rounding mode, with the inexact flag when they do not fit the
    significand and overflow when they exceed the format. *)
Theorem convert_from_int_ieee tw v rm flags :
  0 < tw -> in_u tw v ->
  convert_from_uint tw v rm flags = returns (ieee_of_int rm v) flags
  /\ convert_from_sint tw v rm flags = returns (ieee_of_int rm (sext tw v)) flags.
Proof.
  intros Htw Hv. split; [apply convert_from_uint_run|apply convert_from_sint_run]; assumption || lia.
Qed.

(** ** To integers *)

(** The magnitude of an operand as an exact value. *)
Definition magnitude_of (a : Z) : exact := Ratio (units a) 1 e0.

(** Outside the range where the shifted significand does not fit the target
    type but passes the check on [remaining_bits]. *)
Definition fits_or_far (tw a : Z) : Prop :=
  units a < 2 ^ (tw - e0) \/ 2 ^ (tw + 2 - e0) <= units a.

Lemma convert_fraction sgn be t tw pmax nmax e s rm flags :
  fields_ok be t -> 0 < mant be t ->
  let a := pack sgn be t in let max := if sgn then nmax else pmax in
  0 <= pmax < 2 ^ tw -> 0 <= nmax < 2 ^ tw ->
  2 ^ w <= s < 2 ^ (w + 1) -> s * 2 ^ (e - e0) = units a * 2 ^ w -> e0 <= e -> e < w ->
  exists s' r f,
    (let! (inexact, significand) := round_significand sgn (right_shift HOLDER (4 * s) (- (e - w))) in
     if significand =? 0 then set_exception_flag INEXACT ;; ret (false, 0)
     else if (significand <? 2 ^ tw) && (significand <=? max) then
       flag_if inexact INEXACT ;; ret (sgn, significand)
     else set_exception_flag INVALID_OPERATION ;; ret (sgn, max)) rm flags
    = Some ((s', r), flags .| f)
    /\ 0 <= r <= (if s' : bool then nmax else pmax)
    /\ (let m := rnd rm sgn (trunc (magnitude_of a) (-1)) in
        let v := if sgn then - m else m in
        if v <? - nmax then (- nmax, INVALID_OPERATION)
        else if pmax <? v then (pmax, INVALID_OPERATION)
        else (v, if snd (trunc (magnitude_of a) 0) then 0 else INEXACT))
       = (if s' : bool then - r else r, f).
Proof.
  intros Hok Hm a max Hp Hn Hs Hu He Hew. powers.
  pose proof (units_pos sgn _ _ Hok Hm) as Hup. fold a in Hup.
  assert (Hx : positive (magnitude_of a)) by (cbn; lia).
  assert (Ht : trunc (magnitude_of a) (e - w - 2) = (4 * s, true)).
  { rewrite <- quo_1. apply (trunc_quo _ _ _ _ _ _ (w + 2) (e - e0)); lia. }
  assert (Hshift : right_shift HOLDER (4 * s) (- (e - w)) = sticky (trunc (magnitude_of a) (-2))).
  { change (4 * s) with (sticky (4 * s, true)). rewrite <- Ht.
    rewrite right_shift_sticky by (rewrite ?Ht; unfold sticky, in_u; cbn [fst snd]; lia).
    rewrite <- trunc_shr by (assumption || lia). do 2 f_equal. lia. }
  assert (Hf : 0 <= fst (trunc (magnitude_of a) (-2)) <= 4 * s).
  { replace (-2) with (e - w - 2 + - (e - w)) by lia. rewrite trunc_shr, Ht by (assumption || lia).
    unfold shr; cbn [fst]. assert (0 < 2 ^ (- (e - w))) by (apply pow2_pos; lia).
    split; [apply Z.div_pos; lia|]. apply Z.div_le_upper_bound; nia. }
  rewrite Hshift.
  rewrite (bind_run _ _ _ _ _ _ (round_significand_spec sgn (trunc (magnitude_of a) (-2)) rm flags
             ltac:(lia) ltac:(apply sticky_holder; lia))).
  rewrite <- !trunc_shr by (assumption || lia). change (-2 + 2) with 0. change (-2 + 1) with (-1).
  pose proof (rnd_bounds rm sgn (trunc (magnitude_of a) (-1))) as Hr.
  pose proof (rnd_exact rm sgn (trunc (magnitude_of a) (-1))) as Hx1.
  rewrite <- trunc_shr in Hr, Hx1 by (assumption || lia). change (-1 + 1) with 0 in Hr, Hx1.
  assert (H0f : 0 <= fst (trunc (magnitude_of a) 0)).
  { change 0 with (-2 + 2) at 2. rewrite trunc_shr by (assumption || lia).
    unfold shr; cbn [fst]. apply Z.div_pos; [lia|apply pow2_pos; lia]. }
  assert (H1f : snd (trunc (magnitude_of a) 0) = true -> 0 < fst (trunc (magnitude_of a) 0)).
  { intros Hex. pose proof (trunc_finer _ 0 (- (e - w - 2)) Hx ltac:(lia) Hex) as Hfine.
    replace (0 - - (e - w - 2)) with (e - w - 2) in Hfine by lia. rewrite Ht in Hfine.
    apply (f_equal fst) in Hfine; cbn [fst] in Hfine. destruct (Z.eq_dec (fst (trunc (magnitude_of a) 0)) 0) as [E|]; [|lia].
    rewrite E in Hfine. lia. }
  set (m := rnd rm sgn (trunc (magnitude_of a) (-1))) in *.
  set (ex := snd (trunc (magnitude_of a) 0)) in *. cbv zeta.
  destruct (Z.eqb_spec m 0) as [Em|Em].
  - assert (ex = false) as -> by (destruct ex; [specialize (Hx1 eq_refl); specialize (H1f eq_refl); lia|reflexivity]).
    exists false, 0, INEXACT. rewrite Em. split; [reflexivity|]. split; [lia|].
    replace (if sgn then - 0 else 0) with 0 by (destruct sgn; reflexivity).
    rewrite (proj2 (Z.ltb_ge 0 (- nmax))), (proj2 (Z.ltb_ge pmax 0)) by lia. reflexivity.
  - destruct (Z.leb_spec m max) as [Hle|Hgt].
    + rewrite (proj2 (Z.ltb_lt m (2 ^ tw))) by (unfold max in Hle; destruct sgn; lia). cbn [andb].
      exists sgn, m, (if ex then 0 else INEXACT). unfold bind. rewrite flag_if_run.
      unfold max in Hle. split; [unfold ret; destruct ex; reflexivity|]. split; [destruct sgn; lia|].
      rewrite (proj2 (Z.ltb_ge _ (- nmax))), (proj2 (Z.ltb_ge pmax _)) by (destruct sgn; lia). reflexivity.
    + rewrite andb_false_r. exists sgn, max, INVALID_OPERATION.
      split; [reflexivity|]. unfold max in *. split; [destruct sgn; lia|].
      destruct sgn; [rewrite (proj2 (Z.ltb_lt _ (- nmax))) by lia; reflexivity|].
      rewrite (proj2 (Z.ltb_ge m (- nmax))), (proj2 (Z.ltb_lt pmax m)) by lia. reflexivity.
Qed.

(** The integral case: the value is [s * 2 ^ (e - w)]. *)
Lemma convert_integer sgn be t tw pmax nmax e s rm flags :
  fields_ok be t -> 0 < mant be t ->
  let a := pack sgn be t in let max := if sgn then nmax else pmax in
  0 <= tw -> 0 <= pmax < 2 ^ tw -> 0 <= nmax < 2 ^ tw -> fits_or_far tw a ->
  2 ^ w <= s < 2 ^ (w + 1) -> s * 2 ^ (e - e0) = units a * 2 ^ w -> e0 <= e -> w <= e ->
  exists s' r f,
    (let significand := (4 * s) >> 2 in
     let remaining_bits := tw - w + 1 in
     if (remaining_bits <? 0) || (remaining_bits <? e - w) then
       set_exception_flag INVALID_OPERATION ;; ret (sgn, max)
     else
       let result := wrap tw (wrap tw significand << (e - w)) in
       if max <? result then set_exception_flag INVALID_OPERATION ;; ret (sgn, max)
       else ret (sgn, result)) rm flags
    = Some ((s', r), flags .| f)
    /\ 0 <= r <= (if s' : bool then nmax else pmax)
    /\ (let m := rnd rm sgn (trunc (magnitude_of a) (-1)) in
        let v := if sgn then - m else m in
        if v <? - nmax then (- nmax, INVALID_OPERATION)
        else if pmax <? v then (pmax, INVALID_OPERATION)
        else (v, if snd (trunc (magnitude_of a) 0) then 0 else INEXACT))
       = (if s' : bool then - r else r, f).
Proof.
  intros Hok Hm a max Htw Hp Hn Hfit Hs Hu He Hew. powers.
  pose proof (units_pos sgn _ _ Hok Hm) as Hup. fold a in Hup.
  assert (Hx : positive (magnitude_of a)) by (cbn; lia).
  destruct (exponents (Desc := Desc)) as (bias & _ & HM & _ & He0 & _ & _ & ?).
  assert (Hpe : 2 ^ (e - e0) = 2 ^ (e - w) * 2 ^ (w - e0))
    by (rewrite <- Z.pow_add_r by lia; f_equal; lia).
  assert (Hpw : 2 ^ (w - e0) = 2 ^ (- e0) * 2 ^ w) by (rewrite <- Z.pow_add_r by lia; f_equal; lia).
  assert (0 < 2 ^ (e - w)) by (apply pow2_pos; lia). assert (0 < 2 ^ (- e0)) by (apply pow2_pos; lia).
  assert (Hua : units a = s * 2 ^ (e - w) * 2 ^ (- e0)).
  { apply (Z.mul_reg_r _ _ (2 ^ w)); [lia|]. rewrite <- Hu, Hpe, Hpw. ring. }
  assert (Ht : trunc (magnitude_of a) 0 = (s * 2 ^ (e - w), true)).
  { rewrite <- quo_1. apply (trunc_quo _ _ _ _ _ _ 0 (- e0)); lia. }
  assert (Hr : rnd rm sgn (trunc (magnitude_of a) (-1)) = s * 2 ^ (e - w)).
  { rewrite rnd_exact; rewrite <- trunc_shr by (assumption || lia); change (-1 + 1) with 0;
      rewrite Ht; reflexivity. }
  rewrite Hr, Ht. cbn [snd]. clear Hr Ht.
  replace ((4 * s) >> 2) with s
    by (rewrite Z.shiftr_div_pow2, Z.mul_comm by lia; symmetry; apply Z.div_mul; lia).
  cbv zeta. set (m := s * 2 ^ (e - w)) in *.
  assert (Hbig : forall f, exists s' r f',
    (set_exception_flag INVALID_OPERATION ;; ret (sgn, max)) rm f = Some ((s', r), f .| f')
    /\ 0 <= r <= (if s' : bool then nmax else pmax)
    /\ (max < m -> (if (if sgn then - m else m) <? - nmax then (- nmax, INVALID_OPERATION)
        else if pmax <? (if sgn then - m else m) then (pmax, INVALID_OPERATION)
        else (if sgn then - m else m, 0)) = (if s' : bool then - r else r, f'))).
  { intros f. exists sgn, max, INVALID_OPERATION. unfold max.
    split; [reflexivity|]. split; [destruct sgn; lia|]. intros Hlt.
    destruct sgn; [rewrite (proj2 (Z.ltb_lt _ (- nmax))) by lia; reflexivity|].
    rewrite (proj2 (Z.ltb_ge m (- nmax))), (proj2 (Z.ltb_lt pmax m)) by lia. reflexivity. }
  specialize (Hbig flags). destruct Hbig as (sb & rb & fb & Hb1 & Hb2 & Hb3).
  (* a value of at least 2 ^ tw never fits *)
  assert (Htwp : 2 ^ (tw - e0) = 2 ^ tw * 2 ^ (- e0)) by (rewrite <- Z.pow_add_r by lia; f_equal; lia).
  assert (Htwp2 : 2 ^ (tw + 2 - e0) = 2 ^ tw * 4 * 2 ^ (- e0)).
  { replace (tw + 2 - e0) with (tw + 2 + - e0) by lia. rewrite !Z.pow_add_r by lia. reflexivity. }
  unfold fits_or_far in Hfit. rewrite Htwp, Htwp2, Hua in Hfit.
  destruct ((tw - w + 1 <? 0) || (tw - w + 1 <? e - w)) eqn:Hrem.
  - exists sb, rb, fb. split; [assumption|]. split; [assumption|]. apply Hb3.
    assert (2 ^ tw <= m); [|unfold max; destruct sgn; lia].
    apply Z.le_trans with (2 ^ w * 2 ^ (e - w)); [|apply Z.mul_le_mono_nonneg_r; lia].
    rewrite <- Z.pow_add_r by lia. apply Z.pow_le_mono_r; [lia|].
    apply orb_true_iff in Hrem. rewrite !Z.ltb_lt in Hrem. lia.
  - apply orb_false_iff in Hrem as [Hr1%Z.ltb_ge Hr2%Z.ltb_ge].
    assert (Hm4 : m < 4 * 2 ^ tw).
    { assert (Hle : 2 ^ (w + 1) * 2 ^ (e - w) <= 2 ^ (tw + 2))
        by (rewrite <- Z.pow_add_r by lia; apply Z.pow_le_mono_r; lia).
      rewrite (Z.pow_add_r 2 tw 2) in Hle by lia. change (2 ^ 2) with 4 in Hle.
      assert (m < 2 ^ (w + 1) * 2 ^ (e - w)) by (apply Z.mul_lt_mono_pos_r; lia). lia. }
    assert (Hm1 : m < 2 ^ tw).
    { destruct Hfit as [Hf|Hf]; [apply Z.mul_lt_mono_pos_r in Hf; assumption|].
      apply Z.mul_le_mono_pos_r in Hf; lia. }
    assert (0 < m) by (apply Z.mul_pos_pos; lia).
    assert (s <= m) by (apply Z.le_mul_diag_r; lia).
    rewrite (wrap_id tw s), Z.shiftl_mul_pow2 by (unfold in_u; lia). fold m.
    rewrite wrap_id by (unfold in_u; lia).
    destruct (Z.ltb_spec max m) as [Hgt|Hle].
    + exists sb, rb, fb. auto.
    + exists sgn, m, 0. rewrite Z.lor_0_r. unfold max in *.
      split; [reflexivity|]. split; [destruct sgn; lia|].
      rewrite (proj2 (Z.ltb_ge _ (- nmax))), (proj2 (Z.ltb_ge pmax _)) by (destruct sgn; lia). reflexivity.
Qed.

(** [convert_to_int] is the specification with bounds [- nmax] and [pmax], as a
    sign and a magnitude. *)
Lemma convert_to_int_run tw pmax nmax a rm flags :
  in_u HOLDER a -> 0 <= tw -> 0 <= pmax < 2 ^ tw -> 0 <= nmax < 2 ^ tw ->
  (is_finite a = true -> fits_or_far tw a) ->
  exists s' r f,
    convert_to_int tw a pmax nmax rm flags = Some ((s', r), flags .| f)
    /\ 0 <= r <= (if s' : bool then nmax else pmax)
    /\ ieee_to_int rm (- nmax) pmax a = (if s' : bool then - r else r, f).
Proof.
  intros Ha0 Htw Hp Hn Hfit. destruct (unpack a Ha0) as (sgn & be & t & -> & Hok).
  unfold convert_to_int, ieee_to_int. rewrite sign_pack by assumption.
  destruct (is_nan (pack sgn be t)) eqn:Hnan.
  { exists false, pmax, INVALID_OPERATION. repeat split; lia. }
  destruct (is_infinite (pack sgn be t)) eqn:Hinf.
  { exists sgn, (if sgn then nmax else pmax), INVALID_OPERATION.
    destruct sgn; repeat split; lia. }
  pose proof (finite_pack _ _ _ Hok Hnan Hinf) as Hb.
  destruct (is_zero (pack sgn be t)) eqn:Hz.
  { exists false, 0, 0. rewrite Z.lor_0_r. split; [reflexivity|]. split; [lia|].
    rewrite (units_is_zero _ Hz). rewrite !trunc_ratio.
    destruct (exponents (Desc := Desc)) as (bias & _ & HM & _ & He0 & _ & _ & ?). fmt.
    destruct (Z.leb_spec (-1) e0); [lia|]. destruct (Z.leb_spec 0 e0); [lia|].
    unfold quo. rewrite !Z.div_0_l, !Z.mod_0_l
      by (rewrite Z.mul_1_l; apply Z.pow_nonzero; lia). cbn [Z.eqb snd].
    replace (rnd rm sgn (0, true)) with 0 by (destruct rm, sgn; reflexivity).
    replace (if sgn then - 0 else 0) with 0 by (destruct sgn; reflexivity).
    rewrite (proj2 (Z.ltb_ge 0 _)), (proj2 (Z.ltb_ge pmax _)) by lia. reflexivity. }
  assert (Hf : fits_or_far tw (pack sgn be t)).
  { apply Hfit. unfold is_finite. rewrite biased_pack by assumption.
    apply negb_true_iff, Z.eqb_neq. assumption. }
  rewrite is_zero_pack in Hz by assumption. pose proof (mant_pos _ _ Hok Hz) as Hm.
  destruct (get_normalized_pack sgn be t Hok rm flags Hb Hm) as (e & s & Rs & Ss & [Es _] & Us).
  rewrite (bind_run _ _ _ _ _ _ Rs).
  destruct (Z.ltb_spec (e - w) 0).
  - apply (convert_fraction sgn be t tw pmax nmax e s); assumption || lia.
  - apply (convert_integer sgn be t tw pmax nmax e s); assumption || lia.
Qed.

Lemma convert_to_uint_run tw a rm flags :
  in_u HOLDER a -> 0 <= tw -> (is_finite a = true -> fits_or_far tw a) ->
  convert_to_uint tw a rm flags = returns (ieee_to_int rm 0 (2 ^ tw - 1) a) flags.
Proof.
  intros Ha Htw Hfit. pose proof (pow2_pos tw Htw).
  destruct (convert_to_int_run tw (2 ^ tw - 1) 0 a rm flags Ha Htw) as (s' & r & f & Hrun & Hr & Hs);
    [lia|lia|assumption|].
  unfold convert_to_uint. rewrite (bind_run _ _ _ _ _ _ Hrun). cbn [Z.opp] in Hs. rewrite Hs.
  unfold ret, returns; cbn [fst snd]. destruct s'; [|reflexivity]. do 2 f_equal. lia.
Qed.

(** The result is the two's complement of the specified value. *)
Lemma convert_to_sint_run tw a rm flags :
  in_u HOLDER a -> 0 < tw -> (is_finite a = true -> fits_or_far tw a) ->
  convert_to_sint tw a rm flags
  = let v := ieee_to_int rm (- 2 ^ (tw - 1)) (2 ^ (tw - 1) - 1) a in
    returns (wrap tw (fst v), snd v) flags.
Proof.
  intros Ha Htw Hfit. pose proof (pow2_split tw Htw). assert (0 < 2 ^ (tw - 1)) by (apply pow2_pos; lia).
  assert (Hmax : (2 ^ tw - 1) >> 1 = 2 ^ (tw - 1) - 1).
  { rewrite Z.shiftr_div_pow2 by lia. change (2 ^ 1) with 2. symmetry.
    apply Z.div_unique with 1; lia. }
  assert (Hmin : wrap tw (Z.lnot (2 ^ (tw - 1) - 1)) = 2 ^ (tw - 1)).
  { symmetry. apply Z.mod_unique_pos with (-1); unfold Z.lnot; lia. }
  destruct (convert_to_int_run tw (2 ^ (tw - 1) - 1) (2 ^ (tw - 1)) a rm flags Ha)
    as (s' & r & f & Hrun & Hr & Hs); [lia|lia|lia|assumption|].
  unfold convert_to_sint. rewrite Hmax, Hmin, (bind_run _ _ _ _ _ _ Hrun), Hs.
  unfold ret, returns; cbn [fst snd]. do 2 f_equal. destruct s'.
  - f_equal. unfold Z.lnot. lia.
  - symmetry. apply wrap_id. unfold in_u. lia.
Qed.

(** Conversion to an unsigned or signed integer of [tw] bits rounds by the
    rounding mode, saturates with the invalid flag on NaN, infinities and values
    out of range, and raises inexact otherwise when it rounds, for every operand
    whose magnitude is below [2 ^ tw] or at least [2 ^ (tw + 2)]. *)
Theorem convert_to_int_ieee tw a rm flags :
  in_u HOLDER a -> 0 < tw -> (is_finite a = true -> fits_or_far tw a) ->
  convert_to_uint tw a rm flags = returns (ieee_to_int rm 0 (2 ^ tw - 1) a) flags
  /\ convert_to_sint tw a rm flags
     = (let v := ieee_to_int rm (- 2 ^ (tw - 1)) (2 ^ (tw - 1) - 1) a in
        returns (wrap tw (fst v), snd v) flags).
Proof.
  intros Ha Htw Hf. split; [apply convert_to_uint_run|apply convert_to_sint_run]; assumption || lia.
Qed.

(** ** Order *)

Lemma units_monotone sgn sgn' be t be' t' :
  fields_ok be t -> fields_ok be' t' -> magnitude be t < magnitude be' t' ->
  units (pack sgn be t) < units (pack sgn' be' t').
Proof.
  intros Ha Hb Hmag. destruct (magnitude_expo _ _ _ _ Hb Ha ltac:(lia)) as (Hle & He & Hm & Hbig).
  rewrite !units_pack by assumption. pose proof (mant_range _ _ Ha). pose proof (mant_range _ _ Hb).
  pose proof (expo_range _ _ Ha). powers.
  assert (0 < 2 ^ (expo be - MIN)) by (apply pow2_pos; lia).
  destruct (Z.eq_dec (expo be) (expo be')) as [E|E].
  - rewrite <- E. apply Z.mul_lt_mono_pos_r; [assumption|]. specialize (Hm E).
    destruct (Z.eq_dec (mant be t) (mant be' t')) as [Em|]; [|lia]. exfalso.
    unfold magnitude, mant, expo in *. destruct Ha as [[? ?] [? ?]], Hb as [[? ?] [? ?]].
    destruct (exponents (Desc := Desc)) as (bias & HB & HM & _).
    destruct (Z.eqb_spec be 0), (Z.eqb_spec be' 0); subst; nia.
  - replace (expo be' - MIN) with (1 + (expo be' - expo be - 1) + (expo be - MIN)) by lia.
    rewrite !Z.pow_add_r by lia. rewrite Z.mul_assoc. apply Z.mul_lt_mono_pos_r; [assumption|].
    change (2 ^ 1) with 2. assert (0 < 2 ^ (expo be' - expo be - 1)) by (apply pow2_pos; lia).
    specialize (Hbig ltac:(lia)).
    assert (2 ^ w * (2 * 1) <= mant be' t' * (2 * 2 ^ (expo be' - expo be - 1)))
      by (apply Z.mul_le_mono_nonneg; lia). lia.
Qed.

Lemma units_compare sgn sgn' be t be' t' :
  fields_ok be t -> fields_ok be' t' ->
  (magnitude be t ?= magnitude be' t') = (units (pack sgn be t) ?= units (pack sgn' be' t')).
Proof.
  intros Ha Hb. destruct (Z.compare_spec (magnitude be t) (magnitude be' t')) as [E|E|E].
  - assert (be = be' /\ t = t') as [-> ->].
    { unfold magnitude in E. destruct Ha as [_ [? ?]], Hb as [_ [? ?]]. fmtw.
      assert (be = be') as -> by nia. lia. }
    symmetry. apply Z.compare_eq_iff, units_sign. assumption.
  - symmetry. apply Z.compare_lt_iff, units_monotone; assumption.
  - symmetry. apply Z.compare_gt_iff, units_monotone; assumption.
Qed.

Lemma compare_quiet_run a b :
  in_u HOLDER a -> in_u HOLDER b ->
  compare_quiet a b = if is_nan a || is_nan b then None else Some (value a ?= value b).
Proof.
  intros Ha0 Hb0. destruct (unpack a Ha0) as (sgn & be & t & -> & Ha).
  destruct (unpack b Hb0) as (sgn' & be' & t' & -> & Hb). unfold compare_quiet, total_order.
  destruct (is_nan (pack sgn be t) || is_nan (pack sgn' be' t')); [reflexivity|].
  rewrite !value_pack, !sign_pack, total_order_magnitude_pack by assumption.
  rewrite (units_compare sgn sgn') by assumption.
  destruct (is_zero (pack sgn be t) && is_zero (pack sgn' be' t')) eqn:Hz.
  - apply andb_true_iff in Hz as [Hza Hzb]. rewrite (units_is_zero _ Hza), (units_is_zero _ Hzb).
    destruct sgn, sgn'; reflexivity.
  - pose proof (units_nonneg sgn _ _ Ha). pose proof (units_nonneg sgn' _ _ Hb).
    assert (Hnz : 0 < units (pack sgn be t) + units (pack sgn' be' t')).
    { apply andb_false_iff in Hz. rewrite !is_zero_pack in Hz by assumption.
      destruct Hz as [Hz|Hz]; apply mant_pos in Hz; try assumption;
        [pose proof (units_pos sgn _ _ Ha Hz)|pose proof (units_pos sgn' _ _ Hb Hz)]; lia. }
    set (u := units (pack sgn be t)) in *. set (v := units (pack sgn' be' t')) in *. clearbody u v.
    f_equal. destruct sgn, sgn'; cbn [Bool.eqb].
    + rewrite Z.compare_opp. symmetry. apply Z.compare_antisym.
    + symmetry. apply Z.compare_lt_iff. lia.
    + symmetry. apply Z.compare_gt_iff. lia.
    + reflexivity.
Qed.

Lemma compare_signaling_run a b rm flags :
  compare_signaling a b rm flags
  = Some (compare_quiet a b,
          flags .| (if is_nan a || is_nan b then INVALID_OPERATION else 0)).
Proof.
  unfold compare_signaling, compare_quiet.
  destruct (is_nan a || is_nan b); [reflexivity|]. rewrite Z.lor_0_r.
  destruct (is_zero a && is_zero b); reflexivity.
Qed.

(** Comparison is the comparison of values (infinities included, whose
    [units] are beyond those of the finite numbers) and unordered on NaNs; the
    signaling comparison behind [<] and [<=] agrees and raises invalid on any
    NaN, while [==] raises nothing. *)
Theorem compare_value a b rm flags :
  in_u HOLDER a -> in_u HOLDER b ->
  let unordered := is_nan a || is_nan b in
  let fl := flags .| (if unordered then INVALID_OPERATION else 0) in
  compare_quiet a b = (if unordered then None else Some (value a ?= value b))
  /\ fp_eq a b = negb unordered && (value a =? value b)
  /\ fp_lt a b rm flags = Some (negb unordered && (value a <? value b), fl)
  /\ fp_le a b rm flags = Some (negb unordered && (value a <=? value b), fl).
Proof.
  intros Ha Hb unordered fl. pose proof (compare_quiet_run a b Ha Hb) as Hc. fold unordered in Hc.
  unfold fp_eq, fp_lt, fp_le.
  rewrite !(bind_run _ _ _ _ _ _ (compare_signaling_run a b rm flags)), Hc. fold unordered fl.
  destruct unordered; [repeat split; reflexivity|]. cbn [negb andb].
  unfold Z.ltb, Z.leb, ret. rewrite Z.eqb_compare.
  destruct (value a ?= value b); repeat split; reflexivity.
Qed.

(** [min_max] on numbers returns its two operands in the order of their
    values, a negative zero below a positive one. *)
Theorem min_max_value a b rm flags :
  in_u HOLDER a -> in_u HOLDER b -> is_nan a = false -> is_nan b = false ->
  exists lo hi,
    min_max a b rm flags = Some ((lo, hi), flags)
    /\ value lo <= value hi /\ ((lo, hi) = (a, b) \/ (lo, hi) = (b, a))
    /\ (value lo = value hi -> sign lo = false -> sign hi = false).
Proof.
  intros Ha0 Hb0 Hna Hnb. destruct (unpack a Ha0) as (sgn & be & t & -> & Ha).
  destruct (unpack b Hb0) as (sgn' & be' & t' & -> & Hb).
  unfold min_max, total_order. rewrite Hna, Hnb, !sign_pack, total_order_magnitude_pack by assumption.
  rewrite (units_compare sgn sgn') by assumption. cbn [orb].
  pose proof (value_pack sgn be t Ha) as Va. pose proof (value_pack sgn' be' t' Hb) as Vb.
  pose proof (units_nonneg sgn _ _ Ha). pose proof (units_nonneg sgn' _ _ Hb).
  destruct (Z.compare_spec (units (pack sgn be t)) (units (pack sgn' be' t')));
    destruct sgn, sgn'; cbn [Bool.eqb CompOpp is_less] in *; unfold ret;
    (eexists _, _; split; [reflexivity|]); (split; [lia|]); (split; [tauto|]);
    rewrite !sign_pack by assumption; intros; try reflexivity; try discriminate; lia.
Qed.

(** ** Classification *)

(** [classify] never panics, and its class is the one the predicates
    describe, for every bit pattern. *)
Theorem classify_spec a rm flags :
  exists c,
    classify a rm flags = Some (c, flags)
    /\ (is_nan a = true <-> c = SignalingNan \/ c = QuietNan)
    /\ (is_signaling a = true <-> c = SignalingNan)
    /\ (is_infinite a = true <-> c = NegativeInfinity \/ c = PositiveInfinity)
    /\ (is_zero a = true <-> c = NegativeZero \/ c = PositiveZero)
    /\ (is_subnormal a = true <-> c = NegativeSubnormal \/ c = PositiveSubnormal)
    /\ (is_normal a = true <-> c = NegativeNormal \/ c = PositiveNormal)
    /\ (is_nan a = false ->
        (sign a = true <-> c = NegativeInfinity \/ c = NegativeNormal \/ c = NegativeSubnormal
                           \/ c = NegativeZero)).
Proof.
  unfold classify, is_nan, is_signaling, is_infinite, is_zero, is_subnormal, is_normal.
  assert (H0 : 0 <> INF)
    by (destruct (exponents (Desc := Desc)) as (bias & _ & _ & _ & _ & -> & _ & ?); lia).
  destruct (Z.eqb_spec (biased_exponent a) 0) as [E0|E0];
    destruct (Z.eqb_spec (biased_exponent a) INF) as [E1|E1]; try congruence;
    destruct (trailing_significand a =? 0);
    destruct (trailing_significand a .& (1 << (w - 1)) =? 0);
    destruct (sign a); cbn;
    (eexists; split; [reflexivity|]); intuition congruence.
Qed.

End Conv.

(** ** Between formats *)

Lemma convert_format_run (Desc TDesc : FpDesc) `{!FpDescLaws Desc} `{!FpDescLaws TDesc} a rm flags :
  in_u (@HOLDER Desc) a ->
  convert_format Desc TDesc a rm flags = returns (ieee_convert Desc TDesc rm a) flags.
Proof.
  intros Ha0. destruct (unpack (Desc := Desc) a Ha0) as (sgn & be & t & -> & Hok).
  unfold convert_format, ieee_convert. rewrite sign_pack by assumption.
  destruct (is_nan (Desc := Desc) (pack sgn be t)) eqn:Hnan.
  { rewrite (bind_run _ _ _ _ _ _ (flag_if_run _ _ _ _)). reflexivity. }
  destruct (is_infinite (Desc := Desc) (pack sgn be t)) eqn:Hinf; [apply returns_pure|].
  pose proof (finite_pack (Desc := Desc) _ _ _ Hok Hnan Hinf) as Hb.
  destruct (is_zero (Desc := Desc) (pack sgn be t)) eqn:Hz; [apply returns_pure|].
  rewrite (is_zero_pack (Desc := Desc)) in Hz by assumption.
  pose proof (mant_pos (Desc := Desc) _ _ Hok Hz) as Hm.
  pose proof (units_pos (Desc := Desc) sgn _ _ Hok Hm).
  destruct (get_normalized_pack (Desc := Desc) sgn be t Hok rm flags Hb Hm)
    as (e & s & Rs & Ss & [Es _] & Us).
  rewrite (bind_run _ _ _ _ _ _ Rs).
  pose proof (w_powers (Desc := Desc)) as (P1 & P2 & _ & _ & _ & P6 & P7).
  pose proof (holder_width (Desc := Desc)). pose proof (exponent_width_range (Desc := Desc)).
  pose proof (significand_width_range (Desc := Desc)).
  set (w := @SIGNIFICAND_WIDTH Desc) in *. set (w' := @SIGNIFICAND_WIDTH TDesc) in *.
  set (u := units (Desc := Desc) (pack sgn be t)) in *. set (k := e0 (Desc := Desc)) in *.
  assert (Ht : trunc (Ratio u 1 k) (e - w + w' - w' - 2) = (4 * s, true)).
  { rewrite <- quo_1. apply (trunc_quo _ _ _ _ _ _ (w + 2) (e - k)); lia. }
  change (4 * s) with (sticky (4 * s, true)). rewrite <- Ht.
  apply (normalize_and_round_spec (Desc := TDesc)); fold w'; rewrite ?Ht.
  - cbn; lia.
  - lia.
  - split; cbn [fst snd]; [lia|discriminate].
  - unfold sticky, in_u; cbn [fst snd]. lia.
Qed.

(** Rounding depends on the exact value only through its truncations. *)
Lemma ieee_round_ext (Desc : FpDesc) rm sgn x y :
  positive x -> positive y -> (forall e, trunc x e = trunc y e) ->
  ieee_round rm sgn x = ieee_round rm sgn y.
Proof.
  intros Hx Hy Hxy. assert (Hl : ilog2 x = ilog2 y).
  { pose proof (base_pos x Hx). rewrite (ilog2_trunc y (base x)), <- Hxy by (assumption || (rewrite <- Hxy; assumption)).
    reflexivity. }
  unfold ieee_round, quantum, tiny. rewrite Hl, !Hxy. reflexivity.
Qed.

Lemma trunc_rescale n k i e : 0 <= i -> trunc (Ratio (n * 2 ^ i) 1 (k - i)) e = trunc (Ratio n 1 k) e.
Proof.
  intros Hi. pose proof (pow2_pos i Hi). rewrite (trunc_ratio n).
  destruct (Z.leb_spec e k).
  - apply (trunc_quo _ _ _ _ _ _ (Z.max 0 (k - i - e)) (Z.max 0 (- (k - i - e)))); try lia.
    destruct (Z.max_spec 0 (k - i - e)) as [[? ->]|[? ->]].
    + rewrite Z.max_l by lia. replace (k - e) with (i + (k - i - e)) by lia.
      rewrite Z.pow_add_r by lia. ring.
    + rewrite Z.max_r by lia. replace (2 ^ i) with (2 ^ (k - e) * 2 ^ (- (k - i - e))); [ring|].
      rewrite <- Z.pow_add_r by lia. f_equal. lia.
  - assert (0 < 2 ^ (e - k)) by (apply pow2_pos; lia).
    apply (trunc_quo _ _ _ _ _ _ 0 (i + (e - k))); try lia.
    rewrite Z.pow_add_r by lia. ring.
Qed.

(** A binary32 magnitude is a binary64 magnitude: widening finds its fields. *)
Lemma widen_fields s e :
  2 ^ 23 <= s < 2 ^ 24 -> -149 <= e <= 127 ->
  let be := e + 1023 in let t := s * 2 ^ 29 - 2 ^ 52 in
  fields_ok (Desc := F64Desc) be t /\ be <> INFINITY_BIASED_EXPONENT (Desc := F64Desc)
  /\ 0 < mant (Desc := F64Desc) be t
  /\ forall sgn, units (Desc := F64Desc) (pack (Desc := F64Desc) sgn be t) = s * 2 ^ (e + 1051).
Proof.
  intros Hs He be t.
  assert (Hok : fields_ok (Desc := F64Desc) be t) by (unfold fields_ok, in_u, be, t; cbn; lia).
  change (INFINITY_BIASED_EXPONENT (Desc := F64Desc)) with 2047.
  split; [assumption|]. split; [unfold be; lia|].
  unfold mant. rewrite (proj2 (Z.eqb_neq be 0)) by (unfold be; lia).
  split; [unfold t; cbn; lia|]. intros sgn. rewrite units_pack by assumption. unfold mant, expo.
  rewrite (proj2 (Z.eqb_neq be 0)) by (unfold be; lia).
  change (EXPONENT_BIAS (Desc := F64Desc)) with 1023. change (MINIMUM_EXPONENT (Desc := F64Desc)) with (-1022).
  change (@SIGNIFICAND_WIDTH F64Desc) with 52.
  replace (e + 1051) with (29 + (be - 1023 - -1022)) by (unfold be; lia).
  rewrite (Z.pow_add_r 2 29) by (unfold be; lia). unfold t. ring.
Qed.

Lemma ieee_widen sgn be t rm :
  fields_ok (Desc := F32Desc) be t -> be <> INFINITY_BIASED_EXPONENT (Desc := F32Desc) ->
  0 < mant (Desc := F32Desc) be t ->
  exists be' t',
    ieee_convert F32Desc F64Desc rm (pack (Desc := F32Desc) sgn be t)
    = (pack (Desc := F64Desc) sgn be' t', 0)
    /\ fields_ok (Desc := F64Desc) be' t' /\ be' <> INFINITY_BIASED_EXPONENT (Desc := F64Desc)
    /\ 0 < mant (Desc := F64Desc) be' t'
    /\ units (Desc := F64Desc) (pack (Desc := F64Desc) sgn be' t') = units (Desc := F32Desc) (pack (Desc := F32Desc) sgn be t) * 2 ^ 925.
Proof.
  intros Hok Hb Hm.
  destruct (get_normalized_pack (Desc := F32Desc) sgn be t Hok rm 0 Hb Hm)
    as (e & s & _ & Hs & [He1 He2] & Hu).
  pose proof (expo_max (Desc := F32Desc) be t Hok Hb) as He3.
  change (e0 (Desc := F32Desc)) with (-149) in *. change (MAXIMUM_EXPONENT (Desc := F32Desc)) with 127 in He3.
  change (@SIGNIFICAND_WIDTH F32Desc) with 23 in *.
  destruct (widen_fields s e Hs) as (Hok' & Hb' & Hm' & Hu'); [lia|].
  exists (e + 1023), (s * 2 ^ 29 - 2 ^ 52).
  assert (Hun : units (Desc := F64Desc) (pack (Desc := F64Desc) sgn (e + 1023) (s * 2 ^ 29 - 2 ^ 52))
                = units (Desc := F32Desc) (pack (Desc := F32Desc) sgn be t) * 2 ^ 925).
  { apply (Z.mul_reg_r _ _ (2 ^ 23)); [discriminate|]. rewrite Hu'.
    transitivity (units (Desc := F32Desc) (pack (Desc := F32Desc) sgn be t) * 2 ^ 23 * 2 ^ 925); [|ring].
    rewrite <- Hu. replace (e + 1051) with (e - -149 + 902) by lia.
    rewrite Z.pow_add_r by lia. replace (2 ^ 925) with (2 ^ 902 * 2 ^ 23) by reflexivity. ring. }
  split; [|auto]. unfold ieee_convert. rewrite sign_pack by assumption.
  rewrite is_nan_pack, is_infinite_pack, is_zero_pack by assumption.
  rewrite (proj2 (Z.eqb_neq be _)) by assumption. cbn [andb].
  replace ((be =? 0) && (t =? 0)) with false
    by (unfold mant in Hm; destruct (be =? 0), (Z.eqb_spec t 0); try reflexivity; exfalso; lia).
  rewrite <- (ieee_round_value (Desc := F64Desc) rm sgn _ _ (-1074) 0 Hok' Hb' Hm') by reflexivity || lia.
  apply ieee_round_ext.
  - cbn [positive]. pose proof (units_pos (Desc := F32Desc) sgn _ _ Hok Hm). lia.
  - cbn [positive]. pose proof (units_pos (Desc := F64Desc) sgn _ _ Hok' Hm'). lia.
  - intros x. rewrite Hun, Z.pow_0_r, Z.mul_1_r. symmetry.
    apply (trunc_rescale (units (Desc := F32Desc) (pack (Desc := F32Desc) sgn be t)) (-149) 925). lia.
Qed.

Lemma ieee_narrow sgn be t be' t' rm :
  fields_ok (Desc := F32Desc) be t -> be <> INFINITY_BIASED_EXPONENT (Desc := F32Desc) ->
  0 < mant (Desc := F32Desc) be t ->
  fields_ok (Desc := F64Desc) be' t' -> be' <> INFINITY_BIASED_EXPONENT (Desc := F64Desc) ->
  0 < mant (Desc := F64Desc) be' t' ->
  units (Desc := F64Desc) (pack (Desc := F64Desc) sgn be' t') = units (Desc := F32Desc) (pack (Desc := F32Desc) sgn be t) * 2 ^ 925 ->
  ieee_convert F64Desc F32Desc rm (pack (Desc := F64Desc) sgn be' t') = (pack (Desc := F32Desc) sgn be t, 0).
Proof.
  intros Hok Hb Hm Hok' Hb' Hm' Hu. unfold ieee_convert. rewrite sign_pack by assumption.
  rewrite is_nan_pack, is_infinite_pack, is_zero_pack by assumption.
  rewrite (proj2 (Z.eqb_neq be' _)) by assumption. cbn [andb].
  replace ((be' =? 0) && (t' =? 0)) with false
    by (unfold mant in Hm'; destruct (be' =? 0), (Z.eqb_spec t' 0); try reflexivity; exfalso; lia).
  rewrite Hu. apply ieee_round_value; try assumption; try lia. reflexivity.
Qed.

(** Conversion between formats is correctly rounded with the flags of the
    standard, for any two formats. *)
Theorem convert_format_ieee (Desc TDesc : FpDesc) `{!FpDescLaws Desc} `{!FpDescLaws TDesc} a rm flags :
  in_u (@HOLDER Desc) a ->
  convert_format Desc TDesc a rm flags = returns (ieee_convert Desc TDesc rm a) flags.
Proof. intros. apply convert_format_run; assumption. Qed.

(** Widening a binary32 number that is not a NaN to binary64 and narrowing
    it back gives the same bits and raises no flag, in every rounding mode. *)
Theorem widen_narrow_roundtrip a rm rm' flags :
  in_u 32 a -> is_nan (Desc := F32Desc) a = false ->
  exists b,
    convert_format F32Desc F64Desc a rm flags = Some (b, flags)
    /\ convert_format F64Desc F32Desc b rm' flags = Some (a, flags).
Proof.
  intros Ha Hn. destruct (unpack (Desc := F32Desc) a Ha) as (sgn & be & t & -> & Hok).
  rewrite (convert_format_run F32Desc F64Desc) by assumption.
  destruct (is_infinite (Desc := F32Desc) (pack (Desc := F32Desc) sgn be t)) eqn:Hi.
  { rewrite is_infinite_pack in Hi by assumption. apply andb_true_iff in Hi as [->%Z.eqb_eq ->%Z.eqb_eq].
    exists (infinity (Desc := F64Desc) sgn). split.
    - replace (ieee_convert _ _ _ _) with (infinity (Desc := F64Desc) sgn, 0) by (destruct sgn; reflexivity).
      symmetry. apply returns_pure.
    - rewrite (convert_format_run F64Desc F32Desc) by (destruct sgn; unfold in_u; cbn; lia).
      replace (ieee_convert _ _ _ _) with (pack (Desc := F32Desc) sgn (INFINITY_BIASED_EXPONENT (Desc := F32Desc)) 0, 0)
        by (destruct sgn; reflexivity).
      symmetry. apply returns_pure. }
  destruct (is_zero (Desc := F32Desc) (pack (Desc := F32Desc) sgn be t)) eqn:Hz.
  { rewrite is_zero_pack in Hz by assumption. apply andb_true_iff in Hz as [->%Z.eqb_eq ->%Z.eqb_eq].
    exists (zero (Desc := F64Desc) sgn). split.
    - replace (ieee_convert _ _ _ _) with (zero (Desc := F64Desc) sgn, 0) by (destruct sgn; reflexivity).
      symmetry. apply returns_pure.
    - rewrite (convert_format_run F64Desc F32Desc) by (destruct sgn; unfold in_u; cbn; lia).
      replace (ieee_convert _ _ _ _) with (pack (Desc := F32Desc) sgn 0 0, 0) by (destruct sgn; reflexivity).
      symmetry. apply returns_pure. }
  pose proof (finite_pack (Desc := F32Desc) _ _ _ Hok Hn Hi) as Hb.
  rewrite is_zero_pack in Hz by assumption. pose proof (mant_pos (Desc := F32Desc) _ _ Hok Hz) as Hm.
  destruct (ieee_widen sgn be t rm Hok Hb Hm) as (be' & t' & -> & Hok' & Hb' & Hm' & Hu).
  exists (pack (Desc := F64Desc) sgn be' t'). split; [symmetry; apply returns_pure|].
  rewrite (convert_format_run F64Desc F32Desc) by (apply pack_holder; assumption).
  rewrite (ieee_narrow sgn be t) by assumption. symmetry. apply returns_pure.
Qed.

(** A positive number of [2 ^ 32], which no [u32] holds, converts to 0
    without any flag instead of saturating with the invalid flag; the same
    happens to [2 ^ 64] in binary64. *)
Theorem convert_to_uint_wraps rm flags :
  convert_to_uint (Desc := F32Desc) 32 0x4f800000 rm flags = Some (0, flags)
  /\ ieee_to_int (Desc := F32Desc) rm 0 (2 ^ 32 - 1) 0x4f800000 = (2 ^ 32 - 1, INVALID_OPERATION)
  /\ convert_to_uint (Desc := F64Desc) 64 0x43f0000000000000 rm flags = Some (0, flags)
  /\ ieee_to_int (Desc := F64Desc) rm 0 (2 ^ 64 - 1) 0x43f0000000000000 = (2 ^ 64 - 1, INVALID_OPERATION).
Proof. destruct rm; repeat split; reflexivity. Qed.

Lemma convert_from_int_ieee_witness :
  convert_from_uint (Desc := F32Desc) 64 0xffffffffffffffff TiesToEven 0 = Some (0x5f800000, INEXACT)
  /\ convert_from_sint (Desc := F32Desc) 64 0xffffffffffffffff TiesToEven 0 = Some (0xbf800000, 0).
Proof.
  refine (_ (convert_from_int_ieee (Desc := F32Desc) 64 0xffffffffffffffff TiesToEven 0 _ _)).
  - intros [-> ->]. vm_compute. split; reflexivity.
  - lia.
  - unfold in_u; cbn; lia.
Defined.

Lemma convert_to_int_ieee_witness :
  convert_to_uint (Desc := F32Desc) 32 0xc0200000 TiesToEven 0 = Some (0, INVALID_OPERATION)
  /\ convert_to_sint (Desc := F32Desc) 32 0xc0200000 TiesToEven 0 = Some (0xfffffffe, INEXACT).
Proof.
  refine (_ (convert_to_int_ieee (Desc := F32Desc) 32 0xc0200000 TiesToEven 0 _ _ _)).
  - intros [-> ->]. vm_compute. split; reflexivity.
  - unfold in_u; cbn; lia.
  - lia.
  - intros _. left. vm_compute. reflexivity.
Defined.

Lemma compare_value_witness :
  fp_lt (Desc := F32Desc) 0xbf800000 0x7f800000 TiesToEven 0 = Some (true, 0).
Proof.
  refine (_ (compare_value (Desc := F32Desc) 0xbf800000 0x7f800000 TiesToEven 0 _ _)).
  - intros (_ & _ & -> & _). vm_compute. reflexivity.
  - unfold in_u; cbn; lia.
  - unfold in_u; cbn; lia.
Defined.

Lemma min_max_value_witness :
  exists lo hi, min_max (Desc := F32Desc) 0 0x80000000 TiesToEven 0 = Some ((lo, hi), 0)
    /\ value (Desc := F32Desc) lo <= value (Desc := F32Desc) hi
    /\ ((lo, hi) = (0, 0x80000000) \/ (lo, hi) = (0x80000000, 0))
    /\ (value (Desc := F32Desc) lo = value (Desc := F32Desc) hi ->
        sign (Desc := F32Desc) lo = false -> sign (Desc := F32Desc) hi = false).
Proof.
  apply (min_max_value (Desc := F32Desc)); try (unfold in_u; cbn; lia); vm_compute; reflexivity.
Defined.

Lemma classify_spec_witness :
  exists c, classify (Desc := F32Desc) 0x80000001 TiesToEven 0 = Some (c, 0)
    /\ (is_subnormal (Desc := F32Desc) 0x80000001 = true
        <-> c = NegativeSubnormal \/ c = PositiveSubnormal).
Proof.
  destruct (classify_spec (Desc := F32Desc) 0x80000001 TiesToEven 0) as (c & H & _ & _ & _ & _ & Hs & _).
  exists c. split; [exact H|exact Hs].
Defined.

Lemma convert_format_ieee_witness :
  convert_format F64Desc F32Desc 0x3fb999999999999a TowardPositive 0 = Some (0x3dcccccd, INEXACT).
Proof.
  refine (_ (convert_format_ieee F64Desc F32Desc 0x3fb999999999999a TowardPositive 0 _)).
  - intros ->. vm_compute. reflexivity.
  - unfold in_u; cbn; lia.
Defined.

Lemma widen_narrow_roundtrip_witness :
  exists b, convert_format F32Desc F64Desc 0x00000001 TiesToEven 0 = Some (b, 0)
    /\ convert_format F64Desc F32Desc b TowardZero 0 = Some (0x00000001, 0).
Proof.
  apply (widen_narrow_roundtrip 0x00000001 TiesToEven TowardZero 0); [unfold in_u; cbn; lia|].
  vm_compute. reflexivity.
Defined.
