(* ===== verification/SoftfpRange.v ===== *)
(** Every softfp operation returns a value of its format and accumulates only
    the five exception flags; these facts need no assumption on the rounding
    mode and hold for every input. *)

From Stdlib Require Import ZArith Lia Bool List.
From S2P Require Import Prelude Softfp SoftfpSpec SoftfpRound.
Local Open Scope Z_scope.
Local Open Scope rust_scope.

(** [f] keeps the flags in their five bits and returns values in [R]. *)
Definition fp_ok {A} (f : FpM A) (R : A -> Prop) : Prop :=
  forall rm flags, in_u 5 flags ->
    match f rm flags with
    | Some (a, flags') => in_u 5 flags' /\ R a
    | None => True
    end.

Lemma fp_ok_bind {A B} (f : FpM A) (k : A -> FpM B) R S :
  fp_ok f R -> (forall a, R a -> fp_ok (k a) S) -> fp_ok (bind f k) S.
Proof.
  intros Hf Hk rm fl Hfl. unfold bind. specialize (Hf rm fl Hfl).
  destruct (f rm fl) as [[a fl']|]; [|exact I]. apply Hk; apply Hf.
Qed.

Lemma fp_ok_weaken {A} (f : FpM A) (R S : A -> Prop) :
  fp_ok f R -> (forall a, R a -> S a) -> fp_ok f S.
Proof.
  intros Hf HS rm fl Hfl. specialize (Hf rm fl Hfl).
  destruct (f rm fl) as [[a fl']|]; [|exact I]. split; [apply Hf|apply HS, Hf].
Qed.

Lemma fp_ok_ret {A} (a : A) (R : A -> Prop) : R a -> fp_ok (ret a) R.
Proof. intros HR rm fl Hfl. split; assumption. Qed.

Lemma fp_ok_panic {A} (R : A -> Prop) : fp_ok panic R.
Proof. intros rm fl _. exact I. Qed.

Lemma fp_ok_rm : fp_ok get_rounding_mode (fun _ => True).
Proof. intros rm fl Hfl. split; [assumption|exact I]. Qed.

Lemma fp_ok_flag flag : in_u 5 flag -> fp_ok (set_exception_flag flag) (fun _ => True).
Proof. intros Hf rm fl Hfl. split; [apply lor_in_u; lia || assumption|exact I]. Qed.

Lemma fp_ok_unwrap {A} (o : option A) : fp_ok (unwrap o) (fun a => o = Some a).
Proof. destruct o; [apply fp_ok_ret; reflexivity|apply fp_ok_panic]. Qed.

Lemma fp_ok_any {A} (f : FpM A) R : fp_ok f R -> fp_ok f (fun _ => True).
Proof. intros H. eapply fp_ok_weaken; [exact H|auto]. Qed.

Section Range.
Context {Desc : FpDesc} {Laws : FpDescLaws Desc}.
Import Fp.

Definition fp_value (x : Z) : Prop := in_u HOLDER x.

Lemma fp_ok_flag_if cond flag : in_u 5 flag -> fp_ok (flag_if cond flag) (fun _ => True).
Proof.
  intros H. destruct cond; [apply fp_ok_flag, H|apply fp_ok_ret; exact I].
Qed.

Lemma pow2_in_u n k : 0 <= k < n -> in_u n (1 << k).
Proof. intros H. rewrite Z.shiftl_1_l. split; [lia|]. apply Z.pow_lt_mono_r; lia. Qed.

Lemma set_sign_value x s : fp_value x -> fp_value (set_sign x s).
Proof.
  intros H. unfold set_sign, fp_value in *. fmt. destruct s.
  - apply lor_in_u; [lia|assumption|]. apply pow2_in_u. lia.
  - apply land_in_u_l; [lia|assumption].
Qed.

Lemma set_biased_exponent_value x e : fp_value x -> fp_value (set_biased_exponent x e).
Proof.
  intros H. unfold set_biased_exponent, fp_value in *. fmt.
  apply lor_in_u; [lia|apply land_in_u_l; [lia|assumption]|].
  apply land_in_u_l; [lia|]. apply wrap_range. lia.
Qed.

Lemma set_trailing_significand_value x t : fp_value x -> fp_value (set_trailing_significand x t).
Proof.
  intros H. unfold set_trailing_significand, fp_value in *. fmt.
  apply lor_in_u; [lia|apply land_in_u_l; [lia|assumption]|].
  apply land_in_u_r; [lia|]. rewrite Z.shiftl_1_l. apply (in_u_mono SIGNIFICAND_WIDTH); [lia|].
  pose proof (w_pos (Desc := Desc)). split; lia.
Qed.

Lemma zero_value : fp_value 0.
Proof. unfold fp_value. fmt. assert (0 < 2 ^ @HOLDER Desc) by (apply pow2_pos; lia). split; lia. Qed.

Lemma wrap_value x : fp_value (wrap HOLDER x).
Proof. apply wrap_range. fmt. lia. Qed.

Lemma quiet_nan_value : fp_value quiet_nan.
Proof. apply set_trailing_significand_value, set_biased_exponent_value, zero_value. Qed.

Lemma infinity_value s : fp_value (infinity s).
Proof. apply set_biased_exponent_value, set_sign_value, zero_value. Qed.

Lemma fp_zero_value s : fp_value (zero s).
Proof. apply set_sign_value, zero_value. Qed.

Local Hint Resolve set_sign_value set_biased_exponent_value set_trailing_significand_value zero_value
  wrap_value quiet_nan_value infinity_value fp_zero_value : core.

Lemma flag_range : in_u 5 INVALID_OPERATION /\ in_u 5 DIVIDE_BY_ZERO /\ in_u 5 INEXACT /\
  in_u 5 UNDERFLOW /\ in_u 5 (OVERFLOW .| INEXACT).
Proof. repeat split; vm_compute; congruence. Qed.

(** Follow the structure of an operation. *)
Ltac fp_range :=
  repeat first
    [ progress cbn beta iota zeta
    | lazymatch goal with
      | |- fp_ok (ret _) _ => apply fp_ok_ret; auto
      | |- fp_ok panic _ => apply fp_ok_panic
      | |- fp_ok (set_exception_flag _) _ => apply fp_ok_flag; apply flag_range
      | |- fp_ok (flag_if _ _) _ => apply fp_ok_flag_if; apply flag_range
      | |- fp_ok get_rounding_mode _ => apply fp_ok_rm
      | |- fp_ok (bind (flag_if _ _) _) _ =>
          eapply fp_ok_bind; [apply fp_ok_flag_if; apply flag_range|intros ? ?]
      | |- fp_ok (bind (set_exception_flag _) _) _ =>
          eapply fp_ok_bind; [apply fp_ok_flag; apply flag_range|intros ? ?]
      | |- fp_ok (bind get_rounding_mode _) _ => eapply fp_ok_bind; [apply fp_ok_rm|intros ? ?]
      | |- fp_ok (bind (unwrap _) _) _ => eapply fp_ok_bind; [apply fp_ok_unwrap|intros ? ?]
      | |- fp_ok (if ?b then _ else _) _ => let E := fresh "Heqb" in destruct b eqn:E
      | |- fp_ok (let '(_, _) := if ?b then _ else _ in _) _ => destruct b
      | |- fp_ok (let '(_, _) := ?p in _) _ => destruct p as [? ?]
      | |- fp_ok (match ?p with _ => _ end) _ => destruct p
      end
    | assumption
    | solve [auto] ].

Lemma round_significand_ok s x : fp_ok (round_significand s x) (fun _ => True).
Proof. unfold round_significand. fp_range. Qed.

Lemma round_overflow_ok s : fp_ok (round_overflow s) fp_value.
Proof. unfold round_overflow. fp_range. Qed.

Lemma round_ok s e x : fp_ok (round s e x) fp_value.
Proof.
  unfold round. destruct (_ <? _); [apply round_overflow_ok|]. cbn beta zeta.
  eapply fp_ok_bind; [apply round_significand_ok|]. intros [i r] _. fp_range.
  - eapply fp_ok_bind; [apply round_significand_ok|]. intros [? ?] _. fp_range.
  - apply round_overflow_ok.
  - eapply fp_ok_bind; [apply round_significand_ok|]. intros [? ?] _. fp_range.
  - apply round_overflow_ok.
Qed.

Lemma normalize_and_round_ok tw s e x : fp_ok (normalize_and_round tw s e x) fp_value.
Proof. unfold normalize_and_round. destruct (normalize tw e x). apply round_ok. Qed.

Lemma propagate_nan_ok a b : fp_ok (propagate_nan a b) fp_value.
Proof. unfold propagate_nan. fp_range. Qed.

Lemma cancellation_zero_ok : fp_ok cancellation_zero fp_value.
Proof. unfold cancellation_zero. fp_range. Qed.

Lemma get_normalized_significand_ok a : fp_ok (get_normalized_significand a) (fun _ => True).
Proof. unfold get_normalized_significand. fp_range. Qed.

Lemma get_significand_ok a : fp_ok (get_significand a) (fun _ => True).
Proof. unfold get_significand. fp_range. Qed.

Lemma min_max_ok a b : fp_value a -> fp_value b ->
  fp_ok (min_max a b) (fun r => fp_value (fst r) /\ fp_value (snd r)).
Proof. intros. unfold min_max. fp_range. Qed.

Lemma compare_signaling_ok a b : fp_ok (compare_signaling a b) (fun _ => True).
Proof. unfold compare_signaling. fp_range. Qed.

(** The same, through the helper computations. *)
Ltac fp_calls :=
  repeat first
    [ progress fp_range
    | lazymatch goal with
      | |- fp_ok (round _ _ _) _ => apply round_ok
      | |- fp_ok (normalize_and_round _ _ _ _) _ => apply normalize_and_round_ok
      | |- fp_ok (propagate_nan _ _) _ => apply propagate_nan_ok
      | |- fp_ok cancellation_zero _ => apply cancellation_zero_ok
      | |- fp_ok (bind (propagate_nan _ _) _) _ => eapply fp_ok_bind; [apply propagate_nan_ok|intros ? ?]
      | |- fp_ok (bind (round_significand _ _) _) _ =>
          eapply fp_ok_bind; [apply round_significand_ok|intros ? _]
      | |- fp_ok (bind (get_normalized_significand _) _) _ =>
          eapply fp_ok_bind; [apply get_normalized_significand_ok|intros ? _]
      | |- fp_ok (bind (get_significand _) _) _ => eapply fp_ok_bind; [apply get_significand_ok|intros ? _]
      | |- fp_ok (bind (compare_signaling _ _) _) _ =>
          eapply fp_ok_bind; [apply compare_signaling_ok|intros ? _]
      end ].

Lemma min_ok a b : fp_value a -> fp_value b -> fp_ok (min a b) fp_value.
Proof.
  intros. eapply fp_ok_bind; [apply min_max_ok; assumption|]. intros [x y] [? ?]. fp_range.
Qed.

Lemma max_ok a b : fp_value a -> fp_value b -> fp_ok (max a b) fp_value.
Proof.
  intros. eapply fp_ok_bind; [apply min_max_ok; assumption|]. intros [x y] [? ?]. fp_range.
Qed.

Lemma fp_lt_ok a b : fp_ok (fp_lt a b) (fun _ => True).
Proof. unfold fp_lt. fp_calls. Qed.

Lemma fp_le_ok a b : fp_ok (fp_le a b) (fun _ => True).
Proof. unfold fp_le. fp_calls. Qed.

Lemma classify_ok a : fp_ok (classify a) (fun _ => True).
Proof. unfold classify, unwrap. fp_range. Qed.

Lemma negate_value a : fp_value a -> fp_value (negate a).
Proof. apply set_sign_value. Qed.

Lemma add_ok a b : fp_value a -> fp_value b -> fp_ok (add a b) fp_value.
Proof.
  intros Ha Hb. unfold add, add_magnitude, subtract_magnitude.
  destruct (is_less _); fp_calls.
Qed.

Lemma sub_ok a b : fp_value a -> fp_value b -> fp_ok (sub a b) fp_value.
Proof. intros. apply add_ok; [assumption|]. apply negate_value. assumption. Qed.

Lemma multiply_ok a b : fp_value a -> fp_value b -> fp_ok (multiply a b) fp_value.
Proof. intros. unfold multiply. destruct (is_less _); fp_calls. Qed.

Lemma divide_ok a b : fp_value a -> fp_value b -> fp_ok (divide a b) fp_value.
Proof. intros. unfold divide. fp_calls. Qed.

Lemma square_root_ok a : fp_value a -> fp_ok (square_root a) fp_value.
Proof. intros. unfold square_root. fp_calls. Qed.

Lemma fused_multiply_add_ok a b c :
  fp_value a -> fp_value b -> fp_value c -> fp_ok (fused_multiply_add a b c) fp_value.
Proof.
  intros. unfold fused_multiply_add. destruct (is_less _); fp_calls.
Qed.

Lemma convert_from_int_ok tw s v : fp_ok (convert_from_int_with_sign tw s v) fp_value.
Proof. unfold convert_from_int_with_sign. fp_calls. Qed.

Lemma convert_from_uint_ok tw v : fp_ok (convert_from_uint tw v) fp_value.
Proof. apply convert_from_int_ok. Qed.

Lemma convert_from_sint_ok tw v : fp_ok (convert_from_sint tw v) fp_value.
Proof. unfold convert_from_sint. destruct (negb _); apply convert_from_int_ok. Qed.

(** ** Conversions to integers *)

Lemma wrap_nonneg n x : 0 <= n -> 0 <= wrap n x.
Proof. intros H. apply (wrap_range n x H). Qed.

Lemma right_shift_nonneg tw x k : 0 <= x -> 0 <= right_shift tw x k.
Proof.
  intros H. unfold right_shift.
  assert (0 <= x >> k) by (apply Z.shiftr_nonneg; assumption).
  destruct (tw <=? k); cbn beta iota; destruct (negb _); rewrite ?Z.lor_nonneg; lia.
Qed.

Lemma round_significand_nonneg s x :
  0 <= x -> fp_ok (round_significand s x) (fun r => 0 <= snd r).
Proof.
  intros H. fmt. unfold round_significand.
  assert (Hs : forall y, 0 <= y -> 0 <= y >> 2) by (intros; apply Z.shiftr_nonneg; assumption).
  assert (Hw : forall y, 0 <= wrap HOLDER y) by (intros; apply wrap_nonneg; lia).
  fp_range; cbn [snd]; apply Hs; try assumption.
  match goal with r : RoundingMode |- _ => destruct r end; destruct s; cbn; auto.
Qed.

Lemma get_normalized_significand_nonneg a :
  fp_ok (get_normalized_significand a) (fun r => 0 <= snd r).
Proof.
  fmt. unfold get_normalized_significand.
  assert (Hw : forall y, 0 <= wrap HOLDER y) by (intros; apply wrap_nonneg; lia).
  fp_range; apply Hw.
Qed.

Lemma convert_to_int_range tw a pmax nmax :
  0 <= tw -> in_u tw pmax -> in_u tw nmax ->
  fp_ok (convert_to_int tw a pmax nmax) (fun r => in_u tw (snd r)).
Proof.
  intros Ht Hp Hn.
  assert (H0 : in_u tw 0) by (split; [lia|apply pow2_pos; assumption]).
  assert (Hm : in_u tw (if sign a then nmax else pmax)) by (destruct (sign a); assumption).
  unfold convert_to_int. fp_range.
  eapply fp_ok_bind; [apply get_normalized_significand_nonneg|]. intros [e x] Hx.
  destruct (_ <? 0).
  - cbn beta zeta iota.
    eapply fp_ok_bind; [apply round_significand_nonneg, right_shift_nonneg, Hx|]. intros [i r] Hr.
    fp_range.
    match goal with H : _ && _ = true |- _ => apply andb_prop in H as [? _] end.
    unfold in_u; cbn [snd] in *; lia.
  - cbn beta zeta iota. fp_range. apply wrap_range. assumption.
Qed.

Lemma convert_to_uint_range tw a : 0 <= tw -> fp_ok (convert_to_uint tw a) (in_u tw).
Proof.
  intros H. pose proof (pow2_pos tw H).
  eapply fp_ok_bind; [apply convert_to_int_range; unfold in_u; lia|]. intros [s v] Hv. fp_range.
Qed.

Lemma convert_to_sint_range tw a : 0 <= tw -> fp_ok (convert_to_sint tw a) (in_u tw).
Proof.
  intros H. pose proof (pow2_pos tw H).
  eapply fp_ok_bind; [apply convert_to_int_range; [assumption| |apply wrap_range; assumption]|].
  - apply shiftr_in_u; unfold in_u; lia.
  - intros [s v] Hv. cbn beta iota. destruct s; fp_range. apply wrap_range. assumption.
Qed.
End Range.

Lemma convert_format_ok (Desc TDesc : FpDesc) {L : FpDescLaws Desc} {TL : FpDescLaws TDesc} a :
  fp_ok (Fp.convert_format Desc TDesc a) (fp_value (Desc := TDesc)).
Proof.
  unfold Fp.convert_format.
  destruct (Fp.is_nan a).
  { eapply fp_ok_bind; [apply fp_ok_flag_if, flag_range|]. intros _ _. apply fp_ok_ret, quiet_nan_value. }
  destruct (Fp.is_infinite a); [apply fp_ok_ret, infinity_value|].
  destruct (Fp.is_zero a); [apply fp_ok_ret, fp_zero_value|].
  eapply fp_ok_bind; [apply get_normalized_significand_ok|]. intros [e x] _.
  apply normalize_and_round_ok.
Qed.
