(* ===== verification/HartState.v ===== *)
(** The state of the interpreter of src/emu/interp.rs: the private context of
    the running hart, the contexts the harts share, guest memory, the code
    protection set and the translated-code caches, and the monad its functions
    run in. *)

From Stdlib Require Import ZArith Lia Bool List.
From stdpp Require Import base gmap list.
From S2P Require Import Prelude Softfp.
Local Open Scope Z_scope.
Local Open Scope rust_scope.

(** [struct CacheLine]: [tag] is the line number of the virtual address, for a
    data line shifted left by one with the low bit set when it is not writable;
    [line_paddr] is the virtual address xor the physical one. *)
Record CacheLine : Type := MkLine { tag : Z; line_paddr : Z }.

(** [CacheLine::default] *)
Definition default_line : CacheLine := MkLine (2 ^ 63 - 1) 0.

(** [CacheLine::invalidate] *)
Definition invalidate (l : CacheLine) : CacheLine := MkLine (2 ^ 63 - 1) (line_paddr l).

(** The closures queued with [run_on]: only [icache_invalidate] queues any, to
    drop the blocks translated from the physical addresses [start..end_] of
    hart [hart]. *)
Inductive Task : Type := DropBlocks (hart : nat) (start end_ : Z).

(** [struct SharedContext], without the mutex and condition variable of WFI. *)
Record SharedContext : Type := MkShared {
  alarm : Z;
  mip : Z;
  line : list CacheLine;
  i_line : list CacheLine;
  rm : Z;
  fflags : Z;
  tasks : list Task;
}.

Definition set_alarm (v : Z) (s : SharedContext) : SharedContext :=
  MkShared v (mip s) (line s) (i_line s) (rm s) (fflags s) (tasks s).
Definition set_mip (v : Z) (s : SharedContext) : SharedContext :=
  MkShared (alarm s) v (line s) (i_line s) (rm s) (fflags s) (tasks s).
Definition set_line (v : list CacheLine) (s : SharedContext) : SharedContext :=
  MkShared (alarm s) (mip s) v (i_line s) (rm s) (fflags s) (tasks s).
Definition set_i_line (v : list CacheLine) (s : SharedContext) : SharedContext :=
  MkShared (alarm s) (mip s) (line s) v (rm s) (fflags s) (tasks s).
Definition set_rm (v : Z) (s : SharedContext) : SharedContext :=
  MkShared (alarm s) (mip s) (line s) (i_line s) v (fflags s) (tasks s).
Definition set_fflags (v : Z) (s : SharedContext) : SharedContext :=
  MkShared (alarm s) (mip s) (line s) (i_line s) (rm s) v (tasks s).
Definition set_tasks (v : list Task) (s : SharedContext) : SharedContext :=
  MkShared (alarm s) (mip s) (line s) (i_line s) (rm s) (fflags s) v.

(** [struct Context], without [shared]: the shared part of every hart is in
    [Machine.shared], where other harts reach it; [ctx.shared] is the entry
    of [hartid]. *)
Record Context : Type := MkContext {
  registers : list Z;
  pc : Z;
  instret : Z;
  cause : Z;
  tval : Z;
  minstret : Z;
  cycle_offset : Z;
  fp_registers : list Z;
  frm : Z;
  lr_addr : Z;
  lr_value : Z;
  scause : Z;
  stval : Z;
  stvec : Z;
  sscratch : Z;
  sepc : Z;
  satp : Z;
  scounteren : Z;
  mideleg : Z;
  medeleg : Z;
  mcause : Z;
  mtval : Z;
  mstatus : Z;
  mie : Z;
  mtvec : Z;
  mscratch : Z;
  mepc : Z;
  mcounteren : Z;
  prv : Z;
  hartid : Z;
}.

Definition set_registers (v : list Z) (c : Context) : Context :=
  MkContext v (pc c) (instret c) (cause c) (tval c) (minstret c) (cycle_offset c)
    (fp_registers c) (frm c) (lr_addr c) (lr_value c) (scause c) (stval c) (stvec c)
    (sscratch c) (sepc c) (satp c) (scounteren c) (mideleg c) (medeleg c) (mcause c) (mtval c)
    (mstatus c) (mie c) (mtvec c) (mscratch c) (mepc c) (mcounteren c) (prv c) (hartid c).
Definition set_pc (v : Z) (c : Context) : Context :=
  MkContext (registers c) v (instret c) (cause c) (tval c) (minstret c) (cycle_offset c)
    (fp_registers c) (frm c) (lr_addr c) (lr_value c) (scause c) (stval c) (stvec c)
    (sscratch c) (sepc c) (satp c) (scounteren c) (mideleg c) (medeleg c) (mcause c) (mtval c)
    (mstatus c) (mie c) (mtvec c) (mscratch c) (mepc c) (mcounteren c) (prv c) (hartid c).
Definition set_instret (v : Z) (c : Context) : Context :=
  MkContext (registers c) (pc c) v (cause c) (tval c) (minstret c) (cycle_offset c)
    (fp_registers c) (frm c) (lr_addr c) (lr_value c) (scause c) (stval c) (stvec c)
    (sscratch c) (sepc c) (satp c) (scounteren c) (mideleg c) (medeleg c) (mcause c) (mtval c)
    (mstatus c) (mie c) (mtvec c) (mscratch c) (mepc c) (mcounteren c) (prv c) (hartid c).
Definition set_cause (v : Z) (c : Context) : Context :=
  MkContext (registers c) (pc c) (instret c) v (tval c) (minstret c) (cycle_offset c)
    (fp_registers c) (frm c) (lr_addr c) (lr_value c) (scause c) (stval c) (stvec c)
    (sscratch c) (sepc c) (satp c) (scounteren c) (mideleg c) (medeleg c) (mcause c) (mtval c)
    (mstatus c) (mie c) (mtvec c) (mscratch c) (mepc c) (mcounteren c) (prv c) (hartid c).
Definition set_tval (v : Z) (c : Context) : Context :=
  MkContext (registers c) (pc c) (instret c) (cause c) v (minstret c) (cycle_offset c)
    (fp_registers c) (frm c) (lr_addr c) (lr_value c) (scause c) (stval c) (stvec c)
    (sscratch c) (sepc c) (satp c) (scounteren c) (mideleg c) (medeleg c) (mcause c) (mtval c)
    (mstatus c) (mie c) (mtvec c) (mscratch c) (mepc c) (mcounteren c) (prv c) (hartid c).
Definition set_minstret (v : Z) (c : Context) : Context :=
  MkContext (registers c) (pc c) (instret c) (cause c) (tval c) v (cycle_offset c)
    (fp_registers c) (frm c) (lr_addr c) (lr_value c) (scause c) (stval c) (stvec c)
    (sscratch c) (sepc c) (satp c) (scounteren c) (mideleg c) (medeleg c) (mcause c) (mtval c)
    (mstatus c) (mie c) (mtvec c) (mscratch c) (mepc c) (mcounteren c) (prv c) (hartid c).
Definition set_cycle_offset (v : Z) (c : Context) : Context :=
  MkContext (registers c) (pc c) (instret c) (cause c) (tval c) (minstret c) v
    (fp_registers c) (frm c) (lr_addr c) (lr_value c) (scause c) (stval c) (stvec c)
    (sscratch c) (sepc c) (satp c) (scounteren c) (mideleg c) (medeleg c) (mcause c) (mtval c)
    (mstatus c) (mie c) (mtvec c) (mscratch c) (mepc c) (mcounteren c) (prv c) (hartid c).
Definition set_fp_registers (v : list Z) (c : Context) : Context :=
  MkContext (registers c) (pc c) (instret c) (cause c) (tval c) (minstret c) (cycle_offset c)
    v (frm c) (lr_addr c) (lr_value c) (scause c) (stval c) (stvec c) (sscratch c) (sepc c)
    (satp c) (scounteren c) (mideleg c) (medeleg c) (mcause c) (mtval c) (mstatus c) (mie c)
    (mtvec c) (mscratch c) (mepc c) (mcounteren c) (prv c) (hartid c).
Definition set_frm (v : Z) (c : Context) : Context :=
  MkContext (registers c) (pc c) (instret c) (cause c) (tval c) (minstret c) (cycle_offset c)
    (fp_registers c) v (lr_addr c) (lr_value c) (scause c) (stval c) (stvec c) (sscratch c)
    (sepc c) (satp c) (scounteren c) (mideleg c) (medeleg c) (mcause c) (mtval c) (mstatus c)
    (mie c) (mtvec c) (mscratch c) (mepc c) (mcounteren c) (prv c) (hartid c).
Definition set_lr_addr (v : Z) (c : Context) : Context :=
  MkContext (registers c) (pc c) (instret c) (cause c) (tval c) (minstret c) (cycle_offset c)
    (fp_registers c) (frm c) v (lr_value c) (scause c) (stval c) (stvec c) (sscratch c)
    (sepc c) (satp c) (scounteren c) (mideleg c) (medeleg c) (mcause c) (mtval c) (mstatus c)
    (mie c) (mtvec c) (mscratch c) (mepc c) (mcounteren c) (prv c) (hartid c).
Definition set_lr_value (v : Z) (c : Context) : Context :=
  MkContext (registers c) (pc c) (instret c) (cause c) (tval c) (minstret c) (cycle_offset c)
    (fp_registers c) (frm c) (lr_addr c) v (scause c) (stval c) (stvec c) (sscratch c)
    (sepc c) (satp c) (scounteren c) (mideleg c) (medeleg c) (mcause c) (mtval c) (mstatus c)
    (mie c) (mtvec c) (mscratch c) (mepc c) (mcounteren c) (prv c) (hartid c).
Definition set_scause (v : Z) (c : Context) : Context :=
  MkContext (registers c) (pc c) (instret c) (cause c) (tval c) (minstret c) (cycle_offset c)
    (fp_registers c) (frm c) (lr_addr c) (lr_value c) v (stval c) (stvec c) (sscratch c)
    (sepc c) (satp c) (scounteren c) (mideleg c) (medeleg c) (mcause c) (mtval c) (mstatus c)
    (mie c) (mtvec c) (mscratch c) (mepc c) (mcounteren c) (prv c) (hartid c).
Definition set_stval (v : Z) (c : Context) : Context :=
  MkContext (registers c) (pc c) (instret c) (cause c) (tval c) (minstret c) (cycle_offset c)
    (fp_registers c) (frm c) (lr_addr c) (lr_value c) (scause c) v (stvec c) (sscratch c)
    (sepc c) (satp c) (scounteren c) (mideleg c) (medeleg c) (mcause c) (mtval c) (mstatus c)
    (mie c) (mtvec c) (mscratch c) (mepc c) (mcounteren c) (prv c) (hartid c).
Definition set_stvec (v : Z) (c : Context) : Context :=
  MkContext (registers c) (pc c) (instret c) (cause c) (tval c) (minstret c) (cycle_offset c)
    (fp_registers c) (frm c) (lr_addr c) (lr_value c) (scause c) (stval c) v (sscratch c)
    (sepc c) (satp c) (scounteren c) (mideleg c) (medeleg c) (mcause c) (mtval c) (mstatus c)
    (mie c) (mtvec c) (mscratch c) (mepc c) (mcounteren c) (prv c) (hartid c).
Definition set_sscratch (v : Z) (c : Context) : Context :=
  MkContext (registers c) (pc c) (instret c) (cause c) (tval c) (minstret c) (cycle_offset c)
    (fp_registers c) (frm c) (lr_addr c) (lr_value c) (scause c) (stval c) (stvec c) v
    (sepc c) (satp c) (scounteren c) (mideleg c) (medeleg c) (mcause c) (mtval c) (mstatus c)
    (mie c) (mtvec c) (mscratch c) (mepc c) (mcounteren c) (prv c) (hartid c).
Definition set_sepc (v : Z) (c : Context) : Context :=
  MkContext (registers c) (pc c) (instret c) (cause c) (tval c) (minstret c) (cycle_offset c)
    (fp_registers c) (frm c) (lr_addr c) (lr_value c) (scause c) (stval c) (stvec c)
    (sscratch c) v (satp c) (scounteren c) (mideleg c) (medeleg c) (mcause c) (mtval c)
    (mstatus c) (mie c) (mtvec c) (mscratch c) (mepc c) (mcounteren c) (prv c) (hartid c).
Definition set_satp (v : Z) (c : Context) : Context :=
  MkContext (registers c) (pc c) (instret c) (cause c) (tval c) (minstret c) (cycle_offset c)
    (fp_registers c) (frm c) (lr_addr c) (lr_value c) (scause c) (stval c) (stvec c)
    (sscratch c) (sepc c) v (scounteren c) (mideleg c) (medeleg c) (mcause c) (mtval c)
    (mstatus c) (mie c) (mtvec c) (mscratch c) (mepc c) (mcounteren c) (prv c) (hartid c).
Definition set_scounteren (v : Z) (c : Context) : Context :=
  MkContext (registers c) (pc c) (instret c) (cause c) (tval c) (minstret c) (cycle_offset c)
    (fp_registers c) (frm c) (lr_addr c) (lr_value c) (scause c) (stval c) (stvec c)
    (sscratch c) (sepc c) (satp c) v (mideleg c) (medeleg c) (mcause c) (mtval c) (mstatus c)
    (mie c) (mtvec c) (mscratch c) (mepc c) (mcounteren c) (prv c) (hartid c).
Definition set_mideleg (v : Z) (c : Context) : Context :=
  MkContext (registers c) (pc c) (instret c) (cause c) (tval c) (minstret c) (cycle_offset c)
    (fp_registers c) (frm c) (lr_addr c) (lr_value c) (scause c) (stval c) (stvec c)
    (sscratch c) (sepc c) (satp c) (scounteren c) v (medeleg c) (mcause c) (mtval c)
    (mstatus c) (mie c) (mtvec c) (mscratch c) (mepc c) (mcounteren c) (prv c) (hartid c).
Definition set_medeleg (v : Z) (c : Context) : Context :=
  MkContext (registers c) (pc c) (instret c) (cause c) (tval c) (minstret c) (cycle_offset c)
    (fp_registers c) (frm c) (lr_addr c) (lr_value c) (scause c) (stval c) (stvec c)
    (sscratch c) (sepc c) (satp c) (scounteren c) (mideleg c) v (mcause c) (mtval c)
    (mstatus c) (mie c) (mtvec c) (mscratch c) (mepc c) (mcounteren c) (prv c) (hartid c).
Definition set_mcause (v : Z) (c : Context) : Context :=
  MkContext (registers c) (pc c) (instret c) (cause c) (tval c) (minstret c) (cycle_offset c)
    (fp_registers c) (frm c) (lr_addr c) (lr_value c) (scause c) (stval c) (stvec c)
    (sscratch c) (sepc c) (satp c) (scounteren c) (mideleg c) (medeleg c) v (mtval c)
    (mstatus c) (mie c) (mtvec c) (mscratch c) (mepc c) (mcounteren c) (prv c) (hartid c).
Definition set_mtval (v : Z) (c : Context) : Context :=
  MkContext (registers c) (pc c) (instret c) (cause c) (tval c) (minstret c) (cycle_offset c)
    (fp_registers c) (frm c) (lr_addr c) (lr_value c) (scause c) (stval c) (stvec c)
    (sscratch c) (sepc c) (satp c) (scounteren c) (mideleg c) (medeleg c) (mcause c) v
    (mstatus c) (mie c) (mtvec c) (mscratch c) (mepc c) (mcounteren c) (prv c) (hartid c).
Definition set_mstatus (v : Z) (c : Context) : Context :=
  MkContext (registers c) (pc c) (instret c) (cause c) (tval c) (minstret c) (cycle_offset c)
    (fp_registers c) (frm c) (lr_addr c) (lr_value c) (scause c) (stval c) (stvec c)
    (sscratch c) (sepc c) (satp c) (scounteren c) (mideleg c) (medeleg c) (mcause c) (mtval c)
    v (mie c) (mtvec c) (mscratch c) (mepc c) (mcounteren c) (prv c) (hartid c).
Definition set_mie (v : Z) (c : Context) : Context :=
  MkContext (registers c) (pc c) (instret c) (cause c) (tval c) (minstret c) (cycle_offset c)
    (fp_registers c) (frm c) (lr_addr c) (lr_value c) (scause c) (stval c) (stvec c)
    (sscratch c) (sepc c) (satp c) (scounteren c) (mideleg c) (medeleg c) (mcause c) (mtval c)
    (mstatus c) v (mtvec c) (mscratch c) (mepc c) (mcounteren c) (prv c) (hartid c).
Definition set_mtvec (v : Z) (c : Context) : Context :=
  MkContext (registers c) (pc c) (instret c) (cause c) (tval c) (minstret c) (cycle_offset c)
    (fp_registers c) (frm c) (lr_addr c) (lr_value c) (scause c) (stval c) (stvec c)
    (sscratch c) (sepc c) (satp c) (scounteren c) (mideleg c) (medeleg c) (mcause c) (mtval c)
    (mstatus c) (mie c) v (mscratch c) (mepc c) (mcounteren c) (prv c) (hartid c).
Definition set_mscratch (v : Z) (c : Context) : Context :=
  MkContext (registers c) (pc c) (instret c) (cause c) (tval c) (minstret c) (cycle_offset c)
    (fp_registers c) (frm c) (lr_addr c) (lr_value c) (scause c) (stval c) (stvec c)
    (sscratch c) (sepc c) (satp c) (scounteren c) (mideleg c) (medeleg c) (mcause c) (mtval c)
    (mstatus c) (mie c) (mtvec c) v (mepc c) (mcounteren c) (prv c) (hartid c).
Definition set_mepc (v : Z) (c : Context) : Context :=
  MkContext (registers c) (pc c) (instret c) (cause c) (tval c) (minstret c) (cycle_offset c)
    (fp_registers c) (frm c) (lr_addr c) (lr_value c) (scause c) (stval c) (stvec c)
    (sscratch c) (sepc c) (satp c) (scounteren c) (mideleg c) (medeleg c) (mcause c) (mtval c)
    (mstatus c) (mie c) (mtvec c) (mscratch c) v (mcounteren c) (prv c) (hartid c).
Definition set_mcounteren (v : Z) (c : Context) : Context :=
  MkContext (registers c) (pc c) (instret c) (cause c) (tval c) (minstret c) (cycle_offset c)
    (fp_registers c) (frm c) (lr_addr c) (lr_value c) (scause c) (stval c) (stvec c)
    (sscratch c) (sepc c) (satp c) (scounteren c) (mideleg c) (medeleg c) (mcause c) (mtval c)
    (mstatus c) (mie c) (mtvec c) (mscratch c) (mepc c) v (prv c) (hartid c).
Definition set_prv (v : Z) (c : Context) : Context :=
  MkContext (registers c) (pc c) (instret c) (cause c) (tval c) (minstret c) (cycle_offset c)
    (fp_registers c) (frm c) (lr_addr c) (lr_value c) (scause c) (stval c) (stvec c)
    (sscratch c) (sepc c) (satp c) (scounteren c) (mideleg c) (medeleg c) (mcause c) (mtval c)
    (mstatus c) (mie c) (mtvec c) (mscratch c) (mepc c) (mcounteren c) v (hartid c).
Definition set_hartid (v : Z) (c : Context) : Context :=
  MkContext (registers c) (pc c) (instret c) (cause c) (tval c) (minstret c) (cycle_offset c)
    (fp_registers c) (frm c) (lr_addr c) (lr_value c) (scause c) (stval c) (stvec c)
    (sscratch c) (sepc c) (satp c) (scounteren c) (mideleg c) (medeleg c) (mcause c) (mtval c)
    (mstatus c) (mie c) (mtvec c) (mscratch c) (mepc c) (mcounteren c) (prv c) v.

(** [struct ICache]: the translated blocks by physical address and privilege
    level, and the bump allocator of the code they are in. *)
Record ICache : Type := MkICache {
  u_map : gmap Z (Z * Z);
  s_map : gmap Z (Z * Z);
  m_map : gmap Z (Z * Z);
  heap_start : Z;
  heap_offset : Z;
}.

(** The two memory models of src/sim/memory/mod.rs. *)
Inductive MemoryModel : Type := AtomicModel | SimpleModel.

(** [MemoryModel::cache_line_size_log2] *)
Definition cache_line_size_log2 (model : MemoryModel) : Z :=
  match model with AtomicModel => 12 | SimpleModel => 6 end.

(** [enum ExitReason] *)
Inductive ExitReason : Type :=
| SwitchModel (id : Z) | Exit (code : Z) | ClearStats | PrintStats.

(** The system the harts run in.  [W] is the state of everything outside them
    (devices, event loop, host). *)
Record Machine (W : Type) : Type := MkMachine {
  ctx : Context;
  shared : list SharedContext;
  mem : Z -> Z;
  code_prot : gset Z;
  icaches : list ICache;
  model : MemoryModel;
  world : W;
}.
Arguments MkMachine {W} _ _ _ _ _ _ _.
Arguments ctx {W} _.
Arguments shared {W} _.
Arguments mem {W} _.
Arguments code_prot {W} _.
Arguments icaches {W} _.
Arguments model {W} _.
Arguments world {W} _.

Section Setters.
Context {W : Type}.
Definition set_ctx (v : Context) (m : Machine W) : Machine W :=
  MkMachine v (shared m) (mem m) (code_prot m) (icaches m) (model m) (world m).
Definition set_shared (v : list SharedContext) (m : Machine W) : Machine W :=
  MkMachine (ctx m) v (mem m) (code_prot m) (icaches m) (model m) (world m).
Definition set_mem (v : Z -> Z) (m : Machine W) : Machine W :=
  MkMachine (ctx m) (shared m) v (code_prot m) (icaches m) (model m) (world m).
Definition set_code_prot (v : gset Z) (m : Machine W) : Machine W :=
  MkMachine (ctx m) (shared m) (mem m) v (icaches m) (model m) (world m).
Definition set_icaches (v : list ICache) (m : Machine W) : Machine W :=
  MkMachine (ctx m) (shared m) (mem m) (code_prot m) v (model m) (world m).
Definition set_model (v : MemoryModel) (m : Machine W) : Machine W :=
  MkMachine (ctx m) (shared m) (mem m) (code_prot m) (icaches m) v (world m).
Definition set_world (v : W) (m : Machine W) : Machine W :=
  MkMachine (ctx m) (shared m) (mem m) (code_prot m) (icaches m) (model m) v.
End Setters.

(** ** Outcomes

    A function that returns [Result<T, ()>] ends in [Ok], in [Err] (the trap is
    in [cause] and [tval]), in a panic, or in [std::process::exit]. *)
Inductive Res (W A : Type) : Type :=
| Ok (a : A) (m : Machine W)
| Err (m : Machine W)
| Panic
| ProcessExit (code : Z).
Arguments Ok {W A} _ _.
Arguments Err {W A} _.
Arguments Panic {W A}.
Arguments ProcessExit {W A} _.

Definition M (W A : Type) : Type := Machine W -> Res W A.

Section Monad.
Context {W : Type}.

Definition ret {A} (a : A) : M W A := fun m => Ok a m.
Definition panic {A} : M W A := fun _ => Panic.
Definition bind {A B} (f : M W A) (k : A -> M W B) : M W B := fun m =>
  match f m with
  | Ok a m => k a m
  | Err m => Err m
  | Panic => Panic
  | ProcessExit code => ProcessExit code
  end.

(** [return Err(())] *)
Definition fail {A} : M W A := fun m => Err m.

Definition get {A} (f : Machine W -> A) : M W A := fun m => Ok (f m) m.
Definition modify (f : Machine W -> Machine W) : M W unit := fun m => Ok tt (f m).

(** Reading and updating the private context. *)
Definition getc {A} (f : Context -> A) : M W A := fun m => Ok (f (ctx m)) m.
Definition modc (f : Context -> Context) : M W unit := fun m => Ok tt (set_ctx (f (ctx m)) m).

(** [crate::shared_context(i)], out of bounds a panic. *)
Definition get_shared (i : nat) : M W SharedContext := fun m =>
  match shared m !! i with Some s => Ok s m | None => Panic end.
Definition mod_shared (i : nat) (f : SharedContext -> SharedContext) : M W unit := fun m =>
  match shared m !! i with
  | Some s => Ok tt (set_shared (<[i := f s]> (shared m)) m)
  | None => Panic
  end.

(** [ctx.shared] *)
Definition own (m : Machine W) : nat := Z.to_nat (hartid (ctx m)).
Definition gets {A} (f : SharedContext -> A) : M W A := fun m =>
  match shared m !! own m with Some s => Ok (f s) m | None => Panic end.
Definition mods (f : SharedContext -> SharedContext) : M W unit := fun m => mod_shared (own m) f m.

(** [for i in 0..n { body(i)? }] *)
Fixpoint for_each {A} (l : list A) (body : A -> M W unit) : M W unit :=
  match l with
  | nil => ret tt
  | x :: l => bind (body x) (fun _ => for_each l body)
  end.

(** [assert!(cond)] *)
Definition assert_ (cond : bool) : M W unit := if cond then ret tt else panic.

(** [if cond { body }] *)
Definition when (cond : bool) (body : M W unit) : M W unit := if cond then body else ret tt.

End Monad.

Declare Scope interp_scope.
Delimit Scope interp_scope with interp.
Notation "'let*' x ':=' m 'in' k" := (bind m (fun x => k))
  (at level 10, x pattern, m at level 100, k at level 200) : interp_scope.
Notation "m ;; k" := (bind m (fun _ => k))
  (at level 100, k at level 200, right associativity) : interp_scope.
