(* ===== verification/Hart.v ===== *)
(** The hart of src/emu/interp.rs: the operations of [SharedContext] and
    [Context], the L0 caches, address translation, and the default methods of
    [MemoryModel] (src/sim/memory/mod.rs). *)

From Stdlib Require Import ZArith Lia Bool List.
From stdpp Require Import base gmap list.
From S2P Require Import Prelude RiscvCsr Mmu HartState.
Local Open Scope Z_scope.
Local Open Scope rust_scope.

(** ** [impl SharedContext] *)

Definition fire_alarm (mask : Z) (s : SharedContext) : SharedContext :=
  set_alarm (alarm s .| mask) s.

Definition alert (s : SharedContext) : SharedContext := fire_alarm 1 s.

Definition shutdown_hart (s : SharedContext) : SharedContext := fire_alarm 2 s.

(** [SharedContext::assert] and [SharedContext::deassert] *)
Definition assert_int (mask : Z) (s : SharedContext) : SharedContext :=
  let old := mip s in
  let s := set_mip (old .| mask) s in
  if (old .& mask) <>? mask then alert s else s.

Definition deassert_int (mask : Z) (s : SharedContext) : SharedContext :=
  set_mip (mip s .& Z.lnot mask) s.

Definition run_on (task : Task) (s : SharedContext) : SharedContext :=
  alert (set_tasks (tasks s ++ [task]) s).

Definition clear_local_cache (s : SharedContext) : SharedContext :=
  set_line (map invalidate (line s)) s.

Definition clear_local_icache (s : SharedContext) : SharedContext :=
  set_i_line (map invalidate (i_line s)) s.

(** [(addr >> cache_line_size_log2) as usize & 1023] *)
Definition line_index (model : MemoryModel) (addr : Z) : nat :=
  Z.to_nat ((addr >> cache_line_size_log2 model) .& 1023).

Definition invalidate_at (i : nat) (l : list CacheLine) : list CacheLine := alter invalidate i l.

Definition invalidate_cache_virtual (model : MemoryModel) (addr : Z) (s : SharedContext) : SharedContext :=
  set_line (invalidate_at (line_index model addr) (line s)) s.

Definition invalidate_icache_virtual (model : MemoryModel) (addr : Z) (s : SharedContext) : SharedContext :=
  set_i_line (invalidate_at (line_index model addr) (i_line s)) s.

(** [for i in (start_idx..1024).step_by(interval) { l[i].invalidate() }] *)
Definition invalidate_physical (model : MemoryModel) (addr : Z) (l : list CacheLine) : list CacheLine :=
  let interval := 1 << (12 - cache_line_size_log2 model) in
  let start_idx := (addr >> cache_line_size_log2 model) .& (interval - 1) in
  imap (fun i line =>
          if (start_idx <=? Z.of_nat i) && ((Z.of_nat i - start_idx) mod interval =? 0)
          then invalidate line else line) l.

Definition invalidate_cache_physical (model : MemoryModel) (addr : Z) (s : SharedContext) : SharedContext :=
  set_line (invalidate_physical model addr (line s)) s.

Definition invalidate_icache_physical (model : MemoryModel) (addr : Z) (s : SharedContext) : SharedContext :=
  set_i_line (invalidate_physical model addr (i_line s)) s.

(** [protect_code]: the lines of the page become non-writable. *)
Definition protect_line (model : MemoryModel) (page : Z) (l : CacheLine) : CacheLine :=
  let paddr := u64 ((tag l >> 1) << cache_line_size_log2 model) .^ line_paddr l in
  if (paddr .& Z.lnot 4095) =? page then MkLine (tag l .| 1) (line_paddr l) else l.

Definition protect_code (model : MemoryModel) (page : Z) (s : SharedContext) : SharedContext :=
  set_line (map (protect_line model page) (line s)) s.

(** ** The platform

    What the interpreter uses of the rest of the system. *)
Class Platform (W : Type) : Type := {
  flags_prv : Z;                                    (* crate::get_flags().prv *)
  feature_float : bool;                             (* cfg!(feature = "float") *)
  feature_simcsr : bool;                            (* cfg!(feature = "simcsr") *)
  io_boundary : Z;                                  (* IO_BOUNDARY *)
  lockstep_cycles : W -> Z;                         (* event_loop().get_lockstep_cycles() *)
  time : W -> Z;                                    (* event_loop().time() *)
  event_loop_shutdown : W -> W;                     (* event_loop().shutdown() *)
  set_exit_reason : ExitReason -> W -> W;           (* *EXIT_REASON.lock() = Some(reason) *)
  clint_write : Z -> Z -> Z -> Machine W -> Machine W;  (* CLINT.write(addr, value, size) *)
  console_try_write : Z -> W -> option W;           (* CONSOLE.try_write, one byte *)
  console_try_read : W -> option Z * W;             (* CONSOLE.try_read, one byte *)
  syscall : Z -> list Z -> M W Z;                   (* crate::emu::syscall *)
  io_read : Z -> Z -> Machine W -> Z * Machine W;   (* crate::emu::io_read(addr, size) *)
  io_write : Z -> Z -> Z -> Machine W -> Machine W; (* crate::emu::io_write(addr, value, size) *)
  wfi_sleep : Machine W -> Machine W;               (* what the rest of the system does
                                                       while the hart waits for an alarm *)
  fiber_sleep : Z -> Machine W -> Machine W;        (* fiber::sleep, the same *)
}.

Section Hart.
Context {W : Type} {P : Platform W}.
Local Open Scope interp_scope.

(** [crate::core_count()] *)
Definition core_count (m : Machine W) : nat := length (shared m).

(** [crate::shutdown], src/main.rs *)
Definition shutdown (reason : ExitReason) : M W unit :=
  modify (fun m => set_world (set_exit_reason reason (event_loop_shutdown (world m))) m) ;;
  let* n := get core_count in
  for_each (seq 0 n) (fun i => mod_shared i shutdown_hart).

(** [SharedContext::wait_alarm] *)
Definition wait_alarm : M W unit :=
  let* a := gets alarm in
  if a <>? 0 then ret tt else modify wfi_sleep.

(** ** [impl Context] *)

(** [trap!(cause, tval)] *)
Definition trap_with {A} (cause tval : Z) : M W A :=
  modc (set_cause cause) ;; modc (set_tval tval) ;; fail.

Definition test_and_set_fs : M W unit :=
  if negb feature_float then trap_with 2 0
  else
    let* status := getc mstatus in
    if (status .& 0x6000) =? 0 then trap_with 2 0
    else modc (set_mstatus (status .| 0x6000)).

Definition test_counter (id : Z) : M W unit :=
  let* c := getc (fun c => c) in
  if ((prv c <? 3) && ((mcounteren c .& (1 << id)) =? 0))
     || ((prv c <? 1) && ((scounteren c .& (1 << id)) =? 0))
  then trap_with 2 0
  else ret tt.

(** [Context::interrupt_pending], of a context and its pending bits. *)
Definition interrupt_pending (c : Context) (mip : Z) : Z :=
  let int_ready := mip .& mie c in
  (if (prv c <>? 3) || ((mstatus c .& 0x8) <>? 0) then int_ready .& Z.lnot (mideleg c) else 0)
  .| (if (prv c =? 0) || ((prv c =? 1) && ((mstatus c .& 0x2) <>? 0))
      then int_ready .& mideleg c else 0).

Definition get_interrupt_pending : M W Z :=
  let* c := getc (fun c => c) in
  let* p := gets mip in
  ret (interrupt_pending c p).

Definition get_mcycle : M W Z :=
  let* c := getc cycle_offset in
  let* w := get world in
  ret (u64 (lockstep_cycles w + u64 c)).

Definition recheck_interrupt : M W unit :=
  let* c := getc (fun c => c) in
  let* p := gets mip in
  let int_ready := p .& mie c in
  if int_ready <>? 0 then
    if interrupt_pending c p <>? 0 then mods (fire_alarm 1) else mods (fire_alarm 0)
  else ret tt.

(** ** Guest memory *)

(** Little-endian accesses of [n] bytes. *)
Fixpoint load_bytes (mem : Z -> Z) (addr : Z) (n : nat) : Z :=
  match n with
  | O => 0
  | S n => mem addr + 256 * load_bytes mem (addr + 1) n
  end.

Definition store_byte (addr value : Z) (mem : Z -> Z) : Z -> Z :=
  fun a => if a =? addr then value else mem a.

Fixpoint store_bytes (addr value : Z) (n : nat) (mem : Z -> Z) : Z -> Z :=
  match n with
  | O => mem
  | S n => store_bytes (addr + 1) (value / 256) n (store_byte addr (value mod 256) mem)
  end.

(** [crate::emu::read_memory::<T>], for a type of [n] bytes. *)
Definition read_memory (n : nat) (addr : Z) : M W Z :=
  let* m := get mem in
  assert_ (io_boundary <=? addr) ;;
  ret (load_bytes m addr n).

(** Dereferencing a translated address.  Below [IO_BOUNDARY] the host access
    faults and [handle_segv] of src/emu/signal.rs replays it as an I/O access;
    [value] is truncated to the [n] bytes stored. *)
Definition load (n : nat) (addr : Z) : M W Z :=
  if addr <? io_boundary
  then fun m => let (v, m) := io_read addr (Z.of_nat n) m in Ok v m
  else get (fun m => load_bytes (mem m) addr n).

Definition store (n : nat) (addr value : Z) : M W unit :=
  let value := wrap (8 * Z.of_nat n) value in
  if addr <? io_boundary
  then modify (io_write addr value (Z.of_nat n))
  else modify (fun m => set_mem (store_bytes addr value n (mem m)) m).

(** An atomic read-modify-write; [handle_segv] replays plain moves only. *)
Definition fetch_update (n : nat) (addr : Z) (f : Z -> Z) : M W Z :=
  assert_ (io_boundary <=? addr) ;;
  let* current := load n addr in
  store n addr (f current) ;;
  ret current.

(** [compare_exchange(current, new).is_ok()] *)
Definition compare_exchange (n : nat) (addr current new : Z) : M W bool :=
  assert_ (io_boundary <=? addr) ;;
  let* v := load n addr in
  if v =? current then store n addr new ;; ret true else ret false.

(** ** Translation *)

(** The addresses of the page table entries [walk_page] reads, which
    [read_memory] checks against [IO_BOUNDARY]. *)
Fixpoint walk_accesses (read_mem : Z -> Z) (vpn ppn : Z) (global : bool) (levels : list Z) : list Z :=
  match levels with
  | nil => nil
  | i :: levels =>
      u64 (u64 (ppn << 12) + ((vpn >> (18 - i * 9)) .& 511) * 8) ::
      match walk_level read_mem vpn ppn global i with
      | Done _ => nil
      | Continue ppn global => walk_accesses read_mem vpn ppn global levels
      end
  end.

Definition walk_in_bounds (satp vpn : Z) (read_mem : Z -> Z) : bool :=
  negb (vpn_canonical vpn)
  || forallb (fun a => io_boundary <=? a)
       (walk_accesses read_mem vpn (satp .& ((1 << 44) - 1)) false [0; 1; 2]).

(** The effective privilege level of an access, with MPRV. *)
Definition effective_prv (c : Context) (access : AccessType) : Z :=
  if (prv c =? 3) && ((mstatus c .& 0x20000) <>? 0) && negb (access_eqb access Execute)
  then (mstatus c >> 11) .& 3 else prv c.

Definition fault_cause (access : AccessType) : Z :=
  match access with Read => 13 | Write => 15 | Execute => 12 end.

Definition translate_vaddr (addr : Z) (access : AccessType) : M W Z :=
  let* c := getc (fun c => c) in
  let* mem := get mem in
  let prv := effective_prv c access in
  if ((satp c >> 60) =? 0) || (prv =? 3) then ret addr
  else
    let read_mem a := load_bytes mem a 8 in
    assert_ (walk_in_bounds (satp c) (addr >> 12) read_mem) ;;
    let pte := walk_page (satp c) (addr >> 12) read_mem in
    if check_permission pte access (u8 prv) (mstatus c)
    then ret (u64 ((pte >> 10) << 12) .| (addr .& 4095))
    else trap_with (fault_cause access) addr.

(** ** L0 caches *)

Definition insert_instruction_cache_line (vaddr paddr : Z) : M W unit :=
  let* model := get model in
  let idx := vaddr >> cache_line_size_log2 model in
  mods (fun s => set_i_line (<[Z.to_nat (idx .& 1023) := MkLine idx (paddr .^ vaddr)]> (i_line s)) s).

Definition insert_data_cache_line (vaddr paddr : Z) (writable : bool) : M W unit :=
  let* model := get model in
  let idx := vaddr >> cache_line_size_log2 model in
  let tag := u64 (idx << 1) .| (if writable then 0 else 1) in
  mods (fun s => set_line (<[Z.to_nat (idx .& 1023) := MkLine tag (paddr .^ vaddr)]> (line s)) s).

(** [MemoryModel::instruction_access] and [MemoryModel::data_access], which
    neither model overrides. *)
Definition instruction_access (addr : Z) : M W Z :=
  let* paddr := translate_vaddr addr Execute in
  insert_instruction_cache_line addr paddr ;;
  ret paddr.

Definition data_access (addr : Z) (write : bool) : M W Z :=
  let* paddr := translate_vaddr addr (if write then Write else Read) in
  insert_data_cache_line addr paddr write ;;
  ret paddr.

(** The pages [(start..end).step_by(4096)]. *)
Definition pages (start end_ : Z) : list Z :=
  map (fun i => start + 4096 * Z.of_nat i) (seq 0 (Z.to_nat ((end_ - start + 4095) / 4096))).

(** [icache_invalidate(start, end)] *)
Definition icache_invalidate (start end_ : Z) : M W unit :=
  let start := start .& Z.lnot 4095 in
  let end_ := u64 (end_ + 4095) .& Z.lnot 4095 in
  let* prot := get code_prot in
  let need_inv := existsb (fun page => bool_decide (page >> 12 ∈ prot)) (pages start end_) in
  modify (set_code_prot (foldr (fun page prot => prot ∖ {[ page >> 12 ]}) prot (pages start end_))) ;;
  if need_inv then
    let* n := get core_count in
    for_each (seq 0 n) (fun i => mod_shared i (run_on (DropBlocks i start end_)))
  else ret tt.

(** [insn_translate], with [insn_translate_cache_miss] inlined. *)
Definition insn_translate (addr : Z) : M W Z :=
  let* model := get model in
  let idx := addr >> cache_line_size_log2 model in
  let* lines := gets i_line in
  match lines !! Z.to_nat (idx .& 1023) with
  | None => panic
  | Some line =>
      if tag line <>? idx then instruction_access addr
      else ret (line_paddr line .^ addr)
  end.

Definition translate_cache_miss (addr : Z) (write : bool) : M W Z :=
  let* out := data_access addr write in
  when write (icache_invalidate out (u64 (out + 1))) ;;
  ret out.

Definition translate_read (addr : Z) : M W Z :=
  let* model := get model in
  let idx := addr >> cache_line_size_log2 model in
  let* lines := gets line in
  match lines !! Z.to_nat (idx .& 1023) with
  | None => panic
  | Some line =>
      if (tag line >> 1) <>? idx then translate_cache_miss addr false
      else ret (line_paddr line .^ addr)
  end.

Definition translate_write (addr : Z) : M W Z :=
  let* model := get model in
  let idx := addr >> cache_line_size_log2 model in
  let* lines := gets line in
  match lines !! Z.to_nat (idx .& 1023) with
  | None => panic
  | Some line =>
      if tag line <>? u64 (idx << 1) then translate_cache_miss addr true
      else ret (line_paddr line .^ addr)
  end.

(** [read_vaddr::<T>] with the load, and [ptr_vaddr_x::<T>]. *)
Definition bump_minstret : M W unit := modc (fun c => set_minstret (u64 (minstret c + 1)) c).

Definition read_vaddr (n : nat) (addr : Z) : M W Z :=
  bump_minstret ;;
  let* paddr := translate_read addr in
  load n paddr.

Definition ptr_vaddr_x (addr : Z) : M W Z :=
  bump_minstret ;;
  translate_write addr.

(** ** Copies through the hart's address space *)

(** The loops of [copy_from_virt_addr] and [copy_to_virt_addr]: translation is
    repeated when a new cache line is entered. *)
Fixpoint copy_from_loop (n : nat) (virt_addr phys_addr virt_line : Z) : M W (list Z) :=
  match n with
  | O => ret []
  | S n =>
      let* model := get model in
      let new_line := virt_addr >> cache_line_size_log2 model in
      let* (phys_addr, virt_line) :=
        (if new_line <>? virt_line
         then let* p := translate_read virt_addr in ret (p, new_line)
         else ret (phys_addr, virt_line)) in
      let* byte := load 1 phys_addr in
      let* rest := copy_from_loop n (u64 (virt_addr + 1)) (u64 (phys_addr + 1)) virt_line in
      ret (byte :: rest)
  end.

Definition copy_from_virt_addr (addr : Z) (len : nat) : M W (list Z) :=
  copy_from_loop len addr 0 (u64 (Z.lnot addr)).

Fixpoint copy_to_loop (bytes : list Z) (virt_addr phys_addr virt_line : Z) : M W unit :=
  match bytes with
  | [] => ret tt
  | byte :: bytes =>
      let* model := get model in
      let new_line := virt_addr >> cache_line_size_log2 model in
      let* (phys_addr, virt_line) :=
        (if new_line <>? virt_line
         then let* p := translate_write virt_addr in ret (p, new_line)
         else ret (phys_addr, virt_line)) in
      store 1 phys_addr byte ;;
      copy_to_loop bytes (u64 (virt_addr + 1)) (u64 (phys_addr + 1)) virt_line
  end.

Definition copy_to_virt_addr (addr : Z) (bytes : list Z) : M W unit :=
  copy_to_loop bytes addr 0 (u64 (Z.lnot addr)).

End Hart.
