(* ===== verification/HartCsr.v ===== *)
(** [read_csr] and [write_csr] of src/emu/interp.rs. *)

From Stdlib Require Import ZArith Lia Bool List.
From stdpp Require Import base gmap list.
From S2P Require Import Prelude RiscvCsr Mmu HartState Hart.
Local Open Scope Z_scope.
Local Open Scope rust_scope.

(** The bits of [mstatus] that [sstatus] shows and that each register lets
    software write, and the bits whose change flushes the L0 caches. *)
Definition SSTATUS_MASK : Z := 0xC6122.
Definition MSTATUS_MASK : Z := 0x7E79AA.

(** [read_csr] of [sstatus] and [mstatus]: SD summarises FS, UXL reads as 64-bit. *)
Definition status_view (value : Z) : Z :=
  let value := if (value .& 0x6000) =? 0x6000 then value .| 0x8000000000000000 else value in
  value .| 0x200000000.

Section HartCsr.
Context {W : Type} {P : Platform W}.
Local Open Scope interp_scope.

(** [if ctx.interrupt_pending() != 0 { ctx.shared.alert() }] *)
Definition alert_if_pending : M W unit :=
  let* p := get_interrupt_pending in
  when (p <>? 0) (mods alert).

(** [ctx.shared.clear_local_cache(); ctx.shared.clear_local_icache()] *)
Definition clear_local_caches : M W unit :=
  mods clear_local_cache ;; mods clear_local_icache.

Definition read_csr (csr : Csr) : M W Z :=
  if csr =? Csr.Fflags then test_and_set_fs ;; gets fflags
  else if csr =? Csr.Frm then test_and_set_fs ;; getc frm
  else if csr =? Csr.Fcsr then
    test_and_set_fs ;;
    let* frm := getc frm in
    let* fflags := gets fflags in
    ret (u32 (frm << 5) .| fflags)
  else if csr =? Csr.Cycle then test_counter 0 ;; get_mcycle
  else if csr =? Csr.Time then test_counter 1 ;; let* w := get world in ret (time w)
  else if csr =? Csr.Instret then test_counter 2 ;; let* n := getc instret in ret (u64 (n - 1))
  else if csr =? Csr.Sstatus then
    let* s := getc mstatus in ret (status_view (s .& SSTATUS_MASK))
  else if csr =? Csr.Sie then getc (fun c => mie c .& mideleg c)
  else if csr =? Csr.Stvec then getc stvec
  else if csr =? Csr.Scounteren then getc scounteren
  else if csr =? Csr.Sscratch then getc sscratch
  else if csr =? Csr.Sepc then getc sepc
  else if csr =? Csr.Scause then getc scause
  else if csr =? Csr.Stval then getc stval
  else if csr =? Csr.Sip then
    let* p := gets mip in
    let* d := getc mideleg in
    ret (p .& d)
  else if csr =? Csr.Satp then getc satp
  else if (csr =? Csr.Mvendorid) || (csr =? Csr.Marchid) || (csr =? Csr.Mimpid) then ret 0
  else if csr =? Csr.Mhartid then getc hartid
  else if csr =? Csr.Mstatus then let* s := getc mstatus in ret (status_view s)
  else if csr =? Csr.Misa then panic
  else if csr =? Csr.Medeleg then getc medeleg
  else if csr =? Csr.Mideleg then getc mideleg
  else if csr =? Csr.Mie then getc mie
  else if csr =? Csr.Mtvec then getc mtvec
  else if csr =? Csr.Mcounteren then getc mcounteren
  else if csr =? Csr.Mscratch then getc mscratch
  else if csr =? Csr.Mepc then getc mepc
  else if csr =? Csr.Mcause then getc mcause
  else if csr =? Csr.Mtval then getc mtval
  else if csr =? Csr.Mip then gets mip
  else if csr =? Csr.Mcycle then get_mcycle
  else if csr =? Csr.Mtime then let* w := get world in ret (time w)
  else if csr =? Csr.Minstret then let* n := getc instret in ret (u64 (n - 1))
  else trap_with 2 0.

(** The [Sstatus] and [Mstatus] cases of [write_csr], which differ in the
    writable bits and the bits whose change flushes the L0 caches. *)
Definition write_status (writable flushing value : Z) : M W unit :=
  let* old_value := getc mstatus in
  let status := (old_value .& Z.lnot writable) .| (value .& writable) in
  modc (set_mstatus status) ;;
  alert_if_pending ;;
  when ((old_value .& flushing) <>? (status .& flushing)) clear_local_caches.

Definition write_csr (csr : Csr) (value : Z) : M W unit :=
  if csr =? Csr.Fflags then test_and_set_fs ;; mods (set_fflags (value .& 31))
  else if csr =? Csr.Frm then test_and_set_fs ;; modc (set_frm (Z.min (value .& 7) 4))
  else if csr =? Csr.Fcsr then
    test_and_set_fs ;;
    mods (set_fflags (value .& 31)) ;;
    modc (set_frm (Z.min ((value >> 5) .& 7) 4))
  else if csr =? Csr.Sstatus then write_status SSTATUS_MASK 0xC0000 value
  else if csr =? Csr.Sie then
    modc (fun c => set_mie ((mie c .& Z.lnot (mideleg c)) .| (value .& mideleg c)) c) ;;
    recheck_interrupt
  else if csr =? Csr.Stvec then when ((value .& 2) =? 0) (modc (set_stvec value))
  else if csr =? Csr.Scounteren then modc (set_scounteren (value .& 7))
  else if csr =? Csr.Sscratch then modc (set_sscratch value)
  else if csr =? Csr.Sepc then modc (set_sepc (value .& Z.lnot 1))
  else if csr =? Csr.Scause then modc (set_scause value)
  else if csr =? Csr.Stval then modc (set_stval value)
  else if csr =? Csr.Sip then
    let* d := getc mideleg in
    when ((d .& 2) <>? 0)
      (if (value .& 2) <>? 0 then mods (assert_int 2) else mods (deassert_int 2))
  else if csr =? Csr.Satp then
    (match value >> 60 with
     | 0 => modc (set_satp 0)
     | 8 => modc (set_satp value)
     | _ => ret tt
     end) ;;
    clear_local_caches
  else if csr =? Csr.Mstatus then write_status MSTATUS_MASK 0xE1800 value
  else if csr =? Csr.Misa then ret tt
  else if csr =? Csr.Medeleg then modc (set_medeleg (value .& 0xB35D))
  else if csr =? Csr.Mideleg then modc (set_mideleg (value .& 0x222)) ;; alert_if_pending
  else if csr =? Csr.Mie then modc (set_mie (value .& 0xAAA)) ;; recheck_interrupt
  else if csr =? Csr.Mtvec then when ((value .& 2) =? 0) (modc (set_mtvec value))
  else if csr =? Csr.Mcounteren then modc (set_mcounteren (value .& 7))
  else if csr =? Csr.Mscratch then modc (set_mscratch value)
  else if csr =? Csr.Mepc then modc (set_mepc (value .& Z.lnot 1))
  else if csr =? Csr.Mcause then modc (set_mcause value)
  else if csr =? Csr.Mtval then modc (set_mtval value)
  else if csr =? Csr.Mip then
    mods (deassert_int (0x222 .& Z.lnot value)) ;;
    mods (assert_int (0x222 .& value))
  else if csr =? Csr.Minstret then modc (set_instret value)
  else if (csr =? 0x800) && feature_simcsr then shutdown (SwitchModel value)
  else if (csr =? 0x801) && feature_simcsr then
    shutdown (if value =? 0 then ClearStats else PrintStats)
  else trap_with 2 0.

End HartCsr.
