(* ===== verification/HartStep.v ===== *)
(** [step] of src/emu/interp.rs: one instruction of the hart, with [sbi_call]
    and [global_sfence].  The cases of the [match] of [step] are grouped as its
    comments group them; [step] tries the groups in order. *)

From Stdlib Require Import ZArith Lia Bool List.
From stdpp Require Import base gmap list.
From S2P Require Import Prelude RiscvCsr RiscvOp Mmu Softfp HartState Hart HartCsr.
Local Open Scope Z_scope.
Local Open Scope rust_scope.

Section HartStep.
Context {W : Type} {P : Platform W}.
Local Open Scope interp_scope.
Import Op.

(** ** The macros of [step]

    A register number of 32 or more is [unreachable_unchecked]; the model
    panics there. *)

Definition read_reg (rs : Z) : M W Z :=
  let* r := getc registers in
  match r !! Z.to_nat rs with Some v => ret v | None => panic end.

Definition read_32 (rs : Z) : M W Z := let* v := read_reg rs in ret (u32 v).

Definition write_reg (rd value : Z) : M W unit :=
  assert_ (rd <? 32) ;;
  when (rd <>? 0) (modc (fun c => set_registers (<[Z.to_nat rd := value]> (registers c)) c)).

Definition write_32 (rd value : Z) : M W unit := write_reg rd (u64 (i32 value)).

Definition read_fd (rs : Z) : M W Z :=
  let* r := getc fp_registers in
  match r !! Z.to_nat rs with Some v => ret v | None => panic end.

Definition read_fs (rs : Z) : M W Z := let* v := read_fd rs in ret (u32 v).

Definition write_fd (frd value : Z) : M W unit :=
  assert_ (frd <? 32) ;;
  modc (fun c => set_fp_registers (<[Z.to_nat frd := value]> (fp_registers c)) c).

Definition write_fs (frd value : Z) : M W unit := write_fd frd (value .| 0xffffffff00000000).

(** [set_rm!] *)
Definition use_rm (rm : Z) : M W unit :=
  test_and_set_fs ;;
  let* rm := (if rm =? 7 then getc frm else ret rm) in
  assert_ (rm <=? 4) ;;
  mods (HartState.set_rm rm).

Definition pc_pre (compressed : bool) : M W Z :=
  let* pc := getc pc in ret (u64 (pc - (if compressed then 2 else 4))).

(** [read_reg!(rs1).wrapping_add(imm as u64)] *)
Definition reg_offset (rs1 imm : Z) : M W Z :=
  let* v := read_reg rs1 in ret (u64 (v + u64 imm)).

(** The callbacks [get_rounding_mode] and [set_exception_flags] registered by
    [init_fp]: a softfp operation runs on the [rm] and [fflags] of the hart. *)
Definition fp_run {A} (f : FpM A) : M W A :=
  let* mode := gets rm in
  let* flags := gets fflags in
  match rm_try_from mode with
  | None => panic
  | Some mode =>
      match f mode flags with
      | None => panic
      | Some (a, flags) => mods (set_fflags flags) ;; ret a
      end
  end.

(** ** Fences and SBI calls *)

(** [MemoryModel::before_fence_i] and [before_sfence_vma], not overridden. *)
Definition before_fence_i (mask : Z) : M W unit := ret tt.
Definition before_sfence_vma (mask : Z) (asid vaddr : option Z) : M W unit := ret tt.

(** [for i in 0..core_count() { if mask & (1 << i) == 0 { continue; } f(shared_context(i)) }] *)
Definition for_harts (mask : Z) (f : SharedContext -> SharedContext) : M W unit :=
  let* n := get core_count in
  for_each (seq 0 n) (fun i =>
    when ((mask .& u64 (1 << (Z.of_nat i .& 63))) <>? 0) (mod_shared i f)).

Definition global_sfence (mask : Z) (asid vpn : option Z) : M W unit :=
  before_sfence_vma mask asid vpn ;;
  for_harts mask (fun s => clear_local_icache (clear_local_cache s)).

(** [Result::unwrap] *)
Definition unwrap {A} (f : M W A) : M W A := fun m =>
  match f m with Err _ => Panic | r => r end.

(** [read_memory(ctx.translate_vaddr(addr, AccessType::Read).unwrap() as usize)] *)
Definition read_hart_mask (addr : Z) : M W Z :=
  let* paddr := unwrap (translate_vaddr addr Read) in
  read_memory 8 paddr.

Definition remote_mask (arg0 : Z) : M W Z :=
  if arg0 =? 0 then ret (2 ^ 64 - 1) else read_hart_mask arg0.

Definition page_of (arg1 arg2 : Z) : option Z :=
  if arg2 =? 4096 then Some (arg1 .& Z.lnot 4095) else None.

Definition sbi_call (nr arg0 arg1 arg2 arg3 : Z) : M W Z :=
  match nr with
  | 0 =>
      let* id := getc hartid in
      modify (clint_write (0x4000 + id * 8) arg0 8) ;; ret 0
  | 1 =>
      let* w := get world in
      match console_try_write (u8 arg0) w with
      | Some w => modify (set_world w) ;; ret 0
      | None => panic
      end
  | 2 =>
      let* w := get world in
      let (byte, w) := console_try_read w in
      modify (set_world w) ;;
      ret (match byte with Some b => b | None => 2 ^ 64 - 1 end)
  | 3 => mods (deassert_int 2) ;; ret 0
  | 4 =>
      let* mask := read_hart_mask arg0 in
      for_harts mask (assert_int 2) ;; ret 0
  | 5 =>
      let* mask := remote_mask arg0 in
      before_fence_i mask ;;
      for_harts mask clear_local_icache ;; ret 0
  | 6 =>
      let* mask := remote_mask arg0 in
      global_sfence mask None (page_of arg1 arg2) ;; ret 0
  | 7 =>
      let* mask := remote_mask arg0 in
      global_sfence mask (Some (u16 arg3)) (page_of arg1 arg2) ;; ret 0
  | 8 => shutdown (Exit 0) ;; ret 0
  | _ => ret (u64 (-2))
  end.

(** ** Loads, stores, integer computation *)

Definition load_op (n : nat) (misaligned : Z) (ext : Z -> Z) (rd rs1 imm : Z) : M W unit :=
  let* vaddr := reg_offset rs1 imm in
  if (vaddr .& misaligned) <>? 0 then trap_with 4 vaddr
  else let* v := read_vaddr n vaddr in write_reg rd (ext v).

Definition step_load (op : Op) : option (M W unit) :=
  match op with
  | Illegal => Some (trap_with 2 0)
  | Lb rd rs1 imm => Some (load_op 1 0 (fun v => u64 (i8 v)) rd rs1 imm)
  | Lh rd rs1 imm => Some (load_op 2 1 (fun v => u64 (i16 v)) rd rs1 imm)
  | Lw rd rs1 imm => Some (load_op 4 3 (fun v => u64 (i32 v)) rd rs1 imm)
  | Ld rd rs1 imm => Some (load_op 8 7 (fun v => v) rd rs1 imm)
  | Lbu rd rs1 imm => Some (load_op 1 0 (fun v => v) rd rs1 imm)
  | Lhu rd rs1 imm => Some (load_op 2 1 (fun v => v) rd rs1 imm)
  | Lwu rd rs1 imm => Some (load_op 4 3 (fun v => v) rd rs1 imm)
  | _ => None
  end.

(** [write_reg!(rd, f(read_reg!(rs1)))] and [write_reg!(rd, f(read_reg!(rs1), read_reg!(rs2)))] *)
Definition unary_op (rd rs1 : Z) (f : Z -> Z) : M W unit :=
  let* a := read_reg rs1 in write_reg rd (f a).

Definition binary_op (rd rs1 rs2 : Z) (f : Z -> Z -> Z) : M W unit :=
  let* a := read_reg rs1 in
  let* b := read_reg rs2 in
  write_reg rd (f a b).

(** A shift amount is taken modulo the width. *)
Definition step_op_imm (op : Op) : option (M W unit) :=
  match op with
  | Addi rd rs1 imm => Some (unary_op rd rs1 (fun a => u64 (a + u64 imm)))
  | Slli rd rs1 imm => Some (unary_op rd rs1 (fun a => u64 (a << (imm .& 63))))
  | Slti rd rs1 imm => Some (unary_op rd rs1 (fun a => Z.b2z (i64 a <? imm)))
  | Sltiu rd rs1 imm => Some (unary_op rd rs1 (fun a => Z.b2z (a <? u64 imm)))
  | Xori rd rs1 imm => Some (unary_op rd rs1 (fun a => a .^ u64 imm))
  | Srli rd rs1 imm => Some (unary_op rd rs1 (fun a => a >> (imm .& 63)))
  | Srai rd rs1 imm => Some (unary_op rd rs1 (fun a => u64 (i64 a >> (imm .& 63))))
  | Ori rd rs1 imm => Some (unary_op rd rs1 (fun a => a .| u64 imm))
  | Andi rd rs1 imm => Some (unary_op rd rs1 (fun a => a .& u64 imm))
  | Fence => Some (ret tt)
  | FenceI => Some
      (let* id := getc hartid in
       before_fence_i (u64 (1 << (id .& 63))) ;;
       mods clear_local_icache)
  | Addiw rd rs1 imm => Some (unary_op rd rs1 (fun a => u64 (i32 (i32 a + imm))))
  | Slliw rd rs1 imm => Some (unary_op rd rs1 (fun a => u64 (i32 (i32 a << (imm .& 31)))))
  | Srliw rd rs1 imm => Some (unary_op rd rs1 (fun a => u64 (i32 (u32 a >> (imm .& 31)))))
  | Sraiw rd rs1 imm => Some (unary_op rd rs1 (fun a => u64 (i32 a >> (imm .& 31))))
  | _ => None
  end.

Definition store_op (n : nat) (misaligned : Z) (rs1 rs2 imm : Z) : M W unit :=
  let* vaddr := reg_offset rs1 imm in
  if (vaddr .& misaligned) <>? 0 then trap_with 5 vaddr
  else
    let* paddr := ptr_vaddr_x vaddr in
    let* v := read_reg rs2 in
    store n paddr v.

Definition step_store (op : Op) : option (M W unit) :=
  match op with
  | Sb rs1 rs2 imm => Some (store_op 1 0 rs1 rs2 imm)
  | Sh rs1 rs2 imm => Some (store_op 2 1 rs1 rs2 imm)
  | Sw rs1 rs2 imm => Some (store_op 4 3 rs1 rs2 imm)
  | Sd rs1 rs2 imm => Some (store_op 8 7 rs1 rs2 imm)
  | _ => None
  end.

Definition step_op (op : Op) (compressed : bool) : option (M W unit) :=
  match op with
  | Add rd rs1 rs2 => Some (binary_op rd rs1 rs2 (fun a b => u64 (a + b)))
  | Sub rd rs1 rs2 => Some (binary_op rd rs1 rs2 (fun a b => u64 (a - b)))
  | Sll rd rs1 rs2 => Some (binary_op rd rs1 rs2 (fun a b => u64 (a << (b .& 63))))
  | Slt rd rs1 rs2 => Some (binary_op rd rs1 rs2 (fun a b => Z.b2z (i64 a <? i64 b)))
  | Sltu rd rs1 rs2 => Some (binary_op rd rs1 rs2 (fun a b => Z.b2z (a <? b)))
  | Xor rd rs1 rs2 => Some (binary_op rd rs1 rs2 (fun a b => a .^ b))
  | Srl rd rs1 rs2 => Some (binary_op rd rs1 rs2 (fun a b => a >> (b .& 63)))
  | Sra rd rs1 rs2 => Some (binary_op rd rs1 rs2 (fun a b => u64 (i64 a >> (b .& 63))))
  | Or rd rs1 rs2 => Some (binary_op rd rs1 rs2 (fun a b => a .| b))
  | And rd rs1 rs2 => Some (binary_op rd rs1 rs2 (fun a b => a .& b))
  | Lui rd imm => Some (write_reg rd (u64 imm))
  | Addw rd rs1 rs2 => Some (binary_op rd rs1 rs2 (fun a b => u64 (i32 (i32 a + i32 b))))
  | Subw rd rs1 rs2 => Some (binary_op rd rs1 rs2 (fun a b => u64 (i32 (i32 a - i32 b))))
  | Sllw rd rs1 rs2 => Some (binary_op rd rs1 rs2 (fun a b => u64 (i32 (i32 a << (b .& 31)))))
  | Srlw rd rs1 rs2 => Some (binary_op rd rs1 rs2 (fun a b => u64 (i32 (u32 a >> (b .& 31)))))
  | Sraw rd rs1 rs2 => Some (binary_op rd rs1 rs2 (fun a b => u64 (i32 a >> (b .& 31))))
  | Auipc rd imm => Some (let* pre := pc_pre compressed in write_reg rd (u64 (pre + u64 imm)))
  | _ => None
  end.

(** ** Control flow *)

Definition branch_op (compressed : bool) (rs1 rs2 imm : Z) (cond : Z -> Z -> bool) : M W unit :=
  let* a := read_reg rs1 in
  let* b := read_reg rs2 in
  when (cond a b) (let* pre := pc_pre compressed in modc (set_pc (u64 (pre + u64 imm)))).

Definition step_branch (op : Op) (compressed : bool) : option (M W unit) :=
  let branch := branch_op compressed in
  match op with
  | Beq rs1 rs2 imm => Some (branch rs1 rs2 imm (fun a b => a =? b))
  | Bne rs1 rs2 imm => Some (branch rs1 rs2 imm (fun a b => a <>? b))
  | Blt rs1 rs2 imm => Some (branch rs1 rs2 imm (fun a b => i64 a <? i64 b))
  | Bge rs1 rs2 imm => Some (branch rs1 rs2 imm (fun a b => i64 b <=? i64 a))
  | Bltu rs1 rs2 imm => Some (branch rs1 rs2 imm (fun a b => a <? b))
  | Bgeu rs1 rs2 imm => Some (branch rs1 rs2 imm (fun a b => b <=? a))
  | Jalr rd rs1 imm => Some
      (let* target := reg_offset rs1 imm in
       let new_pc := target .& Z.lnot 1 in
       let* link := getc pc in
       write_reg rd link ;;
       modc (set_pc new_pc))
  | Jal rd imm => Some
      (let* link := getc pc in
       write_reg rd link ;;
       let* pre := pc_pre compressed in
       modc (set_pc (u64 (pre + u64 imm))))
  | _ => None
  end.

(** ** SYSTEM *)

(** [ctx.registers[10] = f(ctx.registers[17], ctx.registers[10], ...)] *)
Definition set_a0 (value : Z) : M W unit :=
  modc (fun c => set_registers (<[10%nat := value]> (registers c)) c).

Definition ecall_sbi : M W unit :=
  let* nr := read_reg 17 in
  let* a0 := read_reg 10 in
  let* a1 := read_reg 11 in
  let* a2 := read_reg 12 in
  let* a3 := read_reg 13 in
  let* r := sbi_call nr a0 a1 a2 a3 in
  set_a0 r.

Definition ecall_user : M W unit :=
  let* nr := read_reg 17 in
  let* a0 := read_reg 10 in
  let* a1 := read_reg 11 in
  let* a2 := read_reg 12 in
  let* a3 := read_reg 13 in
  let* a4 := read_reg 14 in
  let* a5 := read_reg 15 in
  let* r := syscall nr [a0; a1; a2; a3; a4; a5] in
  set_a0 r.

Definition ecall : M W unit :=
  let* prv := getc prv in
  match prv with
  | 0 => if flags_prv =? 0 then ecall_user else trap_with 8 0
  | 1 => if flags_prv =? 1 then ecall_sbi else trap_with 9 0
  | 3 => ecall_sbi
  | _ => panic
  end.

(** The read-modify-write forms: [write] is the value written from the value
    read, [None] when nothing is written. *)
Definition csr_swap (rd : Z) (csr : Csr) (value : M W Z) : M W unit :=
  let* result := (if rd <>? 0 then read_csr csr else ret 0) in
  let* v := value in
  write_csr csr v ;;
  write_reg rd result.

Definition csr_update (rd : Z) (csr : Csr) (writes : bool) (value : Z -> M W Z) : M W unit :=
  let* result := read_csr csr in
  when writes (let* v := value result in write_csr csr v) ;;
  write_reg rd result.

Definition step_system (op : Op) : option (M W unit) :=
  match op with
  | Ecall => Some ecall
  | Ebreak => Some (trap_with 3 0)
  | Csrrw rd rs1 csr => Some (csr_swap rd csr (read_reg rs1))
  | Csrrs rd rs1 csr => Some
      (csr_update rd csr (rs1 <>? 0) (fun result => let* v := read_reg rs1 in ret (result .| v)))
  | Csrrc rd rs1 csr => Some
      (csr_update rd csr (rs1 <>? 0) (fun result => let* v := read_reg rs1 in ret (result .& Z.lnot v)))
  | Csrrwi rd imm csr => Some (csr_swap rd csr (ret imm))
  | Csrrsi rd imm csr => Some (csr_update rd csr (imm <>? 0) (fun result => ret (result .| imm)))
  | Csrrci rd imm csr => Some (csr_update rd csr (imm <>? 0) (fun result => ret (result .& Z.lnot imm)))
  | _ => None
  end.

End HartStep.
