(* ===== verification/HartStepExt.v ===== *)
(** The F, D, M and A extensions and the privileged instructions of [step],
    and [step] itself (src/emu/interp.rs). *)

From Stdlib Require Import ZArith Lia Bool List.
From stdpp Require Import base gmap list.
From S2P Require Import Prelude RiscvCsr RiscvOp Mmu Softfp HartState Hart HartCsr HartStep.
Local Open Scope Z_scope.
Local Open Scope rust_scope.

Section HartStepExt.
Context {W : Type} {P : Platform W}.
Local Open Scope interp_scope.
Import Op.

(** ** Floating point

    [read] and [write] are [read_fs!] and [write_fs!] or [read_fd!] and
    [write_fd!]; [mode] is [set_rm!(rm)] or [ctx.test_and_set_fs()?]. *)

Definition fp_unary (mode : M W unit) (read : Z -> M W Z) (write : Z -> Z -> M W unit)
    (f : Z -> M W Z) (rd rs1 : Z) : M W unit :=
  mode ;;
  let* a := read rs1 in
  let* r := f a in
  write rd r.

Definition fp_binary (mode : M W unit) (read : Z -> M W Z) (write : Z -> Z -> M W unit)
    (f : Z -> Z -> M W Z) (rd rs1 rs2 : Z) : M W unit :=
  mode ;;
  let* a := read rs1 in
  let* b := read rs2 in
  let* r := f a b in
  write rd r.

Definition fp_ternary (mode : M W unit) (read : Z -> M W Z) (write : Z -> Z -> M W unit)
    (f : Z -> Z -> Z -> M W Z) (rd rs1 rs2 rs3 : Z) : M W unit :=
  mode ;;
  let* a := read rs1 in
  let* b := read rs2 in
  let* c := read rs3 in
  let* r := f a b c in
  write rd r.

(** A softfp operation run on the hart's rounding mode and flags; a pure
    result; a truth value as [u64]; a class as a bit; a negated result. *)
Definition run1 (f : Z -> FpM Z) (a : Z) : M W Z := fp_run (f a).
Definition run2 (f : Z -> Z -> FpM Z) (a b : Z) : M W Z := fp_run (f a b).
Definition run3 (f : Z -> Z -> Z -> FpM Z) (a b c : Z) : M W Z := fp_run (f a b c).
Definition pure1 (f : Z -> Z) (a : Z) : M W Z := ret (f a).
Definition pure2 (f : Z -> Z -> Z) (a b : Z) : M W Z := ret (f a b).
Definition truth (f : Z -> Z -> FpM bool) (a b : Z) : M W Z :=
  let* r := fp_run (f a b) in ret (Z.b2z r).
Definition class_bit (f : Z -> FpM Class) (a : Z) : M W Z :=
  let* c := fp_run (f a) in ret (1 << class_code c).
Definition negated (Desc : FpDesc) (f : M W Z) : M W Z :=
  let* r := f in ret (Fp.negate r).

(** [F32]'s and [F64]'s loads and stores.  The alignment mask is the source's. *)
Definition fp_load (n : nat) (misaligned : Z) (write : Z -> Z -> M W unit) (frd rs1 imm : Z) : M W unit :=
  test_and_set_fs ;;
  let* vaddr := reg_offset rs1 imm in
  if (vaddr .& misaligned) <>? 0 then trap_with 4 vaddr
  else let* v := read_vaddr n vaddr in write frd v.

Definition fp_store (n : nat) (misaligned : Z) (read : Z -> M W Z) (rs1 frs2 imm : Z) : M W unit :=
  test_and_set_fs ;;
  let* vaddr := reg_offset rs1 imm in
  if (vaddr .& misaligned) <>? 0 then trap_with 5 vaddr
  else
    let* paddr := ptr_vaddr_x vaddr in
    let* v := read frs2 in
    store n paddr v.

Definition step_f_fma (op : Op) : option (M W unit) :=
  match op with
  | FmaddS frd frs1 frs2 frs3 rm => Some
      (fp_ternary (use_rm rm) read_fs write_fs (run3 (Fp.fused_multiply_add (Desc := F32Desc))) frd frs1 frs2 frs3)
  | FmsubS frd frs1 frs2 frs3 rm => Some
      (fp_ternary (use_rm rm) read_fs write_fs (fun a b c => run3 (Fp.fused_multiply_add (Desc := F32Desc)) a b ((Fp.negate (Desc := F32Desc)) c)) frd frs1 frs2 frs3)
  | FnmsubS frd frs1 frs2 frs3 rm => Some
      (fp_ternary (use_rm rm) read_fs write_fs (fun a b c => run3 (Fp.fused_multiply_add (Desc := F32Desc)) ((Fp.negate (Desc := F32Desc)) a) b c) frd frs1 frs2 frs3)
  | FnmaddS frd frs1 frs2 frs3 rm => Some
      (fp_ternary (use_rm rm) read_fs write_fs (fun a b c => negated F32Desc (run3 (Fp.fused_multiply_add (Desc := F32Desc)) a b c)) frd frs1 frs2 frs3)
  | _ => None
  end.

Definition step_f (op : Op) : option (M W unit) :=
  let fs := test_and_set_fs in
  match op with
  | Flw frd rs1 imm => Some (fp_load 4 3 write_fs frd rs1 imm)
  | Fsw rs1 frs2 imm => Some (fp_store 4 3 read_fs rs1 frs2 imm)
  | FaddS frd frs1 frs2 rm => Some (fp_binary (use_rm rm) read_fs write_fs (run2 (Fp.add (Desc := F32Desc))) frd frs1 frs2)
  | FsubS frd frs1 frs2 rm => Some (fp_binary (use_rm rm) read_fs write_fs (run2 (Fp.sub (Desc := F32Desc))) frd frs1 frs2)
  | FmulS frd frs1 frs2 rm => Some (fp_binary (use_rm rm) read_fs write_fs (run2 (Fp.multiply (Desc := F32Desc))) frd frs1 frs2)
  | FdivS frd frs1 frs2 rm => Some (fp_binary (use_rm rm) read_fs write_fs (run2 (Fp.divide (Desc := F32Desc))) frd frs1 frs2)
  | FsqrtS frd frs1 rm => Some (fp_unary (use_rm rm) read_fs write_fs (run1 (Fp.square_root (Desc := F32Desc))) frd frs1)
  | FsgnjS frd frs1 frs2 => Some (fp_binary fs read_fs write_fs (pure2 (Fp.copy_sign (Desc := F32Desc))) frd frs1 frs2)
  | FsgnjnS frd frs1 frs2 => Some (fp_binary fs read_fs write_fs (pure2 (Fp.copy_sign_negated (Desc := F32Desc))) frd frs1 frs2)
  | FsgnjxS frd frs1 frs2 => Some (fp_binary fs read_fs write_fs (pure2 (Fp.copy_sign_xored (Desc := F32Desc))) frd frs1 frs2)
  | FminS frd frs1 frs2 => Some (fp_binary fs read_fs write_fs (run2 (Fp.min (Desc := F32Desc))) frd frs1 frs2)
  | FmaxS frd frs1 frs2 => Some (fp_binary fs read_fs write_fs (run2 (Fp.max (Desc := F32Desc))) frd frs1 frs2)
  | FcvtWS rd frs1 rm => Some (fp_unary (use_rm rm) read_fs write_32 (run1 (Fp.convert_to_sint (Desc := F32Desc) 32)) rd frs1)
  | FcvtWuS rd frs1 rm => Some (fp_unary (use_rm rm) read_fs write_32 (run1 (Fp.convert_to_uint (Desc := F32Desc) 32)) rd frs1)
  | FcvtLS rd frs1 rm => Some (fp_unary (use_rm rm) read_fs write_reg (run1 (Fp.convert_to_sint (Desc := F32Desc) 64)) rd frs1)
  | FcvtLuS rd frs1 rm => Some (fp_unary (use_rm rm) read_fs write_reg (run1 (Fp.convert_to_uint (Desc := F32Desc) 64)) rd frs1)
  | FmvXW rd frs1 => Some (fp_unary fs read_fs write_32 (pure1 (fun v => v)) rd frs1)
  | FclassS rd frs1 => Some (fp_unary fs read_fs write_reg (class_bit (Fp.classify (Desc := F32Desc))) rd frs1)
  | FeqS rd frs1 frs2 => Some (fp_binary fs read_fs write_reg (pure2 (fun a b => Z.b2z ((Fp.fp_eq (Desc := F32Desc)) a b))) rd frs1 frs2)
  | FltS rd frs1 frs2 => Some (fp_binary fs read_fs write_reg (truth (Fp.fp_lt (Desc := F32Desc))) rd frs1 frs2)
  | FleS rd frs1 frs2 => Some (fp_binary fs read_fs write_reg (truth (Fp.fp_le (Desc := F32Desc))) rd frs1 frs2)
  | FcvtSW frd rs1 rm => Some (fp_unary (use_rm rm) read_32 write_fs (run1 (Fp.convert_from_sint (Desc := F32Desc) 32)) frd rs1)
  | FcvtSWu frd rs1 rm => Some (fp_unary (use_rm rm) read_32 write_fs (run1 (Fp.convert_from_uint (Desc := F32Desc) 32)) frd rs1)
  | FcvtSL frd rs1 rm => Some (fp_unary (use_rm rm) read_reg write_fs (run1 (Fp.convert_from_sint (Desc := F32Desc) 64)) frd rs1)
  | FcvtSLu frd rs1 rm => Some (fp_unary (use_rm rm) read_reg write_fs (run1 (Fp.convert_from_uint (Desc := F32Desc) 64)) frd rs1)
  | FmvWX frd rs1 => Some (fp_unary fs read_32 write_fs (pure1 (fun v => v)) frd rs1)
  | _ => step_f_fma op
  end.

Definition step_d_fma (op : Op) : option (M W unit) :=
  match op with
  | FmaddD frd frs1 frs2 frs3 rm => Some
      (fp_ternary (use_rm rm) read_fd write_fd (run3 (Fp.fused_multiply_add (Desc := F64Desc))) frd frs1 frs2 frs3)
  | FmsubD frd frs1 frs2 frs3 rm => Some
      (fp_ternary (use_rm rm) read_fd write_fd (fun a b c => run3 (Fp.fused_multiply_add (Desc := F64Desc)) a b ((Fp.negate (Desc := F64Desc)) c)) frd frs1 frs2 frs3)
  | FnmsubD frd frs1 frs2 frs3 rm => Some
      (fp_ternary (use_rm rm) read_fd write_fd (fun a b c => run3 (Fp.fused_multiply_add (Desc := F64Desc)) ((Fp.negate (Desc := F64Desc)) a) b c) frd frs1 frs2 frs3)
  | FnmaddD frd frs1 frs2 frs3 rm => Some
      (fp_ternary (use_rm rm) read_fd write_fd (fun a b c => negated F64Desc (run3 (Fp.fused_multiply_add (Desc := F64Desc)) a b c)) frd frs1 frs2 frs3)
  | _ => None
  end.

Definition step_d (op : Op) : option (M W unit) :=
  let fs := test_and_set_fs in
  match op with
  | Fld frd rs1 imm => Some (fp_load 8 3 write_fd frd rs1 imm)
  | Fsd rs1 frs2 imm => Some (fp_store 8 7 read_fd rs1 frs2 imm)
  | FaddD frd frs1 frs2 rm => Some (fp_binary (use_rm rm) read_fd write_fd (run2 (Fp.add (Desc := F64Desc))) frd frs1 frs2)
  | FsubD frd frs1 frs2 rm => Some (fp_binary (use_rm rm) read_fd write_fd (run2 (Fp.sub (Desc := F64Desc))) frd frs1 frs2)
  | FmulD frd frs1 frs2 rm => Some (fp_binary (use_rm rm) read_fd write_fd (run2 (Fp.multiply (Desc := F64Desc))) frd frs1 frs2)
  | FdivD frd frs1 frs2 rm => Some (fp_binary (use_rm rm) read_fd write_fd (run2 (Fp.divide (Desc := F64Desc))) frd frs1 frs2)
  | FsqrtD frd frs1 rm => Some (fp_unary (use_rm rm) read_fd write_fd (run1 (Fp.square_root (Desc := F64Desc))) frd frs1)
  | FsgnjD frd frs1 frs2 => Some (fp_binary fs read_fd write_fd (pure2 (Fp.copy_sign (Desc := F64Desc))) frd frs1 frs2)
  | FsgnjnD frd frs1 frs2 => Some (fp_binary fs read_fd write_fd (pure2 (Fp.copy_sign_negated (Desc := F64Desc))) frd frs1 frs2)
  | FsgnjxD frd frs1 frs2 => Some (fp_binary fs read_fd write_fd (pure2 (Fp.copy_sign_xored (Desc := F64Desc))) frd frs1 frs2)
  | FminD frd frs1 frs2 => Some (fp_binary fs read_fd write_fd (run2 (Fp.min (Desc := F64Desc))) frd frs1 frs2)
  | FmaxD frd frs1 frs2 => Some (fp_binary fs read_fd write_fd (run2 (Fp.max (Desc := F64Desc))) frd frs1 frs2)
  | FcvtSD frd frs1 rm => Some (fp_unary (use_rm rm) read_fd write_fs (run1 (Fp.convert_format F64Desc F32Desc)) frd frs1)
  | FcvtDS frd frs1 _ => Some (fp_unary fs read_fs write_fd (run1 (Fp.convert_format F32Desc F64Desc)) frd frs1)
  | FcvtWD rd frs1 rm => Some (fp_unary (use_rm rm) read_fd write_32 (run1 (Fp.convert_to_sint (Desc := F64Desc) 32)) rd frs1)
  | FcvtWuD rd frs1 rm => Some (fp_unary (use_rm rm) read_fd write_32 (run1 (Fp.convert_to_uint (Desc := F64Desc) 32)) rd frs1)
  | FcvtLD rd frs1 rm => Some (fp_unary (use_rm rm) read_fd write_reg (run1 (Fp.convert_to_sint (Desc := F64Desc) 64)) rd frs1)
  | FcvtLuD rd frs1 rm => Some (fp_unary (use_rm rm) read_fd write_reg (run1 (Fp.convert_to_uint (Desc := F64Desc) 64)) rd frs1)
  | FmvXD rd frs1 => Some (fp_unary fs read_fd write_reg (pure1 (fun v => v)) rd frs1)
  | FclassD rd frs1 => Some (fp_unary fs read_fd write_reg (class_bit (Fp.classify (Desc := F64Desc))) rd frs1)
  | FeqD rd frs1 frs2 => Some (fp_binary fs read_fd write_reg (pure2 (fun a b => Z.b2z ((Fp.fp_eq (Desc := F64Desc)) a b))) rd frs1 frs2)
  | FltD rd frs1 frs2 => Some (fp_binary fs read_fd write_reg (truth (Fp.fp_lt (Desc := F64Desc))) rd frs1 frs2)
  | FleD rd frs1 frs2 => Some (fp_binary fs read_fd write_reg (truth (Fp.fp_le (Desc := F64Desc))) rd frs1 frs2)
  | FcvtDW frd rs1 rm => Some (fp_unary (use_rm rm) read_32 write_fd (run1 (Fp.convert_from_sint (Desc := F64Desc) 32)) frd rs1)
  | FcvtDWu frd rs1 rm => Some (fp_unary (use_rm rm) read_32 write_fd (run1 (Fp.convert_from_uint (Desc := F64Desc) 32)) frd rs1)
  | FcvtDL frd rs1 rm => Some (fp_unary (use_rm rm) read_reg write_fd (run1 (Fp.convert_from_sint (Desc := F64Desc) 64)) frd rs1)
  | FcvtDLu frd rs1 rm => Some (fp_unary (use_rm rm) read_reg write_fd (run1 (Fp.convert_from_uint (Desc := F64Desc) 64)) frd rs1)
  | FmvDX frd rs1 => Some (fp_unary fs read_reg write_fd (pure1 (fun v => v)) frd rs1)
  | _ => step_d_fma op
  end.

(** ** M extension

    [Z.quot] and [Z.rem] truncate towards zero as Rust's operators do;
    [wrapping_div] and [wrapping_rem] reduce the one overflowing quotient. *)

Definition mulhsu (ua b : Z) : Z :=
  let a := i64 ua in
  let exta := u128 (u64 a) in
  let extb := u128 b in
  let r := u64 (u128 (exta * extb) >> 64) in
  if a <? 0 then u64 (r - b) else r.

Definition div (n a b : Z) : Z := if b =? 0 then -1 else sext n (Z.quot a b).
Definition rem (n a b : Z) : Z := if b =? 0 then a else sext n (Z.rem a b).
Definition divu (n a b : Z) : Z := if b =? 0 then wrap n (-1) else a / b.
Definition remu (a b : Z) : Z := if b =? 0 then a else a mod b.

Definition step_m (op : Op) : option (M W unit) :=
  match op with
  | Mul rd rs1 rs2 => Some (binary_op rd rs1 rs2 (fun a b => u64 (a * b)))
  | Mulh rd rs1 rs2 => Some (binary_op rd rs1 rs2 (fun a b => u64 (i128 (i64 a * i64 b) >> 64)))
  | Mulhsu rd rs1 rs2 => Some (binary_op rd rs1 rs2 mulhsu)
  | Mulhu rd rs1 rs2 => Some (binary_op rd rs1 rs2 (fun a b => u64 (u128 (a * b) >> 64)))
  | Div rd rs1 rs2 => Some (binary_op rd rs1 rs2 (fun a b => u64 (div 64 (i64 a) (i64 b))))
  | Divu rd rs1 rs2 => Some (binary_op rd rs1 rs2 (divu 64))
  | Rem rd rs1 rs2 => Some (binary_op rd rs1 rs2 (fun a b => u64 (rem 64 (i64 a) (i64 b))))
  | Remu rd rs1 rs2 => Some (binary_op rd rs1 rs2 remu)
  | Mulw rd rs1 rs2 => Some (binary_op rd rs1 rs2 (fun a b => u64 (i32 (i32 a * i32 b))))
  | Divw rd rs1 rs2 => Some (binary_op rd rs1 rs2 (fun a b => u64 (div 32 (i32 a) (i32 b))))
  | Divuw rd rs1 rs2 => Some (binary_op rd rs1 rs2 (fun a b => u64 (i32 (divu 32 (u32 a) (u32 b)))))
  | Remw rd rs1 rs2 => Some (binary_op rd rs1 rs2 (fun a b => u64 (rem 32 (i32 a) (i32 b))))
  | Remuw rd rs1 rs2 => Some (binary_op rd rs1 rs2 (fun a b => u64 (i32 (remu (u32 a) (u32 b)))))
  | _ => None
  end.

(** ** A extension *)

(** [LrW] ([n = 4], [ext = as i32 as u64]) and [LrD]. *)
Definition load_reserved (n : nat) (misaligned : Z) (ext : Z -> Z) (rd rs1 : Z) : M W unit :=
  let* addr := read_reg rs1 in
  if (addr .& misaligned) <>? 0 then trap_with 5 addr
  else
    let* ptr := ptr_vaddr_x addr in
    let* v := load n ptr in
    let value := ext v in
    write_reg rd value ;;
    modc (set_lr_addr addr) ;;
    modc (set_lr_value value).

(** [ScW] ([trunc = as u32]) and [ScD]; [sc_result] is their [result]. *)
Definition sc_result (n : nat) (trunc : Z -> Z) (addr src : Z) : M W Z :=
  let* reserved := getc lr_addr in
  if addr <>? reserved then ret 1
  else
    let* ptr := ptr_vaddr_x addr in
    let* expected := getc lr_value in
    let* ok := compare_exchange n ptr (trunc expected) src in
    if ok then ret 0 else ret 1.

Definition store_conditional (n : nat) (misaligned : Z) (trunc : Z -> Z) (rd rs1 rs2 : Z) : M W unit :=
  let* addr := read_reg rs1 in
  if (addr .& misaligned) <>? 0 then trap_with 5 addr
  else
    let* src := read_reg rs2 in
    let* result := sc_result n trunc addr (trunc src) in
    write_reg rd result.

(** The [Amo*W] and [Amo*D] instructions: [f] computes the stored value from
    the current one and the source, both of the width of the access. *)
Definition amo_w (f : Z -> Z -> Z) (rd rs1 rs2 : Z) : M W unit :=
  let* addr := read_reg rs1 in
  if (addr .& 3) <>? 0 then trap_with 5 addr
  else
    let* src := read_reg rs2 in
    let src := u32 src in
    let* ptr := ptr_vaddr_x addr in
    let* current := fetch_update 4 ptr (fun v => f v src) in
    write_32 rd current.

Definition amo_d (f : Z -> Z -> Z) (rd rs1 rs2 : Z) : M W unit :=
  let* addr := read_reg rs1 in
  if (addr .& 7) <>? 0 then trap_with 5 addr
  else
    let* src := read_reg rs2 in
    let* ptr := ptr_vaddr_x addr in
    let* current := fetch_update 8 ptr (fun v => f v src) in
    write_reg rd current.

Definition step_a_minmax (op : Op) : option (M W unit) :=
  match op with
  | AmominW rd rs1 rs2 _ => Some (amo_w (fun v src => u32 (Z.min (i32 v) (i32 src))) rd rs1 rs2)
  | AmominD rd rs1 rs2 _ => Some (amo_d (fun v src => u64 (Z.min (i64 v) (i64 src))) rd rs1 rs2)
  | AmomaxW rd rs1 rs2 _ => Some (amo_w (fun v src => u32 (Z.max (i32 v) (i32 src))) rd rs1 rs2)
  | AmomaxD rd rs1 rs2 _ => Some (amo_d (fun v src => u64 (Z.max (i64 v) (i64 src))) rd rs1 rs2)
  | AmominuW rd rs1 rs2 _ => Some (amo_w Z.min rd rs1 rs2)
  | AmominuD rd rs1 rs2 _ => Some (amo_d Z.min rd rs1 rs2)
  | AmomaxuW rd rs1 rs2 _ => Some (amo_w Z.max rd rs1 rs2)
  | AmomaxuD rd rs1 rs2 _ => Some (amo_d Z.max rd rs1 rs2)
  | _ => None
  end.

Definition step_a (op : Op) : option (M W unit) :=
  match op with
  | LrW rd rs1 _ => Some (load_reserved 4 3 (fun v => u64 (i32 v)) rd rs1)
  | LrD rd rs1 _ => Some (load_reserved 8 7 (fun v => v) rd rs1)
  | ScW rd rs1 rs2 _ => Some (store_conditional 4 3 u32 rd rs1 rs2)
  | ScD rd rs1 rs2 _ => Some (store_conditional 8 7 (fun v => v) rd rs1 rs2)
  | AmoswapW rd rs1 rs2 _ => Some (amo_w (fun _ src => src) rd rs1 rs2)
  | AmoswapD rd rs1 rs2 _ => Some (amo_d (fun _ src => src) rd rs1 rs2)
  | AmoaddW rd rs1 rs2 _ => Some (amo_w (fun v src => u32 (v + src)) rd rs1 rs2)
  | AmoaddD rd rs1 rs2 _ => Some (amo_d (fun v src => u64 (v + src)) rd rs1 rs2)
  | AmoandW rd rs1 rs2 _ => Some (amo_w (fun v src => v .& src) rd rs1 rs2)
  | AmoandD rd rs1 rs2 _ => Some (amo_d (fun v src => v .& src) rd rs1 rs2)
  | AmoorW rd rs1 rs2 _ => Some (amo_w (fun v src => v .| src) rd rs1 rs2)
  | AmoorD rd rs1 rs2 _ => Some (amo_d (fun v src => v .| src) rd rs1 rs2)
  | AmoxorW rd rs1 rs2 _ => Some (amo_w (fun v src => v .^ src) rd rs1 rs2)
  | AmoxorD rd rs1 rs2 _ => Some (amo_d (fun v src => v .^ src) rd rs1 rs2)
  | _ => step_a_minmax op
  end.

(** ** Privileged instructions *)

Definition mod_status (f : Z -> Z) : M W unit := modc (fun c => set_mstatus (f (mstatus c)) c).

Definition mret : M W unit :=
  modc (fun c => set_pc (mepc c) c) ;;
  let* status := getc mstatus in
  let new_prv := (status .& 0x1800) >> 11 in
  assert_ (new_prv <>? 2) ;;
  modc (set_prv new_prv) ;;
  when (new_prv <>? 3) clear_local_caches ;;
  mod_status (fun s => (s .& Z.lnot 0x8) .| ((s .& 0x80) >> 4)) ;;
  mod_status (fun s => s .| 0x80) ;;
  mod_status (fun s => s .& Z.lnot 0x1800) ;;
  alert_if_pending.

Definition sret : M W unit :=
  modc (fun c => set_pc (sepc c) c) ;;
  let* status := getc mstatus in
  (if (status .& 0x100) <>? 0 then modc (set_prv 1)
   else modc (set_prv 0) ;; clear_local_caches) ;;
  mod_status (fun s => if (s .& 0x20) <>? 0 then s .| 0x2 else s .& Z.lnot 0x2) ;;
  mod_status (fun s => s .| 0x20) ;;
  mod_status (fun s => s .& Z.lnot 0x100) ;;
  alert_if_pending.

Definition wfi : M W unit :=
  let* before := get (fun m => lockstep_cycles (world m)) in
  wait_alarm ;;
  let* after := get (fun m => lockstep_cycles (world m)) in
  modc (fun c => set_cycle_offset (i64 (cycle_offset c - i64 (u64 (after - before)))) c).

Definition sfence_vma (rs1 rs2 : Z) : M W unit :=
  let* asid := (if rs2 =? 0 then ret None else let* v := read_reg rs2 in ret (Some (u16 v))) in
  let* vpn := (if rs1 =? 0 then ret None else let* v := read_reg rs1 in ret (Some (v .& Z.lnot 4095))) in
  let* id := getc hartid in
  global_sfence (u64 (1 << (id .& 63))) asid vpn.

Definition step_privileged (op : Op) : option (M W unit) :=
  match op with
  | Mret => Some mret
  | Sret => Some sret
  | Wfi => Some wfi
  | SfenceVma rs1 rs2 => Some (sfence_vma rs1 rs2)
  | _ => None
  end.

(** ** [step] *)

Definition step_groups (op : Op) (compressed : bool) : list (option (M W unit)) :=
  [ step_load op; step_op_imm op; step_store op; step_op op compressed;
    step_branch op compressed; step_system op; step_f op; step_d op; step_m op; step_a op;
    step_privileged op ].

Definition step (op : Op) (compressed : bool) : M W unit :=
  match omap id (step_groups op compressed) with
  | m :: _ => m
  | [] => panic
  end.

(** [riscv_step], called by translated code. *)
Definition riscv_step (op : Op) : M W unit := step op false.

(** Every operation belongs to exactly one group. *)
Lemma step_groups_unique (op : Op) (compressed : bool) :
  exists f, omap id (step_groups op compressed) = [f].
Proof. destruct op; eexists; reflexivity. Qed.

(** A property of every group is a property of [step]. *)
Lemma step_dispatch (Q : M W unit -> Prop) op c :
  (forall f, step_load op = Some f -> Q f) -> (forall f, step_op_imm op = Some f -> Q f) ->
  (forall f, step_store op = Some f -> Q f) -> (forall f, step_op op c = Some f -> Q f) ->
  (forall f, step_branch op c = Some f -> Q f) -> (forall f, step_system op = Some f -> Q f) ->
  (forall f, step_f op = Some f -> Q f) -> (forall f, step_d op = Some f -> Q f) ->
  (forall f, step_m op = Some f -> Q f) -> (forall f, step_a op = Some f -> Q f) ->
  (forall f, step_privileged op = Some f -> Q f) -> Q (step op c).
Proof.
  intros. unfold step. destruct (step_groups_unique op c) as [f Hf]. rewrite Hf.
  assert (Hin : f ∈ omap id (step_groups op c)) by (rewrite Hf; left).
  apply list_elem_of_omap in Hin as (o & Ho & E). cbn in E. subst o.
  unfold step_groups in Ho. rewrite !elem_of_cons in Ho.
  destruct_or! Ho; try (inversion Ho; fail); symmetry in Ho; auto.
Qed.

End HartStepExt.
