(* ===== verification/HartTrap.v ===== *)
(** Traps, interrupts and the emulation of misaligned accesses: [trap],
    [check_interrupt] and [handle_misalign] of src/emu/interp.rs, with the
    tasks [check_interrupt] runs. *)

From Stdlib Require Import ZArith Lia Bool List.
From stdpp Require Import base gmap list.
From S2P Require Import Prelude RiscvCsr RiscvOp RiscvDecode Mmu Softfp.
From S2P Require Import HartState Hart HartCsr HartStep HartStepExt.
Local Open Scope Z_scope.
Local Open Scope rust_scope.

(** [i16::from_le_bytes] and the like before the sign is applied, and
    [to_le_bytes]. *)
Fixpoint from_le_bytes (bytes : list Z) : Z :=
  match bytes with
  | [] => 0
  | b :: bytes => b + 256 * from_le_bytes bytes
  end.

Fixpoint to_le_bytes (n : nat) (value : Z) : list Z :=
  match n with
  | O => []
  | S n => value mod 256 :: to_le_bytes n (value / 256)
  end.

(** [map.range(start..end)], removed from the map and kept. *)
Definition block_in_range (start end_ : Z) (b : Z * (Z * Z)) : bool :=
  (start <=? b.1) && (b.1 <? end_).

Definition blocks_in_range (start end_ : Z) (map : gmap Z (Z * Z)) : list (Z * (Z * Z)) :=
  List.filter (block_in_range start end_) (map_to_list map).

Definition drop_range (start end_ : Z) (map : gmap Z (Z * Z)) : gmap Z (Z * Z) :=
  list_to_map (List.filter (fun b => negb (block_in_range start end_ b)) (map_to_list map)).

Section HartTrap.
Context {W : Type} {P : Platform W}.
Local Open Scope interp_scope.
Import Op.

(** ** [trap] *)

Definition trap_to_s : M W unit :=
  modc (fun c => set_scause (cause c) c) ;;
  modc (fun c => set_stval (tval c) c) ;;
  modc (fun c => set_sepc (pc c) c) ;;
  let* prv := getc prv in
  (if prv <>? 0 then mod_status (fun s => s .| 0x100)
   else mod_status (fun s => s .& Z.lnot 0x100) ;; clear_local_caches) ;;
  mod_status (fun s => if (s .& 0x2) <>? 0 then s .| 0x20 else s .& Z.lnot 0x20) ;;
  mod_status (fun s => s .& Z.lnot 0x2) ;;
  modc (set_prv 1) ;;
  modc (fun c => set_pc (stvec c) c).

Definition trap_to_m : M W unit :=
  assert_ (flags_prv =? 3) ;;
  modc (fun c => set_mcause (cause c) c) ;;
  modc (fun c => set_mtval (tval c) c) ;;
  modc (fun c => set_mepc (pc c) c) ;;
  let* prv := getc prv in
  mod_status (fun s => (s .& Z.lnot 0x1800) .| u64 (prv << 11)) ;;
  when (prv <>? 3) clear_local_caches ;;
  mod_status (fun s => if (s .& 0x8) <>? 0 then s .| 0x80 else s .& Z.lnot 0x80) ;;
  mod_status (fun s => s .& Z.lnot 0x8) ;;
  modc (set_prv 3) ;;
  modc (fun c => set_pc (mtvec c) c).

(** Whether the trap recorded in [cause] is delegated to S-mode. *)
Definition deleg_to_s (c : Context) : bool :=
  let deleg_reg := if (cause c >> 63) <>? 0 then mideleg c else medeleg c in
  (prv c <>? 3) && (((deleg_reg >> (cause c .& 15)) .& 1) <>? 0).

Definition process_exit {A} (code : Z) : M W A := fun _ => ProcessExit code.

Definition trap : M W unit :=
  (if flags_prv =? 0 then process_exit 1 else ret tt) ;;
  let* c := getc (fun c => c) in
  (if deleg_to_s c then trap_to_s else trap_to_m) ;;
  modify (fiber_sleep 1).

(** ** [check_interrupt] *)

(** [*(blk.1 as *mut u8) = 0xC3] for each removed block. *)
Definition poison (blocks : list (Z * (Z * Z))) : M W unit :=
  for_each blocks (fun b => store 1 b.2.2 0xC3).

(** The closure queued by [icache_invalidate]. *)
Definition run_task (task : Task) : M W unit :=
  match task with
  | DropBlocks i start end_ =>
      let* ics := get icaches in
      match ics !! i with
      | None => panic
      | Some ic =>
          poison (blocks_in_range start end_ (u_map ic)) ;;
           poison (blocks_in_range start end_ (s_map ic)) ;;
           poison (blocks_in_range start end_ (m_map ic)) ;;
           modify (fun m => set_icaches (<[i := MkICache
             (drop_range start end_ (u_map ic)) (drop_range start end_ (s_map ic))
             (drop_range start end_ (m_map ic)) (heap_start ic) (heap_offset ic)]> (icaches m)) m)
      end
  end.

(** [for task in guard.drain(..) { task() }] *)
Definition run_tasks : M W unit :=
  let* ts := gets tasks in
  mods (set_tasks []) ;;
  for_each ts run_task.

Definition check_interrupt : M W unit :=
  let* a := gets alarm in
  mods (set_alarm 0) ;;
  if (a .& 2) <>? 0 then fail
  else
    run_tasks ;;
    let* interrupt_mask := get_interrupt_pending in
    if interrupt_mask =? 0 then ret tt
    else
      let pending := Z.log2 interrupt_mask in
      modc (set_cause (u64 (1 << 63) .| pending)) ;;
      modc (set_tval 0) ;;
      trap.

(** ** [handle_misalign] *)

(** Decoding of the instruction at [pc]. *)
Definition fetch_insn : M W (Op * bool) :=
  let* pc := getc pc in
  let* lo_addr := insn_translate pc in
  let* bits := load 2 lo_addr in
  if (bits .& 3) =? 3 then
    let* hi_addr := insn_translate (u64 (pc + 2)) in
    let* hi_bits := load 2 hi_addr in
    match decode ((hi_bits << 16) .| bits) with
    | Some op => ret (op, false)
    | None => panic
    end
  else
    match decode_compressed bits with
    | Some op => ret (op, true)
    | None => panic
    end.

(** [ctx.registers[rd as usize] = value], for any [rd]. *)
Definition set_register (rd value : Z) : M W unit :=
  assert_ (rd <? 32) ;;
  modc (fun c => set_registers (<[Z.to_nat rd := value]> (registers c)) c).

Definition misaligned_load (addr : Z) (n : nat) (ext : Z -> Z) (rd : Z) : M W unit :=
  let* bytes := copy_from_virt_addr addr n in
  set_register rd (ext (from_le_bytes bytes)).

Definition misaligned_store (addr : Z) (n : nat) (rs2 : Z) : M W unit :=
  let* v := read_reg rs2 in
  copy_to_virt_addr addr (to_le_bytes n v).

Definition handle_misalign (addr : Z) : M W unit :=
  let* (op, compressed) := fetch_insn in
  (match op with
   | Lh rd _ _ => misaligned_load addr 2 (fun v => u64 (i16 v)) rd
   | Lw rd _ _ => misaligned_load addr 4 (fun v => u64 (i32 v)) rd
   | Ld rd _ _ => misaligned_load addr 8 (fun v => v) rd
   | Lhu rd _ _ => misaligned_load addr 2 (fun v => v) rd
   | Lwu rd _ _ => misaligned_load addr 4 (fun v => v) rd
   | Sh _ rs2 _ => misaligned_store addr 2 rs2
   | Sw _ rs2 _ => misaligned_store addr 4 rs2
   | Sd _ rs2 _ => misaligned_store addr 8 rs2
   | _ => trap_with 6 addr
   end) ;;
  modc (fun c => set_pc (u64 (pc c + (if compressed then 2 else 4))) c) ;;
  modc (fun c => set_instret (u64 (instret c + 1)) c) ;;
  bump_minstret ;;
  modify (fiber_sleep 1).

End HartTrap.
