(* ===== verification/HartBlock.v ===== *)
(** Block translation of src/emu/interp.rs: the code cache allocator [ICache],
    [translate_code] and [find_block].  The x86 code generator (src/emu/dbt.rs)
    is a parameter: it receives the sequence of calls [translate_code] makes. *)

From Stdlib Require Import ZArith Lia Bool List.
From stdpp Require Import base gmap list.
From S2P Require Import Prelude RiscvCsr RiscvOp RiscvDecode Mmu Softfp.
From S2P Require Import HartState Hart HartCsr HartStep HartStepExt HartTrap.
Local Open Scope Z_scope.
Local Open Scope rust_scope.

(** ** [impl ICache] *)

Definition HEAP_SIZE : Z := 1024 * 1024 * 32.

(** [ICache::new] *)
Definition new_icache (ptr : Z) : ICache := MkICache ∅ ∅ ∅ ptr 0.

(** [space()]: the address and length of the free part of the heap. *)
Definition space (ic : ICache) : Z * Z := (heap_offset ic + heap_start ic, HEAP_SIZE - heap_offset ic).

Definition rollover (ic : ICache) : ICache := MkICache ∅ ∅ ∅ (heap_start ic) 0.

(** [commit(size)], [None] when its assertion fails. *)
Definition commit (size : Z) (ic : ICache) : option ICache :=
  let offset := heap_offset ic + size in
  if offset <=? HEAP_SIZE
  then Some (MkICache (u_map ic) (s_map ic) (m_map ic) (heap_start ic) offset)
  else None.

(** [map.insert] into, and [map.get] from, the map of a privilege level. *)
Definition map_insert (prv key : Z) (v : Z * Z) (ic : ICache) : option ICache :=
  match prv with
  | 0 => Some (MkICache (<[key := v]> (u_map ic)) (s_map ic) (m_map ic) (heap_start ic) (heap_offset ic))
  | 1 => Some (MkICache (u_map ic) (<[key := v]> (s_map ic)) (m_map ic) (heap_start ic) (heap_offset ic))
  | 3 => Some (MkICache (u_map ic) (s_map ic) (<[key := v]> (m_map ic)) (heap_start ic) (heap_offset ic))
  | _ => None
  end.

Definition prv_map (prv : Z) (ic : ICache) : option (gmap Z (Z * Z)) :=
  match prv with
  | 0 => Some (u_map ic)
  | 1 => Some (s_map ic)
  | 3 => Some (m_map ic)
  | _ => None
  end.

(** The calls made to [DbtCompiler]. *)
Inductive Emit : Type :=
| CompileOp (op : Op.Op) (compressed : bool) (bits : Z)
| CompileCondOp (bop : Op.Op) (bcomp : bool) (op : Op.Op) (comp : bool)
| End
| EndCross (lo_bits : Z)
| EndUnreachable.

(** The code generator: whether the pipeline model fuses branches over one
    instruction, the generated length and speculative length, the host memory
    after the code is written at an address, and the helper's address. *)
Class Compiler (W : Type) : Type := {
  can_fuse_cond_op : Machine W -> bool;
  code_len : Machine W -> Z -> list Emit -> Z;
  speculative_len : Machine W -> Z -> list Emit -> Z;
  write_code : Z -> Z -> list Emit -> Machine W -> Machine W;
  helper_check_interrupt : Z;
}.

(** [icache_reset] *)
Definition icache_reset (ics : list ICache) : list ICache := map rollover ics.

Section HartBlock.
Context {W : Type} {P : Platform W} {C : Compiler W}.
Local Open Scope interp_scope.
Import Op.

(** [read_insn]: the instruction at [pc], or its low half when it crosses the
    end of the page. *)
Inductive Fetched : Type := Insn (op : Op) (compressed : bool) (bits : Z) | Crosses (lo_bits : Z).

Definition decoded (o : option Op) (c : bool) (bits : Z) : M W Fetched :=
  match o with Some op => ret (Insn op c bits) | None => panic end.

Definition read_insn (pc : Z) : M W Fetched :=
  let* bits := read_memory 2 pc in
  if (bits .& 3) =? 3 then
    if (pc .& 4095) =? 4094 then ret (Crosses bits)
    else
      let* hi_bits := read_memory 2 (u64 (pc + 2)) in
      let bits := (hi_bits << 16) .| bits in
      decoded (decode bits) false bits
  else decoded (decode_compressed bits) true bits.

Definition is_branch (op : Op) : bool :=
  match op with
  | Beq _ _ _ | Bne _ _ _ | Blt _ _ _ | Bge _ _ _ | Bltu _ _ _ | Bgeu _ _ _ => true
  | _ => false
  end.

Definition branch_imm (op : Op) : Z :=
  match op with
  | Beq _ _ imm | Bne _ _ imm | Blt _ _ imm | Bge _ _ imm | Bltu _ _ imm | Bgeu _ _ imm => imm
  | _ => 0
  end.

(** The instruction a branch at [pc_end - len] may be fused with, and its length. *)
Definition fuse_candidate (op : Op) (c : bool) (phys_pc_end : Z) : M W (option (Op * bool)) :=
  let* fuse := get can_fuse_cond_op in
  if ((phys_pc_end .& 4095) <>? 0) && fuse && is_branch op then
    let* short :=
      (if branch_imm op =? (if c then 4 else 6) then
         let* next := read_insn phys_pc_end in
         ret (match next with Insn next_op true _ => Some (next_op, true) | _ => None end)
       else ret None) in
    match short with
    | Some r => ret (Some r)
    | None =>
        if branch_imm op =? (if c then 6 else 8) then
          let* next := read_insn phys_pc_end in
          ret (match next with Insn next_op false _ => Some (next_op, false) | _ => None end)
        else ret None
    end
  else ret None.

(** One iteration of the loop of [translate_code]: the calls it makes, the new
    end of the block and whether the loop goes on. *)
Definition insn_len (c : bool) : Z := if c then 2 else 4.

Definition translate_one (prv phys_pc_end : Z) : M W (list Emit * Z * bool) :=
  let* insn := read_insn phys_pc_end in
  match insn with
  | Crosses bits => ret ([EndCross bits], phys_pc_end, false)
  | Insn op c bits =>
      let phys_pc_end := u64 (phys_pc_end + insn_len c) in
      let op := if u8 prv <? Op.min_prv_level op then Illegal else op in
      let* fused := fuse_candidate op c phys_pc_end in
      match fused with
      | Some (next_op, next_c) =>
          let phys_pc_end := u64 (phys_pc_end + insn_len next_c) in
          let emit := CompileCondOp op c next_op next_c in
          if (phys_pc_end .& 4095) =? 0 then ret ([emit; End], phys_pc_end, false)
          else ret ([emit], phys_pc_end, true)
      | None =>
          let emit := CompileOp op c bits in
          if is_branch op then ret ([emit; End], phys_pc_end, false)
          else if can_change_control_flow op then ret ([emit; EndUnreachable], phys_pc_end, false)
          else if (phys_pc_end .& 4095) =? 0 then ret ([emit; End], phys_pc_end, false)
          else ret ([emit], phys_pc_end, true)
      end
  end.

(** The loop; a block of a page has at most 2048 instructions. *)
Fixpoint translate_loop (fuel : nat) (prv phys_pc_end : Z) : M W (list Emit * Z) :=
  match fuel with
  | O => panic
  | S fuel =>
      let* (emits, phys_pc_end, continue) := translate_one prv phys_pc_end in
      if continue then
        let* (rest, phys_pc_end) := translate_loop fuel prv phys_pc_end in
        ret (emits ++ rest, phys_pc_end)
      else ret (emits, phys_pc_end)
  end.

Definition get_icache (i : nat) : M W ICache := fun m =>
  match icaches m !! i with Some ic => Ok ic m | None => Panic end.
Definition put_icache (i : nat) (ic : ICache) : M W unit :=
  modify (fun m => set_icaches (<[i := ic]> (icaches m)) m).
Definition expect {A} (o : option A) : M W A := match o with Some a => ret a | None => panic end.

Definition translate_code (prv phys_pc : Z) : M W (Z * Z) :=
  let* i := get own in
  let* ic := get_icache i in
  let roll := (space ic).2 <? 256 * 1024 in
  let ic := if roll then rollover ic else ic in
  let code := (space ic).1 in
  let* (emits, phys_pc_end) := translate_loop 2048 prv phys_pc in
  assert_ ((phys_pc .& Z.lnot 4095) =? (u64 (phys_pc_end - 1) .& Z.lnot 4095)) ;;
  let* func_len := get (fun m => code_len m phys_pc emits) in
  let* spec_len := get (fun m => speculative_len m phys_pc emits) in
  modify (write_code code phys_pc emits) ;;
  assert_ (func_len <=? 256 * 1024) ;;
  let nonspec_fn := code + spec_len in
  let* ic := expect (map_insert prv phys_pc (code, nonspec_fn) ic) in
  let* ic := expect (commit func_len ic) in
  put_icache i ic ;;
  ret (if roll then 0 else code, nonspec_fn).

(** [match f { Ok(v) => ok(v), Err(_) => err }] *)
Definition try_catch {A B} (f : M W A) (ok : A -> M W B) (err : M W B) : M W B := fun m =>
  match f m with
  | Ok a m => ok a m
  | Err m => err m
  | Panic => Panic
  | ProcessExit code => ProcessExit code
  end.

Definition find_block : M W (Z * Z) :=
  let* pc := getc pc in
  try_catch (insn_translate pc)
    (fun phys_pc =>
       let* i := get own in
       let* ic := get_icache i in
       let* prv := getc prv in
       let* map := expect (prv_map prv ic) in
       match map !! phys_pc with
       | Some v => ret v
       | None =>
           let* prot := get code_prot in
           (if bool_decide (phys_pc >> 12 ∈ prot) then ret tt
            else
              modify (set_code_prot (prot ∪ {[ phys_pc >> 12 ]})) ;;
              let* model := get model in
              let* n := get core_count in
              for_each (seq 0 n) (fun i => mod_shared i (protect_code model (phys_pc .& Z.lnot 4095)))) ;;
           translate_code prv phys_pc
       end)
    (trap ;; ret (helper_check_interrupt, helper_check_interrupt)).

End HartBlock.
