(* ===== verification/HartLogic.v ===== *)
(** A small program logic for the interpreter's monad: what a computation
    leaves behind when it returns and when it traps, invariants of
    computations, and the laws of the platform the harts run on. *)

From Stdlib Require Import ZArith Lia Bool List.
From stdpp Require Import base gmap list relations.
From S2P Require Import Prelude Mmu HartState Hart.
Local Open Scope Z_scope.
Local Open Scope rust_scope.

Section Post.
Context {W : Type}.

(** [f] run from [m] ends in [Q] if it returns and in [E] if it traps; a panic
    or a process exit ends the run. *)
Definition post {A} (f : M W A) (m : Machine W) (Q : A -> Machine W -> Prop)
    (E : Machine W -> Prop) : Prop :=
  match f m with
  | Ok a m' => Q a m'
  | Err m' => E m'
  | _ => True
  end.

(** [f] keeps the invariant [I], whether it returns or traps, and the values it
    returns satisfy [R]. *)
Definition triple {A} (I : Machine W -> Prop) (f : M W A) (R : A -> Prop) : Prop :=
  forall m, I m -> post f m (fun a m' => I m' /\ R a) I.

Lemma post_bind {A B} (f : M W A) (k : A -> M W B) m Q E :
  post f m (fun a m' => post (k a) m' Q E) E -> post (bind f k) m Q E.
Proof. unfold post, bind. destruct (f m); auto. Qed.

Lemma post_mono {A} (f : M W A) m (Q Q' : A -> Machine W -> Prop) (E E' : Machine W -> Prop) :
  post f m Q E -> (forall a m', Q a m' -> Q' a m') -> (forall m', E m' -> E' m') -> post f m Q' E'.
Proof. unfold post. destruct (f m); auto. Qed.

(** Running one computation after another, each outcome at a time. *)
Lemma bind_ok {A B} (f : M W A) (k : A -> M W B) m a m' : f m = Ok a m' -> bind f k m = k a m'.
Proof. unfold bind. intros ->. reflexivity. Qed.

Lemma bind_err {A B} (f : M W A) (k : A -> M W B) m m' : f m = Err m' -> bind f k m = Err m'.
Proof. unfold bind. intros ->. reflexivity. Qed.

Lemma bind_inv {A B} (f : M W A) (k : A -> M W B) m b m' :
  bind f k m = Ok b m' -> exists a m1, f m = Ok a m1 /\ k a m1 = Ok b m'.
Proof. unfold bind. destruct (f m); try discriminate. eauto. Qed.

(** An observation of the state a computation returns in. *)
Definition on_result {A B} (f : Machine W -> B) (r : Res W A) : option B :=
  match r with Ok _ m => Some (f m) | _ => None end.

Lemma on_result_some {A B} (f : Machine W -> B) (r : Res W A) b :
  on_result f r = Some b -> exists a m, r = Ok a m /\ f m = b.
Proof. destruct r; try discriminate. intros [= <-]. eauto. Qed.

Section Rules.
Context (I : Machine W -> Prop).

Lemma triple_bind {A B} (f : M W A) (k : A -> M W B) R S :
  triple I f R -> (forall a, R a -> triple I (k a) S) -> triple I (bind f k) S.
Proof.
  intros Hf Hk m Hm. apply post_bind. eapply post_mono; [apply Hf, Hm| |auto].
  intros a m' [Hm' HR]. apply Hk; assumption.
Qed.

Lemma triple_weaken {A} (f : M W A) (R S : A -> Prop) :
  triple I f R -> (forall a, R a -> S a) -> triple I f S.
Proof. intros Hf HS m Hm. eapply post_mono; [apply Hf, Hm|firstorder|auto]. Qed.

Lemma triple_ret {A} (a : A) (R : A -> Prop) : R a -> triple I (ret a) R.
Proof. intros H m Hm. split; assumption. Qed.

Lemma triple_fail {A} (R : A -> Prop) : triple I fail R.
Proof. intros m Hm. exact Hm. Qed.

Lemma triple_panic {A} (R : A -> Prop) : triple I panic R.
Proof. intros m Hm. exact Logic.I. Qed.

Lemma triple_assert b : triple I (assert_ b) (fun _ => b = true).
Proof. destruct b; [apply triple_ret; reflexivity|apply triple_panic]. Qed.

Lemma triple_when b f : (b = true -> triple I f (fun _ => True)) -> triple I (when b f) (fun _ => True).
Proof. destruct b; intros H; [apply H; reflexivity|apply triple_ret; exact Logic.I]. Qed.

Lemma triple_for_each {A} (l : list A) body :
  (forall a, triple I (body a) (fun _ => True)) -> triple I (for_each l body) (fun _ => True).
Proof.
  intros H. induction l as [|a l IH]; cbn [for_each]; [apply triple_ret; exact Logic.I|].
  eapply triple_bind; [apply H|]. intros _ _. exact IH.
Qed.

Lemma triple_get {A} (f : Machine W -> A) : triple I (get f) (fun a => exists m, I m /\ a = f m).
Proof. intros m Hm. split; [assumption|]. exists m. split; [assumption|reflexivity]. Qed.

Lemma triple_getc {A} (f : Context -> A) : triple I (getc f) (fun a => exists m, I m /\ a = f (ctx m)).
Proof. intros m Hm. split; [assumption|]. exists m. split; [assumption|reflexivity]. Qed.

Lemma triple_modify f : (forall m, I m -> I (f m)) -> triple I (modify f) (fun _ => True).
Proof. intros H m Hm. split; [apply H, Hm|exact Logic.I]. Qed.

Lemma triple_gets {A} (f : SharedContext -> A) :
  triple I (gets f) (fun a => exists m s, I m /\ shared m !! own m = Some s /\ a = f s).
Proof.
  intros m Hm. unfold post, gets. destruct (shared m !! own m) as [s|] eqn:E; [|exact Logic.I].
  split; [assumption|]. exists m, s. auto.
Qed.

End Rules.

(** ** Single steps *)

Lemma own_set_shared v (m : Machine W) : own (set_shared v m) = own m.
Proof. reflexivity. Qed.

Lemma gets_ok {A} (f : SharedContext -> A) (m : Machine W) s :
  shared m !! own m = Some s -> gets f m = Ok (f s) m.
Proof. unfold gets. intros ->. reflexivity. Qed.

Lemma mods_ok f (m : Machine W) s :
  shared m !! own m = Some s -> mods f m = Ok tt (set_shared (<[own m := f s]> (shared m)) m).
Proof. unfold mods, mod_shared. intros ->. reflexivity. Qed.

Lemma own_insert_lookup f (m : Machine W) s :
  shared m !! own m = Some s ->
  shared (set_shared (<[own m := f]> (shared m)) m) !! own (set_shared (<[own m := f]> (shared m)) m) = Some f.
Proof. intros H. cbn. apply list_lookup_insert_eq. eapply lookup_lt_Some, H. Qed.

End Post.

(** ** What other threads may do to a hart

    The methods of [SharedContext] are the only way other harts, the devices
    and the event loop reach the shared part of a hart. *)
Inductive remote : SharedContext -> SharedContext -> Prop :=
| remote_assert mask s : in_u 64 mask -> remote s (assert_int mask s)
| remote_deassert mask s : remote s (deassert_int mask s)
| remote_alarm mask s : in_u 64 mask -> remote s (fire_alarm mask s)
| remote_run_on task s : remote s (run_on task s)
| remote_clear s : remote s (clear_local_cache s)
| remote_iclear s : remote s (clear_local_icache s)
| remote_invalidate model addr s : remote s (invalidate_cache_physical model addr s)
| remote_iinvalidate model addr s : remote s (invalidate_icache_physical model addr s)
| remote_protect model page s : remote s (protect_code model page s).

(** A byte of guest memory. *)
Definition bytes (mem : Z -> Z) : Prop := forall a, in_u 8 (mem a).

(** A change made by code outside the running hart: the private context stays,
    the shared part of the hart changes by the methods above. *)
Record external {W} (m m' : Machine W) : Prop := {
  ext_ctx : ctx m' = ctx m;
  ext_model : model m' = model m;
  ext_len : length (shared m') = length (shared m);
  ext_shared : forall s, shared m !! own m = Some s ->
                 exists s', shared m' !! own m = Some s' /\ rtc remote s s';
  ext_bytes : bytes (mem m) -> bytes (mem m');
}.

(** The laws of the platform. *)
Class PlatformLaws (W : Type) {P : Platform W} : Prop := {
  io_read_external a n m : external m (io_read a n m).2;
  io_read_range a n m : 0 <= n -> in_u (8 * n) (io_read a n m).1;
  io_write_external a v n m : external m (io_write a v n m);
  clint_write_external a v n m : external m (clint_write a v n m);
  wfi_sleep_external m : external m (wfi_sleep m);
  fiber_sleep_external n m : external m (fiber_sleep n m);
  syscall_external nr args m :
    post (syscall nr args) m (fun v m' => in_u 64 v /\ external m m') (external m);
  time_range w : in_u 64 (time w);
  console_range w b w' : console_try_read w = (Some b, w') -> in_u 8 b;
}.
