(* ===== verification/HartInv.v ===== *)
(** The type invariant of the hart: every register and CSR holds a value of its
    type and in its legal set, [x0] has its value, the privilege level is one of the
    three the emulator knows, and the L0 caches have their 1024 entries. *)

From Stdlib Require Import ZArith Lia Bool List Btauto.
From stdpp Require Import base gmap list relations.
From S2P Require Import Prelude RiscvCsr RiscvOp RiscvEncode Mmu Softfp.
From S2P Require Import HartState Hart HartCsr HartStep HartStepExt HartTrap HartLogic.
Local Open Scope Z_scope.
Local Open Scope rust_scope.

(** The [u64] fields of [Context]. *)
Definition ctx_words (c : Context) : list Z :=
  [pc c; instret c; cause c; tval c; minstret c; lr_addr c; lr_value c; scause c; stval c;
   stvec c; sscratch c; sepc c; satp c; scounteren c; mideleg c; medeleg c; mcause c; mtval c;
   mstatus c; mie c; mtvec c; mscratch c; mepc c; mcounteren c; hartid c].

(** The legal values of the WARL fields: the interrupts that exist and can be
    delegated, the exceptions that can be delegated, the rounding modes. *)
Definition legal (c : Context) : Prop :=
  mideleg c .& 0x222 = mideleg c /\ mie c .& 0xAAA = mie c /\ medeleg c .& 0xB35D = medeleg c /\
  0 <= frm c <= 4.

Definition prv_ok (p : Z) : Prop := p = 0 \/ p = 1 \/ p = 3.

(** What [x0] holds.  Zero, unless the emulation of a misaligned load has written it: the
    invariant is proved for any value, so that it also says what leaves [x0] alone. *)
Class X0 : Type := x0_value : Z.
#[export] Instance x0_zero : X0 | 100 := 0.

Record wf_ctx {X : X0} (c : Context) : Prop := {
  wf_len : length (registers c) = 32%nat;
  wf_regs : Forall (in_u 64) (registers c);
  wf_x0 : registers c !! 0%nat = Some x0_value;
  wf_fp_len : length (fp_registers c) = 32%nat;
  wf_fp_regs : Forall (in_u 64) (fp_registers c);
  wf_words : Forall (in_u 64) (ctx_words c);
  wf_prv : prv_ok (prv c);
  wf_legal : legal c;
}.

Record wf_shared (s : SharedContext) : Prop := {
  wf_line : length (line s) = 1024%nat;
  wf_i_line : length (i_line s) = 1024%nat;
  wf_rm : 0 <= rm s <= 4;
  wf_fflags : in_u 5 (fflags s);
  wf_alarm : in_u 64 (alarm s);
  wf_mip : in_u 64 (mip s);
}.

Record wf {X : X0} {W} (m : Machine W) : Prop := {
  wf_context : wf_ctx (ctx m);
  wf_own : exists s, shared m !! own m = Some s /\ wf_shared s;
  wf_bytes : bytes (mem m);
}.

(** ** Ranges *)

Lemma in_u_le n x k : in_u n x -> 0 <= k <= n -> in_u n (x .& (2 ^ k - 1)).
Proof. intros H Hk. apply land_in_u_l; [lia|assumption]. Qed.

Lemma in_u_lit n x : (0 <=? x) && (x <? 2 ^ n) = true -> in_u n x.
Proof. unfold in_u. lia. Qed.

Lemma words_lit n l : forallb (fun x => (0 <=? x) && (x <? 2 ^ n)) l = true -> Forall (in_u n) l.
Proof.
  rewrite forallb_forall. intros H. apply List.Forall_forall. intros x Hx. apply in_u_lit, H, Hx.
Qed.

Lemma u64_range x : in_u 64 (u64 x).
Proof. apply wrap_range. lia. Qed.

Lemma u32_range x : in_u 64 (u32 x).
Proof. apply (in_u_mono 32); [lia|]. apply wrap_range. lia. Qed.

Lemma b2z_range b : in_u 64 (Z.b2z b).
Proof. destruct b; apply in_u_lit; reflexivity. Qed.

Lemma land_range_l x y : in_u 64 x -> in_u 64 (x .& y).
Proof. apply land_in_u_l. lia. Qed.

Lemma land_range_r x y : in_u 64 y -> in_u 64 (x .& y).
Proof. apply land_in_u_r. lia. Qed.

Lemma lor_range x y : in_u 64 x -> in_u 64 y -> in_u 64 (x .| y).
Proof. apply lor_in_u. lia. Qed.

Lemma lxor_range x y : in_u 64 x -> in_u 64 y -> in_u 64 (x .^ y).
Proof. apply lxor_in_u. lia. Qed.

Lemma land_nonneg_shift x k : in_u 64 x -> in_u 64 (x >> (k .& 63)).
Proof.
  intros H. apply shiftr_in_u; [|assumption]. change 63 with (2 ^ 6 - 1).
  rewrite land_mask by lia. apply Z.mod_pos_bound. lia.
Qed.

Lemma quot_range a b : in_u 64 a -> in_u 64 b -> in_u 64 (divu 64 a b).
Proof.
  unfold divu, in_u. intros Ha Hb. destruct (b =? 0) eqn:E; [apply u64_range|].
  split; [apply Z.div_pos; lia|]. apply (Z.le_lt_trans _ a); [|lia].
  apply Z.div_le_upper_bound; [lia|]. nia.
Qed.

Lemma remu_range a b : in_u 64 a -> in_u 64 b -> in_u 64 (remu a b).
Proof.
  unfold remu, in_u. intros Ha Hb. destruct (b =? 0) eqn:E; [assumption|].
  pose proof (Z.mod_pos_bound a b). lia.
Qed.

Lemma min_range a b : in_u 64 a -> in_u 64 b -> in_u 64 (Z.min a b).
Proof. unfold in_u. lia. Qed.

Lemma max_range a b : in_u 64 a -> in_u 64 b -> in_u 64 (Z.max a b).
Proof. unfold in_u. lia. Qed.

Lemma max_word : in_u 64 (2 ^ 64 - 1).
Proof. apply in_u_lit. reflexivity. Qed.

Create HintDb word discriminated.
#[export] Hint Resolve max_word u64_range u32_range b2z_range land_range_l land_range_r lor_range lxor_range
  land_nonneg_shift quot_range remu_range : word.
#[export] Hint Extern 1 (in_u 64 (Zpos _)) => (apply in_u_lit; reflexivity) : word.
#[export] Hint Extern 1 (in_u 64 0) => (apply in_u_lit; reflexivity) : word.

Lemma load_bytes_range mem n : bytes mem -> forall a, in_u (8 * Z.of_nat n) (load_bytes mem a n).
Proof.
  intros Hm. induction n as [|n IH]; intros a; cbn [load_bytes]; [apply in_u_lit; reflexivity|].
  specialize (IH (a + 1)). specialize (Hm a). unfold in_u in *.
  replace (8 * Z.of_nat (S n)) with (8 + 8 * Z.of_nat n) by lia.
  rewrite Z.pow_add_r by lia. change (2 ^ 8) with 256 in *. nia.
Qed.

Lemma store_bytes_bytes n : forall a v mem, bytes mem -> bytes (store_bytes a v n mem).
Proof.
  induction n as [|n IH]; intros a v mem Hm; cbn [store_bytes]; [assumption|].
  apply IH. intros b. unfold store_byte. destruct (b =? a); [|apply Hm].
  unfold in_u. change (2 ^ 8) with 256. apply Z.mod_pos_bound. lia.
Qed.

(** ** Remote updates *)

Lemma invalidate_physical_len model addr l : length (invalidate_physical model addr l) = length l.
Proof. apply length_imap. Qed.

Lemma remote_wf s s' : remote s s' -> wf_shared s -> wf_shared s'.
Proof.
  intros H [Hl Hi Hr Hf Ha Hm].
  destruct H; unfold assert_int, deassert_int, run_on, alert, fire_alarm, clear_local_cache,
    clear_local_icache, invalidate_cache_physical, invalidate_icache_physical, protect_code;
  try destruct (negb _); split; cbn;
    rewrite ?length_map, ?invalidate_physical_len; auto with word.
Qed.

Lemma remote_rtc_wf s s' : rtc remote s s' -> wf_shared s -> wf_shared s'.
Proof. induction 1; eauto using remote_wf. Qed.

Lemma external_wf {X : X0} {W} (m m' : Machine W) : external m m' -> wf m -> wf m'.
Proof.
  intros [Hc _ _ Hs Hb] [Wc (s & Es & Ws) Wb]. split.
  - rewrite Hc. assumption.
  - destruct (Hs s Es) as (s' & Es' & Hr). exists s'. unfold own. rewrite Hc.
    split; [assumption|]. eapply remote_rtc_wf; eassumption.
  - auto.
Qed.

(** ** Updates of the context *)

Section Updates.
Context {X : X0}.

Lemma wf_word k v c c' :
  registers c' = registers c -> fp_registers c' = fp_registers c -> prv c' = prv c ->
  ctx_words c' = <[k := v]> (ctx_words c) -> (legal c -> legal c') ->
  in_u 64 v -> wf_ctx c -> wf_ctx c'.
Proof.
  intros Hr Hf Hp Hw Hl Hv []. split; rewrite ?Hr, ?Hf, ?Hp, ?Hw; auto.
  apply Forall_insert; assumption.
Qed.

Ltac wf_word k :=
  intros;
  match goal with
  | |- wf_ctx (_ ?v ?c) =>
      apply (wf_word k v c); try reflexivity; try eassumption; try exact (fun H => H)
  end.

Lemma wf_set_pc v c : in_u 64 v -> wf_ctx c -> wf_ctx (set_pc v c).
Proof. wf_word 0%nat. Qed.
Lemma wf_set_instret v c : in_u 64 v -> wf_ctx c -> wf_ctx (set_instret v c).
Proof. wf_word 1%nat. Qed.
Lemma wf_set_cause v c : in_u 64 v -> wf_ctx c -> wf_ctx (set_cause v c).
Proof. wf_word 2%nat. Qed.
Lemma wf_set_tval v c : in_u 64 v -> wf_ctx c -> wf_ctx (set_tval v c).
Proof. wf_word 3%nat. Qed.
Lemma wf_set_minstret v c : in_u 64 v -> wf_ctx c -> wf_ctx (set_minstret v c).
Proof. wf_word 4%nat. Qed.
Lemma wf_set_lr_addr v c : in_u 64 v -> wf_ctx c -> wf_ctx (set_lr_addr v c).
Proof. wf_word 5%nat. Qed.
Lemma wf_set_lr_value v c : in_u 64 v -> wf_ctx c -> wf_ctx (set_lr_value v c).
Proof. wf_word 6%nat. Qed.
Lemma wf_set_scause v c : in_u 64 v -> wf_ctx c -> wf_ctx (set_scause v c).
Proof. wf_word 7%nat. Qed.
Lemma wf_set_stval v c : in_u 64 v -> wf_ctx c -> wf_ctx (set_stval v c).
Proof. wf_word 8%nat. Qed.
Lemma wf_set_stvec v c : in_u 64 v -> wf_ctx c -> wf_ctx (set_stvec v c).
Proof. wf_word 9%nat. Qed.
Lemma wf_set_sscratch v c : in_u 64 v -> wf_ctx c -> wf_ctx (set_sscratch v c).
Proof. wf_word 10%nat. Qed.
Lemma wf_set_sepc v c : in_u 64 v -> wf_ctx c -> wf_ctx (set_sepc v c).
Proof. wf_word 11%nat. Qed.
Lemma wf_set_satp v c : in_u 64 v -> wf_ctx c -> wf_ctx (set_satp v c).
Proof. wf_word 12%nat. Qed.
Lemma wf_set_scounteren v c : in_u 64 v -> wf_ctx c -> wf_ctx (set_scounteren v c).
Proof. wf_word 13%nat. Qed.
Lemma wf_set_mcause v c : in_u 64 v -> wf_ctx c -> wf_ctx (set_mcause v c).
Proof. wf_word 16%nat. Qed.
Lemma wf_set_mtval v c : in_u 64 v -> wf_ctx c -> wf_ctx (set_mtval v c).
Proof. wf_word 17%nat. Qed.
Lemma wf_set_mstatus v c : in_u 64 v -> wf_ctx c -> wf_ctx (set_mstatus v c).
Proof. wf_word 18%nat. Qed.
Lemma wf_set_mtvec v c : in_u 64 v -> wf_ctx c -> wf_ctx (set_mtvec v c).
Proof. wf_word 20%nat. Qed.
Lemma wf_set_mscratch v c : in_u 64 v -> wf_ctx c -> wf_ctx (set_mscratch v c).
Proof. wf_word 21%nat. Qed.
Lemma wf_set_mepc v c : in_u 64 v -> wf_ctx c -> wf_ctx (set_mepc v c).
Proof. wf_word 22%nat. Qed.
Lemma wf_set_mcounteren v c : in_u 64 v -> wf_ctx c -> wf_ctx (set_mcounteren v c).
Proof. wf_word 23%nat. Qed.

Lemma wf_set_cycle_offset v c : wf_ctx c -> wf_ctx (set_cycle_offset v c).
Proof. intros []. split; assumption. Qed.

Lemma wf_set_prv v c : prv_ok v -> wf_ctx c -> wf_ctx (set_prv v c).
Proof. intros Hv []. split; assumption. Qed.

Lemma wf_set_frm v c : 0 <= v <= 4 -> wf_ctx c -> wf_ctx (set_frm v c).
Proof. intros Hv [? ? ? ? ? ? ? (? & ? & ? & _)]. split; try assumption. unfold legal; cbn. auto. Qed.

Lemma masked_range v k : in_u 64 k -> v .& k = v -> in_u 64 v.
Proof. intros Hk <-. auto with word. Qed.

Lemma wf_set_mideleg v c : v .& 0x222 = v -> wf_ctx c -> wf_ctx (set_mideleg v c).
Proof.
  intros Hv. wf_word 14%nat; [|apply (masked_range v 0x222); auto with word].
  intros (? & ? & ? & ?). unfold legal; cbn. auto.
Qed.

Lemma wf_set_medeleg v c : v .& 0xB35D = v -> wf_ctx c -> wf_ctx (set_medeleg v c).
Proof.
  intros Hv. wf_word 15%nat; [|apply (masked_range v 0xB35D); auto with word].
  intros (? & ? & ? & ?). unfold legal; cbn. auto.
Qed.

Lemma wf_set_mie v c : v .& 0xAAA = v -> wf_ctx c -> wf_ctx (set_mie v c).
Proof.
  intros Hv. wf_word 19%nat; [|apply (masked_range v 0xAAA); auto with word].
  intros (? & ? & ? & ?). unfold legal; cbn. auto.
Qed.

Lemma wf_set_register i v c :
  (0 < i)%nat -> in_u 64 v -> wf_ctx c -> wf_ctx (set_registers (<[i := v]> (registers c)) c).
Proof.
  intros Hi Hv []. split; try assumption; cbn [registers set_registers].
  - rewrite length_insert. assumption.
  - apply Forall_insert; assumption.
  - rewrite list_lookup_insert_ne by lia. assumption.
Qed.

Lemma wf_set_fp_register i v c :
  in_u 64 v -> wf_ctx c -> wf_ctx (set_fp_registers (<[i := v]> (fp_registers c)) c).
Proof.
  intros Hv []. split; try assumption; cbn [fp_registers set_fp_registers].
  - rewrite length_insert. assumption.
  - apply Forall_insert; assumption.
Qed.

End Updates.

Create HintDb wf discriminated.
#[export] Hint Resolve wf_set_pc wf_set_instret wf_set_cause wf_set_tval wf_set_minstret wf_set_lr_addr
  wf_set_lr_value wf_set_scause wf_set_stval wf_set_stvec wf_set_sscratch wf_set_sepc
  wf_set_satp wf_set_scounteren wf_set_mcause wf_set_mtval wf_set_mstatus wf_set_mtvec
  wf_set_mscratch wf_set_mepc wf_set_mcounteren
  wf_set_cycle_offset wf_set_prv wf_set_frm wf_set_mideleg wf_set_medeleg wf_set_mie
  wf_set_register wf_set_fp_register : wf.
