(* ===== verification/HartWf.v ===== *)
(** Every instruction keeps the type invariant of [HartInv]. *)

From Stdlib Require Import ZArith Lia Bool List Btauto.
From stdpp Require Import base gmap list relations.
From S2P Require Import Prelude RiscvCsr RiscvOp RiscvDecode RiscvEncode RiscvDecodeProps Mmu.
From S2P Require Import Softfp SoftfpSpec SoftfpRound SoftfpRange.
From S2P Require Import HartState Hart HartCsr HartStep HartStepExt HartTrap HartLogic HartInv.
Local Open Scope Z_scope.
Local Open Scope rust_scope.

(** An operation the decoder produces, with its length. *)
Inductive decodes : Op.Op -> bool -> Prop :=
| decodes_full bits op : in_u 32 bits -> decode bits = Some op -> decodes op false
| decodes_compressed bits op : in_u 16 bits -> decode_compressed bits = Some op -> decodes op true.

Lemma decodes_ok op c : decodes op c -> op_ok op = true.
Proof.
  intros [bits o Hb H|bits o Hb H].
  - apply decode_faithful in H; [|assumption]. destruct o; try reflexivity; apply H.
  - pose proof (all_words_16 _ compressed_ok_all bits Hb) as Hc.
    unfold compressed_ok in Hc. destruct (bits .& 3 =? 3) eqn:E.
    + unfold decode_compressed in H. apply Z.eqb_eq in E. rewrite E in H. discriminate.
    + rewrite H in Hc. exact Hc.
Qed.

(** A word of the machine. *)
Notation word := (in_u 64).

Section Wf.
Context {X : X0} {W : Type} {P : Platform W} {Laws : PlatformLaws W}.
Local Open Scope interp_scope.

Local Notation ok f R := (triple (W := W) wf f R).
Local Notation done := (fun _ : unit => True).

(** ** State access *)

Lemma wf_set_ctx (m : Machine W) f :
  (forall c, wf_ctx c -> wf_ctx (f c)) -> (forall c, hartid (f c) = hartid c) ->
  wf m -> wf (set_ctx (f (ctx m)) m).
Proof.
  intros Hf Hh [Hc Ho Hb]. split; [apply Hf, Hc| |exact Hb].
  unfold own in *. cbn. rewrite Hh. exact Ho.
Qed.

Lemma modc_wf f :
  (forall c, hartid (f c) = hartid c) -> (forall c, wf_ctx c -> wf_ctx (f c)) -> ok (modc f) done.
Proof. intros Hh Hf m Hm. split; [apply wf_set_ctx; assumption|exact I]. Qed.

Lemma getc_wf {A} (f : Context -> A) : ok (getc f) (fun a => exists c, wf_ctx c /\ a = f c).
Proof.
  eapply triple_weaken; [apply triple_getc|]. intros a (m & Hm & ->).
  exists (ctx m). split; [apply Hm|reflexivity].
Qed.

Lemma gets_wf {A} (f : SharedContext -> A) : ok (gets f) (fun a => exists s, wf_shared s /\ a = f s).
Proof.
  eapply triple_weaken; [apply triple_gets|]. intros a (m & s & [_ (s' & E' & Hs) _] & E & ->).
  rewrite E in E'. injection E' as <-. eauto.
Qed.

Lemma mod_shared_wf i f : (forall s, wf_shared s -> wf_shared (f s)) -> ok (mod_shared i f) done.
Proof.
  intros Hf m [Hc (s & E & Hs) Hb]. unfold post, mod_shared.
  destruct (shared m !! i) as [si|] eqn:Ei; [|exact I]. split; [|exact I].
  split; [exact Hc| |exact Hb]. rewrite own_set_shared. cbn.
  destruct (decide (i = own m)) as [->|Hne].
  - rewrite E in Ei. injection Ei as <-. exists (f s). split; [|auto].
    apply list_lookup_insert_eq. eapply lookup_lt_Some, E.
  - exists s. rewrite list_lookup_insert_ne by assumption. auto.
Qed.

Lemma mods_wf f : (forall s, wf_shared s -> wf_shared (f s)) -> ok (mods f) done.
Proof. intros Hf m. apply mod_shared_wf, Hf. Qed.

Lemma get_wf {A} (f : Machine W -> A) : ok (get f) (fun a => exists m, wf m /\ a = f m).
Proof. apply triple_get. Qed.

Lemma set_world_wf w (m : Machine W) : wf m -> wf (set_world w m).
Proof. intros []. split; assumption. Qed.

Lemma trap_with_wf {A} cause tval (R : A -> Prop) : word cause -> word tval -> ok (trap_with cause tval) R.
Proof.
  intros Hc Ht. unfold trap_with.
  eapply triple_bind; [apply modc_wf; [reflexivity|auto with wf]|]. intros _ _.
  eapply triple_bind; [apply modc_wf; [reflexivity|auto with wf]|]. intros _ _. apply triple_fail.
Qed.

Lemma wf_word_of c k v : wf_ctx c -> ctx_words c !! k = Some v -> word v.
Proof. intros Hc. apply Forall_lookup_1, Hc. Qed.
End Wf.

(** The fields of a well-formed context and of its shared part are words. *)
Ltac word_at c H k :=
  lazymatch k with
  | 25%nat => fail
  | _ => first [exact (wf_word_of c k _ H eq_refl) | word_at c H (S k)]
  end.

Ltac field_word :=
  match goal with
  | H : wf_ctx ?c |- in_u 64 (_ ?c) => word_at c H 0%nat
  | H : wf_shared ?s |- in_u 64 (mip ?s) => apply (wf_mip s H)
  | H : wf_shared ?s |- in_u 64 (fflags ?s) => apply (in_u_mono 5); [lia|apply (wf_fflags s H)]
  end.
#[export] Hint Extern 1 (in_u 64 (_ _)) => field_word : word.

(** Apply the rule of a computation, from the head of a sequence on. *)
Create HintDb rules discriminated.

Ltac known :=
  repeat match goal with
  | H : exists _, _ |- _ => destruct H
  | H : _ /\ _ |- _ => destruct H
  | H : ?x = _ |- _ => is_var x; subst x
  | H : _ = ?x |- _ => is_var x; subst x
  end.

Ltac weaken tac :=
  first [ tac | eapply triple_weaken; [tac|intros; cbn beta in *; known] ].

Ltac rule :=
  lazymatch goal with
  | |- triple _ (bind _ _) _ => eapply triple_bind
  | |- forall _, _ -> triple _ _ _ => intros; cbn beta in *; known
  | |- triple _ (ret ?v) ?R => tryif is_evar R then apply (triple_ret _ v (eq v)); reflexivity else apply triple_ret
  | |- triple _ panic _ => apply triple_panic
  | |- triple _ fail _ => apply triple_fail
  | |- triple _ (assert_ _) _ => apply triple_assert
  | |- triple _ (when _ _) _ => apply triple_when; intros
  | |- triple _ (getc _) _ => weaken ltac:(apply getc_wf)
  | |- triple _ (gets _) _ => weaken ltac:(apply gets_wf)
  | |- triple _ (get _) _ => weaken ltac:(apply get_wf)
  | |- triple _ (modc _) _ => apply modc_wf; [reflexivity|intros; auto with wf word]
  | |- triple _ (mods _) _ => apply mods_wf
  | |- triple _ (mod_shared _ _) _ => apply mod_shared_wf
  | |- triple _ (for_each _ _) _ => apply triple_for_each; intros
  | |- triple _ (trap_with _ _) _ => apply trap_with_wf; auto with word
  | |- triple _ (if ?b then _ else _) _ => let E := fresh "E" in destruct b eqn:E
  | |- triple _ (match ?x with _ => _ end) _ => let E := fresh "E" in destruct x eqn:E
  | |- triple _ (let '(_, _) := ?x in _) _ => destruct x
  | |- triple _ _ _ => weaken ltac:(solve [eauto with rules word nocore])
  end.

Ltac rules := repeat (cbn beta zeta; rule); cbn beta; auto with word; eauto.

Section Operations.
Context {X : X0} {W : Type} {P : Platform W} {Laws : PlatformLaws W}.
Local Open Scope interp_scope.

Local Notation ok f R := (triple (W := W) wf f R).
Local Notation done := (fun _ : unit => True).

(** ** [Context] and [SharedContext] *)

Lemma remote_keeps f : (forall s, remote s (f s)) -> forall s, wf_shared s -> wf_shared (f s).
Proof. intros H s. apply remote_wf, H. Qed.

Lemma test_and_set_fs_wf : ok test_and_set_fs done.
Proof. unfold test_and_set_fs. rules. Qed.

Lemma test_counter_wf id : ok (test_counter id) done.
Proof. unfold test_counter. rules. Qed.

Lemma interrupt_pending_word c k : in_u 64 k -> in_u 64 (interrupt_pending c k).
Proof.
  intros H. unfold interrupt_pending. cbn beta zeta.
  destruct (_ || _), (_ || _); auto with word.
Qed.

Lemma get_interrupt_pending_wf : ok get_interrupt_pending word.
Proof. unfold get_interrupt_pending. rules. apply interrupt_pending_word. auto with word. Qed.

Lemma get_mcycle_wf : ok get_mcycle word.
Proof. unfold get_mcycle. rules. Qed.

Lemma fire_alarm_keeps k : in_u 64 k -> forall s, wf_shared s -> wf_shared (fire_alarm k s).
Proof. intros Hk. apply remote_keeps. intros s. constructor. exact Hk. Qed.

Lemma recheck_interrupt_wf : ok recheck_interrupt done.
Proof.
  unfold recheck_interrupt. rules; apply fire_alarm_keeps; auto with word.
Qed.

Lemma alert_if_pending_wf : ok alert_if_pending done.
Proof.
  unfold alert_if_pending. eapply triple_bind; [apply get_interrupt_pending_wf|]. intros p _.
  rules. apply fire_alarm_keeps; auto with word.
Qed.

Lemma clear_local_caches_wf : ok clear_local_caches done.
Proof.
  unfold clear_local_caches. rules; apply remote_keeps; constructor.
Qed.

Lemma shutdown_wf reason : ok (shutdown reason) done.
Proof.
  unfold shutdown. eapply triple_bind; [apply triple_modify; intros; apply set_world_wf; assumption|].
  intros _ _. rules. apply fire_alarm_keeps; auto with word.
Qed.

#[local] Hint Resolve test_and_set_fs_wf test_counter_wf get_interrupt_pending_wf get_mcycle_wf
  recheck_interrupt_wf alert_if_pending_wf clear_local_caches_wf shutdown_wf : rules.

(** ** Memory and translation *)

Lemma modify_external f : (forall m, external m (f m)) -> ok (modify f) done.
Proof. intros H. apply triple_modify. intros m. apply external_wf, H. Qed.

Lemma load_wf n addr : ok (load n addr) (in_u (8 * Z.of_nat n)).
Proof.
  unfold load. destruct (addr <? io_boundary).
  - intros m Hm. unfold post. pose proof (io_read_external addr (Z.of_nat n) m) as He.
    pose proof (io_read_range addr (Z.of_nat n) m ltac:(lia)) as Hr.
    destruct (io_read addr (Z.of_nat n) m) as [v m']. split; [|exact Hr].
    eapply external_wf; eassumption.
  - eapply triple_weaken; [apply triple_get|]. intros v (m & Hm & ->). apply load_bytes_range, Hm.
Qed.

Lemma set_mem_wf mem (m : Machine W) : bytes mem -> wf m -> wf (set_mem mem m).
Proof. intros Hb []. split; assumption. Qed.

Lemma store_wf n addr v : ok (store n addr v) done.
Proof.
  unfold store. destruct (addr <? io_boundary).
  - apply modify_external. intros m. apply io_write_external.
  - apply triple_modify. intros m Hm. apply set_mem_wf; [|assumption]. apply store_bytes_bytes, Hm.
Qed.

Lemma read_memory_wf n addr : ok (read_memory n addr) (in_u (8 * Z.of_nat n)).
Proof. unfold read_memory. rules. apply load_bytes_range. apply H. Qed.

#[local] Hint Resolve load_wf store_wf read_memory_wf : rules.

Lemma fetch_update_wf n addr f : ok (fetch_update n addr f) (in_u (8 * Z.of_nat n)).
Proof. unfold fetch_update. rules. Qed.

Lemma compare_exchange_wf n addr cur new : ok (compare_exchange n addr cur new) (fun _ => True).
Proof. unfold compare_exchange. rules. Qed.

Lemma translate_vaddr_wf addr access : word addr -> ok (translate_vaddr addr access) word.
Proof.
  intros Ha. unfold translate_vaddr. rules. unfold fault_cause. destruct access; auto with word.
Qed.

Lemma set_line_keeps i l s : wf_shared s -> wf_shared (set_line (<[i := l]> (line s)) s).
Proof. intros []. split; cbn; rewrite ?length_insert; assumption. Qed.

Lemma set_i_line_keeps i l s : wf_shared s -> wf_shared (set_i_line (<[i := l]> (i_line s)) s).
Proof. intros []. split; cbn; rewrite ?length_insert; assumption. Qed.

Lemma insert_instruction_cache_line_wf v p : ok (insert_instruction_cache_line v p) done.
Proof. unfold insert_instruction_cache_line. rules. intros. apply set_i_line_keeps. assumption. Qed.

Lemma insert_data_cache_line_wf v p w : ok (insert_data_cache_line v p w) done.
Proof. unfold insert_data_cache_line. rules; intros; apply set_line_keeps; assumption. Qed.

#[local] Hint Resolve fetch_update_wf compare_exchange_wf translate_vaddr_wf
  insert_instruction_cache_line_wf insert_data_cache_line_wf : rules.

Lemma instruction_access_wf addr : word addr -> ok (instruction_access addr) word.
Proof. intros. unfold instruction_access. rules. Qed.

Lemma data_access_wf addr w : word addr -> ok (data_access addr w) word.
Proof. intros. unfold data_access. rules. Qed.

Lemma icache_invalidate_wf a b : ok (icache_invalidate a b) done.
Proof.
  unfold icache_invalidate. eapply triple_bind; [apply get_wf|]. intros prot _.
  eapply triple_bind; [apply triple_modify; intros m []; split; assumption|]. intros _ _.
  rules. apply remote_keeps. constructor.
Qed.

#[local] Hint Resolve instruction_access_wf data_access_wf icache_invalidate_wf : rules.

Lemma translate_cache_miss_wf addr w : word addr -> ok (translate_cache_miss addr w) word.
Proof. intros. unfold translate_cache_miss. rules. Qed.

#[local] Hint Resolve translate_cache_miss_wf : rules.

Lemma any {A} (f : M W A) R : ok f R -> ok f (fun _ => True).
Proof. intros H. eapply triple_weaken; [exact H|auto]. Qed.

Lemma translate_read_wf addr : word addr -> ok (translate_read addr) (fun _ => True).
Proof.
  intros. unfold translate_read. rules.
Qed.

Lemma translate_write_wf addr : word addr -> ok (translate_write addr) (fun _ => True).
Proof.
  intros. unfold translate_write. rules.
Qed.

Lemma bump_minstret_wf : ok bump_minstret done.
Proof. unfold bump_minstret. rules. Qed.

#[local] Hint Resolve translate_read_wf translate_write_wf bump_minstret_wf : rules.

Lemma read_vaddr_wf n addr : word addr -> ok (read_vaddr n addr) (in_u (8 * Z.of_nat n)).
Proof. intros. unfold read_vaddr. rules. Qed.

Lemma ptr_vaddr_x_wf addr : word addr -> ok (ptr_vaddr_x addr) (fun _ => True).
Proof. intros. unfold ptr_vaddr_x. rules. Qed.

#[local] Hint Resolve read_vaddr_wf ptr_vaddr_x_wf : rules.

(** ** CSRs *)

Lemma status_view_word v : word v -> word (status_view v).
Proof. intros H. unfold status_view. destruct (_ =? _); auto with word. Qed.

Lemma frm_word c : wf_ctx c -> word (frm c).
Proof. intros Hc. pose proof (wf_legal _ Hc) as (_ & _ & _ & H). unfold in_u. lia. Qed.

Local Hint Resolve status_view_word frm_word time_range : word.

Lemma read_csr_wf csr : ok (read_csr csr) word.
Proof. unfold read_csr. rules. Qed.

(** The delegated part of [mie] is replaced, inside the interrupts that exist. *)
Lemma sie_legal e d v : d .& 0x222 = d -> e .& 0xAAA = e ->
  ((e .& Z.lnot d) .| (v .& d)) .& 0xAAA = (e .& Z.lnot d) .| (v .& d).
Proof.
  intros Hd He.
  assert (Hd' : d .& 0xAAA = d) by (rewrite <- Hd, <- Z.land_assoc; reflexivity).
  rewrite Z.land_lor_distr_l. f_equal.
  - rewrite <- Z.land_assoc, (Z.land_comm (Z.lnot d)), Z.land_assoc, He. reflexivity.
  - rewrite <- Z.land_assoc, Hd'. reflexivity.
Qed.

Lemma land_idem v k : (v .& k) .& k = v .& k.
Proof. rewrite <- Z.land_assoc, Z.land_diag. reflexivity. Qed.

Lemma fcsr_flags_keeps v s : wf_shared s -> wf_shared (set_fflags (v .& 31) s).
Proof.
  intros []. split; cbn; try assumption. apply land_in_u_r; [lia|]. apply in_u_lit. reflexivity.
Qed.

Lemma frm_legal v : 0 <= Z.min (v .& 7) 4 <= 4.
Proof. pose proof (land_in_u_r 3 v 7 ltac:(lia) (in_u_lit 3 7 eq_refl)). unfold in_u in *. lia. Qed.

Lemma assert_int_keeps k : in_u 64 k -> forall s, wf_shared s -> wf_shared (assert_int k s).
Proof. intros Hk. apply remote_keeps. intros s. constructor. exact Hk. Qed.

Lemma deassert_int_keeps k : forall s, wf_shared s -> wf_shared (deassert_int k s).
Proof. apply remote_keeps. intros s. constructor. Qed.

Lemma write_status_wf w f v : word w -> word v -> ok (write_status w f v) done.
Proof. intros. unfold write_status. rules. Qed.

Lemma status_masks : word SSTATUS_MASK /\ word MSTATUS_MASK.
Proof. split; apply in_u_lit; reflexivity. Qed.

Local Hint Extern 1 (in_u 64 SSTATUS_MASK) => apply status_masks : word.
Local Hint Extern 1 (in_u 64 MSTATUS_MASK) => apply status_masks : word.
#[local] Hint Resolve read_csr_wf : rules.
#[local] Hint Extern 1 (triple _ (write_status _ _ _) _) => (apply write_status_wf; auto with word) : rules.
#[local] Hint Resolve fcsr_flags_keeps frm_legal assert_int_keeps deassert_int_keeps land_idem : wf.

Lemma write_csr_wf csr v : word v -> ok (write_csr csr v) done.
Proof.
  intros Hv. unfold write_csr. rules; auto with wf word.
  pose proof (wf_legal _ H) as (? & ? & _ & _).
  apply wf_set_mie; [apply sie_legal; assumption|assumption].
Qed.

#[local] Hint Resolve write_csr_wf : rules.

(** ** Registers *)

Lemma read_reg_wf rs : ok (read_reg rs) word.
Proof.
  unfold read_reg. rules. eapply Forall_lookup_1; [|eassumption]. apply wf_regs. assumption.
Qed.

Lemma read_fd_wf rs : ok (read_fd rs) word.
Proof.
  unfold read_fd. rules. eapply Forall_lookup_1; [|eassumption]. apply wf_fp_regs. assumption.
Qed.

Lemma write_reg_wf rd v : reg_ok rd = true -> word v -> ok (write_reg rd v) done.
Proof.
  intros Hr Hv. apply reg_ok_in_u in Hr. unfold in_u in Hr. unfold write_reg.
  eapply triple_bind; [apply triple_assert|]. intros _ _. rule.
  apply modc_wf; [reflexivity|]. intros c Hc. apply wf_set_register; [|assumption..].
  destruct (rd =? 0) eqn:E; [discriminate|]. lia.
Qed.

Lemma write_fd_wf rd v : word v -> ok (write_fd rd v) done.
Proof. intros Hv. unfold write_fd. rules. Qed.

#[local] Hint Resolve read_reg_wf read_fd_wf write_reg_wf write_fd_wf : rules.

Lemma read_32_wf rs : ok (read_32 rs) (in_u 32).
Proof. unfold read_32. rules. apply wrap_range. lia. Qed.

Lemma read_fs_wf rs : ok (read_fs rs) (in_u 32).
Proof. unfold read_fs. rules. apply wrap_range. lia. Qed.

Lemma write_32_wf rd v : reg_ok rd = true -> ok (write_32 rd v) done.
Proof. intros. apply write_reg_wf; auto with word. Qed.

Lemma write_fs_wf rd v : word v -> ok (write_fs rd v) done.
Proof. intros. apply write_fd_wf. auto with word. Qed.

Lemma reg_offset_wf rs imm : ok (reg_offset rs imm) word.
Proof. unfold reg_offset. rules. Qed.

Lemma pc_pre_wf c : ok (pc_pre c) word.
Proof. unfold pc_pre. rules. Qed.

#[local] Hint Resolve read_32_wf read_fs_wf write_32_wf write_fs_wf reg_offset_wf pc_pre_wf : rules.

(** ** Instructions *)

Lemma unary_op_wf rd rs1 f :
  reg_ok rd = true -> (forall a, word a -> word (f a)) -> ok (unary_op rd rs1 f) done.
Proof. intros. unfold unary_op. rules. Qed.

Lemma binary_op_wf rd rs1 rs2 f :
  reg_ok rd = true -> (forall a b, word a -> word b -> word (f a b)) -> ok (binary_op rd rs1 rs2 f) done.
Proof. intros. unfold binary_op. rules. Qed.

Lemma load_op_wf n k ext rd rs1 imm :
  reg_ok rd = true -> (forall v, in_u (8 * Z.of_nat n) v -> word (ext v)) ->
  ok (load_op n k ext rd rs1 imm) done.
Proof. intros. unfold load_op. rules. Qed.

Lemma store_op_wf n k rs1 rs2 imm : ok (store_op n k rs1 rs2 imm) done.
Proof. unfold store_op. rules. Qed.

Lemma branch_op_wf c rs1 rs2 imm cond : ok (branch_op c rs1 rs2 imm cond) done.
Proof. unfold branch_op. rules. Qed.

Lemma narrow n v : in_u (8 * Z.of_nat n) v -> (n <= 8)%nat -> word v.
Proof. intros H Hn. apply (in_u_mono (8 * Z.of_nat n)); [lia|assumption]. Qed.

(** *** Fences and environment calls *)

Lemma for_harts_wf mask f : (forall s, remote s (f s)) -> ok (for_harts mask f) done.
Proof. intros H. unfold for_harts. rules. apply remote_keeps, H. Qed.

Lemma global_sfence_wf mask asid vpn : ok (global_sfence mask asid vpn) done.
Proof.
  unfold global_sfence, before_sfence_vma, for_harts. rules.
  intros s Hs. apply (remote_wf (clear_local_cache s)); [constructor|].
  apply (remote_wf s); [constructor|assumption].
Qed.

Lemma unwrap_wf {A} (f : M W A) R : ok f R -> ok (unwrap f) R.
Proof. intros H m Hm. specialize (H m Hm). unfold post, unwrap in *. destruct (f m); auto. Qed.

Lemma read_hart_mask_wf addr : word addr -> ok (read_hart_mask addr) word.
Proof.
  intros. unfold read_hart_mask. eapply triple_bind; [apply unwrap_wf, translate_vaddr_wf; assumption|].
  intros. apply (read_memory_wf 8).
Qed.

#[local] Hint Resolve for_harts_wf global_sfence_wf read_hart_mask_wf : rules.

Lemma remote_mask_wf addr : word addr -> ok (remote_mask addr) word.
Proof. intros. unfold remote_mask. rules. Qed.

#[local] Hint Resolve remote_mask_wf : rules.

Lemma modify_world_wf w : ok (modify (set_world w)) done.
Proof. apply triple_modify. intros m. apply set_world_wf. Qed.

Lemma modify_clint_wf a v n : ok (modify (clint_write a v n)) done.
Proof. apply modify_external. intros m. apply clint_write_external. Qed.

#[local] Hint Resolve modify_world_wf modify_clint_wf : rules.

Lemma sbi_call_wf nr a0 a1 a2 a3 : word a0 -> ok (sbi_call nr a0 a1 a2 a3) word.
Proof.
  intros H0. unfold sbi_call, before_fence_i.
  rules; try (apply for_harts_wf; intros; constructor; auto with word); auto with wf.
  match goal with E : console_try_read _ = (?o, _) |- _ => destruct o; [|auto with word] end.
  apply (in_u_mono 8); [lia|]. eapply console_range. eassumption.
Qed.

Lemma syscall_wf nr args : ok (syscall nr args) word.
Proof.
  intros m Hm. eapply post_mono; [apply syscall_external| |].
  - intros v m' [Hv He]. split; [eapply external_wf; eassumption|assumption].
  - intros m' He. eapply external_wf; eassumption.
Qed.

#[local] Hint Resolve sbi_call_wf syscall_wf : rules.

Lemma set_a0_wf v : word v -> ok (set_a0 v) done.
Proof.
  intros Hv. apply modc_wf; [reflexivity|]. intros c Hc. apply wf_set_register; [lia|assumption..].
Qed.

#[local] Hint Resolve set_a0_wf : rules.

Lemma ecall_wf : ok ecall done.
Proof. unfold ecall, ecall_user, ecall_sbi. rules. Qed.

Lemma csr_swap_wf rd csr v : reg_ok rd = true -> ok v word -> ok (csr_swap rd csr v) done.
Proof.
  intros Hr Hv. unfold csr_swap.
  eapply (triple_bind _ _ _ word); [rules|]. intros.
  eapply triple_bind; [exact Hv|]. rules.
Qed.

Lemma csr_update_wf rd csr b v :
  reg_ok rd = true -> (forall r, word r -> ok (v r) word) -> ok (csr_update rd csr b v) done.
Proof.
  intros Hr Hv. unfold csr_update. eapply triple_bind; [apply read_csr_wf|]. intros r Hw.
  eapply triple_bind; [apply triple_when; intros; eapply triple_bind; [apply Hv, Hw|]; rules|]. rules.
Qed.

Lemma imm_word r : reg_ok r = true -> word r.
Proof. intros H. apply (in_u_mono 5); [lia|]. apply reg_ok_in_u, H. Qed.

(** *** Groups of instructions *)

Ltac operands :=
  repeat match goal with
  | H : _ && _ = true |- _ => apply andb_prop in H as [? ?]
  end.

Ltac group :=
  let op := fresh "op" in let f := fresh "f" in
  intros op f Hop Hf; destruct op;
  cbn [step_load step_op_imm step_store step_op step_branch step_system step_f step_f_fma step_d step_d_fma
    step_m step_a step_a_minmax step_privileged] in Hf;
  lazymatch type of Hf with
  | None = _ => discriminate Hf
  | _ => apply some_inj in Hf; subst f
  end; cbn [op_ok] in Hop; operands.

Lemma step_load_wf : forall op f, op_ok op = true -> step_load op = Some f -> ok f done.
Proof.
  group; [apply trap_with_wf; auto with word|..];
  (apply load_op_wf; [assumption|]; intros v Hv;
   first [solve [auto with word] | eapply narrow; [eassumption|lia]]).
Qed.

Lemma step_op_imm_wf : forall op f, op_ok op = true -> step_op_imm op = Some f -> ok f done.
Proof.
  group;
  try (apply unary_op_wf; [assumption|]; intros a Ha; auto with word); unfold before_fence_i; rules.
  apply remote_keeps. constructor.
Qed.

Lemma step_store_wf : forall op f, op_ok op = true -> step_store op = Some f -> ok f done.
Proof. group; apply store_op_wf. Qed.

Lemma step_op_wf c : forall op f, op_ok op = true -> step_op op c = Some f -> ok f done.
Proof.
  group; try (apply binary_op_wf; [assumption|]; intros a b Ha Hb; auto with word); rules.
Qed.

Lemma step_branch_wf c : forall op f, op_ok op = true -> step_branch op c = Some f -> ok f done.
Proof. group; try apply branch_op_wf; rules. Qed.

Lemma step_system_wf : forall op f, op_ok op = true -> step_system op = Some f -> ok f done.
Proof.
  group; try apply ecall_wf; try (apply trap_with_wf; auto with word);
  first [apply csr_swap_wf | apply csr_update_wf]; try assumption; intros; rules;
  auto using imm_word with word.
Qed.

Lemma mulhsu_word a b : word (mulhsu a b).
Proof. unfold mulhsu. cbn beta zeta. destruct (_ <? 0); auto with word. Qed.

Local Hint Resolve mulhsu_word : word.

Lemma step_m_wf : forall op f, op_ok op = true -> step_m op = Some f -> ok f done.
Proof. group; apply binary_op_wf; try assumption; intros a b Ha Hb; auto with word. Qed.

Lemma load_reserved_wf n k ext rd rs1 :
  reg_ok rd = true -> (forall v, in_u (8 * Z.of_nat n) v -> word (ext v)) ->
  ok (load_reserved n k ext rd rs1) done.
Proof. intros. unfold load_reserved. rules. Qed.

Lemma sc_result_wf n trunc addr src : word addr -> ok (sc_result n trunc addr src) word.
Proof. intros. unfold sc_result. rules. Qed.

#[local] Hint Resolve sc_result_wf : rules.

Lemma store_conditional_wf n k trunc rd rs1 rs2 :
  reg_ok rd = true -> ok (store_conditional n k trunc rd rs1 rs2) done.
Proof. intros Hr. unfold store_conditional. rules. Qed.

Lemma amo_w_wf f rd rs1 rs2 : reg_ok rd = true -> ok (amo_w f rd rs1 rs2) done.
Proof. intros. unfold amo_w. rules. Qed.

Lemma amo_d_wf f rd rs1 rs2 : reg_ok rd = true -> ok (amo_d f rd rs1 rs2) done.
Proof. intros. unfold amo_d. rules. Qed.

Lemma step_a_wf : forall op f, op_ok op = true -> step_a op = Some f -> ok f done.
Proof.
  group; try (apply amo_w_wf; assumption); try (apply amo_d_wf; assumption);
  try (apply store_conditional_wf; assumption);
  (apply load_reserved_wf; [assumption|]; intros v Hv;
   first [solve [auto with word] | eapply narrow; [eassumption|lia]]).
Qed.

(** *** Floating point *)

Lemma fp_run_wf {A} (f : FpM A) R : fp_ok f R -> ok (fp_run f) R.
Proof.
  intros Hf. unfold fp_run.
  eapply triple_bind; [apply gets_wf|]. intros md _.
  eapply triple_bind; [apply gets_wf|]. intros fl (s & Hs & ->).
  destruct (rm_try_from md) as [r|]; [|apply triple_panic].
  specialize (Hf r (fflags s) (wf_fflags _ Hs)).
  destruct (f r (fflags s)) as [[a fl']|]; [|apply triple_panic].
  eapply triple_bind; [apply mods_wf; intros s' []; split; cbn; tauto|].
  intros _ _. apply triple_ret, Hf.
Qed.

Lemma use_rm_wf r : 0 <= r -> ok (use_rm r) done.
Proof.
  intros Hr. unfold use_rm. eapply triple_bind; [apply test_and_set_fs_wf|]. intros _ _.
  eapply (triple_bind _ _ _ (fun r => 0 <= r)).
  - destruct (r =? 7); rules. pose proof (wf_legal _ H) as (_ & _ & _ & ?). lia.
  - intros r' Hr'. eapply triple_bind; [apply triple_assert|]. intros u Hle. cbn beta in Hle.
    apply mods_wf. intros s []. split; cbn; try assumption. lia.
Qed.

Section Fp.
Context (mode : M W unit) (Hmode : ok mode done).
Context (read : Z -> M W Z) (V : Z -> Prop) (Hread : forall rs, ok (read rs) V).
Context (write : Z -> Z -> M W unit) (rd : Z) (U : Z -> Prop) (Hwrite : forall v, U v -> ok (write rd v) done).

Lemma fp_unary_wf f rs1 : (forall a, V a -> ok (f a) U) -> ok (fp_unary mode read write f rd rs1) done.
Proof.
  intros Hf. unfold fp_unary. eapply triple_bind; [exact Hmode|]. intros _ _.
  eapply triple_bind; [apply Hread|]. intros a Ha.
  eapply triple_bind; [apply Hf, Ha|]. intros v Hv. apply Hwrite, Hv.
Qed.

Lemma fp_binary_wf f rs1 rs2 :
  (forall a b, V a -> V b -> ok (f a b) U) -> ok (fp_binary mode read write f rd rs1 rs2) done.
Proof.
  intros Hf. unfold fp_binary. eapply triple_bind; [exact Hmode|]. intros _ _.
  eapply triple_bind; [apply Hread|]. intros a Ha.
  eapply triple_bind; [apply Hread|]. intros b Hb.
  eapply triple_bind; [apply Hf; assumption|]. intros v Hv. apply Hwrite, Hv.
Qed.

Lemma fp_ternary_wf f rs1 rs2 rs3 :
  (forall a b c, V a -> V b -> V c -> ok (f a b c) U) ->
  ok (fp_ternary mode read write f rd rs1 rs2 rs3) done.
Proof.
  intros Hf. unfold fp_ternary. eapply triple_bind; [exact Hmode|]. intros _ _.
  eapply triple_bind; [apply Hread|]. intros a Ha.
  eapply triple_bind; [apply Hread|]. intros b Hb.
  eapply triple_bind; [apply Hread|]. intros c Hc.
  eapply triple_bind; [apply Hf; assumption|]. intros v Hv. apply Hwrite, Hv.
Qed.
End Fp.

Lemma fp_load_wf n k (write : Z -> Z -> M W unit) frd rs1 imm :
  (forall v, in_u (8 * Z.of_nat n) v -> ok (write frd v) done) ->
  ok (fp_load n k write frd rs1 imm) done.
Proof. intros Hw. unfold fp_load. rules. Qed.

Lemma fp_store_wf n k read rs1 frs2 imm V :
  (forall r, ok (read r) V) -> ok (fp_store n k read rs1 frs2 imm) done.
Proof. intros Hr. unfold fp_store. rules. Qed.

Lemma use_rm_ok r : rm_ok r = true -> ok (use_rm r) done.
Proof. intros H. apply use_rm_wf. apply rm_ok_in_u in H. unfold in_u in H. lia. Qed.

Lemma single_word v : in_u 32 v -> word v.
Proof. apply in_u_mono. lia. Qed.

Lemma class_bit_wf {Desc : FpDesc} {DL : FpDescLaws Desc} a : ok (class_bit Fp.classify a) word.
Proof.
  unfold class_bit. eapply triple_bind; [apply fp_run_wf, classify_ok|]. intros c _. apply triple_ret.
  destruct c; apply in_u_lit; reflexivity.
Qed.

Lemma truth_wf (f : Z -> Z -> FpM bool) a b R : fp_ok (f a b) R -> ok (truth f a b) word.
Proof.
  intros H. unfold truth. eapply triple_bind; [apply fp_run_wf, H|]. intros r _. apply triple_ret, b2z_range.
Qed.

Lemma negated_wf (Desc : FpDesc) {DL : FpDescLaws Desc} f :
  ok f (fp_value (Desc := Desc)) -> ok (negated Desc f) (fp_value (Desc := Desc)).
Proof.
  intros H. unfold negated. eapply triple_bind; [exact H|]. intros r Hr. apply triple_ret, negate_value, Hr.
Qed.

Lemma write_fs_wf' rd v : fp_value (Desc := F32Desc) v -> ok (write_fs rd v) done.
Proof. intros H. apply write_fs_wf, single_word, H. Qed.

Lemma write_fd_wf' rd v : fp_value (Desc := F64Desc) v -> ok (write_fd rd v) done.
Proof. apply write_fd_wf. Qed.

Ltac fp_result :=
  unfold run1, run2, run3, pure1, pure2;
  lazymatch goal with
  | |- triple _ (ret _) _ =>
      apply triple_ret;
      first [exact Logic.I | assumption | apply b2z_range | apply u32_range | apply (set_sign_value (Desc := F32Desc)); assumption
            | apply (set_sign_value (Desc := F64Desc)); assumption]
  | |- triple _ (class_bit _ _) _ => apply class_bit_wf
  | |- triple _ (truth _ _ _) _ => eapply truth_wf; first [apply fp_lt_ok | apply fp_le_ok]
  | |- triple _ (negated _ _) _ => apply negated_wf; [apply _|fp_result]
  | |- triple _ (fp_run _) _ =>
      apply fp_run_wf;
      first
        [ apply add_ok | apply sub_ok | apply multiply_ok | apply divide_ok | apply square_root_ok
        | apply min_ok | apply max_ok | apply fused_multiply_add_ok | apply convert_from_uint_ok
        | apply convert_from_sint_ok | apply convert_format_ok
        | apply convert_to_uint_range; lia | apply convert_to_sint_range; lia
        | eapply fp_ok_any, convert_to_uint_range; lia | eapply fp_ok_any, convert_to_sint_range; lia ];
      try apply _; try apply negate_value; assumption
  end.

Ltac fp_case :=
  first [eapply fp_unary_wf | eapply fp_binary_wf | eapply fp_ternary_wf];
  [ first [apply test_and_set_fs_wf | apply use_rm_ok; assumption]
  | intros;
    lazymatch goal with
    | |- triple _ (read_fs _) _ => apply read_fs_wf
    | |- triple _ (read_fd _) _ => apply read_fd_wf
    | |- triple _ (read_32 _) _ => apply read_32_wf
    | |- triple _ (read_reg _) _ => apply read_reg_wf
    end
  | intros v Hv; revert v Hv;
    lazymatch goal with
    | |- forall v, _ -> triple _ (write_fs ?rd v) _ => exact (write_fs_wf' rd)
    | |- forall v, _ -> triple _ (write_fd ?rd v) _ => exact (write_fd_wf' rd)
    | |- forall v, _ -> triple _ (write_reg ?rd v) _ => exact (fun v => write_reg_wf rd v ltac:(assumption))
    | |- forall v, _ -> triple _ (write_32 ?rd v) _ =>
        exact (fun v (_ : True) => write_32_wf rd v ltac:(assumption))
    end
  | intros; cbn beta in *; fp_result ].

Lemma step_f_wf : forall op f, op_ok op = true -> step_f op = Some f -> ok f done.
Proof.
  group; try solve [fp_case].
  - apply fp_load_wf. intros v Hv. apply write_fs_wf', Hv.
  - eapply fp_store_wf. apply read_fs_wf.
Qed.

Lemma step_d_wf : forall op f, op_ok op = true -> step_d op = Some f -> ok f done.
Proof.
  group; try solve [fp_case].
  - apply fp_load_wf. intros v Hv. apply write_fd_wf, Hv.
  - eapply fp_store_wf. apply read_fd_wf.
Qed.

(** *** Privileged instructions *)

Lemma mod_status_wf f : (forall s, word s -> word (f s)) -> ok (mod_status f) done.
Proof.
  intros H. apply modc_wf; [reflexivity|]. intros c Hc. apply wf_set_mstatus; [|assumption].
  apply H. auto with word.
Qed.

Lemma mpp_cases s : prv_ok ((s .& 0x1800) >> 11) \/ (s .& 0x1800) >> 11 = 2.
Proof.
  assert (in_u 2 ((s .& 0x1800) >> 11)) as H.
  { change 0x1800 with (Z.ones 2 << 11). rewrite Z.shiftr_land, Z.shiftr_shiftl_r by lia. cbn [Z.sub].
    change (11 - 11) with 0. rewrite Z.shiftr_0_r. apply land_in_u_r; [lia|]. apply in_u_lit. reflexivity. }
  unfold in_u in H. unfold prv_ok. lia.
Qed.

Lemma mret_wf : ok mret done.
Proof.
  unfold mret. rules; try (apply mod_status_wf; auto with word).
  - destruct (mpp_cases (mstatus x)) as [?|E]; [auto with wf|]. rewrite E in *. discriminate.
  - intros s Hs. apply lor_range; [auto with word|]. apply shiftr_in_u; [lia|auto with word].
Qed.

Lemma sret_wf : ok sret done.
Proof.
  unfold sret. rules; try (apply mod_status_wf; intros; try destruct (negb _); auto with word);
  apply wf_set_prv; auto; unfold prv_ok; auto.
Qed.

Lemma wait_alarm_wf : ok wait_alarm done.
Proof. unfold wait_alarm. rules. apply modify_external. intros m. apply wfi_sleep_external. Qed.

#[local] Hint Resolve wait_alarm_wf : rules.

Lemma wfi_wf : ok wfi done.
Proof. unfold wfi. rules. Qed.

Lemma sfence_vma_wf rs1 rs2 : ok (sfence_vma rs1 rs2) done.
Proof.
  unfold sfence_vma. eapply (triple_bind _ _ _ (fun _ => True)); [rules|]. intros asid _.
  eapply (triple_bind _ _ _ (fun _ => True)); [rules|]. rules.
Qed.

Lemma step_privileged_wf : forall op f, op_ok op = true -> step_privileged op = Some f -> ok f done.
Proof. group; auto using mret_wf, sret_wf, wfi_wf, sfence_vma_wf. Qed.

Lemma step_wf op c : op_ok op = true -> ok (step op c) done.
Proof.
  intros Hop. apply step_dispatch; intros f Hf; revert Hop Hf;
    [ apply step_load_wf | apply step_op_imm_wf | apply step_store_wf | apply step_op_wf
    | apply step_branch_wf | apply step_system_wf | apply step_f_wf | apply step_d_wf | apply step_m_wf
    | apply step_a_wf | apply step_privileged_wf ].
Qed.

(** *** Traps and interrupts *)

Lemma modify_sleep_wf n : ok (modify (fiber_sleep n)) done.
Proof. apply modify_external. intros m. apply fiber_sleep_external. Qed.

#[local] Hint Resolve modify_sleep_wf : rules.

Lemma trap_to_s_wf : ok trap_to_s done.
Proof.
  unfold trap_to_s. rules;
    try (apply mod_status_wf; intros; try destruct (negb _); auto with word);
    apply wf_set_prv; auto; unfold prv_ok; auto.
Qed.

Lemma trap_to_m_wf : ok trap_to_m done.
Proof.
  unfold trap_to_m. rules;
    try (apply mod_status_wf; intros; try destruct (negb _); auto with word);
    apply wf_set_prv; auto; unfold prv_ok; auto.
Qed.

#[local] Hint Resolve trap_to_s_wf trap_to_m_wf : rules.

Lemma trap_wf : ok trap done.
Proof.
  unfold trap. destruct (flags_prv =? 0).
  - eapply (triple_bind _ _ _ (fun _ => True)); [intros m Hm; exact I|]. rules.
  - rules.
Qed.

#[local] Hint Resolve trap_wf : rules.

Lemma poison_wf blocks : ok (poison blocks) done.
Proof. unfold poison. rules. Qed.

#[local] Hint Resolve poison_wf : rules.

Lemma run_task_wf t : ok (run_task t) done.
Proof.
  destruct t as [i a b]. unfold run_task.
  eapply triple_bind; [apply get_wf|]. intros ics _.
  destruct (ics !! i) as [ic|]; [|apply triple_panic].
  do 3 (eapply triple_bind; [apply poison_wf|]; intros _ _).
  apply triple_modify. intros m []. split; assumption.
Qed.

#[local] Hint Resolve run_task_wf : rules.

Lemma pending_word k : in_u 64 k -> in_u 64 (Z.log2 k).
Proof.
  unfold in_u. intros H. pose proof (Z.log2_nonneg k).
  assert (Z.log2 k <= k) by (destruct (Z.eq_dec k 0) as [->|]; [cbn; lia|apply Z.log2_le_lin; lia]). lia.
Qed.

Lemma check_interrupt_wf : ok check_interrupt done.
Proof.
  unfold check_interrupt, run_tasks. rules.
  - intros s []. split; cbn; auto with word.
  - intros s []. split; assumption.
  - apply wf_set_cause; [|assumption]. auto using pending_word with word.
Qed.

(** *** Misaligned accesses *)

Lemma insn_translate_wf addr : word addr -> ok (insn_translate addr) (fun _ => True).
Proof. intros. unfold insn_translate. rules. Qed.

Lemma copy_from_loop_wf n : forall v p l, word v -> ok (copy_from_loop n v p l) (fun bs => length bs = n /\ Forall (in_u 8) bs).
Proof.
  induction n as [|n IH]; intros v p l Hv; cbn [copy_from_loop]; [apply triple_ret; auto|].
  eapply triple_bind; [apply get_wf|]. intros model _. cbn beta zeta.
  eapply (triple_bind _ _ _ (fun _ => True)); [rules|]. intros [p' l'] _.
  eapply triple_bind; [apply load_wf|]. intros b Hb. eapply triple_bind; [apply IH, u64_range|]. intros bs [Hl Hbs].
  apply triple_ret. split; [cbn; congruence|]. constructor; assumption.
Qed.

Lemma copy_to_loop_wf bs : forall v p l, word v -> ok (copy_to_loop bs v p l) done.
Proof.
  induction bs as [|b bs IH]; intros v p l Hv; cbn [copy_to_loop]; [apply triple_ret; exact Logic.I|].
  eapply triple_bind; [apply get_wf|]. intros model _. cbn beta zeta.
  eapply (triple_bind _ _ _ (fun _ => True)); [rules|]. intros [p' l'] _.
  eapply triple_bind; [apply store_wf|]. intros _ _. apply IH, u64_range.
Qed.

Lemma from_le_bytes_range bs : Forall (in_u 8) bs -> in_u (8 * Z.of_nat (length bs)) (from_le_bytes bs).
Proof.
  induction 1 as [|b bs Hb _ IH]; [apply in_u_lit; reflexivity|]. cbn [from_le_bytes length]. unfold in_u in *.
  replace (8 * Z.of_nat (S (length bs))) with (8 + 8 * Z.of_nat (length bs)) by lia.
  rewrite Z.pow_add_r by lia. change (2 ^ 8) with 256 in *. nia.
Qed.

Lemma copy_from_virt_addr_wf addr n : word addr -> ok (copy_from_virt_addr addr n) (fun bs => in_u (8 * Z.of_nat n) (from_le_bytes bs)).
Proof.
  intros H. eapply triple_weaken; [apply copy_from_loop_wf, H|]. intros bs [<- Hb]. apply from_le_bytes_range, Hb.
Qed.

Lemma misaligned_store_wf addr n rs2 : word addr -> ok (misaligned_store addr n rs2) done.
Proof. intros H. unfold misaligned_store, copy_to_virt_addr. eapply triple_bind; [apply read_reg_wf|]. intros v _. apply copy_to_loop_wf, H. Qed.

Lemma fetch_insn_wf : ok fetch_insn (fun r => decodes r.1 r.2).
Proof.
  unfold fetch_insn. eapply triple_bind; [apply getc_wf|]. intros pc (c & Hc & ->).
  eapply triple_bind; [apply insn_translate_wf; auto with word|]. intros lo _.
  eapply triple_bind; [apply load_wf|]. intros bits Hb. change (8 * Z.of_nat 2) with 16 in Hb. destruct (_ =? 3).
  - eapply triple_bind; [apply insn_translate_wf, u64_range|]. intros hi _.
    eapply triple_bind; [apply load_wf|]. intros hi_bits Hh. change (8 * Z.of_nat 2) with 16 in Hh.
    destruct (decode _) eqn:E; [|apply triple_panic]. apply triple_ret. eapply decodes_full; [|exact E].
    apply lor_in_u; [lia| |apply (in_u_mono 16); [lia|exact Hb]]. unfold in_u in *. rewrite Z.shiftl_mul_pow2 by lia. lia.
  - destruct (decode_compressed bits) eqn:E; [|apply triple_panic]. apply triple_ret. eapply decodes_compressed; eassumption.
Qed.

(** The end of [handle_misalign]: past the instruction. *)
Lemma skip_insn_wf compressed : ok (modc (fun c => set_pc (u64 (pc c + (if compressed : bool then 2 else 4))) c) ;;
  modc (fun c => set_instret (u64 (instret c + 1)) c) ;; bump_minstret ;; modify (fiber_sleep 1)) done.
Proof. rules. Qed.

Lemma misaligned_load_wf addr n ext rd : word addr -> 0 < rd -> (forall v, in_u (8 * Z.of_nat n) v -> word (ext v)) ->
  ok (misaligned_load addr n ext rd) done.
Proof.
  intros Ha Hr He. unfold misaligned_load, set_register. eapply triple_bind; [apply copy_from_virt_addr_wf, Ha|]. intros bs Hb.
  eapply triple_bind; [apply triple_assert|]. intros _ _. apply modc_wf; [reflexivity|]. intros c Hc.
  apply wf_set_register; [lia|apply He, Hb|exact Hc].
Qed.

End Operations.

(** *** Misaligned loads into [x0]

    [handle_misalign] writes the register of a load whatever it is.  A load into [x0] leaves
    the machine well typed, with another value in [x0]. *)

Definition loads_x0 (op : Op.Op) : bool :=
  match op with
  | Op.Lh rd _ _ | Op.Lw rd _ _ | Op.Ld rd _ _ | Op.Lhu rd _ _ | Op.Lwu rd _ _ => rd =? 0
  | _ => false
  end.

(** Well typed, whatever [x0] holds. *)
Definition typed {W} (m : Machine W) : Prop := exists x : X0, wf (X := x) m.

Section Misalign.
Context {W : Type} {P : Platform W} {Laws : PlatformLaws W}.
Local Open Scope interp_scope.
Local Notation done := (fun _ : unit => True).

Lemma triple_typed {A} (f : M W A) R : (forall x : X0, triple (wf (X := x)) f R) -> triple typed f R.
Proof.
  intros H m [x Hm]. specialize (H x m Hm). unfold post in *. destruct (f m); [|exists x; exact H|exact I|exact I].
  split; [exists x; apply H|apply H].
Qed.

Lemma set_register_typed rd v : word v -> triple (W := W) typed (set_register rd v) done.
Proof.
  intros Hv. unfold set_register. eapply triple_bind; [apply triple_assert|]. intros u Hr. cbn beta in Hr. clear u.
  intros m [x Hm]. split; [|exact I]. destruct (decide (Z.to_nat rd = 0%nat)) as [E0|N].
  - rewrite E0. exists v. pose proof (wf_context _ Hm) as Hc. destruct Hm as [[] Ho Hb]. split; [split|exact Ho|exact Hb]; cbn; try assumption.
    + rewrite length_insert. assumption.
    + apply Forall_insert; assumption.
    + apply list_lookup_insert_eq. lia.
  - exists x. apply (wf_set_ctx (X := x) m (fun c => set_registers (<[Z.to_nat rd := v]> (registers c)) c)); [|reflexivity|exact Hm].
    intros c Hc. apply wf_set_register; [lia|exact Hv|exact Hc].
Qed.

Lemma misaligned_load_typed addr n ext rd : word addr -> (forall v, in_u (8 * Z.of_nat n) v -> word (ext v)) ->
  triple (W := W) typed (misaligned_load addr n ext rd) done.
Proof.
  intros Ha He. unfold misaligned_load. eapply triple_bind; [apply triple_typed; intros x; apply copy_from_virt_addr_wf, Ha|].
  intros bs Hb. apply set_register_typed, He, Hb.
Qed.

Ltac narrow := intros ? ?; first [apply u64_range|eapply in_u_mono; [|eassumption]; lia].

Lemma handle_misalign_typed addr : word addr -> triple (W := W) typed (handle_misalign addr) done.
Proof.
  intros Ha. unfold handle_misalign. eapply triple_bind; [apply triple_typed; intros x; apply fetch_insn_wf|].
  intros [op c] _. eapply (triple_bind _ _ _ done); [|intros _ _; apply triple_typed; intros x; apply skip_insn_wf].
  destruct op; try (apply triple_typed; intros x; apply trap_with_wf; auto with word; fail);
    try (apply triple_typed; intros x; apply misaligned_store_wf, Ha); apply misaligned_load_typed; try assumption; narrow.
Qed.

(** It is [x0] alone that a misaligned load can spoil. *)
Definition spoils (m : Machine W) : Prop := exists op c m1, fetch_insn m = Ok (op, c) m1 /\ loads_x0 op = true.

Lemma handle_misalign_wf {X : X0} addr m : word addr -> ~ spoils m -> wf m -> post (handle_misalign addr) m (fun _ => wf) wf.
Proof.
  intros Ha Hs Hm. unfold handle_misalign. apply post_bind. pose proof (fetch_insn_wf m Hm) as Hf. unfold post in Hf |- *.
  destruct (fetch_insn m) as [[op c] m1|m1| |] eqn:E; try exact I; [|exact Hf]. destruct Hf as [Hm1 Hd].
  apply decodes_ok in Hd. cbn [fst] in Hd. assert (L : loads_x0 op = false) by (destruct (loads_x0 op) eqn:L; [destruct Hs; exists op, c, m1; auto|reflexivity]).
  match goal with |- match ?f m1 with _ => _ end => assert (T : triple wf f done) end.
  { eapply (triple_bind _ _ _ done); [|intros _ _; apply skip_insn_wf].
    destruct op; try (apply trap_with_wf; auto with word; fail); try (apply misaligned_store_wf, Ha);
      cbn [op_ok loads_x0] in Hd, L; apply andb_prop in Hd as [Hd _]; apply andb_prop in Hd as [Hd _]; apply reg_ok_in_u in Hd;
      (apply misaligned_load_wf; [exact Ha|unfold in_u in Hd; lia|narrow]). }
  exact (post_mono _ _ _ _ _ _ (T m1 Hm1) (fun _ _ H => proj1 H) (fun _ H => H)).
Qed.
End Misalign.
