(* ===== verification/HartReach.v ===== *)
(** Runs of a hart: the steps between which other threads act, the type
    invariant along every run, and a concrete platform to run on. *)

From Stdlib Require Import ZArith Lia Bool List.
From stdpp Require Import base gmap list relations.
From S2P Require Import Prelude RiscvCsr RiscvOp RiscvDecode RiscvEncode RiscvDecodeProps Mmu.
From S2P Require Import Softfp HartState Hart HartCsr HartStep HartStepExt HartTrap.
From S2P Require Import HartBlock HartLogic HartInv HartWf.
Local Open Scope Z_scope.
Local Open Scope rust_scope.

(** ** Looking up the translated code *)

(** The code generator writes host memory only: no state of a hart. *)
Class CodeLaws (W : Type) {C : Compiler W} : Prop :=
  write_code_external code pc emits (m : Machine W) : external m (write_code code pc emits m).

Section FindBlock.
Context {X : X0} {W : Type} {P : Platform W} {Laws : PlatformLaws W} {C : Compiler W} {CL : CodeLaws W}.
Local Open Scope interp_scope.
Local Notation keeps f := (triple (W := W) wf f (fun _ => True)).

Lemma read_insn_keeps pc : keeps (read_insn pc).
Proof.
  unfold read_insn, decoded. eapply triple_bind; [apply read_memory_wf|]. intros bits _.
  destruct (_ =? 3); [|rules]. destruct (_ =? 4094); [rules|]. eapply triple_bind; [apply read_memory_wf|]. intros hi _. rules.
Qed.

#[local] Hint Resolve read_insn_keeps : rules.

Lemma fuse_candidate_keeps op c e : keeps (fuse_candidate op c e).
Proof.
  unfold fuse_candidate. eapply triple_bind; [apply get_wf|]. intros fuse _. destruct (_ && _); [|rules].
  eapply (triple_bind _ _ _ (fun _ => True)); [rules|]. intros [s|] _; rules.
Qed.

Lemma translate_one_keeps prv e : keeps (translate_one prv e).
Proof.
  unfold translate_one. eapply triple_bind; [apply read_insn_keeps|]. intros [op c bits|bits] _; [|rules].
  eapply triple_bind; [apply fuse_candidate_keeps|]. intros [[]|] _; rules.
Qed.

Lemma translate_loop_keeps fuel prv : forall e, keeps (translate_loop fuel prv e).
Proof.
  induction fuel as [|fuel IH]; intros e; cbn [translate_loop]; [apply triple_panic|].
  eapply triple_bind; [apply translate_one_keeps|]. intros [[emits e'] continue] _. destruct continue; [|rules].
  eapply triple_bind; [apply IH|]. intros [rest e''] _. rules.
Qed.

Lemma get_icache_keeps i : keeps (get_icache i).
Proof. intros m Hm. unfold post, get_icache. destruct (icaches m !! i); auto. Qed.

Lemma expect_keeps {A} (o : option A) : keeps (expect o).
Proof. unfold expect. rules. Qed.

Lemma translate_code_keeps prv pc : keeps (translate_code prv pc).
Proof.
  unfold translate_code. eapply triple_bind; [apply get_wf|]. intros i _. eapply triple_bind; [apply get_icache_keeps|]. intros ic _. cbn beta zeta.
  eapply triple_bind; [apply translate_loop_keeps|]. intros [emits e] _. eapply triple_bind; [apply triple_assert|]. intros _ _.
  do 2 (eapply triple_bind; [apply get_wf|]; intros ? _). eapply triple_bind; [apply triple_modify; intros m; apply external_wf, write_code_external|].
  intros _ _. eapply triple_bind; [apply triple_assert|]. intros _ _. do 2 (eapply triple_bind; [apply expect_keeps|]; intros ? _).
  eapply triple_bind; [apply triple_modify; intros m []; split; assumption|]. intros _ _. rules.
Qed.

Lemma find_block_keeps : keeps find_block.
Proof.
  unfold find_block. eapply triple_bind; [apply getc_wf|]. intros pc (c & Hc & ->). intros m Hm. unfold post, try_catch.
  pose proof (insn_translate_wf (pc c) ltac:(auto with word) m Hm) as Hi. unfold post in Hi. destruct (insn_translate (pc c) m) as [a m1|m1| |]; try exact I.
  - destruct Hi as [Hm1 _]. revert m1 Hm1. eapply triple_bind; [apply get_wf|]. intros i _. eapply triple_bind; [apply get_icache_keeps|]. intros ic _.
    eapply triple_bind; [apply getc_wf|]. intros p _. eapply triple_bind; [apply expect_keeps|]. intros map _. destruct (map !! a); [rules|].
    eapply triple_bind; [apply get_wf|]. intros prot _. eapply (triple_bind _ _ _ (fun _ => True)); [|intros _ _; apply translate_code_keeps].
    destruct (bool_decide _); [rules|]. eapply triple_bind; [apply triple_modify; intros m2 []; split; assumption|]. intros _ _.
    rules. apply remote_keeps. constructor.
  - revert m1 Hi. eapply triple_bind; [apply trap_wf|]. intros _ _. rules.
Qed.
End FindBlock.

(** ** Runs

    The steps of the loop the translated code and its helpers form: the [pc] is
    advanced, an instruction is executed, a trap it raises is taken, the translated code is
    looked up, pending interrupts are checked, a misaligned access is emulated, and in between
    other threads act on the hart. *)
Section Runs.
Context {W : Type} {P : Platform W}.

Inductive thread_step : Machine W -> Machine W -> Prop :=
| hart_fetch m v : in_u 64 v -> thread_step m (set_ctx (set_pc v (ctx m)) m)
| hart_retire m v : in_u 64 v -> thread_step m (set_ctx (set_instret v (ctx m)) m)
| hart_execute m m' op c : decodes op c -> step op c m = Ok tt m' -> thread_step m m'
| hart_fault m m' op c : decodes op c -> step op c m = Err m' -> thread_step m m'
| hart_trap m m' : trap m = Ok tt m' -> thread_step m m'
| hart_external m m' : external m m' -> thread_step m m'.

Context {C : Compiler W}.

(** Misaligned accesses are emulated from wherever translated code meets one; [x0_loads] is
    whether loads into [x0] are among them. *)
Inductive hart_step (x0_loads : bool) : Machine W -> Machine W -> Prop :=
| hart_thread m m' : thread_step m m' -> hart_step x0_loads m m'
| hart_find m m' entry : find_block m = Ok entry m' -> hart_step x0_loads m m'
| hart_interrupt m m' : check_interrupt m = Ok tt m' -> hart_step x0_loads m m'
| hart_misalign m m' addr : in_u 64 addr -> (x0_loads = false -> ~ spoils m) ->
    handle_misalign addr m = Ok tt m' \/ handle_misalign addr m = Err m' -> hart_step x0_loads m m'.

Context {Laws : PlatformLaws W} {CL : CodeLaws W}.

(** What keeps the invariant from [m], and where it ends. *)
Lemma kept {A} (f : M W A) (I : Machine W -> Prop) m : triple I f (fun _ => True) -> I m ->
  (forall a m', f m = Ok a m' -> I m') /\ (forall m', f m = Err m' -> I m').
Proof. intros T Hm. specialize (T m Hm). unfold post in T. split; [intros a m' E|intros m' E]; rewrite E in T; apply T. Qed.

Lemma thread_step_wf {X : X0} m m' : thread_step m m' -> wf m -> wf m'.
Proof.
  intros H Hm. destruct H as [m v Hv|m v Hv|m m' op c Hd H|m m' op c Hd H|m m' H|m m' H].
  - apply (wf_set_ctx m (set_pc v)); [auto with wf|reflexivity|assumption].
  - apply (wf_set_ctx m (set_instret v)); [auto with wf|reflexivity|assumption].
  - exact (proj1 (kept _ _ m (step_wf op c (decodes_ok _ _ Hd)) Hm) _ _ H).
  - exact (proj2 (kept _ _ m (step_wf op c (decodes_ok _ _ Hd)) Hm) _ H).
  - exact (proj1 (kept _ _ m trap_wf Hm) _ _ H).
  - eapply external_wf; eassumption.
Qed.

Lemma hart_step_wf {X : X0} m m' : hart_step false m m' -> wf m -> wf m'.
Proof.
  intros H Hm. destruct H as [m m' H|m m' e H|m m' H|m m' addr Ha Hs H].
  - eapply thread_step_wf; eassumption.
  - exact (proj1 (kept _ _ m find_block_keeps Hm) _ _ H).
  - exact (proj1 (kept _ _ m check_interrupt_wf Hm) _ _ H).
  - pose proof (handle_misalign_wf addr m Ha (Hs eq_refl) Hm) as Hp. unfold post in Hp. destruct H as [H|H]; rewrite H in Hp; exact Hp.
Qed.

Lemma hart_step_typed m m' : hart_step true m m' -> typed m -> typed m'.
Proof.
  intros H. destruct H as [m m' H|m m' e H|m m' H|m m' addr Ha _ H].
  1-3: intros [x Hm]; exists x; apply (hart_step_wf (X := x) m m'); [econstructor; eassumption|exact Hm].
  intros Hm. pose proof (kept _ _ m (handle_misalign_typed addr Ha) Hm) as [H1 H2]. destruct H as [H|H]; eauto.
Qed.

End Runs.

(** ** A concrete platform

    No devices, no console, time stands still; 1 GiB of address space is I/O. *)
Definition idle_platform : Platform unit := {|
  flags_prv := 3;
  feature_float := true;
  feature_simcsr := true;
  io_boundary := 0x40000000;
  lockstep_cycles := fun _ => 0;
  time := fun _ => 0;
  event_loop_shutdown := fun w => w;
  set_exit_reason := fun _ w => w;
  clint_write := fun _ _ _ m => m;
  console_try_write := fun _ w => Some w;
  console_try_read := fun w => (None, w);
  syscall := fun _ _ => ret 0;
  io_read := fun _ _ m => (0, m);
  io_write := fun _ _ _ m => m;
  wfi_sleep := fun m => m;
  fiber_sleep := fun _ m => m;
|}.

Lemma external_refl {W} (m : Machine W) : external m m.
Proof. split; auto. intros s Hs. exists s. split; [assumption|apply rtc_refl]. Qed.

#[export] Instance idle_laws : @PlatformLaws unit idle_platform.
Proof.
  split; cbn; intros; try apply external_refl; try (apply in_u_lit; reflexivity); try discriminate.
  - split; [lia|apply pow2_pos; lia].
  - split; [apply in_u_lit; reflexivity|apply external_refl].
Qed.

(** A code generator that emits 64 bytes per call and fuses. *)
Definition plain_compiler : Compiler unit := {|
  can_fuse_cond_op := fun _ => true;
  code_len := fun _ _ emits => Z.min (64 * Z.of_nat (length emits)) (256 * 1024);
  speculative_len := fun _ _ _ => 16;
  write_code := fun _ _ _ m => m;
  helper_check_interrupt := 0x1000;
|}.

#[export] Instance plain_code_laws : @CodeLaws unit plain_compiler.
Proof. intros code pc emits m. apply external_refl. Qed.

(** A hart after reset: machine mode, integer registers zero. *)
Definition reset_context : Context := {|
  registers := repeat 0 32;
  pc := 0x40000000;
  instret := 0; cause := 0; tval := 0; minstret := 0; cycle_offset := 0;
  fp_registers := repeat 0 32;
  frm := 0; lr_addr := 0; lr_value := 0;
  scause := 0; stval := 0; stvec := 0; sscratch := 0; sepc := 0; satp := 0; scounteren := 0;
  mideleg := 0; medeleg := 0; mcause := 0; mtval := 0; mstatus := 0; mie := 0; mtvec := 0;
  mscratch := 0; mepc := 0; mcounteren := 0;
  prv := 3;
  hartid := 0;
|}.

(** [SharedContext::new] *)
Definition new_shared : SharedContext := {|
  alarm := 0; mip := 0;
  line := repeat default_line 1024;
  i_line := repeat default_line 1024;
  rm := 0; fflags := 0; tasks := [];
|}.

Definition reset_machine : Machine unit :=
  MkMachine reset_context [new_shared] (fun _ => 0) ∅ [] AtomicModel tt.

Lemma reset_machine_wf : wf reset_machine.
Proof.
  split; [split|..].
  - reflexivity.
  - apply words_lit. reflexivity.
  - reflexivity.
  - reflexivity.
  - apply words_lit. reflexivity.
  - apply words_lit. reflexivity.
  - right. right. reflexivity.
  - repeat split; cbn; lia.
  - exists new_shared. split; [reflexivity|]. split; cbn [new_shared]; rewrite ?repeat_length;
      try reflexivity; try (apply in_u_lit; reflexivity); cbn; lia.
  - intros a. apply in_u_lit. reflexivity.
Qed.

(** C1. Along every run of a hart, that is any sequence of instructions the decoder produces,
    of the traps they raise, of look-ups of translated code, of interrupt checks, of
    misaligned accesses and of actions of other threads, the state stays well typed: every
    register and CSR holds a 64-bit value, the privilege level is U, S or M, the delegation
    and interrupt-enable registers stay within the bits that exist, the rounding mode is one
    of the five, and memory holds bytes.  And [x0], which is zero at the start, stays zero
    along every run in which no misaligned load into [x0] is emulated. *)
Theorem reachable_wf {W} {P : Platform W} {C : Compiler W} {Laws : PlatformLaws W} {CL : CodeLaws W} (m m' : Machine W) :
  (rtc (hart_step true) m m' -> typed m -> typed m') /\ (rtc (hart_step false) m m' -> wf m -> wf m').
Proof. split; induction 1; eauto using hart_step_wf, hart_step_typed. Qed.

(** ADDI x1, x0, 5 after reset. *)
Lemma reachable_wf_witness :
  wf (set_ctx (set_registers (<[1%nat := 5]> (repeat 0 32)) reset_context) reset_machine).
Proof.
  apply (proj2 (reachable_wf (P := idle_platform) (C := plain_compiler) (Laws := idle_laws) reset_machine _)).
  - apply rtc_once, hart_thread. apply (hart_execute _ _ (Op.Addi 1 0 5) false).
    + apply (decodes_full 0x00500093); [apply in_u_lit; reflexivity|reflexivity].
    + vm_compute. reflexivity.
  - exact reset_machine_wf.
Defined.

(** A memory that holds LW x0, 0(x0) where the hart starts and 1 elsewhere. *)
Definition load_x0_machine : Machine unit :=
  set_mem (fun a => if a =? 0x40000000 then 0x03 else if a =? 0x40000001 then 0x20 else if (0x40000002 <=? a) && (a <? 0x40000004) then 0 else 1) reset_machine.

(** A misaligned load into [x0] writes it. *)
Theorem misaligned_load_spoils : exists m', hart_step (C := plain_compiler) (P := idle_platform) true load_x0_machine m' /\
  registers (ctx load_x0_machine) !! 0%nat = Some 0 /\ registers (ctx m') !! 0%nat = Some 0x01010101.
Proof.
  assert (E : on_result (fun m => registers (ctx m) !! 0%nat) (handle_misalign (P := idle_platform) 0x40000101 load_x0_machine) = Some (Some 0x01010101))
    by (vm_compute; reflexivity).
  apply on_result_some in E as ([] & m' & E & Hr). exists m'. split; [|split; [reflexivity|exact Hr]].
  eapply (hart_misalign _ _ _ 0x40000101); [apply in_u_lit; reflexivity|discriminate|left; exact E].
Qed.
