(* ===== verification/HartIrq.v ===== *)
(** Delivery of interrupts: the alarm that makes a hart look at its pending
    interrupts is set whenever one can be taken. *)

From Stdlib Require Import ZArith Lia Bool List Btauto.
From stdpp Require Import base gmap list relations.
From S2P Require Import Prelude RiscvCsr RiscvOp RiscvDecode RiscvEncode RiscvDecodeProps Mmu.
From S2P Require Import Softfp HartState Hart HartCsr HartStep HartStepExt HartTrap.
From S2P Require Import HartLogic HartInv HartWf HartReach.
Local Open Scope Z_scope.
Local Open Scope rust_scope.

(** The interrupts the hart can take now. *)
Definition takeable {W} (m : Machine W) : Z :=
  match shared m !! own m with
  | Some s => interrupt_pending (ctx m) (mip s)
  | None => 0
  end.

(** Bit 0 of the alarm asks the hart to check its interrupts. *)
Definition alarmed {W} (m : Machine W) : Prop :=
  exists s, shared m !! own m = Some s /\ Z.testbit (alarm s) 0 = true.

(** An interrupt that can be taken is not overlooked. *)
Definition noticed {W} (m : Machine W) : Prop := takeable m <> 0 -> alarmed m.

(** ** [interrupt_pending] *)

Lemma lor_zero a b : a .| b = 0 <-> a = 0 /\ b = 0.
Proof. apply Z.lor_eq_0_iff. Qed.

(** Fewer pending bits, fewer interrupts. *)
Lemma land_subset_zero a b c : (a .& b) .& c = 0 -> forall d, (a .& Z.lnot d .& b) .& c = 0.
Proof.
  intros H d. apply Z.bits_inj'. intros k Hk. apply (f_equal (fun z => Z.testbit z k)) in H.
  rewrite !Z.land_spec in *. rewrite Z.bits_0 in *.
  destruct (Z.testbit a k), (Z.testbit b k), (Z.testbit c k), (Z.testbit (Z.lnot d) k); cbn in *; congruence.
Qed.

Lemma interrupt_pending_deassert c p d :
  interrupt_pending c p = 0 -> interrupt_pending c (p .& Z.lnot d) = 0.
Proof.
  unfold interrupt_pending. rewrite !lor_zero.
  intros [H1 H2]. split.
  - clear H2. destruct (_ || _); [|reflexivity]. apply land_subset_zero. exact H1.
  - clear H1. destruct (_ || _); [|reflexivity]. apply land_subset_zero. exact H2.
Qed.

(** The fields of the context that decide which interrupts can be taken. *)
Definition same_irq (c c' : Context) : Prop :=
  prv c' = prv c /\ mie c' = mie c /\ mideleg c' = mideleg c /\ hartid c' = hartid c /\
  mstatus c' .& 0xA = mstatus c .& 0xA.

Lemma status_bit s s' k : s' .& 0xA = s .& 0xA -> 0xA .& k = k -> s' .& k = s .& k.
Proof. intros H E. rewrite <- E, !Z.land_assoc, H. reflexivity. Qed.

Lemma same_irq_pending c c' p : same_irq c c' -> interrupt_pending c' p = interrupt_pending c p.
Proof.
  intros (Hp & He & Hd & _ & Hs). unfold interrupt_pending. rewrite Hp, He, Hd.
  rewrite (status_bit _ _ 0x8 Hs eq_refl), (status_bit _ _ 0x2 Hs eq_refl). reflexivity.
Qed.

(** ** Rules *)

Lemma remote_noticed s s' c :
  remote s s' ->
  (interrupt_pending c (mip s) <> 0 -> Z.testbit (alarm s) 0 = true) ->
  interrupt_pending c (mip s') <> 0 -> Z.testbit (alarm s') 0 = true.
Proof.
  assert (Hset : forall x, Z.testbit (x .| 1) 0 = true)
    by (intros; rewrite testbit_lor_flag; apply orb_true_r).
  intros H Hn. destruct H; try exact Hn.
  - unfold assert_int. destruct (_ =? _) eqn:E; cbn [negb]; [|intros _; apply Hset].
    intros Hp. apply Hn. intros H0. apply Hp. rewrite <- H0. cbn [mip set_mip]. f_equal.
    apply Z.eqb_eq in E. rewrite <- E. apply Z.bits_inj'. intros k Hk.
    rewrite !Z.lor_spec, Z.land_spec. btauto.
  - intros Hp. apply Hn. intros H0. apply Hp. apply interrupt_pending_deassert, H0.
  - intros Hp. cbn [fire_alarm alarm set_alarm]. rewrite testbit_lor_flag, (Hn Hp). reflexivity.
  - intros _. apply Hset.
Qed.

Section Rules.
Context {W : Type} {P : Platform W} {Laws : PlatformLaws W}.
Local Open Scope interp_scope.

Definition keeps {A} (f : M W A) : Prop := triple noticed f (fun _ => True).

(** [f] leaves every takeable interrupt noticed, whatever it starts from. *)
Definition alerts {A} (f : M W A) : Prop := forall m, post f m (fun _ => noticed) noticed.

Lemma keeps_bind {A B} (f : M W A) (k : A -> M W B) :
  keeps f -> (forall a, keeps (k a)) -> keeps (bind f k).
Proof. intros Hf Hk. eapply triple_bind; [exact Hf|]. intros a _. apply Hk. Qed.

Lemma alerts_keeps {A} (f : M W A) : alerts f -> keeps f.
Proof. intros H m _. eapply post_mono; [apply H|tauto|tauto]. Qed.

Lemma noticed_ctx (m : Machine W) c : same_irq (ctx m) c -> noticed m -> noticed (set_ctx c m).
Proof.
  intros H Hm. unfold noticed, takeable, alarmed, own in *. cbn.
  destruct (H) as (_ & _ & _ & -> & _).
  destruct (shared m !! Z.to_nat (hartid (ctx m))) as [s|]; [|exact Hm].
  rewrite (same_irq_pending _ _ _ H). exact Hm.
Qed.

Lemma modc_keeps f : (forall c, same_irq c (f c)) -> keeps (modc f).
Proof. intros H m Hm. split; [|exact I]. apply noticed_ctx; auto. Qed.

Lemma noticed_insert (m : Machine W) s s' :
  shared m !! own m = Some s ->
  (interrupt_pending (ctx m) (mip s') <> 0 -> Z.testbit (alarm s') 0 = true) ->
  noticed (set_shared (<[own m := s']> (shared m)) m).
Proof.
  intros E H. unfold noticed, takeable, alarmed. rewrite (own_insert_lookup _ _ _ E). cbn.
  intros Hp. exists s'. split; [reflexivity|]. apply H, Hp.
Qed.

Lemma noticed_own (m : Machine W) s :
  shared m !! own m = Some s -> noticed m ->
  interrupt_pending (ctx m) (mip s) <> 0 -> Z.testbit (alarm s) 0 = true.
Proof.
  unfold noticed, takeable, alarmed. intros E. rewrite E. intros Hn Hp.
  destruct (Hn Hp) as (s' & E' & Ha). injection E' as <-. exact Ha.
Qed.

Lemma mod_shared_keeps i f :
  (forall s c, (interrupt_pending c (mip s) <> 0 -> Z.testbit (alarm s) 0 = true) ->
     interrupt_pending c (mip (f s)) <> 0 -> Z.testbit (alarm (f s)) 0 = true) ->
  keeps (mod_shared i f).
Proof.
  intros H m Hm. unfold post, mod_shared. destruct (shared m !! i) as [s|] eqn:E; [|exact I].
  split; [|exact I]. destruct (decide (i = own m)) as [->|Hne].
  - eapply noticed_insert; [eassumption|]. apply H. eapply noticed_own; eassumption.
  - unfold noticed, takeable, alarmed, own in *. cbn. rewrite !list_lookup_insert_ne by assumption. exact Hm.
Qed.

Lemma remote_mod_keeps i f : (forall s, remote s (f s)) -> keeps (mod_shared i f).
Proof. intros H. apply mod_shared_keeps. intros s c. apply remote_noticed, H. Qed.

Lemma mods_keeps f : (forall s, remote s (f s)) -> keeps (mods f).
Proof. intros H m. apply remote_mod_keeps, H. Qed.

(** The parts of the shared context interrupts do not look at. *)
Lemma mods_quiet f : (forall s, mip (f s) = mip s /\ alarm (f s) = alarm s) -> keeps (mods f).
Proof.
  intros H m. apply mod_shared_keeps. intros s c. destruct (H s) as [-> ->]. auto.
Qed.

Lemma external_noticed (m m' : Machine W) : external m m' -> noticed m -> noticed m'.
Proof.
  intros [Hc _ Hl Hs _] Hn. unfold noticed, takeable, alarmed, own in *. rewrite Hc.
  destruct (shared m !! Z.to_nat (hartid (ctx m))) as [s|] eqn:E.
  - destruct (Hs s eq_refl) as (s' & E' & Hr). rewrite E'. intros Hp. exists s'.
    split; [reflexivity|]. revert Hp.
    assert (H0 : interrupt_pending (ctx m) (mip s) <> 0 -> Z.testbit (alarm s) 0 = true).
    { intros Hp. destruct (Hn Hp) as (s1 & E1 & Ha). injection E1 as <-. exact Ha. }
    clear - Hr H0. induction Hr; [assumption|]. apply IHHr. eapply remote_noticed; eassumption.
  - apply lookup_ge_None in E. rewrite <- Hl in E. apply lookup_ge_None in E. rewrite E. contradiction.
Qed.

Lemma modify_external_keeps f : (forall m, external m (f m)) -> keeps (modify f).
Proof. intros H. apply triple_modify. intros m. apply external_noticed, H. Qed.

(** Updates of memory, devices and code caches. *)
Lemma modify_quiet f :
  (forall m : Machine W, ctx (f m) = ctx m /\ shared (f m) = shared m) -> keeps (modify f).
Proof.
  intros H. apply triple_modify. intros m. destruct (H m) as [Hc Hs].
  unfold noticed, takeable, alarmed, own. rewrite Hc, Hs. auto.
Qed.

Lemma any_keeps {A} (f : M W A) R : triple noticed f R -> keeps f.
Proof. intros H. eapply triple_weaken; [exact H|auto]. Qed.

Lemma gets_keeps {A} (f : SharedContext -> A) : keeps (gets f).
Proof. eapply any_keeps, triple_gets. Qed.

Lemma getc_keeps {A} (f : Context -> A) : keeps (getc f).
Proof. eapply any_keeps, triple_getc. Qed.

Lemma get_keeps {A} (f : Machine W -> A) : keeps (get f).
Proof. eapply any_keeps, triple_get. Qed.

(** ** Alerts *)

Lemma alert_if_pending_alerts : alerts alert_if_pending.
Proof.
  intros m. unfold alert_if_pending, get_interrupt_pending, post, bind, getc, gets, ret, when.
  destruct (shared m !! own m) as [s|] eqn:E; [|exact I].
  destruct (interrupt_pending (ctx m) (mip s) =? 0) eqn:Ep; cbn [negb].
  - apply Z.eqb_eq in Ep. change (noticed m). unfold noticed, takeable. rewrite E. contradiction.
  - rewrite (mods_ok _ _ _ E). eapply noticed_insert; [eassumption|]. intros _.
    unfold alert, fire_alarm. cbn [alarm set_alarm]. rewrite testbit_lor_flag. apply orb_true_r.
Qed.

Lemma pending_ready c p : interrupt_pending c p <> 0 -> p .& mie c <> 0.
Proof.
  intros H E. apply H. unfold interrupt_pending. rewrite E.
  destruct (_ || _), (_ || _); reflexivity.
Qed.

Lemma recheck_interrupt_alerts : alerts recheck_interrupt.
Proof.
  intros m. unfold recheck_interrupt, post, bind, getc, gets, ret.
  destruct (shared m !! own m) as [s|] eqn:E; [|exact I].
  destruct (mip s .& mie (ctx m) =? 0) eqn:Er; cbn [negb].
  - apply Z.eqb_eq in Er. change (noticed m). unfold noticed, takeable. rewrite E. intros Hp.
    exfalso. eapply pending_ready; eassumption.
  - destruct (interrupt_pending (ctx m) (mip s) =? 0) eqn:Ep; cbn [negb]; rewrite (mods_ok _ _ _ E).
    + eapply noticed_insert; [eassumption|]. apply Z.eqb_eq in Ep. cbn [mip set_alarm fire_alarm]. contradiction.
    + eapply noticed_insert; [eassumption|]. intros _.
      unfold fire_alarm. cbn [alarm set_alarm]. rewrite testbit_lor_flag. apply orb_true_r.
Qed.

(** A computation that does not trap may come before an alert. *)
Definition no_trap {A} (f : M W A) : Prop := forall m, match f m with Err _ => False | _ => True end.

Lemma alerts_after {A B} (f : M W A) (k : A -> M W B) :
  no_trap f -> (forall a, alerts (k a)) -> alerts (bind f k).
Proof.
  intros Hf Hk m. unfold post, bind. specialize (Hf m). destruct (f m); try contradiction; auto.
  apply Hk.
Qed.

Lemma alerts_then {A B} (f : M W A) (k : A -> M W B) :
  alerts f -> (forall a, keeps (k a)) -> alerts (bind f k).
Proof.
  intros Hf Hk m. apply post_bind. eapply post_mono; [apply Hf| |auto].
  intros a m' Hm'. eapply post_mono; [apply Hk, Hm'|intros ? ? [H _]; exact H|auto].
Qed.

Lemma no_trap_modc f : no_trap (modc f). Proof. intros m. exact I. Qed.
Lemma no_trap_getc {A} (f : Context -> A) : no_trap (getc f). Proof. intros m. exact I. Qed.
Lemma no_trap_assert b : no_trap (assert_ b). Proof. intros m. destruct b; exact I. Qed.
Lemma no_trap_mods f : no_trap (mods f).
Proof. intros m. unfold mods, mod_shared. destruct (shared m !! own m); exact I. Qed.
Lemma no_trap_bind {A B} (f : M W A) (k : A -> M W B) :
  no_trap f -> (forall a, no_trap (k a)) -> no_trap (bind f k).
Proof.
  intros Hf Hk m. unfold bind. specialize (Hf m). destruct (f m); try exact I; try contradiction. apply Hk.
Qed.
Lemma no_trap_when b f : no_trap f -> no_trap (when b f).
Proof. intros H. destruct b; [exact H|intros m; exact I]. Qed.

Lemma fs_status s : (s .| 0x6000) .& 0xA = s .& 0xA.
Proof. rewrite Z.land_lor_distr_l. change (0x6000 .& 0xA) with 0. apply Z.lor_0_r. Qed.

(** Follow a computation that leaves the interrupt state alone. *)
Ltac quiet_ctx := intros; repeat split; cbn; auto using fs_status.

Ltac keep :=
  lazymatch goal with
  | |- forall _, _ => intros
  | |- keeps (bind _ _) => apply keeps_bind
  | |- keeps (ret _) => apply triple_ret; exact I
  | |- keeps panic => apply triple_panic
  | |- keeps fail => apply triple_fail
  | |- keeps (assert_ _) => eapply any_keeps, triple_assert
  | |- keeps (when _ _) => apply triple_when; intros; lazymatch goal with |- triple _ ?f _ => change (keeps f) end
  | |- keeps (getc _) => apply getc_keeps
  | |- keeps (gets _) => apply gets_keeps
  | |- keeps (get _) => apply get_keeps
  | |- keeps (modc _) => apply modc_keeps; solve [quiet_ctx]
  | |- keeps (modify _) => apply modify_quiet; intros; split; reflexivity
  | |- keeps (mods _) =>
      first [ apply mods_keeps; intros; constructor; solve [auto with word]
            | apply mods_quiet; intros; split; reflexivity ]
  | |- keeps (mod_shared _ _) => apply remote_mod_keeps; intros; constructor; auto with word
  | |- keeps (for_each _ _) => apply triple_for_each; intros; lazymatch goal with |- triple _ ?f _ => change (keeps f) end
  | |- keeps (if ?b then _ else _) => destruct b
  | |- keeps (match ?x with _ => _ end) => destruct x
  | |- keeps _ => solve [eauto with irq nocore]
  end.

Ltac keeps := repeat (cbn beta zeta; keep).

Lemma trap_with_keeps {A} a b : keeps (trap_with a b : M W A).
Proof. unfold trap_with. keeps. Qed.

Create HintDb irq discriminated.
#[local] Hint Resolve trap_with_keeps : irq.

Lemma test_and_set_fs_keeps : keeps test_and_set_fs.
Proof.
  unfold test_and_set_fs. destruct (negb feature_float); [keeps|].
  intros m Hm. unfold post, bind, getc. destruct (_ =? _); [apply (trap_with_keeps (A := unit) 2 0 m Hm)|].
  split; [|exact I]. apply noticed_ctx; [|assumption]. quiet_ctx.
Qed.

#[local] Hint Resolve test_and_set_fs_keeps : irq.

Lemma icache_invalidate_keeps a b : keeps (icache_invalidate a b).
Proof. unfold icache_invalidate. keeps. Qed.

Lemma insert_instruction_cache_line_keeps v p : keeps (insert_instruction_cache_line v p).
Proof. unfold insert_instruction_cache_line. keeps. Qed.

Lemma insert_data_cache_line_keeps v p w : keeps (insert_data_cache_line v p w).
Proof. unfold insert_data_cache_line. keeps. Qed.

#[local] Hint Resolve icache_invalidate_keeps insert_instruction_cache_line_keeps
  insert_data_cache_line_keeps : irq.

Lemma load_keeps n a : keeps (load n a).
Proof.
  unfold load. destruct (a <? io_boundary); [|keeps].
  intros m Hm. unfold post. pose proof (io_read_external a (Z.of_nat n) m) as He.
  destruct (io_read a (Z.of_nat n) m) as [v m']. split; [|exact I]. eapply external_noticed; eassumption.
Qed.

Lemma store_keeps n a v : keeps (store n a v).
Proof.
  unfold store. destruct (a <? io_boundary); [|keeps].
  apply modify_external_keeps. intros m. apply io_write_external.
Qed.

#[local] Hint Resolve load_keeps store_keeps : irq.

Lemma translate_vaddr_keeps a access : keeps (translate_vaddr a access).
Proof. unfold translate_vaddr. keeps. Qed.

#[local] Hint Resolve translate_vaddr_keeps : irq.

Lemma translate_cache_miss_keeps a w : keeps (translate_cache_miss a w).
Proof. unfold translate_cache_miss, data_access. keeps. Qed.

#[local] Hint Resolve translate_cache_miss_keeps : irq.

Lemma read_vaddr_keeps n a : keeps (read_vaddr n a).
Proof. unfold read_vaddr, bump_minstret, translate_read. keeps. Qed.

Lemma ptr_vaddr_x_keeps a : keeps (ptr_vaddr_x a).
Proof. unfold ptr_vaddr_x, bump_minstret, translate_write. keeps. Qed.

#[local] Hint Resolve read_vaddr_keeps ptr_vaddr_x_keeps : irq.

Lemma read_reg_keeps rs : keeps (read_reg rs).
Proof. unfold read_reg. keeps. Qed.

Lemma write_reg_keeps rd v : keeps (write_reg rd v).
Proof. unfold write_reg. keeps. Qed.

Lemma read_fd_keeps rs : keeps (read_fd rs).
Proof. unfold read_fd. keeps. Qed.

Lemma write_fd_keeps rd v : keeps (write_fd rd v).
Proof. unfold write_fd. keeps. Qed.

#[local] Hint Resolve read_reg_keeps write_reg_keeps read_fd_keeps write_fd_keeps : irq.

Lemma fp_run_keeps {A} (f : FpM A) : keeps (fp_run f).
Proof. unfold fp_run. keeps. Qed.

Lemma use_rm_keeps r : keeps (use_rm r).
Proof. unfold use_rm. keeps. Qed.

#[local] Hint Resolve @fp_run_keeps use_rm_keeps : irq.

Lemma shutdown_keeps r : keeps (shutdown r).
Proof. unfold shutdown. keeps. Qed.

Lemma alert_if_pending_keeps : keeps alert_if_pending.
Proof. apply alerts_keeps, alert_if_pending_alerts. Qed.

Lemma read_csr_keeps csr : keeps (read_csr csr).
Proof. unfold read_csr, test_counter, get_mcycle. keeps. Qed.

#[local] Hint Resolve shutdown_keeps alert_if_pending_keeps read_csr_keeps : irq.

Lemma clear_local_caches_keeps : keeps clear_local_caches.
Proof. unfold clear_local_caches. keeps. Qed.

#[local] Hint Resolve clear_local_caches_keeps : irq.

Lemma write_status_keeps w f v : keeps (write_status w f v).
Proof.
  apply alerts_keeps. unfold write_status. apply alerts_after; [apply no_trap_getc|]. intros s.
  apply alerts_after; [apply no_trap_modc|]. intros _.
  apply alerts_then; [apply alert_if_pending_alerts|]. keeps.
Qed.

#[local] Hint Resolve write_status_keeps : irq.

Lemma update_then_alert f (g : M W unit) : alerts g -> keeps (bind (modc f) (fun _ => g)).
Proof. intros H. apply alerts_keeps, alerts_after; [apply no_trap_modc|]. intros _. exact H. Qed.

#[local] Hint Resolve update_then_alert recheck_interrupt_alerts alert_if_pending_alerts : irq.

Lemma write_csr_keeps csr v : keeps (write_csr csr v).
Proof.
  unfold write_csr. repeat (cbn beta zeta; first [apply update_then_alert; auto with irq; fail | keep]).
Qed.

#[local] Hint Resolve write_csr_keeps : irq.

(** ** Instructions *)

Lemma for_harts_keeps mask f : (forall s, remote s (f s)) -> keeps (for_harts mask f).
Proof. intros H. unfold for_harts. keeps. apply remote_mod_keeps, H. Qed.

Lemma global_sfence_keeps mask asid vpn : keeps (global_sfence mask asid vpn).
Proof.
  unfold global_sfence, before_sfence_vma, for_harts. keeps. apply mod_shared_keeps. auto.
Qed.

Lemma unwrap_keeps {A} (f : M W A) : keeps f -> keeps (unwrap f).
Proof. intros H m Hm. specialize (H m Hm). unfold post, unwrap in *. destruct (f m); auto. Qed.

Lemma read_hart_mask_keeps a : keeps (read_hart_mask a).
Proof.
  unfold read_hart_mask, read_memory. apply keeps_bind; [apply unwrap_keeps; keeps|]. keeps.
Qed.

#[local] Hint Resolve global_sfence_keeps read_hart_mask_keeps : irq.

Lemma modify_clint_keeps a v n : keeps (modify (clint_write a v n)).
Proof. apply modify_external_keeps. intros m. apply clint_write_external. Qed.

Lemma syscall_keeps nr args : keeps (syscall nr args).
Proof.
  intros m Hm. eapply post_mono; [apply syscall_external| |].
  - intros v m' [_ He]. split; [eapply external_noticed; eassumption|exact I].
  - intros m' He. eapply external_noticed; eassumption.
Qed.

Lemma sbi_call_keeps nr a0 a1 a2 a3 : keeps (sbi_call nr a0 a1 a2 a3).
Proof.
  unfold sbi_call, remote_mask, before_fence_i.
  repeat (cbn beta zeta; first [ apply modify_clint_keeps
    | apply for_harts_keeps; intros; constructor; solve [auto with word] | keep ]).
Qed.

#[local] Hint Resolve syscall_keeps sbi_call_keeps : irq.

Lemma mret_alerts : alerts mret.
Proof.
  unfold mret, mod_status, clear_local_caches.
  repeat first [apply alert_if_pending_alerts
    | apply alerts_after; [auto using no_trap_modc, no_trap_getc, no_trap_assert, no_trap_when,
        no_trap_bind, no_trap_mods|intros ?]].
Qed.

Lemma sret_alerts : alerts sret.
Proof.
  unfold sret, mod_status, clear_local_caches.
  repeat first [apply alert_if_pending_alerts
    | apply alerts_after; [try destruct (negb _); auto using no_trap_modc, no_trap_getc,
        no_trap_bind, no_trap_mods|intros ?]].
Qed.

Lemma wfi_keeps : keeps wfi.
Proof.
  unfold wfi, wait_alarm.
  repeat (cbn beta zeta; first [apply modify_external_keeps; intros; apply wfi_sleep_external | keep]).
Qed.

Lemma sc_result_keeps n t a v : keeps (sc_result n t a v).
Proof. unfold sc_result, compare_exchange. keeps. Qed.

Lemma fetch_update_keeps n a f : keeps (fetch_update n a f).
Proof. unfold fetch_update. keeps. Qed.

#[local] Hint Resolve wfi_keeps sc_result_keeps fetch_update_keeps : irq.

Ltac group_keeps :=
  let op := fresh "op" in let f := fresh "f" in
  intros op f Hf; destruct op;
  cbn [step_load step_op_imm step_store step_op step_branch step_system step_f step_f_fma step_d step_d_fma
    step_m step_a step_a_minmax step_privileged] in Hf;
  lazymatch type of Hf with
  | None = _ => discriminate Hf
  | _ => apply some_inj in Hf; subst f
  end.

Lemma step_load_keeps : forall op f, step_load op = Some f -> keeps f.
Proof. group_keeps; unfold load_op, reg_offset; keeps. Qed.

Lemma step_op_imm_keeps : forall op f, step_op_imm op = Some f -> keeps f.
Proof. group_keeps; unfold unary_op, before_fence_i; keeps. Qed.

Lemma step_store_keeps : forall op f, step_store op = Some f -> keeps f.
Proof. group_keeps; unfold store_op, reg_offset; keeps. Qed.

Lemma step_op_keeps c : forall op f, step_op op c = Some f -> keeps f.
Proof. group_keeps; unfold binary_op, pc_pre; keeps. Qed.

Lemma step_branch_keeps c : forall op f, step_branch op c = Some f -> keeps f.
Proof. group_keeps; unfold branch_op, reg_offset, pc_pre; keeps. Qed.

Lemma step_system_keeps : forall op f, step_system op = Some f -> keeps f.
Proof.
  group_keeps; unfold ecall, ecall_user, ecall_sbi, set_a0, csr_swap, csr_update; keeps.
Qed.

Lemma fp_unary_keeps mode read write f rd rs1 :
  keeps mode -> keeps (read rs1) -> (forall a, keeps (f a)) -> (forall v, keeps (write rd v)) ->
  keeps (fp_unary mode read write f rd rs1).
Proof. intros. unfold fp_unary. repeat (apply keeps_bind; [auto|intros]). auto. Qed.

Lemma fp_binary_keeps mode read write f rd rs1 rs2 :
  keeps mode -> (forall r, keeps (read r)) -> (forall a b, keeps (f a b)) ->
  (forall v, keeps (write rd v)) -> keeps (fp_binary mode read write f rd rs1 rs2).
Proof. intros. unfold fp_binary. repeat (apply keeps_bind; [auto|intros]). auto. Qed.

Lemma fp_ternary_keeps mode read write f rd rs1 rs2 rs3 :
  keeps mode -> (forall r, keeps (read r)) -> (forall a b c, keeps (f a b c)) ->
  (forall v, keeps (write rd v)) -> keeps (fp_ternary mode read write f rd rs1 rs2 rs3).
Proof. intros. unfold fp_ternary. repeat (apply keeps_bind; [auto|intros]). auto. Qed.

Ltac fp_keeps :=
  first [apply fp_unary_keeps | apply fp_binary_keeps | apply fp_ternary_keeps | idtac];
  intros; unfold fp_load, fp_store, reg_offset, read_fs, read_32, write_fs, write_32, run1, run2, run3,
    pure1, pure2, truth, class_bit, negated; keeps.

Lemma step_f_keeps : forall op f, step_f op = Some f -> keeps f.
Proof. group_keeps; fp_keeps. Qed.

Lemma step_d_keeps : forall op f, step_d op = Some f -> keeps f.
Proof. group_keeps; fp_keeps. Qed.

Lemma step_m_keeps : forall op f, step_m op = Some f -> keeps f.
Proof. group_keeps; unfold binary_op; keeps. Qed.

Lemma step_a_keeps : forall op f, step_a op = Some f -> keeps f.
Proof.
  group_keeps; unfold load_reserved, store_conditional, amo_w, amo_d, write_32; keeps.
Qed.

Lemma step_privileged_keeps : forall op f, step_privileged op = Some f -> keeps f.
Proof.
  group_keeps; auto using alerts_keeps, mret_alerts, sret_alerts, wfi_keeps.
  unfold sfence_vma. keeps.
Qed.

Lemma step_keeps op c : keeps (step op c).
Proof.
  apply step_dispatch;
    [ apply step_load_keeps | apply step_op_imm_keeps | apply step_store_keeps | apply step_op_keeps
    | apply step_branch_keeps | apply step_system_keeps | apply step_f_keeps | apply step_d_keeps
    | apply step_m_keeps | apply step_a_keeps | apply step_privileged_keeps ].
Qed.

(** ** Traps *)

(** The interrupt state a trap leaves: same enables and pending bits, the new
    privilege level with its interrupts disabled. *)
Definition trapped (level mask : Z) (m m' : Machine W) : Prop :=
  mie (ctx m') = mie (ctx m) /\ mideleg (ctx m') = mideleg (ctx m) /\ own m' = own m /\
  prv (ctx m') = level /\ mstatus (ctx m') .& mask = 0 /\
  forall s', shared m' !! own m = Some s' ->
    exists s, shared m !! own m = Some s /\ mip s' = mip s /\ alarm s' = alarm s.

Lemma clear_bit x k : (x .& Z.lnot k) .& k = 0.
Proof. rewrite <- Z.land_assoc, (Z.land_comm (Z.lnot k)), Z.land_lnot_diag. apply Z.land_0_r. Qed.

Lemma clear_local_caches_post (m : Machine W) Q E :
  (forall m', ctx m' = ctx m ->
     (forall s', shared m' !! own m = Some s' ->
        exists s, shared m !! own m = Some s /\ mip s' = mip s /\ alarm s' = alarm s) -> Q tt m') ->
  post clear_local_caches m Q E.
Proof.
  intros H. unfold clear_local_caches, post, bind.
  destruct (shared m !! own m) as [s|] eqn:Es.
  - rewrite (mods_ok _ _ _ Es). erewrite mods_ok by (eapply own_insert_lookup; eassumption).
    apply H; [reflexivity|]. intros s' Hs'. exists s. split; [reflexivity|]. revert Hs'.
    cbn. rewrite list_insert_insert_eq, list_lookup_insert_eq by (eapply lookup_lt_Some, Es).
    intros [= <-]. split; reflexivity.
  - unfold mods, mod_shared. rewrite Es. exact I.
Qed.

Lemma trap_to_s_post (m : Machine W) : post trap_to_s m (fun _ => trapped 1 0x2 m) (fun _ => False).
Proof.
  unfold trap_to_s, mod_status.
  do 4 (apply post_bind; hnf).
  apply post_bind. destruct (negb _).
  - hnf. repeat (split; [reflexivity|]). split; [apply clear_bit|]. cbn. eauto.
  - apply post_bind. hnf. apply clear_local_caches_post. intros m' Hc Hs.
    hnf. unfold trapped, own in *. rewrite Hc.
    repeat (split; [reflexivity|]). split; [apply clear_bit|]. exact Hs.
Qed.

Lemma trap_to_m_post (m : Machine W) : post trap_to_m m (fun _ => trapped 3 0x8 m) (fun _ => False).
Proof.
  unfold trap_to_m, mod_status, assert_. apply post_bind. destruct (flags_prv =? 3); [hnf|exact I].
  do 5 (apply post_bind; hnf).
  apply post_bind. unfold when. destruct (negb _).
  - apply clear_local_caches_post. intros m' Hc Hs.
    hnf. unfold trapped, own in *. rewrite Hc.
    repeat (split; [reflexivity|]). split; [apply clear_bit|]. exact Hs.
  - hnf. repeat (split; [reflexivity|]). split; [apply clear_bit|]. cbn. eauto.
Qed.

(** In S-mode with SIE clear only the interrupts not delegated can be taken. *)
Lemma trapped_s_takeable m m' s' :
  trapped 1 0x2 m m' -> shared m' !! own m' = Some s' ->
  takeable m' = mip s' .& mie (ctx m) .& Z.lnot (mideleg (ctx m)).
Proof.
  intros (He & Hd & Ho & Hp & Hb & Hs) E. unfold takeable. rewrite E.
  unfold interrupt_pending. rewrite He, Hd, Hp, Hb. cbn. apply Z.lor_0_r.
Qed.

Lemma trapped_s_noticed m m' : trapped 1 0x2 m m' -> prv (ctx m) <> 3 -> noticed m -> noticed m'.
Proof.
  intros Ht Hprv Hn Hp. pose proof Ht as (_ & _ & Ho & _ & _ & Hs).
  destruct (shared m' !! own m') as [s'|] eqn:E'; [|unfold takeable in Hp; rewrite E' in Hp; contradiction].
  rewrite (trapped_s_takeable _ _ _ Ht E') in Hp. rewrite Ho in E'.
  destruct (Hs s' E') as (s & E & Hmip & Halarm).
  exists s'. rewrite Ho. split; [assumption|]. rewrite Halarm. eapply noticed_own; [eassumption..|].
  intros H0. apply Hp. rewrite Hmip. unfold interrupt_pending in H0. apply lor_zero in H0 as [H0 _].
  destruct (prv (ctx m) =? 3) eqn:E3; [lia|]. exact H0.
Qed.

(** In M-mode with MIE clear nothing can be taken. *)
Lemma trapped_m_takeable m m' : trapped 3 0x8 m m' -> takeable m' = 0.
Proof.
  intros (He & Hd & Ho & Hp & Hb & Hs). unfold takeable. destruct (shared m' !! own m'); [|reflexivity].
  unfold interrupt_pending. rewrite Hp, Hb. reflexivity.
Qed.

Lemma deleg_not_m c : deleg_to_s c = true -> prv c <> 3.
Proof. unfold deleg_to_s. intros H E. rewrite E in H. discriminate. Qed.

Lemma sleep_noticed n (m : Machine W) : noticed m -> noticed (fiber_sleep n m).
Proof. apply external_noticed, fiber_sleep_external. Qed.

Lemma trap_keeps : keeps trap.
Proof.
  unfold trap. destruct (flags_prv =? 0); [intros m Hm; exact I|].
  intros m Hm. apply post_bind; hnf. apply post_bind; hnf. apply post_bind.
  destruct (deleg_to_s (ctx m)) eqn:E.
  - eapply post_mono; [apply trap_to_s_post| |contradiction]. intros u m' Ht.
    split; [|exact I]. apply sleep_noticed. eapply trapped_s_noticed; [exact Ht|apply deleg_not_m; assumption|assumption].
  - eapply post_mono; [apply trap_to_m_post| |contradiction]. intros u m' Ht.
    split; [|exact I]. apply sleep_noticed. intros H. rewrite (trapped_m_takeable _ _ Ht) in H. contradiction.
Qed.

(** ** [check_interrupt] *)

Lemma noticed_no_takeable (m : Machine W) : takeable m = 0 -> noticed m.
Proof. intros H Hp. contradiction. Qed.

(** Running the tasks leaves the private context alone. *)
Definition same_ctx {A} (f : M W A) : Prop :=
  forall m, post f m (fun _ m' => ctx m' = ctx m) (fun m' => ctx m' = ctx m).

Lemma same_ctx_bind {A B} (f : M W A) (k : A -> M W B) :
  same_ctx f -> (forall a, same_ctx (k a)) -> same_ctx (bind f k).
Proof.
  intros Hf Hk m. apply post_bind. eapply post_mono; [apply Hf| |auto].
  intros a m1 E. eapply post_mono; [apply Hk| |]; cbn; congruence.
Qed.

Lemma same_ctx_store n a v : same_ctx (store n a v).
Proof.
  intros m. unfold store, post, modify. destruct (_ <? _); [|reflexivity].
  apply ext_ctx, io_write_external.
Qed.

Lemma same_ctx_for_each {A} (l : list A) body : (forall a, same_ctx (body a)) -> same_ctx (for_each l body).
Proof.
  intros H. induction l as [|a l IH]; cbn [for_each]; [intros m; reflexivity|].
  apply same_ctx_bind; auto.
Qed.

Lemma same_ctx_run_task t : same_ctx (run_task t).
Proof.
  destruct t as [i a b]. unfold run_task. apply same_ctx_bind; [intros m; reflexivity|]. intros ics.
  destruct (ics !! i); [|intros m; exact I].
  unfold poison. do 3 (apply same_ctx_bind; [apply same_ctx_for_each; intros; apply same_ctx_store|intros _]).
  intros m. reflexivity.
Qed.

Lemma same_ctx_run_tasks : same_ctx run_tasks.
Proof.
  unfold run_tasks. apply same_ctx_bind.
  { intros m. unfold post, gets. destruct (_ !! _); reflexivity || exact I. }
  intros ts. apply same_ctx_bind.
  { intros m. unfold post, mods, mod_shared. destruct (_ !! _); reflexivity || exact I. }
  intros _. apply same_ctx_for_each, same_ctx_run_task.
Qed.

Lemma land_assoc_zero a b c : b .& c = 0 -> a .& b .& c = 0.
Proof. intros H. rewrite <- Z.land_assoc, H. apply Z.land_0_r. Qed.

(** Taking a trap when every enabled interrupt is delegated. *)
Lemma trap_all_delegated (m : Machine W) :
  mie (ctx m) .& Z.lnot (mideleg (ctx m)) = 0 -> post trap m (fun _ => noticed) (fun _ => True).
Proof.
  intros Hd. unfold trap. apply post_bind. destruct (flags_prv =? 0); [exact I|]. hnf.
  apply post_bind; hnf. apply post_bind.
  destruct (deleg_to_s (ctx m)) eqn:E.
  - eapply post_mono; [apply trap_to_s_post| |auto]. intros u m' Ht.
    apply sleep_noticed, noticed_no_takeable.
    destruct (shared m' !! own m') as [s'|] eqn:E'; [|unfold takeable; rewrite E'; reflexivity].
    rewrite (trapped_s_takeable _ _ _ Ht E'). apply land_assoc_zero, Hd.
  - eapply post_mono; [apply trap_to_m_post| |auto]. intros u m' Ht.
    apply sleep_noticed, noticed_no_takeable. apply (trapped_m_takeable _ _ Ht).
Qed.

Lemma get_interrupt_pending_ok (m : Machine W) s :
  shared m !! own m = Some s -> get_interrupt_pending m = Ok (interrupt_pending (ctx m) (mip s)) m.
Proof. intros E. unfold get_interrupt_pending, bind, getc, gets. rewrite E. reflexivity. Qed.

Lemma check_interrupt_all_delegated (m : Machine W) :
  mie (ctx m) .& Z.lnot (mideleg (ctx m)) = 0 -> post check_interrupt m (fun _ => noticed) (fun _ => True).
Proof.
  intros Hd. unfold check_interrupt. apply post_bind. unfold post at 1, gets.
  destruct (shared m !! own m) as [s|] eqn:E; [|exact I].
  apply post_bind. unfold post at 1. rewrite (mods_ok _ _ _ E).
  destruct (negb _); [exact I|].
  apply post_bind. eapply post_mono; [apply same_ctx_run_tasks| |auto].
  intros u m1 Hc. cbn in Hc. apply post_bind.
  unfold post at 1. destruct (shared m1 !! own m1) as [s1|] eqn:E1.
  2: { unfold get_interrupt_pending, bind, getc, gets. rewrite E1. exact I. }
  rewrite (get_interrupt_pending_ok _ _ E1). destruct (_ =? 0) eqn:Ep.
  - apply Z.eqb_eq in Ep. apply noticed_no_takeable. unfold takeable. rewrite E1. exact Ep.
  - do 2 (apply post_bind; unfold post at 1, modc; cbn beta iota).
    apply trap_all_delegated. cbn. rewrite Hc. exact Hd.
Qed.
End Rules.

(** C32. An interrupt that can be taken is never overlooked between two interrupt
    checks: whatever instructions the hart executes (CSR writes that enable,
    delegate or raise interrupts and privilege changes included), whatever
    traps it takes and whatever other threads do to it, if some interrupt is
    pending, enabled and not masked at the current privilege level, then the
    hart's alarm is set, so that translated code will call [check_interrupt]. *)
Theorem interrupts_noticed {W} {P : Platform W} {Laws : PlatformLaws W} (m m' : Machine W) :
  rtc thread_step m m' -> noticed m -> noticed m'.
Proof.
  assert (Hk : forall {A} (f : M W A) m1 m2 a, keeps f -> f m1 = Ok a m2 -> noticed m1 -> noticed m2).
  { intros A f m1 m2 a Hf E Hn. specialize (Hf m1 Hn). unfold post in Hf. rewrite E in Hf. apply Hf. }
  assert (He : forall {A} (f : M W A) m1 m2, keeps f -> f m1 = Err m2 -> noticed m1 -> noticed m2).
  { intros A f m1 m2 Hf E Hn. specialize (Hf m1 Hn). unfold post in Hf. rewrite E in Hf. apply Hf. }
  induction 1 as [|m1 m2 m3 H _ IH]; [auto|]. intros Hn. apply IH. clear IH.
  destruct H as [m v _|m v _|m m1 op c _ H|m m1 op c _ H|m m1 H|m m1 H].
  - apply noticed_ctx; [repeat split|assumption].
  - apply noticed_ctx; [repeat split|assumption].
  - eapply Hk; [apply step_keeps|eassumption..].
  - eapply He; [apply step_keeps|eassumption..].
  - eapply Hk; [apply trap_keeps|eassumption..].
  - eapply external_noticed; eassumption.
Qed.

(** A hart in machine mode with machine software interrupts enabled and pending
    ([mie] and [mip] bit 3), masked by MIE; CSRRS sets MIE. *)
Definition masked_machine : Machine unit :=
  set_shared [set_mip 8 new_shared]
    (set_ctx (set_mie 8 (set_registers (<[5%nat := 8]> (repeat 0 32)) reset_context)) reset_machine).

Lemma interrupts_noticed_witness :
  exists m', rtc (@thread_step unit idle_platform) masked_machine m' /\ takeable m' = 8 /\ noticed m'.
Proof.
  assert (H : on_result takeable (@step unit idle_platform (Op.Csrrs 0 5 Csr.Mstatus) false masked_machine)
    = Some 8) by (vm_compute; reflexivity).
  apply on_result_some in H as ([] & m' & E & Ht). exists m'.
  assert (Hs : rtc (@thread_step unit idle_platform) masked_machine m').
  { apply rtc_once. apply (@hart_execute unit idle_platform _ _ (Op.Csrrs 0 5 Csr.Mstatus) false);
      [|exact E]. apply (decodes_full 0x3002A073); [apply in_u_lit; reflexivity|reflexivity]. }
  split; [exact Hs|]. split; [exact Ht|].
  apply (@interrupts_noticed unit idle_platform idle_laws masked_machine m' Hs).
  intros Hn. exfalso. apply Hn. vm_compute. reflexivity.
Defined.

(** C35. When every enabled interrupt is delegated to S-mode, [check_interrupt]
    leaves no interrupt behind: after it returns, an interrupt that can still
    be taken has its alarm set. *)
Theorem check_interrupt_complete {W} {P : Platform W} {Laws : PlatformLaws W} (m m' : Machine W) :
  mie (ctx m) .& Z.lnot (mideleg (ctx m)) = 0 -> check_interrupt m = Ok tt m' -> noticed m'.
Proof.
  intros Hd H. pose proof (check_interrupt_all_delegated m Hd) as Hp. unfold post in Hp.
  rewrite H in Hp. exact Hp.
Qed.

(** S-mode external and timer interrupts, delegated, pending in U-mode. *)
Definition delegated_machine : Machine unit :=
  set_shared [set_alarm 1 (set_mip 0x220 new_shared)]
    (set_ctx (set_prv 0 (set_mideleg 0x222 (set_mie 0x220 reset_context))) reset_machine).

Lemma check_interrupt_complete_witness :
  exists m', @check_interrupt unit idle_platform delegated_machine = Ok tt m' /\
    prv (ctx m') = 1 /\ scause (ctx m') = 2 ^ 63 + 9 /\ noticed m'.
Proof.
  assert (H : on_result (fun m => (prv (ctx m), scause (ctx m)))
    (@check_interrupt unit idle_platform delegated_machine) = Some (1, 2 ^ 63 + 9)) by (vm_compute; reflexivity).
  apply on_result_some in H as ([] & m' & E & Ht). injection Ht as H1 H2. exists m'.
  repeat (split; [assumption|]).
  apply (@check_interrupt_complete unit idle_platform idle_laws delegated_machine m'); [reflexivity|exact E].
Defined.

(** A delegated S-mode external interrupt (bit 9) and an M-mode timer interrupt
    (bit 7) both pending in U-mode. *)
Definition mixed_machine : Machine unit :=
  set_shared [set_alarm 1 (set_mip 0x280 new_shared)]
    (set_ctx (set_prv 0 (set_mideleg 0x222 (set_mie 0x280 reset_context))) reset_machine).

(** Without that hypothesis [check_interrupt] loses interrupts: with a
    delegated S-mode external interrupt and an M-mode timer interrupt pending,
    it clears the alarm and takes the S-mode one, since it picks the highest
    numbered bit; the timer interrupt can be taken in S-mode, but the alarm is
    clear and the hart will not look at it. *)
Theorem check_interrupt_loses_machine_interrupt :
  exists m', @check_interrupt unit idle_platform mixed_machine = Ok tt m' /\
    takeable m' = 0x80 /\ ~ alarmed m'.
Proof.
  assert (H : on_result (fun m => (takeable m, option_map alarm (shared m !! own m)))
    (@check_interrupt unit idle_platform mixed_machine) = Some (0x80, Some 0)) by (vm_compute; reflexivity).
  apply on_result_some in H as ([] & m' & E & Ht). injection Ht as H1 H2. exists m'.
  split; [exact E|]. split; [exact H1|].
  intros (s & Hs & Ha). rewrite Hs in H2. injection H2 as H2. rewrite H2 in Ha. discriminate.
Qed.
