(* ===== verification/HartBlockProps.v ===== *)
(** Block discovery is total and stays in its page: [translate_loop] ends for
    every page contents, every instruction it compiles alone is allowed at the
    privilege level of the block, and [translate_code] never fails one of its
    assertions.  The exception is macro-op fusion, which skips the privilege
    check of the second instruction. *)

From Stdlib Require Import ZArith Lia Bool List.
From stdpp Require Import base gmap list relations.
From S2P Require Import Prelude RiscvCsr RiscvOp RiscvDecode RiscvEncode RiscvDecodeProps Mmu.
From S2P Require Import Softfp HartState Hart HartCsr HartStep HartStepExt HartTrap HartBlock.
From S2P Require Import HartLogic HartInv HartReach.
Local Open Scope Z_scope.
Local Open Scope rust_scope.

Section Blocks.
Context {W : Type} {P : Platform W} {C : Compiler W}.
Context (m : Machine W) (Hmem : bytes (mem m)).
Local Open Scope interp_scope.
Import Op.

(** ** Fetching *)

Lemma read_memory_ok n addr : io_boundary <= addr -> read_memory n addr m = Ok (load_bytes (mem m) addr n) m.
Proof.
  intros H. unfold read_memory, bind, get, assert_.
  replace (io_boundary <=? addr) with true by lia. reflexivity.
Qed.

Lemma halves_low hi lo : in_u 16 lo -> (hi << 16 .| lo) .& 3 = lo .& 3.
Proof.
  intros H. rewrite Z.land_lor_distr_l. replace ((hi << 16) .& 3) with 0; [reflexivity|].
  symmetry. change 3 with (2 ^ 2 - 1). rewrite land_mask, Z.shiftl_mul_pow2 by lia.
  change (2 ^ 16) with (2 ^ 14 * 2 ^ 2). rewrite Z.mul_assoc. apply Z.mod_mul. lia.
Qed.

(** What [read_insn] returns: a decoded operation, or the low half of one that
    would leave the page. *)
Definition fetched_ok (pc : Z) (r : Fetched) : Prop :=
  match r with
  | Crosses _ => pc .& 4095 = 4094
  | Insn op c bits =>
      if c then decode_compressed bits = Some op
      else decode bits = Some op /\ pc .& 4095 <> 4094
  end.

Lemma read_insn_ok pc :
  io_boundary <= pc -> io_boundary <= u64 (pc + 2) -> exists r, read_insn pc m = Ok r m /\ fetched_ok pc r.
Proof.
  intros H1 H2. unfold read_insn.
  rewrite (bind_ok _ _ _ _ _ (read_memory_ok 2 pc H1)).
  assert (Hlo : in_u 16 (load_bytes (mem m) pc 2)) by apply (load_bytes_range _ 2 Hmem).
  destruct (_ .& 3 =? 3) eqn:E3.
  - destruct (pc .& 4095 =? 4094) eqn:E4; [apply Z.eqb_eq in E4; eexists; split; [reflexivity|exact E4]|].
    rewrite (bind_ok _ _ _ _ _ (read_memory_ok 2 _ H2)). cbn beta zeta.
    apply Z.eqb_eq in E3. apply Z.eqb_neq in E4.
    destruct (decode_some (load_bytes (mem m) (u64 (pc + 2)) 2 << 16 .| load_bytes (mem m) pc 2)) as [op Hop].
    { rewrite halves_low by exact Hlo. exact E3. }
    unfold decoded. rewrite Hop. eexists. split; [reflexivity|]. split; assumption.
  - pose proof (all_words_16 _ compressed_ok_all _ Hlo) as Hc. unfold compressed_ok in Hc. rewrite E3 in Hc.
    unfold decoded. destruct (decode_compressed _) as [op|] eqn:Hop; [|discriminate].
    eexists. split; [reflexivity|exact Hop].
Qed.

(** ** One iteration *)

(** The calls made to the code generator: an operation compiled alone may be
    executed at level [prv]; a fused branch jumps exactly over the operation it
    is fused with. *)
Definition emit_ok (prv : Z) (e : Emit) : Prop :=
  match e with
  | CompileOp op _ _ => Op.min_prv_level op <= prv
  | CompileCondOp bop bc op c => is_branch bop = true /\ branch_imm bop = insn_len bc + insn_len c
  | _ => True
  end.

Definition page_end (pc : Z) : Z := pc - pc mod 4096 + 4096.

(** A position in a page of RAM: even, as every [pc] the hart computes but for
    a trap vector in vectored mode. *)
Definition code_addr (pc : Z) : Prop := io_boundary <= pc /\ 0 <= pc /\ page_end pc < 2 ^ 64 /\ pc mod 2 = 0.

Lemma low12 pc : pc .& 4095 = pc mod 4096.
Proof. change 4095 with (2 ^ 12 - 1). apply land_mask. lia. Qed.

Lemma u64_small x : 0 <= x < 2 ^ 64 -> u64 x = x.
Proof. apply wrap_id. Qed.

Lemma insn_len_cases c : insn_len c = 2 \/ insn_len c = 4.
Proof. destruct c; auto. Qed.

(** An instruction that does not cross ends in its page. *)
Lemma insn_end pc op c bits :
  code_addr pc -> fetched_ok pc (Insn op c bits) ->
  u64 (pc + insn_len c) = pc + insn_len c /\ pc + insn_len c <= page_end pc /\
  (pc + insn_len c) mod 2 = 0.
Proof.
  intros (Hb & H0 & H64 & Heven) Hf. unfold page_end in *. unfold fetched_ok in Hf. rewrite low12 in Hf.
  assert (E : insn_len c = 2 \/ insn_len c = 4 /\ pc mod 4096 <> 4094) by (destruct c; [left|right]; tauto).
  rewrite u64_small by dlia. split; [reflexivity|]. dlia.
Qed.

Lemma code_addr_next pc n :
  code_addr pc -> 0 <= n -> pc + n <= page_end pc -> (pc + n) mod 2 = 0 -> (pc + n) mod 4096 <> 0 ->
  code_addr (pc + n) /\ page_end (pc + n) = page_end pc.
Proof. intros (Hb & H0 & H64 & Heven) Hn He H2 Hp. unfold code_addr, page_end in *. split; dlia. Qed.

Lemma next_half pc : code_addr pc -> io_boundary <= u64 (pc + 2).
Proof. intros (Hb & H0 & H64 & He). unfold page_end in *. rewrite u64_small by dlia. lia. Qed.

Definition fused_ok (op : Op) (c : bool) (e : Z) (r : option (Op * bool)) : Prop :=
  match r with
  | None => True
  | Some (next_op, next_c) =>
      is_branch op = true /\ branch_imm op = insn_len c + insn_len next_c /\ e mod 4096 <> 0 /\
      exists bits, fetched_ok e (Insn next_op next_c bits)
  end.

Lemma fuse_candidate_ok op c e :
  (e mod 4096 <> 0 -> code_addr e) ->
  exists r, fuse_candidate op c e m = Ok r m /\ fused_ok op c e r.
Proof.
  intros He. unfold fuse_candidate, get, bind at 1. rewrite low12.
  destruct (e mod 4096 =? 0) eqn:E0; [eexists; split; [reflexivity|exact I]|].
  apply Z.eqb_neq in E0. specialize (He E0).
  destruct (can_fuse_cond_op m); [|eexists; split; [reflexivity|exact I]].
  destruct (is_branch op) eqn:Eb; [|eexists; split; [reflexivity|exact I]]. cbn [negb andb].
  destruct (read_insn_ok e (proj1 He) (next_half _ He)) as (r & Hr & Hok).
  assert (Hshort : exists o, (if branch_imm op =? (if c then 4 else 6) then
         let* next := read_insn e in
         ret (match next with Insn next_op true _ => Some (next_op, true) | _ => None end)
       else ret None) m = Ok o m /\ fused_ok op c e o).
  { destruct (_ =? _) eqn:Ei; [|eexists; split; [reflexivity|exact I]].
    rewrite (bind_ok _ _ _ _ _ Hr). eexists. split; [reflexivity|].
    destruct r as [next_op [] bits|]; try exact I. apply Z.eqb_eq in Ei.
    repeat split; eauto. destruct c; exact Ei. }
  destruct Hshort as (o & Ho & Hfo). rewrite (bind_ok _ _ _ _ _ Ho).
  destruct o as [[no nc]|]; [eexists; split; [reflexivity|exact Hfo]|]. clear Ho Hfo.
  destruct (_ =? _) eqn:Ei; [|eexists; split; [reflexivity|exact I]].
  rewrite (bind_ok _ _ _ _ _ Hr). eexists. split; [reflexivity|].
  destruct r as [next_op [] bits|]; try exact I. apply Z.eqb_eq in Ei.
  repeat split; eauto. destruct c; exact Ei.
Qed.

(** The result of one iteration from [pc]. *)
Definition one_ok (prv pc : Z) (emits : list Emit) (e : Z) (continue : bool) : Prop :=
  Forall (emit_ok prv) emits /\ pc <= e <= page_end pc /\ e mod 2 = 0 /\
  (if continue then pc < e /\ e mod 4096 <> 0 else pc < e \/ pc mod 4096 = 4094).

Lemma allowed_op prv op :
  0 <= prv < 256 ->
  Op.min_prv_level (if u8 prv <? Op.min_prv_level op then Illegal else op) <= prv.
Proof.
  intros Hp. unfold u8. rewrite wrap_id by exact Hp. destruct (_ <? _) eqn:E; [cbn; lia|lia].
Qed.

Lemma translate_one_ok prv pc :
  0 <= prv < 256 -> code_addr pc ->
  exists emits e continue, translate_one prv pc m = Ok (emits, e, continue) m /\ one_ok prv pc emits e continue.
Proof.
  intros Hp Hpc. unfold translate_one.
  destruct (read_insn_ok pc (proj1 Hpc) (next_half _ Hpc)) as (r & Hr & Hok).
  rewrite (bind_ok _ _ _ _ _ Hr). destruct r as [op c bits|bits].
  2: { unfold fetched_ok in Hok. rewrite low12 in Hok. do 3 eexists. split; [reflexivity|].
       split; [repeat constructor|]. destruct Hpc as (_ & _ & _ & ?). unfold page_end. dlia. }
  destruct (insn_end _ _ _ _ Hpc Hok) as (-> & Hle & Heven). cbn beta zeta.
  set (op' := if u8 prv <? Op.min_prv_level op then Illegal else op).
  assert (Hop : Op.min_prv_level op' <= prv) by (apply allowed_op; exact Hp).
  pose proof (insn_len_cases c) as Hc. set (e := pc + insn_len c) in *.
  destruct (fuse_candidate_ok op' c e) as (f & Hf & Hfok).
  { intros He. apply code_addr_next; auto; lia. }
  rewrite (bind_ok _ _ _ _ _ Hf). destruct f as [[next_op next_c]|].
  - destruct Hfok as (Hb & Hi & He & nbits & Hn).
    destruct (code_addr_next pc (insn_len c)) as [Hca Hpe]; [auto; lia..|]. fold e in Hca, Hpe.
    destruct (insn_end _ _ _ _ Hca Hn) as (-> & Hle' & Heven'). rewrite Hpe in Hle'.
    pose proof (insn_len_cases next_c). rewrite low12.
    destruct (_ =? 0) eqn:Ez; do 3 eexists; (split; [reflexivity|]);
      (split; [repeat constructor; auto|]); lia.
  - rewrite low12. destruct (is_branch op'); [|destruct (can_change_control_flow op'); [|destruct (_ =? 0) eqn:Ez]];
      do 3 eexists; (split; [reflexivity|]); (split; [repeat constructor; exact Hop|]); lia.
Qed.

(** ** The loop *)

(** Each iteration consumes two bytes of the page at least. *)
Lemma translate_loop_ok prv fuel : forall pc,
  0 <= prv < 256 -> code_addr pc -> page_end pc - pc <= 2 * Z.of_nat fuel ->
  exists emits e, translate_loop fuel prv pc m = Ok (emits, e) m /\
    Forall (emit_ok prv) emits /\ pc <= e <= page_end pc /\ (pc < e \/ pc mod 4096 = 4094).
Proof.
  induction fuel as [|fuel IH]; intros pc Hp Hpc Hfuel.
  { destruct Hpc as (_ & ? & _ & _). unfold page_end in Hfuel. dlia. }
  cbn [translate_loop].
  destruct (translate_one_ok prv pc Hp Hpc) as (emits & e & continue & H1 & He & Hr & H2 & Hcont).
  rewrite (bind_ok _ _ _ _ _ H1). destruct continue.
  - destruct Hcont as [Hlt Hne].
    destruct (code_addr_next pc (e - pc)) as [Hca Hpe]; replace (pc + (e - pc)) with e in * by lia; auto; try lia.
    destruct (IH e Hp Hca) as (rest & e' & H3 & Hrest & Hr' & _).
    { rewrite Hpe. destruct Hpc as (_ & _ & _ & ?). dlia. }
    rewrite (bind_ok _ _ _ _ _ H3). exists (emits ++ rest), e'. split; [reflexivity|].
    split; [apply Forall_app; auto|]. rewrite Hpe in Hr'. lia.
  - exists emits, e. split; [reflexivity|]. auto.
Qed.

Lemma same_page pc e :
  0 <= pc -> pc <= e <= page_end pc -> page_end pc < 2 ^ 64 -> (pc < e \/ pc mod 4096 = 4094) ->
  pc .& Z.lnot 4095 = u64 (e - 1) .& Z.lnot 4095.
Proof.
  intros H0 He H64 Hne. rewrite !land_lnot, !low12. unfold page_end in *.
  rewrite u64_small by dlia. dlia.
Qed.
End Blocks.

(** ** [translate_code] *)

(** The bump allocator's offset is in its heap. *)
Definition heap_ok (ic : ICache) : Prop := 0 <= heap_offset ic <= HEAP_SIZE.

(** The code generator needs at most the 256 KiB reserved for a block, and
    writes host memory only. *)
Class CompilerLaws (W : Type) {C : Compiler W} : Prop := {
  code_len_bound m pc emits : 0 <= code_len m pc emits <= 256 * 1024;
  write_code_frame code pc emits (m : Machine W) :
    icaches (write_code code pc emits m) = icaches m;
}.

Section TranslateCode.
Context {W : Type} {P : Platform W} {C : Compiler W} {CL : CompilerLaws W}.
Local Open Scope interp_scope.

Lemma map_insert_commit prv pc v len ic :
  prv_ok prv -> 0 <= heap_offset ic + len <= HEAP_SIZE ->
  exists ic1 ic2 map, map_insert prv pc v ic = Some ic1 /\ commit len ic1 = Some ic2 /\
    heap_offset ic2 = heap_offset ic + len /\
    prv_map prv ic2 = Some map /\ map !! pc = Some v /\
    ((exists start, ic = MkICache ∅ ∅ ∅ start 0) -> map = {[ pc := v ]}).
Proof.
  intros Hp Hlen. unfold commit. destruct Hp as [->|[->| ->]]; cbn [map_insert]; do 3 eexists;
    (split; [reflexivity|]); cbn [heap_offset];
    replace (heap_offset ic + len <=? HEAP_SIZE) with true by lia;
    (split; [reflexivity|]); (split; [reflexivity|]); (split; [reflexivity|]);
    (split; [apply lookup_insert_eq|]); intros [start ->]; reflexivity.
Qed.

Lemma translate_code_total (m : Machine W) prv pc ic :
  bytes (mem m) -> prv_ok prv -> code_addr pc -> icaches m !! own m = Some ic -> heap_ok ic ->
  exists entry m' ic', translate_code prv pc m = Ok entry m' /\
    icaches m' !! own m = Some ic' /\ heap_ok ic' /\
    exists map code, prv_map prv ic' = Some map /\ map !! pc = Some (code, entry.2) /\
      (entry.1 = code \/ entry.1 = 0 /\ map = {[ pc := (code, entry.2) ]}).
Proof.
  intros Hmem Hprv Hpc Hic Hheap. unfold translate_code.
  rewrite (bind_ok (get own) _ m (own m) m eq_refl).
  assert (Hget : get_icache (own m) m = Ok ic m) by (unfold get_icache; rewrite Hic; reflexivity).
  rewrite (bind_ok _ _ _ _ _ Hget). cbn beta zeta.
  assert (Hp : 0 <= prv < 256) by (destruct Hprv as [->|[->| ->]]; lia).
  destruct (translate_loop_ok m Hmem prv 2048 pc Hp Hpc) as (emits & e & Hloop & _ & Hr & Hne).
  { destruct Hpc as (_ & ? & _ & _). unfold page_end. dlia. }
  rewrite (bind_ok _ _ _ _ _ Hloop).
  destruct Hpc as (_ & H0 & H64 & _).
  rewrite (same_page pc e H0 Hr H64 Hne), Z.eqb_refl.
  set (roll := _ <? 256 * 1024). set (ic0 := if roll then rollover ic else ic).
  assert (Hroom : 0 <= heap_offset ic0 <= HEAP_SIZE - 256 * 1024).
  { unfold ic0. destruct roll eqn:E; unfold roll, space, heap_ok, rollover, HEAP_SIZE in *;
      cbn [snd heap_offset] in *; lia. }
  pose proof (code_len_bound m pc emits) as Hlen.
  set (code := (space ic0).1).
  repeat (rewrite (bind_ok (assert_ true) _ _ tt _ eq_refl)
    || rewrite (bind_ok (get _) _ _ _ _ eq_refl) || rewrite (bind_ok (modify _) _ _ tt _ eq_refl)).
  replace (code_len m pc emits <=? 256 * 1024) with true by lia.
  rewrite (bind_ok (assert_ true) _ _ tt _ eq_refl). cbn beta zeta.
  set (v := (code, code + speculative_len m pc emits)).
  assert (Hfits : 0 <= heap_offset ic0 + code_len m pc emits <= HEAP_SIZE) by lia.
  destruct (map_insert_commit prv pc v (code_len m pc emits) ic0 Hprv Hfits) as
    (ic1 & ic2 & map & H1 & H2 & Hoff & Hmap & Hpcv & Hroll).
  rewrite H1, (bind_ok (expect (Some ic1)) _ _ ic1 _ eq_refl).
  rewrite H2, (bind_ok (expect (Some ic2)) _ _ ic2 _ eq_refl).
  rewrite (bind_ok (put_icache _ _) _ _ tt _ eq_refl).
  do 2 eexists. exists ic2. split; [reflexivity|].
  split. { cbn. rewrite write_code_frame. apply list_lookup_insert_eq. eapply lookup_lt_Some, Hic. }
  split. { unfold heap_ok. lia. }
  exists map, code. split; [assumption|]. split; [assumption|].
  destruct roll; [right|left; reflexivity]. split; [reflexivity|]. apply Hroll. eexists. reflexivity.
Qed.
End TranslateCode.

(** ** Theorems *)

(** C7. Block discovery terminates and stays in its page: from an even address
    of a page of RAM, whatever the page holds, the loop of [translate_code]
    ends within its 2048 iterations without a panic, does not change the
    machine, covers a nonempty part of the page (or the half instruction at its
    end), and every operation it compiles alone may be executed at the
    privilege level of the block. *)
Theorem block_discovery {W} {P : Platform W} {C : Compiler W} (m : Machine W) prv pc :
  bytes (mem m) -> 0 <= prv < 256 -> code_addr pc ->
  exists emits e, translate_loop 2048 prv pc m = Ok (emits, e) m /\
    Forall (emit_ok prv) emits /\ pc <= e <= page_end pc /\
    pc .& Z.lnot 4095 = u64 (e - 1) .& Z.lnot 4095.
Proof.
  intros Hmem Hp Hpc.
  destruct (translate_loop_ok m Hmem prv 2048 pc Hp Hpc) as (emits & e & Hl & He & Hr & Hne).
  { destruct Hpc as (_ & ? & _ & _). unfold page_end. dlia. }
  exists emits, e. destruct Hpc as (_ & H0 & H64 & _). auto using same_page.
Qed.

#[export] Instance plain_compiler_laws : @CompilerLaws unit plain_compiler.
Proof. split; cbn; intros; [lia|reflexivity]. Qed.

(** A page of RAM holding the given words, zero after them. *)
Definition program (words : list Z) : Z -> Z := fun a =>
  let i := a - 0x40000000 in
  if i <? 0 then 0
  else wrap 8 (nth (Z.to_nat (i / 4)) words 0 >> (8 * (i mod 4))).

Lemma program_bytes words : bytes (program words).
Proof.
  intros a. unfold program. destruct (_ <? 0); [apply in_u_lit; reflexivity|]. apply wrap_range. lia.
Qed.

(** BEQ x1, x2, +8; MRET *)
Definition fused_program : Z -> Z := program [0x00208463; 0x30200073].

Definition user_machine : Machine unit :=
  set_icaches [new_icache 0x7ffec0000000]
    (set_mem fused_program (set_ctx (set_prv 0 (set_mstatus 0x1800 reset_context)) reset_machine)).

Lemma sample_code_addr : @code_addr unit idle_platform 0x40000000.
Proof. repeat split; vm_compute; congruence. Qed.

Lemma block_discovery_witness :
  exists emits e,
    @translate_loop unit idle_platform plain_compiler 2048 0 0x40000000 user_machine = Ok (emits, e) user_machine /\
    Forall (emit_ok 0) emits.
Proof.
  destruct (@block_discovery unit idle_platform plain_compiler user_machine 0 0x40000000) as (l & e & H & Hf & _);
    [apply program_bytes|lia|exact sample_code_addr|]. eauto.
Defined.

(** [translate_code] always succeeds: for a privilege level that exists and an
    even address of RAM, given a code generator that keeps within the space
    reserved for a block, none of its assertions fails, the allocator stays
    inside its heap, and the block is entered in the map of its privilege
    level; when the heap rolled over, it is the only block left there and the
    caller is told not to patch a jump to it. *)
Theorem translate_code_ok {W} {P : Platform W} {C : Compiler W} {CL : CompilerLaws W}
    (m : Machine W) prv pc ic :
  bytes (mem m) -> prv_ok prv -> code_addr pc -> icaches m !! own m = Some ic -> heap_ok ic ->
  exists entry m' ic', translate_code prv pc m = Ok entry m' /\
    icaches m' !! own m = Some ic' /\ heap_ok ic' /\
    exists map code, prv_map prv ic' = Some map /\ map !! pc = Some (code, entry.2) /\
      (entry.1 = code \/ entry.1 = 0 /\ map = {[ pc := (code, entry.2) ]}).
Proof. apply translate_code_total. Qed.

Lemma translate_code_ok_witness :
  exists entry m', @translate_code unit idle_platform plain_compiler 0 0x40000000 user_machine = Ok entry m'.
Proof.
  destruct (@translate_code_ok unit idle_platform plain_compiler plain_compiler_laws user_machine 0 0x40000000
    (new_icache 0x7ffec0000000)) as (entry & m' & _ & H & _);
    [apply program_bytes|left; reflexivity|exact sample_code_addr|reflexivity|split; vm_compute; congruence|].
  eauto.
Defined.

(** The first call to the code generator. *)
Definition first_emit (r : Res unit (list Emit * Z)) : option Emit :=
  match r with Ok (emits, _) _ => head emits | _ => None end.

(** Macro-op fusion defeats the privilege check: in U-mode a branch over MRET
    is compiled together with the MRET, which keeps its meaning although its
    privilege level is M, and the interpreter's MRET then enters the mode
    [mstatus.MPP] names, here M-mode. *)
Theorem fused_op_skips_privilege_check :
  first_emit (@translate_loop unit idle_platform plain_compiler 2048 0 0x40000000 user_machine)
    = Some (CompileCondOp (Op.Beq 1 2 8) false Op.Mret false) /\
  Op.min_prv_level Op.Mret = 3 /\
  prv (ctx user_machine) = 0 /\
  on_result (fun m => prv (ctx m)) (@riscv_step unit idle_platform Op.Mret user_machine) = Some 3.
Proof. vm_compute. auto. Qed.
