(* ===== verification/IrqPin.v ===== *)
(** Interrupt pins: the trait [IrqPin] of lib/io/src/lib.rs as a class, what a
    device relies on when it drives pins, and the pins of the harts
    ([CoreIrq] of src/emu/mod.rs), which set and clear bits of [mip]. *)

From Stdlib Require Import ZArith Lia Bool List Btauto.
From stdpp Require Import base list.
From S2P Require Import Prelude HartState Hart HartLogic.
Local Open Scope Z_scope.
Local Open Scope rust_scope.

(** The pins [0..pins w] of a world [w] outside the device: [set_level] is the
    trait's method, [level] observes what is at the other end. *)
Class IrqPin (W : Type) : Type := {
  pins : W -> nat;
  set_level : nat -> bool -> W -> W;
  level : nat -> W -> bool;
}.

(** What a device may assume of its pins. *)
Class IrqPinLaws (W : Type) {P : IrqPin W} : Prop := {
  pins_set i b w : pins (set_level i b w) = pins w;
  level_set i b w : (i < pins w)%nat -> level i (set_level i b w) = b;
  level_other i j b w : i <> j -> level j (set_level i b w) = level j w;
}.

(** The default methods of the trait. *)
Definition pin_raise {W} `{IrqPin W} (i : nat) : W -> W := set_level i true.
Definition pin_lower {W} `{IrqPin W} (i : nat) : W -> W := set_level i false.
Definition pin_pulse {W} `{IrqPin W} (i : nat) (w : W) : W := pin_lower i (pin_raise i w).

(** [struct CoreIrq(usize, u64)]: the pin of hart [i] for the interrupts [mask]. *)
Definition core_set_level (mask : Z) (b : bool) (s : SharedContext) : SharedContext :=
  if b then assert_int mask s else deassert_int mask s.

Definition core_level (mask : Z) (s : SharedContext) : bool := (mip s .& mask) =? mask.

Definition core_irq (mask : Z) : IrqPin (list SharedContext) := {|
  pins := length;
  set_level i b w := alter (core_set_level mask b) i w;
  level i w := from_option (core_level mask) false (w !! i);
|}.

Lemma mip_assert mask s : mip (assert_int mask s) = mip s .| mask.
Proof. unfold assert_int, alert, fire_alarm. destruct (_ <>? _); reflexivity. Qed.

Lemma core_level_set mask b s : mask <> 0 -> core_level mask (core_set_level mask b s) = b.
Proof.
  intros Hmask. unfold core_level, core_set_level. destruct b.
  - rewrite mip_assert. apply Z.eqb_eq. Z.bitwise. btauto.
  - apply Z.eqb_neq. cbn. intros E. apply Hmask. rewrite <- E, <- Z.land_assoc, (Z.land_comm _ mask).
    rewrite Z.land_lnot_diag. apply Z.land_0_r.
Qed.

#[export] Instance core_irq_laws mask : mask <> 0 -> @IrqPinLaws (list SharedContext) (core_irq mask).
Proof.
  intros Hmask. constructor; cbn; intros.
  - apply length_alter.
  - rewrite list_lookup_alter_eq. destruct (lookup_lt_is_Some_2 w i H) as [s ->]. cbn.
    apply core_level_set, Hmask.
  - rewrite list_lookup_alter_ne by assumption. reflexivity.
Qed.
