(* ===== verification/Plic.v ===== *)
(** The interrupt controller of lib/io/src/hw/intc/plic.rs: registers, claim
    and completion, the edge-triggered input pins, and the output pins it
    drives through the class [IrqPin]. *)

From Stdlib Require Import ZArith Lia Bool List Btauto.
From stdpp Require Import base list.
From S2P Require Import Prelude HartState Hart HartLogic IrqPin.
Local Open Scope Z_scope.
Local Open Scope rust_scope.

Module Plic.

Definition ADDR_PRIORITY_START : Z := 0x000.
Definition ADDR_PRIORITY_END : Z := 0xFFC.
Definition ADDR_PENDING_START : Z := 0x1000.
Definition ADDR_PENDING_END : Z := 0x107C.
Definition ADDR_ENABLE_START : Z := 0x2000.
Definition ADDR_ENABLE_SIZE : Z := 0x80.
Definition ADDR_CONTEXT_START : Z := 0x200000.
Definition ADDR_CONTEXT_SIZE : Z := 0x1000.
Definition OFFSET_PRIORITY_THRESHOLD : Z := 0x000.
Definition OFFSET_INTERRUPT_CLAIM : Z := 0x004.

(** [struct PlicInner]; the output pins [irq] are those of the world. *)
Record PlicInner : Type := MkPlic {
  priority : list Z;
  pending : Z;
  claimed : Z;
  enable : list Z;
  threshold : list Z;
}.

Definition set_priority v (p : PlicInner) := MkPlic v (pending p) (claimed p) (enable p) (threshold p).
Definition set_pending v (p : PlicInner) := MkPlic (priority p) v (claimed p) (enable p) (threshold p).
Definition set_claimed v (p : PlicInner) := MkPlic (priority p) (pending p) v (enable p) (threshold p).
Definition set_enable v (p : PlicInner) := MkPlic (priority p) (pending p) (claimed p) v (threshold p).
Definition set_threshold v (p : PlicInner) := MkPlic (priority p) (pending p) (claimed p) (enable p) v.

(** The interrupts [1..32]. *)
Definition irqs : list Z := seqZ 1 31.

(** [PlicInner::new], for [n] output pins. *)
Definition new (n : nat) : PlicInner :=
  MkPlic (replicate 32 0) 0 0 (replicate n 0) (replicate n 0).

Definition claimable (p : PlicInner) (ctx : nat) : option Z :=
  let? enable := enable p !! ctx in
  Some ((pending p .& Z.lnot (claimed p)) .& enable).

Definition prio (p : PlicInner) (irq : Z) : Z := nth (Z.to_nat irq) (priority p) 0.

(** [PlicInner::pending(&self, ctx)] *)
Definition is_pending (p : PlicInner) (ctx : nat) : option bool :=
  let? claimable := claimable p ctx in
  let? threshold := threshold p !! ctx in
  Some (existsb (fun irq => ((claimable .& (1 << irq)) <>? 0) && (threshold <? prio p irq)) irqs).

Section World.
Context {W : Type} {P : IrqPin W}.

(** The loop of [recompute_pending], over [ctxs]. *)
Fixpoint recompute_loop (p : PlicInner) (ctxs : list nat) (w : W) : option W :=
  match ctxs with
  | [] => Some w
  | ctx :: ctxs =>
      let? b := is_pending p ctx in
      recompute_loop p ctxs (set_level ctx b w)
  end.

Definition recompute_pending (p : PlicInner) (w : W) : option W :=
  recompute_loop p (seq 0 (length (enable p))) w.

Definition recomputed (p : PlicInner) (w : W) : option (PlicInner * W) :=
  let? w := recompute_pending p w in Some (p, w).

Definition trigger (irq : Z) (p : PlicInner) (w : W) : option (PlicInner * W) :=
  if (0 <? irq) && (irq <? 32) then
    recomputed (set_pending (pending p .| (1 << irq)) p) w
  else None.

(** The best of [irqs] so far, with its priority. *)
Definition claim_step (p : PlicInner) (claimable : Z) (cur : Z * Z) (irq : Z) : Z * Z :=
  if ((claimable .& (1 << irq)) <>? 0) && (cur.2 <? prio p irq) then (irq, prio p irq) else cur.

Definition claim (ctx : nat) (p : PlicInner) (w : W) : option (Z * PlicInner * W) :=
  let? claimable := claimable p ctx in
  let '(cur_irq, _) := fold_left (claim_step p claimable) irqs (0, 0) in
  if cur_irq <>? 0 then
    let p := set_pending (pending p .& Z.lnot (1 << cur_irq)) p in
    let p := set_claimed (claimed p .| (1 << cur_irq)) p in
    let? (p, w) := recomputed p w in
    Some (cur_irq, p, w)
  else Some (cur_irq, p, w).

(** [PlicInner::read]; subtraction wraps as in the release profile. *)
Definition read (addr size : Z) (p : PlicInner) (w : W) : option (Z * PlicInner * W) :=
  if size <>? 4 then Some (0, p, w)
  else if (ADDR_PRIORITY_START <=? addr) && (addr <=? ADDR_PRIORITY_END) then
    let irq := (addr - ADDR_PRIORITY_START) / 4 in
    if (irq =? 0) || (32 <=? irq) then Some (0, p, w)
    else let? value := priority p !! Z.to_nat irq in Some (value, p, w)
  else if (ADDR_PENDING_START <=? addr) && (addr <=? ADDR_PENDING_END) then
    let irq := (addr - ADDR_PENDING_START) * 8 in
    if 32 <=? irq then Some (0, p, w) else Some (pending p, p, w)
  else if (ADDR_ENABLE_START <=? addr) && (addr <=? 0x1FFFFF) then
    let ctx := (addr - ADDR_ENABLE_START) / ADDR_ENABLE_SIZE in
    let irq := (addr .& (ADDR_ENABLE_SIZE - 1)) * 8 in
    if (Z.of_nat (length (enable p)) <=? ctx) || (32 <=? irq) then Some (0, p, w)
    else let? value := enable p !! Z.to_nat ctx in Some (value, p, w)
  else if ADDR_CONTEXT_SIZE <=? addr then
    let ctx := u64 (addr - ADDR_CONTEXT_START) / ADDR_CONTEXT_SIZE in
    let offset := addr .& (ADDR_CONTEXT_SIZE - 1) in
    if Z.of_nat (length (enable p)) <=? ctx then Some (0, p, w)
    else if offset =? OFFSET_PRIORITY_THRESHOLD then
      let? value := threshold p !! Z.to_nat ctx in Some (value, p, w)
    else if offset =? OFFSET_INTERRUPT_CLAIM then claim (Z.to_nat ctx) p w
    else Some (0, p, w)
  else Some (0, p, w).

(** [PlicInner::write]; the amount of the shift [1 << value] is taken modulo 32
    as in the release profile. *)
Definition write (addr value size : Z) (p : PlicInner) (w : W) : option (PlicInner * W) :=
  if size <>? 4 then Some (p, w)
  else
  let value := u32 value in
  if (ADDR_PRIORITY_START <=? addr) && (addr <=? ADDR_PRIORITY_END) then
    let irq := (addr - ADDR_PRIORITY_START) / 4 in
    if (irq =? 0) || (32 <=? irq) then Some (p, w)
    else recomputed (set_priority (<[Z.to_nat irq := u8 (value .& 7)]> (priority p)) p) w
  else if (ADDR_PENDING_START <=? addr) && (addr <=? ADDR_PENDING_END) then Some (p, w)
  else if (ADDR_ENABLE_START <=? addr) && (addr <=? 0x1FFFFF) then
    let ctx := (addr - ADDR_ENABLE_START) / ADDR_ENABLE_SIZE in
    let irq := (addr .& (ADDR_ENABLE_SIZE - 1)) * 8 in
    if (Z.of_nat (length (enable p)) <=? ctx) || (32 <=? irq) then Some (p, w)
    else recomputed (set_enable (<[Z.to_nat ctx := value]> (enable p)) p) w
  else if ADDR_CONTEXT_START <=? addr then
    let ctx := (addr - ADDR_CONTEXT_START) / ADDR_CONTEXT_SIZE in
    let offset := addr .& (ADDR_CONTEXT_SIZE - 1) in
    if Z.of_nat (length (enable p)) <=? ctx then Some (p, w)
    else if offset =? OFFSET_PRIORITY_THRESHOLD then
      recomputed (set_threshold (<[Z.to_nat ctx := u8 (value .& 7)]> (threshold p)) p) w
    else if offset =? OFFSET_INTERRUPT_CLAIM then
      recomputed (set_claimed (claimed p .& Z.lnot (u32 (1 << (value mod 32)))) p) w
    else Some (p, w)
  else Some (p, w).

End World.

(** [struct PlicIrq]: an input pin, and its [set_level]. *)
Record PlicIrq : Type := MkIrq { irq : Z; prev : bool }.

(** [Plic::irq_pin] *)
Definition irq_pin (n : Z) : option PlicIrq :=
  if (0 <? n) && (n <? 32) then Some (MkIrq n false) else None.

Definition irq_set_level {W} {P : IrqPin W} (b : bool) (pin : PlicIrq) (p : PlicInner) (w : W)
    : option (PlicIrq * PlicInner * W) :=
  if b && negb (prev pin) then
    let? (p, w) := trigger (irq pin) p w in Some (MkIrq (irq pin) b, p, w)
  else Some (MkIrq (irq pin) b, p, w).

End Plic.
