(* ===== verification/PlicProps.v ===== *)
(** What the interrupt controller guarantees, over every sequence of register
    accesses and pin changes: its state is well formed and nothing panics, each
    output pin has the level the specification demands, the pending and
    in-service bits follow from the history of edges, claims and completions,
    and a claim returns the best claimable interrupt. *)

From Stdlib Require Import ZArith Lia Bool List Btauto.
From stdpp Require Import base list sets.
From S2P Require Import Prelude HartState Hart HartLogic IrqPin Plic.
Local Open Scope Z_scope.
Local Open Scope rust_scope.
Import Plic.

(** ** Specification *)

Definition is_irq (i : Z) : Prop := 1 <= i < 32.

(** Interrupt [i] is pending, not in service, and enabled for context [c]. *)
Definition claimable_for (p : PlicInner) (c : nat) (i : Z) : Prop :=
  is_irq i /\ Z.testbit (pending p) i = true /\ Z.testbit (claimed p) i = false /\
  exists en, enable p !! c = Some en /\ Z.testbit en i = true.

(** Context [c] has an interrupt to be notified of. *)
Definition notified (p : PlicInner) (c : nat) : Prop :=
  exists i t, claimable_for p c i /\ threshold p !! c = Some t /\ t < prio p i.

Definition is_level (x : Z) : Prop := 0 <= x < 8.

Record plic_wf (n : nat) (p : PlicInner) : Prop := {
  wf_priority : length (priority p) = 32%nat /\ Forall is_level (priority p);
  wf_pending : in_u 32 (pending p) /\ Z.testbit (pending p) 0 = false;
  wf_claimed : in_u 32 (claimed p);
  wf_enable : length (enable p) = n /\ Forall (in_u 32) (enable p);
  wf_threshold : length (threshold p) = n /\ Forall is_level (threshold p);
}.

(** The output pins show what the contexts are to be notified of. *)
Definition synced {W} {P : IrqPin W} (n : nat) (p : PlicInner) (w : W) : Prop :=
  pins w = n /\ forall c, (c < n)%nat -> level c w = true <-> notified p c.

(** ** Runs *)

Inductive Event : Type :=
| Read (addr size : Z)
| Write (addr value size : Z)
| Level (pin : nat) (b : bool).

(** What happened to an interrupt: a rising edge on its pin, a claim that
    returned it, a completion. *)
Inductive Obs : Type := Edge (i : Z) | Claim (i : Z) | Complete (i : Z).

Record Sys (W : Type) : Type := MkSys { plic : PlicInner; input : list PlicIrq; world : W }.
Arguments MkSys {W} _ _ _.
Arguments plic {W} _.
Arguments input {W} _.
Arguments world {W} _.

(** The address is the claim/complete register of one of the contexts. *)
Definition claim_register (n : nat) (addr size : Z) : bool :=
  (size =? 4) && (0x200000 <=? addr) && ((addr - 0x200000) / 0x1000 <? Z.of_nat n) &&
  (addr mod 0x1000 =? 4).

Definition register_context (addr : Z) : nat := Z.to_nat ((addr - 0x200000) / 0x1000).

(** An event that can happen: addresses of a bus, a pin that exists. *)
Definition possible {W} (s : Sys W) (e : Event) : Prop :=
  match e with
  | Read addr _ => in_u 64 addr
  | Write addr _ _ => in_u 64 addr
  | Level k _ => (k < length (input s))%nat
  end.

Section Run.
Context {W : Type} {P : IrqPin W}.

Definition step (e : Event) (s : Sys W) : option (Sys W * list Obs) :=
  let contexts := length (enable (plic s)) in
  match e with
  | Read addr size =>
      let? (v, p, w) := read addr size (plic s) (world s) in
      Some (MkSys p (input s) w,
            if claim_register contexts addr size && (v <>? 0) then [Claim v] else [])
  | Write addr value size =>
      let? (p, w) := write addr value size (plic s) (world s) in
      Some (MkSys p (input s) w,
            if claim_register contexts addr size then [Complete (u32 value mod 32)] else [])
  | Level k b =>
      let? pin := input s !! k in
      let? (pin', p, w) := irq_set_level b pin (plic s) (world s) in
      Some (MkSys p (<[k := pin']> (input s)) w,
            if b && negb (prev pin) then [Edge (irq pin)] else [])
  end.

(** A run from the initial state, with its history, latest first. *)
Inductive run (n : nat) (irq_numbers : list Z) (w0 : W) : Sys W -> list Obs -> Prop :=
| run_new : run n irq_numbers w0 (MkSys (new n) (map (fun i => MkIrq i false) irq_numbers) w0) []
| run_step s h e s' obs :
    run n irq_numbers w0 s h -> possible s e -> step e s = Some (s', obs) -> run n irq_numbers w0 s' (obs ++ h).

End Run.

(** The history leaves [i] pending: it had an edge that was not claimed yet. *)
Fixpoint owed (i : Z) (h : list Obs) : bool :=
  match h with
  | [] => false
  | Edge j :: h => if j =? i then true else owed i h
  | Claim j :: h => if j =? i then false else owed i h
  | _ :: h => owed i h
  end.

(** The history leaves [i] in service: claimed and not completed yet. *)
Fixpoint serving (i : Z) (h : list Obs) : bool :=
  match h with
  | [] => false
  | Claim j :: h => if j =? i then true else serving i h
  | Complete j :: h => if j =? i then false else serving i h
  | _ :: h => serving i h
  end.

Definition follows (p : PlicInner) (h : list Obs) : Prop :=
  forall i, is_irq i -> Z.testbit (pending p) i = owed i h /\ Z.testbit (claimed p) i = serving i h.

(** ** Bits and the search loops *)

Lemma in_irqs i : In i irqs <-> is_irq i.
Proof. unfold irqs, is_irq. rewrite <- list_elem_of_In, elem_of_seqZ. lia. Qed.

Lemma flag_shift x i : is_irq i -> ((x .& (1 << i)) <>? 0) = Z.testbit x i.
Proof.
  intros Hi. unfold is_irq in Hi. rewrite Z.shiftl_1_l, flag_clear by lia. apply negb_involutive.
Qed.

Lemma testbit_claimable p c i en x :
  enable p !! c = Some en -> claimable p c = Some x -> is_irq i ->
  Z.testbit x i = true <-> claimable_for p c i.
Proof.
  unfold claimable, claimable_for. intros -> [= <-] Hi. unfold is_irq in *.
  rewrite !Z.land_spec, Z.lnot_spec, !andb_true_iff, negb_true_iff by lia.
  split.
  - intros [[]]. split; [lia|]. eauto.
  - intros (_ & ? & ? & ? & [= <-] & ?). auto.
Qed.

Lemma is_pending_spec n p c :
  plic_wf n p -> (c < n)%nat -> exists b, is_pending p c = Some b /\ (b = true <-> notified p c).
Proof.
  intros Hwf Hc. destruct (wf_enable _ _ Hwf) as [Hlen _], (wf_threshold _ _ Hwf) as [Hlen' _].
  destruct (lookup_lt_is_Some_2 (enable p) c) as [en Hen]; [lia|].
  destruct (lookup_lt_is_Some_2 (threshold p) c) as [t Ht]; [lia|].
  destruct (claimable p c) as [x|] eqn:Hx; [|unfold claimable in Hx; rewrite Hen in Hx; discriminate].
  unfold is_pending, notified. rewrite Hx, Ht. eexists; split; [reflexivity|].
  rewrite existsb_exists. setoid_rewrite andb_true_iff. setoid_rewrite Z.ltb_lt.
  split.
  - intros (i & Hin & Hb & Hlt). apply in_irqs in Hin. exists i, t.
    rewrite flag_shift in Hb by assumption. rewrite <- (testbit_claimable p c i en x) by assumption. auto.
  - intros (i & t' & Hcl & [= <-] & Hlt). pose proof (proj1 Hcl) as Hi. exists i.
    rewrite in_irqs, flag_shift by assumption. rewrite (testbit_claimable p c i en x) by assumption. auto.
Qed.

(** The loop of [claim] keeps the best of the interrupts it has seen: the one of
    highest priority, the first among those. *)
Definition best (p : PlicInner) (x : Z) (seen : list Z) (cur : Z * Z) : Prop :=
  let eligible i := In i seen /\ Z.testbit x i = true in
  (cur = (0, 0) /\ (forall i, eligible i -> prio p i <= 0)) \/
  (eligible cur.1 /\ cur.2 = prio p cur.1 /\ 0 < cur.2 /\
   forall i, eligible i -> prio p i < cur.2 \/ prio p i = cur.2 /\ cur.1 <= i).

Lemma claim_step_best p x seen cur i :
  is_irq i -> (forall j, In j seen -> j < i) -> best p x seen cur ->
  best p x (seen ++ [i]) (claim_step p x cur i).
Proof.
  intros Hi Hseen Hb. unfold claim_step. rewrite flag_shift by assumption.
  destruct (Z.testbit x i) eqn:Hbit, (cur.2 <? prio p i) eqn:Hlt; cbn [andb];
    rewrite ?Z.ltb_lt, ?Z.ltb_ge in Hlt; unfold best in *; setoid_rewrite in_app_iff; cbn [In fst snd].
  1: { right. repeat split; auto; [destruct Hb as [[-> _]|]; cbn in *; lia|].
    intros j [[Hj|[<-|[]]] Hjb]; [|lia]. specialize (Hseen j Hj).
    destruct Hb as [[-> Hb]|(_ & _ & _ & Hb)]; cbn in *; specialize (Hb j (conj Hj Hjb)); lia. }
  1: { destruct Hb as [[-> Hb]|(Hcur & He & Hp & Hb)].
    + left. split; [reflexivity|]. cbn in *. intros j [[Hj|[<-|[]]] Hjb]; [apply Hb|lia]; auto.
    + right. destruct Hcur as [Hcur ?]. repeat split; auto. intros j [[Hj|[<-|[]]] Hjb]; [apply Hb; auto|].
      specialize (Hseen _ Hcur). lia. }
  all: destruct Hb as [[-> Hb]|([Hcur ?] & He & Hp & Hb)];
    [left; split; [reflexivity|]|right; repeat split; auto];
    (intros j [[Hj|[<-|[]]] Hjb]; [apply Hb; auto|congruence]).
Qed.

Lemma claim_loop_best p x k cur :
  (k <= 31)%nat -> best p x [] cur ->
  best p x (seqZ 1 (Z.of_nat k)) (fold_left (claim_step p x) (seqZ 1 (Z.of_nat k)) cur).
Proof.
  intros Hk Hb. induction k as [|k IH]; [exact Hb|].
  replace (Z.of_nat (S k)) with (Z.of_nat k + 1) by lia.
  rewrite seqZ_app by lia. cbn [seqZ]. rewrite fold_left_app. cbn [seqZ].
  change (seqZ (1 + Z.of_nat k) 1) with [1 + Z.of_nat k]. cbn [fold_left].
  apply claim_step_best; [unfold is_irq; lia| |apply IH; lia].
  intros j. rewrite <- list_elem_of_In, elem_of_seqZ. lia.
Qed.

Lemma claim_best p x : best p x irqs (fold_left (claim_step p x) irqs (0, 0)).
Proof. apply (claim_loop_best p x 31); [lia|]. left. split; [reflexivity|]. intros i [[] _]. Qed.

(** ** Well-formedness *)

Section Pins.
Context {W : Type} {P : IrqPin W} {L : IrqPinLaws W}.

Lemma recompute_loop_ok n p ctxs : plic_wf n p -> NoDup ctxs -> forall w, pins w = n ->
  (forall c, c ∈ ctxs -> (c < n)%nat) ->
  exists w', recompute_loop p ctxs w = Some w' /\ pins w' = n /\
    (forall c, c ∈ ctxs -> level c w' = true <-> notified p c) /\
    (forall c, c ∉ ctxs -> level c w' = level c w).
Proof.
  intros Hwf Hnd. induction Hnd as [|c ctxs Hc _ IH]; intros w Hw Hlt; cbn [recompute_loop].
  { exists w. do 2 (split; [auto|]). split; [intros c Hc; set_solver|reflexivity]. }
  destruct (is_pending_spec n p c Hwf) as (b & -> & Hb); [apply Hlt; set_solver|].
  destruct (IH (set_level c b w)) as (w' & -> & Hp & Hin & Hout);
    [rewrite pins_set; exact Hw|set_solver|].
  exists w'. split; [reflexivity|]. split; [exact Hp|]. split; intros d Hd.
  - destruct (decide (d = c)) as [->|]; [|apply Hin; set_solver].
    rewrite Hout, level_set; [exact Hb| |exact Hc]. rewrite Hw. apply Hlt. set_solver.
  - rewrite Hout, level_other by set_solver. reflexivity.
Qed.

Lemma recomputed_ok n p w : plic_wf n p -> pins w = n ->
  exists w', recomputed p w = Some (p, w') /\ synced n p w'.
Proof.
  intros Hwf Hw. unfold recomputed, recompute_pending. destruct (wf_enable _ _ Hwf) as [-> _].
  destruct (recompute_loop_ok n p (seq 0 n) Hwf (NoDup_seq 0 n) w Hw) as (w' & -> & Hp & Hin & _).
  { intros c. rewrite elem_of_seq. lia. }
  exists w'. repeat split; auto; intros Hn; apply Hin; auto; apply elem_of_seq; lia.
Qed.

End Pins.

Lemma bit_in_u i : is_irq i -> in_u 32 (1 << i).
Proof.
  unfold is_irq. intros Hi. rewrite Z.shiftl_1_l. split; [apply Z.pow_nonneg; lia|].
  apply Z.pow_lt_mono_r; lia.
Qed.

Lemma low3 v : is_level (u8 (v .& 7)).
Proof.
  pose proof (land_in_u_r 3 v 7 ltac:(lia) ltac:(cbv; intuition congruence)) as H.
  change (is_level (wrap 8 (v .& 7))). unfold in_u in H. rewrite wrap_id; unfold is_level, in_u; lia.
Qed.

Lemma wf_new n : plic_wf n (new n).
Proof.
  assert (is_level 0 /\ in_u 32 0) as [] by (unfold is_level, in_u; lia).
  split; unfold new; cbn [priority pending claimed enable threshold];
    rewrite ?length_replicate; auto using Forall_replicate.
Qed.

Lemma wf_set_pending n p v :
  plic_wf n p -> in_u 32 v -> Z.testbit v 0 = false -> plic_wf n (set_pending v p).
Proof. intros [] ? ?. split; auto. Qed.

Lemma wf_set_claimed n p v : plic_wf n p -> in_u 32 v -> plic_wf n (set_claimed v p).
Proof. intros [] ?. split; auto. Qed.

Lemma wf_set_priority n p i v :
  plic_wf n p -> is_level v -> plic_wf n (set_priority (<[i := v]> (priority p)) p).
Proof. intros [[]] ?. split; cbn; rewrite ?length_insert; auto. split; [auto|]. apply Forall_insert; auto. Qed.

Lemma wf_set_enable n p i v :
  plic_wf n p -> in_u 32 v -> plic_wf n (set_enable (<[i := v]> (enable p)) p).
Proof. intros [? ? ? []] ?. split; cbn; rewrite ?length_insert; auto. split; [auto|]. apply Forall_insert; auto. Qed.

Lemma wf_set_threshold n p i v :
  plic_wf n p -> is_level v -> plic_wf n (set_threshold (<[i := v]> (threshold p)) p).
Proof. intros [? ? ? ? []] ?. split; cbn; rewrite ?length_insert; auto. split; [auto|]. apply Forall_insert; auto. Qed.

(** ** Every operation keeps the invariant *)

Definition inv {W} {P : IrqPin W} (n : nat) (s : Sys W) : Prop :=
  plic_wf n (plic s) /\ synced n (plic s) (world s) /\ Forall (fun pin => is_irq (irq pin)) (input s).

(** The effect of an observation on the pending and in-service bits. *)
Definition observed (o : Obs) (p p' : PlicInner) : Prop :=
  match o with
  | Edge i => pending p' = pending p .| (1 << i) /\ claimed p' = claimed p
  | Claim i => pending p' = pending p .& Z.lnot (1 << i) /\ claimed p' = claimed p .| (1 << i)
  | Complete i => pending p' = pending p /\ claimed p' = claimed p .& Z.lnot (1 << i)
  end.

Definition observes (obs : list Obs) (p p' : PlicInner) : Prop :=
  match obs with
  | [] => pending p' = pending p /\ claimed p' = claimed p
  | [o] => observed o p p'
  | _ => False
  end.

Lemma testbit_one i j : 0 <= i -> 0 <= j -> Z.testbit (1 << i) j = (i =? j).
Proof.
  intros Hi Hj. rewrite Z.shiftl_1_l, Z.pow2_bits_eqb by lia. reflexivity.
Qed.

(** What a claim for context [c] may return: nothing when no claimable interrupt
    has a priority, or the claimable interrupt of highest priority, with the
    lowest number among equals. *)
Definition claim_result (p : PlicInner) (c : nat) (v : Z) : Prop :=
  (v = 0 /\ forall i, claimable_for p c i -> prio p i <= 0) \/
  (claimable_for p c v /\ 0 < prio p v /\
   forall i, claimable_for p c i -> prio p i < prio p v \/ prio p i = prio p v /\ v <= i).

Lemma fold_claim_result p c en x :
  enable p !! c = Some en -> claimable p c = Some x ->
  claim_result p c (fold_left (claim_step p x) irqs (0, 0)).1.
Proof.
  intros Hen Hx. pose proof (fun i => testbit_claimable p c i en x Hen Hx) as Hbit.
  assert (Hel : forall i, claimable_for p c i -> In i irqs /\ Z.testbit x i = true).
  { intros i Hi. pose proof (proj1 Hi). rewrite in_irqs, Hbit; auto. }
  destruct (claim_best p x) as [[-> Hb]|([Hin Hx'] & He & Hpos & Hb)]; [left; auto|right].
  apply in_irqs in Hin as Hirq. rewrite <- He, <- Hbit by assumption. auto.
Qed.

Lemma lookup_index {A} (l : list A) k : 0 <= k < Z.of_nat (length l) -> is_Some (l !! Z.to_nat k).
Proof. intros Hk. apply lookup_lt_is_Some_2. lia. Qed.

Section Steps.
Context {W : Type} {P : IrqPin W} {L : IrqPinLaws W} (n : nat) (Hn : Z.of_nat n <= 32).
Implicit Types (p : PlicInner) (w : W).

Lemma claim_ok p w c :
  plic_wf n p -> synced n p w -> (c < n)%nat ->
  exists v p' w', claim c p w = Some (v, p', w') /\ plic_wf n p' /\ synced n p' w' /\
    claim_result p c v /\ observes (if v <>? 0 then [Claim v] else []) p p'.
Proof.
  intros Hwf Hs Hc. destruct (wf_enable _ _ Hwf) as [Hlen _].
  destruct (lookup_lt_is_Some_2 (enable p) c) as [en Hen]; [lia|].
  unfold claim. destruct (claimable p c) as [x|] eqn:Hx;
    [|unfold claimable in Hx; rewrite Hen in Hx; discriminate].
  pose proof (fold_claim_result p c en x Hen Hx) as Hr.
  destruct (fold_left _ _ _) as [v pr]. cbn [fst] in Hr.
  destruct (v <>? 0) eqn:Hv; [|exists v, p, w; rewrite Hv; repeat (split; auto)].
  destruct Hr as [[-> _]|Hr]; [discriminate|]. destruct (proj1 (proj1 Hr)) as [Hv1 Hv2].
  destruct (wf_pending _ _ Hwf) as [Hp Hp0].
  set (p' := set_claimed _ _). assert (plic_wf n p') as Hwf'.
  { unfold p'. apply wf_set_claimed; [apply wf_set_pending; [assumption| |]|].
    - apply land_in_u_l; [lia|assumption].
    - rewrite Z.land_spec, Hp0. reflexivity.
    - cbn. apply lor_in_u; [lia|apply (wf_claimed _ _ Hwf)|apply bit_in_u; split; assumption]. }
  destruct (recomputed_ok n p' w Hwf' (proj1 Hs)) as (w' & -> & Hs').
  exists v, p', w'. repeat (split; [first [reflexivity|assumption|right; assumption]|]).
  rewrite Hv. split; reflexivity.
Qed.

Lemma claim_register_inv addr size :
  claim_register n addr size = true ->
  size = 4 /\ 0x200000 <= addr /\ (register_context addr < n)%nat /\ addr mod 0x1000 = 4.
Proof.
  unfold claim_register, register_context. rewrite !andb_true_iff, !Z.eqb_eq, Z.leb_le, Z.ltb_lt.
  intros [[[]]]. repeat split; auto. apply Nat2Z.inj_lt. rewrite Z2Nat.id; [assumption|].
  apply Z.div_pos; lia.
Qed.

Lemma claim_register_intro addr size :
  size = 4 -> 0x200000 <= addr -> (addr - 0x200000) / 0x1000 < Z.of_nat n -> addr mod 0x1000 = 4 ->
  claim_register n addr size = true.
Proof. intros. unfold claim_register. rewrite !andb_true_iff, !Z.eqb_eq, Z.leb_le, Z.ltb_lt. auto. Qed.

Lemma read_claim p w addr size :
  length (enable p) = n -> in_u 64 addr -> claim_register n addr size = true ->
  read addr size p w = claim (register_context addr) p w.
Proof.
  intros Hlen Ha Hr. pose proof (claim_register_inv _ _ Hr) as (-> & Hlo & Hc & Hm).
  assert (Hctx : u64 (addr - 0x200000) / 0x1000 = Z.of_nat (register_context addr)).
  { unfold register_context. rewrite Z2Nat.id by (apply Z.div_pos; lia). unfold u64.
    rewrite wrap_id by (unfold in_u in *; lia). reflexivity. }
  unfold read, ADDR_PRIORITY_END, ADDR_PENDING_END, ADDR_CONTEXT_SIZE, ADDR_CONTEXT_START.
  rewrite Hlen, Hctx, Nat2Z.id.
  replace (addr .& (0x1000 - 1)) with (addr mod 0x1000) by (symmetry; apply (land_mask addr 12); lia).
  rewrite Hm.
  rewrite (proj2 (Z.leb_gt addr 0xFFC)), (proj2 (Z.leb_gt addr 0x107C)),
    (proj2 (Z.leb_gt addr 0x1FFFFF)), (proj2 (Z.leb_le 0x1000 addr)),
    (proj2 (Z.leb_gt (Z.of_nat n) (Z.of_nat (register_context addr)))) by lia.
  rewrite !andb_false_r. reflexivity.
Qed.

(** Outside the claim registers a read changes nothing. *)
Lemma read_other p w addr size :
  plic_wf n p -> in_u 64 addr -> claim_register n addr size = false ->
  exists v, read addr size p w = Some (v, p, w).
Proof.
  intros Hwf Ha Hr. destruct (wf_enable _ _ Hwf) as [Hlen _], (wf_threshold _ _ Hwf) as [Hlen' _],
    (wf_priority _ _ Hwf) as [Hlen'' _].
  assert (Hm : addr .& (ADDR_CONTEXT_SIZE - 1) = addr mod 0x1000) by (apply (land_mask addr 12); lia).
  unfold read, ADDR_PRIORITY_START, ADDR_PRIORITY_END, ADDR_PENDING_END, ADDR_CONTEXT_START,
    ADDR_ENABLE_START, ADDR_ENABLE_SIZE in *. rewrite Hm, Hlen.
  repeat split_if; eauto; zbool.
  - destruct (lookup_index (priority p) ((addr - 0) / 4)) as [v ->]; [dlia|eauto].
  - destruct (lookup_index (enable p) ((addr - 0x2000) / 0x80)) as [v ->]; [dlia|eauto].
  - destruct (lookup_index (threshold p) (u64 (addr - 0x200000) / ADDR_CONTEXT_SIZE)) as [v ->]; [|eauto].
    unfold u64, wrap, ADDR_CONTEXT_SIZE in *. dlia.
  - exfalso. revert Hr. unfold ADDR_CONTEXT_SIZE, OFFSET_INTERRUPT_CLAIM in *.
    assert (0x200000 <= addr) by (unfold u64, wrap in *; dlia).
    unfold u64 in *. rewrite wrap_id in * by (unfold in_u in *; lia).
    rewrite claim_register_intro by assumption. discriminate.
Qed.

Lemma write_claim p w addr value size :
  length (enable p) = n -> claim_register n addr size = true ->
  write addr value size p w =
  recomputed (set_claimed (claimed p .& Z.lnot (1 << (u32 value mod 32))) p) w.
Proof.
  intros Hlen Hr. pose proof (claim_register_inv _ _ Hr) as (-> & Hlo & Hc & Hm).
  unfold write, ADDR_PRIORITY_END, ADDR_PENDING_END, ADDR_CONTEXT_SIZE, ADDR_CONTEXT_START.
  replace (addr .& (0x1000 - 1)) with (addr mod 0x1000) by (symmetry; apply (land_mask addr 12); lia).
  rewrite Hlen, Hm.
  rewrite (proj2 (Z.leb_gt addr 0xFFC)), (proj2 (Z.leb_gt addr 0x107C)),
    (proj2 (Z.leb_gt addr 0x1FFFFF)), (proj2 (Z.leb_le 0x200000 addr)) by lia.
  rewrite (proj2 (Z.leb_gt (Z.of_nat n) ((addr - 0x200000) / 0x1000)))
    by (unfold register_context in Hc; dlia).
  rewrite !andb_false_r. cbn [negb Z.eqb Pos.eqb]. unfold u32 at 2.
  rewrite (wrap_id 32 (1 << _)); [reflexivity|].
  pose proof (Z.mod_pos_bound (u32 value) 32 ltac:(lia)). rewrite Z.shiftl_1_l.
  split; [apply Z.pow_nonneg; lia|apply Z.pow_lt_mono_r; lia].
Qed.

(** Outside the claim registers a write changes neither the pending nor the
    in-service bits. *)
Lemma write_other p w addr value size :
  plic_wf n p -> claim_register n addr size = false ->
  write addr value size p w = Some (p, w) \/
  exists p', write addr value size p w = recomputed p' w /\ plic_wf n p' /\ observes [] p p'.
Proof.
  intros Hwf Hr. destruct (wf_enable _ _ Hwf) as [Hlen _].
  assert (Hm : addr .& (ADDR_CONTEXT_SIZE - 1) = addr mod 0x1000) by (apply (land_mask addr 12); lia).
  unfold write, ADDR_CONTEXT_START in *. rewrite Hm, Hlen.
  repeat split_if; auto; try (right; eexists; split; [reflexivity|split; [|split; reflexivity]]);
    auto using wf_set_priority, wf_set_enable, wf_set_threshold, low3.
  - apply wf_set_enable; [assumption|]. apply wrap_range. lia.
  - exfalso. revert Hr. zbool. unfold ADDR_CONTEXT_SIZE, OFFSET_INTERRUPT_CLAIM in *.
    rewrite claim_register_intro by assumption. discriminate.
Qed.

(** Every event that can happen is handled, keeps the invariant and has the
    effect its observation says. *)
Definition obs_ok (obs : list Obs) : Prop :=
  match obs with
  | [] => True
  | [Edge i] | [Claim i] => is_irq i
  | [Complete i] => 0 <= i < 32
  | _ => False
  end.

Lemma step_read s addr size : inv n s -> in_u 64 addr ->
  exists s' obs, step (Read addr size) s = Some (s', obs) /\ inv n s' /\
    observes obs (plic s) (plic s') /\ obs_ok obs.
Proof.
  intros (Hwf & Hs & Hin) Ha. destruct (wf_enable _ _ Hwf) as [Hlen _].
  unfold step. rewrite Hlen. destruct (claim_register n addr size) eqn:Hr.
  - pose proof (claim_register_inv _ _ Hr) as (_ & _ & Hc & _).
    rewrite read_claim by assumption.
    destruct (claim_ok _ _ _ Hwf Hs Hc) as (v & p' & w' & -> & Hwf' & Hs' & Hv & Hobs).
    eexists _, _. split; [reflexivity|]. split; [repeat (split; auto); apply Hs'|]. split; [exact Hobs|].
    cbn [andb]. destruct (v <>? 0) eqn:Hz; [|exact Logic.I]. destruct Hv as [[-> _]|[[? _] _]]; [discriminate|auto].
  - destruct (read_other (plic s) (world s) addr size) as [v ->]; auto.
    eexists _, _. split; [reflexivity|]. cbn. repeat (split; auto); apply Hs.
Qed.

Lemma recomputed_step p p' w (inp : list PlicIrq) obs :
  plic_wf n p' -> pins w = n -> Forall (fun pin => is_irq (irq pin)) inp ->
  observes obs p p' -> obs_ok obs ->
  exists s' w', recomputed p' w = Some (p', w') /\ s' = MkSys p' inp w' /\ inv n s' /\
    observes obs p (plic s') /\ obs_ok obs.
Proof.
  intros Hwf Hw Hin Ho Hok. destruct (recomputed_ok n p' w Hwf Hw) as (w' & -> & Hs').
  eexists _, w'. split; [reflexivity|]. split; [reflexivity|]. repeat (split; auto); apply Hs'.
Qed.

Lemma step_write s addr value size : inv n s ->
  exists s' obs, step (Write addr value size) s = Some (s', obs) /\ inv n s' /\
    observes obs (plic s) (plic s') /\ obs_ok obs.
Proof.
  intros (Hwf & Hs & Hin). destruct (wf_enable _ _ Hwf) as [Hlen _].
  unfold step. rewrite Hlen. destruct (claim_register n addr size) eqn:Hr.
  - rewrite write_claim by assumption.
    edestruct (recomputed_step (plic s) (set_claimed (claimed (plic s) .& Z.lnot (1 << (u32 value mod 32))) (plic s))
      (world s) (input s) [Complete (u32 value mod 32)]) as (s' & w' & -> & -> & H); auto.
    + apply wf_set_claimed, land_in_u_l; [assumption|lia|apply (wf_claimed _ _ Hwf)].
    + apply Hs.
    + split; reflexivity.
    + apply Z.mod_pos_bound. lia.
    + eauto.
  - destruct (write_other (plic s) (world s) addr value size Hwf Hr) as [->|(p' & -> & Hwf' & Ho)].
    + eexists _, _. split; [reflexivity|]. cbn. repeat (split; auto); apply Hs.
    + edestruct (recomputed_step (plic s) p' (world s) (input s) []) as (s' & w' & -> & -> & H); auto.
      * apply Hs.
      * exact Logic.I.
      * eauto.
Qed.

Lemma step_level s k b : inv n s -> (k < length (input s))%nat ->
  exists s' obs, step (Level k b) s = Some (s', obs) /\ inv n s' /\
    observes obs (plic s) (plic s') /\ obs_ok obs.
Proof.
  intros (Hwf & Hs & Hin) Hk. destruct (lookup_lt_is_Some_2 _ _ Hk) as [pin Hpin].
  pose proof (proj1 (Forall_lookup _ _) Hin _ _ Hpin) as Hirq. cbn in Hirq.
  unfold step. rewrite Hpin. unfold irq_set_level.
  assert (Hin' : Forall (fun q => is_irq (irq q)) (<[k := MkIrq (irq pin) b]> (input s)))
    by (apply Forall_insert; auto).
  destruct (b && negb (prev pin)).
  - unfold trigger. rewrite (proj2 (Z.ltb_lt 0 _)), (proj2 (Z.ltb_lt _ 32)) by (unfold is_irq in *; lia).
    cbn [andb]. destruct (wf_pending _ _ Hwf) as [Hp Hp0].
    edestruct (recomputed_step (plic s) (set_pending (pending (plic s) .| (1 << irq pin)) (plic s))
      (world s) (<[k := MkIrq (irq pin) b]> (input s)) [Edge (irq pin)]) as (s' & w' & -> & -> & H); auto.
    + apply wf_set_pending; [assumption|apply lor_in_u; [lia|assumption|apply bit_in_u, Hirq]|].
      rewrite Z.lor_spec, Hp0, testbit_one by (unfold is_irq in *; lia).
      apply Z.eqb_neq. unfold is_irq in *. lia.
    + apply Hs.
    + split; reflexivity.
    + eauto.
  - eexists _, _. split; [reflexivity|]. cbn. repeat (split; auto); apply Hs.
Qed.

Lemma step_ok s e : inv n s -> possible s e ->
  exists s' obs, step e s = Some (s', obs) /\ inv n s' /\ observes obs (plic s) (plic s') /\ obs_ok obs.
Proof. destruct e; cbn [possible]; auto using step_read, step_write, step_level. Qed.

End Steps.

(** ** The history determines the bits *)

Lemma follows_step p p' h obs :
  follows p h -> observes obs p p' -> obs_ok obs -> follows p' (obs ++ h).
Proof.
  intros Hf Ho Hok i Hi. destruct (Hf i Hi) as [Hp Hc]. unfold is_irq in Hi.
  destruct obs as [|o [|]]; [|destruct o as [j|j|j]|contradiction];
    cbn in Ho, Hok; destruct Ho as [-> ->]; cbn [app owed serving]; rewrite <- ?Hp, <- ?Hc; [auto|..];
    unfold is_irq in Hok; rewrite ?Z.lor_spec, ?Z.land_spec, ?Z.lnot_spec, ?testbit_one by lia;
    destruct (j =? i); split; btauto.
Qed.

Section Reach.
Context {W : Type} {P : IrqPin W} {L : IrqPinLaws W}.

Lemma run_inv n nums w0 s h :
  Z.of_nat n <= 32 -> Forall is_irq nums -> pins w0 = n -> (forall c, (c < n)%nat -> level c w0 = false) ->
  run n nums w0 s h -> inv n s /\ follows (plic s) h.
Proof.
  intros Hn Hnums Hpins Hlow Hrun. induction Hrun as [|s h e s' obs _ [Hi Hf] Hposs Hstep].
  - split; [split; [apply wf_new|split; [split; [exact Hpins|]|]]|].
    + intros c Hc. cbn. rewrite Hlow by assumption. split; [discriminate|].
      intros (i & t & (_ & Hp & _) & _). cbn in Hp. rewrite Z.bits_0 in Hp. discriminate.
    + cbn. apply Forall_map. exact Hnums.
    + intros i _. cbn. rewrite Z.bits_0. auto.
  - destruct (step_ok n Hn s e Hi Hposs) as (s1 & o1 & E & Hi' & Ho & Hok).
    rewrite E in Hstep. injection Hstep as -> ->. split; [exact Hi'|]. eapply follows_step; eauto.
Qed.

End Reach.

(** C20. The interrupt controller, whatever sequence of register accesses and pin
    changes it sees and whatever its output pins are connected to: its registers
    stay in range, every event is handled without a panic, the output pin of each
    context is high exactly when an enabled interrupt above the threshold is
    pending and not in service, and an interrupt is pending (in service) exactly
    when its last edge (claim) was not yet followed by a claim (completion). *)
Theorem plic_invariant {W} {P : IrqPin W} {L : IrqPinLaws W} n nums w0 s h :
  Z.of_nat n <= 32 -> Forall is_irq nums -> pins w0 = n -> (forall c, (c < n)%nat -> level c w0 = false) ->
  run n nums w0 s h ->
  plic_wf n (plic s) /\ synced n (plic s) (world s) /\ follows (plic s) h /\
  forall e, possible s e -> step e s <> None.
Proof.
  intros Hn Hnums Hpins Hlow Hrun. destruct (run_inv n nums w0 s h) as [Hi Hf]; auto.
  split; [apply Hi|]. split; [apply Hi|]. split; [exact Hf|].
  intros e He. destruct (step_ok n Hn s e Hi He) as (s' & obs & -> & _). discriminate.
Qed.

(** What a claim should return, by the history alone: an interrupt whose edge was
    not claimed yet and which is not being served. *)
Definition candidate (h : list Obs) (p : PlicInner) (c : nat) (i : Z) : Prop :=
  is_irq i /\ owed i h = true /\ serving i h = false /\
  exists en, enable p !! c = Some en /\ Z.testbit en i = true.

Lemma candidate_claimable p h c i : follows p h -> candidate h p c i <-> claimable_for p c i.
Proof.
  intros Hf. unfold candidate, claimable_for. split; intros (Hi & H); (split; [exact Hi|]);
    destruct (Hf i Hi) as [Hp Hc]; [rewrite Hp, Hc|rewrite <- Hp, <- Hc]; exact H.
Qed.

(** Reading a claim register returns the interrupt to serve next: of the
    interrupts enabled for the context with an edge that was not claimed and which
    nobody is serving, one of the highest priority, the lowest numbered of these,
    and 0 when there is none with a priority above 0.  The interrupt returned is
    from then on in service and no longer pending. *)
Theorem plic_claim {W} {P : IrqPin W} {L : IrqPinLaws W} n nums w0 s h addr :
  Z.of_nat n <= 32 -> Forall is_irq nums -> pins w0 = n -> (forall c, (c < n)%nat -> level c w0 = false) ->
  run n nums w0 s h -> in_u 64 addr -> claim_register n addr 4 = true ->
  let c := register_context addr in
  exists v s', step (Read addr 4) s = Some (s', if v <>? 0 then [Claim v] else []) /\
    option_map (fun r => r.1.1) (read addr 4 (plic s) (world s)) = Some v /\
    ((v = 0 /\ forall i, candidate h (plic s) c i -> prio (plic s) i <= 0) \/
     (candidate h (plic s) c v /\ 0 < prio (plic s) v /\
      (forall i, candidate h (plic s) c i ->
         prio (plic s) i < prio (plic s) v \/ prio (plic s) i = prio (plic s) v /\ v <= i) /\
      Z.testbit (claimed (plic s')) v = true /\ Z.testbit (pending (plic s')) v = false)).
Proof.
  intros Hn Hnums Hpins Hlow Hrun Ha Hr c. destruct (run_inv n nums w0 s h) as [(Hwf & Hs & Hin) Hf]; auto.
  pose proof (claim_register_inv n _ _ Hr) as (_ & _ & Hc & _). destruct (wf_enable _ _ Hwf) as [Hlen _].
  destruct (claim_ok n (plic s) (world s) c Hwf Hs Hc) as (v & p' & w' & E & _ & _ & Hv & Ho).
  exists v, (MkSys p' (input s) w'). unfold step. rewrite Hlen, Hr, (read_claim n) by assumption.
  unfold c in *. rewrite E. split; [reflexivity|]. split; [reflexivity|].
  setoid_rewrite (candidate_claimable (plic s) h _ _ Hf).
  destruct Hv as [Hv|(Hv & Hpos & Hbest)]; [left; exact Hv|right]. destruct (proj1 Hv) as [Hv1 Hv2].
  rewrite (proj2 (Z.eqb_neq v 0)) in Ho by lia. destruct Ho as [Hp' Hc']. cbn [plic]. rewrite Hp', Hc'.
  rewrite Z.lor_spec, Z.land_spec, Z.lnot_spec, testbit_one, Z.eqb_refl by lia. cbn. rewrite orb_true_r, andb_false_r. auto.
Qed.

(** ** A run on two harts

    The pin of interrupt 3 rises; the guest gives it priority 5, enables it for
    hart 0 and claims it. *)

Fixpoint exec {W} {P : IrqPin W} (es : list Event) (s : Sys W) (h : list Obs) : option (Sys W * list Obs) :=
  match es with
  | [] => Some (s, h)
  | e :: es => let? (s', obs) := step e s in exec es s' (obs ++ h)
  end.

Definition quiet_hart : SharedContext := MkShared 0 0 [] [] 0 0 [].

Definition demo_setup : list Event :=
  [Level 1 true; Write 0xC 5 4; Write 0x2000 8 4].

Definition demo (es : list Event) : option (Sys (list SharedContext) * list Obs) :=
  @exec _ (core_irq 512) es (MkSys (new 2) [MkIrq 1 false; MkIrq 3 false] [quiet_hart; quiet_hart]) [].

Definition demo_sys : Sys (list SharedContext) :=
  Eval vm_compute in match demo demo_setup with Some (s, _) => s | None => MkSys (new 0) [] [] end.

Lemma step_input {W} {P : IrqPin W} e (s s' : Sys W) obs :
  step e s = Some (s', obs) -> length (input s') = length (input s).
Proof.
  destruct e; cbn [step].
  - destruct (read _ _ _ _) as [[[]]|]; [|discriminate]. intros [= <- <-]. reflexivity.
  - destruct (write _ _ _ _ _) as [[]|]; [|discriminate]. intros [= <- <-]. reflexivity.
  - destruct (input s !! pin); [|discriminate]. destruct (irq_set_level _ _ _ _) as [[[]]|]; [|discriminate].
    intros [= <- <-]. cbn. apply length_insert.
Qed.

Lemma exec_run {W} {P : IrqPin W} n nums w0 es : forall (s : Sys W) h s' h',
  run n nums w0 s h -> Forall (possible s) es -> exec es s h = Some (s', h') -> run n nums w0 s' h'.
Proof.
  induction es as [|e es IH]; cbn [exec]; intros s h s' h' Hrun Hposs.
  { intros [= <- <-]. exact Hrun. }
  inversion_clear Hposs. destruct (step e s) as [[s1 obs]|] eqn:E; [|discriminate].
  apply IH; [eapply run_step; eauto|]. eapply Forall_impl; [eassumption|].
  intros e'. destruct e'; cbn; rewrite ?(step_input _ _ _ _ E); auto.
Qed.

Lemma demo_run : @run _ (core_irq 512) 2 [1; 3] [quiet_hart; quiet_hart] demo_sys [Edge 3].
Proof.
  eapply (@exec_run _ (core_irq 512) 2 [1; 3] _ demo_setup); [apply run_new| |vm_compute; reflexivity].
  repeat constructor; cbn; unfold in_u; lia.
Qed.

Lemma quiet_low c : (c < 2)%nat -> @level _ (core_irq 512) c [quiet_hart; quiet_hart] = false.
Proof. destruct c as [|[|]]; [reflexivity|reflexivity|lia]. Qed.

Lemma is_irq_demo : Forall is_irq [1; 3].
Proof. repeat constructor; lia. Qed.

Lemma plic_invariant_witness :
  @synced _ (core_irq 512) 2 (plic demo_sys) (world demo_sys) /\ follows (plic demo_sys) [Edge 3] /\
  map mip (world demo_sys) = [512; 0].
Proof.
  pose proof (core_irq_laws 512 ltac:(discriminate)) as HL.
  pose proof (@plic_invariant _ (core_irq 512) HL 2 [1; 3] [quiet_hart; quiet_hart] demo_sys [Edge 3]
    ltac:(lia) is_irq_demo eq_refl quiet_low demo_run) as (_ & Hs & Hf & _).
  split; [exact Hs|]. split; [exact Hf|]. reflexivity.
Defined.

Lemma plic_claim_witness :
  exists v s', @step _ (core_irq 512) (Read 0x200004 4) demo_sys = Some (s', if v <>? 0 then [Claim v] else []) /\
    v = 3 /\ map mip (world s') = [0; 0].
Proof.
  pose proof (core_irq_laws 512 ltac:(discriminate)) as HL.
  destruct (@plic_claim _ (core_irq 512) HL 2 [1; 3] [quiet_hart; quiet_hart] demo_sys [Edge 3] 0x200004
    ltac:(lia) is_irq_demo eq_refl quiet_low demo_run ltac:(unfold in_u; lia) eq_refl)
    as (v & s' & Hs & Hr & _).
  exists v, s'. split; [exact Hs|]. vm_compute in Hr. injection Hr as <-.
  split; [reflexivity|]. vm_compute in Hs. injection Hs as <-. reflexivity.
Defined.
