(* ===== verification/EventLoop.v ===== *)
(** The event loop of src/emu/event.rs: the clock in lockstep and threaded mode,
    the queue of timed events, the handling of due events, the switch between
    the modes, and the tasks futures run as. *)

From Stdlib Require Import ZArith Lia Bool List.
From stdpp Require Import base list.
From S2P Require Import Prelude.
Local Open Scope Z_scope.
Local Open Scope rust_scope.

Module EventLoop.

(** The closures that are queued as handlers: the empty one of [shutdown], the
    waker of task [id] ([waker.wake()]) and the poll that waking it queues. *)
Inductive Handler : Type := Nop | Wake (id : nat) | Poll (id : nat).

(** [struct Entry] *)
Record Entry : Type := MkEntry { etime : Z; handler : Handler }.

(** [struct EventLoop]; [epoch] is an instant in microseconds of the host's
    clock, the heap [events] the list of its entries. *)
Record EventLoop : Type := MkLoop {
  cycle : Z;
  next_event : Z;
  epoch : Z;
  events : list Entry;
  shutdown : bool;
  lockstep_cycle_base : Z;
}.

Definition set_cycle v (e : EventLoop) :=
  MkLoop v (next_event e) (epoch e) (events e) (shutdown e) (lockstep_cycle_base e).
Definition set_next_event v (e : EventLoop) :=
  MkLoop (cycle e) v (epoch e) (events e) (shutdown e) (lockstep_cycle_base e).
Definition set_epoch v (e : EventLoop) :=
  MkLoop (cycle e) (next_event e) v (events e) (shutdown e) (lockstep_cycle_base e).
Definition set_events v (e : EventLoop) :=
  MkLoop (cycle e) (next_event e) (epoch e) v (shutdown e) (lockstep_cycle_base e).
Definition set_shutdown v (e : EventLoop) :=
  MkLoop (cycle e) (next_event e) (epoch e) (events e) v (lockstep_cycle_base e).
Definition set_lockstep_cycle_base v (e : EventLoop) :=
  MkLoop (cycle e) (next_event e) (epoch e) (events e) (shutdown e) v.

Definition u64_max : Z := 2 ^ 64 - 1.

(** [EventLoop::new] at the instant [now]. *)
Definition new (now : Z) : EventLoop := MkLoop 0 u64_max now [] false 0.

(** The time of the entry [BinaryHeap::peek] returns: entries compare by
    decreasing time, so it is the least one. *)
Fixpoint min_time (l : list Entry) : option Z :=
  match l with
  | [] => None
  | e :: l => Some (match min_time l with Some t => Z.min (etime e) t | None => etime e end)
  end.

(** [BinaryHeap::pop]: an entry of least time; here the first queued of them,
    the heap promises no order among equals (see [pops] below). *)
Fixpoint remove_time (t : Z) (l : list Entry) : option (Entry * list Entry) :=
  match l with
  | [] => None
  | e :: l =>
      if etime e =? t then Some (e, l)
      else let? (e', l') := remove_time t l in Some (e', e :: l')
  end.

Definition pop (l : list Entry) : option (Entry * list Entry) :=
  let? t := min_time l in remove_time t l.

Definition pops (l : list Entry) (e : Entry) (l' : list Entry) : Prop :=
  l ≡ₚ e :: l' /\ min_time l = Some (etime e).

Section Mode.
(** [crate::threaded()] and the instant [Instant::now()] returns. *)
Context (threaded : bool) (now : Z).

(** [EventLoop::cycle(&self)] *)
Definition current_cycle (e : EventLoop) : Z :=
  if threaded then u64 (u64 (now - epoch e) * 100) else cycle e.

(** [EventLoop::time] *)
Definition time (e : EventLoop) : Z := current_cycle e / 100.

Definition get_lockstep_cycles (e : EventLoop) : Z := u64 (cycle e - lockstep_cycle_base e).

(** [EventLoop::queue]; in threaded mode the condition variable is notified. *)
Definition queue (t : Z) (h : Handler) (e : EventLoop) : EventLoop :=
  let e := set_events (events e ++ [MkEntry t h]) e in
  if threaded then e
  else set_next_event (match min_time (events e) with Some t => t | None => u64_max end) e.

(** [EventLoop::queue_time] *)
Definition queue_time (t : Z) (h : Handler) (e : EventLoop) : EventLoop := queue (u64 (t * 100)) h e.

(** [EventLoop::shutdown] *)
Definition shutdown_loop (e : EventLoop) : EventLoop :=
  let e :=
    if threaded then
      let c := current_cycle e in
      let lockstep_cycle := get_lockstep_cycles e in
      set_lockstep_cycle_base (u64 (c - lockstep_cycle)) (set_cycle c e)
    else
      let micro := u64 (current_cycle e + 99) / 100 in
      set_epoch (now - micro) e in
  queue 0 Nop (set_shutdown true e).

(** ** Tasks

    The futures spawned on the loop wait for a timer and then act.  [Fut d r k]
    is the state of such a future: the cycle [d] of [Timer(d, r)], whether the
    timer has registered its waker, and what is done when it is ready. *)
Record Fut (A : Type) : Type := MkFut { deadline : Z; registered : bool; action : A }.
Arguments MkFut {A} _ _ _.
Arguments deadline {A} _.
Arguments registered {A} _.
Arguments action {A} _.

(** [Task::wake] *)
Definition wake (id : nat) (e : EventLoop) : EventLoop := queue 0 (Poll id) e.

(** [EventLoop::spawn]; [tasks] are the futures spawned so far, [None] once
    they are dropped. *)
Definition spawn {A} (f : Fut A) (tasks : list (option (Fut A))) (e : EventLoop)
    : list (option (Fut A)) * EventLoop :=
  (tasks ++ [Some f], wake (length tasks) e).

(** [EventLoop::on_cycle], [EventLoop::on_time] *)
Definition on_cycle {A} (c : Z) (k : A) : Fut A := MkFut c false k.
Definition on_time {A} (t : Z) (k : A) : Fut A := on_cycle (u64 (t * 100)) k.

(** [Timer::poll]: [None] is [Poll::Ready]. *)
Definition poll_timer {A} (id : nat) (f : Fut A) (e : EventLoop) : option (Fut A) * EventLoop :=
  if deadline f <=? current_cycle e then (None, e)
  else if registered f then (Some f, e)
  else (Some (MkFut (deadline f) true (action f)), queue (deadline f) (Wake id) e).

(** A handler runs: the new tasks and, when a future becomes ready, its action. *)
Definition handle {A} (h : Handler) (tasks : list (option (Fut A))) (e : EventLoop)
    : list (option (Fut A)) * EventLoop * option A :=
  match h with
  | Nop => (tasks, e, None)
  | Wake id => (tasks, wake id e, None)
  | Poll id =>
      match tasks !! id with
      | Some (Some f) =>
          let '(f', e) := poll_timer id f e in
          (<[id := f']> tasks, e, match f' with None => Some (action f) | Some _ => None end)
      | _ => (tasks, e, None)
      end
  end.

End Mode.

Arguments MkFut {A} _ _ _.
Arguments deadline {A} _.
Arguments registered {A} _.
Arguments action {A} _.

(** The loop with the tasks of its futures and the state [S] their actions
    change: [act] is what a future does when its timer is ready ([None] is a
    panic). *)
Section Run.
Context {A S : Type} (threaded : bool) (now : Z) (act : A -> EventLoop -> S -> option S).

(** The entry [entry] was popped and [rest] is left: its handler runs. *)
Definition run_entry (entry : Entry) (rest : list Entry) (tasks : list (option (Fut A))) (e : EventLoop) (s : S)
    : option (list (option (Fut A)) * EventLoop * S) :=
  let '(tasks, e, a) := handle threaded now (handler entry) tasks (set_events rest e) in
  let? s := match a with Some a => act a e s | None => Some s end in
  Some (tasks, e, s).

(** [EventLoop::handle_events]; [None] is out of fuel or a panic. *)
Fixpoint handle_events (fuel : nat) (c : Z) (tasks : list (option (Fut A))) (e : EventLoop) (s : S)
    : option (option Z * list (option (Fut A)) * EventLoop * S) :=
  match fuel with
  | O => None
  | Datatypes.S fuel =>
      match min_time (events e) with
      | None => Some (None, tasks, e, s)
      | Some t =>
          if c <? t then Some (Some t, tasks, e, s)
          else
            let? (entry, rest) := pop (events e) in
            let? (tasks, e, s) := run_entry entry rest tasks e s in
            handle_events fuel c tasks e s
      end
  end.

End Run.

(** [event_loop_wait] of event.s: the next cycle, and whether the loop wakes up. *)
Definition event_loop_wait (e : EventLoop) : EventLoop * bool :=
  let c := u64 (cycle e + 1) in
  (set_cycle c e, next_event e <=? c).

(** The tail of an iteration of [EventLoop::event_loop] in lockstep mode, after
    [handle_events] returned [result]. *)
Definition settle (result : option Z) (e : EventLoop) : EventLoop :=
  set_next_event (match result with Some t => t | None => u64_max end) e.

(** The same in threaded mode, at cycle [c]: how many microseconds the condition variable is
    waited on, [None] for without end.  [queue] notifies it, which ends the wait. *)
Definition wait_micros (result : option Z) (c : Z) : option Z := let? v := result in Some (u64 (v - c)).

End EventLoop.
