(* ===== verification/Clint.v ===== *)
(** The core-local interruptor of lib/io/src/hw/intc/clint.rs on the event loop:
    software interrupts, the timer compare registers, and the task that raises
    a timer interrupt when its time has come. *)

From Stdlib Require Import ZArith Lia Bool List.
From stdpp Require Import base list.
From S2P Require Import Prelude HartState Hart HartLogic IrqPin EventLoop.
Local Open Scope Z_scope.
Local Open Scope rust_scope.

Module Clint.
Import EventLoop.

(** [struct Inner] without the pins and the runtime context. *)
Record Inner : Type := MkInner { msip : list bool; mtimecmp : list Z }.

(** [Clint::new] for [n] harts. *)
Definition new (n : nat) : Inner := MkInner (replicate n false) (replicate n u64_max).

(** The controller with what it is connected to: the pins [0..n] are those of
    [msip_irqs], the pins [n..2n] those of [mtip_irqs]; the action of a task is
    the hart whose timer it is. *)
Record Sys (W : Type) : Type := MkSys {
  clint : Inner;
  loop : EventLoop;
  tasks : list (option (Fut nat));
  world : W;
}.
Arguments MkSys {W} _ _ _ _.
Arguments clint {W} _.
Arguments loop {W} _.
Arguments tasks {W} _.
Arguments world {W} _.

Section Clint.
Context {W : Type} {P : IrqPin W} (threaded : bool) (now : Z).

Definition harts (s : Sys W) : nat := length (mtimecmp (clint s)).

Definition set_world (w : W) (s : Sys W) : Sys W := MkSys (clint s) (loop s) (tasks s) w.
Definition set_clint (c : Inner) (s : Sys W) : Sys W := MkSys c (loop s) (tasks s) (world s).

Definition set_msip_irq (hart : nat) (b : bool) (s : Sys W) : Sys W :=
  set_world (set_level hart b (world s)) s.
Definition set_mtip_irq (hart : nat) (b : bool) (s : Sys W) : Sys W :=
  set_world (set_level (harts s + hart)%nat b (world s)) s.

(** A 64-bit register read with the given size. *)
Definition narrow (addr size value : Z) : Z :=
  if size =? 8 then value else if (addr .& 4) =? 0 then value else value >> 32.

(** [<Clint as IoMemory>::read] *)
Definition read (addr size : Z) (s : Sys W) : option Z :=
  if size <? 4 then Some 0
  else
    let a := addr .& Z.lnot 4 in
    if a <=? 0x3FFF then
      let hart := addr / 4 in
      if (size <>? 4) || (Z.of_nat (length (msip (clint s))) <=? hart) then Some 0
      else let? b := msip (clint s) !! Z.to_nat hart in Some (Z.b2z b)
    else if (0x4000 <=? a) && (a <=? 0xBFF7) then
      let hart := (addr - 0x4000) / 8 in
      if Z.of_nat (harts s) <=? hart then Some 0
      else let? cmp := mtimecmp (clint s) !! Z.to_nat hart in Some (narrow addr size cmp)
    else if a =? 0xBFF8 then Some (narrow addr size (time threaded now (loop s)))
    else Some 0.

(** The end of the task of a timer: [timer.await] has returned. *)
Definition timer_ready (c : Inner) (hart : nat) (e : EventLoop) (w : W) : option W :=
  let? cmp := mtimecmp c !! hart in
  Some (set_level (length (mtimecmp c) + hart)%nat (cmp <=? time threaded now e) w).

Definition write_msip (hart : nat) (value : Z) (s : Sys W) : Sys W :=
  let value := (value .& 1) <>? 0 in
  set_msip_irq hart value (set_clint (MkInner (<[hart := value]> (msip (clint s))) (mtimecmp (clint s))) s).

Definition write_mtimecmp (hart : nat) (value : Z) (s : Sys W) : Sys W :=
  let s := set_clint (MkInner (msip (clint s)) (<[hart := value]> (mtimecmp (clint s)))) s in
  let triggered := value <=? time threaded now (loop s) in
  let s := set_mtip_irq hart triggered s in
  if negb triggered then
    let '(ts, e) := spawn threaded (on_time value hart) (tasks s) (loop s) in
    MkSys (clint s) e ts (world s)
  else s.

(** [<Clint as IoMemory>::write] *)
Definition write (addr value size : Z) (s : Sys W) : Sys W :=
  if size <? 4 then s
  else
    let a := addr .& Z.lnot 4 in
    if a <=? 0x3FFF then
      let hart := addr / 4 in
      if (size <>? 4) || (Z.of_nat (length (msip (clint s))) <=? hart) then s
      else write_msip (Z.to_nat hart) value s
    else if (0x4000 <=? a) && (a <=? 0xBFF7) then
      let hart := (addr - 0x4000) / 8 in
      if (size <>? 8) || (Z.of_nat (harts s) <=? hart) then s
      else write_mtimecmp (Z.to_nat hart) value s
    else s.

(** One due event, and all of them, at the current cycle. *)
Definition run_event (entry : Entry) (rest : list Entry) (s : Sys W) : option (Sys W) :=
  let? (ts, e, w) := run_entry threaded now (timer_ready (clint s)) entry rest (tasks s) (loop s) (world s) in
  Some (MkSys (clint s) e ts w).

Definition run_due (fuel : nat) (s : Sys W) : option (option Z * Sys W) :=
  let? (r, ts, e, w) := handle_events threaded now (timer_ready (clint s)) fuel
                          (current_cycle threaded now (loop s)) (tasks s) (loop s) (world s) in
  Some (r, MkSys (clint s) e ts w).

End Clint.

Arguments harts {W} _.

(** The pins of the harts as the controller numbers them: [mask] is
    [(msip, mtip)], the bits of [mip]. *)
Definition clint_pin (mask : Z * Z) (n i : nat) : nat * Z :=
  if (i <? n)%nat then (i, mask.1) else ((i - n)%nat, mask.2).

Definition clint_irqs (mask : Z * Z) : IrqPin (list SharedContext) := {|
  pins w := (2 * length w)%nat;
  set_level i b w := let '(hart, m) := clint_pin mask (length w) i in alter (core_set_level m b) hart w;
  level i w := let '(hart, m) := clint_pin mask (length w) i in from_option (core_level m) false (w !! hart);
|}.

End Clint.
