(* ===== verification/TimerProps.v ===== *)
(** Timer interrupts, from the compare registers through the event loop to the
    pins of the harts: none is spurious, none is lost, and handling the due
    events ends.  Register writes and event handlers are atomic here, as they
    are in lockstep mode; in threaded mode they race, which is shown last. *)

From Stdlib Require Import ZArith Lia Bool List.
From stdpp Require Import base list relations.
From S2P Require Import Prelude HartState Hart HartLogic IrqPin EventLoop Clint.
Local Open Scope Z_scope.
Local Open Scope rust_scope.
Import EventLoop Clint.

(** ** The queue *)

Lemma min_time_le l t : min_time l = Some t -> Forall (fun e => t <= etime e) l.
Proof.
  revert t. induction l as [|e l IH]; cbn; [discriminate|]. intros t.
  destruct (min_time l) as [t'|] eqn:E.
  - intros [= <-]. constructor; [lia|]. eapply Forall_impl; [apply IH; reflexivity|]. cbn. lia.
  - intros [= <-]. constructor; [lia|]. destruct l; [constructor|cbn in E; destruct (min_time l); discriminate].
Qed.

Lemma min_time_in l t : min_time l = Some t -> exists e, e ∈ l /\ etime e = t.
Proof.
  revert t. induction l as [|e l IH]; cbn; [discriminate|]. intros t.
  destruct (min_time l) as [t'|].
  - intros [= <-]. destruct (IH t' eq_refl) as (e' & Hin & He').
    destruct (Z.min_spec (etime e) t') as [[_ ->]|[_ ->]]; [exists e|exists e']; split; auto using list_elem_of_here, list_elem_of_further.
  - intros [= <-]. exists e. split; [apply list_elem_of_here|reflexivity].
Qed.

Lemma min_time_none l : min_time l = None -> l = [].
Proof. destruct l; cbn; [auto|]. destruct (min_time l); discriminate. Qed.

Lemma remove_time_perm t l e l' : remove_time t l = Some (e, l') -> l ≡ₚ e :: l' /\ etime e = t.
Proof.
  revert e l'. induction l as [|x l IH]; cbn; [discriminate|]. intros e l'.
  destruct (Z.eqb_spec (etime x) t) as [Ht|].
  - intros [= <- <-]. auto.
  - destruct (remove_time t l) as [[y m]|]; [|discriminate]. intros [= <- <-].
    destruct (IH _ _ eq_refl) as [Hp Hy]. split; [|exact Hy]. rewrite Hp. constructor.
Qed.

Lemma remove_time_in t l e : e ∈ l -> etime e = t -> exists e' l', remove_time t l = Some (e', l').
Proof.
  intros Hin He. induction l as [|x l IH]; cbn; [inversion Hin|].
  destruct (Z.eqb_spec (etime x) t); [eauto|]. apply elem_of_cons in Hin as [->|Hin]; [congruence|].
  destruct (IH Hin) as (e' & l' & ->). eauto.
Qed.

(** [pop] returns an entry of least time. *)
Lemma pop_pops l t : min_time l = Some t -> exists e l', pop l = Some (e, l') /\ pops l e l' /\ etime e = t.
Proof.
  intros Hm. destruct (min_time_in l t Hm) as (e & Hin & He).
  destruct (remove_time_in t l e Hin He) as (e' & l' & Hr).
  destruct (remove_time_perm _ _ _ _ Hr) as [Hp Ht].
  exists e', l'. unfold pop, pops. rewrite Hm, Hr, Ht. auto.
Qed.

Lemma events_queue threaded t h e : events (queue threaded t h e) = events e ++ [MkEntry t h].
Proof. unfold queue. destruct threaded; reflexivity. Qed.

Lemma current_cycle_queue threaded now t h e :
  current_cycle threaded now (queue threaded t h e) = current_cycle threaded now e.
Proof. unfold queue, current_cycle. destruct threaded; reflexivity. Qed.

(** ** The invariant *)

(** The task [id] waiting for the cycle [deadline f] will be polled again: it is
    about to be polled, or its waker is queued for that cycle. *)
Definition live (c : Z) (l : list Entry) (id : nat) (f : Fut nat) : Prop :=
  (MkEntry 0 (Poll id) ∈ l /\ (registered f = false \/ deadline f <= c)) \/
  MkEntry (deadline f) (Wake id) ∈ l.

Section Timer.
Context {W : Type} {P : IrqPin W} {L : IrqPinLaws W} (threaded : bool).
Implicit Types (s : Sys W) (now : Z).

(** A task for hart [i] that becomes ready at time [cmp]. *)
Definition awaited s (i : nat) (cmp : Z) : Prop :=
  exists id f, tasks s !! id = Some (Some f) /\ action f = i /\ deadline f = cmp * 100.

(** The timer pin of hart [i]: high only when the time has come, and if it is low
    a task will look again in time, or the time is beyond the end of the clock. *)
Definition timer_ok now s (i : nat) (cmp : Z) : Prop :=
  let high := level (harts s + i)%nat (world s) in
  (high = true -> cmp <= time threaded now (loop s)) /\
  (high = true \/ awaited s i cmp \/ 2 ^ 64 <= cmp * 100).

Record clint_inv (n : nat) now s : Prop := {
  ci_msip : length (msip (clint s)) = n;
  ci_harts : length (mtimecmp (clint s)) = n;
  ci_cmp : Forall (in_u 64) (mtimecmp (clint s));
  ci_pins : pins (world s) = (2 * n)%nat;
  ci_cycle : in_u 64 (current_cycle threaded now (loop s));
  ci_times : Forall (fun e => 0 <= etime e) (events (loop s));
  ci_live id f : tasks s !! id = Some (Some f) ->
    (action f < n)%nat /\ live (current_cycle threaded now (loop s)) (events (loop s)) id f;
  ci_timer i cmp : mtimecmp (clint s) !! i = Some cmp -> timer_ok now s i cmp;
  ci_soft i b : msip (clint s) !! i = Some b -> level i (world s) = b;
  ci_next : threaded = false -> Forall (fun e => next_event (loop s) <= etime e) (events (loop s));
}.

(** ** Small steps of the invariant *)

Lemma inv_loop n now s e' ts' :
  clint_inv n now s ->
  current_cycle threaded now e' = current_cycle threaded now (loop s) ->
  Forall (fun e => 0 <= etime e) (events e') ->
  (threaded = false -> Forall (fun e => next_event e' <= etime e) (events e')) ->
  (forall id f, ts' !! id = Some (Some f) ->
     (action f < n)%nat /\ live (current_cycle threaded now (loop s)) (events e') id f) ->
  let s' := MkSys (clint s) e' ts' (world s) in
  (forall i cmp, awaited s i cmp -> awaited s' i cmp) ->
  clint_inv n now s'.
Proof.
  intros Hinv Hc Ht Hnext Hlive s' Haw. destruct Hinv. split; cbn; auto; rewrite ?Hc; auto.
  intros i cmp Hi. destruct (ci_timer0 i cmp Hi) as [H1 H2].
  split; unfold time in *; cbn; [rewrite Hc; exact H1|]. destruct H2 as [|[|]]; auto.
Qed.

Lemma queue_times t h e :
  0 <= t -> Forall (fun x => 0 <= etime x) (events e) ->
  Forall (fun x => 0 <= etime x) (events (queue threaded t h e)).
Proof. intros Ht He. rewrite events_queue. apply Forall_app. auto. Qed.

Lemma queue_next t h e :
  threaded = false ->
  Forall (fun x => next_event (queue threaded t h e) <= etime x) (events (queue threaded t h e)).
Proof.
  intros ->. unfold queue. cbn.
  destruct (min_time _) as [m|] eqn:E; [apply min_time_le, E|]. apply min_time_none in E. destruct (events e); discriminate.
Qed.

Lemma live_keep c l entry rest l' id f :
  l ≡ₚ entry :: rest -> (forall x, x ∈ rest -> x ∈ l') ->
  handler entry <> Poll id -> handler entry <> Wake id -> live c l id f -> live c l' id f.
Proof.
  intros Hp Hsub H1 H2 Hl.
  assert (Hin : forall x, x ∈ l -> x = entry \/ x ∈ l').
  { intros x. rewrite Hp, elem_of_cons. intros [->|]; auto. }
  destruct Hl as [[Hx Hr]|Hx]; destruct (Hin _ Hx) as [<-|Hy]; cbn in *; try congruence; [left|right]; auto.
Qed.

Lemma live_mono c c' l l' id f : (forall x, x ∈ l -> x ∈ l') -> c <= c' -> live c l id f -> live c' l' id f.
Proof. intros Hsub Hc [[Hx [Hr|Hr]]|Hx]; [left|left|right]; auto. split; [auto|right; lia]. Qed.

Lemma perm_in {A} (l : list A) e rest x : l ≡ₚ e :: rest -> x ∈ rest -> x ∈ l.
Proof. intros -> Hx. apply elem_of_cons. auto. Qed.

Lemma perm_forall {A} (Q : A -> Prop) l e rest : l ≡ₚ e :: rest -> Forall Q l -> Forall Q rest.
Proof. intros -> H. inversion H. assumption. Qed.

(** The clock moves on. *)
Lemma inv_clock n now now' s e' :
  clint_inv n now s -> events e' = events (loop s) -> next_event e' = next_event (loop s) ->
  current_cycle threaded now (loop s) <= current_cycle threaded now' e' -> in_u 64 (current_cycle threaded now' e') ->
  clint_inv n now' (MkSys (clint s) e' (tasks s) (world s)).
Proof.
  intros Hinv He Hn Hle Hin. destruct Hinv. split; cbn; auto; rewrite ?He, ?Hn; auto.
  - intros id f Hf. destruct (ci_live0 id f Hf) as [? Hl]. split; [assumption|].
    eapply live_mono; [|exact Hle|exact Hl]. auto.
  - intros i cmp Hi. destruct (ci_timer0 i cmp Hi) as [H1 H2]. split; [|exact H2].
    intros Hh. specialize (H1 Hh). unfold time in *. cbn.
    etransitivity; [exact H1|]. apply Z.div_le_mono; [lia|exact Hle].
Qed.

(** ** Events *)

Section Event.
Context (n : nat) (now : Z) (s : Sys W) (Hinv : clint_inv n now s).
Context (entry : Entry) (rest : list Entry) (Hpop : events (loop s) ≡ₚ entry :: rest).
Context (Hdue : etime entry <= current_cycle threaded now (loop s)).

Let popped : EventLoop := set_events rest (loop s).

Lemma popped_next : threaded = false -> Forall (fun e => next_event popped <= etime e) (events popped).
Proof. intros Ht. eapply perm_forall; [exact Hpop|apply (ci_next _ _ _ Hinv Ht)]. Qed.

Lemma popped_times : Forall (fun e => 0 <= etime e) (events popped).
Proof. eapply perm_forall; [exact Hpop|apply (ci_times _ _ _ Hinv)]. Qed.

Lemma popped_live id f : tasks s !! id = Some (Some f) ->
  handler entry <> Poll id -> handler entry <> Wake id ->
  forall l', (forall x, x ∈ rest -> x ∈ l') ->
  (action f < n)%nat /\ live (current_cycle threaded now (loop s)) l' id f.
Proof.
  intros Hf H1 H2 l' Hsub. destruct (ci_live _ _ _ Hinv id f Hf) as [? Hl]. split; [assumption|].
  eapply live_keep; eauto.
Qed.

(** Popping the empty handler, or the poll of a task that is gone. *)
Lemma event_drop :
  (forall id f, tasks s !! id = Some (Some f) -> handler entry <> Poll id /\ handler entry <> Wake id) ->
  clint_inv n now (MkSys (clint s) popped (tasks s) (world s)).
Proof.
  intros Hno. apply inv_loop; auto using popped_times, popped_next.
  intros id f Hf. destruct (Hno id f Hf). eapply popped_live; eauto.
Qed.

Lemma event_wake id : handler entry = Wake id ->
  clint_inv n now (MkSys (clint s) (wake threaded id popped) (tasks s) (world s)).
Proof.
  intros He. unfold wake. apply inv_loop; auto using queue_next.
  - rewrite current_cycle_queue. reflexivity.
  - apply queue_times; [lia|apply popped_times].
  - intros id' f Hf. rewrite events_queue.
    assert (Hsub : forall x, x ∈ rest -> x ∈ rest ++ [MkEntry 0 (Poll id)]) by (intros; apply elem_of_app; auto).
    destruct (decide (id' = id)) as [->|Hne]; [|eapply popped_live; eauto; congruence].
    destruct (ci_live _ _ _ Hinv id f Hf) as [? Hl]. split; [assumption|].
    assert (Hpoll : MkEntry 0 (Poll id) ∈ rest ++ [MkEntry 0 (Poll id)]) by (apply elem_of_app; right; apply list_elem_of_here).
    destruct Hl as [[_ ?]|Hx]; [left; auto|]. rewrite Hpop in Hx. apply elem_of_cons in Hx as [<-|Hx].
    + left. split; [exact Hpoll|]. right. exact Hdue.
    + right. apply Hsub, Hx.
Qed.

(** A poll before the deadline: the future keeps its state, or registers its
    waker for the deadline. *)
Lemma event_poll_pending id f : handler entry = Poll id -> tasks s !! id = Some (Some f) ->
  current_cycle threaded now (loop s) < deadline f ->
  let '(f', e') := poll_timer threaded now id f popped in
  clint_inv n now (MkSys (clint s) e' (<[id := f']> (tasks s)) (world s)) /\ is_Some f'.
Proof.
  intros He Hf Hlt. unfold poll_timer.
  change (current_cycle threaded now popped) with (current_cycle threaded now (loop s)).
  rewrite (proj2 (Z.leb_gt _ _)) by assumption.
  destruct (ci_live _ _ _ Hinv id f Hf) as [Hact Hl].
  destruct f as [d r a]. cbn [deadline registered action] in *.
  assert (Haw : forall r e' i cmp, awaited s i cmp ->
    awaited (MkSys (clint s) e' (<[id := Some (MkFut d r a)]> (tasks s)) (world s)) i cmp).
  { intros r' e' i cmp (id' & f' & Hf' & Ha & Hd). destruct (decide (id' = id)) as [->|Hne].
    - rewrite Hf in Hf'. injection Hf' as <-. exists id. eexists. cbn.
      rewrite list_lookup_insert_eq by (eapply lookup_lt_Some, Hf). eauto.
    - exists id', f'. cbn. rewrite list_lookup_insert_ne by congruence. auto. }
  destruct r eqn:Hr.
  - split; [|eauto]. subst r. apply inv_loop; auto using popped_times, popped_next.
    intros id' f'. destruct (decide (id' = id)) as [->|Hne].
    + rewrite list_lookup_insert_eq by (eapply lookup_lt_Some, Hf). intros [= <-]. cbn. split; [exact Hact|].
      destruct Hl as [[_ [?|?]]|Hx]; cbn in *; [discriminate|lia|]. right. cbn. rewrite Hpop in Hx.
      apply elem_of_cons in Hx as [<-|Hx]; [discriminate|exact Hx].
    + rewrite list_lookup_insert_ne by congruence. intros Hf'. eapply popped_live; eauto; congruence.
  - split; [|eauto]. apply inv_loop; auto using queue_next.
    + rewrite current_cycle_queue. reflexivity.
    + apply queue_times; [|apply popped_times]. pose proof (ci_cycle _ _ _ Hinv). unfold in_u in *. lia.
    + intros id' f'. rewrite events_queue. destruct (decide (id' = id)) as [->|Hne].
      * rewrite list_lookup_insert_eq by (eapply lookup_lt_Some, Hf). intros [= <-]. cbn. split; [exact Hact|].
        right. cbn. apply elem_of_app. right. apply list_elem_of_here.
      * rewrite list_lookup_insert_ne by congruence. intros Hf'. eapply popped_live; eauto; try congruence.
        intros x Hx. apply elem_of_app. auto.
Qed.

(** A future is ready: its task is dropped and the pin shows whether the time
    of its hart has come. *)
Lemma event_ready id f cmp : handler entry = Poll id -> tasks s !! id = Some (Some f) ->
  deadline f <= current_cycle threaded now (loop s) -> mtimecmp (clint s) !! action f = Some cmp ->
  clint_inv n now (MkSys (clint s) popped (<[id := None]> (tasks s))
    (set_level (n + action f)%nat (cmp <=? time threaded now popped) (world s))).
Proof.
  intros He Hf Hle Hcmp. pose proof (lookup_lt_Some _ _ _ Hf) as Hid.
  pose proof (lookup_lt_Some _ _ _ Hcmp) as Hact. pose proof (ci_harts _ _ _ Hinv) as Hn. rewrite Hn in Hact.
  assert (Hother : forall id' f', <[id := None]> (tasks s) !! id' = Some (Some f') ->
    id' <> id /\ tasks s !! id' = Some (Some f')).
  { intros id' f'. destruct (decide (id' = id)) as [->|Hne].
    - rewrite list_lookup_insert_eq by assumption. discriminate.
    - rewrite list_lookup_insert_ne by congruence. auto. }
  split; cbn; try apply Hinv; auto using popped_times, popped_next.
  - rewrite pins_set. apply Hinv.
  - intros id' f' Hf'. destruct (Hother _ _ Hf') as [? Hf'']. eapply popped_live; eauto; congruence.
  - intros i cmp' Hi. destruct (ci_timer _ _ _ Hinv i cmp' Hi) as [H1 H2]. unfold timer_ok, harts in *. cbn in *.
    rewrite Hn in *. destruct (decide (i = action f)) as [->|Hne].
    + rewrite Hcmp in Hi. injection Hi as <-.
      rewrite level_set by (rewrite (ci_pins _ _ _ Hinv); lia). unfold time in *.
      change (current_cycle threaded now popped) with (current_cycle threaded now (loop s)).
      split; [apply Z.leb_le|]. destruct (Z.leb_spec cmp (current_cycle threaded now (loop s) / 100)); [auto|right].
      destruct H2 as [Hh|[(id' & f' & Hf' & Ha & Hd)|]]; [specialize (H1 Hh); lia| |auto]. left. exists id', f'. cbn.
      destruct (decide (id' = id)) as [->|Hne].
      * rewrite Hf in Hf'. injection Hf' as <-. dlia.
      * rewrite list_lookup_insert_ne by congruence. auto.
    + rewrite level_other by lia. split; [exact H1|]. destruct H2 as [?|[(id' & f' & Hf' & Ha & Hd)|?]]; auto.
      right. left. exists id', f'. cbn. rewrite list_lookup_insert_ne by congruence. auto.
  - intros i b Hi. pose proof (lookup_lt_Some _ _ _ Hi). pose proof (ci_msip _ _ _ Hinv).
    rewrite level_other by lia. apply (ci_soft _ _ _ Hinv), Hi.
Qed.

Lemma run_event_inv : exists s', run_event threaded now entry rest s = Some s' /\ clint_inv n now s'.
Proof.
  unfold run_event, run_entry, handle. fold popped. destruct (handler entry) as [|id|id] eqn:He.
  - eexists. split; [reflexivity|]. apply event_drop. intros; rewrite He; split; discriminate.
  - eexists. split; [reflexivity|]. apply event_wake, He.
  - destruct (tasks s !! id) as [[f|]|] eqn:Hf.
    2, 3: eexists; split; [reflexivity|]; apply event_drop; intros id' f' Hf'; rewrite He; split; congruence.
    destruct (Z.ltb_spec (current_cycle threaded now (loop s)) (deadline f)) as [Hlt|Hle].
    + pose proof (event_poll_pending id f He Hf Hlt) as Hp. destruct (poll_timer _ _ _ _ _) as [f' e'].
      destruct Hp as [Hp [g ->]]. eauto.
    + unfold poll_timer. change (current_cycle threaded now popped) with (current_cycle threaded now (loop s)).
      rewrite (proj2 (Z.leb_le _ _)) by assumption. unfold timer_ready.
      destruct (ci_live _ _ _ Hinv id f Hf) as [Hact _].
      destruct (lookup_lt_is_Some_2 (mtimecmp (clint s)) (action f)) as [cmp Hcmp]; [rewrite (ci_harts _ _ _ Hinv); lia|].
      rewrite Hcmp, (ci_harts _ _ _ Hinv). eexists. split; [reflexivity|]. eapply event_ready; eauto.
Qed.

End Event.

(** ** Register writes *)

Lemma write_msip_inv n now s hart v :
  clint_inv n now s -> (hart < n)%nat -> clint_inv n now (write_msip hart v s).
Proof.
  intros Hinv Hh. destruct Hinv as [Hm Hn Hcmp Hpins Hc Ht Hl Htm Hs Hnx].
  split; cbn; rewrite ?length_insert, ?pins_set; auto.
  - intros i cmp Hi. destruct (Htm i cmp Hi) as [H1 H2]. unfold timer_ok, harts in *. cbn.
    rewrite level_other by lia. auto.
  - intros i b. destruct (decide (i = hart)) as [->|Hne].
    + rewrite list_lookup_insert_eq by lia. intros [= <-]. apply level_set. lia.
    + rewrite list_lookup_insert_ne, level_other by congruence. apply Hs.
Qed.

(** The compare register and its pin, before a task is spawned. *)
Lemma compare_inv n now s hart v :
  clint_inv n now s -> (hart < n)%nat -> in_u 64 v ->
  let s1 := set_mtip_irq hart (v <=? time threaded now (loop s))
              (set_clint (MkInner (msip (clint s)) (<[hart := v]> (mtimecmp (clint s)))) s) in
  let s2 := if v <=? time threaded now (loop s) then s1
            else MkSys (clint s1) (wake threaded (length (tasks s)) (loop s))
                   (tasks s ++ [Some (on_time v hart)]) (world s1) in
  clint_inv n now s2.
Proof.
  intros Hinv Hh Hv. destruct Hinv as [Hm Hn Hcmp Hpins Hc Ht Hl Htm Hs Hnx]. cbn.
  assert (Haw : forall e' ts' w' c' i cmp, awaited s i cmp -> awaited (MkSys c' e' (tasks s ++ ts') w') i cmp).
  { intros e' ts' w' c' i cmp (id & f & Hf & H). exists id, f. cbn. rewrite lookup_app_l; [auto|].
    eapply lookup_lt_Some, Hf. }
  assert (Hcmp' : Forall (in_u 64) (<[hart := v]> (mtimecmp (clint s)))) by (apply Forall_insert; auto).
  assert (Hlev : forall b, level (n + hart) (set_level (n + hart)%nat b (world s)) = b)
    by (intros b; apply level_set; lia).
  assert (Hsoft : forall b' i b, msip (clint s) !! i = Some b ->
    level i (set_level (n + hart)%nat b' (world s)) = b).
  { intros b' i b Hi. pose proof (lookup_lt_Some _ _ _ Hi). rewrite level_other by lia. auto. }
  destruct (Z.leb_spec v (time threaded now (loop s))) as [Hle|Hlt];
    (split; cbn; rewrite ?length_insert, ?pins_set, ?Hn; auto).
  - intros i cmp. unfold timer_ok, harts. cbn. rewrite length_insert, Hn. destruct (decide (i = hart)) as [->|Hne].
    + rewrite list_lookup_insert_eq by lia. intros [= <-]. rewrite Hlev. auto.
    + rewrite list_lookup_insert_ne, level_other by lia. intros Hi.
      destruct (Htm i cmp Hi) as [H1 H2]. unfold harts in *. rewrite Hn in *. auto.
  - unfold wake. rewrite current_cycle_queue. exact Hc.
  - apply queue_times; [lia|exact Ht].
  - intros id f Hf. unfold wake. rewrite current_cycle_queue, events_queue.
    apply lookup_app_Some in Hf as [Hf|[Hge Hf]].
    + destruct (Hl id f Hf) as [? Hlive]. split; [assumption|].
      eapply live_mono; [|reflexivity|exact Hlive]. intros x Hx. apply elem_of_app. auto.
    + apply list_lookup_singleton_Some in Hf as [Hz [= <-]]. replace id with (length (tasks s)) by lia.
      split; [exact Hh|]. left. split; [apply elem_of_app; right; apply list_elem_of_here|left; reflexivity].
  - intros i cmp. unfold timer_ok, harts, time, wake in *. cbn. rewrite current_cycle_queue, length_insert, Hn.
    destruct (decide (i = hart)) as [->|Hne].
    + rewrite list_lookup_insert_eq by lia. intros [= <-]. rewrite Hlev. split; [discriminate|right].
      destruct (Z.le_gt_cases (2 ^ 64) (v * 100)) as [|Hsmall]; [auto|left].
      exists (length (tasks s)). eexists. cbn. rewrite list_lookup_middle by reflexivity.
      split; [reflexivity|]. split; [reflexivity|]. cbn. apply wrap_id. unfold in_u in *. lia.
    + rewrite list_lookup_insert_ne, level_other by lia. intros Hi.
      destruct (Htm i cmp Hi) as [H1 H2]. unfold harts in *. rewrite Hn in *. split; [exact H1|].
      destruct H2 as [|[|]]; auto.
  - intros Htr. apply queue_next, Htr.
Qed.

Lemma write_inv n now s addr v size :
  clint_inv n now s -> in_u 64 addr -> in_u 64 v -> clint_inv n now (write threaded now addr v size s).
Proof.
  intros Hinv Ha Hv. pose proof (ci_msip _ _ _ Hinv) as Hm. pose proof (ci_harts _ _ _ Hinv) as Hn.
  unfold write, harts. rewrite Hm, Hn. repeat split_if; auto; zbool.
  - apply write_msip_inv; auto. dlia.
  - pose proof (compare_inv n now s (Z.to_nat ((addr - 0x4000) / 8)) v Hinv) as Hw.
    unfold write_mtimecmp. cbn in *.
    destruct (v <=? time threaded now (loop s)); cbn; (apply Hw; [|assumption]).
    all: assert (0x4000 <= addr) by (rewrite land_lnot in *; pose proof (proj2 (Z.land_nonneg addr 4)); lia); dlia.
Qed.

(** ** Handling the due events ends

    At a fixed cycle a due waker becomes a due poll, and a poll leaves nothing
    that is due. *)

Definition weight (c : Z) (e : Entry) : nat :=
  if etime e <=? c then match handler e with Wake _ => 2 | _ => 1 end else 0.

Definition work now s : nat :=
  sum_list_with (weight (current_cycle threaded now (loop s))) (events (loop s)).

Lemma run_event_work now s entry rest s' :
  events (loop s) ≡ₚ entry :: rest -> etime entry <= current_cycle threaded now (loop s) ->
  run_event threaded now entry rest s = Some s' ->
  clint s' = clint s /\ current_cycle threaded now (loop s') = current_cycle threaded now (loop s) /\
  (work now s' < work now s)%nat.
Proof.
  intros Hp Hdue. unfold run_event, run_entry, work. rewrite Hp. cbn [sum_list_with].
  set (c := current_cycle threaded now (loop s)) in *.
  assert (Hw : weight c entry = match handler entry with Wake _ => 2 | _ => 1 end%nat).
  { unfold weight. rewrite (proj2 (Z.leb_le _ _)) by assumption. reflexivity. }
  assert (Hc : current_cycle threaded now (set_events rest (loop s)) = c) by reflexivity.
  rewrite Hw. unfold handle. destruct (handler entry) as [|id|id].
  - intros [= <-]. cbn [clint loop]. rewrite Hc. cbn. auto.
  - intros [= <-]. unfold wake. cbn [clint loop].
    rewrite current_cycle_queue, events_queue, sum_list_with_app, Hc. cbn.
    do 2 (split; [reflexivity|]). unfold weight at 2. cbn. destruct (0 <=? c); lia.
  - destruct (tasks s !! id) as [[f|]|].
    2, 3: intros [= <-]; cbn [clint loop]; rewrite Hc; cbn; auto.
    unfold poll_timer. rewrite Hc. destruct (Z.leb_spec (deadline f) c) as [Hle|Hlt].
    + destruct (timer_ready _ _ _ _ _) as [w'|]; [|discriminate]. intros [= <-]. cbn [clint loop]. rewrite Hc. cbn. auto.
    + destruct (registered f); intros [= <-]; cbn [clint loop]; [rewrite Hc; cbn; auto|].
      rewrite current_cycle_queue, events_queue, sum_list_with_app, Hc. cbn.
      do 2 (split; [reflexivity|]). unfold weight at 2. cbn. rewrite (proj2 (Z.leb_gt _ _)) by assumption. lia.
Qed.

Definition quiet now s : Prop :=
  Forall (fun e => current_cycle threaded now (loop s) < etime e) (events (loop s)).

Lemma run_due_ok fuel : forall n now s, clint_inv n now s -> (work now s < fuel)%nat ->
  exists r s', run_due threaded now fuel s = Some (r, s') /\ clint_inv n now s' /\ quiet now s' /\
    clint s' = clint s /\ current_cycle threaded now (loop s') = current_cycle threaded now (loop s).
Proof.
  induction fuel as [|fuel IH]; intros n now s Hinv Hfuel; [lia|].
  unfold run_due. cbn [handle_events]. destruct (min_time (events (loop s))) as [t|] eqn:Hm.
  - destruct (Z.ltb_spec (current_cycle threaded now (loop s)) t) as [Hlt|Hle].
    + eexists _, _. split; [reflexivity|]. destruct s; cbn in *. split; [exact Hinv|]. split; [|auto].
      eapply Forall_impl; [apply min_time_le, Hm|]. cbn. lia.
    + destruct (pop_pops _ _ Hm) as (e & l & -> & [Hp _] & He). rewrite <- He in Hle.
      destruct (run_event_inv n now s Hinv e l Hp Hle) as (s1 & Hs1 & Hinv1).
      destruct (run_event_work now s e l s1 Hp Hle Hs1) as (Hc1 & Hcy1 & Hw1).
      destruct (IH n now s1 Hinv1) as (r & s2 & Hr & H2); [lia|].
      unfold run_event in Hs1. destruct (run_entry _ _ _ _ _ _ _ _) as [[[ts e1] w1]|]; [|discriminate].
      injection Hs1 as <-. exists r, s2. unfold run_due in Hr. cbn [clint loop tasks world] in *.
      rewrite Hcy1 in *. split; [exact Hr|exact H2].
  - eexists _, _. split; [reflexivity|]. destruct s; cbn in *. split; [exact Hinv|].
    unfold quiet. cbn. rewrite (min_time_none _ Hm). auto.
Qed.

(** ** Runs *)

Inductive timer_step : Z * Sys W -> Z * Sys W -> Prop :=
| step_write now s addr v size :
    in_u 64 addr -> in_u 64 v -> timer_step (now, s) (now, write threaded now addr v size s)
| step_tick now s :
    threaded = false -> cycle (loop s) + 1 < 2 ^ 64 ->
    timer_step (now, s) (now, MkSys (clint s) (event_loop_wait (loop s)).1 (tasks s) (world s))
| step_host now now' s :
    threaded = true -> epoch (loop s) <= now <= now' -> (now' - epoch (loop s)) * 100 < 2 ^ 64 ->
    timer_step (now, s) (now', s)
| step_event now s entry rest s' :
    pops (events (loop s)) entry rest -> etime entry <= current_cycle threaded now (loop s) ->
    run_event threaded now entry rest s = Some s' -> timer_step (now, s) (now, s')
| step_settle now s :
    threaded = false -> quiet now s ->
    timer_step (now, s) (now, MkSys (clint s) (settle (min_time (events (loop s))) (loop s)) (tasks s) (world s)).

Definition initial (n : nat) (now : Z) (w : W) : Sys W :=
  MkSys (Clint.new n) (EventLoop.new now) [] w.

Lemma initial_inv n now w :
  pins w = (2 * n)%nat -> (forall i, level i w = false) -> clint_inv n now (initial n now w).
Proof.
  intros Hp Hl. assert (Hc : current_cycle threaded now (EventLoop.new now) = 0).
  { unfold current_cycle. cbn. destruct threaded; [rewrite Z.sub_diag|]; reflexivity. }
  split; cbn; rewrite ?length_replicate, ?Hc; auto; unfold in_u.
  - apply Forall_replicate. unfold u64_max, in_u. lia.
  - lia.
  - intros id f. destruct id; discriminate.
  - intros i cmp [-> _]%lookup_replicate. split; [|unfold u64_max; lia]. rewrite Hl. discriminate.
  - intros i b [-> _]%lookup_replicate. apply Hl.
Qed.

Lemma timer_step_inv n now s now' s' :
  timer_step (now, s) (now', s') -> clint_inv n now s -> clint_inv n now' s'.
Proof.
  intros Hstep Hinv. inversion Hstep; subst.
  - apply write_inv; assumption.
  - eapply inv_clock; [exact Hinv|reflexivity|reflexivity|..]; unfold current_cycle, event_loop_wait, u64;
      pose proof (ci_cycle _ _ _ Hinv) as Hc; unfold current_cycle in Hc;
      match goal with H : threaded = false |- _ => rewrite H in * end; cbn;
      rewrite wrap_id by (unfold in_u in *; lia); unfold in_u in *; lia.
  - replace s' with (MkSys (clint s') (loop s') (tasks s') (world s')) by (destruct s'; reflexivity).
    eapply inv_clock; [exact Hinv|reflexivity|reflexivity|..]; unfold current_cycle, u64;
      match goal with H : threaded = true |- _ => rewrite H end;
      rewrite !wrap_id; unfold in_u; rewrite ?wrap_id; unfold in_u; lia.
  - match goal with H : pops _ _ _ |- _ => destruct H as [Hp _] end.
    edestruct run_event_inv as (s1 & Hs1 & Hi1); [exact Hinv|exact Hp|eassumption|]. congruence.
  - eapply inv_loop; auto; try apply Hinv. intros _. cbn.
    destruct (min_time _) as [t|] eqn:E; [apply min_time_le, E|]. rewrite (min_time_none _ E). constructor.
Qed.

Lemma timer_reach_inv n c0 c : rtc timer_step c0 c -> clint_inv n c0.1 c0.2 -> clint_inv n c.1 c.2.
Proof.
  induction 1 as [|[] [] ? Hstep _ IH]; [auto|]. intros Hi. apply IH. eapply timer_step_inv; eassumption.
Qed.

(** When nothing is due, the pins are exact. *)
Lemma quiet_exact n now s i cmp :
  clint_inv n now s -> quiet now s -> mtimecmp (clint s) !! i = Some cmp ->
  level (n + i)%nat (world s) = (cmp <=? time threaded now (loop s)).
Proof.
  intros Hinv Hq Hi. destruct (ci_timer _ _ _ Hinv i cmp Hi) as [H1 H2].
  unfold harts in *. rewrite (ci_harts _ _ _ Hinv) in *.
  destruct (Z.leb_spec cmp (time threaded now (loop s))) as [Hle|Hgt].
  - unfold time in Hle. pose proof (ci_cycle _ _ _ Hinv) as Hc.
    assert (Hmul : cmp * 100 <= current_cycle threaded now (loop s)) by dlia.
    destruct H2 as [|[(id & f & Hf & _ & Hd)|]]; [assumption|exfalso|unfold in_u in *; lia].
    destruct (ci_live _ _ _ Hinv id f Hf) as [_ [[Hx _]|Hx]];
      apply (proj1 (Forall_forall _ _) Hq) in Hx; cbn in Hx; unfold in_u in *; lia.
  - destruct (level _ _); [|reflexivity]. specialize (H1 eq_refl). lia.
Qed.

End Timer.

(** In both modes, as long as every access and every callback is one step. *)
Lemma timer_exact {W} {P : IrqPin W} {L : IrqPinLaws W} threaded n now0 w now s :
  pins w = (2 * n)%nat -> (forall i, level i w = false) ->
  rtc (timer_step threaded) (now0, initial n now0 w) (now, s) ->
  (forall i cmp, mtimecmp (clint s) !! i = Some cmp -> level (n + i)%nat (world s) = true ->
     cmp <= time threaded now (loop s)) /\
  (forall i b, msip (clint s) !! i = Some b -> level i (world s) = b) /\
  (threaded = false -> forall e, e ∈ events (loop s) -> etime e <= cycle (loop s) + 1 ->
     cycle (loop s) + 1 < 2 ^ 64 -> (event_loop_wait (loop s)).2 = true) /\
  (forall fuel, (work threaded now s < fuel)%nat ->
     exists r s', run_due threaded now fuel s = Some (r, s') /\ clint s' = clint s /\
       forall i cmp, mtimecmp (clint s) !! i = Some cmp ->
         level (n + i)%nat (world s') = (cmp <=? time threaded now (loop s))).
Proof.
  intros Hp Hl Hr. pose proof (timer_reach_inv threaded n _ _ Hr (initial_inv threaded n now0 w Hp Hl)) as Hinv.
  cbn [fst snd] in Hinv. split; [|split; [apply (ci_soft _ _ _ _ Hinv)|split]].
  - intros i cmp Hi. destruct (ci_timer _ _ _ _ Hinv i cmp Hi) as [H1 _].
    unfold harts in H1. rewrite (ci_harts _ _ _ _ Hinv) in H1. exact H1.
  - intros Ht e He Hd Hc. pose proof (proj1 (Forall_forall _ _) (ci_next _ _ _ _ Hinv Ht) e He) as Hn. cbn in Hn.
    pose proof (ci_cycle _ _ _ _ Hinv) as Hcy. unfold current_cycle in Hcy. rewrite Ht in Hcy.
    unfold event_loop_wait, u64. rewrite wrap_id by (unfold in_u in *; lia). cbn. apply Z.leb_le. lia.
  - intros fuel Hf. destruct (run_due_ok threaded fuel n now s Hinv Hf) as (r & s' & Hr' & Hinv' & Hq & Hc & Hcy).
    exists r, s'. split; [exact Hr'|]. split; [exact Hc|]. intros i cmp Hi. rewrite <- Hc in Hi.
    rewrite (quiet_exact threaded n now s' i cmp Hinv' Hq Hi). unfold time. rewrite Hcy. reflexivity.
Qed.

(** C21. In lockstep mode, where harts and event loop take turns in one thread, timer
    interrupts are exact.  In every state reached by register writes, the clock and event
    handlers, a timer pin is high only when the time of its hart has come, the software
    interrupt pins show the [msip] bits, the loop does not sleep past a due event, and
    handling the due events ends, after which the pin of each hart is high exactly when
    [mtimecmp <= time].  (In threaded mode, [timer_callback_race] and
    [threaded_wait_oversleeps] show what goes wrong.) *)
Theorem timer_interrupts {W} {P : IrqPin W} {L : IrqPinLaws W} n now0 w now s :
  pins w = (2 * n)%nat -> (forall i, level i w = false) ->
  rtc (timer_step false) (now0, initial n now0 w) (now, s) ->
  (forall i cmp, mtimecmp (clint s) !! i = Some cmp -> level (n + i)%nat (world s) = true ->
     cmp <= time false now (loop s)) /\
  (forall i b, msip (clint s) !! i = Some b -> level i (world s) = b) /\
  (forall e, e ∈ events (loop s) -> etime e <= cycle (loop s) + 1 ->
     cycle (loop s) + 1 < 2 ^ 64 -> (event_loop_wait (loop s)).2 = true) /\
  (forall fuel, (work false now s < fuel)%nat ->
     exists r s', run_due false now fuel s = Some (r, s') /\ clint s' = clint s /\
       forall i cmp, mtimecmp (clint s) !! i = Some cmp ->
         level (n + i)%nat (world s') = (cmp <=? time false now (loop s))).
Proof.
  intros Hp Hl Hr. destruct (timer_exact false n now0 w now s Hp Hl Hr) as (H1 & H2 & H3 & H4).
  split; [exact H1|]. split; [exact H2|]. split; [exact (H3 eq_refl)|exact H4].
Qed.

(** In threaded mode the loop waits for a number of cycles as if they were microseconds,
    which are a hundred cycles each: unless something else wakes it, it handles an event that
    is [v - c] cycles away after a hundred times as many. *)
Theorem threaded_wait_oversleeps e now v micros : epoch e <= now -> (now - epoch e) * 100 < v ->
  let c := current_cycle true now e in
  wait_micros (Some v) c = Some micros -> v < 2 ^ 64 -> (now + micros - epoch e) * 100 < 2 ^ 64 ->
  c < v /\ current_cycle true (now + micros) e - c = 100 * (v - c).
Proof.
  intros He Hv c Hm H64 Hr. assert (Ec : c = (now - epoch e) * 100).
  { unfold c, current_cycle, u64. rewrite !(wrap_id 64); unfold in_u; rewrite ?(wrap_id 64); unfold in_u; lia. }
  cbn [wait_micros] in Hm. injection Hm as <-. unfold u64 in *. rewrite wrap_id in * by (unfold in_u; lia).
  unfold current_cycle, u64. split; [lia|]. rewrite !(wrap_id 64); unfold in_u; rewrite ?(wrap_id 64); unfold in_u; lia.
Qed.

(** ** The pins of the harts *)

Lemma core_level_other m1 m2 b s :
  m1 .& m2 = 0 -> core_level m2 (core_set_level m1 b s) = core_level m2 s.
Proof.
  intros Hd. unfold core_level, core_set_level. f_equal. destruct b.
  - rewrite mip_assert, Z.land_lor_distr_l, Hd. apply Z.lor_0_r.
  - cbn. apply Z.bits_inj'. intros i Hi. rewrite !Z.land_spec, Z.lnot_spec by assumption.
    assert (H : Z.testbit (m1 .& m2) i = false) by (rewrite Hd; apply Z.bits_0). rewrite Z.land_spec in H.
    destruct (Z.testbit m1 i), (Z.testbit m2 i), (Z.testbit (mip s) i); cbn in *; congruence.
Qed.

Lemma clint_irqs_laws m1 m2 : m1 <> 0 -> m2 <> 0 -> m1 .& m2 = 0 ->
  @IrqPinLaws (list SharedContext) (clint_irqs (m1, m2)).
Proof.
  intros H1 H2 Hd. assert (Hd' : m2 .& m1 = 0) by (rewrite Z.land_comm; exact Hd).
  constructor; unfold clint_irqs, clint_pin; cbn [pins set_level level fst snd].
  - intros i b w. destruct (i <? length w)%nat; cbn beta iota; rewrite length_alter; reflexivity.
  - intros i b w Hi. destruct (Nat.ltb_spec i (length w)) as [Hlt|Hge]; cbn beta iota; rewrite length_alter;
      rewrite ?(proj2 (Nat.ltb_lt _ _) Hlt), ?(proj2 (Nat.ltb_ge _ _) Hge); rewrite list_lookup_alter_eq.
    + destruct (lookup_lt_is_Some_2 w i Hlt) as [x ->]. cbn. apply core_level_set, H1.
    + destruct (lookup_lt_is_Some_2 w (i - length w)) as [x ->]; [lia|]. cbn. apply core_level_set, H2.
  - intros i j b w Hij. destruct (Nat.ltb_spec i (length w)) as [Hi|Hi]; cbn beta iota; rewrite length_alter;
      destruct (Nat.ltb_spec j (length w)) as [Hj|Hj].
    1, 4: rewrite list_lookup_alter_ne by lia; reflexivity.
    all: match goal with |- context [alter ?f ?x ?w !! ?y] => destruct (decide (x = y)) as [->|] end;
      [rewrite list_lookup_alter_eq; destruct (_ !! _); cbn; [apply core_level_other; assumption|reflexivity]
      |rewrite list_lookup_alter_ne by assumption; reflexivity].
Qed.

(** ** A run, and the race

    One hart; the guest sets its compare register to 2 microseconds and 200
    cycles pass. *)

Definition one_hart : list SharedContext := [MkShared 0 0 [] [] 0 0 []].

Definition armed : Sys (list SharedContext) :=
  @write _ (clint_irqs (8, 128)) false 0 0x4000 2 8 (initial 1 0 one_hart).

Definition ticks (k : nat) (s : Sys (list SharedContext)) : Sys (list SharedContext) :=
  Nat.iter k (fun s => MkSys (clint s) (event_loop_wait (loop s)).1 (tasks s) (world s)) s.

Lemma ticks_reach k s : cycle (loop s) + Z.of_nat k < 2 ^ 64 -> 0 <= cycle (loop s) ->
  rtc (@timer_step _ (clint_irqs (8, 128)) false) (0, s) (0, ticks k s) /\
  cycle (loop (ticks k s)) = cycle (loop s) + Z.of_nat k.
Proof.
  intros Hk H0. induction k as [|k IH]; [split; [constructor|cbn; lia]|].
  destruct IH as [Hr Hc]; [lia|]. set (s1 := ticks k s) in *.
  change (ticks (S k) s) with (MkSys (clint s1) (event_loop_wait (loop s1)).1 (tasks s1) (world s1)).
  split; [eapply rtc_r; [exact Hr|apply step_tick; [reflexivity|lia]]|].
  cbn. unfold u64. rewrite wrap_id; unfold in_u; lia.
Qed.

Lemma timer_interrupts_witness :
  exists r s', @run_due _ (clint_irqs (8, 128)) false 0 3 (ticks 200 armed) = Some (r, s') /\
    map mip (world (ticks 200 armed)) = [0] /\ map mip (world s') = [128] /\
    @level _ (clint_irqs (8, 128)) 1 (world s') = true.
Proof.
  pose proof (clint_irqs_laws 8 128 ltac:(lia) ltac:(lia) eq_refl) as HL.
  assert (Hr : rtc (@timer_step _ (clint_irqs (8, 128)) false) (0, initial 1 0 one_hart) (0, ticks 200 armed)).
  { eapply rtc_l; [apply (step_write false 0 _ 0x4000 2 8); unfold in_u; lia|].
    apply ticks_reach; [apply Z.ltb_lt|apply Z.leb_le]; vm_compute; reflexivity. }
  destruct (@timer_interrupts _ (clint_irqs (8, 128)) HL 1 0 one_hart 0 (ticks 200 armed)
    eq_refl ltac:(intros [|[|i]]; reflexivity) Hr) as (_ & _ & _ & Hd).
  destruct (Hd 3%nat ltac:(apply Nat.ltb_lt; vm_compute; reflexivity)) as (r & s' & Hs & _ & Hl).
  exists r, s'. split; [exact Hs|]. specialize (Hl 0%nat 2 eq_refl).
  split; [vm_compute; reflexivity|]. split; [|etransitivity; [exact Hl|vm_compute; reflexivity]].
  vm_compute in Hs. injection Hs as _ <-. reflexivity.
Defined.

(** The callback of a timer task in threaded mode is not atomic: it compares,
    then sets the pin. *)
Definition callback_compare {W} (now : Z) (hart : nat) (s : Sys W) : option bool :=
  option_map (fun cmp => cmp <=? time true now (loop s)) (mtimecmp (clint s) !! hart).

Definition callback_set {W} {P : IrqPin W} (hart : nat) (b : bool) (s : Sys W) : Sys W := set_mtip_irq hart b s.

Lemma timer_ready_split {W} {P : IrqPin W} now hart (s : Sys W) :
  timer_ready true now (clint s) hart (loop s) (world s) =
  option_map (fun b => world (callback_set hart b s)) (callback_compare now hart s).
Proof. unfold timer_ready, callback_compare. destruct (mtimecmp _ !! _); reflexivity. Qed.

(** Hart 0 has set its compare register to the end of time, after the timer
    task of an earlier deadline was woken. *)
Definition race_start : Sys (list SharedContext) :=
  @write _ (clint_irqs (8, 128)) true 10 0x4000 (2 ^ 64 - 1) 8 (initial 1 0 one_hart).

(** In threaded mode a timer interrupt can be lost: the callback of an old timer
    compares, finds that the time has not come, and is overtaken by a write of
    a compare value that has passed, which raises the pin; the callback then
    lowers it.  Once the due events are handled nothing is left that would raise
    it: the pin is low, the time has come and no event is due. *)
Theorem timer_callback_race :
  @callback_compare (list SharedContext) 10 0 race_start = Some false /\
  let s := @write _ (clint_irqs (8, 128)) true 10 0x4000 5 8 race_start in
  @level _ (clint_irqs (8, 128)) 1 (world s) = true /\
  exists r s', @run_due _ (clint_irqs (8, 128)) true 10 4 (@callback_set _ (clint_irqs (8, 128)) 0 false s) = Some (r, s') /\
    @level _ (clint_irqs (8, 128)) 1 (world s') = false /\
    mtimecmp (clint s') = [5] /\ time true 10 (loop s') = 10 /\ quiet true 10 s'.
Proof.
  split; [vm_compute; reflexivity|]. split; [vm_compute; reflexivity|].
  eexists _, _. split; [vm_compute; reflexivity|]. repeat (split; [vm_compute; reflexivity|]).
  unfold quiet. vm_compute. repeat constructor.
Qed.

(** ** Switching modes *)

(** Switching between lockstep and threaded mode neither turns the clock back
    nor loses lockstep cycles: when the loop is shut down in one mode at the
    instant [now] and goes on in the other at a later instant [now'], the cycle count
    is at least what it was, at most 99 cycles (the rounding to a microsecond) and
    the time that passed ahead, and the number of lockstep cycles is the same. *)
Theorem mode_switch_monotone threaded now now' e :
  now <= now' -> epoch e <= now -> in_u 64 (cycle e) -> in_u 64 (lockstep_cycle_base e) ->
  lockstep_cycle_base e <= cycle e -> cycle e + 99 < 2 ^ 64 ->
  (now - epoch e) * 100 < 2 ^ 64 -> (now' - now) * 100 + cycle e + 99 < 2 ^ 64 ->
  let e' := shutdown_loop threaded now e in
  current_cycle threaded now e <= current_cycle (negb threaded) now' e' /\
  current_cycle (negb threaded) now' e' <= current_cycle threaded now e + (now' - now) * 100 + 99 /\
  get_lockstep_cycles e' = get_lockstep_cycles e.
Proof.
  intros Hn He Hc Hb Hbc Hc99 Hm Hm' e'. unfold e', shutdown_loop. destruct threaded; cbn [negb].
  - unfold queue, current_cycle, get_lockstep_cycles, u64. cbn. unfold wrap.
    unfold in_u in *. rewrite !(Z.mod_small (now - epoch e)) by lia. rewrite !(Z.mod_small ((now - epoch e) * 100)) by lia.
    rewrite !(Z.mod_small (cycle e - lockstep_cycle_base e)) by lia. split; [lia|]. split; [lia|].
    rewrite Zminus_mod_idemp_r. replace (_ - (_ - _)) with (cycle e - lockstep_cycle_base e) by lia.
    apply Z.mod_small. lia.
  - unfold queue, current_cycle, u64. cbn. unfold wrap. unfold in_u in *.
    rewrite (Z.mod_small (cycle e + 99)) by lia. set (micro := (cycle e + 99) / 100).
    assert (cycle e <= micro * 100 <= cycle e + 99) by (unfold micro; dlia).
    replace (now' - (now - micro)) with (now' - now + micro) by lia.
    rewrite (Z.mod_small (now' - now + micro)), Z.mod_small by lia. repeat split; lia.
Qed.

Lemma mode_switch_monotone_witness :
  let e := MkLoop 12345 u64_max 0 [] false 45 in
  cycle e = 12345 /\ current_cycle true 130 (shutdown_loop false 125 e) = 12900 /\
  current_cycle false 125 e <= current_cycle true 130 (shutdown_loop false 125 e).
Proof.
  cbn zeta. split; [reflexivity|]. split; [vm_compute; reflexivity|].
  apply (mode_switch_monotone false 125 130 (MkLoop 12345 u64_max 0 [] false 45)); unfold in_u; cbn; lia.
Defined.
