(* ===== verification/X86Op.v ===== *)
(** The x86 operations of lib/x86/src/op.rs: sizes, registers, operands,
    condition codes and the operations the code generator emits. *)

From Stdlib Require Import ZArith Lia Bool List.
From S2P Require Import Prelude.
Import ListNotations.
Local Open Scope Z_scope.
Local Open Scope rust_scope.

Module X86.

Inductive Size : Type := Byte | Word | Dword | Qword.

Definition size_num (s : Size) : Z :=
  match s with Byte => 0 | Word => 1 | Dword => 2 | Qword => 3 end.

Definition size_eqb (a b : Size) : bool := size_num a =? size_num b.

(** [Ord for Size]: [a < b]. *)
Definition size_ltb (a b : Size) : bool := size_num a <? size_num b.

Definition cap_to_dword (s : Size) : Size := match s with Qword => Dword | s => s end.

(** [Size::bytes] *)
Definition size_bytes (s : Size) : Z := 1 << size_num s.

Definition REG_GPB : Z := 0x10.
Definition REG_GPW : Z := 0x20.
Definition REG_GPD : Z := 0x30.
Definition REG_GPQ : Z := 0x40.
Definition REG_GPB2 : Z := 0x50.

Inductive Register : Type :=
  | AL | CL | DL | BL | AH | CH | DH | BH | R8B | R9B | R10B | R11B | R12B | R13B | R14B | R15B
  | AX | CX | DX | BX | SP | BP | SI | DI | R8W | R9W | R10W | R11W | R12W | R13W | R14W | R15W
  | EAX | ECX | EDX | EBX | ESP | EBP | ESI | EDI | R8D | R9D | R10D | R11D | R12D | R13D | R14D
  | R15D | RAX | RCX | RDX | RBX | RSP | RBP | RSI | RDI | R8 | R9 | R10 | R11 | R12 | R13 | R14
  | R15 | SPL | BPL | SIL | DIL | RIP.


(** [reg as u8] *)
Definition reg_num (r : Register) : Z :=
  match r with
  | AL => 0x10 | CL => 0x11 | DL => 0x12 | BL => 0x13 | AH => 0x14 | CH => 0x15 | DH => 0x16
  | BH => 0x17 | R8B => 0x18 | R9B => 0x19 | R10B => 0x1a | R11B => 0x1b | R12B => 0x1c
  | R13B => 0x1d | R14B => 0x1e | R15B => 0x1f | AX => 0x20 | CX => 0x21 | DX => 0x22 | BX => 0x23
  | SP => 0x24 | BP => 0x25 | SI => 0x26 | DI => 0x27 | R8W => 0x28 | R9W => 0x29 | R10W => 0x2a
  | R11W => 0x2b | R12W => 0x2c | R13W => 0x2d | R14W => 0x2e | R15W => 0x2f | EAX => 0x30
  | ECX => 0x31 | EDX => 0x32 | EBX => 0x33 | ESP => 0x34 | EBP => 0x35 | ESI => 0x36 | EDI => 0x37
  | R8D => 0x38 | R9D => 0x39 | R10D => 0x3a | R11D => 0x3b | R12D => 0x3c | R13D => 0x3d
  | R14D => 0x3e | R15D => 0x3f | RAX => 0x40 | RCX => 0x41 | RDX => 0x42 | RBX => 0x43
  | RSP => 0x44 | RBP => 0x45 | RSI => 0x46 | RDI => 0x47 | R8 => 0x48 | R9 => 0x49 | R10 => 0x4a
  | R11 => 0x4b | R12 => 0x4c | R13 => 0x4d | R14 => 0x4e | R15 => 0x4f | SPL => 0x54 | BPL => 0x55
  | SIL => 0x56 | DIL => 0x57 | RIP => 0x60
  end.


Definition all_registers : list Register :=
  [AL; CL; DL; BL; AH; CH; DH; BH; R8B; R9B; R10B; R11B; R12B; R13B; R14B; R15B; AX; CX; DX; BX; SP;
  BP; SI; DI; R8W; R9W; R10W; R11W; R12W; R13W; R14W; R15W; EAX; ECX; EDX; EBX; ESP; EBP; ESI; EDI;
  R8D; R9D; R10D; R11D; R12D; R13D; R14D; R15D; RAX; RCX; RDX; RBX; RSP; RBP; RSI; RDI; R8; R9;
  R10; R11; R12; R13; R14; R15; SPL; BPL; SIL; DIL; RIP].

(** [transmute] of a register number; [None] is not a register. *)
Definition reg_of_num (n : Z) : option Register :=
  find (fun r => reg_num r =? n) all_registers.

(** [Register::size]; [None] is the [unreachable!] of [RIP]. *)
Definition reg_size (r : Register) : option Size :=
  let k := reg_num r .& 0xF0 in
  if (k =? REG_GPB) || (k =? REG_GPB2) then Some Byte
  else if k =? REG_GPW then Some Word
  else if k =? REG_GPD then Some Dword
  else if k =? REG_GPQ then Some Qword
  else None.

Definition from_id_and_size (id : Z) (size : Size) : option Register :=
  let id := id .& 15 in
  let mask :=
    match size with
    | Byte => if (4 <=? id) && (id <=? 7) then REG_GPB2 else REG_GPB
    | Word => REG_GPW
    | Dword => REG_GPD
    | Qword => REG_GPQ
    end in
  reg_of_num (id .| mask).

(** A register is one of [AH], [CH], [DH], [BH]. *)
Definition high_byte (n : Z) : bool := (reg_num AH <=? n) && (n <=? reg_num BH).

(** [Register::resize] *)
Definition reg_resize (r : Register) (size : Size) : option Register :=
  if high_byte (reg_num r) then None else from_id_and_size (reg_num r) size.

Record Memory : Type := MkMem {
  base : option Register;
  index : option (Register * Z);
  displacement : Z;
  mem_size : Size;
}.

Definition mem_resize (m : Memory) (size : Size) : Memory :=
  MkMem (base m) (index m) (displacement m) size.

Inductive Location : Type := Reg (r : Register) | Mem (m : Memory).

Definition loc_size (l : Location) : option Size :=
  match l with Reg r => reg_size r | Mem m => Some (mem_size m) end.

Definition loc_resize (l : Location) (size : Size) : option Location :=
  match l with
  | Reg r => option_map Reg (reg_resize r size)
  | Mem m => Some (Mem (mem_resize m size))
  end.

Inductive Operand : Type := OpReg (r : Register) | OpMem (m : Memory) | Imm (i : Z).

(** [Operand::as_loc]: [inr] is [Err(imm)]. *)
Definition as_loc (o : Operand) : Location + Z :=
  match o with OpReg r => inl (Reg r) | OpMem m => inl (Mem m) | Imm i => inr i end.

(** [From<Location> for Operand] *)
Definition operand_of (l : Location) : Operand :=
  match l with Reg r => OpReg r | Mem m => OpMem m end.

Inductive ConditionCode : Type :=
| Overflow | NotOverflow | Below | AboveEqual | Equal | NotEqual | BelowEqual | Above
| Sign | NotSign | Parity | NotParity | Less | GreaterEqual | LessEqual | Greater.

Definition cc_num (cc : ConditionCode) : Z :=
  match cc with
  | Overflow => 0x0 | NotOverflow => 0x1 | Below => 0x2 | AboveEqual => 0x3
  | Equal => 0x4 | NotEqual => 0x5 | BelowEqual => 0x6 | Above => 0x7
  | Sign => 0x8 | NotSign => 0x9 | Parity => 0xA | NotParity => 0xB
  | Less => 0xC | GreaterEqual => 0xD | LessEqual => 0xE | Greater => 0xF
  end.

Definition all_cc : list ConditionCode :=
  [Overflow; NotOverflow; Below; AboveEqual; Equal; NotEqual; BelowEqual; Above;
   Sign; NotSign; Parity; NotParity; Less; GreaterEqual; LessEqual; Greater].

(** [TryFrom<u8> for ConditionCode] *)
Definition cc_of_num (n : Z) : option ConditionCode :=
  if n <=? 0xF then find (fun cc => cc_num cc =? n) all_cc else None.

(** [ConditionCode::swap] *)
Definition cc_swap (cc : ConditionCode) : ConditionCode :=
  match cc with
  | Less => Greater
  | GreaterEqual => LessEqual
  | Below => Above
  | AboveEqual => BelowEqual
  | cc => cc
  end.

(** [Not for ConditionCode] *)
Definition cc_not (cc : ConditionCode) : option ConditionCode :=
  find (fun c => cc_num c =? (cc_num cc .^ 1)) all_cc.

Inductive Op : Type :=
| Illegal
| Adc (dst : Location) (src : Operand)
| Add (dst : Location) (src : Operand)
| And (dst : Location) (src : Operand)
| Call (target : Operand)
| Cdqe
| Cmovcc (dst : Register) (src : Location) (cc : ConditionCode)
| Cmp (dst : Location) (src : Operand)
| Cmpxchg (dst : Location) (src : Register)
| Cdq
| Cqo
| Div (src : Location)
| Hlt
| Idiv (src : Location)
| Imul1 (src : Location)
| Imul2 (dst : Register) (src : Location)
| Jcc (target : Z) (cc : ConditionCode)
| Jmp (target : Operand)
| Lea (dst : Register) (src : Memory)
| Lock
| Mfence
| Mov (dst : Location) (src : Operand)
| Movabs (dst src : Operand)
| Movsx (dst : Register) (src : Location)
| Movzx (dst : Register) (src : Location)
| Mul (src : Location)
| Neg (dst : Location)
| Nop
| Not (dst : Location)
| Or (dst : Location) (src : Operand)
| Pop (dst : Location)
| Push (src : Operand)
| Ret (pop : Z)
| Sar (dst : Location) (src : Operand)
| Sbb (dst : Location) (src : Operand)
| Setcc (dst : Location) (cc : ConditionCode)
| Shl (dst : Location) (src : Operand)
| Shr (dst : Location) (src : Operand)
| Sub (dst : Location) (src : Operand)
| Test (dst : Location) (src : Operand)
| Xadd (dst : Location) (src : Register)
| Xchg (dst src : Location)
| Xor (dst : Location) (src : Operand).

(** The address builders: [Register * scale], [Register + Memory],
    [Register + Register], [Register + disp], [Memory + disp]. *)
Definition reg_mul (r : Register) (scale : Z) : Memory := MkMem None (Some (r, scale)) 0 Qword.
Definition reg_add_mem (r : Register) (m : Memory) : Memory :=
  MkMem (Some r) (index m) (displacement m) (mem_size m).
Definition reg_add_reg (r i : Register) : Memory := MkMem (Some r) (Some (i, 1)) 0 Qword.
Definition reg_add (r : Register) (disp : Z) : Memory := MkMem (Some r) None disp Qword.
Definition reg_sub (r : Register) (disp : Z) : Memory := MkMem (Some r) None (i32 (- disp)) Qword.
Definition mem_add (m : Memory) (disp : Z) : Memory := MkMem (base m) (index m) disp (mem_size m).
Definition mem_sub (m : Memory) (disp : Z) : Memory := MkMem (base m) (index m) (i32 (- disp)) (mem_size m).

End X86.
