(* ===== verification/X86Encode.v ===== *)
(** The encoder of lib/x86/src/encode.rs.  An emitting function is the list of
    bytes it passes to the emitter, [None] when it panics. *)

From Stdlib Require Import ZArith Lia Bool List.
From S2P Require Import Prelude X86Op.
Import ListNotations.
Local Open Scope Z_scope.
Local Open Scope rust_scope.

Module Encode.
Import X86.

Definition Enc : Type := option (list Z).

Definition cat (a b : Enc) : Enc :=
  let? x := a in let? y := b in Some (x ++ y).
Notation "a +++ b" := (cat a b) (at level 60, right associativity).

Definition assertion (b : bool) (k : Enc) : Enc := if b then k else None.
Notation "'assert!' b ';' k" := (assertion b k) (at level 10, b at level 100, k at level 200).

(** [iN::try_from(x).is_ok()] and [uN::try_from(x).is_ok()] *)
Definition fits_i (n x : Z) : bool := (- 2 ^ (n - 1) <=? x) && (x <? 2 ^ (n - 1)).
Definition fits_u (n x : Z) : bool := (0 <=? x) && (x <? 2 ^ n).

(** [check_imm_size]: the assertion holds. *)
Definition check_imm_size (size : Size) (imm : Z) : bool :=
  match size with
  | Byte => fits_i 8 imm || fits_u 8 imm
  | Word => fits_i 16 imm || fits_u 16 imm
  | Dword => fits_i 32 imm || fits_u 32 imm
  | Qword => fits_i 32 imm
  end.

Definition emit_u8 (value : Z) : Enc := Some [u8 value].
Definition emit_u16 (value : Z) : Enc := Some [u8 value; u8 (value >> 8)].
Definition emit_u32 (value : Z) : Enc :=
  Some [u8 value; u8 (value >> 8); u8 (value >> 16); u8 (value >> 24)].
Definition emit_u64 (value : Z) : Enc :=
  Some [u8 value; u8 (value >> 8); u8 (value >> 16); u8 (value >> 24);
        u8 (value >> 32); u8 (value >> 40); u8 (value >> 48); u8 (value >> 56)].

Definition emit_imm (size : Size) (value : Z) : Enc :=
  match size with
  | Byte => emit_u8 (u8 value)
  | Word => emit_u16 (u16 value)
  | Dword => emit_u32 (u32 value)
  | Qword => emit_u64 (u64 value)
  end.

Definition when_set (b : bool) (bit rex : Z) : Z := if b then rex .| bit else rex.
Definition emit_if (b : bool) (e : Enc) : Enc := if b then e else Some [].

(** The prefix computed from the r/m operand: [None] is a failed assertion. *)
Definition rex_of_loc (op : Location) (rex : Z) : option Z :=
  match op with
  | Reg it =>
      let it_num := reg_num it in
      let rex := when_set ((it_num .& 0xF0) =? REG_GPB2) 0x40 rex in
      if (rex =? 0) || negb (high_byte it_num) then
        Some (when_set ((it_num .& 8) <>? 0) 0x1 rex)
      else None
  | Mem it =>
      let rex :=
        match base it with
        | Some b => when_set ((reg_num b .& 8) <>? 0) 0x1 rex
        | None => rex
        end in
      Some (match index it with
            | Some (i, _) => when_set ((reg_num i .& 8) <>? 0) 0x2 rex
            | None => rex
            end)
  end.

Definition emit_rex (op : Location) (reg : Z) (rex : Z) : Enc :=
  let rex := when_set ((reg .& 0xF0) =? REG_GPB2) 0x40 rex in
  let rex := when_set ((reg .& 8) <>? 0) 0x4 rex in
  let? rex := rex_of_loc op rex in
  if rex <>? 0 then assert! negb (high_byte reg); emit_u8 (rex .| 0x40) else Some [].

(** The scale of an index register as a shift, with the checks on the index. *)
Definition scale_shift (idx : option (Register * Z)) : option Z :=
  match idx with
  | Some (i, scale) =>
      if ((reg_num i .& 0xF0) =? REG_GPQ) && ((reg_num i .& 0xF) <>? 5) then
        if scale =? 1 then Some 0
        else if scale =? 2 then Some 1
        else if scale =? 4 then Some 2
        else if scale =? 8 then Some 3
        else None
      else None
  | None => Some 0
  end.

Definition emit_modrm (op : Location) (reg : Z) : Enc :=
  let reg := reg .& 7 in
  match op with
  | Reg it => emit_u8 (0xC0 .| (reg << 3) .| (reg_num it .& 7))
  | Mem it =>
      let disp := displacement it in
      let? shift := scale_shift (index it) in
      match base it, index it with
      | None, None =>
          emit_u8 ((reg << 3) .| 4) +++ emit_u8 0x25 +++ emit_u32 (u32 disp)
      | None, Some (i, _) =>
          emit_u8 ((reg << 3) .| 4) +++
          emit_u8 ((shift << 6) .| ((reg_num i .& 7) << 3) .| 5) +++ emit_u32 (u32 disp)
      | Some RIP, None => emit_u8 ((reg << 3) .| 5) +++ emit_u32 (u32 disp)
      | Some RSP, None | Some R12, None =>
          if disp =? 0 then emit_u8 ((reg << 3) .| 4) +++ emit_u8 0x24
          else if fits_i 8 disp then
            emit_u8 (0x40 .| (reg << 3) .| 4) +++ emit_u8 0x24 +++ emit_u8 (u8 disp)
          else emit_u8 (0x80 .| (reg << 3) .| 4) +++ emit_u8 0x24 +++ emit_u32 (u32 disp)
      | Some b, None =>
          let base_reg := reg_num b .& 7 in
          assert! (reg_num b .& 0xF0) =? REG_GPQ;
          if (disp =? 0) && (base_reg <>? 5) then emit_u8 ((reg << 3) .| base_reg)
          else if fits_i 8 disp then
            emit_u8 (0x40 .| (reg << 3) .| base_reg) +++ emit_u8 (u8 disp)
          else emit_u8 (0x80 .| (reg << 3) .| base_reg) +++ emit_u32 (u32 disp)
      | Some b, Some (i, _) =>
          let base_reg := reg_num b .& 7 in
          let index_reg := reg_num i .& 7 in
          assert! (reg_num b .& 0xF0) =? REG_GPQ;
          let sib := (shift << 6) .| (index_reg << 3) .| base_reg in
          if (disp =? 0) && (base_reg <>? 5) then emit_u8 ((reg << 3) .| 4) +++ emit_u8 sib
          else if fits_i 8 disp then
            emit_u8 (0x40 .| (reg << 3) .| 4) +++ emit_u8 sib +++ emit_u8 (u8 disp)
          else emit_u8 (0x80 .| (reg << 3) .| 4) +++ emit_u8 sib +++ emit_u32 (u32 disp)
      end
  end.

(** The bytes of an opcode but the last. *)
Definition emit_escape (opcode : Z) : Enc :=
  emit_if ((opcode .& 0xFF0000) <>? 0) (emit_u8 (u8 (opcode >> 16))) +++
  emit_if ((opcode .& 0xFF00) <>? 0) (emit_u8 (u8 (opcode >> 8))).

Definition emit_r_rm (op_size : Size) (mem : Location) (reg opcode : Z) : Enc :=
  emit_if (size_eqb op_size Word) (emit_u8 0x66) +++
  emit_rex mem reg (if size_eqb op_size Qword then 0x08 else 0) +++
  emit_escape opcode +++
  emit_u8 (u8 opcode) +++
  emit_modrm mem reg.

Definition emit_plusr (op_size : Size) (reg : Register) (opcode : Z) : Enc :=
  let n := reg_num reg in
  let rex := when_set (size_eqb op_size Qword) 0x08 0 in
  let rex := when_set ((n .& 8) <>? 0) 0x01 rex in
  let rex := when_set ((n .& 0xF0) =? REG_GPB2) 0x40 rex in
  emit_if (size_eqb op_size Word) (emit_u8 0x66) +++
  (if rex <>? 0 then assert! negb (high_byte n); emit_u8 (rex .| 0x40) else Some []) +++
  emit_escape opcode +++
  emit_u8 (u8 opcode .| (n .& 7)).

Definition pick (size : Size) (byte other : Z) : Z := if size_eqb size Byte then byte else other.

Definition emit_rm (dst : Location) (opcode id : Z) : Enc :=
  let? op_size := loc_size dst in
  emit_r_rm op_size dst id (pick op_size opcode (opcode + 1)).

(** The prefix of the short encodings for the accumulator. *)
Definition rax_prefix (op_size : Size) : Enc :=
  match op_size with Word => emit_u8 0x66 | Qword => emit_u8 0x48 | _ => Some [] end.

(** The destination is a register numbered 0: [AL], [AX], [EAX], [RAX]. *)
Definition is_rax (l : Location) : bool :=
  match l with Reg r => (reg_num r .& 0xF) =? 0 | Mem _ => false end.

Definition emit_alu (dst : Location) (src : Operand) (id : Z) : Enc :=
  let? op_size := loc_size dst in
  match as_loc src with
  | inr imm =>
      assert! check_imm_size op_size imm;
      if negb (size_eqb op_size Byte) && fits_i 8 imm then
        emit_r_rm op_size dst id 0x83 +++ emit_u8 (u8 imm)
      else if is_rax dst then
        rax_prefix op_size +++ emit_u8 ((id << 3) .| pick op_size 0x04 0x05) +++
        emit_imm (cap_to_dword op_size) imm
      else
        emit_r_rm op_size dst id (pick op_size 0x80 0x81) +++ emit_imm (cap_to_dword op_size) imm
  | inl src =>
      let? src_size := loc_size src in
      assert! size_eqb src_size op_size;
      match dst, src with
      | dst, Reg reg => emit_r_rm op_size dst (reg_num reg) ((id << 3) .| pick op_size 0x00 0x01)
      | Reg reg, src => emit_r_rm op_size src (reg_num reg) ((id << 3) .| pick op_size 0x02 0x03)
      | _, _ => None
      end
  end.

Definition emit_shift (dst : Location) (src : Operand) (id : Z) : Enc :=
  let? op_size := loc_size dst in
  match src with
  | OpReg CL => emit_r_rm op_size dst id (pick op_size 0xD2 0xD3)
  | Imm imm =>
      if imm =? 1 then emit_r_rm op_size dst id (pick op_size 0xD0 0xD1)
      else
        emit_r_rm op_size dst id (pick op_size 0xC0 0xC1) +++
        (assert! fits_u 8 imm; emit_u8 imm)
  | _ => None
  end.

Definition emit_indirect (target : Location) (id : Z) : Enc :=
  let? size := loc_size target in
  assert! size_eqb size Qword;
  emit_rex target id 0 +++ emit_u8 0xFF +++ emit_modrm target id.

Definition emit_call (target : Operand) : Enc :=
  match as_loc target with
  | inl target => emit_indirect target 2
  | inr imm => assert! fits_i 32 imm; emit_u8 0xE8 +++ emit_u32 (u32 imm)
  end.

Definition emit_jcc (target : Z) (cond : ConditionCode) : Enc :=
  if fits_i 8 target then emit_u8 (0x70 + cc_num cond) +++ emit_u8 (u8 target)
  else emit_u8 0x0F +++ emit_u8 (0x80 + cc_num cond) +++ emit_u32 (u32 target).

Definition emit_jmp (target : Operand) : Enc :=
  match as_loc target with
  | inl target => emit_indirect target 4
  | inr imm =>
      if fits_i 8 imm then emit_u8 0xEB +++ emit_u8 (u8 imm)
      else assert! fits_i 32 imm; emit_u8 0xE9 +++ emit_u32 (u32 imm)
  end.

Definition emit_lea (dst : Register) (src : Memory) : Enc :=
  let? op_size := reg_size dst in
  assert! negb (size_eqb op_size Byte);
  emit_r_rm op_size (Mem src) (reg_num dst) 0x8D.

(** [mov r/m, imm] through the ModR/M encoding. *)
Definition emit_mov_rm_imm (op_size : Size) (dst : Location) (imm : Z) : Enc :=
  assert! check_imm_size op_size imm;
  emit_r_rm op_size dst 0 (pick op_size 0xC6 0xC7) +++ emit_imm (cap_to_dword op_size) imm.

Definition emit_mov (dst : Location) (src : Operand) : Enc :=
  let? op_size := loc_size dst in
  match as_loc src with
  | inr imm =>
      match dst with
      | Reg reg =>
          let op_size := if size_eqb op_size Qword && fits_u 32 imm then Dword else op_size in
          if negb (size_eqb op_size Qword) || negb (fits_i 32 imm) then
            emit_plusr op_size reg (pick op_size 0xB0 0xB8) +++ emit_imm op_size imm
          else emit_mov_rm_imm op_size dst imm
      | Mem _ => emit_mov_rm_imm op_size dst imm
      end
  | inl src =>
      let? src_size := loc_size src in
      assert! size_eqb src_size op_size;
      match dst, src with
      | dst, Reg reg => emit_r_rm op_size dst (reg_num reg) (pick op_size 0x88 0x89)
      | Reg reg, src => emit_r_rm op_size src (reg_num reg) (pick op_size 0x8A 0x8B)
      | _, _ => None
      end
  end.

Definition emit_movabs (dst src : Operand) : Enc :=
  let? (imm, reg, opcode) :=
    match dst, src with
    | OpReg reg, Imm imm => Some (imm, reg, 0xA0)
    | Imm imm, OpReg reg => Some (imm, reg, 0xA2)
    | _, _ => None
    end in
  assert! (reg_num reg .& 0xF) =? 0;
  let? op_size := reg_size reg in
  rax_prefix op_size +++ emit_u8 (pick op_size opcode (opcode + 1)) +++ emit_imm op_size imm.

Definition emit_movsx (dst : Register) (src : Location) : Enc :=
  let? dst_size := reg_size dst in
  let? src_size := loc_size src in
  assert! size_ltb src_size dst_size;
  let? opcode := match src_size with
                 | Byte => Some 0x0FBE
                 | Word => Some 0x0FBF
                 | Dword => Some 0x63
                 | Qword => None
                 end in
  emit_r_rm dst_size src (reg_num dst) opcode.

Definition emit_movzx (dst : Register) (src : Location) : Enc :=
  let? dst_size := reg_size dst in
  let? src_size := loc_size src in
  assert! size_ltb src_size dst_size && negb (size_eqb src_size Dword);
  emit_r_rm dst_size src (reg_num dst) (pick src_size 0x0FB6 0x0FB7).

(** [REX.W] is not needed for [push] and [pop]. *)
Definition stack_size (s : Size) : option Size :=
  match s with Word => Some Word | Qword => Some Dword | _ => None end.

Definition emit_pop (dst : Location) : Enc :=
  let? size := loc_size dst in
  let? op_size := stack_size size in
  match dst with
  | Reg reg => emit_plusr op_size reg 0x58
  | Mem _ => emit_r_rm op_size dst 0 0x8F
  end.

Definition emit_push (src : Operand) : Enc :=
  match as_loc src with
  | inr imm =>
      if fits_i 8 imm then emit_u8 0x6A +++ emit_u8 (u8 imm)
      else assert! fits_i 32 imm; emit_u8 0x68 +++ emit_u32 (u32 imm)
  | inl src =>
      let? size := loc_size src in
      let? op_size := stack_size size in
      match src with
      | Reg reg => emit_plusr op_size reg 0x50
      | Mem _ => emit_r_rm op_size src 0 0xFF
      end
  end.

Definition emit_ret (pop : Z) : Enc :=
  if pop =? 0 then emit_u8 0xC3 else emit_u8 0xC2 +++ emit_u16 pop.

Definition emit_setcc (dst : Location) (cc : ConditionCode) : Enc :=
  let? size := loc_size dst in
  assert! size_eqb size Byte; emit_r_rm Byte dst 0 (0x0F90 + cc_num cc).

Definition emit_test (dst : Location) (src : Operand) : Enc :=
  let? op_size := loc_size dst in
  match src with
  | Imm imm =>
      assert! check_imm_size op_size imm;
      if is_rax dst then
        rax_prefix op_size +++ emit_u8 (pick op_size 0xA8 0xA9) +++ emit_imm (cap_to_dword op_size) imm
      else
        emit_r_rm op_size dst 0 (pick op_size 0xF6 0xF7) +++ emit_imm (cap_to_dword op_size) imm
  | OpReg reg =>
      let? size := reg_size reg in
      assert! size_eqb size op_size;
      emit_r_rm op_size dst (reg_num reg) (pick op_size 0x84 0x85)
  | OpMem _ => None
  end.

Definition emit_xchg (dst src : Location) : Enc :=
  let? (dst, src) :=
    match dst, src with
    | Reg src, dst => Some (dst, src)
    | dst, Reg src => Some (dst, src)
    | _, _ => None
    end in
  let? op_size := loc_size dst in
  let? size := reg_size src in
  assert! size_eqb op_size size;
  let other := emit_r_rm op_size dst (reg_num src) (pick op_size 0x86 0x87) in
  match dst with
  | Reg reg =>
      if negb (size_eqb op_size Byte) && ((reg_num src .& 0xF) =? 0) then emit_plusr op_size reg 0x90
      else if negb (size_eqb op_size Byte) && ((reg_num reg .& 0xF) =? 0) then emit_plusr op_size src 0x90
      else other
  | Mem _ => other
  end.

(** [INST r, r/m] with equal sizes above a byte. *)
Definition emit_reg_rm (dst : Register) (src : Location) (opcode : Z) : Enc :=
  let? op_size := reg_size dst in
  assert! negb (size_eqb op_size Byte);
  let? src_size := loc_size src in
  assert! size_eqb op_size src_size;
  emit_r_rm op_size src (reg_num dst) opcode.

(** [INST r/m, r] with equal sizes. *)
Definition emit_rm_reg (dst : Location) (src : Register) (byte other : Z) : Enc :=
  let? op_size := loc_size dst in
  let? src_size := reg_size src in
  assert! size_eqb op_size src_size;
  emit_r_rm op_size dst (reg_num src) (pick op_size byte other).

Definition encode (op : Op) : Enc :=
  match op with
  | Add dst src => emit_alu dst src 0
  | Or dst src => emit_alu dst src 1
  | Adc dst src => emit_alu dst src 2
  | Sbb dst src => emit_alu dst src 3
  | And dst src => emit_alu dst src 4
  | Sub dst src => emit_alu dst src 5
  | Xor dst src => emit_alu dst src 6
  | Cmp dst src => emit_alu dst src 7
  | Shl dst src => emit_shift dst src 4
  | Shr dst src => emit_shift dst src 5
  | Sar dst src => emit_shift dst src 7
  | Illegal => emit_u8 0x0F +++ emit_u8 0x0B
  | Call target => emit_call target
  | Cdqe => emit_u8 0x48 +++ emit_u8 0x98
  | Cmovcc dst src cc => emit_reg_rm dst src (0x0F40 + cc_num cc)
  | Cdq => emit_u8 0x99
  | Cmpxchg dst src => emit_rm_reg dst src 0x0FB0 0x0FB1
  | Cqo => emit_u8 0x48 +++ emit_u8 0x99
  | Div src => emit_rm src 0xF6 6
  | Hlt => emit_u8 0xf4
  | Idiv src => emit_rm src 0xF6 7
  | Imul1 src => let? op_size := loc_size src in emit_r_rm op_size src 5 (pick op_size 0xF6 0xF7)
  | Imul2 dst src => emit_reg_rm dst src 0x0FAF
  | Jcc target cc => emit_jcc target cc
  | Lock => emit_u8 0xF0
  | Jmp target => emit_jmp target
  | Lea dst src => emit_lea dst src
  | Mfence => emit_u8 0x0F +++ emit_u8 0xAE +++ emit_u8 0xF0
  | Mov dst src => emit_mov dst src
  | Movabs dst src => emit_movabs dst src
  | Movsx dst src => emit_movsx dst src
  | Movzx dst src => emit_movzx dst src
  | Mul src => emit_rm src 0xF6 4
  | Neg dst => emit_rm dst 0xF6 3
  | Nop => emit_u8 0x90
  | Not dst => emit_rm dst 0xF6 2
  | Pop dst => emit_pop dst
  | Push src => emit_push src
  | Ret pop => emit_ret pop
  | Setcc dst cc => emit_setcc dst cc
  | Test dst src => emit_test dst src
  | Xadd dst src => emit_rm_reg dst src 0x0FC0 0x0FC1
  | Xchg dst src => emit_xchg dst src
  end.

End Encode.
