(* ===== verification/X86Decode.v ===== *)
(** The decoder of lib/x86/src/decode.rs, over the list of the bytes its
    iterator will return; [None] is a panic, an unimplemented opcode or the end
    of the list. *)

From Stdlib Require Import ZArith Lia Bool List.
From S2P Require Import Prelude X86Op.
Import ListNotations.
Local Open Scope Z_scope.
Local Open Scope rust_scope.

Module Decode.
Import X86.

Definition Dec (A : Type) : Type := list Z -> option (A * list Z).

Definition ret {A} (a : A) : Dec A := fun l => Some (a, l).
Definition panic {A} : Dec A := fun _ => None.
Definition bind {A B} (m : Dec A) (k : A -> Dec B) : Dec B :=
  fun l => match m l with Some (a, l) => k a l | None => None end.
Definition lift {A} (o : option A) : Dec A := match o with Some a => ret a | None => panic end.
Notation "'let*' x ':=' m 'in' k" := (bind m (fun x => k))
  (at level 10, x pattern, m at level 100, k at level 200).

Definition byte : Dec Z := fun l => match l with [] => None | b :: l => Some (b, l) end.

(** [n] bytes, least significant first: the loop of [word], [dword], [qword]. *)
Fixpoint little (n : nat) (i : Z) : Dec Z :=
  match n with
  | O => ret 0
  | S n => let* b := byte in let* r := little n (i + 1) in ret ((b << (i * 8)) .| r)
  end.

Definition word : Dec Z := little 2 0.
Definition dword : Dec Z := little 4 0.
Definition qword : Dec Z := little 8 0.

Definition immediate (size : Size) : Dec Z :=
  match size with
  | Byte => let* b := byte in ret (i8 b)
  | Word => let* w := word in ret (i16 w)
  | Dword => let* d := dword in ret (i32 d)
  | Qword => let* q := qword in ret (i64 q)
  end.

Definition register_of_size (reg : Z) (size : Size) (rex : Z) : option Register :=
  let reg := reg .& 15 in
  let mask :=
    match size with
    | Byte => if ((rex .& 0x40) <>? 0) && (4 <=? reg) && (reg <=? 7) then REG_GPB2 else REG_GPB
    | Word => REG_GPW
    | Dword => REG_GPD
    | Qword => REG_GPQ
    end in
  reg_of_num (reg .| mask).

Definition extend (rex bit : Z) : Z := if (rex .& bit) <>? 0 then 8 else 0.

(** Base and index of a memory operand, and the mode for its displacement. *)
Definition sib_operand (rex modb : Z) : Dec (option Register * option (Register * Z) * Z) :=
  let* sib := byte in
  let ss := sib >> 6 in
  let idx := extend rex 0x2 .| ((sib >> 3) .& 7) in
  let bse := extend rex 0x1 .| (sib .& 7) in
  let* i := (if idx <>? 4 then
               let* r := lift (register_of_size idx Qword 0) in ret (Some (r, 1 << ss))
             else ret None) in
  if (modb =? 0) && ((bse .& 7) =? 5) then ret (None, i, 2)
  else let* b := lift (register_of_size bse Qword 0) in ret (Some b, i, modb).

Definition modrm (rex : Z) (size : Size) : Dec (Location * Register) :=
  let* first_byte := byte in
  let modb := first_byte >> 6 in
  let rm := first_byte .& 7 in
  let reg_id := ((first_byte >> 3) .& 7) + extend rex 0x4 in
  let* reg := lift (register_of_size reg_id size rex) in
  if modb =? 3 then
    let* operand := lift (register_of_size (rm .| extend rex 0x1) size rex) in
    ret (Reg operand, reg)
  else if (modb =? 0) && (rm =? 5) then
    let* d := dword in
    ret (Mem (reg_add RIP (i32 d)), reg)
  else
    let* (b, i, modb) :=
      (if rm <>? 4 then
         let* b := lift (register_of_size (rm .| extend rex 0x1) Qword 0) in
         ret (Some b, None, modb)
       else sib_operand rex modb) in
    let* disp :=
      (if modb =? 0 then ret 0
       else if modb =? 1 then let* d := byte in ret (i8 d)
       else let* d := dword in ret (i32 d)) in
    ret (Mem (MkMem b i disp size), reg).

Definition decode_alu (dst : Location) (src : Operand) (id : Z) : Op :=
  let id := id .& 7 in
  if id =? 0 then Add dst src
  else if id =? 1 then Or dst src
  else if id =? 2 then Adc dst src
  else if id =? 3 then Sbb dst src
  else if id =? 4 then And dst src
  else if id =? 5 then Sub dst src
  else if id =? 6 then Xor dst src
  else Cmp dst src.

Definition decode_shift (dst : Location) (src : Operand) (id : Register) : option Op :=
  let id := reg_num id .& 7 in
  if id =? 4 then Some (Shl dst src)
  else if id =? 5 then Some (Shr dst src)
  else if id =? 7 then Some (Sar dst src)
  else None.

(** The loop over the prefixes: [rex], the operand size and the opcode byte. *)
Fixpoint prefixes (rex : Z) (opsize : Size) (l : list Z) : option (Z * Size * Z * list Z) :=
  match l with
  | [] => None
  | prefix :: l =>
      if (prefix .& 0xF0) =? 0x40 then
        prefixes prefix (if (prefix .& 0x08) <>? 0 then Qword else opsize) l
      else if prefix =? 0x66 then prefixes rex Word l
      else Some (rex, opsize, prefix, l)
  end.

(** The opcodes of byte-sized operations whose larger forms have the next opcode. *)
Definition byte_ops : list Z :=
  [0x00; 0x08; 0x10; 0x18; 0x20; 0x28; 0x30; 0x38;
   0x02; 0x0A; 0x12; 0x1A; 0x22; 0x2A; 0x32; 0x3A;
   0x04; 0x0C; 0x14; 0x1C; 0x24; 0x2C; 0x34; 0x3C;
   0x80; 0x84; 0x86; 0x88; 0x8A; 0xC0; 0xC6; 0xD0; 0xD2; 0xF6; 0x0FB0; 0x0FC0].

Definition one_of (x : Z) (l : list Z) : bool := existsb (Z.eqb x) l.

Definition widen (opcode : Z) (opsize : Size) : Z * Size :=
  if one_of opcode byte_ops then (opcode + 1, Byte)
  else if opcode =? 0xB0 then (opcode + 8, Byte)
  else (opcode, opsize).

Definition between (x lo hi : Z) : bool := (lo <=? x) && (x <=? hi).

(** The two-byte opcodes. *)
Definition op_0f (rex : Z) (opsize : Size) (opcode : Z) : Dec Op :=
  let cc := cc_of_num (u8 opcode .& 0xF) in
  if opcode =? 0x0F0B then ret Illegal
  else if between opcode 0x0F40 0x0F4F then
    let* cc := lift cc in
    let* (src, dst) := modrm rex opsize in ret (Cmovcc dst src cc)
  else if between opcode 0x0F80 0x0F8F then
    let* cc := lift cc in
    let* d := dword in ret (Jcc (i32 d) cc)
  else if between opcode 0x0F90 0x0F9F then
    let* cc := lift cc in
    let* (dst, reg) := modrm rex Byte in
    if (reg_num reg .& 7) =? 0 then ret (Setcc dst cc) else panic
  else if opcode =? 0x0FAE then
    let* next := byte in
    if next =? 0xF0 then ret Mfence else panic
  else if opcode =? 0x0FAF then
    let* (src, dst) := modrm rex opsize in ret (Imul2 dst src)
  else if opcode =? 0x0FB1 then
    let* (dst, src) := modrm rex opsize in ret (Cmpxchg dst src)
  else if opcode =? 0x0FB6 then
    let* (src, dst) := modrm rex opsize in
    let* src := lift (loc_resize src Byte) in ret (Movzx dst src)
  else if opcode =? 0x0FB7 then
    let* (src, dst) := modrm rex opsize in
    let* src := lift (loc_resize src Word) in ret (Movzx dst src)
  else if opcode =? 0x0FBE then
    let* (src, dst) := modrm rex opsize in
    let* src := lift (loc_resize src Byte) in ret (Movsx dst src)
  else if opcode =? 0x0FBF then
    let* (src, dst) := modrm rex opsize in
    let* src := lift (loc_resize src Word) in ret (Movsx dst src)
  else if opcode =? 0x0FC1 then
    let* (dst, src) := modrm rex opsize in ret (Xadd dst src)
  else panic.

(** [push] and [pop] of a register. *)
Definition stack_register (rex : Z) (opsize : Size) (opcode : Z) : option Register :=
  register_of_size (extend rex 0x1 .| (u8 opcode .& 7))
    (match opsize with Dword => Qword | s => s end) rex.

Definition op_group_f7 (operand : Location) (reg : Register) (opsize : Size) : Dec Op :=
  let id := reg_num reg .& 7 in
  if id =? 0 then let* imm := immediate (cap_to_dword opsize) in ret (Test operand (Imm imm))
  else if id =? 2 then ret (Not operand)
  else if id =? 3 then ret (Neg operand)
  else if id =? 4 then ret (Mul operand)
  else if id =? 5 then ret (Imul1 operand)
  else if id =? 6 then ret (Div operand)
  else if id =? 7 then ret (Idiv operand)
  else panic.

Definition op_group_ff (operand : Location) (reg : Register) : Dec Op :=
  let id := reg_num reg .& 7 in
  if id =? 0 then ret (Push (operand_of operand))
  else if id =? 2 then ret (Call (operand_of operand))
  else if id =? 4 then ret (Jmp (operand_of operand))
  else panic.

(** The one-byte opcodes. *)
Definition op_one (rex : Z) (opsize : Size) (opcode : Z) : Dec Op :=
  if one_of opcode [0x01; 0x09; 0x11; 0x19; 0x21; 0x29; 0x31; 0x39] then
    let* (dst, src) := modrm rex opsize in ret (decode_alu dst (OpReg src) (u8 opcode >> 3))
  else if one_of opcode [0x03; 0x0B; 0x13; 0x1B; 0x23; 0x2B; 0x33; 0x3B] then
    let* (src, dst) := modrm rex opsize in ret (decode_alu (Reg dst) (operand_of src) (u8 opcode >> 3))
  else if one_of opcode [0x05; 0x0D; 0x15; 0x1D; 0x25; 0x2D; 0x35; 0x3D] then
    let* imm := immediate (cap_to_dword opsize) in
    let* r := lift (register_of_size 0 opsize rex) in
    ret (decode_alu (Reg r) (Imm imm) (u8 opcode >> 3))
  else if between opcode 0x50 0x57 then
    let* r := lift (stack_register rex opsize opcode) in ret (Push (OpReg r))
  else if between opcode 0x58 0x5F then
    let* r := lift (stack_register rex opsize opcode) in ret (Pop (Reg r))
  else if opcode =? 0x63 then
    let* (src, dst) := modrm rex opsize in
    let* src := lift (loc_resize src Dword) in ret (Movsx dst src)
  else if between opcode 0x70 0x7F then
    let* cc := lift (cc_of_num (u8 opcode .& 0xF)) in
    let* d := byte in ret (Jcc (i8 d) cc)
  else if opcode =? 0x81 then
    let* (operand, reg) := modrm rex opsize in
    let* imm := immediate (cap_to_dword opsize) in
    ret (decode_alu operand (Imm imm) (reg_num reg))
  else if opcode =? 0x83 then
    let* (operand, reg) := modrm rex opsize in
    let* b := byte in ret (decode_alu operand (Imm (i8 b)) (reg_num reg))
  else if opcode =? 0x85 then
    let* (operand, reg) := modrm rex opsize in ret (Test operand (OpReg reg))
  else if opcode =? 0x87 then
    let* (operand, reg) := modrm rex opsize in ret (Xchg (Reg reg) operand)
  else if opcode =? 0x89 then
    let* (operand, reg) := modrm rex opsize in ret (Mov operand (OpReg reg))
  else if opcode =? 0x8B then
    let* (operand, reg) := modrm rex opsize in ret (Mov (Reg reg) (operand_of operand))
  else if opcode =? 0x8D then
    let* (operand, reg) := modrm rex opsize in
    match operand with Mem operand => ret (Lea reg operand) | Reg _ => ret Illegal end
  else if opcode =? 0x90 then ret Nop
  else if opcode =? 0x98 then match opsize with Qword => ret Cdqe | _ => panic end
  else if opcode =? 0x99 then
    match opsize with Dword => ret Cdq | Qword => ret Cqo | _ => panic end
  else if between opcode 0xB8 0xBF then
    let* r := lift (register_of_size (extend rex 0x1 .| (u8 opcode .& 7)) opsize rex) in
    let* imm := immediate opsize in ret (Mov (Reg r) (Imm imm))
  else if opcode =? 0xC1 then
    let* (operand, reg) := modrm rex opsize in
    let* b := byte in lift (decode_shift operand (Imm b) reg)
  else if opcode =? 0xC2 then let* w := word in ret (Ret w)
  else if opcode =? 0xC3 then ret (Ret 0)
  else if opcode =? 0xC7 then
    let* (operand, reg) := modrm rex opsize in
    if (reg_num reg .& 7) <>? 0 then panic
    else let* imm := immediate (cap_to_dword opsize) in ret (Mov operand (Imm imm))
  else if opcode =? 0xD1 then
    let* (operand, reg) := modrm rex opsize in lift (decode_shift operand (Imm 1) reg)
  else if opcode =? 0xD3 then
    let* (operand, reg) := modrm rex opsize in lift (decode_shift operand (OpReg CL) reg)
  else if opcode =? 0xE8 then let* d := dword in ret (Call (Imm (i32 d)))
  else if opcode =? 0xE9 then let* d := dword in ret (Jmp (Imm (i32 d)))
  else if opcode =? 0xEB then let* b := byte in ret (Jmp (Imm (i8 b)))
  else if opcode =? 0xF0 then ret Lock
  else if opcode =? 0xF4 then ret Hlt
  else if opcode =? 0xF7 then
    let* (operand, reg) := modrm rex opsize in op_group_f7 operand reg opsize
  else if opcode =? 0xFF then
    let* (operand, reg) := modrm rex Qword in op_group_ff operand reg
  else panic.

(** What follows the prefixes and the opcode. *)
Definition dispatch (rex : Z) (opsize : Size) (opcode : Z) : Dec Op :=
  let '(opcode, opsize) := widen opcode opsize in
  if 0x0F00 <=? opcode then op_0f rex opsize opcode else op_one rex opsize opcode.

(** [Decoder::op], [decode] *)
Definition decode : Dec Op := fun l =>
  match prefixes 0 Dword l with
  | None => None
  | Some (rex, opsize, opcode, l) =>
      (let* opcode := (if opcode =? 0xF then let* b := byte in ret ((opcode << 8) .| b) else ret opcode) in
       dispatch rex opsize opcode) l
  end.

End Decode.
