(* ===== verification/X86Props.v ===== *)
(** The parts of x86 instructions, encoded and decoded: constants, register
    numbers, the REX prefix, ModR/M and SIB, operand size prefixes and opcodes. *)

From Stdlib Require Import ZArith Lia Bool List.
From S2P Require Import Prelude X86Op X86Encode X86Decode.
Import ListNotations.
Local Open Scope Z_scope.
Local Open Scope rust_scope.
Import X86 Encode Decode.

Lemma some_eq {A} (x y : A) : Some x = Some y -> x = y.
Proof. congruence. Qed.

(** ** Little-endian constants *)

Fixpoint le_bytes (n : nat) (v : Z) : list Z :=
  match n with O => [] | S n => u8 v :: le_bytes n (v >> 8) end.

Lemma little_le n : forall i v rest, 0 <= i ->
  little n i (le_bytes n v ++ rest) = Some ((v mod 2 ^ (8 * Z.of_nat n)) << (8 * i), rest).
Proof.
  induction n as [|n IH]; intros i v rest Hi; cbn [little le_bytes app].
  - rewrite Z.mod_1_r, Z.shiftl_0_l. reflexivity.
  - unfold bind at 1, byte. rewrite (Z.mul_comm i 8). unfold bind. rewrite IH by lia. unfold ret. do 2 f_equal.
    replace (8 * (i + 1)) with (8 + 8 * i) by lia. rewrite <- Z.shiftl_shiftl, <- Z.shiftl_lor by lia. f_equal.
    replace (8 * Z.of_nat (S n)) with (8 + 8 * Z.of_nat n) by lia. rewrite Z.pow_add_r, Z.rem_mul_r by lia.
    rewrite Z.shiftr_div_pow2, Z.shiftl_mul_pow2 by lia. unfold u8, wrap.
    rewrite lor_add_low by (try lia; unfold in_u; apply Z.mod_pos_bound; lia). lia.
Qed.

Lemma emit_u16_le v : emit_u16 v = Some (le_bytes 2 v).
Proof. cbn [le_bytes]. rewrite ?Z.shiftr_shiftr by lia. reflexivity. Qed.

Lemma emit_u32_le v : emit_u32 v = Some (le_bytes 4 v).
Proof. cbn [le_bytes]. rewrite ?Z.shiftr_shiftr by lia. reflexivity. Qed.

Lemma emit_u64_le v : emit_u64 v = Some (le_bytes 8 v).
Proof. cbn [le_bytes]. rewrite ?Z.shiftr_shiftr by lia. reflexivity. Qed.

Lemma dword_le v rest : dword (le_bytes 4 v ++ rest) = Some (u32 v, rest).
Proof. unfold dword. rewrite little_le by lia. cbn [Z.mul]. rewrite Z.shiftl_0_r. reflexivity. Qed.

Lemma i32_u32 d : i32 (u32 (u32 d)) = i32 d.
Proof. unfold i32, u32, sext, wrap. rewrite !Z.mod_mod by lia. reflexivity. Qed.

Definition size_bits (s : Size) : Z := 8 * size_bytes s.

Lemma immediate_emit s imm bytes rest :
  emit_imm s imm = Some bytes -> immediate s (bytes ++ rest) = Some (sext (size_bits s) imm, rest).
Proof.
  destruct s; unfold emit_imm, immediate, word, dword, qword, bind; intros E.
  - injection E as <-. cbn [app byte]. unfold ret, i8, size_bits. do 2 f_equal. unfold u8. rewrite !sext_wrap. reflexivity.
  - rewrite emit_u16_le in E. assert (bytes = le_bytes 2 (u16 imm)) as -> by congruence.
    rewrite little_le by lia. unfold ret. do 2 f_equal. rewrite Z.shiftl_0_r. change (sext 16 (wrap 16 (wrap 16 imm)) = sext 16 imm).
    rewrite !sext_wrap. reflexivity.
  - rewrite emit_u32_le in E. assert (bytes = le_bytes 4 (u32 imm)) as -> by congruence.
    rewrite little_le by lia. unfold ret. do 2 f_equal. rewrite Z.shiftl_0_r. change (sext 32 (wrap 32 (wrap 32 imm)) = sext 32 imm).
    rewrite !sext_wrap. reflexivity.
  - rewrite emit_u64_le in E. assert (bytes = le_bytes 8 (u64 imm)) as -> by congruence.
    rewrite little_le by lia. unfold ret. do 2 f_equal. rewrite Z.shiftl_0_r. change (sext 64 (wrap 64 (wrap 64 imm)) = sext 64 imm).
    rewrite !sext_wrap. reflexivity.
Qed.

(** ** Registers and fields *)

Lemma in_all_registers r : In r all_registers.
Proof. destruct r; repeat (first [left; reflexivity|right]). Qed.

(** A property of registers, or of small numbers, checked one by one. *)
Lemma reg_check (P : Register -> bool) : forallb P all_registers = true -> forall r, P r = true.
Proof. intros H r. apply (proj1 (forallb_forall P all_registers) H), in_all_registers. Qed.

Lemma range_check (P : Z -> bool) n :
  forallb P (map Z.of_nat (seq 0 n)) = true -> forall x, 0 <= x < Z.of_nat n -> P x = true.
Proof.
  intros H x Hx. apply (proj1 (forallb_forall _ _) H), in_map_iff. exists (Z.to_nat x).
  split; [lia|]. apply in_seq. lia.
Qed.

Lemma reg_num_range r : 0 <= reg_num r < 0x61.
Proof.
  pose proof (reg_check (fun r => (0 <=? reg_num r) && (reg_num r <? 0x61)) eq_refl r) as H.
  cbn beta in H. zbool. lia.
Qed.

Lemma low3_range n : 0 <= n .& 7 < 8.
Proof. change 7 with (2 ^ 3 - 1). rewrite land_mask by lia. apply Z.mod_pos_bound. lia. Qed.

(** The parts of a register number that go into an instruction. *)
Lemma num_split n : 0 <= n < 0x61 ->
  n .& 8 = (if (n .& 8) <>? 0 then 8 else 0) /\ (n .& 7) + (n .& 8) = n .& 15 /\ (n .& 7) .| (n .& 8) = n .& 15 /\
  (n .& 8) .| (n .& 7) = n .& 15 /\ (n .& 7) .& 7 = n .& 7.
Proof.
  intros Hn.
  pose proof (range_check (fun n =>
    ((n .& 8) =? (if (n .& 8) <>? 0 then 8 else 0)) && ((n .& 7) + (n .& 8) =? n .& 15) &&
    (((n .& 7) .| (n .& 8)) =? n .& 15) && (((n .& 8) .| (n .& 7)) =? n .& 15) && (((n .& 7) .& 7) =? n .& 7))
    0x61 ltac:(vm_compute; reflexivity) n ltac:(lia)) as H.
  cbn beta in H. rewrite !andb_true_iff, !Z.eqb_eq in H. tauto.
Qed.

(** A byte of three fields of two, three and three bits. *)
Definition fields (a b c : Z) : Z := (a << 6) .| (b << 3) .| c.

Lemma fields_ok a b c : 0 <= a < 4 -> 0 <= b < 8 -> 0 <= c < 8 ->
  u8 (fields a b c) = fields a b c /\
  fields a b c >> 6 = a /\ (fields a b c >> 3) .& 7 = b /\ fields a b c .& 7 = c.
Proof.
  intros Ha Hb Hc.
  pose proof (range_check (fun a => forallb (fun b => forallb (fun c =>
    (u8 (fields a b c) =? fields a b c) && (fields a b c >> 6 =? a) &&
    (((fields a b c >> 3) .& 7) =? b) && ((fields a b c .& 7) =? c))
    (map Z.of_nat (seq 0 8))) (map Z.of_nat (seq 0 8))) 4 ltac:(vm_compute; reflexivity) a ltac:(lia)) as H.
  cbn beta in H. pose proof (range_check _ 8 H b ltac:(lia)) as H1. cbn beta in H1.
  pose proof (range_check _ 8 H1 c ltac:(lia)) as H2. cbn beta in H2.
  rewrite !andb_true_iff, !Z.eqb_eq in H2. tauto.
Qed.

(** A register is found again from its low bits, its size and the prefix. *)
Definition rex_fits (rex n : Z) : Prop :=
  (((rex .& 0x40) =? 0) = true -> ((n .& 0xF0) =? REG_GPB2) = false) /\
  (((rex .& 0x40) =? 0) = false -> high_byte n = false).

Lemma register_back r s rex id :
  reg_size r = Some s -> rex_fits rex (reg_num r) -> id .& 15 = reg_num r .& 15 ->
  register_of_size id s rex = Some r.
Proof.
  intros Hs [H1 H2] Hid. unfold register_of_size. rewrite Hid.
  destruct ((rex .& 0x40) =? 0); cbn [negb]; [specialize (H1 eq_refl)|specialize (H2 eq_refl)];
    destruct r; cbn in H1, H2, Hs; try discriminate; injection Hs as <-; reflexivity.
Qed.

Lemma register_back_q r id : ((reg_num r .& 0xF0) =? REG_GPQ) = true -> id .& 15 = reg_num r .& 15 ->
  register_of_size id Qword 0 = Some r.
Proof.
  intros Hq. apply register_back; [destruct r; try discriminate; reflexivity|].
  split; intros H; destruct r; try discriminate; reflexivity.
Qed.

(** The register field of an instruction that has an opcode extension there. *)
Lemma register_of_id id s rex : 0 <= id < 8 ->
  exists r, register_of_size id s rex = Some r /\ reg_num r .& 7 = id.
Proof.
  intros Hid.
  pose proof (range_check (fun id => forallb (fun rex => forallb (fun s =>
    match register_of_size id s rex with Some r => (reg_num r .& 7) =? id | None => false end)
    [Byte; Word; Dword; Qword]) [0; 0x40]) 8 ltac:(vm_compute; reflexivity) id ltac:(lia)) as H.
  cbn [forallb] in H. rewrite !andb_true_iff in H. destruct H as [H0 [H4 _]].
  assert (Hr : register_of_size id s rex = register_of_size id s (if (rex .& 0x40) <>? 0 then 0x40 else 0)).
  { unfold register_of_size. destruct ((rex .& 0x40) <>? 0); reflexivity. }
  rewrite Hr. destruct ((rex .& 0x40) <>? 0), s; cbn beta in *;
    match goal with |- exists r, ?x = Some r /\ _ => destruct x as [r|]; [exists r; split; [reflexivity|apply Z.eqb_eq; tauto]|tauto || (exfalso; intuition discriminate)] end.
Qed.

(** ** The REX prefix *)

(** What the decoder needs to know of the prefix of an instruction with r/m
    operand [l] and register field [n]. *)
Record rex_ok (l : Location) (n w rex : Z) : Prop := {
  rx_value : rex = 0 \/ ((rex .& 0xF0) =? 0x40) = true;
  rx_w : ((rex .& 8) <>? 0) = (w =? 8);
  rx_r : extend rex 4 = n .& 8;
  rx_reg : rex_fits rex n;
  rx_loc : match l with
           | Reg r => extend rex 1 = reg_num r .& 8 /\ rex_fits rex (reg_num r)
           | Mem m =>
               match base m with Some b => extend rex 1 = reg_num b .& 8 | None => True end /\
               match index m with Some (i, _) => extend rex 2 = reg_num i .& 8 | None => extend rex 2 = 0 end
           end;
}.

Lemma high_byte_low r : high_byte (reg_num r) && ((reg_num r .& 8) <>? 0) = false.
Proof.
  apply negb_true_iff. apply (reg_check (fun r => negb (high_byte (reg_num r) && ((reg_num r .& 8) <>? 0)))).
  vm_compute. reflexivity.
Qed.

Lemma emit_rex_ok l n w pre : 0 <= n < 0x61 -> w = 0 \/ w = 8 -> emit_rex l n w = Some pre ->
  exists rex, rex_ok l n w rex /\ (pre = [] /\ rex = 0 \/ pre = [rex] /\ ((rex .& 0xF0) =? 0x40) = true).
Proof.
  intros Hn Hw. pose proof (proj1 (num_split n Hn)) as Hn8. unfold emit_rex.
  destruct ((n .& 0xF0) =? REG_GPB2) eqn:Eg, ((n .& 8) <>? 0) eqn:Eb, (high_byte n) eqn:Eh;
  (destruct l as [r|m]; cbn [rex_of_loc];
   [ pose proof (proj1 (num_split _ (reg_num_range r))) as Hr8;
     pose proof (high_byte_low r) as Hhl;
     destruct ((reg_num r .& 0xF0) =? REG_GPB2) eqn:Eg', ((reg_num r .& 8) <>? 0) eqn:Eb', (high_byte (reg_num r)) eqn:Eh'
   | destruct (base m) as [b|] eqn:Em, (index m) as [[i sc]|] eqn:Ei;
     try (pose proof (proj1 (num_split _ (reg_num_range b))) as Hb8; destruct ((reg_num b .& 8) <>? 0) eqn:Eb');
     try (pose proof (proj1 (num_split _ (reg_num_range i))) as Hi8; destruct ((reg_num i .& 8) <>? 0) eqn:Ei') ]);
  (destruct Hw as [->| ->]; cbn; try discriminate; intros [= <-];
   eexists; (split; [|first [left; split; reflexivity|right; split; reflexivity]]);
   constructor; unfold rex_fits; rewrite ?Eg, ?Eh, ?Hn8, ?Em, ?Ei; try rewrite Eg', Eh', Hr8; rewrite ?Hb8, ?Hi8; cbn;
   repeat split; try discriminate; auto).
Qed.

(** ** ModR/M and SIB *)

Lemma register_low id id' s rex : id .& 15 = id' .& 15 -> register_of_size id s rex = register_of_size id' s rex.
Proof. unfold register_of_size. intros ->. reflexivity. Qed.

Lemma land15 n : (n .& 15) .& 15 = n .& 15.
Proof. rewrite <- Z.land_assoc. reflexivity. Qed.

(** The displacement that follows, by mode. *)
Definition read_disp (modb : Z) : Dec Z :=
  if modb =? 0 then ret 0
  else if modb =? 1 then bind byte (fun d => ret (i8 d))
  else bind dword (fun d => ret (i32 d)).

Lemma modrm_mem rex s a b c rest reg :
  0 <= a < 3 -> 0 <= b < 8 -> 0 <= c < 8 -> (a =? 0) && (c =? 5) = false ->
  register_of_size (b + extend rex 4) s rex = Some reg ->
  modrm rex s (u8 (fields a b c) :: rest) =
  bind (if c <>? 4 then
          bind (lift (register_of_size (c .| extend rex 1) Qword 0)) (fun b => ret (Some b, None, a))
        else sib_operand rex a)
    (fun '(b, i, modb) => bind (read_disp modb) (fun disp => ret (Mem (MkMem b i disp s), reg))) rest.
Proof.
  intros Ha Hb Hc Hac Hreg. destruct (fields_ok a b c) as (-> & H6 & H3 & H0); try lia.
  unfold modrm. unfold bind at 1, byte. rewrite H6, H3, H0, Hreg, Hac.
  rewrite (proj2 (Z.eqb_neq a 3)) by lia. reflexivity.
Qed.

Lemma modrm_reg rex s b c rest reg r :
  0 <= b < 8 -> 0 <= c < 8 -> register_of_size (b + extend rex 4) s rex = Some reg ->
  register_of_size (c .| extend rex 1) s rex = Some r ->
  modrm rex s (u8 (fields 3 b c) :: rest) = Some ((Reg r, reg), rest).
Proof.
  intros Hb Hc Hreg Hr. destruct (fields_ok 3 b c) as (-> & H6 & H3 & H0); try lia.
  unfold modrm. unfold bind at 1, byte. rewrite H6, H3, H0, Hreg, Hr. reflexivity.
Qed.

Lemma modrm_rip rex s b d rest reg :
  0 <= b < 8 -> register_of_size (b + extend rex 4) s rex = Some reg ->
  modrm rex s (u8 (fields 0 b 5) :: le_bytes 4 (u32 d) ++ rest) = Some ((Mem (reg_add RIP (i32 d)), reg), rest).
Proof.
  intros Hb Hreg. destruct (fields_ok 0 b 5) as (-> & H6 & H3 & H0); try lia.
  unfold modrm. unfold bind at 1, byte. rewrite H6, H3, H0, Hreg. cbn [lift Z.eqb Pos.eqb andb].
  unfold bind, lift, ret. rewrite dword_le, i32_u32. reflexivity.
Qed.

(** The SIB byte: with an index, and with a base. *)
Lemma sib_ok rex a ss i x rest idx bse :
  0 <= ss < 4 -> 0 <= i < 8 -> 0 <= x < 8 ->
  (if (extend rex 2 .| i) <>? 4
   then exists r, register_of_size (extend rex 2 .| i) Qword 0 = Some r /\ idx = Some (r, 1 << ss)
   else idx = None) ->
  (if (a =? 0) && (x =? 5) then bse = None else
     exists r, register_of_size (extend rex 1 .| x) Qword 0 = Some r /\ bse = Some r) ->
  sib_operand rex a (u8 (fields ss i x) :: rest) =
  Some ((bse, idx, if (a =? 0) && (x =? 5) then 2 else a), rest).
Proof.
  intros Hss Hi Hx Hidx Hbse. destruct (fields_ok ss i x) as (-> & H6 & H3 & H0); try lia.
  unfold sib_operand. unfold bind at 1, byte. rewrite H6, H3, H0.
  replace ((extend rex 1 .| x) .& 7) with x.
  2: { unfold extend. pose proof (range_check (fun x => (((8 .| x) .& 7) =? x) && (((0 .| x) .& 7) =? x)) 8 eq_refl x ltac:(lia)) as H.
       cbn beta in H. rewrite andb_true_iff, !Z.eqb_eq in H. destruct (_ <>? 0); symmetry; apply H. }
  destruct (_ <>? 4).
  - destruct Hidx as (r & -> & ->). unfold bind, lift, ret. destruct ((a =? 0) && (x =? 5)); [subst; reflexivity|].
    destruct Hbse as (r' & -> & ->). reflexivity.
  - subst idx. unfold bind, ret. destruct ((a =? 0) && (x =? 5)); [subst; reflexivity|].
    destruct Hbse as (r' & -> & ->). reflexivity.
Qed.

Definition disp_mode (d : Z) (no_zero : bool) : Z :=
  if (d =? 0) && negb no_zero then 0 else if fits_i 8 d then 1 else 2.

Definition disp_bytes (d : Z) (no_zero : bool) : list Z :=
  if (d =? 0) && negb no_zero then [] else if fits_i 8 d then [u8 (u8 d)] else le_bytes 4 (u32 d).

Lemma i8_u8 d : fits_i 8 d = true -> i8 (u8 (u8 d)) = d.
Proof.
  unfold fits_i. intros H. zbool. unfold i8, u8. rewrite !sext_wrap. apply sext_id; [lia|].
  unfold in_i. cbn in *. lia.
Qed.

Lemma read_disp_ok d z rest : in_i 32 d ->
  read_disp (disp_mode d z) (disp_bytes d z ++ rest) = Some (d, rest).
Proof.
  intros Hd. unfold disp_mode, disp_bytes. destruct ((d =? 0) && negb z) eqn:Hz.
  - zbool. subst d. reflexivity.
  - destruct (fits_i 8 d) eqn:Hf; cbn [app].
    + unfold read_disp. cbn [Z.eqb Pos.eqb]. unfold bind, byte, ret. rewrite i8_u8 by assumption. reflexivity.
    + unfold read_disp. cbn [Z.eqb Pos.eqb]. unfold bind, ret. rewrite dword_le, i32_u32. unfold i32.
      rewrite sext_id by (lia || assumption). reflexivity.
Qed.

Lemma disp_mode_range d z : 0 <= disp_mode d z < 3 /\ (disp_mode d z = 0 -> z = false).
Proof.
  unfold disp_mode. destruct ((d =? 0) && negb z) eqn:Hz; [zbool|destruct (fits_i 8 d)]; split; try lia; auto.
Qed.

(** The memory operands the decoder gives back, with the size it reads them at. *)
Definition mem_ok (m : Memory) : Prop :=
  in_i 32 (displacement m) /\ match index m with Some (i, _) => i <> RSP | None => True end.

Definition norm_mem (s : Size) (m : Memory) : Memory :=
  match base m with
  | Some RIP => mem_resize m Qword
  | _ => mem_resize m s
  end.

Definition is_base5 (r : Register) : bool := (reg_num r .& 7) =? 5.

Lemma emit_modrm_base b d s n :
  b <> RIP -> b <> RSP -> b <> R12 ->
  emit_modrm (Mem (MkMem (Some b) None d s)) n =
  if (reg_num b .& 0xF0) =? REG_GPQ
  then Some (u8 (fields (disp_mode d (is_base5 b)) (n .& 7) (reg_num b .& 7)) :: disp_bytes d (is_base5 b))
  else None.
Proof.
  intros H1 H2 H3. unfold emit_modrm, disp_mode, disp_bytes, is_base5. cbn [base index displacement scale_shift].
  transitivity (assertion ((reg_num b .& 0xF0) =? REG_GPQ)
    (if (d =? 0) && ((reg_num b .& 7) <>? 5) then emit_u8 (((n .& 7) << 3) .| (reg_num b .& 7))
     else if fits_i 8 d then cat (emit_u8 (0x40 .| ((n .& 7) << 3) .| (reg_num b .& 7))) (emit_u8 (u8 d))
     else cat (emit_u8 (0x80 .| ((n .& 7) << 3) .| (reg_num b .& 7))) (emit_u32 (u32 d)))).
  { destruct b; try reflexivity; congruence. }
  unfold assertion. rewrite emit_u32_le. repeat (destruct (_ : bool)); reflexivity.
Qed.

Lemma emit_modrm_rsp b d s n :
  b = RSP \/ b = R12 ->
  emit_modrm (Mem (MkMem (Some b) None d s)) n =
  Some (u8 (fields (disp_mode d false) (n .& 7) 4) :: u8 (fields 0 4 4) :: disp_bytes d false).
Proof.
  intros Hb. unfold emit_modrm, disp_mode, disp_bytes. cbn [base index displacement scale_shift].
  rewrite emit_u32_le, andb_true_r. destruct Hb as [->| ->]; repeat (destruct (_ : bool)); reflexivity.
Qed.

Lemma emit_modrm_sib b i sc d s n :
  emit_modrm (Mem (MkMem (Some b) (Some (i, sc)) d s)) n =
  match scale_shift (Some (i, sc)) with
  | Some shift =>
      if (reg_num b .& 0xF0) =? REG_GPQ
      then Some (u8 (fields (disp_mode d (is_base5 b)) (n .& 7) 4) ::
                 u8 (fields shift (reg_num i .& 7) (reg_num b .& 7)) :: disp_bytes d (is_base5 b))
      else None
  | None => None
  end.
Proof.
  unfold emit_modrm, disp_mode, disp_bytes, is_base5. cbn [base index displacement].
  destruct (scale_shift _) as [sh|]; [|reflexivity].
  transitivity (assertion ((reg_num b .& 0xF0) =? REG_GPQ)
    (let sib := (sh << 6) .| ((reg_num i .& 7) << 3) .| (reg_num b .& 7) in
     if (d =? 0) && ((reg_num b .& 7) <>? 5) then cat (emit_u8 (((n .& 7) << 3) .| 4)) (emit_u8 sib)
     else if fits_i 8 d then cat (emit_u8 (0x40 .| ((n .& 7) << 3) .| 4)) (cat (emit_u8 sib) (emit_u8 (u8 d)))
     else cat (emit_u8 (0x80 .| ((n .& 7) << 3) .| 4)) (cat (emit_u8 sib) (emit_u32 (u32 d))))).
  { destruct b; reflexivity. }
  unfold assertion. rewrite emit_u32_le. repeat (destruct (_ : bool)); reflexivity.
Qed.

Lemma emit_modrm_index i sc d s n :
  emit_modrm (Mem (MkMem None (Some (i, sc)) d s)) n =
  match scale_shift (Some (i, sc)) with
  | Some shift => Some (u8 (fields 0 (n .& 7) 4) :: u8 (fields shift (reg_num i .& 7) 5) :: le_bytes 4 (u32 d))
  | None => None
  end.
Proof.
  unfold emit_modrm. cbn [base index displacement]. destruct (scale_shift _); [|reflexivity].
  rewrite emit_u32_le. reflexivity.
Qed.

Lemma emit_modrm_abs d s n :
  emit_modrm (Mem (MkMem None None d s)) n =
  Some (u8 (fields 0 (n .& 7) 4) :: u8 (fields 0 4 5) :: le_bytes 4 (u32 d)).
Proof. unfold emit_modrm. cbn [base index displacement scale_shift]. rewrite emit_u32_le. reflexivity. Qed.

Lemma emit_modrm_rip d s n :
  emit_modrm (Mem (MkMem (Some RIP) None d s)) n = Some (u8 (fields 0 (n .& 7) 5) :: le_bytes 4 (u32 d)).
Proof. unfold emit_modrm. cbn [base index displacement scale_shift]. rewrite emit_u32_le. reflexivity. Qed.

Lemma scale_shift_ok i sc shift : scale_shift (Some (i, sc)) = Some shift ->
  0 <= shift < 4 /\ sc = 1 << shift /\ ((reg_num i .& 0xF0) =? REG_GPQ) = true.
Proof.
  cbn. destruct (_ =? REG_GPQ); [|discriminate]. destruct ((reg_num i .& 15) <>? 5); [|discriminate]. cbn.
  repeat (match goal with |- (if ?x =? ?y then _ else _) = _ -> _ => destruct (Z.eqb_spec x y) end;
          [intros [= <-]; subst; split; [lia|auto]|]). discriminate.
Qed.

(** The number of an index register, as the decoder finds it. *)
Lemma index_back i rex : ((reg_num i .& 0xF0) =? REG_GPQ) = true -> i <> RSP -> extend rex 2 = reg_num i .& 8 ->
  ((extend rex 2 .| (reg_num i .& 7)) <>? 4) = true /\
  register_of_size (extend rex 2 .| (reg_num i .& 7)) Qword 0 = Some i.
Proof.
  intros Hq Hi Hx. rewrite Hx. destruct (num_split _ (reg_num_range i)) as (_ & _ & _ & -> & _). split.
  - destruct i; try discriminate; try congruence; reflexivity.
  - apply register_back_q; [assumption|apply land15].
Qed.

Lemma base_back b rex : ((reg_num b .& 0xF0) =? REG_GPQ) = true -> extend rex 1 = reg_num b .& 8 ->
  register_of_size (extend rex 1 .| (reg_num b .& 7)) Qword 0 = Some b /\
  register_of_size ((reg_num b .& 7) .| extend rex 1) Qword 0 = Some b.
Proof.
  intros Hq Hx. rewrite Hx. destruct (num_split _ (reg_num_range b)) as (_ & _ & H1 & H2 & _).
  rewrite H1, H2. split; apply register_back_q; try assumption; apply land15.
Qed.

Section ModRM.
Context (n w rex : Z) (s : Size) (reg : Register) (rest : list Z).
Context (Hn : 0 <= n < 0x61) (Hreg : register_of_size n s rex = Some reg).

Let field : register_of_size ((n .& 7) + (n .& 8)) s rex = Some reg.
Proof. destruct (num_split n Hn) as (_ & -> & _). rewrite <- Hreg. apply register_low, land15. Qed.

Lemma modrm_sib m c :
  rex_ok (Mem m) n w rex -> mem_ok m -> base m <> Some RIP ->
  match base m with None => True | Some _ => index m <> None end ->
  emit_modrm (Mem m) n = Some c ->
  modrm rex s (c ++ rest) = Some ((Mem (norm_mem s m), reg), rest).
Proof.
  intros Hrex [Hd Hi] Hrip Hsib Hc. destruct (rx_loc _ _ _ _ Hrex) as [Hb Hx].
  pose proof (rx_r _ _ _ _ Hrex) as Hr. pose proof (low3_range n).
  destruct m as [b [[i sc]|] d sz]; cbn [base index displacement] in *.
  - pose proof (low3_range (reg_num i)). destruct b as [b|].
    + rewrite emit_modrm_sib in Hc. destruct (scale_shift (Some (i, sc))) as [sh|] eqn:Hsc in Hc; [|discriminate].
      apply scale_shift_ok in Hsc as (Hsh & -> & Hq).
      destruct ((reg_num b .& 0xF0) =? REG_GPQ) eqn:Hbq in Hc; [|discriminate].
      injection Hc as <-. destruct (index_back i rex Hq Hi Hx) as [H4 Hib], (base_back b rex Hbq Hb) as [Hbb _].
      pose proof (low3_range (reg_num b)). destruct (disp_mode_range d (is_base5 b)) as [Hm Hz].
      set (md := disp_mode d (is_base5 b)) in *.
      assert (Hm5 : (md =? 0) && ((reg_num b .& 7) =? 5) = false).
      { destruct (Z.eqb_spec md 0); [|reflexivity]. apply Hz. assumption. }
      cbn [app]. rewrite (modrm_mem rex s md (n .& 7) 4 _ reg) by (first [lia|rewrite Hr; exact field]).
      cbn [Z.eqb Pos.eqb negb]. unfold bind at 1.
      rewrite (sib_ok rex md sh (reg_num i .& 7) (reg_num b .& 7) (disp_bytes d (is_base5 b) ++ rest) (Some (i, 1 << sh)) (Some b));
        [|lia|lia|lia|rewrite H4; exists i; split; [exact Hib|reflexivity]|rewrite Hm5; exists b; split; [exact Hbb|reflexivity]].
      rewrite Hm5. unfold bind, md. rewrite read_disp_ok by assumption. unfold ret, norm_mem.
      cbn. destruct b; try reflexivity; congruence.
    + rewrite emit_modrm_index in Hc. destruct (scale_shift (Some (i, sc))) as [sh|] eqn:Hsc in Hc; [|discriminate].
      apply scale_shift_ok in Hsc as (Hsh & -> & Hq). apply some_eq in Hc as <-.
      destruct (index_back i rex Hq Hi Hx) as [H4 Hib].
      cbn [app]. rewrite (modrm_mem rex s 0 (n .& 7) 4 _ reg) by (first [lia|rewrite Hr; exact field]).
      cbn [Z.eqb Pos.eqb negb]. unfold bind at 1.
      rewrite (sib_ok rex 0 sh _ _ _ (Some (i, 1 << sh)) None); [|lia|lia|lia|rewrite H4; exists i; split; [exact Hib|reflexivity]|reflexivity].
      cbn [Z.eqb Pos.eqb andb]. unfold bind, read_disp. cbn [Z.eqb Pos.eqb]. unfold bind. rewrite dword_le, i32_u32.
      unfold ret, i32. rewrite sext_id by (lia || assumption). reflexivity.
  - destruct b as [b|]; [congruence|].
    rewrite emit_modrm_abs in Hc. apply some_eq in Hc as <-.
    cbn [app]. rewrite (modrm_mem rex s 0 (n .& 7) 4 _ reg) by (first [lia|rewrite Hr; exact field]).
    cbn [Z.eqb Pos.eqb negb]. unfold bind at 1.
    rewrite (sib_ok rex 0 0 4 5 _ None None); [|lia|lia|lia|rewrite Hx; reflexivity|reflexivity].
    cbn [Z.eqb Pos.eqb andb]. unfold bind, read_disp. cbn [Z.eqb Pos.eqb]. unfold bind. rewrite dword_le, i32_u32.
    unfold ret, i32. rewrite sext_id by (lia || assumption). reflexivity.
Qed.

Lemma modrm_base b d sz c :
  rex_ok (Mem (MkMem (Some b) None d sz)) n w rex -> in_i 32 d ->
  emit_modrm (Mem (MkMem (Some b) None d sz)) n = Some c ->
  modrm rex s (c ++ rest) = Some ((Mem (norm_mem s (MkMem (Some b) None d sz)), reg), rest).
Proof.
  intros Hrex Hd Hc. destruct (rx_loc _ _ _ _ Hrex) as [Hb Hx]. cbn [base index] in *.
  pose proof (rx_r _ _ _ _ Hrex) as Hr. pose proof (low3_range n) as Hn3.
  destruct (reg_num b =? reg_num RIP) eqn:E1.
  { assert (b = RIP) as -> by (destruct b; try discriminate; reflexivity).
    rewrite emit_modrm_rip in Hc. apply some_eq in Hc as <-. cbn [app].
    rewrite (modrm_rip rex s (n .& 7) d rest reg); [|lia|rewrite Hr; exact field].
    unfold norm_mem, mem_resize, reg_add, i32. cbn. rewrite sext_id by (lia || assumption). reflexivity. }
  assert (b <> RIP) by (intros ->; discriminate).
  replace (norm_mem s (MkMem (Some b) None d sz)) with (MkMem (Some b) None d s) by (destruct b; try reflexivity; congruence).
  destruct ((reg_num b =? reg_num RSP) || (reg_num b =? reg_num R12)) eqn:E2.
  - assert (Hb2 : b = RSP \/ b = R12) by (destruct b; try discriminate; auto).
    rewrite emit_modrm_rsp in Hc by assumption. apply some_eq in Hc as <-.
    destruct (disp_mode_range d false) as [Hm _]. cbn [app].
    rewrite (modrm_mem rex s (disp_mode d false) (n .& 7) 4 _ reg) by (first [lia|rewrite Hr; exact field]).
    cbn [Z.eqb Pos.eqb negb]. unfold bind at 1.
    rewrite (sib_ok rex (disp_mode d false) 0 4 4 (disp_bytes d false ++ rest) None (Some b));
      [|lia|lia|lia|rewrite Hx; reflexivity|].
    + replace (4 =? 5) with false by reflexivity. rewrite andb_false_r. cbn match. unfold bind.
      rewrite read_disp_ok by assumption. reflexivity.
    + rewrite andb_false_r. exists b. split; [|reflexivity].
      destruct (base_back b rex) as [H1 _]; [destruct Hb2 as [->| ->]; reflexivity|exact Hb|].
      rewrite <- H1. f_equal. f_equal. destruct Hb2 as [->| ->]; reflexivity.
  - apply orb_false_iff in E2 as [E2 E3].
    rewrite emit_modrm_base in Hc by (try assumption; intros ->; discriminate).
    destruct ((reg_num b .& 0xF0) =? REG_GPQ) eqn:Hbq in Hc; [|discriminate]. apply some_eq in Hc as <-.
    destruct (base_back b rex Hbq Hb) as [_ Hbb], (disp_mode_range d (is_base5 b)) as [Hm Hz].
    pose proof (low3_range (reg_num b)) as Hb3. cbn [app].
    rewrite (modrm_mem rex s _ (n .& 7) (reg_num b .& 7) _ reg); [|lia|lia|lia| |rewrite Hr; exact field].
    + replace ((reg_num b .& 7) =? 4) with false by (destruct b; try discriminate; reflexivity).
      cbn [negb]. unfold bind. rewrite Hbb. unfold lift, ret. cbn beta iota.
      rewrite read_disp_ok by assumption. reflexivity.
    + destruct (Z.eqb_spec (disp_mode d (is_base5 b)) 0) as [E|]; [exact (Hz E)|reflexivity].
Qed.

(** The r/m operand and the register field are read back. *)
Definition rm_back (l out : Location) : Prop :=
  match l with
  | Reg r => exists r', register_of_size (reg_num r) s rex = Some r' /\ out = Reg r'
  | Mem m => mem_ok m /\ out = Mem (norm_mem s m)
  end.

Lemma modrm_ok l out c :
  rex_ok l n w rex -> rm_back l out -> emit_modrm l n = Some c ->
  modrm rex s (c ++ rest) = Some ((out, reg), rest).
Proof.
  intros Hrex Hout Hc. destruct l as [r|m].
  - destruct Hout as (r' & Hr' & ->). destruct (rx_loc _ _ _ _ Hrex) as [Hb _].
    unfold emit_modrm, emit_u8 in Hc. apply some_eq in Hc as <-. cbn [app].
    change (0xC0 .| ((n .& 7) << 3) .| (reg_num r .& 7)) with (fields 3 (n .& 7) (reg_num r .& 7)).
    pose proof (low3_range n). pose proof (low3_range (reg_num r)).
    apply modrm_reg; [lia|lia|rewrite (rx_r _ _ _ _ Hrex); exact field|]. rewrite Hb.
    destruct (num_split _ (reg_num_range r)) as (_ & _ & -> & _). rewrite <- Hr'. apply register_low, land15.
  - destruct Hout as [Hm ->]. destruct m as [[b|] [[i sc]|] d sz].
    + eapply modrm_sib; eauto; cbn; [|discriminate]. intros [= ->]. rewrite emit_modrm_sib in Hc.
      destruct (scale_shift (Some (i, sc))) in Hc; discriminate.
    + eapply modrm_base; eauto. apply Hm.
    + eapply modrm_sib; eauto; cbn; [discriminate|exact I].
    + eapply modrm_sib; eauto; cbn; [discriminate|exact I].
Qed.

End ModRM.

(** ** Prefixes and opcodes *)

(** The operand size the prefixes stand for. *)
Definition prefix_size (s : Size) : Size := match s with Byte => Dword | s => s end.

Definition size_prefix (s : Size) : list Z := if size_eqb s Word then [0x66] else [].

Lemma prefixes_ok s rex pre opc rest :
  pre = [] /\ rex = 0 \/ pre = [rex] /\ ((rex .& 0xF0) =? 0x40) = true ->
  ((rex .& 8) <>? 0) = size_eqb s Qword ->
  ((opc .& 0xF0) =? 0x40) = false -> (opc =? 0x66) = false ->
  prefixes 0 Dword (size_prefix s ++ pre ++ opc :: rest) = Some (rex, prefix_size s, opc, rest).
Proof.
  intros Hpre Hw Ho1 Ho2.
  destruct Hpre as [[-> ->]|[-> Hx]]; destruct s; cbn in Hw; try discriminate; cbn [size_prefix size_eqb size_num Z.eqb Pos.eqb app];
    cbn [prefixes]; rewrite ?Hx, ?Hw, ?Ho1, ?Ho2; reflexivity.
Qed.

(** The opcode is one byte that is no prefix, or one byte after the escape [0x0F]. *)
Definition opcode_ok (opcode : Z) : bool :=
  match emit_escape opcode with
  | Some [] =>
      (u8 opcode =? opcode) && negb (opcode =? 0xF) && negb ((opcode .& 0xF0) =? 0x40) && negb (opcode =? 0x66)
  | Some [e] => (e =? 0xF) && (((0xF << 8) .| u8 opcode) =? opcode)
  | _ => false
  end.

Definition rex_w (s : Size) : Z := if size_eqb s Qword then 0x08 else 0.

Lemma decode_opcode s rex pre opcode esc rest :
  pre = [] /\ rex = 0 \/ pre = [rex] /\ ((rex .& 0xF0) =? 0x40) = true ->
  ((rex .& 8) <>? 0) = size_eqb s Qword ->
  opcode_ok opcode = true -> emit_escape opcode = Some esc ->
  decode (size_prefix s ++ pre ++ esc ++ u8 opcode :: rest) = dispatch rex (prefix_size s) opcode rest.
Proof.
  intros Hpre Hw Hok He. unfold opcode_ok in Hok. rewrite He in Hok.
  unfold decode. destruct esc as [|e [|]]; [| |discriminate]; cbn [app];
    rewrite !andb_true_iff, ?negb_true_iff, Z.eqb_eq in Hok.
  - destruct Hok as [[[Hu H15] H40] H66]. rewrite Hu, (prefixes_ok s rex), H15 by assumption. reflexivity.
  - destruct Hok as [-> Ho]. apply Z.eqb_eq in Ho. rewrite (prefixes_ok s rex) by (assumption || reflexivity). cbn [Z.eqb Pos.eqb].
    unfold bind, byte, ret. rewrite Ho. reflexivity.
Qed.

Lemma cat_some a b c : cat a b = Some c -> exists x y, a = Some x /\ b = Some y /\ c = x ++ y.
Proof. unfold cat. destruct a as [x|]; [|discriminate]. destruct b as [y|]; [|discriminate]. intros [= <-]. eauto. Qed.

Lemma emit_size_prefix s : emit_if (size_eqb s Word) (emit_u8 0x66) = Some (size_prefix s).
Proof. destruct s; reflexivity. Qed.

Lemma decode_r_rm s l n opcode bytes rest :
  0 <= n < 0x61 -> opcode_ok opcode = true -> emit_r_rm s l n opcode = Some bytes ->
  exists rex c, rex_ok l n (rex_w s) rex /\ emit_modrm l n = Some c /\
    decode (bytes ++ rest) = dispatch rex (prefix_size s) opcode (c ++ rest).
Proof.
  intros Hn Hok He. unfold emit_r_rm in He. rewrite emit_size_prefix in He. fold (rex_w s) in He.
  apply cat_some in He as (x & y & Hx & Hy & ->). apply some_eq in Hx as <-.
  apply cat_some in Hy as (pre & z & Hpre & Hz & ->).
  apply cat_some in Hz as (esc & t & Hesc & Ht & ->).
  apply cat_some in Ht as (o & c & Ho & Hc & ->). apply some_eq in Ho as <-.
  destruct (emit_rex_ok l n (rex_w s) pre) as (rex & Hrex & Hp); auto.
  { unfold rex_w. destruct (size_eqb s Qword); auto. }
  exists rex, c. split; [exact Hrex|]. split; [exact Hc|].
  rewrite <- !app_assoc. cbn [app]. replace (u8 (u8 opcode)) with (u8 opcode) by (unfold u8, wrap; rewrite Z.mod_mod; lia).
  apply decode_opcode; auto. rewrite (rx_w _ _ _ _ Hrex). unfold rex_w. destruct (size_eqb s Qword); reflexivity.
Qed.

Definition loc_ok (l : Location) : Prop := match l with Reg _ => True | Mem m => mem_ok m end.

Definition norm_loc (s : Size) (l : Location) : Location :=
  match l with Reg r => Reg r | Mem m => Mem (norm_mem s m) end.

(** An operand of size [s] is read back at size [s]. *)
Lemma rm_back_same s l n rex :
  rex_ok l n (rex_w s) rex -> loc_ok l -> match l with Reg r => reg_size r = Some s | Mem _ => True end ->
  rm_back rex s l (norm_loc s l).
Proof.
  intros Hrex Hl Hs. destruct l as [r|m]; cbn; [|auto]. exists r. split; [|reflexivity].
  destruct (rx_loc _ _ _ _ Hrex) as [_ Hf]. apply register_back; auto.
Qed.

(** [INST r/m, r] and [INST r, r/m]. *)
Lemma decode_reg s l r opcode bytes rest :
  reg_size r = Some s -> match l with Reg r' => reg_size r' = Some s | Mem _ => True end -> loc_ok l ->
  opcode_ok opcode = true -> emit_r_rm s l (reg_num r) opcode = Some bytes ->
  exists rex c, decode (bytes ++ rest) = dispatch rex (prefix_size s) opcode (c ++ rest) /\
    modrm rex s (c ++ rest) = Some ((norm_loc s l, r), rest).
Proof.
  intros Hr Hs Hl Hok He.
  destruct (decode_r_rm s l (reg_num r) opcode bytes rest) as (rex & c & Hrex & Hc & Hd); auto using reg_num_range.
  exists rex, c. split; [exact Hd|]. eapply modrm_ok; eauto using reg_num_range, rm_back_same.
  apply register_back; auto. apply (rx_reg _ _ _ _ Hrex).
Qed.

(** [INST r/m] with an opcode extension. *)
Lemma decode_id s l id opcode bytes rest :
  0 <= id < 8 -> match l with Reg r' => reg_size r' = Some s | Mem _ => True end -> loc_ok l ->
  opcode_ok opcode = true -> emit_r_rm s l id opcode = Some bytes ->
  exists rex c reg, decode (bytes ++ rest) = dispatch rex (prefix_size s) opcode (c ++ rest) /\
    modrm rex s (c ++ rest) = Some ((norm_loc s l, reg), rest) /\ reg_num reg .& 7 = id.
Proof.
  intros Hid Hs Hl Hok He.
  destruct (decode_r_rm s l id opcode bytes rest) as (rex & c & Hrex & Hc & Hd); auto; [lia|].
  destruct (register_of_id id s rex Hid) as (reg & Hreg & Hlow).
  exists rex, c, reg. split; [exact Hd|]. split; [|exact Hlow]. eapply modrm_ok; eauto using rm_back_same. lia.
Qed.

(** Widening moves: the source is read at the size of the destination and resized. *)
Definition not_high (l : Location) : Prop :=
  match l with Reg r => high_byte (reg_num r) = false | Mem _ => True end.

Lemma resize_back r s s' rex :
  s <> Byte -> reg_size r = Some s' -> high_byte (reg_num r) = false ->
  exists r', register_of_size (reg_num r) s rex = Some r' /\ reg_resize r' s' = Some r.
Proof.
  intros Hs Hr Hh. destruct s; [congruence|..];
    (destruct r; cbn in Hr; try discriminate; injection Hr as <-; cbn in Hh; try discriminate;
     eexists; split; reflexivity).
Qed.

Lemma norm_mem_resize s s' m : mem_resize (norm_mem s m) s' = mem_resize m s'.
Proof. unfold norm_mem. destruct (base m) as [[]|]; reflexivity. Qed.

Lemma decode_widen s s' l r opcode bytes rest :
  s <> Byte -> reg_size r = Some s -> loc_size l = Some s' -> not_high l -> loc_ok l ->
  opcode_ok opcode = true -> emit_r_rm s l (reg_num r) opcode = Some bytes ->
  exists rex c l', decode (bytes ++ rest) = dispatch rex (prefix_size s) opcode (c ++ rest) /\
    modrm rex s (c ++ rest) = Some ((l', r), rest) /\ loc_resize l' s' = Some l.
Proof.
  intros Hb Hr Hs Hh Hl Hok He.
  destruct (decode_r_rm s l (reg_num r) opcode bytes rest) as (rex & c & Hrex & Hc & Hd); auto using reg_num_range.
  assert (exists l', rm_back rex s l l' /\ loc_resize l' s' = Some l) as (l' & Hback & Hres).
  { destruct l as [r0|m]; cbn [loc_size not_high loc_ok] in *.
    - destruct (resize_back r0 s s' rex) as (r' & H1 & H2); auto. exists (Reg r'). cbn [rm_back loc_resize]. rewrite H2. eauto.
    - exists (Mem (norm_mem s m)). split; [cbn; auto|]. apply some_eq in Hs as <-.
      cbn [loc_resize]. rewrite norm_mem_resize. destruct m; reflexivity. }
  exists rex, c, l'. split; [exact Hd|]. split; [|exact Hres].
  eapply modrm_ok; eauto using reg_num_range. apply register_back; auto. apply (rx_reg _ _ _ _ Hrex).
Qed.

(** The [+r] encodings. *)
Lemma decode_plusr s r opcode bytes rest :
  emit_escape opcode = Some [] -> opcode_ok (u8 opcode .| (reg_num r .& 7)) = true ->
  emit_plusr s r opcode = Some bytes ->
  exists rex, decode (bytes ++ rest) = dispatch rex (prefix_size s) (u8 opcode .| (reg_num r .& 7)) rest /\
    extend rex 1 = reg_num r .& 8 /\ rex_fits rex (reg_num r).
Proof.
  intros Hesc Hok He. unfold emit_plusr in He. rewrite emit_size_prefix, Hesc in He.
  apply cat_some in He as (x & y & Hx & Hy & ->). apply some_eq in Hx as <-.
  apply cat_some in Hy as (pre & z & Hpre & Hz & ->).
  apply cat_some in Hz as (e & o & He & Ho & ->). apply some_eq in He as <-. apply some_eq in Ho as <-.
  assert (exists rex, (pre = [] /\ rex = 0 \/ pre = [rex] /\ ((rex .& 0xF0) =? 0x40) = true) /\
    ((rex .& 8) <>? 0) = size_eqb s Qword /\ extend rex 1 = reg_num r .& 8 /\ rex_fits rex (reg_num r))
    as (rex & Hp & Hw & Hr1 & Hf).
  { pose proof (proj1 (num_split _ (reg_num_range r))) as Hr8. pose proof (high_byte_low r) as Hhl. revert Hpre. unfold rex_fits.
    destruct (size_eqb s Qword), ((reg_num r .& 0xF0) =? REG_GPB2), ((reg_num r .& 8) <>? 0), (high_byte (reg_num r));
      cbn in *; try discriminate; intros [= <-]; rewrite Hr8;
      eexists; (split; [first [left; split; reflexivity|right; split; reflexivity]|]); repeat split; try discriminate; auto. }
  exists rex. split; [|auto]. rewrite <- !app_assoc. cbn [app].
  assert (Hu : u8 (u8 opcode .| (reg_num r .& 7)) = u8 opcode .| (reg_num r .& 7)).
  { apply wrap_id, lor_in_u; [lia|apply wrap_range; lia|pose proof (low3_range (reg_num r)); unfold in_u; lia]. }
  pose proof (decode_opcode s rex pre (u8 opcode .| (reg_num r .& 7)) [] rest) as Hd. cbn [app] in Hd. rewrite Hu in *.
  apply Hd; auto. unfold opcode_ok in Hok.
  destruct (emit_escape (u8 opcode .| (reg_num r .& 7))) as [[|e [|]]|] eqn:E; [reflexivity| |discriminate|discriminate].
  exfalso. unfold emit_escape in E. rewrite andb_true_iff, !Z.eqb_eq in Hok.
  assert (in_u 8 (u8 opcode .| (reg_num r .& 7))) by (rewrite <- Hu; apply wrap_range; lia).
  destruct Hok as [_ Hok]. unfold in_u in *. rewrite <- Hok in H.
  assert (0xF00 <= (15 << 8) .| u8 (u8 opcode .| (reg_num r .& 7))); [|lia].
  rewrite Hu in *. rewrite Z.lor_comm. change (15 << 8) with (15 * 2 ^ 8). rewrite lor_add_low; unfold in_u; lia.
Qed.
