(* ===== verification/X86RoundTrip.v ===== *)
(** Decoding what was encoded: for every operation the decoder covers, the bytes
    of the encoder are read back as the operation in normal form, and nothing
    after them is read; an instruction has at most 15 bytes. *)

From Stdlib Require Import ZArith Lia Bool List.
From S2P Require Import Prelude X86Op X86Encode X86Decode X86Props.
Import ListNotations.
Local Open Scope Z_scope.
Local Open Scope rust_scope.
Import X86 Encode Decode.

(** ** The normal form of an operation, and the operations the decoder covers *)

Definition size_of (l : Location) : Size := match loc_size l with Some s => s | None => Qword end.

Definition norm_imm (s : Size) (imm : Z) : Z := sext (size_bits (cap_to_dword s)) imm.

(** The source operand of an instruction of size [s]. *)
Definition norm_src (s : Size) (o : Operand) : Operand :=
  match o with
  | Imm i => Imm (norm_imm s i)
  | OpReg r => OpReg r
  | OpMem m => OpMem (norm_mem s m)
  end.

Definition src_ok (o : Operand) : Prop := match o with OpMem m => mem_ok m | _ => True end.

(** [mov r, imm] of a value of 32 unsigned bits is encoded for the 32-bit register. *)
Definition norm_mov_imm (r : Register) (imm : Z) : Op :=
  let s := size_of (Reg r) in
  if size_eqb s Qword && fits_u 32 imm then
    Mov (Reg (match register_of_size (reg_num r) Dword 0 with Some r => r | None => r end)) (Imm (sext 32 imm))
  else Mov (Reg r) (Imm (sext (size_bits s) imm)).

Definition normal (op : Op) : Op :=
  match op with
  | Add dst src => Add (norm_loc (size_of dst) dst) (norm_src (size_of dst) src)
  | Or dst src => Or (norm_loc (size_of dst) dst) (norm_src (size_of dst) src)
  | Adc dst src => Adc (norm_loc (size_of dst) dst) (norm_src (size_of dst) src)
  | Sbb dst src => Sbb (norm_loc (size_of dst) dst) (norm_src (size_of dst) src)
  | And dst src => And (norm_loc (size_of dst) dst) (norm_src (size_of dst) src)
  | Sub dst src => Sub (norm_loc (size_of dst) dst) (norm_src (size_of dst) src)
  | Xor dst src => Xor (norm_loc (size_of dst) dst) (norm_src (size_of dst) src)
  | Cmp dst src => Cmp (norm_loc (size_of dst) dst) (norm_src (size_of dst) src)
  | Test dst src => Test (norm_loc (size_of dst) dst) (norm_src (size_of dst) src)
  | Mov (Reg r) (Imm imm) => norm_mov_imm r imm
  | Mov dst src => Mov (norm_loc (size_of dst) dst) (norm_src (size_of dst) src)
  | Shl dst src => Shl (norm_loc (size_of dst) dst) src
  | Shr dst src => Shr (norm_loc (size_of dst) dst) src
  | Sar dst src => Sar (norm_loc (size_of dst) dst) src
  | Call (OpMem m) => Call (OpMem (norm_mem Qword m))
  | Jmp (OpMem m) => Jmp (OpMem (norm_mem Qword m))
  | Push (OpMem m) => Push (OpMem (norm_mem Qword m))
  | Cmovcc dst src cc => Cmovcc dst (norm_loc (size_of src) src) cc
  | Imul2 dst src => Imul2 dst (norm_loc (size_of src) src)
  | Cmpxchg dst src => Cmpxchg (norm_loc (size_of dst) dst) src
  | Xadd dst src => Xadd (norm_loc (size_of dst) dst) src
  | Lea dst src => Lea dst (norm_mem (size_of (Reg dst)) src)
  | Setcc dst cc => Setcc (norm_loc Byte dst) cc
  | Div src => Div (norm_loc (size_of src) src)
  | Idiv src => Idiv (norm_loc (size_of src) src)
  | Imul1 src => Imul1 (norm_loc (size_of src) src)
  | Mul src => Mul (norm_loc (size_of src) src)
  | Neg dst => Neg (norm_loc (size_of dst) dst)
  | Not dst => Not (norm_loc (size_of dst) dst)
  | Xchg (Reg r) l => Xchg (Reg r) (norm_loc (size_of l) l)
  | Xchg l (Reg r) => Xchg (Reg r) (norm_loc (size_of l) l)
  | op => op
  end.

(** Operations with memory operands whose displacement is a 32-bit number and
    whose index is not [RSP], less the forms the decoder does not implement. *)
Definition decodable (op : Op) : Prop :=
  match op with
  | Add dst src | Or dst src | Adc dst src | Sbb dst src | And dst src | Sub dst src | Xor dst src
  | Cmp dst src => loc_ok dst /\ src_ok src
  | Test dst (Imm _) => loc_ok dst /\ is_rax dst = false
  | Test dst _ => loc_ok dst
  | Mov (Reg r) (Imm _) => size_of (Reg r) = Byte -> reg_num r .& 7 = 0
  | Mov dst src => loc_ok dst /\ src_ok src
  | Shl dst _ | Shr dst _ | Sar dst _ => loc_ok dst
  | Call o | Jmp o => src_ok o
  | Push (OpReg _) => True
  | Push (OpMem m) => mem_ok m /\ mem_size m = Qword
  | Push (Imm _) => False
  | Pop (Reg _) => True
  | Pop (Mem _) => False
  | Cmovcc _ l _ | Imul2 _ l | Cmpxchg l _ | Xadd l _ | Setcc l _ => loc_ok l
  | Div l | Idiv l | Imul1 l | Mul l | Neg l | Not l => loc_ok l
  | Lea _ m => mem_ok m
  | Movsx _ l | Movzx _ l => loc_ok l /\ not_high l
  | Xchg l1 l2 =>
      loc_ok l1 /\ loc_ok l2 /\
      match l1, l2 with
      | Reg _, Reg _ => size_of l1 = Byte \/ (is_rax l1 = false /\ is_rax l2 = false)
      | _, _ => True
      end
  | Jcc d _ => in_i 32 d
  | Ret n => in_u 16 n
  | Movabs _ _ => False
  | Illegal | Cdqe | Cdq | Cqo | Hlt | Lock | Mfence | Nop => True
  end.

Definition round_trip (op : Op) : Prop := forall bytes rest,
  decodable op -> encode op = Some bytes -> decode (bytes ++ rest) = Some (normal op, rest).

(** ** ALU, test and shift instructions *)

Lemma id_cases id : 0 <= id < 8 ->
  id = 0 \/ id = 1 \/ id = 2 \/ id = 3 \/ id = 4 \/ id = 5 \/ id = 6 \/ id = 7.
Proof. lia. Qed.

Ltac by_id H := apply id_cases in H; destruct H as [->|[->|[->|[->|[->|[->|[->| ->]]]]]]].

Lemma dispatch_alu rex s id : 0 <= id < 8 ->
  dispatch rex (prefix_size s) ((id << 3) .| pick s 0 1)
    = bind (modrm rex s) (fun '(dst, src) => ret (decode_alu dst (OpReg src) id)) /\
  dispatch rex (prefix_size s) ((id << 3) .| pick s 2 3)
    = bind (modrm rex s) (fun '(src, dst) => ret (decode_alu (Reg dst) (operand_of src) id)) /\
  dispatch rex (prefix_size s) ((id << 3) .| pick s 4 5)
    = bind (immediate (cap_to_dword s)) (fun imm =>
        bind (lift (register_of_size 0 s rex)) (fun r => ret (decode_alu (Reg r) (Imm imm) id))) /\
  opcode_ok ((id << 3) .| pick s 0 1) = true /\ opcode_ok ((id << 3) .| pick s 2 3) = true /\
  opcode_ok ((id << 3) .| pick s 4 5) = true.
Proof. intros Hid. by_id Hid; destruct s; repeat split; reflexivity. Qed.

Lemma decode_alu_low dst src reg id : reg_num reg .& 7 = id -> decode_alu dst src (reg_num reg) = decode_alu dst src id.
Proof. intros <-. unfold decode_alu. rewrite <- Z.land_assoc. reflexivity. Qed.

(** The loc_size of a location, in the shape the lemmas above use. *)
Lemma loc_size_reg l s : loc_size l = Some s -> match l with Reg r => reg_size r = Some s | Mem _ => True end.
Proof. destruct l; cbn; auto. Qed.

Lemma size_eqb_eq a b : size_eqb a b = true -> a = b.
Proof. destruct a, b; (reflexivity || discriminate). Qed.

Lemma size_of_eq l s : loc_size l = Some s -> size_of l = s.
Proof. unfold size_of. intros ->. reflexivity. Qed.

Lemma norm_imm_small s imm : s <> Byte -> fits_i 8 imm = true -> norm_imm s imm = imm.
Proof.
  intros Hs Hf. unfold fits_i in Hf. zbool. unfold norm_imm. cbn in *.
  destruct s; [congruence|..]; apply sext_id; unfold in_i; cbn; lia.
Qed.

(** The accumulator is the register numbered 0 of its size. *)
Lemma rax_back l s : loc_size l = Some s -> is_rax l = true ->
  exists r, l = Reg r /\ forall rex, register_of_size 0 s rex = Some r.
Proof.
  destruct l as [r|m]; [|discriminate]. cbn. intros Hs Hr. exists r. split; [reflexivity|]. intros rex.
  destruct r; try discriminate; apply some_eq in Hs as <-; try reflexivity.
  unfold register_of_size. cbn. rewrite andb_false_r. reflexivity.
Qed.

(** The short form for the accumulator has its own prefix. *)
Lemma decode_rax s opcode rest pre :
  rax_prefix s = Some pre -> opcode_ok opcode = true -> emit_escape opcode = Some [] ->
  exists rex, decode (pre ++ u8 opcode :: rest) = dispatch rex (prefix_size s) opcode rest.
Proof.
  intros Hp Hok Hesc. exists (match s with Qword => 0x48 | _ => 0 end).
  pose proof (decode_opcode s (match s with Qword => 0x48 | _ => 0 end)
    (match s with Qword => [0x48] | _ => [] end) opcode [] rest) as Hd.
  destruct s; apply some_eq in Hp as <-; apply Hd; auto.
Qed.

Lemma alu_imm_round_trip dst s imm id bytes rest :
  0 <= id < 8 -> loc_size dst = Some s -> loc_ok dst -> emit_alu dst (Imm imm) id = Some bytes ->
  decode (bytes ++ rest) = Some (decode_alu (norm_loc s dst) (Imm (norm_imm s imm)) id, rest).
Proof.
  intros Hid Hs Hdst He. unfold emit_alu in He. rewrite Hs in He. cbn [as_loc] in He.
  pose proof (loc_size_reg _ _ Hs) as Hr. destruct (dispatch_alu 0 s id Hid) as (_ & _ & _ & _ & _ & Ho3).
  unfold assertion in He. destruct (check_imm_size s imm); [|discriminate].
  destruct (negb (size_eqb s Byte) && fits_i 8 imm) eqn:H8.
  - apply andb_true_iff in H8 as [Hb H8]. assert (s <> Byte) by (intros ->; discriminate).
    apply cat_some in He as (x & y & Hx & Hy & ->). apply some_eq in Hy as <-. rewrite <- app_assoc.
    destruct (decode_id s dst id 0x83 x ([u8 (u8 imm)] ++ rest) Hid Hr Hdst eq_refl Hx) as (rex & c & reg & -> & Hm & Hlow).
    replace (prefix_size s) with s by (destruct s; congruence || reflexivity).
    change (dispatch rex s 0x83) with (bind (modrm rex s) (fun '(operand, reg) =>
      bind byte (fun b => ret (decode_alu operand (Imm (i8 b)) (reg_num reg))))).
    unfold bind. rewrite Hm. cbn [app byte]. unfold ret. rewrite i8_u8, (decode_alu_low _ _ _ _ Hlow) by assumption.
    rewrite norm_imm_small by assumption. reflexivity.
  - destruct (is_rax dst) eqn:Hrax.
    + destruct (rax_back dst s Hs Hrax) as (r & -> & Hback).
      apply cat_some in He as (x & y & Hx & Hy & ->). apply cat_some in Hy as (o & i & Ho & Hi & ->).
      apply some_eq in Ho as <-. rewrite <- !app_assoc. cbn [app].
      destruct (decode_rax s _ (i ++ rest) x Hx Ho3) as (rex & ->); [by_id Hid; destruct s; reflexivity|].
      destruct (dispatch_alu rex s id Hid) as (_ & _ & -> & _). unfold bind.
      rewrite (immediate_emit _ _ _ _ Hi), Hback. reflexivity.
    + apply cat_some in He as (x & y & Hx & Hy & ->). rewrite <- app_assoc.
      destruct (decode_id s dst id (pick s 0x80 0x81) x (y ++ rest) Hid Hr Hdst) as (rex & c & reg & -> & Hm & Hlow);
        [destruct s; reflexivity|exact Hx|].
      replace (dispatch rex (prefix_size s) (pick s 0x80 0x81)) with (bind (modrm rex s) (fun '(operand, reg) =>
        bind (immediate (cap_to_dword s)) (fun imm => ret (decode_alu operand (Imm imm) (reg_num reg)))))
        by (destruct s; reflexivity).
      unfold bind. rewrite Hm, (immediate_emit _ _ _ _ Hy). unfold ret. rewrite (decode_alu_low _ _ _ _ Hlow). reflexivity.
Qed.

Lemma alu_round_trip dst src id bytes rest :
  0 <= id < 8 -> loc_ok dst -> src_ok src -> emit_alu dst src id = Some bytes ->
  decode (bytes ++ rest) = Some (decode_alu (norm_loc (size_of dst) dst) (norm_src (size_of dst) src) id, rest).
Proof.
  intros Hid Hdst Hsrc He. unfold emit_alu in He. destruct (loc_size dst) as [s|] eqn:Hs; [|discriminate].
  rewrite (size_of_eq _ _ Hs). pose proof (loc_size_reg _ _ Hs) as Hr.
  destruct (dispatch_alu 0 s id Hid) as (_ & _ & _ & Ho1 & Ho2 & _).
  destruct src as [r|m|imm]; cbn [as_loc] in He.
  - cbn [loc_size] in He. destruct (reg_size r) as [s'|] eqn:Hs'; [|discriminate].
    unfold assertion in He. destruct (size_eqb s' s) eqn:Heq; [|discriminate]. apply size_eqb_eq in Heq as ->.
    assert (He' : emit_r_rm s dst (reg_num r) ((id << 3) .| pick s 0 1) = Some bytes) by (destruct dst; exact He).
    destruct (decode_reg s dst r _ bytes rest Hs' Hr Hdst Ho1 He') as (rex & c & -> & Hm).
    destruct (dispatch_alu rex s id Hid) as (-> & _). unfold bind. rewrite Hm. reflexivity.
  - cbn [loc_size] in He. unfold assertion in He. destruct (size_eqb (mem_size m) s) eqn:Heq; [|discriminate].
    destruct dst as [r|]; [|discriminate].
    destruct (decode_reg s (Mem m) r _ bytes rest Hs I Hsrc Ho2 He) as (rex & c & -> & Hm).
    destruct (dispatch_alu rex s id Hid) as (_ & -> & _). unfold bind. rewrite Hm. reflexivity.
  - eapply alu_imm_round_trip; eauto. unfold emit_alu. rewrite Hs. exact He.
Qed.

(** Take an emission apart, byte group by byte group. *)
Ltac uncat H :=
  let x := fresh "x" in let y := fresh "y" in let Hx := fresh "Hx" in let Hy := fresh "Hy" in
  apply cat_some in H as (x & y & Hx & Hy & ->); rewrite <- ?app_assoc.

Lemma shift_round_trip dst src id (op : Location -> Operand -> Op) bytes rest :
  (id = 4 /\ op = Shl) \/ (id = 5 /\ op = Shr) \/ (id = 7 /\ op = Sar) ->
  loc_ok dst -> emit_shift dst src id = Some bytes ->
  decode (bytes ++ rest) = Some (op (norm_loc (size_of dst) dst) src, rest).
Proof.
  intros Hop Hdst He. unfold emit_shift in He. destruct (loc_size dst) as [s|] eqn:Hs; [|discriminate].
  rewrite (size_of_eq _ _ Hs). pose proof (loc_size_reg _ _ Hs) as Hr. assert (Hid : 0 <= id < 8) by lia.
  assert (Hsh : forall l o reg, reg_num reg .& 7 = id -> decode_shift l o reg = Some (op l o)).
  { intros l o reg Hl. unfold decode_shift. rewrite Hl. destruct Hop as [[-> ->]|[[-> ->]|[-> ->]]]; reflexivity. }
  destruct src as [r|m|imm]; [|discriminate|].
  - assert (r = CL) as -> by (destruct r; (reflexivity || discriminate)).
    destruct (decode_id s dst id (pick s 0xD2 0xD3) bytes rest Hid Hr Hdst) as (rex & c & reg & -> & Hm & Hlow);
      [destruct s; reflexivity|exact He|].
    replace (dispatch rex (prefix_size s) (pick s 0xD2 0xD3)) with
      (bind (modrm rex s) (fun '(operand, reg) => lift (decode_shift operand (OpReg CL) reg))) by (destruct s; reflexivity).
    unfold bind. rewrite Hm, (Hsh _ _ _ Hlow). reflexivity.
  - destruct (Z.eqb_spec imm 1) as [->|_].
    + destruct (decode_id s dst id (pick s 0xD0 0xD1) bytes rest Hid Hr Hdst) as (rex & c & reg & -> & Hm & Hlow);
        [destruct s; reflexivity|exact He|].
      replace (dispatch rex (prefix_size s) (pick s 0xD0 0xD1)) with
        (bind (modrm rex s) (fun '(operand, reg) => lift (decode_shift operand (Imm 1) reg))) by (destruct s; reflexivity).
      unfold bind. rewrite Hm, (Hsh _ _ _ Hlow). reflexivity.
    + uncat He. unfold assertion in Hy. destruct (fits_u 8 imm) eqn:Hf; [|discriminate]. apply some_eq in Hy as <-.
      destruct (decode_id s dst id (pick s 0xC0 0xC1) x ([u8 imm] ++ rest) Hid Hr Hdst) as (rex & c & reg & -> & Hm & Hlow);
        [destruct s; reflexivity|exact Hx|].
      replace (dispatch rex (prefix_size s) (pick s 0xC0 0xC1)) with
        (bind (modrm rex s) (fun '(operand, reg) => bind byte (fun b => lift (decode_shift operand (Imm b) reg))))
        by (destruct s; reflexivity).
      unfold bind. rewrite Hm. cbn [app byte]. rewrite (Hsh _ _ _ Hlow). unfold fits_u in Hf. zbool.
      unfold u8. rewrite wrap_id by (unfold in_u; lia). reflexivity.
Qed.

(** ** One operand, with an opcode extension *)

Definition group_f7 (id : Z) : option (Location -> Op) :=
  if id =? 2 then Some Not else if id =? 3 then Some Neg else if id =? 4 then Some Mul
  else if id =? 5 then Some Imul1 else if id =? 6 then Some Div else if id =? 7 then Some Idiv else None.

Lemma f7_dispatch rex s : dispatch rex (prefix_size s) (pick s 0xF6 0xF7) =
  bind (modrm rex s) (fun '(operand, reg) => op_group_f7 operand reg s).
Proof. destruct s; reflexivity. Qed.

Lemma f7_round_trip l id op bytes rest s :
  group_f7 id = Some op -> loc_size l = Some s -> loc_ok l -> emit_r_rm s l id (pick s 0xF6 0xF7) = Some bytes ->
  decode (bytes ++ rest) = Some (op (norm_loc (size_of l) l), rest).
Proof.
  intros Hop Hs Hl He. rewrite (size_of_eq _ _ Hs). pose proof (loc_size_reg _ _ Hs) as Hr.
  assert (Hid : 0 <= id < 8).
  { unfold group_f7 in Hop. repeat match type of Hop with (if ?a =? ?b then _ else _) = _ => destruct (Z.eqb_spec a b); [lia|] end. discriminate. }
  destruct (decode_id s l id (pick s 0xF6 0xF7) bytes rest Hid Hr Hl) as (rex & c & reg & -> & Hm & Hlow);
    [destruct s; reflexivity|exact He|].
  rewrite f7_dispatch. unfold bind. rewrite Hm. unfold op_group_f7. rewrite Hlow.
  by_id Hid; cbn in Hop; try discriminate; apply some_eq in Hop as <-; reflexivity.
Qed.

Lemma emit_rm_f6 l id bytes : emit_rm l 0xF6 id = Some bytes ->
  exists s, loc_size l = Some s /\ emit_r_rm s l id (pick s 0xF6 0xF7) = Some bytes.
Proof. unfold emit_rm. destruct (loc_size l) as [s|]; [|discriminate]. eauto. Qed.

(** ** Calls, jumps and the stack *)

Lemma ff_round_trip sz l id bytes rest :
  0 <= id < 8 -> sz <> Byte -> sz <> Qword -> loc_size l = Some Qword -> loc_ok l -> emit_r_rm sz l id 0xFF = Some bytes ->
  exists reg, decode (bytes ++ rest) = op_group_ff (norm_loc Qword l) reg rest /\ reg_num reg .& 7 = id.
Proof.
  intros Hid Hb Hq Hs Hl He.
  destruct (decode_r_rm sz l id 0xFF bytes rest) as (rex & c & Hrex & Hc & Hd); auto; [lia|].
  destruct (register_of_id id Qword rex Hid) as (reg & Hreg & Hlow). exists reg. split; [|exact Hlow]. rewrite Hd.
  replace (dispatch rex (prefix_size sz) 0xFF) with (bind (modrm rex Qword) (fun '(operand, reg) => op_group_ff operand reg))
    by (destruct sz; reflexivity).
  unfold bind. erewrite (modrm_ok id (rex_w sz) rex Qword reg rest ltac:(lia) Hreg l (norm_loc Qword l) c Hrex); [reflexivity| |exact Hc].
  destruct l as [r|m]; cbn [rm_back norm_loc]; [|auto]. exists r. split; [|reflexivity].
  destruct (rx_loc _ _ _ _ Hrex) as [_ Hf]. apply register_back; auto.
Qed.

Lemma indirect_round_trip l id bytes rest :
  0 <= id < 8 -> loc_ok l -> emit_indirect l id = Some bytes ->
  exists reg, decode (bytes ++ rest) = op_group_ff (norm_loc Qword l) reg rest /\ reg_num reg .& 7 = id.
Proof.
  intros Hid Hl He. unfold emit_indirect in He. destruct (loc_size l) as [s|] eqn:Hs; [|discriminate].
  unfold assertion in He. destruct (size_eqb s Qword) eqn:Hq; [|discriminate]. apply size_eqb_eq in Hq as ->.
  apply (ff_round_trip Dword l id bytes rest); auto; try discriminate.
  unfold emit_r_rm. rewrite emit_size_prefix. cbn [size_prefix size_eqb size_num Z.eqb Pos.eqb].
  change (emit_escape 255) with (Some (@nil Z)). change (u8 255) with 255. unfold cat at 1.
  revert He. unfold cat. destruct (emit_rex l id 0) as [p|]; [|discriminate]. destruct (emit_modrm l id) as [c|]; [|discriminate].
  cbn. auto.
Qed.

Lemma rel32_back imm rest : dword (le_bytes 4 (u32 imm) ++ rest) = Some (u32 (u32 imm), rest).
Proof. apply dword_le. Qed.

Lemma i32_fits imm : fits_i 32 imm = true -> i32 (u32 (u32 imm)) = imm.
Proof. intros Hf. rewrite i32_u32. unfold fits_i in Hf. zbool. apply sext_id; [lia|]. unfold in_i. lia. Qed.

Lemma call_round_trip o : round_trip (Call o).
Proof.
  intros bytes rest Hok He. cbn [encode] in He. unfold emit_call in He. destruct o as [r|m|imm]; cbn [as_loc] in He.
  - destruct (indirect_round_trip (Reg r) 2 bytes rest) as (reg & -> & Hlow); [lia|exact I|exact He|].
    unfold op_group_ff. rewrite Hlow. reflexivity.
  - destruct (indirect_round_trip (Mem m) 2 bytes rest) as (reg & -> & Hlow); [lia|exact Hok|exact He|].
    unfold op_group_ff. rewrite Hlow. reflexivity.
  - unfold assertion in He. destruct (fits_i 32 imm) eqn:Hf; [|discriminate]. rewrite emit_u32_le in He.
    uncat He. apply some_eq in Hx as <-. apply some_eq in Hy as <-.
    change (decode ([u8 0xE8] ++ le_bytes 4 (u32 imm) ++ rest)) with
      (bind dword (fun d => ret (Call (Imm (i32 d)))) (le_bytes 4 (u32 imm) ++ rest)).
    unfold bind. rewrite rel32_back, i32_fits by assumption. reflexivity.
Qed.

Lemma jmp_round_trip o : round_trip (Jmp o).
Proof.
  intros bytes rest Hok He. cbn [encode] in He. unfold emit_jmp in He. destruct o as [r|m|imm]; cbn [as_loc] in He.
  - destruct (indirect_round_trip (Reg r) 4 bytes rest) as (reg & -> & Hlow); [lia|exact I|exact He|].
    unfold op_group_ff. rewrite Hlow. reflexivity.
  - destruct (indirect_round_trip (Mem m) 4 bytes rest) as (reg & -> & Hlow); [lia|exact Hok|exact He|].
    unfold op_group_ff. rewrite Hlow. reflexivity.
  - destruct (fits_i 8 imm) eqn:H8; [|unfold assertion in He; destruct (fits_i 32 imm) eqn:Hf; [|discriminate];
      rewrite emit_u32_le in He]; uncat He; apply some_eq in Hx as <-; apply some_eq in Hy as <-.
    + change (decode ([u8 0xEB] ++ [u8 (u8 imm)] ++ rest)) with (Some (Jmp (Imm (i8 (u8 (u8 imm)))), rest)).
      rewrite i8_u8 by assumption. reflexivity.
    + change (decode ([u8 0xE9] ++ le_bytes 4 (u32 imm) ++ rest)) with
        (bind dword (fun d => ret (Jmp (Imm (i32 d)))) (le_bytes 4 (u32 imm) ++ rest)).
      unfold bind. rewrite rel32_back, i32_fits by assumption. reflexivity.
Qed.

Lemma jcc_round_trip d cc : round_trip (Jcc d cc).
Proof.
  intros bytes rest Hok He. cbn [encode] in He. unfold emit_jcc in He. rewrite emit_u32_le in He.
  destruct (fits_i 8 d) eqn:H8; uncat He; [|uncat Hy; apply some_eq in Hx0 as <-; apply some_eq in Hy0 as <-];
    apply some_eq in Hx as <-; try apply some_eq in Hy as <-.
  - replace (decode ([u8 (0x70 + cc_num cc)] ++ [u8 (u8 d)] ++ rest)) with (Some (Jcc (i8 (u8 (u8 d))) cc, rest))
      by (destruct cc; reflexivity).
    rewrite i8_u8 by assumption. reflexivity.
  - replace (decode ([u8 0x0F] ++ [u8 (0x80 + cc_num cc)] ++ le_bytes 4 (u32 d) ++ rest)) with
      (bind dword (fun d => ret (Jcc (i32 d) cc)) (le_bytes 4 (u32 d) ++ rest)) by (destruct cc; reflexivity).
    unfold bind. rewrite rel32_back, i32_fits; [reflexivity|]. cbn in Hok. unfold fits_i, in_i in *.
    apply andb_true_iff. rewrite Z.leb_le, Z.ltb_lt. exact Hok.
Qed.

(** The register of a [+r] encoding. *)
Lemma plusr_register r s rex : reg_size r = Some s -> extend rex 1 = reg_num r .& 8 -> rex_fits rex (reg_num r) ->
  forall opcode, opcode .& 7 = reg_num r .& 7 ->
  register_of_size (extend rex 1 .| (opcode .& 7)) s rex = Some r.
Proof.
  intros Hs Hx Hf opcode ->. rewrite Hx. destruct (num_split _ (reg_num_range r)) as (_ & _ & _ & -> & _).
  apply register_back; auto. apply land15.
Qed.

Lemma low3_cases n : exists k, n .& 7 = k /\ 0 <= k < 8.
Proof. exists (n .& 7). split; [reflexivity|apply low3_range]. Qed.

Lemma stack_dispatch rex s r base :
  base = 0x50 \/ base = 0x58 -> s = Word \/ s = Qword -> reg_size r = Some s ->
  extend rex 1 = reg_num r .& 8 -> rex_fits rex (reg_num r) ->
  forall rest, dispatch rex (match s with Qword => Dword | s => s end) (u8 base .| (reg_num r .& 7)) rest
    = Some (if base =? 0x50 then Push (OpReg r) else Pop (Reg r), rest).
Proof.
  intros Hb Hs Hr Hx Hf rest. pose proof (plusr_register r s rex Hr Hx Hf) as Hreg.
  destruct (low3_cases (reg_num r)) as (k & Hk & Hkr). rewrite Hk in *.
  assert (Hd : dispatch rex (match s with Qword => Dword | s => s end) (u8 base .| k) =
    bind (lift (register_of_size (extend rex 1 .| (k .& 7)) s rex))
      (fun r => ret (if base =? 0x50 then Push (OpReg r) else Pop (Reg r)))).
  { destruct Hb as [->| ->], Hs as [->| ->]; by_id Hkr; reflexivity. }
  rewrite Hd, (Hreg k); [reflexivity|]. by_id Hkr; reflexivity.
Qed.

Lemma stack_round_trip base s r bytes rest :
  base = 0x50 \/ base = 0x58 -> reg_size r = Some s -> (s = Word \/ s = Qword) ->
  emit_plusr (match s with Qword => Dword | s => s end) r base = Some bytes ->
  decode (bytes ++ rest) = Some (if base =? 0x50 then Push (OpReg r) else Pop (Reg r), rest).
Proof.
  intros Hb Hr Hs He. set (s' := match s with Qword => Dword | s => s end) in *.
  destruct (decode_plusr s' r base bytes rest) as (rex & Hd & Hx & Hf); auto.
  { destruct Hb as [->| ->]; reflexivity. }
  { destruct (low3_cases (reg_num r)) as (k & -> & Hkr). destruct Hb as [->| ->]; by_id Hkr; reflexivity. }
  rewrite Hd. replace (prefix_size s') with s' by (destruct Hs as [->| ->]; reflexivity).
  apply stack_dispatch; auto.
Qed.

Lemma stack_size_inv s s' : stack_size s = Some s' -> (s = Word \/ s = Qword) /\ s' = match s with Qword => Dword | s => s end.
Proof. destruct s; cbn; intros [= <-]; auto. Qed.

Lemma push_round_trip o : round_trip (Push o).
Proof.
  intros bytes rest Hok He. cbn [encode] in He. unfold emit_push in He.
  destruct o as [r|m|imm]; [| |contradiction]; cbn [as_loc loc_size] in He.
  - destruct (reg_size r) as [s|] eqn:Hs; [|discriminate]. destruct (stack_size s) as [s'|] eqn:Hss; [|discriminate].
    apply stack_size_inv in Hss as [Hq ->]. apply (stack_round_trip 0x50 s r bytes rest); auto.
  - destruct Hok as [Hm Hq]. rewrite Hq in He. cbn [stack_size] in He.
    destruct (ff_round_trip Dword (Mem m) 0 bytes rest) as (reg & -> & Hlow);
      [lia|discriminate|discriminate|cbn; congruence|exact Hm|exact He|].
    unfold op_group_ff. rewrite Hlow. reflexivity.
Qed.

Lemma pop_round_trip l : round_trip (Pop l).
Proof.
  intros bytes rest Hok He. cbn [encode] in He. unfold emit_pop in He.
  destruct l as [r|m]; [|contradiction]. cbn [loc_size] in He.
  destruct (reg_size r) as [s|] eqn:Hs; [|discriminate]. destruct (stack_size s) as [s'|] eqn:Hss; [|discriminate].
  apply stack_size_inv in Hss as [Hq ->]. apply (stack_round_trip 0x58 s r bytes rest); auto.
Qed.

(** ** Moves *)

(** [mov r, imm] in the [+r] form, for the register [r'] of size [s]. *)
Lemma mov_plusr_round_trip s r r' imm bytes rest :
  reg_size r' = Some s -> reg_num r' .& 15 = reg_num r .& 15 -> (s = Byte -> r' = r /\ reg_num r .& 7 = 0) ->
  cat (emit_plusr s r (pick s 0xB0 0xB8)) (emit_imm s imm) = Some bytes ->
  decode (bytes ++ rest) = Some (Mov (Reg r') (Imm (sext (size_bits s) imm)), rest).
Proof.
  intros Hr Hnum Hb He. uncat He.
  assert (H7 : reg_num r' .& 7 = reg_num r .& 7).
  { change 7 with (15 .& 7). rewrite !Z.land_assoc, Hnum. reflexivity. }
  assert (H8 : reg_num r' .& 8 = reg_num r .& 8).
  { change 8 with (15 .& 8). rewrite !Z.land_assoc, Hnum. reflexivity. }
  assert (Hok : opcode_ok (u8 (pick s 0xB0 0xB8) .| (reg_num r .& 7)) = true).
  { destruct (low3_cases (reg_num r)) as (k & -> & Hk). destruct s; by_id Hk; reflexivity. }
  destruct (decode_plusr s r (pick s 0xB0 0xB8) x (y ++ rest)) as (rex & Hd & Hx1 & Hf);
    [destruct s; reflexivity|exact Hok|exact Hx|]. rewrite Hd.
  assert (Hf' : rex_fits rex (reg_num r')).
  { destruct s; [destruct (Hb eq_refl) as [-> _]; exact Hf|..];
      (destruct r'; cbn in Hr; try discriminate; split; intros; reflexivity). }
  assert (Hdis : dispatch rex (prefix_size s) (u8 (pick s 0xB0 0xB8) .| (reg_num r .& 7)) =
    bind (lift (register_of_size (extend rex 1 .| ((reg_num r .& 7) .& 7)) s rex))
      (fun r => bind (immediate s) (fun imm => ret (Mov (Reg r) (Imm imm))))).
  { destruct (low3_cases (reg_num r)) as (k & Hk & Hkr). rewrite Hk in *.
    destruct s; [destruct (Hb eq_refl) as [_ ->]; reflexivity|..]; by_id Hkr; reflexivity. }
  rewrite Hdis, (plusr_register r' s rex Hr) by (try congruence; rewrite <- Z.land_assoc; symmetry; exact H7).
  unfold bind, lift, ret. rewrite (immediate_emit _ _ _ _ Hy). reflexivity.
Qed.

Lemma mov_rm_imm_round_trip s l imm bytes rest :
  loc_size l = Some s -> loc_ok l -> emit_mov_rm_imm s l imm = Some bytes ->
  decode (bytes ++ rest) = Some (Mov (norm_loc s l) (Imm (norm_imm s imm)), rest) /\ check_imm_size s imm = true.
Proof.
  intros Hs Hl He. unfold emit_mov_rm_imm, assertion in He. destruct (check_imm_size s imm) eqn:Hck; [|discriminate].
  split; [|reflexivity]. uncat He. pose proof (loc_size_reg _ _ Hs) as Hr.
  destruct (decode_id s l 0 (pick s 0xC6 0xC7) x (y ++ rest)) as (rex & c & reg & -> & Hm & Hlow);
    [lia|exact Hr|exact Hl|destruct s; reflexivity|exact Hx|].
  replace (dispatch rex (prefix_size s) (pick s 0xC6 0xC7)) with (bind (modrm rex s) (fun '(operand, reg) =>
    if (reg_num reg .& 7) <>? 0 then panic
    else bind (immediate (cap_to_dword s)) (fun imm => ret (Mov operand (Imm imm))))) by (destruct s; reflexivity).
  unfold bind. rewrite Hm, Hlow. cbn [Z.eqb negb]. rewrite (immediate_emit _ _ _ _ Hy). reflexivity.
Qed.

Lemma mov_reg_imm_round_trip r imm : round_trip (Mov (Reg r) (Imm imm)).
Proof.
  intros bytes rest Hok He. cbn [encode] in He. unfold emit_mov in He. cbn [normal].
  destruct (loc_size (Reg r)) as [s|] eqn:Hs; [|discriminate]. cbn [as_loc] in He.
  unfold norm_mov_imm. cbn [decodable] in Hok. rewrite (size_of_eq _ _ Hs) in *. cbn [loc_size] in Hs.
  destruct (size_eqb s Qword && fits_u 32 imm) eqn:Hu; cbn [negb size_eqb size_num Z.eqb Pos.eqb orb] in He.
  - apply andb_true_iff in Hu as [Hq _]. apply size_eqb_eq in Hq as ->.
    assert (exists r', register_of_size (reg_num r) Dword 0 = Some r' /\ reg_size r' = Some Dword /\
      reg_num r' .& 15 = reg_num r .& 15) as (r' & Hr' & Hd & Hn).
    { destruct r; cbn in Hs; try discriminate; eexists; repeat split; reflexivity. }
    rewrite Hr'. apply (mov_plusr_round_trip Dword r r' imm bytes rest); auto. discriminate.
  - destruct (negb (size_eqb s Qword) || negb (fits_i 32 imm)) eqn:Hp.
    + eapply mov_plusr_round_trip; eauto.
    + apply orb_false_iff in Hp as [Hq Hf]. apply negb_false_iff in Hq, Hf. apply size_eqb_eq in Hq as ->.
      destruct (mov_rm_imm_round_trip Qword (Reg r) imm bytes rest) as [-> _]; [exact Hs|exact I|exact He|].
      cbn [norm_loc]. do 3 f_equal. f_equal. unfold norm_imm, fits_i in *. zbool.
      rewrite !sext_id; unfold in_i; cbn in *; lia.
Qed.

Lemma mov_dispatch rex s :
  dispatch rex (prefix_size s) (pick s 0x88 0x89) =
    bind (modrm rex s) (fun '(operand, reg) => ret (Mov operand (OpReg reg))) /\
  dispatch rex (prefix_size s) (pick s 0x8A 0x8B) =
    bind (modrm rex s) (fun '(operand, reg) => ret (Mov (Reg reg) (operand_of operand))) /\
  opcode_ok (pick s 0x88 0x89) = true /\ opcode_ok (pick s 0x8A 0x8B) = true.
Proof. destruct s; repeat split; reflexivity. Qed.

Lemma mov_loc_round_trip dst src bytes rest :
  loc_ok dst -> src_ok src -> (forall imm, src <> Imm imm) -> emit_mov dst src = Some bytes ->
  decode (bytes ++ rest) = Some (Mov (norm_loc (size_of dst) dst) (norm_src (size_of dst) src), rest).
Proof.
  intros Hdst Hsrc Hno He. unfold emit_mov in He. destruct (loc_size dst) as [s|] eqn:Hs; [|discriminate].
  rewrite (size_of_eq _ _ Hs). pose proof (loc_size_reg _ _ Hs) as Hr.
  destruct (mov_dispatch 0 s) as (_ & _ & Ho1 & Ho2).
  destruct src as [r|m|imm]; [| |congruence]; cbn [as_loc loc_size] in He; unfold assertion in He.
  - destruct (reg_size r) as [s'|] eqn:Hs'; [|discriminate].
    destruct (size_eqb s' s) eqn:Heq; [|discriminate]. apply size_eqb_eq in Heq as ->.
    assert (He' : emit_r_rm s dst (reg_num r) (pick s 0x88 0x89) = Some bytes) by (destruct dst; exact He).
    destruct (decode_reg s dst r _ bytes rest Hs' Hr Hdst Ho1 He') as (rex & c & -> & Hm).
    destruct (mov_dispatch rex s) as (-> & _). unfold bind. rewrite Hm. reflexivity.
  - destruct (size_eqb (mem_size m) s) eqn:Heq; [|discriminate]. destruct dst as [r|]; [|discriminate].
    destruct (decode_reg s (Mem m) r _ bytes rest Hs I Hsrc Ho2 He) as (rex & c & -> & Hm).
    destruct (mov_dispatch rex s) as (_ & -> & _). unfold bind. rewrite Hm. reflexivity.
Qed.

Lemma mov_round_trip dst src : round_trip (Mov dst src).
Proof.
  destruct dst as [r|m], src as [r'|m'|imm]; try apply mov_reg_imm_round_trip; intros bytes rest Hok He;
    try (apply mov_loc_round_trip; [apply Hok|apply Hok|discriminate|exact He]).
  cbn [encode normal] in *. unfold emit_mov in He. cbn [loc_size as_loc] in He.
  destruct (mov_rm_imm_round_trip (mem_size m) (Mem m) imm bytes rest) as [-> _]; [reflexivity|apply Hok|exact He|reflexivity].
Qed.

Lemma widen_round_trip s s' src dst opcode (op : Register -> Location -> Op) bytes rest :
  s <> Byte -> reg_size dst = Some s -> loc_size src = Some s' -> not_high src -> loc_ok src ->
  opcode_ok opcode = true ->
  (forall rex, dispatch rex s opcode = bind (modrm rex s) (fun '(src, dst) =>
     bind (lift (loc_resize src s')) (fun src => ret (op dst src)))) ->
  emit_r_rm s src (reg_num dst) opcode = Some bytes -> decode (bytes ++ rest) = Some (op dst src, rest).
Proof.
  intros Hb Hs Hs' Hh Hl Hok Hd He.
  destruct (decode_widen s s' src dst opcode bytes rest) as (rex & c & l' & -> & Hm & Hres); auto.
  replace (prefix_size s) with s by (destruct s; congruence || reflexivity).
  rewrite Hd. unfold bind. rewrite Hm, Hres. reflexivity.
Qed.

Lemma movsx_round_trip dst src : round_trip (Movsx dst src).
Proof.
  intros bytes rest [Hl Hh] He. cbn [encode] in He. unfold emit_movsx in He.
  destruct (reg_size dst) as [s|] eqn:Hs; [|discriminate]. destruct (loc_size src) as [s'|] eqn:Hs'; [|discriminate].
  unfold assertion in He. destruct (size_ltb s' s) eqn:Hlt; [|discriminate].
  assert (Hb : s <> Byte) by (intros ->; destruct s'; discriminate).
  destruct s'; try discriminate; eapply widen_round_trip; eauto; reflexivity.
Qed.

Lemma movzx_round_trip dst src : round_trip (Movzx dst src).
Proof.
  intros bytes rest [Hl Hh] He. cbn [encode] in He. unfold emit_movzx in He.
  destruct (reg_size dst) as [s|] eqn:Hs; [|discriminate]. destruct (loc_size src) as [s'|] eqn:Hs'; [|discriminate].
  unfold assertion in He. destruct (size_ltb s' s && negb (size_eqb s' Dword)) eqn:Hlt; [|discriminate].
  assert (Hb : s <> Byte) by (intros ->; destruct s'; discriminate).
  destruct s'; [| |rewrite andb_false_r in Hlt; discriminate|destruct s; discriminate];
    eapply widen_round_trip; eauto; reflexivity.
Qed.

(** ** The remaining instructions *)

Lemma lea_round_trip dst src : round_trip (Lea dst src).
Proof.
  intros bytes rest Hok He. cbn [encode] in He. unfold emit_lea in He. cbn [normal].
  destruct (reg_size dst) as [s|] eqn:Hs; [|discriminate]. rewrite (size_of_eq (Reg dst) s Hs).
  unfold assertion in He. destruct (negb (size_eqb s Byte)) eqn:Hb; [|discriminate].
  destruct (decode_reg s (Mem src) dst 0x8D bytes rest Hs I Hok eq_refl He) as (rex & c & -> & Hm).
  replace (prefix_size s) with s by (destruct s; discriminate || reflexivity).
  change (dispatch rex s 0x8D) with (bind (modrm rex s) (fun '(operand, reg) =>
    match operand with Mem operand => ret (Lea reg operand) | Reg _ => ret Illegal end)).
  unfold bind. rewrite Hm. reflexivity.
Qed.

Lemma reg_rm_round_trip dst src opcode (op : Register -> Location -> Op) bytes rest :
  loc_ok src -> opcode_ok opcode = true ->
  (forall rex s, dispatch rex s opcode = bind (modrm rex s) (fun '(src, dst) => ret (op dst src))) ->
  emit_reg_rm dst src opcode = Some bytes ->
  decode (bytes ++ rest) = Some (op dst (norm_loc (size_of src) src), rest).
Proof.
  intros Hl Hok Hd He. unfold emit_reg_rm in He. destruct (reg_size dst) as [s|] eqn:Hs; [|discriminate].
  unfold assertion in He. destruct (negb (size_eqb s Byte)) eqn:Hb; [|discriminate].
  destruct (loc_size src) as [s'|] eqn:Hs'; [|discriminate].
  destruct (size_eqb s s') eqn:Heq; [|discriminate]. apply size_eqb_eq in Heq as <-.
  rewrite (size_of_eq _ _ Hs'). pose proof (loc_size_reg _ _ Hs') as Hr.
  destruct (decode_reg s src dst opcode bytes rest Hs Hr Hl Hok He) as (rex & c & -> & Hm).
  rewrite (Hd rex). replace (prefix_size s) with s by (destruct s; discriminate || reflexivity).
  unfold bind. rewrite Hm. reflexivity.
Qed.

Lemma rm_reg_round_trip dst src byte other (op : Location -> Register -> Op) bytes rest :
  loc_ok dst -> (forall s, opcode_ok (pick s byte other) = true) ->
  (forall rex s, dispatch rex (prefix_size s) (pick s byte other) =
     bind (modrm rex s) (fun '(dst, src) => ret (op dst src))) ->
  emit_rm_reg dst src byte other = Some bytes ->
  decode (bytes ++ rest) = Some (op (norm_loc (size_of dst) dst) src, rest).
Proof.
  intros Hl Hok Hd He. unfold emit_rm_reg in He. destruct (loc_size dst) as [s|] eqn:Hs; [|discriminate].
  destruct (reg_size src) as [s'|] eqn:Hs'; [|discriminate].
  unfold assertion in He. destruct (size_eqb s s') eqn:Heq; [|discriminate]. apply size_eqb_eq in Heq as <-.
  rewrite (size_of_eq _ _ Hs). pose proof (loc_size_reg _ _ Hs) as Hr.
  destruct (decode_reg s dst src _ bytes rest Hs' Hr Hl (Hok s) He) as (rex & c & -> & Hm).
  rewrite Hd. unfold bind. rewrite Hm. reflexivity.
Qed.

Lemma setcc_round_trip l cc : round_trip (Setcc l cc).
Proof.
  intros bytes rest Hok He. cbn [encode] in He. unfold emit_setcc in He. cbn [normal].
  destruct (loc_size l) as [s|] eqn:Hs; [|discriminate]. unfold assertion in He.
  destruct (size_eqb s Byte) eqn:Hb; [|discriminate]. apply size_eqb_eq in Hb as ->.
  destruct (decode_id Byte l 0 (0x0F90 + cc_num cc) bytes rest) as (rex & c & reg & -> & Hm & Hlow);
    [lia|apply loc_size_reg, Hs|exact Hok|destruct cc; reflexivity|exact He|].
  replace (dispatch rex (prefix_size Byte) (0x0F90 + cc_num cc)) with (bind (modrm rex Byte) (fun '(dst, reg) =>
    if (reg_num reg .& 7) =? 0 then ret (Setcc dst cc) else panic)) by (destruct cc; reflexivity).
  unfold bind. rewrite Hm, Hlow. reflexivity.
Qed.

Lemma test_round_trip dst src : round_trip (Test dst src).
Proof.
  intros bytes rest Hok He. cbn [encode] in He. unfold emit_test in He. cbn [normal].
  destruct (loc_size dst) as [s|] eqn:Hs; [|discriminate]. rewrite (size_of_eq _ _ Hs).
  pose proof (loc_size_reg _ _ Hs) as Hr. destruct src as [r|m|imm]; [|discriminate|].
  - destruct (reg_size r) as [s'|] eqn:Hs'; [|discriminate]. unfold assertion in He.
    destruct (size_eqb s' s) eqn:Heq; [|discriminate]. apply size_eqb_eq in Heq as ->.
    destruct (decode_reg s dst r (pick s 0x84 0x85) bytes rest Hs' Hr Hok) as (rex & c & -> & Hm);
      [destruct s; reflexivity|exact He|].
    replace (dispatch rex (prefix_size s) (pick s 0x84 0x85)) with
      (bind (modrm rex s) (fun '(operand, reg) => ret (Test operand (OpReg reg)))) by (destruct s; reflexivity).
    unfold bind. rewrite Hm. reflexivity.
  - destruct Hok as [Hl Hrax]. unfold assertion in He. destruct (check_imm_size s imm); [|discriminate].
    rewrite Hrax in He. uncat He.
    destruct (decode_id s dst 0 (pick s 0xF6 0xF7) x (y ++ rest)) as (rex & c & reg & -> & Hm & Hlow);
      [lia|exact Hr|exact Hl|destruct s; reflexivity|exact Hx|].
    rewrite f7_dispatch. unfold bind. rewrite Hm. unfold op_group_f7. rewrite Hlow. cbn [Z.eqb].
    unfold bind. rewrite (immediate_emit _ _ _ _ Hy). reflexivity.
Qed.

(** [xchg] with the register operand [r]. *)
Lemma xchg_modrm l r s bytes rest :
  loc_ok l -> loc_size l = Some s -> reg_size r = Some s ->
  emit_r_rm s l (reg_num r) (pick s 0x86 0x87) = Some bytes ->
  decode (bytes ++ rest) = Some (Xchg (Reg r) (norm_loc (size_of l) l), rest).
Proof.
  intros Hl Hs Hr He. rewrite (size_of_eq _ _ Hs).
  destruct (decode_reg s l r (pick s 0x86 0x87) bytes rest Hr (loc_size_reg _ _ Hs) Hl) as (rex & c & -> & Hm);
    [destruct s; reflexivity|exact He|].
  replace (dispatch rex (prefix_size s) (pick s 0x86 0x87)) with
    (bind (modrm rex s) (fun '(operand, reg) => ret (Xchg (Reg reg) operand))) by (destruct s; reflexivity).
  unfold bind. rewrite Hm. reflexivity.
Qed.

Lemma xchg_round_trip l1 l2 : round_trip (Xchg l1 l2).
Proof.
  intros bytes rest (Hl1 & Hl2 & Hrr) He. cbn [encode] in He. unfold emit_xchg in He.
  assert (exists r l, normal (Xchg l1 l2) = Xchg (Reg r) (norm_loc (size_of l) l) /\ loc_ok l /\
    exists s, loc_size l = Some s /\ reg_size r = Some s /\ emit_r_rm s l (reg_num r) (pick s 0x86 0x87) = Some bytes)
    as (r & l & -> & Hl & s & Hs & Hr & He').
  2: { apply (xchg_modrm l r s); assumption. }
  destruct l1 as [r1|m1]; [exists r1, l2|destruct l2 as [r2|m2]; [exists r2, (Mem m1)|discriminate]];
    (split; [reflexivity|]; split; [assumption|]).
  - destruct (loc_size l2) as [s|] eqn:Hs; [|discriminate]. destruct (reg_size r1) as [s'|] eqn:Hs'; [|discriminate].
    unfold assertion in He. destruct (size_eqb s s') eqn:Heq; [|discriminate]. apply size_eqb_eq in Heq as <-.
    exists s. split; [reflexivity|]. split; [reflexivity|]. destruct l2 as [r2|m2]; [|exact He].
    unfold size_of in Hrr. cbn [loc_size is_rax] in Hrr, Hs. rewrite Hs' in Hrr.
    destruct Hrr as [->|[H1 H2]]; [exact He|]. rewrite H1, H2, andb_false_r in He. exact He.
  - cbn [loc_size] in *. destruct (reg_size r2) as [s'|] eqn:Hs'; [|discriminate].
    unfold assertion in He. destruct (size_eqb (mem_size m1) s') eqn:Heq; [|discriminate]. apply size_eqb_eq in Heq as <-.
    exists (mem_size m1). auto.
Qed.

Lemma ret_round_trip n : round_trip (Ret n).
Proof.
  intros bytes rest Hok He. cbn [encode normal] in *. unfold emit_ret in He. rewrite emit_u16_le in He.
  destruct (Z.eqb_spec n 0) as [->|Hn].
  - apply some_eq in He as <-. reflexivity.
  - uncat He. apply some_eq in Hx as <-. apply some_eq in Hy as <-.
    change (decode ([u8 0xC2] ++ le_bytes 2 n ++ rest)) with (bind word (fun w => ret (Ret w)) (le_bytes 2 n ++ rest)).
    unfold bind, word. rewrite little_le by lia. unfold ret. rewrite Z.shiftl_0_r.
    change (n mod 2 ^ (8 * Z.of_nat 2)) with (wrap 16 n). rewrite wrap_id by exact Hok. reflexivity.
Qed.

Lemma encode_round_trips op : round_trip op.
Proof.
  destruct op.
  all: try (intros bytes rest _ He; apply some_eq in He as <-; reflexivity).
  all: try (intros bytes rest [Hd Hs] He; cbn [encode] in He;
    match type of He with emit_alu ?d ?s ?k = _ =>
      exact (alu_round_trip d s k bytes rest ltac:(lia) Hd Hs He) end).
  all: auto using call_round_trip, jmp_round_trip, jcc_round_trip, push_round_trip, pop_round_trip, mov_round_trip,
    movsx_round_trip, movzx_round_trip, lea_round_trip, setcc_round_trip, test_round_trip, xchg_round_trip, ret_round_trip.
  all: intros bytes rest Hok He; try contradiction; cbn [decodable encode normal] in *.
  - eapply (reg_rm_round_trip dst src (0x0F40 + cc_num cc) (fun d s => Cmovcc d s cc)); eauto; destruct cc; reflexivity.
  - eapply (rm_reg_round_trip dst src 0x0FB0 0x0FB1 Cmpxchg); eauto; intros; destruct s; reflexivity.
  - apply emit_rm_f6 in He as (s & Hs & He). eapply (f7_round_trip _ 6 Div); eauto.
  - apply emit_rm_f6 in He as (s & Hs & He). eapply (f7_round_trip _ 7 Idiv); eauto.
  - destruct (loc_size src) as [s|] eqn:Hs; [|discriminate]. eapply (f7_round_trip _ 5 Imul1); eauto.
  - eapply (reg_rm_round_trip dst src 0x0FAF Imul2); eauto; reflexivity.
  - apply emit_rm_f6 in He as (s & Hs & He). eapply (f7_round_trip _ 4 Mul); eauto.
  - apply emit_rm_f6 in He as (s & Hs & He). eapply (f7_round_trip _ 3 Neg); eauto.
  - apply emit_rm_f6 in He as (s & Hs & He). eapply (f7_round_trip _ 2 Not); eauto.
  - eapply (shift_round_trip dst src 7 Sar); eauto.
  - eapply (shift_round_trip dst src 4 Shl); eauto.
  - eapply (shift_round_trip dst src 5 Shr); eauto.
  - eapply (rm_reg_round_trip dst src 0x0FC0 0x0FC1 Xadd); eauto; intros; destruct s; reflexivity.
Qed.

(** C23. The x86 decoder inverts the encoder: for every operation it covers, decoding
    the bytes the encoder emits, whatever follows them, gives the operation back
    in normal form (immediates sign-extended to the operand size, [mov] of a
    32-bit constant to the 32-bit register, the operand size the decoder assumes
    for addresses relative to [RIP]) and leaves exactly what followed. *)
Theorem x86_decode_encode op bytes rest :
  decodable op -> encode op = Some bytes -> decode (bytes ++ rest) = Some (normal op, rest).
Proof. apply encode_round_trips. Qed.

Definition sample : Op := Mov (Mem (MkMem (Some R12) (Some (RAX, 8)) 0x1234 Qword)) (OpReg R9).

Lemma x86_decode_encode_witness :
  encode sample = Some [0x4D; 0x89; 0x8C; 0xC4; 0x34; 0x12; 0; 0] /\
  decode ([0x4D; 0x89; 0x8C; 0xC4; 0x34; 0x12; 0; 0] ++ [0x90]) = Some (sample, [0x90]).
Proof.
  split; [vm_compute; reflexivity|].
  rewrite (x86_decode_encode sample); [reflexivity| |vm_compute; reflexivity].
  cbn. unfold mem_ok, in_i. cbn. repeat split; lia || discriminate.
Defined.

(** ** The length of an instruction *)

(** An emission of at most [n] bytes. *)
Definition emits (n : nat) (e : Enc) : Prop :=
  match e with Some l => (length l <= n)%nat /\ Forall (in_u 8) l | None => True end.

Lemma emits_mono n m e : (n <= m)%nat -> emits n e -> emits m e.
Proof. destruct e; cbn; [|auto]. intros H []. split; [lia|assumption]. Qed.

Lemma emits_cat n m a b : emits n a -> emits m b -> emits (n + m) (cat a b).
Proof.
  destruct a as [x|], b as [y|]; cbn; auto. intros [Hx Fx] [Hy Fy].
  rewrite length_app. split; [lia|]. apply Forall_app. auto.
Qed.

Lemma emits_nil n : emits n (Some []).
Proof. cbn. split; [lia|constructor]. Qed.

Lemma emits_assert n b e : emits n e -> emits n (assertion b e).
Proof. destruct b; cbn; auto. Qed.

Lemma emits_if n b e : emits n e -> emits n (emit_if b e).
Proof. intros H. destruct b; [exact H|apply emits_nil]. Qed.

Lemma emits_le n v : emits n (Some (le_bytes n v)).
Proof.
  revert v. induction n as [|n IH]; intros v; [apply emits_nil|]. specialize (IH (v >> 8)).
  cbn [emits le_bytes length] in *. destruct IH. split; [lia|]. constructor; [apply wrap_range; lia|assumption].
Qed.

Lemma emits_u8 v : emits 1 (emit_u8 v).
Proof. apply (emits_le 1). Qed.

Lemma emits_u16 v : emits 2 (emit_u16 v).
Proof. rewrite emit_u16_le. apply emits_le. Qed.

Lemma emits_u32 v : emits 4 (emit_u32 v).
Proof. rewrite emit_u32_le. apply emits_le. Qed.

Lemma emits_imm s v : emits (Z.to_nat (size_bytes s)) (emit_imm s v).
Proof.
  destruct s; unfold emit_imm; rewrite ?emit_u16_le, ?emit_u32_le, ?emit_u64_le; [apply emits_u8|apply emits_le..].
Qed.

Lemma emits_imm4 s v : emits 4 (emit_imm (cap_to_dword s) v).
Proof. eapply emits_mono; [|apply emits_imm]. destruct s; cbn; lia. Qed.

Lemma emits_imm8 s v : emits 8 (emit_imm s v).
Proof. eapply emits_mono; [|apply emits_imm]. destruct s; cbn; lia. Qed.

Lemma emits_rex l n w : emits 1 (emit_rex l n w).
Proof.
  unfold emit_rex. destruct (rex_of_loc _ _); [|exact I].
  destruct (_ <>? 0); [apply emits_assert, emits_u8|apply emits_nil].
Qed.

Lemma emits_disp d z : emits 4 (Some (disp_bytes d z)).
Proof.
  unfold disp_bytes. destruct (_ && _); [apply emits_nil|]. destruct (fits_i 8 d); [|apply emits_le].
  eapply emits_mono; [|apply (emits_u8 (u8 d))]. lia.
Qed.

Lemma emits_cons n v l : emits n (Some l) -> emits (S n) (Some (u8 v :: l)).
Proof. cbn. intros [Hl Hf]. split; [lia|]. constructor; [apply wrap_range; lia|assumption]. Qed.

Lemma emits_modrm l n : emits 6 (emit_modrm l n).
Proof.
  destruct l as [r|[[b|] [[i sc]|] d sz]].
  - eapply emits_mono; [|apply emits_u8]. lia.
  - rewrite emit_modrm_sib. destruct (scale_shift _); [|exact I]. destruct (_ =? REG_GPQ); [|exact I].
    apply emits_cons, emits_cons, emits_disp.
  - destruct (reg_num b =? reg_num RIP) eqn:E1; [|destruct ((reg_num b =? reg_num RSP) || (reg_num b =? reg_num R12)) eqn:E2].
    + assert (b = RIP) as -> by (destruct b; try discriminate; reflexivity). rewrite emit_modrm_rip.
      eapply emits_mono; [|apply emits_cons, emits_le]. lia.
    + rewrite emit_modrm_rsp by (destruct b; try discriminate; auto). apply emits_cons, emits_cons, emits_disp.
    + apply orb_false_iff in E2 as [E2 E3]. rewrite emit_modrm_base by (intros ->; discriminate).
      destruct (_ =? REG_GPQ); [|exact I]. eapply emits_mono; [|apply emits_cons, emits_disp]. lia.
  - rewrite emit_modrm_index. destruct (scale_shift _); [|exact I]. apply emits_cons, emits_cons, emits_le.
  - rewrite emit_modrm_abs. apply emits_cons, emits_cons, emits_le.
Qed.

Lemma emits_escape opcode : emits 2 (emit_escape opcode).
Proof. apply (emits_cat 1 1); apply emits_if, emits_u8. Qed.

Lemma emits_r_rm s l n opcode : emits 11 (emit_r_rm s l n opcode).
Proof.
  apply (emits_cat 1 10); [apply emits_if, emits_u8|]. apply (emits_cat 1 9); [apply emits_rex|].
  apply (emits_cat 2 7); [apply emits_escape|]. apply (emits_cat 1 6); [apply emits_u8|apply emits_modrm].
Qed.

Lemma emits_plusr s r opcode : emits 5 (emit_plusr s r opcode).
Proof.
  apply (emits_cat 1 4); [apply emits_if, emits_u8|]. apply (emits_cat 1 3).
  - destruct (_ <>? 0); [apply emits_assert, emits_u8|apply emits_nil].
  - apply (emits_cat 2 1); [apply emits_escape|apply emits_u8].
Qed.

Lemma emits_rax_prefix s : emits 1 (rax_prefix s).
Proof. destruct s; first [apply emits_u8|apply emits_nil]. Qed.

Create HintDb emits discriminated.
#[export] Hint Resolve emits_imm8 | 10 : emits.
#[export] Hint Resolve emits_u8 emits_u16 emits_u32 emits_imm4 emits_rex emits_modrm emits_escape emits_r_rm
  emits_plusr emits_rax_prefix emits_nil : emits.

(** Bound an emission by its parts. *)
Ltac bound :=
  repeat match goal with
  | |- emits _ (assertion _ _) => apply emits_assert
  | |- emits _ None => exact I
  | |- emits _ (match ?x with _ => _ end) => destruct x
  | |- emits _ (cat _ _) => eapply emits_mono; [|eapply emits_cat]
  end;
  try solve [eauto with emits | eapply emits_mono; [|eauto with emits]; lia | lia].

Lemma emits_encode op : emits 15 (encode op).
Proof.
  destruct op; cbn [encode];
    unfold emit_alu, emit_call, emit_reg_rm, emit_rm_reg, emit_rm, emit_jcc, emit_jmp, emit_indirect, emit_lea,
      emit_mov, emit_mov_rm_imm, emit_movabs, emit_movsx, emit_movzx, emit_pop, emit_push, emit_ret, emit_shift,
      emit_setcc, emit_test, emit_xchg; bound.
  all: cbn; lia.
Qed.

(** The encoder emits bytes, and no instruction is longer than the 15 bytes the
    architecture allows. *)
Theorem x86_length op bytes :
  encode op = Some bytes -> (length bytes <= 15)%nat /\ Forall (in_u 8) bytes.
Proof. intros He. pose proof (emits_encode op) as H. rewrite He in H. exact H. Qed.

Lemma x86_length_witness :
  encode sample = Some [0x4D; 0x89; 0x8C; 0xC4; 0x34; 0x12; 0; 0] /\
  (length [0x4D; 0x89; 0x8C; 0xC4; 0x34; 0x12; 0; 0] <= 15)%nat.
Proof. split; [vm_compute; reflexivity|]. exact (proj1 (x86_length sample _ ltac:(vm_compute; reflexivity))). Defined.

(** ** Where the round trip fails *)

(** The check on index registers excludes [RBP] instead of [RSP]: an address with
    index [RSP] is encoded as one without an index, and one with index [RBP],
    which x86 has, panics. *)
Theorem index_check_wrong :
  encode (Lea RAX (reg_add_reg RBX RSP)) = Some [0x48; 0x8D; 0x04; 0x23] /\
  decode [0x48; 0x8D; 0x04; 0x23] = Some (Lea RAX (reg_add RBX 0), []) /\
  encode (Lea RAX (reg_add_reg RBX RBP)) = None.
Proof. vm_compute. auto. Qed.

(** [xchg r8, rax] is decoded as [nop]. *)
Theorem xchg_decodes_as_nop :
  encode (Xchg (Reg R8) (Reg RAX)) = Some [0x49; 0x90] /\ decode [0x49; 0x90] = Some (Nop, []).
Proof. vm_compute. auto. Qed.
