(* ===== verification/Words.v ===== *)
(** Congruence modulo a power of two: what two computations on machine words have in
    common when only the low [n] bits matter.  Conversions between widths disappear by
    rewriting, so that equality of results is shown without a case analysis. *)

From Stdlib Require Import ZArith Lia Bool Setoid Morphisms.
From S2P Require Import Prelude.
Local Open Scope Z_scope.
Local Open Scope rust_scope.

Definition eqm (n a b : Z) : Prop := wrap n a = wrap n b.

#[export] Instance eqm_equivalence n : Equivalence (eqm n).
Proof. split; repeat intro; unfold eqm in *; congruence. Qed.

#[export] Instance eqm_add n : Proper (eqm n ==> eqm n ==> eqm n) Z.add.
Proof. intros a a' Ha b b' Hb. unfold eqm, wrap in *. rewrite Zplus_mod, Ha, Hb, <- Zplus_mod. reflexivity. Qed.

#[export] Instance eqm_sub n : Proper (eqm n ==> eqm n ==> eqm n) Z.sub.
Proof. intros a a' Ha b b' Hb. unfold eqm, wrap in *. rewrite Zminus_mod, Ha, Hb, <- Zminus_mod. reflexivity. Qed.

#[export] Instance eqm_mul n : Proper (eqm n ==> eqm n ==> eqm n) Z.mul.
Proof. intros a a' Ha b b' Hb. unfold eqm, wrap in *. rewrite Zmult_mod, Ha, Hb, <- Zmult_mod. reflexivity. Qed.

#[export] Instance eqm_opp n : Proper (eqm n ==> eqm n) Z.opp.
Proof. intros a a' Ha. rewrite <- !Z.sub_0_l. rewrite Ha. reflexivity. Qed.

#[export] Instance eqm_lnot n : Proper (eqm n ==> eqm n) Z.lnot.
Proof. intros a a' Ha. unfold Z.lnot. rewrite <- !Z.sub_1_r. rewrite Ha. reflexivity. Qed.

(** Congruence in terms of bits. *)
Lemma eqm_bits n a b : 0 <= n -> (eqm n a b <-> forall i, 0 <= i < n -> Z.testbit a i = Z.testbit b i).
Proof.
  intros Hn. unfold eqm, wrap. split.
  - intros E i Hi. rewrite <- (Z.mod_pow2_bits_low a n i), <- (Z.mod_pow2_bits_low b n i), E by lia. reflexivity.
  - intros E. apply Z.bits_inj'. intros i Hi. rewrite !Z.testbit_mod_pow2 by lia.
    destruct (Z.ltb_spec i n); cbn; [apply E; lia|reflexivity].
Qed.

Lemma eqm_neg n a b : n < 0 -> eqm n a b -> a = b.
Proof. intros Hn. unfold eqm, wrap. rewrite Z.pow_neg_r, !Z.mod_0_r by lia. auto. Qed.

Ltac bitwise_proper n spec :=
  intros a a' Ha b b' Hb; destruct (Z.ltb_spec n 0);
  [ rewrite (eqm_neg n a a'), (eqm_neg n b b') by assumption; reflexivity
  | rewrite eqm_bits in * by lia; intros i Hi; rewrite !spec, Ha, Hb by lia; reflexivity ].

#[export] Instance eqm_land n : Proper (eqm n ==> eqm n ==> eqm n) Z.land.
Proof. bitwise_proper n Z.land_spec. Qed.

#[export] Instance eqm_lor n : Proper (eqm n ==> eqm n ==> eqm n) Z.lor.
Proof. bitwise_proper n Z.lor_spec. Qed.

#[export] Instance eqm_lxor n : Proper (eqm n ==> eqm n ==> eqm n) Z.lxor.
Proof. bitwise_proper n Z.lxor_spec. Qed.

Lemma eqm_shiftl n a b k : 0 <= k -> eqm n a b -> eqm n (a << k) (b << k).
Proof. intros Hk H. rewrite !Z.shiftl_mul_pow2 by lia. rewrite H. reflexivity. Qed.

(** A conversion to at least [n] bits does not matter. *)
Lemma eqm_wrap n m x : 0 <= n <= m -> eqm n (wrap m x) x.
Proof.
  intros H. apply eqm_bits; [lia|]. intros i Hi. unfold wrap. apply Z.mod_pow2_bits_low. lia.
Qed.

Lemma eqm_sext n m x : 0 <= n <= m -> 0 < m -> eqm n (sext m x) x.
Proof.
  intros H Hm. rewrite <- (eqm_wrap n m (sext m x)), wrap_sext by lia. apply eqm_wrap. lia.
Qed.

Lemma eqm_eq n a b : in_u n a -> in_u n b -> eqm n a b -> a = b.
Proof. intros Ha Hb. unfold eqm. rewrite !wrap_id by assumption. auto. Qed.

Lemma wrap_eqm n a b : eqm n a b -> wrap n a = wrap n b.
Proof. exact (fun H => H). Qed.

Lemma eqm_sext_eq n a b : eqm n a b -> sext n a = sext n b.
Proof. intros H. rewrite <- (sext_wrap n a), <- (sext_wrap n b), H. reflexivity. Qed.

(** Removes conversions under a congruence. *)
Ltac eqm_norm :=
  unfold u8, u16, u32, u64, u128, i8, i16, i32, i64, i128 in *;
  repeat first [rewrite eqm_wrap by lia | rewrite eqm_sext by lia].

(** Equality of words from congruence of what is converted. *)
Ltac eqm_solve :=
  unfold u8, u16, u32, u64, u128, i8, i16, i32, i64, i128 in *;
  lazymatch goal with
  | |- wrap ?n ?a = wrap ?n ?b => change (eqm n a b)
  | |- sext ?n ?a = sext ?n ?b => apply eqm_sext_eq
  end;
  eqm_norm; reflexivity.

(** ** Signs *)

Lemma testbit_sign n x : 0 < n -> Z.testbit x (n - 1) = (sext n x <? 0).
Proof.
  intros Hn. rewrite <- (Z.mod_pow2_bits_low x n (n - 1)) by lia. fold (wrap n x). rewrite <- sext_wrap.
  pose proof (wrap_range n x ltac:(lia)) as Hr. rewrite sext_unsigned by exact Hr. unfold in_u in Hr.
  assert (Hp : 2 ^ n = 2 * 2 ^ (n - 1)) by (rewrite <- Z.pow_succ_r by lia; f_equal; lia).
  set (y := wrap n x) in *. destruct (Z.ltb_spec y (2 ^ (n - 1))) as [L|L].
  - rewrite (proj2 (Z.testbit_false y (n - 1) ltac:(lia))); [symmetry; apply Z.ltb_ge; lia|].
    rewrite Z.div_small by lia. reflexivity.
  - rewrite (proj2 (Z.testbit_true y (n - 1) ltac:(lia))); [symmetry; apply Z.ltb_lt; lia|].
    rewrite <- (Z.div_unique y (2 ^ (n - 1)) 1 (y - 2 ^ (n - 1))) by lia. reflexivity.
Qed.

(** A signed result within twice the range is right up to one turn. *)
Lemma sext_turn n x : 0 < n -> - 2 ^ n < x < 2 ^ n ->
  sext n x = x \/ sext n x = x - 2 ^ n \/ sext n x = x + 2 ^ n.
Proof.
  intros Hn Hx. pose proof (sext_range n x Hn) as Hr. unfold in_i in Hr.
  pose proof (eqm_sext n n x ltac:(lia) Hn) as E. unfold eqm, wrap in E.
  assert (Hp : 2 ^ n = 2 * 2 ^ (n - 1)) by (rewrite <- Z.pow_succ_r by lia; f_equal; lia).
  pose proof (Z.div_mod (sext n x) (2 ^ n) ltac:(lia)) as D1. pose proof (Z.div_mod x (2 ^ n) ltac:(lia)) as D2.
  rewrite E in D1. set (k := sext n x / 2 ^ n) in *. set (j := x / 2 ^ n) in *.
  assert (Hk : sext n x - x = 2 ^ n * (k - j)) by lia. set (p := 2 ^ n) in *.
  assert (k - j = 0 \/ k - j = 1 \/ k - j = -1 \/ 2 <= k - j \/ k - j <= -2) by lia.
  assert (0 < p) by lia. nia.
Qed.
