(* ===== verification/X86Sem.v ===== *)
(** What the x86 operations do, for those the translator emits in straight-line code:
    registers with their parts, byte memory, the flags, and division faults.  It is
    written from the architecture's manual and is the reference for [Dbt]. *)

From Stdlib Require Import ZArith Lia Bool List.
From S2P Require Import Prelude X86Op Hart.
Import ListNotations.
Local Open Scope Z_scope.
Local Open Scope rust_scope.
Import X86.

Module X86Sem.

Record Flags : Type := MkFlags { zf : bool; sf : bool; cf : bool; ovf : bool }.

(** The sixteen registers, the flags ([None] after an operation that leaves them
    undefined), and memory. *)
Record St : Type := MkSt { gpr : Z -> Z; flags : option Flags; memory : Z -> Z }.

Definition set_gpr (i v : Z) (s : St) : St := MkSt (fun j => if j =? i then v else gpr s j) (flags s) (memory s).
Definition set_flags (f : option Flags) (s : St) : St := MkSt (gpr s) f (memory s).
Definition set_memory (m : Z -> Z) (s : St) : St := MkSt (gpr s) (flags s) m.

(** The number of a register in the machine, and whether it is [AH] to [BH]. *)
Definition reg_index (r : Register) : Z :=
  if high_byte (reg_num r) then reg_num r .& 3 else reg_num r .& 15.

Definition bits (s : Size) : Z := 8 * size_bytes s.

Definition get_reg (r : Register) (s : St) : option Z :=
  let? size := reg_size r in
  let v := gpr s (reg_index r) in
  Some (if high_byte (reg_num r) then u8 (v >> 8) else wrap (bits size) v).

(** Writing 32 bits clears the upper half; writing 16 or 8 keeps the rest. *)
Definition put_reg (r : Register) (v : Z) (s : St) : option St :=
  let? size := reg_size r in
  let i := reg_index r in
  let old := gpr s i in
  Some (set_gpr i
    match size with
    | Qword => u64 v
    | Dword => u32 v
    | Word => (old >> 16 << 16) .| u16 v
    | Byte =>
        if high_byte (reg_num r) then (old .& Z.lnot 0xFF00) .| (u8 v << 8) else (old >> 8 << 8) .| u8 v
    end s).

(** The address of a memory operand; relative to [RIP] is not covered. *)
Definition address (m : Memory) (s : St) : option Z :=
  let? b := (match base m with None => Some 0 | Some r => get_reg r s end) in
  let? i := (match index m with None => Some 0 | Some (r, k) => let? v := get_reg r s in Some (v * k) end) in
  Some (u64 (b + i + displacement m)).

Definition bytes_of (s : Size) : nat := match s with Byte => 1 | Word => 2 | Dword => 4 | Qword => 8 end.

Definition get_loc (l : Location) (s : St) : option Z :=
  match l with
  | Reg r => get_reg r s
  | Mem m => let? a := address m s in Some (load_bytes (memory s) a (bytes_of (mem_size m)))
  end.

Definition put_loc (l : Location) (v : Z) (s : St) : option St :=
  match l with
  | Reg r => put_reg r v s
  | Mem m =>
      let? a := address m s in
      Some (set_memory (store_bytes a (wrap (bits (mem_size m)) v) (bytes_of (mem_size m)) (memory s)) s)
  end.

(** An operand of a given size; an immediate is sign-extended. *)
Definition get_operand (size : Size) (o : Operand) (s : St) : option Z :=
  match o with
  | OpReg r => get_reg r s
  | OpMem m => get_loc (Mem m) s
  | Imm i => Some (wrap (bits size) i)
  end.

(** ** Flags *)

Definition result_flags (n r : Z) (c o : bool) : Flags :=
  MkFlags (wrap n r =? 0) (Z.testbit r (n - 1)) c o.

Definition flags_add (n a b : Z) : Flags :=
  result_flags n (a + b) (2 ^ n <=? a + b) (negb (sext n (a + b) =? sext n a + sext n b)).
Definition flags_sub (n a b : Z) : Flags :=
  result_flags n (a - b) (a <? b) (negb (sext n (a - b) =? sext n a - sext n b)).
Definition flags_logic (n r : Z) : Flags := result_flags n r false false.

(** The condition a code stands for; the parity flag is not covered. *)
Definition condition (cc : ConditionCode) (s : St) : option bool :=
  let? f := flags s in
  match cc with
  | Overflow => Some (ovf f)
  | NotOverflow => Some (negb (ovf f))
  | Below => Some (cf f)
  | AboveEqual => Some (negb (cf f))
  | Equal => Some (zf f)
  | NotEqual => Some (negb (zf f))
  | BelowEqual => Some (cf f || zf f)
  | Above => Some (negb (cf f || zf f))
  | Sign => Some (sf f)
  | NotSign => Some (negb (sf f))
  | Less => Some (xorb (sf f) (ovf f))
  | GreaterEqual => Some (negb (xorb (sf f) (ovf f)))
  | LessEqual => Some (zf f || xorb (sf f) (ovf f))
  | Greater => Some (negb (zf f || xorb (sf f) (ovf f)))
  | Parity | NotParity => None
  end.

(** ** Operations *)

(** The outcome of an operation: the next state, a division error, or an operation that
    is not covered. *)
Inductive Outcome : Type := Next (s : St) | DivideError | Stuck.

Definition from_option (o : option St) : Outcome := match o with Some s => Next s | None => Stuck end.

(** [dst := f dst src], with the flags [g dst src]. *)
Definition alu (f : Z -> Z -> Z -> Z) (g : Z -> Z -> Z -> option Flags) (dst : Location) (src : Operand) (s : St) :
    Outcome :=
  from_option (
    let? size := loc_size dst in
    let? a := get_loc dst s in
    let? b := get_operand size src s in
    let? s := put_loc dst (f (bits size) a b) s in
    Some (set_flags (g (bits size) a b) s)).

(** Operations that only set the flags. *)
Definition compare (g : Z -> Z -> Z -> Flags) (dst : Location) (src : Operand) (s : St) : Outcome :=
  from_option (
    let? size := loc_size dst in
    let? a := get_loc dst s in
    let? b := get_operand size src s in
    Some (set_flags (Some (g (bits size) a b)) s)).

(** A shift count is taken modulo 64 for a 64-bit operand and modulo 32 otherwise. *)
Definition count_of (n b : Z) : Z := if n =? 64 then b .& 63 else b .& 31.

Definition shift (f : Z -> Z -> Z -> Z) (dst : Location) (src : Operand) (s : St) : Outcome :=
  from_option (
    let? size := loc_size dst in
    let? a := get_loc dst s in
    let? b := get_operand Byte src s in
    let? s := put_loc dst (f (bits size) a (count_of (bits size) b)) s in
    Some (set_flags None s)).

(** The accumulators of a size. *)
Definition accumulators (size : Size) : option (Register * Register) :=
  match size with Qword => Some (RAX, RDX) | Dword => Some (EAX, EDX) | _ => None end.

(** [RDX:RAX := f RAX src] *)
Definition multiply (f : Z -> Z -> Z -> Z) (src : Location) (s : St) : Outcome :=
  from_option (
    let? size := loc_size src in
    let? (ra, rd) := accumulators size in
    let? a := get_reg ra s in
    let? b := get_loc src s in
    let r := f (bits size) a b in
    let? s := put_reg ra r s in
    let? s := put_reg rd (r >> bits size) s in
    Some (set_flags None s)).

(** Quotient and remainder of [RDX:RAX]; [None] is a fault. *)
Definition unsigned_division (n a b : Z) : option (Z * Z) :=
  if (b =? 0) || (2 ^ n <=? a / b) then None else Some (a / b, a mod b).
Definition signed_division (n a b : Z) : option (Z * Z) :=
  let a := sext (2 * n) a in
  let b := sext n b in
  if (b =? 0) || (Z.quot a b <? - 2 ^ (n - 1)) || (2 ^ (n - 1) <=? Z.quot a b) then None
  else Some (Z.quot a b, Z.rem a b).

Definition divide (f : Z -> Z -> Z -> option (Z * Z)) (src : Location) (s : St) : Outcome :=
  match
    (let? size := loc_size src in
     let? (ra, rd) := accumulators size in
     let? lo := get_reg ra s in
     let? hi := get_reg rd s in
     let? b := get_loc src s in
     Some (size, ra, rd, hi * 2 ^ bits size + lo, b))
  with
  | None => Stuck
  | Some (size, ra, rd, a, b) =>
      match f (bits size) a b with
      | None => DivideError
      | Some (q, r) => from_option (let? s := put_reg ra q s in let? s := put_reg rd r s in Some (set_flags None s))
      end
  end.

(** Sign extension of [src] into [dst]. *)
Definition extend (signed : bool) (dst : Register) (src : Location) (s : St) : Outcome :=
  from_option (
    let? size := loc_size src in
    let? v := get_loc src s in
    put_reg dst (if signed then sext (bits size) v else v) s).

Definition exec (op : Op) (s : St) : Outcome :=
  match op with
  | Mov dst src => from_option (let? size := loc_size dst in let? v := get_operand size src s in put_loc dst v s)
  | Movsx dst src => extend true dst src s
  | Movzx dst src => extend false dst src s
  | Lea dst m => from_option (let? a := address m s in put_reg dst a s)
  | Add dst src => alu (fun _ a b => a + b) (fun n a b => Some (flags_add n a b)) dst src s
  | Sub dst src => alu (fun _ a b => a - b) (fun n a b => Some (flags_sub n a b)) dst src s
  | And dst src => alu (fun _ a b => a .& b) (fun n a b => Some (flags_logic n (a .& b))) dst src s
  | Or dst src => alu (fun _ a b => a .| b) (fun n a b => Some (flags_logic n (a .| b))) dst src s
  | Xor dst src => alu (fun _ a b => a .^ b) (fun n a b => Some (flags_logic n (a .^ b))) dst src s
  | Cmp dst src => compare flags_sub dst src s
  | Test dst src => compare (fun n a b => flags_logic n (a .& b)) dst src s
  | Shl dst src => shift (fun _ a k => a << k) dst src s
  | Shr dst src => shift (fun _ a k => a >> k) dst src s
  | Sar dst src => shift (fun n a k => sext n a >> k) dst src s
  | Not dst => from_option (let? a := get_loc dst s in put_loc dst (Z.lnot a) s)
  | Neg dst => from_option (
      let? size := loc_size dst in
      let? a := get_loc dst s in
      let? s := put_loc dst (- a) s in
      Some (set_flags (Some (flags_sub (bits size) 0 a)) s))
  | Setcc dst cc => from_option (let? b := condition cc s in put_loc dst (Z.b2z b) s)
  | Cmovcc dst src cc => from_option (
      let? b := condition cc s in
      let? old := get_reg dst s in
      let? new := get_loc src s in
      put_reg dst (if b then new else old) s)
  | Cdqe => from_option (let? a := get_reg EAX s in put_reg RAX (i32 a) s)
  | Cdq => from_option (let? a := get_reg EAX s in put_reg EDX (if i32 a <? 0 then -1 else 0) s)
  | Cqo => from_option (let? a := get_reg RAX s in put_reg RDX (if i64 a <? 0 then -1 else 0) s)
  | Imul2 dst src => from_option (
      let? a := get_reg dst s in
      let? b := get_loc src s in
      let? s := put_reg dst (a * b) s in
      Some (set_flags None s))
  | Mul src => multiply (fun _ a b => a * b) src s
  | Imul1 src => multiply (fun n a b => sext n a * sext n b) src s
  | Div src => divide unsigned_division src s
  | Idiv src => divide signed_division src s
  | Nop | Mfence => Next s
  | _ => Stuck
  end.

End X86Sem.
