(* ===== verification/Signal.v ===== *)
(** The signal handlers of src/emu/signal.rs: a faulting instruction of translated code is
    decoded and replayed.  [handle_fpe] gives division the results RISC-V defines;
    [handle_segv] turns an access below the RAM of the guest into an access to a device. *)

From Stdlib Require Import ZArith Lia Bool List.
From S2P Require Import Prelude X86Op X86Decode Hart X86Sem.
Import ListNotations.
Local Open Scope Z_scope.
Local Open Scope rust_scope.
Import X86 X86Sem.

Module Signal.

(** [ctx.uc_mcontext.gregs[REG_LIST[i]]]: the registers of the interrupted code, in the
    numbering of [Register]. *)
Definition greg (i : Z) (s : St) : Z := gpr s i.

(** [eval_memory_location]; the product wraps as in the release profile. *)
Definition eval_memory_location (s : St) (m : Memory) : Z :=
  let a := u64 (displacement m) in
  let a := match base m with Some b => u64 (a + greg (reg_num b .& 15) s) | None => a end in
  match index m with Some (i, scale) => u64 (u64 (a + greg (reg_num i .& 15) s) * scale) | None => a end.

(** [read_location]; [None] is the [unreachable!] of [Register::size]. *)
Definition read_location (s : St) (l : Location) : option Z :=
  match l with
  | Reg reg =>
      let value := greg (reg_num reg .& 15) s in
      let? size := reg_size reg in
      Some match size with
      | Qword => value
      | Dword => u32 value
      | Word => u16 value
      | Byte => if high_byte (reg_num reg) then u8 (greg (reg_num reg .& 7) s >> 8) else u8 value
      end
  | Mem m => Some (load_bytes (memory s) (eval_memory_location s m) (bytes_of (mem_size m)))
  end.

(** [write_location] *)
Definition write_location (s : St) (l : Location) (value : Z) : option St :=
  match l with
  | Reg reg =>
      let i := reg_num reg .& 15 in
      let slot := greg i s in
      let? size := reg_size reg in
      Some match size with
      | Qword => set_gpr i value s
      | Dword => set_gpr i (u32 value) s
      | Word => set_gpr i ((slot .& u64 (Z.lnot 0xFFFF)) .| (value .& 0xFFFF)) s
      | Byte =>
          if high_byte (reg_num reg) then
            let i := reg_num reg .& 7 in
            let slot := greg i s in
            set_gpr i ((slot .& u64 (Z.lnot 0xFF00)) .| ((value .& 0xFF) << 8)) s
          else set_gpr i ((slot .& u64 (Z.lnot 0xFF)) .| (value .& 0xFF)) s
      end
  | Mem m =>
      Some (set_memory (store_bytes (eval_memory_location s m) (wrap (bits (mem_size m)) value)
        (bytes_of (mem_size m)) (memory s)) s)
  end.

Definition REG_RAX : Z := 0.
Definition REG_RDX : Z := 2.

(** [ucontext_t]: the state of the interrupted code and its [REG_RIP]. *)
Record Ucontext : Type := MkUcontext { machine : St; rip : Z }.

(** What [MemReader] reads from [ip] on; an instruction that faults has at most 15 bytes. *)
Definition MemReader (mem : Z -> Z) (ip : Z) : list Z := map (fun i => mem (u64 (ip + Z.of_nat i))) (seq 0 15).

(** The faulting instruction, with the address the reader has come to when it is decoded. *)
Definition fault_op (c : Ucontext) : option (Op * Z) :=
  match Decode.decode (MemReader (memory (machine c)) (rip c)) with
  | Some (op, rest) => Some (op, u64 (rip c + Z.of_nat (15 - length rest)))
  | None => None
  end.

(** What [handle_fpe] does for the decoded instruction. *)
Definition replay_division (op : Op) (s : St) : option St :=
  let? opr := (match op with Div opr | Idiv opr => Some opr | _ => None end) in
  let? opsize := loc_size opr in
  let? divisor := read_location s opr in
  let dividend := greg REG_RAX s in
  let dividend := if size_eqb opsize Dword then u32 dividend else dividend in
  Some (
    if divisor =? 0 then
      set_gpr REG_RDX dividend (set_gpr REG_RAX (if size_eqb opsize Qword then u64 (-1) else u32 (-1)) s)
    else set_gpr REG_RDX 0 (set_gpr REG_RAX dividend s)).

(** [handle_fpe]: decode, give the results, advance to the next instruction. *)
Definition handle_fpe (c : Ucontext) : option Ucontext :=
  let? (op, next_ip) := fault_op c in
  let? s := replay_division op (machine c) in
  Some (MkUcontext s next_ip).

Section Segv.
Context {IO : Type}.

(** [crate::emu::io_read] and [io_write] *)
Variable io_read : Z -> Z -> IO -> Z * IO.
Variable io_write : Z -> Z -> Z -> IO -> IO.

(** What [handle_segv] does for the decoded instruction. *)
Definition replay_access (op : Op) (s : St) (io : IO) : option (St * IO) :=
  match op with
  | Mov (Reg reg) (OpMem mem) | Movzx reg (Mem mem) =>
      let (data, io) := io_read (eval_memory_location s mem) (size_bytes (mem_size mem)) io in
      let? s := write_location s (Reg reg) data in Some (s, io)
  | Mov (Mem mem) (OpReg reg) =>
      let address := eval_memory_location s mem in
      let? data := read_location s (Reg reg) in
      Some (s, io_write address data (size_bytes (mem_size mem)) io)
  | Movsx reg (Mem mem) =>
      let (data, io) := io_read (eval_memory_location s mem) (size_bytes (mem_size mem)) io in
      let? data := (match mem_size mem with
        | Qword => None
        | Dword => Some (u64 (i32 data))
        | Word => Some (u64 (i16 data))
        | Byte => Some (u64 (i8 data))
        end) in
      let? s := write_location s (Reg reg) data in Some (s, io)
  | _ => None
  end.

(** [handle_segv]: decode, replay, advance to the next instruction. *)
Definition handle_segv (c : Ucontext) (io : IO) : option (Ucontext * IO) :=
  let? (op, next_ip) := fault_op c in
  let? (s, io) := replay_access op (machine c) io in
  Some (MkUcontext s next_ip, io).

End Segv.
End Signal.
