(* ===== verification/Dbt.v ===== *)
(** The code generator of src/emu/dbt.rs for integer computation: the helpers that move
    registers of the guest, and one definition per [emit_*] of the groups OP-IMM,
    OP-IMM-32, OP, OP-32, M, LUI and AUIPC.  What is emitted is a list of operations;
    [None] is a panic, among them that of the encoder on an operation it cannot encode. *)

From Stdlib Require Import ZArith Lia Bool List.
From S2P Require Import Prelude RiscvOp X86Op X86Encode.
Import ListNotations.
Local Open Scope Z_scope.
Local Open Scope rust_scope.
Import X86.

Module Dbt.
Declare Scope dbt_scope.

(** The encoder the translator calls: whether it accepts an operation or panics.  The one
    there is is [x86::encode]. *)
Class Encoder : Type := accepts : X86.Op -> bool.
#[global] Instance x86_encode : Encoder := fun op => match Encode.encode op with Some _ => true | None => false end.

(** Emitted code, and emitting one piece after another. *)
Definition Code : Type := option (list X86.Op).

Section Emit.
Context {E : Encoder}.

Definition emit (op : X86.Op) : Code := if accepts op then Some [op] else None.
Definition skip : Code := Some [].
Definition seq (a b : Code) : Code := let? x := a in let? y := b in Some (x ++ y).
Local Open Scope dbt_scope.
Local Notation "a ;; b" := (seq a b) (at level 100, b at level 200, right associativity) : dbt_scope.

(** [loc_of_register]: the registers are at the start of [Context], which [RBP] points to. *)
Definition register_memory (reg : Z) : Memory := reg_add RBP (reg * 8).
Definition loc_of_register (reg : Z) : Location := Mem (register_memory reg).
Definition loc_sized (reg : Z) (size : Size) : Location := Mem (mem_resize (register_memory reg) size).

(** [offset_of!(Context, pc)] *)
Definition OFFSET_PC : Z := 256.
Definition memory_of_pc : Memory := reg_add RBP OFFSET_PC.

(** ** Helpers *)

Definition emit_load_imm (rd imm : Z) : Code :=
  if rd =? 0 then skip else emit (Mov (loc_of_register rd) (Imm imm)).

(** [load_reg] *)
Definition load_reg (reg : Register) (rs : Z) : Code :=
  if rs =? 0 then
    let? reg := reg_resize reg Dword in emit (Xor (Reg reg) (OpReg reg))
  else
    let? size := reg_size reg in
    emit (Mov (Reg reg) (operand_of (loc_sized rs size))).

(** [reg == Register::EAX] *)
Definition is_eax (reg : Register) : bool := reg_num reg =? reg_num EAX.

Definition store_reg (rd : Z) (reg : Register) : Code :=
  if rd =? 0 then skip
  else
    let? qreg := reg_resize reg Qword in
    let? size := reg_size reg in
    (match size with
     | Qword => skip
     | Dword => if is_eax reg then emit Cdqe else emit (Movsx qreg (Reg reg))
     | _ => None
     end) ;;
    emit (Mov (loc_of_register rd) (OpReg qreg)).

Definition emit_move (rd rs : Z) : Code :=
  if (rd =? 0) || (rd =? rs) then skip
  else if rs =? 0 then emit_load_imm rd 0
  else
    emit (Mov (Reg RAX) (operand_of (loc_of_register rs))) ;;
    emit (Mov (loc_of_register rd) (OpReg RAX)).

Definition emit_move32 (rd rs : Z) : Code :=
  if rd =? 0 then skip
  else if rs =? 0 then emit_load_imm rd 0
  else
    emit (Movsx RAX (loc_sized rs Dword)) ;;
    emit (Mov (loc_of_register rd) (OpReg RAX)).

(** ** Operations *)

Definition emit_addi (rd rs1 imm : Z) : Code :=
  if rd =? 0 then skip
  else if rs1 =? 0 then emit_load_imm rd imm
  else if imm =? 0 then emit_move rd rs1
  else if rd =? rs1 then emit (Add (loc_of_register rd) (Imm imm))
  else
    emit (Mov (Reg RAX) (operand_of (loc_of_register rs1))) ;;
    emit (Add (Reg RAX) (Imm imm)) ;;
    emit (Mov (loc_of_register rd) (OpReg RAX)).

Definition emit_slli (rd rs1 imm : Z) : Code :=
  if rd =? 0 then skip
  else if rs1 =? 0 then emit_load_imm rd 0
  else if imm =? 0 then emit_move rd rs1
  else if rd =? rs1 then emit (Shl (loc_of_register rd) (Imm imm))
  else
    emit (Mov (Reg RAX) (operand_of (loc_of_register rs1))) ;;
    (if imm =? 1 then emit (Add (Reg RAX) (OpReg RAX)) else emit (Shl (Reg RAX) (Imm imm))) ;;
    emit (Mov (loc_of_register rd) (OpReg RAX)).

Definition emit_slti (rd rs1 imm : Z) : Code :=
  if rd =? 0 then skip
  else
    (if rs1 =? 0 then emit_load_imm rd (Z.b2z (0 <? imm)) else skip) ;;
    (if imm =? 0 then
       if rd =? rs1 then emit (Shr (loc_of_register rd) (Imm 63))
       else load_reg RAX rs1 ;; emit (Shr (Reg RAX) (Imm 63)) ;; store_reg rd RAX
     else
       let (imm, cc) := if 0 <? imm then (imm - 1, LessEqual) else (imm, Less) in
       emit (Xor (Reg EAX) (OpReg EAX)) ;;
       emit (Cmp (loc_of_register rs1) (Imm imm)) ;;
       emit (Setcc (Reg AL) cc) ;;
       store_reg rd RAX).

Definition emit_sltiu (rd rs1 imm : Z) : Code :=
  if rd =? 0 then skip
  else
    (if rs1 =? 0 then emit_load_imm rd (Z.b2z (imm <>? 0)) else skip) ;;
    (if imm =? 0 then emit_load_imm rd 0 else skip) ;;
    let (imm, cc) :=
      if 0 <? imm then (imm - 1, if imm - 1 =? 0 then Equal else BelowEqual)
      else (imm, if imm =? -1 then NotEqual else Below) in
    emit (Xor (Reg EAX) (OpReg EAX)) ;;
    emit (Cmp (loc_of_register rs1) (Imm imm)) ;;
    emit (Setcc (Reg AL) cc) ;;
    store_reg rd RAX.

Definition emit_xori (rd rs1 imm : Z) : Code :=
  if rd =? 0 then skip
  else if rs1 =? 0 then emit_load_imm rd imm
  else if imm =? 0 then emit_move rd rs1
  else if imm =? -1 then
    if rd =? rs1 then emit (Not (loc_of_register rd))
    else load_reg RAX rs1 ;; emit (Not (Reg RAX)) ;; store_reg rd RAX
  else
    if rd =? rs1 then emit (Xor (loc_of_register rd) (Imm imm))
    else load_reg RAX rs1 ;; emit (Xor (Reg RAX) (Imm imm)) ;; store_reg rd RAX.

Definition emit_srli (rd rs1 imm : Z) : Code :=
  if rd =? 0 then skip
  else if rs1 =? 0 then emit_load_imm rd 0
  else if imm =? 0 then emit_move rd rs1
  else if rd =? rs1 then emit (Shr (loc_of_register rd) (Imm imm))
  else
    emit (Mov (Reg RAX) (operand_of (loc_of_register rs1))) ;;
    emit (Shr (Reg RAX) (Imm imm)) ;;
    emit (Mov (loc_of_register rd) (OpReg RAX)).

Definition emit_srai (rd rs1 imm : Z) : Code :=
  if rd =? 0 then skip
  else if rs1 =? 0 then emit_load_imm rd 0
  else if imm =? 0 then emit_move rd rs1
  else if rd =? rs1 then emit (Sar (loc_of_register rd) (Imm imm))
  else
    emit (Mov (Reg RAX) (operand_of (loc_of_register rs1))) ;;
    emit (Sar (Reg RAX) (Imm imm)) ;;
    emit (Mov (loc_of_register rd) (OpReg RAX)).

Definition emit_ori (rd rs1 imm : Z) : Code :=
  if rd =? 0 then skip
  else if rs1 =? 0 then emit_load_imm rd imm
  else if imm =? 0 then emit_move rd rs1
  else if imm =? -1 then emit_load_imm rd (-1)
  else if rd =? rs1 then emit (Or (loc_of_register rd) (Imm imm))
  else load_reg RAX rs1 ;; emit (Or (Reg RAX) (Imm imm)) ;; store_reg rd RAX.

Definition emit_andi (rd rs1 imm : Z) : Code :=
  if rd =? 0 then skip
  else if rs1 =? 0 then emit_load_imm rd 0
  else if imm =? 0 then emit_load_imm rd 0
  else if imm =? -1 then emit_move rd rs1
  else if rd =? rs1 then emit (And (loc_of_register rd) (Imm imm))
  else load_reg RAX rs1 ;; emit (And (Reg RAX) (Imm imm)) ;; store_reg rd RAX.

Definition emit_addiw (rd rs1 imm : Z) : Code :=
  if rd =? 0 then skip
  else if rs1 =? 0 then emit_load_imm rd imm
  else if imm =? 0 then emit_move32 rd rs1
  else load_reg EAX rs1 ;; emit (Add (Reg EAX) (Imm imm)) ;; store_reg rd EAX.

Definition emit_slliw (rd rs1 imm : Z) : Code :=
  if rd =? 0 then skip
  else if rs1 =? 0 then emit_load_imm rd 0
  else if imm =? 0 then emit_move32 rd rs1
  else
    load_reg EAX rs1 ;;
    (if imm =? 1 then emit (Add (Reg EAX) (OpReg EAX)) else emit (Shl (Reg EAX) (Imm imm))) ;;
    store_reg rd EAX.

Definition emit_srliw (rd rs1 imm : Z) : Code :=
  if rd =? 0 then skip
  else if rs1 =? 0 then emit_load_imm rd 0
  else if imm =? 0 then emit_move32 rd rs1
  else load_reg EAX rs1 ;; emit (Shr (Reg EAX) (Imm imm)) ;; store_reg rd EAX.

Definition emit_sraiw (rd rs1 imm : Z) : Code :=
  if rd =? 0 then skip
  else if rs1 =? 0 then emit_load_imm rd 0
  else if imm =? 0 then emit_move32 rd rs1
  else load_reg EAX rs1 ;; emit (Sar (Reg EAX) (Imm imm)) ;; store_reg rd EAX.

Definition emit_add (rd rs1 rs2 : Z) : Code :=
  if rd =? 0 then skip
  else if rs1 =? 0 then emit_move rd rs2
  else if rs2 =? 0 then emit_move rd rs1
  else if (rd =? rs1) && (rd =? rs2) then emit (Shl (loc_of_register rd) (Imm 1))
  else if rd =? rs1 then load_reg RAX rs2 ;; emit (Add (loc_of_register rd) (OpReg RAX))
  else if rd =? rs2 then load_reg RAX rs1 ;; emit (Add (loc_of_register rd) (OpReg RAX))
  else if rs1 =? rs2 then load_reg RAX rs1 ;; emit (Add (Reg RAX) (OpReg RAX)) ;; store_reg rd RAX
  else load_reg RAX rs1 ;; emit (Add (Reg RAX) (operand_of (loc_of_register rs2))) ;; store_reg rd RAX.

Definition emit_sub (rd rs1 rs2 : Z) : Code :=
  if rd =? 0 then skip
  else if rs2 =? 0 then emit_move rd rs1
  else if rs1 =? rs2 then emit_load_imm rd 0
  else if rd =? rs1 then load_reg RAX rs2 ;; emit (Sub (loc_of_register rd) (OpReg RAX))
  else if (rd =? rs2) && (rs1 =? 0) then emit (Neg (loc_of_register rd))
  else if rs1 =? 0 then load_reg RAX rs2 ;; emit (Neg (Reg RAX)) ;; store_reg rd RAX
  else load_reg RAX rs1 ;; emit (Sub (Reg RAX) (operand_of (loc_of_register rs2))) ;; store_reg rd RAX.

Definition emit_sll (rd rs1 rs2 : Z) : Code :=
  if rd =? 0 then skip
  else if rs1 =? 0 then emit_load_imm rd 0
  else if rs2 =? 0 then emit_move rd rs1
  else if rd =? rs1 then
    emit (Mov (Reg CL) (operand_of (loc_sized rs2 Byte))) ;;
    emit (Shl (loc_of_register rd) (OpReg CL))
  else
    load_reg RAX rs1 ;;
    emit (Mov (Reg CL) (operand_of (loc_sized rs2 Byte))) ;;
    emit (Shl (Reg RAX) (OpReg CL)) ;;
    store_reg rd RAX.

Definition emit_srl (rd rs1 rs2 : Z) : Code :=
  if rd =? 0 then skip
  else if rs1 =? 0 then emit_load_imm rd 0
  else if rs2 =? 0 then emit_move rd rs1
  else if rd =? rs1 then
    emit (Mov (Reg CL) (operand_of (loc_sized rs2 Byte))) ;;
    emit (Shr (loc_of_register rd) (OpReg CL))
  else
    load_reg RAX rs1 ;;
    emit (Mov (Reg CL) (operand_of (loc_sized rs2 Byte))) ;;
    emit (Shr (Reg RAX) (OpReg CL)) ;;
    store_reg rd RAX.

Definition emit_sra (rd rs1 rs2 : Z) : Code :=
  if rd =? 0 then skip
  else if rs1 =? 0 then emit_load_imm rd 0
  else if rs2 =? 0 then emit_move rd rs1
  else if rd =? rs1 then
    emit (Mov (Reg CL) (operand_of (loc_sized rs2 Byte))) ;;
    emit (Sar (loc_of_register rd) (OpReg CL))
  else
    load_reg RAX rs1 ;;
    emit (Mov (Reg CL) (operand_of (loc_sized rs2 Byte))) ;;
    emit (Sar (Reg RAX) (OpReg CL)) ;;
    store_reg rd RAX.

Definition emit_slt (rd rs1 rs2 : Z) : Code :=
  if rd =? 0 then skip
  else if rs1 =? rs2 then emit_load_imm rd 0
  else if rs1 =? 0 then
    emit (Xor (Reg EAX) (OpReg EAX)) ;;
    emit (Cmp (loc_of_register rs2) (Imm 0)) ;;
    emit (Setcc (Reg AL) Greater) ;;
    store_reg rd RAX
  else if rs2 =? 0 then
    if rd =? rs1 then emit (Shr (loc_of_register rd) (Imm 63))
    else load_reg RAX rs1 ;; emit (Shr (Reg RAX) (Imm 63)) ;; store_reg rd RAX
  else
    load_reg RAX rs1 ;;
    emit (Cmp (Reg RAX) (operand_of (loc_of_register rs2))) ;;
    emit (Setcc (Reg AL) Less) ;;
    emit (Movzx EAX (Reg AL)) ;;
    store_reg rd RAX.

Definition emit_sltu (rd rs1 rs2 : Z) : Code :=
  if rd =? 0 then skip
  else if (rs2 =? 0) || (rs1 =? rs2) then emit_load_imm rd 0
  else if rs1 =? 0 then
    emit (Xor (Reg EAX) (OpReg EAX)) ;;
    emit (Cmp (loc_of_register rs2) (Imm 0)) ;;
    emit (Setcc (Reg AL) NotEqual) ;;
    store_reg rd RAX
  else
    load_reg RAX rs1 ;;
    emit (Cmp (Reg RAX) (operand_of (loc_of_register rs2))) ;;
    emit (Setcc (Reg AL) Below) ;;
    emit (Movzx EAX (Reg AL)) ;;
    store_reg rd RAX.

Definition emit_xor (rd rs1 rs2 : Z) : Code :=
  if rd =? 0 then skip
  else if rs1 =? 0 then emit_move rd rs2
  else if rs2 =? 0 then emit_move rd rs1
  else if rs1 =? rs2 then emit_load_imm rd 0
  else if rd =? rs1 then load_reg RAX rs2 ;; emit (Xor (loc_of_register rd) (OpReg RAX))
  else if rd =? rs2 then load_reg RAX rs1 ;; emit (Xor (loc_of_register rd) (OpReg RAX))
  else load_reg RAX rs1 ;; emit (Xor (Reg RAX) (operand_of (loc_of_register rs2))) ;; store_reg rd RAX.

Definition emit_or (rd rs1 rs2 : Z) : Code :=
  if rd =? 0 then skip
  else if rs1 =? 0 then emit_move rd rs2
  else if rs2 =? 0 then emit_move rd rs1
  else if rs1 =? rs2 then emit_move rd rs1
  else if rd =? rs1 then load_reg RAX rs2 ;; emit (Or (loc_of_register rd) (OpReg RAX))
  else if rd =? rs2 then load_reg RAX rs1 ;; emit (Or (loc_of_register rd) (OpReg RAX))
  else load_reg RAX rs1 ;; emit (Or (Reg RAX) (operand_of (loc_of_register rs2))) ;; store_reg rd RAX.

Definition emit_and (rd rs1 rs2 : Z) : Code :=
  if rd =? 0 then skip
  else if (rs1 =? 0) || (rs2 =? 0) then emit_load_imm rd 0
  else if rs1 =? rs2 then emit_move rd rs1
  else if rd =? rs1 then load_reg RAX rs2 ;; emit (And (loc_of_register rd) (OpReg RAX))
  else if rd =? rs2 then load_reg RAX rs1 ;; emit (And (loc_of_register rd) (OpReg RAX))
  else load_reg RAX rs1 ;; emit (And (Reg RAX) (operand_of (loc_of_register rs2))) ;; store_reg rd RAX.

Definition emit_addw (rd rs1 rs2 : Z) : Code :=
  if rd =? 0 then skip
  else if rs1 =? 0 then emit_move32 rd rs2
  else if rs2 =? 0 then emit_move32 rd rs1
  else
    load_reg EAX rs1 ;;
    (if rs1 =? rs2 then emit (Add (Reg EAX) (OpReg EAX))
     else emit (Add (Reg EAX) (operand_of (loc_sized rs2 Dword)))) ;;
    store_reg rd EAX.

Definition emit_subw (rd rs1 rs2 : Z) : Code :=
  if rd =? 0 then skip
  else if rs2 =? 0 then emit_move32 rd rs1
  else if rs1 =? rs2 then emit_load_imm rd 0
  else
    (if rs1 =? 0 then load_reg EAX rs2 ;; emit (Neg (Reg EAX))
     else load_reg EAX rs1 ;; emit (Sub (Reg EAX) (operand_of (loc_sized rs2 Dword)))) ;;
    store_reg rd EAX.

Definition emit_sllw (rd rs1 rs2 : Z) : Code :=
  if rd =? 0 then skip
  else if rs1 =? 0 then emit_load_imm rd 0
  else if rs2 =? 0 then emit_move32 rd rs1
  else
    load_reg EAX rs1 ;;
    emit (Mov (Reg CL) (operand_of (loc_sized rs2 Byte))) ;;
    emit (Shl (Reg EAX) (OpReg CL)) ;;
    store_reg rd EAX.

Definition emit_srlw (rd rs1 rs2 : Z) : Code :=
  if rd =? 0 then skip
  else if rs1 =? 0 then emit_load_imm rd 0
  else if rs2 =? 0 then emit_move32 rd rs1
  else
    load_reg EAX rs1 ;;
    emit (Mov (Reg CL) (operand_of (loc_sized rs2 Byte))) ;;
    emit (Shr (Reg EAX) (OpReg CL)) ;;
    store_reg rd EAX.

Definition emit_sraw (rd rs1 rs2 : Z) : Code :=
  if rd =? 0 then skip
  else if rs1 =? 0 then emit_load_imm rd 0
  else if rs2 =? 0 then emit_move32 rd rs1
  else
    load_reg EAX rs1 ;;
    emit (Mov (Reg CL) (operand_of (loc_sized rs2 Byte))) ;;
    emit (Sar (Reg EAX) (OpReg CL)) ;;
    store_reg rd EAX.

Definition emit_mul (rd rs1 rs2 : Z) : Code :=
  if rd =? 0 then skip
  else if (rs1 =? 0) || (rs2 =? 0) then emit_load_imm rd 0
  else
    load_reg RAX rs1 ;;
    (if rs1 =? rs2 then emit (Imul2 RAX (Reg RAX)) else emit (Imul2 RAX (loc_of_register rs2))) ;;
    store_reg rd RAX.

Definition emit_mulh (rd rs1 rs2 : Z) (unsigned : bool) : Code :=
  if rd =? 0 then skip
  else if (rs1 =? 0) || (rs2 =? 0) then emit_load_imm rd 0
  else
    load_reg RAX rs1 ;;
    let loc := if rs1 =? rs2 then Reg RAX else loc_of_register rs2 in
    (if unsigned then emit (Mul loc) else emit (Imul1 loc)) ;;
    emit (Mov (loc_of_register rd) (OpReg RDX)).

Definition emit_mulhsu (rd rs1 rs2 : Z) : Code :=
  if rd =? 0 then skip
  else if (rs1 =? 0) || (rs2 =? 0) then emit_load_imm rd 0
  else
    emit (Mov (Reg RCX) (operand_of (loc_of_register rs1))) ;;
    emit (Mov (Reg RSI) (operand_of (loc_of_register rs2))) ;;
    emit (Mov (Reg RAX) (OpReg RCX)) ;;
    emit (Mul (Reg RSI)) ;;
    emit (Sar (Reg RCX) (Imm 63)) ;;
    emit (And (Reg RCX) (OpReg RSI)) ;;
    emit (Sub (Reg RDX) (OpReg RCX)) ;;
    emit (Mov (loc_of_register rd) (OpReg RDX)).

Definition emit_mulw (rd rs1 rs2 : Z) : Code :=
  if rd =? 0 then skip
  else if (rs1 =? 0) || (rs2 =? 0) then emit_load_imm rd 0
  else
    load_reg EAX rs1 ;;
    (if rs1 =? rs2 then emit (Imul2 EAX (Reg EAX)) else emit (Imul2 EAX (loc_sized rs2 Dword))) ;;
    store_reg rd EAX.

Definition emit_div (rd rs1 rs2 : Z) (unsigned rem : bool) : Code :=
  if rd =? 0 then skip
  else if rs2 =? 0 then if rem then emit_move rd rs1 else emit_load_imm rd (-1)
  else
    load_reg RAX rs1 ;;
    (if unsigned then emit (Xor (Reg EDX) (OpReg EDX)) ;; emit (Div (loc_of_register rs2))
     else emit Cqo ;; emit (Idiv (loc_of_register rs2))) ;;
    (if rem then emit (Mov (loc_of_register rd) (OpReg RDX)) else store_reg rd RAX).

Definition emit_divw (rd rs1 rs2 : Z) (unsigned rem : bool) : Code :=
  if rd =? 0 then skip
  else if rs2 =? 0 then if rem then emit_move32 rd rs1 else emit_load_imm rd (-1)
  else
    load_reg EAX rs1 ;;
    (if unsigned then emit (Xor (Reg EDX) (OpReg EDX)) ;; emit (Div (loc_sized rs2 Dword))
     else emit Cdq ;; emit (Idiv (loc_sized rs2 Dword))) ;;
    (if rem then emit (Movsx RAX (Reg EDX)) ;; store_reg rd RAX else store_reg rd EAX).

Definition emit_auipc (pc_cur rd imm : Z) : Code :=
  let imm := imm + pc_cur in
  emit (Mov (Reg RAX) (OpMem memory_of_pc)) ;;
  emit (Add (Reg RAX) (Imm imm)) ;;
  store_reg rd RAX.

(** ** [emit_op] for integer computation

    [pc_cur] is the offset of the instruction from the program counter in [Context];
    [None] is an operation of another group. *)
Definition emit_op (pc_cur : Z) (op : Op.Op) : option Code :=
  match op with
  | Op.Addi rd rs1 imm => Some (emit_addi rd rs1 imm)
  | Op.Slli rd rs1 imm => Some (emit_slli rd rs1 imm)
  | Op.Slti rd rs1 imm => Some (emit_slti rd rs1 imm)
  | Op.Sltiu rd rs1 imm => Some (emit_sltiu rd rs1 imm)
  | Op.Xori rd rs1 imm => Some (emit_xori rd rs1 imm)
  | Op.Srli rd rs1 imm => Some (emit_srli rd rs1 imm)
  | Op.Srai rd rs1 imm => Some (emit_srai rd rs1 imm)
  | Op.Ori rd rs1 imm => Some (emit_ori rd rs1 imm)
  | Op.Andi rd rs1 imm => Some (emit_andi rd rs1 imm)
  | Op.Addiw rd rs1 imm => Some (emit_addiw rd rs1 imm)
  | Op.Slliw rd rs1 imm => Some (emit_slliw rd rs1 imm)
  | Op.Srliw rd rs1 imm => Some (emit_srliw rd rs1 imm)
  | Op.Sraiw rd rs1 imm => Some (emit_sraiw rd rs1 imm)
  | Op.Fence => Some (emit Mfence)
  | Op.Add rd rs1 rs2 => Some (emit_add rd rs1 rs2)
  | Op.Sub rd rs1 rs2 => Some (emit_sub rd rs1 rs2)
  | Op.Sll rd rs1 rs2 => Some (emit_sll rd rs1 rs2)
  | Op.Slt rd rs1 rs2 => Some (emit_slt rd rs1 rs2)
  | Op.Sltu rd rs1 rs2 => Some (emit_sltu rd rs1 rs2)
  | Op.Xor rd rs1 rs2 => Some (emit_xor rd rs1 rs2)
  | Op.Srl rd rs1 rs2 => Some (emit_srl rd rs1 rs2)
  | Op.Sra rd rs1 rs2 => Some (emit_sra rd rs1 rs2)
  | Op.Or rd rs1 rs2 => Some (emit_or rd rs1 rs2)
  | Op.And rd rs1 rs2 => Some (emit_and rd rs1 rs2)
  | Op.Addw rd rs1 rs2 => Some (emit_addw rd rs1 rs2)
  | Op.Subw rd rs1 rs2 => Some (emit_subw rd rs1 rs2)
  | Op.Sllw rd rs1 rs2 => Some (emit_sllw rd rs1 rs2)
  | Op.Srlw rd rs1 rs2 => Some (emit_srlw rd rs1 rs2)
  | Op.Sraw rd rs1 rs2 => Some (emit_sraw rd rs1 rs2)
  | Op.Mul rd rs1 rs2 => Some (emit_mul rd rs1 rs2)
  | Op.Lui rd imm => Some (emit_load_imm rd imm)
  | Op.Auipc rd imm => Some (emit_auipc pc_cur rd imm)
  | Op.Mulh rd rs1 rs2 => Some (emit_mulh rd rs1 rs2 false)
  | Op.Mulhsu rd rs1 rs2 => Some (emit_mulhsu rd rs1 rs2)
  | Op.Mulhu rd rs1 rs2 => Some (emit_mulh rd rs1 rs2 true)
  | Op.Div rd rs1 rs2 => Some (emit_div rd rs1 rs2 false false)
  | Op.Divu rd rs1 rs2 => Some (emit_div rd rs1 rs2 true false)
  | Op.Rem rd rs1 rs2 => Some (emit_div rd rs1 rs2 false true)
  | Op.Remu rd rs1 rs2 => Some (emit_div rd rs1 rs2 true true)
  | Op.Mulw rd rs1 rs2 => Some (emit_mulw rd rs1 rs2)
  | Op.Divw rd rs1 rs2 => Some (emit_divw rd rs1 rs2 false false)
  | Op.Divuw rd rs1 rs2 => Some (emit_divw rd rs1 rs2 true false)
  | Op.Remw rd rs1 rs2 => Some (emit_divw rd rs1 rs2 false true)
  | Op.Remuw rd rs1 rs2 => Some (emit_divw rd rs1 rs2 true true)
  | _ => None
  end.

End Emit.

Notation "a ;; b" := (seq a b) (at level 100, b at level 200, right associativity) : dbt_scope.

End Dbt.
