(* ===== verification/DbtLogic.v ===== *)
(** A program logic for emitted code: running a list of operations, with division faults
    sent to the handler, and the correspondence between the memory of the translated code
    and the registers of the guest. *)

From Stdlib Require Import ZArith Lia Bool List.
From stdpp Require Import base list.
From S2P Require Import Prelude RiscvOp X86Op Hart X86Sem Signal Dbt.
Import ListNotations.
Local Open Scope Z_scope.
Local Open Scope rust_scope.
Import X86 X86Sem Signal Dbt.

(** ** The encoder

    What code does is shown for an encoder that accepts everything.  Code for another encoder
    is the same, or a panic if that encoder does not accept an operation of it. *)
Definition any_encoder : Encoder := fun _ => true.
#[local] Existing Instance any_encoder.

Definition checked (E : Encoder) (c : Code) : Code :=
  match c with Some l => if forallb accepts l then Some l else None | None => None end.

Lemma checked_emit (E : Encoder) op : checked E (emit (E := any_encoder) op) = emit (E := E) op.
Proof. cbn [checked emit accepts any_encoder forallb]. unfold emit. destruct (accepts op); reflexivity. Qed.

Lemma checked_seq (E : Encoder) a b : checked E (Dbt.seq a b) = Dbt.seq (checked E a) (checked E b).
Proof.
  destruct a as [x|]; [|reflexivity]. destruct b as [y|]; cbn [checked Dbt.seq]; [rewrite forallb_app|];
    destruct (forallb accepts x); cbn [andb]; try reflexivity. destruct (forallb accepts y); reflexivity.
Qed.

(** ** Running code *)

Fixpoint run (l : list X86.Op) (s : St) : option St :=
  match l with
  | [] => Some s
  | op :: l =>
      match exec op s with
      | Next s => run l s
      | DivideError => let? s := replay_division op s in run l s
      | Stuck => None
      end
  end.

Lemma run_app l1 : forall l2 s, run (l1 ++ l2) s = let? s := run l1 s in run l2 s.
Proof.
  induction l1 as [|op l1 IH]; intros l2 s; cbn [app run]; [reflexivity|].
  destruct (exec op s) as [s1| |]; [apply IH| |reflexivity].
  destruct (replay_division op s); [apply IH|reflexivity].
Qed.

(** The code runs to its end, in a state that satisfies [Q]. *)
Definition wp (c : Code) (s : St) (Q : St -> Prop) : Prop :=
  match c with Some l => exists s', run l s = Some s' /\ Q s' | None => False end.

Lemma wp_skip s (Q : St -> Prop) : Q s -> wp skip s Q.
Proof. intros H. exists s. split; [reflexivity|exact H]. Qed.

Lemma wp_seq a b s Q : wp a s (fun s' => wp b s' Q) -> wp (Dbt.seq a b) s Q.
Proof.
  destruct a as [x|], b as [y|]; cbn [wp Dbt.seq]; try tauto.
  - intros (s1 & H1 & s2 & H2 & HQ). exists s2. split; [|exact HQ]. rewrite run_app, H1. exact H2.
  - intros (s1 & _ & []).
Qed.

Lemma wp_next op s s' (Q : St -> Prop) : exec op s = Next s' -> Q s' -> wp (emit op) s Q.
Proof. intros H HQ. exists s'. split; [cbn [run]; rewrite H; reflexivity|exact HQ]. Qed.

Lemma wp_fault op s s' (Q : St -> Prop) :
  exec op s = DivideError -> replay_division op s = Some s' -> Q s' -> wp (emit op) s Q.
Proof. intros H H' HQ. exists s'. split; [cbn [run]; rewrite H, H'; reflexivity|exact HQ]. Qed.

Lemma wp_mono c s (Q Q' : St -> Prop) : wp c s Q -> (forall s', Q s' -> Q' s') -> wp c s Q'.
Proof. destruct c as [l|]; cbn [wp]; [|tauto]. intros (s' & H & HQ) HH. exists s'. auto. Qed.

(** ** Bytes in memory *)

Lemma load_bytes_ext n : forall m m' a,
  (forall x, a <= x < a + Z.of_nat n -> m x = m' x) -> load_bytes m a n = load_bytes m' a n.
Proof.
  induction n as [|n IH]; intros m m' a H; cbn [load_bytes]; [reflexivity|].
  rewrite H by lia. f_equal. f_equal. apply IH. intros x Hx. apply H. lia.
Qed.

Lemma store_bytes_out n : forall m a v x, x < a \/ a + Z.of_nat n <= x -> store_bytes a v n m x = m x.
Proof.
  induction n as [|n IH]; intros m a v x Hx; cbn [store_bytes]; [reflexivity|].
  rewrite IH by lia. unfold store_byte. destruct (Z.eqb_spec x a); [lia|reflexivity].
Qed.

Lemma store_bytes_range n : forall m a v, (forall x, 0 <= m x < 256) -> forall x, 0 <= store_bytes a v n m x < 256.
Proof.
  induction n as [|n IH]; intros m a v H x; cbn [store_bytes]; [apply H|]. apply IH. intros y.
  unfold store_byte. destruct (y =? a); [apply Z.mod_pos_bound; lia|apply H].
Qed.

Lemma load_store_same n : forall m a v, 0 <= v < 256 ^ Z.of_nat n -> load_bytes (store_bytes a v n m) a n = v.
Proof.
  induction n as [|n IH]; intros m a v Hv; cbn [store_bytes load_bytes]; [cbn in Hv; lia|].
  rewrite store_bytes_out by lia. unfold store_byte at 1. rewrite Z.eqb_refl.
  rewrite Nat2Z.inj_succ, Z.pow_succ_r in Hv by lia.
  rewrite IH; [pose proof (Z.div_mod v 256); lia|].
  split; [apply Z.div_pos; lia|apply Z.div_lt_upper_bound; lia].
Qed.

Lemma load_store_other n k m a b v : b + Z.of_nat k <= a \/ a + Z.of_nat n <= b ->
  load_bytes (store_bytes a v n m) b k = load_bytes m b k.
Proof. intros H. apply load_bytes_ext. intros x Hx. apply store_bytes_out. lia. Qed.

Lemma x86_load_bytes_range n : forall m a, (forall x, 0 <= m x < 256) -> 0 <= load_bytes m a n < 256 ^ Z.of_nat n.
Proof.
  induction n as [|n IH]; intros m a H; cbn [load_bytes]; [cbn; lia|].
  rewrite Nat2Z.inj_succ, Z.pow_succ_r by lia. pose proof (IH m (a + 1) H). pose proof (H a). lia.
Qed.

(** The low bytes of a word. *)
Lemma load_bytes_low n k : forall m a, (forall x, 0 <= m x < 256) -> (n <= k)%nat ->
  load_bytes m a n = load_bytes m a k mod 256 ^ Z.of_nat n.
Proof.
  revert k. induction n as [|n IH]; intros k m a H Hk; cbn [load_bytes]; [rewrite Z.mod_1_r; reflexivity|].
  destruct k as [|k]; [lia|]. cbn [load_bytes]. rewrite (IH k) by (auto; lia).
  rewrite Nat2Z.inj_succ, Z.pow_succ_r by lia. rewrite Z.rem_mul_r by (try apply Z.pow_nonzero; lia).
  pose proof (H a). set (x := load_bytes m (a + 1) k).
  assert ((m a + 256 * x) mod 256 = m a) as -> by (rewrite Z.mul_comm, Z.mod_add, Z.mod_small; lia).
  assert ((m a + 256 * x) / 256 = x) as -> by (rewrite Z.mul_comm, Z.div_add, Z.div_small; lia).
  reflexivity.
Qed.

(** ** The guest's registers *)

Section Guest.

(** Where [Context] is. *)
Variable rbp : Z.
Hypothesis Hrbp : 0 <= rbp /\ rbp + 65536 <= 2 ^ 64.

Definition reg (regs : list Z) (r : Z) : Z := nth (Z.to_nat r) regs 0.

Definition wf_regs (regs : list Z) : Prop :=
  length regs = 32%nat /\ Forall (in_u 64) regs /\ reg regs 0 = 0.

Lemma reg_insert regs r k v : length regs = 32%nat -> 0 <= r < 32 -> 0 <= k < 32 ->
  reg (<[Z.to_nat r := v]> regs) k = if k =? r then v else reg regs k.
Proof.
  intros Hl Hr Hk. unfold reg. rewrite !nth_lookup. destruct (Z.eqb_spec k r) as [->|N].
  - rewrite list_lookup_insert_eq by lia. reflexivity.
  - rewrite list_lookup_insert_ne by lia. reflexivity.
Qed.

Lemma reg_range regs r : wf_regs regs -> in_u 64 (reg regs r).
Proof.
  intros (Hl & Hf & _). unfold reg. rewrite nth_lookup. destruct (regs !! Z.to_nat r) eqn:E; cbn.
  - rewrite Forall_lookup in Hf. eauto.
  - unfold in_u. lia.
Qed.

Lemma wf_regs_insert regs r v : wf_regs regs -> 0 < r < 32 -> in_u 64 v -> wf_regs (<[Z.to_nat r := v]> regs).
Proof.
  intros (Hl & Hf & H0) Hr Hv. split; [rewrite length_insert; exact Hl|]. split.
  - apply Forall_insert; assumption.
  - rewrite reg_insert by lia. destruct (Z.eqb_spec 0 r); [lia|exact H0].
Qed.

(** What is known of a state: the registers and the program counter of the guest, the
    scratch registers [RAX], [RCX], [RDX] and [RSI], and the flags. *)
Record View : Type := MkView {
  vregs : list Z; vpc : Z; va : Z; vc : Z; vd : Z; vsi : Z; vflags : option Flags }.

Definition set_regs (regs : list Z) (V : View) : View := MkView regs (vpc V) (va V) (vc V) (vd V) (vsi V) (vflags V).
Definition set_vpc (x : Z) (V : View) : View := MkView (vregs V) x (va V) (vc V) (vd V) (vsi V) (vflags V).
Definition set_a (x : Z) (V : View) : View := MkView (vregs V) (vpc V) x (vc V) (vd V) (vsi V) (vflags V).
Definition set_c (x : Z) (V : View) : View := MkView (vregs V) (vpc V) (va V) x (vd V) (vsi V) (vflags V).
Definition set_d (x : Z) (V : View) : View := MkView (vregs V) (vpc V) (va V) (vc V) x (vsi V) (vflags V).
Definition set_si (x : Z) (V : View) : View := MkView (vregs V) (vpc V) (va V) (vc V) (vd V) x (vflags V).
Definition set_fl (f : option Flags) (V : View) : View := MkView (vregs V) (vpc V) (va V) (vc V) (vd V) (vsi V) f.

(** The code that started in [s0] has come to [s], where [V] is known; it has left alone
    the memory but for [x1] to [x31] and [pc], and the other registers of the machine. *)
Record view (s0 : St) (V : View) (s : St) : Prop := {
  v_wf : wf_regs (vregs V);
  v_rbp : gpr s 5 = rbp;
  v_regs r : 0 <= r < 32 -> load_bytes (memory s) (rbp + r * 8) 8 = reg (vregs V) r;
  v_pc : load_bytes (memory s) (rbp + OFFSET_PC) 8 = vpc V;
  v_bytes a : 0 <= memory s a < 256;
  v_gpr i : in_u 64 (gpr s i);
  v_a : gpr s 0 = va V;
  v_c : gpr s 1 = vc V;
  v_d : gpr s 2 = vd V;
  v_si : gpr s 6 = vsi V;
  v_flags : flags s = vflags V;
  v_frame a : a < rbp + 8 \/ rbp + 264 <= a -> memory s a = memory s0 a;
  v_saved i : i <> 0 -> i <> 1 -> i <> 2 -> i <> 6 -> gpr s i = gpr s0 i;
}.

Lemma view_flags s0 V s f : view s0 V s -> view s0 (set_fl f V) (set_flags f s).
Proof. intros []. split; auto. Qed.

(** One of the scratch registers is written. *)
Lemma view_gpr s0 V V' s i v : view s0 V s -> in_u 64 v ->
  i = 0 /\ V' = set_a v V \/ i = 1 /\ V' = set_c v V \/ i = 2 /\ V' = set_d v V \/ i = 6 /\ V' = set_si v V ->
  view s0 V' (set_gpr i v s).
Proof.
  intros [H1 H2 H3 H4 H5 H6 H7 H8 H9 H10 H11 H12 H13] Hv Hi.
  destruct Hi as [[-> ->]|[[-> ->]|[[-> ->]|[-> ->]]]]; split; auto; intros j; cbn [set_gpr gpr];
    match goal with |- context [j =? ?k] => destruct (Z.eqb_spec j k); auto; lia end.
Qed.

(** A guest register is written. *)
Lemma view_store s0 V s r v : view s0 V s -> 0 < r < 32 -> in_u 64 v ->
  view s0 (set_regs (<[Z.to_nat r := v]> (vregs V)) V) (set_memory (store_bytes (rbp + r * 8) v 8 (memory s)) s).
Proof.
  intros [H1 H2 H3 H4 H5 H6 H7 H8 H9 H10 H11 H12 H13] Hr Hv.
  split; auto; cbn [set_memory memory set_regs vregs vpc].
  - apply wf_regs_insert; auto.
  - intros k Hk. destruct H1 as (Hl & _). rewrite reg_insert by lia. destruct (Z.eqb_spec k r) as [->|N].
    + apply load_store_same. exact Hv.
    + rewrite load_store_other by lia. auto.
  - unfold OFFSET_PC in *. rewrite load_store_other by lia. exact H4.
  - intros a. apply store_bytes_range. exact H5.
  - intros a Ha. rewrite store_bytes_out by lia. auto.
Qed.

Lemma view_store_pc s0 V s v : view s0 V s -> in_u 64 v ->
  view s0 (set_vpc v V) (set_memory (store_bytes (rbp + OFFSET_PC) v 8 (memory s)) s).
Proof.
  intros [H1 H2 H3 H4 H5 H6 H7 H8 H9 H10 H11 H12 H13] Hv. unfold OFFSET_PC in *.
  split; auto; cbn [set_memory memory set_vpc vregs vpc].
  - intros k Hk. rewrite load_store_other by lia. auto.
  - apply load_store_same. exact Hv.
  - intros a. apply store_bytes_range. exact H5.
  - intros a Ha. rewrite store_bytes_out by lia. auto.
Qed.

(** ** Reading and writing *)

Definition gets (V : View) (l : Location) (x : Z) : Prop := forall s0 s, view s0 V s -> get_loc l s = Some x.

Definition puts (V : View) (l : Location) (x : Z) (V' : View) : Prop :=
  forall s0 s, view s0 V s -> exists s', put_loc l x s = Some s' /\ view s0 V' s'.

Definition operand (V : View) (size : Size) (o : Operand) (x : Z) : Prop :=
  forall s0 s, view s0 V s -> get_operand size o s = Some x.

Lemma operand_imm V size i : operand V size (Imm i) (wrap (bits size) i).
Proof. intros s0 s _. reflexivity. Qed.

Lemma operand_reg V size r x : gets V (Reg r) x -> operand V size (OpReg r) x.
Proof. intros H s0 s Hs. exact (H s0 s Hs). Qed.

Lemma operand_mem V size m x : gets V (Mem m) x -> operand V size (OpMem m) x.
Proof. intros H s0 s Hs. exact (H s0 s Hs). Qed.

Lemma operand_loc V size l x : gets V l x -> operand V size (operand_of l) x.
Proof. destruct l; [apply operand_reg|apply operand_mem]. Qed.

Lemma get_rax s : get_reg RAX s = Some (u64 (gpr s 0)).
Proof. reflexivity. Qed.
Lemma get_eax s : get_reg EAX s = Some (u32 (gpr s 0)).
Proof. reflexivity. Qed.
Lemma get_al s : get_reg AL s = Some (u8 (gpr s 0)).
Proof. reflexivity. Qed.
Lemma get_rcx s : get_reg RCX s = Some (u64 (gpr s 1)).
Proof. reflexivity. Qed.
Lemma get_cl s : get_reg CL s = Some (u8 (gpr s 1)).
Proof. reflexivity. Qed.
Lemma get_rdx s : get_reg RDX s = Some (u64 (gpr s 2)).
Proof. reflexivity. Qed.
Lemma get_edx s : get_reg EDX s = Some (u32 (gpr s 2)).
Proof. reflexivity. Qed.
Lemma get_rsi s : get_reg RSI s = Some (u64 (gpr s 6)).
Proof. reflexivity. Qed.

Lemma put_rax v s : put_reg RAX v s = Some (set_gpr 0 (u64 v) s).
Proof. reflexivity. Qed.
Lemma put_eax v s : put_reg EAX v s = Some (set_gpr 0 (u32 v) s).
Proof. reflexivity. Qed.
Lemma put_al v s : put_reg AL v s = Some (set_gpr 0 ((gpr s 0 >> 8 << 8) .| u8 v) s).
Proof. reflexivity. Qed.
Lemma put_rcx v s : put_reg RCX v s = Some (set_gpr 1 (u64 v) s).
Proof. reflexivity. Qed.
Lemma put_cl v s : put_reg CL v s = Some (set_gpr 1 ((gpr s 1 >> 8 << 8) .| u8 v) s).
Proof. reflexivity. Qed.
Lemma put_rdx v s : put_reg RDX v s = Some (set_gpr 2 (u64 v) s).
Proof. reflexivity. Qed.
Lemma put_edx v s : put_reg EDX v s = Some (set_gpr 2 (u32 v) s).
Proof. reflexivity. Qed.
Lemma put_rsi v s : put_reg RSI v s = Some (set_gpr 6 (u64 v) s).
Proof. reflexivity. Qed.

Lemma gets_rax V : gets V (Reg RAX) (va V).
Proof. intros s0 s H. cbn [get_loc]. rewrite get_rax, <- (v_a _ _ _ H). f_equal. apply wrap_id, (v_gpr _ _ _ H). Qed.
Lemma gets_rcx V : gets V (Reg RCX) (vc V).
Proof. intros s0 s H. cbn [get_loc]. rewrite get_rcx, <- (v_c _ _ _ H). f_equal. apply wrap_id, (v_gpr _ _ _ H). Qed.
Lemma gets_rdx V : gets V (Reg RDX) (vd V).
Proof. intros s0 s H. cbn [get_loc]. rewrite get_rdx, <- (v_d _ _ _ H). f_equal. apply wrap_id, (v_gpr _ _ _ H). Qed.
Lemma gets_rsi V : gets V (Reg RSI) (vsi V).
Proof. intros s0 s H. cbn [get_loc]. rewrite get_rsi, <- (v_si _ _ _ H). f_equal. apply wrap_id, (v_gpr _ _ _ H). Qed.
Lemma gets_eax V : gets V (Reg EAX) (u32 (va V)).
Proof. intros s0 s H. cbn [get_loc]. rewrite get_eax, <- (v_a _ _ _ H). reflexivity. Qed.
Lemma gets_edx V : gets V (Reg EDX) (u32 (vd V)).
Proof. intros s0 s H. cbn [get_loc]. rewrite get_edx, <- (v_d _ _ _ H). reflexivity. Qed.
Lemma gets_al V : gets V (Reg AL) (u8 (va V)).
Proof. intros s0 s H. cbn [get_loc]. rewrite get_al, <- (v_a _ _ _ H). reflexivity. Qed.
Lemma gets_cl V : gets V (Reg CL) (u8 (vc V)).
Proof. intros s0 s H. cbn [get_loc]. rewrite get_cl, <- (v_c _ _ _ H). reflexivity. Qed.

Lemma wrap_in_u64 n x : 0 <= n <= 64 -> in_u 64 (wrap n x).
Proof.
  intros Hn. pose proof (wrap_range n x ltac:(lia)) as H. unfold in_u in *.
  pose proof (Z.pow_le_mono_r 2 n 64). lia.
Qed.

Lemma puts_rax V v : puts V (Reg RAX) v (set_a (u64 v) V).
Proof. intros s0 s H. eexists. split; [apply put_rax|]. eapply view_gpr; [exact H|apply wrap_in_u64; lia|auto]. Qed.
Lemma puts_rcx V v : puts V (Reg RCX) v (set_c (u64 v) V).
Proof. intros s0 s H. eexists. split; [apply put_rcx|]. eapply view_gpr; [exact H|apply wrap_in_u64; lia|auto]. Qed.
Lemma puts_rdx V v : puts V (Reg RDX) v (set_d (u64 v) V).
Proof. intros s0 s H. eexists. split; [apply put_rdx|]. eapply view_gpr; [exact H|apply wrap_in_u64; lia|auto]. Qed.
Lemma puts_rsi V v : puts V (Reg RSI) v (set_si (u64 v) V).
Proof. intros s0 s H. eexists. split; [apply put_rsi|]. eapply view_gpr; [exact H|apply wrap_in_u64; lia|auto]. Qed.
Lemma puts_eax V v : puts V (Reg EAX) v (set_a (u32 v) V).
Proof. intros s0 s H. eexists. split; [apply put_eax|]. eapply view_gpr; [exact H|apply wrap_in_u64; lia|auto]. Qed.
Lemma puts_edx V v : puts V (Reg EDX) v (set_d (u32 v) V).
Proof. intros s0 s H. eexists. split; [apply put_edx|]. eapply view_gpr; [exact H|apply wrap_in_u64; lia|auto]. Qed.

(** The low byte of a register is replaced. *)
Definition with_low_byte (x v : Z) : Z := x / 256 * 256 + u8 v.

Lemma low_byte_value x v : (x >> 8 << 8) .| u8 v = with_low_byte x v.
Proof.
  rewrite Z.shiftl_mul_pow2, Z.shiftr_div_pow2, Z.lor_comm by lia.
  rewrite lor_add_low by (try apply wrap_range; lia). unfold with_low_byte.
  change (2 ^ 8) with 256. lia.
Qed.

Lemma with_low_byte_range x v : in_u 64 x -> in_u 64 (with_low_byte x v).
Proof.
  intros Hx. pose proof (wrap_range 8 v ltac:(lia)) as Hv. unfold with_low_byte, u8, in_u in *.
  pose proof (Z.div_mod x 256 ltac:(lia)). pose proof (Z.mod_pos_bound x 256).
  pose proof (Z.div_pos x 256). pose proof (Z.div_lt_upper_bound x 256 (2 ^ 56)).
  change (2 ^ 64) with 18446744073709551616 in *. change (2 ^ 56) with 72057594037927936 in *.
  change (2 ^ 8) with 256 in *. lia.
Qed.

Lemma u8_with_low_byte x v : u8 (with_low_byte x v) = u8 v.
Proof.
  unfold with_low_byte, u8, wrap. change (2 ^ 8) with 256.
  rewrite Z.add_comm, Z.mod_add by lia. apply Zmod_mod.
Qed.

Lemma puts_al V v : puts V (Reg AL) v (set_a (with_low_byte (va V) v) V).
Proof.
  intros s0 s H. eexists. split; [apply put_al|]. rewrite low_byte_value, (v_a _ _ _ H).
  eapply view_gpr; [exact H| |auto]. apply with_low_byte_range. rewrite <- (v_a _ _ _ H). apply (v_gpr _ _ _ H).
Qed.
Lemma puts_cl V v : puts V (Reg CL) v (set_c (with_low_byte (vc V) v) V).
Proof.
  intros s0 s H. eexists. split; [apply put_cl|]. rewrite low_byte_value, (v_c _ _ _ H).
  eapply view_gpr; [exact H| |auto]. apply with_low_byte_range. rewrite <- (v_c _ _ _ H). apply (v_gpr _ _ _ H).
Qed.

(** ** The guest's registers in memory *)

Lemma get_rbp s : get_reg RBP s = Some (u64 (gpr s 5)).
Proof. reflexivity. Qed.

Lemma context_address s0 V s d size : view s0 V s -> 0 <= d < 4096 ->
  address (MkMem (Some RBP) None d size) s = Some (rbp + d).
Proof.
  intros H Hd. unfold address. cbn [base index displacement]. rewrite get_rbp, (v_rbp _ _ _ H). cbv iota beta.
  unfold u64. rewrite (wrap_id 64 rbp) by (unfold in_u; lia). rewrite wrap_id by (unfold in_u; lia).
  f_equal. lia.
Qed.

Lemma bytes_of_bits size : 256 ^ Z.of_nat (bytes_of size) = 2 ^ bits size.
Proof. destruct size; reflexivity. Qed.

Lemma gets_sized V r size : 0 <= r < 32 -> gets V (loc_sized r size) (wrap (bits size) (reg (vregs V) r)).
Proof.
  intros Hr s0 s H. unfold loc_sized, mem_resize, register_memory, reg_add. cbn [get_loc base index displacement mem_size].
  rewrite (context_address s0 V s) by (auto; lia). cbv iota beta.
  rewrite (load_bytes_low _ 8) by (try apply (v_bytes _ _ _ H); destruct size; cbn; lia).
  rewrite (v_regs _ _ _ H), bytes_of_bits by lia. reflexivity.
Qed.

Lemma gets_register V r : 0 <= r < 32 -> gets V (loc_of_register r) (reg (vregs V) r).
Proof.
  intros Hr s0 s H. pose proof (gets_sized V r Qword Hr s0 s H) as E.
  change (loc_sized r Qword) with (loc_of_register r) in E. rewrite E. f_equal.
  apply wrap_id. apply reg_range, (v_wf _ _ _ H).
Qed.

Lemma puts_register V r v : 0 < r < 32 -> puts V (loc_of_register r) v (set_regs (<[Z.to_nat r := u64 v]> (vregs V)) V).
Proof.
  intros Hr s0 s H. unfold loc_of_register, register_memory, reg_add. cbn [put_loc mem_size].
  rewrite (context_address s0 V s) by (auto; lia). cbv iota beta. eexists. split; [reflexivity|].
  apply view_store; [exact H|exact Hr|]. apply (wrap_in_u64 64). lia.
Qed.

Lemma gets_pc V : gets V (Mem memory_of_pc) (vpc V).
Proof.
  intros s0 s H. unfold memory_of_pc, reg_add. cbn [get_loc mem_size].
  rewrite (context_address s0 V s) by (auto; unfold OFFSET_PC; lia). cbn [bytes_of].
  rewrite (v_pc _ _ _ H). reflexivity.
Qed.

Lemma puts_pc V v : puts V (Mem memory_of_pc) v (set_vpc (u64 v) V).
Proof.
  intros s0 s H. unfold memory_of_pc, reg_add. cbn [put_loc mem_size].
  rewrite (context_address s0 V s) by (auto; unfold OFFSET_PC; lia). cbv iota beta. eexists. split; [reflexivity|].
  apply view_store_pc; [exact H|]. apply (wrap_in_u64 64). lia.
Qed.

(** ** Triples *)

(** From a state where [V] is known, the code runs to its end, in a state where something
    is known that satisfies [Q]. *)
Definition triple (V : View) (c : Code) (Q : View -> Prop) : Prop :=
  forall s0 s, view s0 V s -> wp c s (fun s' => exists V', view s0 V' s' /\ Q V').

Lemma t_skip V (Q : View -> Prop) : Q V -> triple V skip Q.
Proof. intros HQ s0 s H. apply wp_skip. eauto. Qed.

Lemma t_seq V a b Q : triple V a (fun V' => triple V' b Q) -> triple V (Dbt.seq a b) Q.
Proof. intros HT s0 s H. apply wp_seq. eapply wp_mono; [exact (HT s0 s H)|]. intros s' (V' & H' & T). exact (T s0 s' H'). Qed.

Lemma t_mono V c (Q Q' : View -> Prop) : triple V c Q -> (forall V', Q V' -> Q' V') -> triple V c Q'.
Proof. intros HT HQ s0 s H. eapply wp_mono; [exact (HT s0 s H)|]. intros s' (V' & H' & T). eauto. Qed.

(** An operation that ends in a state where [V'] is known. *)
Lemma t_next V op V' (Q : View -> Prop) :
  (forall s0 s, view s0 V s -> exists s', exec op s = Next s' /\ view s0 V' s') -> Q V' -> triple V (emit op) Q.
Proof. intros HE HQ s0 s H. destruct (HE s0 s H) as (s' & E & H'). eapply wp_next; eauto. Qed.

Lemma t_mov V dst src size x V' (Q : View -> Prop) :
  loc_size dst = Some size -> operand V size src x -> puts V dst x V' -> Q V' -> triple V (emit (Mov dst src)) Q.
Proof.
  intros Hs Ho Hp. apply t_next. intros s0 s H. cbn [exec]. rewrite Hs, (Ho _ _ H).
  destruct (Hp _ _ H) as (s' & -> & H'). exists s'. split; [reflexivity|exact H'].
Qed.

Lemma t_alu V op f g dst src size a b V' (Q : View -> Prop) :
  (forall s, exec op s = alu f g dst src s) ->
  loc_size dst = Some size -> gets V dst a -> operand V size src b ->
  puts V dst (f (bits size) a b) V' -> Q (set_fl (g (bits size) a b) V') -> triple V (emit op) Q.
Proof.
  intros He Hs Hg Ho Hp. apply t_next. intros s0 s H. rewrite He. unfold alu. rewrite Hs, (Hg _ _ H), (Ho _ _ H).
  destruct (Hp _ _ H) as (s' & -> & H'). eexists. split; [reflexivity|]. apply view_flags. exact H'.
Qed.

Lemma t_compare V op g dst src size a b (Q : View -> Prop) :
  (forall s, exec op s = compare g dst src s) ->
  loc_size dst = Some size -> gets V dst a -> operand V size src b ->
  Q (set_fl (Some (g (bits size) a b)) V) -> triple V (emit op) Q.
Proof.
  intros He Hs Hg Ho. apply t_next. intros s0 s H. rewrite He. unfold compare. rewrite Hs, (Hg _ _ H), (Ho _ _ H).
  eexists. split; [reflexivity|]. apply view_flags. exact H.
Qed.

Lemma t_shift V op f dst src size a b V' (Q : View -> Prop) :
  (forall s, exec op s = shift f dst src s) ->
  loc_size dst = Some size -> gets V dst a -> operand V Byte src b ->
  puts V dst (f (bits size) a (count_of (bits size) b)) V' -> Q (set_fl None V') -> triple V (emit op) Q.
Proof.
  intros He Hs Hg Ho Hp. apply t_next. intros s0 s H. rewrite He. unfold shift. rewrite Hs, (Hg _ _ H), (Ho _ _ H).
  destruct (Hp _ _ H) as (s' & -> & H'). eexists. split; [reflexivity|]. apply view_flags. exact H'.
Qed.

Lemma t_not V dst a V' (Q : View -> Prop) :
  gets V dst a -> puts V dst (Z.lnot a) V' -> Q V' -> triple V (emit (Not dst)) Q.
Proof.
  intros Hg Hp. apply t_next. intros s0 s H. cbn [exec]. rewrite (Hg _ _ H).
  destruct (Hp _ _ H) as (s' & -> & H'). exists s'. split; [reflexivity|exact H'].
Qed.

Lemma t_neg V dst size a V' (Q : View -> Prop) :
  loc_size dst = Some size -> gets V dst a -> puts V dst (- a) V' ->
  Q (set_fl (Some (flags_sub (bits size) 0 a)) V') -> triple V (emit (Neg dst)) Q.
Proof.
  intros Hs Hg Hp. apply t_next. intros s0 s H. cbn [exec]. rewrite Hs, (Hg _ _ H).
  destruct (Hp _ _ H) as (s' & -> & H'). eexists. split; [reflexivity|]. apply view_flags. exact H'.
Qed.

Lemma t_setcc V dst cc f b V' (Q : View -> Prop) :
  vflags V = Some f -> (forall s, flags s = Some f -> condition cc s = Some b) ->
  puts V dst (Z.b2z b) V' -> Q V' -> triple V (emit (Setcc dst cc)) Q.
Proof.
  intros Hf Hc Hp. apply t_next. intros s0 s H. cbn [exec]. rewrite Hc by (rewrite (v_flags _ _ _ H); exact Hf).
  destruct (Hp _ _ H) as (s' & -> & H'). exists s'. split; [reflexivity|exact H'].
Qed.

Lemma t_extend V op signed dst src size x V' (Q : View -> Prop) :
  (forall s, exec op s = extend signed dst src s) ->
  loc_size src = Some size -> gets V src x ->
  puts V (Reg dst) (if signed then sext (bits size) x else x) V' -> Q V' -> triple V (emit op) Q.
Proof.
  intros He Hs Hg Hp. apply t_next. intros s0 s H. rewrite He. unfold extend. rewrite Hs, (Hg _ _ H).
  destruct (Hp _ _ H) as (s' & E & H'). cbn [put_loc] in E. rewrite E. exists s'. split; [reflexivity|exact H'].
Qed.

Lemma t_cdqe V (Q : View -> Prop) : Q (set_a (u64 (i32 (va V))) V) -> triple V (emit Cdqe) Q.
Proof.
  apply t_next. intros s0 s H. cbn [exec]. rewrite get_eax. destruct (puts_rax V (i32 (va V)) s0 s H) as (s' & E & H').
  cbn [put_loc] in E. exists s'. split; [|exact H']. rewrite <- (v_a _ _ _ H) in E.
  unfold i32, u32 in *. rewrite sext_wrap, E. reflexivity.
Qed.

Lemma t_cdq V (Q : View -> Prop) : Q (set_d (u32 (if i32 (va V) <? 0 then -1 else 0)) V) -> triple V (emit Cdq) Q.
Proof.
  apply t_next. intros s0 s H. cbn [exec]. rewrite get_eax.
  destruct (puts_edx V (if i32 (va V) <? 0 then -1 else 0) s0 s H) as (s' & E & H').
  cbn [put_loc] in E. exists s'. split; [|exact H']. rewrite <- (v_a _ _ _ H) in E.
  unfold i32, u32 in *. rewrite sext_wrap, E. reflexivity.
Qed.

Lemma t_cqo V (Q : View -> Prop) : Q (set_d (u64 (if i64 (va V) <? 0 then -1 else 0)) V) -> triple V (emit Cqo) Q.
Proof.
  apply t_next. intros s0 s H. cbn [exec]. rewrite get_rax.
  destruct (puts_rdx V (if i64 (va V) <? 0 then -1 else 0) s0 s H) as (s' & E & H').
  cbn [put_loc] in E. exists s'. split; [|exact H']. rewrite <- (v_a _ _ _ H) in E.
  unfold i64, u64 in *. rewrite sext_wrap, E. reflexivity.
Qed.

Lemma t_imul2 V dst src a b V' (Q : View -> Prop) :
  gets V (Reg dst) a -> gets V src b -> puts V (Reg dst) (a * b) V' -> Q (set_fl None V') ->
  triple V (emit (Imul2 dst src)) Q.
Proof.
  intros Hd Hs Hp. apply t_next. intros s0 s H. pose proof (Hd _ _ H) as Ed. cbn [get_loc] in Ed. cbn [exec].
  rewrite Ed, (Hs _ _ H). destruct (Hp _ _ H) as (s' & E & H'). cbn [put_loc] in E. rewrite E.
  eexists. split; [reflexivity|]. apply view_flags. exact H'.
Qed.

(** Multiplication into [RDX:RAX]. *)
Lemma t_multiply V op f src b (Q : View -> Prop) :
  (forall s, exec op s = multiply f src s) -> loc_size src = Some Qword -> gets V src b ->
  (let r := f 64 (va V) b in Q (set_fl None (set_d (u64 (r >> 64)) (set_a (u64 r) V)))) -> triple V (emit op) Q.
Proof.
  intros He Hs Hg. apply t_next. intros s0 s H. rewrite He. unfold multiply. rewrite Hs. cbn [accumulators].
  pose proof (gets_rax V s0 s H) as Ea. cbn [get_loc] in Ea. rewrite Ea, (Hg _ _ H). cbv iota beta zeta.
  change (bits Qword) with 64. set (r := f 64 (va V) b).
  destruct (puts_rax V r s0 s H) as (s1 & E1 & H1). cbn [put_loc] in E1. rewrite E1.
  destruct (puts_rdx _ (r >> 64) s0 s1 H1) as (s2 & E2 & H2). cbn [put_loc] in E2. rewrite E2.
  eexists. split; [reflexivity|]. apply view_flags. exact H2.
Qed.

(** ** Division *)

Lemma gets_gpr0 V s0 s : view s0 V s -> gpr s 0 = va V /\ in_u 64 (va V).
Proof. intros H. rewrite <- (v_a _ _ _ H). split; [reflexivity|apply (v_gpr _ _ _ H)]. Qed.

Lemma eval_register s0 V s r size : view s0 V s -> 0 <= r < 32 ->
  eval_memory_location s (mem_resize (register_memory r) size) = rbp + r * 8.
Proof.
  intros H Hr. unfold eval_memory_location, mem_resize, register_memory, reg_add. cbn [base index displacement].
  change (reg_num RBP .& 15) with 5. unfold greg. rewrite (v_rbp _ _ _ H).
  unfold u64. rewrite (wrap_id 64 (r * 8)) by (unfold in_u; lia). rewrite wrap_id by (unfold in_u; lia). lia.
Qed.

(** The handler reads the divisor the way the operation does. *)
Lemma read_register s0 V s r size : view s0 V s -> 0 <= r < 32 ->
  read_location s (loc_sized r size) = Some (wrap (bits size) (reg (vregs V) r)).
Proof.
  intros H Hr. pose proof (gets_sized V r size Hr s0 s H) as E. unfold loc_sized in *. cbn [get_loc read_location] in *.
  rewrite (eval_register s0 V s) by auto. rewrite <- E. unfold mem_resize at 1 2, register_memory, reg_add.
  cbn [base index displacement]. rewrite (context_address s0 V s) by (auto; lia). reflexivity.
Qed.

(** What a division leaves in [RAX] and [RDX], with the handler's values after a fault. *)
Definition divided (n : Z) (f : Z -> Z -> Z -> option (Z * Z)) (V : View) (b : Z) : View :=
  match f n (wrap n (vd V) * 2 ^ n + wrap n (va V)) b with
  | Some (q, m) => set_fl None (set_d (wrap n m) (set_a (wrap n q) V))
  | None =>
      if b =? 0 then set_d (wrap n (va V)) (set_a (wrap n (-1)) V)
      else set_d 0 (set_a (wrap n (va V)) V)
  end.

Lemma view_divided s0 V s x y : view s0 V s -> in_u 64 x -> in_u 64 y ->
  view s0 (set_d y (set_a x V)) (set_gpr 2 y (set_gpr 0 x s)).
Proof. intros H Hx Hy. eapply view_gpr; [eapply view_gpr; [exact H|exact Hx|auto]|exact Hy|auto]. Qed.

Lemma t_divide V op f r size (Q : View -> Prop) :
  op = Div (loc_sized r size) /\ f = unsigned_division \/ op = Idiv (loc_sized r size) /\ f = signed_division ->
  size = Dword \/ size = Qword -> 0 <= r < 32 ->
  Q (divided (bits size) f V (wrap (bits size) (reg (vregs V) r))) -> triple V (emit op) Q.
Proof.
  intros Hop Hsz Hr HQ s0 s H. set (n := bits size) in *. set (b := wrap n (reg (vregs V) r)) in *.
  destruct (gets_gpr0 V s0 s H) as [Ga Ra].
  assert (He : exec op s = match f n (wrap n (vd V) * 2 ^ n + wrap n (va V)) b with
    | None => DivideError
    | Some (q, m) => Next (set_flags None (set_gpr 2 (wrap n m) (set_gpr 0 (wrap n q) s))) end).
  { pose proof (gets_sized V r size Hr s0 s H) as Eb. fold n b in Eb.
    assert (exec op s = divide f (loc_sized r size) s) as -> by (destruct Hop as [[-> ->]|[-> ->]]; reflexivity).
    unfold divide. assert (loc_size (loc_sized r size) = Some size) as -> by reflexivity.
    rewrite <- Ga, <- (v_d _ _ _ H). destruct Hsz as [-> | ->]; cbn [accumulators];
      rewrite ?get_rax, ?get_rdx, ?get_eax, ?get_edx, Eb; cbv iota beta;
      destruct (f _ _ _) as [[q m]|]; try reflexivity;
      rewrite ?put_rax, ?put_rdx, ?put_eax, ?put_edx; reflexivity. }
  assert (Hw : forall x, in_u 64 (wrap n x)) by (intros x; apply wrap_in_u64; destruct Hsz as [-> | ->]; vm_compute; split; discriminate).
  unfold divided in HQ. destruct (f n _ b) as [[q m]|] eqn:Ef.
  - eapply wp_next; [exact He|]. eexists. split; [|exact HQ]. apply view_flags, view_divided; auto.
  - assert (Eh : replay_division op s = Some (if b =? 0 then set_gpr 2 (wrap n (va V)) (set_gpr 0 (wrap n (-1)) s)
      else set_gpr 2 0 (set_gpr 0 (wrap n (va V)) s))).
    { pose proof (read_register s0 V s r size H Hr) as Eb. fold n b in Eb.
      assert (loc_size (loc_sized r size) = Some size) as Es by reflexivity. unfold replay_division, greg, REG_RAX, REG_RDX.
      rewrite Ga. destruct Hop as [[-> _]|[-> _]]; cbv iota beta; rewrite Es, Eb; cbv iota beta;
        destruct Hsz as [-> | ->]; cbn [size_eqb]; destruct (b =? 0); try reflexivity;
        subst n; change (bits Qword) with 64; rewrite (wrap_id 64 (va V)) by exact Ra; reflexivity. }
    eapply wp_fault; [exact He|exact Eh|]. destruct (b =? 0); eexists; (split; [|exact HQ]); apply view_divided; auto.
    unfold in_u. lia.
Qed.

End Guest.
