(* ===== verification/DbtDiv.v ===== *)
(** Arithmetic of multiplication and division: the values the machine leaves, with those of
    the fault handler, are the values of the M extension. *)

From Stdlib Require Import ZArith Lia Bool.
From S2P Require Import Prelude Words X86Sem HartStepExt.
Local Open Scope Z_scope.
Local Open Scope rust_scope.
Import X86Sem HartStepExt.

Lemma pow_half n : 0 < n -> 2 ^ n = 2 * 2 ^ (n - 1).
Proof. intros Hn. rewrite <- Z.pow_succ_r by lia. f_equal. lia. Qed.

Lemma sext_zero_iff n x : 0 < n -> in_u n x -> (sext n x =? 0) = (x =? 0).
Proof.
  intros Hn Hx. rewrite sext_unsigned by exact Hx. unfold in_u in Hx. pose proof (pow_half n Hn).
  destruct (Z.ltb_spec x (2 ^ (n - 1))); [reflexivity|].
  destruct (Z.eqb_spec (x - 2 ^ n) 0), (Z.eqb_spec x 0); lia.
Qed.

(** The dividend after [Cdq] or [Cqo] is the signed value of the low half. *)
Lemma sign_extended n a : 0 < n -> in_u n a ->
  sext (2 * n) (wrap n (if sext n a <? 0 then -1 else 0) * 2 ^ n + a) = sext n a.
Proof.
  intros Hn Ha. pose proof (pow_half n Hn) as Hp. pose proof (sext_range n a Hn) as Hr. unfold in_i in Hr.
  assert (Hq : 2 ^ (2 * n) = 2 ^ n * 2 ^ n) by (rewrite <- Z.pow_add_r by lia; f_equal; lia).
  assert (Hh : 2 ^ n <= 2 ^ (2 * n - 1)) by (apply Z.pow_le_mono_r; lia).
  rewrite <- (sext_id (2 * n) (sext n a)) at 2 by (unfold in_i; lia).
  apply eqm_sext_eq. unfold eqm, wrap. rewrite sext_unsigned by exact Ha. rewrite sext_unsigned in Hr by exact Ha.
  unfold in_u in Ha. destruct (Z.ltb_spec a (2 ^ (n - 1))).
  - destruct (Z.ltb_spec a 0); [lia|]. rewrite Z.mod_0_l by lia. reflexivity.
  - destruct (Z.ltb_spec (a - 2 ^ n) 0); [|lia].
    assert ((-1) mod 2 ^ n = 2 ^ n - 1) as -> by (symmetry; apply Z.mod_unique_pos with (q := -1); lia).
    replace ((2 ^ n - 1) * 2 ^ n + a) with ((a - 2 ^ n) + 1 * 2 ^ (2 * n)) by lia. apply Z.mod_add. lia.
Qed.

(** A quotient out of range is that of the least number by [-1]. *)
Lemma s_quot_range m a b : 0 < m -> - m <= a < m -> b <> 0 ->
  - m <= Z.quot a b <= m /\ (Z.quot a b = m -> a = - m /\ b = -1).
Proof.
  intros Hm Ha Hb. destruct (Z.eq_dec b 1) as [->|N1]; [rewrite Z.quot_1_r; lia|].
  destruct (Z.eq_dec b (-1)) as [->|N2].
  { change (-1) with (- (1)). rewrite Z.quot_opp_r, Z.quot_1_r by lia. lia. }
  assert (Hq : 2 * Z.abs (Z.quot a b) <= Z.abs a).
  { rewrite <- Z.quot_abs by exact Hb. rewrite Z.quot_div_nonneg by lia.
    pose proof (Z.mul_div_le (Z.abs a) (Z.abs b) ltac:(lia)). pose proof (Z.div_pos (Z.abs a) (Z.abs b)). nia. }
  lia.
Qed.

(** Signed division, with the results of the handler. *)
Lemma signed_division_ok n a b : 0 < n -> in_u n a -> in_u n b ->
  let sa := sext n a in let sb := sext n b in
  match signed_division n (wrap n (if sa <? 0 then -1 else 0) * 2 ^ n + a) b with
  | Some (q, m) => b <> 0 /\ wrap n q = wrap n (div n sa sb) /\ wrap n m = wrap n (rem n sa sb)
  | None =>
      if b =? 0 then div n sa sb = -1 /\ wrap n (rem n sa sb) = a
      else wrap n (div n sa sb) = a /\ wrap n (rem n sa sb) = 0
  end.
Proof.
  intros Hn Ha Hb. cbv zeta. unfold signed_division. rewrite sign_extended by assumption.
  pose proof (pow_half n Hn) as Hp. pose proof (sext_range n a Hn) as Hr. unfold in_i in Hr.
  pose proof (wrap_sext n a Hn) as Ea. rewrite (wrap_id n a Ha) in Ea.
  unfold div, rem. rewrite sext_zero_iff by assumption. destruct (Z.eqb_spec b 0) as [->|N]; cbn [orb]; [auto|].
  assert (Hnz : sext n b <> 0) by (apply Z.eqb_neq; rewrite sext_zero_iff by assumption; apply Z.eqb_neq, N).
  destruct (s_quot_range (2 ^ (n - 1)) (sext n a) (sext n b) ltac:(lia) Hr Hnz) as [Hq Ho].
  set (q := Z.quot (sext n a) (sext n b)) in *.
  destruct (Z.ltb_spec q (- 2 ^ (n - 1))); [lia|]. cbn [orb]. destruct (Z.leb_spec (2 ^ (n - 1)) q).
  - destruct (Ho ltac:(lia)) as [E1 E2]. rewrite E1, E2 in *. rewrite !wrap_sext by exact Hn. split.
    + replace q with (- 2 ^ (n - 1) + 1 * 2 ^ n) by lia. unfold wrap in *. rewrite Z.mod_add by lia. exact Ea.
    + change (-1) with (- (1)). rewrite Z.rem_opp_r, Z.rem_1_r by lia. apply Z.mod_0_l. lia.
  - rewrite !wrap_sext by exact Hn. auto.
Qed.

(** Unsigned division, with the results of the handler. *)
Lemma unsigned_division_ok n a b : 0 < n -> in_u n a -> in_u n b ->
  match unsigned_division n (0 * 2 ^ n + a) b with
  | Some (q, m) => b <> 0 /\ q = divu n a b /\ m = remu a b /\ in_u n q /\ in_u n m
  | None => b = 0
  end.
Proof.
  intros Hn Ha Hb. unfold unsigned_division, divu, remu, in_u in *. rewrite Z.mul_0_l, Z.add_0_l.
  destruct (Z.eqb_spec b 0) as [->|N]; cbn [orb]; [reflexivity|].
  pose proof (Z.div_pos a b ltac:(lia) ltac:(lia)). pose proof (Z.mod_pos_bound a b ltac:(lia)).
  pose proof (Z.div_le_upper_bound a b a ltac:(lia) ltac:(nia)).
  destruct (Z.leb_spec (2 ^ n) (a / b)); [lia|]. repeat split; auto; lia.
Qed.

(** The high half of a product of a signed and an unsigned word. *)
Lemma mulhsu_ok a b : in_u 64 a -> in_u 64 b ->
  wrap 64 (wrap 64 ((a * b) >> 64) - (wrap 64 (sext 64 a >> 63) .& b)) = mulhsu a b.
Proof.
  intros Ha Hb. unfold mulhsu. fold u64 i64.
  assert (Hab : u128 (u128 (u64 (i64 a)) * u128 b) = a * b).
  { assert (u64 (i64 a) = a) as -> by (unfold u64, i64; rewrite wrap_sext, wrap_id by (auto; lia); reflexivity).
    unfold u128. unfold in_u in *. rewrite (wrap_id 128 a), (wrap_id 128 b) by (unfold in_u; lia).
    apply wrap_id. unfold in_u. nia. }
  rewrite Hab. pose proof (sext_range 64 a ltac:(lia)) as Hr. unfold in_i in Hr. unfold i64.
  assert (Hs : sext 64 a >> 63 = if sext 64 a <? 0 then -1 else 0).
  { rewrite Z.shiftr_div_pow2 by lia. change (64 - 1) with 63 in Hr. destruct (Z.ltb_spec (sext 64 a) 0).
    - symmetry. apply Z.div_unique with (r := sext 64 a + 2 ^ 63); lia.
    - apply Z.div_small. lia. }
  rewrite Hs. destruct (sext 64 a <? 0).
  - assert (wrap 64 (-1) .& b = b) as ->.
    { apply (eqm_eq 64); [apply land_in_u_r; [lia|exact Hb]|exact Hb|]. rewrite eqm_wrap, Z.land_m1_l by lia. reflexivity. }
    reflexivity.
  - change (wrap 64 0 .& b) with 0. rewrite Z.sub_0_r. apply wrap_id, wrap_range. lia.
Qed.

Lemma divu_range n a b : 0 <= n -> in_u n a -> in_u n b -> in_u n (divu n a b).
Proof.
  intros Hn Ha Hb. unfold divu. destruct (Z.eqb_spec b 0); [apply wrap_range; exact Hn|]. unfold in_u in *.
  split; [apply Z.div_pos; lia|]. apply Z.div_lt_upper_bound; nia.
Qed.

Lemma x86_remu_range n a b : in_u n a -> in_u n b -> in_u n (remu a b).
Proof.
  intros Ha Hb. unfold remu. destruct (Z.eqb_spec b 0); [exact Ha|]. unfold in_u in *.
  pose proof (Z.mod_pos_bound a b). lia.
Qed.

Lemma sext_div n a b : 0 < n -> sext n (div n a b) = div n a b.
Proof.
  intros Hn. apply sext_id; [exact Hn|]. unfold div. destruct (b =? 0); [|apply sext_range; exact Hn].
  unfold in_i. pose proof (Z.pow_pos_nonneg 2 (n - 1)). lia.
Qed.

Lemma sext_rem n a b : 0 < n -> in_i n a -> sext n (rem n a b) = rem n a b.
Proof. intros Hn Ha. apply sext_id; [exact Hn|]. unfold rem. destruct (b =? 0); [exact Ha|apply sext_range; exact Hn]. Qed.
