(* ===== verification/DbtProps.v ===== *)
(** The code emitted for integer computation does what the interpreter does: a triple for
    each [emit_*], and the theorem for [emit_op] against [step]. *)

From Stdlib Require Import ZArith Lia Bool List.
From stdpp Require Import base list.
From S2P Require Import Prelude RiscvOp X86Op Hart Words X86Sem HartStepExt Signal Dbt DbtLogic DbtDiv.
Import ListNotations.
Local Open Scope Z_scope.
Local Open Scope rust_scope.
Local Open Scope dbt_scope.
Import X86 X86Sem Signal Dbt.

#[local] Existing Instance any_encoder.

(** ** Automation *)

Ltac view_simpl :=
  cbn [vregs vpc va vc vd vsi vflags set_regs set_vpc set_a set_c set_d set_si set_fl] in *;
  change (bits Qword) with 64 in *; change (bits Dword) with 32 in *; change (bits Byte) with 8 in *.

Ltac get_tac :=
  first [ apply gets_rax | apply gets_eax | apply gets_rcx | apply gets_rdx | apply gets_edx | apply gets_rsi
        | apply gets_al | apply gets_cl | apply gets_register; lia | apply gets_sized; lia | apply gets_pc; lia ].

Ltac operand_tac :=
  first [ apply operand_imm | apply operand_loc; get_tac | apply operand_reg; get_tac | apply operand_mem; get_tac ].

Ltac put_tac :=
  first [ apply puts_rax | apply puts_eax | apply puts_rcx | apply puts_rdx | apply puts_edx | apply puts_rsi
        | apply puts_al | apply puts_cl | apply puts_register; lia | apply puts_pc; lia ].

Lemma size_register r : loc_size (loc_of_register r) = Some Qword.
Proof. reflexivity. Qed.

Lemma size_sized r size : loc_size (loc_sized r size) = Some size.
Proof. reflexivity. Qed.

Ltac size_tac := first [apply size_register | apply size_sized | reflexivity].

(** One operation. *)
Ltac step :=
  lazymatch goal with
  | |- triple _ _ (Dbt.seq _ _) _ => apply t_seq; step
  | |- triple _ _ skip _ => apply t_skip
  | |- triple _ _ (emit (Mov _ _)) _ => eapply t_mov; [size_tac|operand_tac|put_tac|]
  | |- triple _ _ (emit (Cmp _ _)) _ => eapply t_compare; [intros; reflexivity|size_tac|get_tac|operand_tac|]
  | |- triple _ _ (emit (Shl _ _)) _ => eapply t_shift; [intros; reflexivity|size_tac|get_tac|operand_tac|put_tac|]
  | |- triple _ _ (emit (Shr _ _)) _ => eapply t_shift; [intros; reflexivity|size_tac|get_tac|operand_tac|put_tac|]
  | |- triple _ _ (emit (Sar _ _)) _ => eapply t_shift; [intros; reflexivity|size_tac|get_tac|operand_tac|put_tac|]
  | |- triple _ _ (emit (Not _)) _ => eapply t_not; [get_tac|put_tac|]
  | |- triple _ _ (emit (Neg _)) _ => eapply t_neg; [size_tac|get_tac|put_tac|]
  | |- triple _ _ (emit (Imul2 _ _)) _ => eapply t_imul2; [get_tac|get_tac|put_tac|]
  | |- triple _ _ (emit (Mul _)) _ => eapply t_multiply; [intros; reflexivity|size_tac|get_tac|]
  | |- triple _ _ (emit (Imul1 _)) _ => eapply t_multiply; [intros; reflexivity|size_tac|get_tac|]
  | |- triple _ _ (emit (Movsx _ _)) _ => eapply t_extend; [intros; reflexivity|size_tac|get_tac|put_tac|]
  | |- triple _ _ (emit (Movzx _ _)) _ => eapply t_extend; [intros; reflexivity|size_tac|get_tac|put_tac|]
  | |- triple _ _ (emit (Setcc _ _)) _ => eapply t_setcc; [reflexivity|let E := fresh in intros ? E; unfold condition; rewrite E; reflexivity|put_tac|]
  | |- triple _ _ (emit Cdqe) _ => apply t_cdqe
  | |- triple _ _ (emit Cdq) _ => apply t_cdq
  | |- triple _ _ (emit Cqo) _ => apply t_cqo
  | |- triple _ _ (emit _) _ => eapply t_alu; [intros; reflexivity|size_tac|get_tac|operand_tac|put_tac|]
  end; cbv beta; view_simpl.

(** ** Flags after a comparison *)

Lemma flags_less n a b : 0 < n ->
  xorb (sf (flags_sub n a b)) (ovf (flags_sub n a b)) = (sext n a <? sext n b).
Proof.
  intros Hn. unfold flags_sub, result_flags. cbn [sf ovf]. rewrite testbit_sign by exact Hn.
  assert (E : sext n (a - b) = sext n (sext n a - sext n b))
    by (apply eqm_sext_eq; rewrite !eqm_sext by lia; reflexivity).
  rewrite E. pose proof (sext_range n a Hn) as Ha. pose proof (sext_range n b Hn) as Hb. unfold in_i in *.
  assert (Hp : 2 ^ n = 2 * 2 ^ (n - 1)) by (rewrite <- Z.pow_succ_r by lia; f_equal; lia).
  pose proof (sext_turn n (sext n a - sext n b) Hn ltac:(lia)) as T.
  pose proof (sext_range n (sext n a - sext n b) Hn) as Hd. unfold in_i in Hd.
  destruct (Z.ltb_spec (sext n (sext n a - sext n b)) 0), (Z.eqb_spec (sext n (sext n a - sext n b)) (sext n a - sext n b)),
    (Z.ltb_spec (sext n a) (sext n b)); cbn; try reflexivity; lia.
Qed.

Lemma flags_equal n a b : in_u n a -> in_u n b -> zf (flags_sub n a b) = (a =? b).
Proof.
  intros Ha Hb. unfold flags_sub, result_flags, in_u in *. cbn [zf].
  assert (0 <= n) by (destruct (Z.ltb_spec n 0); [rewrite Z.pow_neg_r in Ha by lia; lia|lia]).
  destruct (Z.eqb_spec a b) as [->|N]; [rewrite Z.sub_diag; apply Z.eqb_eq, Z.mod_0_l; lia|].
  apply Z.eqb_neq. intros E. apply N. apply (eqm_eq n); auto. unfold eqm.
  change (eqm n (a - b) 0) in E. change (eqm n a b). rewrite <- (Z.sub_add b a), E. reflexivity.
Qed.

Section Guest.
Variable rbp : Z.
Hypothesis Hrbp : 0 <= rbp /\ rbp + 65536 <= 2 ^ 64.

Notation triple := (triple rbp).

(** The registers have [x] in [rd], and the program counter is as it was. *)
Definition done (regs : list Z) (pc rd x : Z) (V : View) : Prop :=
  vregs V = (if rd =? 0 then regs else <[Z.to_nat rd := x]> regs) /\ vpc V = pc.

Definition writes (V : View) (c : Code) (rd x : Z) : Prop := triple V c (done (vregs V) (vpc V) rd x).

Lemma t_wf V c Q : (wf_regs (vregs V) -> triple V c Q) -> triple V c Q.
Proof. intros HT s0 s H. exact (HT (v_wf _ _ _ _ H) s0 s H). Qed.

Lemma set_fl_same V : set_fl (vflags V) V = V.
Proof. destruct V. reflexivity. Qed.

Lemma u64_reg regs r : wf_regs regs -> u64 (reg regs r) = reg regs r.
Proof. intros Hw. apply wrap_id, reg_range, Hw. Qed.

Lemma reg_zero regs : wf_regs regs -> reg regs 0 = 0.
Proof. intros (_ & _ & H). exact H. Qed.

Lemma done_insert regs pc rd x V : rd <> 0 -> vregs V = <[Z.to_nat rd := x]> regs -> vpc V = pc -> done regs pc rd x V.
Proof. intros Hd Hr Hp. split; [|exact Hp]. rewrite Hr. destruct (Z.eqb_spec rd 0); [contradiction|reflexivity]. Qed.

Lemma done_zero regs pc rd x V : rd = 0 -> vregs V = regs -> vpc V = pc -> done regs pc rd x V.
Proof. intros -> Hr Hp. split; auto. Qed.

(** Ends a triple: the value written is the value wanted. *)
Ltac finish :=
  first [ apply done_zero; [lia|reflexivity|reflexivity]
        | apply done_insert; [lia|view_simpl; f_equal|reflexivity] ].

(** ** Helpers *)

Lemma t_load_rax V r (Q : View -> Prop) : 0 <= r < 32 ->
  (forall f, Q (set_fl f (set_a (reg (vregs V) r) V))) -> triple V (load_reg RAX r) Q.
Proof.
  intros Hr HQ. apply t_wf. intros Hw. unfold load_reg. destruct (Z.eqb_spec r 0) as [->|N].
  - change (reg_resize RAX Dword) with (Some EAX). cbv iota. step. rewrite Z.lxor_nilpotent.
    rewrite (reg_zero _ Hw) in HQ. apply HQ.
  - change (reg_size RAX) with (Some Qword). cbv iota.
    change (loc_sized r Qword) with (loc_of_register r). step. rewrite (u64_reg _ _ Hw).
    specialize (HQ (vflags V)). exact HQ.
Qed.

Lemma t_load_eax V r (Q : View -> Prop) : 0 <= r < 32 ->
  (forall f, Q (set_fl f (set_a (u32 (reg (vregs V) r)) V))) -> triple V (load_reg EAX r) Q.
Proof.
  intros Hr HQ. apply t_wf. intros Hw. unfold load_reg. destruct (Z.eqb_spec r 0) as [->|N].
  - change (reg_resize EAX Dword) with (Some EAX). cbv iota. step. rewrite Z.lxor_nilpotent.
    rewrite (reg_zero _ Hw) in HQ. apply HQ.
  - change (reg_size EAX) with (Some Dword). cbv iota. step.
    specialize (HQ (vflags V)). unfold u32 at 1. rewrite wrap_id by (apply wrap_range; lia).
    exact HQ.
Qed.

Lemma t_store_rax V rd regs pc x : 0 <= rd < 32 -> vregs V = regs -> vpc V = pc -> u64 (va V) = x ->
  triple V (store_reg rd RAX) (done regs pc rd x).
Proof.
  intros Hr <- <- <-. unfold store_reg. destruct (Z.eqb_spec rd 0) as [->|N]; [step; finish|].
  change (reg_resize RAX Qword) with (Some RAX). change (reg_size RAX) with (Some Qword). cbv iota.
  step. step. finish.
Qed.

Lemma t_store_eax V rd regs pc x : 0 <= rd < 32 -> vregs V = regs -> vpc V = pc -> u64 (i32 (va V)) = x ->
  triple V (store_reg rd EAX) (done regs pc rd x).
Proof.
  intros Hr <- <- <-. unfold store_reg. destruct (Z.eqb_spec rd 0) as [->|N]; [step; finish|].
  change (reg_resize EAX Qword) with (Some RAX). change (reg_size EAX) with (Some Dword).
  change (is_eax EAX) with true. cbv iota. step. step. finish. eqm_solve.
Qed.

Lemma emit_load_imm_ok V rd imm : 0 <= rd < 32 -> writes V (emit_load_imm rd imm) rd (u64 imm).
Proof.
  intros Hr. unfold writes, emit_load_imm. destruct (Z.eqb_spec rd 0) as [->|N]; step; finish.
  eqm_solve.
Qed.

Lemma emit_move_ok V rd rs : 0 <= rd < 32 -> 0 <= rs < 32 -> writes V (emit_move rd rs) rd (reg (vregs V) rs).
Proof.
  intros Hd Hs. unfold writes. apply t_wf. intros Hw. unfold emit_move.
  destruct (Z.eqb_spec rd 0) as [->|N]; cbn [orb]; [step; finish|].
  destruct (Z.eqb_spec rd rs) as [->|N'].
  { step. apply done_insert; [assumption| |reflexivity]. symmetry. apply list_insert_id.
    destruct Hw as (Hl & _). unfold reg. rewrite nth_lookup.
    destruct (vregs V !! Z.to_nat rs) eqn:E; [reflexivity|]. apply lookup_ge_None in E. lia. }
  destruct (Z.eqb_spec rs 0) as [->|N0].
  - rewrite (reg_zero _ Hw). apply emit_load_imm_ok. exact Hd.
  - step. step. finish. rewrite !u64_reg by assumption. reflexivity.
Qed.

Lemma emit_move32_ok V rd rs : 0 <= rd < 32 -> 0 <= rs < 32 ->
  writes V (emit_move32 rd rs) rd (u64 (i32 (reg (vregs V) rs))).
Proof.
  intros Hd Hs. unfold writes. apply t_wf. intros Hw. unfold emit_move32.
  destruct (Z.eqb_spec rd 0) as [->|N]; [step; finish|].
  destruct (Z.eqb_spec rs 0) as [->|N0].
  - rewrite (reg_zero _ Hw). apply emit_load_imm_ok. exact Hd.
  - step. step. finish. unfold i32. rewrite sext_wrap. eqm_solve.
Qed.

(** ** OP-IMM *)

Lemma writes_eq V c rd x y : writes V c rd x -> x = y -> writes V c rd y.
Proof. intros H <-. exact H. Qed.

Lemma word_eq a b : in_u 64 b -> eqm 64 a b -> u64 a = b.
Proof. intros Hb H. unfold u64. rewrite H. apply wrap_id. exact Hb. Qed.

(** The count of a 64-bit and of a 32-bit shift. *)
Lemma count64 x : count_of 64 (wrap 8 x) = x .& 63.
Proof.
  unfold count_of. cbn [Z.eqb Pos.eqb]. change 63 with (2 ^ 6 - 1). rewrite !land_mask by lia. apply eqm_wrap. lia.
Qed.

Lemma count32 x : count_of 32 (wrap 8 x) = x .& 31.
Proof.
  unfold count_of. cbn [Z.eqb Pos.eqb]. change 31 with (2 ^ 5 - 1). rewrite !land_mask by lia. apply eqm_wrap. lia.
Qed.

Lemma shift_one x k : k = 1 -> x << k = x + x.
Proof. intros ->. rewrite Z.shiftl_mul_pow2 by lia. lia. Qed.

Lemma mask_range x n : 0 <= n -> in_u n (x .& (2 ^ n - 1)).
Proof. intros Hn. rewrite land_mask by lia. apply wrap_range. exact Hn. Qed.

Lemma mask63_range x : 0 <= x .& 63 < 64.
Proof. exact (mask_range x 6 ltac:(lia)). Qed.

Lemma mask31_range x : 0 <= x .& 31 < 32.
Proof. exact (mask_range x 5 ltac:(lia)). Qed.

Ltac start Hw := intros; unfold writes; apply t_wf; intros Hw.

(** The destination is [x0]: nothing is emitted. *)
Ltac dest := let H := fresh "Hd" in match goal with |- DbtLogic.triple _ _ (if ?rd =? 0 then _ else _) _ =>
  destruct (Z.eqb_spec rd 0) as [->|H]; [step; finish|] end.

(** A source is [x0]. *)
Ltac source r Hw := let N := fresh "N" in destruct (Z.eqb_spec r 0) as [->|N]; [rewrite ?(reg_zero _ Hw)|].

Lemma emit_addi_ok V rd rs1 imm : 0 <= rd < 32 -> 0 <= rs1 < 32 ->
  writes V (emit_addi rd rs1 imm) rd (u64 (reg (vregs V) rs1 + u64 imm)).
Proof.
  start Hw. unfold emit_addi. dest. source rs1 Hw.
  { eapply writes_eq; [apply emit_load_imm_ok; lia|]. rewrite Z.add_0_l. eqm_solve. }
  destruct (Z.eqb_spec imm 0) as [->|N1].
  { eapply writes_eq; [apply emit_move_ok; lia|]. rewrite Z.add_0_r, u64_reg by assumption. reflexivity. }
  destruct (Z.eqb_spec rd rs1) as [->|N2]; repeat step; finish; eqm_solve.
Qed.

Lemma emit_slli_ok V rd rs1 imm : 0 <= rd < 32 -> 0 <= rs1 < 32 ->
  writes V (emit_slli rd rs1 imm) rd (u64 (reg (vregs V) rs1 << (imm .& 63))).
Proof.
  start Hw. unfold emit_slli. pose proof (mask63_range imm). dest. source rs1 Hw.
  { rewrite Z.shiftl_0_l. apply emit_load_imm_ok. lia. }
  destruct (Z.eqb_spec imm 0) as [->|N1].
  { eapply writes_eq; [apply emit_move_ok; lia|]. rewrite Z.shiftl_0_r, u64_reg by assumption. reflexivity. }
  destruct (Z.eqb_spec rd rs1) as [->|N2]; [step; finish; rewrite count64; reflexivity|].
  destruct (Z.eqb_spec imm 1) as [->|N3]; step; step; step; finish.
  - rewrite shift_one by reflexivity. eqm_solve.
  - rewrite count64, u64_reg by assumption. eqm_solve.
Qed.

Lemma low_byte_zero x b : u64 (with_low_byte (u32 (x .^ x)) (Z.b2z b)) = Z.b2z b.
Proof. rewrite Z.lxor_nilpotent. destruct b; reflexivity. Qed.

(** [RAX] is cleared, a comparison with a constant is made, and its outcome stored. *)
Lemma compare_imm_ok V r imm cc b rd : 0 <= r < 32 -> 0 <= rd < 32 ->
  (forall s, flags s = Some (flags_sub 64 (reg (vregs V) r) (u64 imm)) -> condition cc s = Some b) ->
  writes V (emit (Xor (Reg EAX) (OpReg EAX)) ;; emit (Cmp (loc_of_register r) (Imm imm)) ;;
            emit (Setcc (Reg AL) cc) ;; store_reg rd RAX) rd (Z.b2z b).
Proof.
  intros Hr Hd Hc. unfold writes. step. step. apply t_seq. eapply t_setcc; [reflexivity|exact Hc|put_tac|].
  view_simpl. apply t_store_rax; [exact Hd|reflexivity|reflexivity|]. apply low_byte_zero.
Qed.

(** The sign bit. *)
Lemma sign_bit x : in_u 64 x -> x >> 63 = Z.b2z (i64 x <? 0).
Proof.
  intros Hx. unfold i64. rewrite sext_unsigned, Z.shiftr_div_pow2 by (auto; lia). unfold in_u in Hx.
  change (64 - 1) with 63. destruct (Z.ltb_spec x (2 ^ 63)).
  - rewrite Z.div_small by lia. destruct (Z.ltb_spec x 0); [lia|reflexivity].
  - rewrite <- (Z.div_unique x (2 ^ 63) 1 (x - 2 ^ 63)) by lia.
    destruct (Z.ltb_spec (x - 2 ^ 64) 0); [reflexivity|lia].
Qed.

(** The sign bit of [rs1], stored. *)
Lemma sign_ok V rd rs1 : 0 < rd < 32 -> 0 <= rs1 < 32 ->
  writes V (if rd =? rs1 then emit (Shr (loc_of_register rd) (Imm 63))
            else load_reg RAX rs1 ;; emit (Shr (Reg RAX) (Imm 63)) ;; store_reg rd RAX)
    rd (Z.b2z (i64 (reg (vregs V) rs1) <? 0)).
Proof.
  start Hw. rewrite <- sign_bit by (apply reg_range, Hw).
  assert (Hv : in_u 64 (reg (vregs V) rs1 >> 63)) by (apply shiftr_in_u; [lia|apply reg_range, Hw]).
  destruct (Z.eqb_spec rd rs1) as [->|N].
  - step. finish. rewrite count64. apply wrap_id, Hv.
  - apply t_seq, t_load_rax; [lia|]. intros f. step. apply t_store_rax; [lia|reflexivity|reflexivity|].
    view_simpl. rewrite count64. change (63 .& 63) with 63. unfold u64.
    rewrite !(wrap_id 64 (_ >> 63)) by exact Hv. reflexivity.
Qed.

(** A value that is overwritten does not matter. *)
Lemma writes_twice V a b rd x y : 0 < rd < 32 -> writes V a rd y ->
  (forall V1, (forall r, 0 <= r < 32 -> r <> rd -> reg (vregs V1) r = reg (vregs V) r) -> writes V1 b rd x) ->
  writes V (a ;; b) rd x.
Proof.
  intros Hd Ha Hb. apply t_wf. intros (Hl & _). apply t_seq. eapply t_mono; [exact Ha|].
  intros V1 [R1 P1]. destruct (Z.eqb_spec rd 0); [lia|]. eapply t_mono; [apply Hb|].
  - intros r Hr Hn. rewrite R1, reg_insert by lia. destruct (Z.eqb_spec r rd); [contradiction|reflexivity].
  - intros V2 [R2 P2]. destruct (Z.eqb_spec rd 0); [lia|]. apply done_insert; [lia| |congruence].
    rewrite R2, R1. apply list_insert_insert_eq.
Qed.

Lemma writes_skip V b rd x : writes V b rd x -> writes V (skip ;; b) rd x.
Proof. intros H. apply t_seq, t_skip. exact H. Qed.

Lemma u64_i32 imm : in_i 32 imm -> i64 (u64 imm) = imm.
Proof. intros H. unfold i64, u64. rewrite sext_wrap. apply sext_id; [lia|]. unfold in_i in *. lia. Qed.

Lemma less_imm a imm : in_i 32 imm ->
  xorb (sf (flags_sub 64 a (u64 imm))) (ovf (flags_sub 64 a (u64 imm))) = (i64 a <? imm).
Proof. intros H. rewrite flags_less by lia. fold i64. rewrite u64_i32 by exact H. reflexivity. Qed.

Lemma i64_inj a b : in_u 64 a -> in_u 64 b -> i64 a = i64 b -> a = b.
Proof.
  intros Ha Hb E. unfold i64 in E. rewrite <- (wrap_id 64 a Ha), <- (wrap_id 64 b Hb).
  rewrite <- (wrap_sext 64 a), <- (wrap_sext 64 b), E by lia. reflexivity.
Qed.

Lemma less_or_equal a imm : in_u 64 a -> in_i 32 imm -> 0 < imm ->
  (a =? u64 (imm - 1)) || (i64 a <? imm - 1) = (i64 a <? imm).
Proof.
  intros Ha Hi Hp. assert (E : i64 (u64 (imm - 1)) = imm - 1) by (apply u64_i32; unfold in_i in *; lia).
  destruct (Z.eqb_spec a (u64 (imm - 1))) as [->|N]; cbn [orb]; [rewrite E; symmetry; apply Z.ltb_lt; lia|].
  assert (i64 a <> imm - 1).
  { intros F. apply N. apply i64_inj; [exact Ha|apply wrap_range; lia|]. congruence. }
  destruct (Z.ltb_spec (i64 a) (imm - 1)), (Z.ltb_spec (i64 a) imm); reflexivity || lia.
Qed.

Lemma emit_slti_ok V rd rs1 imm : 0 <= rd < 32 -> 0 <= rs1 < 32 -> in_i 32 imm ->
  writes V (emit_slti rd rs1 imm) rd (Z.b2z (i64 (reg (vregs V) rs1) <? imm)).
Proof.
  intros Hd Hs Hi. unfold emit_slti. destruct (Z.eqb_spec rd 0) as [->|N]; [unfold writes; step; finish|].
  set (c := (if imm =? 0 then _ else _)).
  assert (T : forall V, writes V c rd (Z.b2z (i64 (reg (vregs V) rs1) <? imm))).
  { clear V. intros V. apply t_wf. intros Hw. subst c. pose proof (reg_range (vregs V) rs1 Hw) as Hr.
    destruct (Z.eqb_spec imm 0) as [->|N0]; [apply sign_ok; lia|]. unfold in_i in Hi.
    destruct (Z.ltb_spec 0 imm); apply compare_imm_ok; try lia; intros s E; unfold condition; rewrite E; f_equal.
    - rewrite less_imm, flags_equal by (try apply wrap_range; unfold in_i; auto; lia).
      apply less_or_equal; assumption.
    - apply less_imm. exact Hi. }
  destruct (Z.eqb_spec rs1 0) as [->|N1]; [|apply writes_skip, T].
  eapply writes_twice; [lia|apply emit_load_imm_ok; lia|]. intros V1 E1. rewrite <- (E1 0) by lia. apply T.
Qed.

(** The condition chosen for an unsigned comparison with a constant. *)
Lemma sltiu_condition a imm s : in_u 64 a -> in_i 32 imm ->
  let '(k, cc) := if 0 <? imm then (imm - 1, if imm - 1 =? 0 then Equal else BelowEqual)
                  else (imm, if imm =? -1 then NotEqual else Below) in
  flags s = Some (flags_sub 64 a (u64 k)) -> condition cc s = Some (a <? u64 imm).
Proof.
  intros Ha Hi. unfold in_i in Hi. assert (Hk : forall k, in_u 64 (u64 k)) by (intros; apply wrap_range; lia).
  assert (Hs : 0 < imm -> u64 imm = imm /\ u64 (imm - 1) = imm - 1)
    by (intros; split; apply wrap_id; unfold in_u; lia). unfold in_u in Ha.
  destruct (Z.ltb_spec 0 imm) as [L|L].
  - destruct (Hs L) as [E1 E2]. destruct (Z.eqb_spec (imm - 1) 0) as [Z0|Z0]; intros E; unfold condition; rewrite E; f_equal;
      rewrite flags_equal, E1, E2 by (unfold in_u; auto; rewrite E2; lia).
    + destruct (Z.eqb_spec a (imm - 1)), (Z.ltb_spec a imm); reflexivity || lia.
    + cbn [cf flags_sub result_flags]. destruct (Z.ltb_spec a (imm - 1)), (Z.eqb_spec a (imm - 1)), (Z.ltb_spec a imm);
        reflexivity || lia.
  - destruct (Z.eqb_spec imm (-1)) as [->|Z0]; intros E; unfold condition; rewrite E; f_equal.
    rewrite flags_equal by (unfold in_u; auto; vm_compute; split; congruence). change (u64 (-1)) with (2 ^ 64 - 1).
    destruct (Z.eqb_spec a (2 ^ 64 - 1)), (Z.ltb_spec a (2 ^ 64 - 1)); reflexivity || lia.
Qed.

Lemma emit_sltiu_ok V rd rs1 imm : 0 <= rd < 32 -> 0 <= rs1 < 32 -> in_i 32 imm ->
  writes V (emit_sltiu rd rs1 imm) rd (Z.b2z (reg (vregs V) rs1 <? u64 imm)).
Proof.
  intros Hd Hs Hi. unfold emit_sltiu. destruct (Z.eqb_spec rd 0) as [->|N]; [unfold writes; step; finish|].
  match goal with |- writes _ (_ ;; (_ ;; ?x)) _ _ => set (c := x) end.
  assert (T : forall V, writes V c rd (Z.b2z (reg (vregs V) rs1 <? u64 imm))).
  { clear V. intros V. apply t_wf. intros Hw. subst c. pose proof (reg_range (vregs V) rs1 Hw) as Hr.
    pose proof (fun s => sltiu_condition _ imm s Hr Hi) as C.
    destruct (if 0 <? imm then _ else _) as [k cc]. apply compare_imm_ok; try lia. exact C. }
  assert (T' : forall V, writes V ((if imm =? 0 then emit_load_imm rd 0 else skip) ;; c) rd (Z.b2z (reg (vregs V) rs1 <? u64 imm))).
  { clear V. intros V. destruct (Z.eqb_spec imm 0) as [->|N0]; [|apply writes_skip, T].
    apply t_wf. intros Hw. eapply writes_twice; [lia|apply emit_load_imm_ok; lia|]. intros V1 E1.
    apply t_wf. intros Hw1. eapply writes_eq; [apply T|]. change (u64 0) with 0.
    pose proof (reg_range _ rs1 Hw). pose proof (reg_range _ rs1 Hw1). unfold in_u in *.
    destruct (Z.ltb_spec (reg (vregs V1) rs1) 0), (Z.ltb_spec (reg (vregs V) rs1) 0); reflexivity || lia. }
  destruct (Z.eqb_spec rs1 0) as [->|N1]; [|apply writes_skip, T'].
  eapply writes_twice; [lia|apply emit_load_imm_ok; lia|]. intros V1 E1. rewrite <- (E1 0) by lia. apply T'.
Qed.

(** Words that fit. *)
Lemma land_word a b : in_u 64 a -> in_u 64 (a .& b).
Proof. apply land_in_u_l. lia. Qed.
Lemma lor_word a b : in_u 64 a -> in_u 64 b -> in_u 64 (a .| b).
Proof. apply lor_in_u. lia. Qed.
Lemma lxor_word a b : in_u 64 a -> in_u 64 b -> in_u 64 (a .^ b).
Proof. apply lxor_in_u. lia. Qed.
Lemma shiftr_word a k : in_u 64 a -> in_u 64 (a >> (k .& 63)).
Proof. apply shiftr_in_u. pose proof (mask63_range k). lia. Qed.
Lemma wrap64_word x : in_u 64 (u64 x).
Proof. apply wrap_range. lia. Qed.

Create HintDb dbt.
Hint Resolve land_word lor_word lxor_word shiftr_word wrap64_word reg_range : dbt.

(** The value stored is a word that is congruent to the value wanted. *)
Ltac word_solve := apply word_eq; [auto with dbt|]; eqm_norm; reflexivity.

(** [load_reg RAX; op; store_reg], and the same with [EAX]. *)
Ltac via_rax := apply t_seq, t_load_rax; [lia|]; intros ?; repeat step; apply t_store_rax; [lia|reflexivity|reflexivity|]; view_simpl.
Ltac via_eax := apply t_seq, t_load_eax; [lia|]; intros ?; repeat step; apply t_store_eax; [lia|reflexivity|reflexivity|]; view_simpl.

Lemma emit_xori_ok V rd rs1 imm : 0 <= rd < 32 -> 0 <= rs1 < 32 ->
  writes V (emit_xori rd rs1 imm) rd (reg (vregs V) rs1 .^ u64 imm).
Proof.
  start Hw. unfold emit_xori. dest. source rs1 Hw.
  { rewrite Z.lxor_0_l. apply emit_load_imm_ok. lia. }
  destruct (Z.eqb_spec imm 0) as [->|N1].
  { eapply writes_eq; [apply emit_move_ok; lia|]. change (u64 0) with 0. rewrite Z.lxor_0_r. reflexivity. }
  destruct (Z.eqb_spec imm (-1)) as [->|N2], (Z.eqb_spec rd rs1) as [->|N3].
  - step. finish. apply word_eq; [auto with dbt|]. eqm_norm. rewrite Z.lxor_m1_r. reflexivity.
  - via_rax. apply word_eq; [auto with dbt|]. eqm_norm. rewrite Z.lxor_m1_r. reflexivity.
  - step. finish. word_solve.
  - via_rax. word_solve.
Qed.

Lemma emit_srli_ok V rd rs1 imm : 0 <= rd < 32 -> 0 <= rs1 < 32 ->
  writes V (emit_srli rd rs1 imm) rd (reg (vregs V) rs1 >> (imm .& 63)).
Proof.
  start Hw. unfold emit_srli. dest. source rs1 Hw.
  { rewrite Z.shiftr_0_l. apply emit_load_imm_ok. lia. }
  destruct (Z.eqb_spec imm 0) as [->|N1].
  { eapply writes_eq; [apply emit_move_ok; lia|]. rewrite Z.shiftr_0_r. reflexivity. }
  destruct (Z.eqb_spec rd rs1) as [->|N2]; repeat step; finish; rewrite count64, ?u64_reg by assumption; word_solve.
Qed.

Lemma emit_srai_ok V rd rs1 imm : 0 <= rd < 32 -> 0 <= rs1 < 32 ->
  writes V (emit_srai rd rs1 imm) rd (u64 (i64 (reg (vregs V) rs1) >> (imm .& 63))).
Proof.
  start Hw. unfold emit_srai. dest. source rs1 Hw.
  { change (i64 0) with 0. rewrite Z.shiftr_0_l. apply emit_load_imm_ok. lia. }
  destruct (Z.eqb_spec imm 0) as [->|N1].
  { eapply writes_eq; [apply emit_move_ok; lia|]. rewrite Z.shiftr_0_r. symmetry. word_solve. }
  destruct (Z.eqb_spec rd rs1) as [->|N2]; repeat step; finish; rewrite count64, ?u64_reg by assumption; eqm_solve.
Qed.

Lemma emit_ori_ok V rd rs1 imm : 0 <= rd < 32 -> 0 <= rs1 < 32 ->
  writes V (emit_ori rd rs1 imm) rd (reg (vregs V) rs1 .| u64 imm).
Proof.
  start Hw. unfold emit_ori. dest. source rs1 Hw; [apply emit_load_imm_ok; lia|].
  destruct (Z.eqb_spec imm 0) as [->|N1].
  { eapply writes_eq; [apply emit_move_ok; lia|]. change (u64 0) with 0. rewrite Z.lor_0_r. reflexivity. }
  destruct (Z.eqb_spec imm (-1)) as [->|N2].
  { eapply writes_eq; [apply emit_load_imm_ok; lia|]. apply word_eq; [auto with dbt|]. eqm_norm. rewrite Z.lor_m1_r.
    reflexivity. }
  destruct (Z.eqb_spec rd rs1) as [->|N3]; [step; finish|via_rax]; word_solve.
Qed.

Lemma emit_andi_ok V rd rs1 imm : 0 <= rd < 32 -> 0 <= rs1 < 32 ->
  writes V (emit_andi rd rs1 imm) rd (reg (vregs V) rs1 .& u64 imm).
Proof.
  start Hw. unfold emit_andi. dest. source rs1 Hw; [apply emit_load_imm_ok; lia|].
  destruct (Z.eqb_spec imm 0) as [->|N1].
  { eapply writes_eq; [apply emit_load_imm_ok; lia|]. change (u64 0) with 0. rewrite Z.land_0_r. reflexivity. }
  destruct (Z.eqb_spec imm (-1)) as [->|N2].
  { eapply writes_eq; [apply emit_move_ok; lia|]. rewrite <- (u64_reg (vregs V) rs1) at 1 by assumption.
    apply word_eq; [auto with dbt|]. eqm_norm. rewrite Z.land_m1_r. reflexivity. }
  destruct (Z.eqb_spec rd rs1) as [->|N3]; [step; finish|via_rax]; word_solve.
Qed.

(** ** OP-IMM-32 *)

(** Congruence of 32-bit values is enough. *)
Lemma word32_eq a b : eqm 32 a b -> u64 (i32 a) = u64 (i32 b).
Proof. intros H. f_equal. apply eqm_sext_eq. exact H. Qed.

Ltac word32_solve := apply word32_eq; eqm_norm; reflexivity.

Lemma sar32 a k : 0 <= k -> u64 (i32 (i32 a >> k)) = u64 (i32 a >> k).
Proof.
  intros Hk. f_equal. apply sext_id; [lia|]. pose proof (sext_range 32 a ltac:(lia)) as H. unfold i32, in_i in *.
  rewrite Z.shiftr_div_pow2 by lia. assert (1 <= 2 ^ k) by (pose proof (Z.pow_pos_nonneg 2 k); lia).
  split; [apply Z.div_le_lower_bound; nia|apply Z.div_lt_upper_bound; nia].
Qed.

Lemma emit_addiw_ok V rd rs1 imm : 0 <= rd < 32 -> 0 <= rs1 < 32 -> in_i 32 imm ->
  writes V (emit_addiw rd rs1 imm) rd (u64 (i32 (i32 (reg (vregs V) rs1) + imm))).
Proof.
  start Hw. unfold emit_addiw. dest. source rs1 Hw.
  { change (i32 0) with 0. rewrite Z.add_0_l. eapply writes_eq; [apply emit_load_imm_ok; lia|].
    f_equal. symmetry. apply sext_id; [lia|assumption]. }
  destruct (Z.eqb_spec imm 0) as [->|N1].
  { eapply writes_eq; [apply emit_move32_ok; lia|]. rewrite Z.add_0_r. word32_solve. }
  via_eax. word32_solve.
Qed.

Lemma emit_slliw_ok V rd rs1 imm : 0 <= rd < 32 -> 0 <= rs1 < 32 ->
  writes V (emit_slliw rd rs1 imm) rd (u64 (i32 (i32 (reg (vregs V) rs1) << (imm .& 31)))).
Proof.
  start Hw. unfold emit_slliw. pose proof (mask31_range imm). dest. source rs1 Hw.
  { change (i32 0) with 0. rewrite Z.shiftl_0_l. apply emit_load_imm_ok. lia. }
  destruct (Z.eqb_spec imm 0) as [->|N1].
  { eapply writes_eq; [apply emit_move32_ok; lia|]. rewrite Z.shiftl_0_r. word32_solve. }
  destruct (Z.eqb_spec imm 1) as [->|N2]; via_eax.
  - rewrite shift_one by reflexivity. word32_solve.
  - rewrite count32. apply word32_eq. eqm_norm. apply eqm_shiftl; [lia|]. eqm_norm. reflexivity.
Qed.

Lemma emit_srliw_ok V rd rs1 imm : 0 <= rd < 32 -> 0 <= rs1 < 32 ->
  writes V (emit_srliw rd rs1 imm) rd (u64 (i32 (u32 (reg (vregs V) rs1) >> (imm .& 31)))).
Proof.
  start Hw. unfold emit_srliw. dest. source rs1 Hw.
  { change (u32 0) with 0. rewrite Z.shiftr_0_l. apply emit_load_imm_ok. lia. }
  destruct (Z.eqb_spec imm 0) as [->|N1].
  { eapply writes_eq; [apply emit_move32_ok; lia|]. rewrite Z.shiftr_0_r. word32_solve. }
  via_eax. rewrite count32. unfold u32. rewrite (wrap_id 32 (wrap 32 _)) by (apply wrap_range; lia). word32_solve.
Qed.

Lemma emit_sraiw_ok V rd rs1 imm : 0 <= rd < 32 -> 0 <= rs1 < 32 ->
  writes V (emit_sraiw rd rs1 imm) rd (u64 (i32 (reg (vregs V) rs1) >> (imm .& 31))).
Proof.
  start Hw. unfold emit_sraiw. pose proof (mask31_range imm). dest. source rs1 Hw.
  { change (i32 0) with 0. rewrite Z.shiftr_0_l. apply emit_load_imm_ok. lia. }
  destruct (Z.eqb_spec imm 0) as [->|N1].
  { eapply writes_eq; [apply emit_move32_ok; lia|]. rewrite Z.shiftr_0_r. reflexivity. }
  via_eax. rewrite count32, <- sar32 by lia. unfold u32. rewrite !sext_wrap. word32_solve.
Qed.

(** ** OP *)

(** A case of the code that is [emit_move], [emit_move32] or [emit_load_imm]. *)
Ltac move_case := eapply writes_eq; [first [apply emit_move_ok | apply emit_move32_ok | apply emit_load_imm_ok]; lia|].

Ltac same a b := let N := fresh "N" in destruct (Z.eqb_spec a b) as [->|N]; cbn [andb].

(** The value is computed in place or in a register. *)
Ltac compute_case := repeat first [apply t_seq, t_load_rax; [lia|]; intros ? | step];
  first [apply t_store_rax; [lia|reflexivity|reflexivity|]; view_simpl | finish].

Lemma emit_add_ok V rd rs1 rs2 : 0 <= rd < 32 -> 0 <= rs1 < 32 -> 0 <= rs2 < 32 ->
  writes V (emit_add rd rs1 rs2) rd (u64 (reg (vregs V) rs1 + reg (vregs V) rs2)).
Proof.
  start Hw. unfold emit_add. dest.
  source rs1 Hw; [move_case; rewrite Z.add_0_l, u64_reg by assumption; reflexivity|].
  source rs2 Hw; [move_case; rewrite Z.add_0_r, u64_reg by assumption; reflexivity|].
  same rd rs1; [same rs1 rs2|same rd rs2; [|same rs1 rs2]]; compute_case.
  - rewrite shift_one by reflexivity. reflexivity.
  - unfold u64. rewrite Z.add_comm. reflexivity.
  - eqm_solve.
  - eqm_solve.
Qed.

Lemma emit_sub_ok V rd rs1 rs2 : 0 <= rd < 32 -> 0 <= rs1 < 32 -> 0 <= rs2 < 32 ->
  writes V (emit_sub rd rs1 rs2) rd (u64 (reg (vregs V) rs1 - reg (vregs V) rs2)).
Proof.
  start Hw. unfold emit_sub. dest.
  source rs2 Hw; [move_case; rewrite Z.sub_0_r, u64_reg by assumption; reflexivity|].
  same rs1 rs2; [move_case; rewrite Z.sub_diag; reflexivity|].
  same rd rs1; [compute_case; eqm_solve|].
  source rs1 Hw; [same rd rs2|rewrite andb_false_r]; compute_case; rewrite ?Z.sub_0_l; eqm_solve.
Qed.

Lemma eqm_shift_word a k : 0 <= k -> u64 (a << k) = u64 (u64 (u64 a << k)).
Proof.
  intros Hk. unfold u64. change (eqm 64 (a << k) (wrap 64 (wrap 64 a << k))). rewrite eqm_wrap by lia.
  apply eqm_shiftl; [exact Hk|]. rewrite eqm_wrap by lia. reflexivity.
Qed.

Lemma count64_cl x v : count_of 64 (u8 (with_low_byte x (wrap 8 v))) = v .& 63.
Proof. rewrite u8_with_low_byte. unfold u8. rewrite wrap_id by (apply wrap_range; lia). apply count64. Qed.

Lemma count32_cl x v : count_of 32 (u8 (with_low_byte x (wrap 8 v))) = v .& 31.
Proof. rewrite u8_with_low_byte. unfold u8. rewrite wrap_id by (apply wrap_range; lia). apply count32. Qed.

Lemma emit_sll_ok V rd rs1 rs2 : 0 <= rd < 32 -> 0 <= rs1 < 32 -> 0 <= rs2 < 32 ->
  writes V (emit_sll rd rs1 rs2) rd (u64 (reg (vregs V) rs1 << (reg (vregs V) rs2 .& 63))).
Proof.
  start Hw. unfold emit_sll. dest.
  source rs1 Hw; [move_case; rewrite Z.shiftl_0_l; reflexivity|].
  source rs2 Hw; [move_case; rewrite Z.shiftl_0_r, u64_reg by assumption; reflexivity|].
  same rd rs1; compute_case; rewrite count64_cl; eqm_solve.
Qed.

Lemma emit_srl_ok V rd rs1 rs2 : 0 <= rd < 32 -> 0 <= rs1 < 32 -> 0 <= rs2 < 32 ->
  writes V (emit_srl rd rs1 rs2) rd (reg (vregs V) rs1 >> (reg (vregs V) rs2 .& 63)).
Proof.
  start Hw. unfold emit_srl. dest.
  source rs1 Hw; [move_case; rewrite Z.shiftr_0_l; reflexivity|].
  source rs2 Hw; [move_case; rewrite Z.shiftr_0_r; reflexivity|].
  same rd rs1; compute_case; rewrite count64_cl; word_solve.
Qed.

Lemma emit_sra_ok V rd rs1 rs2 : 0 <= rd < 32 -> 0 <= rs1 < 32 -> 0 <= rs2 < 32 ->
  writes V (emit_sra rd rs1 rs2) rd (u64 (i64 (reg (vregs V) rs1) >> (reg (vregs V) rs2 .& 63))).
Proof.
  start Hw. unfold emit_sra. dest.
  source rs1 Hw; [move_case; change (i64 0) with 0; rewrite Z.shiftr_0_l; reflexivity|].
  source rs2 Hw; [move_case; rewrite Z.shiftr_0_r; symmetry; word_solve|].
  same rd rs1; compute_case; rewrite count64_cl; eqm_solve.
Qed.

Lemma emit_xor_ok V rd rs1 rs2 : 0 <= rd < 32 -> 0 <= rs1 < 32 -> 0 <= rs2 < 32 ->
  writes V (emit_xor rd rs1 rs2) rd (reg (vregs V) rs1 .^ reg (vregs V) rs2).
Proof.
  start Hw. unfold emit_xor. dest. source rs1 Hw; [move_case; reflexivity|].
  source rs2 Hw; [move_case; rewrite Z.lxor_0_r; reflexivity|].
  same rs1 rs2; [move_case; rewrite Z.lxor_nilpotent; reflexivity|].
  same rd rs1; [|same rd rs2]; compute_case; (apply word_eq; [auto with dbt|]); eqm_norm;
    first [reflexivity | rewrite Z.lxor_comm; reflexivity].
Qed.

Lemma emit_or_ok V rd rs1 rs2 : 0 <= rd < 32 -> 0 <= rs1 < 32 -> 0 <= rs2 < 32 ->
  writes V (emit_or rd rs1 rs2) rd (reg (vregs V) rs1 .| reg (vregs V) rs2).
Proof.
  start Hw. unfold emit_or. dest. source rs1 Hw; [move_case; reflexivity|].
  source rs2 Hw; [move_case; rewrite Z.lor_0_r; reflexivity|].
  same rs1 rs2; [move_case; rewrite Z.lor_diag; reflexivity|].
  same rd rs1; [|same rd rs2]; compute_case; (apply word_eq; [auto with dbt|]); eqm_norm;
    first [reflexivity | rewrite Z.lor_comm; reflexivity].
Qed.

Lemma emit_and_ok V rd rs1 rs2 : 0 <= rd < 32 -> 0 <= rs1 < 32 -> 0 <= rs2 < 32 ->
  writes V (emit_and rd rs1 rs2) rd (reg (vregs V) rs1 .& reg (vregs V) rs2).
Proof.
  start Hw. unfold emit_and. dest. source rs1 Hw; [move_case; reflexivity|].
  source rs2 Hw; [move_case; rewrite Z.land_0_r; reflexivity|]. cbn [orb].
  same rs1 rs2; [move_case; rewrite Z.land_diag; reflexivity|].
  same rd rs1; [|same rd rs2]; compute_case; (apply word_eq; [auto with dbt|]); eqm_norm;
    first [reflexivity | rewrite Z.land_comm; reflexivity].
Qed.

(** A register is loaded and compared with another, and the outcome stored. *)
Lemma compare_ok V rs1 rs2 cc b rd : 0 <= rs1 < 32 -> 0 <= rs2 < 32 -> 0 <= rd < 32 ->
  (forall s, flags s = Some (flags_sub 64 (reg (vregs V) rs1) (reg (vregs V) rs2)) -> condition cc s = Some b) ->
  writes V (load_reg RAX rs1 ;; emit (Cmp (Reg RAX) (operand_of (loc_of_register rs2))) ;;
            emit (Setcc (Reg AL) cc) ;; emit (Movzx EAX (Reg AL)) ;; store_reg rd RAX) rd (Z.b2z b).
Proof.
  intros H1 H2 Hd Hc. apply t_seq, t_load_rax; [lia|]. intros f. step. apply t_seq.
  eapply t_setcc; [reflexivity|exact Hc|put_tac|]. view_simpl. step.
  apply t_store_rax; [exact Hd|reflexivity|reflexivity|]. view_simpl. rewrite u8_with_low_byte. destruct b; reflexivity.
Qed.

Lemma emit_slt_ok V rd rs1 rs2 : 0 <= rd < 32 -> 0 <= rs1 < 32 -> 0 <= rs2 < 32 ->
  writes V (emit_slt rd rs1 rs2) rd (Z.b2z (i64 (reg (vregs V) rs1) <? i64 (reg (vregs V) rs2))).
Proof.
  start Hw. unfold emit_slt. dest.
  same rs1 rs2; [move_case; rewrite Z.ltb_irrefl; reflexivity|].
  source rs1 Hw.
  { apply compare_imm_ok; [lia|lia|]. intros s E. unfold condition. rewrite E, flags_less by lia. f_equal.
    pose proof (reg_range _ rs2 Hw) as Hr. rewrite flags_equal by (unfold in_u; auto; lia).
    change (sext 64 (u64 0)) with 0. change (i64 0) with 0. change (u64 0) with 0. fold i64.
    assert (reg (vregs V) rs2 = 0 <-> i64 (reg (vregs V) rs2) = 0).
    { split; [intros ->; reflexivity|]. intros F. apply i64_inj; [exact Hr|unfold in_u; lia|exact F]. }
    destruct (Z.eqb_spec (reg (vregs V) rs2) 0), (Z.ltb_spec (i64 (reg (vregs V) rs2)) 0),
      (Z.ltb_spec 0 (i64 (reg (vregs V) rs2))); cbn; reflexivity || lia. }
  source rs2 Hw; [apply sign_ok; lia|].
  apply compare_ok; [lia..|]. intros s E. unfold condition. rewrite E, flags_less by lia. reflexivity.
Qed.

Lemma emit_sltu_ok V rd rs1 rs2 : 0 <= rd < 32 -> 0 <= rs1 < 32 -> 0 <= rs2 < 32 ->
  writes V (emit_sltu rd rs1 rs2) rd (Z.b2z (reg (vregs V) rs1 <? reg (vregs V) rs2)).
Proof.
  start Hw. unfold emit_sltu. dest. pose proof (reg_range _ rs1 Hw) as H1'. pose proof (reg_range _ rs2 Hw) as H2'.
  unfold in_u in *. source rs2 Hw; cbn [orb].
  { move_case. destruct (Z.ltb_spec (reg (vregs V) rs1) 0); [lia|reflexivity]. }
  same rs1 rs2; [move_case; rewrite Z.ltb_irrefl; reflexivity|].
  source rs1 Hw.
  { apply compare_imm_ok; [lia|lia|]. intros s E. unfold condition. rewrite E. f_equal.
    rewrite flags_equal by (unfold in_u; auto; lia). change (u64 0) with 0.
    destruct (Z.eqb_spec (reg (vregs V) rs2) 0), (Z.ltb_spec 0 (reg (vregs V) rs2)); reflexivity || lia. }
  apply compare_ok; [lia..|]. intros s E. unfold condition. rewrite E. reflexivity.
Qed.

(** ** OP-32 *)

Ltac compute32_case := repeat first [apply t_seq; apply t_load_eax; [lia|]; intros ? | step];
  apply t_store_eax; [lia|reflexivity|reflexivity|]; view_simpl.

Lemma emit_addw_ok V rd rs1 rs2 : 0 <= rd < 32 -> 0 <= rs1 < 32 -> 0 <= rs2 < 32 ->
  writes V (emit_addw rd rs1 rs2) rd (u64 (i32 (i32 (reg (vregs V) rs1) + i32 (reg (vregs V) rs2)))).
Proof.
  start Hw. unfold emit_addw. dest.
  source rs1 Hw; [move_case; change (i32 0) with 0; rewrite Z.add_0_l; word32_solve|].
  source rs2 Hw; [move_case; change (i32 0) with 0; rewrite Z.add_0_r; word32_solve|].
  same rs1 rs2; compute32_case; word32_solve.
Qed.

Lemma emit_subw_ok V rd rs1 rs2 : 0 <= rd < 32 -> 0 <= rs1 < 32 -> 0 <= rs2 < 32 ->
  writes V (emit_subw rd rs1 rs2) rd (u64 (i32 (i32 (reg (vregs V) rs1) - i32 (reg (vregs V) rs2)))).
Proof.
  start Hw. unfold emit_subw. dest.
  source rs2 Hw; [move_case; change (i32 0) with 0; rewrite Z.sub_0_r; word32_solve|].
  same rs1 rs2; [move_case; rewrite Z.sub_diag; reflexivity|].
  source rs1 Hw; apply t_seq; compute32_case; change (i32 0) with 0; rewrite ?Z.sub_0_l; word32_solve.
Qed.

Lemma emit_sllw_ok V rd rs1 rs2 : 0 <= rd < 32 -> 0 <= rs1 < 32 -> 0 <= rs2 < 32 ->
  writes V (emit_sllw rd rs1 rs2) rd (u64 (i32 (i32 (reg (vregs V) rs1) << (reg (vregs V) rs2 .& 31)))).
Proof.
  start Hw. unfold emit_sllw. pose proof (mask31_range (reg (vregs V) rs2)). dest.
  source rs1 Hw; [move_case; change (i32 0) with 0; rewrite Z.shiftl_0_l; reflexivity|].
  source rs2 Hw; [move_case; rewrite Z.shiftl_0_r; word32_solve|].
  compute32_case. rewrite count32_cl. apply word32_eq. eqm_norm. apply eqm_shiftl; [lia|]. eqm_norm. reflexivity.
Qed.

Lemma emit_srlw_ok V rd rs1 rs2 : 0 <= rd < 32 -> 0 <= rs1 < 32 -> 0 <= rs2 < 32 ->
  writes V (emit_srlw rd rs1 rs2) rd (u64 (i32 (u32 (reg (vregs V) rs1) >> (reg (vregs V) rs2 .& 31)))).
Proof.
  start Hw. unfold emit_srlw. dest.
  source rs1 Hw; [move_case; change (u32 0) with 0; rewrite Z.shiftr_0_l; reflexivity|].
  source rs2 Hw; [move_case; rewrite Z.shiftr_0_r; word32_solve|].
  compute32_case. rewrite count32_cl. unfold u32. rewrite (wrap_id 32 (wrap 32 _)) by (apply wrap_range; lia). word32_solve.
Qed.

Lemma emit_sraw_ok V rd rs1 rs2 : 0 <= rd < 32 -> 0 <= rs1 < 32 -> 0 <= rs2 < 32 ->
  writes V (emit_sraw rd rs1 rs2) rd (u64 (i32 (reg (vregs V) rs1) >> (reg (vregs V) rs2 .& 31))).
Proof.
  start Hw. unfold emit_sraw. pose proof (mask31_range (reg (vregs V) rs2)). dest.
  source rs1 Hw; [move_case; change (i32 0) with 0; rewrite Z.shiftr_0_l; reflexivity|].
  source rs2 Hw; [move_case; rewrite Z.shiftr_0_r; reflexivity|].
  compute32_case. rewrite count32_cl, <- sar32 by lia. unfold u32. rewrite !sext_wrap. word32_solve.
Qed.

(** ** M *)

Lemma emit_mul_ok V rd rs1 rs2 : 0 <= rd < 32 -> 0 <= rs1 < 32 -> 0 <= rs2 < 32 ->
  writes V (emit_mul rd rs1 rs2) rd (u64 (reg (vregs V) rs1 * reg (vregs V) rs2)).
Proof.
  start Hw. unfold emit_mul. dest. source rs1 Hw; [move_case; reflexivity|].
  source rs2 Hw; [move_case; rewrite Z.mul_0_r; reflexivity|]. cbn [orb].
  same rs1 rs2; compute_case; eqm_solve.
Qed.

Lemma emit_mulw_ok V rd rs1 rs2 : 0 <= rd < 32 -> 0 <= rs1 < 32 -> 0 <= rs2 < 32 ->
  writes V (emit_mulw rd rs1 rs2) rd (u64 (i32 (i32 (reg (vregs V) rs1) * i32 (reg (vregs V) rs2)))).
Proof.
  start Hw. unfold emit_mulw. dest. source rs1 Hw; [move_case; reflexivity|].
  source rs2 Hw; [move_case; rewrite Z.mul_0_r; reflexivity|]. cbn [orb].
  same rs1 rs2; compute32_case; word32_solve.
Qed.

Lemma product_unsigned a b : in_u 64 a -> in_u 64 b -> u128 (a * b) = a * b.
Proof. intros Ha Hb. apply wrap_id. unfold in_u in *. nia. Qed.

Lemma product_signed a b : i128 (i64 a * i64 b) = i64 a * i64 b.
Proof.
  apply sext_id; [lia|]. pose proof (sext_range 64 a ltac:(lia)). pose proof (sext_range 64 b ltac:(lia)).
  unfold i64, in_i in *. change (128 - 1) with 127. change (64 - 1) with 63 in *. nia.
Qed.

Lemma emit_mulh_ok V rd rs1 rs2 : 0 <= rd < 32 -> 0 <= rs1 < 32 -> 0 <= rs2 < 32 ->
  writes V (emit_mulh rd rs1 rs2 false) rd (u64 (i128 (i64 (reg (vregs V) rs1) * i64 (reg (vregs V) rs2)) >> 64)).
Proof.
  start Hw. unfold emit_mulh. dest. rewrite product_signed. source rs1 Hw; [move_case; reflexivity|].
  source rs2 Hw; [move_case; change (i64 0) with 0; rewrite Z.mul_0_r; reflexivity|]. cbn [orb].
  same rs1 rs2; compute_case; eqm_solve.
Qed.

Lemma emit_mulhu_ok V rd rs1 rs2 : 0 <= rd < 32 -> 0 <= rs1 < 32 -> 0 <= rs2 < 32 ->
  writes V (emit_mulh rd rs1 rs2 true) rd (u64 (u128 (reg (vregs V) rs1 * reg (vregs V) rs2) >> 64)).
Proof.
  start Hw. unfold emit_mulh. dest. rewrite product_unsigned by (apply reg_range, Hw).
  source rs1 Hw; [move_case; reflexivity|].
  source rs2 Hw; [move_case; rewrite Z.mul_0_r; reflexivity|]. cbn [orb].
  same rs1 rs2; compute_case; eqm_solve.
Qed.

Lemma emit_mulhsu_ok V rd rs1 rs2 : 0 <= rd < 32 -> 0 <= rs1 < 32 -> 0 <= rs2 < 32 ->
  writes V (emit_mulhsu rd rs1 rs2) rd (HartStepExt.mulhsu (reg (vregs V) rs1) (reg (vregs V) rs2)).
Proof.
  start Hw. unfold emit_mulhsu. dest. rewrite <- mulhsu_ok by (apply reg_range, Hw).
  source rs1 Hw; [move_case; rewrite Z.mul_0_l; reflexivity|].
  source rs2 Hw; [move_case; rewrite Z.mul_0_r, Z.land_0_r; reflexivity|]. cbn [orb].
  compute_case. rewrite !u64_reg by assumption. change (count_of 64 (wrap 8 63)) with 63. eqm_solve.
Qed.

(** The view after a division has the quotient and the remainder. *)
Definition quotient (V V' : View) (q m : Z) : Prop :=
  vregs V' = vregs V /\ vpc V' = vpc V /\ va V' = q /\ vd V' = m.

Lemma divided_signed n V0 V b a sa sb : 0 < n -> in_u n b -> vregs V = vregs V0 -> vpc V = vpc V0 ->
  wrap n (va V) = a -> sext n a = sa -> sext n b = sb -> wrap n (vd V) = wrap n (if sa <? 0 then -1 else 0) ->
  quotient V0 (divided n signed_division V b) (wrap n (HartStepExt.div n sa sb)) (wrap n (HartStepExt.rem n sa sb)).
Proof.
  intros Hn Hb E1 E2 Ha <- <- Hd. assert (Ra : in_u n a) by (subst a; apply wrap_range; lia).
  pose proof (signed_division_ok n a b Hn Ra Hb) as D. cbv zeta in D.
  unfold divided. rewrite Hd, Ha. destruct (signed_division _ _ _) as [[q m]|].
  - destruct D as (_ & Eq & Em). repeat split; assumption.
  - destruct (b =? 0); destruct D as [Eq Em]; repeat split; view_simpl; congruence.
Qed.

Lemma divided_unsigned n V0 V b a : 0 < n -> in_u n b -> vregs V = vregs V0 -> vpc V = vpc V0 ->
  wrap n (va V) = a -> wrap n (vd V) = 0 ->
  quotient V0 (divided n unsigned_division V b) (HartStepExt.divu n a b) (HartStepExt.remu a b).
Proof.
  intros Hn Hb E1 E2 Ha Hd. assert (Ra : in_u n a) by (subst a; apply wrap_range; lia).
  pose proof (unsigned_division_ok n a b Hn Ra Hb) as D.
  unfold divided. rewrite Hd, Ha. destruct (unsigned_division _ _ _) as [[q m]|].
  - destruct D as (_ & <- & <- & Hq & Hm). repeat split; try apply wrap_id; assumption.
  - subst b. repeat split; assumption.
Qed.

Lemma if_distr {A B} (c : bool) (f : A -> B) x y : f (if c then x else y) = if c then f x else f y.
Proof. destruct c; reflexivity. Qed.

Lemma wrap_in_u_64 x : in_u 64 x -> wrap 64 x = x.
Proof. apply wrap_id. Qed.

Lemma emit_div_ok V rd rs1 rs2 (unsigned rem : bool) : 0 <= rd < 32 -> 0 <= rs1 < 32 -> 0 <= rs2 < 32 ->
  let a := reg (vregs V) rs1 in let b := reg (vregs V) rs2 in
  writes V (emit_div rd rs1 rs2 unsigned rem) rd
    (if unsigned then if rem then HartStepExt.remu a b else HartStepExt.divu 64 a b
     else u64 (if rem then HartStepExt.rem 64 (i64 a) (i64 b) else HartStepExt.div 64 (i64 a) (i64 b))).
Proof.
  start Hw. subst a b. unfold emit_div. dest. pose proof (reg_range _ rs1 Hw) as R1. pose proof (reg_range _ rs2 Hw) as R2.
  source rs2 Hw.
  { destruct rem, unsigned; move_case; try reflexivity. unfold HartStepExt.rem.
    change (i64 0 =? 0) with true. cbv iota. symmetry. word_solve. }
  apply t_seq, t_load_rax; [lia|]. intros f. apply t_seq.
  set (b := reg (vregs V) rs2) in *. set (a := reg (vregs V) rs1) in *.
  assert (K : forall V' q m, quotient V V' q m -> in_u 64 q -> in_u 64 m ->
    triple V' (if rem then emit (Mov (loc_of_register rd) (OpReg RDX)) else store_reg rd RAX)
      (done (vregs V) (vpc V) rd (if rem then m else q))).
  { intros V' q m (E1 & E2 & E3 & E4) Hq Hm. destruct rem.
    - step. apply done_insert; [assumption| |exact E2]. view_simpl. rewrite E1, E4. f_equal. apply wrap_id, Hm.
    - apply t_store_rax; [lia|exact E1|exact E2|]. rewrite E3. apply wrap_id, Hq. }
  destruct unsigned; step; eapply t_divide with (size := Qword); try lia; eauto; change (bits Qword) with 64; view_simpl;
    fold b; rewrite (wrap_in_u_64 b) by exact R2.
  - apply K; [|apply divu_range; auto; lia|apply x86_remu_range; auto].
    apply divided_unsigned; [lia|exact R2|reflexivity|reflexivity|apply wrap_id, R1|].
    view_simpl. rewrite Z.lxor_nilpotent. reflexivity.
  - rewrite (if_distr rem u64). apply K; [|apply wrap64_word..].
    apply divided_signed with (a := a); [lia|exact R2|reflexivity|reflexivity|apply wrap_id, R1|reflexivity|reflexivity|].
    apply eqm_wrap. lia.
Qed.

Lemma emit_divw_ok V rd rs1 rs2 (unsigned rem : bool) : 0 <= rd < 32 -> 0 <= rs1 < 32 -> 0 <= rs2 < 32 ->
  let a := reg (vregs V) rs1 in let b := reg (vregs V) rs2 in
  writes V (emit_divw rd rs1 rs2 unsigned rem) rd
    (u64 (if unsigned then i32 (if rem then HartStepExt.remu (u32 a) (u32 b) else HartStepExt.divu 32 (u32 a) (u32 b))
          else if rem then HartStepExt.rem 32 (i32 a) (i32 b) else HartStepExt.div 32 (i32 a) (i32 b))).
Proof.
  start Hw. subst a b. unfold emit_divw. dest.
  source rs2 Hw; [destruct rem, unsigned; move_case; try reflexivity|].
  { change (HartStepExt.remu (u32 (reg (vregs V) rs1)) (u32 0)) with (u32 (reg (vregs V) rs1)). word32_solve. }
  apply t_seq, t_load_eax; [lia|]. intros f. apply t_seq.
  set (b := reg (vregs V) rs2) in *. set (a := reg (vregs V) rs1) in *.
  assert (K : forall V' q m, quotient V V' q m ->
    triple V' (if rem then emit (Movsx RAX (Reg EDX)) ;; store_reg rd RAX else store_reg rd EAX)
      (done (vregs V) (vpc V) rd (u64 (i32 (if rem then m else q))))).
  { intros V' q m (E1 & E2 & E3 & E4). destruct rem.
    - step. apply t_store_rax; [lia|exact E1|exact E2|]. view_simpl. rewrite E4. unfold u32. rewrite sext_wrap. eqm_solve.
    - apply t_store_eax; [lia|exact E1|exact E2|]. rewrite E3. reflexivity. }
  destruct unsigned; step; eapply t_divide with (size := Dword); try lia; eauto; change (bits Dword) with 32; view_simpl; fold b.
  - apply K. apply divided_unsigned; [lia|apply wrap_range; lia|reflexivity|reflexivity|apply eqm_wrap; lia|].
    view_simpl. rewrite Z.lxor_nilpotent. reflexivity.
  - set (q := HartStepExt.div 32 (i32 a) (i32 b)). set (m := HartStepExt.rem 32 (i32 a) (i32 b)).
    assert (E : (if rem then m else q) = i32 (if rem then wrap 32 m else wrap 32 q)).
    { destruct rem; unfold i32; rewrite sext_wrap; symmetry; [apply sext_rem; [lia|apply sext_range; lia]|apply sext_div; lia]. }
    rewrite E. apply K. apply divided_signed with (a := u32 a);
      [lia|apply wrap_range; lia|reflexivity|reflexivity|apply eqm_wrap; lia|apply sext_wrap|apply sext_wrap|].
    view_simpl. unfold i32, u32. rewrite sext_wrap. apply eqm_wrap. lia.
Qed.

(** ** AUIPC and FENCE *)

Lemma emit_auipc_ok V pc_cur rd imm pre : 0 <= rd < 32 -> u64 (vpc V + pc_cur) = pre ->
  writes V (emit_auipc pc_cur rd imm) rd (u64 (pre + u64 imm)).
Proof.
  intros Hd <-. unfold writes, emit_auipc. step. step. apply t_store_rax; [lia|reflexivity|reflexivity|]. view_simpl.
  apply wrap_eqm. eqm_norm. rewrite <- Z.add_assoc, (Z.add_comm pc_cur). reflexivity.
Qed.

Lemma emit_fence_ok V : writes V (emit Mfence) 0 0.
Proof.
  intros s0 s H. eapply wp_next; [reflexivity|]. exists V. split; [exact H|]. split; reflexivity.
Qed.

End Guest.
