(* ===== verification/DbtCorrect.v ===== *)
(** The translator agrees with the interpreter on integer computation: for every operation
    of the groups OP-IMM, OP-IMM-32, OP, OP-32, M, LUI, AUIPC and FENCE the emitted code
    runs to its end and leaves the registers [step] leaves. *)

From Stdlib Require Import ZArith Lia Bool List.
From stdpp Require Import base list.
From S2P Require Import Prelude RiscvOp RiscvEncode RiscvDecode X86Op X86Encode Hart Words X86Sem Signal Dbt DbtLogic DbtDiv DbtProps.
From S2P Require Import HartState HartStep HartStepExt HartInv HartWf HartReach.
Import ListNotations.
Local Open Scope Z_scope.
Local Open Scope rust_scope.

(** ** What the encoder accepts

    An operation on the guest's registers has a memory operand at [RBP], whose displacement
    always fits, so that only an immediate can be refused. *)

Section Accepted.
Import X86 Encode Dbt.
Notation ctx d s := (Mem (MkMem (Some RBP) None d s)).

Lemma cat_ok a b : a <> None -> b <> None -> cat a b <> None.
Proof. destruct a, b; try contradiction; discriminate. Qed.

Lemma r_rm_ctx sz d s reg opc : high_byte reg = false -> emit_r_rm sz (ctx d s) reg opc <> None.
Proof.
  intros H. unfold emit_r_rm. repeat apply cat_ok; try discriminate.
  - destruct (size_eqb sz Word); discriminate.
  - unfold emit_rex. cbn [rex_of_loc base index]. destruct (_ <>? 0); [|discriminate]. rewrite H. discriminate.
  - destruct (_ <>? 0); discriminate.
  - destruct (_ <>? 0); discriminate.
  - unfold emit_modrm. cbn [base index displacement scale_shift]. destruct (_ && _); [discriminate|]. destruct (fits_i 8 d); discriminate.
Qed.

Lemma alu_ctx_imm d imm id : high_byte id = false -> fits_i 32 imm = true -> emit_alu (ctx d Qword) (Imm imm) id <> None.
Proof.
  intros H F. unfold emit_alu. cbn [loc_size mem_size as_loc check_imm_size size_eqb negb andb is_rax]. rewrite F. cbn [assertion].
  destruct (fits_i 8 imm); apply cat_ok; try (apply r_rm_ctx; exact H); discriminate.
Qed.

Lemma alu_reg_imm r s imm id : loc_size (Reg r) = Some s -> is_rax (Reg r) = true -> check_imm_size s imm = true ->
  emit_r_rm s (Reg r) id 0x83 <> None -> emit_alu (Reg r) (Imm imm) id <> None.
Proof.
  intros Hs Hr Hc H. unfold emit_alu. rewrite Hs. cbn [as_loc]. rewrite Hc, Hr. cbn [assertion].
  destruct (_ && _); [apply cat_ok; [exact H|discriminate]|]. destruct s; discriminate.
Qed.

Lemma alu_ctx_reg d r s id : reg_size r = Some s -> high_byte (reg_num r) = false -> emit_alu (ctx d s) (OpReg r) id <> None.
Proof.
  intros Hs H. unfold emit_alu. cbn [loc_size mem_size as_loc]. rewrite Hs. replace (size_eqb s s) with true by (destruct s; reflexivity).
  cbn [assertion]. apply r_rm_ctx, H.
Qed.

Lemma alu_reg_ctx d r s id : reg_size r = Some s -> high_byte (reg_num r) = false -> emit_alu (Reg r) (OpMem (MkMem (Some RBP) None d s)) id <> None.
Proof.
  intros Hs H. unfold emit_alu. cbn [loc_size mem_size as_loc]. rewrite Hs. replace (size_eqb s s) with true by (destruct s; reflexivity).
  cbn [assertion]. apply r_rm_ctx, H.
Qed.

Lemma mov_ctx_imm d imm : fits_i 32 imm = true -> emit_mov (ctx d Qword) (Imm imm) <> None.
Proof.
  intros F. unfold emit_mov, emit_mov_rm_imm. cbn [loc_size mem_size as_loc check_imm_size]. rewrite F. cbn [assertion].
  apply cat_ok; [apply r_rm_ctx; reflexivity|discriminate].
Qed.

Lemma mov_ctx_reg d r s : reg_size r = Some s -> high_byte (reg_num r) = false -> emit_mov (ctx d s) (OpReg r) <> None.
Proof.
  intros Hs H. unfold emit_mov. cbn [loc_size mem_size as_loc]. rewrite Hs. replace (size_eqb s s) with true by (destruct s; reflexivity).
  cbn [assertion]. apply r_rm_ctx, H.
Qed.

Lemma mov_reg_ctx d r s : reg_size r = Some s -> high_byte (reg_num r) = false -> emit_mov (Reg r) (OpMem (MkMem (Some RBP) None d s)) <> None.
Proof.
  intros Hs H. unfold emit_mov. cbn [loc_size mem_size as_loc]. rewrite Hs. replace (size_eqb s s) with true by (destruct s; reflexivity).
  cbn [assertion]. apply r_rm_ctx, H.
Qed.

Lemma shift_ctx d s o id : high_byte id = false -> (o = OpReg CL \/ exists imm, o = Imm imm /\ fits_u 8 imm = true) -> emit_shift (ctx d s) o id <> None.
Proof.
  intros H [-> |(imm & -> & F)]; unfold emit_shift; cbn [loc_size mem_size]; [apply r_rm_ctx, H|].
  destruct (imm =? 1); [apply r_rm_ctx, H|]. rewrite F. apply cat_ok; [apply r_rm_ctx, H|discriminate].
Qed.

Lemma shift_reg r s imm id : loc_size (Reg r) = Some s -> fits_u 8 imm = true -> emit_r_rm s (Reg r) id (pick s 0xD0 0xD1) <> None ->
  emit_r_rm s (Reg r) id (pick s 0xC0 0xC1) <> None -> emit_shift (Reg r) (Imm imm) id <> None.
Proof.
  intros Hs F H1 H2. unfold emit_shift. rewrite Hs. destruct (imm =? 1); [exact H1|]. rewrite F. apply cat_ok; [exact H2|discriminate].
Qed.

Lemma rm_ctx d s opc id : high_byte id = false -> emit_rm (ctx d s) opc id <> None.
Proof. intros H. unfold emit_rm. cbn [loc_size mem_size]. apply r_rm_ctx, H. Qed.

Lemma reg_rm_ctx d r s opc : reg_size r = Some s -> s <> Byte -> high_byte (reg_num r) = false -> emit_reg_rm r (ctx d s) opc <> None.
Proof.
  intros Hs N H. unfold emit_reg_rm. cbn [loc_size mem_size]. rewrite Hs. replace (size_eqb s s) with true by (destruct s; reflexivity).
  replace (size_eqb s Byte) with false by (destruct s; congruence || reflexivity). cbn [negb assertion]. apply r_rm_ctx, H.
Qed.

Lemma movsx_ctx d : emit_movsx RAX (ctx d Dword) <> None.
Proof. apply r_rm_ctx. reflexivity. Qed.

Lemma imul_ctx d s : Encode.encode (Imul1 (ctx d s)) <> None.
Proof. cbn [Encode.encode loc_size mem_size]. apply r_rm_ctx. reflexivity. Qed.

(** *** Emitting without a panic *)

Definition emitted (c : Code) : Prop := c <> None.

Lemma emitted_op op : Encode.encode op <> None -> emitted (emit op).
Proof. intros H. unfold emitted, emit, accepts, x86_encode. destruct (Encode.encode op); [discriminate|contradiction]. Qed.

Lemma emitted_seq a b : emitted a -> emitted b -> emitted (Dbt.seq a b).
Proof. unfold emitted. destruct a, b; try contradiction; discriminate. Qed.

Lemma emitted_skip : emitted skip.
Proof. discriminate. Qed.
End Accepted.


Ltac context_operand := unfold Dbt.loc_of_register, Dbt.loc_sized, Dbt.register_memory, Dbt.memory_of_pc, X86.reg_add, X86.mem_resize, X86.operand_of in *;
  cbn [X86.base X86.index X86.displacement X86.mem_size Encode.encode] in *.

Ltac accept := apply emitted_op; context_operand;
  lazymatch goal with
  | |- Encode.emit_mov (X86.Mem _) (X86.Imm _) <> None => apply mov_ctx_imm; first [assumption|reflexivity]
  | |- Encode.emit_mov (X86.Mem _) _ <> None => apply mov_ctx_reg; reflexivity
  | |- Encode.emit_mov _ (X86.OpMem _) <> None => apply mov_reg_ctx; reflexivity
  | |- Encode.emit_alu (X86.Mem _) (X86.Imm _) _ <> None => apply alu_ctx_imm; [reflexivity|first [assumption|reflexivity]]
  | |- Encode.emit_alu (X86.Mem _) _ _ <> None => apply alu_ctx_reg; reflexivity
  | |- Encode.emit_alu _ (X86.OpMem _) _ <> None => apply alu_reg_ctx; reflexivity
  | |- Encode.emit_alu _ (X86.Imm _) _ <> None =>
      eapply alu_reg_imm; [reflexivity|reflexivity|cbn [Encode.check_imm_size]; auto using orb_true_intro|vm_compute; discriminate]
  | |- Encode.emit_shift (X86.Mem _) (X86.OpReg _) _ <> None => apply shift_ctx; [reflexivity|left; reflexivity]
  | |- Encode.emit_shift (X86.Mem _) _ _ <> None => apply shift_ctx; [reflexivity|right; eexists; split; [reflexivity|first [assumption|reflexivity]]]
  | |- Encode.emit_shift (X86.Reg _) (X86.Imm _) _ <> None =>
      eapply shift_reg; [reflexivity|first [assumption|reflexivity]|vm_compute; discriminate|vm_compute; discriminate]
  | |- Encode.emit_rm (X86.Mem _) _ _ <> None => apply rm_ctx; reflexivity
  | |- Encode.emit_reg_rm _ (X86.Mem _) _ <> None => eapply reg_rm_ctx; [reflexivity|discriminate|reflexivity]
  | |- Encode.emit_movsx _ (X86.Mem _) <> None => apply movsx_ctx
  | |- context [X86.loc_size (X86.Mem _)] => apply imul_ctx
  | |- _ => vm_compute; discriminate
  end.

Ltac out := repeat match goal with
  | |- emitted (Dbt.seq _ _) => apply emitted_seq
  | |- emitted Dbt.skip => apply emitted_skip
  | |- emitted (Some _) => discriminate
  | |- emitted (match ?x with Some _ => _ | None => _ end) => let y := eval vm_compute in x in change x with y; cbv iota
  | |- emitted (if ?b then _ else _) => destruct b eqn:?
  | |- emitted (let (_, _) := if ?b then _ else _ in _) => destruct b eqn:?
  | |- emitted (Dbt.emit ?op) => match op with context [if ?b then _ else _] => destruct b eqn:? end
  | |- emitted (Dbt.emit _) => accept
  end.

Section Emitted.
Import X86 Encode Dbt.

Lemma load_imm_out rd imm : fits_i 32 imm = true -> emitted (emit_load_imm rd imm).
Proof. intros. unfold emit_load_imm. out. Qed.

Lemma load_reg_out r rs : r = RAX \/ r = EAX -> emitted (load_reg r rs).
Proof. intros [-> | ->]; unfold load_reg; out. Qed.

Lemma store_reg_out rd r : r = RAX \/ r = EAX -> emitted (store_reg rd r).
Proof. intros [-> | ->]; unfold store_reg; out. Qed.

Lemma fits_bit b : fits_i 32 (Z.b2z b) = true.
Proof. destruct b; reflexivity. Qed.

Lemma move_out rd rs : emitted (emit_move rd rs).
Proof. unfold emit_move. out. apply load_imm_out. reflexivity. Qed.

Lemma move32_out rd rs : emitted (emit_move32 rd rs).
Proof. unfold emit_move32. out. apply load_imm_out. reflexivity. Qed.

Ltac piece := lazymatch goal with
  | |- emitted (emit_load_imm _ _) => apply load_imm_out; first [assumption|reflexivity|apply fits_bit]
  | |- emitted (load_reg _ _) => apply load_reg_out; auto
  | |- emitted (store_reg _ _) => apply store_reg_out; auto
  | |- emitted (emit_move _ _) => apply move_out
  | |- emitted (emit_move32 _ _) => apply move32_out
  | |- _ => progress out
  end.

(** The cases in which the encoder refuses what is emitted: a shift by a constant that is
    negative, and AUIPC when the sum with the offset of the instruction is too large. *)
Definition panics (pc_cur : Z) (op : Op.Op) : bool :=
  match op with
  | Op.Slli rd rs1 imm | Op.Srli rd rs1 imm | Op.Srai rd rs1 imm | Op.Slliw rd rs1 imm | Op.Srliw rd rs1 imm | Op.Sraiw rd rs1 imm =>
      (rd <>? 0) && (rs1 <>? 0) && (imm <? 0)
  | Op.Auipc _ imm => negb (fits_i 32 (imm + pc_cur))
  | _ => false
  end.

Lemma fits_imm12 imm : imm12_ok imm = true -> fits_i 32 imm = true /\ fits_i 32 (imm - 1) = true.
Proof. unfold imm12_ok, fits_i. change (2 ^ (32 - 1)) with 2147483648. lia. Qed.

Lemma shift_fits rd rs1 imm n : (rd <>? 0) && (rs1 <>? 0) && (imm <? 0) = false -> (imm <? n) = true -> n <= 64 ->
  (rd =? 0) || (rs1 =? 0) || fits_u 8 imm = true.
Proof. unfold fits_u. change (2 ^ 8) with 256. destruct (rd =? 0), (rs1 =? 0); cbn; lia. Qed.

Ltac shift_out := let H := fresh in intros H; unfold emit_slli, emit_srli, emit_srai, emit_slliw, emit_srliw, emit_sraiw;
  match goal with |- emitted (if ?rd =? 0 then _ else _) => destruct (rd =? 0); [piece|] end;
  match goal with |- emitted (if ?rs1 =? 0 then _ else _) => destruct (rs1 =? 0); [piece|] end; cbn [orb] in H; repeat piece.

Lemma slli_out rd rs1 imm : (rd =? 0) || (rs1 =? 0) || fits_u 8 imm = true -> emitted (emit_slli rd rs1 imm).
Proof. shift_out. Qed.
Lemma srli_out rd rs1 imm : (rd =? 0) || (rs1 =? 0) || fits_u 8 imm = true -> emitted (emit_srli rd rs1 imm).
Proof. shift_out. Qed.
Lemma srai_out rd rs1 imm : (rd =? 0) || (rs1 =? 0) || fits_u 8 imm = true -> emitted (emit_srai rd rs1 imm).
Proof. shift_out. Qed.
Lemma slliw_out rd rs1 imm : (rd =? 0) || (rs1 =? 0) || fits_u 8 imm = true -> emitted (emit_slliw rd rs1 imm).
Proof. shift_out. Qed.
Lemma srliw_out rd rs1 imm : (rd =? 0) || (rs1 =? 0) || fits_u 8 imm = true -> emitted (emit_srliw rd rs1 imm).
Proof. shift_out. Qed.
Lemma sraiw_out rd rs1 imm : (rd =? 0) || (rs1 =? 0) || fits_u 8 imm = true -> emitted (emit_sraiw rd rs1 imm).
Proof. shift_out. Qed.

Lemma emit_op_out pc_cur op code : op_ok op = true -> panics pc_cur op = false -> emit_op pc_cur op = Some code -> emitted code.
Proof.
  intros Ho Hp He. destruct op; try discriminate He; injection He as <-; cbn [op_ok panics] in Ho, Hp;
    repeat match goal with H : _ && _ = true |- _ => apply andb_prop in H as [H ?] end;
    try match goal with H : imm12_ok _ = true |- _ => apply fits_imm12 in H as [??] end;
    unfold shift_imm_ok in *; repeat match goal with H : _ && _ = true |- _ => apply andb_prop in H as [H ?] end;
    try match goal with H : imm20_ok ?i = true |- _ => assert (fits_i 32 i = true) by (unfold imm20_ok in H; unfold fits_i; lia) end;
    try apply negb_false_iff in Hp;
    lazymatch goal with
    | |- emitted (emit_slli _ _ _) => apply slli_out; eapply shift_fits; [exact Hp|eassumption|lia]
    | |- emitted (emit_srli _ _ _) => apply srli_out; eapply shift_fits; [exact Hp|eassumption|lia]
    | |- emitted (emit_srai _ _ _) => apply srai_out; eapply shift_fits; [exact Hp|eassumption|lia]
    | |- emitted (emit_slliw _ _ _) => apply slliw_out; eapply shift_fits; [exact Hp|eassumption|lia]
    | |- emitted (emit_srliw _ _ _) => apply srliw_out; eapply shift_fits; [exact Hp|eassumption|lia]
    | |- emitted (emit_sraiw _ _ _) => apply sraiw_out; eapply shift_fits; [exact Hp|eassumption|lia]
    | |- _ => idtac
    end;
    unfold emit_addi, emit_slti, emit_sltiu, emit_xori, emit_ori, emit_andi, emit_addiw,
      emit_add, emit_sub, emit_sll, emit_slt, emit_sltu, emit_xor, emit_srl, emit_sra, emit_or, emit_and, emit_addw, emit_subw, emit_sllw,
      emit_srlw, emit_sraw, emit_mul, emit_mulh, emit_mulhsu, emit_mulw, emit_div, emit_divw, emit_auipc; cbv zeta; repeat piece.
Qed.
End Emitted.
(** *** A panic in the other cases *)

Section Refused.
Import X86 Encode Dbt.

Lemma cat_none e : cat e None = None.
Proof. destruct e; reflexivity. Qed.

Lemma shift_refused dst imm id : imm < 0 -> emit_shift dst (Imm imm) id = None.
Proof.
  intros H. unfold emit_shift, fits_u. destruct (loc_size dst); [|reflexivity]. destruct (Z.eqb_spec imm 1); [lia|].
  destruct (Z.leb_spec 0 imm); [lia|]. apply cat_none.
Qed.

Lemma refused_op op : Encode.encode op = None -> emit op = None.
Proof. intros H. unfold emit, accepts, x86_encode. rewrite H. reflexivity. Qed.

Lemma seq_none_l b : Dbt.seq None b = None.
Proof. reflexivity. Qed.
Lemma seq_none_r a : Dbt.seq a None = None.
Proof. destruct a; reflexivity. Qed.

Lemma emit_op_panics pc_cur op code : panics pc_cur op = true -> emit_op pc_cur op = Some code -> code = None.
Proof.
  intros Hp He. destruct op; try discriminate Hp; injection He as <-; cbn [panics] in Hp.
  all: try (apply andb_prop in Hp as [Hp Hi]; apply andb_prop in Hp as [Hd Hs]; apply Z.ltb_lt in Hi;
    destruct (rd =? 0) eqn:Ed; [discriminate Hd|]; destruct (rs1 =? 0) eqn:Es; [discriminate Hs|];
    unfold emit_slli, emit_srli, emit_srai, emit_slliw, emit_srliw, emit_sraiw; rewrite Ed, Es;
    destruct (Z.eqb_spec imm 0); [lia|]; try (destruct (Z.eqb_spec imm 1); [lia|]);
    rewrite ?(refused_op (Shl _ (Imm imm))), ?(refused_op (Shr _ (Imm imm))), ?(refused_op (Sar _ (Imm imm))) by (apply shift_refused; exact Hi);
    rewrite ?seq_none_l, ?seq_none_r; try destruct (rd =? rs1); reflexivity).
  unfold emit_auipc. cbv zeta. rewrite (refused_op (Add _ (Imm _))); [apply seq_none_r|]. cbn [Encode.encode]. unfold emit_alu.
  change (loc_size (Reg RAX)) with (Some Qword). cbn [as_loc check_imm_size]. apply negb_true_iff in Hp. rewrite Hp. reflexivity.
Qed.
End Refused.

(** *** What is accepted is the same code *)

Section Checked.
Import X86 Dbt.
Context (E : Encoder).

Ltac chk := repeat match goal with
  | |- context [if ?b then _ else _] => destruct b
  | |- context [match reg_resize ?r ?s with _ => _ end] => destruct (reg_resize r s)
  | |- context [match reg_size ?r with _ => _ end] => destruct (reg_size r) as [[]|]
  | |- _ => rewrite checked_seq
  | |- _ => rewrite checked_emit
  end; try reflexivity.

Lemma checked_load_imm rd imm : checked E (@emit_load_imm any_encoder rd imm) = @emit_load_imm E rd imm.
Proof. unfold emit_load_imm. chk. Qed.
Lemma checked_load_reg r rs : checked E (@load_reg any_encoder r rs) = @load_reg E r rs.
Proof. unfold load_reg. chk. Qed.
Lemma checked_store_reg rd r : checked E (@store_reg any_encoder rd r) = @store_reg E rd r.
Proof. unfold store_reg. chk. Qed.
Lemma checked_move rd rs : checked E (@emit_move any_encoder rd rs) = @emit_move E rd rs.
Proof. unfold emit_move. chk. apply checked_load_imm. Qed.
Lemma checked_move32 rd rs : checked E (@emit_move32 any_encoder rd rs) = @emit_move32 E rd rs.
Proof. unfold emit_move32. chk. apply checked_load_imm. Qed.

Lemma emit_op_checked pc_cur op : @emit_op E pc_cur op = option_map (checked E) (@emit_op any_encoder pc_cur op).
Proof.
  destruct op; cbn [emit_op option_map]; try reflexivity; f_equal; symmetry;
    unfold emit_addi, emit_slli, emit_slti, emit_sltiu, emit_xori, emit_srli, emit_srai, emit_ori, emit_andi, emit_addiw, emit_slliw, emit_srliw, emit_sraiw,
      emit_add, emit_sub, emit_sll, emit_slt, emit_sltu, emit_xor, emit_srl, emit_sra, emit_or, emit_and, emit_addw, emit_subw, emit_sllw,
      emit_srlw, emit_sraw, emit_mul, emit_mulh, emit_mulhsu, emit_mulw, emit_div, emit_divw, emit_auipc; cbv zeta;
    repeat match goal with |- context [if ?b then _ else _] => destruct b end;
    rewrite ?checked_seq, ?checked_emit, ?checked_load_imm, ?checked_load_reg, ?checked_store_reg, ?checked_move, ?checked_move32; reflexivity.
Qed.
End Checked.

(** The memory the code runs on has these registers and this program counter. *)
Record agree (rbp : Z) (regs : list Z) (pc0 : Z) (s : X86Sem.St) : Prop := {
  a_rbp : X86Sem.gpr s 5 = rbp;
  a_regs r : 0 <= r < 32 -> load_bytes (X86Sem.memory s) (rbp + r * 8) 8 = DbtLogic.reg regs r;
  a_pc : load_bytes (X86Sem.memory s) (rbp + Dbt.OFFSET_PC) 8 = pc0;
  a_bytes a : 0 <= X86Sem.memory s a < 256;
  a_gpr i : in_u 64 (X86Sem.gpr s i);
}.

(** What the code leaves alone: memory outside [x1] to [x31], and the machine's registers
    but for [RAX], [RCX], [RDX] and [RSI]. *)
Definition preserved (rbp : Z) (s s' : X86Sem.St) : Prop :=
  (forall a, a < rbp + 8 \/ rbp + 264 <= a -> X86Sem.memory s' a = X86Sem.memory s a) /\
  (forall i, i <> 0 -> i <> 1 -> i <> 2 -> i <> 6 -> X86Sem.gpr s' i = X86Sem.gpr s i).

Section Correct.
Context {W : Type} {P : Platform W}.

Lemma wf_ctx_regs c : wf_ctx c -> DbtLogic.wf_regs (registers c).
Proof.
  intros [Hl Hf H0 _ _ _ _ _]. repeat split; [exact Hl|exact Hf|].
  unfold DbtLogic.reg. rewrite nth_lookup. change (Z.to_nat 0) with 0%nat. rewrite H0. reflexivity.
Qed.

Lemma read_reg_ok (m : Machine W) r : wf_ctx (ctx m) -> 0 <= r < 32 ->
  read_reg r m = Ok (DbtLogic.reg (registers (ctx m)) r) m.
Proof.
  intros Hw Hr. unfold read_reg, bind, getc. unfold DbtLogic.reg. rewrite nth_lookup.
  destruct (registers (ctx m) !! Z.to_nat r) eqn:E; [reflexivity|].
  apply lookup_ge_None in E. rewrite (wf_len _ Hw) in E. lia.
Qed.

(** The machine with [x] in [rd]. *)
Definition with_reg (rd x : Z) (m : Machine W) : Machine W :=
  if rd =? 0 then m else set_ctx (set_registers (<[Z.to_nat rd := x]> (registers (ctx m))) (ctx m)) m.

Lemma write_reg_ok rd x (m : Machine W) : rd < 32 -> write_reg rd x m = Ok tt (with_reg rd x m).
Proof.
  intros Hr. unfold write_reg, bind, assert_. rewrite (proj2 (Z.ltb_lt _ _)) by lia. unfold ret, with_reg.
  destruct (Z.eqb_spec rd 0) as [->|N]; reflexivity.
Qed.

(** What an operation writes, as the interpreter computes it. *)
Lemma unary_op_ok (m : Machine W) rd rs1 f : wf_ctx (ctx m) -> 0 <= rd < 32 -> 0 <= rs1 < 32 ->
  unary_op rd rs1 f m = Ok tt (with_reg rd (f (DbtLogic.reg (registers (ctx m)) rs1)) m).
Proof.
  intros Hw Hd Hs. unfold unary_op, bind. rewrite read_reg_ok by assumption. apply write_reg_ok. lia.
Qed.

Lemma binary_op_ok (m : Machine W) rd rs1 rs2 f : wf_ctx (ctx m) -> 0 <= rd < 32 -> 0 <= rs1 < 32 -> 0 <= rs2 < 32 ->
  binary_op rd rs1 rs2 f m =
    Ok tt (with_reg rd (f (DbtLogic.reg (registers (ctx m)) rs1) (DbtLogic.reg (registers (ctx m)) rs2)) m).
Proof.
  intros Hw Hd H1 H2. unfold binary_op, bind. rewrite !read_reg_ok by assumption. apply write_reg_ok. lia.
Qed.

(** The code and the interpreter write the same value to the same register. *)
Definition same_write (rbp pc0 : Z) (op : Op.Op) (compressed : bool) (code : Dbt.Code) (m : Machine W) : Prop :=
  exists rd x, 0 <= rd < 32 /\ step op compressed m = Ok tt (with_reg rd x m) /\
    forall V : View, vregs V = registers (ctx m) -> vpc V = pc0 -> DbtProps.writes rbp V code rd x.

Lemma same_unary rbp pc0 op c code (m : Machine W) rd rs1 f : step op c m = unary_op rd rs1 f m ->
  wf_ctx (ctx m) -> 0 <= rd < 32 -> 0 <= rs1 < 32 ->
  (forall V : View, DbtProps.writes rbp V code rd (f (DbtLogic.reg (vregs V) rs1))) -> same_write rbp pc0 op c code m.
Proof.
  intros He Hw Hd Hs Hc. rewrite unary_op_ok in He by assumption. exists rd; eexists. split; [exact Hd|].
  split; [exact He|]. intros V <- _. apply Hc.
Qed.

Lemma same_binary rbp pc0 op c code (m : Machine W) rd rs1 rs2 f :
  step op c m = binary_op rd rs1 rs2 f m -> wf_ctx (ctx m) -> 0 <= rd < 32 -> 0 <= rs1 < 32 -> 0 <= rs2 < 32 ->
  (forall V : View, DbtProps.writes rbp V code rd (f (DbtLogic.reg (vregs V) rs1) (DbtLogic.reg (vregs V) rs2))) ->
  same_write rbp pc0 op c code m.
Proof.
  intros He Hw Hd H1 H2 Hc. rewrite binary_op_ok in He by assumption. exists rd; eexists. split; [exact Hd|].
  split; [exact He|]. intros V <- _. apply Hc.
Qed.

Ltac fields := unfold reg_ok, imm12_ok, imm20_ok in *; rewrite ?andb_true_iff in *; unfold in_i; lia.

Lemma emit_op_same_write rbp pc0 pc_cur op (compressed : bool) code (m : Machine W) :
  0 <= rbp /\ rbp + 65536 <= 2 ^ 64 -> wf_ctx (ctx m) -> op_ok op = true ->
  u64 (pc0 + pc_cur) = u64 (pc (ctx m) - (if compressed then 2 else 4)) ->
  Dbt.emit_op (E := any_encoder) pc_cur op = Some code -> same_write rbp pc0 op compressed code m.
Proof.
  intros Hr Hw Ho Hpc He. destruct op; try discriminate He; injection He as <-; cbn [op_ok] in Ho;
    try (eapply same_unary; [reflexivity|exact Hw|fields|fields|]);
    try (eapply same_binary; [reflexivity|exact Hw|fields|fields|fields|]); intros; cbv beta.
  all: try first [apply emit_addi_ok | apply emit_slli_ok | apply emit_slti_ok | apply emit_sltiu_ok | apply emit_xori_ok
    | apply emit_srli_ok | apply emit_srai_ok | apply emit_ori_ok | apply emit_andi_ok | apply emit_addiw_ok
    | apply emit_slliw_ok | apply emit_srliw_ok | apply emit_sraiw_ok | apply emit_add_ok | apply emit_sub_ok
    | apply emit_sll_ok | apply emit_slt_ok | apply emit_sltu_ok | apply emit_xor_ok | apply emit_srl_ok
    | apply emit_sra_ok | apply emit_or_ok | apply emit_and_ok | apply emit_addw_ok | apply emit_subw_ok
    | apply emit_sllw_ok | apply emit_srlw_ok | apply emit_sraw_ok | apply emit_mul_ok | apply emit_mulh_ok
    | apply emit_mulhsu_ok | apply emit_mulhu_ok | apply emit_mulw_ok]; try assumption; try fields.
  - exists 0, 0. split; [lia|]. split; [reflexivity|]. intros. apply emit_fence_ok.
  - exists rd; eexists. split; [fields|]. split; [apply write_reg_ok; fields|]. intros V _ <-.
    apply emit_auipc_ok; [assumption|fields|exact Hpc].
  - exists rd; eexists. split; [fields|]. split; [apply write_reg_ok; fields|]. intros V _ _.
    apply emit_load_imm_ok; [assumption|fields].
  - apply (emit_div_ok rbp Hr V rd rs1 rs2 false false); fields.
  - apply (emit_div_ok rbp Hr V rd rs1 rs2 true false); fields.
  - apply (emit_div_ok rbp Hr V rd rs1 rs2 false true); fields.
  - apply (emit_div_ok rbp Hr V rd rs1 rs2 true true); fields.
  - apply (emit_divw_ok rbp Hr V rd rs1 rs2 false false); fields.
  - apply (emit_divw_ok rbp Hr V rd rs1 rs2 true false); fields.
  - apply (emit_divw_ok rbp Hr V rd rs1 rs2 false true); fields.
  - apply (emit_divw_ok rbp Hr V rd rs1 rs2 true true); fields.
Qed.

Lemma agree_view rbp regs pc0 s : agree rbp regs pc0 s -> DbtLogic.wf_regs regs ->
  DbtLogic.view rbp s (MkView regs pc0 (X86Sem.gpr s 0) (X86Sem.gpr s 1) (X86Sem.gpr s 2) (X86Sem.gpr s 6)
    (X86Sem.flags s)) s.
Proof. intros [] Hw. split; auto. Qed.

(** Code that writes a register as the interpreter does ends in agreement. *)
Lemma same_write_runs rbp pc0 op compressed code (m : Machine W) s :
  same_write rbp pc0 op compressed code m -> wf_ctx (ctx m) -> agree rbp (registers (ctx m)) pc0 s ->
  exists l s' m', code = Some l /\ run l s = Some s' /\ step op compressed m = Ok tt m' /\
    agree rbp (registers (ctx m')) pc0 s' /\ preserved rbp s s' /\
    m' = set_ctx (set_registers (registers (ctx m')) (ctx m)) m.
Proof.
  intros (rd & x & Hd & He & Hc) Hw Ha. pose proof (agree_view _ _ _ _ Ha (wf_ctx_regs _ Hw)) as Hv.
  match type of Hv with DbtLogic.view _ _ ?V _ => specialize (Hc V eq_refl eq_refl s s Hv) end. destruct code as [l|]; [|destruct Hc].
  destruct Hc as (s' & Hrun & V' & Hv' & Hregs & Hp). exists l, s', (with_reg rd x m).
  assert (Hr : vregs V' = registers (ctx (with_reg rd x m))) by (unfold with_reg; destruct (rd =? 0); exact Hregs).
  destruct Hv' as [V1 V2 V3 V4 V5 V6 _ _ _ _ _ V12 V13]. rewrite Hr in *. cbn [vpc] in Hp. rewrite Hp in V4.
  split; [reflexivity|]. split; [exact Hrun|]. split; [exact He|]. split; [split; assumption|].
  split; [split; assumption|]. unfold with_reg. destruct (rd =? 0); [|reflexivity].
  destruct m as [[] ? ? ? ? ? ?]. reflexivity.
Qed.

(** C2. The code the translator emits for an operation of integer computation (OP-IMM, OP,
    their 32-bit forms, M, LUI, AUIPC, FENCE) agrees with the interpreter: it is emitted
    without a panic, runs to its end (a division that faults goes through the signal
    handler), and leaves in memory the registers that [step] leaves in the context;
    memory outside the registers and the other machine registers are untouched, and
    [step] changes nothing else.  There are two exceptions, in which the encoder refuses an
    immediate and the translator panics: a shift by a negative constant (the decoder
    lets reserved encodings through) of a register other than [x0] into one other than [x0],
    and AUIPC whose immediate with the offset of the instruction is not an [i32]. *)
Theorem emit_op_refines_step rbp pc0 pc_cur op (compressed : bool) code (m : Machine W) s :
  0 <= rbp /\ rbp + 65536 <= 2 ^ 64 -> wf_ctx (ctx m) -> op_ok op = true ->
  Dbt.emit_op pc_cur op = Some code ->
  agree rbp (registers (ctx m)) pc0 s ->
  u64 (pc0 + pc_cur) = u64 (pc (ctx m) - (if compressed then 2 else 4)) ->
  if panics pc_cur op then code = None
  else exists l s' m', code = Some l /\ run l s = Some s' /\ step op compressed m = Ok tt m' /\
    agree rbp (registers (ctx m')) pc0 s' /\ preserved rbp s s' /\
    m' = set_ctx (set_registers (registers (ctx m')) (ctx m)) m.
Proof.
  intros Hr Hw Ho He Ha Hpc. destruct (panics pc_cur op) eqn:Ep; [eapply emit_op_panics; eassumption|].
  pose proof (emit_op_out _ _ _ Ho Ep He) as Hout. rewrite emit_op_checked in He.
  destruct (Dbt.emit_op (E := any_encoder) pc_cur op) as [raw|] eqn:Er; [|discriminate He]. injection He as <-.
  destruct (same_write_runs rbp pc0 op compressed raw m s) as (l & s' & m' & -> & H); [eapply emit_op_same_write; eassumption|exact Hw|exact Ha|].
  exists l, s', m'. split; [|exact H]. cbn [checked] in *. destruct (forallb _ l); [reflexivity|contradiction].
Qed.

End Correct.

(** Memory with [Context] at 4096, all registers zero and the program counter before
    that of [reset_machine]. *)
Definition context_bytes (a : Z) : Z :=
  if (4352 <=? a) && (a <? 4356) then nth (Z.to_nat (a - 4352)) [0xFC; 0xFF; 0xFF; 0x3F] 0 else 0.

Definition context_state : X86Sem.St := X86Sem.MkSt (fun i => if i =? 5 then 4096 else 0) None context_bytes.

Lemma context_agree : agree 4096 (registers (ctx reset_machine)) 0x3FFFFFFC context_state.
Proof.
  split.
  - reflexivity.
  - intros r Hr. assert (Hz : forall k, (k < 8)%nat -> context_bytes (4096 + r * 8 + Z.of_nat k) = 0).
    { intros k Hk. unfold context_bytes. destruct (Z.leb_spec 4352 (4096 + r * 8 + Z.of_nat k)); [lia|reflexivity]. }
    assert (E : load_bytes context_bytes (4096 + r * 8) 8 = load_bytes (fun _ => 0) (4096 + r * 8) 8).
    { apply DbtLogic.load_bytes_ext. intros x Hx. rewrite <- (Hz (Z.to_nat (x - (4096 + r * 8)))) by lia. f_equal. lia. }
    cbn [X86Sem.memory context_state]. rewrite E. unfold DbtLogic.reg. cbn [ctx reset_machine reset_context registers].
    rewrite nth_repeat. reflexivity.
  - vm_compute. reflexivity.
  - intros a. cbn [X86Sem.memory context_state]. unfold context_bytes.
    destruct ((4352 <=? a) && (a <? 4356)); [|lia]. destruct (Z.to_nat (a - 4352)) as [|[|[|[|[|]]]]]; cbn; lia.
  - intros i. cbn [X86Sem.gpr context_state]. destruct (i =? 5); apply in_u_lit; reflexivity.
Qed.

(** [DIV x3, x1, x2] with [x2] zero: the division faults, and the handler gives -1. *)
Lemma emit_op_refines_step_witness :
  exists l s' m', Dbt.emit_op 0 (Op.Div 3 1 2) = Some (Some l) /\ run l context_state = Some s' /\
    @step unit idle_platform (Op.Div 3 1 2) false reset_machine = Ok tt m' /\
    agree 4096 (registers (ctx m')) 0x3FFFFFFC s'.
Proof.
  destruct (emit_op_refines_step (P := idle_platform) 4096 0x3FFFFFFC 0 (Op.Div 3 1 2) false
    (Dbt.emit_div 3 1 2 false false) reset_machine context_state) as (l & s' & m' & E & Hr & Hs & Ha & _).
  - lia.
  - exact (wf_context _ reset_machine_wf).
  - reflexivity.
  - reflexivity.
  - exact context_agree.
  - vm_compute. reflexivity.
  - exists l, s', m'. split; [cbn [Dbt.emit_op]; rewrite E; reflexivity|]. auto.
Defined.

(** ** Words the translator cannot encode *)

(** [SLLI x1, x1] with a reserved bit set decodes to a shift by a negative amount; the
    interpreter takes it modulo 64, but the encoder asserts that the amount of a shift is a
    byte, so that translating the word panics. *)
Theorem reserved_shift_panics :
  RiscvDecode.decode 0x80109093 = Some (Op.Slli 1 1 (-2047)) /\ Dbt.emit_op 0 (Op.Slli 1 1 (-2047)) = Some None.
Proof. split; vm_compute; reflexivity. Qed.

(** [AUIPC x1, 0x80000] across the end of a page: the offset of the instruction is then -4,
    and the sum with the immediate is too large for the encoder. *)
Theorem crossing_auipc_panics :
  RiscvDecode.decode 0x80000097 = Some (Op.Auipc 1 (- 2 ^ 31)) /\ Dbt.emit_op (-4) (Op.Auipc 1 (- 2 ^ 31)) = Some None.
Proof. split; vm_compute; reflexivity. Qed.
