(* ===== verification/SignalProps.v ===== *)
(** The handler of memory faults replays the instruction: what a load from a device leaves
    is what the instruction would have left had the device's data been in memory. *)

From Stdlib Require Import ZArith Lia Bool List.
From S2P Require Import Prelude X86Op X86Encode X86Decode X86Props X86RoundTrip Hart Words X86Sem Signal DbtLogic.
Import ListNotations.
Local Open Scope Z_scope.
Local Open Scope rust_scope.
Import X86 X86Sem Signal.

(** Operands the handler reads as the machine does: a 64-bit base and no index; the
    displacement is an [i32]. *)
Definition plain_memory (m : Memory) : bool :=
  (- 2 ^ 31 <=? displacement m) && (displacement m <? 2 ^ 31) && match index m with Some _ => false | None => true end &&
  match base m with Some b => match reg_size b with Some Qword => true | _ => false end | None => true end.

Definition plain_register (r : Register) : bool :=
  negb (high_byte (reg_num r)) && match reg_size r with Some _ => true | None => false end.

Lemma plain_mem_ok m : plain_memory m = true -> mem_ok m /\ base m <> Some RIP.
Proof.
  unfold plain_memory, mem_ok, in_i. rewrite !andb_true_iff, Z.leb_le, Z.ltb_lt. intros [[[H1 H2] H3] H4].
  destruct (index m); [discriminate|]. split; [split; [lia|exact I]|]. intros E. rewrite E in H4. discriminate.
Qed.

(** ** Where the handler is *)

(** The bytes of an instruction are in memory at [ip]. *)
Definition code_at (mem : Z -> Z) (ip : Z) (bytes : list Z) : Prop :=
  forall i b, nth_error bytes i = Some b -> mem (u64 (ip + Z.of_nat i)) = b.

Lemma reader_code mem ip bytes : code_at mem ip bytes -> (length bytes <= 15)%nat ->
  exists rest, MemReader mem ip = bytes ++ rest /\ (length rest = 15 - length bytes)%nat.
Proof.
  intros Hc Hl. unfold MemReader.
  assert (seq 0 15 = seq 0 (length bytes) ++ seq (0 + length bytes) (15 - length bytes)) as -> by (rewrite <- seq_app; f_equal; lia).
  rewrite map_app. eexists. split; [f_equal|rewrite length_map, length_seq; reflexivity].
  apply nth_error_ext. intros i. rewrite nth_error_map. destruct (Nat.ltb_spec i (length bytes)) as [L|L].
  - rewrite nth_error_seq, (proj2 (Nat.ltb_lt _ _) L). cbn [option_map Nat.add].
    destruct (nth_error bytes i) as [b|] eqn:E; [rewrite (Hc i b E); reflexivity|]. apply nth_error_None in E. lia.
  - rewrite (proj2 (nth_error_None (seq 0 (length bytes)) i)) by (rewrite length_seq; lia).
    symmetry. apply nth_error_None. lia.
Qed.

(** The instruction found is the one whose code is there, and the address behind it. *)
Lemma fault_op_code op bytes c : decodable op -> Encode.encode op = Some bytes -> code_at (memory (machine c)) (rip c) bytes ->
  fault_op c = Some (normal op, u64 (rip c + Z.of_nat (length bytes))).
Proof.
  intros Hd He Hc. destruct (x86_length op bytes He) as [Hl _]. destruct (reader_code _ _ _ Hc Hl) as (rest & E & Hr).
  unfold fault_op. rewrite E, (encode_round_trips op bytes rest Hd He), Hr. do 3 f_equal. lia.
Qed.

(** ** Where the handler reads and writes *)

Lemma qword_index b : reg_size b = Some Qword -> high_byte (reg_num b) = false.
Proof. destruct b; vm_compute; congruence. Qed.

Lemma eval_is_address m s : plain_memory m = true -> (forall i, in_u 64 (gpr s i)) ->
  address m s = Some (eval_memory_location s m).
Proof.
  unfold plain_memory, address, eval_memory_location. rewrite !andb_true_iff. intros [[_ Hi] Hm] Hg.
  destruct (index m) as [[i k]|]; [discriminate|]. destruct (base m) as [b|].
  - destruct (reg_size b) as [[]|] eqn:Eb; try discriminate. pose proof (qword_index b Eb) as Hh.
    unfold get_reg, reg_index, greg. rewrite Eb, Hh. cbv iota beta. f_equal. rewrite Z.add_0_r.
    unfold u64. change (bits Qword) with 64. apply wrap_eqm. eqm_norm. rewrite Z.add_comm. reflexivity.
  - f_equal.
Qed.

(** Replacing the low [k] bits. *)
Lemma keep_high x v k : 0 <= k <= 64 -> in_u 64 x ->
  (x .& u64 (Z.lnot (2 ^ k - 1))) .| (v .& (2 ^ k - 1)) = (x >> k << k) .| wrap k v.
Proof.
  intros Hk Hx. rewrite land_mask by lia. f_equal. apply Z.bits_inj'. intros i Hi.
  replace (2 ^ k - 1) with (Z.ones k) by (rewrite Z.ones_equiv; lia).
  rewrite Z.land_spec. unfold u64, wrap. rewrite Z.testbit_mod_pow2, Z.lnot_spec, Z.testbit_ones_nonneg by lia.
  rewrite Z.shiftl_spec by lia. destruct (Z.ltb_spec i k) as [L|L]; cbn [negb].
  - rewrite (Z.testbit_neg_r _ (i - k)), !andb_false_r by lia. reflexivity.
  - rewrite Z.shiftr_spec, Z.sub_add, andb_true_r by lia. destruct (Z.ltb_spec i 64); [apply andb_true_r|].
    rewrite (testbit_high 64 x i) by (auto; lia). reflexivity.
Qed.

Lemma write_is_put r v s : plain_register r = true -> (forall i, in_u 64 (gpr s i)) -> in_u 64 v ->
  write_location s (Reg r) v = put_reg r v s.
Proof.
  unfold plain_register. intros Hr Hg Hv. apply andb_true_iff in Hr as [Hh Hs]. apply negb_true_iff in Hh.
  unfold write_location, put_reg, reg_index, greg. rewrite Hh. destruct (reg_size r) as [[]|]; try discriminate.
  - pose proof (keep_high (gpr s (reg_num r .& 15)) v 8 ltac:(lia) (Hg _)) as K.
    change (2 ^ 8 - 1) with 0xFF in K. rewrite K. reflexivity.
  - pose proof (keep_high (gpr s (reg_num r .& 15)) v 16 ltac:(lia) (Hg _)) as K.
    change (2 ^ 16 - 1) with 0xFFFF in K. rewrite K. reflexivity.
  - reflexivity.
  - unfold u64. rewrite wrap_id by exact Hv. reflexivity.
Qed.

Lemma read_is_get r s : plain_register r = true -> (forall i, in_u 64 (gpr s i)) ->
  read_location s (Reg r) = get_reg r s.
Proof.
  unfold plain_register. intros Hr Hg. apply andb_true_iff in Hr as [Hh Hs]. apply negb_true_iff in Hh.
  unfold read_location, get_reg, reg_index, greg. rewrite Hh. destruct (reg_size r) as [[]|]; try discriminate; try reflexivity.
  change (bits Qword) with 64. rewrite wrap_id by apply Hg. reflexivity.
Qed.

(** ** Replaying *)

(** The loads and the store that translated code makes through a pointer. *)
Inductive device_load : Op -> Register -> Memory -> Prop :=
| load_mov r m : reg_size r = Some (mem_size m) -> device_load (Mov (Reg r) (OpMem m)) r m
| load_zx r m : device_load (Movzx r (Mem m)) r m
| load_sx r m : mem_size m <> Qword -> device_load (Movsx r (Mem m)) r m.

(** Memory with [d] at the operand [m]. *)
Definition with_data (m : Memory) (d : Z) (s : St) : St :=
  set_memory (store_bytes (eval_memory_location s m) d (bytes_of (mem_size m)) (memory s)) s.

Lemma get_with_data m d s : plain_memory m = true -> (forall i, in_u 64 (gpr s i)) -> in_u (bits (mem_size m)) d ->
  get_loc (Mem m) (with_data m d s) = Some d.
Proof.
  intros Hm Hg Hd. cbn [get_loc]. assert (address m (with_data m d s) = address m s) as -> by reflexivity.
  rewrite eval_is_address by assumption. cbv iota beta. f_equal. apply load_store_same.
  rewrite bytes_of_bits. exact Hd.
Qed.

Lemma put_reg_total r v s : plain_register r = true -> exists s', put_reg r v s = Some s'.
Proof.
  unfold plain_register, put_reg. intros H. apply andb_true_iff in H as [_ H]. destruct (reg_size r); [|discriminate].
  eexists. reflexivity.
Qed.

Lemma put_reg_u64 r v s : put_reg r (u64 v) s = put_reg r v s.
Proof.
  assert (E : forall n, 0 <= n <= 64 -> wrap n (u64 v) = wrap n v) by (intros n Hn; apply eqm_wrap; exact Hn).
  unfold put_reg, u8, u16, u32, u64 in *. destruct (reg_size r) as [[]|]; rewrite ?E by lia; reflexivity.
Qed.

(** Writing a register does not depend on memory. *)
Lemma put_reg_memory r v s x s' : put_reg r v s = Some s' ->
  memory s' = memory s /\ exists s2, put_reg r v (set_memory x s) = Some s2 /\ forall i, gpr s2 i = gpr s' i.
Proof.
  unfold put_reg. destruct (reg_size r) as [size|]; [|discriminate]. intros H. injection H as <-.
  split; [reflexivity|]. eexists. split; [reflexivity|]. reflexivity.
Qed.

Lemma data_word size d : in_u (bits size) d -> in_u 64 d.
Proof.
  intros H. assert (bits size <= 64) by (destruct size; vm_compute; congruence).
  pose proof (Z.pow_le_mono_r 2 (bits size) 64 ltac:(lia) ltac:(assumption)). unfold in_u in *. lia.
Qed.

Section Replay.
Context {IO : Type}.
Variable io_read : Z -> Z -> IO -> Z * IO.
Variable io_write : Z -> Z -> Z -> IO -> IO.

(** What the handler does for a load is a write of the register. *)
Lemma segv_load_put op r m s io d io' : device_load op r m -> plain_register r = true ->
  (forall i, in_u 64 (gpr s i)) -> in_u (bits (mem_size m)) d ->
  io_read (eval_memory_location s m) (size_bytes (mem_size m)) io = (d, io') ->
  exists v, replay_access io_read io_write op s io = (let? s' := put_reg r v s in Some (s', io')) /\
    forall s2, (get_loc (Mem m) s2 = Some d) -> exec op s2 = from_option (put_reg r v s2).
Proof.
  intros Hl Hr Hg Hd Hio. pose proof (data_word _ _ Hd) as Hw. destruct Hl as [r m Hs|r m|r m Hs]; cbn [replay_access]; rewrite Hio.
  - exists d. rewrite write_is_put by assumption. split; [reflexivity|]. intros s2 E. cbn [exec loc_size get_operand]. rewrite Hs, E.
    reflexivity.
  - exists d. rewrite write_is_put by assumption. split; [reflexivity|]. intros s2 E. cbn [exec]. unfold extend.
    cbn [loc_size]. rewrite E. reflexivity.
  - exists (sext (bits (mem_size m)) d). split.
    + rewrite <- put_reg_u64. unfold i8, i16, i32. destruct (mem_size m); try congruence;
        rewrite write_is_put by (auto; apply wrap_range; lia); reflexivity.
    + intros s2 E. cbn [exec]. unfold extend. cbn [loc_size]. rewrite E. reflexivity.
Qed.

Lemma device_load_decodes op r m : device_load op r m -> plain_memory m = true -> decodable op /\ normal op = op.
Proof.
  intros Hl Hm. destruct (plain_mem_ok m Hm) as [Ho Hb]. assert (En : forall z, z = mem_size m -> norm_mem z m = m).
  { intros z ->. unfold norm_mem, mem_resize. destruct m as [[[]|] i d z]; try reflexivity. contradiction Hb. reflexivity. }
  destruct Hl as [r m Hs|r m|r m Hs]; cbn [decodable normal loc_ok src_ok not_high norm_src norm_loc]; auto.
  split; [auto|]. unfold size_of. cbn [loc_size]. rewrite Hs, En; reflexivity.
Qed.

Lemma device_store_decodes r m : plain_memory m = true ->
  decodable (Mov (Mem m) (OpReg r)) /\ normal (Mov (Mem m) (OpReg r)) = Mov (Mem m) (OpReg r).
Proof.
  intros Hm. destruct (plain_mem_ok m Hm) as [Ho Hb]. cbn [decodable normal loc_ok src_ok norm_src norm_loc]. split; [auto|].
  do 2 f_equal. unfold norm_mem, mem_resize. destruct m as [[[]|] i d z]; try reflexivity. contradiction Hb. reflexivity.
Qed.

(** C28. The handler of memory faults finishes the access that faulted and goes on behind
    it.  With the code of the instruction at the address of the fault: for a load, the
    registers end as the instruction leaves them when the data the device returned is
    in memory at its address, and guest memory is untouched; for a store, the device
    gets the address, the width and the value the instruction would have written, and
    the machine state is unchanged; and in both cases the interrupted code resumes at
    the first byte after the instruction, so that the access is made once. *)
Theorem segv_replays s ip io : (forall i, in_u 64 (gpr s i)) ->
  (forall op r m d io' bytes, device_load op r m -> plain_register r = true -> plain_memory m = true ->
     Encode.encode op = Some bytes -> code_at (memory s) ip bytes ->
     io_read (eval_memory_location s m) (size_bytes (mem_size m)) io = (d, io') -> in_u (bits (mem_size m)) d ->
     exists s' s2, handle_segv io_read io_write (MkUcontext s ip) io =
         Some (MkUcontext s' (u64 (ip + Z.of_nat (length bytes))), io') /\ memory s' = memory s /\
       exec op (with_data m d s) = Next s2 /\ forall i, gpr s' i = gpr s2 i) /\
  (forall r m v bytes, reg_size r = Some (mem_size m) -> plain_register r = true -> plain_memory m = true ->
     Encode.encode (Mov (Mem m) (OpReg r)) = Some bytes -> code_at (memory s) ip bytes -> get_reg r s = Some v ->
     handle_segv io_read io_write (MkUcontext s ip) io =
       Some (MkUcontext s (u64 (ip + Z.of_nat (length bytes))),
             io_write (eval_memory_location s m) v (size_bytes (mem_size m)) io) /\
     exec (Mov (Mem m) (OpReg r)) s = Next (with_data m (wrap (bits (mem_size m)) v) s)).
Proof.
  intros Hg. split.
  - intros op r m d io' bytes Hl Hr Hm He Hc Hio Hd. destruct (device_load_decodes op r m Hl Hm) as [Hdec Hn].
    destruct (segv_load_put op r m s io d io') as (v & Hh & Hx); try assumption.
    destruct (put_reg_total r v s Hr) as [s' Hs']. rewrite Hs' in Hh.
    destruct (put_reg_memory r v s (memory (with_data m d s)) s' Hs') as (Hmem & s2 & H2 & Hi).
    exists s', s2. split; [|split; [exact Hmem|split; [|auto]]].
    + unfold handle_segv. rewrite (fault_op_code op bytes (MkUcontext s ip) Hdec He Hc), Hn. cbn [machine rip]. rewrite Hh. reflexivity.
    + rewrite Hx by (apply get_with_data; assumption). unfold with_data in *. cbn [set_memory memory] in H2. rewrite H2. reflexivity.
  - intros r m v bytes Hs Hr Hm He Hc Hv. destruct (device_store_decodes r m Hm) as [Hdec Hn]. split.
    + unfold handle_segv. rewrite (fault_op_code _ bytes (MkUcontext s ip) Hdec He Hc), Hn. cbn [machine rip replay_access].
      rewrite read_is_get, Hv by assumption. reflexivity.
    + cbn [exec loc_size get_operand put_loc]. rewrite Hv, eval_is_address by assumption. reflexivity.
Qed.

End Replay.

(** [movsx rax, byte ptr [rsi]], at 0x400000, from a device that returns 0x80. *)
Definition load_op : Op := Movsx RAX (Mem (MkMem (Some RSI) None 0 Byte)).
Definition load_state : St :=
  MkSt (fun i => if i =? 6 then 0x1000 else 0) None
       (fun a => if a =? 0x400000 then 0x48 else if a =? 0x400001 then 0x0F else if a =? 0x400002 then 0xBE
                 else if a =? 0x400003 then 0x06 else 0).

Lemma segv_replays_witness :
  exists s' s2, handle_segv (fun _ _ io => (0x80, io + 1)) (fun _ _ _ io => io) (MkUcontext load_state 0x400000) 7 =
      Some (MkUcontext s' 0x400004, 8) /\
    exec load_op (with_data (MkMem (Some RSI) None 0 Byte) 0x80 load_state) = Next s2 /\
    gpr s' 0 = gpr s2 0.
Proof.
  destruct (segv_replays (fun _ _ io => (0x80, io + 1)) (fun _ _ _ io => io) load_state 0x400000 7) as [H _].
  - intros i. cbn [gpr load_state]. destruct (i =? 6); unfold in_u; lia.
  - destruct (H load_op RAX (MkMem (Some RSI) None 0 Byte) 0x80 8 [0x48; 0x0F; 0xBE; 0x06])
      as (s' & s2 & H1 & _ & H2 & H3); [constructor; discriminate|reflexivity|reflexivity|reflexivity| |reflexivity| |].
    + intros [|[|[|[|[|i]]]]] b E; cbn in E; try congruence; injection E as <-; reflexivity.
    + vm_compute. split; congruence.
    + exists s', s2. auto.
Defined.

(** The handler of division faults likewise goes on behind the division. *)
Theorem fpe_advances s ip op bytes s' : decodable op -> Encode.encode op = Some bytes -> code_at (memory s) ip bytes -> replay_division (normal op) s = Some s' ->
  handle_fpe (MkUcontext s ip) = Some (MkUcontext s' (u64 (ip + Z.of_nat (length bytes)))).
Proof.
  intros Hd He Hc Hs. unfold handle_fpe. rewrite (fault_op_code op bytes (MkUcontext s ip) Hd He Hc).
  cbn [machine]. rewrite Hs. reflexivity.
Qed.

(** ** Where the handler differs from the machine *)

(** The scale is applied to the whole sum, not to the index. *)
Theorem eval_scale_wrong :
  let s := MkSt (fun i => if i =? 3 then 0x1000 else if i =? 1 then 2 else 0) None (fun _ => 0) in
  let m := MkMem (Some RBX) (Some (RCX, 8)) 0 Qword in
  eval_memory_location s m = 0x8010 /\ address m s = Some 0x1010.
Proof. vm_compute. auto. Qed.

(** [AH] is read from [RSP]. *)
Theorem high_byte_wrong :
  let s := MkSt (fun i => if i =? 0 then 0x1234 else if i =? 4 then 0x5678 else 0) None (fun _ => 0) in
  read_location s (Reg AH) = Some 0x56 /\ get_reg AH s = Some 0x12.
Proof. vm_compute. auto. Qed.
