(* ===== verification/Pipeline.v ===== *)
(** The timing models of src/sim/pipeline: the trait [PipelineModel] and its three
    implementations.  A hook may insert cycles into the block being translated; it returns
    how many. *)

From Stdlib Require Import ZArith Lia Bool List.
From S2P Require Import Prelude RiscvOp.
Import ListNotations.
Local Open Scope Z_scope.
Local Open Scope rust_scope.

Module Pipeline.

(** [trait PipelineModel]; [None] of [after_taken_branch] is a panic. *)
Class PipelineModel (M : Type) : Type := {
  can_fuse_cond_op : M -> bool;
  begin_block : Z -> M -> M * Z;
  before_instruction : Op.Op -> bool -> M -> M * Z;
  after_instruction : Op.Op -> bool -> M -> M * Z;
  after_taken_branch : Op.Op -> bool -> M -> option (M * Z);
}.

(** ** [AtomicModel] and [SimpleModel] *)

Inductive AtomicModel : Type := Atomic.

#[export] Instance atomic_model : PipelineModel AtomicModel := {
  can_fuse_cond_op _ := true;
  begin_block _ m := (m, 0);
  before_instruction _ _ m := (m, 0);
  after_instruction _ _ m := (m, 0);
  after_taken_branch _ _ m := Some (m, 0);
}.

Inductive SimpleModel : Type := Simple.

#[export] Instance simple_model : PipelineModel SimpleModel := {
  can_fuse_cond_op _ := true;
  begin_block _ m := (m, 0);
  before_instruction _ _ m := (m, 0);
  after_instruction _ _ m := (m, 1);
  after_taken_branch _ _ m := Some (m, 1);
}.

(** ** [InOrderModel] *)

(** [stall_reg] is the register whose value comes late, zero for none; between the two
    hooks of an instruction it is the register the instruction writes. *)
Record InOrderModel : Type := MkInOrder { stall_reg : Z }.

Definition in_order_default : InOrderModel := MkInOrder 0.

Definition in_order_begin_block (pc : Z) (m : InOrderModel) : InOrderModel * Z :=
  (m, if pc mod 4 =? 0 then 0 else 1).

Definition in_order_before (op : Op.Op) (m : InOrderModel) : InOrderModel * Z :=
  let '(rd, rs1, rs2) := Op.get_regs op in
  (MkInOrder rd, if negb (stall_reg m =? 0) && ((stall_reg m =? rs1) || (stall_reg m =? rs2)) then 1 else 0).

(** The cycles of an instruction, and whether its result comes late. *)
Definition op_cycle (op : Op.Op) : Z * bool :=
  match op with
  | Op.Illegal => (1, false)
  | Op.Lui _ _ | Op.Auipc _ _ => (1, false)
  | Op.Jal _ _ => (1, false)
  | Op.Beq _ _ imm | Op.Bne _ _ imm | Op.Blt _ _ imm | Op.Bge _ _ imm | Op.Bltu _ _ imm | Op.Bgeu _ _ imm =>
      (if 0 <=? imm then 1 else 4, false)
  | Op.Lb _ _ _ | Op.Lh _ _ _ | Op.Lw _ _ _ | Op.Ld _ _ _ | Op.Lbu _ _ _ | Op.Lhu _ _ _ | Op.Lwu _ _ _ => (1, true)
  | Op.Jalr _ _ _ => (4, false)
  | Op.Fence => (1, false)
  | Op.FenceI => (5, false)
  | Op.Ecall | Op.Ebreak => (1, false)
  | Op.Mret | Op.Sret => (5, false)
  | Op.Wfi => (1, false)
  | Op.SfenceVma _ _ => (1, false)
  | Op.Sb _ _ _ | Op.Sh _ _ _ | Op.Sw _ _ _ | Op.Sd _ _ _ => (1, false)
  | Op.Addi _ _ _ | Op.Slti _ _ _ | Op.Sltiu _ _ _ | Op.Xori _ _ _ | Op.Ori _ _ _ | Op.Andi _ _ _ | Op.Addiw _ _ _
  | Op.Slli _ _ _ | Op.Srli _ _ _ | Op.Srai _ _ _ | Op.Slliw _ _ _ | Op.Srliw _ _ _ | Op.Sraiw _ _ _ => (1, false)
  | Op.Add _ _ _ | Op.Sub _ _ _ | Op.Sll _ _ _ | Op.Slt _ _ _ | Op.Sltu _ _ _ | Op.Xor _ _ _ | Op.Srl _ _ _
  | Op.Sra _ _ _ | Op.Or _ _ _ | Op.And _ _ _ | Op.Addw _ _ _ | Op.Subw _ _ _ | Op.Sllw _ _ _ | Op.Srlw _ _ _
  | Op.Sraw _ _ _ => (1, false)
  | Op.Mul _ _ _ => (11, true)
  | Op.Mulh _ _ _ | Op.Mulhsu _ _ _ | Op.Mulhu _ _ _ => (17, true)
  | Op.Div _ _ _ | Op.Divu _ _ _ | Op.Rem _ _ _ | Op.Remu _ _ _ => (65, true)
  | Op.Mulw _ _ _ => (4, true)
  | Op.Divw _ _ _ | Op.Divuw _ _ _ | Op.Remw _ _ _ | Op.Remuw _ _ _ => (33, true)
  | Op.Csrrw _ _ _ | Op.Csrrs _ _ _ | Op.Csrrc _ _ _ | Op.Csrrwi _ _ _ | Op.Csrrsi _ _ _ | Op.Csrrci _ _ _ => (1, true)
  | Op.LrW _ _ _ | Op.LrD _ _ _ => (1, true)
  | Op.ScW _ _ _ _ | Op.ScD _ _ _ _ | Op.AmoswapW _ _ _ _ | Op.AmoswapD _ _ _ _ | Op.AmoaddW _ _ _ _
  | Op.AmoaddD _ _ _ _ | Op.AmoxorW _ _ _ _ | Op.AmoxorD _ _ _ _ | Op.AmoandW _ _ _ _ | Op.AmoandD _ _ _ _
  | Op.AmoorW _ _ _ _ | Op.AmoorD _ _ _ _ | Op.AmominW _ _ _ _ | Op.AmominD _ _ _ _ | Op.AmomaxW _ _ _ _
  | Op.AmomaxD _ _ _ _ | Op.AmominuW _ _ _ _ | Op.AmominuD _ _ _ _ | Op.AmomaxuW _ _ _ _ | Op.AmomaxuD _ _ _ _ => (1, true)
  | Op.Flw _ _ _ | Op.Fld _ _ _ | Op.Fsw _ _ _ | Op.Fsd _ _ _ => (1000, false)
  | Op.FaddS _ _ _ _ | Op.FsubS _ _ _ _ | Op.FmulS _ _ _ _ | Op.FdivS _ _ _ _ | Op.FsgnjS _ _ _ | Op.FsgnjnS _ _ _
  | Op.FsgnjxS _ _ _ | Op.FminS _ _ _ | Op.FmaxS _ _ _ | Op.FaddD _ _ _ _ | Op.FsubD _ _ _ _ | Op.FmulD _ _ _ _
  | Op.FdivD _ _ _ _ | Op.FsgnjD _ _ _ | Op.FsgnjnD _ _ _ | Op.FsgnjxD _ _ _ | Op.FminD _ _ _ | Op.FmaxD _ _ _ => (1000, false)
  | Op.FsqrtS _ _ _ | Op.FsqrtD _ _ _ | Op.FcvtSD _ _ _ | Op.FcvtDS _ _ _ => (1000, false)
  | Op.FcvtWS _ _ _ | Op.FcvtWuS _ _ _ | Op.FcvtLS _ _ _ | Op.FcvtLuS _ _ _ | Op.FmvXW _ _ | Op.FclassS _ _
  | Op.FcvtWD _ _ _ | Op.FcvtWuD _ _ _ | Op.FcvtLD _ _ _ | Op.FcvtLuD _ _ _ | Op.FmvXD _ _ | Op.FclassD _ _ => (1000, false)
  | Op.FcvtSW _ _ _ | Op.FcvtSWu _ _ _ | Op.FcvtSL _ _ _ | Op.FcvtSLu _ _ _ | Op.FmvWX _ _
  | Op.FcvtDW _ _ _ | Op.FcvtDWu _ _ _ | Op.FcvtDL _ _ _ | Op.FcvtDLu _ _ _ | Op.FmvDX _ _ => (1000, false)
  | Op.FeqS _ _ _ | Op.FltS _ _ _ | Op.FleS _ _ _ | Op.FeqD _ _ _ | Op.FltD _ _ _ | Op.FleD _ _ _ => (1000, false)
  | Op.FmaddS _ _ _ _ _ | Op.FmsubS _ _ _ _ _ | Op.FnmsubS _ _ _ _ _ | Op.FnmaddS _ _ _ _ _
  | Op.FmaddD _ _ _ _ _ | Op.FmsubD _ _ _ _ _ | Op.FnmsubD _ _ _ _ _ | Op.FnmaddD _ _ _ _ _ => (1000, false)
  end.

Definition in_order_after (op : Op.Op) (m : InOrderModel) : InOrderModel * Z :=
  let (cycles, late) := op_cycle op in
  (MkInOrder (if late then stall_reg m else 0), cycles).

(** The offset of a branch *)
Definition branch_imm (op : Op.Op) : option Z :=
  match op with
  | Op.Beq _ _ imm | Op.Bne _ _ imm | Op.Blt _ _ imm | Op.Bge _ _ imm | Op.Bltu _ _ imm | Op.Bgeu _ _ imm => Some imm
  | _ => None
  end.

Definition in_order_taken (op : Op.Op) (m : InOrderModel) : option (InOrderModel * Z) :=
  let? imm := branch_imm op in Some (m, if imm <? 0 then 1 else 4).

#[export] Instance in_order_model : PipelineModel InOrderModel := {
  can_fuse_cond_op _ := false;
  begin_block := in_order_begin_block;
  before_instruction op _ m := in_order_before op m;
  after_instruction op _ m := in_order_after op m;
  after_taken_branch op _ m := in_order_taken op m;
}.

(** ** The timing of straight code *)

(** The cycles a list of instructions inserts. *)
Fixpoint cycles_of {M} `{PipelineModel M} (ops : list Op.Op) (m : M) : Z :=
  match ops with
  | [] => 0
  | op :: ops =>
      let (m, a) := before_instruction op false m in
      let (m, b) := after_instruction op false m in
      a + b + cycles_of ops m
  end.

(** The instruction [op2] uses what [op1] has not ready yet. *)
Definition hazard (op1 op2 : Op.Op) : bool :=
  let '(rd, _, _) := Op.get_regs op1 in
  let '(_, rs1, rs2) := Op.get_regs op2 in
  snd (op_cycle op1) && negb (rd =? 0) && ((rd =? rs1) || (rd =? rs2)).

Fixpoint hazards (ops : list Op.Op) : Z :=
  match ops with
  | [] => 0
  | op1 :: rest => match rest with op2 :: _ => Z.b2z (hazard op1 op2) | [] => 0 end + hazards rest
  end.

Fixpoint latency (ops : list Op.Op) : Z := match ops with [] => 0 | op :: ops => fst (op_cycle op) + latency ops end.

(** The stall a register that comes late causes. *)
Definition stalls (r : Z) (ops : list Op.Op) : Z :=
  match ops with
  | [] => 0
  | op :: _ => let '(_, rs1, rs2) := Op.get_regs op in Z.b2z (negb (r =? 0) && ((r =? rs1) || (r =? rs2)))
  end.

Lemma cycles_in_order ops : forall m,
  cycles_of (M := InOrderModel) ops m = stalls (stall_reg m) ops + latency ops + hazards ops.
Proof.
  induction ops as [|op ops IH]; intros m; [reflexivity|]. cbn [cycles_of before_instruction after_instruction in_order_model].
  unfold in_order_before, stalls. cbn [latency hazards]. unfold hazard. destruct (Op.get_regs op) as [[rd rs1] rs2].
  unfold in_order_after. destruct (op_cycle op) as [k late]. cbn [fst snd stall_reg].
  change (let '(m0, b) := (MkInOrder (if late then rd else 0), k) in
    (if negb (stall_reg m =? 0) && ((stall_reg m =? rs1) || (stall_reg m =? rs2)) then 1 else 0) + b + cycles_of ops m0)
    with ((if negb (stall_reg m =? 0) && ((stall_reg m =? rs1) || (stall_reg m =? rs2)) then 1 else 0) + k +
      cycles_of ops (MkInOrder (if late then rd else 0))).
  rewrite IH. cbn [stall_reg]. unfold stalls. destruct ops as [|op2 ops]; [destruct (_ && _); cbn [Z.b2z]; lia|].
  destruct (Op.get_regs op2) as [[rd2 rs3] rs4]. destruct late; cbn [andb Z.eqb negb];
    destruct (negb (stall_reg m =? 0) && _); cbn [Z.b2z]; lia.
Qed.

(** The in-order pipeline charges straight code its latencies and one cycle for each
    instruction that uses the result of a load, multiplication, division, CSR or atomic
    instruction directly before it; nothing else stalls. *)
Theorem in_order_timing ops : cycles_of ops in_order_default = latency ops + hazards ops.
Proof.
  rewrite cycles_in_order. destruct ops as [|op ops]; [reflexivity|]. unfold stalls. cbn [stall_reg in_order_default Z.eqb negb andb].
  destruct (Op.get_regs op) as [[rd rs1] rs2]. cbn [Z.b2z]. lia.
Qed.

End Pipeline.
