(* ===== verification/DbtBlock.v ===== *)
(** The translator of src/emu/dbt.rs as a whole: the state of [DbtCompiler], jumps and their
    patching, the code for memory accesses, jumps, atomics and calls of the interpreter, and
    the translation of instructions and blocks.

    Code is a list of instructions.  A jump has a condition, a width and a target, which
    [patch] fills in; positions (labels and placeholders) count instructions where the
    source counts bytes, so that the distance a short jump can span is not part of the
    model, nor is the room left in the buffer.  A panic is [None]; the encoder has one on an
    operation it cannot encode. *)

From Stdlib Require Import ZArith Lia Bool List.
From stdpp Require Import base list.
From S2P Require Import Prelude RiscvCsr RiscvOp X86Op Dbt Pipeline.
Import ListNotations.
Local Open Scope Z_scope.
Local Open Scope rust_scope.
Import X86 Pipeline.

Module DbtBlock.

(** The functions generated code calls. *)
Inductive Helper : Type :=
| read_csr | write_csr | riscv_step | helper_trap | helper_misalign | translate_cache_miss
| insn_translate_cache_miss | helper_icache_cross_miss | helper_patch_direct_jump
| helper_check_interrupt | helper_san_fail | helper_pred_miss | fiber_yield_raw | fiber_sleep_raw.

Inductive Target : Type := Unpatched | To (label : nat) | ToHelper (h : Helper).
Inductive Width : Type := Short | Long.

Inductive Insn : Type :=
| Plain (op : X86.Op)
| Jump (cc : option ConditionCode) (w : Width) (t : Target)
| CallTo (t : Target).

(** A placeholder is the position of the jump it stands for. *)
Notation Label := nat (only parsing).
Notation PlaceHolder := nat (only parsing).

Inductive SlowPath : Type :=
| DCache (ebx : Z) (write : bool) (jcc_misalign : option PlaceHolder) (jcc_miss : PlaceHolder) (label_fin : Label)
| ICache (ebx : Z) (jcc_miss : PlaceHolder) (label_fin : Label)
| Trap (ebx : Z) (jcc_trap : PlaceHolder).

(** [struct DbtCompiler] *)
Record Compiler (M : Type) : Type := MkCompiler {
  code : list Insn; slow_path : list SlowPath; pc_start : Z; pc_cur : Z; pc_end : Z; instret : Z;
  minstret : Z; cycles : Z; model : M; speculative_len : nat }.
Arguments MkCompiler {M}.
Arguments code {M}.
Arguments slow_path {M}.
Arguments pc_start {M}.
Arguments pc_cur {M}.
Arguments pc_end {M}.
Arguments instret {M}.
Arguments minstret {M}.
Arguments cycles {M}.
Arguments model {M}.
Arguments speculative_len {M}.

(** What the code depends on but does not change while translating: the mode of execution,
    the flags, the features of the build, the size of cache lines, and where [Context] has
    the reservation of LR. *)
Record Env : Type := MkEnv {
  threaded : bool; wfi_nop : bool; feature_direct : bool; user_only : bool; feature_sanitize : bool;
  cache_line_size_log2 : Z; OFFSET_LR_ADDR : Z; OFFSET_LR_VALUE : Z;
  (** [transmute] of an operation to an integer *)
  op_bits : Op.Op -> Z }.

(** [offset_of!(Context, ..)] *)
Definition OFFSET_INSTRET : Z := 264.
Definition OFFSET_MINSTRET : Z := 288.
Definition OFFSET_CYCLE_OFFSET : Z := 296.
Definition OFFSET_SHARED : Z := 304.
(** [offset_of!(SharedContext, ..)] *)
Definition OFFSET_ALARM : Z := 0.
Definition OFFSET_LINE : Z := 16.
Definition OFFSET_I_LINE : Z := 16400.

Definition memory_of (offset : Z) : Memory := reg_add RBP offset.

Definition PAGE_CROSS_RESERVATION : nat := 256.

Definition same_page (a b : Z) : bool := (a >> 12) =? (b >> 12).

Section Compiler.
Context {E : Dbt.Encoder} {M : Type} {PM : PipelineModel M} (env : Env).

Definition same_cache_line (a b : Z) : bool :=
  (a >> cache_line_size_log2 env) =? (b >> cache_line_size_log2 env).

(** ** State *)

Definition Comp (A : Type) : Type := Compiler M -> option (A * Compiler M).
Definition ret {A} (a : A) : Comp A := fun c => Some (a, c).
Definition bind {A B} (x : Comp A) (f : A -> Comp B) : Comp B := fun c =>
  match x c with Some (a, c) => f a c | None => None end.
Definition panic {A} : Comp A := fun _ => None.
Definition get {A} (f : Compiler M -> A) : Comp A := fun c => Some (f c, c).
Definition modify (f : Compiler M -> Compiler M) : Comp unit := fun c => Some (tt, f c).
Notation "'let*' x ':=' m 'in' k" := (bind m (fun x => k)) (at level 10, x pattern, m at level 100, k at level 200).
Notation "a ;; b" := (bind a (fun _ => b)) (at level 100, b at level 200, right associativity).
Definition when (b : bool) (x : Comp unit) : Comp unit := if b then x else ret tt.
Definition assert (b : bool) : Comp unit := if b then ret tt else panic.

Definition set_code (v : list Insn) (c : Compiler M) : Compiler M :=
  MkCompiler v (slow_path c) (pc_start c) (pc_cur c) (pc_end c) (instret c) (minstret c) (cycles c) (model c) (speculative_len c).
Definition set_slow_path (v : list SlowPath) (c : Compiler M) : Compiler M :=
  MkCompiler (code c) v (pc_start c) (pc_cur c) (pc_end c) (instret c) (minstret c) (cycles c) (model c) (speculative_len c).
Definition set_pc_start (v : Z) (c : Compiler M) : Compiler M :=
  MkCompiler (code c) (slow_path c) v (pc_cur c) (pc_end c) (instret c) (minstret c) (cycles c) (model c) (speculative_len c).
Definition set_pc_cur (v : Z) (c : Compiler M) : Compiler M :=
  MkCompiler (code c) (slow_path c) (pc_start c) v (pc_end c) (instret c) (minstret c) (cycles c) (model c) (speculative_len c).
Definition set_pc_end (v : Z) (c : Compiler M) : Compiler M :=
  MkCompiler (code c) (slow_path c) (pc_start c) (pc_cur c) v (instret c) (minstret c) (cycles c) (model c) (speculative_len c).
Definition set_instret (v : Z) (c : Compiler M) : Compiler M :=
  MkCompiler (code c) (slow_path c) (pc_start c) (pc_cur c) (pc_end c) v (minstret c) (cycles c) (model c) (speculative_len c).
Definition set_minstret (v : Z) (c : Compiler M) : Compiler M :=
  MkCompiler (code c) (slow_path c) (pc_start c) (pc_cur c) (pc_end c) (instret c) v (cycles c) (model c) (speculative_len c).
Definition set_cycles (v : Z) (c : Compiler M) : Compiler M :=
  MkCompiler (code c) (slow_path c) (pc_start c) (pc_cur c) (pc_end c) (instret c) (minstret c) v (model c) (speculative_len c).
Definition set_model (v : M) (c : Compiler M) : Compiler M :=
  MkCompiler (code c) (slow_path c) (pc_start c) (pc_cur c) (pc_end c) (instret c) (minstret c) (cycles c) v (speculative_len c).
Definition set_speculative_len (v : nat) (c : Compiler M) : Compiler M :=
  MkCompiler (code c) (slow_path c) (pc_start c) (pc_cur c) (pc_end c) (instret c) (minstret c) (cycles c) (model c) v.

(** [DbtCompiler::new] *)
Definition new (m : M) : Compiler M := MkCompiler [] [] 0 0 0 0 0 0 m 0.

Definition insert_cycle_count (count : Z) : Comp unit := modify (fun c => set_cycles (cycles c + count) c).

(** A hook of the pipeline model, with the cycles it inserts. *)
Definition with_model (f : M -> M * Z) : Comp unit :=
  let* m := get model in
  let (m, count) := f m in
  insert_cycle_count count ;; modify (set_model m).
Definition with_model_opt (f : M -> option (M * Z)) : Comp unit :=
  let* m := get model in
  match f m with
  | Some (m, count) => insert_cycle_count count ;; modify (set_model m)
  | None => panic
  end.

(** ** Emitting *)

Definition append (i : Insn) : Comp unit := modify (fun c => set_code (code c ++ [i]) c).
(** [emit]: the encoder may panic. *)
Definition emit (op : X86.Op) : Comp unit := if Dbt.accepts op then append (Plain op) else panic.

(** The code of [Dbt]. *)
Definition emits (x : Dbt.Code) : Comp unit :=
  match x with
  | Some l => modify (fun c => set_code (code c ++ map Plain l) c)
  | None => panic
  end.

Definition emit_jump (i : Insn) : Comp PlaceHolder :=
  let* p := get (fun c => length (code c)) in
  append i ;; ret p.
Definition emit_jcc_short (cc : ConditionCode) : Comp PlaceHolder := emit_jump (Jump (Some cc) Short Unpatched).
Definition emit_jcc_long (cc : ConditionCode) : Comp PlaceHolder := emit_jump (Jump (Some cc) Long Unpatched).
Definition emit_jmp_long : Comp PlaceHolder := emit_jump (Jump None Long Unpatched).
Definition label : Comp Label := get (fun c => length (code c)).

Definition with_target (t : Target) (i : Insn) : Insn :=
  match i with Plain op => Plain op | Jump cc w _ => Jump cc w t | CallTo _ => CallTo t end.

(** [patch] and [patch_absolute] *)
Definition patch (place : PlaceHolder) (l : Label) : Comp unit :=
  modify (fun c => set_code (alter (with_target (To l)) place (code c)) c).
Definition patch_absolute (place : PlaceHolder) (h : Helper) : Comp unit :=
  modify (fun c => set_code (alter (with_target (ToHelper h)) place (code c)) c).

Definition emit_helper_call (h : Helper) : Comp unit := let* p := emit_jump (CallTo Unpatched) in patch_absolute p h.
Definition emit_helper_jmp (h : Helper) : Comp unit := let* p := emit_jump (Jump None Long Unpatched) in patch_absolute p h.
Definition emit_helper_jcc (cc : ConditionCode) (h : Helper) : Comp unit := let* p := emit_jcc_long cc in patch_absolute p h.

Definition push_slow (s : SlowPath) : Comp unit := modify (fun c => set_slow_path (slow_path c ++ [s]) c).

(** [get_ebx] *)
Definition pack_ebx (pc_cur instret : Z) : Z := (u16 (i16 instret) << 16) .| u16 (i16 pc_cur).
Definition get_ebx : Comp Z := get (fun c => pack_ebx (pc_cur c) (instret c)).

(** [before_side_effect] *)
Definition before_side_effect : Comp unit :=
  let* n := get cycles in
  if n =? 0 then ret tt
  else
    (if threaded env then emit (Add (Mem (memory_of OFFSET_CYCLE_OFFSET)) (Imm n))
     else if n =? 1 then emit_helper_call fiber_yield_raw
     else emit (Mov (Reg RDI) (Imm (n - 1))) ;; emit_helper_call fiber_sleep_raw) ;;
    modify (set_cycles 0).

Definition emit_step_call (op : Op.Op) : Comp unit :=
  before_side_effect ;;
  emit (Mov (Reg RDI) (OpReg RBP)) ;;
  emit (Mov (Reg RSI) (Imm (op_bits env op))) ;;
  emit_helper_call riscv_step ;;
  emit (Test (Reg AL) (OpReg AL)) ;;
  let* jcc_trap := emit_jcc_long NotEqual in
  let* ebx := get_ebx in
  push_slow (Trap ebx jcc_trap).

(** [pre_adjust_instret], [pre_adjust_pc_instret], [post_adjust_pc_instret] *)
Definition pre_adjust_instret : Comp unit :=
  let* i := get instret in
  when (i + 1 <>? 0) (emit (Add (Mem (memory_of OFFSET_INSTRET)) (Imm (i + 1)))) ;;
  let* k := get minstret in
  when (k <>? 0) (emit (Add (Mem (memory_of OFFSET_MINSTRET)) (Imm k))).

Definition insn_len (compressed : bool) : Z := if compressed then 2 else 4.

Definition pre_adjust_pc_instret (comp : bool) : Comp unit :=
  let* p := get pc_cur in
  let pc_offset := p + insn_len comp in
  when (pc_offset <>? 0) (emit (Add (Mem Dbt.memory_of_pc) (Imm pc_offset))) ;;
  pre_adjust_instret.

Definition post_adjust_pc_instret : Comp unit :=
  let* p := get pc_cur in
  when (p <>? 0) (emit (Add (Mem Dbt.memory_of_pc) (Imm p))) ;;
  let* i := get instret in
  when (i <>? 0) (emit (Add (Mem (memory_of OFFSET_INSTRET)) (Imm i))) ;;
  let* k := get minstret in
  when (k <>? 0) (emit (Add (Mem (memory_of OFFSET_MINSTRET)) (Imm k))).

(** ** Control flow *)

(** [cfg!(feature = "direct") && crate::get_flags().prv == 0] *)
Definition direct : bool := feature_direct env && user_only env.

Definition emit_icache_access (pc_offset : Z) (set_rsi : bool) : Comp unit :=
  before_side_effect ;;
  emit (Mov (Reg RSI) (OpMem Dbt.memory_of_pc)) ;;
  when (pc_offset <>? 0) (emit (Add (Reg RSI) (Imm pc_offset))) ;;
  if direct then ret tt
  else
    let offset := OFFSET_SHARED + OFFSET_I_LINE in
    emit (Mov (Reg RCX) (OpReg RSI)) ;;
    emit (Shr (Reg RCX) (Imm (cache_line_size_log2 env))) ;;
    emit (Mov (Reg EAX) (OpReg ECX)) ;;
    emit (And (Reg EAX) (Imm 1023)) ;;
    emit (Shl (Reg EAX) (Imm 4)) ;;
    emit (Cmp (Reg RCX) (OpMem (mem_add (reg_add_reg RBP RAX) offset))) ;;
    let* jcc_miss := emit_jcc_long NotEqual in
    when set_rsi (emit (Xor (Reg RSI) (OpMem (mem_add (reg_add_reg RBP RAX) (offset + 8))))) ;;
    let* label_fin := label in
    let* ebx := get_ebx in
    push_slow (ICache ebx jcc_miss label_fin).

Definition emit_icache_slow (ebx : Z) (jcc_miss : PlaceHolder) (label_fin : Label) : Comp unit :=
  let* label_miss := label in
  patch jcc_miss label_miss ;;
  emit (Mov (Reg RDI) (OpReg RBP)) ;;
  emit_helper_call insn_translate_cache_miss ;;
  emit (Mov (Reg RSI) (OpReg RDX)) ;;
  emit (Test (Reg AL) (OpReg AL)) ;;
  let* jcc_fin := emit_jcc_long Equal in
  patch jcc_fin label_fin ;;
  emit (Mov (Reg EBX) (Imm ebx)) ;;
  emit_helper_jmp helper_trap.

Definition emit_chain_tail : Comp unit :=
  let* n := get cycles in
  assert (n =? 0) ;;
  emit (Lea RBX (reg_add RIP 5)) ;;
  emit_helper_jmp helper_pred_miss.

Definition emit_interrupt_check : Comp unit :=
  before_side_effect ;;
  emit (Cmp (Mem (memory_of (OFFSET_SHARED + OFFSET_ALARM))) (Imm 0)) ;;
  emit_helper_jcc NotEqual helper_check_interrupt.

Definition emit_trap (ebx : Z) (jcc_trap : PlaceHolder) : Comp unit :=
  let* label_trap := label in
  patch jcc_trap label_trap ;;
  emit (Mov (Reg EBX) (Imm ebx)) ;;
  emit_helper_jmp helper_trap.

(** [!cc] *)
Definition negated (cc : ConditionCode) : Comp ConditionCode :=
  match cc_not cc with Some cc => ret cc | None => panic end.

(** The comparison of a branch; the condition may have to be swapped. *)
Definition emit_compare (rs1 rs2 : Z) (cc : ConditionCode) : Comp ConditionCode :=
  if rs2 =? 0 then emit (Cmp (Dbt.loc_of_register rs1) (Imm 0)) ;; ret cc
  else if rs1 =? 0 then emit (Cmp (Dbt.loc_of_register rs2) (Imm 0)) ;; ret (cc_swap cc)
  else
    emit (Mov (Reg RDX) (operand_of (Dbt.loc_of_register rs1))) ;;
    emit (Cmp (Reg RDX) (operand_of (Dbt.loc_of_register rs2))) ;;
    ret cc.

Definition emit_branch (rs1 rs2 imm : Z) (cc : ConditionCode) (op : Op.Op) (compressed : bool) : Comp unit :=
  let* cc := emit_compare rs1 rs2 cc in
  let* ncc := negated cc in
  let* jcc_not := emit_jcc_long ncc in
  let* pe := get pc_end in
  let pre_pc_offset := i64 (pe - insn_len compressed) in
  let pc_offset := i64 (pre_pc_offset + imm) in
  emit (Add (Mem Dbt.memory_of_pc) (Imm pc_offset)) ;;
  pre_adjust_instret ;;
  let* old_cycles := get cycles in
  with_model_opt (after_taken_branch op compressed) ;;
  emit_interrupt_check ;;
  let* ps := get pc_start in
  let target := u64 (ps + u64 pc_offset) in
  let* old_pc_cur := get pc_cur in
  modify (set_pc_cur 0) ;;
  let* old_instret := get instret in
  modify (set_instret 0) ;;
  (if same_page ps target then
     when (negb (same_cache_line (u64 (u64 (ps + u64 pe) - 1)) target))
       (let* ebx := get_ebx in assert (ebx =? 0) ;; emit_icache_access 0 false) ;;
     emit_helper_call helper_patch_direct_jump
   else emit_chain_tail) ;;
  modify (set_pc_cur old_pc_cur) ;;
  modify (set_instret old_instret) ;;
  modify (set_cycles old_cycles) ;;
  let* label_not := label in
  patch jcc_not label_not.

Definition emit_jalr (rd rs1 imm : Z) (op : Op.Op) (compressed : bool) : Comp unit :=
  pre_adjust_instret ;;
  emits (Dbt.load_reg RAX rs1) ;;
  when (imm <>? 0) (emit (Add (Reg RAX) (Imm imm))) ;;
  emit (And (Reg RAX) (Imm (Z.lnot 1))) ;;
  let* p := get pc_cur in
  when (rd <>? 0)
    (emit (Mov (Reg RDX) (OpMem Dbt.memory_of_pc)) ;;
     emit (Add (Reg RDX) (Imm (p + insn_len compressed))) ;;
     emit (Mov (Dbt.loc_of_register rd) (OpReg RDX))) ;;
  emit (Mov (Mem Dbt.memory_of_pc) (OpReg RAX)) ;;
  with_model (after_instruction op compressed) ;;
  emit_interrupt_check ;;
  emit_chain_tail.

Definition emit_jal (rd imm : Z) (op : Op.Op) (compressed : bool) : Comp unit :=
  pre_adjust_instret ;;
  let* p := get pc_cur in
  let pc_offset := p + insn_len compressed in
  let imm_from_end := i64 (imm - insn_len compressed) in
  (if rd <>? 0 then
     emit (Mov (Reg RAX) (OpMem Dbt.memory_of_pc)) ;;
     emit (Lea RDX (reg_add RAX (i32 pc_offset))) ;;
     emits (Dbt.store_reg rd RDX) ;;
     emit (Add (Reg RAX) (Imm (i64 (imm_from_end + pc_offset)))) ;;
     emit (Mov (Mem Dbt.memory_of_pc) (OpReg RAX))
   else emit (Add (Mem Dbt.memory_of_pc) (Imm (i64 (imm_from_end + pc_offset))))) ;;
  with_model (after_instruction op compressed) ;;
  emit_interrupt_check ;;
  let* ps := get pc_start in
  let* pe := get pc_end in
  let pc_end := u64 (ps + u64 pe) in
  let target := u64 (pc_end + u64 imm_from_end) in
  if same_cache_line pc_end target then emit_helper_call helper_patch_direct_jump else emit_chain_tail.

(** ** Memory accesses *)

(** [dcache_access]: [RSI] becomes the physical address by the data cache of level 0. *)
Definition dcache_access (size : Size) (write : bool) : Comp unit :=
  if direct then ret tt
  else
    let* jcc_misalign :=
      (if size_eqb size Byte then ret None
       else
         emit (Test (Reg ESI) (Imm (size_bytes size - 1))) ;;
         let* p := emit_jcc_long NotEqual in ret (Some p)) in
    let offset := OFFSET_SHARED + OFFSET_LINE in
    emit (Mov (Reg RCX) (OpReg RSI)) ;;
    emit (Shr (Reg RCX) (Imm (cache_line_size_log2 env))) ;;
    emit (Mov (Reg EAX) (OpReg ECX)) ;;
    emit (And (Reg EAX) (Imm 1023)) ;;
    emit (Shl (Reg EAX) (Imm 4)) ;;
    (if write then
       emit (Add (Reg RCX) (OpReg RCX)) ;;
       emit (Cmp (Reg RCX) (OpMem (mem_add (reg_add_reg RBP RAX) offset)))
     else
       emit (Mov (Reg RDX) (OpMem (mem_add (reg_add_reg RBP RAX) offset))) ;;
       emit (Shr (Reg RDX) (Imm 1)) ;;
       emit (Cmp (Reg RDX) (OpReg RCX))) ;;
    let* jcc_miss := emit_jcc_long NotEqual in
    emit (Xor (Reg RSI) (OpMem (mem_add (reg_add_reg RBP RAX) (offset + 8)))) ;;
    let* label_fin := label in
    let* ebx := get_ebx in
    push_slow (DCache ebx write jcc_misalign jcc_miss label_fin).

Definition dcache_access_slow (ebx : Z) (write : bool) (jcc_misalign : option PlaceHolder) (jcc_miss : PlaceHolder)
    (label_fin : Label) : Comp unit :=
  (match jcc_misalign with
   | Some jcc_misalign =>
       let* label_misalign := label in
       patch jcc_misalign label_misalign ;;
       emit (Mov (Reg EBX) (Imm ebx)) ;;
       emit_helper_jmp helper_misalign
   | None => ret tt
   end) ;;
  let* label_miss := label in
  patch jcc_miss label_miss ;;
  emit (Mov (Reg RDI) (OpReg RBP)) ;;
  (if write then emit (Mov (Reg EDX) (Imm 1)) else emit (Xor (Reg EDX) (OpReg EDX))) ;;
  emit_helper_call translate_cache_miss ;;
  emit (Mov (Reg RSI) (OpReg RDX)) ;;
  emit (Test (Reg AL) (OpReg AL)) ;;
  let* jcc_fin := emit_jcc_long Equal in
  patch jcc_fin label_fin ;;
  emit (Mov (Reg EBX) (Imm ebx)) ;;
  emit_helper_jmp helper_trap.

Definition count_memory : Comp unit := modify (fun c => set_minstret (minstret c + 1) c).

(** The address of a load or store, in [RSI] *)
Definition emit_address (rs1 imm : Z) : Comp unit :=
  emit (Mov (Reg RSI) (operand_of (Dbt.loc_of_register rs1))) ;;
  when (imm <>? 0) (emit (Add (Reg RSI) (Imm imm))).

Definition emit_load (rs1 imm : Z) (size : Size) : Comp unit :=
  before_side_effect ;; count_memory ;; emit_address rs1 imm ;; dcache_access size false.

(** [(Register::RSI + 0).resize(size)] *)
Definition at_rsi (size : Size) : Memory := mem_resize (reg_add RSI 0) size.

Definition resized (r : Register) (size : Size) : Comp Register :=
  match reg_resize r size with Some r => ret r | None => panic end.

Definition emit_store (rs1 rs2 imm : Z) (size : Size) : Comp unit :=
  before_side_effect ;; count_memory ;; emit_address rs1 imm ;; dcache_access size true ;;
  let* reg := resized RDX size in
  emit (Mov (Reg reg) (operand_of (Dbt.loc_sized rs2 size))) ;;
  emit (Mov (Mem (at_rsi size)) (OpReg reg)).

(** ** Atomics *)

Definition amo_op_w (rd rs1 rs2 : Z) (action : Comp unit) : Comp unit :=
  before_side_effect ;; count_memory ;;
  emits (Dbt.load_reg RSI rs1) ;;
  dcache_access Dword true ;;
  emits (Dbt.load_reg EAX rs2) ;;
  action ;;
  emits (Dbt.store_reg rd EAX).

Definition amo_op_d (rd rs1 rs2 : Z) (action : Comp unit) : Comp unit :=
  before_side_effect ;; count_memory ;;
  emits (Dbt.load_reg RSI rs1) ;;
  dcache_access Qword true ;;
  emits (Dbt.load_reg RAX rs2) ;;
  action ;;
  emits (Dbt.store_reg rd RAX).

Definition cmpxchg_w (rd rs1 rs2 : Z) (action : Comp unit) : Comp unit :=
  before_side_effect ;; count_memory ;;
  emits (Dbt.load_reg RSI rs1) ;;
  dcache_access Dword true ;;
  emits (Dbt.load_reg EDX rs2) ;;
  emit (Mov (Reg EAX) (OpMem (at_rsi Dword))) ;;
  let* label_retry := label in
  emit (Mov (Reg ECX) (OpReg EAX)) ;;
  action ;;
  emit Lock ;;
  emit (Cmpxchg (Mem (at_rsi Dword)) ECX) ;;
  let* jcc_retry := emit_jcc_short NotEqual in
  patch jcc_retry label_retry ;;
  emits (Dbt.store_reg rd EAX).

Definition cmpxchg_d (rd rs1 rs2 : Z) (action : Comp unit) : Comp unit :=
  before_side_effect ;; count_memory ;;
  emits (Dbt.load_reg RSI rs1) ;;
  dcache_access Qword true ;;
  emits (Dbt.load_reg RDX rs2) ;;
  emit (Mov (Reg RAX) (OpMem (at_rsi Qword))) ;;
  let* label_retry := label in
  emit (Mov (Reg RCX) (OpReg RAX)) ;;
  action ;;
  emit Lock ;;
  emit (Cmpxchg (Mem (at_rsi Qword)) RCX) ;;
  let* jcc_retry := emit_jcc_short NotEqual in
  patch jcc_retry label_retry ;;
  emits (Dbt.store_reg rd RAX).

Definition locked (op : X86.Op) : Comp unit := emit Lock ;; emit op.

(** An operation on memory at [RSI] that needs no result *)
Definition amo_noresult (w : bool) (rs1 rs2 : Z) (op : Location -> Operand -> X86.Op) : Comp unit :=
  if w then amo_op_w 0 rs1 rs2 (locked (op (Mem (at_rsi Dword)) (OpReg EAX)))
  else amo_op_d 0 rs1 rs2 (locked (op (Mem (at_rsi Qword)) (OpReg RAX))).

(** AND, OR, XOR: a retry loop when the old value is wanted *)
Definition amo_logic (w : bool) (rd rs1 rs2 : Z) (op : Location -> Operand -> X86.Op) : Comp unit :=
  if rd =? 0 then amo_noresult w rs1 rs2 op
  else if w then cmpxchg_w rd rs1 rs2 (emit (op (Reg ECX) (OpReg EDX)))
  else cmpxchg_d rd rs1 rs2 (emit (op (Reg RCX) (OpReg RDX))).

(** MIN and MAX *)
Definition amo_choose (w : bool) (rd rs1 rs2 : Z) (cc : ConditionCode) : Comp unit :=
  if w then cmpxchg_w rd rs1 rs2 (emit (Cmp (Reg EDX) (OpReg ECX)) ;; emit (Cmovcc ECX (Reg EDX) cc))
  else cmpxchg_d rd rs1 rs2 (emit (Cmp (Reg RDX) (OpReg RCX)) ;; emit (Cmovcc RCX (Reg RDX) cc)).

Definition amo_add (w : bool) (rd rs1 rs2 : Z) : Comp unit :=
  if rd =? 0 then amo_noresult w rs1 rs2 Add
  else if w then amo_op_w rd rs1 rs2 (locked (Xadd (Mem (at_rsi Dword)) EAX))
  else amo_op_d rd rs1 rs2 (locked (Xadd (Mem (at_rsi Qword)) RAX)).

Definition emit_lr (w : bool) (rd rs1 : Z) : Comp unit :=
  before_side_effect ;; count_memory ;;
  emits (Dbt.load_reg RSI rs1) ;;
  emit (Mov (Reg RBX) (OpReg RSI)) ;;
  dcache_access (if w then Dword else Qword) true ;;
  (if w then emit (Movsx RAX (Mem (at_rsi Dword))) else emit (Mov (Reg RAX) (OpMem (reg_add RSI 0)))) ;;
  emits (Dbt.store_reg rd RAX) ;;
  emit (Mov (Mem (memory_of (OFFSET_LR_ADDR env))) (OpReg RBX)) ;;
  emit (Mov (Mem (memory_of (OFFSET_LR_VALUE env))) (OpReg RAX)).

Definition emit_sc (w : bool) (rd rs1 rs2 : Z) : Comp unit :=
  before_side_effect ;;
  emits (Dbt.load_reg RSI rs1) ;;
  emit (Cmp (Mem (memory_of (OFFSET_LR_ADDR env))) (OpReg RSI)) ;;
  let* jcc_addr_mismatch := emit_jcc_short NotEqual in
  dcache_access (if w then Dword else Qword) true ;;
  (if w then
     emit (Mov (Reg EAX) (OpMem (mem_resize (memory_of (OFFSET_LR_VALUE env)) Dword))) ;;
     emits (Dbt.load_reg EDX rs2) ;;
     emit Lock ;;
     emit (Cmpxchg (Mem (at_rsi Dword)) EDX)
   else
     emit (Mov (Reg RAX) (OpMem (memory_of (OFFSET_LR_VALUE env)))) ;;
     emits (Dbt.load_reg RDX rs2) ;;
     emit Lock ;;
     emit (Cmpxchg (Mem (reg_add RSI 0)) RDX)) ;;
  let* l := label in
  patch jcc_addr_mismatch l ;;
  emit (Setcc (Reg CL) NotEqual) ;;
  emit (Movsx ECX (Reg CL)) ;;
  emits (Dbt.store_reg rd RCX).

(** ** SYSTEM *)

Definition emit_read_csr (csr : Csr) : Comp unit :=
  emit (Mov (Reg RDI) (OpReg RBP)) ;; emit (Mov (Reg ESI) (Imm csr)) ;; emit_helper_call read_csr.
Definition emit_write_csr (csr : Csr) : Comp unit :=
  emit (Mov (Reg RDI) (OpReg RBP)) ;; emit (Mov (Reg ESI) (Imm csr)) ;; emit_helper_call write_csr.

Definition emit_trap_check : Comp unit :=
  emit (Test (Reg AL) (OpReg AL)) ;;
  let* trap := emit_jcc_long NotEqual in
  let* ebx := get_ebx in
  push_slow (Trap ebx trap).

(** An operation after which the block is left *)
Definition emit_leave (op : Op.Op) (comp : bool) : Comp unit :=
  pre_adjust_pc_instret comp ;;
  let* old_pc_cur := get pc_cur in
  let* old_instret := get instret in
  modify (set_pc_cur (- insn_len comp)) ;;
  modify (set_instret (-1)) ;;
  emit_step_call op ;;
  modify (set_pc_cur old_pc_cur) ;;
  modify (set_instret old_instret) ;;
  with_model (after_instruction op comp) ;;
  emit_interrupt_check ;;
  emit_chain_tail.

(** The CSRs that are read or written between blocks only *)
Definition csr_leaves (csr : Csr) : bool :=
  (csr =? Csr.Instret) || (csr =? Csr.Instreth) || (csr =? Csr.Satp) || (csr =? 0x800) || (csr =? 0x801).

Definition emit_csr_write (load : Comp unit) (csr : Csr) : Comp unit :=
  before_side_effect ;; load ;; emit_write_csr csr ;; emit_trap_check.

Definition emit_csr_read (rd : Z) (csr : Csr) : Comp unit :=
  before_side_effect ;; emit_read_csr csr ;; emit_trap_check ;; when (rd <>? 0) (emits (Dbt.store_reg rd RDX)).

Definition emit_csr (op : Op.Op) (comp : bool) (csr : Csr) (other : Comp unit) : Comp unit :=
  if csr_leaves csr then emit_leave op comp else other.

(** A load into a register *)
Definition emit_load_to (rd rs1 imm : Z) (size : Size) (op : X86.Op) : Comp unit :=
  emit_load rs1 imm size ;; emit op ;; emits (Dbt.store_reg rd RAX).

(** ** [emit_op] *)
Definition emit_op (op : Op.Op) (comp : bool) : Comp unit :=
  let* p := get pc_cur in
  match Dbt.emit_op p op with
  | Some l => emits l
  | None =>
  match op with
  | Op.Lb rd rs1 imm => emit_load_to rd rs1 imm Byte (Movsx RAX (Mem (at_rsi Byte)))
  | Op.Lh rd rs1 imm => emit_load_to rd rs1 imm Word (Movsx RAX (Mem (at_rsi Word)))
  | Op.Lw rd rs1 imm => emit_load_to rd rs1 imm Dword (Movsx RAX (Mem (at_rsi Dword)))
  | Op.Ld rd rs1 imm => emit_load_to rd rs1 imm Qword (Mov (Reg RAX) (OpMem (at_rsi Qword)))
  | Op.Lbu rd rs1 imm => emit_load_to rd rs1 imm Byte (Movzx RAX (Mem (at_rsi Byte)))
  | Op.Lhu rd rs1 imm => emit_load_to rd rs1 imm Word (Movzx RAX (Mem (at_rsi Word)))
  | Op.Lwu rd rs1 imm => emit_load_to rd rs1 imm Dword (Mov (Reg EAX) (OpMem (at_rsi Dword)))
  | Op.Sb rs1 rs2 imm => emit_store rs1 rs2 imm Byte
  | Op.Sh rs1 rs2 imm => emit_store rs1 rs2 imm Word
  | Op.Sw rs1 rs2 imm => emit_store rs1 rs2 imm Dword
  | Op.Sd rs1 rs2 imm => emit_store rs1 rs2 imm Qword
  | Op.Beq rs1 rs2 imm => emit_branch rs1 rs2 imm Equal op comp
  | Op.Bne rs1 rs2 imm => emit_branch rs1 rs2 imm NotEqual op comp
  | Op.Blt rs1 rs2 imm => emit_branch rs1 rs2 imm Less op comp
  | Op.Bge rs1 rs2 imm => emit_branch rs1 rs2 imm GreaterEqual op comp
  | Op.Bltu rs1 rs2 imm => emit_branch rs1 rs2 imm Below op comp
  | Op.Bgeu rs1 rs2 imm => emit_branch rs1 rs2 imm AboveEqual op comp
  | Op.Jalr rd rs1 imm => emit_jalr rd rs1 imm op comp
  | Op.Jal rd imm => emit_jal rd imm op comp
  | Op.Csrrw rd rs1 csr => emit_csr op comp csr
      (if rd =? 0 then emit_csr_write (emits (Dbt.load_reg RDX rs1)) csr else emit_step_call op)
  | Op.Csrrwi rd imm csr => emit_csr op comp csr
      (if rd =? 0 then emit_csr_write (emit (Mov (Reg RDX) (Imm imm))) csr else emit_step_call op)
  | Op.Csrrs rd x csr | Op.Csrrc rd x csr | Op.Csrrsi rd x csr | Op.Csrrci rd x csr => emit_csr op comp csr
      (if x =? 0 then emit_csr_read rd csr else emit_step_call op)
  | Op.LrW rd rs1 _ => emit_lr true rd rs1
  | Op.LrD rd rs1 _ => emit_lr false rd rs1
  | Op.ScW rd rs1 rs2 _ => emit_sc true rd rs1 rs2
  | Op.ScD rd rs1 rs2 _ => emit_sc false rd rs1 rs2
  | Op.AmoswapW rd rs1 rs2 _ => amo_op_w rd rs1 rs2 (emit (Xchg (Reg EAX) (Mem (at_rsi Dword))))
  | Op.AmoswapD rd rs1 rs2 _ => amo_op_d rd rs1 rs2 (emit (Xchg (Reg RAX) (Mem (at_rsi Qword))))
  | Op.AmoaddW rd rs1 rs2 _ => amo_add true rd rs1 rs2
  | Op.AmoaddD rd rs1 rs2 _ => amo_add false rd rs1 rs2
  | Op.AmoandW rd rs1 rs2 _ => amo_logic true rd rs1 rs2 And
  | Op.AmoandD rd rs1 rs2 _ => amo_logic false rd rs1 rs2 And
  | Op.AmoorW rd rs1 rs2 _ => amo_logic true rd rs1 rs2 Or
  | Op.AmoorD rd rs1 rs2 _ => amo_logic false rd rs1 rs2 Or
  | Op.AmoxorW rd rs1 rs2 _ => amo_logic true rd rs1 rs2 Xor
  | Op.AmoxorD rd rs1 rs2 _ => amo_logic false rd rs1 rs2 Xor
  | Op.AmominW rd rs1 rs2 _ => amo_choose true rd rs1 rs2 Less
  | Op.AmominD rd rs1 rs2 _ => amo_choose false rd rs1 rs2 Less
  | Op.AmomaxW rd rs1 rs2 _ => amo_choose true rd rs1 rs2 Greater
  | Op.AmomaxD rd rs1 rs2 _ => amo_choose false rd rs1 rs2 Greater
  | Op.AmominuW rd rs1 rs2 _ => amo_choose true rd rs1 rs2 Below
  | Op.AmominuD rd rs1 rs2 _ => amo_choose false rd rs1 rs2 Below
  | Op.AmomaxuW rd rs1 rs2 _ => amo_choose true rd rs1 rs2 Above
  | Op.AmomaxuD rd rs1 rs2 _ => amo_choose false rd rs1 rs2 Above
  | Op.Wfi => when (threaded env || negb (wfi_nop env)) (emit_step_call op)
  | Op.Mret | Op.Sret | Op.Ecall | Op.Ebreak | Op.Illegal | Op.FenceI | Op.SfenceVma _ _ => emit_leave op comp
  | _ => emit_step_call op
  end
  end.

(** ** Instructions and blocks *)

Definition compile_op (op : Op.Op) (compressed : bool) (bits : Z) : Comp unit :=
  let* ps := get pc_start in
  let* p := get pc_cur in
  let pe := p + insn_len compressed in
  modify (set_pc_end pe) ;;
  (if feature_sanitize env then
     emit_icache_access (pe - 1) true ;;
     when (bits <>? 0)
       (let mem := reg_sub RSI (if compressed then 1 else 3) in
        emit (Cmp (Mem (mem_resize mem (if compressed then Word else Dword))) (Imm bits)) ;;
        emit_helper_jcc NotEqual helper_san_fail)
   else
     when (negb (same_cache_line (u64 (u64 (ps + u64 p) - 1)) (u64 (u64 (ps + u64 pe) - 1))) && (p <>? 0))
       (emit_icache_access (pe - 1) false)) ;;
  with_model (before_instruction op compressed) ;;
  emit_op op compressed ;;
  with_model (after_instruction op compressed) ;;
  modify (set_pc_cur pe) ;;
  modify (fun c => set_instret (instret c + 1) c).

(** The operands of a branch; [None] is the [unreachable!]. *)
Definition branch_operands (op : Op.Op) : option (Z * Z * ConditionCode) :=
  match op with
  | Op.Beq rs1 rs2 _ => Some (rs1, rs2, Equal)
  | Op.Bne rs1 rs2 _ => Some (rs1, rs2, NotEqual)
  | Op.Blt rs1 rs2 _ => Some (rs1, rs2, Less)
  | Op.Bge rs1 rs2 _ => Some (rs1, rs2, GreaterEqual)
  | Op.Bltu rs1 rs2 _ => Some (rs1, rs2, Below)
  | Op.Bgeu rs1 rs2 _ => Some (rs1, rs2, AboveEqual)
  | _ => None
  end.

Definition compile_cond_op (bop : Op.Op) (bcomp : bool) (op : Op.Op) (comp : bool) : Comp unit :=
  let* ps := get pc_start in
  let* p := get pc_cur in
  let pe := p + insn_len bcomp + insn_len comp in
  modify (set_pc_end pe) ;;
  when (negb (same_cache_line (u64 (u64 (ps + u64 p) - 1)) (u64 (u64 (ps + u64 pe) - 1)))) (emit_icache_access (pe - 1) false) ;;
  match branch_operands bop with
  | None => panic
  | Some (rs1, rs2, cc) =>
      with_model (before_instruction bop bcomp) ;;
      with_model (after_instruction bop bcomp) ;;
      before_side_effect ;;
      let* cc := emit_compare rs1 rs2 cc in
      let* jcc := emit_jcc_long cc in
      emit (Add (Mem (memory_of OFFSET_INSTRET)) (Imm 1)) ;;
      modify (set_pc_cur (p + insn_len bcomp)) ;;
      with_model (before_instruction op comp) ;;
      emit_op op comp ;;
      with_model (after_instruction op comp) ;;
      before_side_effect ;;
      let* label_fin := label in
      patch jcc label_fin ;;
      modify (set_pc_cur pe) ;;
      modify (fun c => set_instret (instret c + 1) c)
  end.

Definition begin_ (pc : Z) : Comp unit :=
  modify (set_pc_start pc) ;;
  emit_icache_access 0 true ;;
  (if i32 pc =? i64 pc then emit (Cmp (Reg RSI) (Imm (i64 pc)))
   else emit (Mov (Reg RAX) (Imm (i64 pc))) ;; emit (Cmp (Reg RSI) (OpReg RAX))) ;;
  emit_helper_jcc NotEqual helper_pred_miss ;;
  let* l := label in
  modify (set_speculative_len l) ;;
  with_model (begin_block pc).

(** [emit_slow_path] *)
Definition emit_slow (s : SlowPath) : Comp unit :=
  match s with
  | DCache ebx write jcc_misalign jcc_miss label_fin => dcache_access_slow ebx write jcc_misalign jcc_miss label_fin
  | ICache ebx jcc_miss label_fin => emit_icache_slow ebx jcc_miss label_fin
  | Trap ebx jcc_trap => emit_trap ebx jcc_trap
  end.

Fixpoint emit_all_slow (l : list SlowPath) : Comp unit :=
  match l with [] => ret tt | s :: l => emit_slow s ;; emit_all_slow l end.

Definition emit_slow_path : Comp unit :=
  let* l := get slow_path in
  modify (set_slow_path []) ;;
  emit_all_slow l.

Fixpoint emit_nops (n : nat) : Comp unit := match n with O => ret tt | S n => emit Nop ;; emit_nops n end.

Definition end_cross (lo_bits : Z) : Comp unit :=
  pre_adjust_pc_instret false ;;
  modify (set_pc_cur (-4)) ;;
  modify (set_instret (-1)) ;;
  emit_icache_access (-2) true ;;
  emit (Cmp (Mem (at_rsi Word)) (Imm 0xCCCC)) ;;
  let* jcc_miss := emit_jcc_long NotEqual in
  let* label_fin := label in
  let* jmp_miss := emit_jmp_long in
  emit_nops (PAGE_CROSS_RESERVATION - 5) ;;
  let* label_miss := label in
  patch jcc_miss label_miss ;;
  patch jmp_miss label_miss ;;
  emit (Mov (Reg ECX) (Imm lo_bits)) ;;
  emit_helper_call helper_icache_cross_miss ;;
  let* jmp_fin := emit_jmp_long in
  patch jmp_fin label_fin ;;
  emit_slow_path.

Definition end_ : Comp unit :=
  post_adjust_pc_instret ;;
  emit_interrupt_check ;;
  let* ps := get pc_start in
  let* p := get pc_cur in
  let pc_end := u64 (ps + u64 p) in
  (if same_cache_line (u64 (pc_end - 1)) pc_end then emit_helper_call helper_patch_direct_jump else emit_chain_tail) ;;
  emit_slow_path.

Definition end_unreachable : Comp unit := emit_slow_path.

(** [icache_cross_miss], once the instruction across two pages is known and its privilege
    checked: the code that takes the place of the reservation. *)
Definition cross_code (pc : Z) (op : Op.Op) : Comp unit :=
  modify (set_pc_start (u64 (pc + 2))) ;;
  modify (set_pc_cur (-4)) ;;
  modify (set_pc_end 0) ;;
  modify (set_instret (-1)) ;;
  with_model (begin_block pc) ;;
  with_model (before_instruction op false) ;;
  emit_op op false ;;
  (if Op.can_change_control_flow op && match branch_operands op with Some _ => false | None => true end then ret tt
   else
     with_model (after_instruction op false) ;;
     emit_interrupt_check ;;
     emit_chain_tail) ;;
  end_unreachable.

End Compiler.
End DbtBlock.
