(* ===== verification/DbtBlockProps.v ===== *)
(** Translated blocks are closed: the translator never panics, every jump of a finished block
    has been given a target, and the target is an instruction of the block or a helper. *)

From Stdlib Require Import ZArith Lia Bool List.
From stdpp Require Import base list.
From S2P Require Import Prelude RiscvCsr RiscvOp X86Op Dbt DbtLogic Pipeline DbtBlock.
Import ListNotations.
Local Open Scope Z_scope.
Local Open Scope rust_scope.
Import X86 Pipeline DbtBlock.

#[local] Existing Instance any_encoder.

(** ** Placeholders *)

Definition target_of (i : Insn) : option Target :=
  match i with Plain _ => None | Jump _ _ t | CallTo t => Some t end.

Definition places (s : SlowPath) : list nat :=
  match s with
  | DCache _ _ m j _ => match m with Some p => [p; j] | None => [j] end
  | ICache _ j _ => [j]
  | Trap _ j => [j]
  end.

Definition fin_label (s : SlowPath) : nat := match s with DCache _ _ _ _ l | ICache _ _ l => l | Trap _ _ => O end.

(** Code [k] with slow paths [s] still to come, [L] placeholders in hand, and labels up to [n]. *)
Record fine (n : nat) (L : list nat) (k : list Insn) (s : list SlowPath) : Prop := {
  f_bound : (n <= length k)%nat;
  f_pending i x : k !! i = Some x -> target_of x = Some Unpatched -> i ∈ L ++ concat (map places s);
  f_labels i x l : k !! i = Some x -> target_of x = Some (To l) -> (l <= n)%nat;
  f_slow x : x ∈ s -> (fin_label x <= n)%nat;
}.

Lemma fine_mono n m L k s : fine n L k s -> (n <= m <= length k)%nat -> fine m L k s.
Proof. intros [H1 H2 H3 H4] Hm. split; [lia|exact H2|intros i x l Hi Hx; specialize (H3 i x l Hi Hx); lia|intros x Hx; specialize (H4 x Hx); lia]. Qed.

Lemma fine_app n L k s l : fine n L k s -> (forall x, x ∈ l -> target_of x = None \/ exists h, target_of x = Some (ToHelper h)) ->
  fine n L (k ++ l) s.
Proof.
  intros [H1 H2 H3 H4] Hl. split; [rewrite length_app; lia| | |exact H4].
  - intros i x Hi Ht. apply lookup_app_Some in Hi as [Hi|[_ Hi]]; [eauto|]. apply list_elem_of_lookup_2, Hl in Hi as [E|[h E]]; congruence.
  - intros i x l' Hi Ht. apply lookup_app_Some in Hi as [Hi|[_ Hi]]; [eauto|]. apply list_elem_of_lookup_2, Hl in Hi as [E|[h E]]; congruence.
Qed.

Lemma fine_jump n L k s x : fine n L k s -> target_of x = Some Unpatched -> fine n (length k :: L) (k ++ [x]) s.
Proof.
  intros [H1 H2 H3 H4] Hx. split; [rewrite length_app; lia| | |exact H4].
  - intros i y Hi Ht. cbn [app]. apply lookup_snoc_Some in Hi as [[_ Hi]|[<- _]]; apply elem_of_cons; [right; eauto|left; reflexivity].
  - intros i y l Hi Ht. apply lookup_snoc_Some in Hi as [[_ Hi]|[_ ->]]; [eauto|congruence].
Qed.

(** Patching a placeholder. *)
Lemma fine_patch n L k s p t m : fine n (p :: L) k s -> (n <= m <= length k)%nat ->
  (forall l, t = To l -> (l <= m)%nat) -> t <> Unpatched -> fine m L (alter (with_target t) p k) s.
Proof.
  intros [H1 H2 H3 H4] Hm Ht Hu.
  assert (Hp : forall x, target_of (with_target t x) = match target_of x with None => None | Some _ => Some t end) by (intros []; reflexivity).
  split; [rewrite length_alter; lia| | |intros x Hx; specialize (H4 x Hx); lia].
  - intros i x Hi Hx. destruct (decide (p = i)) as [<-|N].
    + rewrite list_lookup_alter_eq in Hi. destruct (k !! p) as [y|]; [|discriminate]. injection Hi as <-.
      rewrite Hp in Hx. destruct (target_of y); congruence.
    + rewrite list_lookup_alter_ne in Hi by exact N. pose proof (H2 i x Hi Hx) as H. apply elem_of_cons in H as [E|H]; [congruence|exact H].
  - intros i x l Hi Hx. destruct (decide (p = i)) as [<-|N].
    + rewrite list_lookup_alter_eq in Hi. destruct (k !! p) as [y|]; [|discriminate]. injection Hi as <-.
      rewrite Hp in Hx. destruct (target_of y); [|discriminate]. injection Hx as ->. auto.
    + rewrite list_lookup_alter_ne in Hi by exact N. specialize (H3 i x l Hi Hx). lia.
Qed.

(** A slow path takes its placeholders. *)
Lemma fine_push n L k s x : fine n (places x ++ L) k s -> (fin_label x <= n)%nat -> fine n L k (s ++ [x]).
Proof.
  intros [H1 H2 H3 H4] Hx. split; [exact H1| |exact H3|].
  - intros i y Hi Ht. specialize (H2 i y Hi Ht). rewrite map_app, concat_app. cbn [map concat]. rewrite app_nil_r.
    rewrite !elem_of_app in *. tauto.
  - intros y Hy. apply elem_of_app in Hy as [Hy|Hy]; [auto|]. apply list_elem_of_singleton in Hy as ->. exact Hx.
Qed.

(** ** Running the translator *)

Section Closed.
Context {M : Type} {PM : PipelineModel M} (env : Env).
Notation Comp := (@Comp M).
Notation Compiler := (Compiler M).

(** The translation does not panic and ends in [Q]. *)
Definition steps {A} (x : Comp A) (c : Compiler) (Q : A -> Compiler -> Prop) : Prop :=
  match x c with Some (a, c') => Q a c' | None => False end.

Definition good (L : list nat) (c : Compiler) : Prop := fine (length (code c)) L (code c) (slow_path c).
(** No label is the end of the code. *)
Definition tight (L : list nat) (c : Compiler) : Prop :=
  exists n, (n < length (code c))%nat /\ fine n L (code c) (slow_path c).

Lemma tight_good L c : tight L c -> good L c.
Proof. intros (n & Hn & H). eapply fine_mono; [exact H|lia]. Qed.

(** What emitting leaves alone. *)
Record extends (c c' : Compiler) : Prop := {
  x_len : (length (code c) <= length (code c'))%nat;
  x_slow : slow_path c' = slow_path c;
  x_cycles : cycles c' = cycles c;
}.

Lemma extends_refl c : extends c c.
Proof. split; reflexivity. Qed.
Lemma extends_trans a b c : extends a b -> extends b c -> extends a c.
Proof. intros [] []. split; [lia|congruence|congruence]. Qed.

Lemma s_bind {A B} (x : Comp A) (f : A -> Comp B) c Q : steps x c (fun a c' => steps (f a) c' Q) -> steps (bind x f) c Q.
Proof. unfold steps, bind. destruct (x c) as [[a c']|]; auto. Qed.

Lemma s_mono {A} (x : Comp A) c (Q Q' : A -> Compiler -> Prop) : steps x c Q -> (forall a c', Q a c' -> Q' a c') -> steps x c Q'.
Proof. unfold steps. destruct (x c) as [[a c']|]; auto. Qed.

Lemma s_emit op L c (Q : unit -> Compiler -> Prop) : good L c ->
  (forall c', tight L c' -> extends c c' -> Q tt c') -> steps (emit op) c Q.
Proof.
  intros H K. unfold emit, append, modify, steps. apply K.
  - exists (length (code c)). cbn [code slow_path set_code]. split; [rewrite length_app; cbn; lia|].
    apply fine_app; [exact H|]. intros x Hx. apply list_elem_of_singleton in Hx as ->. left. reflexivity.
  - split; cbn [code slow_path cycles set_code]; [rewrite length_app; lia|reflexivity|reflexivity].
Qed.

Lemma s_emits l L c (Q : unit -> Compiler -> Prop) : good L c ->
  (forall c', good L c' -> extends c c' -> Q tt c') -> steps (emits (Some l)) c Q.
Proof.
  intros H K. unfold emits, modify, steps. apply K.
  - unfold good. cbn [code slow_path set_code]. eapply fine_mono; [apply fine_app; [exact H|]|rewrite length_app; lia].
    intros x Hx. apply list_elem_of_In, in_map_iff in Hx as (op & <- & _). left. reflexivity.
  - split; cbn [code slow_path cycles set_code]; [rewrite length_app; lia|reflexivity|reflexivity].
Qed.

Lemma s_jump i L c (Q : nat -> Compiler -> Prop) : good L c -> target_of i = Some Unpatched ->
  (forall p c', good (p :: L) c' -> extends c c' -> p = length (code c) -> (p < length (code c'))%nat -> Q p c') -> steps (emit_jump i) c Q.
Proof.
  intros H Hi K. unfold emit_jump, bind, get, append, modify, ret, steps. apply K.
  - unfold good. cbn [code slow_path set_code]. eapply fine_mono; [apply fine_jump; [exact H|exact Hi]|rewrite length_app; lia].
  - split; cbn [code slow_path cycles set_code]; [rewrite length_app; lia|reflexivity|reflexivity].
  - reflexivity.
  - cbn [code set_code]. rewrite length_app. cbn. lia.
Qed.

Lemma s_jump_tight i L c (Q : nat -> Compiler -> Prop) : tight L c -> target_of i = Some Unpatched ->
  (forall p c', tight (p :: L) c' -> (length (code c) <= length (code c'))%nat -> Q p c') -> steps (emit_jump i) c Q.
Proof.
  intros (n & Hn & H) Hi K. unfold emit_jump, bind, get, append, modify, ret, steps. apply K.
  - exists n. cbn [code slow_path set_code]. rewrite length_app. split; [lia|]. apply fine_jump; [exact H|exact Hi].
  - cbn [code set_code]. rewrite length_app. lia.
Qed.

Lemma s_patch p l L c (Q : unit -> Compiler -> Prop) : good (p :: L) c -> (l <= length (code c))%nat ->
  (forall c', good L c' -> extends c c' -> length (code c') = length (code c) -> Q tt c') -> steps (patch p l) c Q.
Proof.
  intros H Hl K. unfold patch, modify, steps. apply K.
  - unfold good. cbn [code slow_path set_code]. rewrite length_alter. eapply fine_patch; [exact H|lia|congruence|discriminate].
  - split; cbn [code slow_path cycles set_code]; [rewrite length_alter; lia|reflexivity|reflexivity].
  - cbn [code set_code]. apply length_alter.
Qed.

Lemma s_patch_tight p l L c (Q : unit -> Compiler -> Prop) : tight (p :: L) c -> (l < length (code c))%nat ->
  (forall c', tight L c' -> extends c c' -> Q tt c') -> steps (patch p l) c Q.
Proof.
  intros (n & Hn & H) Hl K. unfold patch, modify, steps. apply K.
  - exists (Nat.max n l). cbn [code slow_path set_code]. rewrite length_alter. split; [lia|].
    eapply fine_patch; [exact H|lia|intros l' E; injection E; lia|discriminate].
  - split; cbn [code slow_path cycles set_code]; [rewrite length_alter; lia|reflexivity|reflexivity].
Qed.

(** A jump or call to a helper. *)
Lemma s_to_helper i h L c (Q : unit -> Compiler -> Prop) : good L c -> target_of i = Some Unpatched ->
  (forall c', tight L c' -> extends c c' -> Q tt c') -> steps (bind (emit_jump i) (fun p => patch_absolute p h)) c Q.
Proof.
  intros H Hi K. apply s_bind. unfold emit_jump, bind, get, append, modify, ret, steps, patch_absolute. cbn [code set_code slow_path]. apply K.
  - exists (length (code c)). cbn [code slow_path set_code]. rewrite length_alter, length_app. split; [cbn; lia|].
    eapply fine_patch; [apply fine_jump; [exact H|exact Hi]|rewrite length_app; lia|discriminate|discriminate].
  - split; cbn [code slow_path cycles set_code]; [rewrite length_alter, length_app; lia|reflexivity|reflexivity].
Qed.

(** ** Pieces of the translator *)

(** A piece that keeps the code good, whatever placeholders are in hand. *)
Definition keeps {A} (x : Comp A) : Prop := forall L c, good L c ->
  steps x c (fun _ c' => good L c' /\ (length (code c) <= length (code c'))%nat).

(** A piece that also emits something last. *)
Definition seals {A} (x : Comp A) : Prop := forall L c, good L c ->
  steps x c (fun _ c' => tight L c' /\ (length (code c) <= length (code c'))%nat).

Lemma seals_keeps {A} (x : Comp A) : seals x -> keeps x.
Proof. intros H L c Hc. eapply s_mono; [apply H, Hc|]. intros a c' [Ht Hl]. split; [apply tight_good, Ht|exact Hl]. Qed.

Lemma s_keeps {A} (x : Comp A) L c (Q : A -> Compiler -> Prop) : keeps x -> good L c ->
  (forall a c', good L c' -> (length (code c) <= length (code c'))%nat -> Q a c') -> steps x c Q.
Proof. intros Hx Hc K. eapply s_mono; [apply Hx, Hc|]. intros a c' [H1 H2]. apply K; assumption. Qed.

Lemma k_bind {A B} (x : Comp A) (f : A -> Comp B) : keeps x -> (forall a, keeps (f a)) -> keeps (bind x f).
Proof.
  intros Hx Hf L c Hc. apply s_bind. eapply s_mono; [apply Hx, Hc|]. intros a c1 [H1 L1].
  eapply s_mono; [apply Hf, H1|]. intros b c2 [H2 L2]. split; [exact H2|lia].
Qed.

Lemma k_seal {A B} (x : Comp A) (f : A -> Comp B) : keeps x -> (forall a, seals (f a)) -> seals (bind x f).
Proof.
  intros Hx Hf L c Hc. apply s_bind. eapply s_mono; [apply Hx, Hc|]. intros a c1 [H1 L1].
  eapply s_mono; [apply Hf, H1|]. intros b c2 [H2 L2]. split; [exact H2|lia].
Qed.

Lemma k_ret {A} (a : A) : keeps (ret a).
Proof. intros L c Hc. split; [exact Hc|lia]. Qed.

Lemma k_get {A} (f : Compiler -> A) : keeps (get f).
Proof. intros L c Hc. split; [exact Hc|lia]. Qed.

Lemma k_modify f : (forall c, code (f c) = code c /\ slow_path (f c) = slow_path c) -> keeps (modify f).
Proof. intros Hf L c Hc. unfold steps, modify, good. destruct (Hf c) as [-> ->]. split; [exact Hc|lia]. Qed.

Lemma k_emit op : seals (emit op).
Proof. intros L c Hc. eapply s_emit; [exact Hc|]. intros c' H [Hl _ _]. auto. Qed.

Lemma k_emits x : x <> None -> keeps (emits x).
Proof. intros Hx L c Hc. destruct x as [l|]; [|contradiction]. eapply s_emits; [exact Hc|]. intros c' H [Hl _ _]. auto. Qed.

Lemma k_call h : seals (emit_helper_call h).
Proof. intros L c Hc. eapply s_to_helper; [exact Hc|reflexivity|]. intros c' H [Hl _ _]. auto. Qed.
Lemma k_jmp h : seals (emit_helper_jmp h).
Proof. intros L c Hc. eapply s_to_helper; [exact Hc|reflexivity|]. intros c' H [Hl _ _]. auto. Qed.
Lemma k_jcc cc h : seals (emit_helper_jcc cc h).
Proof. intros L c Hc. eapply s_to_helper; [exact Hc|reflexivity|]. intros c' H [Hl _ _]. auto. Qed.

Lemma k_when b x : keeps x -> keeps (when b x).
Proof. intros H. destruct b; [exact H|apply k_ret]. Qed.

Lemma k_if {A} (b : bool) (x y : Comp A) : keeps x -> keeps y -> keeps (if b then x else y).
Proof. destruct b; auto. Qed.

Lemma k_with_model f : keeps (with_model f).
Proof. intros L c Hc. unfold with_model, bind, get. cbn. unfold steps. destruct (f (model c)) as [m k]. cbn. split; [exact Hc|lia]. Qed.

Ltac keep := repeat match goal with
  | |- keeps (ret _) => apply k_ret
  | |- keeps (get _) => apply k_get
  | |- keeps (with_model _) => apply k_with_model
  | |- keeps (emit _) => apply seals_keeps, k_emit
  | |- keeps (emit_helper_call _) => apply seals_keeps, k_call
  | |- keeps (emit_helper_jmp _) => apply seals_keeps, k_jmp
  | |- keeps (emit_helper_jcc _ _) => apply seals_keeps, k_jcc
  | |- keeps (modify _) => apply k_modify; intros ?; split; reflexivity
  | |- keeps (when _ _) => apply k_when
  | |- keeps (bind _ _) => apply k_bind; [|intros ?]
  | |- keeps (if _ then _ else _) => apply k_if
  | H : keeps ?x |- keeps ?x => exact H
  end.

Lemma k_before_side_effect : keeps (before_side_effect env).
Proof. unfold before_side_effect. keep. Qed.

(** Afterwards no cycles are owed. *)
Lemma s_before_side_effect L c (Q : unit -> Compiler -> Prop) : good L c ->
  (forall c', good L c' -> (length (code c) <= length (code c'))%nat -> cycles c' = 0 -> Q tt c') -> steps (before_side_effect env) c Q.
Proof.
  intros Hc K. pose proof (k_before_side_effect L c Hc) as H. unfold steps in *.
  assert (Hz : match before_side_effect env c with Some (_, c') => cycles c' = 0 | None => True end).
  { unfold before_side_effect, bind, get. destruct (Z.eqb_spec (cycles c) 0) as [E|N]; [exact E|].
    destruct (threaded env); [reflexivity|]. destruct (cycles c =? 1); reflexivity. }
  destruct (before_side_effect env c) as [[[] c']|]; [|exact H]. apply K; tauto.
Qed.

Lemma k_interrupt_check : keeps (emit_interrupt_check env).
Proof. unfold emit_interrupt_check. keep. apply k_before_side_effect. Qed.

(** The check for interrupts and the way to another block. *)
Lemma s_interrupt_check L c (Q : unit -> Compiler -> Prop) : good L c ->
  (forall c', tight L c' -> (length (code c) <= length (code c'))%nat -> cycles c' = 0 -> Q tt c') -> steps (emit_interrupt_check env) c Q.
Proof.
  intros Hc K. unfold emit_interrupt_check. apply s_bind. eapply s_before_side_effect; [exact Hc|]. intros c1 H1 L1 Z1.
  apply s_bind. eapply s_emit; [exact H1|]. intros c2 H2 [L2 _ Z2].
  eapply s_to_helper; [apply tight_good, H2|reflexivity|]. intros c3 H3 [L3 _ Z3]. apply K; [exact H3|lia|congruence].
Qed.

Lemma s_chain_tail L c (Q : unit -> Compiler -> Prop) : good L c -> cycles c = 0 ->
  (forall c', tight L c' -> extends c c' -> Q tt c') -> steps emit_chain_tail c Q.
Proof.
  intros Hc Hz K. unfold emit_chain_tail. apply s_bind. unfold steps at 1, get. apply s_bind. rewrite Hz. unfold steps at 1, assert, ret. cbn [Z.eqb].
  apply s_bind. eapply s_emit; [exact Hc|]. intros c1 H1 E1. eapply s_to_helper; [apply tight_good, H1|reflexivity|].
  intros c2 H2 E2. apply K; [exact H2|]. eapply extends_trans; eassumption.
Qed.

Lemma k_leave_tail : seals (bind (emit_interrupt_check env) (fun _ => emit_chain_tail)).
Proof.
  intros L c Hc. apply s_bind. eapply s_interrupt_check; [exact Hc|]. intros c1 H1 L1 Z1.
  eapply s_chain_tail; [apply tight_good, H1|exact Z1|]. intros c2 H2 [L2 _ _]. split; [exact H2|lia].
Qed.

(** ** Slow paths *)

Lemma s_push s L c (Q : unit -> Compiler -> Prop) : good (places s ++ L) c -> (fin_label s <= length (code c))%nat ->
  (forall c', good L c' -> length (code c') = length (code c) -> cycles c' = cycles c -> Q tt c') -> steps (push_slow s) c Q.
Proof. intros H Hl K. unfold push_slow, modify, steps. apply K; [|reflexivity|reflexivity]. apply fine_push; [exact H|exact Hl]. Qed.

(** A jump to the slow path that traps. *)
Lemma k_trap_jump cc : keeps (bind (emit_jcc_long cc) (fun p => bind get_ebx (fun ebx => push_slow (Trap ebx p)))).
Proof.
  intros L c Hc. apply s_bind. eapply s_jump; [exact Hc|reflexivity|]. intros p c1 H1 [L1 _ _] _ _. apply s_bind.
  unfold steps at 1, get_ebx, get. eapply s_push; [exact H1|cbn; lia|]. intros c2 H2 L2 _. split; [exact H2|lia].
Qed.

(** ** Straight code is emitted *)

Lemma seq_some a b : a <> None -> b <> None -> Dbt.seq a b <> None.
Proof. destruct a, b; cbn; congruence. Qed.

Lemma load_reg_some r rs : r ∈ [RAX; EAX; RDX; EDX; RSI; ECX; RCX] -> Dbt.load_reg r rs <> None.
Proof.
  intros Hr. unfold Dbt.load_reg. repeat (apply elem_of_cons in Hr as [->|Hr]; [destruct (rs =? 0); discriminate|]).
  apply not_elem_of_nil in Hr as [].
Qed.

Lemma store_reg_some r rd : r ∈ [RAX; EAX; RDX; RCX] -> Dbt.store_reg rd r <> None.
Proof.
  intros Hr. unfold Dbt.store_reg. repeat (apply elem_of_cons in Hr as [->|Hr]; [destruct (rd =? 0); discriminate|]).
  apply not_elem_of_nil in Hr as [].
Qed.

Lemma emit_move_some rd rs : Dbt.emit_move rd rs <> None.
Proof. unfold Dbt.emit_move, Dbt.emit_load_imm. repeat case_match; discriminate. Qed.
Lemma emit_move32_some rd rs : Dbt.emit_move32 rd rs <> None.
Proof. unfold Dbt.emit_move32, Dbt.emit_load_imm. repeat case_match; discriminate. Qed.
Lemma emit_load_imm_some rd imm : Dbt.emit_load_imm rd imm <> None.
Proof. unfold Dbt.emit_load_imm. case_match; discriminate. Qed.

Ltac in_list := repeat (first [apply list_elem_of_here | apply list_elem_of_further]).

Lemma straight_some p op l : Dbt.emit_op p op = Some l -> l <> None.
Proof.
  intros E. destruct op; try discriminate E; injection E as <-;
    unfold Dbt.emit_addi, Dbt.emit_slli, Dbt.emit_slti, Dbt.emit_sltiu, Dbt.emit_xori, Dbt.emit_srli, Dbt.emit_srai, Dbt.emit_ori, Dbt.emit_andi, Dbt.emit_addiw, Dbt.emit_slliw, Dbt.emit_srliw, Dbt.emit_sraiw, Dbt.emit_add, Dbt.emit_sub, Dbt.emit_sll, Dbt.emit_slt, Dbt.emit_sltu,
      Dbt.emit_xor, Dbt.emit_srl, Dbt.emit_sra, Dbt.emit_or, Dbt.emit_and, Dbt.emit_addw, Dbt.emit_subw, Dbt.emit_sllw, Dbt.emit_srlw, Dbt.emit_sraw, Dbt.emit_mul, Dbt.emit_mulhsu, Dbt.emit_mulw, Dbt.emit_mulh, Dbt.emit_div, Dbt.emit_divw, Dbt.emit_auipc;
    repeat case_match;
    repeat first [ apply seq_some | apply emit_move_some | apply emit_move32_some | apply emit_load_imm_some
      | apply load_reg_some; in_list; fail | apply store_reg_some; in_list; fail | discriminate ].
Qed.

Lemma k_straight p op l : Dbt.emit_op p op = Some l -> keeps (emits l).
Proof. intros E. apply k_emits, (straight_some p op), E. Qed.

Lemma k_load_reg r rs : r ∈ [RAX; EAX; RDX; EDX; RSI; ECX; RCX] -> keeps (emits (Dbt.load_reg r rs)).
Proof. intros H. apply k_emits, load_reg_some, H. Qed.
Lemma k_store_reg r rd : r ∈ [RAX; EAX; RDX; RCX] -> keeps (emits (Dbt.store_reg rd r)).
Proof. intros H. apply k_emits, store_reg_some, H. Qed.

(** ** Caches *)

Lemma s_icache_access off rsi L c (Q : unit -> Compiler -> Prop) : good L c ->
  (forall c', good L c' -> (length (code c) <= length (code c'))%nat -> cycles c' = 0 -> Q tt c') ->
  steps (emit_icache_access env off rsi) c Q.
Proof.
  intros Hc K. unfold emit_icache_access. apply s_bind. eapply s_before_side_effect; [exact Hc|]. intros c1 H1 L1 Z1.
  apply s_bind. eapply s_emit; [exact H1|]. intros c2 H2 E2. apply tight_good in H2. apply s_bind.
  assert (Hw : forall b op L c (Q : unit -> Compiler -> Prop), good L c -> (forall c', good L c' -> extends c c' -> Q tt c') -> steps (when b (emit op)) c Q).
  { intros b op L' c' Q' H K'. destruct b; [|apply K'; [exact H|apply extends_refl]].
    eapply s_emit; [exact H|]. intros c'' H' E'. apply K'; [apply tight_good, H'|exact E']. }
  apply Hw with (1 := H2). intros c3 H3 E3. pose proof (extends_trans _ _ _ E2 E3) as E13. clear Hc H1 H2 E2 E3.
  assert (Hz : cycles c3 = 0) by (rewrite (x_cycles _ _ E13); exact Z1). pose proof (x_len _ _ E13) as L3.
  destruct (direct env); [apply K; [exact H3|lia|exact Hz]|].
  do 6 (apply s_bind; eapply s_emit; [eassumption|]; clear H3; intros ? H3 ?E; apply tight_good in H3).
  apply s_bind. eapply s_jump; [exact H3|reflexivity|]. intros p c4 H4 F4 _ Hp.
  apply s_bind. apply Hw with (1 := H4). intros c5 H5 F5.
  apply s_bind. unfold steps at 1, label, get. apply s_bind. unfold steps at 1, get_ebx, get.
  eapply s_push; [exact H5|cbn; lia|]. intros c6 H6 L6 Z6.
  repeat match goal with H : extends _ _ |- _ => destruct H end. apply K; [exact H6|lia|congruence].
Qed.

Lemma k_icache_access off rsi : keeps (emit_icache_access env off rsi).
Proof. intros L c Hc. eapply s_icache_access; [exact Hc|]. auto. Qed.

Lemma k_dcache_access size write : keeps (dcache_access env size write).
Proof.
  intros L c Hc. unfold dcache_access. destruct (direct env); [split; [exact Hc|lia]|]. apply s_bind.
  set (L1 := fun m => match m with Some p => p :: L | None => L end : list nat).
  assert (Hm : steps (if size_eqb size Byte then ret None
    else bind (emit (Test (Reg ESI) (Imm (size_bytes size - 1)))) (fun _ => bind (emit_jcc_long NotEqual) (fun p => ret (Some p)))) c
    (fun m c' => good (L1 m) c' /\ (length (code c) <= length (code c'))%nat)).
  { destruct (size_eqb size Byte); [split; [exact Hc|lia]|]. apply s_bind. eapply s_emit; [exact Hc|]. intros c1 H1 [K1 _ _].
    apply s_bind. eapply s_jump; [apply tight_good, H1|reflexivity|]. intros p c2 H2 [K2 _ _] _ _. split; [exact H2|lia]. }
  eapply s_mono; [exact Hm|]. clear Hm. intros m c1 [H1 K1].
  do 5 (apply s_bind; eapply s_emit; [eassumption|]; clear H1; intros ? H1 ?E; apply tight_good in H1).
  apply s_bind.
  eapply s_keeps; [|exact H1|]; [keep|]. intros _ c2 H2 K2.
  apply s_bind. eapply s_jump; [exact H2|reflexivity|]. intros j c3 H3 F3 _ _.
  apply s_bind. eapply s_emit; [exact H3|]. intros c4 H4 F4. apply tight_good in H4.
  apply s_bind. unfold steps at 1, label, get. apply s_bind. unfold steps at 1, get_ebx, get.
  eapply s_push; [|cbn; lia|].
  - instantiate (1 := L). cbn [places]. unfold L1 in H4. destruct m as [p|]; [|exact H4].
    destruct H4 as [? G2 ? ?]. split; auto. intros i x Hi Ht. specialize (G2 i x Hi Ht). cbn [app] in *. rewrite !elem_of_cons in *. tauto.
  - intros c5 H5 L5 _. repeat match goal with H : extends _ _ |- _ => destruct H end. split; [exact H5|lia].
Qed.

Lemma k_step_call op : keeps (emit_step_call env op).
Proof. unfold emit_step_call. apply k_bind; [apply k_before_side_effect|intros _]. do 4 (apply k_bind; [keep|intros _]). apply k_trap_jump. Qed.

Lemma k_trap_check : keeps emit_trap_check.
Proof. unfold emit_trap_check. apply k_bind; [keep|intros _]. apply k_trap_jump. Qed.

Ltac keep3 := repeat match goal with
  | |- keeps (dcache_access _ _ _) => apply k_dcache_access
  | |- keeps (emit_icache_access _ _ _) => apply k_icache_access
  | |- keeps (emit_step_call _ _) => apply k_step_call
  | |- keeps emit_trap_check => apply k_trap_check
  | |- keeps (before_side_effect _) => apply k_before_side_effect
  | |- keeps (emits (Dbt.load_reg _ _)) => apply k_load_reg; in_list; fail
  | |- keeps (emits (Dbt.store_reg _ _)) => apply k_store_reg; in_list; fail
  | _ => progress keep
  end.

Lemma k_load rs1 imm size : keeps (emit_load env rs1 imm size).
Proof. unfold emit_load, count_memory, emit_address. keep3. Qed.

Lemma k_load_to rd rs1 imm size op : keeps (emit_load_to env rd rs1 imm size op).
Proof. unfold emit_load_to. apply k_bind; [apply k_load|intros _]. keep3. Qed.

Lemma k_store rs1 rs2 imm size : keeps (emit_store env rs1 rs2 imm size).
Proof.
  unfold emit_store, count_memory, emit_address. do 4 (apply k_bind; [keep3|intros _]). apply k_bind; [|intros ?; keep3].
  unfold resized. destruct size; apply k_ret.
Qed.

Lemma k_amo_w rd rs1 rs2 action : keeps action -> keeps (amo_op_w env rd rs1 rs2 action).
Proof. intros H. unfold amo_op_w, count_memory. keep3. Qed.
Lemma k_amo_d rd rs1 rs2 action : keeps action -> keeps (amo_op_d env rd rs1 rs2 action).
Proof. intros H. unfold amo_op_d, count_memory. keep3. Qed.

(** A compare-and-exchange that jumps back until it succeeds. *)
Lemma k_cas mv cas (action y : Comp unit) : keeps action -> keeps y ->
  keeps (bind label (fun l => bind (emit mv) (fun _ => bind action (fun _ => bind (emit Lock) (fun _ => bind (emit cas) (fun _ =>
    bind (emit_jcc_short NotEqual) (fun p => bind (patch p l) (fun _ => y)))))))).
Proof.
  intros Hx Hy L c Hc. apply s_bind. unfold steps at 1, label, get. apply s_bind. eapply s_emit; [exact Hc|]. intros c1 H1 [L1 _ _].
  apply s_bind. eapply s_keeps; [exact Hx|apply tight_good, H1|]. intros _ c2 H2 L2.
  apply s_bind. eapply s_emit; [exact H2|]. intros c3 H3 [L3 _ _]. apply s_bind. eapply s_emit; [apply tight_good, H3|]. intros c4 H4 [L4 _ _].
  apply s_bind. eapply s_jump; [apply tight_good, H4|reflexivity|]. intros p c5 H5 [L5 _ _] _ _. apply s_bind.
  eapply s_patch; [exact H5|lia|]. intros c6 H6 _ L6. eapply s_keeps; [exact Hy|exact H6|]. intros _ c7 H7 L7. split; [exact H7|lia].
Qed.

Lemma k_cmpxchg_w rd rs1 rs2 action : keeps action -> keeps (cmpxchg_w env rd rs1 rs2 action).
Proof. intros H. unfold cmpxchg_w, count_memory. do 6 (apply k_bind; [keep3|intros _]). apply k_cas; [exact H|keep3]. Qed.
Lemma k_cmpxchg_d rd rs1 rs2 action : keeps action -> keeps (cmpxchg_d env rd rs1 rs2 action).
Proof. intros H. unfold cmpxchg_d, count_memory. do 6 (apply k_bind; [keep3|intros _]). apply k_cas; [exact H|keep3]. Qed.

Lemma k_amo_noresult w rs1 rs2 op : keeps (amo_noresult env w rs1 rs2 op).
Proof. unfold amo_noresult, locked. apply k_if; [apply k_amo_w|apply k_amo_d]; keep3. Qed.
Lemma k_amo_logic w rd rs1 rs2 op : keeps (amo_logic env w rd rs1 rs2 op).
Proof. unfold amo_logic. apply k_if; [apply k_amo_noresult|]. apply k_if; [apply k_cmpxchg_w|apply k_cmpxchg_d]; keep3. Qed.
Lemma k_amo_choose w rd rs1 rs2 cc : keeps (amo_choose env w rd rs1 rs2 cc).
Proof. unfold amo_choose. apply k_if; [apply k_cmpxchg_w|apply k_cmpxchg_d]; keep3. Qed.
Lemma k_amo_add w rd rs1 rs2 : keeps (amo_add env w rd rs1 rs2).
Proof. unfold amo_add, locked. apply k_if; [apply k_amo_noresult|]. apply k_if; [apply k_amo_w|apply k_amo_d]; keep3. Qed.

Lemma k_lr w rd rs1 : keeps (emit_lr env w rd rs1).
Proof. unfold emit_lr, count_memory. keep3. Qed.

Lemma jump_spec i : target_of i = Some Unpatched -> forall L c (Q : nat -> Compiler -> Prop), good L c ->
  (forall p c', good (p :: L) c' -> (length (code c) <= length (code c'))%nat -> Q p c') -> steps (emit_jump i) c Q.
Proof. intros Hi L c Q Hc K. eapply s_jump; [exact Hc|exact Hi|]. intros p c' H [Hl _ _] _ _. apply K; assumption. Qed.

Lemma k_sc w rd rs1 rs2 : keeps (emit_sc env w rd rs1 rs2).
Proof.
  unfold emit_sc. do 3 (apply k_bind; [keep3|intros _]). intros L c Hc.
  apply s_bind. eapply jump_spec; [reflexivity|exact Hc|]. intros p c1 H1 L1.
  apply s_bind. eapply s_keeps; [apply k_dcache_access|exact H1|]. intros _ c2 H2 L2.
  apply s_bind. eapply s_keeps; [|exact H2|]; [keep3|]. intros _ c3 H3 L3.
  apply s_bind. unfold steps at 1, label, get. apply s_bind. eapply s_patch; [exact H3|lia|]. intros c4 H4 _ L4.
  eapply s_keeps; [|exact H4|]; [keep3|]. intros _ c5 H5 L5. split; [exact H5|lia].
Qed.

(** ** Jumps *)

(** A branch has a cost when it is taken. *)
Class PipelineLaws : Prop := {
  taken_some op compressed (m : M) : branch_imm op <> None -> after_taken_branch op compressed m <> None }.
Context {PL : PipelineLaws}.

Lemma k_pre_adjust_instret : keeps pre_adjust_instret.
Proof. unfold pre_adjust_instret. keep. Qed.
Lemma k_pre_adjust comp : keeps (pre_adjust_pc_instret comp).
Proof. unfold pre_adjust_pc_instret. apply k_bind; [keep|intros ?]. apply k_bind; [keep|intros _]. apply k_pre_adjust_instret. Qed.
Lemma k_post_adjust : keeps post_adjust_pc_instret.
Proof. unfold post_adjust_pc_instret. keep. Qed.

Lemma k_compare rs1 rs2 cc : keeps (emit_compare rs1 rs2 cc).
Proof. unfold emit_compare. keep. Qed.

Lemma cc_not_some cc : exists cc', cc_not cc = Some cc'.
Proof. destruct cc; eexists; reflexivity. Qed.

Lemma k_negated cc : keeps (negated cc).
Proof. unfold negated. destruct (cc_not_some cc) as [cc' ->]. apply k_ret. Qed.

Lemma s_taken op compressed L c (Q : unit -> Compiler -> Prop) : good L c -> branch_imm op <> None ->
  (forall c', good L c' -> length (code c') = length (code c) -> Q tt c') -> steps (with_model_opt (after_taken_branch op compressed)) c Q.
Proof.
  intros Hc Hb K. unfold with_model_opt, bind, get, steps. pose proof (taken_some op compressed (model c) Hb) as H.
  destruct (after_taken_branch op compressed (model c)) as [[m k]|]; [|contradiction]. cbn. apply K; [exact Hc|reflexivity].
Qed.

Lemma s_modify f L c (Q : unit -> Compiler -> Prop) : good L c -> code (f c) = code c -> slow_path (f c) = slow_path c ->
  (good L (f c) -> Q tt (f c)) -> steps (modify f) c Q.
Proof. intros Hc E1 E2 K. unfold steps, modify. apply K. unfold good. rewrite E1, E2. exact Hc. Qed.

(** The last part of a taken branch. *)
Lemma s_branch_exit ps pe target L c (Q : unit -> Compiler -> Prop) : good L c -> cycles c = 0 -> pc_cur c = 0 -> instret c = 0 ->
  (forall c', good L c' -> (length (code c) <= length (code c'))%nat -> Q tt c') ->
  steps (if same_page ps target
    then bind (when (negb (same_cache_line env (u64 (u64 (ps + u64 pe) - 1)) target))
        (bind get_ebx (fun ebx => bind (assert (ebx =? 0)) (fun _ => emit_icache_access env 0 false))))
      (fun _ => emit_helper_call helper_patch_direct_jump)
    else emit_chain_tail) c Q.
Proof.
  intros Hc Hz Hp Hi K. destruct (same_page ps target).
  - apply s_bind. destruct (negb _).
    + cbn [when]. apply s_bind. unfold steps at 1, get_ebx, get. rewrite Hp, Hi. apply s_bind.
      unfold steps at 1, assert, ret. change (pack_ebx 0 0 =? 0) with true. cbv beta iota.
      eapply s_icache_access; [exact Hc|]. intros c1 H1 L1 _. eapply s_to_helper; [exact H1|reflexivity|]. intros c2 H2 [L2 _ _].
      apply K; [apply tight_good, H2|lia].
    + unfold steps at 1, when, ret. eapply s_to_helper; [exact Hc|reflexivity|]. intros c2 H2 [L2 _ _]. apply K; [apply tight_good, H2|lia].
  - eapply s_chain_tail; [exact Hc|exact Hz|]. intros c1 H1 [L1 _ _]. apply K; [apply tight_good, H1|lia].
Qed.

Lemma k_branch rs1 rs2 imm cc op compressed : branch_imm op <> None -> keeps (emit_branch env rs1 rs2 imm cc op compressed).
Proof.
  intros Hb. unfold emit_branch. apply k_bind; [apply k_compare|intros cc']. apply k_bind; [apply k_negated|intros ncc]. intros L c Hc.
  apply s_bind. eapply jump_spec; [reflexivity|exact Hc|]. intros p c1 H1 L1. apply s_bind. unfold steps at 1, get.
  apply s_bind. eapply s_emit; [exact H1|]. intros c2 H2 [L2 _ _]. apply s_bind.
  eapply s_keeps; [apply k_pre_adjust_instret|apply tight_good, H2|]. intros _ c3 H3 L3.
  apply s_bind. unfold steps at 1, get. apply s_bind. eapply s_taken; [exact H3|exact Hb|]. intros c4 H4 L4.
  apply s_bind. eapply s_interrupt_check; [exact H4|]. intros c5 H5 L5 Z5. apply tight_good in H5.
  apply s_bind. unfold steps at 1, get. apply s_bind. unfold steps at 1, get.
  apply s_bind. eapply s_modify; [exact H5|reflexivity|reflexivity|]. intros H6.
  apply s_bind. unfold steps at 1, get. apply s_bind. eapply s_modify; [exact H6|reflexivity|reflexivity|]. intros H7.
  apply s_bind. eapply s_branch_exit; [exact H7|exact Z5|reflexivity|reflexivity|]. intros c8 H8 L8. cbn [code set_instret set_pc_cur] in L8.
  do 3 (apply s_bind; eapply s_modify; [eassumption|reflexivity|reflexivity|]; intros ?H).
  apply s_bind. unfold steps at 1, label, get. eapply s_patch; [eassumption|reflexivity|]. intros c9 G9 _ L9.
  cbn [code set_cycles set_instret set_pc_cur] in L9. split; [exact G9|lia].
Qed.

Lemma k_jalr rd rs1 imm op compressed : seals (emit_jalr env rd rs1 imm op compressed).
Proof.
  unfold emit_jalr. apply k_seal; [apply k_pre_adjust_instret|intros _]. do 5 (apply k_seal; [keep3|intros ?]).
  do 2 (apply k_seal; [keep3|intros _]). apply k_leave_tail.
Qed.

Lemma k_jal rd imm op compressed : seals (emit_jal env rd imm op compressed).
Proof.
  unfold emit_jal. apply k_seal; [apply k_pre_adjust_instret|intros _]. apply k_seal; [keep3|intros p]. apply k_seal; [keep3|intros _].
  apply k_seal; [keep3|intros _]. intros L c Hc. apply s_bind. eapply s_interrupt_check; [exact Hc|]. intros c1 H1 L1 Z1. apply tight_good in H1.
  apply s_bind. unfold steps at 1, get. apply s_bind. unfold steps at 1, get. destruct (same_cache_line env _ _).
  - eapply s_to_helper; [exact H1|reflexivity|]. intros c2 H2 [L2 _ _]. split; [exact H2|lia].
  - eapply s_chain_tail; [exact H1|exact Z1|]. intros c2 H2 [L2 _ _]. split; [exact H2|lia].
Qed.

Lemma k_leave op comp : seals (emit_leave env op comp).
Proof.
  unfold emit_leave. apply k_seal; [apply k_pre_adjust|intros _]. do 8 (apply k_seal; [keep3|intros ?]). apply k_leave_tail.
Qed.

(** ** Operations *)

Lemma k_csr op comp csr other : keeps other -> keeps (emit_csr env op comp csr other).
Proof. intros H. unfold emit_csr. apply k_if; [apply seals_keeps, k_leave|exact H]. Qed.

Lemma k_csr_write x csr : keeps x -> keeps (emit_csr_write env x csr).
Proof. intros H. unfold emit_csr_write, emit_write_csr. keep3. Qed.
Lemma k_csr_read rd csr : keeps (emit_csr_read env rd csr).
Proof. unfold emit_csr_read, emit_read_csr. keep3. Qed.

Lemma k_emit_op op comp : keeps (emit_op env op comp).
Proof.
  unfold emit_op. apply k_bind; [apply k_get|intros p]. destruct (Dbt.emit_op p op) as [l|] eqn:E; [eapply k_straight, E|].
  destruct op; try (cbn in E; discriminate E);
    match goal with
    | |- keeps (emit_step_call _ _) => apply k_step_call
    | |- keeps (emit_load_to _ _ _ _ _ _) => apply k_load_to
    | |- keeps (emit_store _ _ _ _ _) => apply k_store
    | |- keeps (emit_branch _ _ _ _ _ _ _) => apply k_branch; discriminate
    | |- keeps (emit_jalr _ _ _ _ _ _) => apply seals_keeps, k_jalr
    | |- keeps (emit_jal _ _ _ _ _) => apply seals_keeps, k_jal
    | |- keeps (emit_leave _ _ _) => apply seals_keeps, k_leave
    | |- keeps (emit_lr _ _ _ _) => apply k_lr
    | |- keeps (emit_sc _ _ _ _ _) => apply k_sc
    | |- keeps (amo_op_w _ _ _ _ _) => apply k_amo_w, seals_keeps, k_emit
    | |- keeps (amo_op_d _ _ _ _ _) => apply k_amo_d, seals_keeps, k_emit
    | |- keeps (amo_add _ _ _ _ _) => apply k_amo_add
    | |- keeps (amo_logic _ _ _ _ _ _) => apply k_amo_logic
    | |- keeps (amo_choose _ _ _ _ _ _) => apply k_amo_choose
    | |- keeps (when _ _) => apply k_when, k_step_call
    | |- keeps (emit_csr _ _ _ _ (if _ then emit_csr_write _ _ _ else _)) =>
        apply k_csr, k_if; [apply k_csr_write; keep3|apply k_step_call]
    | |- keeps (emit_csr _ _ _ _ _) => apply k_csr, k_if; [apply k_csr_read|apply k_step_call]
    end.
Qed.

(** The operations after which the rest of the block is not reached. *)
Definition leaves (op : Op.Op) : bool := Op.can_change_control_flow op && match branch_operands op with Some _ => false | None => true end.

Lemma k_emit_leaves op comp : leaves op = true -> seals (emit_op env op comp).
Proof.
  intros Hl. unfold emit_op. apply k_seal; [apply k_get|intros p].
  assert (Hc : forall csr other, (csr =? Csr.Instret) || (csr =? Csr.Instreth) || (csr =? Csr.Satp) = true -> seals (emit_csr env op comp csr other)).
  { intros csr other H. unfold emit_csr, csr_leaves. rewrite H. cbn [orb]. apply k_leave. }
  destruct op; try discriminate Hl; cbn [Dbt.emit_op];
    match goal with
    | |- seals (emit_leave _ _ _) => apply k_leave
    | |- seals (emit_jal _ _ _ _ _) => apply k_jal
    | |- seals (emit_jalr _ _ _ _ _ _) => apply k_jalr
    | |- seals (emit_csr _ _ _ _ _) => apply Hc; unfold leaves in Hl; apply andb_true_iff in Hl as [Hl _]; exact Hl
    end.
Qed.

(** What leaves code that is tight so. *)
Definition still {A} (x : Comp A) : Prop := forall L c, tight L c ->
  steps x c (fun _ c' => tight L c' /\ (length (code c) <= length (code c'))%nat).

Lemma still_modify f : (forall c, code (f c) = code c /\ slow_path (f c) = slow_path c) -> still (modify f).
Proof. intros Hf L c Hc. unfold steps, modify, tight. destruct (Hf c) as [-> ->]. split; [exact Hc|lia]. Qed.

Lemma still_model f : still (with_model f).
Proof. intros L c Hc. unfold with_model, bind, get, steps. destruct (f (model c)) as [m k]. cbn. split; [exact Hc|lia]. Qed.

Lemma k_still {A B} (x : Comp A) (f : A -> Comp B) : seals x -> (forall a, still (f a)) -> seals (bind x f).
Proof.
  intros Hx Hf L c Hc. apply s_bind. eapply s_mono; [apply Hx, Hc|]. intros a c1 [H1 L1].
  eapply s_mono; [apply Hf, H1|]. intros b c2 [H2 L2]. split; [exact H2|lia].
Qed.

Lemma still_bind {A B} (x : Comp A) (f : A -> Comp B) : still x -> (forall a, still (f a)) -> still (bind x f).
Proof.
  intros Hx Hf L c Hc. apply s_bind. eapply s_mono; [apply Hx, Hc|]. intros a c1 [H1 L1].
  eapply s_mono; [apply Hf, H1|]. intros b c2 [H2 L2]. split; [exact H2|lia].
Qed.

Lemma k_compile_op op compressed bits : keeps (compile_op env op compressed bits).
Proof.
  unfold compile_op. do 5 (apply k_bind; [keep3|intros ?]). apply k_bind; [apply k_emit_op|intros ?]. keep3.
Qed.

Lemma k_compile_leaves op compressed bits : leaves op = true -> seals (compile_op env op compressed bits).
Proof.
  intros Hl. unfold compile_op. do 5 (apply k_seal; [keep3|intros ?]). apply k_still; [apply k_emit_leaves, Hl|intros ?].
  apply still_bind; [apply still_model|intros ?].
  apply still_bind; [apply still_modify|intros ?; apply still_modify]; intros ?; split; reflexivity.
Qed.

Lemma k_compile_cond_op bop bcomp op comp : branch_operands bop <> None -> keeps (compile_cond_op env bop bcomp op comp).
Proof.
  intros Hb. unfold compile_cond_op. do 4 (apply k_bind; [keep3|intros ?]). destruct (branch_operands bop) as [[[rs1 rs2] cc]|]; [|contradiction].
  do 3 (apply k_bind; [keep3|intros ?]). apply k_bind; [apply k_compare|intros cc']. intros L c Hc.
  apply s_bind. eapply jump_spec; [reflexivity|exact Hc|]. intros p c1 H1 L1.
  do 3 (apply s_bind; eapply s_keeps; [|eassumption|]; [keep3|]; intros ? ? ?H ?L).
  apply s_bind. eapply s_keeps; [apply k_emit_op|eassumption|]. intros ? cz Hz Lz.
  do 2 (apply s_bind; eapply s_keeps; [|eassumption|]; [keep3|]; intros ? ? ?G ?L).
  apply s_bind. unfold steps at 1, label, get. apply s_bind. eapply s_patch; [eassumption|reflexivity|]. intros cy Hy _ Ly.
  eapply s_keeps; [|exact Hy|]; [keep3|]. intros ? cx Hx Lx. split; [exact Hx|lia].
Qed.

Lemma k_begin pc : seals (begin_ env pc).
Proof.
  unfold begin_. apply k_seal; [keep3|intros ?]. apply k_seal; [keep3|intros ?]. apply k_seal; [keep3|intros ?].
  apply k_still; [apply k_jcc|intros ?]. apply still_bind; [intros L c Hc; split; [exact Hc|lia]|intros l].
  apply still_bind; [apply still_modify; intros ?; split; reflexivity|intros ?]. apply still_model.
Qed.

(** ** The end of a block *)

Lemma s_slow s L c (Q : unit -> Compiler -> Prop) : tight (places s ++ L) c -> (fin_label s < length (code c))%nat ->
  (forall c', tight L c' -> extends c c' -> Q tt c') -> steps (emit_slow s) c Q.
Proof.
  intros Hc Hf K. apply tight_good in Hc.
  (* the code after a miss, and the way back or to the trap *)
  assert (Hmiss : forall ebx p fin (first : Comp unit) h c0 (Q : unit -> Compiler -> Prop), good (p :: L) c0 -> (fin < length (code c0))%nat ->
    (forall L' c' (Q : unit -> Compiler -> Prop), good L' c' -> (forall c'', good L' c'' -> extends c' c'' -> Q tt c'') -> steps first c' Q) ->
    (forall c', tight L c' -> extends c0 c' -> Q tt c') ->
    steps (bind label (fun l => bind (patch p l) (fun _ => bind (emit (Mov (Reg RDI) (OpReg RBP))) (fun _ => bind first (fun _ =>
      bind (emit_helper_call h) (fun _ => bind (emit (Mov (Reg RSI) (OpReg RDX))) (fun _ => bind (emit (Test (Reg AL) (OpReg AL))) (fun _ =>
      bind (emit_jcc_long Equal) (fun j => bind (patch j fin) (fun _ => bind (emit (Mov (Reg EBX) (Imm ebx))) (fun _ => emit_helper_jmp helper_trap)))))))))))
      c0 Q).
  { intros ebx p fin first h c0 Q' H0 Hfin Hfirst K'. apply s_bind. unfold steps at 1, label, get.
    apply s_bind. eapply s_patch; [exact H0|reflexivity|]. intros c1 H1 E1 _.
    apply s_bind. eapply s_emit; [exact H1|]. intros c2 H2 E2. apply s_bind. eapply Hfirst; [apply tight_good, H2|]. intros c3 H3 E3.
    apply s_bind. eapply s_to_helper; [exact H3|reflexivity|]. intros c4 H4 E4.
    apply s_bind. eapply s_emit; [apply tight_good, H4|]. intros c5 H5 E5. apply s_bind. eapply s_emit; [apply tight_good, H5|]. intros c6 H6 E6.
    apply s_bind. eapply s_jump; [apply tight_good, H6|reflexivity|]. intros j c7 H7 E7 _ _.
    repeat match goal with H : extends _ _ |- _ => destruct H end.
    apply s_bind. eapply s_patch; [exact H7|lia|]. intros c8 H8 [] _.
    apply s_bind. eapply s_emit; [exact H8|]. intros c9 H9 []. eapply s_to_helper; [apply tight_good, H9|reflexivity|]. intros c10 H10 [].
    apply K'; [exact H10|]. split; [lia|congruence|congruence]. }
  destruct s as [ebx write m j fin|ebx j fin|ebx j]; cbn [emit_slow places fin_label app] in *.
  - unfold dcache_access_slow. apply s_bind.
    assert (Hm : forall (Q : unit -> Compiler -> Prop), (forall c', good (j :: L) c' -> extends c c' -> Q tt c') ->
      steps (match m with Some p => bind label (fun l => bind (patch p l) (fun _ => bind (emit (Mov (Reg EBX) (Imm ebx))) (fun _ => emit_helper_jmp helper_misalign)))
        | None => ret tt end) c Q).
    { intros Q' K'. destruct m as [p|]; [|apply K'; [exact Hc|apply extends_refl]]. apply s_bind. unfold steps at 1, label, get.
      apply s_bind. eapply s_patch; [exact Hc|reflexivity|]. intros c1 H1 E1 _. apply s_bind. eapply s_emit; [exact H1|]. intros c2 H2 E2.
      eapply s_to_helper; [apply tight_good, H2|reflexivity|]. intros c3 H3 E3. apply K'; [apply tight_good, H3|].
      eapply extends_trans; [exact E1|]. eapply extends_trans; eassumption. }
    apply Hm. intros c1 H1 E1. eapply Hmiss; [exact H1|destruct E1; lia| |].
    + intros L' c' Q' H' K'. destruct write; (eapply s_emit; [exact H'|]; intros c'' H'' E''; apply K'; [apply tight_good, H''|exact E'']).
    + intros c2 H2 E2. apply K; [exact H2|]. eapply extends_trans; eassumption.
  - unfold emit_icache_slow. eapply (Hmiss ebx j fin (ret tt)); [exact Hc|exact Hf| |exact K].
    intros L' c' Q' H' K'. apply K'; [exact H'|apply extends_refl].
  - unfold emit_trap. apply s_bind. unfold steps at 1, label, get. apply s_bind. eapply s_patch; [exact Hc|reflexivity|]. intros c1 H1 E1 _.
    apply s_bind. eapply s_emit; [exact H1|]. intros c2 H2 E2. eapply s_to_helper; [apply tight_good, H2|reflexivity|]. intros c3 H3 E3.
    apply K; [exact H3|]. eapply extends_trans; [exact E1|]. eapply extends_trans; eassumption.
Qed.

Lemma s_all_slow l : forall L c, tight (concat (map places l) ++ L) c -> (forall x, x ∈ l -> (fin_label x < length (code c))%nat) ->
  steps (emit_all_slow l) c (fun _ c' => tight L c' /\ slow_path c' = slow_path c).
Proof.
  induction l as [|s l IH]; intros L c Hc Hf; [split; [exact Hc|reflexivity]|]. cbn [emit_all_slow]. apply s_bind.
  cbn [map concat] in Hc. rewrite <- app_assoc in Hc. eapply s_slow; [exact Hc|apply Hf; left|]. intros c1 H1 [L1 S1 _].
  eapply s_mono; [apply (IH L c1 H1)|].
  - intros x Hx. specialize (Hf x ltac:(right; exact Hx)). lia.
  - intros _ c2 [H2 S2]. split; [exact H2|congruence].
Qed.

(** Every jump of the code has a target in it, or a helper. *)
Definition closed (c : Compiler) : Prop :=
  slow_path c = [] /\ forall i x t, code c !! i = Some x -> target_of x = Some t ->
    match t with Unpatched => False | To l => (l < length (code c))%nat | ToHelper _ => True end.

Lemma s_slow_path c : tight [] c -> steps emit_slow_path c (fun _ c' => closed c').
Proof.
  intros (n & Hn & H). unfold emit_slow_path. apply s_bind. unfold steps at 1, get. apply s_bind. unfold steps at 1, modify.
  eapply s_mono; [apply (s_all_slow (slow_path c) [])|].
  - exists n. split; [exact Hn|]. cbn [code slow_path set_slow_path]. destruct H as [H1 H2 H3 H4]. split; [exact H1| |exact H3|].
    + intros i x Hi Ht. rewrite !app_nil_r. exact (H2 i x Hi Ht).
    + intros x Hx. apply not_elem_of_nil in Hx as [].
  - intros x Hx. cbn [code set_slow_path]. pose proof (f_slow _ _ _ _ H x Hx). lia.
  - intros _ c' [(m & Hm & G) S]. cbn [slow_path set_slow_path] in S. split; [exact S|]. rewrite S in G. intros i x t Hi Ht. destruct t; [| |exact I].
    + apply (f_pending _ _ _ _ G i x Hi) in Ht. apply not_elem_of_nil in Ht as [].
    + pose proof (f_labels _ _ _ _ G i x label0 Hi Ht). lia.
Qed.

Lemma end_closed c : good [] c -> steps (end_ env) c (fun _ c' => closed c').
Proof.
  intros Hc. unfold end_. apply s_bind. eapply s_keeps; [apply k_post_adjust|exact Hc|]. intros _ c1 H1 L1.
  apply s_bind. eapply s_interrupt_check; [exact H1|]. intros c2 H2 L2 Z2. apply tight_good in H2.
  apply s_bind. unfold steps at 1, get. apply s_bind. unfold steps at 1, get. apply s_bind. destruct (same_cache_line env _ _).
  - eapply s_to_helper; [exact H2|reflexivity|]. intros c3 H3 _. apply s_slow_path, H3.
  - eapply s_chain_tail; [exact H2|exact Z2|]. intros c3 H3 _. apply s_slow_path, H3.
Qed.

Lemma k_nops n : keeps (emit_nops n).
Proof. induction n as [|n IH]; cbn [emit_nops]; keep. Qed.

Lemma good_swap p q L c : good (p :: q :: L) c -> good (q :: p :: L) c.
Proof. intros [H1 H2 H3 H4]. split; auto. intros i x Hi Ht. specialize (H2 i x Hi Ht). cbn [app] in *. rewrite !elem_of_cons in *. tauto. Qed.

Lemma end_cross_closed bits c : good [] c -> steps (end_cross env bits) c (fun _ c' => closed c').
Proof.
  intros Hc. unfold end_cross. generalize (PAGE_CROSS_RESERVATION - 5)%nat. intros nops.
  apply s_bind. eapply s_keeps; [apply k_pre_adjust|exact Hc|]. intros _ c1 H1 L1.
  do 2 (apply s_bind; eapply s_modify; [eassumption|reflexivity|reflexivity|]; intros ?H).
  apply s_bind. eapply s_keeps; [apply k_icache_access|eassumption|]. intros _ c2 H2 L2.
  apply s_bind. eapply s_emit; [exact H2|]. intros c3 H3 _.
  apply s_bind. eapply jump_spec; [reflexivity|apply tight_good, H3|]. intros j c4 H4 L4.
  apply s_bind. unfold steps at 1, label, get.
  apply s_bind. eapply s_jump; [exact H4|reflexivity|]. intros m c5 H5 _ Em Hm. apply good_swap in H5.
  apply s_bind. eapply s_keeps; [apply k_nops|exact H5|]. intros _ c6 H6 L6.
  apply s_bind. unfold steps at 1, label, get.
  apply s_bind. eapply s_patch; [exact H6|reflexivity|]. intros c7 H7 _ L7. apply s_bind. eapply s_patch; [exact H7|lia|]. intros c8 H8 _ L8.
  apply s_bind. eapply s_emit; [exact H8|]. intros c9 H9 [L9 _ _]. apply s_bind. eapply s_to_helper; [apply tight_good, H9|reflexivity|]. intros ca Ha [La _ _].
  apply s_bind. eapply s_jump_tight; [exact Ha|reflexivity|]. intros f cb Hb Lb. apply s_bind.
  eapply s_patch_tight; [exact Hb|lia|]. intros cc Hcc _. apply s_slow_path, Hcc.
Qed.
End Closed.
