(* ===== verification/DbtWhole.v ===== *)
(** From guest memory to closed code: the blocks [translate_code] discovers are handed to the
    translator call by call, and what comes out is closed, or the encoder has panicked. *)

From Stdlib Require Import ZArith Lia Bool List.
From stdpp Require Import base list.
From S2P Require Import Prelude RiscvOp X86Op X86Encode Pipeline Dbt DbtLogic DbtCorrect DbtBlock DbtBlockProps HartState Hart HartBlock HartLogic HartInv HartReach HartBlockProps.
Import ListNotations.
Local Open Scope Z_scope.
Local Open Scope rust_scope.
Import Pipeline.

(** ** The panics of the encoder

    With an encoder that refuses some operations the translator makes the same code, or it
    panics because an operation of that code is refused. *)

Definition plain_ops (l : list DbtBlock.Insn) : list X86.Op :=
  omap (fun i => match i with DbtBlock.Plain op => Some op | _ => None end) l.

Section Refined.
Context (E : Dbt.Encoder) {M : Type} {PM : Pipeline.PipelineModel M} (env : DbtBlock.Env).
Import X86 DbtBlock.

(** [x] is the translation with every operation accepted, [y] the one with [E]. *)
Definition refines {A} (x y : Comp (M := M) A) : Prop := forall c, match x c with
  | Some (a, c') => exists new, plain_ops (code c') = plain_ops (code c) ++ new /\
      y c = if forallb (@Dbt.accepts E) new then Some (a, c') else None
  | None => y c = None
  end.

Lemma r_same {A} (x : Comp (M := M) A) : (forall c a c', x c = Some (a, c') -> plain_ops (code c') = plain_ops (code c)) -> refines x x.
Proof.
  intros H c. destruct (x c) as [[a c']|] eqn:Ex; [|reflexivity]. exists []. split; [rewrite app_nil_r; eapply H, Ex|reflexivity].
Qed.

Lemma r_ret {A} (a : A) : refines (ret a) (ret a).
Proof. apply r_same. intros c b c' [= <- <-]. reflexivity. Qed.
Lemma r_panic {A} : refines (A := A) panic panic.
Proof. intros c. reflexivity. Qed.
Lemma r_get {A} (f : Compiler M -> A) : refines (get f) (get f).
Proof. apply r_same. intros c b c' [= <- <-]. reflexivity. Qed.
Lemma r_modify f : (forall c : Compiler M, code (f c) = code c) -> refines (modify f) (modify f).
Proof. intros H. apply r_same. intros c b c' [= <- <-]. rewrite H. reflexivity. Qed.
Lemma r_assert b : refines (assert b) (assert b).
Proof. destruct b; [apply r_ret|apply r_panic]. Qed.

Lemma r_bind {A B} (x y : Comp A) (f g : A -> Comp B) : refines x y -> (forall a, refines (f a) (g a)) -> refines (bind x f) (bind y g).
Proof.
  intros Hx Hf c. unfold bind. specialize (Hx c). destruct (x c) as [[a c1]|]; [|rewrite Hx; reflexivity].
  destruct Hx as (n1 & E1 & Hy). specialize (Hf a c1). destruct (f a c1) as [[b c2]|].
  - destruct Hf as (n2 & E2 & Hg). exists (n1 ++ n2). split; [rewrite E2, E1, app_assoc; reflexivity|].
    rewrite forallb_app, Hy. destruct (forallb _ n1); [exact Hg|reflexivity].
  - rewrite Hy. destruct (forallb _ n1); [exact Hf|reflexivity].
Qed.

Lemma plain_ops_app a b : plain_ops (a ++ b) = plain_ops a ++ plain_ops b.
Proof. apply omap_app. Qed.

Lemma plain_ops_plain l : plain_ops (map Plain l) = l.
Proof. induction l as [|op l IH]; cbn; [reflexivity|]. f_equal. exact IH. Qed.

Lemma plain_ops_patch t : forall l p, plain_ops (alter (with_target t) p l) = plain_ops l.
Proof.
  induction l as [|i l IH]; intros [|p]; [reflexivity|reflexivity|destruct i; reflexivity|].
  change (alter (with_target t) (S p) (i :: l)) with (i :: alter (with_target t) p l). cbn [plain_ops omap list_omap]. destruct i; cbn; [f_equal|..]; apply IH.
Qed.

Lemma r_emit op : refines (emit (E := DbtLogic.any_encoder) op) (emit (E := E) op).
Proof.
  intros c. cbn. exists [op]. split; [rewrite plain_ops_app; reflexivity|]. cbn [forallb]. rewrite andb_true_r.
  unfold emit. destruct (Dbt.accepts op); reflexivity.
Qed.

Lemma r_emits a b : DbtLogic.checked E a = b -> refines (emits a) (emits b).
Proof.
  intros <- c. destruct a as [l|]; [|reflexivity]. cbn. exists l. split; [rewrite plain_ops_app, plain_ops_plain; reflexivity|].
  destruct (forallb _ l); reflexivity.
Qed.

Lemma r_jump i : target_of i <> None -> refines (emit_jump i) (emit_jump i).
Proof.
  intros H. apply r_same. intros c p c' [= <- <-]. cbn [code set_code]. rewrite plain_ops_app. destruct i; [contradiction|..]; apply app_nil_r.
Qed.

Lemma r_patch p l : refines (patch p l) (patch p l).
Proof. apply r_same. intros c a c' [= <- <-]. apply plain_ops_patch. Qed.
Lemma r_patch_absolute p h : refines (patch_absolute p h) (patch_absolute p h).
Proof. apply r_same. intros c a c' [= <- <-]. apply plain_ops_patch. Qed.

Lemma r_with_model f : refines (with_model f) (with_model f).
Proof. apply r_same. intros c a c'. unfold with_model, bind, get. destruct (f (model c)). intros [= <- <-]. reflexivity. Qed.
Lemma r_with_model_opt f : refines (with_model_opt f) (with_model_opt f).
Proof. apply r_same. intros c a c'. unfold with_model_opt, bind, get. destruct (f (model c)) as [[]|]; [intros [= <- <-]; reflexivity|discriminate]. Qed.

Lemma r_negated cc : refines (negated cc) (negated cc).
Proof. unfold negated. destruct (cc_not cc); [apply r_ret|apply r_panic]. Qed.
Lemma r_resized r s : refines (resized r s) (resized r s).
Proof. unfold resized. destruct (reg_resize r s); [apply r_ret|apply r_panic]. Qed.

Create HintDb translate discriminated.
#[local] Hint Resolve r_ret r_panic r_get r_assert r_emit r_patch r_patch_absolute r_with_model r_with_model_opt r_negated r_resized : translate.
#[local] Hint Extern 1 (refines (modify _) _) => (apply r_modify; reflexivity) : translate.
#[local] Hint Extern 1 (refines (emit_jump _) _) => (apply r_jump; discriminate) : translate.
#[local] Hint Extern 1 (refines (emits (Dbt.load_reg _ _)) _) => (apply r_emits, checked_load_reg) : translate.
#[local] Hint Extern 1 (refines (emits (Dbt.store_reg _ _)) _) => (apply r_emits, checked_store_reg) : translate.
#[local] Hint Extern 5 (refines (bind _ _) (bind _ _)) => (apply r_bind; [|intros ?]) : translate.
#[local] Hint Extern 5 (refines (if ?b then _ else _) _) => destruct b : translate.

Ltac follow := repeat lazymatch goal with
  | |- refines (bind _ _) (bind _ _) => apply r_bind; [|intros ?]
  | |- refines (if ?b then _ else _) _ => destruct b
  | |- refines (when ?b _) (when ?b _) => unfold when; destruct b
  | |- refines (match ?x with _ => _ end) _ => destruct x
  | |- refines (push_slow _) _ => unfold push_slow
  | |- refines label _ => unfold label
  | |- refines get_ebx _ => unfold get_ebx
  | |- refines count_memory _ => unfold count_memory
  | |- refines (emit_jcc_long _) _ => unfold emit_jcc_long
  | |- refines (emit_jcc_short _) _ => unfold emit_jcc_short
  | |- refines emit_jmp_long _ => unfold emit_jmp_long
  | |- refines (emit_helper_call _) _ => unfold emit_helper_call
  | |- refines (emit_helper_jmp _) _ => unfold emit_helper_jmp
  | |- refines (emit_helper_jcc _ _) _ => unfold emit_helper_jcc
  | |- refines _ _ => solve [eauto with translate nocore]
  end.

Lemma r_before_side_effect : refines (before_side_effect (E := DbtLogic.any_encoder) env) (before_side_effect (E := E) env).
Proof. unfold before_side_effect. follow. Qed.
#[local] Hint Resolve r_before_side_effect : translate.
Lemma r_emit_step_call op : refines (emit_step_call (E := DbtLogic.any_encoder) env op) (emit_step_call (E := E) env op).
Proof. unfold emit_step_call. follow. Qed.
#[local] Hint Resolve r_emit_step_call : translate.
Lemma r_pre_adjust_instret : refines (pre_adjust_instret (E := DbtLogic.any_encoder) ) (pre_adjust_instret (E := E) ).
Proof. unfold pre_adjust_instret. follow. Qed.
#[local] Hint Resolve r_pre_adjust_instret : translate.
Lemma r_pre_adjust_pc_instret c : refines (pre_adjust_pc_instret (E := DbtLogic.any_encoder) c) (pre_adjust_pc_instret (E := E) c).
Proof. unfold pre_adjust_pc_instret. follow. Qed.
#[local] Hint Resolve r_pre_adjust_pc_instret : translate.
Lemma r_post_adjust_pc_instret : refines (post_adjust_pc_instret (E := DbtLogic.any_encoder) ) (post_adjust_pc_instret (E := E) ).
Proof. unfold post_adjust_pc_instret. follow. Qed.
#[local] Hint Resolve r_post_adjust_pc_instret : translate.
Lemma r_emit_icache_access o b : refines (emit_icache_access (E := DbtLogic.any_encoder) env o b) (emit_icache_access (E := E) env o b).
Proof. unfold emit_icache_access. follow. Qed.
#[local] Hint Resolve r_emit_icache_access : translate.
Lemma r_emit_icache_slow e j l : refines (emit_icache_slow (E := DbtLogic.any_encoder) e j l) (emit_icache_slow (E := E) e j l).
Proof. unfold emit_icache_slow. follow. Qed.
#[local] Hint Resolve r_emit_icache_slow : translate.
Lemma r_emit_chain_tail : refines (emit_chain_tail (E := DbtLogic.any_encoder) ) (emit_chain_tail (E := E) ).
Proof. unfold emit_chain_tail. follow. Qed.
#[local] Hint Resolve r_emit_chain_tail : translate.
Lemma r_emit_interrupt_check : refines (emit_interrupt_check (E := DbtLogic.any_encoder) env) (emit_interrupt_check (E := E) env).
Proof. unfold emit_interrupt_check. follow. Qed.
#[local] Hint Resolve r_emit_interrupt_check : translate.
Lemma r_emit_trap e j : refines (emit_trap (E := DbtLogic.any_encoder) e j) (emit_trap (E := E) e j).
Proof. unfold emit_trap. follow. Qed.
#[local] Hint Resolve r_emit_trap : translate.
Lemma r_emit_compare a b cc : refines (emit_compare (E := DbtLogic.any_encoder) a b cc) (emit_compare (E := E) a b cc).
Proof. unfold emit_compare. follow. Qed.
#[local] Hint Resolve r_emit_compare : translate.
Lemma r_emit_branch a b i cc op c : refines (emit_branch (E := DbtLogic.any_encoder) env a b i cc op c) (emit_branch (E := E) env a b i cc op c).
Proof. unfold emit_branch. follow. Qed.
#[local] Hint Resolve r_emit_branch : translate.
Lemma r_emit_jalr a b i op c : refines (emit_jalr (E := DbtLogic.any_encoder) env a b i op c) (emit_jalr (E := E) env a b i op c).
Proof. unfold emit_jalr. follow. Qed.
#[local] Hint Resolve r_emit_jalr : translate.
Lemma r_emit_jal a i op c : refines (emit_jal (E := DbtLogic.any_encoder) env a i op c) (emit_jal (E := E) env a i op c).
Proof. unfold emit_jal. follow. Qed.
#[local] Hint Resolve r_emit_jal : translate.
Lemma r_dcache_access s w : refines (dcache_access (E := DbtLogic.any_encoder) env s w) (dcache_access (E := E) env s w).
Proof. unfold dcache_access. follow. Qed.
#[local] Hint Resolve r_dcache_access : translate.
Lemma r_dcache_access_slow e w m j l : refines (dcache_access_slow (E := DbtLogic.any_encoder) e w m j l) (dcache_access_slow (E := E) e w m j l).
Proof. unfold dcache_access_slow. follow. Qed.
#[local] Hint Resolve r_dcache_access_slow : translate.
Lemma r_emit_address a i : refines (emit_address (E := DbtLogic.any_encoder) a i) (emit_address (E := E) a i).
Proof. unfold emit_address. follow. Qed.
#[local] Hint Resolve r_emit_address : translate.
Lemma r_emit_load a i s : refines (emit_load (E := DbtLogic.any_encoder) env a i s) (emit_load (E := E) env a i s).
Proof. unfold emit_load. follow. Qed.
#[local] Hint Resolve r_emit_load : translate.
Lemma r_emit_store a b i s : refines (emit_store (E := DbtLogic.any_encoder) env a b i s) (emit_store (E := E) env a b i s).
Proof. unfold emit_store. follow. Qed.
#[local] Hint Resolve r_emit_store : translate.
Lemma r_amo_op_w a b d x y : refines x y -> refines (amo_op_w (E := DbtLogic.any_encoder) env a b d x) (amo_op_w (E := E) env a b d y).
Proof. intros H. unfold amo_op_w. follow. Qed.
#[local] Hint Resolve r_amo_op_w : translate.
Lemma r_amo_op_d a b d x y : refines x y -> refines (amo_op_d (E := DbtLogic.any_encoder) env a b d x) (amo_op_d (E := E) env a b d y).
Proof. intros H. unfold amo_op_d. follow. Qed.
#[local] Hint Resolve r_amo_op_d : translate.
Lemma r_cmpxchg_w a b d x y : refines x y -> refines (cmpxchg_w (E := DbtLogic.any_encoder) env a b d x) (cmpxchg_w (E := E) env a b d y).
Proof. intros H. unfold cmpxchg_w. follow. Qed.
#[local] Hint Resolve r_cmpxchg_w : translate.
Lemma r_cmpxchg_d a b d x y : refines x y -> refines (cmpxchg_d (E := DbtLogic.any_encoder) env a b d x) (cmpxchg_d (E := E) env a b d y).
Proof. intros H. unfold cmpxchg_d. follow. Qed.
#[local] Hint Resolve r_cmpxchg_d : translate.
Lemma r_locked op : refines (locked (E := DbtLogic.any_encoder) op) (locked (E := E) op).
Proof. unfold locked. follow. Qed.
#[local] Hint Resolve r_locked : translate.
Lemma r_amo_noresult w a b f : refines (amo_noresult (E := DbtLogic.any_encoder) env w a b f) (amo_noresult (E := E) env w a b f).
Proof. unfold amo_noresult. follow. Qed.
#[local] Hint Resolve r_amo_noresult : translate.
Lemma r_amo_logic w a b d f : refines (amo_logic (E := DbtLogic.any_encoder) env w a b d f) (amo_logic (E := E) env w a b d f).
Proof. unfold amo_logic. follow. Qed.
#[local] Hint Resolve r_amo_logic : translate.
Lemma r_amo_choose w a b d cc : refines (amo_choose (E := DbtLogic.any_encoder) env w a b d cc) (amo_choose (E := E) env w a b d cc).
Proof. unfold amo_choose. follow. Qed.
#[local] Hint Resolve r_amo_choose : translate.
Lemma r_amo_add w a b d : refines (amo_add (E := DbtLogic.any_encoder) env w a b d) (amo_add (E := E) env w a b d).
Proof. unfold amo_add. follow. Qed.
#[local] Hint Resolve r_amo_add : translate.
Lemma r_emit_lr w a b : refines (emit_lr (E := DbtLogic.any_encoder) env w a b) (emit_lr (E := E) env w a b).
Proof. unfold emit_lr. follow. Qed.
#[local] Hint Resolve r_emit_lr : translate.
Lemma r_emit_sc w a b d : refines (emit_sc (E := DbtLogic.any_encoder) env w a b d) (emit_sc (E := E) env w a b d).
Proof. unfold emit_sc. follow. Qed.
#[local] Hint Resolve r_emit_sc : translate.
Lemma r_emit_read_csr csr : refines (emit_read_csr (E := DbtLogic.any_encoder) csr) (emit_read_csr (E := E) csr).
Proof. unfold emit_read_csr. follow. Qed.
#[local] Hint Resolve r_emit_read_csr : translate.
Lemma r_emit_write_csr csr : refines (emit_write_csr (E := DbtLogic.any_encoder) csr) (emit_write_csr (E := E) csr).
Proof. unfold emit_write_csr. follow. Qed.
#[local] Hint Resolve r_emit_write_csr : translate.
Lemma r_emit_trap_check : refines (emit_trap_check (E := DbtLogic.any_encoder) ) (emit_trap_check (E := E) ).
Proof. unfold emit_trap_check. follow. Qed.
#[local] Hint Resolve r_emit_trap_check : translate.
Lemma r_emit_leave op c : refines (emit_leave (E := DbtLogic.any_encoder) env op c) (emit_leave (E := E) env op c).
Proof. unfold emit_leave. follow. Qed.
#[local] Hint Resolve r_emit_leave : translate.
Lemma r_emit_csr_write x y csr : refines x y -> refines (emit_csr_write (E := DbtLogic.any_encoder) env x csr) (emit_csr_write (E := E) env y csr).
Proof. intros H. unfold emit_csr_write. follow. Qed.
#[local] Hint Resolve r_emit_csr_write : translate.
Lemma r_emit_csr_read rd csr : refines (emit_csr_read (E := DbtLogic.any_encoder) env rd csr) (emit_csr_read (E := E) env rd csr).
Proof. unfold emit_csr_read. follow. Qed.
#[local] Hint Resolve r_emit_csr_read : translate.
Lemma r_emit_csr op c csr x y : refines x y -> refines (emit_csr (E := DbtLogic.any_encoder) env op c csr x) (emit_csr (E := E) env op c csr y).
Proof. intros H. unfold emit_csr. follow. Qed.
#[local] Hint Resolve r_emit_csr : translate.
Lemma r_emit_load_to a b i s op : refines (emit_load_to (E := DbtLogic.any_encoder) env a b i s op) (emit_load_to (E := E) env a b i s op).
Proof. unfold emit_load_to. follow. Qed.
#[local] Hint Resolve r_emit_load_to : translate.
Lemma r_emit_op op c : refines (emit_op (E := DbtLogic.any_encoder) env op c) (emit_op (E := E) env op c).
Proof.
  unfold emit_op. apply r_bind; [apply r_get|intros p]. rewrite (emit_op_checked E p op).
  destruct (Dbt.emit_op (E := DbtLogic.any_encoder) p op) as [l|]; cbn [option_map]; [apply r_emits; reflexivity|].
  destruct op; follow.
Qed.
#[local] Hint Resolve r_emit_op : translate.
Lemma r_compile_op op c bits : refines (compile_op (E := DbtLogic.any_encoder) env op c bits) (compile_op (E := E) env op c bits).
Proof. unfold compile_op. follow. Qed.
#[local] Hint Resolve r_compile_op : translate.
Lemma r_compile_cond_op bop bc op c : refines (compile_cond_op (E := DbtLogic.any_encoder) env bop bc op c) (compile_cond_op (E := E) env bop bc op c).
Proof. unfold compile_cond_op. follow. Qed.
#[local] Hint Resolve r_compile_cond_op : translate.
Lemma r_begin_ p : refines (begin_ (E := DbtLogic.any_encoder) env p) (begin_ (E := E) env p).
Proof. unfold begin_. follow. Qed.
#[local] Hint Resolve r_begin_ : translate.
Lemma r_emit_slow s : refines (emit_slow (E := DbtLogic.any_encoder) s) (emit_slow (E := E) s).
Proof. unfold emit_slow. follow. Qed.
#[local] Hint Resolve r_emit_slow : translate.
Lemma r_emit_all_slow l : refines (emit_all_slow (E := DbtLogic.any_encoder) l) (emit_all_slow (E := E) l).
Proof. induction l as [|s l IH]; cbn [emit_all_slow]; follow. Qed.
#[local] Hint Resolve r_emit_all_slow : translate.
Lemma r_emit_slow_path : refines (emit_slow_path (E := DbtLogic.any_encoder) ) (emit_slow_path (E := E) ).
Proof. unfold emit_slow_path. follow. Qed.
#[local] Hint Resolve r_emit_slow_path : translate.
Lemma r_emit_nops n : refines (emit_nops (E := DbtLogic.any_encoder) n) (emit_nops (E := E) n).
Proof. induction n as [|n IH]; cbn [emit_nops]; follow. Qed.
#[local] Hint Resolve r_emit_nops : translate.
Lemma r_end_cross bits : refines (end_cross (E := DbtLogic.any_encoder) env bits) (end_cross (E := E) env bits).
Proof. unfold end_cross. follow. Qed.
#[local] Hint Resolve r_end_cross : translate.
Lemma r_end_ : refines (end_ (E := DbtLogic.any_encoder) env) (end_ (E := E) env).
Proof. unfold end_. follow. Qed.
#[local] Hint Resolve r_end_ : translate.
Lemma r_end_unreachable : refines (end_unreachable (E := DbtLogic.any_encoder) ) (end_unreachable (E := E) ).
Proof. unfold end_unreachable. follow. Qed.
#[local] Hint Resolve r_end_unreachable : translate.
End Refined.

Section Whole.
Context {M : Type} {PM : Pipeline.PipelineModel M} {PL : PipelineLaws (M := M)} (env : DbtBlock.Env).

(** The calls [translate_code] makes on the translator. *)
Definition compile_emit {E : Dbt.Encoder} (e : HartBlock.Emit) : DbtBlock.Comp (M := M) unit :=
  match e with
  | HartBlock.CompileOp op c bits => DbtBlock.compile_op env op c bits
  | HartBlock.CompileCondOp bop bc op c => DbtBlock.compile_cond_op env bop bc op c
  | HartBlock.End => DbtBlock.end_ env
  | HartBlock.EndCross bits => DbtBlock.end_cross env bits
  | HartBlock.EndUnreachable => DbtBlock.end_unreachable
  end.

Fixpoint compile_emits {E : Dbt.Encoder} (l : list HartBlock.Emit) : DbtBlock.Comp (M := M) unit :=
  match l with [] => DbtBlock.ret tt | e :: l => DbtBlock.bind (compile_emit e) (fun _ => compile_emits l) end.

Definition compile_block {E : Dbt.Encoder} (pc : Z) (l : list HartBlock.Emit) : DbtBlock.Comp (M := M) unit :=
  DbtBlock.bind (DbtBlock.begin_ env pc) (fun _ => compile_emits l).

(** The calls that make a block. *)
Inductive wf_block : list HartBlock.Emit -> Prop :=
| wb_end : wf_block [HartBlock.End]
| wb_cross bits : wf_block [HartBlock.EndCross bits]
| wb_leave op c bits : leaves op = true -> wf_block [HartBlock.CompileOp op c bits; HartBlock.EndUnreachable]
| wb_op op c bits l : wf_block l -> wf_block (HartBlock.CompileOp op c bits :: l)
| wb_cond bop bc op c l : DbtBlock.branch_operands bop <> None -> wf_block l -> wf_block (HartBlock.CompileCondOp bop bc op c :: l).

#[local] Existing Instance DbtLogic.any_encoder.

Lemma compile_emits_closed l : wf_block l -> forall c, good [] c -> steps (compile_emits l) c (fun _ c' => closed c').
Proof.
  intros H. induction H as [|bits|op cm bits Hl|op cm bits l H IH|bop bc op cm l Hb H IH]; intros c Hc; cbn [compile_emits compile_emit]; apply s_bind.
  - eapply s_mono; [apply end_closed, Hc|]. auto.
  - eapply s_mono; [apply end_cross_closed, Hc|]. auto.
  - eapply s_mono; [apply k_compile_leaves; [exact Hl|exact Hc]|]. intros _ c1 [H1 _]. apply s_bind.
    eapply s_mono; [apply s_slow_path, H1|]. auto.
  - eapply s_keeps; [exact (k_compile_op env _ _ _)|exact Hc|]. intros _ c1 H1 _. apply IH, H1.
  - eapply s_keeps; [exact (k_compile_cond_op env _ _ _ _ Hb)|exact Hc|]. intros _ c1 H1 _. apply IH, H1.
Qed.

Lemma compile_block_closed pc l m0 : wf_block l -> exists c, compile_block pc l (DbtBlock.new m0) = Some (tt, c) /\ closed c.
Proof.
  intros Hl. assert (H : steps (compile_block pc l) (DbtBlock.new m0) (fun _ c' => closed c')).
  { unfold compile_block. apply s_bind. eapply s_keeps; [apply seals_keeps, k_begin| |intros _ c1 H1 _; apply compile_emits_closed; [exact Hl|exact H1]].
    split; [reflexivity| | |]; cbn [DbtBlock.code DbtBlock.slow_path DbtBlock.new]; intros; try (rewrite lookup_nil in *; discriminate).
    match goal with H : _ ∈ [] |- _ => apply not_elem_of_nil in H as [] end. }
  unfold steps in H. destruct (compile_block pc l (DbtBlock.new m0)) as [[[] c]|]; [|contradiction]. exists c. auto.
Qed.

Lemma compile_block_refines (E : Dbt.Encoder) pc l : refines E (compile_block (E := DbtLogic.any_encoder) pc l) (compile_block (E := E) pc l).
Proof.
  unfold compile_block. apply r_bind; [apply r_begin_|intros _]. induction l as [|e l IH]; cbn [compile_emits]; [apply r_ret|].
  apply r_bind; [|intros _; exact IH]. destruct e; cbn [compile_emit]; auto using r_compile_op, r_compile_cond_op, r_end_, r_end_cross, r_end_unreachable.
Qed.

Context {W : Type} {P : Platform W} {C : HartBlock.Compiler W}.

Lemma branch_is_branch op : HartBlock.is_branch op = true -> DbtBlock.branch_operands op <> None.
Proof. destruct op; discriminate. Qed.

Lemma leaves_is op : HartBlock.is_branch op = false -> Op.can_change_control_flow op = true -> leaves op = true.
Proof. intros Hb Hc. unfold leaves. rewrite Hc. destruct op; try reflexivity; discriminate Hb. Qed.

Lemma hart_bind_ok {A B} (x : HartState.M W A) (f : A -> HartState.M W B) m b m' : HartState.bind x f m = Ok b m' ->
  exists a m1, x m = Ok a m1 /\ f a m1 = Ok b m'.
Proof. unfold HartState.bind. destruct (x m) eqn:E; try discriminate. eauto. Qed.

Lemma fuse_branch op c pc m r m' : HartBlock.fuse_candidate op c pc m = Ok (Some r) m' -> HartBlock.is_branch op = true.
Proof.
  unfold HartBlock.fuse_candidate. intros H. apply hart_bind_ok in H as (f & m1 & _ & H). destruct (HartBlock.is_branch op); [reflexivity|].
  rewrite andb_false_r in H. discriminate.
Qed.

Lemma translate_loop_wf fuel prv : forall pc m l e m', HartBlock.translate_loop fuel prv pc m = Ok (l, e) m' -> wf_block l.
Proof.
  induction fuel as [|fuel IH]; intros pc m l e m' H; [discriminate|]. cbn [HartBlock.translate_loop] in H.
  apply hart_bind_ok in H as ([[es pe] k] & m1 & H1 & H2).
  assert (Ht : if k then forall l, wf_block l -> wf_block (es ++ l) else wf_block es).
  { unfold HartBlock.translate_one in H1. apply hart_bind_ok in H1 as (ins & m2 & _ & H1). destruct ins as [op c bits|lo].
    - cbv zeta in H1. set (op' := if _ <? _ then _ else op) in H1. apply hart_bind_ok in H1 as (fused & m3 & Hf & H1).
      destruct fused as [[nop nc]|].
      + apply fuse_branch, branch_is_branch in Hf. destruct (_ =? 0); injection H1 as <- <- <- <-.
        * apply wb_cond; [exact Hf|apply wb_end].
        * intros l' Hl'. apply wb_cond; assumption.
      + destruct (HartBlock.is_branch op') eqn:Eb; [injection H1 as <- <- <- <-; apply wb_op, wb_end|].
        destruct (Op.can_change_control_flow op') eqn:Ec; [injection H1 as <- <- <- <-; apply wb_leave, leaves_is; assumption|].
        destruct (_ =? 0); injection H1 as <- <- <- <-; [apply wb_op, wb_end|]. intros l' Hl'. apply wb_op, Hl'.
    - injection H1 as <- <- <- <-. apply wb_cross. }
  destruct k.
  - apply hart_bind_ok in H2 as ([rest pe'] & m4 & H3 & H4). injection H4 as <- <- <-. apply Ht, (IH pe m1 rest pe' m4), H3.
  - injection H2 as <- <- <-. exact Ht.
Qed.

End Whole.

#[export] Instance atomic_laws : PipelineLaws (M := Pipeline.AtomicModel).
Proof. split. discriminate. Qed.
#[export] Instance simple_laws : PipelineLaws (M := Pipeline.SimpleModel).
Proof. split. discriminate. Qed.
#[export] Instance in_order_laws : PipelineLaws (M := Pipeline.InOrderModel).
Proof. split. intros op c m H. cbn. unfold Pipeline.in_order_taken. destruct (Pipeline.branch_imm op); [discriminate|contradiction]. Qed.

(** Lockstep execution with cache lines of 64 bytes. *)
Definition lockstep_env : DbtBlock.Env := DbtBlock.MkEnv false false false false false 6 33400 33408 (fun _ => 0).

(** Whether the block found at the start of memory is translated without a panic *)
Definition translated (m : Machine unit) : option bool :=
  match @HartBlock.translate_loop unit idle_platform plain_compiler 2048 0 0x40000000 m with
  | Ok (emits, _) _ =>
      match compile_block (M := Pipeline.InOrderModel) lockstep_env 0x40000000 emits (DbtBlock.new Pipeline.in_order_default) with
      | Some _ => Some true | None => Some false end
  | _ => None
  end.


(** A page that starts with the word of [reserved_shift_panics]: its translation panics. *)
Theorem reserved_word_panics : translated (set_mem (program [0x80109093; 0x00000073]) user_machine) = Some false.
Proof. vm_compute. reflexivity. Qed.
