(* ===== verification/DbtMem.v ===== *)
(** Memory accesses of translated code: the lookup in the data cache of level 0 that
    [dcache_access] emits does what [translate_read] and [translate_write] do. *)

From Stdlib Require Import ZArith Lia Bool List.
From stdpp Require Import base list.
From S2P Require Import Prelude RiscvOp X86Op X86Encode Words X86Sem Dbt DbtLogic DbtProps DbtCorrect Pipeline DbtBlock DbtBlockProps HartState Hart HartReach.
Import ListNotations.
Local Open Scope Z_scope.
Local Open Scope rust_scope.
Import X86 X86Sem.

(** ** Running a piece of a block *)

(** A piece is run through, or left by a jump at a position. *)
Inductive Flow : Type := Through (s : St) | Jumped (p : nat) (s : St).

Fixpoint flow (pos : nat) (l : list DbtBlock.Insn) (s : St) : option Flow :=
  match l with
  | [] => Some (Through s)
  | DbtBlock.Plain op :: l => match exec op s with Next s => flow (S pos) l s | _ => None end
  | DbtBlock.Jump (Some cc) _ _ :: l =>
      match condition cc s with
      | Some true => Some (Jumped pos s)
      | Some false => flow (S pos) l s
      | None => None
      end
  | _ => None
  end.

Lemma flow_app l1 : forall pos l2 s, flow pos (l1 ++ l2) s =
  match flow pos l1 s with Some (Through s) => flow (pos + length l1) l2 s | r => r end.
Proof.
  induction l1 as [|[op|cc w t|t] l1 IH]; intros pos l2 s; cbn [app flow length].
  - rewrite Nat.add_0_r. reflexivity.
  - destruct (exec op s); [|reflexivity|reflexivity]. rewrite IH. replace (S pos + length l1)%nat with (pos + S (length l1))%nat by lia. reflexivity.
  - destruct cc as [cc|]; [|reflexivity]. destruct (condition cc s) as [[]|]; [reflexivity| |reflexivity].
    rewrite IH. replace (S pos + length l1)%nat with (pos + S (length l1))%nat by lia. reflexivity.
  - reflexivity.
Qed.

(** ** The lookup *)

(** The entries of the cache in the memory of the host: [Context] is at [rbp], and entry [i]
    is its tag and its address, of 8 bytes each. *)
Definition cached (rbp : Z) (lines : list CacheLine) (s : St) : Prop := forall i l, lines !! Z.to_nat i = Some l -> 0 <= i ->
  load_bytes (memory s) (rbp + 320 + i * 16) 8 = tag l /\ load_bytes (memory s) (rbp + 328 + i * 16) 8 = line_paddr l.

(** What the code leaves alone: memory and the registers but for [RAX], [RCX], [RDX] and [RSI]. *)
Definition frame (s s' : St) : Prop :=
  memory s' = memory s /\ forall i, i <> 0 -> i <> 1 -> i <> 2 -> i <> 6 -> gpr s' i = gpr s i.

Lemma frame_trans a b c : frame a b -> frame b c -> frame a c.
Proof. intros [H1 H2] [H3 H4]. split; [congruence|]. intros i ? ? ? ?. rewrite H4, H2 by assumption. reflexivity. Qed.

Lemma frame_flags s f : frame s (set_flags f s).
Proof. split; reflexivity. Qed.

Lemma frame_gpr s i v : i = 0 \/ i = 1 \/ i = 2 \/ i = 6 -> frame s (set_gpr i v s).
Proof. intros Hi. split; [reflexivity|]. intros j ? ? ? ?. cbn. destruct (Z.eqb_spec j i); [lia|reflexivity]. Qed.

Lemma count_of_64 i : 0 <= i < 64 -> count_of 64 (wrap 8 i) = i.
Proof. intros Hi. rewrite count64. change 63 with (Z.ones 6). rewrite Z.land_ones by lia. apply Z.mod_small. lia. Qed.

Section Lookup.
Context (k rbp : Z) (Hk : 0 <= k < 64) (Hrbp : 0 <= rbp /\ rbp + 65536 <= 2 ^ 64).

Definition idx_of (x : Z) : Z := (x >> k) .& 1023.

Lemma idx_range x : 0 <= idx_of x < 1024.
Proof. unfold idx_of. change 1023 with (Z.ones 10). rewrite Z.land_ones by lia. apply Z.mod_pos_bound. lia. Qed.

(** The address of an entry: a word of [Context] at an offset from [rbp + RAX]. *)
Definition line_mem (offset : Z) : Memory := mem_add (reg_add_reg RBP RAX) offset.

Lemma line_address offset a s : gpr s 5 = rbp -> gpr s 0 = a -> 0 <= a < 16384 -> 0 <= offset < 32768 ->
  address (line_mem offset) s = Some (rbp + offset + a).
Proof.
  intros Hb <- Ha Ho. unfold line_mem, address. cbn [mem_add reg_add_reg base index displacement]. rewrite get_rax.
  change (get_reg RBP s) with (Some (u64 (gpr s 5))). rewrite Hb. cbn [option_bind]. f_equal.
  unfold u64. rewrite (wrap_id 64 rbp), (wrap_id 64 (gpr s 0)) by (unfold in_u; lia). rewrite wrap_id by (unfold in_u; lia). lia.
Qed.

(** The prefix both lookups share: [RCX] is the number of the line, [RAX] the offset of its entry. *)
Definition prefix : list X86.Op :=
  [Mov (Reg RCX) (OpReg RSI); Shr (Reg RCX) (Imm k); Mov (Reg EAX) (OpReg ECX); And (Reg EAX) (Imm 1023); Shl (Reg EAX) (Imm 4)].

Lemma mov_rcx_rsi s : exec (Mov (Reg RCX) (OpReg RSI)) s = Next (set_gpr 1 (u64 (u64 (gpr s 6))) s).
Proof. reflexivity. Qed.
Lemma shr_rcx i s : exec (Shr (Reg RCX) (Imm i)) s =
  Next (set_flags None (set_gpr 1 (u64 (u64 (gpr s 1) >> count_of 64 (wrap 8 i))) s)).
Proof. reflexivity. Qed.
Lemma mov_eax_ecx s : exec (Mov (Reg EAX) (OpReg ECX)) s = Next (set_gpr 0 (u32 (u32 (gpr s 1))) s).
Proof. reflexivity. Qed.
Lemma and_eax i s : exec (And (Reg EAX) (Imm i)) s =
  Next (set_flags (Some (flags_logic 32 (u32 (gpr s 0) .& u32 i))) (set_gpr 0 (u32 (u32 (gpr s 0) .& u32 i)) s)).
Proof. reflexivity. Qed.
Lemma shl_eax i s : exec (Shl (Reg EAX) (Imm i)) s =
  Next (set_flags None (set_gpr 0 (u32 (u32 (gpr s 0) << count_of 32 (wrap 8 i))) s)).
Proof. reflexivity. Qed.

Lemma idx_word x : u32 (u32 (u32 (u32 (x >> k))) .& u32 1023) = idx_of x.
Proof.
  change (u32 1023) with 1023. unfold idx_of. change 1023 with (Z.ones 10). rewrite !Z.land_ones by lia. unfold u32, wrap.
  rewrite !Z.mod_mod by lia. rewrite (Z.mod_small (_ mod 2 ^ 10)) by (pose proof (Z.mod_pos_bound ((x >> k) mod 2 ^ 32) (2 ^ 10)); lia).
  apply Z.mod_mod_divide. exists (2 ^ 22). reflexivity.
Qed.

Lemma prefix_runs s x : gpr s 6 = x -> in_u 64 x ->
  exists s', run prefix s = Some s' /\ gpr s' 1 = x >> k /\ gpr s' 0 = idx_of x * 16 /\ gpr s' 6 = x /\ frame s s'.
Proof.
  intros Hs Hx. unfold prefix. cbn [run]. rewrite mov_rcx_rsi, shr_rcx, mov_eax_ecx, and_eax, shl_eax. eexists. split; [reflexivity|].
  rewrite count_of_64 by lia. change (count_of 32 (wrap 8 4)) with 4.
  cbn [set_gpr set_flags gpr]. change (0 =? 0) with true. change (1 =? 0) with false. change (1 =? 1) with true.
  change (6 =? 0) with false. change (6 =? 1) with false. cbv iota. rewrite Hs.
  assert (E1 : u64 (u64 (u64 (u64 x)) >> k) = x >> k).
  { unfold u64. rewrite !(wrap_id 64 x) by exact Hx. apply wrap_id, shiftr_in_u; [lia|exact Hx]. }
  rewrite E1. split; [reflexivity|]. split; [|split; [reflexivity|]].
  - rewrite idx_word. pose proof (idx_range x). unfold u32. rewrite (wrap_id 32 (idx_of x)) by (unfold in_u; lia).
    rewrite Z.shiftl_mul_pow2 by lia. rewrite wrap_id by (unfold in_u; lia). reflexivity.
  - repeat (first [eapply frame_trans; [|apply frame_flags] | eapply frame_trans; [|apply frame_gpr; tauto]]). split; reflexivity.
Qed.

(** The comparisons. *)
Definition look (write : bool) : list X86.Op :=
  if write then [Add (Reg RCX) (OpReg RCX); Cmp (Reg RCX) (OpMem (line_mem 320))]
  else [Mov (Reg RDX) (OpMem (line_mem 320)); Shr (Reg RDX) (Imm 1); Cmp (Reg RDX) (OpReg RCX)].

(** Whether an entry with tag [t] serves an access to line [n]. *)
Definition hits (write : bool) (t n : Z) : bool := if write then t =? u64 (n << 1) else (t >> 1) =? n.

Lemma add_rcx s : exec (Add (Reg RCX) (OpReg RCX)) s =
  Next (set_flags (Some (flags_add 64 (u64 (gpr s 1)) (u64 (gpr s 1)))) (set_gpr 1 (u64 (u64 (gpr s 1) + u64 (gpr s 1))) s)).
Proof. reflexivity. Qed.
Lemma cmp_rcx m s a : mem_size m = Qword -> address m s = Some a ->
  exec (Cmp (Reg RCX) (OpMem m)) s = Next (set_flags (Some (flags_sub 64 (u64 (gpr s 1)) (load_bytes (memory s) a 8))) s).
Proof. intros Hm Ha. cbn [exec compare get_operand get_loc]. unfold compare. cbn [get_operand get_loc]. rewrite Ha, Hm. reflexivity. Qed.
Lemma mov_rdx m s a : mem_size m = Qword -> address m s = Some a ->
  exec (Mov (Reg RDX) (OpMem m)) s = Next (set_gpr 2 (u64 (load_bytes (memory s) a 8)) s).
Proof. intros Hm Ha. cbn [exec]. cbn [get_operand get_loc]. rewrite Ha, Hm. reflexivity. Qed.
Lemma shr_rdx i s : exec (Shr (Reg RDX) (Imm i)) s =
  Next (set_flags None (set_gpr 2 (u64 (u64 (gpr s 2) >> count_of 64 (wrap 8 i))) s)).
Proof. reflexivity. Qed.
Lemma cmp_rdx s : exec (Cmp (Reg RDX) (OpReg RCX)) s = Next (set_flags (Some (flags_sub 64 (u64 (gpr s 2)) (u64 (gpr s 1)))) s).
Proof. reflexivity. Qed.
Lemma xor_rsi m s a : mem_size m = Qword -> address m s = Some a ->
  exec (Xor (Reg RSI) (OpMem m)) s = Next (set_flags (Some (flags_logic 64 (u64 (gpr s 6) .^ load_bytes (memory s) a 8)))
    (set_gpr 6 (u64 (u64 (gpr s 6) .^ load_bytes (memory s) a 8)) s)).
Proof. intros Hm Ha. cbn [exec]. unfold alu. cbn [get_operand get_loc]. rewrite Ha, Hm. reflexivity. Qed.

Lemma look_runs write s n t : gpr s 5 = rbp -> gpr s 1 = n -> in_u 64 n -> 0 <= gpr s 0 < 16384 -> in_u 64 t ->
  load_bytes (memory s) (rbp + 320 + gpr s 0) 8 = t ->
  exists s' f, run (look write) s = Some s' /\ flags s' = Some f /\ zf f = hits write t n /\
    gpr s' 0 = gpr s 0 /\ gpr s' 6 = gpr s 6 /\ frame s s'.
Proof.
  intros Hb Hn Hw Ha Ht Hl. unfold look, hits. destruct write; cbn [run].
  - rewrite add_rcx. rewrite (cmp_rcx _ _ (rbp + 320 + gpr s 0)); [|reflexivity|apply line_address; [exact Hb|reflexivity|exact Ha|lia]].
    eexists _, _. split; [reflexivity|]. split; [reflexivity|]. cbn [set_gpr set_flags gpr memory]. rewrite Hl. change (1 =? 1) with true. cbv iota.
    rewrite flags_equal by (try exact Ht; apply wrap64_word). split; [|split; [reflexivity|split; [reflexivity|]]].
    + rewrite Z.eqb_sym, Hn. f_equal. unfold u64. rewrite (wrap_id 64 n) by exact Hw. rewrite (wrap_id 64 (wrap 64 _)) by apply wrap64_word.
      rewrite (shift_one n 1) by reflexivity. reflexivity.
    + split; [reflexivity|]. intros i ? ? ? ?. cbn. destruct (Z.eqb_spec i 1); [lia|reflexivity].
  - rewrite (mov_rdx _ _ (rbp + 320 + gpr s 0)); [|reflexivity|apply line_address; [exact Hb|reflexivity|exact Ha|lia]].
    rewrite shr_rdx, cmp_rdx. eexists _, _. split; [reflexivity|]. split; [reflexivity|]. cbn [set_gpr set_flags gpr memory].
    change (2 =? 2) with true. change (1 =? 2) with false. cbv iota. rewrite Hl, Hn. change (count_of 64 (wrap 8 1)) with 1.
    unfold u64. rewrite !(wrap_id 64 t) by exact Ht. rewrite (wrap_id 64 n) by exact Hw.
    rewrite !(wrap_id 64 (t >> 1)) by (apply shiftr_in_u; [lia|exact Ht]).
    rewrite flags_equal by first [exact Hw | apply shiftr_in_u; [lia|exact Ht]].
    split; [reflexivity|]. split; [reflexivity|]. split; [reflexivity|].
    split; [reflexivity|]. intros i ? ? ? ?. cbn. destruct (Z.eqb_spec i 2); [lia|reflexivity].
Qed.
End Lookup.

(** ** The code of an access *)

Section Access.
Context {M : Type} {PM : Pipeline.PipelineModel M} {W : Type} {P : Platform W} (env : DbtBlock.Env) (rbp : Z).
Context (Hdirect : DbtBlock.direct env = false) (Hrbp : 0 <= rbp /\ rbp + 65536 <= 2 ^ 64).
Notation k := (DbtBlock.cache_line_size_log2 env).
Context (Hk : 0 <= k < 64).

(** The test of the alignment, which an access of a byte does without. *)
Definition test_piece (size : Size) : list DbtBlock.Insn :=
  if size_eqb size Byte then []
  else [DbtBlock.Plain (Test (Reg ESI) (Imm (size_bytes size - 1))); DbtBlock.Jump (Some NotEqual) DbtBlock.Long DbtBlock.Unpatched].

Definition access_piece (size : Size) (write : bool) : list DbtBlock.Insn :=
  test_piece size ++ map DbtBlock.Plain (prefix k ++ look write) ++
  [DbtBlock.Jump (Some NotEqual) DbtBlock.Long DbtBlock.Unpatched; DbtBlock.Plain (Xor (Reg RSI) (OpMem (line_mem 328)))].

Definition misalign_place (pos : nat) (size : Size) : option nat := if size_eqb size Byte then None else Some (S pos).
Definition miss_place (pos : nat) (size : Size) (write : bool) : nat :=
  (pos + length (test_piece size) + length (prefix k ++ look write))%nat.

(** The code has grown by [l], and nothing else has changed. *)
Definition grown (c : DbtBlock.Compiler M) (l : list DbtBlock.Insn) (c' : DbtBlock.Compiler M) : Prop :=
  DbtBlock.code c' = DbtBlock.code c ++ l /\ DbtBlock.slow_path c' = DbtBlock.slow_path c /\
  DbtBlock.pc_cur c' = DbtBlock.pc_cur c /\ DbtBlock.instret c' = DbtBlock.instret c.

Lemma grown_append c l c' i : grown c l c' -> grown c (l ++ [i]) (DbtBlock.set_code (DbtBlock.code c' ++ [i]) c').
Proof. intros (H1 & H2). split; [|exact H2]. cbn. rewrite H1, app_assoc. reflexivity. Qed.

Lemma g_emit op c0 l c (Q : unit -> DbtBlock.Compiler M -> Prop) : grown c0 l c -> Dbt.accepts op = true ->
  (forall c', grown c0 (l ++ [DbtBlock.Plain op]) c' -> Q tt c') -> steps (DbtBlock.emit op) c Q.
Proof. intros H Ha HQ. unfold DbtBlock.emit. rewrite Ha. apply HQ, grown_append, H. Qed.

(** The encoder accepts the operations of a lookup. *)
Lemma accepts_shr : Dbt.accepts (Shr (Reg RCX) (Imm k)) = true.
Proof.
  assert (H : Encode.encode (Shr (Reg RCX) (Imm k)) <> None).
  { eapply shift_reg; [reflexivity|unfold Encode.fits_u; lia|vm_compute; discriminate|vm_compute; discriminate]. }
  unfold Dbt.accepts, Dbt.x86_encode. destruct (Encode.encode _); [reflexivity|contradiction].
Qed.

Lemma accepts_test size : Dbt.accepts (Test (Reg ESI) (Imm (size_bytes size - 1))) = true.
Proof. destruct size; vm_compute; reflexivity. Qed.

Lemma g_jcc cc c0 l c (Q : nat -> DbtBlock.Compiler M -> Prop) : grown c0 l c ->
  (forall c', grown c0 (l ++ [DbtBlock.Jump (Some cc) DbtBlock.Long DbtBlock.Unpatched]) c' -> Q (length (DbtBlock.code c0) + length l)%nat c') ->
  steps (DbtBlock.emit_jcc_long cc) c Q.
Proof.
  intros H HQ. pose proof (grown_append _ _ _ (DbtBlock.Jump (Some cc) DbtBlock.Long DbtBlock.Unpatched) H) as H'. apply HQ in H'.
  rewrite <- length_app, <- (proj1 H) in H'. exact H'.
Qed.

Ltac grow := repeat match goal with
  | |- steps (DbtBlock.bind (DbtBlock.emit _) _) _ _ => apply s_bind
  | |- steps (DbtBlock.bind (DbtBlock.emit_jcc_long _) _) _ _ => apply s_bind
  | |- steps (DbtBlock.bind (DbtBlock.bind _ _) _) _ _ => apply s_bind
  | |- steps (DbtBlock.emit _) _ _ => eapply g_emit; [eassumption|first [exact accepts_shr|vm_compute; reflexivity]|]; intros ? ?
  | |- steps (DbtBlock.emit_jcc_long _) _ _ => eapply g_jcc; [eassumption|]; intros ? ?
  end.

Lemma dcache_eq (l : list DbtBlock.SlowPath) e w j p p' f f' : p = p' -> f = f' ->
  l ++ [DbtBlock.DCache e w j p f] = l ++ [DbtBlock.DCache e w j p' f'].
Proof. congruence. Qed.

Lemma g_finish c0 l c w jm p : grown c0 l c ->
  steps (DbtBlock.bind DbtBlock.label (fun fin => DbtBlock.bind DbtBlock.get_ebx (fun ebx => DbtBlock.push_slow (DbtBlock.DCache ebx w jm p fin)))) c
    (fun _ c' => DbtBlock.code c' = DbtBlock.code c0 ++ l /\ DbtBlock.slow_path c' = DbtBlock.slow_path c0 ++
       [DbtBlock.DCache (DbtBlock.pack_ebx (DbtBlock.pc_cur c0) (DbtBlock.instret c0)) w jm p (length (DbtBlock.code c'))]).
Proof. intros (H1 & H2 & H3 & H4). unfold steps. cbn. rewrite H2, H3, H4. split; [exact H1|reflexivity]. Qed.

Lemma access_emitted size write (c : DbtBlock.Compiler M) : steps (DbtBlock.dcache_access env size write) c (fun _ c' =>
  DbtBlock.code c' = DbtBlock.code c ++ access_piece size write /\
  DbtBlock.slow_path c' = DbtBlock.slow_path c ++
    [DbtBlock.DCache (DbtBlock.pack_ebx (DbtBlock.pc_cur c) (DbtBlock.instret c)) write
       (misalign_place (length (DbtBlock.code c)) size) (miss_place (length (DbtBlock.code c)) size write) (length (DbtBlock.code c'))]).
Proof.
  unfold DbtBlock.dcache_access. rewrite Hdirect. apply s_bind.
  assert (H0 : grown c [] c) by (repeat split; rewrite app_nil_r; reflexivity).
  eassert (H1 : steps _ c (fun jm c' => grown c (test_piece size) c' /\ jm = misalign_place (length (DbtBlock.code c)) size));
    [|eapply s_mono; [exact H1|]; clear H1; intros jm c1 (H1 & ->)].
  { unfold test_piece, misalign_place. destruct (size_eqb size Byte); [split; [exact H0|reflexivity]|].
    apply s_bind. eapply g_emit; [exact H0|apply accepts_test|]. intros c1 H1. apply s_bind. eapply g_jcc; [exact H1|]. intros c2 H2.
    split; [exact H2|]. cbn. f_equal. lia. }
  unfold access_piece, miss_place. generalize dependent (test_piece size). intros t H1.

  clear H0. destruct write; grow.
  all: eapply s_mono; [eapply g_finish; eassumption|]; intros _ cf [Hc Hs]; rewrite Hs, Hc; rewrite <- !app_assoc.
  all: split; [reflexivity|]; apply dcache_eq; try reflexivity; rewrite ?length_app; cbn [length app map prefix look]; lia.
Qed.

(** ** What the code does *)

Lemma flow_plain l : forall pos s s', Forall (fun op => forall s, exec op s <> DivideError) l -> run l s = Some s' -> flow pos (map DbtBlock.Plain l) s = Some (Through s').
Proof.
  induction l as [|op l IH]; intros pos s s' Hl H; cbn in *; [congruence|]. apply Forall_cons in Hl as [Hop Hl]. specialize (Hop s).
  destruct (exec op s); [apply IH; assumption|contradiction|discriminate].
Qed.

(** What the lookup finds, by the interpreter. *)
Definition translate (write : bool) (addr : Z) : HartState.M W Z := if write then translate_write addr else translate_read addr.

Lemma translate_found write addr (m : Machine W) sc l : shared m !! own m = Some sc -> cache_line_size_log2 (model m) = k ->
  line sc !! Z.to_nat (idx_of k addr) = Some l ->
  translate write addr m = if hits write (tag l) (addr >> k) then Ok (line_paddr l .^ addr) m else translate_cache_miss addr write m.
Proof.
  intros Hs Hm Hl. unfold translate, translate_write, translate_read, hits, idx_of in *.
  destruct write; unfold HartState.bind, get, gets; rewrite Hs, Hm; cbv zeta; rewrite Hl; destruct (_ =? _); reflexivity.
Qed.

(** The alignment test. *)
Lemma test_esi i s : exec (Test (Reg ESI) (Imm i)) s = Next (set_flags (Some (flags_logic 32 (u32 (gpr s 6) .& u32 i))) s).
Proof. reflexivity. Qed.

Lemma aligned_flag size x : zf (flags_logic 32 (u32 x .& u32 (size_bytes size - 1))) = (x mod size_bytes size =? 0).
Proof.
  assert (Hp : exists p, 0 <= p <= 3 /\ size_bytes size = 2 ^ p) by (destruct size; [exists 0|exists 1|exists 2|exists 3]; split; reflexivity || lia).
  destruct Hp as (p & Hp & ->). unfold flags_logic, result_flags. cbn [zf].
  assert (2 ^ p <= 2 ^ 3) by (apply Z.pow_le_mono_r; lia). assert (0 < 2 ^ p) by (apply Z.pow_pos_nonneg; lia).
  unfold u32. rewrite (wrap_id 32 (2 ^ p - 1)) by (unfold in_u; lia). change (2 ^ p - 1) with (Z.pred (2 ^ p)). rewrite <- Z.ones_equiv.
  rewrite Z.land_ones by lia. unfold wrap. rewrite (Z.mod_mod_divide x) by (exists (2 ^ (32 - p)); rewrite <- Z.pow_add_r by lia; replace (32 - p + p) with 32 by lia; reflexivity).
  rewrite Z.mod_small; [reflexivity|]. pose proof (Z.mod_pos_bound x (2 ^ p)). lia.
Qed.

Lemma no_division write : Forall (fun op => forall s, exec op s <> DivideError) (prefix k ++ look write).
Proof. destruct write; repeat constructor; intros ?; cbn; repeat case_match; discriminate. Qed.

Lemma test_flows pos size s addr : gpr s 6 = addr -> exists s1, frame s s1 /\ gpr s1 6 = addr /\ forall rest,
  flow pos (test_piece size ++ rest) s =
  if addr mod size_bytes size =? 0 then flow (pos + length (test_piece size)) rest s1 else Some (Jumped (S pos) s1).
Proof.
  intros Hs. unfold test_piece. destruct (size_eqb size Byte) eqn:E.
  - destruct size; try discriminate E. exists s. split; [split; reflexivity|]. split; [exact Hs|]. intros rest.
    change (size_bytes Byte) with 1. rewrite Z.mod_1_r, Nat.add_0_r. reflexivity.
  - eexists. split; [apply frame_flags|]. split; [exact Hs|]. intros rest. cbn [app flow]. rewrite test_esi. unfold condition at 1. cbn [flags set_flags].
    rewrite aligned_flag, Hs. destruct (_ =? 0); cbn [negb length]; [|reflexivity]. f_equal. lia.
Qed.

Lemma misalign_some pos size addr : addr mod size_bytes size <> 0 -> misalign_place pos size = Some (S pos).
Proof. destruct size; [|reflexivity..]. change (size_bytes Byte) with 1. rewrite Z.mod_1_r. contradiction. Qed.

(** The lookup proper, from an address that is aligned. *)
Lemma lookup_flows pos write s addr l : gpr s 5 = rbp -> gpr s 6 = addr -> in_u 64 addr -> (forall a, 0 <= memory s a < 256) ->
  load_bytes (memory s) (rbp + 320 + idx_of k addr * 16) 8 = tag l -> load_bytes (memory s) (rbp + 328 + idx_of k addr * 16) 8 = line_paddr l ->
  exists s', frame s s' /\ flow pos (map DbtBlock.Plain (prefix k ++ look write) ++
      [DbtBlock.Jump (Some NotEqual) DbtBlock.Long DbtBlock.Unpatched; DbtBlock.Plain (Xor (Reg RSI) (OpMem (line_mem 328)))]) s =
    (if hits write (tag l) (addr >> k) then Some (Through s') else Some (Jumped (pos + length (prefix k ++ look write)) s')) /\
  gpr s' 6 = if hits write (tag l) (addr >> k) then line_paddr l .^ addr else addr.
Proof.
  intros Hb Hs Hx Hm Ht Hp. assert (Hw : forall a, in_u 64 (load_bytes (memory s) a 8)) by (intros a; apply (x86_load_bytes_range 8), Hm).
  destruct (prefix_runs k rbp Hk Hrbp s addr Hs Hx) as (s1 & R1 & G1 & G0 & G6 & [F1 F1']). pose proof (idx_range k addr) as Hi.
  assert (Ht1 : load_bytes (memory s1) (rbp + 320 + gpr s1 0) 8 = tag l) by (rewrite F1, G0; exact Ht).
  destruct (look_runs rbp Hrbp write s1 (addr >> k) (tag l)) as (s2 & f & R2 & Hf & Hz & A0 & A6 & [F2 F2']);
    [rewrite F1' by lia; exact Hb|exact G1|apply shiftr_in_u; [lia|exact Hx]|lia|rewrite <- Ht; apply Hw|exact Ht1|].
  assert (F : frame s s2) by (apply (frame_trans _ s1); split; assumption).
  rewrite flow_app, (flow_plain _ _ _ s2); [|apply no_division|rewrite run_app, R1; exact R2].
  rewrite length_map. cbn [flow]. unfold condition. rewrite Hf, Hz. destruct (hits write (tag l) (addr >> k)); cbn [negb].
  - rewrite (xor_rsi _ _ (rbp + 328 + gpr s2 0)); [|reflexivity|apply line_address; [exact Hrbp|rewrite F2', F1' by lia; exact Hb|reflexivity|lia|lia]].
    eexists. split; [|split; [reflexivity|]].
    + eapply frame_trans; [exact F|]. eapply frame_trans; [apply (frame_gpr _ 6); tauto|apply frame_flags].
    + cbn [set_gpr set_flags gpr]. change (6 =? 6) with true. cbv iota. rewrite A6, G6, A0, G0, F2, F1, Hp. unfold u64.
      rewrite (wrap_id 64 addr) by exact Hx. rewrite wrap_id by (apply lxor_word; [exact Hx|rewrite <- Hp; apply Hw]). apply Z.lxor_comm.
  - exists s2. split; [exact F|]. split; [reflexivity|]. rewrite A6. exact G6.
Qed.

(** C3. The lookup that translated code makes in the data cache of level 0 is the one the
    interpreter makes.  For any access of any size, from any state in which [RSI] holds
    the address and the memory of the host holds the entries of the hart's cache, the code
    [dcache_access] emits leaves by the jump to the misalignment handler exactly when the
    address is not aligned; otherwise by the jump to the code for misses, with the address
    still in [RSI], exactly when the interpreter takes [translate_cache_miss]; otherwise it
    falls through with the address the interpreter translates to in [RSI].  Memory and the
    registers but for the scratch ones are as they were, and the slow path it has queued
    names the two jumps and the end of the code. *)
Theorem dcache_lookup size write (c : DbtBlock.Compiler M) s addr (m : Machine W) sc :
  gpr s 5 = rbp -> gpr s 6 = addr -> in_u 64 addr -> (forall a, 0 <= memory s a < 256) ->
  shared m !! own m = Some sc -> cache_line_size_log2 (model m) = k -> length (line sc) = Z.to_nat 1024 -> cached rbp (line sc) s ->
  exists c' piece ebx misalign miss s',
    DbtBlock.dcache_access env size write c = Some (tt, c') /\ DbtBlock.code c' = DbtBlock.code c ++ piece /\
    DbtBlock.slow_path c' = DbtBlock.slow_path c ++ [DbtBlock.DCache ebx write misalign miss (length (DbtBlock.code c'))] /\
    frame s s' /\
    if addr mod size_bytes size =? 0 then
      (flow (length (DbtBlock.code c)) piece s = Some (Through s') /\ translate write addr m = Ok (gpr s' 6) m) \/
      (flow (length (DbtBlock.code c)) piece s = Some (Jumped miss s') /\ gpr s' 6 = addr /\
       translate write addr m = translate_cache_miss addr write m)
    else exists p, misalign = Some p /\ flow (length (DbtBlock.code c)) piece s = Some (Jumped p s') /\ gpr s' 6 = addr.
Proof.
  intros Hb Hs Hx Hm Hsc Hmod Hlen Hca.
  pose proof (access_emitted size write c) as He. unfold steps in He.
  destruct (DbtBlock.dcache_access env size write c) as [[[] c']|]; [|contradiction]. destruct He as [Hc Hsl].
  assert (Hl : (Z.to_nat (idx_of k addr) < length (line sc))%nat) by (pose proof (idx_range k addr); lia).
  apply lookup_lt_is_Some_2 in Hl as [l Hl]. destruct (Hca (idx_of k addr) l Hl) as [Ht Hp]; [pose proof (idx_range k addr); lia|].
  rewrite (translate_found write addr m sc l Hsc Hmod Hl). set (pos := length (DbtBlock.code c)) in *.
  exists c', (access_piece size write). do 3 eexists.
  destruct (test_flows pos size s addr Hs) as (s1 & [F1 F1'] & G6 & Hflow). unfold access_piece. rewrite Hflow.
  destruct (Z.eqb_spec (addr mod size_bytes size) 0) as [Ha|Ha].
  - destruct (lookup_flows (pos + length (test_piece size)) write s1 addr l) as (s' & F & E & G);
      [rewrite F1' by lia; exact Hb|exact G6|exact Hx|rewrite F1; exact Hm|rewrite F1; exact Ht|rewrite F1; exact Hp|].
    exists s'. split; [reflexivity|]. split; [exact Hc|]. split; [exact Hsl|]. split; [apply (frame_trans _ s1); [split; assumption|exact F]|].
    rewrite E, G. destruct (hits write (tag l) (addr >> k)); [left; split; reflexivity|right; split; [reflexivity|split; reflexivity]].
  - exists s1. split; [reflexivity|]. split; [exact Hc|]. split; [exact Hsl|]. split; [split; assumption|].
    exists (S pos). split; [exact (misalign_some _ _ addr Ha)|]. split; [reflexivity|exact G6].
Qed.
End Access.

(** A cache whose entries all serve the page at 0x5000, which is at 0x80005000. *)
Definition sample_line : CacheLine := MkLine 10 0x80000000.
Definition sample_machine : Machine unit := set_shared [set_line (replicate (Z.to_nat 1024) sample_line) new_shared] reset_machine.

(** Its image in the memory of the host, with [Context] at 0x1000. *)
Definition sample_byte (o : Z) : Z := if o =? 0 then 10 else if o =? 11 then 0x80 else 0.
Definition sample_state : St :=
  MkSt (fun i => if i =? 5 then 0x1000 else if i =? 6 then 0x5008 else 0) None (fun a => sample_byte ((a - 0x1140) mod 16)).

Lemma sample_memory i j : 0 <= j < 16 -> memory sample_state (0x1140 + i * 16 + j) = sample_byte j.
Proof.
  intros Hj. cbn [memory sample_state]. f_equal. replace (0x1140 + i * 16 + j - 0x1140) with (j + i * 16) by lia.
  rewrite Z.mod_add by lia. apply Z.mod_small. lia.
Qed.

Lemma sample_word i n : forall h, 0 <= h -> h + Z.of_nat n <= 16 ->
  load_bytes (memory sample_state) (0x1140 + i * 16 + h) n = load_bytes sample_byte h n.
Proof.
  induction n as [|n IH]; intros h Hh Hn; cbn [load_bytes]; [reflexivity|].
  rewrite sample_memory by lia. rewrite <- IH by lia. rewrite Z.add_assoc. reflexivity.
Qed.

Lemma sample_cached : cached 0x1000 (replicate (Z.to_nat 1024) sample_line) sample_state.
Proof.
  intros i l Hl Hi. apply lookup_replicate in Hl as [-> _]. split.
  - etransitivity; [|exact (sample_word i 8 0 ltac:(lia) ltac:(lia))]. f_equal. lia.
  - etransitivity; [|exact (sample_word i 8 8 ltac:(lia) ltac:(lia))]. f_equal. lia.
Qed.

Definition page_env : DbtBlock.Env := DbtBlock.MkEnv false false false false false 12 33400 33408 (fun _ => 0).

Lemma dcache_lookup_witness : exists c' piece ebx misalign miss s',
  DbtBlock.dcache_access page_env Qword true (DbtBlock.new Pipeline.in_order_default) = Some (tt, c') /\ DbtBlock.code c' = piece /\
  DbtBlock.slow_path c' = [DbtBlock.DCache ebx true misalign miss (length (DbtBlock.code c'))] /\ frame sample_state s' /\
  ((flow 0 piece sample_state = Some (Through s') /\ @translate unit idle_platform true 0x5008 sample_machine = Ok (gpr s' 6) sample_machine) \/
   (flow 0 piece sample_state = Some (Jumped miss s') /\ gpr s' 6 = 0x5008 /\
    @translate unit idle_platform true 0x5008 sample_machine = @translate_cache_miss unit idle_platform 0x5008 true sample_machine)).
Proof.
  apply (@dcache_lookup Pipeline.InOrderModel unit idle_platform page_env 0x1000 eq_refl ltac:(lia) ltac:(cbn; lia) Qword true
    (DbtBlock.new Pipeline.in_order_default) sample_state 0x5008 sample_machine (set_line (replicate (Z.to_nat 1024) sample_line) new_shared));
    [reflexivity|reflexivity|unfold in_u; lia| |reflexivity|reflexivity|apply length_replicate|exact sample_cached].
  intros a. cbn [memory sample_state]. unfold sample_byte. repeat case_match; lia.
Defined.

(** On this state the lookup hits. *)
Lemma sample_hits : exists s', flow 0 (access_piece page_env Qword true) sample_state = Some (Through s') /\ gpr s' 6 = 0x80005008.
Proof. eexists. split; vm_compute; reflexivity. Qed.
