(* ===== verification/P9.v ===== *)
(** The 9P wire protocol of lib/p9/src/serialize.rs: the trait [Serializable] as a
    class, its instances, and the messages. *)

From Stdlib Require Import ZArith Lia Bool List.
From S2P Require Import Prelude.
Import ListNotations.
Local Open Scope Z_scope.
Local Open Scope rust_scope.

Module P9.

(** The outcome of reading: a value and what is left of the input, an
    [io::Error], or a panic. *)
Inductive Res (A : Type) : Type := Ok (a : A) (rest : list Z) | Err | Panic.
Arguments Ok {A} _ _.
Arguments Err {A}.
Arguments Panic {A}.

Definition Reader (A : Type) : Type := list Z -> Res A.

Definition ret {A} (a : A) : Reader A := fun l => Ok a l.
Definition bind {A B} (m : Reader A) (k : A -> Reader B) : Reader B := fun l =>
  match m l with Ok a l => k a l | Err => Err | Panic => Panic end.
Notation "'let*' x ':=' m 'in' k" := (bind m (fun x => k))
  (at level 10, x pattern, m at level 100, k at level 200).

(** What is written; [None] is a panic. *)
Definition Writer : Type := option (list Z).
Definition cat (a b : Writer) : Writer := let? x := a in let? y := b in Some (x ++ y).
Notation "a +++ b" := (cat a b) (at level 60, right associativity).

(** [read_exact]: an error when the input is too short. *)
Definition read_exact (size : nat) : Reader (list Z) := fun l =>
  if (size <=? length l)%nat then Ok (firstn size l) (skipn size l) else Err.

(** [trait Serializable] *)
Class Serializable (A : Type) : Type := {
  decode : Reader A;
  encode : A -> Writer;
}.

(** ** Integers, little endian *)

Fixpoint le (n : nat) (v : Z) : list Z :=
  match n with O => [] | S n => u8 v :: le n (v >> 8) end.

Fixpoint of_le (l : list Z) : Z :=
  match l with [] => 0 | b :: l => b + 2 ^ 8 * of_le l end.

Definition read_le (n : nat) : Reader Z := let* b := read_exact n in ret (of_le b).

Record U8 : Type := MkU8 { u8_val : Z }.
Record U16 : Type := MkU16 { u16_val : Z }.
Record U32 : Type := MkU32 { u32_val : Z }.
Record U64 : Type := MkU64 { u64_val : Z }.

#[export] Instance serializable_u8 : Serializable U8 := {|
  decode := let* v := read_le 1 in ret (MkU8 v);
  encode v := Some (le 1 (u8_val v));
|}.
#[export] Instance serializable_u16 : Serializable U16 := {|
  decode := let* v := read_le 2 in ret (MkU16 v);
  encode v := Some (le 2 (u16_val v));
|}.
#[export] Instance serializable_u32 : Serializable U32 := {|
  decode := let* v := read_le 4 in ret (MkU32 v);
  encode v := Some (le 4 (u32_val v));
|}.
#[export] Instance serializable_u64 : Serializable U64 := {|
  decode := let* v := read_le 8 in ret (MkU64 v);
  encode v := Some (le 8 (u64_val v));
|}.

(** ** Strings *)

Definition in_range (lo x hi : Z) : bool := (lo <=? x) && (x <=? hi).

(** [String::from_utf8] accepts well-formed UTF-8; one iteration per character. *)
Fixpoint utf8_valid (fuel : nat) (l : list Z) : bool :=
  match fuel with
  | O => match l with [] => true | _ => false end
  | S fuel =>
      match l with
      | [] => true
      | a :: l1 =>
          if in_range 0 a 0x7F then utf8_valid fuel l1
          else match l1 with
          | [] => false
          | b :: l2 =>
              if in_range 0xC2 a 0xDF && in_range 0x80 b 0xBF then utf8_valid fuel l2
              else match l2 with
              | [] => false
              | c :: l3 =>
                  if in_range 0xE0 a 0xEF &&
                     in_range (if a =? 0xE0 then 0xA0 else 0x80) b (if a =? 0xED then 0x9F else 0xBF) &&
                     in_range 0x80 c 0xBF then utf8_valid fuel l3
                  else match l3 with
                  | [] => false
                  | d :: l4 =>
                      if in_range 0xF0 a 0xF4 &&
                         in_range (if a =? 0xF0 then 0x90 else 0x80) b (if a =? 0xF4 then 0x8F else 0xBF) &&
                         in_range 0x80 c 0xBF && in_range 0x80 d 0xBF then utf8_valid fuel l4
                      else false
                  end
              end
          end
      end
  end.

Definition is_utf8 (l : list Z) : bool := utf8_valid (length l) l.

(** The bytes of a Rust [String]. *)
Record Str : Type := MkStr { bytes : list Z }.

#[export] Instance serializable_str : Serializable Str := {|
  decode :=
    let* len := read_le 2 in
    let* b := read_exact (Z.to_nat len) in
    if is_utf8 b then ret (MkStr b) else (fun _ => Err);
  encode s := Some (le 2 (u16 (Z.of_nat (length (bytes s))))) +++ Some (bytes s);
|}.

(** ** Structures *)

Record Qid : Type := MkQid { qid_type : U8; qid_version : U32; qid_path : U64 }.

#[export] Instance serializable_qid : Serializable Qid := {|
  decode :=
    let* t := decode in let* v := decode in let* p := decode in
    ret (MkQid t v p);
  encode q := encode (qid_type q) +++ encode (qid_version q) +++ encode (qid_path q);
|}.

(** [SystemTime]: seconds and nanoseconds since the epoch. *)
Record SystemTime : Type := MkTime { secs : Z; nanos : Z }.

Definition UNIX_EPOCH : SystemTime := MkTime 0 0.

(** [UNIX_EPOCH + Duration::new(secs, nanos)]: [None] when either overflows. *)
Definition epoch_plus (s n : Z) : option SystemTime :=
  let s := s + n / 10 ^ 9 in
  if s <? 2 ^ 63 then Some (MkTime s (n mod 10 ^ 9)) else None.

#[export] Instance serializable_time : Serializable SystemTime := {|
  decode :=
    let* s := read_le 8 in let* n := read_le 8 in
    match epoch_plus s (u32 n) with Some t => ret t | None => fun _ => Panic end;
  encode t := if secs t <? 0 then None else Some (le 8 (secs t)) +++ Some (le 8 (nanos t));
|}.

Record Stat : Type := MkStat {
  st_mode : U32; st_uid : U32; st_gid : U32;
  st_nlink : U64; st_rdev : U64; st_size : U64; st_blksize : U64; st_blocks : U64;
  st_atime : SystemTime; st_mtime : SystemTime; st_ctime : SystemTime;
}.

#[export] Instance serializable_stat : Serializable Stat := {|
  decode :=
    let* a := decode in let* b := decode in let* c := decode in let* d := decode in
    let* e := decode in let* f := decode in let* g := decode in let* h := decode in
    let* i := decode in let* j := decode in let* k := decode in
    let* _ := (decode : Reader SystemTime) in
    let* _ := (decode : Reader U64) in
    let* _ := (decode : Reader U64) in
    ret (MkStat a b c d e f g h i j k);
  encode s :=
    encode (st_mode s) +++ encode (st_uid s) +++ encode (st_gid s) +++ encode (st_nlink s) +++
    encode (st_rdev s) +++ encode (st_size s) +++ encode (st_blksize s) +++ encode (st_blocks s) +++
    encode (st_atime s) +++ encode (st_mtime s) +++ encode (st_ctime s) +++
    encode UNIX_EPOCH +++ encode (MkU64 0) +++ encode (MkU64 0);
|}.

Record SetAttr : Type := MkSetAttr {
  sa_mode : U32; sa_uid : U32; sa_gid : U32; sa_size : U64; sa_atime : SystemTime; sa_mtime : SystemTime;
}.

#[export] Instance serializable_setattr : Serializable SetAttr := {|
  decode :=
    let* a := decode in let* b := decode in let* c := decode in
    let* d := decode in let* e := decode in let* f := decode in
    ret (MkSetAttr a b c d e f);
  encode s :=
    encode (sa_mode s) +++ encode (sa_uid s) +++ encode (sa_gid s) +++ encode (sa_size s) +++
    encode (sa_atime s) +++ encode (sa_mtime s);
|}.

Record StatFs : Type := MkStatFs {
  fs_type : U32; fs_bsize : U32; fs_blocks : U64; fs_bfree : U64; fs_bavail : U64;
  fs_files : U64; fs_ffree : U64; fs_fsid : U64; fs_namelen : U32;
}.

(** Decoding a [StatFs] is [unimplemented!]. *)
#[export] Instance serializable_statfs : Serializable StatFs := {|
  decode := fun _ => Panic;
  encode s :=
    encode (fs_type s) +++ encode (fs_bsize s) +++ encode (fs_blocks s) +++ encode (fs_bfree s) +++
    encode (fs_bavail s) +++ encode (fs_files s) +++ encode (fs_ffree s) +++ encode (fs_fsid s) +++
    encode (fs_namelen s);
|}.

Record DirEntry : Type := MkDirEntry {
  de_qid : Qid; de_offset : U64; de_type : U8; de_name : Str;
}.

(** ** Messages *)

Inductive Fcall : Type :=
| Rlerror (ecode : U32)
| Tstatfs (fid : U32)
| Rstatfs (stat : StatFs)
| Tlopen (fid flags : U32)
| Rlopen (qid : Qid) (iounit : U32)
| Tlcreate (fid : U32) (name : Str) (flags mode gid : U32)
| Rlcreate (qid : Qid) (iounit : U32)
| Tsymlink (fid : U32) (name symtgt : Str) (gid : U32)
| Rsymlink (qid : Qid)
| Tmknod (dfid : U32) (name : Str) (mode major minor gid : U32)
| Rmknod (qid : Qid)
| Treadlink (fid : U32)
| Rreadlink (target : Str)
| Tgetattr (fid : U32) (request_mask : U64)
| Rgetattr (valid : U64) (qid : Qid) (stat : Stat)
| Tsetattr (fid valid : U32) (attr : SetAttr)
| Rsetattr
| Txattrwalk (fid newfid : U32) (name : Str)
| Rxattrwalk (size : U64)
| Txattrcreate (fid : U32) (name : Str) (attr_size : U64) (flags : U32)
| Rxattrcreate
| Treaddir (fid : U32) (offset : U64) (count : U32)
| Rreaddir (count : U32) (data : list DirEntry)
| Tfsync (fid : U32)
| Rfsync
| Tlock (fid : U32) (type : U8) (flags : U32) (start length : U64) (proc_id : U32) (client_id : Str)
| Rlock (status : U8)
| Tgetlock (fid : U32) (type : U8) (start length proc_id : U64) (client_id : Str)
| Rgetlock (type : U8) (start length : U64) (proc_id : U32) (client_id : Str)
| Tlink (dfid fid : U32) (name : Str)
| Rlink
| Tmkdir (dfid : U32) (name : Str) (mode gid : U32)
| Rmkdir (qid : Qid)
| Trenameat (olddirfid : U32) (oldname : Str) (newdirfid : U32) (newname : Str)
| Rrenameat
| Tunlinkat (dirfd : U32) (name : Str) (flags : U32)
| Runlinkat
| Tauth (afid : U32) (uname aname : Str) (n_uname : U32)
| Rauth (aqid : Qid)
| Tattach (fid afid : U32) (uname aname : Str) (n_uname : U32)
| Rattach (qid : Qid)
| Tversion (msize : U32) (version : Str)
| Rversion (msize : U32) (version : Str)
| Tflush (oldtag : U16)
| Rflush
| Twalk (fid newfid : U32) (wnames : list Str)
| Rwalk (wqids : list Qid)
| Tread (fid : U32) (offset : U64) (count : U32)
| Rread (data : list Z)
| Twrite (fid : U32) (offset : U64) (data : list Z)
| Rwrite (count : U32)
| Tclunk (fid : U32)
| Rclunk
| Unknown.

(** [n] values one after another: the loop of [Twalk]. *)
Fixpoint decode_n {A} `{Serializable A} (n : nat) : Reader (list A) :=
  match n with
  | O => ret []
  | S n => let* a := decode in let* l := decode_n n in ret (a :: l)
  end.

Fixpoint encode_all {A} (f : A -> Writer) (l : list A) : Writer :=
  match l with [] => Some [] | a :: l => f a +++ encode_all f l end.

(** The body of a request, by message type. *)
Definition decode_body (msg : Z) : Reader Fcall :=
  if msg =? 8 then let* a := decode in ret (Tstatfs a)
  else if msg =? 12 then let* a := decode in let* b := decode in ret (Tlopen a b)
  else if msg =? 14 then
    let* a := decode in let* b := decode in let* c := decode in let* d := decode in let* e := decode in
    ret (Tlcreate a b c d e)
  else if msg =? 16 then
    let* a := decode in let* b := decode in let* c := decode in let* d := decode in ret (Tsymlink a b c d)
  else if msg =? 18 then
    let* a := decode in let* b := decode in let* c := decode in let* d := decode in let* e := decode in
    let* f := decode in ret (Tmknod a b c d e f)
  else if msg =? 22 then let* a := decode in ret (Treadlink a)
  else if msg =? 24 then let* a := decode in let* b := decode in ret (Tgetattr a b)
  else if msg =? 26 then let* a := decode in let* b := decode in let* c := decode in ret (Tsetattr a b c)
  else if msg =? 30 then let* a := decode in let* b := decode in let* c := decode in ret (Txattrwalk a b c)
  else if msg =? 32 then
    let* a := decode in let* b := decode in let* c := decode in let* d := decode in ret (Txattrcreate a b c d)
  else if msg =? 40 then let* a := decode in let* b := decode in let* c := decode in ret (Treaddir a b c)
  else if msg =? 50 then let* a := decode in ret (Tfsync a)
  else if msg =? 70 then let* a := decode in let* b := decode in let* c := decode in ret (Tlink a b c)
  else if msg =? 72 then
    let* a := decode in let* b := decode in let* c := decode in let* d := decode in ret (Tmkdir a b c d)
  else if msg =? 74 then
    let* a := decode in let* b := decode in let* c := decode in let* d := decode in ret (Trenameat a b c d)
  else if msg =? 76 then let* a := decode in let* b := decode in let* c := decode in ret (Tunlinkat a b c)
  else if msg =? 100 then let* a := decode in let* b := decode in ret (Tversion a b)
  else if msg =? 101 then let* a := decode in let* b := decode in ret (Rversion a b)
  else if msg =? 102 then
    let* a := decode in let* b := decode in let* c := decode in let* d := decode in ret (Tauth a b c d)
  else if msg =? 104 then
    let* a := decode in let* b := decode in let* c := decode in let* d := decode in let* e := decode in
    ret (Tattach a b c d e)
  else if msg =? 108 then let* a := decode in ret (Tflush a)
  else if msg =? 110 then
    let* a := decode in let* b := decode in
    let* len := read_le 2 in
    let* l := decode_n (Z.to_nat len) in ret (Twalk a b l)
  else if msg =? 116 then let* a := decode in let* b := decode in let* c := decode in ret (Tread a b c)
  else if msg =? 118 then
    let* a := decode in let* b := decode in
    let* len := read_le 4 in
    let* buf := read_exact (Z.to_nat len) in ret (Twrite a b buf)
  else if msg =? 120 then let* a := decode in ret (Tclunk a)
  else ret Unknown.

(** [<(u16, Fcall)>::decode] *)
Definition decode_message : Reader (U16 * Fcall) :=
  let* msg := read_le 1 in
  let* tag := decode in
  let* body := decode_body msg in
  ret (tag, body).

(** The message types of replies; [None] is [unimplemented!]. *)
Definition reply_type (f : Fcall) : option Z :=
  match f with
  | Rlerror _ => Some 7 | Rstatfs _ => Some 9 | Rlopen _ _ => Some 13 | Rlcreate _ _ => Some 15
  | Rsymlink _ => Some 17 | Rmknod _ => Some 19 | Rreadlink _ => Some 23 | Rgetattr _ _ _ => Some 25
  | Rsetattr => Some 27 | Rxattrwalk _ => Some 31 | Rxattrcreate => Some 33 | Rreaddir _ _ => Some 41
  | Rfsync => Some 51 | Rlink => Some 71 | Rmkdir _ => Some 73 | Rrenameat => Some 75
  | Runlinkat => Some 77 | Rversion _ _ => Some 101 | Rauth _ => Some 103 | Rattach _ => Some 105
  | Rflush => Some 109 | Rwalk _ => Some 111 | Rread _ => Some 117 | Rwrite _ => Some 119
  | Rclunk => Some 121
  | _ => None
  end.

Definition encode_entry (d : DirEntry) : Writer :=
  encode (de_qid d) +++ encode (de_offset d) +++ encode (de_type d) +++ encode (de_name d).

Definition encode_body (f : Fcall) : Writer :=
  match f with
  | Rlerror ecode => encode ecode
  | Rstatfs stat => encode stat
  | Rlopen qid iounit | Rlcreate qid iounit => encode qid +++ encode iounit
  | Rsymlink qid | Rmknod qid | Rmkdir qid => encode qid
  | Rreadlink target => encode target
  | Rgetattr valid qid stat => encode valid +++ encode qid +++ encode stat
  | Rxattrwalk size => encode size
  | Rreaddir count data => encode count +++ encode_all encode_entry data
  | Rversion msize version => encode msize +++ encode version
  | Rauth aqid => encode aqid
  | Rattach qid => encode qid
  | Rwalk wqids => Some (le 2 (u16 (Z.of_nat (length wqids)))) +++ encode_all encode wqids
  | Rread data => Some (le 4 (u32 (Z.of_nat (length data)))) +++ Some data
  | Rwrite count => encode count
  | Rsetattr | Rxattrcreate | Rfsync | Rlink | Rrenameat | Runlinkat | Rflush | Rclunk => Some []
  | _ => None
  end.

(** [<(u16, Fcall)>::encode] *)
Definition encode_message (m : U16 * Fcall) : Writer :=
  let? msg_type := reply_type (snd m) in
  Some (le 1 msg_type) +++ encode (fst m) +++ encode_body (snd m).

End P9.
