(* ===== verification/P9Props.v ===== *)
(** The 9P messages round trip: each instance of [Serializable] reads back what it
    writes; the server reads the requests a client writes by the protocol, and a
    client reads the replies the server writes. *)

From Stdlib Require Import ZArith Lia Bool List.
From S2P Require Import Prelude P9.
Import ListNotations.
Local Open Scope Z_scope.
Local Open Scope rust_scope.
Import P9.

(** [b] is read back as [a], whatever follows. *)
Definition reads {A} (r : Reader A) (b : list Z) (a : A) : Prop := forall rest, r (b ++ rest) = Ok a rest.

(** What an implementation of [Serializable] promises. *)
Class SerializableLaws (A : Type) {S : Serializable A} : Type := {
  valid : A -> Prop;
  round_trip a : valid a -> exists b, encode a = Some b /\ reads decode b a;
}.

(** ** Reading *)

Lemma reads_ret {A} (a : A) : reads (ret a) [] a.
Proof. intros rest. reflexivity. Qed.

Lemma reads_bind {A B} (m : Reader A) (k : A -> Reader B) x y a b :
  reads m x a -> reads (k a) y b -> reads (bind m k) (x ++ y) b.
Proof. intros Hm Hk rest. unfold bind. rewrite <- app_assoc, Hm. apply Hk. Qed.

Lemma reads_bind_last {A B} (m : Reader A) (k : A -> Reader B) x a b :
  reads m x a -> reads (k a) [] b -> reads (bind m k) x b.
Proof. intros Hm Hk. rewrite <- (app_nil_r x). eapply reads_bind; eassumption. Qed.

Lemma reads_map {A B} (m : Reader A) (k : A -> B) x a : reads m x a -> reads (bind m (fun a => ret (k a))) x (k a).
Proof. intros Hm. eapply reads_bind_last; [exact Hm|apply reads_ret]. Qed.

Lemma reads_exact l : reads (read_exact (length l)) l l.
Proof.
  intros rest. unfold read_exact. rewrite length_app, (proj2 (Nat.leb_le _ _)) by lia.
  rewrite firstn_app, skipn_app, Nat.sub_diag, firstn_all, skipn_all, app_nil_r. reflexivity.
Qed.

Lemma length_le n v : length (le n v) = n.
Proof. revert v. induction n; intros v; cbn [le length]; auto. Qed.

Lemma of_le_le n : forall v, in_u (8 * Z.of_nat n) v -> of_le (le n v) = v.
Proof.
  induction n as [|n IH]; intros v Hv; cbn [le of_le].
  - unfold in_u in Hv. cbn in Hv. lia.
  - rewrite IH; [unfold u8, wrap; rewrite Z.shiftr_div_pow2 by lia; pose proof (Z.div_mod v (2 ^ 8)); lia|].
    replace (8 * Z.of_nat (S n)) with (8 + 8 * Z.of_nat n) in Hv by lia. unfold in_u in *.
    rewrite Z.pow_add_r in Hv by lia. rewrite Z.shiftr_div_pow2 by lia.
    split; [apply Z.div_pos; lia|apply Z.div_lt_upper_bound; lia].
Qed.

Lemma reads_le n v : in_u (8 * Z.of_nat n) v -> reads (read_le n) (le n v) v.
Proof.
  intros Hv. unfold read_le. rewrite <- (of_le_le n v Hv) at 2. rewrite <- (length_le n v) at 1.
  apply (reads_map _ of_le). apply reads_exact.
Qed.

(** ** The instances keep the promise *)

(** An integer of [n] bytes behind a one-field record. *)
Lemma reads_int {A} n (mk : Z -> A) v : in_u (8 * Z.of_nat n) v ->
  reads (bind (read_le n) (fun v => ret (mk v))) (le n v) (mk v).
Proof. intros Hv. apply reads_map, reads_le, Hv. Qed.

Lemma u8_round_trip v : in_u 8 (u8_val v) -> exists b, encode v = Some b /\ reads decode b v.
Proof. destruct v. intros Hv. eexists. split; [reflexivity|]. apply (reads_int 1 MkU8), Hv. Qed.
Lemma u16_round_trip v : in_u 16 (u16_val v) -> exists b, encode v = Some b /\ reads decode b v.
Proof. destruct v. intros Hv. eexists. split; [reflexivity|]. apply (reads_int 2 MkU16), Hv. Qed.
Lemma u32_round_trip v : in_u 32 (u32_val v) -> exists b, encode v = Some b /\ reads decode b v.
Proof. destruct v. intros Hv. eexists. split; [reflexivity|]. apply (reads_int 4 MkU32), Hv. Qed.
Lemma u64_round_trip v : in_u 64 (u64_val v) -> exists b, encode v = Some b /\ reads decode b v.
Proof. destruct v. intros Hv. eexists. split; [reflexivity|]. apply (reads_int 8 MkU64), Hv. Qed.

#[export] Instance laws_u8 : SerializableLaws U8 := {| valid v := in_u 8 (u8_val v); round_trip := u8_round_trip |}.
#[export] Instance laws_u16 : SerializableLaws U16 := {| valid v := in_u 16 (u16_val v); round_trip := u16_round_trip |}.
#[export] Instance laws_u32 : SerializableLaws U32 := {| valid v := in_u 32 (u32_val v); round_trip := u32_round_trip |}.
#[export] Instance laws_u64 : SerializableLaws U64 := {| valid v := in_u 64 (u64_val v); round_trip := u64_round_trip |}.

Definition str_valid (s : Str) : Prop := is_utf8 (bytes s) = true /\ Z.of_nat (length (bytes s)) < 2 ^ 16.

Lemma str_round_trip s : str_valid s -> exists b, encode s = Some b /\ reads decode b s.
Proof.
  destruct s as [b]. intros [Hu Hl]. cbn [bytes] in *. eexists. split; [reflexivity|]. cbn [decode serializable_str bytes].
  unfold u16. rewrite wrap_id by (unfold in_u; lia).
  eapply reads_bind; [apply reads_le; unfold in_u; cbn; lia|]. rewrite Nat2Z.id.
  eapply reads_bind_last; [apply reads_exact|]. rewrite Hu. apply reads_ret.
Qed.

#[export] Instance laws_str : SerializableLaws Str := {| valid := str_valid; round_trip := str_round_trip |}.

Definition time_valid (t : SystemTime) : Prop := 0 <= secs t < 2 ^ 63 /\ 0 <= nanos t < 10 ^ 9.

Lemma time_round_trip t : time_valid t -> exists b, encode t = Some b /\ reads decode b t.
Proof.
  destruct t as [s n]. intros [Hs Hn]. cbn in Hs, Hn. cbn [encode serializable_time secs nanos].
  rewrite (proj2 (Z.ltb_ge s 0)) by lia. eexists. split; [reflexivity|]. cbn [decode].
  eapply reads_bind; [apply reads_le; unfold in_u; cbn; lia|]. 
  eapply reads_bind_last; [apply reads_le; unfold in_u; cbn; lia|].
  unfold epoch_plus, u32. rewrite wrap_id, Z.div_small, Z.mod_small, Z.add_0_r by (unfold in_u; lia).
  rewrite (proj2 (Z.ltb_lt _ _)) by lia. apply reads_ret.
Qed.

#[export] Instance laws_time : SerializableLaws SystemTime := {| valid := time_valid; round_trip := time_round_trip |}.

(** Writing one value after another. *)
Definition writes (w : Writer) (b : list Z) : Prop := w = Some b.

Lemma writes_cat x y a b : writes x a -> writes y b -> writes (cat x y) (a ++ b).
Proof. unfold writes. intros -> ->. reflexivity. Qed.

(** A value and the bytes it has: [w] writes bytes [r] reads as [a]. *)
Definition wired {A} (w : Writer) (r : Reader A) (a : A) : Prop := exists b, writes w b /\ reads r b a.

Lemma wired_law {A} `{SerializableLaws A} (a : A) : valid a -> wired (encode a) decode a.
Proof. apply round_trip. Qed.

Lemma wired_bind {A B} w w' (r : Reader A) (k : A -> Reader B) a b :
  wired w r a -> wired w' (k a) b -> wired (cat w w') (bind r k) b.
Proof.
  intros (x & Hw & Hr) (y & Hw' & Hk). exists (x ++ y). split; [apply writes_cat; assumption|].
  eapply reads_bind; eassumption.
Qed.

Lemma wired_last {A B} w (r : Reader A) (k : A -> Reader B) a b :
  wired w r a -> k a = ret b -> wired w (bind r k) b.
Proof.
  intros (x & Hw & Hr) Hk. exists x. split; [exact Hw|]. eapply reads_bind_last; [exact Hr|]. rewrite Hk.
  apply reads_ret.
Qed.

Lemma wired_le n v : in_u (8 * Z.of_nat n) v -> wired (Some (le n v)) (read_le n) v.
Proof. intros Hv. exists (le n v). split; [reflexivity|apply reads_le, Hv]. Qed.

Lemma wired_exact n l : n = length l -> wired (Some l) (read_exact n) l.
Proof. intros ->. exists l. split; [reflexivity|apply reads_exact]. Qed.

Create HintDb wire discriminated.
#[export] Hint Resolve wired_law wired_le wired_exact : wire.

(** Match fields one by one; the side conditions are the validity of each, among
    the hypotheses. *)
Ltac wire :=
  repeat first [ eapply wired_bind; [solve [apply wired_law; tauto]|]
               | eapply wired_last; [solve [apply wired_law; tauto]|reflexivity] ].

Definition qid_valid (q : Qid) : Prop := valid (qid_type q) /\ valid (qid_version q) /\ valid (qid_path q).

Lemma qid_round_trip q : qid_valid q -> wired (encode q) decode q.
Proof.
  destruct q. unfold qid_valid. cbn [encode decode serializable_qid qid_type qid_version qid_path]. intros H. wire.
Qed.

#[export] Instance laws_qid : SerializableLaws Qid := {| valid := qid_valid; round_trip := qid_round_trip |}.

Definition stat_valid (s : Stat) : Prop :=
  valid (st_mode s) /\ valid (st_uid s) /\ valid (st_gid s) /\ valid (st_nlink s) /\ valid (st_rdev s) /\
  valid (st_size s) /\ valid (st_blksize s) /\ valid (st_blocks s) /\
  valid (st_atime s) /\ valid (st_mtime s) /\ valid (st_ctime s).

Lemma epoch_valid : valid UNIX_EPOCH.
Proof. cbn. unfold time_valid. cbn. lia. Qed.

Lemma stat_round_trip s : stat_valid s -> wired (encode s) decode s.
Proof.
  destruct s. unfold stat_valid.
  cbn [encode decode serializable_stat st_mode st_uid st_gid st_nlink st_rdev st_size st_blksize st_blocks
    st_atime st_mtime st_ctime].
  intros H. pose proof epoch_valid as He. assert (H0 : valid (MkU64 0)) by (cbn; unfold in_u; lia). wire.
Qed.

#[export] Instance laws_stat : SerializableLaws Stat := {| valid := stat_valid; round_trip := stat_round_trip |}.

Definition setattr_valid (s : SetAttr) : Prop :=
  valid (sa_mode s) /\ valid (sa_uid s) /\ valid (sa_gid s) /\ valid (sa_size s) /\
  valid (sa_atime s) /\ valid (sa_mtime s).

Lemma setattr_round_trip s : setattr_valid s -> wired (encode s) decode s.
Proof.
  destruct s. unfold setattr_valid.
  cbn [encode decode serializable_setattr sa_mode sa_uid sa_gid sa_size sa_atime sa_mtime]. intros H. wire.
Qed.

#[export] Instance laws_setattr : SerializableLaws SetAttr :=
  {| valid := setattr_valid; round_trip := setattr_round_trip |}.

(** ** Sequences *)

Lemma wired_nil {A} (a : A) : wired (Some []) (ret a) a.
Proof. exists []. split; [reflexivity|apply reads_ret]. Qed.

Lemma wired_n {A} `{SerializableLaws A} (l : list A) :
  Forall valid l -> wired (encode_all encode l) (decode_n (length l)) l.
Proof.
  induction 1 as [|a l Ha Hl IH]; cbn [encode_all decode_n length]; [apply wired_nil|].
  eapply wired_bind; [apply wired_law, Ha|]. eapply wired_last; [exact IH|reflexivity].
Qed.

(** A count of [n] bytes before the elements. *)
Lemma wired_count {A} n m (k : Z -> Reader A) w a :
  in_u (8 * Z.of_nat n) m -> wired w (k m) a ->
  wired (cat (Some (le n m)) w) (bind (read_le n) k) a.
Proof. intros Hm Hw. eapply wired_bind; [apply wired_le, Hm|exact Hw]. Qed.

(** ** A client of the protocol *)

Module Client.

(** The message types and bodies of the requests, as the protocol's manual has them. *)
Definition request_type (f : Fcall) : option Z :=
  match f with
  | Tstatfs _ => Some 8 | Tlopen _ _ => Some 12 | Tlcreate _ _ _ _ _ => Some 14 | Tsymlink _ _ _ _ => Some 16
  | Tmknod _ _ _ _ _ _ => Some 18 | Treadlink _ => Some 22 | Tgetattr _ _ => Some 24 | Tsetattr _ _ _ => Some 26
  | Txattrwalk _ _ _ => Some 30 | Txattrcreate _ _ _ _ => Some 32 | Treaddir _ _ _ => Some 40
  | Tfsync _ => Some 50 | Tlink _ _ _ => Some 70 | Tmkdir _ _ _ _ => Some 72 | Trenameat _ _ _ _ => Some 74
  | Tunlinkat _ _ _ => Some 76 | Tversion _ _ => Some 100 | Tauth _ _ _ _ => Some 102
  | Tattach _ _ _ _ _ => Some 104 | Tflush _ => Some 108 | Twalk _ _ _ => Some 110 | Tread _ _ _ => Some 116
  | Twrite _ _ _ => Some 118 | Tclunk _ => Some 120
  | _ => None
  end.

Definition request_body (f : Fcall) : Writer :=
  match f with
  | Tstatfs a | Treadlink a | Tfsync a | Tclunk a => encode a
  | Tlopen a b => encode a +++ encode b
  | Tlcreate a b c d e => encode a +++ encode b +++ encode c +++ encode d +++ encode e
  | Tsymlink a b c d => encode a +++ encode b +++ encode c +++ encode d
  | Tmknod a b c d e f => encode a +++ encode b +++ encode c +++ encode d +++ encode e +++ encode f
  | Tgetattr a b => encode a +++ encode b
  | Tsetattr a b c => encode a +++ encode b +++ encode c
  | Txattrwalk a b c => encode a +++ encode b +++ encode c
  | Txattrcreate a b c d => encode a +++ encode b +++ encode c +++ encode d
  | Treaddir a b c | Tread a b c => encode a +++ encode b +++ encode c
  | Tlink a b c => encode a +++ encode b +++ encode c
  | Tmkdir a b c d => encode a +++ encode b +++ encode c +++ encode d
  | Trenameat a b c d => encode a +++ encode b +++ encode c +++ encode d
  | Tunlinkat a b c => encode a +++ encode b +++ encode c
  | Tversion a b => encode a +++ encode b
  | Tauth a b c d => encode a +++ encode b +++ encode c +++ encode d
  | Tattach a b c d e => encode a +++ encode b +++ encode c +++ encode d +++ encode e
  | Tflush a => encode a
  | Twalk a b l => encode a +++ encode b +++ Some (le 2 (Z.of_nat (length l))) +++ encode_all encode l
  | Twrite a b l => encode a +++ encode b +++ Some (le 4 (Z.of_nat (length l))) +++ Some l
  | _ => None
  end.

Definition request (m : U16 * Fcall) : Writer :=
  let? t := request_type (snd m) in Some (le 1 t) +++ encode (fst m) +++ request_body (snd m).

(** Every field of a request fits the wire. *)
Definition request_valid (f : Fcall) : Prop :=
  match f with
  | Tstatfs a | Treadlink a | Tfsync a | Tclunk a => valid a
  | Tlopen a b => valid a /\ valid b
  | Tlcreate a b c d e => valid a /\ valid b /\ valid c /\ valid d /\ valid e
  | Tsymlink a b c d => valid a /\ valid b /\ valid c /\ valid d
  | Tmknod a b c d e f => valid a /\ valid b /\ valid c /\ valid d /\ valid e /\ valid f
  | Tgetattr a b => valid a /\ valid b
  | Tsetattr a b c => valid a /\ valid b /\ valid c
  | Txattrwalk a b c => valid a /\ valid b /\ valid c
  | Txattrcreate a b c d => valid a /\ valid b /\ valid c /\ valid d
  | Treaddir a b c | Tread a b c => valid a /\ valid b /\ valid c
  | Tlink a b c => valid a /\ valid b /\ valid c
  | Tmkdir a b c d => valid a /\ valid b /\ valid c /\ valid d
  | Trenameat a b c d => valid a /\ valid b /\ valid c /\ valid d
  | Tunlinkat a b c => valid a /\ valid b /\ valid c
  | Tversion a b => valid a /\ valid b
  | Tauth a b c d => valid a /\ valid b /\ valid c /\ valid d
  | Tattach a b c d e => valid a /\ valid b /\ valid c /\ valid d /\ valid e
  | Tflush a => valid a
  | Twalk a b l => valid a /\ valid b /\ Forall valid l /\ Z.of_nat (length l) < 2 ^ 16
  | Twrite a b l => valid a /\ valid b /\ Z.of_nat (length l) < 2 ^ 32
  | _ => False
  end.

(** A time as the protocol writes it: seconds in 64 bits and the nanoseconds of a second. *)
Definition time_on_wire (t : SystemTime) : Prop := in_u 64 (secs t) /\ 0 <= nanos t < 10 ^ 9.

(** What the protocol lets a client write: of the times of a [Tsetattr], which are a
    guest's bytes, only that they fit their 64 bits. *)
Definition request_on_wire (f : Fcall) : Prop :=
  match f with
  | Tsetattr a b c => valid a /\ valid b /\ valid (sa_mode c) /\ valid (sa_uid c) /\ valid (sa_gid c) /\
      valid (sa_size c) /\ time_on_wire (sa_atime c) /\ time_on_wire (sa_mtime c)
  | f => request_valid f
  end.

(** A time that [SystemTime] of the host, of signed seconds, cannot hold. *)
Definition late_time (t : SystemTime) : bool := 2 ^ 63 <=? secs t.

Definition late_request (f : Fcall) : bool :=
  match f with Tsetattr _ _ c => late_time (sa_atime c) || late_time (sa_mtime c) | _ => false end.

(** The replies. *)

Definition client_statfs : Reader StatFs :=
  let* a := decode in let* b := decode in let* c := decode in let* d := decode in let* e := decode in
  let* f := decode in let* g := decode in let* h := decode in let* i := decode in
  ret (MkStatFs a b c d e f g h i).

Definition client_entry : Reader DirEntry :=
  let* a := decode in let* b := decode in let* c := decode in let* d := decode in ret (MkDirEntry a b c d).

(** The entries of a directory listing, to its end; an entry has at least one byte. *)
Fixpoint client_entries (fuel : nat) (l : list Z) : option (list DirEntry) :=
  match l, fuel with
  | [], _ => Some []
  | _, O => None
  | _, S fuel =>
      match client_entry l with
      | Ok d rest => let? ds := client_entries fuel rest in Some (d :: ds)
      | _ => None
      end
  end.

Definition client_reply (msg : Z) : Reader Fcall :=
  if msg =? 7 then let* a := decode in ret (Rlerror a)
  else if msg =? 9 then let* a := client_statfs in ret (Rstatfs a)
  else if msg =? 13 then let* a := decode in let* b := decode in ret (Rlopen a b)
  else if msg =? 15 then let* a := decode in let* b := decode in ret (Rlcreate a b)
  else if msg =? 17 then let* a := decode in ret (Rsymlink a)
  else if msg =? 19 then let* a := decode in ret (Rmknod a)
  else if msg =? 23 then let* a := decode in ret (Rreadlink a)
  else if msg =? 25 then let* a := decode in let* b := decode in let* c := decode in ret (Rgetattr a b c)
  else if msg =? 27 then ret Rsetattr
  else if msg =? 31 then let* a := decode in ret (Rxattrwalk a)
  else if msg =? 33 then ret Rxattrcreate
  else if msg =? 41 then
    let* n := read_le 4 in
    let* b := read_exact (Z.to_nat n) in
    match client_entries (length b) b with Some ds => ret (Rreaddir (MkU32 n) ds) | None => fun _ => Err end
  else if msg =? 51 then ret Rfsync
  else if msg =? 71 then ret Rlink
  else if msg =? 73 then let* a := decode in ret (Rmkdir a)
  else if msg =? 75 then ret Rrenameat
  else if msg =? 77 then ret Runlinkat
  else if msg =? 101 then let* a := decode in let* b := decode in ret (Rversion a b)
  else if msg =? 103 then let* a := decode in ret (Rauth a)
  else if msg =? 105 then let* a := decode in ret (Rattach a)
  else if msg =? 109 then ret Rflush
  else if msg =? 111 then
    let* n := read_le 2 in let* l := decode_n (Z.to_nat n) in ret (Rwalk l)
  else if msg =? 117 then
    let* n := read_le 4 in let* b := read_exact (Z.to_nat n) in ret (Rread b)
  else if msg =? 119 then let* a := decode in ret (Rwrite a)
  else if msg =? 121 then ret Rclunk
  else (fun _ => Err).

Definition reply : Reader (U16 * Fcall) :=
  let* msg := read_le 1 in let* tag := decode in let* body := client_reply msg in ret (tag, body).

Definition statfs_valid (s : StatFs) : Prop :=
  valid (fs_type s) /\ valid (fs_bsize s) /\ valid (fs_blocks s) /\ valid (fs_bfree s) /\ valid (fs_bavail s) /\
  valid (fs_files s) /\ valid (fs_ffree s) /\ valid (fs_fsid s) /\ valid (fs_namelen s).

Definition entry_valid (d : DirEntry) : Prop :=
  valid (de_qid d) /\ valid (de_offset d) /\ valid (de_type d) /\ valid (de_name d).

(** The bytes of an entry: a qid of 13, an offset of 8, a type of 1, a name after its
    length of 2. *)
Definition entry_size (d : DirEntry) : Z := 24 + Z.of_nat (length (bytes (de_name d))).

Definition reply_valid (f : Fcall) : Prop :=
  match f with
  | Rlerror a => valid a
  | Rstatfs s => statfs_valid s
  | Rlopen a b | Rlcreate a b => valid a /\ valid b
  | Rsymlink a | Rmknod a | Rmkdir a | Rauth a | Rattach a => valid a
  | Rreadlink a => valid a
  | Rgetattr a b c => valid a /\ valid b /\ valid c
  | Rxattrwalk a => valid a
  | Rreaddir n l => valid n /\ Forall entry_valid l /\
      u32_val n = fold_right (fun d s => entry_size d + s) 0 l
  | Rversion a b => valid a /\ valid b
  | Rwalk l => Forall valid l /\ Z.of_nat (length l) < 2 ^ 16
  | Rread l => Z.of_nat (length l) < 2 ^ 32
  | Rwrite a => valid a
  | Rsetattr | Rxattrcreate | Rfsync | Rlink | Rrenameat | Runlinkat | Rflush | Rclunk => True
  | _ => False
  end.

End Client.
Import Client.

Lemma request_body_wired f t :
  request_type f = Some t -> request_valid f -> wired (request_body f) (decode_body t) f.
Proof.
  destruct f; cbn [request_type request_valid]; try discriminate; intros [= <-] H;
    unfold decode_body; cbn [Z.eqb Pos.eqb request_body]; wire;
    (apply wired_count; [unfold in_u; cbn; lia|]; rewrite Nat2Z.id;
     eapply wired_last; [|reflexivity]); [apply wired_n; tauto|apply wired_exact; reflexivity].
Qed.

Lemma wired_header {A} (t : Z) (tag : U16) w (r : Z -> Reader A) a :
  in_u 8 t -> valid tag -> wired w (r t) a ->
  wired (cat (Some (le 1 t)) (cat (encode tag) w))
    (bind (read_le 1) (fun t => bind decode (fun tag => bind (r t) (fun a => ret (tag, a))))) (tag, a).
Proof.
  intros Ht Hv Hw. eapply wired_bind; [apply wired_le, Ht|]. eapply wired_bind; [apply wired_law, Hv|].
  eapply wired_last; [exact Hw|reflexivity].
Qed.

Lemma request_wired tag f : valid tag -> request_valid f ->
  wired (request (tag, f)) decode_message (tag, f).
Proof.
  intros Ht Hf. unfold request, decode_message. cbn [fst snd].
  destruct (request_type f) as [t|] eqn:E; [|destruct f; cbn in E; try discriminate; contradiction].
  apply wired_header; [|exact Ht|apply request_body_wired; assumption].
  destruct f; cbn in E; try discriminate; injection E as <-; unfold in_u; lia.
Qed.

(** *** Requests that make the server panic *)

Definition dies {A} (w : Writer) (r : Reader A) : Prop := exists b, writes w b /\ forall rest, r (b ++ rest) = Panic.

Lemma dies_bind {A B} w w' (r : Reader A) (k : A -> Reader B) a :
  wired w r a -> dies w' (k a) -> dies (cat w w') (bind r k).
Proof.
  intros (x & Hw & Hr) (y & Hw' & Hk). exists (x ++ y). split; [apply writes_cat; assumption|].
  intros rest. unfold bind. rewrite <- app_assoc, Hr. apply Hk.
Qed.

Lemma dies_first {A B} w w' b' (r : Reader A) (k : A -> Reader B) :
  dies w r -> writes w' b' -> dies (cat w w') (bind r k).
Proof.
  intros (x & Hw & Hr) Hw'. exists (x ++ b'). split; [apply writes_cat; assumption|].
  intros rest. unfold bind. rewrite <- app_assoc, Hr. reflexivity.
Qed.

Lemma dies_last {A B} w (r : Reader A) (k : A -> Reader B) : dies w r -> dies w (bind r k).
Proof. intros (x & Hw & Hr). exists x. split; [exact Hw|]. intros rest. unfold bind. rewrite Hr. reflexivity. Qed.

Lemma time_written t : time_on_wire t -> exists b, writes (encode t) b.
Proof.
  intros [[Hs _] _]. cbn [encode serializable_time]. rewrite (proj2 (Z.ltb_ge _ _)) by lia. eexists. reflexivity.
Qed.

Lemma time_valid_wire t : time_on_wire t -> late_time t = false -> valid t.
Proof. intros [[Hs _] Hn] Hl. apply Z.leb_gt in Hl. cbn. split; lia. Qed.

Lemma time_dies t : time_on_wire t -> late_time t = true -> dies (encode t) (decode : Reader SystemTime).
Proof.
  destruct t as [s n]. intros [Hs Hn] Hl. apply Z.leb_le in Hl. cbn [secs nanos] in *. cbn [encode decode serializable_time secs nanos].
  rewrite (proj2 (Z.ltb_ge s 0)) by (unfold in_u in Hs; lia).
  eapply dies_bind; [apply wired_le; exact Hs|]. exists (le 8 n). split; [reflexivity|]. intros rest.
  unfold bind. rewrite reads_le by (unfold in_u; cbn; lia).
  unfold epoch_plus, u32. rewrite (wrap_id 32), Z.div_small by (unfold in_u; lia).
  rewrite (proj2 (Z.ltb_ge _ _)) by lia. reflexivity.
Qed.

Lemma late_setattr_dies c : valid (sa_mode c) -> valid (sa_uid c) -> valid (sa_gid c) -> valid (sa_size c) ->
  time_on_wire (sa_atime c) -> time_on_wire (sa_mtime c) -> late_time (sa_atime c) || late_time (sa_mtime c) = true ->
  dies (encode c) (decode : Reader SetAttr).
Proof.
  destruct c. cbn [encode decode serializable_setattr sa_mode sa_uid sa_gid sa_size sa_atime sa_mtime]. intros H1 H2 H3 H4 Ha Hm Hl.
  do 4 (eapply dies_bind; [apply wired_law; assumption|]). destruct (late_time sa_atime0) eqn:Ea.
  - destruct (time_written _ Hm) as [b Hb]. eapply dies_first; [apply time_dies; assumption|exact Hb].
  - cbn [orb] in Hl. eapply dies_bind; [apply wired_law, time_valid_wire; assumption|].
    apply dies_last, time_dies; assumption.
Qed.

Lemma late_request_dies tag f : valid tag -> request_on_wire f -> late_request f = true ->
  dies (request (tag, f)) decode_message.
Proof.
  intros Ht Hf Hl. destruct f; try discriminate Hl. destruct Hf as (Ha & Hb & H1 & H2 & H3 & H4 & H5 & H6).
  unfold request, decode_message. cbn [fst snd request_type request_body].
  eapply dies_bind; [apply wired_le; unfold in_u; cbn; lia|]. eapply dies_bind; [apply wired_law, Ht|].
  apply dies_last. unfold decode_body. cbn [Z.eqb Pos.eqb].
  do 2 (eapply dies_bind; [apply wired_law; assumption|]). apply dies_last, late_setattr_dies; assumption.
Qed.

Lemma on_wire_valid f : request_on_wire f -> late_request f = false -> request_valid f.
Proof.
  destruct f; cbn [request_on_wire late_request request_valid]; try tauto.
  intros (Ha & Hb & H1 & H2 & H3 & H4 & H5 & H6) Hl. apply orb_false_iff in Hl as [L1 L2].
  split; [exact Ha|]. split; [exact Hb|]. unfold valid, laws_setattr, setattr_valid. auto 10 using time_valid_wire.
Qed.



Lemma statfs_wired s : statfs_valid s -> wired (encode s) client_statfs s.
Proof.
  destruct s. unfold statfs_valid, client_statfs.
  cbn [encode serializable_statfs fs_type fs_bsize fs_blocks fs_bfree fs_bavail fs_files fs_ffree fs_fsid fs_namelen].
  intros H. wire.
Qed.

Lemma entry_wired d : entry_valid d -> wired (encode_entry d) client_entry d.
Proof.
  destruct d. unfold entry_valid, client_entry, encode_entry. cbn [de_qid de_offset de_type de_name]. intros H. wire.
Qed.

Lemma entry_length d b : encode_entry d = Some b -> Z.of_nat (length b) = entry_size d.
Proof.
  destruct d as [[] ? ? [s]]. unfold encode_entry, entry_size.
  cbn [encode serializable_qid serializable_u8 serializable_u32 serializable_u64 serializable_str
    de_qid de_offset de_type de_name qid_type qid_version qid_path bytes cat].
  intros H. apply (f_equal (option_map (@length Z))) in H. cbn [option_map] in H.
  rewrite !length_app, !length_le in H. injection H as <-. lia.
Qed.

(** A listing is read to its end. *)
Lemma entries_wired l : Forall entry_valid l ->
  exists b, encode_all encode_entry l = Some b /\
    Z.of_nat (length b) = fold_right (fun d s => entry_size d + s) 0 l /\
    forall fuel, (length b <= fuel)%nat -> client_entries fuel b = Some l.
Proof.
  induction 1 as [|d l Hd Hl (b & Hb & Hs & IH)].
  - exists []. repeat split. intros [|fuel] _; reflexivity.
  - destruct (entry_wired d Hd) as (x & Hx & Hr). unfold writes in Hx. pose proof (entry_length _ _ Hx) as Hn.
    exists (x ++ b). cbn [encode_all fold_right]. rewrite Hx, Hb. cbn [cat]. split; [reflexivity|].
    rewrite length_app, Nat2Z.inj_add, Hn, Hs. split; [reflexivity|]. intros fuel Hf.
    unfold entry_size in Hn. destruct x as [|c x]; [cbn [length] in Hn; lia|]. destruct fuel as [|fuel]; [cbn [length] in Hf; lia|].
    cbn [app client_entries]. change (c :: x ++ b) with ((c :: x) ++ b). rewrite Hr.
    rewrite IH by (cbn [length] in Hf; lia). reflexivity.
Qed.

Lemma readdir_wired n l : reply_valid (Rreaddir n l) ->
  wired (encode_body (Rreaddir n l)) (client_reply 41) (Rreaddir n l).
Proof.
  destruct n as [n]. intros (Hn & Hl & Hs). change (in_u 32 n) in Hn. cbn [u32_val] in Hs. destruct (entries_wired l Hl) as (b & Hb & Hlen & He).
  cbn [encode_body]. rewrite Hb. unfold client_reply. cbn [Z.eqb Pos.eqb].
  eapply wired_bind; [apply wired_le, Hn|]. cbn [u32_val].
  eapply wired_last; [apply wired_exact; lia|]. rewrite He by reflexivity. reflexivity.
Qed.

Lemma reply_body_wired f t :
  reply_type f = Some t -> reply_valid f -> wired (encode_body f) (client_reply t) f.
Proof.
  destruct f; cbn [reply_type]; try discriminate; intros [= <-];
    try apply readdir_wired; cbn [reply_valid]; intros H;
    unfold client_reply; cbn [Z.eqb Pos.eqb encode_body]; wire;
    try apply wired_nil; try (eapply wired_last; [apply statfs_wired, H|reflexivity]).
  - unfold u16. rewrite wrap_id by (unfold in_u; lia).
    apply wired_count; [unfold in_u; cbn; lia|]. rewrite Nat2Z.id.
    eapply wired_last; [apply wired_n; tauto|reflexivity].
  - unfold u32. rewrite wrap_id by (unfold in_u; lia).
    apply wired_count; [unfold in_u; cbn; lia|]. rewrite Nat2Z.id.
    eapply wired_last; [apply wired_exact; reflexivity|reflexivity].
Qed.

Lemma reply_wired tag f : valid tag -> reply_valid f ->
  wired (encode_message (tag, f)) reply (tag, f).
Proof.
  intros Ht Hf. unfold encode_message, reply. cbn [fst snd].
  destruct (reply_type f) as [t|] eqn:E; [|destruct f; cbn in E; try discriminate; contradiction].
  apply wired_header; [|exact Ht|apply reply_body_wired; assumption].
  destruct f; cbn in E; try discriminate; injection E as <-; unfold in_u; lia.
Qed.

(** A client reads every reply the server writes: for every reply whose fields fit
    the wire (strings below 64 KiB, a directory listing whose count is its size in
    bytes), [<(u16, Fcall)>::encode] does not panic, and a client that follows the
    protocol reads back the same tag and the same reply, exactly to its end. *)
Theorem reply_round_trip tag f : valid tag -> reply_valid f ->
  exists b, encode_message (tag, f) = Some b /\ forall rest, reply (b ++ rest) = Ok (tag, f) rest.
Proof. apply reply_wired. Qed.

Lemma reply_round_trip_witness :
  let d := MkDirEntry (MkQid (MkU8 0x80) (MkU32 1) (MkU64 42)) (MkU64 1) (MkU8 4) (MkStr [0x61; 0x62]) in
  exists b, encode_message (MkU16 7, Rreaddir (MkU32 52) [d; d]) = Some b /\
    forall rest, reply (b ++ rest) = Ok (MkU16 7, Rreaddir (MkU32 52) [d; d]) rest.
Proof.
  intros d. apply reply_round_trip; [cbn; unfold in_u; lia|].
  cbn; unfold in_u; repeat split; try lia;
    repeat constructor; cbn; unfold in_u; lia.
Defined.

(** A time at or after [2^63] seconds makes the server panic: the attributes of a
    [Tsetattr] are a guest's bytes. *)
Theorem setattr_time_panics :
  decode_message ([26; 7; 0] ++ le 4 1 ++ le 4 0x10 ++ le 4 0 ++ le 4 0 ++ le 4 0 ++ le 8 0 ++
    le 8 (2 ^ 63) ++ le 8 0 ++ le 8 0 ++ le 8 0) = Panic.
Proof. reflexivity. Qed.

(** A string of [2^16] bytes is written with length 0: what follows it is read as the
    next field. *)
Theorem long_string_truncated s rest : length (bytes s) = (2 ^ 16)%nat ->
  exists b, encode s = Some b /\ decode (b ++ rest) = Ok (MkStr []) (bytes s ++ rest).
Proof.
  intros Hs. eexists. split; [reflexivity|]. rewrite Hs. destruct s as [b]. reflexivity.
Qed.
