(* ===== verification/P9Handler.v ===== *)
(** The 9P server of lib/p9/src/lib.rs: the traits [Inode] and [FileSystem] as a class,
    the table of fids, and one definition per request of [handle_fcall_internal]; and the
    implementation of the traits on the files of the host, of lib/p9/src/passthrough.rs. *)

From Stdlib Require Import ZArith Lia Bool List.
From stdpp Require Import base gmap.
From S2P Require Import Prelude P9.
Import ListNotations.
Local Open Scope Z_scope.
Local Open Scope rust_scope.
Import P9.

Module P9Handler.

(** [io::Result]: an error has a system error number or not.  [Crash] is a method that
    panics instead of returning. *)
Inductive Result (A : Type) : Type := Val (a : A) | Fail (errno : option Z) | Crash.
Arguments Val {A} _.
Arguments Fail {A} _.
Arguments Crash {A}.

(** The traits [Inode] and [FileSystem]: every method may change the file system and
    the file it gets, and may panic. *)
Class FileSystem (FS File : Type) : Type := {
  clone : File -> File;
  qid : File -> File * Qid;
  mode : File -> File * Z;
  statfs : FS -> File -> FS * File * Result StatFs;
  attach : FS -> FS * Result File;
  readlink : FS -> File -> FS * File * Result Str;
  getattr : FS -> File -> FS * File * Result Stat;
  walk : FS -> File -> Str -> FS * File * Result File;
  open : FS -> File -> Z -> FS * File * Result unit;
  create : FS -> File -> Str -> Z -> U32 -> U32 -> FS * File * Result File;
  symlink : FS -> File -> Str -> Str -> U32 -> FS * File * Result File;
  readdir : FS -> File -> Z -> FS * File * Result (option (Str * File));
  mkdir : FS -> File -> Str -> U32 -> U32 -> FS * File * Result File;
  renameat : FS -> File -> Str -> File -> Str -> FS * File * Result unit;
  unlinkat : FS -> File -> Str -> FS * File * Result unit;
  (** the buffer after the call and the number of bytes read; the buffer has the size given *)
  read : FS -> File -> U64 -> Z -> FS * File * list Z * Result Z;
  write : FS -> File -> U64 -> list Z -> FS * File * Result Z;
  fsync : FS -> File -> FS * File * Result unit;
  setattr : FS -> File -> U32 -> SetAttr -> FS * File * Result unit;
}.

Section Handler.
Context {FS File : Type} `{FileSystem FS File}.

(** [struct P9Handler] *)
Record State : Type := MkState { fs : FS; iounit : Z; fids : gmap Z File }.

Definition new (f : FS) : State := MkState f 0 ∅.

Definition O_LARGEFILE : Z := 0x8000.
Definition ENOTSUP : Z := 95.

(** What a request leads to: a reply, an error, or a panic; the state is kept in all
    but the last. *)
Inductive Outcome : Type :=
| Reply (s : State) (f : Fcall)
| Error (s : State) (errno : option Z)
| Panic.

Definition set_fs (s : State) (f : FS) : State := MkState f (iounit s) (fids s).
Definition set_fid (s : State) (fid : U32) (file : File) : State :=
  MkState (fs s) (iounit s) (<[u32_val fid := file]> (fids s)).

(** [self.fids.get_mut(&fid).unwrap()]: the continuation gets the file. *)
Definition with_fid (s : State) (fid : U32) (k : File -> Outcome) : Outcome :=
  match fids s !! u32_val fid with Some file => k file | None => Panic end.

(** [?] after a method that was given the file of [fid]. *)
Definition call {A} (s : State) (fid : U32) (r : FS * File * Result A)
    (k : State -> File -> A -> Outcome) : Outcome :=
  let '(f, file, res) := r in
  let s := set_fid (set_fs s f) fid file in
  match res with Val a => k s file a | Fail e => Error s e | Crash => Panic end.

Definition handle_open (s : State) (fid flags : U32) : Outcome :=
  with_fid s fid (fun file =>
    call s fid (open (fs s) file (u32_val flags .& wrap 32 (Z.lnot O_LARGEFILE))) (fun s file _ =>
      let '(file, q) := qid file in
      Reply (set_fid s fid file) (Rlopen q (MkU32 (iounit s))))).

Definition handle_create (s : State) (fid : U32) (name : Str) (flags mode gid : U32) : Outcome :=
  with_fid s fid (fun file =>
    call s fid (create (fs s) file name (u32_val flags .& wrap 32 (Z.lnot O_LARGEFILE)) mode gid) (fun s _ newfile =>
      let '(file, q) := qid newfile in
      Reply (set_fid s fid file) (Rlcreate q (MkU32 (iounit s))))).

Definition handle_symlink (s : State) (fid : U32) (name symtgt : Str) (gid : U32) : Outcome :=
  with_fid s fid (fun file =>
    call s fid (symlink (fs s) file name symtgt gid) (fun s _ newfile => Reply s (Rsymlink (snd (qid newfile))))).

Definition handle_getattr (s : State) (fid : U32) (request_mask : U64) : Outcome :=
  with_fid s fid (fun file =>
    call s fid (getattr (fs s) file) (fun s file stat =>
      let '(file, q) := qid file in
      Reply (set_fid s fid file) (Rgetattr request_mask q stat))).

(** The loop of [Treaddir].  Every entry takes at least 24 bytes of [count]. *)
Fixpoint readdir_loop (fuel : nat) (s : State) (fid : U32) (file : File) (offset cur_len count : Z)
    (vec : list DirEntry) : option Outcome :=
  match fuel with
  | O => None
  | S fuel =>
      let '(f, file, res) := readdir (fs s) file offset in
      let s := set_fid (set_fs s f) fid file in
      match res with
      | Crash => Some Panic
      | Fail e => Some (Error s e)
      | Val None => Some (Reply s (Rreaddir (MkU32 (u32 cur_len)) vec))
      | Val (Some (name, child)) =>
          let len := Z.of_nat (length (bytes name)) in
          if cur_len + len + 24 >? count then Some (Reply s (Rreaddir (MkU32 (u32 cur_len)) vec))
          else
            let '(child, q) := qid child in
            let '(child, m) := mode child in
            readdir_loop fuel s fid file (wrap 64 (offset + 1)) (cur_len + len + 24) count
              (vec ++ [MkDirEntry q (MkU64 offset) (MkU8 (u8 (m >> 12))) name])
      end
  end.

Definition handle_readdir (s : State) (fid : U32) (offset : U64) (count : U32) : option Outcome :=
  let offset := if u64_val offset =? 0 then 0 else wrap 64 (u64_val offset + 1) in
  match fids s !! u32_val fid with
  | Some file => readdir_loop (S (Z.to_nat (u32_val count / 24))) s fid file offset 0 (u32_val count) []
  | None => Some Panic
  end.

(** The loop of [Twalk]: the file walked is a clone, the table is not changed. *)
Fixpoint walk_loop (f : FS) (file : File) (wnames : list Str) (qids : list Qid) :
    FS * Result (File * list Qid) :=
  match wnames with
  | [] => (f, Val (file, qids))
  | name :: wnames =>
      match walk f file name with
      | (f, _, Crash) => (f, Crash)
      | (f, _, Fail e) => (f, Fail e)
      | (f, _, Val file) => let '(file, q) := qid file in walk_loop f file wnames (qids ++ [q])
      end
  end.

Definition handle_walk (s : State) (fid newfid : U32) (wnames : list Str) : Outcome :=
  with_fid s fid (fun file =>
    match walk_loop (fs s) (clone file) wnames [] with
    | (_, Crash) => Panic
    | (f, Fail e) => Error (set_fs s f) e
    | (f, Val (file, qids)) => Reply (set_fid (set_fs s f) newfid file) (Rwalk qids)
    end).

Definition handle_rename (s : State) (olddirfid : U32) (oldname : Str) (newdirfid : U32) (newname : Str) : Outcome :=
  with_fid s olddirfid (fun olddir =>
  with_fid s newdirfid (fun newdir =>
    call s newdirfid (renameat (fs s) (clone olddir) oldname newdir newname) (fun s _ _ => Reply s Rrenameat))).

Definition handle_attach (s : State) (fid : U32) : Outcome :=
  match attach (fs s) with
  | (_, Crash) => Panic
  | (f, Fail e) => Error (set_fs s f) e
  | (f, Val file) => let '(file, q) := qid file in Reply (set_fid (set_fs s f) fid file) (Rattach q)
  end.

Definition handle_read (s : State) (fid : U32) (offset : U64) (count : U32) : Outcome :=
  with_fid s fid (fun file =>
    let '(f, file, buf, res) := read (fs s) file offset (u32_val count) in
    call s fid (f, file, res) (fun s _ len => Reply s (Rread (firstn (Z.to_nat len) buf)))).

(** ["9P2000.L"] *)
Definition VERSION : Str := MkStr [0x39; 0x50; 0x32; 0x30; 0x30; 0x30; 0x2E; 0x4C].

Definition handle_version (s : State) (msize : U32) : Outcome :=
  Reply (MkState (fs s) (wrap 32 (u32_val msize - 24)) (fids s)) (Rversion msize VERSION).

Definition handle_clunk (s : State) (fid : U32) : Outcome :=
  Reply (MkState (fs s) (iounit s) (delete (u32_val fid) (fids s))) Rclunk.

(** [handle_fcall_internal]; [None] is a loop out of fuel. *)
Definition handle_fcall_internal (s : State) (fcall : Fcall) : option Outcome :=
  match fcall with
  | Tlopen fid flags => Some (handle_open s fid flags)
  | Tlcreate fid name flags mode gid => Some (handle_create s fid name flags mode gid)
  | Tsymlink fid name symtgt gid => Some (handle_symlink s fid name symtgt gid)
  | Tstatfs fid => Some (with_fid s fid (fun file =>
      call s fid (statfs (fs s) file) (fun s _ stat => Reply s (Rstatfs stat))))
  | Treadlink fid => Some (with_fid s fid (fun file =>
      call s fid (readlink (fs s) file) (fun s _ target => Reply s (Rreadlink target))))
  | Tgetattr fid request_mask => Some (handle_getattr s fid request_mask)
  | Tsetattr fid valid attr => Some (with_fid s fid (fun file =>
      call s fid (setattr (fs s) file valid attr) (fun s _ _ => Reply s Rsetattr)))
  | Txattrwalk _ _ _ | Txattrcreate _ _ _ _ => Some (Error s (Some ENOTSUP))
  | Treaddir fid offset count => handle_readdir s fid offset count
  | Tmkdir dfid name mode gid => Some (with_fid s dfid (fun dir =>
      call s dfid (mkdir (fs s) dir name mode gid) (fun s _ file => Reply s (Rmkdir (snd (qid file))))))
  | Trenameat olddirfid oldname newdirfid newname => Some (handle_rename s olddirfid oldname newdirfid newname)
  | Tunlinkat dirfd name _ => Some (with_fid s dirfd (fun dir =>
      call s dirfd (unlinkat (fs s) dir name) (fun s _ _ => Reply s Runlinkat)))
  | Tversion msize _ => Some (handle_version s msize)
  | Tattach fid _ _ _ _ => Some (handle_attach s fid)
  | Tflush _ => Some (Reply s Rflush)
  | Twalk fid newfid wnames => Some (handle_walk s fid newfid wnames)
  | Tread fid offset count => Some (handle_read s fid offset count)
  | Twrite fid offset data => Some (with_fid s fid (fun file =>
      call s fid (write (fs s) file offset data) (fun s _ len => Reply s (Rwrite (MkU32 (u32 len))))))
  | Tfsync fid => Some (with_fid s fid (fun file =>
      call s fid (fsync (fs s) file) (fun s _ _ => Reply s Rfsync)))
  | Tclunk fid => Some (handle_clunk s fid)
  | _ => Some (Reply s (Rlerror (MkU32 ENOTSUP)))
  end.

(** [handle_fcall]: an error becomes a reply; [None] is a panic. *)
Definition finish (o : Outcome) : option (State * Fcall) :=
  match o with
  | Reply s f => Some (s, f)
  | Error s e => Some (s, Rlerror (MkU32 (u32 (match e with Some e => e | None => ENOTSUP end))))
  | Panic => None
  end.

Definition handle_fcall (s : State) (fcall : Fcall) : option (State * Fcall) :=
  let? o := handle_fcall_internal s fcall in finish o.

(** One round of the device's task (lib/io/src/hw/virtio/p9.rs): a request is read after
    its length, and the reply is written after its own.  [capacity] is the size of the
    guest's buffer for the reply; [None] is a failed [unwrap]. *)
Definition serve (capacity : nat) (s : State) (buffer : list Z) : option (State * list Z) :=
  match decode_message (skipn 4 buffer) with
  | Ok (tag, fcall) _ =>
      let? (s, resp) := handle_fcall s fcall in
      let? body := encode_message (tag, resp) in
      let size := (4 + length body)%nat in
      if (size <=? capacity)%nat then Some (s, le 4 (u32 (Z.of_nat size)) ++ body) else None
  | _ => None
  end.

End Handler.

(** ** The files of the host

    What [std::fs] and [libc] do is a parameter: the state [W] of the host's files, paths,
    metadata, open files and directory streams. *)

Record OpenOptions : Type := MkOptions {
  o_read : bool; o_write : bool; o_create : bool; o_truncate : bool; o_append : bool; o_mode : option U32;
}.

(** The result of a call on the host, which does not panic: a value or an error. *)
Definition IoResult (A : Type) : Type := (A + option Z)%type.

Class Host (W Path Meta Fd Dir : Type) : Type := {
  join : Path -> Str -> Path;
  parent : Path -> option Path;
  has_nul : Path -> bool;
  is_dir : Meta -> bool;
  is_file : Meta -> bool;
  ino : Meta -> U64;
  meta_mode : Meta -> U32;
  meta_stat : Meta -> SystemTime -> SystemTime -> SystemTime -> Stat;
  accessed : Meta -> IoResult SystemTime;
  modified : Meta -> IoResult SystemTime;
  created : Meta -> IoResult SystemTime;
  now : W -> SystemTime;
  statvfs : W -> Path -> IoResult StatFs;
  symlink_metadata : W -> Path -> IoResult Meta;
  read_link : W -> Path -> IoResult (list Z);
  read_dir : W -> Path -> IoResult Dir;
  (** the next entry: its name, its path and its metadata *)
  next_entry : W -> Dir -> Dir * option (IoResult (list Z * Path * IoResult Meta));
  open_file : W -> Path -> OpenOptions -> W * IoResult Fd;
  fd_metadata : W -> Fd -> IoResult Meta;
  make_symlink : W -> Str -> Path -> W * IoResult unit;
  create_dir : W -> Path -> W * IoResult unit;
  rename : W -> Path -> Path -> W * IoResult unit;
  remove_dir : W -> Path -> W * IoResult unit;
  remove_file : W -> Path -> W * IoResult unit;
  seek : W -> Fd -> U64 -> Fd * IoResult unit;
  (** at most the given number of bytes *)
  read_fd : W -> Fd -> Z -> Fd * IoResult (list Z);
  write_fd : W -> Fd -> list Z -> W * Fd * IoResult Z;
  sync_data : W -> Fd -> W * IoResult unit;
  set_permissions : W -> Path -> U32 -> W * IoResult unit;
  set_len : W -> Fd -> U64 -> W * IoResult unit;
  utimes : W -> Path -> SystemTime -> SystemTime -> W * IoResult unit;
}.

Section Passthrough.
Context {W Path Meta Fd Dir : Type} {HH : Host W Path Meta Fd Dir}.

Record File : Type := MkFile { path : Path; meta : Meta; fd : option Fd; dir : option (Dir * Z) }.

Definition set_dir (f : File) (d : Dir * Z) : File := MkFile (path f) (meta f) (fd f) (Some d).
Definition set_fd (f : File) (d : Fd) : File := MkFile (path f) (meta f) (Some d) (dir f).

Record Passthrough : Type := MkPassthrough { root : Path; world : W }.
Definition set_world (p : Passthrough) (w : W) : Passthrough := MkPassthrough (root p) w.

Definition io {A} (r : IoResult A) : Result A := match r with inl a => Val a | inr e => Fail e end.
Definition iow {A} (r : W * IoResult A) : W * Result A := (fst r, io (snd r)).

Definition bindr {A B} (r : Result A) (k : A -> Result B) : Result B :=
  match r with Val a => k a | Fail e => Fail e | Crash => Crash end.

(** [?] between effects *)
Definition bindw {A B} (r : W * Result A) (k : W -> A -> W * Result B) : W * Result B :=
  match r with (w, Val a) => k w a | (w, Fail e) => (w, Fail e) | (w, Crash) => (w, Crash) end.

Definition P9_QTDIR : Z := 0x80.
Definition P9_QTSYMLINK : Z := 0x02.
Definition P9_QTFILE : Z := 0x00.

(** [File::qid]; no file of the host is both a directory and a regular file. *)
Definition file_qid (f : File) : Qid :=
  MkQid (MkU8 (if is_dir (meta f) then P9_QTDIR else if is_file (meta f) then P9_QTFILE else P9_QTSYMLINK))
    (MkU32 0) (ino (meta f)).

Definition set_mode (mode : option U32) (flags : Z) : OpenOptions :=
  let wr := (flags .& 1) <>? 0 in
  MkOptions (negb wr) (wr || ((flags .& 2) <>? 0)) ((flags .& 0x40) <>? 0) ((flags .& 0x200) <>? 0)
    ((flags .& 0x400) <>? 0) mode.

(** A file known by its path only *)
Definition file_at (w : W) (p : Path) : Result File :=
  bindr (io (symlink_metadata w p)) (fun m => Val (MkFile p m None None)).

Definition unwrap_or {A} (r : IoResult A) (d : A) : A := match r with inl a => a | inr _ => d end.

Definition pt_getattr (f : File) : Stat :=
  meta_stat (meta f) (unwrap_or (accessed (meta f)) UNIX_EPOCH) (unwrap_or (modified (meta f)) UNIX_EPOCH)
    (unwrap_or (created (meta f)) UNIX_EPOCH).

Definition pt_statfs (w : W) (f : File) : Result StatFs := if has_nul (path f) then Crash else io (statvfs w (path f)).

Definition pt_readlink (w : W) (f : File) : Result Str :=
  bindr (io (read_link w (path f))) (fun b => if is_utf8 b then Val (MkStr b) else Crash).

Definition pt_open (w : W) (f : File) (flags : Z) : W * File * Result unit :=
  if is_dir (meta f) then
    match read_dir w (path f) with
    | inl d => (w, set_dir f (d, 0), Val tt)
    | inr e => (w, f, Fail e)
    end
  else
    match open_file w (path f) (set_mode None flags) with
    | (w, inl d) => (w, set_fd f d, Val tt)
    | (w, inr e) => (w, f, Fail e)
    end.

Definition pt_create (w : W) (f : File) (name : Str) (flags : Z) (mode : U32) : W * Result File :=
  let p := join (path f) name in
  bindw (iow (open_file w p (set_mode (Some mode) flags))) (fun w d =>
    (w, bindr (io (fd_metadata w d)) (fun m => Val (MkFile p m (Some d) None)))).

Definition pt_symlink (w : W) (f : File) (name symtgt : Str) : W * Result File :=
  let p := join (path f) name in
  bindw (iow (make_symlink w symtgt p)) (fun w _ => (w, file_at w p)).

Definition pt_mkdir (w : W) (f : File) (name : Str) : W * Result File :=
  let p := join (path f) name in
  bindw (iow (create_dir w p)) (fun w _ => (w, file_at w p)).

Definition pt_unlinkat (w : W) (f : File) (name : Str) : W * Result unit :=
  let p := join (path f) name in
  match symlink_metadata w p with
  | inl m => iow (if is_dir m then remove_dir w p else remove_file w p)
  | inr e => (w, Fail e)
  end.

(** [while offset > dir.1 { dir.0.next(); dir.1 += 1 }] *)
Definition skip_entries (w : W) (n : nat) (d : Dir) : Dir := Nat.iter n (fun d => fst (next_entry w d)) d.

(** [readdir] behind the entries for the directory and its parent *)
Definition pt_next (w : W) (f : File) (d : Dir) (pos offset : Z) : File * Result (option (Str * File)) :=
  let '(d, entry) := next_entry w (skip_entries w (Z.to_nat (offset - pos)) d) in
  (set_dir f (d, offset + 1),
   match entry with
   | None => Val None
   | Some entry =>
       bindr (io entry) (fun '(name, p, m) =>
         if is_utf8 name then bindr (io m) (fun m => Val (Some (MkStr name, MkFile p m None None))) else Crash)
   end).

Definition pt_readdir (w : W) (f : File) (offset : Z) : File * Result (option (Str * File)) :=
  if offset =? 0 then (f, Val (Some (MkStr [0x2E], MkFile (path f) (meta f) None None)))
  else if offset =? 1 then
    let p := match parent (path f) with Some p => p | None => path f end in
    (f, bindr (file_at w p) (fun c => Val (Some (MkStr [0x2E; 0x2E], c))))
  else
    let offset := offset - 2 in
    match dir f with
    | None => (f, Crash)
    | Some (d, pos) =>
        if offset <? pos then
          match read_dir w (path f) with
          | inl d => pt_next w f d 0 offset
          | inr e => (f, Fail e)
          end
        else pt_next w f d pos offset
    end.

(** [file.fd.as_mut().unwrap()] *)
Definition with_fd {A} (f : File) (none : A) (k : Fd -> A) : A := match fd f with Some d => k d | None => none end.

Definition pt_read (w : W) (f : File) (offset : U64) (n : Z) : File * list Z * Result Z :=
  let blank := repeat 0 (Z.to_nat n) in
  with_fd f (f, blank, Crash) (fun d =>
    match seek w d offset with
    | (d, inl _) =>
        match read_fd w d n with
        | (d, inl b) => (set_fd f d, firstn (Z.to_nat n) (b ++ blank), Val (Z.of_nat (length b)))
        | (d, inr e) => (set_fd f d, blank, Fail e)
        end
    | (d, inr e) => (set_fd f d, blank, Fail e)
    end).

Definition pt_write (w : W) (f : File) (offset : U64) (data : list Z) : W * File * Result Z :=
  with_fd f (w, f, Crash) (fun d =>
    match seek w d offset with
    | (d, inl _) => let '(w, d, r) := write_fd w d data in (w, set_fd f d, io r)
    | (d, inr e) => (w, set_fd f d, Fail e)
    end).

Definition pt_fsync (w : W) (f : File) : W * Result unit := with_fd f (w, Crash) (fun d => iow (sync_data w d)).

(** [duration_since(UNIX_EPOCH).unwrap()] *)
Definition since_epoch (t : IoResult SystemTime) : Result SystemTime :=
  bindr (io t) (fun t => if secs t <? 0 then Crash else Val t).

Definition has_bit (valid : U32) (mask : Z) : bool := (u32_val valid .& mask) <>? 0.

Definition setattr_mode (w : W) (f : File) (valid : U32) (stat : SetAttr) : W * Result unit :=
  if has_bit valid 0x1 then iow (set_permissions w (path f) (sa_mode stat)) else (w, Val tt).

Definition setattr_size (w : W) (f : File) (valid : U32) (stat : SetAttr) : W * Result unit :=
  if has_bit valid 0x8 then
    bindw (iow (open_file w (path f) (MkOptions false true false false false None))) (fun w d => iow (set_len w d (sa_size stat)))
  else (w, Val tt).

Definition setattr_times (w : W) (f : File) (valid : U32) (stat : SetAttr) : W * Result unit :=
  if has_bit valid 0x30 then
    let atime := since_epoch (if has_bit valid 0x80 then inl (sa_atime stat)
                              else if has_bit valid 0x10 then inl (now w) else accessed (meta f)) in
    let mtime := since_epoch (if has_bit valid 0x100 then inl (sa_mtime stat)
                              else if has_bit valid 0x20 then inl (now w) else modified (meta f)) in
    bindw (w, atime) (fun w a => bindw (w, mtime) (fun w m =>
      if has_nul (path f) then (w, Crash) else iow (utimes w (path f) a m)))
  else (w, Val tt).

Definition pt_setattr (w : W) (f : File) (valid : U32) (stat : SetAttr) : W * File * Result unit :=
  match bindw (setattr_mode w f valid stat) (fun w _ =>
        bindw (setattr_size w f valid stat) (fun w _ =>
        bindw (setattr_times w f valid stat) (fun w _ => (w, io (symlink_metadata w (path f)))))) with
  | (w, Val m) => (w, MkFile (path f) m (fd f) (dir f), Val tt)
  | (w, Fail e) => (w, f, Fail e)
  | (w, Crash) => (w, f, Crash)
  end.

(** A method that changes the host, or the file, or both *)
Definition on_world {A} (p : Passthrough) (f : File) (r : W * Result A) : Passthrough * File * Result A :=
  (set_world p (fst r), f, snd r).
Definition on_file {A} (p : Passthrough) (r : File * Result A) : Passthrough * File * Result A := (p, fst r, snd r).
Definition on_both {A} (p : Passthrough) (r : W * File * Result A) : Passthrough * File * Result A :=
  let '(w, f, a) := r in (set_world p w, f, a).

#[export] Instance passthrough : FileSystem Passthrough File := {|
  clone f := MkFile (path f) (meta f) None None;
  qid f := (f, file_qid f);
  mode f := (f, u32_val (meta_mode (meta f)));
  statfs p f := (p, f, pt_statfs (world p) f);
  attach p := (p, file_at (world p) (root p));
  readlink p f := (p, f, pt_readlink (world p) f);
  getattr p f := (p, f, Val (pt_getattr f));
  walk p f name := (p, f, file_at (world p) (join (path f) name));
  open p f flags := on_both p (pt_open (world p) f flags);
  create p f name flags mode _ := on_world p f (pt_create (world p) f name flags mode);
  symlink p f name symtgt _ := on_world p f (pt_symlink (world p) f name symtgt);
  readdir p f offset := on_file p (pt_readdir (world p) f offset);
  mkdir p f name _ _ := on_world p f (pt_mkdir (world p) f name);
  renameat p olddir oldname newdir newname :=
    on_world p newdir (iow (rename (world p) (join (path olddir) oldname) (join (path newdir) newname)));
  unlinkat p f name := on_world p f (pt_unlinkat (world p) f name);
  read p f offset n := let '(f, b, r) := pt_read (world p) f offset n in (p, f, b, r);
  write p f offset data := on_both p (pt_write (world p) f offset data);
  fsync p f := on_world p f (pt_fsync (world p) f);
  setattr p f valid stat := on_both p (pt_setattr (world p) f valid stat);
|}.

End Passthrough.
End P9Handler.
