(* ===== verification/P9HandlerProps.v ===== *)
(** The 9P server answers: every request of a client that names open fids gets a reply
    that the client can read, and the table of fids follows the protocol; a directory is
    listed completely. *)

From Stdlib Require Import ZArith Lia Bool List.
From stdpp Require Import base gmap.
From S2P Require Import Prelude P9 P9Props P9Handler.
Import ListNotations.
Local Open Scope Z_scope.
Local Open Scope rust_scope.
Import P9 Client P9Handler.

(** What holds of the value of a call that succeeds. *)
Definition ensures {A} (P : A -> Prop) (r : Result A) : Prop := match r with Val a => P a | _ => True end.

(** A call that does not panic. *)
Definition returned {A} (r : Result A) : Prop := match r with Crash => False | _ => True end.

(** What the server relies on: a file system returns values that fit the wire, and fills
    the buffer it is given. *)
Class FileSystemLaws (FS File : Type) `{FileSystem FS File} : Prop := {
  law_qid f : valid (snd (qid f));
  law_statfs s f : ensures statfs_valid (snd (statfs s f));
  law_readlink s f : ensures valid (snd (readlink s f));
  law_getattr s f : ensures valid (snd (getattr s f));
  law_readdir s f o : ensures (fun r => match r with Some (name, _) => valid name | None => True end)
    (snd (readdir s f o));
  law_read s f o n : length (snd (fst (read s f o n))) = Z.to_nat n;
}.

Section Server.
Context {FS File : Type} {Hfs : FileSystem FS File} {Hlaws : FileSystemLaws FS File}.

Local Notation State := (@State FS File).
Local Notation Outcome := (@Outcome FS File).

(** The fids a request uses. *)
Definition uses (f : Fcall) : list Z :=
  match f with
  | Tstatfs a | Treadlink a | Tfsync a | Tgetattr a _ | Tlopen a _ | Tlcreate a _ _ _ _ | Tsymlink a _ _ _
  | Tsetattr a _ _ | Treaddir a _ _ | Tmkdir a _ _ _ | Tunlinkat a _ _ | Twalk a _ _ | Tread a _ _ | Twrite a _ _ =>
      [u32_val a]
  | Trenameat a _ b _ => [u32_val a; u32_val b]
  | _ => []
  end.

Definition is_error (r : Fcall) : bool := match r with Rlerror _ => true | _ => false end.

(** The protocol's account of the open fids. *)
Definition fids_after (live : gset Z) (f r : Fcall) : gset Z :=
  if is_error r then live
  else match f with
  | Tattach fid _ _ _ _ => {[u32_val fid]} ∪ live
  | Twalk _ newfid _ => {[u32_val newfid]} ∪ live
  | Tclunk fid => live ∖ {[u32_val fid]}
  | _ => live
  end.

(** The reply that answers a request. *)
Definition answers (f r : Fcall) : bool :=
  match f, r with
  | _, Rlerror _
  | Tstatfs _, Rstatfs _ | Tlopen _ _, Rlopen _ _ | Tlcreate _ _ _ _ _, Rlcreate _ _ | Tsymlink _ _ _ _, Rsymlink _
  | Treadlink _, Rreadlink _ | Tgetattr _ _, Rgetattr _ _ _ | Tsetattr _ _ _, Rsetattr | Treaddir _ _ _, Rreaddir _ _
  | Tfsync _, Rfsync | Tmkdir _ _ _ _, Rmkdir _ | Trenameat _ _ _ _, Rrenameat
  | Tunlinkat _ _ _, Runlinkat | Tattach _ _ _ _ _, Rattach _ | Tversion _ _, Rversion _ _ | Tflush _, Rflush
  | Twalk _ _ _, Rwalk _ | Tread _ _ _, Rread _ | Twrite _ _ _, Rwrite _ | Tclunk _, Rclunk => true
  | _, _ => false
  end.

(** ** Requests on which the calls of the file system return *)

Definition for_fid (s : State) (fid : U32) (P : File -> Prop) : Prop :=
  match fids s !! u32_val fid with Some file => P file | None => True end.

(** [readdir], called again and again with the file it leaves, never panics. *)
Definition readdir_returns (f : FS) (file : File) : Prop :=
  exists I : FS -> File -> Prop, I f file /\ forall f file o, I f file ->
    returned (snd (readdir f file o)) /\ I (fst (fst (readdir f file o))) (snd (fst (readdir f file o))).

Fixpoint walk_returns (f : FS) (file : File) (wnames : list Str) : Prop :=
  match wnames with
  | [] => True
  | name :: wnames =>
      match walk f file name with
      | (_, _, Crash) => False
      | (_, _, Fail _) => True
      | (f, _, Val file) => walk_returns f (fst (qid file)) wnames
      end
  end.

Definition calls_return (s : State) (f : Fcall) : Prop :=
  match f with
  | Tlopen fid flags =>
      for_fid s fid (fun file => returned (snd (open (fs s) file (u32_val flags .& wrap 32 (Z.lnot O_LARGEFILE)))))
  | Tlcreate fid name flags mode gid =>
      for_fid s fid (fun file => returned (snd (create (fs s) file name (u32_val flags .& wrap 32 (Z.lnot O_LARGEFILE)) mode gid)))
  | Tsymlink fid name symtgt gid => for_fid s fid (fun file => returned (snd (symlink (fs s) file name symtgt gid)))
  | Tstatfs fid => for_fid s fid (fun file => returned (snd (statfs (fs s) file)))
  | Treadlink fid => for_fid s fid (fun file => returned (snd (readlink (fs s) file)))
  | Tgetattr fid _ => for_fid s fid (fun file => returned (snd (getattr (fs s) file)))
  | Tsetattr fid valid attr => for_fid s fid (fun file => returned (snd (setattr (fs s) file valid attr)))
  | Treaddir fid _ _ => for_fid s fid (readdir_returns (fs s))
  | Tmkdir fid name mode gid => for_fid s fid (fun file => returned (snd (mkdir (fs s) file name mode gid)))
  | Trenameat old oldname new newname => for_fid s old (fun olddir => for_fid s new (fun newdir =>
      returned (snd (renameat (fs s) (clone olddir) oldname newdir newname))))
  | Tunlinkat fid name _ => for_fid s fid (fun file => returned (snd (unlinkat (fs s) file name)))
  | Tattach _ _ _ _ _ => returned (snd (attach (fs s)))
  | Twalk fid _ wnames => for_fid s fid (fun file => walk_returns (fs s) (clone file) wnames)
  | Tread fid offset count => for_fid s fid (fun file => returned (snd (read (fs s) file offset (u32_val count))))
  | Twrite fid offset data => for_fid s fid (fun file => returned (snd (write (fs s) file offset data)))
  | Tfsync fid => for_fid s fid (fun file => returned (snd (fsync (fs s) file)))
  | _ => True
  end.

(** What is promised of the state after a request and of its reply. *)
Definition promise (s : State) (f : Fcall) (s' : State) (r : Fcall) : Prop :=
  reply_valid r /\ answers f r = true /\ in_u 32 (iounit s') /\ dom (fids s') = fids_after (dom (fids s)) f r.

Definition good (s : State) (f : Fcall) (o : Outcome) : Prop :=
  exists s' r, finish o = Some (s', r) /\ promise s f s' r.

Lemma wrap_valid x : valid (MkU32 (u32 x)).
Proof. cbn. apply wrap_range. lia. Qed.

Lemma good_error s f s' e :
  in_u 32 (iounit s') -> dom (fids s') = dom (fids s) -> good s f (Error s' e).
Proof.
  intros Hi Hd. eexists _, _. split; [reflexivity|]. split; [apply wrap_valid|]. 
  split; [destruct f; reflexivity|]. split; assumption.
Qed.

Lemma dom_set_fid (s : State) f fid file :
  u32_val fid ∈ dom (fids s) -> dom (fids (set_fid (set_fs s f) fid file)) = dom (fids s).
Proof. intros Hf. cbn. rewrite dom_insert_L. set_solver. Qed.

(** A request on one open fid: it suffices that the reply to a successful call is good. *)
Lemma good_call {A} s f fid (c : File -> FS * File * Result A) k :
  in_u 32 (iounit s) -> u32_val fid ∈ dom (fids s) -> for_fid s fid (fun file => returned (snd (c file))) ->
  (forall s' file file' a, iounit s' = iounit s -> dom (fids s') = dom (fids s) ->
    snd (c file) = Val a -> good s f (k s' file' a)) ->
  good s f (with_fid s fid (fun file => call s fid (c file) k)).
Proof.
  intros Hi Hf Hr Hk. unfold with_fid, for_fid in *. pose proof Hf as Hl. apply elem_of_dom in Hl as [file E]. rewrite E in *.
  unfold call. specialize (Hk (set_fid (set_fs s (fst (fst (c file)))) fid (snd (fst (c file)))) file (snd (fst (c file)))).
  destruct (c file) as [[fs' file'] [a|e|]]; cbn [fst snd] in *; [| |contradiction].
  - apply Hk; [reflexivity|apply dom_set_fid, Hf|reflexivity].
  - apply good_error; [exact Hi|apply dom_set_fid, Hf].
Qed.

Lemma good_reply s f s' r :
  iounit s' = iounit s -> in_u 32 (iounit s) -> reply_valid r -> answers f r = true ->
  dom (fids s') = fids_after (dom (fids s)) f r -> good s f (Reply s' r).
Proof. intros Hi H32 Hr Ha Hd. eexists _, _. split; [reflexivity|]. rewrite <- Hi in H32. repeat split; assumption || apply H32. Qed.

Definition size_of (l : list DirEntry) : Z := fold_right (fun d s => entry_size d + s) 0 l.

Lemma size_of_snoc l d : size_of (l ++ [d]) = size_of l + entry_size d.
Proof. unfold size_of. induction l as [|x l IH]; cbn [app fold_right]; lia. Qed.

(** The loop of [Treaddir] ends within its fuel, with a listing of the size it states. *)
Lemma readdir_loop_good s0 fid off cnt (I : FS -> File -> Prop) :
  (forall f file o, I f file ->
    returned (snd (readdir f file o)) /\ I (fst (fst (readdir f file o))) (snd (fst (readdir f file o)))) ->
  forall fuel s file offset cur_len count vec, I (fs s) file ->
  in_u 32 (iounit s0) -> u32_val fid ∈ dom (fids s0) ->
  iounit s = iounit s0 -> dom (fids s) = dom (fids s0) ->
  (Z.to_nat ((count - cur_len) / 24) < fuel)%nat -> in_u 64 offset -> count < 2 ^ 32 ->
  0 <= cur_len <= count -> cur_len = size_of vec -> Forall entry_valid vec ->
  exists o, readdir_loop fuel s fid file offset cur_len count vec = Some o /\ good s0 (Treaddir fid off cnt) o.
Proof.
  intros Hret. induction fuel as [|fuel IH]; intros s file offset cur_len count vec HI H32 Hfid Hi Hd Hf Ho Hc Hl Hs Hv; [lia|].
  cbn [readdir_loop]. pose proof (law_readdir (fs s) file offset) as Hlaw. destruct (Hret (fs s) file offset HI) as [HR HI'].
  destruct (readdir (fs s) file offset) as [[f' file'] res]. cbn [fst snd] in Hlaw, HR, HI'.
  set (s' := set_fid (set_fs s f') fid file').
  assert (Hd' : dom (fids s') = dom (fids s0)) by (unfold s'; rewrite dom_set_fid; rewrite Hd; auto).
  assert (Hdone : good s0 (Treaddir fid off cnt) (Reply s' (Rreaddir (MkU32 (u32 cur_len)) vec))).
  { apply good_reply; [exact Hi|exact H32| |reflexivity|exact Hd'].
    split; [apply wrap_valid|]. split; [exact Hv|]. cbn [u32_val]. unfold u32. rewrite wrap_id by (unfold in_u; lia). exact Hs. }
  destruct res as [[[name child]|]|e|]; [|eauto| |contradiction]; [|eexists; split; [reflexivity|apply good_error; [cbn; rewrite Hi|]; assumption]].
  cbn [ensures] in Hlaw. pose proof (law_qid child) as Hq. destruct (qid child) as [child' q]. cbn [snd] in Hq.
  destruct (mode child') as [child'' md]. destruct (Z.gtb_spec (cur_len + Z.of_nat (length (bytes name)) + 24) count); [eauto|].
  apply IH; auto.
  - Z.to_euclidean_division_equations. lia.
  - apply wrap_range. lia.
  - lia.
  - rewrite size_of_snoc. unfold entry_size. cbn [de_name]. lia.
  - apply Forall_app. split; [exact Hv|]. constructor; [|constructor].
    split; [exact Hq|]. split; [exact Ho|]. split; [|exact Hlaw]. apply wrap_range. lia.
Qed.

Lemma walk_loop_valid : forall wnames f file qids f' file' qids',
  Forall valid qids -> walk_loop f file wnames qids = (f', Val (file', qids')) ->
  Forall valid qids' /\ length qids' = (length qids + length wnames)%nat.
Proof.
  induction wnames as [|name wnames IH]; intros f file qids f' file' qids' Hq; cbn [walk_loop].
  - intros [= _ _ <-]. split; [exact Hq|cbn; lia].
  - destruct (walk f file name) as [[f1 file1] [a|e|]]; [|discriminate|discriminate].
    pose proof (law_qid a) as Ha. destruct (qid a) as [a' q]. intros Hw. apply IH in Hw as [Hv Hn].
    + split; [exact Hv|]. rewrite Hn, length_app. cbn. lia.
    + apply Forall_app. split; [exact Hq|]. repeat constructor; apply Ha.
Qed.

Lemma walk_loop_returns : forall wnames f file qids, walk_returns f file wnames -> returned (snd (walk_loop f file wnames qids)).
Proof.
  induction wnames as [|name wnames IH]; intros f file qids; cbn [walk_loop walk_returns]; [auto|].
  destruct (walk f file name) as [[f1 file1] [a|e|]]; [|auto|contradiction].
  destruct (qid a) as [a' q]. cbn [fst]. apply IH.
Qed.

Lemma walk_good s fid newfid wnames : calls_return s (Twalk fid newfid wnames) ->
  in_u 32 (iounit s) -> u32_val fid ∈ dom (fids s) -> Z.of_nat (length wnames) < 2 ^ 16 ->
  good s (Twalk fid newfid wnames) (handle_walk s fid newfid wnames).
Proof.
  cbn [calls_return]. unfold handle_walk, with_fid, for_fid. intros Hr Hi Hf Hn. apply elem_of_dom in Hf as [file E0]. rewrite E0 in *.
  apply (walk_loop_returns _ _ _ []) in Hr.
  destruct (walk_loop (fs s) (clone file) wnames []) as [f' [[file' qids]|e|]] eqn:E; [|apply good_error; [exact Hi|reflexivity]|contradiction].
  apply walk_loop_valid in E as [Hv Hl]; [|constructor]. cbn in Hl.
  apply good_reply; [reflexivity|exact Hi| |reflexivity|cbn; apply dom_insert_L].
  split; [exact Hv|]. rewrite Hl. exact Hn.
Qed.

Lemma rename_good s a x b y : calls_return s (Trenameat a x b y) ->
  in_u 32 (iounit s) -> u32_val a ∈ dom (fids s) -> u32_val b ∈ dom (fids s) ->
  good s (Trenameat a x b y) (handle_rename s a x b y).
Proof.
  cbn [calls_return]. unfold handle_rename, with_fid at 1, for_fid at 1. intros Hr Hi Ha Hb. apply elem_of_dom in Ha as [file E].
  rewrite E in *. apply good_call; [exact Hi|exact Hb|exact Hr|]. intros s' ? ? ? Hi' Hd _. apply good_reply; auto. exact I.
Qed.

Lemma attach_good s fid a b c d : returned (snd (attach (fs s))) -> in_u 32 (iounit s) -> good s (Tattach fid a b c d) (handle_attach s fid).
Proof.
  intros Hr Hi. unfold handle_attach.
  destruct (attach (fs s)) as [f' [file|e|]]; [|apply good_error; [exact Hi|reflexivity]|contradiction].
  pose proof (law_qid file) as Hq. destruct (qid file) as [file' q]. apply good_reply; auto. cbn. apply dom_insert_L.
Qed.

Lemma read_good s fid offset count : calls_return s (Tread fid offset count) ->
  in_u 32 (iounit s) -> u32_val fid ∈ dom (fids s) -> in_u 32 (u32_val count) ->
  good s (Tread fid offset count) (handle_read s fid offset count).
Proof.
  cbn [calls_return]. unfold handle_read, with_fid, for_fid. intros Hr Hi Hf Hc. pose proof Hf as Hl.
  apply elem_of_dom in Hl as [file E]. rewrite E in *.
  pose proof (law_read (fs s) file offset (u32_val count)) as Hb.
  destruct (read (fs s) file offset (u32_val count)) as [[[f' file'] buf] [len|e|]]; cbn [call fst snd] in *;
    [| |contradiction].
  - apply good_reply; [reflexivity|exact Hi| |reflexivity|apply dom_set_fid, Hf].
    cbn [reply_valid]. rewrite length_firstn, Hb. unfold in_u in Hc. lia.
  - apply good_error; [exact Hi|apply dom_set_fid, Hf].
Qed.

Lemma readdir_good s fid offset count : calls_return s (Treaddir fid offset count) ->
  in_u 32 (iounit s) -> u32_val fid ∈ dom (fids s) -> in_u 32 (u32_val count) ->
  exists o, handle_readdir s fid offset count = Some o /\ good s (Treaddir fid offset count) o.
Proof.
  cbn [calls_return]. unfold handle_readdir, for_fid. intros Hr Hi Hf Hc. pose proof Hf as Hl. apply elem_of_dom in Hl as [file E].
  rewrite E in *. destruct Hr as (J & HJ & Hret). unfold in_u in Hc. apply (readdir_loop_good _ _ _ _ J Hret); auto; try lia; [rewrite Z.sub_0_r; lia|].
  destruct (u64_val offset =? 0); [unfold in_u; lia|apply wrap_range; lia].
Qed.

Lemma version_good s msize v : valid msize -> good s (Tversion msize v) (handle_version s msize).
Proof.
  intros Hm. eexists _, _. split; [reflexivity|]. split; [|split; [reflexivity|split; [apply wrap_range; lia|reflexivity]]].
  split; [exact Hm|]. split; reflexivity.
Qed.

(** A reply whose only content is a qid, or a qid and more of the file. *)
Ltac known_reply :=
  apply good_reply; [assumption || reflexivity|assumption| |reflexivity|cbn; rewrite ?dom_insert_L; try assumption; set_solver].

Lemma handle_good s f :
  request_valid f -> in_u 32 (iounit s) -> Forall (fun fid => fid ∈ dom (fids s)) (uses f) -> calls_return s f ->
  exists o, handle_fcall_internal s f = Some o /\ good s f o.
Proof.
  intros Hf Hi Hu Hcr. destruct f; cbn [request_valid] in Hf; try contradiction; cbn [uses] in Hu;
    try (apply Forall_cons in Hu as [Hu Hu']); cbn [handle_fcall_internal];
    try (eexists; split; [reflexivity|]);
    try (apply good_call; [exact Hi|exact Hu|exact Hcr|];
      let s' := fresh "s" in intros s' file file' a Hi' Hd Hc);
    try (apply good_error; [exact Hi|reflexivity]); try solve [known_reply; exact I];
    try solve [known_reply; cbn; unfold in_u, ENOTSUP; lia].
  - known_reply. pose proof (law_statfs (fs s) file) as L. rewrite Hc in L. exact L.
  - pose proof (law_qid file') as Hq. destruct (qid file') as [x q]. known_reply.
    split; [exact Hq|]. cbn. rewrite Hi'. exact Hi.
  - pose proof (law_qid a) as Hq. destruct (qid a) as [x q]. known_reply.
    split; [exact Hq|]. cbn. rewrite Hi'. exact Hi.
  - known_reply. apply law_qid.
  - known_reply. pose proof (law_readlink (fs s) file) as L. rewrite Hc in L. exact L.
  - pose proof (law_getattr (fs s) file) as L. rewrite Hc in L.
    pose proof (law_qid file') as Hq. destruct (qid file') as [x q]. known_reply.
    split; [apply Hf|]. split; [exact Hq|exact L].
  - apply readdir_good; assumption || tauto.
  - known_reply. apply law_qid.
  - apply Forall_cons in Hu' as [Hu' _]. apply rename_good; assumption.
  - apply attach_good; assumption.
  - apply version_good. tauto.
  - apply walk_good; assumption || tauto.
  - apply read_good; assumption || tauto.
  - known_reply. apply wrap_valid.
Qed.

Lemma skip_size (size l : list Z) : length size = 4%nat -> skipn 4 (size ++ l) = l ++ [].
Proof. intros <-. rewrite skipn_app, skipn_all, Nat.sub_diag, app_nil_r. reflexivity. Qed.

(** Requests on which the server itself panics: a [Tsetattr] with a time the host's
    [SystemTime] cannot hold, and a request that uses a fid that is not open. *)
Definition is_open (s : State) (fid : Z) : bool := match fids s !! fid with Some _ => true | None => false end.
Definition all_open (s : State) (f : Fcall) : bool := forallb (is_open s) (uses f).
Definition refused (s : State) (f : Fcall) : bool := late_request f || negb (all_open s f).

Lemma all_open_spec s f : all_open s f = true -> Forall (fun fid => fid ∈ dom (fids s)) (uses f).
Proof.
  unfold all_open. rewrite forallb_forall. intros H. apply Forall_forall. intros x Hx.
  apply list_elem_of_In, H in Hx. unfold is_open in Hx. apply elem_of_dom. destruct (fids s !! x); [eauto|discriminate].
Qed.

Lemma closed_fid (s : State) fid : is_open s fid = false -> fids s !! fid = None.
Proof. unfold is_open. destruct (fids s !! fid); [discriminate|reflexivity]. Qed.

Lemma closed_panics s f : all_open s f = false -> handle_fcall s f = None.
Proof.
  unfold all_open, handle_fcall.
  destruct f; cbn [uses forallb handle_fcall_internal]; try discriminate; rewrite ?andb_true_r; intros H;
    unfold handle_open, handle_create, handle_symlink, handle_getattr, handle_readdir, handle_walk, handle_rename, handle_read, with_fid;
    try (rewrite (closed_fid _ _ H); reflexivity).
  apply andb_false_iff in H as [H|H]; rewrite (closed_fid _ _ H); [reflexivity|]. destruct (fids s !! _); reflexivity.
Qed.

Lemma refused_panics s tag f b size capacity : valid tag -> request_on_wire f -> length size = 4%nat -> refused s f = true ->
  request (tag, f) = Some b -> serve capacity s (size ++ b) = None.
Proof.
  intros Ht Hf Hs Hr Hb. unfold refused in Hr. unfold serve. rewrite skip_size by exact Hs.
  destruct (late_request f) eqn:El.
  - destruct (late_request_dies tag f Ht Hf El) as (b' & Hb' & Hd). unfold writes in Hb'. rewrite Hb in Hb'. injection Hb' as <-.
    rewrite Hd. reflexivity.
  - cbn [orb] in Hr. apply negb_true_iff in Hr.
    destruct (request_wired tag f Ht (on_wire_valid f Hf El)) as (b' & Hb' & Hd). unfold writes in Hb'. rewrite Hb in Hb'.
    injection Hb' as <-. rewrite Hd, (closed_panics s f Hr). reflexivity.
Qed.


End Server.

(** ** Directories *)

Section Listing.
Context {FS File : Type} {Hfs : FileSystem FS File}.

Local Notation State := (@State FS File).

(** A directory that does not change while it is read. *)
Definition lists (f : FS) (file : File) (entries : list (Str * File)) : Prop :=
  forall o, in_u 64 o -> readdir f file o = (f, file, Val (nth_error entries (Z.to_nat o))).

Definition name_size (e : Str * File) : Z := Z.of_nat (length (bytes (fst e))) + 24.

(** The longest prefix that fits. *)
Fixpoint fit (room : Z) (l : list (Str * File)) : list (Str * File) :=
  match l with
  | [] => []
  | e :: l => if name_size e >? room then [] else e :: fit (room - name_size e) l
  end.

Definition entry_at (o : Z) (e : Str * File) : DirEntry :=
  let '(child, q) := qid (snd e) in
  let '(_, m) := mode child in
  MkDirEntry q (MkU64 o) (MkU8 (u8 (m >> 12))) (fst e).

Fixpoint entries_from (o : Z) (l : list (Str * File)) : list DirEntry :=
  match l with [] => [] | e :: l => entry_at o e :: entries_from (o + 1) l end.

Lemma fit_prefix l : forall room, fit room l ++ skipn (length (fit room l)) l = l.
Proof.
  induction l as [|e l IH]; intros room; cbn [fit]; [reflexivity|].
  destruct (name_size e >? room); [reflexivity|]. cbn [length skipn app]. f_equal. apply IH.
Qed.

Lemma entries_from_app l1 : forall o l2,
  entries_from o (l1 ++ l2) = entries_from o l1 ++ entries_from (o + Z.of_nat (length l1)) l2.
Proof.
  induction l1 as [|e l1 IH]; intros o l2; cbn [app entries_from length]; [f_equal; lia|].
  f_equal. rewrite IH. do 2 f_equal. lia.
Qed.

Lemma entries_from_last l o : l <> [] ->
  exists d, last (entries_from o l) = Some d /\ u64_val (de_offset d) = o + Z.of_nat (length l) - 1.
Proof.
  intros Hl. destruct (exists_last Hl) as (l' & e & ->).
  rewrite entries_from_app, length_app. cbn [entries_from length]. eexists. split; [apply last_snoc|].
  unfold entry_at. destruct (qid (snd e)) as [c q]. destruct (mode c) as [c' m]. cbn. lia.
Qed.

Lemma skipn_nth {A} (l : list A) n :
  skipn n l = match nth_error l n with Some a => a :: skipn (S n) l | None => [] end.
Proof.
  revert l. induction n as [|n IH]; intros [|a l]; try reflexivity. cbn [skipn nth_error]. rewrite IH.
  reflexivity.
Qed.

Lemma set_fid_same (s : State) fid file :
  fids s !! u32_val fid = Some file -> set_fid (set_fs s (fs s)) fid file = s.
Proof. intros Hf. destruct s. unfold set_fid. cbn in *. rewrite insert_id by exact Hf. reflexivity. Qed.

Lemma readdir_loop_spec (s : State) fid file entries : forall fuel offset cur_len count vec,
  lists (fs s) file entries -> fids s !! u32_val fid = Some file ->
  (Z.to_nat ((count - cur_len) / 24) < fuel)%nat -> in_u 64 offset -> Z.of_nat (length entries) < 2 ^ 64 ->
  0 <= cur_len <= count ->
  exists n, readdir_loop fuel s fid file offset cur_len count vec =
    Some (Reply s (Rreaddir n (vec ++ entries_from offset (fit (count - cur_len) (skipn (Z.to_nat offset) entries))))).
Proof.
  induction fuel as [|fuel IH]; intros offset cur_len count vec Hls Hf Hfuel Ho Hn Hc; [lia|].
  cbn [readdir_loop]. rewrite (Hls offset Ho), set_fid_same by exact Hf. rewrite skipn_nth.
  destruct (nth_error entries (Z.to_nat offset)) as [[name child]|] eqn:E;
    [|cbn [fit entries_from]; rewrite app_nil_r; eauto].
  cbn [fit]. unfold name_size at 1 2. cbn [fst].
  replace (cur_len + Z.of_nat (length (bytes name)) + 24) with (cur_len + (Z.of_nat (length (bytes name)) + 24)) by lia.
  set (len := Z.of_nat (length (bytes name)) + 24).
  destruct (Z.gtb_spec (cur_len + len) count), (Z.gtb_spec len (count - cur_len)); try lia;
    [cbn [entries_from]; rewrite app_nil_r; eauto|].
  cbn [entries_from]. unfold entry_at at 1. cbn [fst snd].
  destruct (qid child) as [c q]. destruct (mode c) as [c' md].
  assert (Hlen : (Z.to_nat offset < length entries)%nat) by (apply nth_error_Some; congruence).
  unfold in_u in Ho. rewrite wrap_id by (unfold in_u; lia).
  destruct (IH (offset + 1) (cur_len + len) count (vec ++ [MkDirEntry q (MkU64 offset) (MkU8 (u8 (md >> 12))) name]) Hls Hf)
    as [n ->]; [Z.to_euclidean_division_equations; lia|unfold in_u; lia|exact Hn|lia|].
  exists n. rewrite <- app_assoc. cbn [app]. do 6 f_equal. f_equal; [lia|f_equal; lia].
Qed.

(** Where a request starts reading. *)
Definition start (offset : Z) : Z := if offset =? 0 then 0 else offset + 1.

Lemma readdir_spec (s : State) fid file entries offset count :
  lists (fs s) file entries -> fids s !! u32_val fid = Some file ->
  0 <= offset < 2 ^ 64 - 1 -> Z.of_nat (length entries) < 2 ^ 64 -> in_u 32 (u32_val count) ->
  exists n, handle_fcall s (Treaddir fid (MkU64 offset) count) =
    Some (s, Rreaddir n (entries_from (start offset) (fit (u32_val count) (skipn (Z.to_nat (start offset)) entries)))).
Proof.
  intros Hls Hf Ho Hn Hc. unfold handle_fcall. cbn [handle_fcall_internal]. unfold handle_readdir. cbn [u64_val]. rewrite Hf.
  unfold in_u in Hc. set (o := if offset =? 0 then 0 else wrap 64 (offset + 1)).
  assert (o = start offset) as ->.
  { unfold o, start. destruct (offset =? 0); [reflexivity|]. apply wrap_id. unfold in_u. lia. }
  destruct (readdir_loop_spec s fid file entries (S (Z.to_nat (u32_val count / 24))) (start offset) 0 (u32_val count) [] Hls Hf)
    as [n ->]; [rewrite Z.sub_0_r; lia|unfold in_u, start; destruct (Z.eqb_spec offset 0); lia|exact Hn|lia|].
  exists n. rewrite Z.sub_0_r. reflexivity.
Qed.

(** A client that reads a directory: the next request has the offset of the last entry,
    until a listing is empty. *)
Fixpoint list_dir (fuel : nat) (s : State) (fid : U32) (offset : Z) (count : U32) : option (list DirEntry) :=
  match fuel with
  | O => None
  | S fuel =>
      match handle_fcall s (Treaddir fid (MkU64 offset) count) with
      | Some (s, Rreaddir _ vec) =>
          match last vec with
          | None => Some []
          | Some d => let? l := list_dir fuel s fid (u64_val (de_offset d)) count in Some (vec ++ l)
          end
      | _ => None
      end
  end.

Lemma fit_nonempty room l : Forall (fun e => name_size e <= room) l -> l <> [] -> fit room l <> [].
Proof.
  intros Hl Hn. destruct l as [|e l]; [contradiction|]. apply Forall_cons in Hl as [He _]. cbn [fit].
  destruct (Z.gtb_spec (name_size e) room); [lia|discriminate].
Qed.

Lemma fit_two room e1 e2 l :
  name_size e1 + name_size e2 <= room -> (2 <= length (fit room (e1 :: e2 :: l)))%nat.
Proof.
  intros Hr. unfold name_size in *. cbn [fit]. unfold name_size at 1 3.
  destruct (Z.gtb_spec (Z.of_nat (length (bytes (fst e1))) + 24) room); [lia|].
  unfold name_size at 1. match goal with |- context [?a >? ?b] => destruct (Z.gtb_spec a b) end; [lia|cbn; lia].
Qed.

(** One request and the rest: [k] entries were read and the offset asks for the next. *)
Lemma list_dir_from (s : State) fid file entries count :
  lists (fs s) file entries -> fids s !! u32_val fid = Some file ->
  Z.of_nat (length entries) < 2 ^ 64 -> in_u 32 (u32_val count) ->
  Forall (fun e => name_size e <= u32_val count) entries ->
  forall fuel offset k, start offset = Z.of_nat k -> 0 <= offset -> (k <= length entries)%nat ->
    (length entries - k < fuel)%nat ->
    (1 <= offset \/ (2 <= length (fit (u32_val count) (skipn k entries)))%nat) ->
    list_dir fuel s fid offset count = Some (entries_from (Z.of_nat k) (skipn k entries)).
Proof.
  intros Hls Hf Hn Hc Hall. induction fuel as [|fuel IH]; intros offset k Hk Ho Hkn Hfuel Hpos; [lia|].
  assert (Ho' : offset < 2 ^ 64 - 1) by (revert Hk; unfold start; destruct (Z.eqb_spec offset 0); lia).
  cbn [list_dir]. destruct (readdir_spec s fid file entries offset count) as [n ->]; auto.
  rewrite Hk, Nat2Z.id. pose proof (fit_prefix (skipn k entries) (u32_val count)) as Hp.
  set (now := fit (u32_val count) (skipn k entries)) in *.
  destruct (decide (skipn k entries = [])) as [E|E]; [unfold now; rewrite E; reflexivity|].
  assert (Hnow : now <> []) by (apply fit_nonempty; [apply Forall_drop, Hall|exact E]).
  destruct (entries_from_last now (Z.of_nat k) Hnow) as (d & -> & Hd).
  assert (Hl : (0 < length now)%nat) by (destruct now; [contradiction|cbn; lia]).
  assert (Hlen : (length now <= length entries - k)%nat) by (rewrite <- length_skipn, <- Hp, length_app; lia).
  assert (Hge : 1 <= u64_val (de_offset d)).
  { rewrite Hd. destruct Hpos as [H1|H2]; [revert Hk; unfold start; destruct (Z.eqb_spec offset 0); lia|].
    fold now in H2. lia. }
  rewrite (IH (u64_val (de_offset d)) (k + length now)%nat); [| |lia|lia|lia|left; exact Hge].
  - f_equal. rewrite drop_drop in Hp. rewrite <- Hp, entries_from_app, Nat2Z.inj_add. reflexivity.
  - unfold start. destruct (Z.eqb_spec (u64_val (de_offset d)) 0); lia.
Qed.

(** A directory is listed completely: for a directory that does not change, with at
    least two entries (the host's have the entries for itself and its parent), a client
    whose buffer has room for the first two together and for each one alone, and which
    asks with the offset of the last entry it got until a listing is empty, gets every
    entry exactly once and in order, with consecutive offsets. *)
Theorem listing_complete (s : State) fid file e1 e2 entries count fuel :
  lists (fs s) file (e1 :: e2 :: entries) -> fids s !! u32_val fid = Some file ->
  Z.of_nat (length entries) < 2 ^ 64 - 2 -> in_u 32 (u32_val count) ->
  name_size e1 + name_size e2 <= u32_val count ->
  Forall (fun e => name_size e <= u32_val count) entries ->
  (S (S (length entries)) < fuel)%nat ->
  list_dir fuel s fid 0 count = Some (entries_from 0 (e1 :: e2 :: entries)).
Proof.
  intros Hls Hf Hn Hc H2 Hall Hfuel.
  assert (Hpos : forall e : Str * File, 0 <= name_size e) by (intros e; unfold name_size; lia).
  apply (list_dir_from s fid file (e1 :: e2 :: entries) count Hls Hf) with (k := 0%nat); auto;
    try (cbn [length]; lia).
  - pose proof (Hpos e1). pose proof (Hpos e2). apply Forall_cons; split; [lia|]. apply Forall_cons; split; [lia|exact Hall].
  - right. apply fit_two, H2.
Qed.

(** A directory of one entry is listed for ever: its entry has offset 0, the offset that
    starts from the beginning. *)
Theorem single_entry_repeats (s : State) fid file e count fuel :
  lists (fs s) file [e] -> fids s !! u32_val fid = Some file -> in_u 32 (u32_val count) ->
  name_size e <= u32_val count -> list_dir fuel s fid 0 count = None.
Proof.
  intros Hls Hf Hc He. induction fuel as [|fuel IH]; [reflexivity|]. cbn [list_dir].
  destruct (readdir_spec s fid file [e] 0 count) as [n ->]; auto; try (cbn; lia).
  assert (fit (u32_val count) (skipn (Z.to_nat (start 0)) [e]) = [e]) as ->.
  { change (skipn (Z.to_nat (start 0)) [e]) with [e]. cbn [fit].
    destruct (Z.gtb_spec (name_size e) (u32_val count)); [lia|reflexivity]. }
  destruct (entries_from_last [e] (start 0)) as (d & -> & ->); [discriminate|].
  change (start 0 + Z.of_nat (length [e]) - 1) with 0. rewrite IH. reflexivity.
Qed.

End Listing.

(** ** A file system in memory

    One directory of named empty files: file 0 is the directory, file [k] its entry [k]. *)

Definition ram_qid (f : nat) : Qid := MkQid (MkU8 (if (f =? 0)%nat then 0x80 else 0)) (MkU32 0) (MkU64 (wrap 64 (Z.of_nat f))).
Definition unsupported {A} (f : list Str) (file : nat) : list Str * nat * Result A := (f, file, Fail (Some 95)).
Definition ram_entries (f : list Str) : list (Str * nat) :=
  (MkStr [0x2E], O) :: (MkStr [0x2E; 0x2E], O) :: combine f (seq 1 (length f)).

Definition ram_valid (n : Str) : bool := is_utf8 (bytes n) && (Z.of_nat (length (bytes n)) <? 2 ^ 16).

#[export] Instance ram_fs : FileSystem (list Str) nat := {|
  clone f := f;
  qid f := (f, ram_qid f);
  mode f := (f, if (f =? 0)%nat then 0x41ED else 0x81A4);
  statfs := unsupported;
  attach f := (f, Val O);
  readlink := unsupported;
  getattr f file := (f, file, Val (MkStat (MkU32 0x81A4) (MkU32 0) (MkU32 0) (MkU64 1) (MkU64 0) (MkU64 0)
    (MkU64 512) (MkU64 0) UNIX_EPOCH UNIX_EPOCH UNIX_EPOCH));
  walk f file name :=
    match filter (fun e : Str * nat => bytes (fst e) = bytes name) (ram_entries f) with
    | e :: _ => (f, file, Val (snd e))
    | [] => (f, file, Fail (Some 2))
    end;
  open f file _ := (f, file, Val tt);
  create f file name _ _ _ := (if ram_valid name then f ++ [name] else f, file, Val (S (length f)));
  symlink f file _ _ _ := unsupported f file;
  readdir f file o := (f, file, Val (nth_error (filter (fun e : Str * nat => ram_valid (fst e) = true) (ram_entries f)) (Z.to_nat o)));
  mkdir f file _ _ _ := unsupported f file;
  renameat f _ _ file _ := unsupported f file;
  unlinkat f file _ := unsupported f file;
  read f file _ n := (f, file, repeat 0 (Z.to_nat n), Val 0);
  write f file _ _ := unsupported f file;
  fsync f file := (f, file, Val tt);
  setattr f file _ _ := unsupported f file;
|}.

#[export] Instance ram_laws : FileSystemLaws (list Str) nat.
Proof.
  split.
  - intros f. split; [|split].
    + cbn. unfold in_u. destruct (f =? 0)%nat; lia.
    + cbn. unfold in_u. lia.
    + apply (wrap_range 64). lia.
  - intros s f. exact I.
  - intros s f. exact I.
  - intros s f. cbn. unfold stat_valid, in_u. cbn. unfold in_u, time_valid. cbn. lia.
  - intros s f o. cbn [readdir ram_fs snd ensures].
    destruct (nth_error _ _) as [[name c]|] eqn:E; [|exact I].
    apply nth_error_In, list_elem_of_In, list_elem_of_filter in E as [E _]. cbn [fst] in E.
    apply andb_prop in E as [E1 E2]. split; [exact E1|apply Z.ltb_lt, E2].
  - intros s f o n. apply repeat_length.
Qed.

Definition ram_state : @State (list Str) nat := MkState [MkStr [0x61]; MkStr [0x62; 0x63]] 8168 {[1 := O]}.


Lemma listing_complete_witness :
  list_dir 5 ram_state (MkU32 1) 0 (MkU32 51) = Some (entries_from 0 (ram_entries [MkStr [0x61]; MkStr [0x62; 0x63]])).
Proof.
  apply (listing_complete ram_state (MkU32 1) O (MkStr [0x2E], O) (MkStr [0x2E; 0x2E], O)
    [(MkStr [0x61], 1%nat); (MkStr [0x62; 0x63], 2%nat)]).
  - intros o _. reflexivity.
  - reflexivity.
  - vm_compute. reflexivity.
  - cbn. unfold in_u. lia.
  - vm_compute. discriminate.
  - repeat constructor; vm_compute; discriminate.
  - cbn. lia.
Defined.

(** A request on a fid that is not open panics, and with it the emulator. *)
Theorem unknown_fid_panics : handle_fcall ram_state (Tgetattr (MkU32 9) (MkU64 0x7FF)) = None.
Proof. reflexivity. Qed.

(** ** The files of the host *)

(** What the host returns fits the wire: numbers have their widths, times are at or after
    the epoch, names are UTF-8 and shorter than 64 KiB. *)
Definition io_ensures {A} (P : A -> Prop) (r : IoResult A) : Prop := match r with inl a => P a | inr _ => True end.

Definition name_ok (b : list Z) : Prop := is_utf8 b = true /\ Z.of_nat (length b) < 2 ^ 16.

Class HostLaws (W Path Meta Fd Dir : Type) `{Host W Path Meta Fd Dir} : Prop := {
  host_ino m : valid (ino m);
  host_stat m a b c : valid a -> valid b -> valid c -> valid (meta_stat m a b c);
  host_times m : io_ensures valid (accessed m) /\ io_ensures valid (modified m) /\ io_ensures valid (created m);
  host_now w : valid (now w);
  host_statvfs w p : io_ensures statfs_valid (statvfs w p);
  host_link w p : io_ensures name_ok (read_link w p);
  host_entry w d : match snd (next_entry w d) with Some e => io_ensures (fun x => name_ok (fst (fst x))) e | None => True end;
}.

Section Host.
Context {W Path Meta Fd Dir : Type} {HH : Host W Path Meta Fd Dir} {HL : HostLaws W Path Meta Fd Dir}.

Local Notation PFile := (@File Path Meta Fd Dir).
Local Notation PState := (@State (@Passthrough W Path) PFile).

Lemma time_or_epoch r : io_ensures valid r -> valid (unwrap_or r UNIX_EPOCH).
Proof. destruct r; cbn [io_ensures unwrap_or]; [auto|intros _; apply epoch_valid]. Qed.

Lemma pt_next_ok w (f : PFile) d pos offset : exists d', fst (pt_next w f d pos offset) = set_dir f d' /\
  returned (snd (pt_next w f d pos offset)) /\
  ensures (fun r => match r with Some (name, _) => valid name | None => True end) (snd (pt_next w f d pos offset)).
Proof.
  unfold pt_next. pose proof (host_entry w (skip_entries w (Z.to_nat (offset - pos)) d)) as H.
  destruct (next_entry w _) as [d' [[[[name p] m]|e]|]]; cbn [fst snd io bindr io_ensures] in *; eexists; (split; [reflexivity|]); try (split; exact I).
  destruct H as [Hu Hn]. rewrite Hu. destruct m; split; try exact I. split; assumption.
Qed.

Lemma pt_readdir_ok w (f : PFile) o : dir f <> None ->
  returned (snd (pt_readdir w f o)) /\ dir (fst (pt_readdir w f o)) <> None.
Proof.
  intros Hd. unfold pt_readdir, file_at. destruct (o =? 0); [split; [exact I|exact Hd]|].
  destruct (o =? 1); [split; [destruct (symlink_metadata w _); exact I|exact Hd]|].
  destruct (dir f) as [[d pos]|] eqn:E; [|contradiction].
  destruct (o - 2 <? pos); [destruct (read_dir w (path f)) as [d'|e]; [|split; [exact I|cbn [fst]; rewrite E; exact Hd]]|];
    [destruct (pt_next_ok w f d' 0 (o - 2)) as (x & -> & H & _)|destruct (pt_next_ok w f d pos (o - 2)) as (x & -> & H & _)];
    (split; [exact H|discriminate]).
Qed.

#[export] Instance passthrough_laws : FileSystemLaws (@Passthrough W Path) PFile.
Proof.
  split.
  - intros f. split; [|split; [cbn; unfold in_u; lia|apply host_ino]].
    cbn. unfold in_u, P9_QTDIR, P9_QTFILE, P9_QTSYMLINK. destruct (is_dir (meta f)), (is_file (meta f)); lia.
  - intros p f. cbn [statfs passthrough snd]. unfold pt_statfs. destruct (has_nul _); [exact I|].
    pose proof (host_statvfs (world p) (path f)) as H. destruct (statvfs _ _); [exact H|exact I].
  - intros p f. cbn [readlink passthrough snd]. unfold pt_readlink. pose proof (host_link (world p) (path f)) as H.
    destruct (read_link _ _) as [b|e]; cbn [io bindr io_ensures] in *; [|exact I]. rewrite (proj1 H). exact H.
  - intros p f. destruct (host_times (meta f)) as (Ha & Hm & Hc). apply host_stat; apply time_or_epoch; assumption.
  - intros p f o. cbn [readdir passthrough]. unfold on_file. cbn [snd]. unfold pt_readdir, file_at.
    destruct (o =? 0); [split; [reflexivity|cbn; lia]|].
    destruct (o =? 1); [destruct (symlink_metadata _ _); [split; [reflexivity|cbn; lia]|exact I]|].
    destruct (dir f) as [[d pos]|]; [|exact I].
    destruct (o - 2 <? pos); [destruct (read_dir _ _) as [d'|e]; [|exact I]|].
    + destruct (pt_next_ok (world p) f d' 0 (o - 2)) as (x & _ & _ & H). exact H.
    + destruct (pt_next_ok (world p) f d pos (o - 2)) as (x & _ & _ & H). exact H.
  - intros p f o n. cbn [read passthrough]. unfold pt_read, with_fd.
    destruct (fd f) as [d|]; [|apply repeat_length]. destruct (seek _ _ _) as [d' [u|e]]; [|apply repeat_length].
    destruct (read_fd _ _ _) as [d'' [b|e]]; cbn [fst snd]; [|apply repeat_length].
    rewrite length_firstn, length_app, repeat_length. lia.
Qed.

(** The requests on which the methods of [Passthrough] unwrap something that is there: an
    open file for reads, writes and [fsync], an open directory for listings. *)
Definition ready (s : PState) (f : Fcall) : bool :=
  let file_of fid k := match fids s !! u32_val fid with Some file => negb (has_nul (path file)) && k file | None => true end in
  match f with
  | Tread fid _ _ | Twrite fid _ _ | Tfsync fid => file_of fid (fun file => match fd file with Some _ => true | None => false end)
  | Treaddir fid _ _ => file_of fid (fun file => match dir file with Some _ => true | None => false end)
  | Tstatfs fid | Tsetattr fid _ _ => file_of fid (fun _ => true)
  | _ => true
  end.

Lemma since_epoch_ok r : io_ensures valid r -> returned (since_epoch r).
Proof.
  destruct r as [t|e]; [|exact (fun x => x)]. intros [Ht _]. unfold since_epoch. cbn [io bindr].
  rewrite (proj2 (Z.ltb_ge _ _)) by lia. exact I.
Qed.

Lemma bindw_returned {A B} (r : W * Result A) (k : W -> A -> W * Result B) :
  returned (snd r) -> (forall w a, returned (snd (k w a))) -> returned (snd (bindw r k)).
Proof. destruct r as [w [a|e|]]; cbn; auto. Qed.

Lemma iow_returned {A} (r : W * IoResult A) : returned (snd (iow r)).
Proof. destruct r as [w [a|e]]; exact I. Qed.

Lemma pt_setattr_returns w (f : PFile) v st : has_nul (path f) = false -> valid st -> returned (snd (pt_setattr w f v st)).
Proof.
  intros Hn Hs. destruct (host_times (meta f)) as (Ha & Hm & _). unfold pt_setattr.
  enough (H : returned (snd (bindw (setattr_mode w f v st) (fun w _ => bindw (setattr_size w f v st) (fun w _ =>
    bindw (setattr_times w f v st) (fun w _ => (w, io (symlink_metadata w (path f))))))))).
  { destruct (bindw _ _) as [w' [m|e|]]; exact H || exact I. }
  apply bindw_returned; [unfold setattr_mode; destruct (has_bit v 1); [apply iow_returned|exact I]|]. intros w1 _.
  apply bindw_returned.
  { unfold setattr_size. destruct (has_bit v 8); [|exact I]. apply bindw_returned; intros; apply iow_returned. }
  intros w2 _. apply bindw_returned; [|intros w3 _; cbn [snd]; destruct (symlink_metadata w3 _); exact I].
  unfold setattr_times. destruct (has_bit v 0x30); [|exact I]. destruct Hs as (_ & _ & _ & _ & Hsa & Hsm).
  apply bindw_returned; [cbn [snd]; apply since_epoch_ok; destruct (has_bit v 0x80); [exact Hsa|];
    destruct (has_bit v 0x10); [apply host_now|exact Ha]|].
  intros w3 a. apply bindw_returned; [cbn [snd]; apply since_epoch_ok; destruct (has_bit v 0x100); [exact Hsm|];
    destruct (has_bit v 0x20); [apply host_now|exact Hm]|].
  intros w4 b. rewrite Hn. apply iow_returned.
Qed.

Lemma file_at_returned w (p : Path) : returned (@file_at W Path Meta Fd Dir HH w p).
Proof. unfold file_at. destruct (symlink_metadata w p); exact I. Qed.

Lemma passthrough_walks : forall wnames p (f : PFile), walk_returns p f wnames.
Proof.
  induction wnames as [|name wnames IH]; intros p f; cbn [walk_returns]; [exact I|]. cbn [walk passthrough].
  pose proof (file_at_returned (world p) (join (path f) name)) as H.
  destruct (file_at (world p) (join (path f) name)) as [c|e|]; [apply IH|exact I|exact H].
Qed.

Lemma pt_open_returns w (f : PFile) flags : returned (snd (pt_open w f flags)).
Proof.
  unfold pt_open. destruct (is_dir _); [destruct (read_dir _ _); exact I|].
  destruct (open_file _ _ _) as [w' [d|e]]; exact I.
Qed.

Lemma on_both_snd {A} (p : @Passthrough W Path) (r : W * PFile * Result A) : snd (on_both p r) = snd r.
Proof. destruct r as [[w f] a]. reflexivity. Qed.

Lemma pt_fd_returns w (f : PFile) o n data : fd f <> None ->
  returned (snd (pt_read w f o n)) /\ returned (snd (pt_write w f o data)) /\ returned (snd (pt_fsync w f)).
Proof.
  intros Hf. unfold pt_read, pt_write, pt_fsync, with_fd. destruct (fd f) as [d|]; [|contradiction].
  destruct (seek w d o) as [d' [u|e]]; [|split; [exact I|split; [exact I|apply iow_returned]]].
  destruct (read_fd w d' n) as [d1 [b|e]], (write_fd w d' data) as [[w2 d2] [m|e2]]; (split; [exact I|split; [exact I|apply iow_returned]]).
Qed.

(** On the files of the host the calls of every such request return. *)
Theorem passthrough_returns (s : PState) f : request_valid f -> ready s f = true -> calls_return s f.
Proof.
  intros Hv Hr. destruct f; cbn [calls_return]; try exact I; unfold for_fid, ready in *; cbv zeta in Hr;
    try (destruct (fids s !! _) as [file|] eqn:Ef; [|exact I]);
    try (apply andb_true_iff in Hr as [Hn Hr]; apply negb_true_iff in Hn);
    try (apply passthrough_walks); try (apply file_at_returned);
    cbn [open create symlink statfs readlink getattr setattr readdir mkdir renameat unlinkat attach read write fsync passthrough
      on_world on_file snd fst]; try exact I; try (rewrite on_both_snd).
  - unfold pt_statfs. rewrite Hn. destruct (statvfs _ _); exact I.
  - apply pt_open_returns.
  - apply bindw_returned; [apply iow_returned|]. intros w d. cbn [snd]. destruct (fd_metadata w d); exact I.
  - apply bindw_returned; [apply iow_returned|]. intros w d. apply file_at_returned.
  - unfold pt_readlink. pose proof (host_link (world (fs s)) (path file)) as H.
    destruct (read_link _ _) as [b|e]; [|exact I]. cbn [io bindr]. rewrite (proj1 H). exact I.
  - apply pt_setattr_returns; [exact Hn|]. apply Hv.
  - exists (fun _ f => dir f <> None). split; [destruct (dir file); discriminate|]. intros p f o Hf.
    apply (pt_readdir_ok (world p) f o Hf).
  - apply pt_fd_returns with (n := 0) (o := MkU64 0) (data := []). destruct (fd file); discriminate.
  - apply bindw_returned; [apply iow_returned|]. intros w d. apply file_at_returned.
  - destruct (fids s !! u32_val newdirfid) as [new|]; [|exact I]. apply iow_returned.
  - unfold pt_unlinkat. destruct (symlink_metadata _ _); [apply iow_returned|exact I].
  - destruct (pt_fd_returns (world (fs s)) file offset (u32_val count) []) as [H _]; [destruct (fd file); discriminate|].
    destruct (pt_read _ _ _ _) as [[f' b] r]. exact H.
  - apply pt_fd_returns with (n := 0); destruct (fd file); discriminate.
Qed.

(** On a fid that was attached or walked to but not opened, or opened as a directory,
    reads, writes and [fsync] panic; on one that was not opened as a directory, so do
    listings behind the first two entries. *)
Theorem passthrough_panics w (f : PFile) o n data :
  (fd f = None -> snd (pt_read w f o n) = Crash /\ snd (pt_write w f o data) = Crash /\ snd (pt_fsync w f) = Crash) /\
  (dir f = None -> forall k, 2 <= k -> snd (pt_readdir w f k) = Crash).
Proof.
  split; intros E.
  - unfold pt_read, pt_write, pt_fsync, with_fd. rewrite E. auto.
  - intros k Hk. unfold pt_readdir. rewrite (proj2 (Z.eqb_neq k 0)), (proj2 (Z.eqb_neq k 1)), E by lia. reflexivity.
Qed.

End Host.
