(* ===== verification/FiberMutex.v ===== *)
(** The mutex of lib/fiber/src/mutex.rs and the parking lot of lib/fiber/src/park.rs, as
    a step relation over any number of fibers: a step has at most one access to shared
    state, and steps of different fibers interleave freely.  A sleeping fiber resumes when
    it is woken: that no fiber of its group returns meanwhile, which would resume it too, is
    taken for granted (FiberCondvar.exit_leaves_entry shows what that does to a list). *)

From Stdlib Require Import ZArith Lia Bool List.
From stdpp Require Import base list.
From S2P Require Import Prelude.
Import ListNotations.
Local Open Scope Z_scope.
Local Open Scope rust_scope.

Module FiberMutex.

Definition LOCKED_BIT : Z := 1.
Definition PARKED_BIT : Z := 2.

(** Where a fiber is in [lock], [try_lock] and [unlock], with its local variables. *)
Inductive PC : Type :=
| Idle
| Lock                                  (** [lock], before the exchange *)
| Load                                  (** [lock_slow] and after [park]: load of the state *)
| Loop (spinwait : nat) (state : Z)     (** the head of the loop *)
| Park                                  (** [park], before the list is locked *)
| Validate                              (** the list is locked: the last check *)
| Enqueue                               (** it succeeded: the entry is to be linked *)
| Release (valid : bool)                (** the list is to be unlocked *)
| Sleep                                 (** [FiberGroup::pause] *)
| TryLoad | TryLoop (prev : Z)          (** [try_lock], [fetch_update_stable] *)
| Owner                                 (** the mutex is held *)
| Unlock                                (** [unlock], before the exchange *)
| UnparkLock                            (** [unlock_slow], [unpark_one]: the list is to be locked *)
| Pop                                   (** the list is locked: its head is to be removed *)
| Callback (fiber : option nat) (have_more : bool)
| UnparkRelease (fiber : option nat)
| Unpause (fiber : option nat).

(** The mutex's byte, its entry of [WAIT_LIST_MAP] with the lock of the map, and the
    fibers: where each is and its flag [paused]. *)
Record World : Type := MkWorld {
  locked : Z;
  map_lock : option nat;
  wait : list nat;
  pc : nat -> PC;
  paused : nat -> bool;
}.

Definition INIT : World := MkWorld 0 None [] (fun _ => Idle) (fun _ => false).

Definition upd {A} (f : nat -> A) (i : nat) (a : A) : nat -> A := fun j => if decide (j = i) then a else f j.

Definition go (i : nat) (p : PC) (w : World) : World :=
  MkWorld (locked w) (map_lock w) (wait w) (upd (pc w) i p) (paused w).
Definition set_locked (v : Z) (w : World) : World := MkWorld v (map_lock w) (wait w) (pc w) (paused w).
Definition set_map_lock (v : option nat) (w : World) : World := MkWorld (locked w) v (wait w) (pc w) (paused w).
Definition set_wait (v : list nat) (w : World) : World := MkWorld (locked w) (map_lock w) v (pc w) (paused w).
Definition set_paused (i : nat) (v : bool) (w : World) : World :=
  MkWorld (locked w) (map_lock w) (wait w) (pc w) (upd (paused w) i v).

(** [compare_exchange] and, when [spurious], a weak exchange that fails without cause. *)
Definition exchange (spurious : bool) (old new : Z) (ok : World -> World) (err : Z -> World -> World)
    (w : World) : World :=
  if (locked w =? old) && negb spurious then ok (set_locked new w) else err (locked w) w.

(** [RawMutex::lock] *)
Definition lock (i : nat) (spurious : bool) : World -> World :=
  exchange spurious 0 LOCKED_BIT (go i Owner) (fun _ => go i Load).

(** One iteration of the loop of [lock_slow]. *)
Definition lock_slow (i : nat) (in_fiber spurious : bool) (spinwait : nat) (state : Z) (w : World) : World :=
  if (state .& LOCKED_BIT) =? 0 then
    exchange spurious state (state .| LOCKED_BIT) (go i Owner) (fun x => go i (Loop spinwait x)) w
  else if negb in_fiber then go i (Loop spinwait (locked w)) w
  else if ((state .& PARKED_BIT) =? 0) && (spinwait <? 20)%nat then go i (Loop (S spinwait) (locked w)) w
  else if (state .& PARKED_BIT) =? 0 then
    exchange spurious state (state .| PARKED_BIT) (go i Park) (fun x => go i (Loop spinwait x)) w
  else go i Park w.

(** Locking [WAIT_LIST_MAP] waits until it is free. *)
Definition lock_map (i : nat) (p : PC) (w : World) : option World :=
  match map_lock w with None => Some (go i p (set_map_lock (Some i) w)) | Some _ => None end.

(** The closure [validate] that [lock_slow] passes to [park]. *)
Definition validate (i : nat) (w : World) : World :=
  go i (if locked w =? (LOCKED_BIT .| PARKED_BIT) then Enqueue else Release false) w.

(** [park]: the entry is linked at the tail, and [FiberGroup::prepare_pause]. *)
Definition enqueue (i : nat) (w : World) : World :=
  go i (Release true) (set_paused i true (set_wait (wait w ++ [i]) w)).

(** [park] returns when the fiber is not, or no longer, paused. *)
Definition pause (i : nat) (w : World) : option World :=
  if paused w i then None else Some (go i Load w).

(** [RawMutex::try_lock] *)
Definition try_lock (i : nat) (spurious : bool) (prev : Z) (w : World) : World :=
  if (prev .& LOCKED_BIT) <>? 0 then go i Idle w
  else exchange spurious prev (prev .| LOCKED_BIT) (go i Owner) (fun x => go i (TryLoop x)) w.

(** [RawMutex::unlock]: the exchange is a strong one. *)
Definition unlock (i : nat) : World -> World :=
  exchange false LOCKED_BIT 0 (go i Idle) (fun _ => go i UnparkLock).

(** [unpark_one]: the head of the list is removed. *)
Definition pop (i : nat) (w : World) : World :=
  match wait w with
  | [] => go i (Callback None false) w
  | f :: l => go i (Callback (Some f) (match l with [] => false | _ => true end)) (set_wait l w)
  end.

(** The closure that [unlock_slow] passes to [unpark_one]. *)
Definition callback (i : nat) (fiber : option nat) (have_more : bool) (w : World) : World :=
  go i (UnparkRelease fiber) (set_locked (if have_more then PARKED_BIT else 0) w).

Definition unpause (i : nat) (fiber : option nat) (w : World) : World :=
  go i Idle (match fiber with Some f => set_paused f false w | None => w end).

(** What a step is free to choose: how an idle fiber starts, and whether a weak exchange
    fails spuriously. *)
Record Choice : Type := MkChoice { try_first : bool; spurious : bool }.

Section Steps.
Variable in_fiber : nat -> bool.

(** One step of fiber [i]; [None] when it has to wait. *)
Definition exec (i : nat) (c : Choice) (w : World) : option World :=
  match pc w i with
  | Idle => Some (go i (if try_first c then TryLoad else Lock) w)
  | Lock => Some (lock i (spurious c) w)
  | Load => Some (go i (Loop 0 (locked w)) w)
  | Loop spinwait state => Some (lock_slow i (in_fiber i) (spurious c) spinwait state w)
  | Park => lock_map i Validate w
  | Validate => Some (validate i w)
  | Enqueue => Some (enqueue i w)
  | Release valid => Some (go i (if valid then Sleep else Load) (set_map_lock None w))
  | Sleep => pause i w
  | TryLoad => Some (go i (TryLoop (locked w)) w)
  | TryLoop prev => Some (try_lock i (spurious c) prev w)
  | Owner => Some (go i Unlock w)
  | Unlock => Some (unlock i w)
  | UnparkLock => lock_map i Pop w
  | Pop => Some (pop i w)
  | Callback fiber have_more => Some (callback i fiber have_more w)
  | UnparkRelease fiber => Some (go i (Unpause fiber) (set_map_lock None w))
  | Unpause fiber => Some (unpause i fiber w)
  end.

Inductive step : World -> World -> Prop :=
| step_exec i c w w' : exec i c w = Some w' -> step w w'.

Inductive reachable : World -> Prop :=
| reach_init : reachable INIT
| reach_step w w' : reachable w -> step w w' -> reachable w'.

End Steps.
End FiberMutex.
