(* ===== verification/FiberMutexProps.v ===== *)
(** The mutex is safe and loses no wake-up: at most one fiber holds it, a sleeping fiber is
    queued or being woken, and a free mutex with sleepers has a fiber that contends. *)

From Stdlib Require Import ZArith Lia Bool List.
From stdpp Require Import base list relations.
From S2P Require Import Prelude FiberMutex.
Import ListNotations.
Local Open Scope Z_scope.
Local Open Scope rust_scope.
Import FiberMutex.

(** ** Where a fiber is *)

(** It holds the mutex. *)
Definition holding (p : PC) : bool :=
  match p with Owner | Unlock | UnparkLock | Pop | Callback _ _ => true | _ => false end.

(** It holds the lock of the list. *)
Definition in_map (p : PC) : bool :=
  match p with Validate | Enqueue | Release _ | Pop | Callback _ _ | UnparkRelease _ => true | _ => false end.

(** It has queued itself and has not resumed. *)
Definition sleeping (p : PC) : bool := match p with Release true | Sleep => true | _ => false end.

(** It is about to wake a fiber. *)
Definition waking (p : PC) : option nat :=
  match p with Callback f _ | UnparkRelease f | Unpause f => f | _ => None end.

(** It is awake and in [lock]. *)
Definition contending (p : PC) : bool :=
  match p with Lock | Load | Loop _ _ | Park | Validate | Release false => true | _ => false end.

Definition is_locked (v : Z) : bool := Z.testbit v 0.
Definition is_parked (v : Z) : bool := Z.testbit v 1.

(** A fiber that will contend for the mutex without being woken by an unlock to come. *)
Definition awake (w : World) (i : nat) : Prop :=
  contending (pc w i) = true \/ (sleeping (pc w i) = true /\ paused w i = false) \/
  (waking (pc w i) <> None).

Record inv (w : World) : Prop := {
  inv_range : 0 <= locked w < 4;
  inv_holding i : holding (pc w i) = true -> is_locked (locked w) = true;
  inv_unique i j : holding (pc w i) = true -> holding (pc w j) = true -> i = j;
  inv_locked : is_locked (locked w) = true -> exists i, holding (pc w i) = true;
  inv_map i : in_map (pc w i) = true <-> map_lock w = Some i;
  inv_wait i : i ∈ wait w -> sleeping (pc w i) = true /\ paused w i = true;
  inv_nodup : NoDup (wait w);
  inv_sleep i : sleeping (pc w i) = true -> paused w i = true -> i ∈ wait w \/ exists j, waking (pc w j) = Some i;
  inv_parked : wait w <> [] -> is_parked (locked w) = true;
  inv_enqueue i : pc w i = Enqueue -> locked w = 3;
  inv_callback i f m : pc w i = Callback f m ->
    (m = true <-> wait w <> []) /\ (m = true -> f <> None);
  inv_waking i j : waking (pc w i) = Some j -> sleeping (pc w j) = true /\ paused w j = true /\ j ∉ wait w;
  inv_waking_unique i i' j : waking (pc w i) = Some j -> waking (pc w i') = Some j -> i = i';
  inv_awake : wait w <> [] -> is_locked (locked w) = false -> exists i, awake w i;
}.

Lemma upd_same {A} (f : nat -> A) i a : upd f i a i = a.
Proof. unfold upd. destruct (decide (i = i)); congruence. Qed.
Lemma upd_other {A} (f : nat -> A) i j a : j <> i -> upd f i a j = f j.
Proof. unfold upd. destruct (decide (j = i)); congruence. Qed.

Lemma upd_case {A} (f : nat -> A) i j a : (j = i /\ upd f i a j = a) \/ (j <> i /\ upd f i a j = f j).
Proof. destruct (decide (j = i)) as [->|E]; [left; rewrite upd_same|right; rewrite upd_other]; auto. Qed.

Lemma inv_init : inv INIT.
Proof.
  split; cbn; try discriminate; try contradiction; try lia; try (intros; split; discriminate).
  - intros i Hi. apply elem_of_nil in Hi as [].
  - constructor.
Qed.

(** ** Moving a fiber

    A step that changes nothing but where fiber [i] is, between places that are alike. *)

Record alike (w : World) (i : nat) (p : PC) : Prop := {
  alike_holding : holding p = holding (pc w i);
  alike_map : in_map p = in_map (pc w i);
  alike_sleeping : sleeping p = sleeping (pc w i);
  alike_waking : waking p = waking (pc w i);
  alike_awake : is_locked (locked w) = false -> contending (pc w i) = true -> contending p = true;
  alike_enqueue : p = Enqueue -> locked w = 3;
  alike_callback f m : p <> Callback f m;
}.

(** Case analysis on whether the fiber in question is the one that moves. *)
Ltac movers :=
  repeat (match goal with
  | H : context [upd ?f ?i ?a ?j] |- _ =>
      let E := fresh "Eq" in let N := fresh "Eq" in
      destruct (upd_case f i j a) as [[E N]|[E N]]; rewrite N in H; try subst; clear N
  | |- context [upd ?f ?i ?a ?j] =>
      let E := fresh "Eq" in let N := fresh "Eq" in
      destruct (upd_case f i j a) as [[E N]|[E N]]; rewrite N; try subst; clear N
  end; try match goal with H : ?x <> ?x |- _ => destruct (H eq_refl) end).


Lemma inv_go w i p : inv w -> alike w i p -> inv (go i p w).
Proof.
  intros I [Hh Hm Hs Hw Ha He Hc].
  assert (E : forall j, holding (upd (pc w) i p j) = holding (pc w j) /\ in_map (upd (pc w) i p j) = in_map (pc w j) /\
    sleeping (upd (pc w) i p j) = sleeping (pc w j) /\ waking (upd (pc w) i p j) = waking (pc w j)).
  { intros j. movers; auto. }
  split; cbn [go locked map_lock wait pc paused].
  - apply I.
  - intros j. rewrite (proj1 (E j)). apply I.
  - intros j k. rewrite (proj1 (E j)), (proj1 (E k)). apply I.
  - intros H. destruct (inv_locked _ I H) as [j Hj]. exists j. rewrite (proj1 (E j)). exact Hj.
  - intros j. rewrite (proj1 (proj2 (E j))). apply I.
  - intros j. rewrite (proj1 (proj2 (proj2 (E j)))). apply I.
  - apply I.
  - intros j. rewrite (proj1 (proj2 (proj2 (E j)))). intros H1 H2. destruct (inv_sleep _ I j H1 H2) as [H|[k Hk]]; [auto|].
    right. exists k. rewrite (proj2 (proj2 (proj2 (E k)))). exact Hk.
  - apply I.
  - intros j Hj. movers; [auto|apply (inv_enqueue _ I j Hj)].
  - intros j f m Hj. movers; [exfalso; eapply Hc; eauto|apply (inv_callback _ I j _ _ Hj)].
  - intros j k. rewrite (proj2 (proj2 (proj2 (E j)))), (proj1 (proj2 (proj2 (E k)))). apply I.
  - intros j k l. rewrite (proj2 (proj2 (proj2 (E j)))), (proj2 (proj2 (proj2 (E k)))). apply I.
  - intros H1 H2. destruct (inv_awake _ I H1 H2) as [j Hj]. exists j. unfold awake in *. cbn [go pc paused].
    rewrite (proj1 (proj2 (proj2 (E j)))), (proj2 (proj2 (proj2 (E j)))).
    destruct Hj as [Hj|Hj]; [|auto]. left. movers; auto.
Qed.

(** The fields of a changed world. *)
Ltac fields := cbn [go set_locked set_map_lock set_wait set_paused locked map_lock wait pc paused] in *.

(** ** Taking the mutex, and announcing a sleeper *)

(** A fiber that is in none of the places the invariant speaks of. *)
Definition plain (p : PC) : Prop :=
  holding p = false /\ in_map p = false /\ sleeping p = false /\ waking p = None.

Lemma range_cases v : 0 <= v < 4 -> v = 0 \/ v = 1 \/ v = 2 \/ v = 3.
Proof. lia. Qed.

(** Decide a fact about the byte of the mutex by its four values. *)
Ltac byte w :=
  match goal with I : inv w |- _ =>
    let H := fresh in pose proof (range_cases _ (inv_range _ I)) as H;
    destruct H as [H|[H|[H|H]]]; rewrite H in *; try discriminate; try reflexivity; try (split; vm_compute; congruence)
  end.

Lemma inv_acquire w i : inv w -> plain (pc w i) -> is_locked (locked w) = false ->
  inv (go i Owner (set_locked (locked w .| LOCKED_BIT) w)).
Proof.
  intros I (Hh & Hm & Hs & Hw) Hfree. pose proof (inv_holding _ I) as Hno.
  assert (Hnone : forall j, holding (pc w j) = true -> False) by (intros j Hj; apply Hno in Hj; congruence).
  assert (Hp : is_parked (locked w .| LOCKED_BIT) = is_parked (locked w)) by byte w.
  assert (Hl : is_locked (locked w .| LOCKED_BIT) = true) by byte w.
  split; fields.
  - byte w.
  - intros j Hj. exact Hl.
  - intros j k Hj Hk. movers; auto; exfalso; eauto.
  - intros _. exists i. rewrite upd_same. reflexivity.
  - intros j. rewrite <- (inv_map _ I j). movers; [cbn; rewrite Hm|]; tauto.
  - intros j Hj. movers; [apply (inv_wait _ I) in Hj; destruct Hj; congruence|apply I, Hj].
  - apply I.
  - intros j Hj Hpj. movers; [discriminate|]. destruct (inv_sleep _ I j Hj Hpj) as [H'|[k Hk]]; [auto|].
    right. exists k. rewrite upd_other; [exact Hk|congruence].
  - rewrite Hp. apply I.
  - intros j Hj. movers; [discriminate|]. apply (inv_enqueue _ I) in Hj. rewrite Hj in Hfree. discriminate.
  - intros j f m Hj. movers; [discriminate|apply (inv_callback _ I j), Hj].
  - intros j k Hj. movers; try discriminate.
    + apply (inv_waking _ I) in Hj as [Hj _]. congruence.
    + apply (inv_waking _ I j), Hj.
  - intros j k l Hj Hk. movers; try discriminate. apply (inv_waking_unique _ I j k l Hj Hk).
  - congruence.
Qed.

(** The parked bit is set while the mutex is held, the moving fiber staying in [lock]. *)
Lemma inv_set_parked w : inv w -> is_locked (locked w) = true -> inv (set_locked (locked w .| PARKED_BIT) w).
Proof.
  intros I Hlocked.
  assert (Hl : is_locked (locked w .| PARKED_BIT) = is_locked (locked w)) by byte w.
  split; fields; try (rewrite Hl); try apply I.
  - byte w.
  - intros _. byte w.
  - intros j Hj. apply (inv_enqueue _ I) in Hj. rewrite Hj. reflexivity.
Qed.

(** ** The lock of the list *)

(** Places that differ at most in holding the lock of the list. *)
Definition alike_but_map (w : World) (i : nat) (p : PC) : Prop :=
  holding p = holding (pc w i) /\ sleeping p = sleeping (pc w i) /\ waking p = waking (pc w i) /\
  (contending (pc w i) = true -> contending p = true) /\ p <> Enqueue /\ (forall f m, p <> Callback f m).

Lemma inv_map_change w i p l : inv w -> alike_but_map w i p ->
  (forall j, in_map (upd (pc w) i p j) = true <-> l = Some j) -> inv (go i p (set_map_lock l w)).
Proof.
  intros I (Hh & Hs & Hw & Ha & He & Hc) Hmap.
  assert (E : forall j, holding (upd (pc w) i p j) = holding (pc w j) /\
    sleeping (upd (pc w) i p j) = sleeping (pc w j) /\ waking (upd (pc w) i p j) = waking (pc w j)).
  { intros j. movers; auto. }
  split; fields.
  - apply I.
  - intros j. rewrite (proj1 (E j)). apply I.
  - intros j k. rewrite (proj1 (E j)), (proj1 (E k)). apply I.
  - intros H. destruct (inv_locked _ I H) as [j Hj]. exists j. rewrite (proj1 (E j)). exact Hj.
  - exact Hmap.
  - intros j. rewrite (proj1 (proj2 (E j))). apply I.
  - apply I.
  - intros j. rewrite (proj1 (proj2 (E j))). intros H1 H2. destruct (inv_sleep _ I j H1 H2) as [H|[k Hk]]; [auto|].
    right. exists k. rewrite (proj2 (proj2 (E k))). exact Hk.
  - apply I.
  - intros j Hj. movers. apply (inv_enqueue _ I j Hj).
  - intros j f m Hj. movers; [exfalso; eapply Hc; eauto|apply (inv_callback _ I j _ _ Hj)].
  - intros j k. rewrite (proj2 (proj2 (E j))), (proj1 (proj2 (E k))). apply I.
  - intros j k l'. rewrite (proj2 (proj2 (E j))), (proj2 (proj2 (E k))). apply I.
  - intros H1 H2. destruct (inv_awake _ I H1 H2) as [j Hj]. exists j. unfold awake in *. fields.
    rewrite (proj1 (proj2 (E j))), (proj2 (proj2 (E j))).
    destruct Hj as [Hj|Hj]; [|auto]. left. movers; auto.
Qed.

Lemma inv_lock_map w i p : inv w -> alike_but_map w i p -> in_map p = true -> map_lock w = None ->
  inv (go i p (set_map_lock (Some i) w)).
Proof.
  intros I Ha Hp Hn. apply inv_map_change; [exact I|exact Ha|]. intros j. movers; [rewrite Hp; intuition congruence|].
  rewrite (inv_map _ I j). intuition congruence.
Qed.

Lemma inv_unlock_map w i p : inv w -> alike_but_map w i p -> in_map p = false -> in_map (pc w i) = true ->
  inv (go i p (set_map_lock None w)).
Proof.
  intros I Ha Hp Hi. apply (inv_map _ I) in Hi. apply inv_map_change; [exact I|exact Ha|].
  intros j. movers; [rewrite Hp; intuition congruence|]. rewrite (inv_map _ I j). intuition congruence.
Qed.

(** ** Going to sleep and waking up *)

Lemma inv_enqueue_step w i : inv w -> pc w i = Enqueue -> inv (enqueue i w).
Proof.
  intros I Hi. pose proof (inv_enqueue _ I i Hi) as H3.
  assert (Hw : i ∉ wait w) by (intros H; apply (inv_wait _ I) in H as [H _]; rewrite Hi in H; discriminate).
  assert (Hu : forall j, waking (pc w j) = Some i -> False).
  { intros j Hj. apply (inv_waking _ I) in Hj as [Hj _]. rewrite Hi in Hj. discriminate. }
  assert (Hm : map_lock w = Some i) by (apply (inv_map _ I); rewrite Hi; reflexivity).
  unfold enqueue. split; fields.
  - apply I.
  - intros j Hj. rewrite H3. reflexivity.
  - intros j k Hj Hk. movers; try discriminate. eapply (inv_unique _ I); eauto.
  - intros H. destruct (inv_locked _ I H) as [j Hj]. exists j. movers; [rewrite Hi in Hj; discriminate|exact Hj].
  - intros j. rewrite <- (inv_map _ I j). movers; [rewrite Hi; reflexivity|reflexivity].
  - intros j Hj. apply elem_of_app in Hj as [Hj|Hj].
    + movers; [contradiction|]. apply I, Hj.
    + apply list_elem_of_singleton in Hj as ->. rewrite !upd_same. auto.
  - apply NoDup_app. split; [apply I|]. split; [|apply NoDup_singleton].
    intros j Hj Hj'. apply list_elem_of_singleton in Hj' as ->. contradiction.
  - intros j Hj Hp. rewrite elem_of_app. movers; [left; right; apply list_elem_of_singleton; reflexivity|].
    destruct (inv_sleep _ I j Hj Hp) as [H|[k Hk]]; [auto|]. right. exists k.
    rewrite upd_other; [exact Hk|]. intros ->. rewrite Hi in Hk. discriminate.
  - intros _. rewrite H3. reflexivity.
  - intros j Hj. exact H3.
  - intros j f m Hj. movers; [discriminate|]. exfalso.
    assert (map_lock w = Some j) by (apply (inv_map _ I); rewrite Hj; reflexivity). congruence.
  - intros j k Hj. movers; try discriminate; try solve [exfalso; eauto].
    apply (inv_waking _ I) in Hj as (Hs & Hp & Hn). rewrite elem_of_app, list_elem_of_singleton. tauto.
  - intros j k l Hj Hk. movers; try discriminate. eapply (inv_waking_unique _ I); eauto.
  - intros _ Hl. rewrite H3 in Hl. discriminate.
Qed.

(** A fiber that is not paused resumes. *)
Lemma inv_resume w i : inv w -> pc w i = Sleep -> paused w i = false -> inv (go i Load w).
Proof.
  intros I Hi Hp.
  assert (Hw : i ∉ wait w) by (intros H; apply (inv_wait _ I) in H as [_ H]; congruence).
  assert (Hu : forall j, waking (pc w j) = Some i -> False) by (intros j Hj; apply (inv_waking _ I) in Hj as (_ & Hj & _); congruence).
  split; fields.
  - apply I.
  - intros j Hj. movers; [discriminate|apply (inv_holding _ I j Hj)].
  - intros j k Hj Hk. movers; try discriminate. eapply (inv_unique _ I); eauto.
  - intros H. destruct (inv_locked _ I H) as [j Hj]. exists j. movers; [rewrite Hi in Hj; discriminate|exact Hj].
  - intros j. rewrite <- (inv_map _ I j). movers; [rewrite Hi; reflexivity|reflexivity].
  - intros j Hj. movers; [contradiction|]. apply I, Hj.
  - apply I.
  - intros j Hj Hpj. movers; [discriminate|]. destruct (inv_sleep _ I j Hj Hpj) as [H|[k Hk]]; [auto|]. right. exists k.
    rewrite upd_other; [exact Hk|]. intros ->. rewrite Hi in Hk. discriminate.
  - apply I.
  - intros j Hj. movers; [discriminate|apply (inv_enqueue _ I j Hj)].
  - intros j f m Hj. movers; [discriminate|apply (inv_callback _ I j _ _ Hj)].
  - intros j k Hj. movers; try discriminate; try solve [exfalso; eauto]. apply (inv_waking _ I j), Hj.
  - intros j k l Hj Hk. movers; try discriminate. eapply (inv_waking_unique _ I); eauto.
  - intros H1 H2. exists i. left. fields. rewrite upd_same. reflexivity.
Qed.

(** ** Releasing the mutex *)

Lemma inv_unlock_fast w i : inv w -> pc w i = Unlock -> locked w = LOCKED_BIT -> inv (go i Idle (set_locked 0 w)).
Proof.
  intros I Hi H1.
  assert (Hno : forall j, holding (pc w j) = true -> j = i) by (intros j Hj; apply (inv_unique _ I); [exact Hj|rewrite Hi; reflexivity]).
  assert (He : wait w = []).
  { destruct (wait w) as [|x l] eqn:E; [reflexivity|]. pose proof (inv_parked _ I) as H. rewrite H1, E in H.
    exfalso. discriminate H. discriminate. }
  split; fields.
  - lia.
  - intros j Hj. movers; [discriminate|]. apply Hno in Hj. contradiction.
  - intros j k Hj Hk. movers; try discriminate. eapply (inv_unique _ I); eauto.
  - discriminate.
  - intros j. rewrite <- (inv_map _ I j). movers; [rewrite Hi; reflexivity|reflexivity].
  - intros j Hj. rewrite He in Hj. apply elem_of_nil in Hj as [].
  - apply I.
  - intros j Hj Hpj. movers; [discriminate|]. destruct (inv_sleep _ I j Hj Hpj) as [H|[k Hk]]; [auto|]. right. exists k.
    rewrite upd_other; [exact Hk|]. intros ->. rewrite Hi in Hk. discriminate.
  - rewrite He. contradiction.
  - intros j Hj. movers; [discriminate|]. apply (inv_enqueue _ I) in Hj. rewrite H1 in Hj. discriminate.
  - intros j f m Hj. movers; [discriminate|apply (inv_callback _ I j _ _ Hj)].
  - intros j k Hj. movers; try discriminate.
    + apply (inv_waking _ I) in Hj as [Hj _]. rewrite Hi in Hj. discriminate.
    + apply (inv_waking _ I j), Hj.
  - intros j k l Hj Hk. movers; try discriminate. eapply (inv_waking_unique _ I); eauto.
  - rewrite He. contradiction.
Qed.

Lemma inv_pop w i : inv w -> pc w i = Pop -> inv (pop i w).
Proof.
  intros I Hi. assert (Hlk : is_locked (locked w) = true) by (apply (inv_holding _ I i); rewrite Hi; reflexivity).
  assert (Hm : map_lock w = Some i) by (apply (inv_map _ I); rewrite Hi; reflexivity).
  assert (Hen : forall j, pc w j = Enqueue -> j = i).
  { intros j Hj. assert (map_lock w = Some j) by (apply (inv_map _ I); rewrite Hj; reflexivity). congruence. }
  assert (Hcb : forall j f m, pc w j = Callback f m -> j = i).
  { intros j f m Hj. assert (map_lock w = Some j) by (apply (inv_map _ I); rewrite Hj; reflexivity). congruence. }
  unfold pop. destruct (wait w) as [|f l] eqn:E.
  - split; fields; try apply I; rewrite ?E.
    + intros j Hj. exact Hlk.
    + intros j k Hj Hk. movers; eauto; eapply (inv_unique _ I); eauto; rewrite Hi; reflexivity.
    + intros _. exists i. rewrite upd_same. reflexivity.
    + intros j. rewrite <- (inv_map _ I j). movers; [rewrite Hi; reflexivity|reflexivity].
    + intros j Hj. apply elem_of_nil in Hj as [].
    + intros j Hj Hpj. movers; [discriminate|]. destruct (inv_sleep _ I j Hj Hpj) as [H|[k Hk]]; [rewrite E in H; auto|]. right. exists k.
      rewrite upd_other; [exact Hk|]. intros ->. rewrite Hi in Hk. discriminate.
    + intros j Hj. movers; [discriminate|]. apply Hen in Hj. contradiction.
    + intros j f m Hj. movers; [injection Hj as <- <-; split; [split; [discriminate|contradiction]|discriminate]|].
      apply Hcb in Hj. contradiction.
    + intros j k Hj. movers; try discriminate.
      * apply (inv_waking _ I) in Hj as [Hj _]. rewrite Hi in Hj. discriminate.
      * rewrite <- E. apply (inv_waking _ I j), Hj.
    + intros j k l Hj Hk. movers; try discriminate. eapply (inv_waking_unique _ I); eauto.
    + contradiction.
  - pose proof (inv_nodup _ I) as Hnd. rewrite E in Hnd. apply NoDup_cons in Hnd as [Hf Hl].
    destruct (inv_wait _ I f) as [Hsf Hpf]; [rewrite E; apply list_elem_of_here|].
    assert (Hfi : f <> i) by (intros ->; rewrite Hi in Hsf; discriminate).
    assert (Hfw : forall j, waking (pc w j) = Some f -> False).
    { intros j Hj. apply (inv_waking _ I) in Hj as (_ & _ & Hj). apply Hj. rewrite E. apply list_elem_of_here. }
    assert (Hpk : is_parked (locked w) = true) by (apply I; rewrite E; discriminate).
    split; fields; try apply I.
    + intros j Hj. exact Hlk.
    + intros j k Hj Hk. movers; eauto; eapply (inv_unique _ I); eauto; rewrite Hi; reflexivity.
    + intros _. exists i. rewrite upd_same. reflexivity.
    + intros j. rewrite <- (inv_map _ I j). movers; [rewrite Hi; reflexivity|reflexivity].
    + intros j Hj. movers; [|apply I; rewrite E; apply list_elem_of_further, Hj].
      destruct (inv_wait _ I i) as [Hs _]; [rewrite E; apply list_elem_of_further, Hj|]. rewrite Hi in Hs. discriminate.
    + exact Hl.
    + intros j Hj Hpj. movers; [discriminate|]. destruct (inv_sleep _ I j Hj Hpj) as [H|[k Hk]].
      * rewrite E in H. apply elem_of_cons in H as [->|H]; [|auto]. right. exists i. rewrite upd_same. reflexivity.
      * right. exists k. rewrite upd_other; [exact Hk|]. intros ->. rewrite Hi in Hk. discriminate.
    + intros _. exact Hpk.
    + intros j Hj. movers; [discriminate|]. apply Hen in Hj. contradiction.
    + intros j f' m Hj. movers; [|apply Hcb in Hj; contradiction]. injection Hj as <- <-.
      split; [|discriminate]. destruct l; split; congruence.
    + intros j k Hj. destruct (decide (j = i)) as [->|N].
      * rewrite upd_same in Hj. injection Hj as <-. rewrite upd_other by exact Hfi. auto.
      * rewrite upd_other in Hj by exact N. apply (inv_waking _ I) in Hj as (H1 & H2 & H3).
        rewrite upd_other by (intros ->; rewrite Hi in H1; discriminate). rewrite E, elem_of_cons in H3. tauto.
    + intros j k l' Hj Hk. movers; auto; cbn in *; try (injection Hj as <-); try (injection Hk as <-);
        try solve [exfalso; eauto]. eapply (inv_waking_unique _ I); eauto.
    + congruence.
Qed.

Lemma inv_callback_step w i f m : inv w -> pc w i = Callback f m -> inv (callback i f m w).
Proof.
  intros I Hi. destruct (inv_callback _ I i f m Hi) as [Hm Hf].
  assert (Hk : map_lock w = Some i) by (apply (inv_map _ I); rewrite Hi; reflexivity).
  assert (Hno : forall j, holding (pc w j) = true -> j = i) by (intros j Hj; apply (inv_unique _ I); [exact Hj|rewrite Hi; reflexivity]).
  assert (Hin : forall j, in_map (pc w j) = true -> j = i) by (intros j Hj; apply (inv_map _ I) in Hj; congruence).
  assert (E : forall j, sleeping (upd (pc w) i (UnparkRelease f) j) = sleeping (pc w j) /\
    waking (upd (pc w) i (UnparkRelease f) j) = waking (pc w j)) by (intros j; movers; rewrite ?Hi; auto).
  unfold callback. split; fields.
  - destruct m; vm_compute; split; congruence.
  - intros j Hj. movers; [discriminate|]. apply Hno in Hj. contradiction.
  - intros j k Hj Hk'. movers; try discriminate. eapply (inv_unique _ I); eauto.
  - destruct m; discriminate.
  - intros j. rewrite <- (inv_map _ I j). movers; [rewrite Hi; reflexivity|reflexivity].
  - intros j Hj. rewrite (proj1 (E j)). apply I, Hj.
  - apply I.
  - intros j. rewrite (proj1 (E j)). intros H1 H2. destruct (inv_sleep _ I j H1 H2) as [H|[k Hk']]; [auto|].
    right. exists k. rewrite (proj2 (E k)). exact Hk'.
  - intros Hw. apply Hm in Hw as ->. reflexivity.
  - intros j Hj. movers; [discriminate|]. exfalso. apply Eq, Hin. rewrite Hj. reflexivity.
  - intros j f' m' Hj. movers; [discriminate|]. exfalso. apply Eq, Hin. rewrite Hj. reflexivity.
  - intros j k. rewrite (proj2 (E j)), (proj1 (E k)). apply I.
  - intros j k l. rewrite (proj2 (E j)), (proj2 (E k)). apply I.
  - intros Hw _. exists i. right. right. fields. rewrite upd_same. cbn. apply Hf, Hm, Hw.
Qed.

Lemma inv_unpause w i f : inv w -> pc w i = Unpause f -> inv (unpause i f w).
Proof.
  intros I Hi. unfold unpause. destruct f as [f|].
  - destruct (inv_waking _ I i f) as (Hs & Hp & Hw); [rewrite Hi; reflexivity|].
    assert (Hfi : f <> i) by (intros ->; rewrite Hi in Hs; discriminate).
    assert (Hu : forall j, j <> i -> waking (pc w j) = Some f -> False).
    { intros j N Hj. apply N. apply (inv_waking_unique _ I j i f Hj). rewrite Hi. reflexivity. }
    split; fields; try apply I.
    + intros j Hj. movers; [discriminate|apply (inv_holding _ I j Hj)].
    + intros j k Hj Hk. movers; try discriminate. eapply (inv_unique _ I); eauto.
    + intros H. destruct (inv_locked _ I H) as [j Hj]. exists j. movers; [rewrite Hi in Hj; discriminate|exact Hj].
    + intros j. rewrite <- (inv_map _ I j). movers; [rewrite Hi; reflexivity|reflexivity].
    + intros j Hj. rewrite (upd_other (paused w)) by (intros ->; contradiction). apply (inv_wait _ I) in Hj as [H1 H2].
      rewrite upd_other by (intros ->; rewrite Hi in H1; discriminate). auto.
    + intros j Hj Hpj. movers; try discriminate. destruct (inv_sleep _ I j Hj Hpj) as [H|[k Hk]]; [auto|]. right. exists k.
      rewrite upd_other; [exact Hk|]. intros ->. rewrite Hi in Hk. cbn in Hk. congruence.
    + intros j Hj. movers; [discriminate|apply (inv_enqueue _ I j Hj)].
    + intros j f' m Hj. movers; [discriminate|apply (inv_callback _ I j _ _ Hj)].
    + intros j k Hj. destruct (decide (j = i)) as [->|N]; [rewrite upd_same in Hj; discriminate|].
      rewrite upd_other in Hj by exact N. rewrite (upd_other (paused w)) by (intros ->; eauto).
      pose proof (inv_waking _ I j k Hj) as (H1 & H2 & H3).
      rewrite upd_other by (intros ->; rewrite Hi in H1; discriminate). auto.
    + intros j k l Hj Hk. movers; try discriminate. eapply (inv_waking_unique _ I); eauto.
    + intros _ _. exists f. right. left. fields. rewrite upd_same, upd_other by exact Hfi. auto.
  - apply inv_go; [exact I|]. split; rewrite ?Hi; cbn; congruence.
Qed.

(** ** Every step keeps the invariant *)

(** Between places that are alike. *)
Ltac moved Hi := apply inv_go; [assumption|]; split; rewrite ?Hi; cbn; congruence.

Lemma not_locked_bit v : (v .& LOCKED_BIT) = 0 -> is_locked v = false.
Proof.
  intros H. unfold is_locked. apply (f_equal (fun x => Z.testbit x 0)) in H. rewrite Z.land_spec, andb_true_r in H. exact H.
Qed.

Lemma locked_bit v : (v .& LOCKED_BIT) <> 0 -> is_locked v = true.
Proof.
  intros H. destruct (is_locked v) eqn:E; [reflexivity|]. destruct H. unfold LOCKED_BIT. apply Z.bits_inj'. intros n Hn.
  rewrite Z.land_spec, Z.bits_0. change 1 with (2 ^ 0). rewrite Z.pow2_bits_eqb by lia.
  destruct (Z.eqb_spec 0 n) as [<-|]; [unfold is_locked in E; rewrite E; reflexivity|apply andb_false_r].
Qed.

Lemma inv_exchange w i sp old err : inv w -> plain (pc w i) -> is_locked old = false ->
  inv (err (locked w) w) -> inv (exchange sp old (old .| LOCKED_BIT) (go i Owner) err w).
Proof.
  intros I Hp Hl He. unfold exchange. destruct (Z.eqb_spec (locked w) old) as [<-|]; [|exact He].
  destruct sp; [exact He|]. apply inv_acquire; assumption.
Qed.

Lemma inv_lock_slow w i b sp n v : inv w -> pc w i = Loop n v -> inv (lock_slow i b sp n v w).
Proof.
  intros I Hi. unfold lock_slow. destruct (Z.eqb_spec (v .& LOCKED_BIT) 0) as [H0|H0].
  { apply inv_exchange; [exact I|rewrite Hi; repeat split|apply not_locked_bit, H0|moved Hi]. }
  destruct b; cbn [negb]; [|moved Hi]. destruct (Z.eqb_spec (v .& PARKED_BIT) 0) as [H1|H1]; cbn [andb]; [|moved Hi].
  destruct (n <? 20)%nat; [moved Hi|]. unfold exchange.
  destruct (Z.eqb_spec (locked w) v) as [<-|]; [|moved Hi]. destruct sp; [moved Hi|].
  cbn [andb negb]. apply locked_bit in H0. pose proof (inv_set_parked _ I H0) as I'. apply inv_go; [exact I'|].
  split; fields; rewrite ?Hi; cbn; congruence.
Qed.

Lemma inv_step in_fiber w w' : inv w -> step in_fiber w w' -> inv w'.
Proof.
  intros I S. destruct S as [i c w w' S]. revert S. unfold exec.
  destruct (pc w i) eqn:Hi; unfold lock_map, pause; try (intros [= <-]).
  - destruct (try_first c); moved Hi.
  - apply inv_exchange; [exact I|rewrite Hi; repeat split|reflexivity|moved Hi].
  - moved Hi.
  - apply inv_lock_slow; assumption.
  - destruct (map_lock w) eqn:E; [discriminate|]. intros [= <-].
    apply inv_lock_map; [exact I|unfold alike_but_map; rewrite Hi; repeat split; cbn; congruence|reflexivity|exact E].
  - unfold validate. destruct (Z.eqb_spec (locked w) (LOCKED_BIT .| PARKED_BIT)) as [E|E]; [|moved Hi].
    change (LOCKED_BIT .| PARKED_BIT) with 3 in E. apply inv_go; [exact I|]. split; rewrite ?Hi, ?E; easy.
  - apply inv_enqueue_step; assumption.
  - apply inv_unlock_map; [exact I| |destruct valid; reflexivity|rewrite Hi; reflexivity].
    unfold alike_but_map; rewrite Hi. destruct valid; repeat split; cbn; congruence.
  - destruct (paused w i) eqn:E; [discriminate|]. intros [= <-]. apply inv_resume; assumption.
  - moved Hi.
  - unfold try_lock. destruct (Z.eqb_spec (prev .& LOCKED_BIT) 0) as [E|E]; cbn [negb]; [|moved Hi].
    apply inv_exchange; [exact I|rewrite Hi; repeat split|apply not_locked_bit, E|moved Hi].
  - moved Hi.
  - unfold unlock, exchange. destruct (Z.eqb_spec (locked w) LOCKED_BIT) as [E|E]; cbn [andb negb]; [|moved Hi].
    apply inv_unlock_fast; assumption.
  - destruct (map_lock w) eqn:E; [discriminate|]. intros [= <-].
    apply inv_lock_map; [exact I|unfold alike_but_map; rewrite Hi; repeat split; cbn; congruence|reflexivity|exact E].
  - apply inv_pop; assumption.
  - apply inv_callback_step; assumption.
  - apply inv_unlock_map; [exact I|unfold alike_but_map; rewrite Hi; repeat split; cbn; congruence|reflexivity|rewrite Hi; reflexivity].
  - apply inv_unpause; assumption.
Qed.

Lemma inv_reachable in_fiber w : reachable in_fiber w -> inv w.
Proof. induction 1; [apply inv_init|eapply inv_step; eassumption]. Qed.

Lemma exec_other in_fiber i c w w' j : exec in_fiber i c w = Some w' -> j <> i -> pc w' j = pc w j.
Proof.
  unfold exec, lock, lock_slow, lock_map, validate, enqueue, pause, try_lock, unlock, pop, callback, unpause, exchange.
  intros H N. destruct (pc w i);
    repeat match goal with
    | H : context [if ?b then _ else _] |- _ => destruct b
    | H : context [match ?x with _ => _ end] |- _ => destruct x
    end; try discriminate; injection H as <-; cbn; rewrite upd_other by exact N; reflexivity.
Qed.

(** ** A mutex that is wanted is taken *)

Section Progress.
Variable in_fiber : nat -> bool.

(** A fiber that called [lock] and does not hold the mutex yet. *)
Definition wants (p : PC) : bool :=
  match p with Lock | Load | Loop _ _ | Park | Validate | Enqueue | Release _ | Sleep => true | _ => false end.

(** A step of a fiber that is inside an operation: none starts. *)
Inductive inner : World -> World -> Prop :=
| inner_exec i c w w' : pc w i <> Idle -> exec in_fiber i c w = Some w' -> inner w w'.

(** Such steps lead from [w] to where a fiber that waits for the mutex in [w] holds it. *)
Definition acquires (w : World) : Prop :=
  exists w' j, rtc inner w w' /\ wants (pc w j) = true /\ holding (pc w' j) = true.

(** Who waits after such a step waited before it. *)
Lemma inner_wants w w' j : inner w w' -> wants (pc w' j) = true -> wants (pc w j) = true.
Proof.
  intros [i c w1 w2 Hi H] Hj. destruct (decide (j = i)) as [->|N]; [|rewrite <- (exec_other _ _ _ _ _ j H N); exact Hj].
  revert H Hj. unfold exec. destruct (pc w1 i) eqn:E; try reflexivity; try contradiction;
    unfold lock_map, try_lock, unlock, pop, callback, unpause, exchange;
    repeat match goal with |- context [match ?x with _ => _ end] => destruct x end;
    intros [= <-]; cbn; rewrite upd_same; intros Hj; first [discriminate|reflexivity].
Qed.

Lemma acquires_after w w' : inner w w' -> acquires w' -> acquires w.
Proof.
  intros S (w'' & j & R & Hj & Hh). exists w'', j. split; [eapply rtc_l; eassumption|]. split; [|exact Hh].
  eapply inner_wants; eassumption.
Qed.

Definition ready (w : World) : Prop := inv w /\ forall i, holding (pc w i) = false.

Lemma ready_free w : ready w -> is_locked (locked w) = false.
Proof.
  intros [I H]. destruct (is_locked (locked w)) eqn:E; [|reflexivity]. destruct (inv_locked _ I E) as [i Hi]. congruence.
Qed.

Lemma ready_not_locked w : ready w -> (locked w .& LOCKED_BIT) = 0.
Proof.
  intros R. destruct (Z.eq_dec (locked w .& LOCKED_BIT) 0) as [E|E]; [exact E|]. apply locked_bit in E.
  rewrite ready_free in E by exact R. discriminate.
Qed.

(** The mutex is taken by a step only from [lock] and [try_lock]. *)
Definition trying (p : PC) : bool := match p with Idle | TryLoad | TryLoop _ => true | _ => false end.

Lemma taken_by_waiter i c w w' : exec in_fiber i c w = Some w' -> trying (pc w i) = false -> holding (pc w i) = false ->
  holding (pc w' i) = true -> wants (pc w i) = true.
Proof.
  unfold exec. destruct (pc w i) eqn:E; try discriminate; try reflexivity;
    unfold unpause; intros [= <-] _ _; cbn; rewrite upd_same; discriminate.
Qed.

Lemma acquires_step w i c w' :
  ready w -> trying (pc w i) = false -> exec in_fiber i c w = Some w' -> (ready w' -> acquires w') -> acquires w.
Proof.
  intros [I H] Ht S K. assert (S' : inner w w') by (econstructor; [|exact S]; intros E; rewrite E in Ht; discriminate).
  pose proof (inv_step _ _ _ I (step_exec _ _ _ _ _ S)) as I'. destruct (is_locked (locked w')) eqn:E.
  - destruct (inv_locked _ I' E) as [j Hj]. assert (j = i) as ->.
    { destruct (decide (j = i)) as [|N]; [assumption|]. rewrite (exec_other _ _ _ _ _ j S N), H in Hj. discriminate. }
    exists w', i. split; [apply rtc_once; exact S'|]. split; [eapply taken_by_waiter; eauto|exact Hj].
  - eapply acquires_after; [exact S'|]. apply K. split; [exact I'|]. intros j. destruct (holding (pc w' j)) eqn:Ej; [|reflexivity].
    apply (inv_holding _ I') in Ej. congruence.
Qed.

(** One step of fiber [i], known from where it is, without a spurious failure. *)
Ltac takes_step i Hi :=
  eapply (acquires_step _ i (MkChoice false false)); [assumption|rewrite Hi; reflexivity|unfold exec; rewrite Hi; reflexivity|intros ?].

Lemma acquires_loop_now w i n : ready w -> pc w i = Loop n (locked w) -> acquires w.
Proof.
  intros R Hi. takes_step i Hi. exfalso. revert H. unfold lock_slow. rewrite ready_not_locked by exact R. cbn [Z.eqb].
  unfold exchange. rewrite Z.eqb_refl. cbn [spurious negb andb]. intros [_ H]. specialize (H i). fields.
  rewrite upd_same in H. discriminate.
Qed.

Lemma acquires_load w i : ready w -> pc w i = Load -> acquires w.
Proof.
  intros R Hi. takes_step i Hi. apply (acquires_loop_now _ i 0); [assumption|]. fields. apply upd_same.
Qed.

Lemma acquires_release w i : ready w -> pc w i = Release false -> acquires w.
Proof. intros R Hi. takes_step i Hi. apply (acquires_load _ i); [assumption|]. fields. apply upd_same. Qed.

Lemma acquires_validate w i : ready w -> pc w i = Validate -> acquires w.
Proof.
  intros R Hi. takes_step i Hi. apply (acquires_release _ i); [assumption|]. unfold validate.
  destruct (Z.eqb_spec (locked w) (LOCKED_BIT .| PARKED_BIT)) as [E|E]; [|fields; apply upd_same].
  pose proof (ready_free _ R) as F. rewrite E in F. discriminate.
Qed.

Lemma acquires_park_now w i : ready w -> pc w i = Park -> map_lock w = None -> acquires w.
Proof.
  intros R Hi Hm. eapply (acquires_step _ i (MkChoice false false)); [assumption|rewrite Hi; reflexivity| |].
  - unfold exec, lock_map. rewrite Hi, Hm. reflexivity.
  - intros R'. apply (acquires_validate _ i); [assumption|]. fields. apply upd_same.
Qed.

(** Whoever holds the list lets go of it. *)
Lemma acquires_park w i : ready w -> pc w i = Park -> acquires w.
Proof.
  intros R Hi. destruct (map_lock w) as [j|] eqn:Hm; [|apply (acquires_park_now _ i); assumption].
  pose proof R as [I Hno]. pose proof (proj2 (inv_map _ I j) Hm) as Hj.
  assert (N : i <> j) by (intros ->; rewrite Hi in Hj; discriminate).
  specialize (Hno j). destruct (pc w j) eqn:E; try discriminate.
  - apply (acquires_validate _ j); assumption.
  - pose proof (inv_enqueue _ I j E) as H3. pose proof (ready_free _ R) as F. rewrite H3 in F. discriminate.
  - takes_step j E. apply (acquires_park_now _ i); [assumption|fields; rewrite upd_other by exact N; exact Hi|reflexivity].
  - takes_step j E. apply (acquires_park_now _ i); [assumption|fields; rewrite upd_other by exact N; exact Hi|reflexivity].
Qed.

Lemma acquires_loop w i n v : ready w -> pc w i = Loop n v -> acquires w.
Proof.
  intros R Hi. destruct (Z.eq_dec v (locked w)) as [->|N]; [eapply acquires_loop_now; eassumption|].
  takes_step i Hi. revert H. unfold lock_slow, exchange. rewrite (proj2 (Z.eqb_neq (locked w) v)) by congruence.
  cbn [andb negb spurious].
  destruct (_ =? 0); [|destruct (in_fiber i); cbn [negb]; [destruct (_ =? 0); cbn [andb]; [destruct (n <? 20)%nat|]|]]; intros R';
    try (eapply (acquires_loop_now _ i); [assumption|fields; apply upd_same]).
  apply (acquires_park _ i); [assumption|]. fields. apply upd_same.
Qed.

Lemma acquires_lock w i : ready w -> pc w i = Lock -> acquires w.
Proof.
  intros R Hi. takes_step i Hi. revert H. unfold lock, exchange. destruct (locked w =? 0); cbn [spurious negb andb].
  - intros [_ H]. specialize (H i). fields. rewrite upd_same in H. discriminate.
  - intros R'. apply (acquires_load _ i); [assumption|]. fields. apply upd_same.
Qed.

Lemma acquires_woken w i : ready w -> sleeping (pc w i) = true -> paused w i = false -> acquires w.
Proof.
  intros R Hs Hp.
  assert (K : forall w, ready w -> pc w i = Sleep -> paused w i = false -> acquires w).
  { clear. intros w R Hi Hp. eapply (acquires_step _ i (MkChoice false false)); [assumption|rewrite Hi; reflexivity| |].
    - unfold exec, pause. rewrite Hi, Hp. reflexivity.
    - intros R'. apply (acquires_load _ i); [assumption|]. fields. apply upd_same. }
  destruct (pc w i) eqn:E; try discriminate; [|apply K; assumption]. destruct valid; [|discriminate].
  takes_step i E. apply K; fields; [assumption|apply upd_same|exact Hp].
Qed.

Lemma acquires_waking w i f : ready w -> waking (pc w i) = Some f -> acquires w.
Proof.
  intros R Hw.
  assert (K : forall w, ready w -> pc w i = Unpause (Some f) -> acquires w).
  { clear. intros w R Hi. pose proof R as [I _]. destruct (inv_waking _ I i f) as (Hs & _); [rewrite Hi; reflexivity|].
    assert (N : f <> i) by (intros ->; rewrite Hi in Hs; discriminate).
    takes_step i Hi. apply (acquires_woken _ f); [assumption| |]; unfold unpause; fields;
      [rewrite upd_other by exact N; exact Hs|apply upd_same]. }
  pose proof (proj2 R i) as Hno. destruct (pc w i) eqn:E; try discriminate; cbn in Hw; subst; [|apply K; assumption].
  takes_step i E. apply K; [assumption|]. fields. apply upd_same.
Qed.

Lemma acquires_awake w i : ready w -> awake w i -> acquires w.
Proof.
  intros R [Hc|[[Hs Hp]|Hw]].
  - destruct (pc w i) eqn:E; try discriminate;
      [eapply acquires_lock|eapply acquires_load|eapply acquires_loop|eapply acquires_park|eapply acquires_validate|]; try eassumption.
    destruct valid; [discriminate|]. eapply acquires_release; eassumption.
  - eapply acquires_woken; eassumption.
  - destruct (waking (pc w i)) as [f|] eqn:E; [|contradiction]. eapply acquires_waking; eassumption.
Qed.

Lemma acquires_wanted w i : ready w -> wants (pc w i) = true -> acquires w.
Proof.
  intros R Hi. destruct (contending (pc w i)) eqn:Hc; [apply (acquires_awake w i R); left; exact Hc|].
  destruct (sleeping (pc w i)) eqn:Hs.
  - destruct (paused w i) eqn:Hp; [|apply (acquires_woken _ i); assumption]. pose proof R as [I _].
    destruct (inv_sleep _ I i Hs Hp) as [Hw|[j Hj]]; [|eapply acquires_waking; eassumption].
    destruct (inv_awake _ I) as [j Hj]; [intros E; rewrite E in Hw; apply elem_of_nil in Hw as []|apply ready_free, R|].
    apply (acquires_awake _ j); assumption.
  - destruct (pc w i) as [| | | | | | |[]| | | | | | | | | |] eqn:E; try discriminate.
    pose proof (inv_enqueue _ (proj1 R) i E) as H3. pose proof (ready_free _ R) as F. rewrite H3 in F. discriminate.
Qed.

(** ** A mutex that is held is released *)

Lemma held_step w k c w' : inv w -> pc w k <> Idle -> exec in_fiber k c w = Some w' -> (inv w' -> acquires w') -> acquires w.
Proof.
  intros I Hk S K. eapply acquires_after; [econstructor; eassumption|]. apply K. eapply inv_step; [exact I|econstructor; exact S].
Qed.

Ltac steps k Hk :=
  eapply (held_step _ k (MkChoice false false)); [assumption|rewrite Hk; discriminate|unfold exec; rewrite Hk; reflexivity|intros ?].

Lemma freed_taken w i : inv w -> is_locked (locked w) = false -> wants (pc w i) = true -> acquires w.
Proof.
  intros I F Hi. apply (acquires_wanted w i); [|exact Hi]. split; [exact I|]. intros j.
  destruct (holding (pc w j)) eqn:E; [|reflexivity]. apply (inv_holding _ I) in E. congruence.
Qed.

Section Held.
Variables h i : nat.
Hypothesis apart : i <> h.

Lemma held_callback w f m : inv w -> pc w h = Callback f m -> wants (pc w i) = true -> acquires w.
Proof.
  intros I Hh Hi. steps h Hh. apply (freed_taken _ i); [assumption|unfold callback; fields; destruct m; reflexivity|].
  unfold callback. fields. rewrite upd_other by exact apart. exact Hi.
Qed.

Lemma held_pop w : inv w -> pc w h = Pop -> wants (pc w i) = true -> acquires w.
Proof.
  intros I Hh Hi. steps h Hh. unfold pop in *. destruct (wait w); eapply held_callback; try assumption; fields;
    try apply upd_same; rewrite upd_other by exact apart; exact Hi.
Qed.

Lemma held_unpark_now w : inv w -> pc w h = UnparkLock -> map_lock w = None -> wants (pc w i) = true -> acquires w.
Proof.
  intros I Hh Hm Hi. eapply (held_step _ h (MkChoice false false)); [assumption|rewrite Hh; discriminate|unfold exec, lock_map; rewrite Hh, Hm; reflexivity|].
  intros I'. apply held_pop; [assumption|fields; apply upd_same|fields; rewrite upd_other by exact apart; exact Hi].
Qed.

(** Whoever has the list, in [park] or after [unpark_one], lets go of it. *)
Lemma held_release w k v : inv w -> pc w h = UnparkLock -> pc w k = Release v -> wants (pc w i) = true -> acquires w.
Proof.
  intros I Hh Hk Hi. steps k Hk. apply held_unpark_now; [assumption| |reflexivity|]; fields.
  - rewrite upd_other by congruence. exact Hh.
  - destruct (upd_case (pc w) k i (if v then Sleep else Load)) as [[_ ->]|[_ ->]]; [destruct v; reflexivity|exact Hi].
Qed.

Lemma held_enqueue w k : inv w -> pc w h = UnparkLock -> pc w k = Enqueue -> wants (pc w i) = true -> acquires w.
Proof.
  intros I Hh Hk Hi. steps k Hk. apply (held_release _ k true); unfold enqueue in *; fields; [assumption| |apply upd_same|].
  - rewrite upd_other by congruence. exact Hh.
  - destruct (upd_case (pc w) k i (Release true)) as [[_ ->]|[_ ->]]; [reflexivity|exact Hi].
Qed.

Lemma held_validate w k : inv w -> pc w h = UnparkLock -> pc w k = Validate -> wants (pc w i) = true -> acquires w.
Proof.
  intros I Hh Hk Hi. steps k Hk. unfold validate in *.
  destruct (_ =? _); [apply (held_enqueue _ k)|apply (held_release _ k false)]; fields; try assumption; try apply upd_same;
    try (rewrite upd_other by congruence; exact Hh);
    match goal with |- context [upd (pc w) k ?p i] => destruct (upd_case (pc w) k i p) as [[_ ->]|[_ ->]]; [reflexivity|exact Hi] end.
Qed.

Lemma held_unpark w : inv w -> pc w h = UnparkLock -> wants (pc w i) = true -> acquires w.
Proof.
  intros I Hh Hi. destruct (map_lock w) as [k|] eqn:Hm; [|apply held_unpark_now; assumption].
  pose proof (proj2 (inv_map _ I k) Hm) as Hk. assert (N : k <> h) by (intros ->; rewrite Hh in Hk; discriminate).
  destruct (pc w k) eqn:E; try discriminate; try (exfalso; apply N, (inv_unique _ I); rewrite ?E, ?Hh; reflexivity).
  - apply (held_validate _ k); assumption.
  - apply (held_enqueue _ k); assumption.
  - apply (held_release _ k valid); assumption.
  - steps k E. apply held_unpark_now; fields; [assumption| |reflexivity|]; rewrite upd_other by (intros ->; congruence || (rewrite E in Hi; discriminate)); assumption.
Qed.

Lemma held_unlock w : inv w -> pc w h = Unlock -> wants (pc w i) = true -> acquires w.
Proof.
  intros I Hh Hi. steps h Hh. unfold unlock, exchange in *. rewrite andb_true_r in *. destruct (locked w =? LOCKED_BIT).
  - apply (freed_taken _ i); fields; [assumption|reflexivity|rewrite upd_other by exact apart; exact Hi].
  - apply held_unpark; fields; [assumption|apply upd_same|rewrite upd_other by exact apart; exact Hi].
Qed.

Lemma held_taken w : inv w -> holding (pc w h) = true -> wants (pc w i) = true -> acquires w.
Proof.
  intros I Hh Hi. destruct (pc w h) eqn:E; try discriminate.
  - steps h E. apply held_unlock; fields; [assumption|apply upd_same|rewrite upd_other by exact apart; exact Hi].
  - apply held_unlock; assumption.
  - apply held_unpark; assumption.
  - apply held_pop; assumption.
  - eapply held_callback; eassumption.
Qed.
End Held.

End Progress.

(** ** The specification of a lock *)

(** [o] is who holds the mutex: the only one, if any. *)
Definition holds (w : World) (o : option nat) : Prop :=
  match o with
  | Some i => holding (pc w i) = true /\ (forall j, holding (pc w j) = true -> j = i) /\ is_locked (locked w) = true
  | None => (forall j, holding (pc w j) = false) /\ is_locked (locked w) = false
  end.

(** What a step of fiber [i] may do to a lock: nothing, take it when it is free, release
    it when [i] has it. *)
Inductive lock_spec (i : nat) : option nat -> option nat -> Prop :=
| spec_stutter o : lock_spec i o o
| spec_acquire : lock_spec i None (Some i)
| spec_release : lock_spec i (Some i) None.

Lemma holds_some w : inv w -> exists o, holds w o.
Proof.
  intros I. destruct (is_locked (locked w)) eqn:E.
  - destruct (inv_locked _ I E) as [i Hi]. exists (Some i). split; [exact Hi|]. split; [|exact E].
    intros j Hj. apply (inv_unique _ I); assumption.
  - exists None. split; [|exact E]. intros j. destruct (holding (pc w j)) eqn:Ej; [|reflexivity].
    apply (inv_holding _ I) in Ej. congruence.
Qed.

(** C37. The mutex implements a lock, under every interleaving of any number of fibers
    and threads, and with exchanges that fail spuriously: in every reachable state at
    most one fiber holds it and its locked bit says whether one does, and every step of a
    fiber leaves the holder, or takes the mutex when it is free, or releases it when the
    fiber has it. *)
Theorem mutex_refines in_fiber i c w w' :
  reachable in_fiber w -> exec in_fiber i c w = Some w' ->
  exists o o', holds w o /\ holds w' o' /\ lock_spec i o o'.
Proof.
  intros R S. pose proof (inv_reachable _ _ R) as I.
  pose proof (inv_step _ _ _ I (step_exec _ i c w w' S)) as I'.
  pose proof (fun j => exec_other _ _ _ _ _ j S) as Ho.
  destruct (holds_some w I) as [[a|] Ha], (holds_some w' I') as [[b|] Hb]; eexists _, _; (split; [exact Ha|]; split; [exact Hb|]).
  - destruct Ha as (Ha & Hua & _), Hb as (Hb & Hub & _). destruct (decide (b = i)) as [->|N].
    + destruct (decide (a = i)) as [->|N]; [constructor|]. rewrite <- Ho in Ha by exact N. apply Hub in Ha. contradiction.
    + rewrite Ho in Hb by exact N. apply Hua in Hb as ->. constructor.
  - destruct Ha as (Ha & _), Hb as (Hb & _). destruct (decide (a = i)) as [->|N]; [constructor|].
    rewrite <- Ho, Hb in Ha by exact N. discriminate.
  - destruct Ha as (Ha & _), Hb as (Hb & _). destruct (decide (b = i)) as [->|N]; [constructor|].
    rewrite Ho, Ha in Hb by exact N. discriminate.
  - constructor.
Qed.

(** C38. No wake-up is lost and no fiber waits for nothing: in every reachable state a fiber
    that sleeps on the mutex is in its queue or about to be woken; and whenever a fiber
    waits for the mutex, asleep or not, and whether another holds it or not, there are steps
    of the fibers that are inside an operation, without any fiber that starts one, after
    which one of the fibers that wait now holds the mutex. *)
Theorem mutex_progress in_fiber w i :
  reachable in_fiber w -> wants (pc w i) = true ->
  (sleeping (pc w i) = true -> paused w i = true -> i ∈ wait w \/ exists j, waking (pc w j) = Some i) /\
  exists w' j, rtc (inner in_fiber) w w' /\ wants (pc w j) = true /\ holding (pc w' j) = true.
Proof.
  intros R Hi. pose proof (inv_reachable _ _ R) as I. split; [apply (inv_sleep _ I)|].
  destruct (holds_some w I) as [[h|] Hh]; destruct Hh as (Hh & Hf).
  - apply (held_taken _ h i); try assumption. intros ->. destruct (pc w h); discriminate.
  - apply (freed_taken _ _ i); assumption.
Qed.

(** A schedule: the fibers that step, one after another. *)
Fixpoint run (in_fiber : nat -> bool) (l : list nat) (w : World) : option World :=
  match l with
  | [] => Some w
  | i :: l => let? w := exec in_fiber i (MkChoice false false) w in run in_fiber l w
  end.

Lemma run_reachable in_fiber l : forall w w', reachable in_fiber w -> run in_fiber l w = Some w' -> reachable in_fiber w'.
Proof.
  induction l as [|i l IH]; intros w w' R; cbn [run]; [intros [= <-]; exact R|].
  destruct (exec in_fiber i (MkChoice false false) w) as [w1|] eqn:E; [|discriminate].
  apply IH. eapply reach_step; [exact R|econstructor; exact E].
Qed.

(** Fiber 1 sleeps on a mutex that fiber 0 is releasing, [k] steps after it took it. *)
Definition schedule (k : nat) : list nat := ([0; 0] ++ repeat 1 28 ++ repeat 0 k)%nat.
Definition contended (k : nat) : World :=
  match run (fun _ => true) (schedule k) INIT with Some w => w | None => INIT end.

Lemma contended_reachable k : reachable (fun _ => true) (contended k).
Proof.
  unfold contended. destruct (run (fun _ => true) (schedule k) INIT) eqn:E; [|constructor].
  eapply run_reachable; [|exact E]. constructor.
Qed.

Lemma mutex_refines_witness :
  exists w', exec (fun _ => true) 0 (MkChoice false false) (contended 4) = Some w' /\
    exists o o', holds (contended 4) o /\ holds w' o' /\ lock_spec 0 o o'.
Proof.
  destruct (exec (fun _ => true) 0 (MkChoice false false) (contended 4)) as [w'|] eqn:E.
  - exists w'. split; [reflexivity|]. exact (mutex_refines _ _ _ _ _ (contended_reachable 4) E).
  - exfalso. revert E. vm_compute. discriminate.
Defined.

(** All that is left is a sleeper and the fiber that is about to wake it: it is the sleeper
    that gets the mutex. *)
Lemma mutex_progress_witness :
  pc (contended 5) 1 = Sleep /\ paused (contended 5) 1 = true /\
  exists w', rtc (inner (fun _ => true)) (contended 5) w' /\ holding (pc w' 1%nat) = true.
Proof.
  split; [vm_compute; reflexivity|]. split; [vm_compute; reflexivity|].
  destruct (proj2 (mutex_progress (fun _ => true) (contended 5) 1 (contended_reachable 5) ltac:(vm_compute; reflexivity))) as (w' & j & R & Hj & Hh).
  exists w'. split; [exact R|]. destruct j as [|[|j]]; [vm_compute in Hj; discriminate Hj|exact Hh|vm_compute in Hj; discriminate Hj].
Defined.
