(* ===== verification/FiberRwLock.v ===== *)
(** The reader-writer lock of lib/fiber/src/rwlock.rs over two mutexes, each taken as the
    lock it implements: a flag that is set when it is clear, and cleared. *)

From Stdlib Require Import ZArith Lia Bool List.
From stdpp Require Import base list relations.
From S2P Require Import Prelude.
Import ListNotations.
Local Open Scope Z_scope.
Local Open Scope rust_scope.

Module FiberRwLock.

(** Where a fiber is: between two operations on shared state. *)
Inductive PC : Type :=
| Idle
| WLock | WTry | Writer                          (** [lock_exclusive], [try_lock_exclusive]; held *)
| RLock | RGet | RWait | RSet (n : Z) | RUnlock  (** [lock_shared] *)
| Reader
| ULock | UGet | UTest (n : Z) | UUnlock         (** [unlock_shared] *)
| TTry | TLock | TGet | TWait | TSet (n : Z) | TUnlock.  (** [try_lock_shared] *)

(** The fields of [RawRwLock], and the fibers. *)
Record World : Type := MkWorld { read : bool; write : bool; readers : Z; fibers : list PC }.

Definition INIT (n : nat) : World := MkWorld false false 0 (repeat Idle n).

Definition go (i : nat) (p : PC) (w : World) : World := MkWorld (read w) (write w) (readers w) (<[i := p]> (fibers w)).
Definition set_read (b : bool) (w : World) : World := MkWorld b (write w) (readers w) (fibers w).
Definition set_write (b : bool) (w : World) : World := MkWorld (read w) b (readers w) (fibers w).
Definition set_readers (n : Z) (w : World) : World := MkWorld (read w) (write w) n (fibers w).

(** [lock] of the two mutexes waits; [try_lock] does not. *)
Definition lock_read (i : nat) (p : PC) (w : World) : option World :=
  if read w then None else Some (go i p (set_read true w)).
Definition lock_write (i : nat) (p : PC) (w : World) : option World :=
  if write w then None else Some (go i p (set_write true w)).
Definition try_read (i : nat) (ok err : PC) (w : World) : World :=
  if read w then go i err w else go i ok (set_read true w).
Definition try_write (i : nat) (ok err : PC) (w : World) : World :=
  if write w then go i err w else go i ok (set_write true w).

(** [lock_exclusive], [try_lock_exclusive], [unlock_exclusive] *)
Definition lock_exclusive (i : nat) : World -> option World := lock_write i Writer.
Definition try_lock_exclusive (i : nat) : World -> World := try_write i Writer Idle.
Definition unlock_exclusive (i : nat) (w : World) : World := go i Idle (set_write false w).

(** The steps of [lock_shared]. *)
Definition lock_shared (i : nat) (p : PC) (w : World) : option World :=
  match p with
  | RLock => lock_read i RGet w
  | RGet => Some (go i (if readers w =? 0 then RWait else RSet (readers w)) w)
  | RWait => lock_write i (RSet 0) w
  | RSet n => Some (go i RUnlock (set_readers (wrap 64 (n + 1)) w))
  | RUnlock => Some (go i Reader (set_read false w))
  | _ => None
  end.

(** The steps of [unlock_shared]. *)
Definition unlock_shared (i : nat) (p : PC) (w : World) : option World :=
  match p with
  | ULock => lock_read i UGet w
  | UGet => let n := wrap 64 (readers w - 1) in Some (go i (UTest n) (set_readers n w))
  | UTest n => Some (go i UUnlock (if n =? 0 then set_write false w else w))
  | UUnlock => Some (go i Idle (set_read false w))
  | _ => None
  end.

(** The steps of [try_lock_shared]. *)
Definition try_lock_shared (i : nat) (p : PC) (w : World) : option World :=
  match p with
  | TTry => Some (try_read i TLock Idle w)
  | TLock => lock_read i TGet w
  | TGet => Some (go i (if readers w =? 0 then TWait else TSet (readers w)) w)
  | TWait => Some (try_write i (TSet 0) Idle w)
  | TSet n => Some (go i TUnlock (set_readers (wrap 64 (n + 1)) w))
  | TUnlock => Some (go i Reader (set_read false w))
  | _ => None
  end.

(** What an idle fiber calls. *)
Inductive Call : Type := CallExclusive | CallTryExclusive | CallShared | CallTryShared.

Definition start (c : Call) : PC :=
  match c with CallExclusive => WLock | CallTryExclusive => WTry | CallShared => RLock | CallTryShared => TTry end.

(** One step of fiber [i]; [None] when there is no such fiber or it has to wait. *)
Definition exec (i : nat) (c : Call) (w : World) : option World :=
  let? p := fibers w !! i in
  match p with
  | Idle => Some (go i (start c) w)
  | WLock => lock_exclusive i w
  | WTry => Some (try_lock_exclusive i w)
  | Writer => Some (unlock_exclusive i w)
  | Reader => Some (go i ULock w)
  | RLock | RGet | RWait | RSet _ | RUnlock => lock_shared i p w
  | ULock | UGet | UTest _ | UUnlock => unlock_shared i p w
  | TTry | TLock | TGet | TWait | TSet _ | TUnlock => try_lock_shared i p w
  end.

Inductive step : World -> World -> Prop :=
| step_exec i c w w' : exec i c w = Some w' -> step w w'.

End FiberRwLock.

(** * Properties

    The reader-writer lock excludes: a writer is alone, and the count of readers is the
    number of fibers that have read access; [try_lock_shared] blocks for ever. *)

From Stdlib Require Import ZArith Lia Bool List.
From stdpp Require Import base list relations.
From S2P Require Import Prelude.
Import ListNotations.
Local Open Scope Z_scope.
Local Open Scope rust_scope.
Import FiberRwLock.

(** ** Counting fibers *)

Fixpoint total (f : PC -> Z) (l : list PC) : Z :=
  match l with [] => 0 | p :: l => f p + total f l end.

(** It has read access, or has it counted. *)
Definition shares (p : PC) : Z := match p with RUnlock | Reader | ULock | UGet | TUnlock => 1 | _ => 0 end.
Definition writes (p : PC) : Z := match p with Writer => 1 | _ => 0 end.
(** It holds the mutex [read]. *)
Definition inside (p : PC) : Z :=
  match p with
  | RGet | RWait | RSet _ | RUnlock | UGet | UTest _ | UUnlock | TLock | TGet | TWait | TSet _ | TUnlock => 1
  | _ => 0
  end.
(** It holds the mutex [write] for readers that are not counted: the first before it is
    counted, the last after. *)
Definition between (p : PC) : Z := match p with RSet n | UTest n => if n =? 0 then 1 else 0 | _ => 0 end.

Definition flag (b : bool) : Z := if b then 1 else 0.

(** A local variable agrees with the count. *)
Definition agrees (n : Z) (p : PC) : Prop :=
  match p with
  | RSet m | UTest m => m = n
  | RWait => n = 0
  | TGet | TWait | TSet _ | TUnlock => False
  | _ => True
  end.

Record inv (w : World) : Prop := {
  inv_inside : total inside (fibers w) = flag (read w);
  inv_readers : readers w = total shares (fibers w);
  inv_write : total writes (fibers w) +
    (if 0 <? total shares (fibers w) + total between (fibers w) then 1 else 0) = flag (write w);
  inv_agrees i p : fibers w !! i = Some p -> agrees (readers w) p;
  inv_size : Z.of_nat (length (fibers w)) < 2 ^ 64 - 1;
}.

Lemma total_insert f l : forall i p q, l !! i = Some p -> total f (<[i := q]> l) = total f l - f p + f q.
Proof.
  induction l as [|x l IH]; intros [|i] p q; simpl; try discriminate.
  - intros [= ->]. lia.
  - intros H. rewrite (IH i p q H). lia.
Qed.

Lemma total_bounds f l : (forall p, 0 <= f p <= 1) -> 0 <= total f l <= Z.of_nat (length l).
Proof. intros Hf. induction l as [|x l IH]; cbn [total length]; [lia|]. specialize (Hf x). lia. Qed.

Lemma total_one f l i p : (forall p, 0 <= f p <= 1) -> l !! i = Some p -> f p <= total f l.
Proof.
  intros Hf. revert i. induction l as [|x l IH]; intros [|i]; cbn [lookup list_lookup total]; try discriminate.
  - intros [= ->]. pose proof (total_bounds f l Hf). lia.
  - intros H. apply IH in H. specialize (Hf x). lia.
Qed.

Lemma total_two f l : (forall p, 0 <= f p <= 1) -> forall i j p q,
  i <> j -> l !! i = Some p -> l !! j = Some q -> f p + f q <= total f l.
Proof.
  intros Hf. induction l as [|x l IH]; intros [|i] [|j] p q N; cbn [lookup list_lookup total]; try discriminate; try congruence.
  - intros [= ->] H. apply (total_one f) in H; [lia|exact Hf].
  - intros H [= ->]. apply (total_one f) in H; [lia|exact Hf].
  - intros H1 H2. specialize (IH i j p q ltac:(congruence) H1 H2). specialize (Hf x). lia.
Qed.

Lemma total_mono f g l : (forall p, f p <= g p) -> total f l <= total g l.
Proof. intros Hf. induction l as [|x l IH]; cbn [total]; [lia|]. specialize (Hf x). lia. Qed.

Lemma shares_range p : 0 <= shares p <= 1. Proof. destruct p; cbn; lia. Qed.
Lemma writes_range p : 0 <= writes p <= 1. Proof. destruct p; cbn; lia. Qed.
Lemma inside_range p : 0 <= inside p <= 1. Proof. destruct p; cbn; lia. Qed.
Lemma between_range p : 0 <= between p <= 1. Proof. destruct p; cbn; try destruct (_ =? 0); lia. Qed.

Lemma between_inside p : between p <= inside p. Proof. destruct p; cbn; try destruct (_ =? 0); lia. Qed.

(** Only a fiber that holds [read] relies on the count. *)
Lemma agrees_outside n m p : inside p = 0 -> agrees n p -> agrees m p.
Proof. destruct p; cbn; try discriminate; auto. Qed.

(** ** Every step keeps the invariant *)

(** A step of fiber [i] from [p] to [q], with the totals it changes. *)
Lemma inv_move w i p q rd wr n :
  inv w -> fibers w !! i = Some p ->
  flag rd = flag (read w) - inside p + inside q ->
  n = readers w - shares p + shares q ->
  total writes (fibers w) - writes p + writes q +
    (if 0 <? n + (total between (fibers w) - between p + between q) then 1 else 0) = flag wr ->
  agrees n q -> (n = readers w \/ inside p = 1) ->
  inv (MkWorld rd wr n (<[i := q]> (fibers w))).
Proof.
  intros [Hi Hr Hw Ha Hs] Hp Hrd Hn Hwr Hq Hc. split; cbn [read write readers fibers].
  - rewrite (total_insert _ _ _ _ _ Hp). lia.
  - rewrite (total_insert _ _ _ _ _ Hp). lia.
  - rewrite !(total_insert _ _ _ _ _ Hp). rewrite <- Hr, <- Hn. exact Hwr.
  - intros j p' Hj. destruct (decide (i = j)) as [<-|N].
    + rewrite list_lookup_insert_eq in Hj by (eapply lookup_lt_Some; exact Hp). injection Hj as <-. exact Hq.
    + rewrite list_lookup_insert_ne in Hj by exact N. destruct Hc as [->|Hc]; [eapply Ha; exact Hj|].
      apply agrees_outside with (readers w); [|eapply Ha; exact Hj].
      pose proof (total_two inside _ inside_range _ _ _ _ N Hp Hj). pose proof (inside_range p').
      assert (flag (read w) <= 1) by (destruct (read w); cbn; lia). lia.
  - rewrite length_insert. exact Hs.
Qed.

Lemma rw_inv_step w w' : inv w -> step w w' -> inv w'.
Proof.
  intros I S. destruct S as [i c w w' S]. unfold exec in S. destruct (fibers w !! i) as [p|] eqn:Hp; [|discriminate].
  pose proof (inv_agrees _ I i p Hp) as Hag. pose proof (inv_readers _ I) as Hr. pose proof (inv_write _ I) as Hw.
  pose proof (inv_inside _ I) as Hin.
  pose proof (total_one inside _ _ _ inside_range Hp) as B1. pose proof (total_one shares _ _ _ shares_range Hp) as B2.
  pose proof (total_one writes _ _ _ writes_range Hp) as B3. pose proof (total_one between _ _ _ between_range Hp) as B4.
  pose proof (total_bounds shares (fibers w) shares_range) as B5. pose proof (total_bounds writes (fibers w) writes_range) as B6.
  pose proof (total_bounds between (fibers w) between_range) as B7. pose proof (inv_size _ I) as B8.
  pose proof (total_mono _ _ (fibers w) between_inside) as B9.
  assert (Hb : 0 <= flag (read w) <= 1 /\ 0 <= flag (write w) <= 1) by (destruct (read w), (write w); cbn; lia).
  destruct p; cbn [start lock_shared unlock_shared try_lock_shared] in S; cbn in B1, B2, B3, B4, Hag; try contradiction;
    unfold lock_exclusive, try_lock_exclusive, unlock_exclusive, lock_read, lock_write, try_read, try_write in S.
  all: try (destruct (read w) eqn:Er; cbn [flag] in *; try discriminate).
  all: try (destruct (write w) eqn:Ew; cbn [flag] in *; try discriminate).
  all: repeat match type of S with context [?a =? ?b] => destruct (Z.eqb_spec a b) end; try subst.
  all: injection S as <-; unfold go, set_read, set_write, set_readers; cbn [read write readers fibers].
  all: rewrite ?wrap_id by (unfold in_u; lia).
  all: eapply inv_move; [exact I|exact Hp|..]; try destruct c; rewrite ?Er, ?Ew; cbn [inside shares writes between flag agrees start];
    try lia; try exact Logic.I;
    repeat match goal with
    | |- context [?a =? ?b] => destruct (Z.eqb_spec a b)
    | |- context [?a <? ?b] => destruct (Z.ltb_spec a b)
    | H : context [?a <? ?b] |- _ => destruct (Z.ltb_spec a b)
    | H : context [?a =? ?b] |- _ => destruct (Z.eqb_spec a b)
    end; try lia.
Qed.

Lemma total_repeat f n : f Idle = 0 -> total f (repeat Idle n) = 0.
Proof. intros H. induction n as [|n IH]; cbn [repeat total]; lia. Qed.

Lemma rw_inv_init n : Z.of_nat n < 2 ^ 64 - 1 -> inv (INIT n).
Proof.
  intros Hn. split; cbn [INIT read write readers fibers]; rewrite ?total_repeat by reflexivity; try reflexivity.
  - intros i p Hi. apply list_elem_of_lookup_2, list_elem_of_In, repeat_spec in Hi as ->. exact I.
  - rewrite repeat_length. exact Hn.
Qed.

Lemma rw_inv_steps w w' : inv w -> rtc step w w' -> inv w'.
Proof. intros I S. induction S as [|w w1 w' S1 S2 IH]; [exact I|]. apply IH. eapply rw_inv_step; eassumption. Qed.

(** The reader-writer lock excludes, for any number of fibers and every interleaving
    of their locking, trying and unlocking: in every reachable state a fiber that holds it
    for writing is the only one that holds it at all, and the count of readers is the
    number of fibers that hold it for reading and have been counted. *)
Theorem rwlock_exclusive n w i j p :
  Z.of_nat n < 2 ^ 64 - 1 -> rtc step (INIT n) w ->
  fibers w !! i = Some Writer -> fibers w !! j = Some p -> i <> j ->
  p <> Writer /\ p <> Reader /\ readers w = 0 /\ total shares (fibers w) = 0.
Proof.
  intros Hn S Hi Hj N. pose proof (rw_inv_steps _ _ (rw_inv_init n Hn) S) as I. pose proof (inv_write _ I) as Hw.
  pose proof (inv_readers _ I) as Hr. pose proof (total_one writes _ _ _ writes_range Hi) as B1. cbn in B1.
  pose proof (total_bounds shares (fibers w) shares_range). pose proof (total_bounds between (fibers w) between_range).
  pose proof (total_two writes _ writes_range _ _ _ _ N Hi Hj) as B2. cbn [writes] in B2.
  pose proof (total_one shares _ _ _ shares_range Hj) as B3.
  assert (flag (write w) <= 1) by (destruct (write w); cbn; lia). destruct (Z.ltb_spec 0 (total shares (fibers w) + total between (fibers w))); [lia|].
  repeat split; try lia; intros ->; cbn in *; lia.
Qed.

Lemma rw_exec_other k c w w' i : exec k c w = Some w' -> k <> i -> fibers w' !! i = fibers w !! i.
Proof.
  unfold exec, lock_exclusive, try_lock_exclusive, unlock_exclusive, lock_shared, unlock_shared, try_lock_shared,
    lock_read, lock_write, try_read, try_write.
  intros S N. destruct (fibers w !! k) as [p|]; [|discriminate].
  destruct p; try destruct (read w); try destruct (write w); try discriminate;
    injection S as <-; cbn [go set_read set_write set_readers fibers];
    try (apply list_lookup_insert_ne; exact N).
  all: destruct (_ =? 0); cbn [set_write fibers]; apply list_lookup_insert_ne; exact N.
Qed.

(** A fiber in [try_lock_shared] that has taken the mutex [read] waits for itself: it
    never moves, whatever the others do, and nobody gets the mutex again. *)
Theorem try_lock_shared_blocks n w w' i :
  Z.of_nat n < 2 ^ 64 - 1 -> rtc step (INIT n) w -> fibers w !! i = Some TLock -> rtc step w w' ->
  fibers w' !! i = Some TLock /\ read w' = true.
Proof.
  intros Hn S0 Hi S. pose proof (rw_inv_steps _ _ (rw_inv_init n Hn) S0) as I. clear S0.
  assert (Hr : forall w, inv w -> fibers w !! i = Some TLock -> read w = true).
  { clear. intros w I Hi. pose proof (total_one inside _ _ _ inside_range Hi) as B. cbn in B.
    rewrite (inv_inside _ I) in B. destruct (read w); [reflexivity|cbn in B; lia]. }
  induction S as [w|w w1 w' S1 S2 IH]; [split; [exact Hi|auto]|].
  apply IH; [|eapply rw_inv_step; eassumption]. destruct S1 as [k c w w1 S1]. destruct (decide (k = i)) as [->|N].
  - unfold exec in S1. rewrite Hi in S1. cbn in S1. unfold lock_read in S1. rewrite (Hr w I Hi) in S1. discriminate.
  - rewrite (rw_exec_other _ _ _ _ _ S1 N). exact Hi.
Qed.

(** A schedule of fibers, with what each calls when it is idle. *)
Fixpoint run (l : list (nat * Call)) (w : World) : option World :=
  match l with [] => Some w | (i, c) :: l => let? w := exec i c w in run l w end.

Lemma run_steps l : forall w w', run l w = Some w' -> rtc step w w'.
Proof.
  induction l as [|[i c] l IH]; intros w w'; cbn [run]; [intros [= <-]; constructor|].
  destruct (exec i c w) as [w1|] eqn:E; [|discriminate]. intros H. eapply rtc_l; [econstructor; exact E|apply IH, H].
Qed.

(** Fiber 1 reads and leaves, fiber 0 writes, fiber 1 waits to read again. *)
Definition example_run : list (nat * Call) :=
  repeat (1%nat, CallShared) 11 ++ repeat (0%nat, CallExclusive) 2 ++ repeat (1%nat, CallShared) 3.
Definition example_world : World := MkWorld true true 0 [Writer; RWait].

Lemma rwlock_exclusive_witness :
  RWait <> Writer /\ RWait <> Reader /\ readers example_world = 0 /\ total shares (fibers example_world) = 0.
Proof.
  apply (rwlock_exclusive 2 example_world 0 1 RWait); [vm_compute; reflexivity| |reflexivity|reflexivity|discriminate].
  apply (run_steps example_run). vm_compute. reflexivity.
Defined.

(** One fiber that tries is enough. *)
Lemma try_lock_shared_blocks_witness :
  forall w', rtc step (MkWorld true false 0 [TLock]) w' -> fibers w' !! 0%nat = Some TLock /\ read w' = true.
Proof.
  intros w' S. apply (try_lock_shared_blocks 1 (MkWorld true false 0 [TLock]) w' 0); [vm_compute; reflexivity| |reflexivity|exact S].
  apply (run_steps [(0%nat, CallTryShared); (0%nat, CallTryShared)]). vm_compute. reflexivity.
Defined.
