(* ===== verification/FiberCondvar.v ===== *)
(** The condition variable of lib/fiber/src/mutex.rs with [park], [unpark_one] and
    [unpark_all] of lib/fiber/src/park.rs, as steps of any number of fibers: a step has at
    most one access to shared state.  The mutex is taken as the lock it implements. *)

From Stdlib Require Import ZArith Lia Bool List.
From stdpp Require Import base list.
From S2P Require Import Prelude.
From S2P Require FiberMutex.
Import ListNotations.

Module FiberCondvar.
Notation upd := FiberMutex.FiberMutex.upd (only parsing).

(** Where a fiber is, with its local variables; [held] is whether a notifier holds the mutex. *)
Inductive PC : Type :=
| Idle | Lock | Owner                                   (** outside, locking the mutex, with the mutex *)
| WPark | WLoad | WStore | WEnqueue | WRelease          (** [wait]: [park] and its closure [validate] *)
| WUnlock | WSleep | WRelock                            (** [before_sleep], [FiberGroup::pause], [mutex.lock] *)
| NLoad (held : bool) | NLock (held : bool) | NPop (held : bool)   (** [notify_one], [unpark_one] *)
| NCallback (held : bool) (fiber : option nat) (have_more : bool)
| NRelease (held : bool) (fiber : option nat) | NUnpause (held : bool) (fiber : option nat)
| ALoad (held : bool) | AStore (held : bool)            (** [notify_all] *)
| ALock (held : bool) | ATake (held : bool) | ARelease (held : bool) (list : list nat)   (** [unpark_all] *)
| AWalk (held : bool) (list : list nat)                 (** the loop: its first entry is to be woken *)
| ANext (held : bool) (fiber entry : nat) (list : list nat)  (** [entry.next] is to be read *)
| Dangling.                                             (** it was read after the entry was gone *)

(** The mutex, the condition variable, its entry of [WAIT_LIST_MAP] with the lock of the map,
    and the fibers: where each is, its flag [paused], and how many entries, which live on
    its stack, it has left behind. *)
Record World : Type := MkWorld {
  mutex : option nat; has_queue : bool; map_lock : option nat; queue : list nat;
  pc : nat -> PC; paused : nat -> bool; gone : nat -> nat }.

Definition INIT : World := MkWorld None false None [] (fun _ => Idle) (fun _ => false) (fun _ => O).

Definition go (i : nat) (p : PC) (w : World) : World :=
  MkWorld (mutex w) (has_queue w) (map_lock w) (queue w) (upd (pc w) i p) (paused w) (gone w).
Definition set_mutex (v : option nat) (w : World) : World := MkWorld v (has_queue w) (map_lock w) (queue w) (pc w) (paused w) (gone w).
Definition set_has_queue (v : bool) (w : World) : World := MkWorld (mutex w) v (map_lock w) (queue w) (pc w) (paused w) (gone w).
Definition set_map_lock (v : option nat) (w : World) : World := MkWorld (mutex w) (has_queue w) v (queue w) (pc w) (paused w) (gone w).
Definition set_queue (v : list nat) (w : World) : World := MkWorld (mutex w) (has_queue w) (map_lock w) v (pc w) (paused w) (gone w).
Definition set_paused (i : nat) (v : bool) (w : World) : World := MkWorld (mutex w) (has_queue w) (map_lock w) (queue w) (pc w) (upd (paused w) i v) (gone w).
Definition leave (i : nat) (w : World) : World := MkWorld (mutex w) (has_queue w) (map_lock w) (queue w) (pc w) (paused w) (upd (gone w) i (S (gone w i))).

(** Locking waits until the lock is free. *)
Definition lock_mutex (i : nat) (w : World) : option World :=
  match mutex w with None => Some (go i Owner (set_mutex (Some i) w)) | Some _ => None end.
Definition lock_map (i : nat) (p : PC) (w : World) : option World :=
  match map_lock w with None => Some (go i p (set_map_lock (Some i) w)) | Some _ => None end.

(** A notifier returns to where it was. *)
Definition back (held : bool) : PC := if held then Owner else Idle.

(** [wait_slow]; a fiber that sleeps gets its turn again when it is no longer paused, or by
    [resumed] below. *)
Definition wait (i : nat) (p : PC) (w : World) : option World :=
  match p with
  | WPark => lock_map i WLoad w
  | WLoad => Some (go i (if has_queue w then WEnqueue else WStore) w)
  | WStore => Some (go i WEnqueue (set_has_queue true w))
  | WEnqueue => Some (go i WRelease (set_paused i true (set_queue (queue w ++ [i]) w)))
  | WRelease => Some (go i WUnlock (set_map_lock None w))
  | WUnlock => Some (go i WSleep (set_mutex None w))
  | WSleep => if paused w i then None else Some (go i WRelock (leave i w))
  | WRelock => lock_mutex i w
  | _ => None
  end.

(** [notify_one] and [notify_one_slow] *)
Definition notify_one (i : nat) (p : PC) (w : World) : option World :=
  match p with
  | NLoad held => Some (go i (if has_queue w then NLock held else back held) w)
  | NLock held => lock_map i (NPop held) w
  | NPop held =>
      Some (match queue w with
      | [] => go i (NCallback held None false) w
      | f :: l => go i (NCallback held (Some f) (match l with [] => false | _ => true end)) (set_queue l w)
      end)
  | NCallback held fiber have_more => Some (go i (NRelease held fiber) (if have_more then w else set_has_queue false w))
  | NRelease held fiber => Some (go i (NUnpause held fiber) (set_map_lock None w))
  | NUnpause held fiber => Some (go i (back held) (match fiber with Some f => set_paused f false w | None => w end))
  | _ => None
  end.

(** [notify_all] and [notify_all_slow]; the entry is on the stack of the fiber that is woken,
    and is gone once that fiber has returned from [park]. *)
Definition notify_all (i : nat) (p : PC) (w : World) : option World :=
  match p with
  | ALoad held => Some (go i (if has_queue w then AStore held else back held) w)
  | AStore held => Some (go i (ALock held) (set_has_queue false w))
  | ALock held => lock_map i (ATake held) w
  | ATake held => Some (go i (ARelease held (queue w)) (set_queue [] w))
  | ARelease held list => Some (go i (AWalk held list) (set_map_lock None w))
  | AWalk held [] => Some (go i (back held) w)
  | AWalk held (f :: l) => Some (go i (ANext held f (gone w f) l) (set_paused f false w))
  | ANext held f entry l => Some (go i (if Nat.eqb (gone w f) entry then AWalk held l else Dangling) w)
  | _ => None
  end.

(** What a fiber outside, or with the mutex, does next: the first is to lock and to unlock it. *)
Inductive Call : Type := CallMutex | CallWait | CallNotifyOne | CallNotifyAll.

(** One step of fiber [i]; [None] when it has to wait, or cannot make the call. *)
Definition exec (i : nat) (c : Call) (w : World) : option World :=
  let p := pc w i in
  match p with
  | Idle =>
      match c with
      | CallMutex => Some (go i Lock w)
      | CallWait => None
      | CallNotifyOne => Some (go i (NLoad false) w)
      | CallNotifyAll => Some (go i (ALoad false) w)
      end
  | Lock => lock_mutex i w
  | Owner =>
      match c with
      | CallMutex => Some (go i Idle (set_mutex None w))
      | CallWait => Some (go i WPark w)
      | CallNotifyOne => Some (go i (NLoad true) w)
      | CallNotifyAll => Some (go i (ALoad true) w)
      end
  | WPark | WLoad | WStore | WEnqueue | WRelease | WUnlock | WSleep | WRelock => wait i p w
  | NLoad _ | NLock _ | NPop _ | NCallback _ _ _ | NRelease _ _ | NUnpause _ _ => notify_one i p w
  | ALoad _ | AStore _ | ALock _ | ATake _ | ARelease _ _ | AWalk _ _ | ANext _ _ _ _ => notify_all i p w
  | Dangling => None
  end.

(** When a fiber returns, [FiberGroup::run] starts the first fiber of the group, asleep or
    not; [park] does not look at [paused] again and returns, and its entry is gone, in the
    list or not. *)
Definition resumed (i : nat) (w : World) : option World :=
  match pc w i with WSleep => Some (go i WRelock (leave i w)) | _ => None end.

(** Fibers of different threads interleave freely, and any of them may be resumed. *)
Inductive step : World -> World -> Prop :=
| step_exec i c w w' : exec i c w = Some w' -> step w w'
| step_resumed i w w' : resumed i w = Some w' -> step w w'.

(** The fibers of one thread, none of which returns, take turns, and none of the others gets
    its turn between waking a fiber and reading [entry.next]: there the code does not yield. *)
Definition between (p : PC) : bool := match p with ANext _ _ _ _ => true | _ => false end.

Inductive lockstep : World -> World -> Prop :=
| lockstep_exec i c w w' : (forall j, j <> i -> between (pc w j) = false) -> exec i c w = Some w' -> lockstep w w'.

End FiberCondvar.

(** * Properties

    The condition variable loses no wake-up and keeps its books when the fibers take turns
    and none of them returns; when they run in parallel, [unpark_all] can read an entry that
    is gone, and when one returns, an entry that is gone can be left in the list. *)

From S2P Require FiberMutexProps.
From stdpp Require Import relations.
Import FiberCondvar.

(** ** The invariant *)

Definition held_by (p : PC) : bool :=
  match p with
  | Owner | WPark | WLoad | WStore | WEnqueue | WRelease | WUnlock => true
  | NLoad h | NLock h | NPop h | NCallback h _ _ | NRelease h _ | NUnpause h _ => h
  | ALoad h | AStore h | ALock h | ATake h | ARelease h _ | AWalk h _ | ANext h _ _ _ => h
  | Idle | Lock | WSleep | WRelock | Dangling => false
  end.

Definition in_map (p : PC) : bool :=
  match p with
  | WLoad | WStore | WEnqueue | WRelease | NPop _ | NCallback _ _ _ | NRelease _ _ | ATake _ | ARelease _ _ => true
  | _ => false
  end.

(** Its entry is linked, and not gone *)
Definition parked (p : PC) : bool := match p with WRelease | WUnlock | WSleep => true | _ => false end.

(** The fibers it is about to wake *)
Definition waking (p : PC) : list nat :=
  match p with
  | NCallback _ (Some f) _ | NRelease _ (Some f) | NUnpause _ (Some f) => [f]
  | ARelease _ l | AWalk _ l | ANext _ _ _ l => l
  | _ => []
  end.

(** It is about to take the whole list. *)
Definition taking (p : PC) : bool := match p with ALock _ | ATake _ => true | _ => false end.

Definition covered (w : World) : Prop := has_queue w = true \/ exists j, taking (pc w j) = true.

Record inv (w : World) : Prop := {
  inv_mutex i : held_by (pc w i) = true <-> mutex w = Some i;
  inv_map i : in_map (pc w i) = true <-> map_lock w = Some i;
  inv_nodup : NoDup (queue w);
  inv_queue f : f ∈ queue w -> parked (pc w f) = true /\ paused w f = true;
  inv_waking j f : f ∈ waking (pc w j) -> parked (pc w f) = true /\ paused w f = true /\ f ∉ queue w;
  inv_waking_nodup j : NoDup (waking (pc w j));
  inv_waking_one j k f : f ∈ waking (pc w j) -> f ∈ waking (pc w k) -> j = k;
  inv_paused f : paused w f = true -> f ∈ queue w \/ exists j, f ∈ waking (pc w j);
  inv_covered : queue w <> [] -> covered w;
  inv_enqueue i : pc w i = WEnqueue -> covered w;
  inv_more j h f m : pc w j = NCallback h f m -> (m = true <-> queue w <> []);
  inv_entry j h f g l : pc w j = ANext h f g l -> gone w f = g;
  inv_sound j : pc w j <> Dangling;
}.

Lemma init_ok : inv INIT.
Proof.
  split; cbn [INIT mutex map_lock queue pc paused gone has_queue held_by in_map waking];
    try (intros; split; discriminate); try discriminate; try (intros; congruence); try (constructor; fail); try (intros; apply NoDup_nil_2).
  all: intros; match goal with H : _ ∈ [] |- _ => apply elem_of_nil in H; contradiction end.
Qed.

(** ** Every step keeps it *)

Lemma at_self {A} (f : nat -> A) i a : FiberMutex.FiberMutex.upd f i a i = a.
Proof. apply FiberMutexProps.upd_same. Qed.
Lemma at_other {A} (f : nat -> A) i j a : j <> i -> FiberMutex.FiberMutex.upd f i a j = f j.
Proof. apply FiberMutexProps.upd_other. Qed.

(** What a step of fiber [i] does to a lock *)
Definition moves (i : nat) (a b : bool) (old new : option nat) : Prop :=
  (b = a /\ new = old) \/ (b = true /\ old = None /\ new = Some i) \/ (a = true /\ b = false /\ new = None).

Lemma moves_ok (h : PC -> bool) (pcs : nat -> PC) i q old new :
  (forall j, h (pcs j) = true <-> old = Some j) -> moves i (h (pcs i)) (h q) old new ->
  forall j, h (FiberMutex.FiberMutex.upd pcs i q j) = true <-> new = Some j.
Proof.
  intros H M j. destruct (decide (j = i)) as [->|N]; [rewrite at_self|rewrite (at_other _ _ _ _ N)].
  - destruct M as [[-> ->]|[(-> & _ & ->)|(_ & -> & ->)]]; [apply H|tauto|split; discriminate].
  - destruct M as [[_ ->]|[(_ & E & ->)|(E & _ & ->)]]; [apply H| |].
    + rewrite H, E. split; [discriminate|intros [= ->]; contradiction].
    + apply H in E. rewrite H, E. split; [intros [= ->]; contradiction|discriminate].
Qed.

Lemma covered_keep w w' i q : covered w -> has_queue w' = has_queue w -> pc w' = FiberMutex.FiberMutex.upd (pc w) i q ->
  (taking (pc w i) = true -> taking q = true) -> covered w'.
Proof.
  intros [H|[j Hj]] Eh Ep Ht; [left; congruence|right]. destruct (decide (j = i)) as [->|N].
  - exists i. rewrite Ep, at_self. auto.
  - exists j. rewrite Ep, (at_other _ _ _ _ N). exact Hj.
Qed.

(** A step that leaves the list, the flags [paused] and the entries alone *)
Lemma inv_plain w w' i q : inv w -> pc w' = FiberMutex.FiberMutex.upd (pc w) i q -> queue w' = queue w -> paused w' = paused w -> gone w' = gone w ->
  moves i (held_by (pc w i)) (held_by q) (mutex w) (mutex w') -> moves i (in_map (pc w i)) (in_map q) (map_lock w) (map_lock w') ->
  waking q = waking (pc w i) -> parked q = parked (pc w i) ->
  (queue w <> [] -> covered w') -> (forall j, pc w' j = WEnqueue -> covered w') ->
  (forall h f m, q = NCallback h f m -> (m = true <-> queue w <> [])) -> (forall h f g l, q <> ANext h f g l) -> q <> Dangling -> inv w'.
Proof.
  intros Hi Ep Eq Eu Eg Mm Ml Ew Ek Hc He Hm Hn Hd. pose proof Hi as [].
  assert (W : forall j, waking (pc w' j) = waking (pc w j)) by (intros j; rewrite Ep; destruct (decide (j = i)) as [->|N]; [rewrite at_self|rewrite (at_other _ _ _ _ N)]; auto).
  assert (K : forall j, parked (pc w' j) = parked (pc w j)) by (intros j; rewrite Ep; destruct (decide (j = i)) as [->|N]; [rewrite at_self|rewrite (at_other _ _ _ _ N)]; auto).
  split; rewrite ?Eq, ?Eu, ?Eg; auto.
  - rewrite Ep. eapply moves_ok; eauto.
  - rewrite Ep. eapply moves_ok; eauto.
  - intros f. rewrite K. auto.
  - intros j f. rewrite W, K. apply inv_waking0.
  - intros j. rewrite W. auto.
  - intros j k f. rewrite !W. eauto.
  - intros f Hf. destruct (inv_paused0 f Hf) as [?|[j Hj]]; [auto|right; exists j; rewrite W; exact Hj].
  - intros j h f m E. rewrite Ep in E. destruct (decide (j = i)) as [->|N]; [rewrite at_self in E|rewrite (at_other _ _ _ _ N) in E]; eauto.
  - intros j h f g l E. rewrite Ep in E. destruct (decide (j = i)) as [->|N]; [rewrite at_self in E; destruct (Hn _ _ _ _ E)|rewrite (at_other _ _ _ _ N) in E; eauto].
  - intros j. rewrite Ep. destruct (decide (j = i)) as [->|N]; [rewrite at_self|rewrite (at_other _ _ _ _ N)]; auto.
Qed.

(** Only one fiber has the lock of the map. *)
Lemma map_one w i j : inv w -> in_map (pc w i) = true -> in_map (pc w j) = true -> i = j.
Proof. intros Hi Ha Hb. apply (inv_map _ Hi) in Ha, Hb. congruence. Qed.

Ltac at_index j i := let N := fresh "N" in destruct (decide (j = i)) as [->|N]; [rewrite ?at_self in *|rewrite ?(at_other _ i j _ N) in *].

Lemma inv_wenqueue w i : inv w -> pc w i = WEnqueue -> inv (go i WRelease (set_paused i true (set_queue (queue w ++ [i]) w))).
Proof.
  intros Hi Hp. pose proof Hi as [].
  assert (Hq : i ∉ queue w) by (intros Hq; destruct (inv_queue0 i Hq) as [Hk _]; rewrite Hp in Hk; discriminate Hk).
  assert (Hw : forall j, i ∉ waking (pc w j)) by (intros j Hj; destruct (inv_waking0 j i Hj) as (Hk & _); rewrite Hp in Hk; discriminate Hk).
  assert (W : forall j, waking (FiberMutex.FiberMutex.upd (pc w) i WRelease j) = waking (pc w j)) by (intros j; at_index j i; [rewrite Hp|]; reflexivity).
  assert (K : forall f, parked (pc w f) = true -> parked (FiberMutex.FiberMutex.upd (pc w) i WRelease f) = true) by (intros f; at_index f i; auto).
  assert (P : forall f, paused w f = true -> FiberMutex.FiberMutex.upd (paused w) i true f = true) by (intros f; at_index f i; auto).
  assert (C : covered (go i WRelease (set_paused i true (set_queue (queue w ++ [i]) w)))) by (eapply covered_keep; [exact (inv_enqueue0 i Hp)|reflexivity|reflexivity|rewrite Hp; discriminate]).
  split; cbn [go set_paused set_queue pc queue paused gone mutex map_lock]; auto.
  - eapply moves_ok; [exact inv_mutex0|]. rewrite Hp. left. auto.
  - eapply moves_ok; [exact inv_map0|]. rewrite Hp. left. auto.
  - apply NoDup_app. split; [assumption|]. split; [|apply NoDup_singleton]. intros x Hx Hx'. apply list_elem_of_singleton in Hx' as ->. contradiction.
  - intros f. rewrite elem_of_app, list_elem_of_singleton. intros [Hf| ->]; [destruct (inv_queue0 f Hf); auto|rewrite !at_self; auto].
  - intros j f. rewrite W. intros Hf. destruct (inv_waking0 j f Hf) as (? & ? & Hn). split_and!; auto. rewrite elem_of_app, list_elem_of_singleton. intros [?| ->]; [contradiction|exact (Hw _ Hf)].
  - intros j. rewrite W. auto.
  - intros j k f. rewrite !W. eauto.
  - intros f. rewrite elem_of_app, list_elem_of_singleton. at_index f i; [auto|]. intros Hf. destruct (inv_paused0 f Hf) as [?|[j Hj]]; [auto|right; exists j; rewrite W; exact Hj].
  - intros j h f m E. at_index j i; [discriminate E|]. exfalso. apply N. apply (map_one w); [exact Hi|rewrite E; reflexivity|rewrite Hp; reflexivity].
  - intros j h f g l E. at_index j i; [discriminate E|eauto].
  - intros j. at_index j i; [discriminate|auto].
Qed.

(** Entries are taken from the front of the list, under the lock of the map. *)
Lemma inv_dequeue w i q l : inv w -> in_map (pc w i) = true -> in_map q = true -> held_by q = held_by (pc w i) ->
  waking (pc w i) = [] -> parked (pc w i) = false -> parked q = false -> queue w = waking q ++ l -> (l <> [] -> taking (pc w i) = false) ->
  (forall h f m, q = NCallback h f m -> (m = true <-> l <> [])) -> q <> WEnqueue -> q <> Dangling -> (forall h f g l, q <> ANext h f g l) -> inv (go i q (set_queue l w)).
Proof.
  intros Hi Hm Hm' Hh Hw Hk Hk' Hq Ht Hmore He Hd Hn. pose proof Hi as [].
  rewrite Hq in inv_nodup0. apply NoDup_app in inv_nodup0 as (Nw & Nd & Nl).
  assert (Q : forall f, f ∈ queue w <-> f ∈ waking q \/ f ∈ l) by (intros f; rewrite Hq, elem_of_app; reflexivity).
  assert (K : forall f, parked (FiberMutex.FiberMutex.upd (pc w) i q f) = parked (pc w f)) by (intros f; at_index f i; congruence).
  assert (W : forall j f, f ∈ waking (FiberMutex.FiberMutex.upd (pc w) i q j) -> (j = i /\ f ∈ waking q) \/ (j <> i /\ f ∈ waking (pc w j))) by (intros j f; at_index j i; auto).
  split; cbn [go set_queue pc queue paused gone mutex map_lock]; auto.
  - eapply moves_ok; [exact inv_mutex0|]. left. auto.
  - eapply moves_ok; [exact inv_map0|]. left. rewrite Hm, Hm'. auto.
  - intros f Hf. rewrite K. apply inv_queue0, Q. auto.
  - intros j f Hf. rewrite K. apply W in Hf as [[-> Hf]|[N Hf]].
    + destruct (inv_queue0 f) as [? ?]; [apply Q; auto|]. split_and!; auto.
    + destruct (inv_waking0 j f Hf) as (? & ? & Hx). rewrite Q in Hx. split_and!; auto.
  - intros j. at_index j i; auto.
  - intros j k f Hj Hj'. apply W in Hj as [[-> Hj]|[N Hj]]; apply W in Hj' as [[-> Hj']|[N' Hj']]; eauto.
    + destruct (inv_waking0 k f Hj') as (_ & _ & Hx). destruct Hx. apply Q. auto.
    + destruct (inv_waking0 j f Hj) as (_ & _ & Hx). destruct Hx. apply Q. auto.
  - intros f Hf. destruct (inv_paused0 f Hf) as [Hx|[j Hj]].
    + apply Q in Hx as [Hx|?]; [right; exists i; rewrite at_self; exact Hx|auto].
    + right. exists j. at_index j i; [rewrite Hw in Hj; apply elem_of_nil in Hj; contradiction|exact Hj].
  - intros Hl. eapply covered_keep; [apply inv_covered0|reflexivity|reflexivity|rewrite (Ht Hl); discriminate]. rewrite Hq. destruct (waking q); [exact Hl|discriminate].
  - intros j E. at_index j i; [contradiction|]. destruct N. apply (map_one w); [exact Hi|rewrite E; reflexivity|exact Hm].
  - intros j h f m E. at_index j i; [eauto|]. destruct N. apply (map_one w); [exact Hi|rewrite E; reflexivity|exact Hm].
  - intros j h f g l' E. at_index j i; [destruct (Hn _ _ _ _ E)|eauto].
  - intros j. at_index j i; auto.
Qed.

(** A fiber that was taken is woken. *)
Lemma inv_wake w i q f : inv w -> in_map (pc w i) = false -> in_map q = false -> held_by q = held_by (pc w i) ->
  waking (pc w i) = f :: waking q -> parked (pc w i) = false -> parked q = false -> taking (pc w i) = false ->
  (forall h x m, q <> NCallback h x m) -> q <> WEnqueue -> q <> Dangling -> (forall h x g l, q = ANext h x g l -> gone w x = g) -> inv (go i q (set_paused f false w)).
Proof.
  intros Hi Hm Hm' Hh Hw Hk Hk' Ht Hmore He Hd Hn. pose proof Hi as [].
  assert (Hf : parked (pc w f) = true /\ paused w f = true /\ f ∉ queue w) by (apply (inv_waking0 i); rewrite Hw; left). destruct Hf as (Hf1 & Hf2 & Hf3).
  pose proof (inv_waking_nodup0 i) as Nw. rewrite Hw in Nw. apply NoDup_cons in Nw as [Nf Nw].
  assert (K : forall f, parked (FiberMutex.FiberMutex.upd (pc w) i q f) = parked (pc w f)) by (intros x; at_index x i; congruence).
  assert (W : forall j x, x ∈ waking (FiberMutex.FiberMutex.upd (pc w) i q j) -> x ∈ waking (pc w j) /\ x <> f).
  { intros j x. at_index j i; intros Hx; [rewrite Hw; split; [right; exact Hx|congruence]|]. split; [exact Hx|]. intros ->. destruct N. apply (inv_waking_one0 j i f Hx). rewrite Hw. left. }
  assert (C : covered w -> covered (go i q (set_paused f false w))) by (intros H; eapply covered_keep; [exact H|reflexivity|reflexivity|rewrite Ht; discriminate]).
  split; cbn [go set_paused pc queue paused gone mutex map_lock]; auto.
  - eapply moves_ok; [exact inv_mutex0|]. left. auto.
  - eapply moves_ok; [exact inv_map0|]. left. rewrite Hm, Hm'. auto.
  - intros x Hx. rewrite K, (at_other _ f x) by congruence. auto.
  - intros j x Hx. apply W in Hx as [Hx N]. rewrite K, (at_other _ f x) by exact N. apply (inv_waking0 j x Hx).
  - intros j. at_index j i; auto.
  - intros j k x Hx Hx'. apply W in Hx as [Hx _]. apply W in Hx' as [Hx' _]. eauto.
  - intros x. at_index x f; [discriminate|]. intros Hx. destruct (inv_paused0 x Hx) as [?|[j Hj]]; [auto|right]. exists j. at_index j i; [|exact Hj].
    rewrite Hw in Hj. apply elem_of_cons in Hj as [?|?]; [contradiction|assumption].
  - intros j E. at_index j i; [contradiction|eauto].
  - intros j h x m E. at_index j i; [destruct (Hmore _ _ _ E)|eauto].
  - intros j h x g l E. at_index j i; eauto.
  - intros j. at_index j i; auto.
Qed.

(** A fiber that was woken returns from [park]. *)
Lemma inv_returns w i : inv w -> pc w i = WSleep -> paused w i = false -> (forall j, j <> i -> between (pc w j) = false) -> inv (go i WRelock (leave i w)).
Proof.
  intros Hi Hp Hu Hb. pose proof Hi as [].
  assert (Hq : forall f, f ∈ queue w -> f <> i) by (intros f Hf ->; destruct (inv_queue0 i Hf); congruence).
  assert (Hk : forall j f, f ∈ waking (pc w j) -> f <> i) by (intros j f Hf ->; destruct (inv_waking0 j i Hf) as (_ & ? & _); congruence).
  assert (W : forall j, waking (FiberMutex.FiberMutex.upd (pc w) i WRelock j) = waking (pc w j)) by (intros j; at_index j i; [rewrite Hp|]; reflexivity).
  assert (C : covered w -> covered (go i WRelock (leave i w))) by (intros H; eapply covered_keep; [exact H|reflexivity|reflexivity|rewrite Hp; discriminate]).
  split; cbn [go leave pc queue paused gone mutex map_lock]; auto.
  - eapply moves_ok; [exact inv_mutex0|]. rewrite Hp. left. auto.
  - eapply moves_ok; [exact inv_map0|]. rewrite Hp. left. auto.
  - intros f Hf. rewrite at_other by auto. auto.
  - intros j f. rewrite W. intros Hf. rewrite at_other by eauto. apply (inv_waking0 j f Hf).
  - intros j. rewrite W. auto.
  - intros j k f. rewrite !W. eauto.
  - intros f Hf. destruct (inv_paused0 f Hf) as [?|[j Hj]]; [auto|right; exists j; rewrite W; exact Hj].
  - intros j E. at_index j i; [discriminate E|eauto].
  - intros j h f m E. at_index j i; [discriminate E|eauto].
  - intros j h f g l E. at_index j i; [discriminate E|]. specialize (Hb j N). rewrite E in Hb. discriminate Hb.
  - intros j. at_index j i; [discriminate|auto].
Qed.

(** A plain step that leaves the condition variable alone too *)
Lemma inv_quiet w w' i q : inv w -> pc w' = FiberMutex.FiberMutex.upd (pc w) i q -> queue w' = queue w -> paused w' = paused w -> gone w' = gone w -> has_queue w' = has_queue w ->
  moves i (held_by (pc w i)) (held_by q) (mutex w) (mutex w') -> moves i (in_map (pc w i)) (in_map q) (map_lock w) (map_lock w') ->
  waking q = waking (pc w i) -> parked q = parked (pc w i) -> (taking (pc w i) = true -> taking q = true) -> (q = WEnqueue -> has_queue w = true) ->
  (forall h f m, q = NCallback h f m -> (m = true <-> queue w <> [])) -> (forall h f g l, q <> ANext h f g l) -> q <> Dangling -> inv w'.
Proof.
  intros Hi Ep Eq Eu Eg Eh Mm Ml Ew Ek Ht He Hm Hn Hd. eapply inv_plain; try eassumption.
  - intros H. eapply covered_keep; [exact (inv_covered w Hi H)|eassumption..].
  - intros j E. rewrite Ep in E. at_index j i; [left; rewrite Eh; auto|]. eapply covered_keep; [exact (inv_enqueue w Hi j E)|eassumption..].
Qed.

(** A plain step after which some fiber is going to look at the list *)
Lemma inv_covering w w' i q : inv w -> pc w' = FiberMutex.FiberMutex.upd (pc w) i q -> queue w' = queue w -> paused w' = paused w -> gone w' = gone w -> covered w' ->
  mutex w' = mutex w -> map_lock w' = map_lock w -> held_by q = held_by (pc w i) -> in_map q = in_map (pc w i) ->
  waking q = waking (pc w i) -> parked q = parked (pc w i) -> (forall h f m, q <> NCallback h f m) -> (forall h f g l, q <> ANext h f g l) -> q <> Dangling -> inv w'.
Proof.
  intros Hi Ep Eq Eu Eg Hc Em El Hh Hm Ew Ek Hx Hn Hd. eapply inv_plain; try eassumption; auto; [left; auto..|]. intros h f m E. destruct (Hx h f m E).
Qed.

Ltac sides := cbn [go set_mutex set_has_queue set_map_lock pc queue paused gone mutex map_lock has_queue held_by in_map waking parked taking back]; try reflexivity; try discriminate; try (intros; discriminate); auto.

Lemma lock_mutex_ok w w' i : inv w -> pc w i = Lock \/ pc w i = WRelock -> lock_mutex i w = Some w' -> inv w'.
Proof.
  intros Hi Hp E. unfold lock_mutex in E. destruct (mutex w) eqn:Em; [discriminate E|injection E as <-].
  eapply inv_quiet with (i := i) (q := Owner); sides; destruct Hp as [-> | ->]; sides; unfold moves; sides.
Qed.

Lemma lock_map_ok w w' i q : inv w -> held_by q = held_by (pc w i) -> in_map (pc w i) = false -> in_map q = true -> waking q = waking (pc w i) -> parked q = parked (pc w i) ->
  (taking (pc w i) = true -> taking q = true) -> q <> WEnqueue -> (forall h f m, q <> NCallback h f m) -> (forall h f g l, q <> ANext h f g l) -> q <> Dangling ->
  lock_map i q w = Some w' -> inv w'.
Proof.
  intros Hi Hh Hm Hm' Hw Hk Ht He Hx Hn Hd E. unfold lock_map in E. destruct (map_lock w) eqn:El; [discriminate E|injection E as <-].
  eapply inv_quiet with (i := i) (q := q); sides; try (unfold moves; sides; fail); try contradiction; try (intros; exfalso; eapply Hx; eassumption).
Qed.

Lemma wait_ok w w' i : inv w -> (forall j, j <> i -> between (pc w j) = false) -> wait i (pc w i) w = Some w' -> inv w'.
Proof.
  intros Hi Hb E. destruct (pc w i) eqn:Hp; try discriminate E; cbn [wait] in E.
  - eapply lock_map_ok with (i := i) (q := WLoad); rewrite ?Hp; sides.
  - injection E as <-. destruct (has_queue w) eqn:Eh; eapply inv_quiet with (i := i); rewrite ?Hp; sides; unfold moves; sides.
  - injection E as <-. eapply inv_covering with (i := i); rewrite ?Hp; sides. left. reflexivity.
  - injection E as <-. apply inv_wenqueue; assumption.
  - injection E as <-. eapply inv_quiet with (i := i); rewrite ?Hp; sides; unfold moves; sides.
  - injection E as <-. eapply inv_quiet with (i := i); rewrite ?Hp; sides; unfold moves; sides.
  - destruct (paused w i) eqn:Hu; [discriminate E|injection E as <-]. apply inv_returns; assumption.
  - eapply lock_mutex_ok; eauto.
Qed.

Lemma notify_one_ok w w' i : inv w -> notify_one i (pc w i) w = Some w' -> inv w'.
Proof.
  intros Hi E. destruct (pc w i) eqn:Hp; try discriminate E; cbn [notify_one] in E.
  - injection E as <-. destruct (has_queue w) eqn:Eh, held; eapply inv_quiet with (i := i); rewrite ?Hp; sides; unfold moves; sides.
  - eapply lock_map_ok with (i := i) (q := NPop held); rewrite ?Hp; sides.
  - injection E as <-. destruct (queue w) as [|f l] eqn:Hq.
    + eapply inv_quiet with (i := i); rewrite ?Hp; sides; try (unfold moves; sides; fail). intros h f m [= _ _ <-]. rewrite Hq. split; [discriminate|congruence].
    + apply inv_dequeue; rewrite ?Hp; sides. intros h f' m [= _ _ <-]. destruct l; split; congruence.
  - injection E as <-. destruct have_more.
    + eapply inv_quiet with (i := i); rewrite ?Hp; sides; try (unfold moves; sides; fail); destruct fiber; reflexivity.
    + assert (Hq : queue w = []) by (destruct (queue w) eqn:Hq; [reflexivity|]; pose proof (inv_more w Hi i _ _ _ Hp) as Hm; rewrite Hq in Hm; destruct Hm as [_ Hm]; discriminate (Hm ltac:(discriminate))).
      eapply inv_plain with (i := i); rewrite ?Hp; sides; try (unfold moves; sides; fail); try (destruct fiber; reflexivity); [congruence|].
      intros j Ej. cbn [go set_has_queue pc] in Ej. at_index j i; [discriminate Ej|]. destruct N. apply (map_one w); [exact Hi|rewrite Ej; reflexivity|rewrite Hp; reflexivity].
  - injection E as <-. eapply inv_quiet with (i := i); rewrite ?Hp; sides; try (unfold moves; sides; fail); destruct fiber; reflexivity.
  - injection E as <-. destruct fiber as [f|].
    + apply inv_wake; rewrite ?Hp; destruct held; sides.
    + destruct held; eapply inv_quiet with (i := i); rewrite ?Hp; sides; unfold moves; sides.
Qed.

Lemma notify_all_ok w w' i : inv w -> notify_all i (pc w i) w = Some w' -> inv w'.
Proof.
  intros Hi E. destruct (pc w i) eqn:Hp; try discriminate E; cbn [notify_all] in E.
  - injection E as <-. destruct (has_queue w) eqn:Eh, held; eapply inv_quiet with (i := i); rewrite ?Hp; sides; unfold moves; sides.
  - injection E as <-. eapply inv_covering with (i := i); rewrite ?Hp; sides. right. exists i. cbn [go set_has_queue pc]. rewrite at_self. reflexivity.
  - eapply lock_map_ok with (i := i) (q := ATake held); rewrite ?Hp; sides.
  - injection E as <-. apply inv_dequeue; rewrite ?Hp; sides; [rewrite app_nil_r; reflexivity|contradiction].
  - injection E as <-. eapply inv_quiet with (i := i); rewrite ?Hp; sides; unfold moves; sides.
  - destruct list as [|f l]; injection E as <-.
    + destruct held; eapply inv_quiet with (i := i); rewrite ?Hp; sides; unfold moves; sides.
    + apply inv_wake; rewrite ?Hp; sides. intros h x g l' [= _ <- <- _]. reflexivity.
  - injection E as <-. rewrite (inv_entry w Hi i _ _ _ _ Hp), Nat.eqb_refl. eapply inv_quiet with (i := i); rewrite ?Hp; sides; unfold moves; sides.
Qed.

Lemma lockstep_ok w w' : lockstep w w' -> inv w -> inv w'.
Proof.
  intros [i c w1 w2 Hb E] Hi. unfold exec in E. destruct (pc w1 i) eqn:Hp; try discriminate E;
    try (rewrite <- Hp in E; solve [eapply wait_ok; eassumption|eapply notify_one_ok; eassumption|eapply notify_all_ok; eassumption]).
  - destruct c; try discriminate E; injection E as <-; eapply inv_quiet with (i := i); rewrite ?Hp; sides; unfold moves; sides.
  - eapply lock_mutex_ok; eauto.
  - destruct c; injection E as <-; eapply inv_quiet with (i := i); rewrite ?Hp; sides; unfold moves; sides.
Qed.

Lemma lockstep_inv w : rtc lockstep INIT w -> inv w.
Proof. intros H. apply (rtc_ind_r (R := lockstep) inv INIT); [exact init_ok| |exact H]. intros a b _ Hs Hi. exact (lockstep_ok _ _ Hs Hi). Qed.

(** ** Operations one after the other *)

(** Outside the operations, or asleep in [wait] *)
Definition quiet (p : PC) : Prop := p = Idle \/ p = Lock \/ p = Owner \/ p = WSleep \/ p = WRelock.

Fixpoint solo (i : nat) (c : Call) (n : nat) (w : World) : option World :=
  match n with O => Some w | S n => match exec i c w with Some w => solo i c n w | None => None end end.

Lemma solo_step i c n w w1 w' : exec i c w = Some w1 -> solo i c n w1 = Some w' -> solo i c (S n) w = Some w'.
Proof. intros E H. cbn [solo]. rewrite E. exact H. Qed.

Lemma quiet_between p : quiet p -> between p = false.
Proof. intros [-> |[-> |[-> |[-> | ->]]]]; reflexivity. Qed.

Lemma exec_frame i c w w' j : exec i c w = Some w' -> j <> i -> pc w' j = pc w j.
Proof.
  intros E N. unfold exec in E. destruct (pc w i) as [| | | | | | | | | | | | | |? f ?|? f|? f| | | | | |? [|]| |]; try destruct c; try discriminate E; cbn [wait notify_one notify_all] in E;
    unfold lock_mutex, lock_map in E; repeat match type of E with context [match ?x with _ => _ end] => destruct x end; try discriminate E; injection E as <-; cbn; apply at_other; exact N.
Qed.

Lemma solo_reach i c n : forall w w', (forall j, j <> i -> quiet (pc w j)) -> solo i c n w = Some w' -> rtc lockstep w w' /\ forall j, j <> i -> pc w' j = pc w j.
Proof.
  induction n as [|n IH]; intros w w' Hq; cbn [solo]; [intros [= <-]; split; [constructor|reflexivity]|]. destruct (exec i c w) as [w1|] eqn:E; [|discriminate]. intros H.
  destruct (IH w1 w') as [H1 H2]; [intros j N; rewrite (exec_frame _ _ _ _ _ E N); auto|exact H|]. split.
  - eapply rtc_l; [|exact H1]. apply (lockstep_exec i c); [|exact E]. intros j N. apply quiet_between. auto.
  - intros j N. rewrite (H2 j N). exact (exec_frame _ _ _ _ _ E N).
Qed.

(** Between operations the fibers that are asleep are those of the list. *)
Lemma quiet_world w : inv w -> (forall j, quiet (pc w j)) ->
  map_lock w = None /\ (queue w <> [] -> has_queue w = true) /\ forall f, paused w f = true <-> f ∈ queue w.
Proof.
  intros Hi Hq. assert (Q : forall j, in_map (pc w j) = false /\ taking (pc w j) = false /\ waking (pc w j) = []) by (intros j; destruct (Hq j) as [-> |[-> |[-> |[-> | ->]]]]; auto). split_and!.
  - destruct (map_lock w) as [k|] eqn:E; [|reflexivity]. apply (inv_map w Hi) in E. destruct (Q k) as [Hk _]. congruence.
  - intros H. destruct (inv_covered w Hi H) as [?|[j Hj]]; [assumption|]. destruct (Q j) as (_ & Hk & _). congruence.
  - intros f. split; [|intros Hf; apply (inv_queue w Hi f Hf)]. intros Hf. destruct (inv_paused w Hi f Hf) as [?|[j Hj]]; [assumption|]. destruct (Q j) as (_ & _ & Hk). rewrite Hk in Hj. apply elem_of_nil in Hj. contradiction.
Qed.

Ltac run := eapply solo_step; [unfold exec; cbn [pc go set_mutex set_has_queue set_map_lock set_queue set_paused leave]; rewrite ?at_self; cbn [wait notify_one notify_all]; unfold lock_map; cbn [map_lock queue has_queue go set_mutex set_has_queue set_map_lock set_queue set_paused leave]|].

Lemma walk_all i c h l : forall w, pc w i = AWalk h l -> exists n w', solo i c n w = Some w' /\ pc w' i = back h /\ queue w' = queue w /\ mutex w' = mutex w.
Proof.
  induction l as [|f l IH]; intros w Hp.
  - exists 1%nat. eexists. split; [cbn [solo]; unfold exec; rewrite Hp; reflexivity|]. cbn [go pc queue mutex]. rewrite at_self. auto.
  - destruct (IH (go i (AWalk h l) (go i (ANext h f (gone w f) l) (set_paused f false w)))) as (n & w' & E & H1 & H2 & H3); [cbn [go pc]; apply at_self|].
    exists (S (S n)), w'. split; [|auto]. run; [rewrite Hp; reflexivity|]. run; [cbn [gone]; rewrite Nat.eqb_refl; reflexivity|]. exact E.
Qed.

(** What the operations do to the list *)
Definition spec (i : nat) (c : Call) (q : list nat) : list nat :=
  match c with CallMutex => q | CallWait => q ++ [i] | CallNotifyOne => tl q | CallNotifyAll => [] end.

Lemma one_operation w i c : inv w -> (forall j, quiet (pc w j)) -> c <> CallMutex -> pc w i = Owner \/ pc w i = Idle /\ c <> CallWait ->
  exists n w', solo i c n w = Some w' /\ queue w' = spec i c (queue w) /\
    pc w' i = (match c with CallWait => WSleep | _ => pc w i end) /\ mutex w' = (match c with CallWait => None | _ => mutex w end).
Proof.
  intros Hi Hq Hc Hp. destruct (quiet_world w Hi Hq) as (Hl & Hh & _).
  assert (Hb : forall p, p = pc w i -> (p = Owner \/ p = Idle) -> p = back (match p with Owner => true | _ => false end)) by (intros p _ [-> | ->]; reflexivity).
  set (h := match pc w i with Owner => true | _ => false end). assert (Hback : pc w i = back h) by (apply (Hb _ eq_refl); tauto).
  destruct c; [contradiction| | |].
  - destruct Hp as [Hp|[_ Hp]]; [|contradiction]. destruct (has_queue w) eqn:Eh.
    + exists 6%nat. eexists. split; [run; [rewrite Hp; reflexivity|]; run; [rewrite Hl; reflexivity|]; run; [rewrite Eh; reflexivity|]; run; [reflexivity|]; run; [reflexivity|]; run; [reflexivity|]; reflexivity|].
      cbn. rewrite !at_self. auto.
    + exists 7%nat. eexists. split; [run; [rewrite Hp; reflexivity|]; run; [rewrite Hl; reflexivity|]; run; [rewrite Eh; reflexivity|]; run; [reflexivity|]; run; [reflexivity|]; run; [reflexivity|]; run; [reflexivity|]; reflexivity|].
      cbn. rewrite !at_self. auto.
  - assert (S1 : exec i CallNotifyOne w = Some (go i (NLoad h) w)) by (unfold exec; subst h; destruct Hp as [-> |[-> _]]; reflexivity).
    destruct (has_queue w) eqn:Eh.
    + destruct (queue w) as [|f l] eqn:Eq.
      * exists 7%nat. eexists. split; [eapply solo_step; [exact S1|]; run; [rewrite Eh; reflexivity|]; run; [rewrite Hl; reflexivity|]; run; [rewrite Eq; reflexivity|]; run; [reflexivity|]; run; [reflexivity|]; run; [reflexivity|]; reflexivity|].
        cbn. rewrite !at_self. auto.
      * exists 7%nat. eexists. split; [eapply solo_step; [exact S1|]; run; [rewrite Eh; reflexivity|]; run; [rewrite Hl; reflexivity|]; run; [rewrite Eq; reflexivity|]; run; [reflexivity|]; run; [reflexivity|]; run; [reflexivity|]; reflexivity|].
        destruct l; cbn; rewrite !at_self; auto.
    + exists 2%nat. eexists. split; [eapply solo_step; [exact S1|]; run; [rewrite Eh; reflexivity|]; reflexivity|]. cbn. rewrite !at_self.
      destruct (queue w); [auto|]. discriminate (Hh ltac:(discriminate)).
  - assert (S1 : exec i CallNotifyAll w = Some (go i (ALoad h) w)) by (unfold exec; subst h; destruct Hp as [-> |[-> _]]; reflexivity).
    destruct (has_queue w) eqn:Eh.
    + set (w1 := go i (AWalk h (queue w)) (set_map_lock None (go i (ARelease h (queue w)) (set_queue [] (go i (ATake h) (set_map_lock (Some i) (go i (ALock h) (set_has_queue false (go i (AStore h) (go i (ALoad h) w)))))))))).
      destruct (walk_all i CallNotifyAll h (queue w) w1) as (n & w' & E & H1 & H2 & H3); [subst w1; cbn [go pc]; apply at_self|].
      exists (6 + n)%nat, w'. split; [|rewrite H1, H2, H3, Hback; auto]. cbn [Nat.add]. eapply solo_step; [exact S1|]. run; [rewrite Eh; reflexivity|]. run; [reflexivity|]. run; [rewrite Hl; reflexivity|]. run; [reflexivity|]. run; [reflexivity|]. exact E.
    + exists 2%nat. eexists. split; [eapply solo_step; [exact S1|]; run; [rewrite Eh; reflexivity|]; reflexivity|]. cbn. rewrite !at_self.
      destruct (queue w); [auto|]. discriminate (Hh ltac:(discriminate)).
Qed.

(** C39. While the fibers of one thread take turns, in any order, and none of them returns,
    the condition variable keeps its books ([exit_leaves_entry] is what happens when one does): one
    fiber at most has the mutex, [unpark_all] never reads an entry that is gone, a fiber is
    asleep exactly when it is in the list or some notifier has taken it out and is about to
    wake it, and while the list is not empty [has_queue] is set or some [notify_all] is about
    to take the whole list, so that no notification is lost.  Between operations, each
    operation runs to its end whatever the other fibers wait for, and does to the list of
    sleeping fibers what it promises: [wait] appends the fiber and releases the mutex,
    [notify_one] wakes the first, [notify_all] wakes all of them. *)
Theorem condvar_runs w : rtc lockstep INIT w ->
  (forall i j, held_by (pc w i) = true -> held_by (pc w j) = true -> i = j) /\ (forall i, pc w i <> Dangling) /\
  (forall f, paused w f = true <-> f ∈ queue w \/ exists j, f ∈ waking (pc w j)) /\
  (queue w <> [] -> has_queue w = true \/ exists j, taking (pc w j) = true) /\
  ((forall j, quiet (pc w j)) -> forall i c, c <> CallMutex -> pc w i = Owner \/ pc w i = Idle /\ c <> CallWait ->
    exists n w', solo i c n w = Some w' /\ queue w' = spec i c (queue w) /\ (forall f, paused w' f = true <-> f ∈ queue w') /\
      (forall j, j <> i -> pc w' j = pc w j) /\ pc w' i = (match c with CallWait => WSleep | _ => pc w i end) /\
      mutex w' = (match c with CallWait => None | _ => mutex w end)).
Proof.
  intros Hr. pose proof (lockstep_inv w Hr) as Hi. split_and!.
  - intros i j Ha Hb. apply (inv_mutex w Hi) in Ha, Hb. congruence.
  - apply (inv_sound w Hi).
  - intros f. split; [apply (inv_paused w Hi)|]. intros [Hf|[j Hj]]; [apply (inv_queue w Hi f Hf)|apply (inv_waking w Hi j f Hj)].
  - apply (inv_covered w Hi).
  - intros Hq i c Hc Hp. destruct (one_operation w i c Hi Hq Hc Hp) as (n & w' & E & H1 & H2 & H3). exists n, w'.
    destruct (solo_reach i c n w w' ltac:(intros; apply Hq) E) as [Hs Hf]. split_and!; auto.
    apply quiet_world; [apply lockstep_inv; etrans; eassumption|]. intros j. at_index j i; [|rewrite Hf by exact N; apply Hq].
    rewrite H2. unfold quiet. destruct c; auto 6; apply Hq.
Qed.

(** A schedule: who runs, with which call and for how many steps; [ok] is asked of the fiber
    after its turn. *)
Fixpoint play (ok : PC -> bool) (l : list (nat * Call * nat)) (w : World) : option World :=
  match l with
  | [] => Some w
  | (i, c, n) :: l => match solo i c n w with Some w => if ok (pc w i) then play ok l w else None | None => None end
  end.

Definition is_quiet (p : PC) : bool := match p with Idle | Lock | Owner | WSleep | WRelock => true | _ => false end.

Lemma play_lockstep l : forall w w', (forall j, quiet (pc w j)) -> play is_quiet l w = Some w' -> rtc lockstep w w' /\ forall j, quiet (pc w' j).
Proof.
  induction l as [|[[i c] n] l IH]; intros w w' Hq; cbn [play]; [intros [= <-]; split; [constructor|exact Hq]|].
  destruct (solo i c n w) as [w1|] eqn:E; [|discriminate]. destruct (is_quiet (pc w1 i)) eqn:Ei; [|discriminate]. intros H.
  destruct (solo_reach i c n w w1 ltac:(intros; apply Hq) E) as [Hs Hf].
  destruct (IH w1 w') as [H1 H2]; [|exact H|split; [etrans; eassumption|exact H2]].
  intros j. destruct (decide (j = i)) as [->|N]; [|rewrite (Hf j N); apply Hq]. unfold quiet. destruct (pc w1 i); try discriminate Ei; auto 6.
Qed.

Lemma play_step ok l : forall w w', play ok l w = Some w' -> rtc step w w'.
Proof.
  induction l as [|[[i c] n] l IH]; intros w w'; cbn [play]; [intros [= <-]; constructor|].
  destruct (solo i c n w) as [w1|] eqn:E; [|discriminate]. destruct (ok (pc w1 i)); [|discriminate]. intros H. etrans; [|exact (IH _ _ H)]. clear H IH.
  revert w E. induction n as [|n IH]; intros w; cbn [solo]; [intros [= <-]; constructor|]. destruct (exec i c w) eqn:Ex; [|discriminate]. intros H. eapply rtc_l; [exact (step_exec i c _ _ Ex)|auto].
Qed.

(** Two fibers take the mutex and wait. *)
Definition two_wait : list (nat * Call * nat) := [(1, CallMutex, 2); (1, CallWait, 7); (2, CallMutex, 2); (2, CallWait, 6)]%nat.

Definition played (ok : PC -> bool) (l : list (nat * Call * nat)) : World := match play ok l INIT with Some w => w | None => INIT end.

Lemma played_ok ok l : (match play ok l INIT with Some _ => true | None => false end) = true -> play ok l INIT = Some (played ok l).
Proof. unfold played. destruct (play ok l INIT); [reflexivity|discriminate]. Qed.

Lemma two_wait_ok : rtc lockstep INIT (played is_quiet two_wait) /\ forall j, quiet (pc (played is_quiet two_wait) j).
Proof. apply (play_lockstep two_wait); [left; reflexivity|]. apply played_ok. vm_compute. reflexivity. Qed.

Lemma condvar_runs_witness : exists n w', queue (played is_quiet two_wait) = [1%nat; 2%nat] /\
  solo 3 CallNotifyAll n (played is_quiet two_wait) = Some w' /\ queue w' = [] /\ paused w' 2%nat = false.
Proof.
  destruct two_wait_ok as (Hr & Hq). destruct (condvar_runs _ Hr) as (_ & _ & _ & _ & H).
  destruct (H Hq 3%nat CallNotifyAll) as (n & w' & Hs & Hu & Hp & _); [discriminate|right; split; [vm_compute; reflexivity|discriminate]|].
  exists n, w'. split_and!; [vm_compute; reflexivity|exact Hs|exact Hu|]. destruct (paused w' 2) eqn:Ep; [|reflexivity]. apply Hp in Ep. rewrite Hu in Ep. apply elem_of_nil in Ep. contradiction.
Defined.

(** When the fibers are on different threads, the one that is woken first can be gone before
    [unpark_all] reads the link to the second: fiber 1 returns from [park] in between. *)
Theorem unpark_all_dangles : exists w, rtc step INIT w /\ pc w 3%nat = Dangling.
Proof.
  exists (played (fun _ => true) (two_wait ++ [(3, CallNotifyAll, 7); (1, CallMutex, 1); (3, CallNotifyAll, 1)]%nat)). split.
  - eapply play_step. apply played_ok. vm_compute. reflexivity.
  - vm_compute. reflexivity.
Qed.

(** When a fiber of the group returns while the first one waits, even with fibers that take
    turns, the first one returns from [wait] without a notification, and the entry on its stack
    stays in the list. *)
Theorem exit_leaves_entry : exists w w', rtc lockstep INIT w /\ resumed 1 w = Some w' /\ step w w' /\
  queue w' = [1%nat; 2%nat] /\ parked (pc w' 1%nat) = false /\ gone w' 1%nat = 1%nat.
Proof.
  set (w := played is_quiet two_wait). assert (E : pc w 1%nat = WSleep) by (vm_compute; reflexivity).
  assert (R : resumed 1 w = Some (go 1 WRelock (leave 1 w))) by (unfold resumed; rewrite E; reflexivity).
  exists w, (go 1 WRelock (leave 1 w)). split; [apply two_wait_ok|]. split; [exact R|]. split; [exact (step_resumed _ _ _ R)|].
  split_and!; vm_compute; reflexivity.
Qed.
