(* ===== verification/VirtioQueue.v ===== *)
(** Virtio queues (lib/io/src/hw/virtio/queue.rs): the shared state of a queue, taking a
    descriptor chain from the available ring, returning it through the used ring, and the
    two halves of a buffer as a reader and a writer.  The memory the devices reach is the
    interface [DmaContext] of lib/io/src/lib.rs. *)

From Stdlib Require Import ZArith Lia Bool List.
From stdpp Require Import base list.
From S2P Require Import Prelude.
Import ListNotations.
Local Open Scope Z_scope.
Local Open Scope rust_scope.

(** ** [DmaContext] *)

Class DmaContext (D : Type) : Type := {
  dma_read : D -> Z -> nat -> list Z;
  dma_write : D -> Z -> list Z -> D;
  read_u16 : D -> Z -> Z;
  write_u16 : D -> Z -> Z -> D;
}.

(** What the devices rely on: memory is made of bytes, and an access of several bytes is
    an access to each of them. *)
Class DmaLaws (D : Type) {H : DmaContext D} : Type := {
  byte_at : D -> Z -> Z;
  byte_range d a : 0 <= byte_at d a < 256;
  dma_read_bytes d a n : dma_read d a n = map (fun i => byte_at d (a + Z.of_nat i)) (seq 0 n);
  dma_write_bytes d a l x : Forall (in_u 8) l ->
    byte_at (dma_write d a l) x =
      if (a <=? x) && (x <? a + Z.of_nat (length l)) then nth (Z.to_nat (x - a)) l 0 else byte_at d x;
  read_u16_bytes d a : read_u16 d a = byte_at d a + 256 * byte_at d (a + 1);
  write_u16_bytes d a v x : in_u 16 v ->
    byte_at (write_u16 d a v) x =
      if x =? a then v mod 256 else if x =? a + 1 then v / 256 else byte_at d x;
}.

(** [from_le_bytes] and [to_le_bytes] *)
Fixpoint from_le_bytes (l : list Z) : Z := match l with [] => 0 | b :: l => b + 256 * from_le_bytes l end.
Fixpoint to_le_bytes (n : nat) (v : Z) : list Z :=
  match n with O => [] | S n => v mod 256 :: to_le_bytes n (v / 256) end.

(** ** The queue *)

Definition VIRTQ_DESC_F_NEXT : Z := 1.
Definition VIRTQ_DESC_F_WRITE : Z := 2.

Record VirtqDesc : Type := MkDesc { addr : Z; len : Z; flags : Z; next : Z }.

(** [transmute] of the 16 bytes of a descriptor *)
Definition desc_of_bytes (l : list Z) : VirtqDesc :=
  MkDesc (from_le_bytes (firstn 8 l)) (from_le_bytes (firstn 4 (skipn 8 l)))
    (from_le_bytes (firstn 2 (skipn 12 l))) (from_le_bytes (firstn 2 (skipn 14 l))).

(** [waker] is whether a task waits. *)
Record QueueInner : Type := MkQueue {
  ready : bool; num : Z; num_max : Z; desc_addr : Z; avail_addr : Z; used_addr : Z;
  last_avail_idx : Z; last_used_idx : Z; waker : bool }.

Definition queue_new (num_max : Z) : QueueInner := MkQueue false num_max num_max 0 0 0 0 0 false.
Definition queue_reset (q : QueueInner) : QueueInner := MkQueue false (num_max q) (num_max q) 0 0 0 0 0 false.

Definition set_last_avail_idx (v : Z) (q : QueueInner) : QueueInner :=
  MkQueue (ready q) (num q) (num_max q) (desc_addr q) (avail_addr q) (used_addr q) v (last_used_idx q) (waker q).
Definition set_last_used_idx (v : Z) (q : QueueInner) : QueueInner :=
  MkQueue (ready q) (num q) (num_max q) (desc_addr q) (avail_addr q) (used_addr q) (last_avail_idx q) v (waker q).
Definition set_waker (v : bool) (q : QueueInner) : QueueInner :=
  MkQueue (ready q) (num q) (num_max q) (desc_addr q) (avail_addr q) (used_addr q) (last_avail_idx q) (last_used_idx q) v.

(** A part of a buffer: its address and its length. *)
Notation Slice := (Z * nat)%type.
Definition total (l : list Slice) : nat := list_sum (map snd l).

(** [struct Buffer], without the references to the queue and to memory. *)
Record Buffer : Type := MkBuffer {
  idx : Z; bytes_written : nat; read : list Slice; write : list Slice; read_len : nat; write_len : nat }.

Section Queue.
Context {D : Type} {DC : DmaContext D}.

Definition read_desc (q : QueueInner) (d : D) (idx : Z) : VirtqDesc :=
  desc_of_bytes (dma_read d (u64 (desc_addr q + (idx .& (num q - 1)) * 16)) 16).

(** The loop over a chain: [None] when it has not ended after [fuel] descriptors. *)
Fixpoint chain_loop (fuel : nat) (q : QueueInner) (d : D) (idx : Z) (rd wr : list Slice) :
    option (list Slice * list Slice) :=
  match fuel with
  | O => None
  | S fuel =>
      let desc := read_desc q d idx in
      let slice := (addr desc, Z.to_nat (len desc)) in
      let '(rd, wr) :=
        if (flags desc .& VIRTQ_DESC_F_WRITE) =? 0 then (rd ++ [slice], wr) else (rd, wr ++ [slice]) in
      if (flags desc .& VIRTQ_DESC_F_NEXT) =? 0 then Some (rd, wr)
      else chain_loop fuel q d (next desc) rd wr
  end.

(** [Result<Option<Buffer>, QueueNotReady>]; [Running] is a loop that has not ended. *)
Inductive Taken : Type := QueueNotReady | Nothing | Took (q : QueueInner) (b : Buffer) | Running.

Definition try_take (fuel : nat) (q : QueueInner) (d : D) : Taken :=
  if negb (ready q) then QueueNotReady
  else
    let avail_idx := read_u16 d (u64 (avail_addr q + 2)) in
    if last_avail_idx q =? avail_idx then Nothing
    else
      let idx_ptr := u64 (avail_addr q + 4 + (last_avail_idx q .& (num q - 1)) * 2) in
      let idx := read_u16 d idx_ptr in
      let q := set_last_avail_idx (u16 (last_avail_idx q + 1)) q in
      match chain_loop fuel q d idx [] [] with
      | Some (rd, wr) => Took q (MkBuffer idx 0 rd wr (total rd) (total wr))
      | None => Running
      end.

(** [put], run when a [Buffer] is dropped *)
Definition put (q : QueueInner) (d : D) (b : Buffer) : QueueInner * D :=
  if negb (ready q) then (q, d)
  else
    let elem_ptr := u64 (used_addr q + 4 + (last_used_idx q .& (num q - 1)) * 8) in
    let buffer := to_le_bytes 4 (u32 (idx b)) ++ to_le_bytes 4 (u32 (Z.of_nat (bytes_written b))) in
    let d := dma_write d elem_ptr buffer in
    let used := u16 (last_used_idx q + 1) in
    (set_last_used_idx used q, write_u16 d (u64 (used_addr q + 2)) used).

(** [poll] of the future of [Queue::take] *)
Inductive Polled : Type := Ready_ (t : Taken) | Pending (q : QueueInner).

Definition poll_take (fuel : nat) (q : QueueInner) (d : D) : Polled :=
  match try_take fuel q d with
  | Nothing => Pending (set_waker true q)
  | t => Ready_ t
  end.

(** ** Readers and writers *)

(** [BufferReader] and [BufferWriter]: they differ in [bytes_written], which the writer
    updates in the buffer. *)
Record Cursor : Type := MkCursor {
  buffer : list Slice; clen : nat; pos : nat; slice_idx : nat; slice_offset : nat }.

Definition reader (b : Buffer) : Cursor := MkCursor (read b) (read_len b) 0 0 0.
Definition writer (b : Buffer) : Cursor := MkCursor (write b) (write_len b) 0 0 0.

(** [seek_slice], from the slice numbered [i] on *)
Fixpoint seek_from (l : list Slice) (i offset : nat) : option (nat * nat) :=
  match l with
  | [] => None
  | (_, len) :: l => if (len <=? offset)%nat then seek_from l (S i) (offset - len) else Some (i, offset)
  end.

Definition seek_slice (c : Cursor) (offset : nat) : nat * nat :=
  match seek_from (buffer c) 0 offset with Some p => p | None => (S (length (buffer c)), O) end.

Inductive SeekFrom : Type := Start (n : Z) | End_ (n : Z) | Current (n : Z).

Definition seek (p : SeekFrom) (c : Cursor) : Cursor :=
  let new_pos :=
    Z.to_nat (u64 (match p with
      | Start n => n | End_ n => Z.of_nat (clen c) + n | Current n => Z.of_nat (pos c) + n end)) in
  let '(i, o) := if (pos c =? new_pos)%nat then (slice_idx c, slice_offset c) else seek_slice c new_pos in
  MkCursor (buffer c) (clen c) new_pos i o.

(** What [read] and [write] share: the address and the number of bytes of one transfer
    of at most [n] bytes, and the cursor after it. *)
Definition advance (n : nat) (c : Cursor) : option (Z * nat * Cursor) :=
  match buffer c !! slice_idx c with
  | None => None
  | Some (a, l) =>
      let slice_addr := u64 (a + Z.of_nat (slice_offset c)) in
      let slice_len := (l - slice_offset c)%nat in
      Some (if (slice_len <=? n)%nat
            then (slice_addr, slice_len, MkCursor (buffer c) (clen c) (pos c + slice_len) (S (slice_idx c)) 0)
            else (slice_addr, n, MkCursor (buffer c) (clen c) (pos c + n) (slice_idx c) (slice_offset c + n)))
  end.

(** [Read::read] *)
Definition cursor_read (d : D) (n : nat) (c : Cursor) : list Z * Cursor :=
  match advance n c with
  | None => ([], c)
  | Some (a, k, c) => (dma_read d a k, c)
  end.

(** [Write::write] *)
Definition cursor_write (d : D) (l : list Z) (c : Cursor) (written : nat) : nat * D * Cursor * nat :=
  match advance (length l) c with
  | None => (O, d, c, written)
  | Some (a, k, c) => (k, dma_write d a (firstn k l), c, Nat.max (pos c) written)
  end.

(** [Read::read_exact] of the standard library: [None] is the error [UnexpectedEof], here
    always followed by a panic.  A transfer that is not empty makes progress, so [S n]
    rounds are enough. *)
Fixpoint read_exact_rounds (fuel : nat) (d : D) (n : nat) (c : Cursor) : option (list Z * Cursor) :=
  match n with
  | O => Some ([], c)
  | _ =>
      match fuel with
      | O => None
      | S fuel =>
          let '(l, c) := cursor_read d n c in
          match l with
          | [] => None
          | _ =>
              match read_exact_rounds fuel d (n - length l) c with
              | Some (rest, c) => Some (l ++ rest, c)
              | None => None
              end
          end
      end
  end.

Definition read_exact (d : D) (n : nat) (c : Cursor) : option (list Z * Cursor) := read_exact_rounds n d n c.

(** [Write::write_all]: [None] is the error [WriteZero] *)
Fixpoint write_all_rounds (fuel : nat) (d : D) (l : list Z) (c : Cursor) (written : nat) : option (D * Cursor * nat) :=
  match l with
  | [] => Some (d, c, written)
  | _ =>
      match fuel with
      | O => None
      | S fuel =>
          let '(k, d, c, written) := cursor_write d l c written in
          if (k =? 0)%nat then None else write_all_rounds fuel d (skipn k l) c written
      end
  end.

Definition write_all (d : D) (l : list Z) (c : Cursor) (written : nat) : option (D * Cursor * nat) :=
  write_all_rounds (length l) d l c written.

End Queue.
Arguments Taken : clear implicits.
Arguments Polled : clear implicits.

(** ** [DirectIoContext] of src/emu/mod.rs

    The devices reach guest memory directly; dropping the translated code of the pages a
    write touches is part of [icache_invalidate], not of this component. *)

Definition GuestMemory : Type := Z -> Z.

Definition poke (a : Z) (l : list Z) (m : GuestMemory) : GuestMemory :=
  fun x => if (a <=? x) && (x <? a + Z.of_nat (length l)) then nth (Z.to_nat (x - a)) l 0 else m x.

#[export] Instance DirectIoContext : DmaContext GuestMemory := {
  dma_read m a n := map (fun i => u8 (m (a + Z.of_nat i))) (seq 0 n);
  dma_write m a l := poke a l m;
  read_u16 m a := u8 (m a) + 256 * u8 (m (a + 1));
  write_u16 m a v := poke a [v mod 256; v / 256] m;
}.

Lemma u8_id x : in_u 8 x -> u8 x = x.
Proof. apply wrap_id. Qed.

#[export] Instance direct_laws : DmaLaws GuestMemory.
Proof.
  refine {| byte_at := fun m a => u8 (m a) |}.
  - intros d a. apply wrap_range. lia.
  - reflexivity.
  - intros d a l x Hl. cbn [dma_write DirectIoContext]. unfold poke.
    destruct ((a <=? x) && (x <? a + Z.of_nat (length l))) eqn:E; [|reflexivity].
    apply andb_true_iff in E as [E1 E2]. apply u8_id. rewrite Forall_forall in Hl. apply Hl.
    apply list_elem_of_In, nth_In. lia.
  - reflexivity.
  - intros d a v x Hv. cbn [write_u16 DirectIoContext]. unfold poke. cbn [length]. change (Z.of_nat 2) with 2.
    pose proof (Z.mod_pos_bound v 256). pose proof (Z.div_pos v 256). pose proof (Z.div_lt_upper_bound v 256 256).
    unfold in_u in Hv. change (2 ^ 16) with 65536 in Hv.
    destruct (Z.eqb_spec x a) as [->|N1]; [|destruct (Z.eqb_spec x (a + 1)) as [->|N2]].
    + rewrite Z.sub_diag. destruct (Z.leb_spec a a), (Z.ltb_spec a (a + 2)); try lia. cbn. apply u8_id. unfold in_u. lia.
    + replace (a + 1 - a) with 1 by lia. destruct (Z.leb_spec a (a + 1)), (Z.ltb_spec (a + 1) (a + 2)); try lia.
      cbn. apply u8_id. unfold in_u. lia.
    + destruct (Z.leb_spec a x), (Z.ltb_spec x (a + 2)); cbn [andb]; try reflexivity. lia.
Defined.
