(* ===== verification/VirtioQueueProps.v ===== *)
(** Virtio queues: a buffer's reader and writer are the bytes of its descriptors in order,
    chains end within the size of the queue or not at all, and the rings are queues. *)

From Stdlib Require Import ZArith Lia Bool List.
From stdpp Require Import base list.
From S2P Require Import Prelude VirtioQueue.
Import ListNotations.
Local Open Scope Z_scope.
Local Open Scope rust_scope.

(** ** The bytes of a list of slices *)

Definition span (a : Z) (n : nat) : list Z := map (fun i => a + Z.of_nat i) (seq 0 n).
Definition flat (l : list Slice) : list Z := concat (map (fun '(a, n) => span a n) l).

Lemma span_length a n : length (span a n) = n.
Proof. unfold span. rewrite length_map, length_seq. reflexivity. Qed.

Lemma flat_length l : length (flat l) = total l.
Proof.
  unfold flat, total. induction l as [|[a n] l IH]; [reflexivity|]. cbn [map concat list_sum].
  rewrite length_app, span_length. cbn. f_equal. exact IH.
Qed.

Lemma flat_app l1 l2 : flat (l1 ++ l2) = flat l1 ++ flat l2.
Proof. unfold flat. rewrite map_app, concat_app. reflexivity. Qed.

Lemma total_app l1 l2 : total (l1 ++ l2) = (total l1 + total l2)%nat.
Proof. rewrite <- !flat_length, flat_app, length_app. reflexivity. Qed.

Lemma total_cons a n l : total ((a, n) :: l) = (n + total l)%nat.
Proof. reflexivity. Qed.

Lemma span_drop a n k : (k <= n)%nat -> drop k (span a n) = span (a + Z.of_nat k) (n - k).
Proof.
  intros Hk. apply list_eq. intros i. rewrite lookup_drop. unfold span. rewrite !list_lookup_fmap.
  destruct (Nat.ltb_spec i (n - k)) as [L|L].
  - rewrite !lookup_seq_lt by lia. cbn. f_equal. lia.
  - rewrite !lookup_seq_ge by lia. reflexivity.
Qed.

Lemma span_take a n k : (k <= n)%nat -> take k (span a n) = span a k.
Proof.
  intros Hk. unfold span. rewrite firstn_map. f_equal. replace n with (k + (n - k))%nat by lia.
  rewrite seq_app, take_app_length' by (symmetry; apply length_seq). reflexivity.
Qed.

(** Addresses do not wrap around. *)
Definition fits (l : list Slice) : Prop := Forall (fun '(a, n) => 0 <= a /\ a + Z.of_nat n <= 2 ^ 64) l.
Definition nonempty (l : list Slice) : Prop := Forall (fun '(_, n) => (0 < n)%nat) l.

(** ** Cursors *)

(** The slice and the offset stand for the position. *)
Record at_position (c : Cursor) : Prop := {
  p_total : (pos c <= total (buffer c))%nat;
  p_slice : match buffer c !! slice_idx c with
            | Some (_, n) => (slice_offset c < n)%nat /\ pos c = (total (take (slice_idx c) (buffer c)) + slice_offset c)%nat
            | None => pos c = total (buffer c)
            end;
}.

Lemma split_at (l : list Slice) i a n : l !! i = Some (a, n) ->
  flat l = flat (take i l) ++ span a n ++ flat (drop (S i) l) /\
  total l = (total (take i l) + n + total (drop (S i) l))%nat /\ total (take (S i) l) = (total (take i l) + n)%nat.
Proof.
  intros H. pose proof (take_drop_middle l i (a, n) H) as E.
  assert (Hs : forall m, flat ((a, m) :: drop (S i) l) = span a m ++ flat (drop (S i) l)) by reflexivity.
  split; [rewrite <- E at 1; rewrite flat_app, Hs; reflexivity|]. split.
  - rewrite <- E at 1. rewrite total_app, total_cons. lia.
  - rewrite (take_S_r l i (a, n) H), total_app, total_cons. change (total []) with 0%nat. lia.
Qed.

(** One transfer moves a part of what is left. *)
Lemma advance_ok n c : at_position c -> fits (buffer c) -> nonempty (buffer c) -> (0 < n)%nat ->
  (pos c < total (buffer c))%nat ->
  exists a k c', advance n c = Some (a, k, c') /\ (0 < k <= n)%nat /\ at_position c' /\
    buffer c' = buffer c /\ clen c' = clen c /\ pos c' = (pos c + k)%nat /\
    span a k = take k (drop (pos c) (flat (buffer c))) /\ (pos c + k <= total (buffer c))%nat.
Proof.
  intros [Ht Hs] Hf Hne Hn Hlt. unfold advance. destruct (buffer c !! slice_idx c) as [[a l]|] eqn:E; [|lia].
  destruct Hs as [Ho Hp]. destruct (split_at _ _ _ _ E) as (Fl & Tl & Tk).
  assert (Ha : u64 (a + Z.of_nat (slice_offset c)) = a + Z.of_nat (slice_offset c)).
  { apply wrap_id. unfold fits in Hf. rewrite Forall_lookup in Hf. pose proof (Hf _ _ E) as [? ?]. unfold in_u. lia. }
  assert (Hd : drop (pos c) (flat (buffer c)) =
    span (a + Z.of_nat (slice_offset c)) (l - slice_offset c) ++ flat (drop (S (slice_idx c)) (buffer c))).
  { rewrite Fl, Hp, drop_app_ge by (rewrite flat_length; lia). rewrite flat_length, Nat.add_comm, Nat.add_sub.
    rewrite drop_app_le by (rewrite span_length; lia). rewrite span_drop by lia. reflexivity. }
  rewrite Ha. destruct (Nat.leb_spec (l - slice_offset c) n) as [L|L].
  - do 3 eexists. split; [reflexivity|]. split; [lia|]. split.
    + split; cbn [pos buffer slice_idx slice_offset]; [lia|].
      destruct (buffer c !! S (slice_idx c)) as [[a' l']|] eqn:E'.
      * unfold nonempty in Hne. rewrite Forall_lookup in Hne. pose proof (Hne _ _ E') as Hl'. cbn in Hl'. split; [exact Hl'|]. lia.
      * apply lookup_ge_None in E'. rewrite drop_ge in Tl by exact E'. change (total []) with 0%nat in Tl. lia.
    + cbn [pos buffer clen]. do 3 (split; [reflexivity|]). split; [|lia]. rewrite Hd, take_app_le by (rewrite span_length; lia).
      rewrite span_take by lia. reflexivity.
  - do 3 eexists. split; [reflexivity|]. split; [lia|]. split.
    + split; cbn [pos buffer slice_idx slice_offset]; [lia|]. rewrite E. lia.
    + cbn [pos buffer clen]. do 3 (split; [reflexivity|]). split; [|lia]. rewrite Hd, take_app_le by (rewrite span_length; lia).
      rewrite span_take by lia. reflexivity.
Qed.

Lemma advance_end n c : at_position c -> pos c = total (buffer c) -> advance n c = None.
Proof.
  intros [_ Hs] Hp. unfold advance. destruct (buffer c !! slice_idx c) as [[a l]|] eqn:E; [|reflexivity].
  destruct Hs as [Ho Hq]. destruct (split_at _ _ _ _ E) as (_ & Tl & _). lia.
Qed.

(** A fresh cursor, and one that was moved. *)
Lemma start_position l n : nonempty l -> at_position (MkCursor l n 0 0 0).
Proof.
  intros Hn. split; cbn [pos buffer slice_idx slice_offset]; [lia|]. destruct l as [|[a k] l]; [reflexivity|].
  cbn. inversion Hn; subst. cbn in *. split; [assumption|reflexivity].
Qed.

Lemma seek_from_ok l : forall i o, match seek_from l i o with
  | Some (j, p) => (i <= j)%nat /\ exists a n, l !! (j - i)%nat = Some (a, n) /\ (p < n)%nat /\
      o = (total (take (j - i) l) + p)%nat
  | None => (total l <= o)%nat
  end.
Proof.
  induction l as [|[a n] l IH]; intros i o; cbn [seek_from]; [unfold total; cbn; lia|].
  destruct (Nat.leb_spec n o) as [L|L].
  - specialize (IH (S i) (o - n)%nat). destruct (seek_from l (S i) (o - n)) as [[j p]|].
    + destruct IH as (Hj & b & m & Hl & Hp & Ho). split; [lia|]. exists b, m.
      replace (j - i)%nat with (S (j - S i)) by lia. cbn [lookup list_lookup take]. rewrite total_cons. split; [exact Hl|]. lia.
    + rewrite total_cons. lia.
  - split; [lia|]. exists a, n. rewrite Nat.sub_diag. cbn. split; [reflexivity|]. unfold total. cbn. lia.
Qed.

Lemma seek_slice_position c k n : (k <= total (buffer c))%nat ->
  at_position (MkCursor (buffer c) n k (fst (seek_slice c k)) (snd (seek_slice c k))).
Proof.
  intros Hk. unfold seek_slice. pose proof (seek_from_ok (buffer c) 0 k) as H.
  destruct (seek_from (buffer c) 0 k) as [[j p]|]; split; cbn [pos buffer slice_idx slice_offset fst snd]; auto.
  - destruct H as (_ & a & m & Hl & Hp & Ho). rewrite Nat.sub_0_r in *. rewrite Hl. auto.
  - assert (buffer c !! S (length (buffer c)) = None) as -> by (apply lookup_ge_None; auto). lia.
Qed.

(** A seek within the buffer. *)
Lemma seek_start_position c k : at_position c -> (k <= total (buffer c))%nat -> Z.of_nat k < 2 ^ 64 ->
  let c' := seek (Start (Z.of_nat k)) c in at_position c' /\ buffer c' = buffer c /\ pos c' = k /\ clen c' = clen c.
Proof.
  intros Hc Hk Hw. cbv zeta. unfold seek. unfold u64. rewrite wrap_id by (unfold in_u; lia). rewrite Nat2Z.id.
  destruct (Nat.eqb_spec (pos c) k) as [<-|N].
  - destruct c; cbn in *. auto.
  - pose proof (seek_slice_position c k (clen c) Hk) as H. destruct (seek_slice c k) as [i o]. cbn [fst snd] in H.
    cbn [buffer pos clen]. auto.
Qed.

Section Cursor.
Context {D : Type} {DC : DmaContext D} {DL : DmaLaws D}.

Lemma dma_read_span (d : D) a n : dma_read d a n = map (byte_at d) (span a n).
Proof. rewrite dma_read_bytes. unfold span. rewrite map_map. reflexivity. Qed.

(** What a cursor has left to give. *)
Definition remaining (d : D) (c : Cursor) : list Z := map (byte_at d) (drop (pos c) (flat (buffer c))).

Lemma remaining_length d c : length (remaining d c) = (total (buffer c) - pos c)%nat.
Proof. unfold remaining. rewrite length_map, length_drop, flat_length. reflexivity. Qed.

Lemma remaining_advance d c c' k : buffer c' = buffer c -> pos c' = (pos c + k)%nat ->
  remaining d c' = drop k (remaining d c).
Proof. intros Eb Ep. unfold remaining. rewrite Eb, Ep, skipn_map, drop_drop. reflexivity. Qed.

Lemma read_exact_rounds_ok (d : D) : forall fuel n c, at_position c -> fits (buffer c) -> nonempty (buffer c) -> (n <= fuel)%nat ->
  if (pos c + n <=? total (buffer c))%nat then
    exists c', read_exact_rounds fuel d n c = Some (take n (remaining d c), c') /\ at_position c' /\
      buffer c' = buffer c /\ clen c' = clen c /\ pos c' = (pos c + n)%nat
  else read_exact_rounds fuel d n c = None.
Proof.
  induction fuel as [|fuel IH]; intros n c Hc Hf Hn Hle.
  - assert (n = 0%nat) as -> by lia. destruct (Nat.leb_spec (pos c + 0) (total (buffer c))); [|pose proof (p_total _ Hc); lia].
    exists c. rewrite Nat.add_0_r. auto.
  - destruct n as [|n].
    { destruct (Nat.leb_spec (pos c + 0) (total (buffer c))); [|pose proof (p_total _ Hc); lia].
      exists c. rewrite Nat.add_0_r. auto. }
    cbn [read_exact_rounds]. unfold cursor_read.
    destruct (Nat.eq_dec (pos c) (total (buffer c))) as [Ep|Np].
    { rewrite (advance_end _ c Hc Ep). destruct (Nat.leb_spec (pos c + S n) (total (buffer c))); [lia|reflexivity]. }
    destruct (advance_ok (S n) c Hc Hf Hn ltac:(lia)) as (a & k & c' & -> & Hk & Hc' & Eb & El & Epos & Es & Hle');
      [pose proof (p_total _ Hc); lia|].
    rewrite dma_read_span, Es. set (l := map (byte_at d) (take k (drop (pos c) (flat (buffer c))))).
    assert (Hl : length l = k).
    { unfold l. rewrite length_map, <- Es, span_length. reflexivity. }
    assert (El' : l = take k (remaining d c)) by (unfold l, remaining; rewrite firstn_map; reflexivity).
    destruct l as [|x l'] eqn:Ell; [cbn in Hl; lia|]. rewrite <- Ell in *. clear Ell.
    rewrite Hl. specialize (IH (S n - k)%nat c' Hc' ltac:(rewrite Eb; exact Hf) ltac:(rewrite Eb; exact Hn) ltac:(lia)).
    rewrite Eb, Epos in IH. replace (pos c + k + (S n - k))%nat with (pos c + S n)%nat in IH by lia.
    destruct (Nat.leb_spec (pos c + S n) (total (buffer c))) as [L|L].
    + destruct IH as (c2 & -> & Hc2 & Eb2 & El2 & Ep2). exists c2. split; [|repeat split; congruence || lia || apply Hc2].
      rewrite (remaining_advance d c c' k), El' by assumption. rewrite take_take_drop.
      replace (k + (S n - k))%nat with (S n) by lia. reflexivity.
    + rewrite IH. reflexivity.
Qed.

(** Reading a buffer: [read_exact] of [n] bytes gives the next [n] bytes of the memory
    the device-readable descriptors name, in their order, and moves past them; it fails
    exactly when fewer are left.  Descriptors must not be empty. *)
Theorem virtio_read_exact (d : D) n c : at_position c -> fits (buffer c) -> nonempty (buffer c) ->
  ((pos c + n <= total (buffer c))%nat ->
     exists c', read_exact d n c = Some (take n (remaining d c), c') /\ at_position c' /\
       buffer c' = buffer c /\ clen c' = clen c /\ pos c' = (pos c + n)%nat) /\
  ((total (buffer c) < pos c + n)%nat -> read_exact d n c = None).
Proof.
  intros Hc Hf Hn. pose proof (read_exact_rounds_ok d n n c Hc Hf Hn ltac:(lia)) as H. unfold read_exact.
  destruct (Nat.leb_spec (pos c + n) (total (buffer c))); split; intros; try lia; exact H.
Qed.

(** ** Writing *)

(** [d'] is [d] with the bytes [bs] at [addrs]. *)
Definition updated (d d' : D) (addrs bs : list Z) : Prop :=
  (forall i a, addrs !! i = Some a -> byte_at d' a = nth i bs 0) /\
  (forall x, x ∉ addrs -> byte_at d' x = byte_at d x).

Lemma span_lookup a n i x : span a n !! i = Some x <-> x = a + Z.of_nat i /\ (i < n)%nat.
Proof.
  unfold span. rewrite list_lookup_fmap. split.
  - intros H. destruct (seq 0 n !! i) eqn:E; [|discriminate]. apply lookup_seq in E. cbn in *. injection H as <-. lia.
  - intros [-> H]. rewrite lookup_seq_lt by lia. reflexivity.
Qed.

Lemma dma_write_updated d a l : Forall (in_u 8) l -> updated d (dma_write d a l) (span a (length l)) l.
Proof.
  intros Hl. split.
  - intros i x H. apply span_lookup in H as [-> Hi]. rewrite dma_write_bytes by exact Hl.
    destruct (Z.leb_spec a (a + Z.of_nat i)), (Z.ltb_spec (a + Z.of_nat i) (a + Z.of_nat (length l))); try lia. cbn [andb].
    f_equal. lia.
  - intros x Hx. rewrite dma_write_bytes by exact Hl.
    destruct (Z.leb_spec a x), (Z.ltb_spec x (a + Z.of_nat (length l))); try reflexivity. exfalso. apply Hx.
    apply list_elem_of_lookup. exists (Z.to_nat (x - a)). apply span_lookup. lia.
Qed.

Lemma updated_nil d : updated d d [] [].
Proof. split; [intros i a H; discriminate|reflexivity]. Qed.

Lemma updated_app d d1 d2 a1 b1 a2 b2 : updated d d1 a1 b1 -> updated d1 d2 a2 b2 -> length a1 = length b1 ->
  (forall x, x ∈ a1 -> x ∉ a2) -> updated d d2 (a1 ++ a2) (b1 ++ b2).
Proof.
  intros [H1 K1] [H2 K2] Hl Hd. split.
  - intros i a H. destruct (Nat.ltb_spec i (length a1)) as [L|L].
    + rewrite lookup_app_l in H by lia. rewrite K2 by (apply Hd, list_elem_of_lookup; eauto).
      rewrite app_nth1 by lia. eauto.
    + rewrite lookup_app_r in H by lia. rewrite app_nth2 by lia. rewrite <- Hl. eauto.
  - intros x Hx. rewrite elem_of_app in Hx. rewrite K2, K1 by tauto. reflexivity.
Qed.

(** The addresses of [n] bytes from [p] on. *)
Definition window (l : list Slice) (p n : nat) : list Z := take n (drop p (flat l)).

Lemma window_app l p k n : window l p (k + n) = window l p k ++ window l (p + k) n.
Proof. unfold window. rewrite <- drop_drop, take_take_drop. reflexivity. Qed.

Lemma NoDup_app_disjoint (l1 l2 : list Z) x : NoDup (l1 ++ l2) -> x ∈ l1 -> x ∉ l2.
Proof. intros H Hx. apply NoDup_app in H as (_ & H & _). auto. Qed.

Lemma window_NoDup l p n : NoDup (flat l) -> NoDup (window l p n).
Proof.
  intros H. unfold window. rewrite <- (take_drop p (flat l)) in H. apply NoDup_app in H as (_ & _ & H).
  rewrite <- (take_drop n (drop p (flat l))) in H. apply NoDup_app in H as (H & _ & _). exact H.
Qed.

Lemma write_all_rounds_ok : forall fuel (d : D) l c w, at_position c -> fits (buffer c) -> nonempty (buffer c) ->
  NoDup (flat (buffer c)) -> Forall (in_u 8) l -> (length l <= fuel)%nat ->
  if (pos c + length l <=? total (buffer c))%nat then
    exists d' c', write_all_rounds fuel d l c w =
        Some (d', c', match l with [] => w | _ => Nat.max (pos c + length l) w end) /\
      updated d d' (window (buffer c) (pos c) (length l)) l /\ at_position c' /\
      buffer c' = buffer c /\ clen c' = clen c /\ pos c' = (pos c + length l)%nat
  else write_all_rounds fuel d l c w = None.
Proof.
  induction fuel as [|fuel IH]; intros d l c w Hc Hf Hn Hd Hb Hle.
  - destruct l; [|cbn in Hle; lia]. cbn [length]. destruct (Nat.leb_spec (pos c + 0) (total (buffer c)));
      [|pose proof (p_total _ Hc); lia]. exists d, c. rewrite Nat.add_0_r. split; [reflexivity|]. split; [apply updated_nil|auto].
  - destruct l as [|b l].
    { cbn [length]. destruct (Nat.leb_spec (pos c + 0) (total (buffer c))); [|pose proof (p_total _ Hc); lia].
      exists d, c. rewrite Nat.add_0_r. split; [reflexivity|]. split; [apply updated_nil|auto]. }
    cbn [write_all_rounds]. unfold cursor_write. set (bl := b :: l) in *.
    assert (Hbl : (0 < length bl)%nat) by (cbn; lia).
    destruct (Nat.eq_dec (pos c) (total (buffer c))) as [Ep|Np].
    { rewrite (advance_end _ c Hc Ep). destruct (Nat.leb_spec (pos c + length bl) (total (buffer c))); [lia|reflexivity]. }
    destruct (advance_ok (length bl) c Hc Hf Hn Hbl) as (a & k & c' & -> & Hk & Hc' & Eb & El & Epos & Es & Hle');
      [pose proof (p_total _ Hc); lia|].
    destruct (Nat.eqb_spec k 0); [lia|].
    specialize (IH (dma_write d a (take k bl)) (skipn k bl) c' (Nat.max (pos c') w) Hc'). rewrite Eb, Epos in IH.
    rewrite length_drop in IH. specialize (IH Hf Hn Hd (Forall_drop _ _ _ Hb) ltac:(lia)).
    replace (pos c + k + (length bl - k))%nat with (pos c + length bl)%nat in IH by lia.
    destruct (Nat.leb_spec (pos c + length bl) (total (buffer c))) as [L|L]; [|rewrite Epos; exact IH].
    destruct IH as (d' & c2 & E2 & U2 & Hc2 & Eb2 & El2 & Ep2). exists d', c2. rewrite Epos. rewrite E2. split.
    { f_equal. f_equal. destruct (skipn k bl) eqn:Ek; [|lia]. apply (f_equal length) in Ek. rewrite length_drop in Ek.
      change (length []) with 0%nat in Ek. lia. }
    split; [|repeat split; congruence || apply Hc2].
    assert (Ew : window (buffer c) (pos c) k = span a (length (take k bl))).
    { unfold window. rewrite <- Es, length_take, Nat.min_l by lia. reflexivity. }
    replace (length bl) with (k + (length bl - k))%nat by lia. rewrite window_app, Ew. rewrite <- (take_drop k bl) at 3.
    eapply updated_app; [apply dma_write_updated, Forall_take, Hb|exact U2|apply span_length|].
    intros x Hx. rewrite <- Ew in Hx. apply (NoDup_app_disjoint (window (buffer c) (pos c) k)); [|exact Hx].
    rewrite <- window_app. apply window_NoDup, Hd.
Qed.
(** Writing a buffer: [write_all] puts the bytes at the next addresses the
    device-writable descriptors name, in their order, and nowhere else; the length
    reported to the driver becomes the furthest position written; it fails exactly when
    the bytes do not fit.  Descriptors must not be empty nor overlap. *)
Theorem virtio_write_all (d : D) l c w : at_position c -> fits (buffer c) -> nonempty (buffer c) ->
  NoDup (flat (buffer c)) -> Forall (in_u 8) l ->
  ((pos c + length l <= total (buffer c))%nat ->
     exists d' c', write_all d l c w = Some (d', c', match l with [] => w | _ => Nat.max (pos c + length l) w end) /\
       updated d d' (window (buffer c) (pos c) (length l)) l /\ at_position c' /\
       buffer c' = buffer c /\ clen c' = clen c /\ pos c' = (pos c + length l)%nat) /\
  ((total (buffer c) < pos c + length l)%nat -> write_all d l c w = None).
Proof.
  intros Hc Hf Hn Hd Hb. pose proof (write_all_rounds_ok (length l) d l c w Hc Hf Hn Hd Hb ltac:(lia)) as H.
  unfold write_all. destruct (Nat.leb_spec (pos c + length l) (total (buffer c))); split; intros; try lia; exact H.
Qed.

(** ** Chains *)

(** The slots of the table a chain goes through, from the one of [idx]. *)
Definition slot (q : QueueInner) (idx : Z) : Z := idx .& (num q - 1).

Inductive linked (q : QueueInner) (d : D) : Z -> list Z -> Prop :=
| linked_last idx : flags (read_desc q d idx) .& VIRTQ_DESC_F_NEXT = 0 -> linked q d idx [slot q idx]
| linked_next idx l : flags (read_desc q d idx) .& VIRTQ_DESC_F_NEXT <> 0 ->
    linked q d (next (read_desc q d idx)) l -> linked q d idx (slot q idx :: l).

(** A descriptor is found by its slot. *)
Lemma read_desc_slot q (d : D) i j : slot q i = slot q j -> read_desc q d i = read_desc q d j.
Proof. unfold slot, read_desc. intros ->. reflexivity. Qed.

Lemma linked_det q (d : D) i l : linked q d i l -> forall j l', slot q i = slot q j -> linked q d j l' -> l = l'.
Proof.
  induction 1 as [i Hf|i l Hf Hl IH]; intros j l' Hs H'; destruct H' as [j Hf'|j l' Hf' Hl'];
    rewrite (read_desc_slot _ _ _ _ Hs) in *; try contradiction; rewrite Hs; [reflexivity|].
  f_equal. eapply IH; [reflexivity|exact Hl'].
Qed.

Lemma linked_tail q (d : D) i l : linked q d i l -> forall s, s ∈ l -> exists j l', slot q j = s /\ linked q d j l' /\ (length l' <= length l)%nat.
Proof.
  induction 1 as [i Hf|i l Hf Hl IH]; intros s Hs.
  - apply list_elem_of_singleton in Hs as ->. exists i, [slot q i]. split; [reflexivity|]. split; [constructor; exact Hf|auto].
  - apply elem_of_cons in Hs as [->|Hs].
    + exists i, (slot q i :: l). split; [reflexivity|]. split; [constructor; assumption|auto].
    + destruct (IH s Hs) as (j & l' & Ej & Hl' & Hle). exists j, l'. cbn. auto with lia.
Qed.

Lemma linked_NoDup q (d : D) i l : linked q d i l -> NoDup l.
Proof.
  induction 1 as [i Hf|i l Hf Hl IH]; [apply NoDup_singleton|]. constructor; [|exact IH]. intros Hin.
  destruct (linked_tail _ _ _ _ Hl _ Hin) as (j & l' & Ej & Hl' & Hle).
  pose proof (linked_det q d i _ (linked_next q d i l Hf Hl) j l' (eq_sym Ej) Hl') as E.
  apply (f_equal length) in E. cbn in E. lia.
Qed.

(** The sizes the driver can set. *)
Definition num_ok (q : QueueInner) : Prop := exists k, 0 <= k <= 15 /\ num q = 2 ^ k.

Lemma slot_range q i : num_ok q -> 0 <= slot q i < num q.
Proof.
  intros (k & Hk & E). unfold slot. rewrite E, land_mask by lia. apply Z.mod_pos_bound. apply Z.pow_pos_nonneg; lia.
Qed.

Lemma linked_slots q (d : D) i l : num_ok q -> linked q d i l -> Forall (fun s => 0 <= s < num q) l.
Proof. intros Hn. induction 1; repeat constructor; auto; apply slot_range; exact Hn. Qed.

Lemma linked_length q (d : D) i l : num_ok q -> linked q d i l -> (length l <= Z.to_nat (num q))%nat.
Proof.
  intros Hn Hl. pose proof (linked_NoDup _ _ _ _ Hl) as Hd. pose proof (linked_slots _ _ _ _ Hn Hl) as Hs.
  assert (Hi : incl l (map Z.of_nat (seq 0 (Z.to_nat (num q))))).
  { intros x Hx. rewrite Forall_forall in Hs. specialize (Hs x ltac:(apply list_elem_of_In; exact Hx)).
    apply in_map_iff. exists (Z.to_nat x). split; [lia|]. apply in_seq. lia. }
  apply NoDup_incl_length in Hi; [|apply NoDup_ListNoDup; exact Hd]. rewrite length_map, length_seq in Hi. exact Hi.
Qed.

Definition slice_of (x : VirtqDesc) : Slice := (addr x, Z.to_nat (len x)).
Definition writable (x : VirtqDesc) : bool := negb ((flags x .& VIRTQ_DESC_F_WRITE) =? 0).

(** The device-readable and the device-writable parts of a chain, in its order. *)
Definition readable_part (q : QueueInner) (d : D) (l : list Z) : list Slice :=
  map slice_of (List.filter (fun x => negb (writable x)) (map (read_desc q d) l)).
Definition writable_part (q : QueueInner) (d : D) (l : list Z) : list Slice :=
  map slice_of (List.filter writable (map (read_desc q d) l)).

Lemma slot_slot q i : slot q (slot q i) = slot q i.
Proof. unfold slot. rewrite <- Z.land_assoc, Z.land_diag. reflexivity. Qed.

Lemma chain_step {A} q (d : D) idx l (k : list Slice -> list Slice -> A) rd wr :
  let x := read_desc q d idx in
  (let '(rd', wr') := if (flags x .& VIRTQ_DESC_F_WRITE) =? 0 then (rd ++ [(addr x, Z.to_nat (len x))], wr)
                      else (rd, wr ++ [(addr x, Z.to_nat (len x))]) in
   k rd' wr') = k (rd ++ (if writable x then [] else [slice_of x])) (wr ++ (if writable x then [slice_of x] else [])) /\
  readable_part q d (slot q idx :: l) = (if writable x then [] else [slice_of x]) ++ readable_part q d l /\
  writable_part q d (slot q idx :: l) = (if writable x then [slice_of x] else []) ++ writable_part q d l.
Proof.
  cbv zeta. unfold readable_part, writable_part. cbn [map List.filter].
  rewrite (read_desc_slot q d (slot q idx) idx) by apply slot_slot. unfold writable.
  destruct ((flags (read_desc q d idx) .& VIRTQ_DESC_F_WRITE) =? 0); cbn [negb]; rewrite !app_nil_r; repeat split; reflexivity.
Qed.

Lemma chain_loop_ok q (d : D) idx l : linked q d idx l -> forall fuel rd wr, (length l <= fuel)%nat ->
  chain_loop fuel q d idx rd wr = Some (rd ++ readable_part q d l, wr ++ writable_part q d l).
Proof.
  induction 1 as [idx Hf|idx l Hf Hl IH]; intros [|fuel] rd wr Hle; cbn [length] in Hle; try lia; cbn [chain_loop].
  - destruct (chain_step q d idx [] (fun rd' wr' =>
      if (flags (read_desc q d idx) .& VIRTQ_DESC_F_NEXT) =? 0 then Some (rd', wr')
      else chain_loop fuel q d (next (read_desc q d idx)) rd' wr') rd wr) as (E & -> & ->). rewrite E, Hf. cbn.
    rewrite !app_nil_r. reflexivity.
  - destruct (chain_step q d idx l (fun rd' wr' =>
      if (flags (read_desc q d idx) .& VIRTQ_DESC_F_NEXT) =? 0 then Some (rd', wr')
      else chain_loop fuel q d (next (read_desc q d idx)) rd' wr') rd wr) as (E & -> & ->). rewrite E.
    destruct (Z.eqb_spec (flags (read_desc q d idx) .& VIRTQ_DESC_F_NEXT) 0); [contradiction|].
    rewrite IH by lia. rewrite !app_assoc. reflexivity.
Qed.

Lemma chain_loop_linked q (d : D) : forall fuel idx rd wr r, chain_loop fuel q d idx rd wr = Some r ->
  exists l, linked q d idx l.
Proof.
  induction fuel as [|fuel IH]; intros idx rd wr r H; [discriminate|]. cbn [chain_loop] in H.
  destruct (Z.eqb_spec (flags (read_desc q d idx) .& VIRTQ_DESC_F_NEXT) 0) as [E|E].
  - exists [slot q idx]. constructor. exact E.
  - destruct (if (flags (read_desc q d idx) .& VIRTQ_DESC_F_WRITE) =? 0 then _ else _) as [rd' wr'].
    destruct (IH _ _ _ _ H) as [l Hl]. exists (slot q idx :: l). constructor; assumption.
Qed.

(** ** The rings *)

(** The heads the driver has made available and the device has not taken. *)
Record published (q : QueueInner) (d : D) (heads : list Z) : Prop := {
  pub_count : Z.of_nat (length heads) < 65536;
  pub_idx : read_u16 d (u64 (avail_addr q + 2)) = u16 (last_avail_idx q + Z.of_nat (length heads));
  pub_ring i h : heads !! i = Some h ->
    read_u16 d (u64 (avail_addr q + 4 + slot q (u16 (last_avail_idx q + Z.of_nat i)) * 2)) = h;
}.

Lemma u16_same a n : in_u 16 a -> 0 <= n < 65536 -> a = u16 (a + n) <-> n = 0.
Proof.
  intros Ha Hn. split; [|intros ->; rewrite Z.add_0_r; symmetry; apply wrap_id, Ha].
  intros E. unfold u16, wrap, in_u in *. change (2 ^ 16) with 65536 in *.
  destruct (Z.ltb_spec (a + n) 65536); [rewrite Z.mod_small in E by lia; lia|].
  rewrite <- (Z.mod_unique_pos (a + n) 65536 1 (a + n - 65536)) in E by lia. lia.
Qed.

Lemma u16_add a n m : u16 (u16 (a + n) + m) = u16 (a + (n + m)).
Proof. unfold u16, wrap. rewrite Zplus_mod_idemp_l. f_equal. lia. Qed.

Lemma published_tail q (d : D) h heads : published q d (h :: heads) ->
  published (set_last_avail_idx (u16 (last_avail_idx q + 1)) q) d heads.
Proof.
  intros [Hc Hi Hr]. split.
  - cbn in Hc. lia.
  - cbn [set_last_avail_idx avail_addr last_avail_idx]. rewrite Hi, u16_add. cbn [length]. f_equal. lia.
  - intros i x Hx. specialize (Hr (S i) x Hx). cbn [set_last_avail_idx avail_addr last_avail_idx]. rewrite u16_add.
    unfold slot in *. cbn [set_last_avail_idx num]. replace (1 + Z.of_nat i) with (Z.of_nat (S i)) by lia. exact Hr.
Qed.

Lemma set_avail_desc v q (d : D) i : read_desc (set_last_avail_idx v q) d i = read_desc q d i.
Proof. reflexivity. Qed.

Lemma set_avail_chain v q (d : D) : forall fuel i rd wr,
  chain_loop fuel (set_last_avail_idx v q) d i rd wr = chain_loop fuel q d i rd wr.
Proof.
  induction fuel as [|fuel IH]; intros; cbn [chain_loop]; [reflexivity|]. rewrite set_avail_desc.
  destruct ((flags (read_desc q d i) .& VIRTQ_DESC_F_WRITE) =? 0),
    ((flags (read_desc q d i) .& VIRTQ_DESC_F_NEXT) =? 0); auto.
Qed.

(** C24. Taking from a queue follows the order in which the driver made buffers available:
    with heads [h :: t] in the ring, [try_take] gives the chain of [h], its readable and
    its writable parts in the order of the descriptors, and leaves [t]; an empty ring gives
    nothing.  A chain that ends does so within as many descriptors as the queue has, so
    that this bound decides; one that does not end is followed forever. *)
Theorem virtio_take (q : QueueInner) (d : D) heads : ready q = true -> num_ok q -> in_u 16 (last_avail_idx q) ->
  published q d heads ->
  match heads with
  | [] => forall fuel, try_take fuel q d = Nothing
  | h :: t =>
      (forall l fuel, linked q d h l -> (Z.to_nat (num q) <= fuel)%nat ->
         exists q', try_take fuel q d = Took q' (MkBuffer h 0 (readable_part q d l) (writable_part q d l)
             (total (readable_part q d l)) (total (writable_part q d l))) /\ published q' d t) /\
      ((forall l, ~ linked q d h l) -> forall fuel, try_take fuel q d = Running)
  end.
Proof.
  intros Hr Hn Hl Hp. pose proof Hp as [Hc Hi Hg]. unfold try_take. rewrite Hr, Hi. cbn [negb].
  destruct heads as [|h t].
  - intros fuel. change (Z.of_nat (length (@nil Z))) with 0. rewrite Z.add_0_r. unfold u16. rewrite wrap_id by exact Hl.
    rewrite Z.eqb_refl. reflexivity.
  - destruct (Z.eqb_spec (last_avail_idx q) (u16 (last_avail_idx q + Z.of_nat (length (h :: t))))) as [E|E].
    { apply u16_same in E; [cbn in E; lia|exact Hl|lia]. }
    specialize (Hg 0%nat h eq_refl). rewrite Z.add_0_r in Hg. unfold u16 in Hg at 1. rewrite wrap_id in Hg by exact Hl.
    unfold slot in Hg. rewrite Hg. split.
    + intros l fuel Hlk Hf. rewrite set_avail_chain. rewrite (chain_loop_ok q d h l Hlk);
        [|pose proof (linked_length q d h l Hn Hlk); lia].
      eexists. split; [reflexivity|]. eapply published_tail. exact Hp.
    + intros Hno fuel. rewrite set_avail_chain. destruct (chain_loop fuel q d h [] []) eqn:Ec; [|reflexivity].
      apply chain_loop_linked in Ec as [l Hlk]. contradiction (Hno l Hlk).
Qed.

Lemma to_le_bytes_length n : forall v, length (to_le_bytes n v) = n.
Proof. induction n; intros v; cbn; auto. Qed.

Lemma to_le_bytes_range n : forall v, Forall (in_u 8) (to_le_bytes n v).
Proof. induction n as [|n IH]; intros v; constructor; [|apply IH]. unfold in_u. apply Z.mod_pos_bound. lia. Qed.

Lemma from_to_le_bytes n : forall v, from_le_bytes (to_le_bytes n v) = v mod 256 ^ Z.of_nat n.
Proof.
  induction n as [|n IH]; intros v; cbn [to_le_bytes from_le_bytes]; [rewrite Z.mod_1_r; reflexivity|].
  rewrite IH, Nat2Z.inj_succ, Z.pow_succ_r, Z.rem_mul_r by lia. lia.
Qed.

(** Reading what was just written, and reading away from it. *)
Lemma dma_read_write d a l o k : Forall (in_u 8) l -> (o + k <= length l)%nat ->
  dma_read (dma_write d a l) (a + Z.of_nat o) k = take k (drop o l).
Proof.
  intros Hl Hok. rewrite dma_read_bytes. apply list_eq. intros i. rewrite list_lookup_fmap.
  destruct (Nat.ltb_spec i k) as [L|L]; [|rewrite lookup_seq_ge, lookup_take_ge by lia; reflexivity].
  rewrite lookup_seq_lt, lookup_take_lt, lookup_drop by lia. cbn [fmap option_fmap option_map].
  rewrite dma_write_bytes by exact Hl.
  destruct (Z.leb_spec a (a + Z.of_nat o + Z.of_nat (0 + i))); [|lia].
  destruct (Z.ltb_spec (a + Z.of_nat o + Z.of_nat (0 + i)) (a + Z.of_nat (length l))); [|lia]. cbn [andb].
  replace (Z.to_nat _) with (o + i)%nat by lia. rewrite nth_lookup.
  destruct (l !! (o + i)%nat) eqn:E; [reflexivity|]. apply lookup_ge_None in E. lia.
Qed.

Lemma byte_at_write_other d a l x : Forall (in_u 8) l -> ~ (a <= x < a + Z.of_nat (length l)) ->
  byte_at (dma_write d a l) x = byte_at d x.
Proof.
  intros Hl Hx. rewrite dma_write_bytes by exact Hl.
  destruct (Z.leb_spec a x), (Z.ltb_spec x (a + Z.of_nat (length l))); cbn [andb]; try reflexivity. lia.
Qed.

Lemma byte_at_u16_other d a v x : in_u 16 v -> ~ (a <= x < a + 2) -> byte_at (write_u16 d a v) x = byte_at d x.
Proof.
  intros Hv Hx. rewrite write_u16_bytes by exact Hv.
  destruct (Z.eqb_spec x a), (Z.eqb_spec x (a + 1)); lia || reflexivity.
Qed.

Lemma dma_read_u16_other d a v b n : in_u 16 v -> a + 2 <= b -> dma_read (write_u16 d a v) b n = dma_read d b n.
Proof.
  intros Hv Hb. rewrite !dma_read_bytes. apply map_ext. intros i. apply byte_at_u16_other; [exact Hv|lia].
Qed.

Lemma read_u16_write d a v : in_u 16 v -> read_u16 (write_u16 d a v) a = v.
Proof.
  intros Hv. rewrite read_u16_bytes, !write_u16_bytes by exact Hv. rewrite Z.eqb_refl, Z.eqb_refl.
  destruct (Z.eqb_spec (a + 1) a); [lia|]. pose proof (Z.div_mod v 256). lia.
Qed.

Lemma le_bytes_back n v : 0 <= v < 256 ^ Z.of_nat n -> from_le_bytes (to_le_bytes n v) = v.
Proof. intros Hv. rewrite from_to_le_bytes. apply Z.mod_small, Hv. Qed.

Lemma u32_back v : in_u 32 v -> from_le_bytes (to_le_bytes 4 (u32 v)) = v.
Proof. intros Hv. unfold u32. rewrite wrap_id by exact Hv. apply le_bytes_back. exact Hv. Qed.

(** The element of the used ring the device writes next, and its bytes. *)
Definition used_elem (q : QueueInner) : Z := used_addr q + 4 + slot q (last_used_idx q) * 8.
Definition elem_bytes (b : Buffer) : list Z :=
  to_le_bytes 4 (u32 (idx b)) ++ to_le_bytes 4 (u32 (Z.of_nat (bytes_written b))).

Lemma elem_bytes_ok b : Forall (in_u 8) (elem_bytes b) /\ length (elem_bytes b) = 8%nat.
Proof.
  unfold elem_bytes. split; [apply Forall_app; split; apply to_le_bytes_range|].
  rewrite length_app, !to_le_bytes_length. reflexivity.
Qed.

Lemma num_bound q : num_ok q -> num q <= 32768.
Proof. intros (k & Hk & ->). pose proof (Z.pow_le_mono_r 2 k 15). lia. Qed.

(** [put] in terms of the element, when the ring does not wrap around. *)
Lemma put_eq q d b : ready q = true -> num_ok q -> 0 <= used_addr q -> used_addr q + 4 + num q * 8 <= 2 ^ 64 ->
  put q d b = (set_last_used_idx (u16 (last_used_idx q + 1)) q,
    write_u16 (dma_write d (used_elem q) (elem_bytes b)) (used_addr q + 2) (u16 (last_used_idx q + 1))).
Proof.
  intros Hr Hn Hu Hf. pose proof (slot_range q (last_used_idx q) Hn) as Hs. unfold slot in Hs.
  pose proof (num_bound q Hn). unfold put, u64. rewrite Hr, !wrap_id by (unfold in_u; lia). reflexivity.
Qed.

(** Returning a buffer: [put] writes the head of the chain and the number of bytes
    written as the next element of the used ring, then advances the ring's index by one
    modulo 2^16, and touches no other memory; when the queue is not ready it does
    nothing. *)
Theorem virtio_put (q : QueueInner) (d : D) b : num_ok q -> in_u 16 (idx b) -> Z.of_nat (bytes_written b) < 2 ^ 32 ->
  0 <= used_addr q -> used_addr q + 4 + num q * 8 <= 2 ^ 64 ->
  let '(q', d') := put q d b in
  if ready q then
    q' = set_last_used_idx (u16 (last_used_idx q + 1)) q /\
    read_u16 d' (used_addr q + 2) = u16 (last_used_idx q + 1) /\
    from_le_bytes (dma_read d' (used_elem q) 4) = idx b /\
    from_le_bytes (dma_read d' (used_elem q + 4) 4) = Z.of_nat (bytes_written b) /\
    forall x, ~ (used_addr q + 2 <= x < used_addr q + 4) -> ~ (used_elem q <= x < used_elem q + 8) -> byte_at d' x = byte_at d x
  else q' = q /\ d' = d.
Proof.
  intros Hn Hi Hb Hu Hf. destruct (ready q) eqn:Hr; [|unfold put; rewrite Hr; cbn; auto].
  rewrite put_eq by assumption. destruct (elem_bytes_ok b) as [Hbs Hlen].
  assert (Hused : in_u 16 (u16 (last_used_idx q + 1))) by (apply wrap_range; lia).
  assert (He : used_addr q + 2 + 2 <= used_elem q)
    by (pose proof (slot_range q (last_used_idx q) Hn); unfold used_elem; lia).
  assert (Hx : forall x, ~ (used_addr q + 2 <= x < used_addr q + 4) -> ~ (used_elem q <= x < used_elem q + 8) ->
    byte_at (write_u16 (dma_write d (used_elem q) (elem_bytes b)) (used_addr q + 2) (u16 (last_used_idx q + 1))) x = byte_at d x).
  { intros x Hx1 Hx2. rewrite byte_at_u16_other, byte_at_write_other by (rewrite ?Hlen; auto; lia). reflexivity. }
  revert Hx. set (d' := write_u16 _ _ _). intros Hx.
  split; [reflexivity|]. split; [apply read_u16_write, Hused|]. split; [|split; [|exact Hx]]; unfold d'; clear Hx d'.
  all: rewrite dma_read_u16_other by (auto; lia).
  - pose proof (dma_read_write d (used_elem q) (elem_bytes b) 0 4 Hbs ltac:(lia)) as E. rewrite Z.add_0_r in E.
    rewrite E. unfold elem_bytes. rewrite drop_0, take_app_length' by (rewrite to_le_bytes_length; reflexivity).
    apply u32_back. unfold in_u in *. lia.
  - pose proof (dma_read_write d (used_elem q) (elem_bytes b) 4 4 Hbs ltac:(lia)) as E. change (Z.of_nat 4) with 4 in E.
    rewrite E. unfold elem_bytes. rewrite drop_app_length', take_ge by (rewrite ?to_le_bytes_length; reflexivity || lia).
    apply u32_back. unfold in_u. lia.
Qed.
End Cursor.

(** ** A queue of four descriptors, the first chained to the second *)

Definition desc_bytes (x : VirtqDesc) : list Z :=
  to_le_bytes 8 (addr x) ++ to_le_bytes 4 (len x) ++ to_le_bytes 2 (flags x) ++ to_le_bytes 2 (next x).

Definition ring_memory (first : VirtqDesc) : GuestMemory :=
  poke 0x1000 (desc_bytes first ++ desc_bytes (MkDesc 0x9000 3 2 0))
    (poke 0x2000 [0; 0; 1; 0; 0; 0] (fun a => u8 a)).

Definition sample_queue : QueueInner := MkQueue true 4 4 0x1000 0x2000 0x3000 0 0 false.
Definition sample_memory : GuestMemory := ring_memory (MkDesc 0x8000 16 1 1).

Lemma sample_num : num_ok sample_queue.
Proof. exists 2. split; [lia|reflexivity]. Qed.

Lemma virtio_take_witness :
  exists q', try_take 4 sample_queue sample_memory =
    Took q' (MkBuffer 0 0 [(0x8000, 16%nat)] [(0x9000, 3%nat)] 16 3) /\ published q' sample_memory [].
Proof.
  apply (proj1 (virtio_take sample_queue sample_memory [0] eq_refl sample_num ltac:(split; vm_compute; congruence)
    ltac:(split; [vm_compute; congruence|vm_compute; reflexivity|
      intros [|i] h Hh; [injection Hh as <-; vm_compute; reflexivity|discriminate]])) [0; 1] 4%nat).
  - apply (linked_next sample_queue sample_memory 0 [1]); [vm_compute; congruence|].
    apply (linked_last sample_queue sample_memory 1). vm_compute. reflexivity.
  - vm_compute. lia.
Defined.

Definition sample_reader : Cursor := MkCursor [(0x8000, 16%nat); (0x9010, 4%nat)] 20 0 0 0.

Lemma sample_nonempty : nonempty (buffer sample_reader).
Proof. repeat constructor. Qed.

Lemma sample_fits : fits (buffer sample_reader).
Proof. repeat constructor; vm_compute; congruence. Qed.

Lemma virtio_read_exact_witness :
  exists c', read_exact (D := GuestMemory) (fun a => u8 a) 18 sample_reader =
    Some ([0; 1; 2; 3; 4; 5; 6; 7; 8; 9; 10; 11; 12; 13; 14; 15; 16; 17], c') /\ pos c' = 18%nat.
Proof.
  destruct (proj1 (virtio_read_exact (D := GuestMemory) (fun a => u8 a) 18 sample_reader
    (start_position _ _ sample_nonempty) sample_fits sample_nonempty)) as (c' & E & _ & _ & _ & Ep); [vm_compute; lia|].
  exists c'. split; [rewrite E; vm_compute; reflexivity|exact Ep].
Defined.

Lemma virtio_write_all_witness :
  exists d' c', write_all (D := GuestMemory) (fun a => u8 a) [7; 8; 9] sample_reader 0 = Some (d', c', 3%nat) /\
    byte_at d' 0x8002 = 9.
Proof.
  destruct (proj1 (virtio_write_all (D := GuestMemory) (fun a => u8 a) [7; 8; 9] sample_reader 0
    (start_position _ _ sample_nonempty) sample_fits sample_nonempty ltac:(apply (bool_decide_unpack _); vm_compute; exact I)
    ltac:(repeat constructor; vm_compute; congruence))) as (d' & c' & E & U & _); [vm_compute; lia|].
  exists d', c'. split; [exact E|]. apply (proj1 U 2%nat). vm_compute. reflexivity.
Defined.

Lemma virtio_put_witness :
  let '(q', d') := put sample_queue sample_memory (MkBuffer 1 3 [] [(0x9000, 3%nat)] 0 3) in
  last_used_idx q' = 1 /\ from_le_bytes (dma_read d' 0x3008 4) = 3.
Proof.
  pose proof (virtio_put sample_queue sample_memory (MkBuffer 1 3 [] [(0x9000, 3%nat)] 0 3) sample_num
    ltac:(split; vm_compute; congruence) ltac:(vm_compute; reflexivity) ltac:(vm_compute; congruence) ltac:(vm_compute; congruence)) as H.
  destruct (put _ _ _) as [q' d']. cbn [ready sample_queue] in H. destruct H as (-> & _ & _ & H & _).
  split; [reflexivity|]. exact H.
Defined.

(** ** What a driver can do to the device *)

(** A chain that comes back to a descriptor is followed forever: the device's task never
    returns from [try_take]. *)
Theorem cyclic_chain_never_ends fuel :
  try_take fuel sample_queue (ring_memory (MkDesc 0x8000 16 1 0)) = Running.
Proof.
  assert (H : forall f rd wr, chain_loop f (set_last_avail_idx 1 sample_queue) (ring_memory (MkDesc 0x8000 16 1 0)) 0 rd wr = None).
  { assert (E : read_desc (set_last_avail_idx 1 sample_queue) (ring_memory (MkDesc 0x8000 16 1 0)) 0 = MkDesc 0x8000 16 1 0)
      by (vm_compute; reflexivity).
    induction f as [|f IH]; intros rd wr; [reflexivity|]. cbn [chain_loop]. rewrite E. apply IH. }
  unfold try_take. change (read_u16 (ring_memory (MkDesc 0x8000 16 1 0)) (u64 (avail_addr sample_queue + 2))) with 1.
  cbn [ready sample_queue negb last_avail_idx]. change (0 =? 1) with false. cbv iota.
  match goal with |- match chain_loop _ ?q _ ?i _ _ with _ => _ end = _ =>
    change q with (set_last_avail_idx 1 sample_queue); change i with 0 end.
  rewrite H. reflexivity.
Qed.

(** An empty descriptor ends a read early: the sixteen bytes after it are never reached,
    and the device, which unwraps the error, panics. *)
Theorem empty_descriptor_stops_reader (d : GuestMemory) :
  read_exact d 16 (MkCursor [(0x8000, 0%nat); (0x9000, 16%nat)] 16 0 0 0) = None.
Proof. reflexivity. Qed.
