(* ===== verification/VirtioMmio.v ===== *)
(** The virtio transport (lib/io/src/hw/virtio/mmio.rs) and the device interface
    (lib/io/src/hw/virtio/mod.rs): the register file over a device and its queues.  Queues
    are shared with the tasks of the device, so they live in a store and the transport has
    references to them. *)

From Stdlib Require Import ZArith Lia Bool List.
From stdpp Require Import base list.
From S2P Require Import Prelude VirtioQueue.
Import ListNotations.
Local Open Scope Z_scope.
Local Open Scope rust_scope.

(** ** [trait Device] *)

Class Device (S : Type) : Type := {
  device_id : S -> Z;
  device_feature : S -> Z;
  driver_feature : Z -> S -> S;
  get_status : S -> Z;
  set_status : Z -> S -> S;
  config_space : S -> list Z;
  num_queues : S -> nat;
  max_queue_len : S -> nat -> Z;
  reset : S -> S;
  (** the queue is a reference into the store *)
  queue_ready : nat -> nat -> S -> S;
  interrupt_status : S -> Z;
  interrupt_ack : Z -> S -> S;
}.

(** [config_read]: out of bounds is an error and reads as zero. *)
Definition config_read {S} `{Device S} (offset : Z) (size : Z) (s : S) : Z :=
  let config := config_space s in
  if Z.of_nat (length config) <? offset + size then 0
  else
    let slice := firstn (Z.to_nat size) (skipn (Z.to_nat offset) config) in
    if (size =? 8) || (size =? 4) || (size =? 2) then from_le_bytes slice else nth 0 slice 0.

(** ** Registers *)

Definition ADDR_MAGIC_VALUE : Z := 0x000.
Definition ADDR_VERSION : Z := 0x004.
Definition ADDR_DEVICE_ID : Z := 0x008.
Definition ADDR_VENDOR_ID : Z := 0x00c.
Definition ADDR_DEVICE_FEATURES : Z := 0x010.
Definition ADDR_DEVICE_FEATURES_SEL : Z := 0x014.
Definition ADDR_DRIVER_FEATURES : Z := 0x020.
Definition ADDR_DRIVER_FEATURES_SEL : Z := 0x024.
Definition ADDR_QUEUE_SEL : Z := 0x030.
Definition ADDR_QUEUE_NUM_MAX : Z := 0x034.
Definition ADDR_QUEUE_NUM : Z := 0x038.
Definition ADDR_QUEUE_READY : Z := 0x044.
Definition ADDR_QUEUE_NOTIFY : Z := 0x050.
Definition ADDR_INTERRUPT_STATUS : Z := 0x060.
Definition ADDR_INTERRUPT_ACK : Z := 0x064.
Definition ADDR_STATUS : Z := 0x070.
Definition ADDR_QUEUE_DESC_LOW : Z := 0x080.
Definition ADDR_QUEUE_DESC_HIGH : Z := 0x084.
Definition ADDR_QUEUE_AVAIL_LOW : Z := 0x090.
Definition ADDR_QUEUE_AVAIL_HIGH : Z := 0x094.
Definition ADDR_QUEUE_USED_LOW : Z := 0x0a0.
Definition ADDR_QUEUE_USED_HIGH : Z := 0x0a4.
Definition ADDR_CONFIG_GENERATION : Z := 0x0fc.
Definition ADDR_CONFIG : Z := 0x100.

(** [queues] are references into [store]; [woken] are the queues whose task was woken. *)
Record Mmio (S : Type) : Type := MkMmio {
  device : S; queues : list nat; device_features_sel : bool; driver_features_sel : bool; queue_sel : Z;
  store : list QueueInner; woken : list nat }.
Arguments MkMmio {S}.
Arguments device {S}.
Arguments queues {S}.
Arguments device_features_sel {S}.
Arguments driver_features_sel {S}.
Arguments queue_sel {S}.
Arguments store {S}.
Arguments woken {S}.

Section Mmio.
Context {S : Type} {DS : Device S}.

Definition set_device (v : S) (m : Mmio S) : Mmio S :=
  MkMmio v (queues m) (device_features_sel m) (driver_features_sel m) (queue_sel m) (store m) (woken m).
Definition set_device_features_sel (v : bool) (m : Mmio S) : Mmio S :=
  MkMmio (device m) (queues m) v (driver_features_sel m) (queue_sel m) (store m) (woken m).
Definition set_driver_features_sel (v : bool) (m : Mmio S) : Mmio S :=
  MkMmio (device m) (queues m) (device_features_sel m) v (queue_sel m) (store m) (woken m).
Definition set_queue_sel (v : Z) (m : Mmio S) : Mmio S :=
  MkMmio (device m) (queues m) (device_features_sel m) (driver_features_sel m) v (store m) (woken m).
Definition set_store (v : list QueueInner) (m : Mmio S) : Mmio S :=
  MkMmio (device m) (queues m) (device_features_sel m) (driver_features_sel m) (queue_sel m) v (woken m).
Definition set_queues (v : list nat) (m : Mmio S) : Mmio S :=
  MkMmio (device m) v (device_features_sel m) (driver_features_sel m) (queue_sel m) (store m) (woken m).
Definition set_woken (v : list nat) (m : Mmio S) : Mmio S :=
  MkMmio (device m) (queues m) (device_features_sel m) (driver_features_sel m) (queue_sel m) (store m) v.

(** [Mmio::new] *)
Definition mmio_new (dev : S) : Mmio S :=
  let n := num_queues dev in
  MkMmio dev (seq 0 n) false false 0 (map (fun i => queue_new (max_queue_len dev i)) (seq 0 n)) [].

(** The queue selected, and its reference; [None] is out of bounds. *)
Definition selected (m : Mmio S) : option (nat * QueueInner) :=
  let? r := queues m !! Z.to_nat (queue_sel m) in
  let? q := store m !! r in
  Some (r, q).

(** [read_mut]; [None] is a panic. *)
Definition read_mut (addr size : Z) (m : Mmio S) : option Z :=
  if ADDR_CONFIG <=? addr then Some (config_read (addr - ADDR_CONFIG) size (device m))
  else if size <>? 4 then Some 0
  else if addr =? ADDR_MAGIC_VALUE then Some 0x74726976
  else if addr =? ADDR_VERSION then Some 2
  else if addr =? ADDR_DEVICE_ID then Some (u32 (device_id (device m)))
  else if addr =? ADDR_VENDOR_ID then Some 0xffff
  else if addr =? ADDR_DEVICE_FEATURES then
    Some (if device_features_sel m then 1 else device_feature (device m))
  else if addr =? ADDR_DEVICE_FEATURES_SEL then Some (Z.b2z (device_features_sel m))
  else if addr =? ADDR_DRIVER_FEATURES_SEL then Some (Z.b2z (driver_features_sel m))
  else if addr =? ADDR_QUEUE_SEL then Some (u32 (queue_sel m))
  else if addr =? ADDR_QUEUE_NUM_MAX then
    Some (match selected m with None => 0 | Some (_, q) => num_max q end)
  else if (addr =? ADDR_QUEUE_NUM) || (addr =? ADDR_QUEUE_READY) ||
          ((ADDR_QUEUE_DESC_LOW <=? addr) && (addr <=? ADDR_QUEUE_USED_HIGH)) then
    if Z.of_nat (num_queues (device m)) <=? queue_sel m then Some 0
    else
      let? (_, q) := selected m in
      if addr =? ADDR_QUEUE_NUM then Some (num q)
      else if addr =? ADDR_QUEUE_READY then Some (Z.b2z (ready q))
      else if addr =? ADDR_QUEUE_DESC_LOW then Some (u32 (desc_addr q))
      else if addr =? ADDR_QUEUE_DESC_HIGH then Some (u32 (desc_addr q >> 32))
      else if addr =? ADDR_QUEUE_AVAIL_LOW then Some (u32 (avail_addr q))
      else if addr =? ADDR_QUEUE_AVAIL_HIGH then Some (u32 (avail_addr q >> 32))
      else if addr =? ADDR_QUEUE_USED_LOW then Some (u32 (used_addr q))
      else if addr =? ADDR_QUEUE_USED_HIGH then Some (u32 (used_addr q >> 32))
      else None
  else if addr =? ADDR_INTERRUPT_STATUS then Some (interrupt_status (device m))
  else if addr =? ADDR_STATUS then Some (get_status (device m))
  else if addr =? ADDR_CONFIG_GENERATION then Some 0
  else Some 0.

(** [u32::is_power_of_two] *)
Definition is_power_of_two (v : Z) : bool := (0 <? v) && ((v .& (v - 1)) =? 0).

(** [(addr & !0xffffffff) | value] and [(addr & 0xffffffff) | value << 32] *)
Definition with_low (a v : Z) : Z := (a .& u64 (Z.lnot 0xffffffff)) .| v.
Definition with_high (a v : Z) : Z := (a .& 0xffffffff) .| (v << 32).

Definition set_num (v : Z) (q : QueueInner) : QueueInner :=
  MkQueue (ready q) v (num_max q) (desc_addr q) (avail_addr q) (used_addr q) (last_avail_idx q) (last_used_idx q) (waker q).
Definition set_ready (v : bool) (q : QueueInner) : QueueInner :=
  MkQueue v (num q) (num_max q) (desc_addr q) (avail_addr q) (used_addr q) (last_avail_idx q) (last_used_idx q) (waker q).
Definition set_desc_addr (v : Z) (q : QueueInner) : QueueInner :=
  MkQueue (ready q) (num q) (num_max q) v (avail_addr q) (used_addr q) (last_avail_idx q) (last_used_idx q) (waker q).
Definition set_avail_addr (v : Z) (q : QueueInner) : QueueInner :=
  MkQueue (ready q) (num q) (num_max q) (desc_addr q) v (used_addr q) (last_avail_idx q) (last_used_idx q) (waker q).
Definition set_used_addr (v : Z) (q : QueueInner) : QueueInner :=
  MkQueue (ready q) (num q) (num_max q) (desc_addr q) (avail_addr q) v (last_avail_idx q) (last_used_idx q) (waker q).

(** The registers of the selected queue; [None] is the [unreachable!]. *)
Definition write_queue (addr value : Z) (q : QueueInner) : option QueueInner :=
  if addr =? ADDR_QUEUE_NUM then
    Some (if is_power_of_two value && (value <=? num_max q) then set_num (u16 value) q else q)
  else if addr =? ADDR_QUEUE_READY then Some (set_ready ((value .& 1) <>? 0) q)
  else if addr =? ADDR_QUEUE_DESC_LOW then Some (set_desc_addr (with_low (desc_addr q) value) q)
  else if addr =? ADDR_QUEUE_DESC_HIGH then Some (set_desc_addr (with_high (desc_addr q) value) q)
  else if addr =? ADDR_QUEUE_AVAIL_LOW then Some (set_avail_addr (with_low (avail_addr q) value) q)
  else if addr =? ADDR_QUEUE_AVAIL_HIGH then Some (set_avail_addr (with_high (avail_addr q) value) q)
  else if addr =? ADDR_QUEUE_USED_LOW then Some (set_used_addr (with_low (used_addr q) value) q)
  else if addr =? ADDR_QUEUE_USED_HIGH then Some (set_used_addr (with_high (used_addr q) value) q)
  else None.

(** The loop over the queues on a reset: each is reset, the waker that is left is woken,
    and a new queue takes its place. *)
Fixpoint reset_queues (dev : S) (i : nat) (rs : list nat) (store : list QueueInner) (woken : list nat) :
    option (list nat * list QueueInner * list nat) :=
  match rs with
  | [] => Some ([], store, woken)
  | r :: rs =>
      let? q := store !! r in
      let q := queue_reset q in
      let woken := if waker q then woken ++ [r] else woken in
      let store := <[r := set_waker false q]> store ++ [queue_new (max_queue_len dev i)] in
      let new := length store - 1 in
      let? (rs, store, woken) := reset_queues dev (i + 1) rs store woken in
      Some (new :: rs, store, woken)
  end%nat.

Definition reset_device (m : Mmio S) : option (Mmio S) :=
  let dev := reset (device m) in
  let? (qs, st, wk) := reset_queues dev 0 (queues m) (store m) (woken m) in
  Some (MkMmio dev qs false false 0 st wk).

(** [write_mut]; [None] is a panic. *)
Definition write_mut (addr value size : Z) (m : Mmio S) : option (Mmio S) :=
  if ADDR_CONFIG <=? addr then Some m
  else if size <>? 4 then Some m
  else
    let value := u32 value in
    if addr =? ADDR_DEVICE_FEATURES_SEL then
      Some (if value =? 0 then set_device_features_sel false m
            else if value =? 1 then set_device_features_sel true m else m)
    else if addr =? ADDR_DRIVER_FEATURES then
      Some (if driver_features_sel m then m else set_device (driver_feature (value .& 0xffffff) (device m)) m)
    else if addr =? ADDR_DRIVER_FEATURES_SEL then
      Some (if value =? 0 then set_driver_features_sel false m
            else if value =? 1 then set_driver_features_sel true m else m)
    else if addr =? ADDR_QUEUE_SEL then Some (set_queue_sel value m)
    else if addr =? ADDR_QUEUE_NOTIFY then
      if Z.of_nat (num_queues (device m)) <=? queue_sel m then Some m
      else
        let? (r, q) := selected m in
        Some (if waker q then set_woken (woken m ++ [r]) (set_store (<[r := set_waker false q]> (store m)) m) else m)
    else if ((ADDR_QUEUE_NUM <=? addr) && (addr <=? ADDR_QUEUE_READY)) ||
            ((ADDR_QUEUE_DESC_LOW <=? addr) && (addr <=? ADDR_QUEUE_USED_HIGH)) then
      if Z.of_nat (num_queues (device m)) <=? queue_sel m then Some m
      else
        let? (r, q) := selected m in
        let? q := write_queue addr value q in
        let m := set_store (<[r := q]> (store m)) m in
        Some (if (addr =? ADDR_QUEUE_READY) && ((value .& 1) <>? 0)
              then set_device (queue_ready (Z.to_nat (queue_sel m)) r (device m)) m else m)
    else if addr =? ADDR_INTERRUPT_ACK then Some (set_device (interrupt_ack value (device m)) m)
    else if addr =? ADDR_STATUS then
      if value =? 0 then reset_device m else Some (set_device (set_status value (device m)) m)
    else Some m.

End Mmio.
