(* ===== verification/VirtioMmioProps.v ===== *)
(** The virtio transport: the register file keeps its queues well formed, panics on exactly
    the holes of the queue registers, gives back the addresses written, and a reset gives
    every queue a new instance and closes the old one. *)

From Stdlib Require Import ZArith Lia Bool List.
From stdpp Require Import base list sets.
From S2P Require Import Prelude Words VirtioQueue VirtioQueueProps VirtioMmio.
Import ListNotations.
Local Open Scope Z_scope.
Local Open Scope rust_scope.

(** What the transport relies on: a device has a fixed number of queues, whose sizes are
    powers of two up to 32768. *)
Class DeviceLaws (S : Type) {H : Device S} : Prop := {
  queues_feature v s : num_queues (driver_feature v s) = num_queues s;
  queues_status v s : num_queues (set_status v s) = num_queues s;
  queues_reset s : num_queues (reset s) = num_queues s;
  queues_ready i r s : num_queues (queue_ready i r s) = num_queues s;
  queues_ack v s : num_queues (interrupt_ack v s) = num_queues s;
  max_len_ok s i : exists k, 0 <= k <= 15 /\ max_queue_len s i = 2 ^ k;
}.

Record queue_ok (q : QueueInner) : Prop := {
  qo_num : num_ok q;
  qo_max : num q <= num_max q <= 32768;
  qo_max_pow : exists k, 0 <= k <= 15 /\ num_max q = 2 ^ k;
  qo_desc : in_u 64 (desc_addr q);
  qo_avail : in_u 64 (avail_addr q);
  qo_used : in_u 64 (used_addr q);
}.

Record mmio_wf {S} `{Device S} (m : Mmio S) : Prop := {
  mw_len : length (queues m) = num_queues (device m);
  mw_refs r : r ∈ queues m -> (r < length (store m))%nat;
  mw_store : Forall queue_ok (store m);
  mw_sel : in_u 32 (queue_sel m);
}.

Lemma pow15 k : 0 <= k <= 15 -> 1 <= 2 ^ k <= 32768.
Proof. intros Hk. pose proof (Z.pow_le_mono_r 2 0 k). pose proof (Z.pow_le_mono_r 2 k 15). lia. Qed.

Lemma queue_new_ok n : (exists k, 0 <= k <= 15 /\ n = 2 ^ k) -> queue_ok (queue_new n).
Proof.
  intros (k & Hk & ->). pose proof (pow15 k Hk). split; cbn; try (unfold in_u; lia); try lia; [exists k; auto|exists k; auto].
Qed.

Lemma queue_reset_ok q : queue_ok q -> queue_ok (set_waker false (queue_reset q)).
Proof. intros [H1 H2 (k & Hk & E) H4 H5 H6]. pose proof (pow15 k Hk). split; cbn; try (unfold in_u; lia); try lia; exists k; auto. Qed.

(** ** Powers of two and split addresses *)

Lemma is_power_of_two_spec v : in_u 32 v -> is_power_of_two v = true -> exists k, 0 <= k < 32 /\ v = 2 ^ k.
Proof.
  intros Hv H. unfold is_power_of_two in H. apply andb_true_iff in H as [Hp Hl].
  apply Z.ltb_lt in Hp. apply Z.eqb_eq in Hl. exists (Z.log2 v). pose proof (Z.log2_spec v Hp) as [L1 L2].
  pose proof (Z.log2_nonneg v). split; [split; [lia|apply Z.log2_lt_pow2; unfold in_u in Hv; lia]|].
  destruct (Z.eq_dec v (2 ^ Z.log2 v)) as [E|N]; [exact E|]. exfalso.
  assert (Hb : Z.testbit (v .& (v - 1)) (Z.log2 v) = true).
  { rewrite Z.land_spec, Z.bit_log2 by lia. cbn [andb]. apply Z.testbit_true; [lia|].
    rewrite <- (Z.div_unique (v - 1) (2 ^ Z.log2 v) 1 (v - 1 - 2 ^ Z.log2 v)); [reflexivity| |lia].
    left. rewrite Z.pow_succ_r in L2 by lia. lia. }
  rewrite Hl, Z.bits_0 in Hb. discriminate.
Qed.

Lemma with_low_value a v : in_u 64 a -> in_u 32 v -> with_low a v = a / 2 ^ 32 * 2 ^ 32 + v.
Proof.
  intros Ha Hv. unfold with_low. rewrite Z.lor_comm.
  assert (a .& u64 (Z.lnot 0xffffffff) = a / 2 ^ 32 * 2 ^ 32) as ->.
  { rewrite <- Z.shiftr_div_pow2, <- Z.shiftl_mul_pow2 by lia. apply Z.bits_inj'. intros i Hi.
    change 0xffffffff with (Z.ones 32). rewrite Z.land_spec, Z.shiftl_spec by lia. unfold u64, wrap.
    rewrite Z.testbit_mod_pow2, Z.lnot_spec, Z.testbit_ones_nonneg by lia. destruct (Z.ltb_spec i 32); cbn [negb].
    - rewrite (Z.testbit_neg_r _ (i - 32)), !andb_false_r by lia. reflexivity.
    - rewrite Z.shiftr_spec, Z.sub_add, andb_true_r by lia. destruct (Z.ltb_spec i 64); [apply andb_true_r|].
      rewrite (testbit_high 64 a i) by (auto; lia). reflexivity. }
  rewrite lor_add_low by (auto; lia). lia.
Qed.

Lemma with_high_value a v : with_high a v = a mod 2 ^ 32 + v * 2 ^ 32.
Proof.
  unfold with_high. change 0xffffffff with (2 ^ 32 - 1). rewrite land_mask, Z.shiftl_mul_pow2 by lia.
  apply lor_add_low; [lia|]. apply wrap_range. lia.
Qed.

Lemma with_low_range a v : in_u 64 a -> in_u 32 v -> in_u 64 (with_low a v).
Proof.
  intros Ha Hv. rewrite with_low_value by assumption. unfold in_u in *.
  pose proof (Z.div_pos a (2 ^ 32)). pose proof (Z.div_lt_upper_bound a (2 ^ 32) (2 ^ 32)).
  change (2 ^ 64) with (2 ^ 32 * 2 ^ 32) in *. nia.
Qed.

Lemma with_high_range a v : in_u 32 v -> in_u 64 (with_high a v).
Proof.
  intros Hv. rewrite with_high_value. unfold in_u in *. pose proof (Z.mod_pos_bound a (2 ^ 32)).
  change (2 ^ 64) with (2 ^ 32 * 2 ^ 32) in *. nia.
Qed.

(** ** The queue registers *)

(** The addresses of queue registers, and the holes between them. *)
Definition queue_register (addr : Z) : bool :=
  existsb (Z.eqb addr) [ADDR_QUEUE_NUM; ADDR_QUEUE_READY; ADDR_QUEUE_DESC_LOW; ADDR_QUEUE_DESC_HIGH;
    ADDR_QUEUE_AVAIL_LOW; ADDR_QUEUE_AVAIL_HIGH; ADDR_QUEUE_USED_LOW; ADDR_QUEUE_USED_HIGH].
Definition hole (addr : Z) : bool :=
  (((ADDR_QUEUE_NUM <=? addr) && (addr <=? ADDR_QUEUE_READY)) ||
   ((ADDR_QUEUE_DESC_LOW <=? addr) && (addr <=? ADDR_QUEUE_USED_HIGH))) && negb (queue_register addr).

Lemma write_queue_none addr v q : write_queue addr v q = None <-> queue_register addr = false.
Proof.
  unfold write_queue, queue_register. cbn [existsb]. split.
  - repeat (destruct (addr =? _); [discriminate|]). reflexivity.
  - intros H. rewrite !orb_false_iff in H. destruct H as (-> & -> & -> & -> & -> & -> & -> & -> & _). reflexivity.
Qed.

Lemma write_queue_ok addr v q q' : queue_ok q -> in_u 32 v -> write_queue addr v q = Some q' -> queue_ok q'.
Proof.
  intros [H1 H2 H3 H4 H5 H6] Hv. unfold write_queue.
  repeat (destruct (addr =? _); [intros E; injection E as <-|]); try discriminate.
  2-8: split; cbn; auto using with_low_range, with_high_range; destruct H1 as (k & Hk & E); exists k; auto.
  destruct (is_power_of_two v) eqn:Ep; cbn [andb]; [|split; auto].
  destruct (Z.leb_spec v (num_max q)) as [L|L]; [|split; auto].
  destruct (is_power_of_two_spec v Hv Ep) as (k & Hk & ->).
  assert (0 <= k <= 15).
  { destruct (Z.leb_spec k 15); [lia|]. pose proof (Z.pow_le_mono_r 2 16 k). lia. }
  pose proof (pow15 k ltac:(assumption)). assert (u16 (2 ^ k) = 2 ^ k) as -> by (apply wrap_id; unfold in_u; lia).
  split; cbn; auto; [exists k; auto|lia].
Qed.

Section Mmio.
Context {S : Type} {DS : Device S} {DL : DeviceLaws S}.
Implicit Types m : Mmio S.

Lemma selected_some m : mmio_wf m -> queue_sel m < Z.of_nat (num_queues (device m)) ->
  exists r q, selected m = Some (r, q) /\ r ∈ queues m /\ store m !! r = Some q /\ queue_ok q.
Proof.
  intros [Hl Hr Hs Hq] Hlt. unfold selected, in_u in *.
  destruct (queues m !! Z.to_nat (queue_sel m)) as [r|] eqn:Er; [|apply lookup_ge_None in Er; lia].
  assert (Hin : r ∈ queues m) by (apply list_elem_of_lookup; eauto).
  destruct (store m !! r) as [q|] eqn:Eq; [|apply lookup_ge_None in Eq; specialize (Hr r Hin); lia].
  exists r, q. rewrite Forall_lookup in Hs. eauto.
Qed.

Lemma set_store_wf m r q : mmio_wf m -> queue_ok q -> mmio_wf (set_store (<[r := q]> (store m)) m).
Proof.
  intros [Hl Hr Hs Hq] Hok. split; cbn [set_store queues device store queue_sel]; auto.
  - intros r' Hin. rewrite length_insert. auto.
  - apply Forall_insert; assumption.
Qed.

Lemma set_device_wf m s : mmio_wf m -> num_queues s = num_queues (device m) -> mmio_wf (set_device s m).
Proof. intros [Hl Hr Hs Hq] Hn. split; cbn; auto. congruence. Qed.

(** The loop of a reset. *)
Lemma reset_queues_ok dev : forall rs i st wk, (forall r, r ∈ rs -> (r < length st)%nat) -> Forall queue_ok st ->
  exists rs' st', reset_queues dev i rs st wk = Some (rs', st', wk) /\ length rs' = length rs /\
    (length st' = length st + length rs)%nat /\ Forall queue_ok st' /\
    (forall r, r ∈ rs' -> (length st <= r < length st')%nat) /\
    (forall j r, rs' !! j = Some r -> st' !! r = Some (queue_new (max_queue_len dev (i + j)))) /\
    (forall r q, st !! r = Some q -> st' !! r = Some (if decide (r ∈ rs) then set_waker false (queue_reset q) else q)).
Proof.
  induction rs as [|r rs IH]; intros i st wk Hr Hs; cbn [reset_queues].
  { exists [], st. split; [reflexivity|]. cbn [length]. repeat split; auto; try lia; intros; set_solver. }
  destruct (st !! r) as [q|] eqn:Eq; [|apply lookup_ge_None in Eq; specialize (Hr r ltac:(left)); lia].
  cbn [queue_reset waker]. set (q1 := set_waker false (queue_reset q)).
  assert (Hq1 : queue_ok q1) by (apply queue_reset_ok; rewrite Forall_lookup in Hs; eauto).
  set (nq := queue_new (max_queue_len dev i)). assert (Hnq : queue_ok nq) by (apply queue_new_ok, max_len_ok).
  set (st1 := <[r := q1]> st ++ [nq]).
  assert (Hlen : length st1 = Datatypes.S (length st)) by (unfold st1; rewrite length_app, length_insert; cbn; lia).
  assert (Hst1 : Forall queue_ok st1) by (apply Forall_app; split; [apply Forall_insert; assumption|auto]).
  destruct (IH (i + 1)%nat st1 wk) as (rs' & st' & E & L1 & L2 & F & Hrange & Hnew & Hold); [|exact Hst1|].
  { intros r' Hin. rewrite Hlen. specialize (Hr r' ltac:(right; exact Hin)). lia. }
  exists ((length st1 - 1)%nat :: rs'), st'. rewrite E. split; [reflexivity|]. cbn [length].
  split; [lia|]. split; [lia|]. split; [exact F|]. split; [|split].
  - intros x Hx. apply elem_of_cons in Hx as [->|Hx]; [lia|]. specialize (Hrange x Hx). lia.
  - intros [|j] x Hx; cbn in Hx.
    + injection Hx as <-. rewrite Nat.add_0_r. replace (length st1 - 1)%nat with (length st) by lia.
      rewrite (Hold (length st) nq).
      * destruct (decide (length st ∈ rs)) as [Hin|]; [specialize (Hr _ ltac:(right; exact Hin)); lia|reflexivity].
      * unfold st1. rewrite lookup_app_r by (rewrite length_insert; lia). rewrite length_insert, Nat.sub_diag. reflexivity.
    + specialize (Hnew j x Hx). rewrite Hnew. f_equal. f_equal. f_equal. lia.
  - intros x y Hx. assert (Hxlt : (x < length st)%nat) by (eapply lookup_lt_Some; eauto).
    destruct (decide (x = r)) as [->|N].
    + rewrite (Hold r q1) by (unfold st1; rewrite lookup_app_l by (rewrite length_insert; lia);
        apply list_lookup_insert_eq; lia).
      assert (y = q) as -> by congruence. destruct (decide (r ∈ r :: rs)) as [_|C]; [|contradiction C; left].
      destruct (decide (r ∈ rs)); reflexivity.
    + rewrite (Hold x y) by (unfold st1; rewrite lookup_app_l by (rewrite length_insert; lia);
        rewrite list_lookup_insert_ne by congruence; exact Hx).
      destruct (decide (x ∈ rs)) as [A|A], (decide (x ∈ r :: rs)) as [B|B]; try reflexivity;
        exfalso; rewrite elem_of_cons in B; tauto.
Qed.

Lemma notify_wf m r q : mmio_wf m -> queue_ok q ->
  mmio_wf (if waker q then set_woken (woken m ++ [r]) (set_store (<[r := set_waker false q]> (store m)) m) else m).
Proof.
  intros Hw Hq. destruct (waker q); [|exact Hw].
  assert (H : mmio_wf (set_store (<[r := set_waker false q]> (store m)) m)).
  { apply set_store_wf; [exact Hw|]. destruct Hq. split; auto. }
  destruct H. split; auto.
Qed.

Lemma queue_write_wf m addr v r q q' : mmio_wf m -> queue_ok q -> in_u 32 v -> write_queue addr v q = Some q' ->
  let m1 := set_store (<[r := q']> (store m)) m in
  mmio_wf (if (addr =? ADDR_QUEUE_READY) && ((v .& 1) <>? 0)
           then set_device (queue_ready (Z.to_nat (queue_sel m1)) r (device m1)) m1 else m1).
Proof.
  intros Hw Hq Hv E m1. assert (H : mmio_wf m1) by (apply set_store_wf; [exact Hw|eapply write_queue_ok; eauto]).
  destruct (_ && _); [|exact H]. apply set_device_wf; [exact H|apply queues_ready].
Qed.

Lemma reset_device_ok m : mmio_wf m ->
  exists m', reset_device m = Some m' /\ mmio_wf m' /\ device m' = reset (device m) /\ woken m' = woken m /\
    (forall j r, queues m' !! j = Some r -> (length (store m) <= r)%nat /\
       store m' !! r = Some (queue_new (max_queue_len (reset (device m)) j))) /\
    (forall r q, r ∈ queues m -> store m !! r = Some q -> store m' !! r = Some (set_waker false (queue_reset q))).
Proof.
  intros [Hl Hr Hs Hq]. unfold reset_device.
  destruct (reset_queues_ok (reset (device m)) (queues m) 0 (store m) (woken m) Hr Hs)
    as (rs & st & -> & L1 & L2 & F & Hrange & Hnew & Hold).
  eexists. split; [reflexivity|]. cbn [device woken queues store]. split.
  - split; cbn [device queues store queue_sel]; [rewrite queues_reset; lia| |exact F|unfold in_u; lia].
    intros r Hin. apply Hrange, Hin.
  - split; [reflexivity|]. split; [reflexivity|]. split.
    + intros j r E. split; [apply Hrange, list_elem_of_lookup; eauto|exact (Hnew j r E)].
    + intros r q Hin E. rewrite (Hold r q E). destruct (decide (r ∈ queues m)); [reflexivity|contradiction].
Qed.

(** C26. The register file keeps its invariant: whatever the driver writes, every queue has
    a size that is a power of two not above its maximum, so that ring indices stay within
    the rings, its addresses are 64-bit, and the queues of the device are the ones of the
    transport. *)
Theorem mmio_invariant m m' addr value size : mmio_wf m -> write_mut addr value size m = Some m' -> mmio_wf m'.
Proof.
  intros Hw. unfold write_mut. assert (Hv : in_u 32 (u32 value)) by (apply wrap_range; lia).
  destruct (ADDR_CONFIG <=? addr); [intros E; injection E as <-; exact Hw|].
  destruct (size <>? 4); [intros E; injection E as <-; exact Hw|].
  destruct (addr =? ADDR_DEVICE_FEATURES_SEL).
  { intros E. injection E as <-. destruct Hw. destruct (u32 value =? 0), (u32 value =? 1); split; auto. }
  destruct (addr =? ADDR_DRIVER_FEATURES).
  { intros E. injection E as <-. destruct (driver_features_sel m); [exact Hw|]. apply set_device_wf; [exact Hw|apply queues_feature]. }
  destruct (addr =? ADDR_DRIVER_FEATURES_SEL).
  { intros E. injection E as <-. destruct Hw. destruct (u32 value =? 0), (u32 value =? 1); split; auto. }
  destruct (addr =? ADDR_QUEUE_SEL); [intros E; injection E as <-; destruct Hw; split; auto|].
  destruct (addr =? ADDR_QUEUE_NOTIFY).
  { destruct (Z.leb_spec (Z.of_nat (num_queues (device m))) (queue_sel m)) as [L|L]; [intros E; injection E as <-; exact Hw|].
    destruct (selected_some m Hw L) as (r & q & -> & _ & _ & Hq). intros E. injection E as <-. apply notify_wf; assumption. }
  destruct (_ || _).
  { destruct (Z.leb_spec (Z.of_nat (num_queues (device m))) (queue_sel m)) as [L|L]; [intros E; injection E as <-; exact Hw|].
    destruct (selected_some m Hw L) as (r & q & -> & _ & _ & Hq). destruct (write_queue addr (u32 value) q) as [q'|] eqn:Eq; [|discriminate].
    intros E. injection E as <-. eapply queue_write_wf; eauto. }
  destruct (addr =? ADDR_INTERRUPT_ACK); [intros E; injection E as <-; apply set_device_wf; [exact Hw|apply queues_ack]|].
  destruct (addr =? ADDR_STATUS); [|intros E; injection E as <-; exact Hw].
  destruct (u32 value =? 0); [|intros E; injection E as <-; apply set_device_wf; [exact Hw|apply queues_status]].
  destruct (reset_device_ok m Hw) as (m2 & -> & H2 & _). intros E. injection E as <-. exact H2.
Qed.

(** The holes a read reaches. *)
Definition read_hole (addr : Z) : bool := hole addr && (ADDR_QUEUE_DESC_LOW <=? addr).

Ltac regs := unfold hole, read_hole, queue_register, ADDR_CONFIG, ADDR_DEVICE_FEATURES_SEL, ADDR_DRIVER_FEATURES,
  ADDR_DRIVER_FEATURES_SEL, ADDR_QUEUE_SEL, ADDR_QUEUE_NOTIFY, ADDR_QUEUE_NUM, ADDR_QUEUE_READY, ADDR_QUEUE_DESC_LOW,
  ADDR_QUEUE_DESC_HIGH, ADDR_QUEUE_AVAIL_LOW, ADDR_QUEUE_AVAIL_HIGH, ADDR_QUEUE_USED_LOW, ADDR_QUEUE_USED_HIGH,
  ADDR_INTERRUPT_ACK, ADDR_STATUS, ADDR_MAGIC_VALUE, ADDR_VERSION, ADDR_DEVICE_ID, ADDR_VENDOR_ID, ADDR_DEVICE_FEATURES,
  ADDR_QUEUE_NUM_MAX, ADDR_INTERRUPT_STATUS, ADDR_CONFIG_GENERATION in *.

Lemma write_mut_hole m addr value : mmio_wf m -> hole addr = true -> queue_sel m < Z.of_nat (num_queues (device m)) ->
  write_mut addr value 4 m = None.
Proof.
  intros Hw Hh Hs. pose proof Hh as H. unfold hole in H. apply andb_true_iff in H as [H Hq]. apply negb_true_iff in Hq.
  destruct (selected_some m Hw Hs) as (r & q & E & _ & _ & _).
  unfold write_mut. rewrite H, E, (proj2 (write_queue_none addr (u32 value) q) Hq).
  rewrite (proj2 (Z.leb_gt (Z.of_nat (num_queues (device m))) (queue_sel m)) Hs).
  regs. repeat (rewrite (proj2 (Z.eqb_neq addr _)) by lia). destruct (Z.leb_spec 256 addr); [lia|]. reflexivity.
Qed.

Lemma write_mut_none m addr value size : mmio_wf m -> write_mut addr value size m = None ->
  size = 4 /\ hole addr = true /\ queue_sel m < Z.of_nat (num_queues (device m)).
Proof.
  intros Hw. unfold write_mut. destruct (ADDR_CONFIG <=? addr); [discriminate|].
  destruct (Z.eqb_spec size 4) as [->|N]; cbn [negb]; [|discriminate].
  repeat (destruct (addr =? _); [discriminate|]).
  destruct (addr =? ADDR_QUEUE_NOTIFY).
  { destruct (Z.leb_spec (Z.of_nat (num_queues (device m))) (queue_sel m)) as [L|L]; [discriminate|].
    destruct (selected_some m Hw L) as (r & q & -> & _). discriminate. }
  destruct (_ || _) eqn:Er.
  { destruct (Z.leb_spec (Z.of_nat (num_queues (device m))) (queue_sel m)) as [L|L]; [discriminate|].
    destruct (selected_some m Hw L) as (r & q & -> & _). destruct (write_queue addr (u32 value) q) eqn:Eq; [discriminate|].
    intros _. split; [reflexivity|]. split; [|exact L]. unfold hole. rewrite Er. apply write_queue_none in Eq. rewrite Eq. reflexivity. }
  destruct (addr =? ADDR_INTERRUPT_ACK); [discriminate|]. destruct (addr =? ADDR_STATUS); [|discriminate].
  destruct (u32 value =? 0); [|discriminate]. destruct (reset_device_ok m Hw) as (m2 & -> & _). discriminate.
Qed.

(** C27. What a driver can write: a store to the register file panics on exactly the holes
    between the queue registers (32-bit accesses at 0x3c, 0x40, 0x88, ...) when a queue of
    the device is selected; every other store is carried out or ignored. *)
Theorem mmio_write_panics m addr value size : mmio_wf m ->
  write_mut addr value size m = None <->
  size = 4 /\ hole addr = true /\ queue_sel m < Z.of_nat (num_queues (device m)).
Proof. intros Hw. split; [apply write_mut_none, Hw|]. intros (-> & Hh & Hs). apply write_mut_hole; assumption. Qed.

(** ** Addresses *)

Lemma split_low a lo : in_u 64 a -> in_u 32 lo -> with_low a lo mod 2 ^ 32 = lo.
Proof.
  intros Ha Hl. rewrite with_low_value by assumption. rewrite Z.add_comm, Z.mod_add by lia. apply Z.mod_small, Hl.
Qed.

(** A queue address is written in two halves and read back: after stores of [lo] and
    [hi] to the low and high registers of the descriptor table the selected queue has the
    address [lo + hi * 2^32] there, the two registers read as [lo] and [hi], and its
    other fields are unchanged. *)
Theorem mmio_address_roundtrip m lo hi : mmio_wf m -> queue_sel m < Z.of_nat (num_queues (device m)) ->
  in_u 32 lo -> in_u 32 hi ->
  exists m1 m2 r q, write_mut ADDR_QUEUE_DESC_LOW lo 4 m = Some m1 /\ write_mut ADDR_QUEUE_DESC_HIGH hi 4 m1 = Some m2 /\
    selected m = Some (r, q) /\ selected m2 = Some (r, set_desc_addr (lo + hi * 2 ^ 32) q) /\
    read_mut ADDR_QUEUE_DESC_LOW 4 m2 = Some lo /\ read_mut ADDR_QUEUE_DESC_HIGH 4 m2 = Some hi.
Proof.
  intros Hw Hs Hlo Hhi. destruct (selected_some m Hw Hs) as (r & q & E & Hin & Hst & Hq).
  assert (Hu : forall v, in_u 32 v -> u32 v = v) by (intros; apply wrap_id; assumption).
  assert (Hsel : forall q', selected (set_store (<[r := q']> (store m)) m) = Some (r, q')).
  { intros q'. unfold selected in *. cbn [set_store queues store queue_sel]. destruct (queues m !! _) as [r'|]; [|discriminate].
    destruct (store m !! r') as [q''|]; [|discriminate]. injection E as -> ->.
    rewrite list_lookup_insert_eq by (eapply lookup_lt_Some; eauto). reflexivity. }
  assert (Hn : (Z.of_nat (num_queues (device m)) <=? queue_sel m) = false) by (apply Z.leb_gt; exact Hs).
  set (q1 := set_desc_addr (with_low (desc_addr q) lo) q). set (m1 := set_store (<[r := q1]> (store m)) m).
  set (q2 := set_desc_addr (with_high (with_low (desc_addr q) lo) hi) q1). set (m2 := set_store (<[r := q2]> (store m1)) m1).
  assert (Eq2 : q2 = set_desc_addr (lo + hi * 2 ^ 32) q).
  { unfold q2, q1. rewrite with_high_value, split_low by (try apply (qo_desc _ Hq); assumption). reflexivity. }
  assert (Hm2 : m2 = set_store (<[r := q2]> (store m)) m).
  { unfold m2, m1. cbn [set_store store]. rewrite list_insert_insert_eq. reflexivity. }
  exists m1, m2, r, q. split; [|split; [|split; [exact E|]]].
  - unfold write_mut. rewrite Hn, E, Hu by exact Hlo. reflexivity.
  - unfold write_mut. change (Z.of_nat (num_queues (device m1)) <=? queue_sel m1) with
      (Z.of_nat (num_queues (device m)) <=? queue_sel m). rewrite (Hsel q1 : selected m1 = _), Hn, Hu by exact Hhi. reflexivity.
  - rewrite Hm2. split; [rewrite Hsel, Eq2; reflexivity|].
    unfold in_u in *. assert (Hd : desc_addr q2 = lo + hi * 2 ^ 32) by (rewrite Eq2; reflexivity).
    assert (Hrd : forall a, (a = ADDR_QUEUE_DESC_LOW -> read_mut a 4 (set_store (<[r := q2]> (store m)) m) = Some (u32 (desc_addr q2))) /\
      (a = ADDR_QUEUE_DESC_HIGH -> read_mut a 4 (set_store (<[r := q2]> (store m)) m) = Some (u32 (desc_addr q2 >> 32)))).
    { intros a. split; intros ->; unfold read_mut; rewrite Hsel; cbn [set_store device queue_sel]; rewrite Hn; reflexivity. }
    rewrite (proj1 (Hrd _) eq_refl), (proj2 (Hrd _) eq_refl), Hd. unfold u32, wrap. split; f_equal.
    + rewrite Z.mod_add by lia. apply Z.mod_small, Hlo.
    + rewrite Z.shiftr_div_pow2, Z.div_add, Z.div_small by lia. apply Z.mod_small, Hhi.
Qed.

(** ** Reset *)

(** Writing zero to the status register resets the device: each queue is a new
    instance of its maximum size, not ready, and every queue the tasks of the device
    hold is closed, so that a task that polls it ends.  No task is woken to do so: the
    reset of a queue drops its waker before it is woken. *)
Theorem mmio_reset m : mmio_wf m ->
  exists m', write_mut ADDR_STATUS 0 4 m = Some m' /\ mmio_wf m' /\ device m' = reset (device m) /\ queue_sel m' = 0 /\
    (forall j r, queues m' !! j = Some r -> (r ∉ queues m) /\ store m' !! r = Some (queue_new (max_queue_len (reset (device m)) j))) /\
    (forall r q, r ∈ queues m -> store m !! r = Some q ->
       exists q', store m' !! r = Some q' /\ forall fuel (d : GuestMemory), try_take fuel q' d = QueueNotReady) /\
    woken m' = woken m.
Proof.
  intros Hw. destruct (reset_device_ok m Hw) as (m' & E & Hw' & Hd & Hk & Hnew & Hold).
  exists m'. split; [exact E|]. split; [exact Hw'|]. split; [exact Hd|].
  split; [unfold reset_device in E; destruct (reset_queues _ _ _ _ _) as [[[qs st] wk]|]; [injection E as <-; reflexivity|discriminate]|].
  split; [|split; [|exact Hk]].
  - intros j r H. destruct (Hnew j r H) as [H1 H2]. split; [|exact H2]. intros Hin. pose proof (mw_refs _ Hw r Hin). lia.
  - intros r q Hin Hq. exists (set_waker false (queue_reset q)). split; [exact (Hold r q Hin Hq)|]. reflexivity.
Qed.

(** The transport starts well formed. *)
Lemma mmio_new_wf (dev : S) : mmio_wf (mmio_new dev).
Proof.
  unfold mmio_new. split; cbn [queues device store queue_sel].
  - apply length_seq.
  - intros r Hr. rewrite length_map, length_seq. apply elem_of_seq in Hr. lia.
  - apply Forall_forall. intros q Hq. apply list_elem_of_In, in_map_iff in Hq as (i & <- & _). apply queue_new_ok, max_len_ok.
  - unfold in_u. lia.
Qed.

(** The number written to the notification register is not used: the queue that is
    notified is the one that is selected. *)
Lemma notify_value_ignored m v w : write_mut ADDR_QUEUE_NOTIFY v 4 m = write_mut ADDR_QUEUE_NOTIFY w 4 m.
Proof. reflexivity. Qed.
End Mmio.
