(* ===== verification/VirtioBlock.v ===== *)
(** The virtio block device (lib/io/src/hw/virtio/block.rs) over the interface of block
    devices (lib/io/src/block/mod.rs), and the device that keeps writes in memory
    (lib/io/src/block/shadow.rs). *)

From Stdlib Require Import ZArith Lia Bool List.
From stdpp Require Import base list gmap.
From S2P Require Import Prelude VirtioQueue VirtioMmio.
Import ListNotations.
Local Open Scope Z_scope.
Local Open Scope rust_scope.

(** ** [trait Block] *)

(** [None] is an error of the device. *)
Class BlockDevice (F : Type) : Type := {
  read_exact_at : F -> nat -> Z -> option (list Z);
  write_all_at : F -> list Z -> Z -> option F;
  flush : F -> option F;
  block_len : F -> Z;
}.

(** [write_zero_at] and [discard], the methods with a default. *)
Definition write_zero_at {F} `{BlockDevice F} (f : F) (offset : Z) (len : nat) : option F :=
  write_all_at f (repeat 0 len) offset.
Definition discard {F} `{BlockDevice F} (f : F) (offset : Z) (len : nat) : option F := Some f.

(** ** [Shadow] *)

Record Shadow (F : Type) : Type := MkShadow { overlay : gmap Z (list Z); block : F }.
Arguments MkShadow {F}.
Arguments overlay {F}.
Arguments block {F}.

(** [chunks(512)] *)
Fixpoint chunks_fuel (fuel : nat) (l : list Z) : list (list Z) :=
  match fuel, l with
  | S fuel, _ :: _ => firstn 512 l :: chunks_fuel fuel (skipn 512 l)
  | _, _ => []
  end.
Definition chunks (l : list Z) : list (list Z) := chunks_fuel (length l) l.

(** The lengths of the pieces of [chunks_mut(512)] of a buffer of [n] bytes. *)
Fixpoint chunk_lengths_fuel (fuel n : nat) : list nat :=
  match fuel, n with
  | S fuel, S _ => Nat.min 512 n :: chunk_lengths_fuel fuel (n - 512)
  | _, _ => []
  end.
Definition chunk_lengths (n : nat) : list nat := chunk_lengths_fuel n n.

Section Shadow.
Context {F : Type} {BF : BlockDevice F}.

(** [copy_from_slice] of a piece of another length panics; like an error of the device it
    is [None]. *)
Fixpoint shadow_read (s : Shadow F) (ns : list nat) (offset : Z) : option (list Z) :=
  match ns with
  | [] => Some []
  | n :: ns =>
      let? chunk := (match overlay s !! offset with
        | None => read_exact_at (block s) n offset
        | Some v => if (length v =? n)%nat then Some v else None
        end) in
      let? rest := shadow_read s ns (u64 (offset + 512)) in
      Some (chunk ++ rest)
  end.

Fixpoint shadow_write (o : gmap Z (list Z)) (cs : list (list Z)) (offset : Z) : gmap Z (list Z) :=
  match cs with
  | [] => o
  | c :: cs => shadow_write (<[offset := c]> o) cs (u64 (offset + 512))
  end.

#[export] Instance shadow_block : BlockDevice (Shadow F) := {
  read_exact_at s n offset := shadow_read s (chunk_lengths n) offset;
  write_all_at s buf offset := Some (MkShadow (shadow_write (overlay s) (chunks buf) offset) (block s));
  flush s := Some s;
  block_len s := block_len (block s);
}.

Definition shadow_new (f : F) : Shadow F := MkShadow ∅ f.
End Shadow.

(** ** The device *)

Definition VIRTIO_BLK_T_IN : Z := 0.
Definition VIRTIO_BLK_T_OUT : Z := 1.
Definition VIRTIO_BLK_T_GET_ID : Z := 8.

Record VirtioBlkReqHeader : Type := MkHeader { type_ : Z; reserved : Z; sector : Z }.

Definition header_of_bytes (l : list Z) : VirtioBlkReqHeader :=
  MkHeader (from_le_bytes (firstn 4 l)) (from_le_bytes (firstn 4 (skipn 4 l))) (from_le_bytes (firstn 8 (skipn 8 l))).

(** How a request ends: with the memory, the backing device, the number of bytes written
    and whether the interrupt is sent; or in a panic of the task; or in a length below
    zero, which the task uses unchecked. *)
Inductive Request (D F : Type) : Type :=
| Served (d : D) (f : F) (written : nat) (irq : bool)
| Panicked
| Underflow.
Arguments Served {D F}.
Arguments Panicked {D F}.
Arguments Underflow {D F}.

Section Block.
Context {D : Type} {DC : DmaContext D} {F : Type} {BF : BlockDevice F}.

(** [writer.write_all(..).unwrap()], the last step of a request *)
Definition reply (d : D) (f : F) (b : Buffer) (l : list Z) : Request D F :=
  match write_all d l (writer b) (bytes_written b) with
  | Some (d, _, w) => Served d f w true
  | None => Panicked
  end.

(** The body of the loop of [start_task], up to [drop(buffer)]. *)
Definition blk_request (d : D) (f : F) (b : Buffer) : Request D F :=
  match read_exact d 16 (reader b) with
  | None => Panicked
  | Some (bytes, rd) =>
      let header := header_of_bytes bytes in
      if type_ header =? VIRTIO_BLK_T_IN then
        match write_len b with
        | O => Underflow
        | S n =>
            match read_exact_at f n (u64 (sector header * 512)) with
            | None => Panicked
            | Some data => reply d f b (data ++ [0])
            end
        end
      else if type_ header =? VIRTIO_BLK_T_OUT then
        match read_exact d (read_len b - 16) rd with
        | None => Panicked
        | Some (data, _) =>
            match (let? f := write_all_at f data (u64 (sector header * 512)) in flush f) with
            | None => Panicked
            | Some f => reply d f b [0]
            end
        end
      else if type_ header =? VIRTIO_BLK_T_GET_ID then reply d f b (repeat 0 (write_len b))
      else Served d f (bytes_written b) false
  end.

(** One round of the task: a buffer is taken, the request carried out, the buffer returned. *)
Inductive Round : Type :=
| Idle (q : QueueInner)
| Stopped
| Busy
| Handled (q : QueueInner) (d : D) (f : F) (irq : bool)
| Crashed.

Definition set_written (w : nat) (b : Buffer) : Buffer :=
  MkBuffer (idx b) w (read b) (write b) (read_len b) (write_len b).

Definition blk_round (fuel : nat) (q : QueueInner) (d : D) (f : F) : Round :=
  match poll_take fuel q d with
  | Pending q => Idle q
  | Ready_ (Took q b) =>
      match blk_request d f b with
      | Served d f w irq => let '(q, d) := put q d (set_written w b) in Handled q d f irq
      | Panicked | Underflow => Crashed
      end
  | Ready_ Running => Busy
  | Ready_ _ => Stopped
  end.

End Block.
Arguments Round : clear implicits.

(** The registers of the device; [tasks] are the queues it serves. *)
Record Block : Type := MkBlock { status : Z; config : list Z; tasks : list nat }.

(** [Block::new]; [None] is the panic on a length that is not a multiple of 512. *)
Definition block_new {F} `{BlockDevice F} (f : F) : option Block :=
  let len := block_len f in
  if (len mod 512) =? 0 then Some (MkBlock 0 (to_le_bytes 8 (len / 512)) []) else None.

#[export] Instance block_device : Device Block := {
  device_id _ := 2;
  device_feature _ := 0;
  driver_feature _ s := s;
  get_status := status;
  set_status v s := MkBlock v (config s) (tasks s);
  config_space := config;
  num_queues _ := 1%nat;
  max_queue_len _ _ := 32768;
  reset s := MkBlock 0 (config s) (tasks s);
  queue_ready _ r s := MkBlock (status s) (config s) (tasks s ++ [r]);
  interrupt_status _ := 1;
  interrupt_ack _ s := s;
}.
