(* ===== verification/VirtioBlockProps.v ===== *)
(** Block devices: the shadow device is a disk whose writes stay in memory, and a virtio
    block request moves sectors between the disk and the buffer. *)

From Stdlib Require Import ZArith Lia Bool List.
From stdpp Require Import base list gmap.
From S2P Require Import Prelude VirtioQueue VirtioQueueProps VirtioMmio VirtioMmioProps VirtioBlock.
Import ListNotations.
Local Open Scope Z_scope.
Local Open Scope rust_scope.

(** A block device is a disk: an array of bytes, of which reads within its length give
    the part asked for. *)
Class BlockLaws (F : Type) {H : BlockDevice F} : Type := {
  disk : F -> Z -> Z;
  read_disk f n offset : 0 <= offset -> offset + Z.of_nat n <= block_len f ->
    read_exact_at f n offset = Some (map (disk f) (span offset n));
}.

(** ** [Shadow] *)

Lemma chunk_lengths_mul m : forall fuel, (512 * m <= fuel)%nat -> chunk_lengths_fuel fuel (512 * m) = repeat 512%nat m.
Proof.
  induction m as [|m IH]; intros fuel Hf; [destruct fuel; reflexivity|].
  destruct fuel as [|fuel]; [lia|]. replace (512 * S m)%nat with (S (511 + 512 * m)) by lia. cbn [chunk_lengths_fuel repeat].
  replace (Nat.min 512 (S (511 + 512 * m))) with 512%nat by lia. f_equal.
  replace (S (511 + 512 * m) - 512)%nat with (512 * m)%nat by lia. apply IH. lia.
Qed.

Lemma span_app a n m : span a (n + m) = span a n ++ span (a + Z.of_nat n) m.
Proof.
  rewrite <- (take_drop n (span a (n + m))), span_take, span_drop by lia.
  replace (n + m - n)%nat with m by lia. reflexivity.
Qed.

Section Shadow.
Context {F : Type} {BF : BlockDevice F} {BL : BlockLaws F}.

Definition shadow_wf (s : Shadow F) : Prop :=
  forall k v, overlay s !! k = Some v -> length v = 512%nat /\ k mod 512 = 0.

(** The disk the shadow shows. *)
Definition shadow_disk (s : Shadow F) (x : Z) : Z :=
  match overlay s !! (x / 512 * 512) with
  | Some v => nth (Z.to_nat (x mod 512)) v 0
  | None => disk (block s) x
  end.

Lemma sector_of off i : off mod 512 = 0 -> 0 <= i < 512 -> (off + i) / 512 * 512 = off /\ (off + i) mod 512 = i.
Proof. intros Ho Hi. pose proof (Z.div_mod off 512). pose proof (Z.div_mod (off + i) 512). pose proof (Z.mod_pos_bound (off + i) 512). lia. Qed.

Lemma shadow_sector (s : Shadow F) off : shadow_wf s -> off mod 512 = 0 ->
  map (shadow_disk s) (span off 512) =
    match overlay s !! off with Some v => v | None => map (disk (block s)) (span off 512) end.
Proof.
  intros Hw Ho.
  assert (E : forall i, 0 <= i < 512 -> shadow_disk s (off + i) =
    match overlay s !! off with Some v => nth (Z.to_nat i) v 0 | None => disk (block s) (off + i) end).
  { intros i Hi. unfold shadow_disk. destruct (sector_of off i Ho Hi) as [-> ->]. reflexivity. }
  destruct (overlay s !! off) as [v|] eqn:Ev.
  - destruct (Hw off v Ev) as [Hl _]. apply list_eq. intros i. unfold span. rewrite map_map, list_lookup_fmap.
    destruct (Nat.ltb_spec i 512) as [L|L].
    + rewrite lookup_seq_lt by lia. cbn [fmap option_fmap option_map]. rewrite E by lia. rewrite Nat2Z.id, Nat.add_0_l, nth_lookup.
      destruct (v !! i) eqn:Ei; [reflexivity|]. apply lookup_ge_None in Ei. lia.
    + rewrite lookup_seq_ge by lia. cbn. symmetry. apply lookup_ge_None. lia.
  - unfold span. rewrite !map_map. apply map_ext_in. intros i Hi. apply in_seq in Hi. apply E. lia.
Qed.

Lemma shadow_read_ok (s : Shadow F) m : shadow_wf s -> forall off, off mod 512 = 0 -> 0 <= off ->
  off + 512 * Z.of_nat m <= block_len (block s) -> off + 512 * Z.of_nat m < 2 ^ 64 ->
  shadow_read s (repeat 512%nat m) off = Some (map (shadow_disk s) (span off (512 * m))).
Proof.
  intros Hw. induction m as [|m IH]; intros off Ho Hp Hb H64; [reflexivity|]. cbn [repeat shadow_read].
  assert (E : (match overlay s !! off with
      | None => read_exact_at (block s) 512 off
      | Some v => if (length v =? 512)%nat then Some v else None end) = Some (map (shadow_disk s) (span off 512))).
  { rewrite (shadow_sector s off Hw Ho). destruct (overlay s !! off) as [v|] eqn:Ev.
    - destruct (Hw off v Ev) as [-> _]. reflexivity.
    - apply read_disk; lia. }
  rewrite E. assert (u64 (off + 512) = off + 512) as -> by (apply wrap_id; unfold in_u; lia).
  rewrite IH by (try lia; rewrite Z.add_comm, (Z.add_mod 512 off 512), Ho by lia; reflexivity).
  replace (512 * S m)%nat with (512 + 512 * m)%nat by lia. rewrite span_app, map_app. reflexivity.
Qed.

Lemma chunks_mul m : forall fuel l, length l = (512 * m)%nat -> (512 * m <= fuel)%nat ->
  Forall (fun c => length c = 512%nat) (chunks_fuel fuel l) /\ concat (chunks_fuel fuel l) = l /\ length (chunks_fuel fuel l) = m.
Proof.
  induction m as [|m IH]; intros fuel l Hl Hf.
  - destruct l; [|discriminate]. destruct fuel; repeat split; constructor.
  - destruct fuel as [|fuel]; [lia|]. destruct l as [|b l]; [cbn [length] in Hl; lia|]. cbn [chunks_fuel].
    destruct (IH fuel (skipn 512 (b :: l))) as (I1 & I2 & I3); [rewrite length_skipn; lia|lia|].
    split; [constructor; [rewrite length_firstn; lia|exact I1]|]. split; [|cbn [length]; rewrite I3; reflexivity].
    cbn [concat]. rewrite I2. apply firstn_skipn.
Qed.

(** Writing sectors one after another. *)
Lemma shadow_write_ok : forall cs (o : gmap Z (list Z)) f off, shadow_wf (MkShadow o f) -> off mod 512 = 0 -> 0 <= off ->
  Forall (fun c => length c = 512%nat) cs -> off + 512 * Z.of_nat (length cs) < 2 ^ 64 ->
  let s' := MkShadow (shadow_write o cs off) f in
  shadow_wf s' /\ forall x, 0 <= x -> shadow_disk s' x =
    if (off <=? x) && (x <? off + 512 * Z.of_nat (length cs)) then nth (Z.to_nat (x - off)) (concat cs) 0
    else shadow_disk (MkShadow o f) x.
Proof.
  induction cs as [|c cs IH]; intros o f off Hw Ho Hp Hc H64; cbv zeta; cbn [shadow_write length concat].
  { split; [exact Hw|]. intros x Hx. destruct (Z.leb_spec off x), (Z.ltb_spec x (off + 512 * Z.of_nat 0)); try reflexivity. lia. }
  inversion Hc as [|? ? Hl Hc']; subst. cbn [length] in H64.
  assert (u64 (off + 512) = off + 512) as -> by (apply wrap_id; unfold in_u; lia).
  destruct (IH (<[off := c]> o) f (off + 512)) as [Hw' Hd]; try lia; [| |exact Hc'|].
  - intros k v. cbn [overlay]. rewrite lookup_insert. destruct (decide (off = k)) as [<-|N]; [|apply Hw]. intros E. injection E as <-. auto.
  - rewrite Z.add_comm, (Z.add_mod 512 off 512), Ho by lia. reflexivity.
  - split; [exact Hw'|]. intros x Hx. rewrite Hd by exact Hx. unfold shadow_disk. cbn [overlay block].
    assert (Hsec : x / 512 * 512 = off <-> off <= x < off + 512).
    { pose proof (Z.div_mod off 512). pose proof (Z.div_mod x 512). pose proof (Z.mod_pos_bound x 512). split; [lia|].
      intros Hr. destruct (sector_of off (x - off) Ho ltac:(lia)) as [E _]. rewrite Z.add_sub_assoc, Z.add_simpl_l in E. exact E. }
    rewrite lookup_insert. destruct (decide (off = x / 512 * 512)) as [E|N].
    + assert (Hr : off <= x < off + 512) by (apply Hsec; symmetry; exact E).
      destruct (sector_of off (x - off) Ho ltac:(lia)) as [_ Em]. rewrite Z.add_sub_assoc, Z.add_simpl_l in Em.
      rewrite app_nth1 by lia. rewrite Em.
      destruct (Z.leb_spec (off + 512) x), (Z.leb_spec off x), (Z.ltb_spec x (off + 512 * Z.of_nat (S (length cs)))); try lia.
      reflexivity.
    + assert (Hr : ~ (off <= x < off + 512)) by (rewrite <- Hsec; congruence).
      destruct (Z.leb_spec (off + 512) x) as [A|A], (Z.leb_spec off x) as [B|B]; try lia; cbn [andb]; [|reflexivity].
      rewrite app_nth2 by lia. rewrite Hl. replace (Z.to_nat (x - off) - 512)%nat with (Z.to_nat (x - (off + 512))) by lia.
      replace (off + 512 + 512 * Z.of_nat (length cs)) with (off + 512 * Z.of_nat (S (length cs))) by lia. reflexivity.
Qed.

Lemma shadow_new_wf (f : F) : shadow_wf (shadow_new f).
Proof. intros k v. cbn [overlay shadow_new]. rewrite lookup_empty. discriminate. Qed.

Lemma shadow_read_whole (s : Shadow F) offset m : shadow_wf s -> offset mod 512 = 0 -> 0 <= offset ->
  offset + 512 * Z.of_nat m <= block_len s -> offset + 512 * Z.of_nat m < 2 ^ 64 ->
  read_exact_at s (512 * m) offset = Some (map (shadow_disk s) (span offset (512 * m))).
Proof.
  intros. cbn [read_exact_at shadow_block]. unfold chunk_lengths. rewrite chunk_lengths_mul by lia.
  apply shadow_read_ok; assumption.
Qed.

Lemma shadow_new_disk (f : F) x : shadow_disk (shadow_new f) x = disk f x.
Proof. unfold shadow_disk. cbn [overlay shadow_new block]. rewrite lookup_empty. reflexivity. Qed.

(** Bytes [offset ..] of a disk replaced by [l]. *)
Definition patch (dk : Z -> Z) (offset : Z) (l : list Z) (x : Z) : Z :=
  if (offset <=? x) && (x <? offset + Z.of_nat (length l)) then nth (Z.to_nat (x - offset)) l 0 else dk x.

(** C25. The shadow device is a disk of its own: a new one shows the device below, so that
    whole sectors read from it are those of that device; a write of whole sectors never reaches the
    device below, keeps every overlay entry one whole sector, and changes exactly the
    bytes written of the disk the shadow shows; and a read of whole sectors gives the
    bytes of that disk, a mix of written sectors and of the device below. *)
Theorem shadow_is_disk (s : Shadow F) offset m l : shadow_wf s -> offset mod 512 = 0 -> 0 <= offset ->
  offset + 512 * Z.of_nat m <= block_len s -> offset + 512 * Z.of_nat m < 2 ^ 64 -> length l = (512 * m)%nat ->
  (forall f, shadow_wf (shadow_new f) /\ block (shadow_new f) = f /\ block_len (shadow_new f) = block_len f /\
    (forall x, shadow_disk (shadow_new f) x = disk f x) /\
    (offset + 512 * Z.of_nat m <= block_len f ->
     read_exact_at (shadow_new f) (512 * m) offset = read_exact_at f (512 * m) offset)) /\
  read_exact_at s (512 * m) offset = Some (map (shadow_disk s) (span offset (512 * m))) /\
  exists s', write_all_at s l offset = Some s' /\ block s' = block s /\ shadow_wf s' /\
    forall x, 0 <= x -> shadow_disk s' x = patch (shadow_disk s) offset l x.
Proof.
  intros Hw Ho Hp Hb H64 Hl. split; [|split].
  - intros f. split; [apply shadow_new_wf|]. split; [reflexivity|]. split; [reflexivity|].
    split; [apply shadow_new_disk|]. intros Hf. rewrite (shadow_read_whole (shadow_new f)) by (assumption || apply shadow_new_wf).
    rewrite read_disk by lia. reflexivity.
  - apply shadow_read_whole; assumption.
  - destruct s as [o f]. eexists. split; [reflexivity|]. cbn [block overlay]. split; [reflexivity|].
    destruct (chunks_mul m (length l) l Hl ltac:(lia)) as (C1 & C2 & C3).
    destruct (shadow_write_ok (chunks l) o f offset Hw Ho Hp C1 ltac:(unfold chunks; rewrite C3; lia)) as [W1 W2].
    split; [exact W1|]. intros x Hx. rewrite (W2 x Hx). unfold patch, chunks. rewrite C2, C3, Hl.
    replace (512 * Z.of_nat m) with (Z.of_nat (512 * m)) by lia. reflexivity.
Qed.
End Shadow.

(** ** Requests *)

(** A buffer as [try_take] makes it, of descriptors that are not empty and do not overlap. *)
Record buffer_ok (b : Buffer) : Prop := {
  bo_read : read_len b = total (read b);
  bo_write : write_len b = total (write b);
  bo_written : bytes_written b = 0%nat;
  bo_fits : fits (read b) /\ fits (write b);
  bo_nonempty : nonempty (read b) /\ nonempty (write b);
  bo_disjoint : NoDup (flat (write b));
}.

Section Request.
Context {D : Type} {DC : DmaContext D} {DL : DmaLaws D} {F : Type} {BF : BlockDevice F}.

(** The bytes the driver sends. *)
Definition sent (d : D) (b : Buffer) : list Z := map (byte_at d) (flat (read b)).

Lemma sent_length d b : length (sent d b) = total (read b).
Proof. unfold sent. rewrite length_map. apply flat_length. Qed.

Lemma read_header (d : D) b : buffer_ok b ->
  if (16 <=? read_len b)%nat
  then exists c, read_exact d 16 (reader b) = Some (take 16 (sent d b), c) /\ at_position c /\ buffer c = read b /\ pos c = 16%nat
  else read_exact d 16 (reader b) = None.
Proof.
  intros [Hr _ _ [Hf _] [Hn _] _]. pose proof (read_exact_rounds_ok d 16 16 (reader b) (start_position _ _ Hn) Hf Hn ltac:(lia)) as H.
  cbn [pos reader buffer] in H. rewrite Hr. unfold read_exact. cbn [Nat.add] in H.
  destruct (16 <=? total (read b))%nat; [|exact H].
  destruct H as (c & E & Hp & Hb & _ & Hc). exists c. split; [exact E|]. auto.
Qed.

Lemma read_payload (d : D) b c : buffer_ok b -> (16 <= read_len b)%nat -> at_position c -> buffer c = read b -> pos c = 16%nat ->
  exists c', read_exact d (read_len b - 16) c = Some (drop 16 (sent d b), c').
Proof.
  intros [Hr _ _ [Hf _] [Hn _] _] H16 Hp Hb Hc.
  pose proof (read_exact_rounds_ok d (read_len b - 16) (read_len b - 16) c Hp ltac:(rewrite Hb; exact Hf) ltac:(rewrite Hb; exact Hn) ltac:(lia)) as H.
  rewrite Hb, Hc in H. replace (16 + (read_len b - 16))%nat with (total (read b)) in H by lia. rewrite Nat.leb_refl in H.
  destruct H as (c' & E & _). exists c'. unfold read_exact. rewrite E. f_equal. f_equal.
  unfold remaining, sent. rewrite Hb, Hc, skipn_map. apply take_ge. rewrite length_map, length_drop, flat_length. lia.
Qed.

(** A reply that fits is written from the start of the buffer. *)
Lemma reply_ok (d : D) (f : F) b l : buffer_ok b -> Forall (in_u 8) l -> l <> [] -> (length l <= write_len b)%nat ->
  exists d', reply d f b l = Served d' f (length l) true /\ updated d d' (take (length l) (flat (write b))) l.
Proof.
  intros [_ Hr H0 [_ Hf] [_ Hn] Hd] Hl Hne Hlen.
  pose proof (write_all_rounds_ok (length l) d l (writer b) 0 (start_position _ _ Hn) Hf Hn Hd Hl ltac:(lia)) as H.
  cbn [pos writer buffer] in H. cbn [Nat.add] in H. rewrite <- Hr in H.
  destruct (Nat.leb_spec (length l) (write_len b)) as [L|L]; [|lia].
  destruct H as (d' & c' & E & Hu & _). exists d'. unfold reply, write_all. rewrite H0, E. split; [|exact Hu].
  destruct l; [contradiction|]. rewrite Nat.max_0_r. reflexivity.
Qed.

Definition offset_of (h : VirtioBlkReqHeader) : Z := u64 (sector h * 512).

(** C30. What a block request does, by its type.  A read fills the whole of the writable
    part with the sectors asked for and a zero status byte and leaves the disk; a write
    stores what follows the header on the disk, flushes it, and only then writes the
    status byte; both report the bytes written and send the interrupt.  A request for the
    identifier is answered with zeros.  A request of another type is returned with nothing
    written, no status and no interrupt; one shorter than the header stops the device. *)
Theorem virtio_block_request (d : D) (f : F) b : buffer_ok b ->
  let h := header_of_bytes (take 16 (sent d b)) in
  ((read_len b < 16)%nat -> blk_request d f b = Panicked) /\
  ((16 <= read_len b)%nat ->
    (forall n data, type_ h = VIRTIO_BLK_T_IN -> write_len b = S n -> read_exact_at f n (offset_of h) = Some data ->
       length data = n -> Forall (in_u 8) data ->
       exists d', blk_request d f b = Served d' f (S n) true /\ updated d d' (flat (write b)) (data ++ [0])) /\
    (forall f1 f2, type_ h = VIRTIO_BLK_T_OUT -> (0 < write_len b)%nat ->
       write_all_at f (drop 16 (sent d b)) (offset_of h) = Some f1 -> flush f1 = Some f2 ->
       exists d', blk_request d f b = Served d' f2 1 true /\ updated d d' (take 1 (flat (write b))) [0]) /\
    (type_ h = VIRTIO_BLK_T_GET_ID -> (0 < write_len b)%nat ->
       exists d', blk_request d f b = Served d' f (write_len b) true /\ updated d d' (flat (write b)) (repeat 0 (write_len b))) /\
    (type_ h ∉ [VIRTIO_BLK_T_IN; VIRTIO_BLK_T_OUT; VIRTIO_BLK_T_GET_ID] -> blk_request d f b = Served d f 0 false)).
Proof.
  intros Hb h. pose proof (read_header d b Hb) as Hh.
  assert (Hall : forall n, n = write_len b -> take n (flat (write b)) = flat (write b)).
  { intros n ->. apply take_ge. rewrite flat_length, (bo_write _ Hb). lia. }
  split; intros H16.
  - rewrite (proj2 (Nat.leb_gt 16 (read_len b)) H16) in Hh. unfold blk_request. rewrite Hh. reflexivity.
  - rewrite (proj2 (Nat.leb_le 16 (read_len b)) H16) in Hh. destruct Hh as (c & E & Hp & Hbuf & Hc).
    unfold blk_request. rewrite E. fold h. fold (offset_of h). repeat split.
    + intros n data -> Hn Hd Hl Hu8. rewrite Hn, Hd. cbn [Z.eqb].
      assert (Hlen : length (data ++ [0]) = S n) by (rewrite length_app; cbn; lia).
      destruct (reply_ok d f b (data ++ [0])) as (d' & Hr & Hu); [exact Hb| | |lia|].
      { apply Forall_app_2; [exact Hu8|]. repeat constructor; lia. }
      { destruct data; discriminate. }
      exists d'. rewrite Hlen in *. rewrite Hall in Hu by auto. split; [exact Hr|exact Hu].
    + intros f1 f2 -> Hw Hf1 Hf2. destruct (read_payload d b c Hb H16 Hp Hbuf Hc) as [c' ->]. rewrite Hf1. cbn [mbind option_bind]. rewrite Hf2.
      apply (reply_ok d f2 b [0]); [exact Hb|repeat constructor; lia|discriminate|cbn; lia].
    + intros -> Hw. destruct (reply_ok d f b (repeat 0 (write_len b))) as (d' & Hr & Hu);
        [exact Hb|apply Forall_forall; intros x Hx; apply list_elem_of_In, repeat_spec in Hx; subst; split; lia| |rewrite repeat_length; lia|].
      { destruct (write_len b); [lia|discriminate]. }
      exists d'. rewrite repeat_length in *. rewrite Hall in Hu by reflexivity. split; [exact Hr|exact Hu].
    + intros Hn. repeat (rewrite not_elem_of_cons in Hn). destruct Hn as (N1 & N2 & N3 & _).
      rewrite (proj2 (Z.eqb_neq _ _) N1), (proj2 (Z.eqb_neq _ _) N2), (proj2 (Z.eqb_neq _ _) N3), (bo_written _ Hb). reflexivity.
Qed.
End Request.

(** ** The devices at work *)

(** A disk in memory, in which a block device can be seen to satisfy its laws. *)
#[local] Instance ram_disk : BlockDevice (list Z) := {
  read_exact_at l n offset :=
    if offset + Z.of_nat n <=? Z.of_nat (length l) then Some (map (fun x => nth (Z.to_nat x) l 0) (span offset n)) else None;
  write_all_at l buf offset :=
    Some (firstn (Z.to_nat offset) l ++ buf ++ skipn (Z.to_nat offset + length buf) l);
  flush l := Some l;
  block_len l := Z.of_nat (length l);
}.

#[local] Instance ram_disk_laws : BlockLaws (list Z).
Proof.
  refine {| disk := fun l x => nth (Z.to_nat x) l 0 |}. intros l n offset Hp Hb. cbn [read_exact_at ram_disk block_len] in *.
  rewrite (proj2 (Z.leb_le _ _) Hb). reflexivity.
Defined.

Lemma shadow_is_disk_witness : let s := shadow_new (repeat 7 1024) in
  read_exact_at s 512 512 = read_exact_at (repeat 7 1024) 512 512 /\
  read_exact_at s 512 512 = Some (map (shadow_disk s) (span 512 512)) /\
  exists s', write_all_at s (repeat 1 512) 512 = Some s' /\ block s' = block s /\ shadow_wf s' /\
    forall x, 0 <= x -> shadow_disk s' x = patch (shadow_disk s) 512 (repeat 1 512) x.
Proof.
  destruct (shadow_is_disk (shadow_new (repeat 7 1024)) 512 1 (repeat 1 512)) as (H & H');
    [apply shadow_new_wf|reflexivity|lia|vm_compute; discriminate|reflexivity|reflexivity|].
  split; [apply (H (repeat 7 1024)); vm_compute; discriminate|exact H'].
Defined.

(** A request to write 512 bytes to sector 1. *)
Definition out_memory : GuestMemory := fun a => if (a =? 0) || (a =? 8) then 1 else if a <? 16 then 0 else 5.
Definition out_buffer : Buffer := MkBuffer 3 0 [(0, 16%nat); (256, 512%nat)] [(4096, 1%nat)] 528 1.

Lemma out_buffer_ok : buffer_ok out_buffer.
Proof.
  split; try reflexivity; try (split; repeat constructor; cbn; lia).
  apply NoDup_singleton.
Qed.

Lemma virtio_block_request_witness :
  exists d', blk_request out_memory (repeat 7 1024) out_buffer = Served d' (repeat 7 512 ++ repeat 5 512) 1 true /\
    updated out_memory d' [4096] [0].
Proof.
  destruct (virtio_block_request out_memory (repeat 7 1024) out_buffer out_buffer_ok) as [_ H].
  destruct (H ltac:(cbn; lia)) as (_ & Ho & _). apply (Ho (repeat 7 512 ++ repeat 5 512)).
  - vm_compute. reflexivity.
  - vm_compute. reflexivity.
  - vm_compute. reflexivity.
  - vm_compute. reflexivity.
Defined.

#[export] Instance block_device_laws : DeviceLaws Block.
Proof. split; try reflexivity. intros s i. exists 15. split; [lia|reflexivity]. Qed.

(** The transport of a block device of one sector. *)
Definition mmio_block : Mmio Block := mmio_new (MkBlock 0 [1; 0; 0; 0; 0; 0; 0; 0] []).

Lemma mmio_invariant_witness : exists m', write_mut ADDR_QUEUE_NUM 256 4 mmio_block = Some m' /\ mmio_wf m'.
Proof.
  eexists. split; [reflexivity|].
  apply (mmio_invariant mmio_block _ ADDR_QUEUE_NUM 256 4); [apply mmio_new_wf|reflexivity].
Defined.

Lemma mmio_write_panics_witness : write_mut 0x3c 0 4 mmio_block = None.
Proof. apply mmio_write_panics; [apply mmio_new_wf|]. vm_compute. auto. Defined.

Lemma mmio_address_roundtrip_witness :
  exists m1 m2 r q, write_mut ADDR_QUEUE_DESC_LOW 0x80001000 4 mmio_block = Some m1 /\ write_mut ADDR_QUEUE_DESC_HIGH 1 4 m1 = Some m2 /\
    selected mmio_block = Some (r, q) /\ selected m2 = Some (r, set_desc_addr (0x80001000 + 1 * 2 ^ 32) q) /\
    read_mut ADDR_QUEUE_DESC_LOW 4 m2 = Some 0x80001000 /\ read_mut ADDR_QUEUE_DESC_HIGH 4 m2 = Some 1.
Proof. apply mmio_address_roundtrip; [apply mmio_new_wf|reflexivity|split; [lia|reflexivity]|split; [lia|reflexivity]]. Defined.

Lemma mmio_reset_witness : exists m', write_mut ADDR_STATUS 0 4 mmio_block = Some m' /\ mmio_wf m' /\ woken m' = [].
Proof. destruct (mmio_reset mmio_block (mmio_new_wf _)) as (m' & E & Hw & _ & _ & _ & _ & Hk). exists m'. auto. Defined.
