(* ===== verification/VirtioDevices.v ===== *)
(** The other virtio devices (lib/io/src/hw/virtio): the entropy source (rng.rs), the
    network card (network.rs), the console (console.rs) and the file share (p9.rs).  Each
    has registers, an instance of [Device], and tasks; a round of a task is one iteration
    of its loop. *)

From Stdlib Require Import ZArith Lia Bool List.
From stdpp Require Import base list.
From S2P Require Import Prelude VirtioQueue VirtioMmio VirtioBlock P9 P9Handler.
Import ListNotations.
Local Open Scope Z_scope.
Local Open Scope rust_scope.

(** How a round ends: it is over, with what it hands to the back end, the interrupt sent or
    not; the task waits; the task returns; it panics; or it never leaves a chain. *)
Inductive Outcome (D X : Type) : Type :=
| Done (q : QueueInner) (d : D) (x : X) (irq : bool)
| Waiting (q : QueueInner)
| Returned
| Panicking
| Looping.
Arguments Done {D X}.
Arguments Waiting {D X}.
Arguments Returned {D X}.
Arguments Panicking {D X}.
Arguments Looping {D X}.

(** ** Tasks that can be aborted

    [rx_handle] is the task the device can abort, by its number; a receiver task has a
    queue and is alive until it is aborted. *)
Record Tasks_ : Type := MkTasks { rx_handle : option nat; rx_tasks : list (bool * nat); tx_tasks : list nat }.

Definition no_tasks : Tasks_ := MkTasks None [] [].

(** [self.rx_handle.take().map(|x| x.abort())] *)
Definition abort (t : Tasks_) : Tasks_ :=
  match rx_handle t with
  | None => t
  | Some i => MkTasks None (alter (fun x => (false, snd x)) i (rx_tasks t)) (tx_tasks t)
  end.

Definition spawn_rx (r : nat) (t : Tasks_) : Tasks_ :=
  MkTasks (Some (length (rx_tasks t))) (rx_tasks t ++ [(true, r)]) (tx_tasks t).
Definition spawn_tx (r : nat) (t : Tasks_) : Tasks_ := MkTasks (rx_handle t) (rx_tasks t) (tx_tasks t ++ [r]).

(** [queue_ready] of the devices with two queues *)
Definition start_queue (idx r : nat) (t : Tasks_) : Tasks_ :=
  if (idx =? 0)%nat then spawn_rx r (abort t) else spawn_tx r t.

(** ** The entropy source *)

Class Entropy (R : Type) : Type := { fill_bytes : R -> nat -> list Z * R }.

Record Rng : Type := MkRng { rng_status : Z; rng_tasks : list nat }.

#[export] Instance rng_device : Device Rng := {
  device_id _ := 4;
  device_feature _ := 0;
  driver_feature _ s := s;
  get_status := rng_status;
  set_status v s := MkRng v (rng_tasks s);
  config_space _ := [];
  num_queues _ := 1%nat;
  max_queue_len _ _ := 32768;
  reset s := MkRng 0 (rng_tasks s);
  queue_ready _ r s := MkRng (rng_status s) (rng_tasks s ++ [r]);
  interrupt_status _ := 1;
  interrupt_ack _ s := s;
}.

Section Rounds.
Context {D : Type} {DC : DmaContext D}.

(** A task that takes buffers: [f] is what it does with one. *)
Definition with_buffer {X} (fuel : nat) (q : QueueInner) (d : D) (f : QueueInner -> Buffer -> Outcome D X) : Outcome D X :=
  match poll_take fuel q d with
  | Pending q => Waiting q
  | Ready_ (Took q b) => f q b
  | Ready_ Running => Looping
  | Ready_ _ => Returned
  end.

(** [drop(buffer)] *)
Definition give_back {X} (q : QueueInner) (d : D) (b : Buffer) (w : nat) (x : X) : Outcome D X :=
  let '(q, d) := put q d (set_written w b) in Done q d x true.

(** [std::io::copy] of [limit] bytes, in pieces of at most 8 KiB *)
Fixpoint copy {R} `{Entropy R} (fuel limit : nat) (r : R) (d : D) (c : Cursor) (w : nat) : option (R * D * nat) :=
  match fuel, limit with
  | S fuel, S _ =>
      let (l, r) := fill_bytes r (Nat.min (Z.to_nat 8192) limit) in
      let? (d, c, w) := write_all d l c w in
      copy fuel (limit - length l) r d c w
  | _, _ => Some (r, d, w)
  end.

(** [Rng::start_task] *)
Definition rng_round {R} `{Entropy R} (fuel : nat) (q : QueueInner) (d : D) (r : R) : Outcome D R :=
  with_buffer fuel q d (fun q b =>
    match copy (write_len b) (write_len b) r d (writer b) (bytes_written b) with
    | None => Panicking
    | Some (r, d, w) => give_back q d b w r
    end).

(** ** The network card *)

Definition NET_HEADER : nat := 12.

(** The header of a packet received: zeros, and one buffer *)
Definition rx_header : list Z := [0; 0; 0; 0; 0; 0; 0; 0; 0; 0; 1; 0].

(** [Network::start_tx]: the packet goes to [send].  A length below the header's makes the
    length of the packet wrap around, and the allocation panics. *)
Definition network_tx (fuel : nat) (q : QueueInner) (d : D) : Outcome D (list Z) :=
  with_buffer fuel q d (fun q b =>
    if (read_len b <? NET_HEADER)%nat then Panicking
    else
      let packet_len := (read_len b - NET_HEADER)%nat in
      let c := seek (Start (Z.of_nat NET_HEADER)) (reader b) in
      match read_exact d packet_len c with
      | None => Panicking
      | Some (packet, _) => give_back q d b (bytes_written b) packet
      end).

(** [Network::start_rx], once [recv] has given [packet].  A packet that does not fit ends
    the task; the buffer is returned with nothing written. *)
Inductive Received : Type :=
| Delivered (q : QueueInner) (d : D)
| Discarded
| Ended (q : QueueInner) (d : D)
| Failed
| Endless.

Definition network_rx (fuel : nat) (q : QueueInner) (d : D) (packet : list Z) : Received :=
  match try_take fuel q d with
  | QueueNotReady => Ended q d
  | Nothing => Discarded
  | Running => Endless
  | Took q b =>
      if (write_len b <? length rx_header + length packet)%nat
      then let '(q, d) := put q d b in Ended q d
      else
        match (let? (d, c, w) := write_all d rx_header (writer b) (bytes_written b) in write_all d packet c w) with
        | None => Failed
        | Some (d, _, w) => let '(q, d) := put q d (set_written w b) in Delivered q d
        end
  end.

(** ** The console *)

(** [Console::start_rx], once [read] has given [data] *)
Definition console_rx (fuel : nat) (q : QueueInner) (d : D) (data : list Z) : Received :=
  match try_take fuel q d with
  | Took q b =>
      match write_all d data (writer b) (bytes_written b) with
      | None => Failed
      | Some (d, _, w) => let '(q, d) := put q d (set_written w b) in Delivered q d
      end
  | Running => Endless
  | _ => Discarded
  end.

(** [Console::start_tx]: the bytes go to [write]. *)
Definition console_tx (fuel : nat) (q : QueueInner) (d : D) : Outcome D (list Z) :=
  with_buffer fuel q d (fun q b =>
    match read_exact d (read_len b) (reader b) with
    | None => Panicking
    | Some (l, _) => give_back q d b (bytes_written b) l
    end).

(** ** The file share *)

Context {FS File : Type} `{P9Handler.FileSystem FS File}.

(** [P9::start_task].  Messages are decoded from the bytes the reader has left and encoded
    to the writer at once. *)
Definition p9_round (fuel : nat) (q : QueueInner) (d : D) (s : @P9Handler.State FS File) :
    Outcome D (@P9Handler.State FS File) :=
  with_buffer fuel q d (fun q b =>
    let rd := seek (Start 4) (reader b) in
    match read_exact d (read_len b - 4) rd with
    | None => Panicking
    | Some (bytes, _) =>
        match P9.decode_message bytes with
        | P9.Ok (tag, fcall) _ =>
            match (let? (s, resp) := P9Handler.handle_fcall s fcall in
                   let? body := P9.encode_message (tag, resp) in
                   let? (d, wr, w) := write_all d body (seek (Start 4) (writer b)) (bytes_written b) in
                   let size := pos (seek (Current 0) wr) in
                   let? (d, _, w) := write_all d (to_le_bytes 4 (u32 (Z.of_nat size))) (seek (Start 0) (seek (Current 0) wr)) w in
                   Some (s, d, w)) with
            | None => Panicking
            | Some (s, d, w) => give_back q d b w s
            end
        | _ => Panicking
        end
    end).

End Rounds.
Arguments Received : clear implicits.

(** ** Registers *)

Record Network : Type := MkNetwork { net_status : Z; mac : list Z; net_tasks : Tasks_ }.

Definition network_new (mac : list Z) : Network := MkNetwork 0 mac no_tasks.

#[export] Instance network_device : Device Network := {
  device_id _ := 1;
  device_feature _ := 1 << 5;
  driver_feature _ s := s;
  get_status := net_status;
  set_status v s := MkNetwork v (mac s) (net_tasks s);
  config_space := mac;
  num_queues _ := 2%nat;
  max_queue_len _ _ := 32768;
  reset s := MkNetwork 0 (mac s) (abort (net_tasks s));
  queue_ready idx r s := MkNetwork (net_status s) (mac s) (start_queue idx r (net_tasks s));
  interrupt_status _ := 1;
  interrupt_ack _ s := s;
}.

Definition size_to_config (col row : Z) : list Z := to_le_bytes 2 col ++ to_le_bytes 2 row.

(** [console_config] is the configuration and whether it has changed; [resizing] is the
    task that waits for changes of size. *)
Record Console : Type := MkConsole {
  con_status : Z; resize : bool; resizing : bool; console_config : list Z * bool; con_tasks : Tasks_ }.

(** [Console::new]; [size] is what the back end says its size is. *)
Definition console_new (size : option (Z * Z)) (resize : bool) : Console :=
  let '(col, row, resize) :=
    if resize then match size with Some (col, row) => (col, row, true) | None => (0, 0, false) end else (0, 0, false) in
  MkConsole 0 resize resize (size_to_config col row, resize) no_tasks.

(** [Console::start_resize], one round *)
Definition console_resized (col row : Z) (s : Console) : Console :=
  MkConsole (con_status s) (resize s) (resizing s) (size_to_config col row, true) (con_tasks s).

#[export] Instance console_device : Device Console := {
  device_id _ := 3;
  device_feature s := if resize s then 1 << 0 else 0;
  driver_feature _ s := s;
  get_status := con_status;
  set_status v s := MkConsole v (resize s) (resizing s) (console_config s) (con_tasks s);
  config_space s := fst (console_config s);
  num_queues _ := 2%nat;
  max_queue_len _ idx := if (idx =? 0)%nat then 128 else 32768;
  reset s := MkConsole 0 (resize s) (resizing s) (console_config s) (abort (con_tasks s));
  queue_ready idx r s := MkConsole (con_status s) (resize s) (resizing s) (console_config s) (start_queue idx r (con_tasks s));
  interrupt_status s := if snd (console_config s) then 3 else 1;
  interrupt_ack ack s :=
    if (ack .& 2) <>? 0 then MkConsole (con_status s) (resize s) (resizing s) (fst (console_config s), false) (con_tasks s) else s;
}.

Record P9Device : Type := MkP9Device { p9_status : Z; p9_config : list Z; p9_tasks : list nat }.

(** [P9::new]; [None] is the failed assertion. *)
Definition p9_new (mount_tag : list Z) : option P9Device :=
  let tag_len := Z.of_nat (length mount_tag) in
  if tag_len <=? 65535 then Some (MkP9Device 0 (u8 tag_len :: u8 (tag_len >> 8) :: mount_tag) []) else None.

#[export] Instance p9_device : Device P9Device := {
  device_id _ := 9;
  device_feature _ := 1;
  driver_feature _ s := s;
  get_status := p9_status;
  set_status v s := MkP9Device v (p9_config s) (p9_tasks s);
  config_space := p9_config;
  num_queues _ := 1%nat;
  max_queue_len _ _ := 32768;
  reset s := MkP9Device 0 (p9_config s) (p9_tasks s);
  queue_ready _ r s := MkP9Device (p9_status s) (p9_config s) (p9_tasks s ++ [r]);
  interrupt_status _ := 1;
  interrupt_ack _ s := s;
}.
