(* ===== verification/VirtioDevicesProps.v ===== *)
(** The virtio devices move exactly the bytes the driver asks for, and a device has one
    receiver task at most. *)

From Stdlib Require Import ZArith Lia Bool List.
From stdpp Require Import base list.
From S2P Require Import Prelude VirtioQueue VirtioQueueProps VirtioMmio VirtioMmioProps VirtioBlock VirtioBlockProps.
From S2P Require Import P9 P9Handler P9HandlerProps VirtioDevices.
Import ListNotations.
Local Open Scope Z_scope.
Local Open Scope rust_scope.

(** ** Receiver tasks *)

(** The task the handle names is alive and the only one. *)
Record tasks_ok (t : Tasks_) : Prop := {
  to_one : forall i r, rx_tasks t !! i = Some (true, r) -> rx_handle t = Some i;
  to_live : forall i, rx_handle t = Some i -> exists r, rx_tasks t !! i = Some (true, r);
}.

Lemma no_tasks_ok : tasks_ok no_tasks.
Proof. split; intros i; [intros r|]; cbn; discriminate. Qed.

Lemma abort_ok t : tasks_ok t -> tasks_ok (abort t) /\ rx_handle (abort t) = None.
Proof.
  intros [H1 H2]. unfold abort. destruct (rx_handle t) as [i|] eqn:E; [|split; [split; rewrite E; [exact H1|exact H2]|exact E]].
  split; [|reflexivity]. split; cbn [rx_handle rx_tasks]; [|discriminate]. intros j r Hj. exfalso.
  destruct (decide (i = j)) as [<-|N].
  - rewrite list_lookup_alter_eq in Hj. destruct (rx_tasks t !! i); discriminate.
  - rewrite list_lookup_alter_ne in Hj by exact N. apply H1 in Hj. congruence.
Qed.

Lemma spawn_rx_ok r t : tasks_ok t -> rx_handle t = None -> tasks_ok (spawn_rx r t).
Proof.
  intros [H1 _] Hn. split; cbn [rx_handle rx_tasks spawn_rx].
  - intros i r' Hi. apply lookup_snoc_Some in Hi as [[_ Hi]|[<- _]]; [|reflexivity]. apply H1 in Hi. congruence.
  - intros i E. injection E as <-. exists r. apply list_lookup_middle. reflexivity.
Qed.

Lemma start_queue_ok idx r t : tasks_ok t -> tasks_ok (start_queue idx r t).
Proof.
  intros Ht. unfold start_queue. destruct (idx =? 0)%nat; [|destruct Ht; split; auto].
  destruct (abort_ok t Ht). apply spawn_rx_ok; assumption.
Qed.

(** The calls the transport makes on a device. *)
Inductive Call : Type :=
| DriverFeature (v : Z) | SetStatus (v : Z) | Reset | QueueReady (idx r : nat) | InterruptAck (v : Z).

Definition apply_call {S} `{Device S} (s : S) (c : Call) : S :=
  match c with
  | DriverFeature v => driver_feature v s
  | SetStatus v => set_status v s
  | Reset => reset s
  | QueueReady idx r => queue_ready idx r s
  | InterruptAck v => interrupt_ack v s
  end.

(** A device with receiver tasks. *)
Class HasTasks (S : Type) {H : Device S} : Type := {
  tasks_of : S -> Tasks_;
  tasks_feature v s : tasks_of (driver_feature v s) = tasks_of s;
  tasks_status v s : tasks_of (set_status v s) = tasks_of s;
  tasks_ack v s : tasks_of (interrupt_ack v s) = tasks_of s;
  tasks_reset s : tasks_of (reset s) = abort (tasks_of s);
  tasks_ready idx r s : tasks_of (queue_ready idx r s) = start_queue idx r (tasks_of s);
}.

#[export] Instance network_tasks : HasTasks Network.
Proof. refine {| tasks_of := net_tasks |}; reflexivity. Defined.

#[export] Instance console_tasks : HasTasks Console.
Proof. refine {| tasks_of := con_tasks |}; try reflexivity. intros v s. cbn [interrupt_ack console_device]. destruct (_ <>? 0); reflexivity. Defined.

Section Receivers.
Context {S : Type} {DS : Device S} {HT : HasTasks S}.

Lemma call_ok (s : S) c : tasks_ok (tasks_of s) -> tasks_ok (tasks_of (apply_call s c)).
Proof.
  intros Hs. destruct c; cbn [apply_call]; rewrite ?tasks_feature, ?tasks_status, ?tasks_ack, ?tasks_reset, ?tasks_ready; auto.
  - apply abort_ok, Hs.
  - apply start_queue_ok, Hs.
Qed.

(** Whatever the driver does with a network card or a console, at most one receiver task
    is alive, it is the one the device can abort, and none is after a reset: two tasks
    never take buffers of a receive queue, and a reset stops the one there is. *)
Theorem one_receiver (s : S) cs : tasks_ok (tasks_of s) ->
  let t := tasks_of (fold_left apply_call cs s) in
  (forall i j r1 r2, rx_tasks t !! i = Some (true, r1) -> rx_tasks t !! j = Some (true, r2) -> i = j /\ rx_handle t = Some i) /\
  (forall i r, rx_tasks (tasks_of (apply_call (fold_left apply_call cs s) Reset)) !! i <> Some (true, r)).
Proof.
  intros Hs. assert (H : tasks_ok (tasks_of (fold_left apply_call cs s))).
  { revert s Hs. induction cs as [|c cs IH]; intros s Hs; [exact Hs|]. apply IH, call_ok, Hs. }
  split.
  - intros i j r1 r2 Hi Hj. apply (to_one _ H) in Hi, Hj. split; congruence.
  - intros i r. cbn [apply_call]. rewrite tasks_reset. destruct (abort_ok _ H) as [Ha Hn]. intros Hi. apply (to_one _ Ha) in Hi. congruence.
Qed.
End Receivers.

Lemma one_receiver_witness : let s := network_new [2; 0; 0; 0; 0; 1] in
  let t := tasks_of (fold_left apply_call [QueueReady 0 0; QueueReady 1 1; QueueReady 0 0] s) in
  rx_tasks t = [(false, 0%nat); (true, 0%nat)] /\
  (forall i j r1 r2, rx_tasks t !! i = Some (true, r1) -> rx_tasks t !! j = Some (true, r2) -> i = j /\ rx_handle t = Some i).
Proof.
  split; [reflexivity|]. apply (one_receiver (network_new [2; 0; 0; 0; 0; 1]) [QueueReady 0 0; QueueReady 1 1; QueueReady 0 0]).
  apply no_tasks_ok.
Defined.

(** ** Laws of the devices *)

#[export] Instance rng_laws : DeviceLaws Rng.
Proof. split; try reflexivity. intros s i. exists 15. split; [lia|reflexivity]. Qed.
#[export] Instance network_laws : DeviceLaws Network.
Proof. split; try reflexivity. intros s i. exists 15. split; [lia|reflexivity]. Qed.
#[export] Instance p9_laws : DeviceLaws P9Device.
Proof. split; try reflexivity. intros s i. exists 15. split; [lia|reflexivity]. Qed.
#[export] Instance console_laws : DeviceLaws Console.
Proof.
  split; try reflexivity. intros s i. cbn [max_queue_len console_device]. destruct (i =? 0)%nat.
  - exists 7. split; [lia|reflexivity].
  - exists 15. split; [lia|reflexivity].
Qed.

(** ** Rounds *)

Section Rounds.
Context {D : Type} {DC : DmaContext D} {DL : DmaLaws D}.

Lemma with_buffer_took {X} fuel q (d : D) (f : QueueInner -> Buffer -> Outcome D X) q' b :
  try_take fuel q d = Took q' b -> with_buffer fuel q d f = f q' b.
Proof. intros E. unfold with_buffer, poll_take. rewrite E. reflexivity. Qed.

Lemma updated_swap (d d1 d2 : D) a1 b1 a2 b2 : updated d d1 a1 b1 -> updated d1 d2 a2 b2 -> length a2 = length b2 ->
  (forall x, x ∈ a1 -> x ∉ a2) -> updated d d2 (a2 ++ a1) (b2 ++ b1).
Proof.
  intros [U1 V1] [U2 V2] Hl Hd. split.
  - intros i x Hi. apply lookup_app_Some in Hi as [Hi|[Hge Hi]].
    + rewrite app_nth1 by (rewrite <- Hl; eapply lookup_lt_Some; eauto). apply U2, Hi.
    + rewrite app_nth2 by lia. rewrite <- Hl. rewrite V2 by (eapply Hd, list_elem_of_lookup_2, Hi). apply U1, Hi.
  - intros x Hx. apply not_elem_of_app in Hx as [N2 N1]. rewrite V2, V1 by assumption. reflexivity.
Qed.

(** *** The entropy source *)

(** [n] bytes drawn from the generator in pieces. *)
Inductive draws {R} `{Entropy R} : R -> nat -> list Z -> R -> Prop :=
| draws_none r : draws r 0 [] r
| draws_more r k l r1 n l' r2 : fill_bytes r k = (l, r1) -> draws r1 n l' r2 -> draws r (k + n) (l ++ l') r2.

Class EntropyLaws (R : Type) {H : Entropy R} : Prop := {
  fill_length r n : length (fst (fill_bytes r n)) = n;
  fill_range r n : Forall (in_u 8) (fst (fill_bytes r n));
}.

Lemma copy_ok {R} {ER : Entropy R} {EL : EntropyLaws R} : forall fuel limit (r : R) (d : D) c w,
  at_position c -> fits (buffer c) -> nonempty (buffer c) -> NoDup (flat (buffer c)) ->
  (limit <= fuel)%nat -> (pos c + limit <= total (buffer c))%nat -> (w <= pos c)%nat ->
  exists r' d' l, copy fuel limit r d c w = Some (r', d', match limit with O => w | _ => pos c + limit end)%nat /\
    draws r limit l r' /\ length l = limit /\ Forall (in_u 8) l /\ updated d d' (window (buffer c) (pos c) limit) l.
Proof.
  assert (Hz : forall (r : R) (d : D) c w fuel, exists r' d' l, copy fuel 0 r d c w = Some (r', d', w) /\
    draws r 0 l r' /\ length l = 0%nat /\ Forall (in_u 8) l /\ updated d d' (window (buffer c) (pos c) 0) l).
  { intros r d c w fuel. exists r, d, []. split; [destruct fuel; reflexivity|]. split; [constructor|]. split; [reflexivity|].
    split; [constructor|]. apply updated_nil. }
  induction fuel as [|fuel IH]; intros limit r d c w Hc Hf Hn Hd Hle Hfit Hw.
  { assert (limit = 0)%nat as -> by lia. apply Hz. }
  destruct limit as [|limit].
  { apply Hz. }
  cbn [copy]. set (n := Nat.min (Z.to_nat 8192) (S limit)). assert (Hn0 : (0 < n <= S limit)%nat) by lia.
  pose proof (fill_length r n) as Hl. pose proof (fill_range r n) as Hr. destruct (fill_bytes r n) as [l r1] eqn:El. cbn [fst] in Hl, Hr.
  pose proof (write_all_rounds_ok (length l) d l c w Hc Hf Hn Hd Hr ltac:(lia)) as H. rewrite Hl in H.
  destruct (Nat.leb_spec (pos c + n) (total (buffer c))) as [L|L]; [|lia].
  destruct H as (d1 & c1 & E1 & U1 & Hc1 & Eb & _ & Ep). unfold write_all. rewrite Hl, E1.
  cbn [mbind option_bind]. destruct l as [|b0 l0] eqn:El0; [cbn in Hl; lia|]. rewrite <- El0 in *.
  destruct (IH (S limit - n)%nat r1 d1 c1 (Nat.max (pos c + n) w)) as (r' & d' & l' & E2 & D2 & L2 & R2 & U2);
    [exact Hc1|rewrite Eb; exact Hf|rewrite Eb; exact Hn|rewrite Eb; exact Hd|lia|rewrite Eb; lia|lia|].
  exists r', d', (l ++ l'). rewrite E2, Ep. split.
  { f_equal. f_equal. destruct (S limit - n)%nat eqn:Es; lia. }
  rewrite Eb, Ep in U2. split; [|split; [|split]].
  - replace (S limit) with (n + (S limit - n))%nat by lia. eapply draws_more; eauto.
  - rewrite length_app. lia.
  - apply Forall_app_2; assumption.
  - replace (S limit) with (n + (S limit - n))%nat by lia. rewrite window_app.
    eapply updated_app; [exact U1|exact U2| |].
    + unfold window. rewrite length_take, length_drop, flat_length. lia.
    + intros x Hx. apply (NoDup_app_disjoint (window (buffer c) (pos c) n)); [|exact Hx]. rewrite <- window_app. apply window_NoDup, Hd.
Qed.

(** A request for entropy fills the whole of the buffer with bytes of the generator. *)
Theorem rng_fills {R} {ER : Entropy R} {EL : EntropyLaws R} fuel q (d : D) (r : R) q' b :
  try_take fuel q d = Took q' b -> buffer_ok b ->
  exists r' d' l, draws r (write_len b) l r' /\ updated d d' (flat (write b)) l /\
    rng_round fuel q d r = let '(q2, d2) := put q' d' (set_written (write_len b) b) in Done q2 d2 r' true.
Proof.
  intros Et [_ Hl Hw [_ Hf] [_ Hn] Hd].
  destruct (copy_ok (write_len b) (write_len b) r d (writer b) (bytes_written b)) as (r' & d' & l & E & Hdr & _ & _ & Hu);
    [apply start_position, Hn|exact Hf|exact Hn|exact Hd|lia|cbn [pos writer buffer]; lia|rewrite Hw; cbn [pos writer]; lia|].
  exists r', d', l. split; [exact Hdr|]. cbn [buffer writer pos] in *. unfold window in Hu. rewrite drop_0, take_ge in Hu by (rewrite flat_length; lia).
  split; [exact Hu|]. unfold rng_round. rewrite (with_buffer_took _ _ _ _ _ _ Et), E. unfold give_back. rewrite Hw.
  destruct (write_len b); reflexivity.
Qed.

(** *** The network card *)

(** The bytes from a position on. *)
Lemma read_from (d : D) b k : buffer_ok b -> (k <= read_len b)%nat -> Z.of_nat k < 2 ^ 64 ->
  exists c', read_exact d (read_len b - k) (seek (Start (Z.of_nat k)) (reader b)) = Some (drop k (sent d b), c').
Proof.
  intros [Hr _ _ [Hf _] [Hn _] _] Hk H64.
  destruct (seek_start_position (reader b) k (start_position _ _ Hn) ltac:(cbn [buffer reader]; lia) H64) as (Hp & Hb & Hc & _).
  cbn [buffer reader] in Hb. set (c := seek _ _) in *.
  pose proof (read_exact_rounds_ok d (read_len b - k) (read_len b - k) c Hp ltac:(rewrite Hb; exact Hf) ltac:(rewrite Hb; exact Hn) ltac:(lia)) as H.
  rewrite Hb, Hc in H. replace (k + (read_len b - k))%nat with (total (read b)) in H by lia. rewrite Nat.leb_refl in H.
  destruct H as (c' & E & _). exists c'. unfold read_exact. rewrite E. f_equal. f_equal.
  unfold remaining, sent. rewrite Hb, Hc, skipn_map. apply take_ge. rewrite length_map, length_drop, flat_length. lia.
Qed.

(** Two writes one after the other. *)
Lemma write_two (d : D) b l1 l2 : buffer_ok b -> Forall (in_u 8) l1 -> Forall (in_u 8) l2 -> l1 <> [] ->
  (length l1 + length l2 <= write_len b)%nat ->
  exists d' c', (let? (d, c, w) := write_all d l1 (writer b) (bytes_written b) in write_all d l2 c w) =
      Some (d', c', length l1 + length l2)%nat /\
    updated d d' (take (length l1 + length l2) (flat (write b))) (l1 ++ l2).
Proof.
  intros [_ Hl Hw [_ Hf] [_ Hn] Hd] H1 H2 Hne Hlen.
  pose proof (write_all_rounds_ok (length l1) d l1 (writer b) 0 (start_position _ _ Hn) Hf Hn Hd H1 ltac:(lia)) as E1.
  cbn [pos writer buffer] in E1. cbn [Nat.add] in E1. destruct (Nat.leb_spec (length l1) (total (write b))); [|lia].
  destruct E1 as (d1 & c1 & E1 & U1 & Hc1 & Eb & _ & Ep). rewrite Hw. unfold write_all. rewrite E1. cbn [mbind option_bind].
  destruct l1 as [|x l1]; [contradiction|]. set (l := x :: l1) in *. rewrite Nat.max_0_r.
  pose proof (write_all_rounds_ok (length l2) d1 l2 c1 (length l) Hc1 ltac:(rewrite Eb; exact Hf) ltac:(rewrite Eb; exact Hn)
    ltac:(rewrite Eb; exact Hd) H2 ltac:(lia)) as E2. rewrite Eb, Ep in E2.
  destruct (Nat.leb_spec (length l + length l2) (total (write b))); [|lia].
  destruct E2 as (d2 & c2 & E2 & U2 & _). exists d2, c2. rewrite E2. split.
  { f_equal. f_equal. destruct l2; cbn [length]; lia. }
  replace (take (length l + length l2) (flat (write b))) with (window (write b) 0 (length l + length l2)) by reflexivity.
  rewrite window_app. eapply updated_app; [exact U1|exact U2| |].
  - unfold window. rewrite length_take, length_drop, flat_length. lia.
  - intros y Hy. apply (NoDup_app_disjoint (window (write b) 0 (length l))); [|exact Hy]. rewrite <- window_app. apply window_NoDup, Hd.
Qed.

(** C31. The network card: a buffer sent is the header and the packet, of which exactly the
    packet goes to the back end, and one shorter than the header panics; a packet received
    is stored after a header of its own at the start of the buffer, with the length of
    both reported, and one that does not fit ends the task that receives, for good. *)
Theorem network_moves_packets fuel q (d : D) q' b packet : try_take fuel q d = Took q' b -> buffer_ok b ->
  Forall (in_u 8) packet ->
  (network_tx fuel q d =
     if (12 <=? read_len b)%nat then let '(q2, d2) := put q' d b in Done q2 d2 (drop 12 (sent d b)) true else Panicking) /\
  if (12 + length packet <=? write_len b)%nat
  then exists d', updated d d' (take (12 + length packet) (flat (write b))) (rx_header ++ packet) /\
    network_rx fuel q d packet =
      let '(q2, d2) := put q' d' (set_written (12 + length packet) b) in Delivered q2 d2
  else network_rx fuel q d packet = let '(q2, d2) := put q' d b in Ended q2 d2.
Proof.
  intros Et Hb Hp. pose proof (bo_written _ Hb) as H0. split.
  - unfold network_tx. rewrite (with_buffer_took _ _ _ _ _ _ Et). change NET_HEADER with 12%nat.
    destruct (Nat.ltb_spec (read_len b) 12), (Nat.leb_spec 12 (read_len b)); try lia; [reflexivity|].
    destruct (read_from d b 12 Hb ltac:(lia) ltac:(lia)) as [c' E]. rewrite E. unfold give_back, set_written. destruct b; reflexivity.
  - unfold network_rx. rewrite Et. change (length rx_header) with 12%nat.
    destruct (Nat.leb_spec (12 + length packet) (write_len b)), (Nat.ltb_spec (write_len b) (12 + length packet)); try lia; [|reflexivity].
    destruct (write_two d b rx_header packet Hb) as (d' & c' & E & U); [repeat constructor; lia|exact Hp|discriminate|exact H|].
    exists d'. split; [exact U|]. rewrite E. reflexivity.
Qed.

(** *** The file share *)

(** Whether a write fails does not depend on the bytes. *)
Lemma write_all_same_fate : forall fuel (d1 d2 : D) l1 l2 c w, length l1 = length l2 ->
  write_all_rounds fuel d1 l1 c w = None -> write_all_rounds fuel d2 l2 c w = None.
Proof.
  induction fuel as [|fuel IH]; intros d1 d2 l1 l2 c w Hl H.
  - destruct l1, l2; try discriminate. reflexivity.
  - destruct l1 as [|x1 l1], l2 as [|x2 l2]; try discriminate. cbn [write_all_rounds] in *. unfold cursor_write in *. rewrite <- Hl.
    destruct (advance (length (x1 :: l1)) c) as [[[a k] c']|]; [|reflexivity]. destruct (k =? 0)%nat; [reflexivity|].
    eapply IH; [|exact H]. rewrite !length_skipn, Hl. reflexivity.
Qed.

Lemma le_to_le : forall n v, P9.le n v = to_le_bytes n v.
Proof.
  induction n as [|n IH]; intros v; [reflexivity|]. cbn [P9.le to_le_bytes]. rewrite IH.
  rewrite Z.shiftr_div_pow2 by lia. reflexivity.
Qed.

Lemma seek_here c : Z.of_nat (pos c) < 2 ^ 64 -> seek (Current 0) c = c.
Proof.
  intros H. unfold seek. rewrite Z.add_0_r. unfold u64. rewrite wrap_id by (unfold in_u; lia). rewrite Nat2Z.id, Nat.eqb_refl. destruct c; reflexivity.
Qed.

Lemma to_le_range : forall n v, Forall (in_u 8) (to_le_bytes n v).
Proof.
  induction n as [|n IH]; intros v; constructor; [|apply IH]. pose proof (Z.mod_pos_bound v 256 ltac:(lia)). exact H.
Qed.

Lemma to_le_length : forall n v, length (to_le_bytes n v) = n.
Proof. induction n as [|n IH]; intros v; [reflexivity|]. cbn [to_le_bytes length]. rewrite IH. reflexivity. Qed.

(** A body written after room for its length, and then the length. *)
Lemma write_framed (d : D) b body : buffer_ok b -> (4 <= write_len b)%nat -> Z.of_nat (write_len b) < 2 ^ 64 ->
  let r := (let? (d, wr, w) := write_all d body (seek (Start 4) (writer b)) (bytes_written b) in
            let size := pos (seek (Current 0) wr) in
            let? (d, _, w) := write_all d (to_le_bytes 4 (u32 (Z.of_nat size))) (seek (Start 0) (seek (Current 0) wr)) w in
            Some (d, w)) in
  let size := (4 + length body)%nat in
  if (size <=? write_len b)%nat
  then Forall (in_u 8) body -> exists d', r = Some (d', size) /\
    updated d d' (take size (flat (write b))) (to_le_bytes 4 (u32 (Z.of_nat size)) ++ body)
  else r = None.
Proof.
  intros [_ Hl Hw [_ Hf] [_ Hn] Hd] H4 H64. cbv zeta. rewrite Hw.
  destruct (seek_start_position (writer b) 4 (start_position _ _ Hn) ltac:(cbn [buffer writer]; lia) ltac:(lia)) as (Hp & Hb & Hc & _).
  change (Z.of_nat 4) with 4 in *. set (c := seek (Start 4) (writer b)) in *. cbn [buffer writer] in Hb. unfold write_all.
  destruct (Nat.leb_spec (4 + length body) (write_len b)) as [L|L].
  - intros Hby.
    pose proof (write_all_rounds_ok (length body) d body c 0 Hp ltac:(rewrite Hb; exact Hf) ltac:(rewrite Hb; exact Hn)
      ltac:(rewrite Hb; exact Hd) Hby ltac:(lia)) as E1. rewrite Hb, Hc in E1.
    destruct (Nat.leb_spec (4 + length body) (total (write b))); [|lia].
    destruct E1 as (d1 & c1 & E1 & U1 & Hc1 & Eb & _ & Ep). rewrite E1. cbn [mbind option_bind].
    rewrite seek_here by lia. rewrite Ep. set (sz := to_le_bytes 4 _).
    assert (Hsz : length sz = 4%nat) by apply to_le_length.
    destruct (seek_start_position c1 0 Hc1 ltac:(lia) ltac:(lia)) as (Hp2 & Hb2 & Hc2 & _). change (Z.of_nat 0) with 0 in *.
    set (c2 := seek (Start 0) c1) in *. rewrite Eb in Hb2.
    set (w := match body with [] => 0%nat | _ => Nat.max (4 + length body) 0 end).
    pose proof (write_all_rounds_ok (length sz) d1 sz c2 w Hp2 ltac:(rewrite Hb2; exact Hf) ltac:(rewrite Hb2; exact Hn)
      ltac:(rewrite Hb2; exact Hd) (to_le_range 4 _) ltac:(lia)) as E2. rewrite Hb2, Hc2, Hsz in E2. cbn [Nat.add] in E2.
    destruct (Nat.leb_spec 4 (total (write b))); [|lia].
    destruct E2 as (d2 & c3 & E2 & U2 & _). exists d2. rewrite Hsz, E2. cbn [mbind option_bind]. split.
    { f_equal. f_equal. unfold w. destruct body; cbn [length sz to_le_bytes]; lia. }
    replace (take (4 + length body) (flat (write b))) with (window (write b) 0 (4 + length body)) by reflexivity. rewrite (window_app (write b) 0 4 (length body)).
    eapply updated_swap; [exact U1|exact U2| |].
    + unfold window. rewrite length_take, length_drop, flat_length. lia.
    + intros x Hx Hy. revert Hx. apply (NoDup_app_disjoint (window (write b) 0 4)); [|exact Hy]. rewrite <- window_app. apply window_NoDup, Hd.
  - pose proof (write_all_rounds_ok (length body) d (repeat 0 (length body)) c 0 Hp ltac:(rewrite Hb; exact Hf) ltac:(rewrite Hb; exact Hn)
      ltac:(rewrite Hb; exact Hd)) as E1. rewrite repeat_length, Hb, Hc in E1.
    destruct (Nat.leb_spec (4 + length body) (total (write b))); [lia|].
    rewrite (write_all_same_fate _ d d (repeat 0 (length body)) body); [reflexivity|apply repeat_length|].
    apply E1; [|lia]. apply Forall_forall. intros x Hx. apply list_elem_of_In, repeat_spec in Hx. subst. split; lia.
Qed.

Context {FS File : Type} {HF : P9Handler.FileSystem FS File}.

(** C29. The file share serves the 9P server to the driver: a round reads the request from
    the buffer, and what it stores at the start of the writable part, with its length
    reported, is the reply of the server, length and all; it panics exactly when the server
    or the codec does or the reply does not fit. *)
Theorem p9_device_serves fuel q (d : D) (s : @P9Handler.State FS File) q' b : try_take fuel q d = Took q' b -> buffer_ok b ->
  (4 <= read_len b)%nat -> (4 <= write_len b)%nat -> Z.of_nat (write_len b) < 2 ^ 64 ->
  match P9Handler.serve (write_len b) s (sent d b) with
  | Some (s', out) => Forall (in_u 8) out ->
      exists d', updated d d' (take (length out) (flat (write b))) out /\
        p9_round fuel q d s = let '(q2, d2) := put q' d' (set_written (length out) b) in Done q2 d2 s' true
  | None => p9_round fuel q d s = Panicking
  end.
Proof.
  intros Et Hb H4 H4w H64. unfold p9_round, P9Handler.serve. rewrite (with_buffer_took _ _ _ _ _ _ Et).
  destruct (read_from d b 4 Hb H4 ltac:(lia)) as [c' E]. change (Z.of_nat 4) with 4 in E. rewrite E.
  destruct (P9.decode_message (drop 4 (sent d b))) as [[tag fcall] rest| |]; [|reflexivity|reflexivity].
  destruct (P9Handler.handle_fcall s fcall) as [[s' resp]|]; [|reflexivity]. cbn [mbind option_bind].
  destruct (P9.encode_message (tag, resp)) as [body|]; [|reflexivity]. cbn [mbind option_bind].
  pose proof (write_framed d b body Hb H4w H64) as F. cbv zeta in F.
  destruct (4 + length body <=? write_len b)%nat eqn:L.
  - intros Hout. rewrite le_to_le in *. apply Forall_app in Hout as [_ Hby]. destruct (F Hby) as (d' & Er & U).
    exists d'. rewrite length_app, to_le_length. split; [exact U|].
    destruct (write_all d body _ _) as [[[d1 wr] w1]|]; [|discriminate]. cbn [mbind option_bind] in *.
    destruct (write_all d1 _ _ _) as [[[d2 c2] w2]|]; [|discriminate]. cbn [mbind option_bind] in *. injection Er as -> ->. reflexivity.
  - destruct (write_all d body _ _) as [[[d1 wr] w1]|]; [|reflexivity]. cbn [mbind option_bind] in *.
    destruct (write_all d1 _ _ _) as [[[d2 c2] w2]|]; [discriminate|reflexivity].
Qed.
End Rounds.

(** *** The console *)

Lemma from_to_le : forall n v, 0 <= v < 256 ^ Z.of_nat n -> from_le_bytes (to_le_bytes n v) = v.
Proof.
  induction n as [|n IH]; intros v Hv; [change (256 ^ Z.of_nat 0) with 1 in Hv; cbn; lia|].
  cbn [to_le_bytes from_le_bytes]. rewrite Nat2Z.inj_succ, Z.pow_succ_r in Hv by lia.
  rewrite IH by (split; [apply Z.div_pos; lia|apply Z.div_lt_upper_bound; lia]).
  pose proof (Z.div_mod v 256). lia.
Qed.

(** A change of size shows in the configuration and in the interrupt status until the driver
    acknowledges it; other acknowledgements leave it. *)
Theorem console_resize (s : Console) col row ack : in_u 16 col -> in_u 16 row ->
  let s' := console_resized col row s in
  config_read 0 2 s' = col /\ config_read 2 2 s' = row /\ interrupt_status s' = 3 /\
  interrupt_status (interrupt_ack ack s') = (if Z.testbit ack 1 then 1 else 3) /\
  config_space (interrupt_ack ack s') = config_space s'.
Proof.
  intros Hc Hr. cbv zeta. unfold in_u in *. change (2 ^ 16) with 65536 in *.
  assert (E : forall v, 0 <= v < 65536 -> from_le_bytes [v mod 256; v / 256 mod 256] = v)
    by (intros v Hv; apply (from_to_le 2); exact Hv).
  split; [exact (E col Hc)|]. split; [exact (E row Hr)|]. split; [reflexivity|]. cbn [interrupt_ack console_device].
  assert (Hbit : ((ack .& 2) <>? 0) = Z.testbit ack 1).
  { destruct (Z.testbit ack 1) eqn:Et.
    - destruct (Z.eqb_spec (ack .& 2) 0) as [E0|N]; [|reflexivity]. apply (f_equal (fun x => Z.testbit x 1)) in E0.
      rewrite Z.land_spec, Et in E0. discriminate.
    - destruct (Z.eqb_spec (ack .& 2) 0) as [E0|N]; [reflexivity|]. exfalso. apply N. apply Z.bits_inj'. intros i Hi.
      rewrite Z.land_spec, Z.bits_0. destruct (decide (i = 1)) as [->|Ni]; [rewrite Et; reflexivity|].
      change 2 with (2 ^ 1). rewrite Z.pow2_bits_false by congruence. apply andb_false_r. }
  rewrite Hbit. destruct (Z.testbit ack 1); split; reflexivity.
Qed.

(** ** Witnesses *)

(** A queue of four with one buffer: 16 bytes to read at 0x100, 64 to write at 0x200. *)
Definition ring_memory (data : list Z) : GuestMemory := fun a =>
  if a =? 1 then 1 else if a =? 8 then 16 else if a =? 12 then 1 else if a =? 14 then 1
  else if a =? 17 then 2 else if a =? 24 then 64 else if a =? 28 then 2
  else if a =? 0x402 then 1 else if 0x100 <=? a then nth (Z.to_nat (a - 0x100)) data 0 else 0.
Definition net_memory : GuestMemory := ring_memory (seqZ 0 16).
Definition net_queue : QueueInner := MkQueue true 4 4 0 0x400 0x500 0 0 false.
Definition net_buffer : Buffer := MkBuffer 0 0 [(0x100, 16%nat)] [(0x200, 64%nat)] 16 64.

Lemma net_buffer_ok : buffer_ok net_buffer.
Proof.
  split; try reflexivity; try (split; repeat constructor; cbn; lia).
  cbn [flat map concat write net_buffer]. rewrite app_nil_r. apply NoDup_fmap_2; [intros x y Hxy; lia|apply NoDup_seq].
Qed.

Lemma network_moves_packets_witness :
  try_take 4 net_queue net_memory = Took (set_last_avail_idx 1 net_queue) net_buffer /\
  network_tx 4 net_queue net_memory =
    (let '(q2, d2) := put (set_last_avail_idx 1 net_queue) net_memory net_buffer in Done q2 d2 [12; 13; 14; 15] true).
Proof.
  assert (E : try_take 4 net_queue net_memory = Took (set_last_avail_idx 1 net_queue) net_buffer) by reflexivity.
  split; [exact E|]. exact (proj1 (network_moves_packets 4 net_queue net_memory _ net_buffer [] E net_buffer_ok (List.Forall_nil _))).
Defined.

(** A request to flush, of tag 7. *)
Definition flush_memory : GuestMemory := ring_memory [9; 0; 0; 0; 108; 7; 0; 3; 0].

Lemma p9_device_serves_witness : exists d',
  updated flush_memory d' (span 0x200 7) [7; 0; 0; 0; 109; 7; 0] /\
  p9_round 4 net_queue flush_memory ram_state =
    (let '(q2, d2) := put (set_last_avail_idx 1 net_queue) d' (set_written 7 net_buffer) in Done q2 d2 ram_state true).
Proof.
  pose proof (p9_device_serves 4 net_queue flush_memory ram_state (set_last_avail_idx 1 net_queue) net_buffer eq_refl net_buffer_ok
    ltac:(cbn; lia) ltac:(cbn; lia) ltac:(reflexivity)) as H.
  assert (E : P9Handler.serve (write_len net_buffer) ram_state (sent flush_memory net_buffer) = Some (ram_state, [7; 0; 0; 0; 109; 7; 0]))
    by (vm_compute; reflexivity).
  rewrite E in H. apply H. repeat constructor; lia.
Defined.
