(* ===== verification/Fdt.v ===== *)
(** The flattened device tree (lib/fdt/src): the values of properties ([prop_value.rs]), nodes,
    and the encoder ([lib.rs]).  A string is the list of its bytes. *)

From Stdlib Require Import ZArith Lia Bool List.
From stdpp Require Import base gmap list.
From S2P Require Import Prelude P9.
Import ListNotations.
Local Open Scope Z_scope.
Local Open Scope rust_scope.

Module Fdt.

(** ** Bytes *)

(** [to_be_bytes] and [from_be_bytes] of [n] bytes *)
Fixpoint to_be_bytes (n : nat) (v : Z) : list Z :=
  match n with O => [] | S n => to_be_bytes n (v / 256) ++ [v mod 256] end.

Definition from_be_bytes (l : list Z) : Z := fold_left (fun a b => a * 256 + b) l 0.

Definition usize_len {A} (l : list A) : Z := Z.of_nat (length l).

(** ** Property values *)

(** [PropValue] *)
Notation PropValue := (list Z) (only parsing).

Definition from_unit : option PropValue := Some [].
Definition to_unit (raw : PropValue) : option unit := if usize_len raw =? 0 then Some tt else None.

(** [CString::new] refuses a string with a NUL byte in it. *)
Definition has_nul (l : list Z) : bool := existsb (Z.eqb 0) l.
Definition from_str (value : list Z) : option PropValue := if has_nul value then None else Some (value ++ [0]).

(** [CStr::from_bytes_with_nul] wants one NUL byte, at the end. *)
Definition to_str (raw : PropValue) : option (list Z) :=
  match last raw with
  | Some 0 =>
      let s := removelast raw in
      if has_nul s then None else if P9.is_utf8 s then Some s else None
  | _ => None
  end.

Definition from_strs (value : list (list Z)) : option PropValue := Some (concat (map (fun v => v ++ [0]) value)).

Definition from_u32 (value : Z) : option PropValue := Some (to_be_bytes 4 value).
Definition to_u32 (raw : PropValue) : option Z := if usize_len raw =? 4 then Some (from_be_bytes raw) else None.
Definition from_u64 (value : Z) : option PropValue := Some (to_be_bytes 8 value).
Definition to_u64 (raw : PropValue) : option Z := if usize_len raw =? 8 then Some (from_be_bytes raw) else None.

Definition from_u32s (value : list Z) : option PropValue := Some (concat (map (to_be_bytes 4) value)).
Definition from_u64s (value : list Z) : option PropValue := Some (concat (map (to_be_bytes 8) value)).

(** [raw.0[i * n..i * n + n]] for [i] in [0..len] *)
Definition cells (n : nat) (raw : PropValue) : option (list Z) :=
  if usize_len raw mod Z.of_nat n =? 0
  then Some (map (fun i => from_be_bytes (take n (drop (i * n) raw))) (seq 0 (length raw / n)))
  else None.
Definition to_u32s (raw : PropValue) : option (list Z) := cells 4 raw.
Definition to_u64s (raw : PropValue) : option (list Z) := cells 8 raw.

Definition from_bytes (value : list Z) : option PropValue := Some value.

(** ** Nodes *)

Record Property : Type := MkProp { prop_name : list Z; value : PropValue }.
Inductive Node : Type := MkNode (name : list Z) (properties : list Property) (child : list Node).

Definition name (n : Node) : list Z := let (x, _, _) := n in x.
Definition properties (n : Node) : list Property := let (_, x, _) := n in x.
Definition child (n : Node) : list Node := let (_, _, x) := n in x.

(** [Node::new] *)
Definition new (name : list Z) : Node := MkNode name [] [].

(** [add_prop]: a value that does not convert is a panic. *)
Definition add_prop (name : list Z) (value : option PropValue) (n : Node) : option Node :=
  let? v := value in
  let (x, ps, cs) := n in Some (MkNode x (ps ++ [MkProp name v]) cs).

(** [child.push], and [add_node] with what is then done to the node it returns *)
Definition push_child (c : Node) (n : Node) : Node := let (x, ps, cs) := n in MkNode x ps (cs ++ [c]).
Definition add_node (name : list Z) (build : Node -> option Node) (n : Node) : option Node :=
  let? c := build (new name) in Some (push_child c n).

(** ** Encoder *)

Definition FDT_MAGIC : Z := 0xd00dfeed.
Definition FDT_BEGIN_NODE : Z := 1.
Definition FDT_END_NODE : Z := 2.
Definition FDT_PROP : Z := 3.

Record Encoder : Type := MkEncoder { dt_struct : list Z; dt_strings : list Z; string_map : gmap (list Z) Z }.

Definition extend (l : list Z) (e : Encoder) : Encoder := MkEncoder (dt_struct e ++ l) (dt_strings e) (string_map e).

Definition push (value : Z) (e : Encoder) : Encoder := extend (to_be_bytes 4 (u32 value)) e.

(** The padding of [len] bytes to a multiple of 4: [((len + 3) & !3) - len] *)
Definition pad_bytes (len : Z) : Z := ((len + 3) .& Z.lnot 3) - len.

Definition align_to_word (e : Encoder) : Encoder := extend (replicate (Z.to_nat (pad_bytes (usize_len (dt_struct e)))) 0) e.

Definition add_string (str : list Z) (e : Encoder) : Z * Encoder :=
  match string_map e !! str with
  | Some v => (v, e)
  | None =>
      let len := usize_len (dt_strings e) in
      (len, MkEncoder (dt_struct e) (dt_strings e ++ str ++ [0]) (<[str := len]> (string_map e)))
  end.

Definition encode_prop (e : Encoder) (p : Property) : Encoder :=
  let e := push FDT_PROP e in
  let e := push (usize_len (value p)) e in
  let (nameoff, e) := add_string (prop_name p) e in
  let e := push nameoff e in
  align_to_word (extend (value p) e).

Fixpoint encode_node (e : Encoder) (node : Node) : Encoder :=
  let (name, properties, child) := node in
  let e := push FDT_BEGIN_NODE e in
  let e := align_to_word (extend [0] (extend name e)) in
  let e := fold_left encode_prop properties e in
  let e := fold_left encode_node child e in
  push FDT_END_NODE e.

Definition encode (node : Node) : list Z :=
  let enc := push 9 (encode_node (MkEncoder [] [] ∅) node) in
  let total_size := usize_len (dt_struct enc) + usize_len (dt_strings enc) + 16 + 40 in
  to_be_bytes 4 FDT_MAGIC ++ to_be_bytes 4 (u32 total_size) ++ to_be_bytes 4 56 ++
  to_be_bytes 4 (u32 (u32 (usize_len (dt_struct enc)) + 56)) ++ to_be_bytes 4 40 ++ to_be_bytes 4 17 ++ to_be_bytes 4 16 ++ to_be_bytes 4 0 ++
  to_be_bytes 4 (u32 (usize_len (dt_strings enc))) ++ to_be_bytes 4 (u32 (usize_len (dt_struct enc))) ++
  to_be_bytes 8 0 ++ to_be_bytes 8 0 ++ dt_struct enc ++ dt_strings enc.

End Fdt.

(** * Properties

    A reader of flattened device trees, written from the Devicetree Specification (chapter 5),
    and the proof that it reads back what [Fdt.encode] writes; the conversions of property
    values are inverse. *)

From Stdlib Require Import ZArith Lia Bool List.
From stdpp Require Import base gmap list.
From S2P Require Import Prelude P9.
Import ListNotations.
Local Open Scope Z_scope.
Local Open Scope rust_scope.
Import Fdt.

(** ** The reader *)

(** A big-endian word, a string up to its NUL, and [n] bytes with the padding to a word *)
Definition read_word (l : list Z) : option (Z * list Z) :=
  match l with a :: b :: c :: d :: l => Some (((a * 256 + b) * 256 + c) * 256 + d, l) | _ => None end.

Fixpoint read_string (l : list Z) : option (list Z * list Z) :=
  match l with
  | [] => None
  | c :: l => if c =? 0 then Some ([], l) else let? (s, r) := read_string l in Some (c :: s, r)
  end.

Definition padding (n : nat) : nat := (4 - n mod 4) mod 4.

Definition read_block (n : nat) (l : list Z) : option (list Z * list Z) :=
  if decide (n + padding n <= length l)%nat then Some (take n l, drop (n + padding n) l) else None.

Section Reader.
Context (strings : list Z).

(** The properties of a node, up to the first token that is not one *)
Fixpoint read_props (fuel : nat) (l : list Z) : option (list Property * list Z) :=
  match fuel with
  | O => None
  | S fuel =>
      let? (token, r) := read_word l in
      if token =? 3 then
        let? (len, r) := read_word r in
        let? (nameoff, r) := read_word r in
        let? (name, _) := read_string (drop (Z.to_nat nameoff) strings) in
        let? (v, r) := read_block (Z.to_nat len) r in
        let? (ps, r) := read_props fuel r in
        Some (MkProp name v :: ps, r)
      else if token =? 4 then read_props fuel r
      else Some ([], l)
  end.

(** The nodes up to the token [final] *)
Fixpoint read_nodes (fuel : nat) (final : Z) (l : list Z) : option (list Node * list Z) :=
  match fuel with
  | O => None
  | S fuel =>
      let? (token, r) := read_word l in
      if token =? 1 then
        let? (name, _) := read_string r in
        let? (_, r) := read_block (S (length name)) r in
        let? (ps, r) := read_props fuel r in
        let? (cs, r) := read_nodes fuel 2 r in
        let? (ns, r) := read_nodes fuel final r in
        Some (MkNode name ps cs :: ns, r)
      else if token =? 4 then read_nodes fuel final r
      else if token =? final then Some ([], r)
      else None
  end.
End Reader.

Definition field (i : nat) (blob : list Z) : Z := from_be_bytes (take 4 (drop (4 * i) blob)).
Definition part (off len : Z) (blob : list Z) : list Z := take (Z.to_nat len) (drop (Z.to_nat off) blob).

(** The header is checked, no memory is reserved, and the one node of the structure block is the root. *)
Definition read_tree (blob : list Z) : option Node :=
  let inside off len := (40 <=? off) && (off + len <=? usize_len blob) in
  if (field 0 blob =? 0xd00dfeed) && (field 1 blob =? usize_len blob) && (field 6 blob <=? 17) && (17 <=? field 5 blob) &&
     inside (field 2 blob) (field 9 blob) && inside (field 3 blob) (field 8 blob) && (field 2 blob mod 4 =? 0) && (field 4 blob mod 8 =? 0) &&
     inside (field 4 blob) 16 && forallb (Z.eqb 0) (part (field 4 blob) 16 blob)
  then
    match read_nodes (part (field 3 blob) (field 8 blob) blob) (length blob) 9 (part (field 2 blob) (field 9 blob) blob) with
    | Some ([n], []) => Some n
    | _ => None
    end
  else None.

(** On a small tree *)
Definition small_tree : Node :=
  MkNode [] [MkProp [109] [1; 2; 3]; MkProp [110] []]
    [MkNode [97; 98; 99; 100] [MkProp [109] [0; 0; 0; 7]] [MkNode [120] [] []]; MkNode [98] [MkProp [112; 113] [9]] []].
Lemma small_tree_read : read_tree (encode small_tree) = Some small_tree.
Proof. vm_compute. reflexivity. Qed.

(** ** What the encoder appends *)

Definition word (v : Z) : list Z := to_be_bytes 4 (u32 v).
Definition padded (l : list Z) : list Z := l ++ replicate (padding (length l)) 0.

Section Flat.
Context (m : gmap (list Z) Z).
Definition off (s : list Z) : Z := default 0 (m !! s).
Definition flat_prop (p : Property) : list Z :=
  word 3 ++ word (usize_len (value p)) ++ word (off (prop_name p)) ++ padded (value p).
Fixpoint flat (n : Node) : list Z :=
  let (nm, ps, cs) := n in word 1 ++ padded (nm ++ [0]) ++ concat (map flat_prop ps) ++ concat (map flat cs) ++ word 2.
End Flat.

(** Induction over nodes *)
Lemma node_ind (P : Node -> Prop) : (forall nm ps cs, Forall P cs -> P (MkNode nm ps cs)) -> forall n, P n.
Proof.
  intros H. fix IH 1. intros [nm ps cs]. apply H. induction cs as [|c cs IHcs]; constructor; [apply IH|exact IHcs].
Qed.

(** The names of the properties *)
Fixpoint names (n : Node) : list (list Z) := let (_, ps, cs) := n in map prop_name ps ++ concat (map names cs).
Definition known (m : gmap (list Z) Z) (l : list (list Z)) : Prop := Forall (fun s => is_Some (m !! s)) l.

Lemma off_mono m m' s : m ⊆ m' -> is_Some (m !! s) -> off m' s = off m s.
Proof. intros H [v Hv]. unfold off. rewrite Hv, (lookup_weaken m m' s v Hv H). reflexivity. Qed.

Lemma known_mono m m' l : m ⊆ m' -> known m l -> known m' l.
Proof. intros H Hl. eapply Forall_impl; [exact Hl|]. intros s Hs. apply (lookup_weaken_is_Some m); assumption. Qed.

Lemma flat_prop_mono m m' p : m ⊆ m' -> is_Some (m !! prop_name p) -> flat_prop m' p = flat_prop m p.
Proof. intros H Hp. unfold flat_prop. rewrite (off_mono m m') by assumption. reflexivity. Qed.

Lemma concat_map_ext {A} (f g : A -> list Z) l : Forall (fun x => f x = g x) l -> concat (map f l) = concat (map g l).
Proof. induction 1 as [|x l E _ IH]; cbn; [reflexivity|]. rewrite E, IH. reflexivity. Qed.

Lemma props_mono m m' ps : m ⊆ m' -> known m (map prop_name ps) -> concat (map (flat_prop m') ps) = concat (map (flat_prop m) ps).
Proof.
  intros H Hp. apply concat_map_ext. induction ps as [|p ps IH]; [constructor|]. apply Forall_cons in Hp as [Hp1 Hp2].
  constructor; [apply flat_prop_mono; assumption|auto].
Qed.

Lemma concat_singletons {A B} (f : A -> B) l : concat (map (fun x => [f x]) l) = map f l.
Proof. induction l as [|x l IH]; cbn; [reflexivity|]. rewrite IH. reflexivity. Qed.

Lemma flat_mono m m' : m ⊆ m' -> forall n, known m (names n) -> flat m' n = flat m n.
Proof.
  intros H. apply (node_ind (fun n => known m (names n) -> flat m' n = flat m n)). intros nm ps cs IH Hk. cbn [names flat] in *.
  apply Forall_app in Hk as [Hp Hc]. do 2 f_equal.
  rewrite (props_mono m), (concat_map_ext (flat m') (flat m)); [reflexivity| |exact H|exact Hp].
  clear Hp. induction IH as [|c cs E _ IHc]; [constructor|]. cbn in Hc. apply Forall_app in Hc as [Hc1 Hc2]. constructor; auto.
Qed.

(** ** The encoder *)

(** Whole words, and the strings where the map says they are *)
Record sound (e : Encoder) : Prop := {
  s_words : (length (dt_struct e) mod 4 = 0)%nat;
  s_map s o : string_map e !! s = Some o -> exists a b, dt_strings e = a ++ s ++ 0 :: b /\ o = usize_len a;
}.

(** [x] has been appended to the structure. *)
Record grows (x : list Z) (e e' : Encoder) : Prop := {
  g_struct : dt_struct e' = dt_struct e ++ x;
  g_map : string_map e ⊆ string_map e';
  g_sound : sound e -> sound e';
}.

Lemma to_be_length n : forall v, length (to_be_bytes n v) = n.
Proof. induction n as [|n IH]; intros v; cbn; [reflexivity|]. rewrite length_app, IH. cbn. lia. Qed.

Lemma word_length v : length (word v) = 4%nat.
Proof. apply to_be_length. Qed.

Lemma padding_mod n : ((n + padding n) mod 4 = 0)%nat.
Proof.
  unfold padding. pose proof (Nat.div_mod_eq n 4) as E. pose proof (Nat.mod_upper_bound n 4 ltac:(lia)) as B.
  set (r := (n mod 4)%nat) in *. set (q := (n / 4)%nat) in *. assert (Hr : (r = 0 \/ r = 1 \/ r = 2 \/ r = 3)%nat) by lia.
  destruct Hr as [Hr|[Hr|[Hr|Hr]]]; rewrite Hr in *; cbn -[Nat.modulo Nat.mul]; rewrite E.
  all: match goal with |- ((?a) mod 4 = 0)%nat => first [replace a with (q * 4)%nat by (cbn; lia) | replace a with ((q + 1) * 4)%nat by (cbn; lia)] end; apply Nat.Div0.mod_mul.
Qed.

Lemma padded_length l : (length (padded l) mod 4 = 0)%nat.
Proof. unfold padded. rewrite length_app, length_replicate. apply padding_mod. Qed.

Lemma pad_bytes_padding k n : (k mod 4 = 0)%nat -> Z.to_nat (pad_bytes (Z.of_nat (k + n))) = padding n.
Proof.
  intros Hk. unfold pad_bytes. rewrite land_lnot. rewrite (land_mask _ 2 ltac:(lia) : _ .& 3 = _). change (2 ^ 2) with 4.
  pose proof (Nat.div_mod_eq k 4) as E. rewrite Hk, Nat.add_0_r in E. pose proof (Nat.div_mod_eq n 4) as En.
  unfold padding. pose proof (Nat.mod_upper_bound n 4 ltac:(lia)) as B.
  set (r := (n mod 4)%nat) in *. set (q := (n / 4)%nat) in *. set (j := (k / 4)%nat) in *.
  assert (Hr : (r = 0 \/ r = 1 \/ r = 2 \/ r = 3)%nat) by lia.
  destruct Hr as [Hr|[Hr|[Hr|Hr]]]; rewrite Hr in *; cbn -[Z.modulo Z.sub Z.add Z.of_nat].
  all: rewrite E, En; clear; dlia.
Qed.

Lemma grows_nil e : grows [] e e.
Proof. split; [rewrite app_nil_r; reflexivity|reflexivity|auto]. Qed.

Lemma grows_trans x y a b c : grows x a b -> grows y b c -> grows (x ++ y) a c.
Proof. intros [A1 A2 A3] [B1 B2 B3]. split; [rewrite B1, A1, app_assoc; reflexivity|etransitivity; eassumption|auto]. Qed.

Lemma mod4_add a b : (a mod 4 = 0 -> b mod 4 = 0 -> (a + b) mod 4 = 0)%nat.
Proof. intros Ha Hb. rewrite Nat.Div0.add_mod, Ha, Hb. reflexivity. Qed.

Lemma grows_extend l e : (length l mod 4 = 0)%nat -> grows l e (extend l e).
Proof.
  intros Hl. split; [reflexivity|reflexivity|]. intros [H1 H2]. split; [|exact H2]. cbn. rewrite length_app. apply mod4_add; assumption.
Qed.

Lemma extend_extend a b e : extend b (extend a e) = extend (a ++ b) e.
Proof. unfold extend. cbn. rewrite app_assoc. reflexivity. Qed.

Lemma grows_push v e : grows (word v) e (push v e).
Proof. apply grows_extend. rewrite word_length. reflexivity. Qed.

(** Bytes and their padding *)
Lemma grows_padded l e : sound e -> grows (padded l) e (align_to_word (extend l e)).
Proof.
  intros Hs. replace (align_to_word (extend l e)) with (extend (padded l) e).
  - apply grows_extend, padded_length.
  - unfold align_to_word, extend, padded, usize_len. cbn [dt_struct dt_strings string_map]. rewrite length_app, pad_bytes_padding by apply Hs.
    rewrite app_assoc. reflexivity.
Qed.

Lemma add_string_grows s e o e' : add_string s e = (o, e') -> grows [] e e' /\ string_map e' !! s = Some o.
Proof.
  unfold add_string. destruct (string_map e !! s) as [v|] eqn:E; intros H; injection H as <- <-.
  - split; [apply grows_nil|exact E].
  - split; [|apply lookup_insert_eq]. split; cbn.
    + rewrite app_nil_r. reflexivity.
    + apply insert_subseteq. exact E.
    + intros [H1 H2]. split; [exact H1|]. cbn. intros s' o' Hs'. destruct (decide (s = s')) as [<-|N].
      * rewrite lookup_insert_eq in Hs'. injection Hs' as <-. exists (dt_strings e), []. auto.
      * rewrite lookup_insert_ne in Hs' by exact N. destruct (H2 _ _ Hs') as (a & b & -> & ->). exists a, (b ++ s ++ [0]).
        rewrite <- !app_assoc. auto.
Qed.

Lemma grows_prop p e : sound e -> let e' := encode_prop e p in
  grows (flat_prop (string_map e') p) e e' /\ is_Some (string_map e' !! prop_name p).
Proof.
  intros Hs. unfold encode_prop. destruct (add_string _ _) as [o e1] eqn:E. cbv zeta. apply add_string_grows in E as [G Ho].
  set (e2 := align_to_word _). assert (Hm : string_map e2 = string_map e1) by reflexivity.
  assert (G2 : grows (word 3 ++ word (usize_len (value p)) ++ []) e e1).
  { eapply grows_trans; [apply grows_push|]. eapply grows_trans; [apply grows_push|exact G]. }
  assert (G3 : grows (word o ++ padded (value p)) e1 e2).
  { eapply grows_trans; [apply grows_push|]. apply grows_padded. apply (g_sound _ _ _ (grows_push o e1)), (g_sound _ _ _ G2), Hs. }
  split; [|rewrite Hm, Ho; eauto]. pose proof (grows_trans _ _ _ _ _ G2 G3) as G4. unfold flat_prop, off. rewrite Hm, Ho.
  rewrite app_nil_r, <- !app_assoc in G4. exact G4.
Qed.

(** Appending for each element of a list *)
Lemma grows_fold {A} (f : Encoder -> A -> Encoder) (fl : gmap (list Z) Z -> A -> list Z) (ns : A -> list (list Z)) l :
  (forall m m' x, m ⊆ m' -> known m (ns x) -> fl m' x = fl m x) ->
  Forall (fun x => forall e, sound e -> grows (fl (string_map (f e x)) x) e (f e x) /\ known (string_map (f e x)) (ns x)) l ->
  forall e, sound e -> let e' := fold_left f l e in
    grows (concat (map (fl (string_map e')) l)) e e' /\ known (string_map e') (concat (map ns l)).
Proof.
  intros Hmono. induction 1 as [|x l Hx _ IH]; intros e Hs; cbn [fold_left map concat].
  - split; [apply grows_nil|constructor].
  - destruct (Hx e Hs) as [G K]. destruct (IH (f e x)) as [G' K']; [apply (g_sound _ _ _ G), Hs|]. cbv zeta in *.
    pose proof (g_map _ _ _ G') as Hm. split.
    + rewrite (Hmono (string_map (f e x))) by assumption. eapply grows_trans; eassumption.
    + apply Forall_app. split; [eapply known_mono; eassumption|exact K'].
Qed.

Lemma grows_node n : forall e, sound e -> let e' := encode_node e n in
  grows (flat (string_map e') n) e e' /\ known (string_map e') (names n).
Proof.
  induction n as [nm ps cs IH] using node_ind. intros e Hs. cbn [encode_node]. cbv zeta.
  set (e1 := align_to_word _). set (e2 := fold_left encode_prop ps e1). set (e3 := fold_left encode_node cs e2).
  assert (G1 : grows (word 1 ++ padded (nm ++ [0])) e e1).
  { eapply grows_trans; [apply grows_push|]. unfold e1. rewrite extend_extend. apply grows_padded.
    apply (g_sound _ _ _ (grows_push 1 e)), Hs. }
  assert (S1 : sound e1) by (apply (g_sound _ _ _ G1), Hs).
  destruct (grows_fold encode_prop flat_prop (fun p => [prop_name p]) ps) with (e := e1) as [G2 K2]; [| |exact S1|].
  { intros m m' p Hm Hk. apply Forall_inv in Hk. apply flat_prop_mono; assumption. }
  { apply Forall_forall. intros p _ e' He'. destruct (grows_prop p e' He') as [G K]. split; [exact G|]. constructor; [exact K|constructor]. }
  assert (S2 : sound e2) by (apply (g_sound _ _ _ G2), S1).
  destruct (grows_fold encode_node flat names cs (fun m m' x H => flat_mono m m' H x) IH e2 S2) as [G3 K3]. change (fold_left encode_node cs e2) with e3 in G3, K3. change (fold_left encode_prop ps e1) with e2 in G2, K2. rewrite concat_singletons in K2.
  pose proof (g_map _ _ _ G3) as M3.
  change (string_map (push FDT_END_NODE e3)) with (string_map e3). cbn [flat names]. split.
  - rewrite (props_mono (string_map e2)) by assumption.
    pose proof (grows_trans _ _ _ _ _ (grows_trans _ _ _ _ _ (grows_trans _ _ _ _ _ G1 G2) G3) (grows_push 2 e3)) as G.
    rewrite <- !app_assoc in G. exact G.
  - apply Forall_app. split; [|exact K3]. eapply known_mono; [exact M3|exact K2].
Qed.

(** ** Reading it back *)

Fixpoint wf_node (n : Node) : bool :=
  let (nm, ps, cs) := n in negb (has_nul nm) && forallb (fun p => negb (has_nul (prop_name p))) ps && forallb wf_node cs.

Lemma from_be_app l b : from_be_bytes (l ++ [b]) = from_be_bytes l * 256 + b.
Proof. unfold from_be_bytes. rewrite fold_left_app. reflexivity. Qed.

Lemma from_to_be n : forall v, 0 <= v < 256 ^ Z.of_nat n -> from_be_bytes (to_be_bytes n v) = v.
Proof.
  induction n as [|n IH]; intros v Hv; [cbn in *; lia|]. rewrite Nat2Z.inj_succ, Z.pow_succ_r in Hv by lia. cbn [to_be_bytes].
  rewrite from_be_app, IH; [pose proof (Z.div_mod v 256); lia|]. split; [apply Z.div_pos; lia|apply Z.div_lt_upper_bound; lia].
Qed.

Lemma read_word_word v l : in_u 32 v -> read_word (word v ++ l) = Some (v, l).
Proof.
  intros Hv. unfold word, u32. rewrite wrap_id by exact Hv. cbn [to_be_bytes app read_word]. do 2 f_equal.
  change (((v / 256 / 256 / 256 mod 256 * 256 + v / 256 / 256 mod 256) * 256 + v / 256 mod 256) * 256 + v mod 256)
    with (from_be_bytes (to_be_bytes 4 v)). apply from_to_be. exact Hv.
Qed.

Lemma read_string_app s l : has_nul s = false -> read_string (s ++ 0 :: l) = Some (s, l).
Proof.
  unfold has_nul. induction s as [|c s IH]; cbn [existsb app read_string]; intros H; [reflexivity|]. apply orb_false_iff in H as [Hc Hs].
  rewrite (Z.eqb_sym c 0), Hc, IH by exact Hs. reflexivity.
Qed.

Lemma read_string_padded s r : has_nul s = false -> read_string (padded (s ++ [0]) ++ r) = Some (s, replicate (padding (length (s ++ [0]))) 0 ++ r).
Proof. intros H. unfold padded. rewrite <- !app_assoc. apply (read_string_app s), H. Qed.

Lemma read_block_padded n l r : n = length l -> read_block n (padded l ++ r) = Some (l, r).
Proof.
  intros ->. unfold read_block, padded. rewrite decide_True by (rewrite !length_app, length_replicate; lia).
  rewrite <- app_assoc, take_app_length. f_equal. f_equal. rewrite app_assoc. rewrite <- (length_replicate (padding (length l)) 0) at 1.
  rewrite <- length_app. apply drop_app_length.
Qed.

Section Reading.
Context (strings : list Z) (m : gmap (list Z) Z).

Definition readable (s : list Z) : Prop := in_u 32 (off m s) /\ exists t, read_string (drop (Z.to_nat (off m s)) strings) = Some (s, t).

Lemma read_props_flat ps : forall fuel l token r, (length ps < fuel)%nat -> l = word token ++ r -> token = 1 \/ token = 2 ->
  Forall (fun p => readable (prop_name p) /\ in_u 32 (usize_len (value p))) ps ->
  read_props strings fuel (concat (map (flat_prop m) ps) ++ l) = Some (ps, l).
Proof.
  induction ps as [|p ps IH]; intros [|fuel] l token r Hf El Ht Hp; cbn [length] in Hf; try lia; cbn [map concat app read_props].
  - rewrite El, read_word_word by (unfold in_u; lia). destruct Ht as [E|E]; rewrite E; reflexivity.
  - apply Forall_cons in Hp as [[[Ho [t Hr]] Hv] Hps]. unfold flat_prop at 1. rewrite <- !app_assoc.
    rewrite read_word_word by (unfold in_u; lia). change (3 =? 3) with true. cbv iota.
    rewrite read_word_word, read_word_word by assumption. rewrite Hr. rewrite read_block_padded by (unfold usize_len; lia).
    cbv beta iota. rewrite (IH fuel l token r) by (assumption || lia). destruct p; reflexivity.
Qed.

(** What reading needs of a node *)
Definition prop_fits (p : Property) : Prop := readable (prop_name p) /\ in_u 32 (usize_len (value p)).
Fixpoint props_of (n : Node) : list Property := let (_, ps, cs) := n in ps ++ concat (map props_of cs).

Lemma flat_props_length ps : (length ps <= length (concat (map (flat_prop m) ps)))%nat.
Proof. induction ps as [|p ps IH]; cbn [map concat length]; [lia|]. rewrite length_app. unfold flat_prop at 1. rewrite length_app, word_length. lia. Qed.

Lemma read_nodes_flat fuel : forall ns final r, final = 2 \/ final = 9 -> (length (concat (map (flat m) ns)) < fuel)%nat ->
  forallb wf_node ns = true -> Forall prop_fits (concat (map props_of ns)) ->
  read_nodes strings fuel final (concat (map (flat m) ns) ++ word final ++ r) = Some (ns, r).
Proof.
  induction fuel as [|fuel IH]; intros ns final r Hfin Hf Hw Hp; [lia|]. destruct ns as [|[nm ps cs] ns]; cbn [map concat app read_nodes].
  - rewrite read_word_word by (destruct Hfin as [E|E]; rewrite E; unfold in_u; lia). destruct Hfin as [E|E]; rewrite E; reflexivity.
  - cbn [map concat forallb wf_node flat props_of] in *. rewrite !length_app, word_length in Hf.
    apply andb_true_iff in Hw as [Hn Hns]. apply andb_true_iff in Hn as [Hn Hcs]. apply andb_true_iff in Hn as [Hnm Hps].
    apply negb_true_iff in Hnm. rewrite <- app_assoc in Hp. apply Forall_app in Hp as [Hp1 Hp]. apply Forall_app in Hp as [Hp2 Hp3].
    rewrite <- !app_assoc, read_word_word by (unfold in_u; lia). change (1 =? 1) with true. cbv iota.
    rewrite read_string_padded by exact Hnm. rewrite read_block_padded by (rewrite length_app; cbn; lia).
    pose proof (flat_props_length ps).
    assert (Hr : exists token r', concat (map (flat m) cs) ++ word 2 ++ concat (map (flat m) ns) ++ word final ++ r = word token ++ r' /\ (token = 1 \/ token = 2)).
    { destruct cs as [|[nm' ps' cs'] cs]; [eexists 2, _; split; [reflexivity|auto]|]. eexists 1, _. split; [|auto].
      cbn [map concat flat]. rewrite <- !app_assoc. reflexivity. }
    destruct Hr as (token & r' & Er & Ht). cbv beta iota. rewrite (read_props_flat ps fuel _ token r') by (assumption || lia).
    cbv beta iota. rewrite (IH cs 2) by (assumption || auto || lia). cbv beta iota. rewrite (IH ns final) by (assumption || lia). reflexivity.
Qed.
End Reading.

(** ** The whole blob *)

Lemma field_skip i v l : field (S i) (to_be_bytes 4 v ++ l) = field i l.
Proof. unfold field. replace (4 * S i)%nat with (length (to_be_bytes 4 v) + 4 * i)%nat by (rewrite to_be_length; lia). rewrite <- drop_drop, drop_app_length. reflexivity. Qed.

Lemma field_zero v l : in_u 32 v -> field 0 (to_be_bytes 4 v ++ l) = v.
Proof. intros H. unfold field. rewrite Nat.mul_0_r, drop_0, <- (to_be_length 4 v) at 1. rewrite take_app_length. apply from_to_be. exact H. Qed.

Lemma part_app a b c o n : Z.to_nat o = length a -> Z.to_nat n = length b -> part o n (a ++ b ++ c) = b.
Proof. intros Ho Hn. unfold part. rewrite Ho, Hn, drop_app_length, take_app_length. reflexivity. Qed.

Lemma map_props n : map prop_name (props_of n) = names n.
Proof.
  induction n as [nm ps cs IH] using node_ind. cbn [props_of names]. rewrite map_app. f_equal. rewrite concat_map, map_map. f_equal.
  induction IH as [|c cs E _ IH]; cbn; [reflexivity|]. rewrite E, IH. reflexivity.
Qed.

Lemma wf_props n : wf_node n = true -> Forall (fun p => has_nul (prop_name p) = false) (props_of n).
Proof.
  induction n as [nm ps cs IH] using node_ind. cbn [wf_node props_of]. rewrite !andb_true_iff. intros [[_ Hp] Hc]. apply Forall_app. split.
  - rewrite forallb_forall in Hp. apply Forall_forall. intros p H. apply list_elem_of_In in H. apply Hp, negb_true_iff in H. exact H.
  - induction IH as [|c cs Hn _ IH]; cbn in *; [constructor|]. apply andb_true_iff in Hc as [? ?]. apply Forall_app. auto.
Qed.

Lemma values_length m n : Forall (fun p => (length (value p) <= length (flat m n))%nat) (props_of n).
Proof.
  induction n as [nm ps cs IH] using node_ind. cbn [flat props_of]. rewrite !length_app. apply Forall_app. split.
  - apply (Forall_impl (fun p => (length (value p) <= length (concat (map (flat_prop m) ps)))%nat)); [|intros; lia].
    induction ps as [|p ps IHp]; cbn [map concat]; constructor.
    + rewrite length_app. unfold flat_prop at 1, padded. rewrite !length_app. lia.
    + eapply Forall_impl; [exact IHp|]. intros q Hq. cbv beta in *. rewrite length_app. lia.
  - apply (Forall_impl (fun p => (length (value p) <= length (concat (map (flat m) cs)))%nat)); [|intros; lia].
    induction IH as [|c cs Hc _ IHc]; cbn [map concat]; [constructor|]. apply Forall_app. split.
    + eapply Forall_impl; [exact Hc|]. intros q Hq. cbv beta in *. rewrite length_app. lia.
    + eapply Forall_impl; [exact IHc|]. intros q Hq. cbv beta in *. rewrite length_app. lia.
Qed.

(** What the encoder has made of a tree *)
Lemma encoded n : exists m strings, encode_node (MkEncoder [] [] ∅) n = MkEncoder (flat m n) strings m /\ known m (names n) /\
  sound (MkEncoder (flat m n) strings m).
Proof.
  assert (S0 : sound (MkEncoder [] [] ∅)) by (split; [reflexivity|cbn; intros s o H; rewrite lookup_empty in H; discriminate]).
  destruct (grows_node n _ S0) as [G K]. cbv zeta in *. pose proof (g_sound _ _ _ G S0) as S1. pose proof (g_struct _ _ _ G) as E.
  destruct (encode_node _ n) as [st strings m]. cbn in *. rewrite E in *. exists m, strings. auto.
Qed.

Lemma all_fit m strings n : known m (names n) -> sound (MkEncoder (flat m n) strings m) -> wf_node n = true ->
  usize_len (flat m n) < 2 ^ 32 -> usize_len strings < 2 ^ 32 -> Forall (prop_fits strings m) (props_of n).
Proof.
  intros K [_ Hs] Hw Hf Hl. rewrite <- map_props in K. unfold known in K. rewrite Forall_map in K. pose proof (wf_props n Hw) as Hn. pose proof (values_length m n) as Hv.
  rewrite Forall_forall in *. intros p Hp. specialize (K p Hp) as [o Ho]. specialize (Hn p Hp). specialize (Hv p Hp). cbn in *.
  destruct (Hs _ _ Ho) as (a & b & E & Eo). unfold prop_fits, readable, off, usize_len, in_u in *. rewrite Ho. cbn [default from_option id]. unfold id.
  rewrite E, length_app in Hl. split; [split; [lia|]|lia]. exists b. rewrite Eo, Nat2Z.id, E, drop_app_length. apply read_string_app, Hn.
Qed.

(** The header is accepted, and the two blocks are found. *)
Definition fields (a b : Z) : list Z :=
  to_be_bytes 4 FDT_MAGIC ++ to_be_bytes 4 (u32 (a + b + 16 + 40)) ++ to_be_bytes 4 56 ++ to_be_bytes 4 (u32 (u32 a + 56)) ++
  to_be_bytes 4 40 ++ to_be_bytes 4 17 ++ to_be_bytes 4 16 ++ to_be_bytes 4 0 ++ to_be_bytes 4 (u32 b) ++ to_be_bytes 4 (u32 a).
Definition header (a b : Z) : list Z := fields a b ++ replicate 16 0.

Lemma fields_length a b : length (fields a b) = 40%nat.
Proof. unfold fields. rewrite !length_app, !to_be_length. reflexivity. Qed.

Lemma header_read st strings : usize_len st + usize_len strings + 56 < 2 ^ 32 ->
  let blob := header (usize_len st) (usize_len strings) ++ st ++ strings in
  read_tree blob = match read_nodes strings (length blob) 9 st with Some ([n], []) => Some n | _ => None end.
Proof.
  intros Hb blob. assert (Hst : 0 <= usize_len st) by (unfold usize_len; lia). assert (Hss : 0 <= usize_len strings) by (unfold usize_len; lia).
  assert (Hblob : blob = header (usize_len st) (usize_len strings) ++ st ++ strings) by reflexivity.
  unfold header, fields, u32 in Hblob. rewrite (wrap_id 32 (_ + 16 + 40)), !(wrap_id 32 (usize_len _)), (wrap_id 32 (_ + 56)) in Hblob by (unfold in_u; lia).
  rewrite <- !app_assoc in Hblob.
  assert (F : field 0 blob = FDT_MAGIC /\ field 1 blob = usize_len blob /\ field 2 blob = 56 /\ field 3 blob = usize_len st + 56 /\ field 4 blob = 40 /\
    field 5 blob = 17 /\ field 6 blob = 16 /\ field 8 blob = usize_len strings /\ field 9 blob = usize_len st).
  { assert (El : usize_len blob = usize_len st + usize_len strings + 16 + 40).
    { rewrite Hblob. unfold usize_len. rewrite !length_app, !to_be_length, length_replicate. lia. }
    rewrite El, Hblob. rewrite !field_skip, !field_zero by (unfold in_u, FDT_MAGIC; lia). repeat split. }
  destruct F as (F0 & F1 & F2 & F3 & F4 & F5 & F6 & F8 & F9). clear Hblob.
  assert (P1 : part 40 16 blob = replicate 16 0).
  { unfold blob, header. rewrite <- app_assoc. apply part_app; [rewrite fields_length; reflexivity|reflexivity]. }
  assert (Hin : usize_len blob = usize_len st + usize_len strings + 56) by (unfold blob, header, usize_len; rewrite !length_app, fields_length, length_replicate; lia).
  unfold read_tree. rewrite F0, F1, F2, F3, F4, F5, F6, F8, F9, P1, Hin.
  replace (56 + usize_len st <=? usize_len st + usize_len strings + 56) with true by (symmetry; apply Z.leb_le; lia).
  replace (40 <=? usize_len st + 56) with true by (symmetry; apply Z.leb_le; lia).
  replace (usize_len st + 56 + usize_len strings <=? usize_len st + usize_len strings + 56) with true by (symmetry; apply Z.leb_le; lia).
  replace (40 + 16 <=? usize_len st + usize_len strings + 56) with true by (symmetry; apply Z.leb_le; lia).
  rewrite (Z.eqb_refl (_ + 56)).
  assert (P2 : part 56 (usize_len st) blob = st).
  { apply part_app; [unfold header; rewrite length_app, fields_length; reflexivity|unfold usize_len; lia]. }
  assert (P3 : part (usize_len st + 56) (usize_len strings) blob = strings).
  { unfold blob. rewrite app_assoc. set (h := header _ _). rewrite <- (app_nil_r strings) at 2. apply part_app; [|unfold usize_len; lia]. unfold h.
    unfold header. rewrite !length_app, fields_length, length_replicate. unfold usize_len. lia. }
  rewrite P2, P3. reflexivity.
Qed.

Lemma encode_reads n : wf_node n = true -> usize_len (encode n) < 2 ^ 32 -> read_tree (encode n) = Some n.
Proof.
  intros Hw Hlen. unfold encode in *. destruct (encoded n) as (m & strings & E & K & S). rewrite E in *.
  cbn [push extend dt_struct dt_strings] in *. change (to_be_bytes 4 (u32 9)) with (word 9) in *.
  set (st := flat m n ++ word 9) in *.
  assert (Hb : usize_len st + usize_len strings + 56 < 2 ^ 32).
  { unfold usize_len in *. rewrite !length_app, !to_be_length in Hlen. lia. }
  assert (Hst : 0 <= usize_len st) by (unfold usize_len; lia). assert (Hss : 0 <= usize_len strings) by (unfold usize_len; lia).
  match goal with |- read_tree ?x = _ => replace x with (header (usize_len st) (usize_len strings) ++ st ++ strings)
    by (unfold header, fields; rewrite <- !app_assoc; reflexivity) end.
  rewrite header_read by exact Hb.
  assert (Hnodes : read_nodes strings (length (header (usize_len st) (usize_len strings) ++ st ++ strings)) 9 (concat (map (flat m) [n]) ++ word 9 ++ []) = Some ([n], [])).
  { apply read_nodes_flat.
    - auto.
    - unfold st. cbn [map concat]. rewrite app_nil_r, !length_app, word_length. lia.
    - cbn. rewrite Hw. reflexivity.
    - cbn [map concat]. rewrite app_nil_r. apply all_fit; try assumption; unfold st, usize_len in *; rewrite length_app in *; lia. }
  cbn [map concat] in Hnodes. rewrite !app_nil_r in Hnodes. cbv zeta. fold st in Hnodes. rewrite Hnodes. reflexivity.
Qed.

(** C13. A reader written from the Devicetree Specification gets back the tree that was
    encoded, for every tree whose names have no NUL byte and whose encoding is smaller than
    4 GiB: the header is valid, the blocks are where it says, names are shared in the strings
    block and values are padded as the format demands. *)
Theorem fdt_round_trip n : wf_node n = true -> usize_len (encode n) < 2 ^ 32 -> read_tree (encode n) = Some n.
Proof. apply encode_reads. Qed.

Lemma fdt_round_trip_witness : read_tree (encode small_tree) = Some small_tree.
Proof. apply (fdt_round_trip small_tree); [reflexivity|vm_compute; reflexivity]. Defined.

(** ** Property values *)

Lemma concat_be_length n l : length (concat (map (to_be_bytes n) l)) = (length l * n)%nat.
Proof. induction l as [|x l IH]; cbn; [reflexivity|]. rewrite length_app, to_be_length, IH. lia. Qed.

Lemma cells_read n l : (0 < n)%nat -> Forall (fun x => 0 <= x < 256 ^ Z.of_nat n) l -> cells n (concat (map (to_be_bytes n) l)) = Some l.
Proof.
  intros Hn Hl. unfold cells, usize_len. rewrite concat_be_length, Nat2Z.inj_mul, Z.mod_mul by lia. cbn [Z.eqb]. f_equal.
  rewrite Nat.div_mul by lia. induction Hl as [|x l Hx _ IH]; [reflexivity|]. cbn [length seq map concat]. f_equal.
  - rewrite Nat.mul_0_l, drop_0. rewrite <- (to_be_length n x) at 1. rewrite take_app_length. apply from_to_be, Hx.
  - rewrite <- seq_shift, map_map. rewrite <- IH at 2. apply map_ext. intros i. f_equal. f_equal.
    replace (S i * n)%nat with (length (to_be_bytes n x) + i * n)%nat by (rewrite to_be_length; lia). rewrite <- drop_drop, drop_app_length. reflexivity.
Qed.

Lemma removelast_app_one {A} (l : list A) x : removelast (l ++ [x]) = l.
Proof. rewrite removelast_app by discriminate. apply app_nil_r. Qed.

(** A value reads back as what it was made from: words, cells, strings and the empty value. *)
Theorem value_round_trips x xs s : (in_u 32 x -> (from_u32 x ≫= to_u32) = Some x) /\ (in_u 64 x -> (from_u64 x ≫= to_u64) = Some x) /\
  (Forall (in_u 32) xs -> (from_u32s xs ≫= to_u32s) = Some xs) /\ (Forall (in_u 64) xs -> (from_u64s xs ≫= to_u64s) = Some xs) /\
  (has_nul s = false -> P9.is_utf8 s = true -> (from_str s ≫= to_str) = Some s) /\ (from_unit ≫= to_unit) = Some tt.
Proof.
  repeat split.
  - intros H. cbn [mbind option_bind from_u32]. unfold to_u32, usize_len. rewrite to_be_length. rewrite from_to_be by exact H. reflexivity.
  - intros H. cbn [mbind option_bind from_u64]. unfold to_u64, usize_len. rewrite to_be_length. rewrite from_to_be by exact H. reflexivity.
  - intros H. apply cells_read; [lia|exact H].
  - intros H. apply cells_read; [lia|exact H].
  - intros H U. unfold from_str. rewrite H. cbn [mbind option_bind]. unfold to_str. rewrite last_snoc, removelast_app_one, H, U. reflexivity.
Qed.
