(* ===== verification/IoSystem.v ===== *)
(** The devices of the system (src/emu/mod.rs): the map of device memory, the allocation of
    addresses and interrupts from the configuration (src/config.rs), the device tree, and the
    escape sequences of the console. *)

From Stdlib Require Import ZArith Lia Bool List String Ascii.
From stdpp Require Import base gmap list.
From S2P Require Import Prelude Fdt.
Import ListNotations.
Local Open Scope Z_scope.
Local Open Scope rust_scope.
Import Fdt.

Module IoSystem.

(** ** Text *)

Definition text (s : string) : list Z := List.map (fun a => Z.of_N (N_of_ascii a)) (list_ascii_of_string s).
Coercion text : string >-> list.
Local Open Scope string_scope.
Local Open Scope list_scope.
Local Open Scope Z_scope.
Local Open Scope rust_scope.

(** [{:x}] of a [usize], which has at most 16 digits *)
Definition hex_digit (d : Z) : Z := if d <? 10 then 48 + d else 87 + d.
Fixpoint hex_digits (fuel : nat) (n : Z) : list Z :=
  match fuel with
  | O => []
  | S fuel => if n <? 16 then [hex_digit n] else hex_digits fuel (n / 16) ++ [hex_digit (n mod 16)]
  end.
Definition hex (n : Z) : list Z := hex_digits 16 n.

(** ** Configuration *)

Inductive RandomType : Type := Pseudo | OS.
Record DriveConfig : Type := MkDrive { shadow : bool; drive_path : list Z }.
Record RandomConfig : Type := MkRandom { random_type : RandomType; seed : Z }.
Record ShareConfig : Type := MkShare { tag : list Z; share_path : list Z }.
Record ForwardConfig : Type := MkForward { udp : bool; host_addr : list Z; host_port : Z; guest_port : Z }.
Record NetworkConfig : Type := MkNetwork { net_io_base : option Z; net_type : list Z; mac : list Z; forward : list ForwardConfig }.
Record ConsoleConfig : Type := MkConsole { virtio : bool; resize : bool }.
Record Config : Type := MkConfig {
  core : Z; memory : Z; cmdline : list Z;
  (** [Some] of the address when a CLINT is wanted *)
  clint : option (option Z);
  console : ConsoleConfig; rtc : bool; drive : list DriveConfig; random : list RandomConfig; share : list ShareConfig;
  network : list NetworkConfig }.

Definition default_console : ConsoleConfig := MkConsole true true.
Definition default_core : Z := 4.
Definition default_memory : Z := 1024.
Definition default_cmdline : list Z := "console=hvc0 rw root=/dev/vda".

(** What is asked of the host: opening files (for writing or not), with their lengths, and
    directories, reading an address of six bytes, and forwarding ports; a failure is a
    panic. *)
Class Host : Type := {
  open_file : bool -> list Z -> option Z;
  open_dir : list Z -> bool;
  parse_mac : list Z -> option (list Z);
  add_host_forward : ForwardConfig -> bool;
  feature_usernet : bool;
}.

(** ** Devices *)

Inductive VirtioDevice : Type :=
| Block (shadow : bool) (path : list Z)
| Rng (source : RandomType) (seed : Z)
| P9 (tag path : list Z)
| Network (mac : list Z)
| Console (resize : bool).

Inductive Device : Type :=
| Plic | Clint | Mmio (irq : Z) (device : VirtioDevice) | XemacLite (irq : Z) | ZyncMp (alarm_irq sec_irq : Z).

Record IoSystem : Type := MkIo { map : gmap Z (Z * Device); next_irq : Z; boundary : Z; fdt : Node }.

Definition set_map (v : gmap Z (Z * Device)) (s : IoSystem) : IoSystem := MkIo v (next_irq s) (boundary s) (fdt s).
Definition set_next_irq (v : Z) (s : IoSystem) : IoSystem := MkIo (map s) v (boundary s) (fdt s).
Definition set_boundary (v : Z) (s : IoSystem) : IoSystem := MkIo (map s) (next_irq s) v (fdt s).
Definition set_fdt (v : Node) (s : IoSystem) : IoSystem := MkIo (map s) (next_irq s) (boundary s) v.

(** [map.range(..bound).next_back()]: the entry with the greatest key below [bound] *)
Definition next_back (m : gmap Z (Z * Device)) (bound : Z) : option (Z * (Z * Device)) :=
  fold_right (fun (e : Z * (Z * Device)) best =>
    if e.1 <? bound then
      match best with Some b => if b.1 <? e.1 then Some e else best | None => Some e end
    else best) None (map_to_list m).

Definition register_io_mem (base size : Z) (mem : Device) (s : IoSystem) : option IoSystem :=
  let ok := match next_back (map s) (base + size) with Some (k, v) => k + v.1 <=? base | None => true end in
  if ok then Some (set_map (<[base := (size, mem)]> (map s)) s) else None.

Definition find_io_mem (s : IoSystem) (ptr : Z) : option (Z * Device) :=
  match next_back (map s) (ptr + 1) with
  | Some (k, v) => if k + v.1 <=? ptr then None else Some (k, v.2)
  | None => None
  end.

(** [plic.irq_pin] asserts that the PLIC has the interrupt. *)
Definition irq_pin (irq : Z) : option Z := if (0 <? irq) && (irq <? 32) then Some irq else None.

(** [for] over a list with a step that may panic *)
Fixpoint each {A S} (f : A -> S -> option S) (l : list A) (s : S) : option S :=
  match l with [] => Some s | x :: l => let? s := f x s in each f l s end.

Definition prop (name : list Z) (v : option (list Z)) (n : Node) : option Node := add_prop name v n.

Section System.
Context (core_count : Z).

(** [add_virtio] *)
Definition add_virtio (device : VirtioDevice) (s : IoSystem) : option IoSystem :=
  let irq := next_irq s in
  let mem := boundary s in
  let s := set_boundary (mem + 4096) (set_next_irq (irq + 1) s) in
  let? pin := irq_pin irq in
  let? s := register_io_mem mem 4096 (Mmio pin device) s in
  let? soc := add_node ("virtio@" ++ hex mem)%list (fun node =>
    let? node := prop "reg" (from_u64s [mem; 0x1000]) node in
    let? node := prop "compatible" (from_str "virtio,mmio") node in
    prop "interrupts-extended" (from_u32s [core_count + 1; irq]) node) (fdt s) in
  Some (set_fdt soc s).

(** [IoSystem::new], but for the PLIC itself *)
Definition plic_node (node : Node) : option Node :=
  let? node := prop "#interrupt-cells" (from_u32 1) node in
  let? node := prop "interrupt-controller" from_unit node in
  let? node := prop "compatible" (from_str "sifive,plic-1.0.0") node in
  let? node := prop "riscv,ndev" (from_u32 31) node in
  let? node := prop "reg" (from_u64s [0x200000; 0x400000]) node in
  let? node := prop "interrupts-extended" (from_u32s (concat (List.map (fun i => [i + 1; 9]) (seqZ 0 core_count)))) node in
  prop "phandle" (from_u32 (core_count + 1)) node.

Definition soc_node : option Node :=
  let soc := Fdt.new "soc" in
  let? soc := prop "ranges" from_unit soc in
  let? soc := prop "compatible" (from_str "simple-bus") soc in
  let? soc := prop "#address-cells" (from_u32 2) soc in
  let? soc := prop "#size-cells" (from_u32 2) soc in
  add_node "plic@200000" plic_node soc.

(** The first assertion is the one of [crate::core_count], which later calls repeat.  The
    other, that the guest is not a user-space program ([prv] is not 0), is not a matter of
    the configuration of devices: such a guest has none. *)
Definition new (config : Config) : option IoSystem :=
  if core_count =? 0 then None else
  let? soc := soc_node in
  let s := MkIo ∅ 1 0x600000 soc in
  let? s := register_io_mem 0x200000 0x400000 Plic s in
  match clint config with
  | None => Some s
  | Some io_base =>
      let (base, s) := (match io_base with Some b => (b, s) | None => (boundary s, set_boundary (boundary s + 0x10000) s) end) in
      register_io_mem base 0x10000 Clint s
  end.

(** [XemacLite::build_dt] *)
Definition build_dt (mem : Z * Z) (irq : Z * Z) (mac : list Z) : option Node :=
  let node := Fdt.new ("ethernet@" ++ hex mem.1)%list in
  let? node := prop "reg" (from_u64s [mem.1; mem.2]) node in
  let? node := prop "interrupts-extended" (from_u32s [irq.1; irq.2]) node in
  let? node := prop "compatible" (from_str "xlnx,xps-ethernetlite-3.00.a") node in
  let? node := prop "device_type" (from_str "network") node in
  let? node := prop "local-mac-address" (from_bytes mac) node in
  let? node := prop "phy-handle" (from_u32 100) node in
  let? node := prop "xlnx,rx-ping-pong" (from_u32 1) node in
  let? node := prop "xlnx,tx-ping-pong" (from_u32 1) node in
  add_node "mdio" (fun mdio =>
    let? mdio := prop "#address-cells" (from_u32 1) mdio in
    let? mdio := prop "#size-cells" (from_u32 0) mdio in
    add_node "ethernet-phy@1" (fun phy =>
      let? phy := prop "reg" (from_u32 1) phy in
      prop "phandle" (from_u32 100) phy) mdio) node.

Context {H : Host}.

Definition check (b : bool) (s : IoSystem) : option IoSystem := if b then Some s else None.

(** [init_network], for one adapter *)
Definition init_adapter (config : NetworkConfig) (s : IoSystem) : option IoSystem :=
  let? mac := parse_mac (mac config) in
  let? s := check (forallb add_host_forward (forward config)) s in
  if decide (net_type config = ("virtio" : list Z)) then add_virtio (Network mac) s
  else if decide (net_type config = ("xemaclite" : list Z)) then
    let irq := next_irq s in
    let s := set_next_irq (irq + 1) s in
    let (base, s) := (match net_io_base config with None => (boundary s, set_boundary (boundary s + 0x2000) s) | Some v => (v, s) end) in
    let? pin := irq_pin irq in
    let? s := register_io_mem base 0x2000 (XemacLite pin) s in
    let? node := build_dt (base, 0x2000) (core_count + 1, irq) mac in
    Some (set_fdt (push_child node (fdt s)) s)
  else None.

Definition init_network (config : Config) (s : IoSystem) : option IoSystem :=
  if feature_usernet then each init_adapter (network config) s else Some s.

Definition init_virtio (config : Config) (s : IoSystem) : option IoSystem :=
  let? s := each (fun c s =>
      let? len := open_file (negb (shadow c)) (drive_path c) in
      (** [Block::new] *)
      let? s := check (len mod 512 =? 0) s in
      add_virtio (Block (shadow c) (drive_path c)) s) (drive config) s in
  let? s := each (fun c => add_virtio (Rng (random_type c) (seed c))) (random config) s in
  let? s := each (fun c s =>
      let? s := check (open_dir (share_path c)) s in
      (** [P9::new] *)
      let? s := check (usize_len (tag c) <=? 0xFFFF) s in
      add_virtio (P9 (tag c) (share_path c)) s) (share config) s in
  let? s := init_network config s in
  if virtio (console config) then add_virtio (Console (resize (console config))) s else Some s.

Definition init_rtc (s : IoSystem) : option IoSystem :=
  let irq := next_irq s in
  let mem := boundary s in
  let s := set_boundary (mem + 4096) (set_next_irq (irq + 2) s) in
  let? alarm := irq_pin irq in
  let? sec := irq_pin (irq + 1) in
  let? s := register_io_mem mem 4096 (ZyncMp alarm sec) s in
  let? soc := add_node ("rtc@" ++ hex mem)%list (fun node =>
    let? node := prop "compatible" (from_str "xlnx,zynqmp-rtc") node in
    let? node := prop "reg" (from_u64s [mem; 0x100]) node in
    let? node := prop "interrupt-parent" (from_u32 (core_count + 1)) node in
    let? node := prop "interrupts" (from_u32s [irq; irq + 1]) node in
    prop "interrupt-names" (from_strs ["alarm" : list Z; "sec" : list Z]) node) (fdt s) in
  Some (set_fdt soc s).

(** [IO_SYSTEM] *)
Definition io_system (config : Config) : option IoSystem :=
  let? s := new config in
  let? s := init_virtio config s in
  if rtc config then init_rtc s else Some s.

(** ** The device tree *)

Definition cpu_node (i : Z) (cpus : Node) : option Node :=
  add_node ("cpu@" ++ hex i)%list (fun cpu =>
    let? cpu := prop "clock-frequency" (from_u32 0) cpu in
    let? cpu := prop "mmu-type" (from_str "riscv,sv39") cpu in
    let? cpu := prop "riscv,isa" (from_str "rv64imafdc") cpu in
    let? cpu := prop "compatible" (from_str "riscv") cpu in
    let? cpu := prop "status" (from_str "okay") cpu in
    let? cpu := prop "reg" (from_u32 i) cpu in
    let? cpu := prop "device_type" (from_str "cpu") cpu in
    add_node "interrupt-controller" (fun intc =>
      let? intc := prop "#interrupt-cells" (from_u32 1) intc in
      let? intc := prop "interrupt-controller" from_unit intc in
      let? intc := prop "compatible" (from_str "riscv,cpu-intc") intc in
      prop "phandle" (from_u32 (i + 1)) intc) cpu) cpus.

Definition device_tree (config : Config) (s : IoSystem) : option Node :=
  let root := Fdt.new "" in
  let? root := prop "model" (from_str "riscv-virtio,qemu") root in
  let? root := prop "compatible" (from_str "riscv-virtio") root in
  let? root := prop "#address-cells" (from_u32 2) root in
  let? root := prop "#size-cells" (from_u32 2) root in
  let? root := add_node "chosen" (prop "bootargs" (from_str (cmdline config))) root in
  let? root := add_node "cpus" (fun cpus =>
    let? cpus := prop "timebase-frequency" (from_u32 1000000) cpus in
    let? cpus := prop "#address-cells" (from_u32 1) cpus in
    let? cpus := prop "#size-cells" (from_u32 0) cpus in
    each cpu_node (seqZ 0 core_count) cpus) root in
  let root := push_child (fdt s) root in
  add_node "memory@40000000" (fun node =>
    let? node := prop "reg" (from_u64s [0x40000000; u64 (memory config * 1024 * 1024)]) node in
    prop "device_type" (from_str "memory") node) root.
End System.

(** ** Accesses *)

(** [IO_BOUNDARY] after [init] *)
Definition IO_BOUNDARY : Z := 0x40000000.

(** The trait [IoMemory] *)
Class IoMemory (W : Type) : Type := {
  mem_read : Device -> Z -> Z -> W -> Z * W;
  mem_write : Device -> Z -> Z -> Z -> W -> W;
}.

Definition io_read {W} `{IoMemory W} (s : IoSystem) (addr size : Z) (w : W) : option (Z * W) :=
  if addr <? IO_BOUNDARY then
    match find_io_mem s addr with
    | Some (base, v) => Some (mem_read v (addr - base) size w)
    | None => Some (0, w)
    end
  else None.

Definition io_write {W} `{IoMemory W} (s : IoSystem) (addr value size : Z) (w : W) : option W :=
  if addr <? IO_BOUNDARY then
    match find_io_mem s addr with
    | Some (base, v) => Some (mem_write v (addr - base) value size w)
    | None => Some w
    end
  else None.

(** ** Escape sequences of the console *)

Inductive ConsoleAction : Type := SwitchModel | ExitProgram | PrintStats | RaiseTrap.

(** The closure given to [set_processor], with the variable it captures: the byte passed
    on, what is done, and [escape_hit] afterwards *)
Definition processor (escape_hit : bool) (x : Z) : option Z * option ConsoleAction * bool :=
  if negb escape_hit then
    if x =? 1 then (None, None, true) else (Some x, None, escape_hit)
  else if x =? 116 then (None, Some SwitchModel, escape_hit)
  else if x =? 120 then (None, Some ExitProgram, escape_hit)
  else if x =? 112 then (None, Some PrintStats, escape_hit)
  else if x =? 99 then (None, Some RaiseTrap, escape_hit)
  else if x =? 1 then (Some x, None, escape_hit)
  else (None, None, escape_hit).

Fixpoint process (escape_hit : bool) (l : list Z) : list Z :=
  match l with
  | [] => []
  | x :: l => let '(out, _, e) := processor escape_hit x in (match out with Some b => [b] | None => [] end ++ process e l)%list
  end.

End IoSystem.
