(* ===== verification/IoSystemProps.v ===== *)
(** The map of device memory: regions never overlap, an access reaches the device whose
    region holds its address, and the device tree tells the guest where the devices are. *)

From Stdlib Require Import ZArith Lia Bool List String.
From stdpp Require Import base gmap list.
From S2P Require Import Prelude Fdt IoSystem.
Import ListNotations.
Local Open Scope string_scope.
Local Open Scope list_scope.
Local Open Scope Z_scope.
Local Open Scope rust_scope.
Import Fdt IoSystem.

(** ** The map *)

Notation Regions := (gmap Z (Z * Device)) (only parsing).

Lemma next_back_spec (m : Regions) bound : match next_back m bound with
  | Some (k, v) => m !! k = Some v /\ k < bound /\ forall k', is_Some (m !! k') -> k' < bound -> k' <= k
  | None => forall k', is_Some (m !! k') -> bound <= k'
  end.
Proof.
  unfold next_back. set (f := fun (e : Z * (Z * Device)) best => _).
  assert (H : forall l, match fold_right f None l with
    | Some (k, v) => (k, v) ∈ l /\ k < bound /\ forall k' v', (k', v') ∈ l -> k' < bound -> k' <= k
    | None => forall k' v', (k', v') ∈ l -> bound <= k' end).
  { induction l as [|[k v] l IH]; cbn [fold_right]; [intros k' v' Hk; apply not_elem_of_nil in Hk as []|].
    unfold f at 1. cbn [fst]. destruct (Z.ltb_spec k bound) as [Hk|Hk].
    - destruct (fold_right f None l) as [[b w]|]; cbn [fst].
      + destruct IH as (I1 & I2 & I3). destruct (Z.ltb_spec b k) as [Hb|Hb].
        * split; [apply list_elem_of_here|]. split; [exact Hk|]. intros k' v' Hin Hlt. apply elem_of_cons in Hin as [Hin|Hin]; [congruence||(injection Hin as -> ->; lia)|].
          specialize (I3 _ _ Hin Hlt). lia.
        * split; [apply list_elem_of_further, I1|]. split; [exact I2|]. intros k' v' Hin Hlt. apply elem_of_cons in Hin as [Hin|Hin]; [injection Hin as -> ->; lia|eauto].
      + split; [apply list_elem_of_here|]. split; [exact Hk|]. intros k' v' Hin Hlt. apply elem_of_cons in Hin as [Hin|Hin]; [injection Hin as -> ->; lia|].
        specialize (IH _ _ Hin). lia.
    - destruct (fold_right f None l) as [[b w]|].
      + destruct IH as (I1 & I2 & I3). split; [apply list_elem_of_further, I1|]. split; [exact I2|]. intros k' v' Hin Hlt.
        apply elem_of_cons in Hin as [Hin|Hin]; [injection Hin as -> ->; lia|eauto].
      + intros k' v' Hin. apply elem_of_cons in Hin as [Hin|Hin]; [injection Hin as -> ->; lia|eauto]. }
  specialize (H (map_to_list m)). destruct (fold_right f None (map_to_list m)) as [[k v]|].
  - destruct H as (H1 & H2 & H3). split; [apply elem_of_map_to_list, H1|]. split; [exact H2|]. intros k' [v' Hv'] Hlt.
    apply (H3 k' v'); [apply elem_of_map_to_list, Hv'|exact Hlt].
  - intros k' [v' Hv']. apply (H k' v'), elem_of_map_to_list, Hv'.
Qed.

(** Regions have at least one byte and share none. *)
Definition disjoint_regions (m : Regions) : Prop :=
  (forall k v, m !! k = Some v -> 0 < v.1) /\
  (forall k v k' v', m !! k = Some v -> m !! k' = Some v' -> k < k' -> k + v.1 <= k').

(** Everything that starts before the end of a region that was accepted ends before it. *)
Lemma register_below base size d s s' : disjoint_regions (map s) -> register_io_mem base size d s = Some s' ->
  s' = set_map (<[base := (size, d)]> (map s)) s /\ forall k v, map s !! k = Some v -> k < base + size -> k + v.1 <= base.
Proof.
  intros [Hp Hd]. unfold register_io_mem. pose proof (next_back_spec (map s) (base + size)) as Hn.
  destruct (next_back (map s) (base + size)) as [[k v]|].
  - destruct Hn as (N1 & N2 & N3). destruct (Z.leb_spec (k + v.1) base) as [Hk|Hk]; [|discriminate]. intros E. injection E as <-. split; [reflexivity|].
    intros k' v' Hk' Hlt. specialize (N3 k' ltac:(eauto) Hlt). destruct (decide (k' = k)) as [->|N]; [rewrite N1 in Hk'; injection Hk' as <-; lia|].
    specialize (Hd k' v' k v Hk' N1 ltac:(lia)). pose proof (Hp _ _ N1). lia.
  - intros E. injection E as <-. split; [reflexivity|]. intros k v Hk Hlt. specialize (Hn k ltac:(eauto)). lia.
Qed.

Lemma register_disjoint base size d s s' : disjoint_regions (map s) -> 0 < size -> register_io_mem base size d s = Some s' ->
  disjoint_regions (map s') /\ map s !! base = None.
Proof.
  intros D Hs Hr. destruct (register_below _ _ _ _ _ D Hr) as [-> Hb]. destruct D as [Hp Hd]. split.
  - cbn [map set_map]. split.
    + intros k v. rewrite lookup_insert_Some. intros [[<- <-]|[_ Hk]]; [exact Hs|eauto].
    + intros k1 v1 k2 v2. rewrite !lookup_insert_Some. intros [[<- <-]|[N4 H1]] [[<- <-]|[N5 H2]] Hlt; cbn [fst]; [lia| | |eauto].
      * destruct (Z.ltb_spec k2 (base + size)) as [H|H]; [|lia]. specialize (Hb _ _ H2 H). pose proof (Hp _ _ H2). lia.
      * apply (Hb _ _ H1). lia.
  - destruct (map s !! base) as [w|] eqn:E; [|reflexivity]. specialize (Hb _ _ E ltac:(lia)). pose proof (Hp _ _ E). lia.
Qed.

(** An address is found exactly in the region that holds it. *)
Lemma find_spec s p b d : disjoint_regions (map s) ->
  find_io_mem s p = Some (b, d) <-> exists size, map s !! b = Some (size, d) /\ b <= p < b + size.
Proof.
  intros [Hp Hd]. unfold find_io_mem. pose proof (next_back_spec (map s) (p + 1)) as Hn. destruct (next_back (map s) (p + 1)) as [[k [sz e]]|].
  - destruct Hn as (N1 & N2 & N3). cbn [fst snd]. destruct (Z.leb_spec (k + sz) p) as [Hk|Hk]; split.
    + discriminate.
    + intros (size & Hb & Hr). specialize (N3 b ltac:(eauto) ltac:(lia)). destruct (decide (b = k)) as [->|N]; [rewrite N1 in Hb; injection Hb as <- <-; lia|].
      specialize (Hd b _ k _ Hb N1 ltac:(lia)). cbn in Hd. lia.
    + intros E. injection E as <- <-. exists sz. split; [exact N1|lia].
    + intros (size & Hb & Hr). specialize (N3 b ltac:(eauto) ltac:(lia)). destruct (decide (b = k)) as [->|N]; [rewrite N1 in Hb; injection Hb as <- <-; reflexivity|].
      specialize (Hd b _ k _ Hb N1 ltac:(lia)). cbn in Hd. lia.
  - split; [discriminate|]. intros (size & Hb & Hr). specialize (Hn b ltac:(eauto)). lia.
Qed.

(** ** The invariant of the system *)

Section Good.
Context (core_count : Z).

Definition virtio_node (mem irq : Z) : Node :=
  MkNode ("virtio@" ++ hex mem)
    [MkProp "reg" (concat (List.map (to_be_bytes 8) [mem; 0x1000]));
     MkProp "compatible" ("virtio,mmio" ++ [0]);
     MkProp "interrupts-extended" (concat (List.map (to_be_bytes 4) [core_count + 1; irq]))] [].

(** The other nodes of the bus *)
Definition plic_tree : Node :=
  MkNode "plic@200000"
    [MkProp "#interrupt-cells" (to_be_bytes 4 1); MkProp "interrupt-controller" [];
     MkProp "compatible" ("sifive,plic-1.0.0" ++ [0]); MkProp "riscv,ndev" (to_be_bytes 4 31);
     MkProp "reg" (concat (List.map (to_be_bytes 8) [0x200000; 0x400000]));
     MkProp "interrupts-extended" (concat (List.map (to_be_bytes 4) (concat (List.map (fun i => [i + 1; 9]) (seqZ 0 core_count)))));
     MkProp "phandle" (to_be_bytes 4 (core_count + 1))] [].

Definition rtc_node (mem alarm sec : Z) : Node :=
  MkNode ("rtc@" ++ hex mem)
    [MkProp "compatible" ("xlnx,zynqmp-rtc" ++ [0]);
     MkProp "reg" (concat (List.map (to_be_bytes 8) [mem; 0x100]));
     MkProp "interrupt-parent" (to_be_bytes 4 (core_count + 1));
     MkProp "interrupts" (concat (List.map (to_be_bytes 4) [alarm; sec]));
     MkProp "interrupt-names" (("alarm" ++ [0]) ++ ("sec" ++ [0]))] [].

Definition ethernet_node (mem irq : Z) (mac : list Z) : Node :=
  MkNode ("ethernet@" ++ hex mem)
    [MkProp "reg" (concat (List.map (to_be_bytes 8) [mem; 0x2000]));
     MkProp "interrupts-extended" (concat (List.map (to_be_bytes 4) [core_count + 1; irq]));
     MkProp "compatible" ("xlnx,xps-ethernetlite-3.00.a" ++ [0]); MkProp "device_type" ("network" ++ [0]);
     MkProp "local-mac-address" mac; MkProp "phy-handle" (to_be_bytes 4 100);
     MkProp "xlnx,rx-ping-pong" (to_be_bytes 4 1); MkProp "xlnx,tx-ping-pong" (to_be_bytes 4 1)]
    [MkNode "mdio" [MkProp "#address-cells" (to_be_bytes 4 1); MkProp "#size-cells" (to_be_bytes 4 0)]
       [MkNode "ethernet-phy@1" [MkProp "reg" (to_be_bytes 4 1); MkProp "phandle" (to_be_bytes 4 100)] []]].

(** The node that tells of a region: it has the region's address, and the interrupts of its
    device as interrupts of the PLIC, whose handle is [core_count + 1]. *)
Definition describes (e : Z * (Z * Device)) (n : Node) : Prop :=
  match e.2.2 with
  | Plic => e.1 = 0x200000 /\ e.2.1 = 0x400000 /\ n = plic_tree
  | Clint => False
  | Mmio irq _ => e.2.1 = 0x1000 /\ n = virtio_node e.1 irq
  | XemacLite irq => e.2.1 = 0x2000 /\ exists mac, n = ethernet_node e.1 irq mac
  | ZyncMp alarm sec => e.2.1 = 0x1000 /\ n = rtc_node e.1 alarm sec
  end.

(** The CLINT, which firmware knows, is the one device the tree does not name. *)
Definition announced (e : Z * (Z * Device)) : bool := match e.2.2 with Clint => false | _ => true end.

(** The children of the bus are, one for one, the regions that are announced. *)
Definition tree_matches (m : Regions) (cs : list Node) : Prop :=
  exists l, l ≡ₚ filter (fun e => announced e = true) (map_to_list m) /\ Forall2 describes l cs.

Definition irqs_of (d : Device) : list Z :=
  match d with Mmio irq _ | XemacLite irq => [irq] | ZyncMp a b => [a; b] | Plic | Clint => [] end.

Record good (s : IoSystem) : Prop := {
  g_disjoint : disjoint_regions (map s);
  g_next : 1 <= next_irq s;
  g_boundary : 0 <= boundary s;
  g_irqs b v i : map s !! b = Some v -> i ∈ irqs_of v.2 -> 1 <= i < next_irq s /\ i < 32;
  g_unique b v b' v' i : map s !! b = Some v -> map s !! b' = Some v' -> i ∈ irqs_of v.2 -> i ∈ irqs_of v'.2 -> b = b';
  g_tree : tree_matches (map s) (child (fdt s));
  g_wf : wf_node (fdt s) = true;
}.

Lemma tree_matches_insert m cs b v n : m !! b = None -> tree_matches m cs -> describes (b, v) n ->
  tree_matches (<[b := v]> m) (cs ++ [n]).
Proof.
  intros Hb (l & Hl & H2) Hd. exists (l ++ [(b, v)]). split; [|apply Forall2_app; [exact H2|auto]].
  rewrite (map_to_list_insert m b v Hb), filter_cons, decide_True by (unfold describes, announced in *; cbn in *; destruct v as [? []]; easy).
  rewrite Hl. symmetry. apply Permutation_cons_append.
Qed.

Lemma tree_matches_clint m cs b size : m !! b = None -> tree_matches m cs -> tree_matches (<[b := (size, Clint)]> m) cs.
Proof.
  intros Hb (l & Hl & H2). exists l. split; [|exact H2].
  rewrite (map_to_list_insert m b _ Hb), filter_cons, decide_False by discriminate. exact Hl.
Qed.

(** A region with the interrupts taken for it, and a tree that describes it *)
Lemma good_add base size d n bd f s s1 : good s -> 0 < size ->
  register_io_mem base size d (set_boundary bd (set_next_irq n s)) = Some s1 -> next_irq s <= n -> 0 <= bd ->
  (forall i, i ∈ irqs_of d -> next_irq s <= i < n /\ i < 32) -> wf_node f = true ->
  (d = Clint /\ child f = child (fdt s) \/ exists c, describes (base, (size, d)) c /\ child f = child (fdt s) ++ [c]) ->
  good (set_fdt f s1).
Proof.
  intros [G1 G2 G0 G3 G4 G5 G6] Hs Hr Hn Hbd Hi Hwf Hd. destruct (register_disjoint base size d (set_boundary bd (set_next_irq n s)) s1 G1 Hs Hr) as [D1 D2].
  destruct (register_below base size d (set_boundary bd (set_next_irq n s)) s1 G1 Hr) as [-> _]. split; cbn [map next_irq boundary fdt set_fdt set_map set_boundary set_next_irq] in *.
  - exact D1.
  - lia.
  - exact Hbd.
  - intros b v i. rewrite lookup_insert_Some. intros [[<- <-]|[_ Hb]] Hin; cbn [snd] in Hin.
    + specialize (Hi i Hin). lia.
    + specialize (G3 b v i Hb Hin). lia.
  - intros b v b' v' i. rewrite !lookup_insert_Some. intros [[<- <-]|[_ H1]] [[<- <-]|[_ H2]] I1 I2; cbn [snd] in *; [reflexivity| | |eauto].
    + specialize (Hi i I1). specialize (G3 _ _ _ H2 I2). lia.
    + specialize (Hi i I2). specialize (G3 _ _ _ H1 I1). lia.
  - destruct Hd as [[-> ->]|(c & Hc & ->)]; [apply tree_matches_clint|apply tree_matches_insert]; assumption.
  - exact Hwf.
Qed.

Lemma child_push c n : child (push_child c n) = child n ++ [c].
Proof. destruct n; reflexivity. Qed.

Lemma wf_push c n : wf_node (push_child c n) = wf_node n && wf_node c.
Proof. destruct n as [nm ps cs]. cbn. rewrite forallb_app. cbn. rewrite andb_true_r, !andb_assoc. reflexivity. Qed.

Lemma hex_digit_nonzero d : (0 =? hex_digit d) = false \/ d < 0.
Proof. unfold hex_digit. destruct (Z.ltb_spec d 10); destruct (Z.eqb_spec 0 (48 + d)), (Z.eqb_spec 0 (87 + d)); try (left; lia || reflexivity); right; lia. Qed.

Lemma has_nul_app a b : has_nul (a ++ b) = has_nul a || has_nul b.
Proof. apply existsb_app. Qed.

Lemma hex_no_nul n : has_nul (hex n) = false \/ n < 0.
Proof.
  unfold hex. generalize 16%nat. intros fuel. revert n. induction fuel as [|fuel IH]; intros n; cbn [hex_digits]; [left; reflexivity|].
  destruct (Z.ltb_spec n 16).
  - destruct (hex_digit_nonzero n) as [H'|H']; [left|right; exact H']. unfold has_nul. cbn [existsb]. rewrite H'. reflexivity.
  - left. rewrite has_nul_app. destruct (IH (n / 16)) as [-> |H']; [|pose proof (Z.div_pos n 16); lia].
    unfold has_nul. cbn [existsb orb]. destruct (hex_digit_nonzero (n mod 16)) as [-> |H']; [reflexivity|]. pose proof (Z.mod_pos_bound n 16). lia.
Qed.

Lemma good_virtio d s s' : good s -> add_virtio core_count d s = Some s' -> good s' /\ next_irq s' = next_irq s + 1.
Proof.
  intros G. unfold add_virtio, irq_pin. destruct ((0 <? next_irq s) && (next_irq s <? 32)) eqn:E; [|discriminate].
  apply andb_true_iff in E as [E1 E2]. apply Z.ltb_lt in E1, E2.
  destruct (register_io_mem _ _ _ _) as [s1|] eqn:Er; [|discriminate]. intros H. injection H as <-. pose proof (g_boundary _ G) as Hb.
  destruct (register_below _ _ _ _ _ (g_disjoint _ G : disjoint_regions (map (set_boundary _ (set_next_irq _ s)))) Er) as [E _]. split; [|rewrite E; reflexivity].
  change (MkNode _ _ []) with (virtio_node (boundary s) (next_irq s)).
  assert (Ef : fdt s1 = fdt s) by (rewrite E; reflexivity). rewrite Ef.
  eapply good_add; [exact G| |exact Er|lia|lia| | |].
  - lia.
  - cbn. intros i Hi. apply list_elem_of_singleton in Hi as ->. lia.
  - rewrite wf_push, (g_wf _ G). cbn [andb]. unfold virtio_node. cbn [wf_node forallb]. rewrite has_nul_app.
    destruct (hex_no_nul (boundary s)) as [-> |?]; [reflexivity|lia].
  - right. eexists. split; [|apply child_push]. split; reflexivity.
Qed.

(** A step that takes a region and adds its node *)
Lemma good_other base size d n bd c s s1 : good s -> 0 < size -> 0 <= bd ->
  register_io_mem base size d (set_boundary bd (set_next_irq n s)) = Some s1 -> next_irq s <= n ->
  (forall i, i ∈ irqs_of d -> next_irq s <= i < n /\ i < 32) -> describes (base, (size, d)) c -> wf_node c = true ->
  good (set_fdt (push_child c (fdt s1)) s1).
Proof.
  intros G Hs Hbd Hr Hn Hi Hd Hc.
  destruct (register_below _ _ _ _ _ (g_disjoint _ G : disjoint_regions (map (set_boundary _ (set_next_irq _ s)))) Hr) as [E _].
  assert (Ef : fdt s1 = fdt s) by (rewrite E; reflexivity). rewrite Ef.
  eapply good_add; [exact G|exact Hs|exact Hr|exact Hn|exact Hbd|exact Hi| |].
  - rewrite wf_push, (g_wf _ G), Hc. reflexivity.
  - right. exists c. split; [exact Hd|apply child_push].
Qed.

Lemma good_clint base bd s s1 : good s -> 0 <= bd -> register_io_mem base 0x10000 Clint (set_boundary bd s) = Some s1 -> good s1.
Proof.
  intros G Hbd Hr. replace (set_boundary bd s) with (set_boundary bd (set_next_irq (next_irq s) s)) in Hr by (destruct s; reflexivity).
  destruct (register_below _ _ _ _ _ (g_disjoint _ G : disjoint_regions (map (set_boundary _ (set_next_irq _ s)))) Hr) as [E _].
  replace s1 with (set_fdt (fdt s) s1) by (rewrite E; reflexivity).
  eapply good_add; [exact G| |exact Hr|lia|exact Hbd| |exact (g_wf _ G)|left; split; reflexivity]; [lia|].
  cbn. intros i Hi. apply not_elem_of_nil in Hi as [].
Qed.

Lemma each_good {A} (f : A -> IoSystem -> option IoSystem) l : (forall x s s', good s -> f x s = Some s' -> good s') ->
  forall s s', good s -> each f l s = Some s' -> good s'.
Proof.
  intros Hf. induction l as [|x l IH]; cbn [each]; intros s s' G H; [congruence|]. destruct (f x s) as [s1|] eqn:E; [|discriminate].
  apply (IH s1); [eapply Hf; eassumption|exact H].
Qed.

Lemma soc_wf : exists n, soc_node core_count = Some n /\ wf_node n = true /\ child n = [plic_tree].
Proof. eexists. split; [reflexivity|]. split; reflexivity. Qed.

(** The system with the PLIC alone *)
Definition plic_map : Regions := <[0x200000 := (0x400000, Plic)]> ∅.

Lemma good_plic soc : wf_node soc = true -> child soc = [plic_tree] -> good (MkIo plic_map 1 0x600000 soc).
Proof.
  intros Hw Hc. assert (Hl : forall b v, plic_map !! b = Some v -> b = 0x200000 /\ v = (0x400000, Plic)).
  { intros b v. unfold plic_map. rewrite lookup_insert_Some, lookup_empty. intros [[<- <-]|[_ ?]]; [auto|discriminate]. }
  split; cbn [map next_irq boundary fdt]; try lia; try exact Hw.
  - split; [intros k v Hk; apply Hl in Hk as [-> ->]; cbn; lia|]. intros k v k' v' Hk Hk' Hlt. apply Hl in Hk as [-> _], Hk' as [-> _]. lia.
  - intros b v i Hb Hi. apply Hl in Hb as [-> ->]. apply not_elem_of_nil in Hi as [].
  - intros b v b' v' i Hb _ Hi. apply Hl in Hb as [-> ->]. apply not_elem_of_nil in Hi as [].
  - rewrite Hc. apply (tree_matches_insert ∅ []); [apply lookup_empty| |cbn; auto].
    exists []. split; [rewrite map_to_list_empty; reflexivity|constructor].
Qed.

Lemma good_new config s : new core_count config = Some s -> good s.
Proof.
  unfold new. destruct (core_count =? 0); [discriminate|]. destruct soc_wf as (soc & -> & Hsoc & Hch).
  change (register_io_mem 0x200000 0x400000 Plic (MkIo ∅ 1 0x600000 soc)) with (Some (MkIo plic_map 1 0x600000 soc)). cbv iota beta.
  pose proof (good_plic soc Hsoc Hch) as G1. set (s1 := MkIo plic_map 1 0x600000 soc) in *.
  destruct (clint config) as [io_base|]; [|congruence].
  pose proof (g_boundary _ G1) as Hb. destruct io_base as [b|]; intros H.
  - apply (good_clint b (boundary s1) s1 s G1 Hb). exact H.
  - apply (good_clint (boundary s1) (boundary s1 + 0x10000) s1 s G1 ltac:(lia) H).
Qed.

Lemma wf_named t b ps cs : 0 <= b -> has_nul t = false -> forallb (fun p => negb (has_nul (prop_name p))) ps && forallb wf_node cs = true ->
  wf_node (MkNode (t ++ hex b) ps cs) = true.
Proof. intros Hb Ht Hr. cbn [wf_node]. rewrite has_nul_app, Ht. destruct (hex_no_nul b) as [-> |?]; [|lia]. rewrite <- andb_assoc, Hr. reflexivity. Qed.

Lemma good_rtc s s' : good s -> init_rtc core_count s = Some s' -> good s'.
Proof.
  intros G. unfold init_rtc, irq_pin. destruct ((0 <? next_irq s) && (next_irq s <? 32)) eqn:E1; [|discriminate].
  destruct ((0 <? next_irq s + 1) && (next_irq s + 1 <? 32)) eqn:E2; [|discriminate].
  apply andb_true_iff in E1 as [E1 E1'], E2 as [E2 E2']. apply Z.ltb_lt in E1, E1', E2, E2'. pose proof (g_boundary _ G) as Hb.
  destruct (register_io_mem _ _ _ _) as [s1|] eqn:Er; [|discriminate]. intros H. apply (inj Some) in H. subst s'.
  refine (good_other _ _ _ _ _ _ s s1 G _ _ Er _ _ _ _); [lia|lia|lia| |split; reflexivity|].
  - cbn. intros i Hi. apply elem_of_cons in Hi as [->|Hi]; [lia|]. apply list_elem_of_singleton in Hi as ->. lia.
  - apply wf_named; [lia|reflexivity|reflexivity].
Qed.

Context {H : Host}.

Lemma good_adapter c s s' : (forall b, net_io_base c = Some b -> 0 <= b) -> good s -> init_adapter core_count c s = Some s' -> good s'.
Proof.
  intros Hc G. unfold init_adapter. destruct (parse_mac _) as [mc|]; [|discriminate]. unfold check. destruct (forallb _ _); [|discriminate].
  destruct (decide _); [intros E; apply (good_virtio _ _ _ G E)|]. destruct (decide _); [|discriminate].
  assert (Hreg : forall base bd, 0 <= base -> 0 <= bd ->
    (let? pin := irq_pin (next_irq s) in
     let? s1 := register_io_mem base 0x2000 (XemacLite pin) (set_boundary bd (set_next_irq (next_irq s + 1) s)) in
     let? node := build_dt (base, 0x2000) (core_count + 1, next_irq s) mc in
     Some (set_fdt (push_child node (fdt s1)) s1)) = Some s' -> good s').
  { intros base bd Hbase Hbd. unfold irq_pin. destruct ((0 <? next_irq s) && (next_irq s <? 32)) eqn:E1; [|discriminate].
    apply andb_true_iff in E1 as [E1 E1']. apply Z.ltb_lt in E1, E1'.
    destruct (register_io_mem _ _ _ _) as [s1|] eqn:Er; [|discriminate]. intros E. apply (inj Some) in E. subst s'.
    refine (good_other _ _ _ _ _ _ s s1 G _ _ Er _ _ _ _); [lia|lia|lia| |split; [reflexivity|exists mc; reflexivity]|].
    - cbn. intros i Hi. apply list_elem_of_singleton in Hi as ->. lia.
    - apply (wf_named _ base); [lia|reflexivity|reflexivity]. }
  pose proof (g_boundary _ G) as Hb. destruct (net_io_base c) as [v|] eqn:Ev.
  - intros E. apply (Hreg v (boundary s)); [auto|exact Hb|]. destruct s; exact E.
  - intros E. apply (Hreg (boundary s) (boundary s + 0x2000)); [exact Hb|lia|exact E].
Qed.

(** Addresses of the configuration are [usize]. *)
Definition config_ok (config : Config) : Prop := Forall (fun c => forall b, net_io_base c = Some b -> 0 <= b) (network config).

Lemma good_system config s : config_ok config -> io_system core_count config = Some s -> good s.
Proof.
  intros Hc. unfold io_system. destruct (new core_count config) as [s0|] eqn:E0; [|discriminate]. apply good_new in E0 as G0.
  destruct (init_virtio core_count config s0) as [s1|] eqn:E1; [|discriminate].
  assert (G1 : good s1); [|destruct (rtc config); [apply good_rtc, G1|intros E; injection E as <-; exact G1]].
  unfold init_virtio in E1.
  destruct (each _ (drive config) s0) as [s2|] eqn:E2; [|discriminate].
  destruct (each _ (random config) s2) as [s3|] eqn:E3; [|discriminate].
  destruct (each _ (share config) s3) as [s4|] eqn:E4; [|discriminate].
  destruct (init_network core_count config s4) as [s5|] eqn:E5; [|discriminate].
  assert (Hv : forall d x y, good x -> add_virtio core_count d x = Some y -> good y) by (intros d x y G E; apply (good_virtio _ _ _ G E)).
  assert (G2 : good s2).
  { revert E2. apply each_good; [|exact G0]. intros c x y G. unfold check.
    destruct (open_file _ _) as [len|]; [|discriminate]. destruct (len mod 512 =? 0); [apply Hv, G|discriminate]. }
  assert (G3 : good s3) by (revert E3; apply each_good; [intros c x y G; apply Hv, G|exact G2]).
  assert (G4 : good s4).
  { revert E4. apply each_good; [|exact G3]. intros c x y G. unfold check.
    destruct (open_dir _); [|discriminate]. destruct (_ <=? _); [apply Hv, G|discriminate]. }
  assert (G5 : good s5).
  { revert E5. unfold init_network. destruct feature_usernet; [|congruence]. clear -Hc G4. revert s4 G4. unfold config_ok in Hc.
    induction Hc as [|c l Hc _ IH]; cbn [each]; intros s4 G4; [congruence|]. destruct (init_adapter core_count c s4) as [s6|] eqn:E; [|discriminate].
    apply IH, (good_adapter c s4); assumption. }
  destruct (virtio (console config)); [apply (Hv _ _ _ G5 E1)|congruence].
Qed.
End Good.

(** ** The device tree *)

(** Building keeps names fit for encoding, and the children there are. *)
Definition keeps_wf (f : Node -> option Node) : Prop := forall n n', f n = Some n' -> wf_node n = true -> wf_node n' = true /\ child n ⊆ child n'.

Lemma kw_prop nm v : has_nul nm = false -> keeps_wf (prop nm v).
Proof.
  intros Hn [x ps cs] n'. unfold prop, add_prop. destruct v as [v|]; [|discriminate]. intros E. injection E as <-. cbn [wf_node child]. rewrite forallb_app.
  cbn [forallb prop_name]. rewrite Hn. cbn [negb]. rewrite !andb_true_r. auto.
Qed.

Lemma kw_bind f g : keeps_wf f -> keeps_wf g -> keeps_wf (fun n => let? n := f n in g n).
Proof.
  intros Hf Hg n n'. destruct (f n) as [n1|] eqn:E; [|discriminate]. intros E' Hw. destruct (Hf _ _ E Hw) as [H1 H2]. destruct (Hg _ _ E' H1) as [H3 H4].
  split; [exact H3|]. etransitivity; eassumption.
Qed.

Lemma kw_node nm build : has_nul nm = false -> keeps_wf build -> keeps_wf (add_node nm build).
Proof.
  intros Hn Hb n n'. unfold add_node. destruct (build (Fdt.new nm)) as [c|] eqn:E; [|discriminate]. intros E' Hw. injection E' as <-.
  destruct (Hb _ _ E) as [Hc _]; [cbn [Fdt.new wf_node forallb]; rewrite Hn; reflexivity|]. rewrite wf_push, child_push, Hw, Hc. split; [reflexivity|]. intros x Hx. apply elem_of_app. auto.
Qed.

Lemma kw_each {A} (f : A -> Node -> option Node) l : Forall (fun x => keeps_wf (f x)) l -> keeps_wf (each f l).
Proof.
  induction 1 as [|x l Hx _ IH]; cbn [each]; [intros n n' E Hw; injection E as <-; auto|]. apply (kw_bind (f x) (each f l)); assumption.
Qed.

Ltac keep_wf := repeat match goal with
  | |- keeps_wf (prop _ _) => apply kw_prop; reflexivity
  | |- keeps_wf (fun n => prop ?a ?b n) => apply (kw_prop a b); reflexivity
  | |- keeps_wf (fun n => match ?f n with _ => _ end) => apply (kw_bind f)
  | |- keeps_wf (add_node _ _) => apply kw_node
  | |- keeps_wf (fun n => add_node ?a ?b n) => apply (kw_node a b)
  | |- has_nul _ = false => reflexivity
  end.

Lemma kw_cpu i : 0 <= i -> keeps_wf (cpu_node i).
Proof.
  intros Hi. unfold cpu_node. keep_wf. rewrite has_nul_app. destruct (hex_no_nul i) as [-> |?]; [reflexivity|lia].
Qed.

Lemma tree_ok core_count config s t : 0 <= core_count -> wf_node (fdt s) = true -> device_tree core_count config s = Some t ->
  wf_node t = true /\ fdt s ∈ child t.
Proof.
  intros Hcore Hw Ht. set (front := fun root : Node =>
    let? root := prop "model" (from_str "riscv-virtio,qemu") root in
    let? root := prop "compatible" (from_str "riscv-virtio") root in
    let? root := prop "#address-cells" (from_u32 2) root in
    let? root := prop "#size-cells" (from_u32 2) root in
    let? root := add_node "chosen" (prop "bootargs" (from_str (cmdline config))) root in
    add_node "cpus" (fun cpus =>
      let? cpus := prop "timebase-frequency" (from_u32 1000000) cpus in
      let? cpus := prop "#address-cells" (from_u32 1) cpus in
      let? cpus := prop "#size-cells" (from_u32 0) cpus in
      each cpu_node (seqZ 0 core_count) cpus) root).
  set (back := add_node "memory@40000000" (fun node =>
    let? node := prop "reg" (from_u64s [0x40000000; u64 (memory config * 1024 * 1024)]) node in
    prop "device_type" (from_str "memory") node)).
  assert (E : device_tree core_count config s = let? root := front (Fdt.new "") in back (push_child (fdt s) root)).
  { unfold device_tree, front. repeat (match goal with |- context [match prop ?a ?b ?c with _ => _ end] => destruct (prop a b c); [|reflexivity] end).
    destruct (add_node "chosen" _ _); [|reflexivity]. destruct (add_node "cpus" _ _); reflexivity. }
  assert (Kf : keeps_wf front).
  { unfold front. keep_wf. apply kw_each. apply Forall_forall. intros i Hi. apply elem_of_seqZ in Hi. apply kw_cpu. lia. }
  assert (Kb : keeps_wf back) by (unfold back; keep_wf).
  rewrite E in Ht. destruct (front (Fdt.new "")) as [root|] eqn:Ef; [|discriminate]. destruct (Kf _ _ Ef eq_refl) as [Hr _].
  destruct (Kb _ _ Ht) as [Hb Hin]; [rewrite wf_push, Hr, Hw; reflexivity|]. split; [exact Hb|]. apply Hin. rewrite child_push. apply elem_of_app. right. apply list_elem_of_here.
Qed.

(** C8. The map of device memory, whatever the configuration: once the system has been set up,
    regions do not overlap, the lookup finds for an address exactly the region that holds
    it, so that an access reaches that device with its offset and one outside every region
    reads 0 and is otherwise lost, and no two devices share an interrupt of the PLIC. *)
Theorem io_map {H : Host} {W} `{IoMemory W} core_count config s : config_ok config -> io_system core_count config = Some s ->
  (forall p b d, find_io_mem s p = Some (b, d) <-> exists size, map s !! b = Some (size, d) /\ b <= p < b + size) /\
  (forall b size d addr len w, map s !! b = Some (size, d) -> b <= addr < b + size -> addr < IO_BOUNDARY ->
     io_read s addr len w = Some (mem_read d (addr - b) len w)) /\
  (forall addr value len w, (forall b size d, map s !! b = Some (size, d) -> ~ b <= addr < b + size) -> addr < IO_BOUNDARY ->
     io_read s addr len w = Some (0, w) /\ io_write s addr value len w = Some w) /\
  (forall b v b' v' i, map s !! b = Some v -> map s !! b' = Some v' -> i ∈ irqs_of v.2 -> i ∈ irqs_of v'.2 -> 0 < i < 32 /\ b = b').
Proof.
  intros Hc Hs. apply good_system in Hs as G; [|exact Hc]. pose proof (fun p b d => find_spec s p b d (g_disjoint _ _ G)) as F.
  split; [exact F|]. split; [|split].
  - intros b size d addr len w Hm Hr Ha. unfold io_read. rewrite (proj2 (Z.ltb_lt _ _) Ha). rewrite (proj2 (F addr b d)) by eauto. reflexivity.
  - intros addr value len w Hno Ha. unfold io_read, io_write. rewrite (proj2 (Z.ltb_lt _ _) Ha).
    destruct (find_io_mem s addr) as [[b d]|] eqn:E; [|auto]. apply F in E as (size & Hm & Hr). destruct (Hno _ _ _ Hm Hr).
  - intros b v b' v' i H1 H2 I1 I2. split; [pose proof (g_irqs _ _ G _ _ _ H1 I1); lia|]. exact (g_unique _ _ G _ _ _ _ _ H1 H2 I1 I2).
Qed.

(** The root has four children, of which the third is the bus. *)
Lemma tree_shape core_count config s t : device_tree core_count config s = Some t ->
  exists chosen cpus mem, child t = [chosen; cpus; fdt s; mem] /\
    name chosen = ("chosen" : list Z) /\ name cpus = ("cpus" : list Z) /\ name mem = ("memory@40000000" : list Z).
Proof.
  assert (Hn : forall nm build n n', add_node nm build n = Some n' -> (forall x y, build x = Some y -> name y = name x) ->
    exists c, child n' = child n ++ [c] /\ name c = nm).
  { intros nm build n n'. unfold add_node. destruct (build (Fdt.new nm)) as [c|] eqn:Eb; [|discriminate]. intros E Hb. injection E as <-.
    exists c. split; [apply child_push|]. apply Hb in Eb. exact Eb. }
  assert (Hp : forall nm v n n', prop nm v n = Some n' -> name n' = name n /\ child n' = child n).
  { intros nm v [x ps cs] n'. unfold prop, add_prop. destruct v; [|discriminate]. intros E. injection E as <-. auto. }
  assert (Ha : forall nm build n n', add_node nm build n = Some n' -> name n' = name n).
  { intros nm build [x ps cs] n'. unfold add_node. destruct (build _); [|discriminate]. intros E. injection E as <-. reflexivity. }
  unfold device_tree.
  repeat (match goal with |- context [match prop ?a ?b ?c with _ => _ end] =>
    let n := fresh "n" in let E := fresh "P" in destruct (prop a b c) as [n|] eqn:E; [|discriminate] end).
  destruct (add_node "chosen" _ _) as [n3|] eqn:E3; [|discriminate]. destruct (add_node "cpus" _ _) as [n4|] eqn:E4; [|discriminate]. intros E5.
  apply Hn in E3 as (chosen & C3 & N3); [|intros x y H; apply Hp in H; apply H].
  apply Hn in E4 as (cpus & C4 & N4).
  2: { intros x y. repeat (match goal with |- context [match prop ?a ?b ?c with _ => _ end] =>
         let n := fresh "n" in let E := fresh "P" in destruct (prop a b c) as [n|] eqn:E; [|discriminate] end).
       intros H. transitivity (name n7); [|apply Hp in P3, P4, P5; destruct P3, P4, P5; congruence].
       revert H. clear -Ha. generalize n7 (seqZ 0 core_count). intros m l. revert m. induction l as [|i l IH]; cbn [each]; intros m H; [congruence|].
       destruct (cpu_node i m) as [n8|] eqn:E8; [|discriminate]. unfold cpu_node in E8. apply Ha in E8. rewrite <- E8. apply IH, H. }
  apply Hn in E5 as (mem & C5 & N5).
  2: { intros x y. destruct (prop "reg" _ x) as [n9|] eqn:E; [|discriminate]. intros H. apply Hp in E, H. destruct E, H. congruence. }
  exists chosen, cpus, mem. split; [|auto]. rewrite C5, child_push, C4, C3. apply Hp in P, P0, P1, P2. destruct P, P0, P1, P2.
  assert (child n2 = []) as -> by (transitivity (child (Fdt.new "")); [congruence|reflexivity]). reflexivity.
Qed.

(** C9. The guest finds its devices, and nothing else.  A reader of the device tree blob the
    loader places in memory gets the tree, of which the third part is the bus; the nodes
    of the bus are, one for one, the regions of the map other than the CLINT's, and each
    node is the one that belongs to the device there (the PLIC, a virtio device, the
    Ethernet adapter or the clock), with the address of the region and the interrupts
    the device raises; these are interrupts of the PLIC, no two devices share one, and an
    access to the region reaches the device. *)
Theorem guest_finds_devices {H : Host} {W} `{IoMemory W} core_count config s t : 0 <= core_count -> config_ok config ->
  io_system core_count config = Some s -> device_tree core_count config s = Some t -> usize_len (encode t) < 2 ^ 32 ->
  exists chosen cpus soc mem regions, read_tree (encode t) = Some t /\ child t = [chosen; cpus; soc; mem] /\
    regions ≡ₚ filter (fun e => announced e = true) (map_to_list (map s)) /\ Forall2 (describes core_count) regions (child soc) /\
    forall b size d, (b, (size, d)) ∈ regions ->
      (forall irq, irq ∈ irqs_of d -> 0 < irq < 32 /\ forall b' v, map s !! b' = Some v -> irq ∈ irqs_of v.2 -> b' = b) /\
      forall addr len w, b <= addr < b + size -> addr < IO_BOUNDARY -> io_read s addr len w = Some (mem_read d (addr - b) len w).
Proof.
  intros Hcore Hc Hs Ht Hlen. apply good_system in Hs as G; [|exact Hc]. destruct (tree_ok _ _ _ _ Hcore (g_wf _ _ G) Ht) as [Hw _].
  destruct (tree_shape _ _ _ _ Ht) as (chosen & cpus & mem & Hch & _). destruct (g_tree _ _ G) as (l & Hl & H2).
  exists chosen, cpus, (fdt s), mem, l. split; [apply encode_reads; assumption|]. split; [exact Hch|]. split; [exact Hl|]. split; [exact H2|].
  intros b size d Hin. rewrite Hl in Hin. apply list_elem_of_filter in Hin as [_ Hin]. apply elem_of_map_to_list in Hin. split.
  - intros irq Hirq. split; [pose proof (g_irqs _ _ G _ _ irq Hin Hirq); lia|]. intros b' v Hb' Hv.
    exact (g_unique _ _ G _ _ _ _ _ Hb' Hin Hv Hirq).
  - intros addr len w Hr Ha. unfold io_read. rewrite (proj2 (Z.ltb_lt _ _) Ha).
    rewrite (proj2 (find_spec s addr b d (g_disjoint _ _ G))) by eauto. reflexivity.
Qed.

(** ** Setting up *)

Section Starts.
Context (core_count : Z).

(** Addresses are handed out upwards; [n] interrupts are left. *)
Record ready (n : Z) (s : IoSystem) : Prop := {
  r_good : good core_count s;
  r_below b v : map s !! b = Some v -> 0x200000 <= b /\ b + v.1 <= boundary s;
  r_irqs : 1 <= next_irq s /\ next_irq s + n <= 32;
  r_limit : 0x600000 <= boundary s <= 0x610000 + (next_irq s - 1) * 0x2000;
}.

(** At the boundary there is room. *)
Lemma register_fits n s size d bd m : ready n s -> 0 < size ->
  register_io_mem (boundary s) size d (set_boundary bd (set_next_irq m s)) =
  Some (MkIo (<[boundary s := (size, d)]> (map s)) m bd (fdt s)).
Proof.
  intros R Hs. unfold register_io_mem. cbn [map set_boundary set_next_irq]. pose proof (next_back_spec (map s) (boundary s + size)) as Hn.
  destruct (next_back (map s) _) as [[k v]|]; [|reflexivity]. destruct Hn as (N1 & _ & _). destruct (r_below _ _ R _ _ N1) as [_ Hb].
  rewrite (proj2 (Z.leb_le _ _) Hb). reflexivity.
Qed.

Lemma ready_after n size d m bd f s s' : ready n s -> good core_count s' -> s' = MkIo (<[boundary s := (size, d)]> (map s)) m bd f ->
  next_irq s < m -> bd = boundary s + size -> 0 < size <= (m - next_irq s) * 0x2000 -> ready (n - (m - next_irq s)) s'.
Proof.
  intros [G B I L] G' -> Hm -> Hs. split; cbn [map next_irq boundary] in *; [exact G'| |lia|lia].
  intros b v. rewrite lookup_insert_Some. intros [[<- <-]|[_ Hb]]; cbn [fst]; [lia|]. specialize (B _ _ Hb). lia.
Qed.

Lemma ready_pin n s k : ready n s -> 0 <= k < n -> irq_pin (next_irq s + k) = Some (next_irq s + k).
Proof. intros R Hk. destruct (r_irqs _ _ R). unfold irq_pin. rewrite (proj2 (Z.ltb_lt _ _)), (proj2 (Z.ltb_lt _ _)) by lia. reflexivity. Qed.

Lemma virtio_starts n d s : ready n s -> 0 < n -> exists s', add_virtio core_count d s = Some s' /\ ready (n - 1) s'.
Proof.
  intros R Hn. assert (E : exists f, add_virtio core_count d s = Some (MkIo (<[boundary s := (4096, Mmio (next_irq s) d)]> (map s)) (next_irq s + 1) (boundary s + 4096) f)).
  { unfold add_virtio. pose proof (ready_pin n s 0 R ltac:(lia)) as Hp. rewrite Z.add_0_r in Hp. rewrite Hp, (register_fits n) by (exact R || lia). eexists. reflexivity. }
  destruct E as [f E]. eexists. split; [exact E|]. destruct (good_virtio core_count d s _ (r_good _ _ R) E) as [G' _].
  replace (n - 1) with (n - (next_irq s + 1 - next_irq s)) by lia. eapply ready_after; [exact R|exact G'|reflexivity|lia|lia|lia].
Qed.

Lemma each_starts {A} (f : A -> IoSystem -> option IoSystem) l : (forall x n s, x ∈ l -> ready n s -> 0 < n -> exists s', f x s = Some s' /\ ready (n - 1) s') ->
  forall n s, ready n s -> Z.of_nat (length l) <= n -> exists s', each f l s = Some s' /\ ready (n - Z.of_nat (length l)) s'.
Proof.
  induction l as [|x l IH]; intros Hf n s R Hl; cbn [each length] in *.
  - exists s. split; [reflexivity|]. rewrite Z.sub_0_r. exact R.
  - destruct (Hf x n s ltac:(apply list_elem_of_here) R ltac:(lia)) as (s1 & -> & R1).
    destruct (IH (fun y n s Hy => Hf y n s (list_elem_of_further _ _ _ Hy)) (n - 1) s1 R1 ltac:(lia)) as (s2 & -> & R2).
    exists s2. split; [reflexivity|]. replace (n - Z.of_nat (S (length l))) with (n - 1 - Z.of_nat (length l)) by lia. exact R2.
Qed.

Context {H : Host}.

Lemma adapter_starts n c s : ready n s -> 0 < n -> is_Some (parse_mac (mac c)) -> forallb add_host_forward (forward c) = true ->
  net_type c = ("virtio" : list Z) \/ net_type c = ("xemaclite" : list Z) -> net_io_base c = None ->
  exists s', init_adapter core_count c s = Some s' /\ ready (n - 1) s'.
Proof.
  intros R Hn [mc Hmc] Hf Ht Hb. destruct (decide (net_type c = ("virtio" : list Z))) as [Ev|Nv].
  { destruct (virtio_starts n (Network mc) s R Hn) as (s' & E & R'). exists s'. split; [|exact R']. unfold init_adapter, check. rewrite Hmc, Hf, decide_True by exact Ev. exact E. }
  destruct Ht as [Ht|Ht]; [contradiction|].
  assert (E : exists f, init_adapter core_count c s = Some (MkIo (<[boundary s := (0x2000, XemacLite (next_irq s))]> (map s)) (next_irq s + 1) (boundary s + 0x2000) f)).
  { unfold init_adapter, check. rewrite Hmc, Hf, decide_False, decide_True, Hb by assumption. cbv zeta beta iota.
    pose proof (ready_pin n s 0 R ltac:(lia)) as Hp. rewrite Z.add_0_r in Hp. rewrite Hp. cbn [boundary set_next_irq].
    pose proof (register_fits n s 0x2000 (XemacLite (next_irq s)) (boundary s + 0x2000) (next_irq s + 1) R ltac:(lia)) as Hr. rewrite Hr. eexists. reflexivity. }
  destruct E as [f E]. eexists. split; [exact E|]. assert (G' := good_adapter core_count c s _ ltac:(intros b Eb; congruence) (r_good _ _ R) E).
  replace (n - 1) with (n - (next_irq s + 1 - next_irq s)) by lia. eapply ready_after; [exact R|exact G'|reflexivity|lia|lia|lia].
Qed.

(** How many interrupts a configuration takes *)
Definition irqs_needed (config : Config) : Z :=
  Z.of_nat (length (drive config)) + Z.of_nat (length (random config)) + Z.of_nat (length (share config)) +
  (if feature_usernet then Z.of_nat (length (network config)) else 0) + (if virtio (console config) then 1 else 0) + (if rtc config then 2 else 0).

(** No address is given, the host grants what is asked (the files of the drives open and
    have whole sectors, the shared directories exist, the adapters' addresses are well
    formed and their ports can be forwarded), the adapters are of a known type, and the
    tags of the shares have a length of 16 bits. *)
Record plain (config : Config) : Prop := {
  p_clint : clint config = None \/ clint config = Some None;
  p_drive c : c ∈ drive config -> exists len, open_file (negb (shadow c)) (drive_path c) = Some len /\ len mod 512 = 0;
  p_share c : c ∈ share config -> open_dir (share_path c) = true;
  p_tag c : c ∈ share config -> usize_len (tag c) <= 0xFFFF;
  p_mac c : c ∈ network config -> is_Some (parse_mac (mac c));
  p_forward c : c ∈ network config -> forallb add_host_forward (forward c) = true;
  p_type c : c ∈ network config -> net_type c = ("virtio" : list Z) \/ net_type c = ("xemaclite" : list Z);
  p_base c : c ∈ network config -> net_io_base c = None;
}.

Lemma plain_ok config : plain config -> config_ok config.
Proof. intros P. apply Forall_forall. intros c Hc b. rewrite (p_base _ P _ Hc). discriminate. Qed.

Lemma new_ready config : core_count <> 0 -> plain config -> exists s, new core_count config = Some s /\ ready 31 s.
Proof.
  intros Hcore P. destruct (soc_wf core_count) as (soc & Esoc & _). set (m0 := <[0x200000 := (0x400000, Plic)]> (∅ : gmap Z (Z * Device))).
  assert (Hm0 : forall b v, m0 !! b = Some v -> 0x200000 <= b /\ b + v.1 <= 0x600000).
  { intros b v. unfold m0. rewrite lookup_insert_Some, lookup_empty. intros [[<- <-]|[_ ?]]; [cbn; lia|discriminate]. }
  assert (E : exists s, new core_count config = Some s /\ next_irq s = 1 /\ 0x600000 <= boundary s <= 0x610000 /\
    forall b v, map s !! b = Some v -> 0x200000 <= b /\ b + v.1 <= boundary s).
  { unfold new. rewrite (proj2 (Z.eqb_neq _ _) Hcore), Esoc. change (register_io_mem 0x200000 0x400000 Plic (MkIo ∅ 1 0x600000 soc)) with (Some (MkIo m0 1 0x600000 soc)).
    destruct (p_clint _ P) as [-> | ->]; cbv beta iota zeta.
    - eexists. split; [reflexivity|]. cbn [next_irq boundary map]. split; [reflexivity|]. split; [lia|exact Hm0].
    - eexists. split; [reflexivity|]. cbn [next_irq boundary map set_map set_boundary]. split; [reflexivity|]. split; [lia|].
      intros b v. rewrite lookup_insert_Some. intros [[<- <-]|[_ Hb]]; [cbn; lia|]. specialize (Hm0 _ _ Hb). lia. }
  destruct E as (s & E & E1 & E2 & E3). exists s. split; [exact E|]. split; [eapply good_new; exact E|exact E3|lia|lia].
Qed.

Lemma rtc_starts n s : ready n s -> 1 < n -> exists s', init_rtc core_count s = Some s' /\ ready (n - 2) s'.
Proof.
  intros R Hn. assert (E : exists f, init_rtc core_count s = Some (MkIo (<[boundary s := (4096, ZyncMp (next_irq s) (next_irq s + 1))]> (map s)) (next_irq s + 2) (boundary s + 4096) f)).
  { unfold init_rtc. pose proof (ready_pin n s 0 R ltac:(lia)) as Hp. rewrite Z.add_0_r in Hp.
    rewrite Hp, (ready_pin n s 1 R) by lia. rewrite (register_fits n) by (exact R || lia). eexists. reflexivity. }
  destruct E as [f E]. eexists. split; [exact E|]. assert (G' := good_rtc core_count s _ (r_good _ _ R) E).
  replace (n - 2) with (n - (next_irq s + 2 - next_irq s)) by lia. eapply ready_after; [exact R|exact G'|reflexivity|lia|lia|lia].
Qed.

Lemma network_starts config n s : plain config -> ready n s -> (if feature_usernet then Z.of_nat (length (network config)) else 0) <= n ->
  exists s', init_network core_count config s = Some s' /\ ready (n - if feature_usernet then Z.of_nat (length (network config)) else 0) s'.
Proof.
  intros P R Hn. unfold init_network. destruct feature_usernet; [|exists s; rewrite Z.sub_0_r; auto].
  apply each_starts; [|exact R|exact Hn]. intros c n' s' Hc R' Hn'. apply adapter_starts; try assumption; [apply (p_mac _ P), Hc|apply (p_forward _ P), Hc|apply (p_type _ P), Hc|apply (p_base _ P), Hc].
Qed.

Lemma drives_start config n s : plain config -> ready n s -> Z.of_nat (length (drive config)) <= n ->
  exists s', each (fun c s =>
      let? len := open_file (negb (shadow c)) (drive_path c) in
      let? s := check (len mod 512 =? 0) s in
      add_virtio core_count (Block (shadow c) (drive_path c)) s) (drive config) s = Some s' /\ ready (n - Z.of_nat (length (drive config))) s'.
Proof.
  intros P. apply each_starts. intros c n' s' Hc R Hn. unfold check. destruct (p_drive _ P c Hc) as (len & -> & ->). apply virtio_starts; assumption.
Qed.

Lemma randoms_start config n s : ready n s -> Z.of_nat (length (random config)) <= n ->
  exists s', each (fun c => add_virtio core_count (Rng (random_type c) (seed c))) (random config) s = Some s' /\ ready (n - Z.of_nat (length (random config))) s'.
Proof. apply each_starts. intros c n' s' _. apply virtio_starts. Qed.

Lemma shares_start config n s : plain config -> ready n s -> Z.of_nat (length (share config)) <= n ->
  exists s', each (fun c s =>
      let? s := check (open_dir (share_path c)) s in
      let? s := check (usize_len (tag c) <=? 0xFFFF) s in
      add_virtio core_count (P9 (tag c) (share_path c)) s) (share config) s = Some s' /\ ready (n - Z.of_nat (length (share config))) s'.
Proof.
  intros P. apply each_starts. intros c n' s' Hc R Hn. unfold check. rewrite (p_share _ P c Hc), (proj2 (Z.leb_le _ _) (p_tag _ P c Hc)). apply virtio_starts; assumption.
Qed.

Lemma virtios_start config n s : plain config -> ready n s -> irqs_needed config <= n ->
  exists s' k, init_virtio core_count config s = Some s' /\ ready k s' /\ (if rtc config then 2 else 0) <= k.
Proof.
  intros P R Hn. unfold irqs_needed in Hn. set (nn := if feature_usernet then _ else 0) in Hn.
  assert (Hnn : 0 <= nn) by (unfold nn; destruct feature_usernet; lia). set (cv := if virtio _ then 1 else 0) in Hn. set (cr := if rtc _ then 2 else 0) in *.
  assert (Hcv : 0 <= cv) by (unfold cv; destruct (virtio _); lia). assert (Hcr : 0 <= cr) by (unfold cr; destruct (rtc _); lia).
  unfold init_virtio. destruct (drives_start config n s P R ltac:(lia)) as (s1 & -> & R1).
  destruct (randoms_start config _ s1 R1 ltac:(lia)) as (s2 & -> & R2). destruct (shares_start config _ s2 P R2 ltac:(lia)) as (s3 & -> & R3).
  destruct (network_starts config _ s3 P R3) as (s4 & -> & R4); [fold nn; lia|]. fold nn in R4. unfold cv in Hn. destruct (virtio (console config)).
  - edestruct (virtio_starts _ (Console (resize (console config))) s4 R4) as (s5 & -> & R5); [lia|]. eexists s5, _. split; [reflexivity|]. split; [exact R5|lia].
  - eexists s4, _. split; [reflexivity|]. split; [exact R4|lia].
Qed.

(** C10. The system starts: with at least one core, a configuration that fixes no addresses
    and has adapters of known types and tags that fit, and a host that grants what is
    asked, setting up the devices does not panic when there are enough interrupts for
    them, and then every region lies between 2 MiB and the main memory. *)
Theorem system_starts config : core_count <> 0 -> plain config -> irqs_needed config <= 31 ->
  exists s, io_system core_count config = Some s /\ forall b v, map s !! b = Some v -> 0x200000 <= b /\ b + v.1 <= IO_BOUNDARY.
Proof.
  intros Hcore P Hn. destruct (new_ready config Hcore P) as (s0 & E0 & R0). unfold io_system. rewrite E0. destruct (virtios_start config 31 s0 P R0 Hn) as (s1 & k & -> & R1 & Hk).
  assert (E2 : exists s2 j, (if rtc config then init_rtc core_count s1 else Some s1) = Some s2 /\ ready j s2 /\ 0 <= j).
  { destruct (rtc config); [|exists s1, k; auto]. destruct (rtc_starts k s1 R1 ltac:(lia)) as (s2 & E2 & R2). exists s2, (k - 2). split; [exact E2|]. split; [exact R2|lia]. }
  destruct E2 as (s2 & j & E2 & R2 & Hj). exists s2. split; [exact E2|]. intros b v Hb. destruct (r_below _ _ R2 _ _ Hb) as [? ?]. split; [assumption|].
  pose proof (r_irqs _ _ R2). pose proof (r_limit _ _ R2). unfold IO_BOUNDARY. lia.
Qed.
End Starts.

(** ** Witnesses *)

#[export] Instance granting_host : Host := {|
  open_file _ _ := Some 1048576; open_dir _ := true; parse_mac _ := Some [2; 0; 0; 0; 0; 1]; add_host_forward _ := true; feature_usernet := true |}.
#[export] Instance null_memory : IoMemory unit := {| mem_read _ addr _ w := (addr, w); mem_write _ _ _ _ w := w |}.

Definition sample_config : Config :=
  MkConfig 1 64 default_cmdline (Some None) default_console true [MkDrive true "disk"] [MkRandom OS 0] [MkShare "share" "/"]
    [MkNetwork None "xemaclite" "" []].

Lemma sample_plain : plain sample_config.
Proof.
  assert (Hn : forall c, c ∈ network sample_config -> c = MkNetwork None "xemaclite" "" []) by (intros c Hc; apply list_elem_of_singleton in Hc; exact Hc).
  split; [right; reflexivity|intros c _; exists 1048576; split; reflexivity|reflexivity
    |intros c Hc; apply list_elem_of_singleton in Hc as ->; vm_compute; discriminate|intros c Hc; eexists; reflexivity|intros c Hc; rewrite (Hn c Hc); reflexivity
    |intros c Hc; right; rewrite (Hn c Hc); reflexivity|intros c Hc; rewrite (Hn c Hc); reflexivity].
Qed.

Lemma system_starts_witness : exists s, io_system 1 sample_config = Some s /\ forall b v, map s !! b = Some v -> 0x200000 <= b /\ b + v.1 <= IO_BOUNDARY.
Proof. apply (system_starts 1 sample_config); [lia|exact sample_plain|vm_compute; discriminate]. Defined.

Definition sample_system : IoSystem := match io_system 1 sample_config with Some s => s | None => MkIo ∅ 0 0 (Fdt.new []) end.

Lemma sample_set_up : io_system 1 sample_config = Some sample_system.
Proof. vm_compute. reflexivity. Qed.

Lemma io_map_witness : find_io_mem sample_system 0x612044 = Some (0x612000, Mmio 3 (P9 "share" "/")) /\
  io_read (W := unit) sample_system 0x612044 4 tt = Some (0x44, tt) /\ io_read (W := unit) sample_system 0x100000 4 tt = Some (0, tt).
Proof.
  destruct (io_map (W := unit) 1 sample_config sample_system (plain_ok _ sample_plain) sample_set_up) as (F & R & N & _). split; [|split].
  - apply F. exists 4096. split; [vm_compute; reflexivity|lia].
  - rewrite (R 0x612000 4096 (Mmio 3 (P9 "share" "/")) 0x612044 4 tt) by (vm_compute; reflexivity || lia || (split; congruence)). reflexivity.
  - apply (N 0x100000 0 4 tt); [|reflexivity]. intros b size d Hb Hr. assert (Hx : find_io_mem sample_system 0x100000 = Some (b, d)) by (apply F; eauto).
    vm_compute in Hx. discriminate Hx.
Defined.

Definition sample_tree : Node := match device_tree 1 sample_config sample_system with Some t => t | None => Fdt.new [] end.

Lemma guest_finds_devices_witness : exists chosen cpus soc mem regions, read_tree (encode sample_tree) = Some sample_tree /\
  child sample_tree = [chosen; cpus; soc; mem] /\ regions ≡ₚ filter (fun e => announced e = true) (map_to_list (map sample_system)) /\
  Forall2 (describes 1) regions (child soc) /\ length regions = 7%nat.
Proof.
  destruct (guest_finds_devices (W := unit) 1 sample_config sample_system sample_tree) as (chosen & cpus & soc & mem & l & H1 & H2 & H3 & H4 & _);
    [lia|apply plain_ok, sample_plain|exact sample_set_up|vm_compute; reflexivity|vm_compute; reflexivity|].
  exists chosen, cpus, soc, mem, l. split; [exact H1|]. split; [exact H2|]. split; [exact H3|]. split; [exact H4|].
  rewrite (Permutation_length H3). vm_compute. reflexivity.
Defined.

(** ** The console *)

(** After Ctrl + A the console never leaves the escape state: what is typed afterwards does
    not reach the guest, but for further Ctrl + A. *)
Theorem console_escape_sticks before after : Forall (fun x => x <> 1) before ->
  process false (before ++ 1 :: after) = before ++ filter (fun x => x = 1) after.
Proof.
  intros Hb. induction Hb as [|x l Hx _ IH]; cbn [app process].
  - cbn. induction after as [|x l IH]; cbn [process]; [reflexivity|]. unfold processor at 1. cbn [negb].
    rewrite filter_cons. destruct (decide (x = 1)) as [->|N]; [cbn; f_equal; exact IH|].
    repeat (match goal with |- context [x =? ?c] => destruct (Z.eqb_spec x c); [first [lia | exact IH]|] end). exact IH.
  - unfold processor at 1. cbn [negb]. destruct (Z.eqb_spec x 1); [contradiction|]. cbn. f_equal. exact IH.
Qed.
