(* ===== verification/FiberSched.v ===== *)
(** Groups of fibers (lib/fiber/src/lib.rs, with the loop of fiber.s that picks the next
    fiber): the ring of fibers of a group, pausing and waking them, and running the group.
    A fiber is named by a number, which stands for the address of its stack. *)

From Stdlib Require Import ZArith Lia Bool List.
From stdpp Require Import base gmap list.
From S2P Require Import Prelude.
Import ListNotations.
Local Open Scope Z_scope.

Module Sched.

(** [FiberData], but for the group, the stack pointer and the data *)
Record FiberData : Type := MkFiber { prev : Z; next : Z; paused : bool; cycles_to_sleep : Z; next_avail : Z }.

Definition set_prev (v : Z) (d : FiberData) : FiberData := MkFiber v (next d) (paused d) (cycles_to_sleep d) (next_avail d).
Definition set_next (v : Z) (d : FiberData) : FiberData := MkFiber (prev d) v (paused d) (cycles_to_sleep d) (next_avail d).
Definition set_paused (v : bool) (d : FiberData) : FiberData := MkFiber (prev d) (next d) v (cycles_to_sleep d) (next_avail d).
Definition set_cycles (v : Z) (d : FiberData) : FiberData := MkFiber (prev d) (next d) (paused d) v (next_avail d).
Definition set_next_avail (v : Z) (d : FiberData) : FiberData := MkFiber (prev d) (next d) (paused d) (cycles_to_sleep d) v.

(** The data of the fibers, by their stacks.  [get] is [data()]. *)
Notation Fibers := (gmap Z FiberData) (only parsing).
Definition blank : FiberData := MkFiber 0 0 false 0 0.
Definition get (m : Fibers) (f : Z) : FiberData := default blank (m !! f).
Definition upd (f : Z) (g : FiberData -> FiberData) (m : Fibers) : Fibers := alter g f m.

(** [FiberStack::init] *)
Definition init (f : Z) : FiberData := MkFiber f f false 0 f.

(** [FiberGroupData] *)
Record Group : Type := MkGroup { first : option Z; last : option Z; fibers : Fibers }.

(** [spawn_fn], but for the function that the fiber runs *)
Definition spawn_fn (f : Z) (g : Group) : Group :=
  let m := <[f := init f]> (fibers g) in
  match first g, last g with
  | Some first, Some l =>
      let nxt := next (get m l) in
      let avail := next_avail (get m l) in
      let m := upd nxt (set_prev f) m in
      let m := upd f (set_next nxt) m in
      let m := upd f (set_next_avail avail) m in
      let m := upd l (set_next f) m in
      let m := upd l (set_next_avail f) m in
      let m := upd f (set_prev l) m in
      MkGroup (Some first) (Some f) m
  | _, _ => MkGroup (Some f) (Some f) m
  end.

(** [prepare_pause] *)
Definition prepare_pause (f : Z) (m : Fibers) : Fibers := upd f (set_paused true) m.

(** The loops of [pause] and [unpause]: [avail m] is stored in the fibers from [p]
    backwards, up to one that is not paused. *)
Fixpoint back_loop (fuel : nat) (avail : Fibers -> Z) (p : Z) (m : Fibers) : option Fibers :=
  match fuel with
  | O => None
  | S fuel =>
      let m := upd p (set_next_avail (avail m)) m in
      if paused (get m p) then back_loop fuel avail (prev (get m p)) m else Some m
  end.

(** One call of [pause] that holds the lock: the fiber has been woken, it has to wait for
    the condition variable, or it has left the chain of available fibers. *)
Inductive Pause : Type := Awaken | Wait | Asleep (m : Fibers).

Definition pause (f : Z) (m : Fibers) : option Pause :=
  if negb (paused (get m f)) then Some Awaken
  else if next_avail (get m f) =? f then Some Wait
  else
    match back_loop (size m) (fun m => next_avail (get m f)) (prev (get m f)) m with
    | Some m => Some (Asleep m)
    | None => None
    end.

(** [unpause] *)
Definition unpause (f : Z) (m : Fibers) : option Fibers :=
  let m := upd f (set_paused false) m in
  back_loop (size m) (fun _ => f) (prev (get m f)) m.

(** The loop of [fiber_yield_raw]: fibers that sleep are passed over, and one cycle of
    their sleep is used up. *)
Fixpoint yield_loop (fuel : nat) (rbp : Z) (m : Fibers) : option (Z * Fibers) :=
  match fuel with
  | O => None
  | S fuel =>
      let rbp := next_avail (get m rbp) in
      if cycles_to_sleep (get m rbp) =? 0 then Some (rbp, m)
      else yield_loop fuel rbp (upd rbp (fun d => set_cycles (cycles_to_sleep d - 1) d) m)
  end.

(** What is left to sleep in all *)
Definition total_sleep (m : Fibers) : Z := map_fold (fun _ d n => cycles_to_sleep d + n) 0 m.

Definition fiber_yield (cur : Z) (m : Fibers) : option (Z * Fibers) := yield_loop (S (Z.to_nat (total_sleep m))) cur m.

(** [fiber_sleep] *)
Definition fiber_sleep (num cur : Z) (m : Fibers) : option (Z * Fibers) := fiber_yield cur (upd cur (set_cycles num) m).

(** [run], after a fiber has returned and [pause] has taken it from the available ones:
    the fiber is taken from the ring. *)
Definition unlink (f : Z) (g : Group) : Group :=
  let m := fibers g in
  let nxt := next (get m f) in
  let prv := prev (get m f) in
  let fst := if decide (first g = Some f) then Some nxt else first g in
  let lst := if decide (last g = Some f) then Some prv else last g in
  MkGroup fst lst (upd nxt (set_prev prv) (upd prv (set_next nxt) m)).

(** ** Running a group *)

(** Where the thread that runs the group is: in a fiber, in one that is about to call
    [pause], in one that is about to yield after it, or in [run] with a fiber that has
    returned. *)
Inductive Mode : Type := Running | Preparing | Leaving | Exiting.

Record State : Type := MkState { group : Group; cur : Z; mode : Mode }.

Definition set_fibers (m : Fibers) (g : Group) : Group := MkGroup (first g) (last g) m.

Inductive step : State -> State -> Prop :=
| s_sleep g c num c' m : 0 <= num -> fiber_sleep num c (fibers g) = Some (c', m) ->
    step (MkState g c Running) (MkState (set_fibers m g) c' Running)
| s_prepare g c : step (MkState g c Running) (MkState (set_fibers (prepare_pause c (fibers g)) g) c Preparing)
| s_awaken g c : pause c (fibers g) = Some Awaken -> step (MkState g c Preparing) (MkState g c Running)
| s_asleep g c m : pause c (fibers g) = Some (Asleep m) -> step (MkState g c Preparing) (MkState (set_fibers m g) c Leaving)
| s_leave g c c' m : fiber_sleep 0 c (fibers g) = Some (c', m) -> step (MkState g c Leaving) (MkState (set_fibers m g) c' Running)
| s_unpause g c md f m : is_Some (fibers g !! f) -> ~ (md = Exiting /\ f = c) -> unpause f (fibers g) = Some m ->
    step (MkState g c md) (MkState (set_fibers m g) c md)
| s_exit g c : next (get (fibers g) c) <> c ->
    step (MkState g c Running) (MkState (set_fibers (prepare_pause c (fibers g)) g) c Exiting)
| s_restart g c m f : pause c (fibers g) = Some (Asleep m) -> first (unlink c (set_fibers m g)) = Some f ->
    step (MkState g c Exiting)
      (MkState (MkGroup (first (unlink c (set_fibers m g))) (last (unlink c (set_fibers m g)))
                  (delete c (fibers (unlink c (set_fibers m g))))) f Running).

End Sched.
