(* ===== verification/FiberSchedProps.v ===== *)
(** The ring of fibers: [next_avail] always leads to the next fiber that is not paused, under
    every interleaving of yields, pauses, wake-ups from other threads and exits. *)

From Stdlib Require Import ZArith Lia Bool List.
From stdpp Require Import base gmap list relations.
From S2P Require Import Prelude FiberSched.
Import ListNotations.
Local Open Scope Z_scope.
Import Sched.

(** ** The next available fiber *)

(** [h] is the first fiber after [f] that is not paused, where [nx] is the order. *)
Inductive first_avail (nx : Z -> Z) (P : Z -> bool) : Z -> Z -> Prop :=
| fa_here f : P (nx f) = false -> first_avail nx P f (nx f)
| fa_skip f h : P (nx f) = true -> first_avail nx P (nx f) h -> first_avail nx P f h.

Lemma fa_free nx P f h : first_avail nx P f h -> P h = false.
Proof. induction 1; assumption. Qed.

Lemma fa_unique nx P f h h' : first_avail nx P f h -> first_avail nx P f h' -> h = h'.
Proof. intros H. revert h'. induction H as [f H|f h H _ IH]; intros h' H'; inversion H'; subst; try congruence. apply IH. assumption. Qed.

Lemma fa_ext nx P Q f h : (forall x, P x = Q x) -> first_avail nx P f h -> first_avail nx Q f h.
Proof. intros E. induction 1; [apply fa_here|apply fa_skip]; rewrite <- ?E; assumption. Qed.

(** [P] with [c] made available *)
Definition free (c : Z) (P : Z -> bool) : Z -> bool := fun x => if x =? c then false else P x.

Lemma free_same c P : P c = false -> forall x, free c P x = P x.
Proof. intros H x. unfold free. destruct (Z.eqb_spec x c) as [->|]; auto. Qed.

(** A path does not change when a fiber that it does not pass becomes available. *)
Lemma fa_free_or nx P c f h : first_avail nx P f h -> first_avail nx (free c P) f h \/ (first_avail nx (free c P) f c).
Proof.
  induction 1 as [f H|f h H _ IH].
  - left. apply fa_here. unfold free. destruct (_ =? _); auto.
  - destruct (Z.eqb_spec (nx f) c) as [E|N].
    + right. rewrite <- E. apply fa_here. unfold free. rewrite Z.eqb_refl. reflexivity.
    + destruct IH as [IH|IH]; [left|right]; (apply fa_skip; [unfold free; destruct (Z.eqb_spec (nx f) c); [contradiction|exact H]|exact IH]).
Qed.

Lemma fa_unfree nx P c f h : first_avail nx (free c P) f h -> h <> c -> first_avail nx P f h.
Proof.
  induction 1 as [f H|f h H _ IH]; intros N.
  - apply fa_here. unfold free in H. destruct (Z.eqb_spec (nx f) c); [contradiction|exact H].
  - apply fa_skip; [|auto]. unfold free in H. destruct (nx f =? c); [discriminate|exact H].
Qed.

(** A path through [c], which is paused, goes on where the path from [c] goes. *)
Lemma fa_through nx P c f h : P c = true -> first_avail nx (free c P) f c -> first_avail nx P c h -> first_avail nx P f h.
Proof.
  intros Hc H Hh. remember c as z eqn:Ez in H at 2. revert Ez. induction H as [f H|f z H H' IH]; intros E.
  - rewrite E in *. apply fa_skip; rewrite ?E; assumption.
  - apply fa_skip; [|apply IH, E]. unfold free in H. destruct (nx f =? c); [discriminate|exact H].
Qed.

(** ** The ring *)

Section Ring.
Context (m : gmap Z FiberData).
Notation nx := (fun f => next (get m f)).
Notation pv := (fun f => prev (get m f)).

Fixpoint chain (l : list Z) : Prop :=
  match l with
  | a :: ((b :: _) as t) => nx a = b /\ pv b = a /\ chain t
  | _ => True
  end.

Lemma chain_app a x b : chain (a ++ x :: b) <-> chain (a ++ [x]) /\ chain (x :: b).
Proof.
  induction a as [|y a IH]; cbn [app]; [destruct b; cbn; tauto|]. destruct a as [|z a]; cbn [app chain] in *; [tauto|]. rewrite IH. tauto.
Qed.
End Ring.

(** The fibers of [z :: l], in this order from [z] *)
Definition ring (m : gmap Z FiberData) (z : Z) (l : list Z) : Prop := chain m (z :: l ++ [z]).

Lemma ring_rotate m z l1 x l2 : ring m z (l1 ++ x :: l2) -> ring m x (l2 ++ z :: l1).
Proof.
  unfold ring. intros H. rewrite <- app_assoc in H. cbn [app] in H. change (z :: l1 ++ x :: l2 ++ [z]) with ((z :: l1) ++ x :: l2 ++ [z]) in H.
  apply chain_app in H as [H1 H2]. change (x :: (l2 ++ z :: l1) ++ [x]) with (x :: (l2 ++ z :: l1) ++ [x]). rewrite <- app_assoc. cbn [app].
  change (x :: l2 ++ z :: l1 ++ [x]) with ((x :: l2) ++ z :: l1 ++ [x]). apply chain_app. split; [exact H2|exact H1].
Qed.

Lemma ring_at m z l f : ring m z l -> f ∈ z :: l -> exists l', ring m f l' /\ f :: l' ≡ₚ z :: l.
Proof.
  intros H Hf. apply elem_of_cons in Hf as [->|Hf]; [exists l; auto|]. apply list_elem_of_split in Hf as (l1 & l2 & ->).
  exists (l2 ++ z :: l1). split; [apply ring_rotate, H|]. change (z :: l1 ++ f :: l2) with ((z :: l1) ++ f :: l2).
  change (f :: l2 ++ z :: l1) with ((f :: l2) ++ z :: l1). apply Permutation_app_comm.
Qed.

Lemma ring_next m z l f : ring m z l -> f ∈ z :: l -> next (get m f) ∈ z :: l /\ prev (get m (next (get m f))) = f.
Proof.
  intros H Hf. destruct (ring_at _ _ _ _ H Hf) as (l' & H' & Hp). rewrite <- Hp. unfold ring in H'. destruct l' as [|x l']; cbn [app chain] in H'.
  - destruct H' as (E1 & E2 & _). rewrite E1. split; [apply list_elem_of_here|exact E2].
  - destruct H' as (E1 & E2 & _). rewrite E1. split; [apply list_elem_of_further, list_elem_of_here|exact E2].
Qed.

Lemma fa_ring m P z l f h : ring m z l -> first_avail (fun f => next (get m f)) P f h -> f ∈ z :: l -> h ∈ z :: l.
Proof. intros Hr. induction 1 as [f H|f h H _ IH]; intros Hf; [|apply IH]; apply (ring_next m z l f Hr Hf). Qed.

(** Along a chain of paused fibers *)
Lemma fa_chain m P l : forall f h, chain m (f :: l ++ [h]) -> Forall (fun x => P x = true) l -> P h = false ->
  first_avail (fun f => next (get m f)) P f h.
Proof.
  induction l as [|x l IH]; intros f h H Hl Hh; cbn [app chain] in H.
  - destruct H as (E & _). rewrite <- E. apply (fa_here (fun f => next (get m f))). rewrite E. exact Hh.
  - destruct H as (E & _ & H). apply Forall_cons in Hl as [Hx Hl]. apply fa_skip; rewrite E; [exact Hx|]. apply IH; assumption.
Qed.

(** ** The loop that goes backwards *)

(** Maps that agree but for [next_avail] *)
Record same_links (m m' : gmap Z FiberData) : Prop := {
  sl_next f : next (get m' f) = next (get m f);
  sl_prev f : prev (get m' f) = prev (get m f);
  sl_paused f : paused (get m' f) = paused (get m f);
  sl_cycles f : cycles_to_sleep (get m' f) = cycles_to_sleep (get m f);
  sl_dom f : is_Some (m' !! f) <-> is_Some (m !! f);
}.

Lemma sl_refl m : same_links m m.
Proof. split; reflexivity || tauto. Qed.
Lemma sl_trans a b c : same_links a b -> same_links b c -> same_links a c.
Proof. intros [A1 A2 A3 A4 A5] [B1 B2 B3 B4 B5]. split; intros f; rewrite ?B1, ?B2, ?B3, ?B4, ?B5; auto. Qed.

Lemma get_upd f g m x : is_Some (m !! f) -> get (upd f g m) x = if x =? f then g (get m f) else get m x.
Proof.
  intros [d Hd]. unfold get, upd. destruct (Z.eqb_spec x f) as [->|N].
  - rewrite lookup_alter_eq, Hd. reflexivity.
  - rewrite lookup_alter_ne by congruence. reflexivity.
Qed.

Lemma upd_dom f g m x : is_Some (upd f g m !! x) <-> is_Some (m !! x).
Proof. unfold upd. rewrite lookup_alter_is_Some. reflexivity. Qed.

Lemma upd_size f g (m : gmap Z FiberData) : size (upd f g m) = size m.
Proof. unfold upd. rewrite <- !size_dom, dom_alter_L. reflexivity. Qed.

Lemma upd_avail_links f v m : is_Some (m !! f) -> same_links m (upd f (set_next_avail v) m).
Proof.
  intros H. split; intros x; rewrite ?get_upd by exact H; try (destruct (Z.eqb_spec x f) as [->|]; reflexivity). apply upd_dom.
Qed.

Lemma chain_links m m' l : same_links m m' -> chain m l -> chain m' l.
Proof.
  intros S. induction l as [|a l IH]; [auto|]. destruct l as [|b l]; [auto|]. intros (E1 & E2 & H).
  split; [rewrite (sl_next _ _ S); exact E1|]. split; [rewrite (sl_prev _ _ S); exact E2|]. apply IH, H.
Qed.

(** The loop marks the paused fibers before [z] and the first one that is not. *)
Lemma back_loop_marks avail v l : forall z a m fuel, chain m (a :: l ++ [z]) -> Forall (fun x => paused (get m x) = true) l -> paused (get m a) = false ->
  (forall x, x ∈ a :: l -> is_Some (m !! x)) -> NoDup (a :: l) -> (length l < fuel)%nat ->
  (forall m', same_links m m' -> (forall x, x ∉ a :: l -> get m' x = get m x) -> avail m' = v) ->
  exists m', back_loop fuel avail (prev (get m z)) m = Some m' /\ same_links m m' /\
    forall x, next_avail (get m' x) = if decide (x ∈ a :: l) then v else next_avail (get m x).
Proof.
  induction l as [|b l IH] using rev_ind; intros z a m [|fuel] Hc Hl Ha Hd Hn Hf Hav; try (cbn in Hf; rewrite ?length_app in Hf; cbn in Hf; lia).
  - cbn [app chain] in Hc. destruct Hc as (_ & E & _). rewrite E. cbn [back_loop].
    assert (Sa : is_Some (m !! a)) by (apply Hd, list_elem_of_here). rewrite (Hav m (sl_refl m)) by reflexivity.
    rewrite get_upd by exact Sa. rewrite Z.eqb_refl. cbn [paused set_next_avail]. rewrite Ha. eexists. split; [reflexivity|].
    split; [apply upd_avail_links, Sa|]. intros x. rewrite get_upd by exact Sa. destruct (Z.eqb_spec x a) as [->|N].
    + rewrite decide_True by apply list_elem_of_here. reflexivity.
    + rewrite decide_False; [reflexivity|]. intros Hx. apply list_elem_of_singleton in Hx. contradiction.
  - rewrite <- app_assoc in Hc. cbn [app] in Hc.
    change (a :: l ++ [b; z]) with ((a :: l) ++ b :: [z]) in Hc. apply chain_app in Hc as [Hc1 Hc2]. cbn [chain] in Hc2. destruct Hc2 as (_ & E & _).
    rewrite E. cbn [back_loop]. assert (Sb : is_Some (m !! b)) by (apply Hd; right; apply elem_of_app; right; left).
    rewrite (Hav m (sl_refl m)) by reflexivity. rewrite !get_upd by exact Sb. rewrite Z.eqb_refl. cbn [paused prev set_next_avail].
    apply Forall_app in Hl as [Hl Hb]. apply Forall_inv in Hb. rewrite Hb. set (m1 := upd b (set_next_avail v) m).
    pose proof (upd_avail_links b v m Sb) as S1. rewrite <- (sl_prev _ _ S1). fold m1 in S1 |- *.
    assert (Hnb : b ∉ a :: l) by (change (a :: l ++ [b]) with ((a :: l) ++ [b]) in Hn; apply NoDup_app in Hn as (_ & Hn & _); intros Hx; apply (Hn b Hx), list_elem_of_here).
    assert (Hsub : forall x, x ∈ a :: l -> x ∈ a :: l ++ [b]) by (intros x Hx; change (a :: l ++ [b]) with ((a :: l) ++ [b]); apply elem_of_app; auto).
    destruct (IH b a m1 fuel) as (m' & Em & S2 & Hx).
    + apply (chain_links m); [exact S1|exact Hc1].
    + eapply Forall_impl; [exact Hl|]. intros x Hx. cbv beta in *. rewrite (sl_paused _ _ S1). exact Hx.
    + rewrite (sl_paused _ _ S1). exact Ha.
    + intros x Hx. apply (sl_dom _ _ S1), Hd, Hsub, Hx.
    + change (a :: l ++ [b]) with ((a :: l) ++ [b]) in Hn. apply NoDup_app in Hn. tauto.
    + rewrite length_app in Hf. cbn in Hf. lia.
    + intros m' S' Hm'. apply Hav; [eapply sl_trans; eassumption|]. intros x Hx.
      assert (Nb : x <> b) by (intros ->; apply Hx; change (a :: l ++ [b]) with ((a :: l) ++ [b]); apply elem_of_app; right; apply list_elem_of_here).
      rewrite Hm' by (intros H; apply Hx, Hsub, H). unfold m1. rewrite get_upd by exact Sb. destruct (Z.eqb_spec x b); [contradiction|reflexivity].
    + exists m'. split; [exact Em|]. split; [eapply sl_trans; eassumption|]. intros x. rewrite Hx. unfold m1. rewrite get_upd by exact Sb.
      destruct (decide (x ∈ a :: l)) as [Hi|Hi].
      * rewrite decide_True by (apply Hsub, Hi). reflexivity.
      * destruct (Z.eqb_spec x b) as [->|N].
        -- rewrite decide_True; [reflexivity|]. change (a :: l ++ [b]) with ((a :: l) ++ [b]). apply elem_of_app. right. apply list_elem_of_here.
        -- rewrite decide_False; [reflexivity|]. change (a :: l ++ [b]) with ((a :: l) ++ [b]). rewrite elem_of_app, list_elem_of_singleton. tauto.
Qed.

Notation order m := (fun f => next (get m f)).
Notation pausing m := (fun f => paused (get m f)).

Lemma split_last (P : Z -> bool) l : Forall (fun x => P x = true) l \/
  exists l1 a l2, l = l1 ++ a :: l2 /\ P a = false /\ Forall (fun x => P x = true) l2.
Proof.
  induction l as [|x l [IH|(l1 & a & l2 & -> & Ha & Hl)]]; [left; constructor| |right; exists (x :: l1), a, l2; auto].
  destruct (P x) eqn:E; [left; constructor; assumption|right; exists [], x, l; auto].
Qed.

(** The fibers marked are those from which [z] is the next one, were it available. *)
Lemma marked_iff m z l a l2 x : ring m z l -> NoDup (z :: l) -> chain m (a :: l2 ++ [z]) -> Forall (fun x => paused (get m x) = true) l2 ->
  a ∈ z :: l -> l2 ⊆ l -> (paused (get m a) = false) -> x ∈ z :: l -> x ∈ a :: l2 <-> first_avail (order m) (free z (pausing m)) x z.
Proof.
  intros Hr Hn Hc Hl Ha Hsub Hfree Hx.
  assert (Hz : z ∉ l2) by (apply NoDup_cons in Hn as [Hz _]; intros H; apply Hz, Hsub, H).
  assert (Hl' : Forall (fun x => free z (pausing m) x = true) l2).
  { apply Forall_forall. intros y Hy. rewrite Forall_forall in Hl. unfold free. destruct (Z.eqb_spec y z) as [->|]; [contradiction|]. apply Hl, Hy. }
  assert (Hzf : free z (pausing m) z = false) by (unfold free; rewrite Z.eqb_refl; reflexivity). split.
  - intros H. apply elem_of_cons in H as [->|H]; [apply (fa_chain m _ l2); assumption|].
    apply list_elem_of_split in H as (p & q & ->). change (a :: (p ++ x :: q) ++ [z]) with ((a :: p ++ x :: q) ++ [z]) in Hc.
    rewrite <- app_comm_cons, <- app_assoc in Hc. cbn [app] in Hc. change (a :: p ++ x :: q ++ [z]) with ((a :: p) ++ x :: q ++ [z]) in Hc.
    apply chain_app in Hc as [_ Hc]. apply Forall_app in Hl' as [_ Hq]. apply Forall_inv_tail in Hq. apply (fa_chain m _ q); assumption.
  - intros H. remember z as w eqn:Ew in H at 2. revert Ew Hx. induction H as [f H|f w H H' IH]; intros Ew Hx; cbv beta in *.
    + destruct (ring_next m z l f Hr Hx) as [_ E]. rewrite Ew in E. destruct l2 as [|b l2 _] using rev_ind.
      * cbn in Hc. destruct Hc as (_ & E' & _). rewrite <- E, E'. apply list_elem_of_here.
      * rewrite <- app_assoc in Hc. change (a :: l2 ++ [b] ++ [z]) with ((a :: l2) ++ b :: [z]) in Hc. apply chain_app in Hc as [_ Hc]. cbn in Hc.
        destruct Hc as (_ & E' & _). rewrite <- E, E'. right. apply elem_of_app. right. apply list_elem_of_here.
    + destruct (ring_next m z l f Hr Hx) as [Hnx E]. specialize (IH Ew Hnx). assert (Hp : paused (get m (next (get m f))) = true).
      { unfold free in H. destruct (_ =? z); [discriminate|exact H]. }
      apply elem_of_cons in IH as [IH|IH]; [rewrite IH in Hp; congruence|]. rewrite <- E. apply list_elem_of_split in IH as (p & q & Ep).
      rewrite Ep in Hc |- *. destruct p as [|b p _] using rev_ind.
      * cbn [app chain] in Hc. destruct Hc as (_ & E' & _). rewrite E'. apply list_elem_of_here.
      * rewrite <- !app_assoc in Hc. cbn [app] in Hc. change (a :: p ++ b :: next (get m f) :: q ++ [z]) with ((a :: p) ++ b :: next (get m f) :: q ++ [z]) in Hc.
        apply chain_app in Hc as [_ Hc]. cbn [chain] in Hc. destruct Hc as (_ & E' & _). rewrite E'. right. rewrite !elem_of_app. left. right. apply list_elem_of_here.
Qed.

Lemma marks m z l avail v : ring m z l -> NoDup (z :: l) -> (forall x, is_Some (m !! x) <-> x ∈ z :: l) ->
  (paused (get m z) = false \/ exists x, x ∈ l /\ paused (get m x) = false) ->
  (forall m', same_links m m' -> (paused (get m z) = true -> get m' z = get m z) -> avail m' = v) ->
  exists m', back_loop (size m) avail (prev (get m z)) m = Some m' /\ same_links m m' /\ forall x, x ∈ z :: l ->
    (first_avail (order m) (free z (pausing m)) x z /\ next_avail (get m' x) = v) \/
    (~ first_avail (order m) (free z (pausing m)) x z /\ next_avail (get m' x) = next_avail (get m x)).
Proof.
  intros Hr Hn Hd Hf Hav.
  assert (Hsize : size m = length (z :: l)).
  { rewrite <- size_dom. rewrite <- (size_list_to_set (C := gset Z)) by exact Hn. f_equal. apply set_eq. intros x. rewrite elem_of_dom, elem_of_list_to_set. apply Hd. }
  assert (Hs : exists a l2, chain m (a :: l2 ++ [z]) /\ Forall (fun x => paused (get m x) = true) l2 /\ a ∈ z :: l /\ l2 ⊆ l /\ paused (get m a) = false /\
    NoDup (a :: l2) /\ (length l2 <= length l)%nat /\ (paused (get m z) = true -> z ∉ a :: l2)).
  { pose proof Hn as Hn'. apply NoDup_cons in Hn' as [Hz Hnl]. destruct (split_last (pausing m) l) as [Hall|(l1 & a & l2 & El & Ha & Hl)].
    - destruct Hf as [Hf|(x & Hx & Hxf)]; [|rewrite Forall_forall in Hall; specialize (Hall x Hx); cbv beta in Hall; congruence].
      exists z, l. repeat split; try assumption; try apply list_elem_of_here; try (intros x Hx; exact Hx); [lia|congruence].
    - exists a, l2. assert (Hc : chain m (a :: l2 ++ [z])).
      { unfold ring in Hr. rewrite El, <- app_assoc in Hr. cbn [app] in Hr. change (z :: l1 ++ a :: l2 ++ [z]) with ((z :: l1) ++ a :: l2 ++ [z]) in Hr. apply chain_app in Hr as [_ Hr]. exact Hr. }
      rewrite El in Hnl. apply NoDup_app in Hnl as (_ & _ & Hnl).
      assert (Hin : forall x, x ∈ a :: l2 -> x ∈ l) by (intros x Hx; rewrite El; apply elem_of_app; auto).
      repeat split; try assumption; [right; apply Hin, list_elem_of_here|intros x Hx; apply Hin; right; exact Hx|rewrite El, length_app; cbn; lia|].
      intros _ H. apply Hz, Hin, H. }
  destruct Hs as (a & l2 & Hc & Hl & Ha & Hsub & Haf & Hnd & Hlen & Hzl).
  destruct (back_loop_marks avail v l2 z a m (size m)) as (m' & Em & Sm & Hx); try assumption.
  - intros x Hx. apply Hd. apply elem_of_cons in Hx as [->|Hx]; [exact Ha|right; apply Hsub, Hx].
  - rewrite Hsize. cbn. lia.
  - intros m' S' Hm'. apply Hav; [exact S'|]. intros Hp. apply Hm', Hzl, Hp.
  - exists m'. split; [exact Em|]. split; [exact Sm|]. intros x Hxl. rewrite Hx. pose proof (marked_iff m z l a l2 x Hr Hn Hc Hl Ha Hsub Haf Hxl) as Hiff.
    destruct (decide (x ∈ a :: l2)) as [Hi|Hi]; [left|right]; rewrite <- Hiff; auto.
Qed.

(** ** The invariant *)

(** The next available fiber of [f] is the one recorded. *)
Definition right (m : gmap Z FiberData) (P : Z -> bool) (f : Z) : Prop := first_avail (order m) P f (next_avail (get m f)).

Record shaped (m : gmap Z FiberData) (c : Z) (l : list Z) : Prop := {
  sh_ring : ring m c l;
  sh_nodup : NoDup (c :: l);
  sh_dom x : is_Some (m !! x) <-> x ∈ c :: l;
  sh_cycles x : 0 <= cycles_to_sleep (get m x);
}.

Lemma shaped_links m m' c l : same_links m m' -> shaped m c l -> shaped m' c l.
Proof.
  intros S [H1 H2 H3 H4]. split; [apply (chain_links m); assumption|exact H2|intros x; rewrite (sl_dom _ _ S); apply H3|intros x; rewrite (sl_cycles _ _ S); apply H4].
Qed.

Lemma shaped_at m c l f : shaped m c l -> f ∈ c :: l -> exists l', shaped m f l' /\ f :: l' ≡ₚ c :: l.
Proof.
  intros [H1 H2 H3 H4] Hf. destruct (ring_at _ _ _ _ H1 Hf) as (l' & Hr & Hp). exists l'. split; [|exact Hp].
  split; [exact Hr|rewrite Hp; exact H2|intros x; rewrite H3, Hp; reflexivity|exact H4].
Qed.

Lemma fa_nx nx nx' P f h : (forall x, nx' x = nx x) -> first_avail nx P f h -> first_avail nx' P f h.
Proof.
  intros E. induction 1 as [f H|f h H _ IH]; [rewrite <- E; apply fa_here; rewrite E; exact H|apply fa_skip; rewrite E; assumption].
Qed.

Lemma fa_links m m' P f h : same_links m m' -> first_avail (order m) P f h -> first_avail (order m') P f h.
Proof. intros S. apply fa_nx. intros x. apply (sl_next _ _ S). Qed.

(** Pausing, once another fiber is available *)
Lemma pause_spec m c l : shaped m c l -> paused (get m c) = true -> next_avail (get m c) <> c ->
  (forall f, f ∈ c :: l -> right m (pausing m) f \/ right m (free c (pausing m)) f) ->
  exists m', pause c m = Some (Asleep m') /\ same_links m m' /\ forall f, f ∈ c :: l -> right m' (pausing m) f.
Proof.
  intros Hs Hp Hne Hr. set (v := next_avail (get m c)) in *.
  assert (Hv : first_avail (order m) (pausing m) c v).
  { destruct (Hr c) as [H|H]; [apply list_elem_of_here|exact H|]. apply (fa_unfree _ _ c); assumption. }
  assert (Hfree : exists x, x ∈ l /\ paused (get m x) = false).
  { exists v. split; [|exact (fa_free _ _ _ _ Hv)]. apply (fa_ring m _ c l) in Hv; [|apply Hs|apply list_elem_of_here]. apply elem_of_cons in Hv as [?|?]; [contradiction|assumption]. }
  destruct (marks m c l (fun m => next_avail (get m c)) v) as (m' & Em & Sm & Hx); [apply Hs|apply Hs|apply Hs|right; exact Hfree| |].
  { intros m' _ H. rewrite (H Hp). reflexivity. }
  exists m'. unfold pause. rewrite Hp. fold v. destruct (Z.eqb_spec v c); [contradiction|]. cbn [negb]. rewrite Em. split; [reflexivity|]. split; [exact Sm|].
  intros f Hf. unfold right. apply (fa_links m); [exact Sm|]. destruct (Hx f Hf) as [[X1 ->]|[X1 ->]].
  - apply (fa_through _ _ c); assumption.
  - destruct (Hr f Hf) as [H|H]; unfold right in H; [exact H|]. apply (fa_unfree _ _ c); [exact H|]. intros E. rewrite E in H. contradiction.
Qed.

(** Waking a fiber *)
Record woken (f : Z) (m m' : gmap Z FiberData) : Prop := {
  w_next x : next (get m' x) = next (get m x);
  w_prev x : prev (get m' x) = prev (get m x);
  w_paused x : paused (get m' x) = free f (pausing m) x;
  w_cycles x : cycles_to_sleep (get m' x) = cycles_to_sleep (get m x);
  w_dom x : is_Some (m' !! x) <-> is_Some (m !! x);
}.

Lemma unpause_spec m c l f : shaped m c l -> f ∈ c :: l -> exists m', unpause f m = Some m' /\ woken f m m' /\ shaped m' c l /\
  forall x, x ∈ c :: l -> (first_avail (order m) (free f (pausing m)) x f /\ next_avail (get m' x) = f) \/
    (~ first_avail (order m) (free f (pausing m)) x f /\ next_avail (get m' x) = next_avail (get m x)).
Proof.
  intros Hs Hf. unfold unpause. set (m1 := upd f (set_paused false) m). assert (Sf : is_Some (m !! f)) by (apply (sh_dom _ _ _ Hs), Hf).
  assert (G : forall x, get m1 x = if x =? f then set_paused false (get m f) else get m x) by (intros x; apply get_upd, Sf).
  assert (W1 : woken f m m1).
  { split; intros x; rewrite ?G; try (unfold free; destruct (Z.eqb_spec x f) as [->|]; reflexivity). apply upd_dom. }
  destruct (shaped_at m c l f Hs Hf) as (l' & Hs' & Hp).
  assert (Hc1 : forall k, chain m k -> chain m1 k).
  { induction k as [|a k IH]; [auto|]. destruct k as [|b k]; [auto|]. intros (E1 & E2 & H).
    split; [rewrite (w_next _ _ _ W1); exact E1|]. split; [rewrite (w_prev _ _ _ W1); exact E2|]. apply IH, H. }
  destruct (marks m1 f l' (fun _ => f) f) as (m' & Em & Sm & Hx).
  - apply Hc1, Hs'.
  - apply Hs'.
  - intros x. rewrite (w_dom _ _ _ W1). apply Hs'.
  - left. rewrite (w_paused _ _ _ W1). unfold free. rewrite Z.eqb_refl. reflexivity.
  - reflexivity.
  - exists m'. split; [exact Em|]. split; [|split].
    + split; intros x; [rewrite (sl_next _ _ Sm)|rewrite (sl_prev _ _ Sm)|rewrite (sl_paused _ _ Sm)|rewrite (sl_cycles _ _ Sm)|rewrite (sl_dom _ _ Sm)]; apply W1.
    + apply (shaped_links m1); [exact Sm|]. destruct Hs as [H1 H2 H3 H4]. split; [apply Hc1, H1|exact H2|intros x; rewrite (w_dom _ _ _ W1); apply H3|intros x; rewrite (w_cycles _ _ _ W1); apply H4].
    + assert (Hfa : forall x, first_avail (order m1) (free f (pausing m1)) x f <-> first_avail (order m) (free f (pausing m)) x f).
      { intros x. assert (E : forall y, free f (pausing m1) y = free f (pausing m) y) by (intros y; unfold free at 1; rewrite (w_paused _ _ _ W1); unfold free; destruct (y =? f); reflexivity).
        split; intros H; [apply (fa_nx (order m1)); [intros y; symmetry; apply (w_next _ _ _ W1)|]|apply (fa_nx (order m)); [apply (w_next _ _ _ W1)|]]; (eapply fa_ext; [|exact H]); intros y; rewrite E; reflexivity. }
      intros x Hxl. rewrite <- Hp in Hxl. rewrite <- !Hfa. destruct (Hx x Hxl) as [X|[X1 X2]]; [left; exact X|right]. split; [exact X1|].
      rewrite X2, G. destruct (x =? f) eqn:E; [apply Z.eqb_eq in E as ->|]; reflexivity.
Qed.

Lemma fa_weaken nx P Q f x : (forall y, Q y = true -> P y = true) -> first_avail nx (free f Q) x f -> first_avail nx (free f P) x f.
Proof.
  intros HQ H. remember f as h eqn:Eh in H at 2. revert Eh. induction H as [y H|y h H _ IH]; intros E.
  - rewrite <- E at 2. apply fa_here. unfold free. rewrite E, Z.eqb_refl. reflexivity.
  - apply fa_skip; [|apply IH, E]. unfold free in *. destruct (nx y =? f); [discriminate|]. apply HQ, H.
Qed.

Lemma unpause_right m m' f Q x : woken f m m' -> (forall y, Q y = true -> paused (get m y) = true) -> right m Q x ->
  (first_avail (order m) (free f (pausing m)) x f /\ next_avail (get m' x) = f) \/
  (~ first_avail (order m) (free f (pausing m)) x f /\ next_avail (get m' x) = next_avail (get m x)) ->
  right m' (pausing m') x \/ right m' (free f Q) x.
Proof.
  intros W HQ Hr Hx. assert (Hnx : forall P h, first_avail (order m) P x h -> first_avail (order m') P x h) by (intros P h; apply fa_nx; intros y; apply (w_next _ _ _ W)).
  destruct Hx as [[H E]|[H E]].
  - left. unfold right. rewrite E. apply Hnx. eapply fa_ext; [|exact H]. intros y. rewrite (w_paused _ _ _ W). reflexivity.
  - right. unfold right. rewrite E. apply Hnx. destruct (fa_free_or _ _ f _ _ Hr) as [H'|H']; [exact H'|]. destruct H. apply (fa_weaken _ _ Q); assumption.
Qed.

(** The invariant of a group that runs *)
Definition inv (st : State) : Prop := exists l, let m := fibers (group st) in let c := cur st in
  shaped m c l /\ (exists f, first (group st) = Some f /\ f ∈ c :: l) /\
  match mode st with
  | Running | Leaving => forall f, f ∈ c :: l -> right m (pausing m) f
  | Preparing => forall f, f ∈ c :: l -> right m (pausing m) f \/ right m (free c (pausing m)) f
  | Exiting => paused (get m c) = true /\ l <> [] /\ forall f, f ∈ c :: l -> right m (pausing m) f \/ right m (free c (pausing m)) f
  end.

Lemma free_le c P y : free c P y = true -> P y = true.
Proof. unfold free. destruct (_ =? _); [discriminate|auto]. Qed.

Lemma right_ext m P Q f : (forall x, P x = Q x) -> right m P f -> right m Q f.
Proof. intros E. apply fa_ext, E. Qed.

(** Waking, in any mode *)
Lemma sched_unpause g c md f m : inv (MkState g c md) -> is_Some (fibers g !! f) -> ~ (md = Exiting /\ f = c) -> unpause f (fibers g) = Some m ->
  inv (MkState (set_fibers m g) c md).
Proof.
  intros (l & Hs & Hfst & Hm) Hf Hne Hu. cbn [group cur mode] in *. set (m0 := fibers g) in *. apply (sh_dom _ _ _ Hs) in Hf.
  destruct (unpause_spec m0 c l f Hs Hf) as (m' & E & W & Hs' & Hx). rewrite E in Hu. injection Hu as <-.
  assert (HP : forall y, free f (pausing m0) y = paused (get m' y)) by (intros y; rewrite (w_paused _ _ _ W); reflexivity).
  assert (Hall : (forall x, x ∈ c :: l -> right m0 (pausing m0) x) -> forall x, x ∈ c :: l -> right m' (pausing m') x).
  { intros H x Hxl. destruct (unpause_right m0 m' f (pausing m0) x W (fun y Hy => Hy) (H x Hxl) (Hx x Hxl)) as [H'|H']; [exact H'|]. exact (right_ext _ _ _ _ HP H'). }
  assert (Hsome : (forall x, x ∈ c :: l -> right m0 (pausing m0) x \/ right m0 (free c (pausing m0)) x) ->
    forall x, x ∈ c :: l -> right m' (pausing m') x \/ right m' (free c (pausing m')) x).
  { intros H x Hxl. destruct (H x Hxl) as [H'|H'].
    - left. destruct (unpause_right m0 m' f (pausing m0) x W (fun y Hy => Hy) H' (Hx x Hxl)) as [H2|H2]; [exact H2|]. exact (right_ext _ _ _ _ HP H2).
    - destruct (unpause_right m0 m' f (free c (pausing m0)) x W (fun y Hy => free_le _ _ _ Hy) H' (Hx x Hxl)) as [H2|H2]; [left; exact H2|right].
      eapply right_ext; [|exact H2]. intros y. unfold free at 3. cbv beta. rewrite <- HP. unfold free. destruct (y =? f), (y =? c); reflexivity. }
  exists l. cbn [group cur mode fibers set_fibers first]. split; [exact Hs'|]. split; [exact Hfst|]. destruct md.
  - auto.
  - auto.
  - auto.
  - destruct Hm as (H1 & H2 & H3). split; [|auto]. rewrite <- HP. unfold free. destruct (Z.eqb_spec c f) as [->|]; [destruct Hne; auto|exact H1].
Qed.

(** ** Yielding *)

(** Maps that agree but for the cycles left to sleep *)
Record same_ring (m m' : gmap Z FiberData) : Prop := {
  sr_next x : next (get m' x) = next (get m x);
  sr_prev x : prev (get m' x) = prev (get m x);
  sr_paused x : paused (get m' x) = paused (get m x);
  sr_avail x : next_avail (get m' x) = next_avail (get m x);
  sr_dom x : is_Some (m' !! x) <-> is_Some (m !! x);
}.

Lemma sr_trans a b c : same_ring a b -> same_ring b c -> same_ring a c.
Proof. intros [A1 A2 A3 A4 A5] [B1 B2 B3 B4 B5]. split; intros f; rewrite ?B1, ?B2, ?B3, ?B4, ?B5; auto. Qed.

Lemma upd_cycles m f g : is_Some (m !! f) -> same_ring m (upd f (fun d => set_cycles (g d) d) m).
Proof.
  intros H. split; intros x; rewrite ?get_upd by exact H; try (destruct (Z.eqb_spec x f) as [->|]; reflexivity). apply upd_dom.
Qed.

Lemma shaped_ring m m' c l : same_ring m m' -> (forall x, 0 <= cycles_to_sleep (get m' x)) -> shaped m c l -> shaped m' c l.
Proof.
  intros S Hc [H1 H2 H3 _]. split; [|exact H2|intros x; rewrite (sr_dom _ _ S); apply H3|exact Hc].
  unfold ring in *. revert H1. generalize (c :: l ++ [c]). induction l0 as [|a k IH]; [auto|]. destruct k as [|b k]; [auto|]. intros (E1 & E2 & H).
  split; [rewrite (sr_next _ _ S); exact E1|]. split; [rewrite (sr_prev _ _ S); exact E2|]. apply IH, H.
Qed.

Lemma right_ring m m' f : same_ring m m' -> right m (pausing m) f -> right m' (pausing m') f.
Proof.
  intros S H. unfold right. rewrite (sr_avail _ _ S). apply (fa_nx (order m)); [apply S|]. eapply fa_ext; [|exact H]. intros x. rewrite (sr_paused _ _ S). reflexivity.
Qed.

Lemma total_upd m f d g : m !! f = Some d -> total_sleep (upd f (fun d => set_cycles (g d) d) m) = total_sleep m - cycles_to_sleep d + g d.
Proof.
  intros H. unfold total_sleep.
  assert (Hc : forall (j1 j2 : Z) (z1 z2 : FiberData) (y : Z), cycles_to_sleep z1 + (cycles_to_sleep z2 + y) = cycles_to_sleep z2 + (cycles_to_sleep z1 + y)) by (intros; lia).
  rewrite (map_fold_delete_L _ _ f d m) by auto. rewrite (map_fold_delete_L _ _ f (set_cycles (g d) d) (upd f _ m)) by (auto || (unfold upd; rewrite lookup_alter_eq, H; reflexivity)).
  unfold upd. rewrite delete_alter_eq. cbn [cycles_to_sleep set_cycles]. lia.
Qed.

Lemma total_nonneg m : (forall x, 0 <= cycles_to_sleep (get m x)) -> 0 <= total_sleep m.
Proof.
  intros H. unfold total_sleep. assert (G : forall x d, m !! x = Some d -> 0 <= cycles_to_sleep d) by (intros x d E; specialize (H x); unfold get in H; rewrite E in H; exact H).
  clear H. revert G. apply (map_fold_weak_ind (fun r m => (forall x d, m !! x = Some d -> 0 <= cycles_to_sleep d) -> 0 <= r)); [lia|].
  intros i x m' r Hi IH H. pose proof (H i x (lookup_insert_eq _ _ _)). assert (0 <= r); [|lia]. apply IH. intros y d Hy. apply (H y d).
  rewrite lookup_insert_ne; [exact Hy|]. intros ->. congruence.
Qed.

(** Yielding ends, with an available fiber that has no cycles left to sleep. *)
Lemma yield_spec fuel : forall m f c l, shaped m c l -> f ∈ c :: l -> (forall x, x ∈ c :: l -> right m (pausing m) x) -> total_sleep m < Z.of_nat fuel ->
  exists c' m', yield_loop fuel f m = Some (c', m') /\ same_ring m m' /\ shaped m' c l /\ c' ∈ c :: l /\
    paused (get m' c') = false /\ cycles_to_sleep (get m' c') = 0.
Proof.
  induction fuel as [|fuel IH]; intros m f c l Hs Hf Hr Ht; [pose proof (total_nonneg m (sh_cycles _ _ _ Hs)); lia|].
  cbn [yield_loop]. set (h := next_avail (get m f)). pose proof (Hr f Hf) as Hh. unfold right in Hh. fold h in Hh.
  pose proof (fa_ring m _ c l f h (sh_ring _ _ _ Hs) Hh Hf) as Hin. destruct (Z.eqb_spec (cycles_to_sleep (get m h)) 0) as [E|N].
  - exists h, m. split; [reflexivity|]. split; [split; reflexivity || tauto|]. split; [exact Hs|]. split; [exact Hin|]. split; [exact (fa_free _ _ _ _ Hh)|exact E].
  - assert (Sh : is_Some (m !! h)) by (apply (sh_dom _ _ _ Hs), Hin). set (m1 := upd h _ m).
    pose proof (upd_cycles m h (fun d => cycles_to_sleep d - 1) Sh) as S1. fold m1 in S1.
    assert (Hc1 : forall x, 0 <= cycles_to_sleep (get m1 x)).
    { intros x. unfold m1. rewrite get_upd by exact Sh. pose proof (sh_cycles _ _ _ Hs x). destruct (Z.eqb_spec x h) as [->|]; cbn; lia. }
    pose proof (shaped_ring m m1 c l S1 Hc1 Hs) as Hs1. destruct Sh as [d Hd].
    destruct (IH m1 h c l Hs1 Hin) as (c' & m' & E & S2 & H).
    + intros x Hx. apply (right_ring m); auto.
    + unfold m1. rewrite (total_upd m h d (fun d => cycles_to_sleep d - 1) Hd). lia.
    + exists c', m'. split; [exact E|]. split; [eapply sr_trans; eassumption|exact H].
Qed.

Lemma sleep_spec m c l num : shaped m c l -> (forall x, x ∈ c :: l -> right m (pausing m) x) -> 0 <= num ->
  exists c' m', fiber_sleep num c m = Some (c', m') /\ same_ring m m' /\ shaped m' c l /\ c' ∈ c :: l /\
    paused (get m' c') = false /\ cycles_to_sleep (get m' c') = 0.
Proof.
  intros Hs Hr Hn. unfold fiber_sleep, fiber_yield. assert (Sc : is_Some (m !! c)) by (apply (sh_dom _ _ _ Hs), list_elem_of_here).
  set (m1 := upd c (set_cycles num) m). pose proof (upd_cycles m c (fun _ => num) Sc) as S1. change (upd c _ m) with m1 in S1.
  assert (Hc1 : forall x, 0 <= cycles_to_sleep (get m1 x)).
  { intros x. unfold m1. rewrite get_upd by exact Sc. pose proof (sh_cycles _ _ _ Hs x). destruct (Z.eqb_spec x c) as [->|]; cbn; lia. }
  destruct (yield_spec (S (Z.to_nat (total_sleep m1))) m1 c c l) as (c' & m' & E & S2 & H).
  - apply (shaped_ring m); assumption.
  - apply list_elem_of_here.
  - intros x Hx. apply (right_ring m); auto.
  - pose proof (total_nonneg m1 Hc1). lia.
  - exists c', m'. split; [exact E|]. split; [eapply sr_trans; eassumption|exact H].
Qed.

(** ** Leaving the ring *)

Lemma chain_keep m m' k : chain m k -> (forall a, a ∈ removelast k -> next (get m' a) = next (get m a)) ->
  (forall b, b ∈ tail k -> prev (get m' b) = prev (get m b)) -> chain m' k.
Proof.
  induction k as [|a k IH]; [auto|]. destruct k as [|b k]; [auto|]. intros (E1 & E2 & H) Hn Hp. split; [|split].
  - rewrite Hn; [exact E1|]. apply list_elem_of_here.
  - rewrite Hp; [exact E2|]. apply list_elem_of_here.
  - apply IH; [exact H| |].
    + intros x Hx. apply Hn. right. exact Hx.
    + intros x Hx. apply Hp. right. destruct k; cbn in *; [exact Hx|exact Hx].
Qed.

(** The ring without [c], whose neighbours are [x] and [y] *)
Record cut (c x y : Z) (m m' : gmap Z FiberData) : Prop := {
  c_next f : f <> c -> next (get m' f) = if f =? y then x else next (get m f);
  c_prev f : f <> c -> prev (get m' f) = if f =? x then y else prev (get m f);
  c_paused f : f <> c -> paused (get m' f) = paused (get m f);
  c_cycles f : f <> c -> cycles_to_sleep (get m' f) = cycles_to_sleep (get m f);
  c_avail f : f <> c -> next_avail (get m' f) = next_avail (get m f);
  c_dom f : is_Some (m' !! f) <-> f <> c /\ is_Some (m !! f);
}.

Lemma get_delete c m f : get (delete c m) f = if f =? c then blank else get m f.
Proof.
  unfold get. destruct (Z.eqb_spec f c) as [->|N]; [rewrite lookup_delete_eq; reflexivity|]. rewrite lookup_delete_ne by congruence. reflexivity.
Qed.

Lemma unlink_cut g c : let m := fibers g in let x := next (get m c) in let y := prev (get m c) in is_Some (m !! x) -> is_Some (m !! y) ->
  cut c x y m (delete c (fibers (unlink c g))).
Proof.
  intros m x y Hx Hy. unfold unlink. cbn [fibers]. fold m x y. set (m1 := upd y (set_next x) m).
  assert (Hx1 : is_Some (m1 !! x)) by (apply upd_dom, Hx).
  assert (G : forall f, get (upd x (set_prev y) m1) f =
    (let d := if f =? y then set_next x (get m f) else get m f in if f =? x then set_prev y d else d)).
  { intros f. rewrite get_upd by exact Hx1. unfold m1. rewrite !get_upd by exact Hy. destruct (Z.eqb_spec f x) as [->|]; [destruct (Z.eqb_spec x y) as [->|]|destruct (Z.eqb_spec f y) as [->|]]; reflexivity. }
  split; intros f; try (intros N; rewrite get_delete; destruct (Z.eqb_spec f c); [contradiction|]; rewrite G; destruct (f =? y), (f =? x); reflexivity).
  rewrite lookup_delete_is_Some. unfold m1. rewrite !upd_dom. split; intros [? ?]; (split; [congruence|assumption]).
Qed.

Section Cut.
Context (m m' : gmap Z FiberData) (c x : Z) (l : list Z) (y : Z).
Context (Hs : shaped m c (x :: l)) (Hx : next (get m c) = x) (Hy : prev (get m c) = y) (Hcut : cut c x y m m').

Lemma cut_last : exists k, x :: l = k ++ [y].
Proof.
  destruct (exists_last (l := x :: l)) as (k & z & E); [discriminate|]. exists k. rewrite E. f_equal. f_equal.
  pose proof (sh_ring _ _ _ Hs) as H. unfold ring in H. rewrite E, <- app_assoc in H. change (c :: k ++ [z] ++ [c]) with ((c :: k) ++ z :: [c]) in H.
  apply chain_app in H as [_ H]. cbn in H. destruct H as (_ & H & _). congruence.
Qed.

Lemma cut_fresh f : f ∈ x :: l -> f <> c.
Proof. pose proof (sh_nodup _ _ _ Hs) as H. apply NoDup_cons in H as [H _]. intros Hf ->. contradiction. Qed.

Lemma cut_shaped : shaped m' x l.
Proof.
  destruct cut_last as [k Ek]. pose proof (sh_nodup _ _ _ Hs) as Hn. apply NoDup_cons in Hn as [_ Hn]. split.
  - unfold ring. change (x :: l ++ [x]) with ((x :: l) ++ [x]). rewrite Ek, <- app_assoc. apply (chain_app m' k y [x]). split.
    + apply (chain_keep m).
      * pose proof (sh_ring _ _ _ Hs) as H. unfold ring in H. rewrite Ek, <- app_assoc in H. change (c :: k ++ [y] ++ [c]) with ((c :: k) ++ y :: [c]) in H.
        apply chain_app in H as [H _]. rewrite <- Ek. change ((c :: k) ++ [y]) with (c :: (k ++ [y])) in H. rewrite <- Ek in H. exact (proj2 (proj2 H)).
      * intros a Ha. rewrite removelast_last in Ha. rewrite (c_next _ _ _ _ _ Hcut).
        -- destruct (Z.eqb_spec a y) as [->|]; [|reflexivity]. rewrite Ek in Hn. apply NoDup_app in Hn as (_ & Hn & _). destruct (Hn y Ha). apply list_elem_of_here.
        -- apply cut_fresh. rewrite Ek. apply elem_of_app. auto.
      * intros b Hb. rewrite <- Ek in Hb. cbn [tail] in Hb. rewrite (c_prev _ _ _ _ _ Hcut) by (apply cut_fresh; right; exact Hb).
        destruct (Z.eqb_spec b x) as [->|]; [|reflexivity]. apply NoDup_cons in Hn as [Hn _]. contradiction.
    + assert (Hyl : y ∈ x :: l) by (rewrite Ek; apply elem_of_app; right; apply list_elem_of_here).
      cbn. rewrite (c_next _ _ _ _ _ Hcut) by (apply cut_fresh, Hyl). rewrite (c_prev _ _ _ _ _ Hcut) by (apply cut_fresh, list_elem_of_here). rewrite !Z.eqb_refl. auto.
  - exact Hn.
  - intros f. rewrite (c_dom _ _ _ _ _ Hcut), (sh_dom _ _ _ Hs). split.
    + intros [N H]. apply elem_of_cons in H as [->|H]; [contradiction|exact H].
    + intros H. split; [apply cut_fresh, H|right; exact H].
  - intros f. destruct (decide (f = c)) as [->|N]; [|rewrite (c_cycles _ _ _ _ _ Hcut) by exact N; apply Hs].
    unfold get. destruct (m' !! c) eqn:E; [|cbn; lia]. destruct (proj1 (c_dom _ _ _ _ _ Hcut c)) as [? _]; [eauto|contradiction].
Qed.

(** Paths that passed [c] now pass it by. *)
Lemma cut_path f h : paused (get m c) = true -> first_avail (order m) (pausing m) f h -> f ∈ c :: x :: l ->
  (f <> c -> first_avail (order m') (pausing m') f h) /\ (f = c -> first_avail (order m') (pausing m') y h).
Proof.
  intros Hc H. pose proof (sh_ring _ _ _ Hs) as Hr. assert (Hxc : x <> c) by (apply cut_fresh, list_elem_of_here).
  assert (Hyl : y ∈ x :: l) by (destruct cut_last as [k ->]; apply elem_of_app; right; apply list_elem_of_here).
  pose proof (cut_fresh y Hyl) as Hyc. assert (Ny : next (get m' y) = x) by (rewrite (c_next _ _ _ _ _ Hcut) by exact Hyc; rewrite Z.eqb_refl; reflexivity).
  assert (Hny : next (get m y) = c).
  { destruct cut_last as [k Ek]. unfold ring in Hr. rewrite Ek, <- app_assoc in Hr. change (c :: k ++ [y] ++ [c]) with ((c :: k) ++ y :: [c]) in Hr.
    apply chain_app in Hr as [_ Hr]. exact (proj1 Hr). }
  assert (Hsame : forall f, f <> c -> next (get m f) <> c -> next (get m' f) = next (get m f)).
  { intros g Ng Hg. rewrite (c_next _ _ _ _ _ Hcut) by exact Ng. destruct (Z.eqb_spec g y) as [->|]; [contradiction|reflexivity]. }
  induction H as [f H|f h H H' IH]; intros Hf; cbv beta in *.
  - assert (Hnc : next (get m f) <> c) by (intros E; rewrite E in H; congruence). split; intros Ef.
    + rewrite <- (Hsame f Ef Hnc). apply (fa_here (order m')). rewrite (Hsame f Ef Hnc), (c_paused _ _ _ _ _ Hcut) by exact Hnc. exact H.
    + subst f. rewrite Hx in *. rewrite <- Ny at 1. apply (fa_here (order m')). rewrite Ny, (c_paused _ _ _ _ _ Hcut) by exact Hxc. exact H.
  - destruct (ring_next m c (x :: l) f Hr Hf) as [Hin Hpv]. destruct (IH Hin) as [I1 I2]. split; intros Ef.
    + destruct (decide (next (get m f) = c)) as [E|N].
      * rewrite E, Hy in Hpv. subst f. apply I2, E.
      * apply fa_skip; rewrite (Hsame f Ef N); [rewrite (c_paused _ _ _ _ _ Hcut) by exact N; exact H|apply I1, N].
    + subst f. rewrite Hx in *. apply fa_skip; rewrite Ny; [rewrite (c_paused _ _ _ _ _ Hcut) by exact Hxc; exact H|apply I1, Hxc].
Qed.

Lemma cut_right f : paused (get m c) = true -> f ∈ x :: l -> right m (pausing m) f -> right m' (pausing m') f.
Proof.
  intros Hc Hf H. unfold right. rewrite (c_avail _ _ _ _ _ Hcut) by (apply cut_fresh, Hf). apply (cut_path f _ Hc H); [right; exact Hf|apply cut_fresh, Hf].
Qed.
End Cut.

(** ** Steps *)

Lemma inv_moved g c c' l m' : shaped (fibers g) c l -> same_ring (fibers g) m' -> shaped m' c l -> c' ∈ c :: l ->
  (forall x, x ∈ c :: l -> right (fibers g) (pausing (fibers g)) x) -> (exists f, first g = Some f /\ f ∈ c :: l) -> inv (MkState (set_fibers m' g) c' Running).
Proof.
  intros Hs S Hs' Hc Hr (f & Hf & Hfl). destruct (shaped_at m' c l c' Hs' Hc) as (l' & Hs2 & Hperm). exists l'. cbn [group cur mode fibers set_fibers first].
  split; [exact Hs2|]. split; [exists f; split; [exact Hf|rewrite Hperm; exact Hfl]|].
  intros x Hx. rewrite Hperm in Hx. apply (right_ring (fibers g)); auto.
Qed.

Lemma inv_prepare g c l : shaped (fibers g) c l -> (forall x, x ∈ c :: l -> right (fibers g) (pausing (fibers g)) x) ->
  let m := prepare_pause c (fibers g) in shaped m c l /\ paused (get m c) = true /\
    forall x, x ∈ c :: l -> right m (pausing m) x \/ right m (free c (pausing m)) x.
Proof.
  intros Hs Hr m. assert (Sc : is_Some (fibers g !! c)) by (apply (sh_dom _ _ _ Hs), list_elem_of_here).
  assert (G : forall x, get m x = if x =? c then set_paused true (get (fibers g) c) else get (fibers g) x) by (intros x; apply get_upd, Sc).
  assert (En : forall x, next (get m x) = next (get (fibers g) x)) by (intros x; rewrite G; destruct (Z.eqb_spec x c) as [->|]; reflexivity). split; [|split].
  - destruct Hs as [H1 H2 H3 H4]. split; [|exact H2|intros x; unfold m, prepare_pause; rewrite upd_dom; apply H3|intros x; rewrite G; pose proof (H4 x); destruct (Z.eqb_spec x c) as [->|]; cbn; auto].
    apply (chain_keep (fibers g)); [exact H1|intros a _; apply En|intros b _; rewrite G; destruct (Z.eqb_spec b c) as [->|]; reflexivity].
  - rewrite G, Z.eqb_refl. reflexivity.
  - intros x Hx. unfold right. replace (next_avail (get m x)) with (next_avail (get (fibers g) x)) by (rewrite G; destruct (Z.eqb_spec x c) as [->|]; reflexivity).
    destruct (paused (get (fibers g) c)) eqn:Hp; [left|right]; (apply (fa_nx (order (fibers g))); [exact En|]); (eapply fa_ext; [|exact (Hr x Hx)]); intros y;
      unfold free; rewrite G; (destruct (Z.eqb_spec y c) as [->|]; [exact Hp|reflexivity]).
Qed.

Lemma awaken_paused c m : pause c m = Some Awaken -> paused (get m c) = false.
Proof. unfold pause. destruct (paused (get m c)); [cbn; destruct (_ =? _); [discriminate|]; destruct (back_loop _ _ _ _); discriminate|reflexivity]. Qed.

(** A fiber that is parked is resumed when another one has returned. *)
Definition resumes_parked (st st' : State) : Prop := mode st = Exiting /\ mode st' = Running /\ paused (get (fibers (group st')) (cur st')) = true.

Lemma restart_inv g c m f : inv (MkState g c Exiting) -> pause c (fibers g) = Some (Asleep m) -> first (unlink c (set_fibers m g)) = Some f ->
  let g' := MkGroup (first (unlink c (set_fibers m g))) (last (unlink c (set_fibers m g))) (delete c (fibers (unlink c (set_fibers m g)))) in
  inv (MkState g' f Running).
Proof.
  intros (l & Hs & (f0 & Hf0 & Hf0l) & Hp & Hl & Hr) Ep Ef g'. cbn [group cur mode] in *.
  assert (Hne : next_avail (get (fibers g) c) <> c) by (unfold pause in Ep; rewrite Hp in Ep; cbn in Ep; destruct (Z.eqb_spec (next_avail (get (fibers g) c)) c); [discriminate|assumption]).
  destruct (pause_spec _ _ _ Hs Hp Hne Hr) as (m1 & E & Sm & Hr1). rewrite E in Ep. injection Ep as <-. clear E.
  pose proof (shaped_links _ _ _ _ Sm Hs) as Hs1. destruct l as [|x l]; [contradiction|].
  assert (Hx : next (get m1 c) = x) by (pose proof (sh_ring _ _ _ Hs1) as H; exact (proj1 H)). set (y := prev (get m1 c)).
  assert (Hp1 : paused (get m1 c) = true) by (rewrite (sl_paused _ _ Sm); exact Hp).
  assert (Hyl : exists k, x :: l = k ++ [y]) by (apply (cut_last m1 c); [exact Hs1|reflexivity]).
  assert (Hcut : cut c x y m1 (fibers g')).
  { pose proof (unlink_cut (set_fibers m1 g) c) as H. cbv zeta in H. cbn [fibers set_fibers] in H. rewrite Hx in H. apply H.
    - apply (sh_dom _ _ _ Hs1). right. left.
    - apply (sh_dom _ _ _ Hs1). destruct Hyl as [k ->]. right. apply elem_of_app. right. left. }
  pose proof (cut_shaped m1 _ c x l y Hs1 eq_refl Hcut) as Hs2.
  assert (Hf : f ∈ x :: l).
  { unfold unlink in Ef. cbn [first set_fibers fibers] in Ef. rewrite Hx in Ef. destruct (decide (first g = Some c)) as [E|N].
    - injection Ef as <-. left.
    - rewrite Hf0 in Ef. injection Ef as ->. apply elem_of_cons in Hf0l as [->|H]; [congruence|exact H]. }
  destruct (shaped_at _ _ _ f Hs2 Hf) as (l' & Hs3 & Hperm). exists l'. cbn [group cur mode]. split; [exact Hs3|].
  split; [exists f; split; [exact Ef|left]|]. intros z Hz. rewrite Hperm in Hz.
  apply (cut_right m1 _ c x l y Hs1 Hx eq_refl Hcut); [exact Hp1|exact Hz|]. assert (Hzl : z ∈ c :: x :: l) by (right; exact Hz).
  eapply right_ext; [|exact (Hr1 z Hzl)]. intros w. rewrite (sl_paused _ _ Sm). reflexivity.
Qed.

Lemma step_inv st st' : inv st -> step st st' -> inv st'.
Proof.
  intros Hi Hst. destruct Hst as [g c num c' m Hn E|g c|g c E|g c m E|g c c' m E|g c md f m Hf Hne E|g c Hne|g c m f E Ef].
  - destruct Hi as (l & Hs & Hf & Hr). destruct (sleep_spec _ _ _ num Hs Hr Hn) as (c1 & m1 & E' & S & Hs' & Hc & _).
    cbn [group cur mode] in *. rewrite E in E'. injection E' as <- <-. eapply inv_moved; eassumption.
  - destruct Hi as (l & Hs & Hf & Hr). cbn [group cur mode] in *. destruct (inv_prepare g c l Hs Hr) as (H1 & H2 & H3). exists l. cbn [group cur mode fibers set_fibers first]. auto.
  - destruct Hi as (l & Hs & Hf & Hr). cbn [group cur mode] in *. pose proof (awaken_paused _ _ E) as Ep.
    exists l. cbn [group cur mode]. split; [exact Hs|]. split; [exact Hf|]. intros f Hfl. destruct (Hr f Hfl) as [H|H]; [exact H|].
    eapply right_ext; [|exact H]. intros y. apply free_same. exact Ep.
  - destruct Hi as (l & Hs & Hf & Hr). cbn [group cur mode] in *.
    assert (Hp : paused (get (fibers g) c) = true) by (unfold pause in E; destruct (paused _); [reflexivity|discriminate]).
    assert (Hne : next_avail (get (fibers g) c) <> c) by (unfold pause in E; rewrite Hp in E; cbn in E; destruct (Z.eqb_spec (next_avail (get (fibers g) c)) c); [discriminate|assumption]).
    destruct (pause_spec _ _ _ Hs Hp Hne Hr) as (m1 & E' & Sm & Hr1). rewrite E' in E. injection E as <-. exists l. cbn [group cur mode fibers set_fibers first].
    split; [apply (shaped_links _ _ _ _ Sm Hs)|]. split; [exact Hf|]. intros f Hfl. eapply right_ext; [|exact (Hr1 f Hfl)]. intros y. rewrite (sl_paused _ _ Sm). reflexivity.
  - destruct Hi as (l & Hs & Hf & Hr). destruct (sleep_spec _ _ _ 0 Hs Hr ltac:(lia)) as (c1 & m1 & E' & S & Hs' & Hc & _).
    cbn [group cur mode] in *. rewrite E in E'. injection E' as <- <-. eapply inv_moved; eassumption.
  - eapply sched_unpause; eassumption.
  - destruct Hi as (l & Hs & Hf & Hr). cbn [group cur mode] in *. destruct (inv_prepare g c l Hs Hr) as (H1 & H2 & H3). exists l. cbn [group cur mode fibers set_fibers first].
    split; [exact H1|]. split; [exact Hf|]. split; [exact H2|]. split; [|auto]. intros ->. apply Hne. pose proof (sh_ring _ _ _ Hs) as H. exact (proj1 H).
  - exact (restart_inv g c m f Hi E Ef).
Qed.

(** Between exits that resume a parked fiber, the fiber that runs is not paused. *)
Lemma step_unpaused st st' : inv st -> step st st' -> ~ resumes_parked st st' ->
  (mode st = Running -> paused (get (fibers (group st)) (cur st)) = false) ->
  mode st' = Running -> paused (get (fibers (group st')) (cur st')) = false.
Proof.
  intros Hi Hst Hnr Hp Hm. destruct Hst as [g c num c' m Hn E|g c|g c E|g c m E|g c c' m E|g c md f m Hf Hne E|g c Hne|g c m f E Ef];
    cbn [group cur mode fibers set_fibers] in *; try discriminate Hm.
  - destruct Hi as (l & Hs & _ & Hr). destruct (sleep_spec _ _ _ num Hs Hr Hn) as (c1 & m1 & E' & _ & _ & _ & Hpc & _). cbn [group cur fibers] in E'. rewrite E in E'. injection E' as <- <-. exact Hpc.
  - exact (awaken_paused _ _ E).
  - destruct Hi as (l & Hs & _ & Hr). destruct (sleep_spec _ _ _ 0 Hs Hr ltac:(lia)) as (c1 & m1 & E' & _ & _ & _ & Hpc & _). cbn [group cur fibers] in E'. rewrite E in E'. injection E' as <- <-. exact Hpc.
  - destruct Hi as (l & Hs & _ & _). apply (sh_dom _ _ _ Hs) in Hf. destruct (unpause_spec _ _ _ f Hs Hf) as (m' & E' & W & _). cbn [group cur fibers] in E'. rewrite E in E'. injection E' as <-.
    rewrite (w_paused _ _ _ W). unfold free. destruct (c =? f); [reflexivity|]. apply Hp, Hm.
  - destruct (paused (get _ f)) eqn:Ep; [|reflexivity]. destruct Hnr. split; [reflexivity|]. split; [reflexivity|exact Ep].
Qed.

(** ** Starting *)

(** [FiberGroup::with]: fibers are spawned, and the first one is started. *)
Definition spawned (fs : list Z) : Group := fold_left (fun g f => spawn_fn f g) fs (MkGroup None None ∅).
Definition start (x : Z) (l : list Z) : State := MkState (spawned (x :: l)) x Running.

Record fresh (g : Group) (x : Z) (l : list Z) : Prop := {
  f_shaped : shaped (fibers g) x l;
  f_first : first g = Some x;
  f_last : exists k y, x :: l = k ++ [y] /\ last g = Some y;
  f_avail f : f ∈ x :: l -> paused (get (fibers g) f) = false /\ next_avail (get (fibers g) f) = next (get (fibers g) f);
}.

Lemma fresh_spawn g x l f : fresh g x l -> f ∉ x :: l -> fresh (spawn_fn f g) x (l ++ [f]).
Proof.
  intros [Hs Hfst (k & y & Ek & Hlast) Ha] Hf. unfold spawn_fn. rewrite Hfst, Hlast. set (m := fibers g) in *.
  assert (Hyl : y ∈ x :: l) by (rewrite Ek; apply elem_of_app; right; left). assert (Nfy : f <> y) by (intros ->; contradiction).
  assert (Nfx : f <> x) by (intros ->; apply Hf; left). destruct (Ha y Hyl) as [_ Eay].
  assert (Eny : next (get m y) = x).
  { pose proof (sh_ring _ _ _ Hs) as H. unfold ring in H. change (x :: l ++ [x]) with ((x :: l) ++ [x]) in H. rewrite Ek, <- app_assoc in H.
    apply chain_app in H as [_ H]. exact (proj1 H). }
  assert (G0 : forall z, get (<[f := init f]> m) z = if z =? f then init f else get m z).
  { intros z. unfold get. destruct (Z.eqb_spec z f) as [->|N]; [rewrite lookup_insert_eq; reflexivity|rewrite lookup_insert_ne by congruence; reflexivity]. }
  cbv zeta. rewrite !G0. destruct (Z.eqb_spec y f); [congruence|]. rewrite Eay, Eny.
  set (m0 := <[f := init f]> m). set (m' := upd f (set_prev y) _).
  assert (D0 : forall z, is_Some (m0 !! z) <-> z = f \/ z ∈ x :: l).
  { intros z. unfold m0. rewrite lookup_insert_is_Some, (sh_dom _ _ _ Hs). destruct (decide (z = f)) as [->|N]; [split; auto|].
    split; [intros [?|[_ H]]; [congruence|auto]|intros [?|H]; [contradiction|right; split; [congruence|exact H]]]. }
  assert (Df : is_Some (m0 !! f)) by (apply D0; auto). assert (Dy : is_Some (m0 !! y)) by (apply D0; auto). assert (Dx : is_Some (m0 !! x)) by (apply D0; right; left).
  assert (G : forall z, get m' z = if z =? f then MkFiber y x false 0 x
    else let d := if z =? x then set_prev f (get m z) else get m z in if z =? y then set_next_avail f (set_next f d) else d).
  { intros z. unfold m'. repeat (rewrite get_upd; [|rewrite ?upd_dom; assumption]).
    rewrite !G0. rewrite !Z.eqb_refl. destruct (Z.eqb_spec f x), (Z.eqb_spec f y), (Z.eqb_spec y f), (Z.eqb_spec x f); try congruence.
    destruct (Z.eqb_spec z f) as [->|]; [reflexivity|]. destruct (Z.eqb_spec z y) as [->|]; [|destruct (Z.eqb_spec z x) as [->|]; reflexivity].
    destruct (Z.eqb_spec y x) as [->|]; reflexivity. }
  assert (Hn : NoDup (x :: l)) by apply Hs. split.
  - cbn [fibers]. split.
    + unfold ring. rewrite <- app_assoc. change (x :: l ++ [f] ++ [x]) with ((x :: l) ++ [f; x]). rewrite Ek, <- app_assoc. apply (chain_app m' k y [f; x]). split.
      * apply (chain_keep m).
        -- pose proof (sh_ring _ _ _ Hs) as H. unfold ring in H. change (x :: l ++ [x]) with ((x :: l) ++ [x]) in H. rewrite Ek, <- app_assoc in H. apply chain_app in H as [H _]. exact H.
        -- intros a Ha'. rewrite removelast_last in Ha'. rewrite G. destruct (Z.eqb_spec a f) as [->|]; [destruct Hf; rewrite Ek; apply elem_of_app; auto|].
           destruct (Z.eqb_spec a y) as [->|]; [|destruct (a =? x); reflexivity]. rewrite Ek in Hn. apply NoDup_app in Hn as (_ & Hn & _). destruct (Hn y Ha'). left.
        -- intros b Hb. rewrite <- Ek in Hb. cbn [tail] in Hb. rewrite G. destruct (Z.eqb_spec b f) as [->|]; [destruct Hf; right; exact Hb|].
           destruct (Z.eqb_spec b x) as [->|]; [apply NoDup_cons in Hn as [Hn _]; contradiction|]. destruct (b =? y); reflexivity.
      * cbn. rewrite !G, !Z.eqb_refl. destruct (Z.eqb_spec y f), (Z.eqb_spec x f); try congruence. cbn. destruct (x =? y); auto.
    + change (x :: l ++ [f]) with ((x :: l) ++ [f]). apply NoDup_app. split; [exact Hn|]. split; [intros z Hz ->%list_elem_of_singleton; contradiction|apply NoDup_singleton].
    + intros z. unfold m'. rewrite !upd_dom, D0. change (x :: l ++ [f]) with ((x :: l) ++ [f]). rewrite elem_of_app, list_elem_of_singleton. tauto.
    + intros z. rewrite G. pose proof (sh_cycles _ _ _ Hs z). destruct (z =? f), (z =? x), (z =? y); cbn; lia || assumption.
  - reflexivity.
  - exists (x :: l), f. auto.
  - intros z Hz. cbn [fibers]. rewrite G. change (x :: l ++ [f]) with ((x :: l) ++ [f]) in Hz. rewrite elem_of_app, list_elem_of_singleton in Hz.
    destruct (Z.eqb_spec z f) as [->|N]; [split; reflexivity|]. destruct Hz as [Hz|Hz]; [|contradiction]. destruct (Ha z Hz).
    destruct (z =? x), (z =? y); cbn; auto.
Qed.

Lemma fresh_all l : forall g x k, fresh g x k -> NoDup ((x :: k) ++ l) -> fresh (fold_left (fun g f => spawn_fn f g) l g) x (k ++ l).
Proof.
  induction l as [|f l IH]; intros g x k H Hn; cbn [fold_left]; [rewrite app_nil_r; exact H|].
  replace (k ++ f :: l) with ((k ++ [f]) ++ l) by (rewrite <- app_assoc; reflexivity). apply IH.
  - apply fresh_spawn; [exact H|]. apply NoDup_app in Hn as (_ & Hn & _). intros Hf. apply (Hn f Hf). left.
  - change (x :: k ++ [f]) with ((x :: k) ++ [f]). rewrite <- app_assoc. exact Hn.
Qed.

Lemma fresh_one x : fresh (spawn_fn x (MkGroup None None ∅)) x [].
Proof.
  assert (G : forall z, get (<[x := init x]> ∅) z = if z =? x then init x else blank).
  { intros z. unfold get. destruct (Z.eqb_spec z x) as [->|N]; [rewrite lookup_insert_eq; reflexivity|rewrite lookup_insert_ne, lookup_empty by congruence; reflexivity]. }
  split; cbn [fibers first last spawn_fn]; [|reflexivity|exists [], x; auto|].
  - split; [cbn; rewrite !G, !Z.eqb_refl; auto|apply NoDup_singleton| |intros z; rewrite G; destruct (z =? x); cbn; lia].
    intros z. rewrite lookup_insert_is_Some, lookup_empty, list_elem_of_singleton. split; [intros [?|[_ H]]; [congruence|destruct H; discriminate]|intros ->; auto].
  - intros f Hf. apply list_elem_of_singleton in Hf as ->. rewrite G, Z.eqb_refl. auto.
Qed.

Lemma start_inv x l : NoDup (x :: l) -> inv (start x l).
Proof.
  intros Hn. assert (F : fresh (spawned (x :: l)) x l) by (apply (fresh_all l _ x []); [apply fresh_one|exact Hn]).
  exists l. unfold start. cbn [group cur mode]. destruct F as [Hs Hf _ Ha]. split; [exact Hs|]. split; [exists x; split; [exact Hf|left]|].
  intros f Hfl. unfold right. destruct (Ha f Hfl) as [_ ->]. apply (fa_here (order _)). apply Ha, (ring_next _ x l f (sh_ring _ _ _ Hs) Hfl).
Qed.

Lemma start_unpaused x l : NoDup (x :: l) -> paused (get (fibers (group (start x l))) x) = false.
Proof. intros Hn. apply (fresh_all l _ x [] (fresh_one x) Hn). left. Qed.

Lemma reachable_inv x l st : NoDup (x :: l) -> rtc step (start x l) st -> inv st.
Proof. intros Hn H. apply (rtc_ind_r (R := step) inv (start x l)); [apply start_inv, Hn| |exact H]. intros st1 st2 _ Hst Hi. exact (step_inv st1 st2 Hi Hst). Qed.

(** The states of a group in which no exit has resumed a parked fiber *)
Inductive reached (x : Z) (l : list Z) : State -> Prop :=
| r_start : reached x l (start x l)
| r_step st st' : reached x l st -> step st st' -> ~ resumes_parked st st' -> reached x l st'.

Lemma reached_unpaused x l st : NoDup (x :: l) -> reached x l st ->
  inv st /\ (mode st = Running -> paused (get (fibers (group st)) (cur st)) = false).
Proof.
  intros Hn. induction 1 as [|st st' _ [Hi Hp] Hst Hnr]; [split; [apply start_inv, Hn|intros _; apply start_unpaused, Hn]|].
  split; [exact (step_inv st st' Hi Hst)|exact (step_unpaused st st' Hi Hst Hnr Hp)].
Qed.

(** The loop of [pause] ends wherever it is called. *)
Lemma pause_total m c l : shaped m c l -> (forall f, f ∈ c :: l -> right m (pausing m) f \/ right m (free c (pausing m)) f) -> is_Some (pause c m).
Proof.
  intros Hs Hr. destruct (paused (get m c)) eqn:Hp; [|unfold pause; rewrite Hp; eexists; reflexivity].
  destruct (Z.eqb_spec (next_avail (get m c)) c) as [E|N]; [unfold pause; rewrite Hp, E, Z.eqb_refl; eexists; reflexivity|].
  destruct (pause_spec m c l Hs Hp N Hr) as (m' & E & _). rewrite E. eexists. reflexivity.
Qed.

(** C14. Scheduling of fibers, for any number of them, in every state reached by what they
    do, exits included, and by wake-ups from other threads in between: the fibers are one
    cycle of [next] and [prev] links, without repetition, in which the current one is; the
    loops of [pause] and [unpause] end, for every fiber that is woken; and, except while the
    current fiber is between [prepare_pause] and the end of [pause], every fiber's
    [next_avail] is the first fiber after it in the ring that is not paused, and yielding,
    for any number of cycles, ends with a fiber that is neither paused nor has cycles left
    to sleep.  The fiber that runs is not paused, if no exit on the way here has resumed a
    parked fiber ([exit_resumes_parked] shows one that does).  A fiber that has returned is
    not woken. *)
Theorem fibers_scheduled x l st : NoDup (x :: l) -> rtc step (start x l) st ->
  let m := fibers (group st) in
  (exists k, ring m (cur st) k /\ NoDup (cur st :: k) /\ forall f, is_Some (m !! f) <-> f ∈ cur st :: k) /\
  (forall f, is_Some (m !! f) -> is_Some (unpause f m)) /\
  match mode st with
  | Preparing | Exiting => is_Some (pause (cur st) m)
  | Running | Leaving =>
      (forall f, is_Some (m !! f) -> first_avail (order m) (pausing m) f (next_avail (get m f))) /\
      forall num, 0 <= num -> exists c' m', fiber_sleep num (cur st) m = Some (c', m') /\ is_Some (m' !! c') /\
        paused (get m' c') = false /\ cycles_to_sleep (get m' c') = 0
  end /\
  (reached x l st -> mode st = Running -> paused (get m (cur st)) = false).
Proof.
  intros Hn Hr. destruct (reachable_inv x l st Hn Hr) as (k & Hs & Hf & Hm). cbv zeta in *.
  split; [exists k; split; [apply Hs|split; [apply Hs|apply (sh_dom _ _ _ Hs)]]|]. split.
  { intros f Hfl. apply (sh_dom _ _ _ Hs) in Hfl. destruct (unpause_spec _ _ _ f Hs Hfl) as (m' & -> & _). eexists. reflexivity. }
  assert (K : (forall f, f ∈ cur st :: k -> right (fibers (group st)) (pausing (fibers (group st))) f) ->
    (forall f, is_Some (fibers (group st) !! f) -> first_avail (order (fibers (group st))) (pausing (fibers (group st))) f (next_avail (get (fibers (group st)) f))) /\
    forall num, 0 <= num -> exists c' m', fiber_sleep num (cur st) (fibers (group st)) = Some (c', m') /\ is_Some (m' !! c') /\
      paused (get m' c') = false /\ cycles_to_sleep (get m' c') = 0).
  { intros Hri. split; [intros f Hfl; apply Hri, (sh_dom _ _ _ Hs), Hfl|]. intros num Hnum.
    destruct (sleep_spec _ _ _ num Hs Hri Hnum) as (c' & m' & E & S & Hs' & Hc & Hpc & Hcy). exists c', m'.
    split; [exact E|]. split; [apply (sh_dom _ _ _ Hs'), Hc|]. auto. }
  split; [|intros H; exact (proj2 (reached_unpaused x l st Hn H))].
  destruct (mode st); [exact (K Hm)|exact (pause_total _ _ _ Hs Hm)|exact (K Hm)|exact (pause_total _ _ _ Hs (proj2 (proj2 Hm)))].
Qed.

(** Three fibers: the first parks, and the second runs. *)
Definition result {A} (o : option (A * gmap Z FiberData)) : gmap Z FiberData := match o with Some (_, m) => m | None => ∅ end.
Definition asleep (p : option Pause) : gmap Z FiberData := match p with Some (Asleep m) => m | _ => ∅ end.
Definition three : Group := spawned [1; 2; 3].
Definition three_prepared : Group := set_fibers (prepare_pause 1 (fibers three)) three.
Definition three_asleep : Group := set_fibers (asleep (pause 1 (fibers three_prepared))) three_prepared.
Definition three_left : Group := set_fibers (result (fiber_sleep 0 1 (fibers three_asleep))) three_asleep.

Lemma three_reached : reached 1 [2; 3] (MkState three_left 2 Running).
Proof.
  assert (H : forall st st', mode st <> Exiting -> ~ resumes_parked st st') by (intros st st' Hm [E _]; contradiction).
  eapply r_step; [eapply r_step; [eapply r_step; [apply r_start|apply s_prepare|apply H; discriminate]|apply (s_asleep three_prepared 1 (asleep (pause 1 (fibers three_prepared)))); vm_compute; reflexivity|apply H; discriminate]|
    apply (s_leave three_asleep 1 2 (result (fiber_sleep 0 1 (fibers three_asleep)))); vm_compute; reflexivity|apply H; discriminate].
Qed.

Lemma reached_rtc x l st : reached x l st -> rtc step (start x l) st.
Proof. induction 1 as [|st st' _ IH Hst _]; [constructor|]. eapply rtc_r; eassumption. Qed.

Lemma fibers_scheduled_witness : let m := fibers three_left in (exists k, ring m 2 k /\ NoDup (2 :: k) /\ forall f, is_Some (m !! f) <-> f ∈ 2 :: k) /\
  paused (get m 2) = false /\
  forall num, 0 <= num -> exists c' m', fiber_sleep num 2 m = Some (c', m') /\ is_Some (m' !! c') /\ paused (get m' c') = false /\ cycles_to_sleep (get m' c') = 0.
Proof.
  destruct (fibers_scheduled 1 [2; 3] (MkState three_left 2 Running)) as (H1 & _ & [_ H2] & H3);
    [apply (bool_decide_unpack _); vm_compute; exact I|exact (reached_rtc _ _ _ three_reached)|].
  split; [exact H1|]. split; [exact (H3 three_reached eq_refl)|exact H2].
Defined.

(** When a fiber returns, the group goes on with its first fiber even if that one is parked:
    the fiber resumes from [park] without having been woken. *)
Theorem exit_resumes_parked : exists st1 st2 st3, reached 1 [2; 3] st1 /\ step st1 st2 /\ step st2 st3 /\ resumes_parked st2 st3 /\ cur st3 = 1.
Proof.
  set (g := set_fibers (prepare_pause 2 (fibers three_left)) three_left).
  exists (MkState three_left 2 Running), (MkState g 2 Exiting). eexists. split; [exact three_reached|]. split; [apply s_exit; vm_compute; discriminate|].
  split; [apply (s_restart g 2 (asleep (pause 2 (fibers g))) 1); vm_compute; reflexivity|]. split; [|reflexivity].
  split; [reflexivity|]. split; [reflexivity|]. vm_compute. reflexivity.
Qed.
