(* ===== verification/Loader.v ===== *)
(** The loader (src/emu/loader.rs): ELF headers, mapping a user program and its interpreter,
    the initial stack, and copying a kernel with its device tree into guest memory.  The
    system calls of the host that it makes are an interface; a panic is [None]. *)

From Stdlib Require Import ZArith Lia Bool List.
From stdpp Require Import base list.
From S2P Require Import Prelude HartState.
From S2P Require VirtioQueue P9.
Import ListNotations.
Local Open Scope Z_scope.
Local Open Scope rust_scope.

Module Loader.

(** ** Memory *)

Notation from_le_bytes := VirtioQueue.from_le_bytes (only parsing).
Notation to_le_bytes := VirtioQueue.to_le_bytes (only parsing).

Definition usize_len {A} (l : list A) : Z := Z.of_nat (length l).

(** Bytes [off], ..., [off + n - 1] of a file; a page mapped past the end of the file has
    zeroes there. *)
Definition byte (l : list Z) (i : Z) : Z := nth (Z.to_nat i) l 0.
Definition slice (l : list Z) (off n : Z) : list Z := map (fun i => byte l (off + i)) (seqZ 0 n).

(** [memcpy] and [memset] *)
Definition memcpy (a : Z) (l : list Z) (m : Z -> Z) : Z -> Z :=
  fun x => if (a <=? x) && (x <? a + usize_len l) then byte l (x - a) else m x.
Definition memset (a v n : Z) (m : Z -> Z) : Z -> Z :=
  fun x => if (a <=? x) && (x <? a + n) then v else m x.

(** ** ELF headers *)

Definition PF_R : Z := 4.
Definition PF_W : Z := 2.
Definition PF_X : Z := 1.
Definition ET_EXEC : Z := 2.
Definition ET_DYN : Z := 3.
Definition EM_RISCV : Z := 243.

(** The constants of the host's libc *)
Definition PT_LOAD : Z := 1.
Definition PT_INTERP : Z := 3.
Definition PROT_NONE : Z := 0.
Definition PROT_READ : Z := 1.
Definition PROT_WRITE : Z := 2.

(** [Elf64_Ehdr] and [Elf64_Phdr], the fields the loader reads, at their offsets *)
Record Ehdr : Type := MkEhdr { e_ident : list Z; e_type : Z; e_machine : Z; e_entry : Z; e_phoff : Z; e_phentsize : Z; e_phnum : Z }.
Record Phdr : Type := MkPhdr { p_type : Z; p_flags : Z; p_offset : Z; p_vaddr : Z; p_filesz : Z; p_memsz : Z }.

Definition field (file : list Z) (off n : Z) : Z := from_le_bytes (slice file off n).

(** [Loader::ehdr] *)
Definition ehdr (file : list Z) : Ehdr :=
  MkEhdr (slice file 0 16) (field file 16 2) (field file 18 2) (field file 24 8) (field file 32 8) (field file 54 2) (field file 56 2).

Definition phdr_at (file : list Z) (p : Z) : Phdr :=
  MkPhdr (field file p 4) (field file (p + 4) 4) (field file (p + 8) 8) (field file (p + 16) 8) (field file (p + 32) 8) (field file (p + 40) 8).

(** [Loader::phdr], with [PhdrIter] *)
Definition phdr (file : list Z) : list Phdr :=
  let h := ehdr file in map (fun i => phdr_at file (e_phoff h + e_phentsize h * i)) (seqZ 0 (e_phnum h)).

Definition is_elf (file : list Z) : bool := bool_decide (take 4 (e_ident (ehdr file)) = [0x7F; 69; 76; 70]).

Inductive ElfError : Type := NotExecutable | NotRiscv | KernelWithoutConfig.

Definition validate_elf (file : list Z) : option ElfError :=
  let h := ehdr file in
  if (e_type h <>? ET_EXEC) && (e_type h <>? ET_DYN) then Some NotExecutable
  else if e_machine h <>? EM_RISCV then Some NotRiscv
  else if i64 (e_entry h) <? 0 then Some KernelWithoutConfig
  else None.

(** [CStr::from_bytes_with_nul]: the one NUL is the last byte *)
Definition cstr_with_nul (l : list Z) : option (list Z) :=
  match last l with
  | Some 0 => let s := removelast l in if existsb (Z.eqb 0) s then None else Some s
  | _ => None
  end.

(** [Loader::find_interpreter]: the outer [None] is the panic on a name that is not a
    string. *)
Definition find_interpreter (file : list Z) : option (option (list Z)) :=
  match List.find (fun h => p_type h =? PT_INTERP) (phdr file) with
  | None => Some None
  | Some h =>
      let? s := cstr_with_nul (slice file (p_offset h) (p_filesz h)) in
      if P9.P9.is_utf8 s then Some (Some s) else None
  end.

(** ** Loading a kernel *)

Definition page_down (x : Z) : Z := x .& Z.lnot 4095.
Definition page_up (x : Z) : Z := page_down (u64 (x + 4095)).

(** The scan for the bounds of the image, and its rounding to pages *)
Definition scan (b : Z * Z) (h : Phdr) : Z * Z :=
  if p_type h =? PT_LOAD then (Z.min b.1 (p_vaddr h), Z.max b.2 (u64 (p_vaddr h + p_memsz h))) else b.
Definition bounds (hs : list Phdr) : Z * Z :=
  let b := fold_left scan hs (2 ^ 64 - 1, 0) in (page_down b.1, page_up b.2).

Definition copy_segment (file : list Z) (loaddr load_addr : Z) (h : Phdr) (m : Z -> Z) : option (Z -> Z) :=
  if p_type h =? PT_LOAD then
    if p_memsz h <? p_filesz h then None else
    let m := memcpy (u64 (u64 (p_vaddr h - loaddr) + load_addr)) (slice file (p_offset h) (p_filesz h)) m in
    Some (memset (u64 (u64 (u64 (p_vaddr h + p_filesz h) - loaddr) + load_addr)) 0 (p_memsz h - p_filesz h) m)
  else Some m.

(** A loop that may panic *)
Fixpoint each {A S} (f : A -> S -> option S) (l : list A) (s : S) : option S :=
  match l with [] => Some s | x :: l => let? s := f x s in each f l s end.

Definition load_kernel (file : list Z) (load_addr : Z) (m : Z -> Z) : option (Z * (Z -> Z)) :=
  let '(loaddr, hiaddr) := bounds (phdr file) in
  let? m := each (copy_segment file loaddr load_addr) (phdr file) m in
  Some (u64 (hiaddr - loaddr), m).

Definition load_bin (file : list Z) (location : Z) (m : Z -> Z) : Z -> Z := memcpy location file m.

(** ** The host *)

(** The address space of the process: its bytes, and the protection of each address;
    [None] is an address that is not mapped. *)
Record Space : Type := MkSpace { bytes : Z -> Z; prot : Z -> option Z }.

Definition set_bytes (f : (Z -> Z) -> Z -> Z) (s : Space) : Space := MkSpace (f (bytes s)) (prot s).

(** What is mapped: zeroes, or a file from an offset on *)
Inductive Source : Type := Anon | FromFile (file : list Z) (off : Z).

(** System calls and their surroundings: [mmap] fails or returns where it mapped, with
    [MAP_PRIVATE] always set; [mprotect]; the file [Loader::new] opens; the environment and
    the random numbers. *)
Class Host : Type := {
  mmap : forall (fixed : bool) (addr len prot : Z) (src : Source), Space -> option (Z * Space);
  mprotect : forall (addr len prot : Z), Space -> Space;
  open_file : list Z -> option (list Z);
  vars : list (list Z * list Z);
  random_data : Z * Z * Z * Z;
  getuid : Z; geteuid : Z; getgid : Z; getegid : Z;
}.

(** ** Loading a user program *)

Section User.
Context {H : Host}.

(** The protection of a segment: code is read, never executed, by the host. *)
Definition prot_of (flags : Z) : Z :=
  let prot := 0 in
  let prot := if (flags .& PF_R) <>? 0 then prot .| PROT_READ else prot in
  let prot := if (flags .& PF_W) <>? 0 then prot .| PROT_WRITE else prot in
  if (flags .& PF_X) <>? 0 then prot .| PROT_READ else prot.

(** One iteration of the second loop of [load_image]; the state is [brk] and the space. *)
Definition map_segment (file : list Z) (bias : Z) (h : Phdr) (st : Z * Space) : option (Z * Space) :=
  if p_type h =? PT_LOAD then
    if p_memsz h <? p_filesz h then None else
    let '(brk, s) := st in
    let vaddr_map_end := u64 (p_vaddr h + p_filesz h) in
    let vaddr_end := u64 (p_vaddr h + p_memsz h) in
    let page_start := page_down (p_vaddr h) in
    let map_end := page_down vaddr_map_end in
    let page_end := page_up vaddr_end in
    let prot := prot_of (p_flags h) in
    let file_offset := if p_vaddr h <>? page_start then u64 (p_offset h - (p_vaddr h - page_start)) else p_offset h in
    let? s :=
      if map_end <>? page_start then
        let? (_, s) := mmap true (u64 (bias + page_start)) (u64 (map_end - page_start)) prot (FromFile file file_offset) s in Some s
      else Some s in
    let s :=
      if map_end <>? page_end then
        let rem_ptr := u64 (bias + map_end) in
        let s := mprotect rem_ptr (u64 (page_end - map_end)) (PROT_READ .| PROT_WRITE) s in
        let s := set_bytes (memcpy rem_ptr (slice file (u64 (file_offset + (map_end - page_start))) (vaddr_map_end - map_end))) s in
        if (p_flags h .& PF_W) =? 0 then mprotect rem_ptr (u64 (page_end - map_end)) prot s else s
      else s in
    Some (if brk <? vaddr_end then vaddr_end else brk, s)
  else Some st.

(** [Loader::load_image]: the entry, [load_addr], [brk] and the space *)
Definition load_image (file : list Z) (s : Space) : option (Z * Z * Z * Space) :=
  let h := ehdr file in
  let '(loaddr, hiaddr) := bounds (phdr file) in
  let? (bias, s) :=
    if e_type h =? ET_DYN then
      let? (map, s) := mmap false 0 (u64 (hiaddr - loaddr)) PROT_NONE Anon s in Some (u64 (map - loaddr), s)
    else
      let? (_, s) := mmap true loaddr (u64 (hiaddr - loaddr)) PROT_NONE Anon s in Some (0, s) in
  let? (brk, s) := each (map_segment file bias) (phdr file) (0, s) in
  Some (u64 (bias + e_entry h), u64 (bias + loaddr), u64 (bias + page_up brk), s).

(** ** The stack *)

Definition AT_NULL : Z := 0.
Definition AT_PHDR : Z := 3.
Definition AT_PHENT : Z := 4.
Definition AT_PHNUM : Z := 5.
Definition AT_PAGESZ : Z := 6.
Definition AT_BASE : Z := 7.
Definition AT_FLAGS : Z := 8.
Definition AT_ENTRY : Z := 9.
Definition AT_UID : Z := 11.
Definition AT_EUID : Z := 12.
Definition AT_GID : Z := 13.
Definition AT_EGID : Z := 14.
Definition AT_HWCAP : Z := 16.
Definition AT_CLKTCK : Z := 17.
Definition AT_RANDOM : Z := 25.

(** The stack pointer and the space; [push] and [sp_alloc] with the copy into what it
    returns *)
Definition push (value : Z) (st : Z * Space) : Z * Space :=
  let sp := u64 (st.1 - 8) in (sp, set_bytes (memcpy sp (to_le_bytes 8 value)) st.2).
Definition sp_copy (l : list Z) (st : Z * Space) : Z * Space :=
  let sp := u64 (st.1 - usize_len l) in (sp, set_bytes (memcpy sp l) st.2).

Definition pushes (l : list Z) (st : Z * Space) : Z * Space := fold_left (fun st v => push v st) l st.

(** [Loader::load_elf]: the entry, the break given to [init_brk], the stack pointer and the
    space *)
Definition load_elf (file : list Z) (st : Z * Space) : option (Z * Z * (Z * Space)) :=
  let '(sp, s) := st in
  let? (entry, load_addr, brk, s) := load_image file s in
  let? interp := find_interpreter file in
  let? (actual_entry, interp_addr, s) :=
    match interp with
    | None => Some (entry, 0, s)
    | Some name =>
        let? interp_file := open_file name in
        match validate_elf interp_file with
        | Some _ => None
        | None =>
            let? inner := find_interpreter interp_file in
            match inner with
            | Some _ => None
            | None => let? (e, a, _, s) := load_image interp_file s in Some (e, a, s)
            end
        end
    end in
  let brk := page_up brk in
  let h := ehdr file in
  Some (actual_entry, brk,
    pushes [u64 (load_addr + e_phoff h); AT_PHDR; e_phentsize h; AT_PHENT; e_phnum h; AT_PHNUM; 4096; AT_PAGESZ;
            interp_addr; AT_BASE; 0; AT_FLAGS; entry; AT_ENTRY] (sp, s)).

(** The strings of the environment and the arguments: what is left is the stack and the
    pointers, in the order they are pushed to the vector. *)
Definition copy_var (kv : list Z * list Z) (st : list Z * (Z * Space)) : list Z * (Z * Space) :=
  let '(ps, s) := st in
  let s := sp_copy kv.1 (sp_copy [61] (sp_copy kv.2 (sp_copy [0] s))) in (ps ++ [s.1], s).
Definition copy_arg (arg : list Z) (st : list Z * (Z * Space)) : list Z * (Z * Space) :=
  let '(ps, s) := st in
  let s := sp_copy arg (sp_copy [0] s) in (ps ++ [s.1], s).

Definition STACK_TOP : Z := 0x7fff0000.
Definition STACK_SIZE : Z := 0x800000.

(** [load] for a user program: the break, the space and the first hart *)
Definition load_user (file : list Z) (args : list (list Z)) (ctx : Context) (s : Space) : option (Z * Space * Context) :=
  let sp := STACK_TOP in
  let? (_, s) := mmap true (u64 (sp - STACK_SIZE)) STACK_SIZE (PROT_READ .| PROT_WRITE) Anon s in
  let '(env_pointers, st) := fold_left (fun st kv => copy_var kv st) vars ([], (sp, s)) in
  let '(arg_pointers, (sp, s)) := fold_left (fun st a => copy_arg a st) args ([], st) in
  let sp := sp .& Z.lnot 7 in
  let '(r1, r2, r3, r4) := random_data in
  let st := pushes [r1; r2; r3; r4] (sp, s) in
  let random_data := st.1 in
  let st := pushes [0; AT_NULL] st in
  let? (start, brk, st) := load_elf file st in
  let st := pushes [getuid; AT_UID; geteuid; AT_EUID; getgid; AT_GID; getegid; AT_EGID; 0; AT_HWCAP; 100; AT_CLKTCK; random_data; AT_RANDOM] st in
  let st := pushes (rev env_pointers) (push 0 st) in
  let st := pushes (rev arg_pointers) (push 0 st) in
  let '(sp, s) := push (usize_len arg_pointers) st in
  let regs := <[10%nat := 0]> (<[2%nat := sp]> (registers ctx)) in
  Some (brk, s, set_prv 0 (set_pc start (set_registers regs ctx))).

End User.

(** ** Starting a system *)

Definition KERNEL_ADDR : Z := 0x40000000.

(** [load] for a kernel: [blob] is the encoded device tree, and [dump] whether saving it,
    when that is asked for, succeeds. *)
Definition load_system (file blob : list Z) (dump : list Z -> bool) (ctxs : list Context) (m : Z -> Z) : option ((Z -> Z) * list Context) :=
  let? (size, m) :=
    if is_elf file then load_kernel file KERNEL_ADDR m
    else Some (usize_len file, load_bin file KERNEL_ADDR m) in
  if negb (dump blob) then None else
  let m := memcpy (KERNEL_ADDR + size) blob m in
  Some (m, map (fun ctx =>
    let regs := <[11%nat := u64 (KERNEL_ADDR + size)]> (<[10%nat := hartid ctx]> (registers ctx)) in
    set_prv 1 (set_pc KERNEL_ADDR (set_registers regs ctx))) ctxs).

End Loader.
