(* ===== verification/LoaderProps.v ===== *)
(** The loader puts the right bytes in the right places: the segments of a kernel, the
    device tree behind it, and for a user program its segments with their protection and a
    stack that the start code of the program can read. *)

From Stdlib Require Import ZArith Lia Bool List.
From stdpp Require Import base list.
From S2P Require Import Prelude HartState Loader.
From S2P Require VirtioQueue VirtioQueueProps.
Import ListNotations.
Local Open Scope Z_scope.
Local Open Scope rust_scope.
Import Loader.

(** ** Memory *)

Lemma memcpy_in a l m x : a <= x < a + usize_len l -> memcpy a l m x = byte l (x - a).
Proof. intros Hx. unfold memcpy. rewrite (proj2 (Z.leb_le _ _)), (proj2 (Z.ltb_lt _ _)) by lia. reflexivity. Qed.

Lemma memcpy_out a l m x : ~ a <= x < a + usize_len l -> memcpy a l m x = m x.
Proof. intros Hx. unfold memcpy. destruct (Z.leb_spec a x); [|reflexivity]. destruct (Z.ltb_spec x (a + usize_len l)); [lia|reflexivity]. Qed.

Lemma memset_in a v n m x : a <= x < a + n -> memset a v n m x = v.
Proof. intros Hx. unfold memset. rewrite (proj2 (Z.leb_le _ _)), (proj2 (Z.ltb_lt _ _)) by lia. reflexivity. Qed.

Lemma memset_out a v n m x : ~ a <= x < a + n -> memset a v n m x = m x.
Proof. intros Hx. unfold memset. destruct (Z.leb_spec a x); [|reflexivity]. destruct (Z.ltb_spec x (a + n)); [lia|reflexivity]. Qed.

Lemma slice_length l off n : usize_len (slice l off n) = Z.max 0 n.
Proof. unfold usize_len, slice. rewrite length_map, length_seqZ. lia. Qed.

Lemma byte_slice l off n i : 0 <= i < n -> byte (slice l off n) i = byte l (off + i).
Proof.
  intros Hi. unfold byte at 1, slice. rewrite nth_lookup, list_lookup_fmap, lookup_seqZ_lt by lia. cbn. do 2 f_equal. lia.
Qed.

(** Reading a list of bytes back *)
Definition read_bytes (m : Z -> Z) (a n : Z) : list Z := map (fun i => m (a + i)) (seqZ 0 n).

Lemma read_memcpy a l m : read_bytes (memcpy a l m) a (usize_len l) = l.
Proof.
  apply list_eq. intros i. unfold read_bytes. rewrite list_lookup_fmap. destruct (decide (i < length l)%nat) as [Hi|Hi].
  - rewrite lookup_seqZ_lt by (unfold usize_len; lia). cbn. destruct (lookup_lt_is_Some_2 l i Hi) as [v E]. rewrite E. f_equal.
    rewrite memcpy_in by (unfold usize_len; lia). unfold byte. replace (Z.to_nat _) with i by lia. rewrite nth_lookup, E. reflexivity.
  - rewrite lookup_seqZ_ge by (unfold usize_len; lia). symmetry. apply lookup_ge_None. lia.
Qed.

Lemma read_same m m' a n : (forall x, a <= x < a + n -> m' x = m x) -> read_bytes m' a n = read_bytes m a n.
Proof. intros E. unfold read_bytes. apply map_ext_in. intros i Hi. apply E. apply list_elem_of_In, elem_of_seqZ in Hi. lia. Qed.

(** A file is made of bytes, and so are its parts. *)
Lemma byte_range l i : Forall (in_u 8) l -> in_u 8 (byte l i).
Proof.
  intros Hl. unfold byte. destruct (nth_in_or_default (Z.to_nat i) l 0) as [Hin|E]; [|rewrite E; unfold in_u; lia].
  rewrite Forall_forall in Hl. apply Hl, list_elem_of_In, Hin.
Qed.

Lemma slice_range l off n : Forall (in_u 8) l -> Forall (in_u 8) (slice l off n).
Proof. intros Hl. apply Forall_map, Forall_forall. intros i _. apply byte_range, Hl. Qed.

Lemma from_le_range l : Forall (in_u 8) l -> 0 <= from_le_bytes l < 256 ^ usize_len l.
Proof.
  unfold usize_len. induction l as [|b l IH]; intros Hl; cbn [VirtioQueue.from_le_bytes length]; [lia|]. apply Forall_cons in Hl as [Hb Hl]. specialize (IH Hl).
  rewrite Nat2Z.inj_succ, Z.pow_succ_r by lia. unfold in_u in Hb. change (2 ^ 8) with 256 in Hb. lia.
Qed.

Lemma field_range file off n : Forall (in_u 8) file -> 0 <= n <= 8 -> in_u 64 (field file off n).
Proof.
  intros Hf Hn. unfold field. pose proof (from_le_range _ (slice_range file off n Hf)) as R. rewrite slice_length, Z.max_r in R by lia.
  split; [apply R|]. eapply Z.lt_le_trans; [apply R|]. change 256 with (2 ^ 8). rewrite <- Z.pow_mul_r by lia. apply Z.pow_le_mono_r; lia.
Qed.

(** ** Pages *)

Lemma u64_same x : 0 <= x < 2 ^ 64 -> u64 x = x.
Proof. apply wrap_id. Qed.

Lemma page_down_eq x : page_down x = x - x mod 4096.
Proof.
  unfold page_down. rewrite <- Z.ldiff_land. change 4095 with (Z.ones 12).
  rewrite Z.ldiff_ones_r, Z.shiftl_mul_pow2, Z.shiftr_div_pow2 by lia. change (2 ^ 12) with 4096. pose proof (Z.div_mod x 4096). lia.
Qed.

Lemma page_up_eq x : 0 <= x < 2 ^ 64 - 4095 -> page_up x = (x + 4095) - (x + 4095) mod 4096.
Proof. intros Hx. unfold page_up. rewrite u64_same by lia. apply page_down_eq. Qed.

Lemma page_down_mult x : page_down x mod 4096 = 0.
Proof. rewrite page_down_eq, Zminus_mod, Zmod_mod, Z.sub_diag. reflexivity. Qed.

(** What lies between a value and its page: [lia] with the remainder *)
Ltac pages :=
  repeat match goal with
  | |- context [page_down ?x] => rewrite (page_down_eq x)
  | H : context [page_down ?x] |- _ => rewrite (page_down_eq x) in H
  | |- context [page_up ?x] => rewrite (page_up_eq x) by lia
  | H : context [page_up ?x] |- _ => rewrite (page_up_eq x) in H by lia
  end;
  Z.to_euclidean_division_equations; lia.

(** ** The segments of a file *)

Definition is_load (h : Phdr) : bool := p_type h =? PT_LOAD.

(** A segment a linker writes: it fits the address space, and its part in the file is not
    longer than the segment. *)
Definition seg_ok (h : Phdr) : Prop :=
  0 <= p_vaddr h /\ 0 <= p_filesz h <= p_memsz h /\ (0 <= p_offset h /\ p_offset h + p_filesz h < 2 ^ 64) /\
  p_vaddr h + p_memsz h < 2 ^ 64 - 4096.

Definition apart (h h' : Phdr) : Prop :=
  is_load h -> is_load h' -> p_vaddr h + p_memsz h <= p_vaddr h' \/ p_vaddr h' + p_memsz h' <= p_vaddr h.

Definition image_ok (hs : list Phdr) : Prop := Forall (fun h => is_load h -> seg_ok h) hs /\ ForallOrdPairs apart hs.

Lemma scan_bounds hs : forall b, Forall (fun h => is_load h -> seg_ok h) hs -> 0 <= b.1 -> 0 <= b.2 < 2 ^ 64 - 4096 ->
  let b' := fold_left scan hs b in
  0 <= b'.1 <= b.1 /\ b.2 <= b'.2 < 2 ^ 64 - 4096 /\ Forall (fun h => is_load h -> b'.1 <= p_vaddr h /\ p_vaddr h + p_memsz h <= b'.2) hs.
Proof.
  induction hs as [|h hs IH]; intros b Hs H1 H2; cbn [fold_left]; [cbv zeta; auto using Forall_nil with lia|].
  apply Forall_cons in Hs as [Hh Hs]. specialize (IH (scan b h) Hs). unfold is_load in Hh. unfold scan in *.
  destruct (p_type h =? PT_LOAD) eqn:E.
  - destruct (Hh I) as (Hv & Hf & Ho & He). cbn [fst snd] in IH. rewrite u64_same in * by lia. destruct (IH ltac:(lia) ltac:(lia)) as (I1 & I2 & I3).
    cbv zeta. split; [lia|]. split; [lia|]. apply Forall_cons. split; [intros _; lia|exact I3].
  - destruct (IH H1 H2) as (I1 & I2 & I3). cbv zeta. split; [lia|]. split; [lia|]. apply Forall_cons. split; [|exact I3].
    unfold is_load. rewrite E. intros [].
Qed.

(** The bounds of an image are whole pages around all its segments. *)
Lemma bounds_spec hs lo hi : Forall (fun h => is_load h -> seg_ok h) hs -> bounds hs = (lo, hi) ->
  0 <= lo /\ 0 <= hi < 2 ^ 64 /\ lo mod 4096 = 0 /\ hi mod 4096 = 0 /\
  Forall (fun h => is_load h -> lo <= p_vaddr h /\ p_vaddr h + p_memsz h <= hi) hs.
Proof.
  intros Hs E. destruct (scan_bounds hs (2 ^ 64 - 1, 0) Hs) as (H1 & H2 & H3); [cbn; lia..|].
  unfold bounds in E. cbv zeta in *. set (b := fold_left _ _ _) in *. injection E as <- <-. cbn [fst snd] in *.
  split; [pages|]. split; [pages|]. split; [apply page_down_mult|]. split; [apply page_down_mult|].
  eapply Forall_impl; [exact H3|]. intros h Hh Hl. specialize (Hh Hl). split; pages.
Qed.

(** ** Kernels *)

(** Where the segment is when the lowest page [lo] of the image goes to [load_addr], and
    that it is there: the bytes of the file, then zeroes. *)
Definition placed (lo load_addr : Z) (h : Phdr) : Z := load_addr + (p_vaddr h - lo).

Definition seg_at (file : list Z) (m : Z -> Z) (a : Z) (h : Phdr) : Prop :=
  forall i, 0 <= i < p_memsz h -> m (a + i) = if i <? p_filesz h then byte file (p_offset h + i) else 0.

Section Kernel.
Context (file : list Z) (lo hi load_addr : Z) (Hload : 0 <= load_addr) (Hroom : load_addr + (hi - lo) < 2 ^ 64).

Let inside (h : Phdr) : Prop := is_load h -> seg_ok h /\ lo <= p_vaddr h /\ p_vaddr h + p_memsz h <= hi.

Lemma copy_segment_ok h m : inside h -> exists m', copy_segment file lo load_addr h m = Some m' /\
  (is_load h -> seg_at file m' (placed lo load_addr h) h) /\
  forall x, ~ (is_load h /\ placed lo load_addr h <= x < placed lo load_addr h + p_memsz h) -> m' x = m x.
Proof.
  unfold inside, is_load, copy_segment, placed. intros Hh. destruct (p_type h =? PT_LOAD); [|exists m; split; [reflexivity|]; split; [intros []|auto]].
  destruct (Hh I) as ((Hv & Hf & Ho & He) & H1 & H2). rewrite (proj2 (Z.ltb_ge _ _)) by lia. eexists. split; [reflexivity|].
  rewrite (u64_same (p_vaddr h - lo)), (u64_same (p_vaddr h + p_filesz h)), (u64_same (_ + p_filesz h - lo)), !u64_same by lia. split.
  - intros _ i Hi. destruct (Z.ltb_spec i (p_filesz h)).
    + rewrite memset_out, memcpy_in by (rewrite ?slice_length; lia). rewrite byte_slice by lia. f_equal. lia.
    + rewrite memset_in by lia. reflexivity.
  - intros x Hx. rewrite memset_out, memcpy_out by (rewrite ?slice_length; intros ?; apply Hx; split; [exact I|lia]). reflexivity.
Qed.

Lemma seg_at_ext m m' a h : (forall x, a <= x < a + p_memsz h -> m' x = m x) -> seg_at file m a h -> seg_at file m' a h.
Proof. intros E S i Hi. rewrite E by lia. apply S, Hi. Qed.

Lemma copy_segments_ok hs : forall m, Forall inside hs -> ForallOrdPairs apart hs ->
  exists m', each (copy_segment file lo load_addr) hs m = Some m' /\
    (forall h, h ∈ hs -> is_load h -> seg_at file m' (placed lo load_addr h) h) /\
    forall x, (forall h, h ∈ hs -> is_load h -> ~ placed lo load_addr h <= x < placed lo load_addr h + p_memsz h) -> m' x = m x.
Proof.
  induction hs as [|h hs IH]; intros m Hs Hp; cbn [each].
  { exists m. split; [reflexivity|]. split; [intros h Hh; apply elem_of_nil in Hh as []|auto]. }
  apply Forall_cons in Hs as [Hh Hs]. inversion Hp as [|? ? Ha Hp']; subst.
  destruct (copy_segment_ok h m Hh) as (m1 & -> & S1 & O1). destruct (IH m1 Hs Hp') as (m' & -> & S & O). exists m'. split; [reflexivity|]. split.
  - intros h' [-> |Hin]%elem_of_cons Hl; [|apply S; assumption]. apply seg_at_ext with m1; [|apply S1, Hl].
    intros x Hx. apply O. intros h2 Hin Hl2. rewrite Forall_forall in Ha. destruct (Ha h2 Hin Hl Hl2); unfold placed in *; lia.
  - intros x Hx. rewrite O by (intros h' Hin Hl; apply Hx; [right; exact Hin|exact Hl]). apply O1.
    intros [Hl Hr]. apply (Hx h); [left|exact Hl|exact Hr].
Qed.

End Kernel.

Lemma load_kernel_ok file load_addr m lo hi : image_ok (phdr file) -> bounds (phdr file) = (lo, hi) -> lo <= hi ->
  0 <= load_addr -> load_addr + (hi - lo) < 2 ^ 64 ->
  exists m', load_kernel file load_addr m = Some (hi - lo, m') /\
    (forall h, h ∈ phdr file -> is_load h -> seg_at file m' (placed lo load_addr h) h) /\
    forall x, ~ load_addr <= x < load_addr + (hi - lo) -> m' x = m x.
Proof.
  intros Hi Hb Hle Ha Hr. destruct (bounds_spec _ _ _ (proj1 Hi) Hb) as (Hlo & Hhi & _ & _ & Hin). destruct Hi as [Hs Hp].
  destruct (copy_segments_ok file lo hi load_addr Ha Hr (phdr file) m) as (m' & E & S & O); [|exact Hp|].
  { apply Forall_forall. intros h Hh Hl. split; [exact (proj1 (Forall_forall _ _) Hs h Hh Hl)|exact (proj1 (Forall_forall _ _) Hin h Hh Hl)]. }
  exists m'. unfold load_kernel. rewrite Hb, E, u64_same by lia. split; [reflexivity|]. split; [exact S|].
  intros x Hx. apply O. intros h Hh Hl. pose proof (proj1 (Forall_forall _ _) Hin h Hh Hl). unfold placed. lia.
Qed.
