(* ===== verification/LoaderUser.v ===== *)
(** A user program as the loader leaves it: its segments at their addresses with the bytes of
    the file and the protection they ask for, and a stack with the arguments, the environment
    and the auxiliary vector where the start code looks for them. *)

From Stdlib Require Import ZArith Lia Bool List.
From stdpp Require Import base list.
From S2P Require Import Prelude HartState Loader LoaderProps.
From S2P Require VirtioQueue VirtioQueueProps.
Import ListNotations.
Local Open Scope Z_scope.
Local Open Scope rust_scope.
Import Loader.

(** ** The host *)

Definition source_byte (src : Source) (i : Z) : Z := match src with Anon => 0 | FromFile f off => byte f (off + i) end.

(** What mmap(2) and mprotect(2) document: a mapping replaces what was at its pages and
    changes nothing else, without [MAP_FIXED] it is placed where nothing was mapped, and the
    protection of mapped pages can be changed. *)
Class HostLaws {H : Host} : Type := {
  mmap_bytes fixed addr len p src s a s' x : mmap fixed addr len p src s = Some (a, s') ->
    bytes s' x = if (a <=? x) && (x <? a + len) then source_byte src (x - a) else bytes s x;
  mmap_prot fixed addr len p src s a s' x : mmap fixed addr len p src s = Some (a, s') ->
    prot s' x = if (a <=? x) && (x <? a + len) then Some p else prot s x;
  mmap_fixed addr len p src s a s' : mmap true addr len p src s = Some (a, s') -> a = addr;
  mmap_free addr len p src s a s' : mmap false addr len p src s = Some (a, s') ->
    a mod 4096 = 0 /\ 0 < a /\ a + len <= 2 ^ 47 /\ forall x, a <= x < a + len -> prot s x = None;
  mprotect_bytes addr len p s x : bytes (mprotect addr len p s) x = bytes s x;
  mprotect_prot addr len p s x : (forall y, addr <= y < addr + len -> is_Some (prot s y)) ->
    prot (mprotect addr len p s) x = if (addr <=? x) && (x <? addr + len) then Some p else prot s x;
}.

Lemma range_dec (a x n : Z) : {a <= x < a + n} + {~ a <= x < a + n}.
Proof. destruct (Z_le_dec a x); [destruct (Z_lt_dec x (a + n)); [left; lia|right; lia]|right; lia]. Qed.

Lemma range_true a x n : a <= x < a + n -> (a <=? x) && (x <? a + n) = true.
Proof. lia. Qed.
Lemma range_false a x n : ~ a <= x < a + n -> (a <=? x) && (x <? a + n) = false.
Proof. lia. Qed.

Section Image.
Context {H : Host} {L : HostLaws}.

(** ** One segment *)

(** The pages of a segment *)
Definition first_page (h : Phdr) : Z := page_down (p_vaddr h).
Definition last_page (h : Phdr) : Z := page_up (p_vaddr h + p_memsz h).

(** A segment whose place in its page is the same in the file *)
Definition congruent (h : Phdr) : Prop := p_offset h mod 4096 = p_vaddr h mod 4096.

(** The program may do with the segment what its flags say. *)
Definition allows (flags p : Z) : Prop :=
  Z.testbit p 1 = negb ((flags .& PF_W) =? 0) /\ (((flags .& PF_R) <>? 0) || ((flags .& PF_X) <>? 0) = true -> Z.testbit p 0 = true).

Lemma prot_of_allows flags : allows flags (prot_of flags).
Proof.
  unfold allows, prot_of. destruct ((flags .& PF_R) =? 0), ((flags .& PF_W) =? 0), ((flags .& PF_X) =? 0); cbn; split; auto; discriminate.
Qed.

Lemma u64_bias b x : 0 <= b + x < 2 ^ 64 -> u64 (u64 b + x) = b + x.
Proof. intros Hx. unfold u64, wrap. rewrite Zplus_mod_idemp_l. apply Z.mod_small, Hx. Qed.

(** The whole pages of the file *)
Lemma map_file_ok file a n off p (some : bool) s s1 : (some = false -> n = 0) ->
  (if some then let? (_, s) := mmap true a n p (FromFile file off) s in Some s else Some s) = Some s1 ->
  (forall x, bytes s1 x = if range_dec a x n then byte file (off + (x - a)) else bytes s x) /\
  forall x, prot s1 x = if range_dec a x n then Some p else prot s x.
Proof.
  intros Hn E. destruct some.
  - destruct (mmap _ _ _ _ _ _) as [[a' s']|] eqn:Em; [|discriminate]. injection E as <-. pose proof (mmap_fixed _ _ _ _ _ _ _ Em) as Ea. subst a'.
    split; intros x; [rewrite (mmap_bytes _ _ _ _ _ _ _ _ x Em)|rewrite (mmap_prot _ _ _ _ _ _ _ _ x Em)];
      (destruct (range_dec a x n); [rewrite range_true by lia|rewrite range_false by lia]; reflexivity).
  - injection E as <-. rewrite Hn by reflexivity. split; intros x; (destruct (range_dec a x 0); [lia|reflexivity]).
Qed.

(** After [map_segment] the bytes of the file are from [b + p_vaddr h] on; the rest of the
    last pages is as it was, and nothing else has changed. *)
Lemma map_segment_ok file b h brk s st : is_load h -> seg_ok h -> congruent h ->
  0 <= b + first_page h -> b + last_page h < 2 ^ 64 ->
  (forall x, b + first_page h <= x < b + last_page h -> is_Some (prot s x)) ->
  map_segment file (u64 b) h (brk, s) = Some st ->
  st.1 = Z.max brk (p_vaddr h + p_memsz h) /\
  (forall x, bytes st.2 x = if range_dec (b + first_page h) x (p_vaddr h + p_filesz h - first_page h)
     then byte file (p_offset h + (x - (b + p_vaddr h))) else bytes s x) /\
  (forall x, ~ b + first_page h <= x < b + last_page h -> prot st.2 x = prot s x) /\
  forall x, b + first_page h <= x < b + last_page h -> exists p, prot st.2 x = Some p /\ allows (p_flags h) p.
Proof.
  intros Hl (Hv & Hf & Ho & He) Hc Hb0 Hb1 Hmap. unfold map_segment, is_load, first_page, last_page, congruent in *.
  destruct (p_type h =? PT_LOAD); [|destruct Hl]. rewrite (proj2 (Z.ltb_ge _ _)) by lia.
  cbv beta iota zeta. rewrite (u64_same (p_vaddr h + p_filesz h)), (u64_same (p_vaddr h + p_memsz h)) by lia.
  set (ps := page_down (p_vaddr h)) in *. set (me := page_down (p_vaddr h + p_filesz h)) in *. set (pe := page_up (p_vaddr h + p_memsz h)) in *.
  assert (Hps : ps <= p_vaddr h < ps + 4096) by (unfold ps; pages).
  assert (Hme : ps <= me <= p_vaddr h + p_filesz h) by (unfold ps, me; pages).
  assert (Hme' : p_vaddr h + p_filesz h < me + 4096) by (unfold me; pages).
  assert (Hpe : me <= pe /\ p_vaddr h + p_memsz h <= pe) by (unfold pe, me; split; pages).
  assert (Hoff : p_vaddr h - ps <= p_offset h).
  { unfold ps. rewrite page_down_eq. replace (p_vaddr h - (p_vaddr h - p_vaddr h mod 4096)) with (p_offset h mod 4096) by lia. apply Z.mod_le; lia. }
  assert (Hfo : (if p_vaddr h <>? ps then u64 (p_offset h - (p_vaddr h - ps)) else p_offset h) = p_offset h - (p_vaddr h - ps)).
  { destruct (Z.eqb_spec (p_vaddr h) ps); cbn [negb]; [lia|apply u64_same; lia]. }
  rewrite Hfo, (u64_same (me - ps)), (u64_same (pe - me)), !u64_bias, (u64_same (_ + (me - ps))) by lia.
  destruct (if me <>? ps then _ else _) as [s1|] eqn:E1; [|discriminate]. intros E. injection E as <-. cbn [fst snd].
  destruct (map_file_ok file (b + ps) (me - ps) (p_offset h - (p_vaddr h - ps)) (prot_of (p_flags h)) (me <>? ps) s s1) as [B1' P1]; [destruct (Z.eqb_spec me ps); cbn; lia|exact E1|].
  assert (B1 : forall x, bytes s1 x = if range_dec (b + ps) x (me - ps) then byte file (p_offset h + (x - (b + p_vaddr h))) else bytes s x).
  { intros x. rewrite B1'. destruct (range_dec _ _ _); [f_equal; lia|reflexivity]. }
  split; [destruct (Z.ltb_spec brk (p_vaddr h + p_memsz h)); lia|].
  assert (Hm1 : forall y, b + me <= y < b + me + (pe - me) -> is_Some (prot s1 y)).
  { intros y Hy. rewrite P1. destruct (range_dec _ _ _); [eexists; reflexivity|apply Hmap; lia]. }
  destruct (Z.eqb_spec me pe) as [Ee|Ee]; cbn [negb].
  { split; [|split].
    - intros x. rewrite B1. destruct (range_dec (b + ps) x (me - ps)), (range_dec (b + ps) x (p_vaddr h + p_filesz h - ps)); try reflexivity; lia.
    - intros x Hx. rewrite P1. destruct (range_dec _ _ _); [lia|reflexivity].
    - intros x Hx. exists (prot_of (p_flags h)). rewrite P1. destruct (range_dec _ _ _); [|lia]. split; [reflexivity|apply prot_of_allows]. }
  set (s2 := set_bytes _ _). assert (B2 : forall x, bytes s2 x = if range_dec (b + ps) x (p_vaddr h + p_filesz h - ps)
    then byte file (p_offset h + (x - (b + p_vaddr h))) else bytes s x).
  { intros x. cbn [s2 set_bytes bytes]. set (l := slice _ _ _). assert (Hlen : usize_len l = p_vaddr h + p_filesz h - me) by (unfold l; rewrite slice_length; lia).
    destruct (range_dec (b + me) x (p_vaddr h + p_filesz h - me)) as [Hx|Hx].
    - rewrite memcpy_in by lia. destruct (range_dec (b + ps) x _); [|lia]. unfold l. rewrite byte_slice by lia. f_equal. lia.
    - rewrite memcpy_out by lia. rewrite mprotect_bytes, B1. destruct (range_dec (b + ps) x (me - ps)), (range_dec (b + ps) x (p_vaddr h + p_filesz h - ps)); try reflexivity; lia. }
  assert (P2 : forall x, prot s2 x = if range_dec (b + me) x (pe - me) then Some (PROT_READ .| PROT_WRITE) else prot s1 x).
  { intros x. cbn [s2 set_bytes prot]. rewrite mprotect_prot by exact Hm1. destruct (range_dec (b + me) x (pe - me)); [rewrite range_true by lia|rewrite range_false by lia]; reflexivity. }
  split; [intros x; destruct (_ =? 0); rewrite ?mprotect_bytes; apply B2|].
  assert (Hm2 : forall y, b + me <= y < b + me + (pe - me) -> is_Some (prot s2 y)).
  { intros y Hy. rewrite P2. destruct (range_dec _ _ _); [eexists; reflexivity|lia]. }
  assert (P3 : forall x, prot (if (p_flags h .& PF_W) =? 0 then mprotect (b + me) (pe - me) (prot_of (p_flags h)) s2 else s2) x =
    if range_dec (b + me) x (pe - me) then Some (if (p_flags h .& PF_W) =? 0 then prot_of (p_flags h) else PROT_READ .| PROT_WRITE) else prot s1 x).
  { intros x. destruct (_ =? 0); [|apply P2]. rewrite mprotect_prot by exact Hm2.
    destruct (range_dec (b + me) x (pe - me)); [rewrite range_true by lia; reflexivity|rewrite range_false by lia]. rewrite P2. destruct (range_dec _ _ _); [lia|reflexivity]. }
  split; intros x Hx; rewrite P3.
  - destruct (range_dec _ _ _); [lia|]. rewrite P1. destruct (range_dec _ _ _); [lia|reflexivity].
  - destruct (range_dec (b + me) x (pe - me)).
    + eexists. split; [reflexivity|]. pose proof (prot_of_allows (p_flags h)) as A. destruct ((p_flags h .& PF_W) =? 0) eqn:Ew; [exact A|].
      unfold allows. rewrite Ew. cbn. auto.
    + exists (prot_of (p_flags h)). rewrite P1. destruct (range_dec _ _ _); [|lia]. split; [reflexivity|apply prot_of_allows].
Qed.
(** ** All segments *)

(** Segments of different pages *)
Definition pages_apart (h h' : Phdr) : Prop := is_load h -> is_load h' -> last_page h <= first_page h' \/ last_page h' <= first_page h.

Definition in_pages (b : Z) (h : Phdr) (x : Z) : Prop := b + first_page h <= x < b + last_page h.

(** The segment is where it belongs: its bytes, the rest of its pages as they were in
    [s], and its protection. *)
Definition mapped (file : list Z) (b : Z) (s s' : Space) (h : Phdr) : Prop := forall x, in_pages b h x ->
  bytes s' x = (if range_dec (b + first_page h) x (p_vaddr h + p_filesz h - first_page h) then byte file (p_offset h + (x - (b + p_vaddr h))) else bytes s x) /\
  exists p, prot s' x = Some p /\ allows (p_flags h) p.

Definition same_at (s s' : Space) (x : Z) : Prop := bytes s' x = bytes s x /\ prot s' x = prot s x.

Lemma file_part h : seg_ok h -> first_page h <= p_vaddr h /\ p_vaddr h + p_memsz h <= last_page h.
Proof. intros (Hv & Hf & Ho & He). unfold first_page, last_page. split; pages. Qed.

Lemma map_segments_ok file b lo hi hs : 0 <= b + lo -> b + hi < 2 ^ 64 ->
  Forall (fun h => is_load h -> seg_ok h /\ congruent h /\ lo <= first_page h /\ last_page h <= hi) hs -> ForallOrdPairs pages_apart hs ->
  forall st st', (forall x, b + lo <= x < b + hi -> is_Some (prot st.2 x)) -> each (map_segment file (u64 b)) hs st = Some st' ->
  (forall h, h ∈ hs -> is_load h -> mapped file b st.2 st'.2 h) /\
  (forall x, (forall h, h ∈ hs -> is_load h -> ~ in_pages b h x) -> same_at st.2 st'.2 x) /\
  (forall x, b + lo <= x < b + hi -> is_Some (prot st'.2 x)).
Proof.
  intros Hb0 Hb1. induction hs as [|h hs IH]; intros Hs Hp st st' Hmap E; cbn [each] in E.
  { injection E as <-. split; [intros h Hh; apply elem_of_nil in Hh as []|]. split; [intros x _; split; reflexivity|exact Hmap]. }
  apply Forall_cons in Hs as [Hh Hs]. inversion Hp as [|? ? Ha Hp']; subst.
  destruct (is_load h) eqn:El.
  - destruct (map_segment file (u64 b) h st) as [st1|] eqn:E1; [|discriminate]. destruct st as [brk s]. destruct (Hh I) as (Hok & Hc & Hlo & Hhi).
    assert (Hl : is_load h) by (rewrite El; exact I). pose proof (file_part h Hok) as Hfp. assert (Hfl := Hok). destruct Hfl as (_ & Hfs & _).
    destruct (map_segment_ok file b h brk s st1 Hl Hok Hc ltac:(lia) ltac:(lia)) as (K1 & B1 & O1 & P1); [intros x Hx; apply Hmap; lia|exact E1|].
    assert (Hout : forall x, ~ in_pages b h x -> same_at s st1.2 x).
    { intros x Hx. unfold in_pages in Hx. split; [rewrite B1; destruct (range_dec _ _ _); [lia|reflexivity]|apply O1, Hx]. }
    destruct (IH Hs Hp' st1 st') as (S & O & K); [|exact E|].
    { intros x Hx. destruct (range_dec (b + first_page h) x (last_page h - first_page h)) as [Hr|Hr].
      - destruct (P1 x ltac:(lia)) as (p & -> & _). eexists. reflexivity.
      - rewrite O1 by lia. apply Hmap, Hx. }
    assert (Hfar : forall h', h' ∈ hs -> is_load h' -> forall x, in_pages b h x -> ~ in_pages b h' x).
    { intros h' Hin Hl' x Hx Hx'. rewrite Forall_forall in Ha. unfold in_pages in *. destruct (Ha h' Hin Hl Hl'); lia. }
    cbn [snd] in *. split; [|split].
    + intros h' [-> |Hin]%elem_of_cons Hl' x Hx.
      * destruct (O x) as [Eb Ep]; [intros h2 H2 Hl2; apply Hfar with (1 := H2); assumption|]. rewrite Eb, Ep. split; [apply B1|apply P1, Hx].
      * destruct (S h' Hin Hl' x Hx) as [Sb Sp]. split; [|exact Sp]. rewrite Sb. destruct (Hout x) as [-> _]; [|reflexivity].
        intros Hx'. exact (Hfar h' Hin Hl' x Hx' Hx).
    + intros x Hx. destruct (O x) as [Eb Ep]; [intros h' Hin; apply Hx; right; exact Hin|].
      destruct (Hout x) as [Eb1 Ep1]; [apply Hx; [left|exact Hl]|]. split; congruence.
    + exact K.
  - assert (E1 : map_segment file (u64 b) h st = Some st) by (unfold map_segment; unfold is_load in El; rewrite El; reflexivity). rewrite E1 in E.
    destruct (IH Hs Hp' st st' Hmap E) as (S & O & K). split; [|split].
    + intros h' [-> |Hin]%elem_of_cons Hl'; [rewrite El in Hl'; destruct Hl'|apply S; assumption].
    + intros x Hx. apply O. intros h' Hin. apply Hx. right. exact Hin.
    + exact K.
Qed.
(** ** The image *)

(** A program a linker writes *)
Definition program_ok (file : list Z) : Prop :=
  Forall (fun h => is_load h -> seg_ok h /\ congruent h) (phdr file) /\ ForallOrdPairs pages_apart (phdr file) /\
  (bounds (phdr file)).1 <= (bounds (phdr file)).2.

(** The segment [h] of a program whose addresses are moved by [b]: what the file has, then
    zeroes, with the protection of its flags *)
Definition seg_mapped (file : list Z) (b : Z) (s : Space) (h : Phdr) : Prop :=
  seg_at file (bytes s) (b + p_vaddr h) h /\ forall i, 0 <= i < p_memsz h -> exists p, prot s (b + p_vaddr h + i) = Some p /\ allows (p_flags h) p.

(** [load_image] has moved the program by [b], to a place that is its own or that was free,
    and changed nothing outside of it. *)
Record image_loaded (file : list Z) (s : Space) (b entry load_addr : Z) (s' : Space) : Prop := {
  il_place : if e_type (ehdr file) =? ET_DYN then forall x, b + (bounds (phdr file)).1 <= x < b + (bounds (phdr file)).2 -> prot s x = None else b = 0;
  il_room : 0 <= b + (bounds (phdr file)).1 /\ b + (bounds (phdr file)).2 < 2 ^ 64;
  il_entry : entry = u64 (b + e_entry (ehdr file));
  il_addr : load_addr = b + (bounds (phdr file)).1;
  il_segments h : h ∈ phdr file -> is_load h -> seg_mapped file b s' h;
  il_frame x : ~ b + (bounds (phdr file)).1 <= x < b + (bounds (phdr file)).2 -> same_at s s' x;
  il_mapped x : b + (bounds (phdr file)).1 <= x < b + (bounds (phdr file)).2 -> is_Some (prot s' x);
}.

Lemma page_order a x : a mod 4096 = 0 -> a <= x -> a <= page_down x.
Proof. intros Ha Hx. pages. Qed.
Lemma page_order_up a x : a mod 4096 = 0 -> 0 <= x <= a -> a < 2 ^ 64 -> page_up x <= a.
Proof. intros Ha Hx Hb. assert (x < 2 ^ 64 - 4095) by (Z.to_euclidean_division_equations; lia). pages. Qed.
Lemma seg_pages hs lo hi : Forall (fun h => is_load h -> seg_ok h /\ congruent h) hs -> bounds hs = (lo, hi) ->
  0 <= lo /\ 0 <= hi < 2 ^ 64 /\ Forall (fun h => is_load h -> seg_ok h /\ congruent h /\ lo <= first_page h /\ last_page h <= hi) hs.
Proof.
  intros Hs Eb. destruct (bounds_spec hs lo hi) as (Hlo & Hhi & Mlo & Mhi & Hin); [eapply Forall_impl; [exact Hs|]; intros h Hh Hl; apply Hh, Hl|exact Eb|].
  split; [exact Hlo|]. split; [exact Hhi|]. apply Forall_forall. intros h Hh Hl. destruct (proj1 (Forall_forall _ _) Hs h Hh Hl) as [Hok Hc].
  pose proof (proj1 (Forall_forall _ _) Hin h Hh Hl) as Hb. split; [exact Hok|]. split; [exact Hc|]. destruct Hok as (? & ? & ? & ?).
  split; [apply page_order; [exact Mlo|lia]|apply page_order_up; [exact Mhi|lia|lia]].
Qed.

(** The reservation at the start of [load_image] *)
Lemma reserve_ok dyn lo hi s bias s1 : 0 <= lo <= hi -> hi < 2 ^ 64 ->
  (if dyn : bool then let? (a, s) := mmap false 0 (hi - lo) PROT_NONE Anon s in Some (u64 (a - lo), s)
   else let? (_, s) := mmap true lo (hi - lo) PROT_NONE Anon s in Some (0, s)) = Some (bias, s1) ->
  exists b, bias = u64 b /\ 0 <= b + lo /\ b + hi < 2 ^ 64 /\ (if dyn then forall x, b + lo <= x < b + hi -> prot s x = None else b = 0) /\
    (forall x, bytes s1 x = if range_dec (b + lo) x (hi - lo) then 0 else bytes s x) /\
    (forall x, prot s1 x = if range_dec (b + lo) x (hi - lo) then Some PROT_NONE else prot s x).
Proof.
  intros Hlo Hhi E. assert (Em : exists a fixed addr, mmap fixed addr (hi - lo) PROT_NONE Anon s = Some (a, s1) /\ bias = u64 (a - lo) /\ 0 <= a /\ a + (hi - lo) < 2 ^ 64 /\
    (if dyn then forall x, a <= x < a + (hi - lo) -> prot s x = None else a = lo)).
  { destruct dyn.
    - destruct (mmap false _ _ _ _ _) as [[a s0]|] eqn:Em; [|discriminate]. injection E as <- <-. destruct (mmap_free _ _ _ _ _ _ _ Em) as (_ & Ha & Ha' & Hfree).
      exists a, false, 0. split; [exact Em|]. split; [reflexivity|]. split; [lia|]. split; [lia|exact Hfree].
    - destruct (mmap true _ _ _ _ _) as [[a s0]|] eqn:Em; [|discriminate]. injection E as <- <-. pose proof (mmap_fixed _ _ _ _ _ _ _ Em) as Ea. subst a.
      exists lo, true, lo. split; [exact Em|]. rewrite Z.sub_diag. split; [reflexivity|]. split; [lia|]. split; [lia|reflexivity]. }
  destruct Em as (a & fixed & addr & Em & -> & Ha & Ha' & Hp). exists (a - lo). split; [reflexivity|]. split; [lia|]. split; [lia|].
  split; [destruct dyn; [intros x Hx; apply Hp; lia|lia]|]. replace (a - lo + lo) with a by lia.
  split; intros x; [rewrite (mmap_bytes _ _ _ _ _ _ _ _ x Em)|rewrite (mmap_prot _ _ _ _ _ _ _ _ x Em)];
    (destruct (range_dec a x (hi - lo)); [rewrite range_true by lia|rewrite range_false by lia]; reflexivity).
Qed.

Lemma load_image_ok file s entry load_addr brk s' : program_ok file -> load_image file s = Some (entry, load_addr, brk, s') ->
  exists b, image_loaded file s b entry load_addr s'.
Proof.
  intros (Hs & Hp & Hle). unfold load_image. destruct (bounds (phdr file)) as [lo hi] eqn:Eb. cbn [fst snd] in Hle.
  destruct (seg_pages (phdr file) lo hi Hs Eb) as (Hlo & Hhi & Hpg). rewrite (u64_same (hi - lo)) by lia.
  destruct (if e_type (ehdr file) =? ET_DYN then _ else _) as [[bias s1]|] eqn:E1; [|discriminate].
  apply reserve_ok in E1 as (b & -> & Hb0 & Hb1 & Hplace & B1 & P1); [|lia|lia].
  destruct (each _ _ _) as [[k s2]|] eqn:E2; [|discriminate]. intros E. injection E as <- <- <- <-.
  destruct (map_segments_ok file b lo hi (phdr file) Hb0 Hb1 Hpg Hp (0, s1) (k, s2)) as (S & O & M);
    [intros x Hx; cbn [snd]; rewrite P1; destruct (range_dec _ _ _); [eexists; reflexivity|lia]|exact E2|].
  cbn [snd] in *. exists b. split; rewrite ?Eb; cbn [fst snd].
  - exact Hplace.
  - split; assumption.
  - unfold u64, wrap. rewrite Zplus_mod_idemp_l. reflexivity.
  - apply u64_bias. lia.
  - intros h Hh Hl. destruct (proj1 (Forall_forall _ _) Hpg h Hh Hl) as (Hok & _ & H1 & H2). pose proof (file_part h Hok) as Hfp. destruct Hok as (Hv & Hf & _).
    split; intros i Hi; destruct (S h Hh Hl (b + p_vaddr h + i)) as [Sb Sp]; try (unfold in_pages; lia); [|exact Sp]. rewrite Sb.
    destruct (range_dec _ _ _); destruct (Z.ltb_spec i (p_filesz h)); try lia; [f_equal; lia|]. rewrite B1. destruct (range_dec _ _ _); [reflexivity|lia].
  - intros x Hx. destruct (O x) as [Ob Op].
    { intros h Hh Hl Hpx. destruct (proj1 (Forall_forall _ _) Hpg h Hh Hl) as (_ & _ & H1 & H2). unfold in_pages in Hpx. lia. }
    split; [rewrite Ob, B1|rewrite Op, P1]; (destruct (range_dec _ _ _); [lia|reflexivity]).
  - exact M.
Qed.
End Image.

(** ** The stack *)

Definition word_at (m : Z -> Z) (a : Z) : Z := from_le_bytes (read_bytes m a 8).
Definition words_at (m : Z -> Z) (a : Z) (l : list Z) : Prop := forall i v, l !! i = Some v -> word_at m (a + 8 * Z.of_nat i) = v.

(** The bytes of [t] and a NUL *)
Definition cstr_at (m : Z -> Z) (p : Z) (t : list Z) : Prop := read_bytes m p (usize_len t + 1) = t ++ [0].

(** What is written from [s] to [s'] is between [a] and [b]. *)
Definition within (a b : Z) (s s' : Space) : Prop := forall x, prot s' x = prot s x /\ (~ a <= x < b -> bytes s' x = bytes s x).

Lemma within_trans a b c s s1 s2 : a <= b <= c -> within b c s s1 -> within a b s1 s2 -> within a c s s2.
Proof. intros Hab H1 H2 x. destruct (H1 x) as [P1 B1]. destruct (H2 x) as [P2 B2]. split; [congruence|]. intros Hx. rewrite B2, B1 by lia. reflexivity. Qed.

Lemma read_app m a n k : 0 <= n -> 0 <= k -> read_bytes m a (n + k) = read_bytes m a n ++ read_bytes m (a + n) k.
Proof.
  intros Hn Hk. unfold read_bytes. rewrite seqZ_app by lia. rewrite map_app. f_equal. rewrite Z.add_0_l.
  replace (seqZ n k) with (map (Z.add n) (seqZ 0 k)) by (rewrite <- (Z.add_0_r n) at 2; apply fmap_add_seqZ). rewrite map_map. apply map_ext. intros i. f_equal. lia.
Qed.

(** A string moves down with the stack pointer. *)
Lemma sp_copy_ok l sp s n r : usize_len l <= sp < 2 ^ 64 -> 0 <= n -> read_bytes (bytes s) sp n = r ->
  let st := sp_copy l (sp, s) in
  st.1 = sp - usize_len l /\ read_bytes (bytes st.2) st.1 (usize_len l + n) = l ++ r /\ within st.1 sp s st.2.
Proof.
  intros Hsp Hn Hr. cbn [sp_copy fst snd]. assert (Hl : 0 <= usize_len l) by (unfold usize_len; lia). rewrite u64_same by lia.
  cbv zeta. split; [reflexivity|]. split.
  - cbn [set_bytes bytes]. rewrite read_app, read_memcpy by lia. f_equal. rewrite <- Hr. replace (sp - usize_len l + usize_len l) with sp by lia.
    apply read_same. intros x Hx. apply memcpy_out. lia.
  - intros x. split; [reflexivity|]. intros Hx. cbn [set_bytes bytes]. apply memcpy_out. lia.
Qed.

Lemma to_le_len n v : usize_len (to_le_bytes n v) = Z.of_nat n.
Proof. unfold usize_len. rewrite VirtioQueueProps.to_le_bytes_length. reflexivity. Qed.

Lemma push_ok v sp s : 8 <= sp < 2 ^ 64 -> in_u 64 v ->
  let st := push v (sp, s) in st.1 = sp - 8 /\ word_at (bytes st.2) st.1 = v /\ within st.1 sp s st.2.
Proof.
  intros Hsp Hv. cbn [push fst snd]. rewrite u64_same by lia. cbv zeta. split; [reflexivity|]. split.
  - unfold word_at. cbn [set_bytes bytes]. pose proof (read_memcpy (sp - 8) (to_le_bytes 8 v) (bytes s)) as R. rewrite to_le_len in R. change (Z.of_nat 8) with 8 in R. rewrite R. apply VirtioQueueProps.le_bytes_back. exact Hv.
  - intros x. split; [reflexivity|]. intros Hx. cbn [set_bytes bytes]. apply memcpy_out. rewrite to_le_len. lia.
Qed.

Lemma word_at_same m m' a : (forall x, a <= x < a + 8 -> m' x = m x) -> word_at m' a = word_at m a.
Proof. intros E. unfold word_at. rewrite (read_same m m') by exact E. reflexivity. Qed.

Lemma words_at_same m m' a l : (forall x, a <= x < a + 8 * usize_len l -> m' x = m x) -> words_at m a l -> words_at m' a l.
Proof.
  intros E W i v Hi. rewrite (word_at_same m m'); [apply W, Hi|]. apply lookup_lt_Some in Hi. intros x Hx. apply E. unfold usize_len. lia.
Qed.

Lemma pushes_ok l : forall sp s r, Forall (in_u 64) l -> 8 * usize_len l <= sp < 2 ^ 64 -> words_at (bytes s) sp r ->
  let st := pushes l (sp, s) in st.1 = sp - 8 * usize_len l /\ words_at (bytes st.2) st.1 (rev l ++ r) /\ within st.1 sp s st.2.
Proof.
  induction l as [|v l IH]; intros sp s r Hl Hsp Hr; [change (usize_len []) with 0; split; [cbn [pushes fold_left fst]; lia|]; split; [exact Hr|intros x; split; [reflexivity|intros _; reflexivity]]|].
  apply Forall_cons in Hl as [Hv Hl]. assert (Hu : usize_len (v :: l) = usize_len l + 1) by (unfold usize_len; cbn [length]; lia).
  assert (Hu0 : 0 <= usize_len l) by (unfold usize_len; lia). change (pushes (v :: l) (sp, s)) with (pushes l (push v (sp, s))).
  destruct (push_ok v sp s ltac:(lia) Hv) as (Esp & Ew & W1). destruct (push v (sp, s)) as [sp1 s1]. cbn [fst snd] in *.
  destruct (IH sp1 s1 (v :: r) Hl ltac:(lia)) as (E2 & W2 & N2).
  - intros [|i] w Hi; cbn in Hi; [injection Hi as <-; rewrite Z.mul_0_r, Z.add_0_r; exact Ew|].
    rewrite <- (Hr i w Hi). replace (sp1 + 8 * Z.of_nat (S i)) with (sp + 8 * Z.of_nat i) by lia. apply word_at_same. intros x Hx. apply W1. lia.
  - cbv zeta in *. split; [lia|]. split; [cbn [rev]; rewrite <- app_assoc; exact W2|]. apply within_trans with sp1 s1; [lia|exact W1|exact N2].
Qed.

(** ** Strings *)

(** The string of a variable *)
Definition var_text (kv : list Z * list Z) : list Z := kv.1 ++ 61 :: kv.2.

(** A string of [t] was put below the stack pointer. *)
Definition copied (t : list Z) (st st' : Z * Space) : Prop :=
  st'.1 = st.1 - (usize_len t + 1) /\ cstr_at (bytes st'.2) st'.1 t /\ within st'.1 st.1 st.2 st'.2.

Lemma usize_app {A} (l l' : list A) : usize_len (l ++ l') = usize_len l + usize_len l'.
Proof. unfold usize_len. rewrite length_app. lia. Qed.
Lemma usize_cons {A} (x : A) l : usize_len (x :: l) = usize_len l + 1.
Proof. unfold usize_len. cbn [length]. lia. Qed.
Lemma usize_nonneg {A} (l : list A) : 0 <= usize_len l.
Proof. unfold usize_len. lia. Qed.

Lemma copy_arg_ok arg ps st : usize_len arg + 1 <= st.1 < 2 ^ 64 ->
  exists st', copy_arg arg (ps, st) = (ps ++ [st'.1], st') /\ copied arg st st'.
Proof.
  intros Hr. destruct st as [sp s]. cbn [fst] in Hr. pose proof (usize_nonneg arg).
  destruct (sp_copy_ok [0] sp s 0 [] ltac:(change (usize_len [0]) with 1; lia) ltac:(lia) eq_refl) as (E1 & R1 & W1). unfold copy_arg. destruct (sp_copy [0] (sp, s)) as [sp1 s1]. cbn [fst snd] in *.
  change (usize_len [0]) with 1 in *. destruct (sp_copy_ok arg sp1 s1 1 [0] ltac:(lia) ltac:(lia) R1) as (E2 & R2 & W2).
  destruct (sp_copy arg (sp1, s1)) as [sp2 s2]. cbn [fst snd] in *. exists (sp2, s2). split; [reflexivity|]. split; [cbn [fst]; lia|]. split; [exact R2|].
  apply within_trans with sp1 s1; [cbn [fst]; lia|exact W1|exact W2].
Qed.

Lemma copy_var_ok kv ps st : usize_len (var_text kv) + 1 <= st.1 < 2 ^ 64 ->
  exists st', copy_var kv (ps, st) = (ps ++ [st'.1], st') /\ copied (var_text kv) st st'.
Proof.
  intros Hr. destruct st as [sp s], kv as [k v]. unfold var_text in *. cbn [fst snd] in *. rewrite usize_app, usize_cons in Hr.
  pose proof (usize_nonneg k). pose proof (usize_nonneg v).
  destruct (sp_copy_ok [0] sp s 0 [] ltac:(change (usize_len [0]) with 1; lia) ltac:(lia) eq_refl) as (E1 & R1 & W1). unfold copy_var. cbn [fst snd]. destruct (sp_copy [0] (sp, s)) as [sp1 s1]. cbn [fst snd] in *.
  change (usize_len [0]) with 1 in *. destruct (sp_copy_ok v sp1 s1 1 [0] ltac:(lia) ltac:(lia) R1) as (E2 & R2 & W2).
  destruct (sp_copy v (sp1, s1)) as [sp2 s2]. cbn [fst snd] in *.
  destruct (sp_copy_ok [61] sp2 s2 (usize_len v + 1) (v ++ [0]) ltac:(change (usize_len [61]) with 1; lia) ltac:(lia) R2) as (E3 & R3 & W3).
  destruct (sp_copy [61] (sp2, s2)) as [sp3 s3]. cbn [fst snd] in *. change (usize_len [61]) with 1 in *.
  destruct (sp_copy_ok k sp3 s3 (1 + (usize_len v + 1)) ([61] ++ v ++ [0]) ltac:(lia) ltac:(lia) R3) as (E4 & R4 & W4). destruct (sp_copy k (sp3, s3)) as [sp4 s4]. cbn [fst snd] in *.
  exists (sp4, s4). split; [reflexivity|]. unfold copied, cstr_at. cbn [fst snd]. rewrite usize_app, usize_cons. split; [lia|]. split.
  - rewrite <- app_assoc. etransitivity; [|exact R4]. f_equal. lia.
  - apply within_trans with sp3 s3; [lia| |exact W4]. apply within_trans with sp2 s2; [lia| |exact W3]. apply within_trans with sp1 s1; [lia|exact W1|exact W2].
Qed.

(** The room all strings take *)
Definition room (ts : list (list Z)) : Z := fold_right (fun t n => usize_len t + 1 + n) 0 ts.

Lemma room_nonneg ts : 0 <= room ts.
Proof. induction ts as [|t ts IH]; cbn [room fold_right]; [lia|]. fold (room ts). pose proof (usize_nonneg t). lia. Qed.

Lemma copies_ok {A} (f : A -> list Z * (Z * Space) -> list Z * (Z * Space)) (txt : A -> list Z)
    (Hf : forall x ps st, usize_len (txt x) + 1 <= st.1 < 2 ^ 64 -> exists st', f x (ps, st) = (ps ++ [st'.1], st') /\ copied (txt x) st st') l :
  forall ps st, room (map txt l) <= st.1 < 2 ^ 64 ->
  exists qs st', fold_left (fun a x => f x a) l (ps, st) = (ps ++ qs, st') /\ st'.1 = st.1 - room (map txt l) /\
    Forall2 (fun p x => cstr_at (bytes st'.2) p (txt x) /\ st'.1 <= p /\ p + usize_len (txt x) + 1 <= st.1) qs l /\ within st'.1 st.1 st.2 st'.2.
Proof.
  induction l as [|x l IH]; intros ps st Hr.
  { exists [], st. rewrite app_nil_r. split; [reflexivity|]. split; [cbn; lia|]. split; [constructor|intros y; split; [reflexivity|intros _; reflexivity]]. }
  cbn [map room fold_right] in Hr. fold (room (map txt l)) in Hr. pose proof (room_nonneg (map txt l)). pose proof (usize_nonneg (txt x)).
  destruct (Hf x ps st ltac:(lia)) as (st1 & E1 & (S1 & C1 & W1)). cbn [fold_left]. rewrite E1.
  destruct (IH (ps ++ [st1.1]) st1 ltac:(lia)) as (qs & st' & E & S & C & W). exists (st1.1 :: qs), st'. rewrite E, <- app_assoc.
  split; [reflexivity|]. cbn [map room fold_right]. fold (room (map txt l)). split; [lia|]. split; [|apply within_trans with st1.1 st1.2; [lia|exact W1|exact W]].
  constructor; [|eapply Forall2_impl; [exact C|]; cbn beta; intros p y (? & ? & ?); repeat split; try assumption; lia].
  split; [|split; lia]. unfold cstr_at in *. rewrite (read_same (bytes st1.2)); [exact C1|]. intros y Hy. apply W. lia.
Qed.

(** ** The program on its stack *)

Section Program.
Context {H : Host} {L : HostLaws}.

Definition on_stack (x : Z) : Prop := STACK_TOP - STACK_SIZE <= x < STACK_TOP.

(** The image moved by [b] has no address of the stack. *)
Definition clear_of_stack (file : list Z) (b : Z) : Prop := forall x, on_stack x -> ~ b + (bounds (phdr file)).1 <= x < b + (bounds (phdr file)).2.

Lemma seg_mapped_same file b s s' h : program_ok file -> h ∈ phdr file -> is_load h ->
  (forall x, b + (bounds (phdr file)).1 <= x < b + (bounds (phdr file)).2 -> same_at s s' x) -> seg_mapped file b s h -> seg_mapped file b s' h.
Proof.
  intros (Hs & _ & _) Hh Hl E [S P]. destruct (bounds (phdr file)) as [lo hi] eqn:Eb. cbn [fst snd] in E.
  destruct (seg_pages (phdr file) lo hi Hs Eb) as (_ & _ & Hpg). destruct (proj1 (Forall_forall _ _) Hpg h Hh Hl) as (Hok & _ & H1 & H2).
  pose proof (file_part h Hok) as Hfp. split.
  - apply seg_at_ext with (bytes s); [|exact S]. intros x Hx. apply E. lia.
  - intros i Hi. destruct (E (b + p_vaddr h + i) ltac:(lia)) as [_ ->]. apply P, Hi.
Qed.

Lemma image_clear file s b entry load_addr s' : image_loaded file s b entry load_addr s' ->
  (e_type (ehdr file) = ET_DYN \/ clear_of_stack file 0) -> (forall x, on_stack x -> is_Some (prot s x)) -> clear_of_stack file b.
Proof.
  intros Hi Ht Hm x Hx Hr. pose proof (il_place _ _ _ _ _ _ Hi) as Hp. destruct (e_type (ehdr file) =? ET_DYN) eqn:E.
  - destruct (Hm x Hx) as [p Ep]. rewrite Hp in Ep by exact Hr. discriminate.
  - subst b. destruct Ht as [Ht|Ht]; [rewrite Ht in E; discriminate|exact (Ht x Hx Hr)].
Qed.

(** Where the program starts: at its own entry, or at that of its interpreter *)
Definition starts (file : list Z) (start interp_addr entry : Z) (s : Space) : Prop :=
  match find_interpreter file with
  | None => False
  | Some None => start = entry /\ interp_addr = 0
  | Some (Some name) => exists f b, open_file name = Some f /\ clear_of_stack f b /\ start = u64 (b + e_entry (ehdr f)) /\
      interp_addr = b + (bounds (phdr f)).1 /\ forall h, h ∈ phdr f -> is_load h -> seg_mapped f b s h
  end.

(** An interpreter is a shared object. *)
Definition interpreter_ok (file : list Z) : Prop := forall name f, find_interpreter file = Some (Some name) -> open_file name = Some f ->
  program_ok f /\ e_type (ehdr f) = ET_DYN.

Definition elf_auxv (file : list Z) (load_addr entry interp_addr : Z) : list Z :=
  [u64 (load_addr + e_phoff (ehdr file)); AT_PHDR; e_phentsize (ehdr file); AT_PHENT; e_phnum (ehdr file); AT_PHNUM; 4096; AT_PAGESZ;
   interp_addr; AT_BASE; 0; AT_FLAGS; entry; AT_ENTRY].

Lemma load_elf_ok file sp s start brk st : program_ok file -> interpreter_ok file -> (e_type (ehdr file) = ET_DYN \/ clear_of_stack file 0) ->
  (forall x, on_stack x -> is_Some (prot s x)) -> load_elf file (sp, s) = Some (start, brk, st) ->
  exists b entry interp_addr s1, st = pushes (elf_auxv file (b + (bounds (phdr file)).1) entry interp_addr) (sp, s1) /\
    (e_type (ehdr file) = ET_EXEC -> b = 0) /\ entry = u64 (b + e_entry (ehdr file)) /\ in_u 64 interp_addr /\ clear_of_stack file b /\ (forall x, on_stack x -> same_at s s1 x) /\
    (forall h, h ∈ phdr file -> is_load h -> seg_mapped file b s1 h) /\ starts file start interp_addr entry s1.
Proof.
  intros Hok Hint Hty Hm. unfold load_elf, starts. destruct (load_image file s) as [[[[entry load_addr] brk1] s1]|] eqn:E1; [|discriminate].
  destruct (load_image_ok file s _ _ _ _ Hok E1) as (b & I1). pose proof (image_clear _ _ _ _ _ _ I1 Hty Hm) as C1.
  assert (B0 : e_type (ehdr file) = ET_EXEC -> b = 0). { intros Ht. pose proof (il_place _ _ _ _ _ _ I1) as Hp. rewrite Ht in Hp. exact Hp. }
  assert (K1 : forall x, on_stack x -> same_at s s1 x) by (intros x Hx; apply (il_frame _ _ _ _ _ _ I1), C1, Hx).
  unfold interpreter_ok in Hint. destruct (find_interpreter file) as [[name|]|] eqn:Ef; [| |discriminate].
  - destruct (open_file name) as [f|] eqn:Eo; [|discriminate]. destruct (Hint name f eq_refl Eo) as [Hokf Htf].
    destruct (validate_elf f); [discriminate|]. destruct (find_interpreter f) as [[|]|]; try discriminate.
    destruct (load_image f s1) as [[[[e a] brk2] s2]|] eqn:E2; [|discriminate]. intros E. injection E as <- <- <-.
    destruct (load_image_ok f s1 _ _ _ _ Hokf E2) as (bi & I2).
    assert (C2 : clear_of_stack f bi). { eapply image_clear; [exact I2|left; exact Htf|]. intros x Hx. destruct (K1 x Hx) as [_ ->]. apply Hm, Hx. }
    exists b, entry, a, s2. rewrite <- (il_addr _ _ _ _ _ _ I1). split; [reflexivity|]. split; [exact B0|]. split; [apply (il_entry _ _ _ _ _ _ I1)|].
    split. { pose proof (il_room _ _ _ _ _ _ I2). rewrite (il_addr _ _ _ _ _ _ I2). destruct Hokf as (_ & _ & ?). unfold in_u. lia. }
    split; [exact C1|]. split; [|split].
    + intros x Hx. destruct (K1 x Hx) as [B1 P1]. destruct (il_frame _ _ _ _ _ _ I2 x (C2 x Hx)) as [B2 P2]. split; congruence.
    + intros h Hh Hl. eapply seg_mapped_same; [exact Hok|exact Hh|exact Hl| |apply (il_segments _ _ _ _ _ _ I1); assumption].
      intros x Hx. apply (il_frame _ _ _ _ _ _ I2). intros Hx'. pose proof (il_place _ _ _ _ _ _ I2) as Hp. rewrite Htf in Hp. cbn in Hp.
      destruct (il_mapped _ _ _ _ _ _ I1 x Hx) as [p Ep]. rewrite (Hp x Hx') in Ep. discriminate.
    + exists f, bi. split; [reflexivity|]. split; [exact C2|]. split; [apply (il_entry _ _ _ _ _ _ I2)|]. split; [apply (il_addr _ _ _ _ _ _ I2)|apply (il_segments _ _ _ _ _ _ I2)].
  - intros E. injection E as <- <- <-. exists b, entry, 0, s1. rewrite <- (il_addr _ _ _ _ _ _ I1). split; [reflexivity|]. split; [exact B0|]. split; [apply (il_entry _ _ _ _ _ _ I1)|].
    split; [unfold in_u; lia|]. split; [exact C1|]. split; [exact K1|]. split; [apply (il_segments _ _ _ _ _ _ I1)|]. split; reflexivity.
Qed.
(** The auxiliary vector of [load], from its end *)
Definition auxv (file : list Z) (load_addr entry interp_addr random : Z) : list Z :=
  [0; AT_NULL] ++ elf_auxv file load_addr entry interp_addr ++
  [getuid; AT_UID; geteuid; AT_EUID; getgid; AT_GID; getegid; AT_EGID; 0; AT_HWCAP; 100; AT_CLKTCK; random; AT_RANDOM].

Definition random_list : list Z := let '(r1, r2, r3, r4) := random_data in [r1; r2; r3; r4].

(** What the host gives are 64-bit values. *)
Definition host_words : Prop := Forall (in_u 64) (random_list ++ [getuid; geteuid; getgid; getegid]).

(** The words of the stack when the program starts, from the stack pointer up *)
Definition stack_words (argv envp aux : list Z) : list Z := usize_len argv :: argv ++ 0 :: envp ++ 0 :: rev aux.

Lemma align_down sp : 0 <= sp -> sp - 8 < sp .& Z.lnot 7 <= sp /\ (sp .& Z.lnot 7) mod 8 = 0.
Proof.
  intros Hs. rewrite <- Z.ldiff_land. change 7 with (Z.ones 3). rewrite Z.ldiff_ones_r, Z.shiftl_mul_pow2, Z.shiftr_div_pow2 by lia. change (2 ^ 3) with 8.
  Z.to_euclidean_division_equations; lia.
Qed.

(** Room for the words below the strings: four random ones, the auxiliary vector, the
    pointers with their ends, and the count *)
Definition words_room (args : list (list Z)) : Z := 7 + 8 * (4 + 30 + usize_len vars + 1 + usize_len args + 1 + 1).

Lemma pushes_app l l' st : pushes (l ++ l') st = pushes l' (pushes l st).
Proof. apply fold_left_app. Qed.

Lemma words_at_app m a l l' : words_at m a (l ++ l') -> words_at m a l.
Proof. intros W i v Hi. apply W. rewrite lookup_app_l; [exact Hi|]. apply lookup_lt_Some in Hi. exact Hi. Qed.

Lemma cstr_same m m' p t : (forall x, p <= x < p + usize_len t + 1 -> m' x = m x) -> cstr_at m p t -> cstr_at m' p t.
Proof. intros E C. unfold cstr_at in *. rewrite (read_same m m'); [exact C|]. intros x Hx. apply E. lia. Qed.

Lemma starts_same file start interp_addr entry s s' : interpreter_ok file -> (forall x, ~ on_stack x -> same_at s s' x) ->
  starts file start interp_addr entry s -> starts file start interp_addr entry s'.
Proof.
  intros Hint E. unfold starts, interpreter_ok in *. destruct (find_interpreter file) as [[name|]|]; auto. intros (f & b & Eo & C & Es & Ea & S).
  destruct (Hint name f eq_refl Eo) as [Hok _]. exists f, b. repeat split; auto; eapply seg_mapped_same; eauto; intros x Hx; apply E; intros Hs; exact (C x Hs Hx).
Qed.

(** The strings of [load]: after them the stack pointer is lower by their room. *)
Lemma strings_ok args sp s : room (map var_text vars) + room args <= sp < 2 ^ 64 ->
  exists envp argv st, (let '(envp, st) := fold_left (fun st kv => copy_var kv st) vars ([], (sp, s)) in (envp, fold_left (fun st a => copy_arg a st) args ([], st))) = (envp, (argv, st)) /\
    st.1 = sp - room (map var_text vars) - room args /\ within st.1 sp s st.2 /\
    Forall2 (fun p t => cstr_at (bytes st.2) p t /\ st.1 <= p /\ p + usize_len t + 1 <= sp) envp (map var_text vars) /\
    Forall2 (fun p t => cstr_at (bytes st.2) p t /\ st.1 <= p /\ p + usize_len t + 1 <= sp) argv args.
Proof.
  intros Hr. pose proof (room_nonneg (map var_text vars)). pose proof (room_nonneg args).
  destruct (copies_ok copy_var var_text copy_var_ok vars [] (sp, s)) as (envp & st1 & E1 & S1 & C1 & W1); [cbn [fst]; lia|]. cbn [fst snd app] in *.
  destruct (copies_ok copy_arg (fun a => a) copy_arg_ok args [] st1) as (argv & st & E2 & S2 & C2 & W2); [rewrite map_id; lia|]. rewrite map_id in S2. cbn [app] in E2.
  exists envp, argv, st. rewrite E1, E2. split; [reflexivity|]. split; [lia|]. split; [apply within_trans with st1.1 st1.2; [lia|exact W1|exact W2]|]. split.
  - apply Forall2_fmap_r. eapply Forall2_impl; [exact C1|]. cbn beta. intros p kv (C & Hp & Hq). split; [|split; lia]. eapply cstr_same; [|exact C]. intros x Hx. apply W2. lia.
  - eapply Forall2_impl; [exact C2|]. cbn beta. intros p t (C & Hp & Hq). split; [exact C|lia].
Qed.

(** What is pushed from the random numbers up to the auxiliary vector, and after the program
    is loaded *)
Lemma stack_base r1 r2 r3 r4 sp s : in_u 64 r1 -> in_u 64 r2 -> in_u 64 r3 -> in_u 64 r4 -> 48 <= sp < 2 ^ 64 ->
  let st := pushes [r1; r2; r3; r4] (sp, s) in let st2 := pushes [0; AT_NULL] st in
  st.1 = sp - 32 /\ st2.1 = sp - 48 /\ words_at (bytes st2.2) st2.1 ([AT_NULL; 0] ++ [r4; r3; r2; r1]) /\ within (sp - 48) sp s st2.2.
Proof.
  intros H1 H2 H3 H4 Hsp st st2. assert (E : st2 = pushes [r1; r2; r3; r4; 0; AT_NULL] (sp, s)) by (unfold st2, st; rewrite <- pushes_app; reflexivity).
  destruct (pushes_ok [r1; r2; r3; r4] sp s []) as (Ea & _ & _); [repeat (apply Forall_cons; split; [assumption|]); apply Forall_nil; exact I|change (usize_len [r1; r2; r3; r4]) with 4; lia|intros i v Hi; discriminate|].
  destruct (pushes_ok [r1; r2; r3; r4; 0; AT_NULL] sp s []) as (Eb & W & N).
  { repeat (apply Forall_cons; split; [first [assumption|unfold in_u, AT_NULL; lia]|]). apply Forall_nil. exact I. }
  { change (usize_len [r1; r2; r3; r4; 0; AT_NULL]) with 6. lia. }
  { intros i v Hi. discriminate. }
  cbv zeta in *. rewrite <- E in *. change (usize_len [r1; r2; r3; r4]) with 4 in Ea. change (usize_len [r1; r2; r3; r4; 0; AT_NULL]) with 6 in Eb.
  split; [exact Ea|]. split; [lia|]. split; [exact W|]. replace (sp - 48) with st2.1 by lia. exact N.
Qed.

Definition late_words (random : Z) (envp argv : list Z) : list Z :=
  [getuid; AT_UID; geteuid; AT_EUID; getgid; AT_GID; getegid; AT_EGID; 0; AT_HWCAP; 100; AT_CLKTCK; random; AT_RANDOM] ++ 0 :: rev envp ++ 0 :: rev argv ++ [usize_len argv].

Lemma late_len file load_addr entry interp_addr random envp argv :
  usize_len (elf_auxv file load_addr entry interp_addr ++ late_words random envp argv) = 31 + usize_len envp + usize_len argv.
Proof.
  unfold late_words. rewrite !usize_app. change (usize_len (elf_auxv _ _ _ _)) with 14. change (usize_len [_; _; _; _; _; _; _; _; _; _; _; _; _; _]) with 14.
  rewrite usize_cons, usize_app, usize_cons, usize_app. change (usize_len [usize_len argv]) with 1. unfold usize_len. rewrite !length_rev. lia.
Qed.

Lemma late_words_eq file load_addr entry interp_addr random envp argv r :
  rev (elf_auxv file load_addr entry interp_addr ++ late_words random envp argv) ++ [AT_NULL; 0] ++ r =
  stack_words argv envp (auxv file load_addr entry interp_addr random) ++ r.
Proof.
  unfold stack_words, auxv, late_words. rewrite !rev_app_distr. cbn [rev app]. rewrite !rev_app_distr. cbn [rev app]. rewrite !rev_app_distr, !rev_involutive.
  cbn [rev app]. rewrite <- !app_assoc. cbn [app]. rewrite <- !app_assoc. reflexivity.
Qed.

Lemma pointers_range (m : Z -> Z) (lo hi : Z) ps (ts : list (list Z)) : 0 <= lo -> hi < 2 ^ 64 ->
  Forall2 (fun p t => cstr_at m p t /\ lo <= p /\ p + usize_len t + 1 <= hi) ps ts -> Forall (in_u 64) ps.
Proof. intros Hlo Hhi F. induction F as [|p t ps ts (_ & Hp & Hq) _ IH]; constructor; [pose proof (usize_nonneg t); unfold in_u; lia|exact IH]. Qed.

Lemma random_len : usize_len ([AT_NULL; 0] ++ rev random_list) = 6.
Proof. unfold random_list. destruct random_data as [[[? ?] ?] ?]. reflexivity. Qed.

Lemma user_ids : host_words -> in_u 64 getuid /\ in_u 64 geteuid /\ in_u 64 getgid /\ in_u 64 getegid.
Proof. intros Hh. apply Forall_app in Hh as [_ Hi]. rewrite !Forall_cons in Hi. tauto. Qed.

Lemma elf_auxv_words file load_addr entry interp_addr : Forall (in_u 8) file -> in_u 64 entry -> in_u 64 interp_addr ->
  Forall (in_u 64) (elf_auxv file load_addr entry interp_addr).
Proof.
  intros Hf He Hi. unfold elf_auxv. repeat (apply Forall_cons; split); try assumption; try (apply wrap_range; lia); try (apply field_range; [exact Hf|lia]);
    try (unfold in_u, AT_PHDR, AT_PHENT, AT_PHNUM, AT_PAGESZ, AT_BASE, AT_FLAGS, AT_ENTRY; lia). apply Forall_nil. exact I.
Qed.

Lemma late_words_words random envp argv : host_words -> in_u 64 random -> Forall (in_u 64) envp -> Forall (in_u 64) argv -> usize_len argv < 2 ^ 64 ->
  Forall (in_u 64) (late_words random envp argv).
Proof.
  intros Hh Hr He Ha Hn. destruct (user_ids Hh) as (? & ? & ? & ?). pose proof (usize_nonneg argv). unfold late_words. apply Forall_app. split.
  - repeat (apply Forall_cons; split); try assumption; try (unfold in_u, AT_UID, AT_EUID, AT_GID, AT_EGID, AT_HWCAP, AT_CLKTCK, AT_RANDOM; lia). apply Forall_nil. exact I.
  - apply Forall_cons. split; [unfold in_u; lia|]. apply Forall_app. split; [apply Forall_rev; exact He|]. apply Forall_cons. split; [unfold in_u; lia|].
    apply Forall_app. split; [apply Forall_rev; exact Ha|]. apply Forall_cons. split; [unfold in_u; lia|]. apply Forall_nil. exact I.
Qed.

(** The stack when [load_elf] is called: the strings, the random numbers at [random], and the
    end of the auxiliary vector *)
Record prepared (args : list (list Z)) (random : Z) (envp argv : list Z) (sp : Z) (s : Space) : Prop := {
  pr_align : sp mod 8 = 0;
  pr_room : STACK_TOP - STACK_SIZE + 8 * (14 + 14 + usize_len vars + 1 + usize_len args + 1 + 1) <= sp <= STACK_TOP - 48;
  pr_random : random = sp + 16;
  pr_words : words_at (bytes s) sp ([AT_NULL; 0] ++ rev random_list);
  pr_prot x : on_stack x -> prot s x = Some (PROT_READ .| PROT_WRITE);
  pr_env : Forall2 (fun p t => cstr_at (bytes s) p t /\ sp <= p /\ p + usize_len t + 1 <= STACK_TOP) envp (map var_text vars);
  pr_args : Forall2 (fun p t => cstr_at (bytes s) p t /\ sp <= p /\ p + usize_len t + 1 <= STACK_TOP) argv args;
}.

Lemma load_user_split file args ctx s brk s' ctx' : host_words -> room (map var_text vars) + room args + words_room args <= STACK_SIZE ->
  load_user file args ctx s = Some (brk, s', ctx') ->
  exists random envp argv sp s5 start st sp', prepared args random envp argv sp s5 /\ load_elf file (sp, s5) = Some (start, brk, st) /\
    pushes (late_words random envp argv) st = (sp', s') /\
    ctx' = set_prv 0 (set_pc start (set_registers (<[10%nat := 0]> (<[2%nat := sp']> (registers ctx))) ctx)).
Proof.
  intros Hh Hroom. unfold load_user. rewrite (u64_same (STACK_TOP - STACK_SIZE)) by (unfold STACK_TOP, STACK_SIZE; lia).
  destruct (mmap true _ _ _ _ _) as [[a0 sa]|] eqn:Ea; [|discriminate].
  assert (Pa : forall x, on_stack x -> prot sa x = Some (PROT_READ .| PROT_WRITE)).
  { intros x Hx. rewrite (mmap_prot _ _ _ _ _ _ _ _ x Ea). rewrite (mmap_fixed _ _ _ _ _ _ _ Ea), range_true; [reflexivity|]. unfold on_stack in Hx. lia. }
  unfold words_room in Hroom. pose proof (usize_nonneg args). pose proof (usize_nonneg vars). pose proof (room_nonneg (map var_text vars)). pose proof (room_nonneg args).
  destruct (strings_ok args STACK_TOP sa) as (envp & argv & [sp2 s2] & Es & S2 & W2 & Fe & Fa); [unfold STACK_SIZE, STACK_TOP in *; lia|].
  destruct (fold_left (fun st kv => copy_var kv st) vars _) as [envp' st1]. apply pair_equal_spec in Es as [-> Es]. rewrite Es. cbn [fst snd] in *.
  destruct (align_down sp2 ltac:(unfold STACK_SIZE, STACK_TOP in *; lia)) as [Hal Hal8]. set (sp3 := sp2 .& Z.lnot 7) in *.
  assert (Hrand := proj1 (proj1 (Forall_app _ _ _) Hh)). unfold random_list in *. destruct random_data as [[[r1 r2] r3] r4] eqn:Er. rewrite !Forall_cons in Hrand. destruct Hrand as (Hr1 & Hr2 & Hr3 & Hr4 & _).
  destruct (stack_base r1 r2 r3 r4 sp3 s2 Hr1 Hr2 Hr3 Hr4 ltac:(unfold STACK_SIZE, STACK_TOP in *; lia)) as (E4 & E5 & W5 & N5). cbv zeta in *.
  set (st4 := pushes [r1; r2; r3; r4] (sp3, s2)) in *. destruct (pushes [0; AT_NULL] st4) as [sp5 s5] eqn:Est5. cbn [fst snd] in *.
  destruct (load_elf file (sp5, s5)) as [[[start brk'] st6]|] eqn:E6; [|discriminate].
  intros E. match type of E with (let '(_, _) := ?p in _) = _ => destruct p as [sp' sl] eqn:El end. injection E as <- <- <-.
  exists st4.1, envp, argv, sp5, s5, start, st6, sp'. split; [|split; [exact E6|split; [|reflexivity]]].
  2: { rewrite <- El. unfold late_words. rewrite pushes_app. change (0 :: rev envp ++ 0 :: rev argv ++ [usize_len argv]) with ([0] ++ rev envp ++ [0] ++ rev argv ++ [usize_len argv]).
    rewrite !pushes_app. reflexivity. }
  assert (Hs : forall (m' : Z -> Z) ps ts, (forall x, sp2 <= x -> m' x = bytes s2 x) -> Forall2 (fun p t => cstr_at (bytes s2) p t /\ sp2 <= p /\ p + usize_len t + 1 <= STACK_TOP) ps ts ->
    Forall2 (fun p t => cstr_at m' p t /\ sp5 <= p /\ p + usize_len t + 1 <= STACK_TOP) ps ts).
  { intros m' ps ts E0 F. eapply Forall2_impl; [exact F|]. cbn beta. intros p t (C & Hp & Hq). split; [|split; lia]. eapply cstr_same; [|exact C]. intros x Hx. apply E0. lia. }
  split.
  - replace sp5 with (sp3 + -6 * 8) by lia. rewrite Z.mod_add by lia. exact Hal8.
  - unfold STACK_SIZE, STACK_TOP in *. lia.
  - lia.
  - unfold random_list. rewrite Er. exact W5.
  - intros x Hx. rewrite <- (Pa x Hx). destruct (N5 x) as [-> _]. apply W2.
  - apply Hs; [|exact Fe]. intros x Hx. apply N5. lia.
  - apply Hs; [|exact Fa]. intros x Hx. apply N5. lia.
Qed.

(** C12. A user program finds what the ABI promises when it starts: from the stack pointer up,
    which is a multiple of 8, lie the number of arguments, a pointer to each argument and a
    null pointer, a pointer to each variable of the environment and a null pointer, and the
    auxiliary vector with the program headers, the entry and the base of the interpreter, up
    to [AT_NULL]; the pointers lead to the strings with their NUL.  The segments of the
    program have the bytes of the file, then zeroes, and the protection of their flags, and so
    have those of the interpreter, where the program starts when it has one. *)
Theorem user_program_starts file args ctx s brk s' ctx' :
  Forall (in_u 8) file -> program_ok file -> interpreter_ok file -> e_type (ehdr file) = ET_DYN \/ clear_of_stack file 0 -> host_words ->
  room (map var_text vars) + room args + words_room args <= STACK_SIZE -> length (registers ctx) = 32%nat ->
  load_user file args ctx s = Some (brk, s', ctx') ->
  exists sp argv envp b entry interp_addr random,
    registers ctx' !! 2%nat = Some sp /\ sp mod 8 = 0 /\ on_stack sp /\
    words_at (bytes s') sp (stack_words argv envp (auxv file (b + (bounds (phdr file)).1) entry interp_addr random)) /\
    words_at (bytes s') random (rev random_list) /\
    Forall2 (cstr_at (bytes s')) argv args /\ Forall2 (cstr_at (bytes s')) envp (map var_text vars) /\
    (forall x, on_stack x -> prot s' x = Some (PROT_READ .| PROT_WRITE)) /\
    (e_type (ehdr file) = ET_EXEC -> b = 0) /\ entry = u64 (b + e_entry (ehdr file)) /\ (forall h, h ∈ phdr file -> is_load h -> seg_mapped file b s' h) /\
    starts file (pc ctx') interp_addr entry s' /\ prv ctx' = 0.
Proof.
  intros Hf Hok Hint Hty Hh Hroom Hreg E. apply load_user_split in E as (random & envp & argv & sp5 & s5 & start & st6 & sp & P & E6 & El & ->); [|exact Hh|exact Hroom].
  destruct (load_elf_ok file sp5 s5 start brk st6 Hok Hint Hty) as (b & entry & interp_addr & s6 & -> & Hb0 & Een & Hia & Hclear & Hsame & Hseg & Hst);
    [intros x Hx; rewrite (pr_prot _ _ _ _ _ _ P x Hx); eexists; reflexivity|exact E6|].
  pose proof (pr_room _ _ _ _ _ _ P) as Hr5. pose proof (pr_random _ _ _ _ _ _ P) as Hrand. pose proof (usize_nonneg args) as Ha0. pose proof (usize_nonneg vars) as Hv0.
  assert (Hon : forall x, sp5 <= x < STACK_TOP -> bytes s6 x = bytes s5 x) by (intros x Hx; apply Hsame; unfold on_stack, STACK_SIZE in *; lia).
  assert (Hna : usize_len argv = usize_len args) by (unfold usize_len; rewrite (Forall2_length _ _ _ (pr_args _ _ _ _ _ _ P)); reflexivity).
  assert (Hne : usize_len envp = usize_len vars) by (unfold usize_len; rewrite (Forall2_length _ _ _ (pr_env _ _ _ _ _ _ P)), length_map; reflexivity).
  rewrite <- pushes_app in El. set (l := elf_auxv _ _ _ _ ++ late_words _ _ _) in El.
  assert (Hl : usize_len l = 31 + usize_len vars + usize_len args) by (unfold l; rewrite late_len; lia).
  destruct (pushes_ok l sp5 s6 ([AT_NULL; 0] ++ rev random_list)) as (Esp & W & N); [| | |rewrite El in *; cbn [fst snd] in *].
  { apply Forall_app. split; [apply elf_auxv_words; [exact Hf|rewrite Een; apply wrap_range; lia|exact Hia]|].
    apply late_words_words; [exact Hh|unfold in_u, STACK_TOP, STACK_SIZE in *; lia| | |unfold STACK_TOP, STACK_SIZE in *; lia];
      (eapply pointers_range; [| |first [exact (pr_env _ _ _ _ _ _ P)|exact (pr_args _ _ _ _ _ _ P)]]; unfold STACK_TOP, STACK_SIZE in *; lia). }
  { unfold STACK_TOP, STACK_SIZE in *. lia. }
  { eapply words_at_same; [|exact (pr_words _ _ _ _ _ _ P)]. intros x Hx. apply Hon. rewrite random_len in Hx. lia. }
  assert (Hmem : forall x, sp5 <= x < STACK_TOP -> bytes s' x = bytes s5 x) by (intros x Hx; rewrite <- (Hon x Hx); apply N; lia).
  assert (Hprot : forall x, prot s' x = prot s6 x) by (intros x; apply N).
  assert (Hout : forall x, ~ on_stack x -> same_at s6 s' x).
  { intros x Hx. split; [apply N|apply Hprot]. unfold on_stack, STACK_TOP, STACK_SIZE in *. lia. }
  assert (Hstr : forall ps ts, Forall2 (fun p t => cstr_at (bytes s5) p t /\ sp5 <= p /\ p + usize_len t + 1 <= STACK_TOP) ps ts -> Forall2 (cstr_at (bytes s')) ps ts).
  { intros ps ts F. eapply Forall2_impl; [exact F|]. cbn beta. intros p t (C & Hp & Hq). eapply cstr_same; [|exact C]. intros x Hx. apply Hmem. lia. }
  exists sp, argv, envp, b, entry, interp_addr, random. split; [|split; [|split; [|split; [|split; [|split; [|split; [|split; [|split; [exact Hb0|split; [exact Een|split; [|split]]]]]]]]]]].
  - cbn [registers set_prv set_pc set_registers]. rewrite list_lookup_insert_ne by lia. apply list_lookup_insert_eq. lia.
  - pose proof (pr_align _ _ _ _ _ _ P) as A. rewrite Esp. replace (sp5 - 8 * usize_len l) with (sp5 + - usize_len l * 8) by lia. rewrite Z.mod_add by lia. exact A.
  - unfold on_stack, STACK_TOP, STACK_SIZE in *. lia.
  - unfold l in W. rewrite late_words_eq in W. apply words_at_app in W. exact W.
  - intros i v Hi. rewrite (word_at_same (bytes s5)).
    + pose proof (pr_words _ _ _ _ _ _ P (S (S i)) v Hi) as Hw. rewrite <- Hw. f_equal. lia.
    + apply lookup_lt_Some in Hi. pose proof random_len as Hrl. rewrite usize_app in Hrl. change (usize_len [AT_NULL; 0]) with 2 in Hrl. unfold usize_len in Hrl.
      intros x Hx. apply Hmem. lia.
  - apply Hstr, (pr_args _ _ _ _ _ _ P).
  - apply Hstr, (pr_env _ _ _ _ _ _ P).
  - intros x Hx. rewrite Hprot. destruct (Hsame x Hx) as [_ ->]. apply (pr_prot _ _ _ _ _ _ P x Hx).
  - intros h Hh' Hl'. eapply seg_mapped_same; [exact Hok|exact Hh'|exact Hl'| |apply Hseg; assumption]. intros x Hx. apply Hout. intros Hs. exact (Hclear x Hs Hx).
  - eapply starts_same; [exact Hint|exact Hout|exact Hst].
  - reflexivity.
Qed.
End Program.

(** ** A program that starts *)

Section Sample.

Definition map_range (a n : Z) (f : Z -> Z) (p : option Z) (s : Space) : Space :=
  MkSpace (fun x => if (a <=? x) && (x <? a + n) then f (x - a) else bytes s x) (fun x => if (a <=? x) && (x <? a + n) then p else prot s x).

(** A host that maps at 4 GiB what has no address of its own *)
#[local] Instance plain_host : Host := {|
  mmap fixed addr len p src s :=
    if fixed then Some (addr, map_range addr len (source_byte src) (Some p) s)
    else if forallb (fun i => bool_decide (prot s (0x100000000 + i) = None)) (seqZ 0 len) && (len <=? 2 ^ 46) then
      Some (0x100000000, map_range 0x100000000 len (source_byte src) (Some p) s)
    else None;
  mprotect addr len p s := MkSpace (bytes s) (fun x => if (addr <=? x) && (x <? addr + len) then Some p else prot s x);
  open_file _ := None; vars := [([65], [98])]; random_data := (1, 2, 3, 4); getuid := 1000; geteuid := 1000; getgid := 1000; getegid := 1000 |}.

#[local] Instance plain_laws : HostLaws.
Proof.
  split.
  - intros fixed addr len p src s a s' x E. cbn in E. destruct fixed; [injection E as <- <-; reflexivity|]. destruct (_ && _); [injection E as <- <-; reflexivity|discriminate].
  - intros fixed addr len p src s a s' x E. cbn in E. destruct fixed; [injection E as <- <-; reflexivity|]. destruct (_ && _); [injection E as <- <-; reflexivity|discriminate].
  - intros addr len p src s a s' E. cbn in E. injection E as <- _. reflexivity.
  - intros addr len p src s a s' E. cbn in E. destruct (forallb _ _) eqn:F; [|discriminate]. destruct (Z.leb_spec len (2 ^ 46)); [|discriminate].
    injection E as <- _. split; [reflexivity|]. split; [lia|]. split; [lia|]. intros x Hx. rewrite forallb_forall in F.
    specialize (F (x - 0x100000000)). rewrite bool_decide_eq_true in F. replace (0x100000000 + (x - 0x100000000)) with x in F by lia. apply F, list_elem_of_In, elem_of_seqZ. lia.
  - reflexivity.
  - reflexivity.
Qed.

(** One segment at an address that is not the start of a page *)
Definition user_elf : list Z :=
  [0x7F; 69; 76; 70; 2; 1; 1; 0; 0; 0; 0; 0; 0; 0; 0; 0] ++ to_le_bytes 2 2 ++ to_le_bytes 2 243 ++ to_le_bytes 4 1 ++ to_le_bytes 8 0x10078 ++
  to_le_bytes 8 64 ++ to_le_bytes 8 0 ++ to_le_bytes 4 0 ++ to_le_bytes 2 64 ++ to_le_bytes 2 56 ++ to_le_bytes 2 1 ++ to_le_bytes 2 64 ++ to_le_bytes 2 0 ++ to_le_bytes 2 0 ++
  to_le_bytes 4 1 ++ to_le_bytes 4 5 ++ to_le_bytes 8 120 ++ to_le_bytes 8 0x10078 ++ to_le_bytes 8 0x10078 ++ to_le_bytes 8 4 ++ to_le_bytes 8 8 ++ to_le_bytes 8 4096 ++
  [0x13; 0x05; 0x50; 0x00].

Definition bare_context : Context :=
  MkContext (repeat 0 32) 0 0 0 0 0 0 (repeat 0 32) 0 0 0 0 0 0 0 0 0 0 0 0 0 0 0 0 0 0 0 0 0 0.
Definition empty_space : Space := MkSpace (fun _ => 0) (fun _ => None).

Lemma user_elf_ok : program_ok user_elf.
Proof.
  assert (E : phdr user_elf = [MkPhdr 1 5 120 0x10078 4 8]) by (vm_compute; reflexivity). unfold program_ok. rewrite E. split; [|split].
  - apply Forall_cons. split; [|apply Forall_nil; exact I]. intros _. split; [unfold seg_ok; cbn; lia|reflexivity].
  - apply FOP_cons; [apply Forall_nil; exact I|apply FOP_nil].
  - vm_compute. discriminate.
Qed.

Lemma user_program_starts_witness : exists brk s' ctx' sp argv p, load_user user_elf [[99; 100]] bare_context empty_space = Some (brk, s', ctx') /\
  registers ctx' !! 2%nat = Some sp /\ word_at (bytes s') sp = 1 /\ argv = [p] /\ cstr_at (bytes s') p [99; 100] /\ word_at (bytes s') (sp + 8) = p /\
  bytes s' 0x10078 = 0x13 /\ bytes s' 0x1007d = 0 /\ pc ctx' = 0x10078.
Proof.
  destruct (load_user user_elf [[99; 100]] bare_context empty_space) as [[[brk s'] ctx']|] eqn:E.
  2: { exfalso. assert (X : match load_user user_elf [[99; 100]] bare_context empty_space with Some _ => true | None => false end = true) by (vm_compute; reflexivity). rewrite E in X. discriminate X. }
  destruct (user_program_starts user_elf [[99; 100]] bare_context empty_space brk s' ctx') as (sp & argv & envp & b & entry & ia & random & R & _ & _ & W & _ & A & _ & _ & B0 & Een & S & St & _).
  - apply Forall_forall. intros x Hx. assert (F : forallb (fun x => (0 <=? x) && (x <? 256)) user_elf = true) by (vm_compute; reflexivity).
    rewrite forallb_forall in F. apply list_elem_of_In in Hx. specialize (F x Hx). unfold in_u. lia.
  - exact user_elf_ok.
  - intros name f Hn. vm_compute in Hn. discriminate Hn.
  - right. unfold clear_of_stack. replace (bounds (phdr user_elf)) with (0x10000, 0x11000) by (vm_compute; reflexivity). cbn [fst snd].
    unfold on_stack, STACK_TOP, STACK_SIZE. lia.
  - apply Forall_forall. intros x Hx. assert (F : forallb (fun x => (0 <=? x) && (x <? 2 ^ 64)) (random_list ++ [getuid; geteuid; getgid; getegid]) = true) by (vm_compute; reflexivity).
    rewrite forallb_forall in F. apply list_elem_of_In in Hx. specialize (F x Hx). unfold in_u. lia.
  - vm_compute. discriminate.
  - reflexivity.
  - exact E.
  - inversion A as [|p t ps ts Hp Hps E1 E2]; subst. inversion Hps; subst.
    exists brk, s', ctx', sp, [p], p. split; [reflexivity|]. split; [exact R|]. pose proof (W 0%nat _ eq_refl) as W0. pose proof (W 1%nat _ eq_refl) as W1.
    rewrite Z.mul_0_r, Z.add_0_r in W0. split; [exact W0|]. split; [reflexivity|]. split; [exact Hp|]. split; [exact W1|].
    assert (Hh : MkPhdr 1 5 120 0x10078 4 8 ∈ phdr user_elf) by (vm_compute; left). destruct (S _ Hh I) as [Sa _].
    rewrite (B0 ltac:(vm_compute; reflexivity)) in *. split; [exact (Sa 0 ltac:(cbn; lia))|]. split; [exact (Sa 5 ltac:(cbn; lia))|].
    assert (Ei : find_interpreter user_elf = Some None) by (vm_compute; reflexivity). unfold starts in St. rewrite Ei in St. destruct St as [-> _]. vm_compute. reflexivity.
Defined.
End Sample.
