(* ===== verification/Main.v ===== *)
(** The program (src/main.rs): the command line, the harts it creates, starting a user
    program or a system, and what happens when the harts stop; with the switch between
    models (src/sim/mod.rs). *)

From Stdlib Require Import ZArith Lia Bool List String Ascii.
From stdpp Require Import base gmap list.
From S2P Require Import Prelude HartState Hart HartBlock Fdt IoSystem Loader.
From S2P Require HartReach.
Import ListNotations.
Local Open Scope string_scope.
Local Open Scope list_scope.
Local Open Scope Z_scope.
Local Open Scope rust_scope.

Module Main.
Import IoSystem (text).

(** ** The command line *)

Record Flags : Type := MkFlags {
  disassemble : bool; flags_prv : Z; perf : bool; thread : bool; blocking_io : bool; model_id : Z; wfi_nop : bool;
  dump_fdt : option (list Z); strace : bool; exec_path : list Z; sysroot : list Z }.

Definition default_flags : Flags := MkFlags false 1 false true false 0 false None false [] (text "/opt/riscv/sysroot").

Definition set_disassemble (v : bool) (f : Flags) : Flags := MkFlags v (flags_prv f) (perf f) (thread f) (blocking_io f) (model_id f) (wfi_nop f) (dump_fdt f) (strace f) (exec_path f) (sysroot f).
Definition set_flags_prv (v : Z) (f : Flags) : Flags := MkFlags (disassemble f) v (perf f) (thread f) (blocking_io f) (model_id f) (wfi_nop f) (dump_fdt f) (strace f) (exec_path f) (sysroot f).
Definition set_perf (v : bool) (f : Flags) : Flags := MkFlags (disassemble f) (flags_prv f) v (thread f) (blocking_io f) (model_id f) (wfi_nop f) (dump_fdt f) (strace f) (exec_path f) (sysroot f).
Definition set_thread (v : bool) (f : Flags) : Flags := MkFlags (disassemble f) (flags_prv f) (perf f) v (blocking_io f) (model_id f) (wfi_nop f) (dump_fdt f) (strace f) (exec_path f) (sysroot f).
Definition set_blocking_io (v : bool) (f : Flags) : Flags := MkFlags (disassemble f) (flags_prv f) (perf f) (thread f) v (model_id f) (wfi_nop f) (dump_fdt f) (strace f) (exec_path f) (sysroot f).
Definition set_model_id (v : Z) (f : Flags) : Flags := MkFlags (disassemble f) (flags_prv f) (perf f) (thread f) (blocking_io f) v (wfi_nop f) (dump_fdt f) (strace f) (exec_path f) (sysroot f).
Definition set_wfi_nop (v : bool) (f : Flags) : Flags := MkFlags (disassemble f) (flags_prv f) (perf f) (thread f) (blocking_io f) (model_id f) v (dump_fdt f) (strace f) (exec_path f) (sysroot f).
Definition set_dump_fdt (v : option (list Z)) (f : Flags) : Flags := MkFlags (disassemble f) (flags_prv f) (perf f) (thread f) (blocking_io f) (model_id f) (wfi_nop f) v (strace f) (exec_path f) (sysroot f).
Definition set_strace (v : bool) (f : Flags) : Flags := MkFlags (disassemble f) (flags_prv f) (perf f) (thread f) (blocking_io f) (model_id f) (wfi_nop f) (dump_fdt f) v (exec_path f) (sysroot f).
Definition set_exec_path (v : list Z) (f : Flags) : Flags := MkFlags (disassemble f) (flags_prv f) (perf f) (thread f) (blocking_io f) (model_id f) (wfi_nop f) (dump_fdt f) (strace f) v (sysroot f).
Definition set_sysroot (v : list Z) (f : Flags) : Flags := MkFlags (disassemble f) (flags_prv f) (perf f) (thread f) (blocking_io f) (model_id f) (wfi_nop f) (dump_fdt f) (strace f) (exec_path f) v.

(** How a phase ends: with a value, with [std::process::exit], or with a panic *)
Inductive Outcome (A : Type) : Type := Done (a : A) | ExitWith (code : Z) | Panic.
Arguments Done {A} a.
Arguments ExitWith {A} code.
Arguments Panic {A}.

Definition after {A B} (o : Outcome A) (f : A -> Outcome B) : Outcome B :=
  match o with Done a => f a | ExitWith c => ExitWith c | Panic => Panic end.
Definition or_panic {A} (o : option A) : Outcome A := match o with Some a => Done a | None => Panic end.
Definition or_exit {A} (o : option A) : Outcome A := match o with Some a => Done a | None => ExitWith 1 end.

Definition starts_with (s prefix : list Z) : bool := bool_decide (take (length prefix) s = prefix).
Definition named (s : list Z) (t : string) : bool := bool_decide (s = text t).

(** The loop over the options and what follows it: the flags, the program and its
    arguments *)
Fixpoint parse_args (args : list (list Z)) (flags : Flags) : Outcome (Flags * list Z * list (list Z)) :=
  match args with
  | [] => ExitWith 1
  | arg :: args =>
      if negb (starts_with arg (text "-")) then Done (set_exec_path arg flags, arg, args)
      else if named arg "--strace" then parse_args args (set_strace true flags)
      else if named arg "--disassemble" then parse_args args (set_disassemble true flags)
      else if named arg "--perf" then parse_args args (set_perf true flags)
      else if named arg "--lockstep" then parse_args args (set_blocking_io true (set_model_id 1 flags))
      else if named arg "--wfi-nop" then parse_args args (set_wfi_nop true flags)
      else if named arg "--help" then ExitWith 0
      else if starts_with arg (text "--sysroot=") then parse_args args (set_sysroot (drop 10 arg) flags)
      else if starts_with arg (text "--dump-fdt=") then parse_args args (set_dump_fdt (Some (drop 11 arg)) flags)
      else ExitWith 1
  end.

(** ** The harts *)

(** [newctx]; [delegate] is that there is no firmware. *)
Definition newctx (delegate : bool) (i : Z) : Context := {|
  registers := <[0%nat := 0]> (repeat 0xCCCCCCCCCCCCCCCC 32);
  pc := 0;
  instret := 0; cause := 0; tval := 0; minstret := 0; cycle_offset := 0;
  fp_registers := repeat 0xFFFFFFFFFFFFFFFF 32;
  frm := 0; lr_addr := 0; lr_value := 0;
  scause := 0; stval := 0; stvec := 0; sscratch := 0; sepc := 0; satp := 0; scounteren := 0;
  mideleg := if delegate then 0x222 else 0;
  medeleg := if delegate then 0xB35D else 0;
  mcause := 0; mtval := 0; mstatus := 0x6000; mie := 0; mtvec := 0; mscratch := 0; mepc := 0;
  mcounteren := if delegate then 7 else 0;
  prv := 0;
  hartid := u64 i;
|}.

Definition contexts (delegate : bool) (num_cores : Z) : list Context := map (newctx delegate) (seqZ 0 num_cores).

(** ** Starting a system *)

(** [Config] with the files of the kernel and the firmware *)
Record SystemConfig : Type := MkSystem { devices : IoSystem.Config; kernel : list Z; firmware : option (list Z) }.

(** What is asked of the host: the contents of a file, reading a configuration, and writing
    a file *)
Class Files : Type := {
  open_loader : list Z -> option (list Z);
  from_toml : list Z -> option SystemConfig;
  write_file : list Z -> list Z -> bool;
}.

(** Where the firmware goes: the first 2 MiB boundary past the memory *)
Definition firmware_location (memory : Z) : Z := 0x40000000 + ((memory * 0x100000 + 0x1fffff) .& Z.lnot 0x1fffff).

(** [phys_limit] of [emu::init]: the end of the memory that is mapped *)
Definition phys_size (memory : Z) (firmware : bool) : Z := (memory + if firmware then 2 else 0) * 1024 * 1024.
Definition phys_limit (memory : Z) (firmware : bool) : Z := 0x40000000 + phys_size memory firmware.

Record Started : Type := MkStarted { io : IoSystem.IoSystem; guest_mem : Z -> Z; harts : list Context }.

Section System.
Context {F : Files} {H : IoSystem.Host}.

Definition start_firmware (cfg : SystemConfig) (st : (Z -> Z) * list Context) : Outcome ((Z -> Z) * list Context) :=
  let '(m, ctxs) := st in
  match firmware cfg with
  | None => Done (m, ctxs)
  | Some path =>
      after (or_exit (open_loader path)) (fun file =>
      let location := firmware_location (IoSystem.memory (devices cfg)) in
      after (or_panic (Loader.load_kernel file location m)) (fun '(_, m) =>
      Done (m, map (fun ctx => set_prv 3 (set_pc location (set_registers (<[12%nat := pc ctx]> (registers ctx)) ctx))) ctxs)))
  end.

(** From the creation of the harts to the end of loading; [m] is the memory [emu::init]
    maps. *)
Definition start_system (flags : Flags) (cfg : SystemConfig) (file : list Z) (m : Z -> Z) : Outcome Started :=
  let core := IoSystem.core (devices cfg) in
  let ctxs := contexts (bool_decide (firmware cfg = None)) core in
  if core =? 0 then Panic else
  after (or_panic (IoSystem.io_system core (devices cfg))) (fun io =>
  after (or_panic (IoSystem.device_tree core (devices cfg) io)) (fun tree =>
  let dump blob := match dump_fdt flags with Some path => write_file path blob | None => true end in
  after (or_panic (Loader.load_system file (Fdt.encode tree) dump ctxs m)) (fun st =>
  after (start_firmware cfg st) (fun '(m, ctxs) => Done (MkStarted io m ctxs))))).

(** Reading the configuration, and the flags it sets *)
Definition configure (flags : Flags) (file : list Z) : Outcome (Flags * SystemConfig * list Z) :=
  after (or_exit (from_toml file)) (fun cfg =>
  if 32 <? IoSystem.core (devices cfg) then ExitWith 1 else
  let flags := match firmware cfg with Some _ => set_flags_prv 3 flags | None => flags end in
  after (or_exit (open_loader (kernel cfg))) (fun file => Done (flags, cfg, file))).

(** ** A user program *)

(** There is no configuration then, but the code reads [CONFIG.firmware] all the same:
    [stale] is what the cell that was never written holds, and anything but the absence of a
    firmware is taken as a crash. *)
Definition start_user {U : Loader.Host} (stale : option (list Z)) (file program : list Z) (args : list (list Z)) (s : Loader.Space) :
    option (Z * Loader.Space * Context) :=
  match stale with
  | Some _ => None
  | None => Loader.load_user file (program :: args) (newctx true 0) s
  end.

Inductive Run : Type :=
| UserRun (flags : Flags) (brk : Z) (space : Loader.Space) (ctx : Context)
| SystemRun (flags : Flags) (cfg : SystemConfig) (st : Started).

(** [main] up to the loop, [args] without the name of the program itself *)
Definition main {U : Loader.Host} (stale : option (list Z)) (s : Loader.Space) (args : list (list Z)) : Outcome Run :=
  after (parse_args args default_flags) (fun '(flags, program, args) =>
  after (or_exit (open_loader program)) (fun file =>
  if Loader.is_elf file then
    match Loader.validate_elf file with
    | Some _ => ExitWith 1
    | None =>
        let flags := set_flags_prv 0 flags in
        after (or_panic (start_user stale file program args s)) (fun '(brk, s, ctx) => Done (UserRun flags brk s ctx))
    end
  else
    after (configure flags file) (fun '(flags, cfg, file) =>
    after (start_system flags cfg file (Loader.bytes s)) (fun st => Done (SystemRun flags cfg st))))).

End System.

(** ** When the harts stop *)

(** [MemoryModel::require_lockstep] *)
Definition require_lockstep (model : MemoryModel) : bool := match model with AtomicModel => false | SimpleModel => true end.

(** [PIPELINE_MODEL] *)
Inductive PipelineKind : Type := AtomicPipeline | InOrderPipeline.

(** [switch_model]; [None] is the panic *)
Definition switch_model (id : Z) : option (MemoryModel * PipelineKind) :=
  match id with
  | 0 => Some (AtomicModel, AtomicPipeline)
  | 1 => Some (SimpleModel, InOrderPipeline)
  | _ => None
  end.

(** The harts between two runs *)
Record Stopped : Type := MkStopped {
  run_flags : Flags; memory_model : MemoryModel; pipeline_model : PipelineKind;
  ctxs : list Context; shareds : list SharedContext; caches : list ICache; cycle_base : Z }.

Definition set_model (id : Z) (s : Stopped) : option Stopped :=
  let? (mm, pm) := switch_model id in
  Some (MkStopped (set_thread (negb (require_lockstep mm)) (run_flags s)) mm pm (ctxs s) (shareds s) (caches s) (cycle_base s)).

(** The [match] on the reason, and the alert that follows it; [now] is the cycle counter of
    the event loop.  Statistics go to the terminal. *)
Definition on_exit (reason : ExitReason) (now : Z) (s : Stopped) : Outcome Stopped :=
  let alerted s := MkStopped (run_flags s) (memory_model s) (pipeline_model s) (ctxs s) (map alert (shareds s)) (caches s) (cycle_base s) in
  match reason with
  | SwitchModel id =>
      after (or_panic (set_model id s)) (fun s =>
      Done (alerted (MkStopped (set_model_id id (run_flags s)) (memory_model s) (pipeline_model s) (ctxs s)
        (map (fun h => clear_local_icache (clear_local_cache h)) (shareds s)) (icache_reset (caches s)) (cycle_base s))))
  | Exit code => ExitWith code
  | ClearStats =>
      Done (alerted (MkStopped (run_flags s) (memory_model s) (pipeline_model s)
        (map (fun c => set_cycle_offset 0 (set_minstret 0 (set_instret 0 c))) (ctxs s)) (shareds s) (caches s) now))
  | PrintStats => Done (alerted s)
  end.

End Main.

(** * Properties

    A system that is started is ready to run: the kernel, the firmware and the device tree
    are in guest memory and nothing else is written, and every hart is well typed and set up
    as the boot protocol of Linux asks; switching models leaves no stale cache line. *)

From Stdlib Require Import ZArith Lia Bool List.
From stdpp Require Import base gmap list relations.
From S2P Require Import Prelude HartState Hart HartBlock HartLogic HartInv HartWf HartReach Fdt IoSystem IoSystemProps Loader LoaderProps.
Import ListNotations.
Local Open Scope Z_scope.
Local Open Scope rust_scope.
Import Loader Main.

(** ** Bytes stay bytes *)

Notation byte_mem := HartLogic.bytes (only parsing).

Lemma memcpy_bytes a l m : Forall (in_u 8) l -> byte_mem m -> byte_mem (memcpy a l m).
Proof. intros Hl Hm x. unfold memcpy. destruct (_ && _); [apply byte_range, Hl|apply Hm]. Qed.

Lemma memset_bytes a n m : byte_mem m -> byte_mem (memset a 0 n m).
Proof. intros Hm x. unfold memset. destruct (_ && _); [apply in_u_lit; reflexivity|apply Hm]. Qed.

Lemma copy_segments_bytes file lo load_addr hs : Forall (in_u 8) file -> forall m m', byte_mem m ->
  each (copy_segment file lo load_addr) hs m = Some m' -> byte_mem m'.
Proof.
  intros Hf. induction hs as [|h hs IH]; intros m m' Hm E; cbn [each] in E; [injection E as <-; exact Hm|].
  unfold copy_segment at 1 in E. destruct (p_type h =? PT_LOAD); [|exact (IH _ _ Hm E)]. destruct (p_memsz h <? p_filesz h); [discriminate|].
  eapply IH; [|exact E]. apply memset_bytes, memcpy_bytes, Hm. apply slice_range, Hf.
Qed.

Lemma load_kernel_bytes file load_addr m n m' : Forall (in_u 8) file -> byte_mem m -> load_kernel file load_addr m = Some (n, m') -> byte_mem m'.
Proof.
  intros Hf Hm. unfold load_kernel. destruct (bounds (phdr file)) as [lo hi]. destruct (each _ _ _) as [m1|] eqn:E; [|discriminate].
  intros E'. injection E' as _ <-. eapply copy_segments_bytes; eassumption.
Qed.

(** ** The harts *)

Lemma newctx_wf delegate i : wf_ctx (newctx delegate i).
Proof.
  split; try reflexivity.
  - apply words_lit. reflexivity.
  - apply words_lit. reflexivity.
  - unfold ctx_words. cbn [newctx pc instret cause tval minstret lr_addr lr_value scause stval stvec sscratch sepc satp scounteren mideleg medeleg mcause mtval
      mstatus mie mtvec mscratch mepc mcounteren hartid].
    destruct delegate; repeat (apply Forall_cons; split; [first [apply in_u_lit; reflexivity|apply wrap_range; lia]|]); apply Forall_nil; exact I.
  - left. reflexivity.
  - destruct delegate; repeat split; cbn; lia.
Qed.

Lemma contexts_lookup delegate n i : 0 <= i < n -> contexts delegate n !! Z.to_nat i = Some (newctx delegate i).
Proof. intros Hi. unfold contexts. rewrite list_lookup_fmap, lookup_seqZ_lt by lia. cbn. do 2 f_equal. lia. Qed.

Lemma contexts_length delegate n : 0 <= n -> Z.of_nat (length (contexts delegate n)) = n.
Proof. intros Hn. unfold contexts. rewrite length_map, length_seqZ. lia. Qed.

(** ** The firmware is past the memory *)

Lemma firmware_location_range memory : 0 <= memory -> 0x40000000 + memory * 0x100000 <= firmware_location memory < 0x40000000 + memory * 0x100000 + 0x200000.
Proof.
  intros Hm. unfold firmware_location. rewrite <- Z.ldiff_land. change 0x1fffff with (Z.ones 21).
  rewrite Z.ldiff_ones_r, Z.shiftl_mul_pow2, Z.shiftr_div_pow2 by lia. change (Z.ones 21) with 0x1fffff. change (2 ^ 21) with 0x200000.
  Z.to_euclidean_division_equations; lia.
Qed.

(** ** Images *)

(** A file the loader accepts, the size of its image, and that it is in memory from [a] on *)
Definition image_size (file : list Z) : Z := (bounds (phdr file)).2 - (bounds (phdr file)).1.
Definition good_image (file : list Z) : Prop := Forall (in_u 8) file /\ image_ok (phdr file) /\ 0 <= image_size file.
Definition image_at (file : list Z) (a : Z) (m : Z -> Z) : Prop :=
  forall h, h ∈ phdr file -> is_load h -> seg_at file m (placed (bounds (phdr file)).1 a h) h.

Lemma load_kernel_good file a m : good_image file -> 0 <= a -> a + image_size file < 2 ^ 64 -> byte_mem m ->
  exists m', load_kernel file a m = Some (image_size file, m') /\ image_at file a m' /\ byte_mem m' /\
    forall x, ~ a <= x < a + image_size file -> m' x = m x.
Proof.
  intros (Hb & Hi & Hs) Ha Hr Hm. unfold image_size, image_at in *. destruct (bounds (phdr file)) as [lo hi] eqn:E. cbn [fst snd] in *.
  destruct (load_kernel_ok file a m lo hi Hi E ltac:(lia) Ha Hr) as (m' & L & S & O). exists m'. split; [exact L|]. split; [exact S|].
  split; [eapply load_kernel_bytes; eassumption|exact O].
Qed.

Lemma image_at_ext file a m m' : good_image file -> (forall x, a <= x < a + image_size file -> m' x = m x) -> image_at file a m -> image_at file a m'.
Proof.
  intros (_ & Hi & _) E S h Hh Hl. apply seg_at_ext with m; [|apply S; assumption]. intros x Hx. apply E. unfold placed, image_size in *.
  destruct (bounds (phdr file)) as [lo hi] eqn:B. destruct (bounds_spec _ _ _ (proj1 Hi) B) as (_ & _ & _ & _ & Hin).
  pose proof (proj1 (Forall_forall _ _) Hin h Hh Hl). cbn [fst snd] in *. lia.
Qed.

(** A kernel is an ELF file or a plain image. *)
Definition kernel_size (file : list Z) : Z := if is_elf file then image_size file else usize_len file.
Definition good_kernel (file : list Z) : Prop := if is_elf file then good_image file else Forall (in_u 8) file.
Definition kernel_at (file : list Z) (m : Z -> Z) : Prop :=
  if is_elf file then image_at file KERNEL_ADDR m else read_bytes m KERNEL_ADDR (usize_len file) = file.

Lemma kernel_at_ext file m m' : good_kernel file -> (forall x, KERNEL_ADDR <= x < KERNEL_ADDR + kernel_size file -> m' x = m x) ->
  kernel_at file m -> kernel_at file m'.
Proof.
  unfold good_kernel, kernel_size, kernel_at. destruct (is_elf file); [apply image_at_ext|].
  intros _ E S. rewrite (read_same m m') by exact E. exact S.
Qed.

(** ** Loading *)

Lemma load_system_ok file blob dump ctxs m : good_kernel file -> byte_mem m -> Forall (in_u 8) blob -> dump blob = true ->
  KERNEL_ADDR + kernel_size file + usize_len blob < 2 ^ 64 ->
  exists m', load_system file blob dump ctxs m = Some (m', map (fun ctx =>
      set_prv 1 (set_pc KERNEL_ADDR (set_registers (<[11%nat := KERNEL_ADDR + kernel_size file]> (<[10%nat := hartid ctx]> (registers ctx))) ctx))) ctxs) /\
    kernel_at file m' /\ read_bytes m' (KERNEL_ADDR + kernel_size file) (usize_len blob) = blob /\ byte_mem m' /\
    forall x, ~ KERNEL_ADDR <= x < KERNEL_ADDR + kernel_size file + usize_len blob -> m' x = m x.
Proof.
  intros Hk Hm Hb Hd Hr. assert (Hlen : 0 <= usize_len blob) by (unfold usize_len; lia).
  assert (Hsize : 0 <= kernel_size file).
  { unfold good_kernel, kernel_size in *. destruct (is_elf file); [apply Hk|unfold usize_len; lia]. }
  assert (L : exists m1, (if is_elf file then load_kernel file KERNEL_ADDR m else Some (usize_len file, load_bin file KERNEL_ADDR m)) = Some (kernel_size file, m1) /\
    kernel_at file m1 /\ byte_mem m1 /\ forall x, ~ KERNEL_ADDR <= x < KERNEL_ADDR + kernel_size file -> m1 x = m x).
  { unfold good_kernel, kernel_size, kernel_at in *. destruct (is_elf file).
    - apply load_kernel_good; [exact Hk|unfold KERNEL_ADDR; lia|lia|exact Hm].
    - eexists. split; [reflexivity|]. split; [apply read_memcpy|]. split; [apply memcpy_bytes; assumption|]. intros x Hx. apply memcpy_out, Hx. }
  destruct L as (m1 & E & K & B & O). unfold load_system. rewrite E, Hd. cbn [negb]. rewrite u64_same by (unfold KERNEL_ADDR in *; lia).
  eexists. split; [reflexivity|]. split; [|split; [apply read_memcpy|split; [apply memcpy_bytes; assumption|]]].
  - apply kernel_at_ext with m1; [exact Hk| |exact K]. intros x Hx. apply memcpy_out. lia.
  - intros x Hx. rewrite memcpy_out by lia. apply O. lia.
Qed.

(** The firmware is an ELF file that fits what is mapped past the memory. *)
Section Boot.
Context {F : Files} {H : IoSystem.Host}.

Definition has_firmware (cfg : SystemConfig) : bool := match firmware cfg with Some _ => true | None => false end.

Definition firmware_fits (cfg : SystemConfig) : Prop :=
  forall path, firmware cfg = Some path -> exists f, open_loader path = Some f /\ good_image f /\
    firmware_location (IoSystem.memory (devices cfg)) + image_size f <= phys_limit (IoSystem.memory (devices cfg)) true.

Definition firmware_at (cfg : SystemConfig) (m : Z -> Z) : Prop :=
  forall path f, firmware cfg = Some path -> open_loader path = Some f -> image_at f (firmware_location (IoSystem.memory (devices cfg))) m.

(** The hart of the boot protocol: its number and the device tree in [a0] and [a1], at the
    kernel, or at the firmware with the kernel in [a2]. *)
Definition hart_ready (cfg : SystemConfig) (dt i : Z) (c : Context) : Prop :=
  registers c !! 10%nat = Some i /\ registers c !! 11%nat = Some dt /\
  match firmware cfg with
  | None => pc c = KERNEL_ADDR /\ prv c = 1
  | Some _ => pc c = firmware_location (IoSystem.memory (devices cfg)) /\ prv c = 3 /\ registers c !! 12%nat = Some KERNEL_ADDR
  end.

Lemma start_firmware_ok cfg m ctxs : 0 <= IoSystem.memory (devices cfg) < 2 ^ 40 -> firmware_fits cfg -> byte_mem m ->
  exists m', start_firmware cfg (m, ctxs) = Done (m', match firmware cfg with
      | None => ctxs
      | Some _ => map (fun ctx => set_prv 3 (set_pc (firmware_location (IoSystem.memory (devices cfg))) (set_registers (<[12%nat := pc ctx]> (registers ctx)) ctx))) ctxs
      end) /\ firmware_at cfg m' /\ byte_mem m' /\
    forall x, ~ firmware_location (IoSystem.memory (devices cfg)) <= x < phys_limit (IoSystem.memory (devices cfg)) (has_firmware cfg) -> m' x = m x.
Proof.
  intros Hmem Hf Hm. unfold start_firmware, firmware_fits, firmware_at, has_firmware in *. destruct (firmware cfg) as [path|].
  - destruct (Hf path eq_refl) as (f & Eo & Hg & Hfit). pose proof (firmware_location_range (IoSystem.memory (devices cfg)) ltac:(lia)) as Hl.
    destruct (load_kernel_good f (firmware_location (IoSystem.memory (devices cfg))) m Hg) as (m' & E & A & B & O);
      [lia|unfold phys_limit, phys_size in Hfit; lia|exact Hm|].
    exists m'. rewrite Eo. cbn [after or_exit]. rewrite E. split; [reflexivity|]. split; [|split; [exact B|]].
    + intros p f' Ep Ef. injection Ep as <-. rewrite Eo in Ef. injection Ef as <-. exact A.
    + intros x Hx. apply O. lia.
  - exists m. split; [reflexivity|]. split; [intros p f E; discriminate E|]. split; [exact Hm|auto].
Qed.
End Boot.

(** What a hart is when it starts to run *)
Definition first_machine {W} (core : Z) (c : Context) (m : Z -> Z) code ics model (w : W) : Machine W :=
  MkMachine c (replicate (Z.to_nat core) new_shared) m code ics model w.

Lemma new_shared_wf : wf_shared new_shared.
Proof. split; cbn [new_shared alarm mip line i_line rm fflags]; rewrite ?repeat_length; try reflexivity; try (apply in_u_lit; reflexivity); lia. Qed.

Lemma first_machine_wf {W} core c m code ics model (w : W) : wf_ctx c -> 0 <= hartid c < core -> byte_mem m -> wf (first_machine core c m code ics model w).
Proof.
  intros Hc Hi Hm. split; [exact Hc| |exact Hm]. exists new_shared. split; [|exact new_shared_wf].
  unfold own, first_machine. cbn [ctx shared]. apply lookup_replicate_2. lia.
Qed.

Section Start.
Context {F : Files} {H : IoSystem.Host}.

Definition dumps (flags : Flags) (blob : list Z) : bool := match dump_fdt flags with Some path => write_file path blob | None => true end.

Lemma booted_hart cfg i dt core : 0 <= i < core -> core <= 32 -> in_u 64 dt -> 0 <= IoSystem.memory (devices cfg) < 2 ^ 40 ->
  let c0 := newctx (bool_decide (firmware cfg = None)) i in
  let c1 := set_prv 1 (set_pc KERNEL_ADDR (set_registers (<[11%nat := dt]> (<[10%nat := hartid c0]> (registers c0))) c0)) in
  let c := match firmware cfg with
    | None => c1
    | Some _ => set_prv 3 (set_pc (firmware_location (IoSystem.memory (devices cfg))) (set_registers (<[12%nat := pc c1]> (registers c1)) c1))
    end in
  hart_ready cfg dt i c /\ wf_ctx c /\ hartid c = i.
Proof.
  intros Hi Hc Hdt Hmem c0 c1 c. assert (Eh : hartid c0 = i) by (apply u64_same; lia).
  assert (W1 : wf_ctx c1).
  { apply wf_set_prv; [right; left; reflexivity|]. apply wf_set_pc; [apply in_u_lit; reflexivity|].
    change (set_registers _ c0) with (set_registers (<[11%nat := dt]> (registers (set_registers (<[10%nat := hartid c0]> (registers c0)) c0))) (set_registers (<[10%nat := hartid c0]> (registers c0)) c0)).
    apply wf_set_register; [lia|exact Hdt|]. apply wf_set_register; [lia| |apply newctx_wf]. rewrite Eh. unfold in_u. lia. }
  assert (R10 : registers c1 !! 10%nat = Some i).
  { change (registers c1) with (<[11%nat := dt]> (<[10%nat := hartid c0]> (registers c0))). rewrite list_lookup_insert_ne by lia.
    rewrite list_lookup_insert_eq; [rewrite Eh; reflexivity|]. cbn. lia. }
  assert (R11 : registers c1 !! 11%nat = Some dt).
  { change (registers c1) with (<[11%nat := dt]> (<[10%nat := hartid c0]> (registers c0))). apply list_lookup_insert_eq. rewrite length_insert. cbn. lia. }
  unfold hart_ready, c. destruct (firmware cfg) as [path|]; [|auto].
  pose proof (firmware_location_range (IoSystem.memory (devices cfg)) ltac:(lia)) as Hl. split; [|split].
  - cbn [registers set_prv set_pc set_registers pc prv]. rewrite !(list_lookup_insert_ne _ 12) by lia. split; [exact R10|]. split; [exact R11|].
    split; [reflexivity|]. split; [reflexivity|]. apply list_lookup_insert_eq. rewrite (wf_len _ W1). lia.
  - apply wf_set_prv; [right; right; reflexivity|]. apply wf_set_pc; [unfold in_u; lia|]. apply wf_set_register; [lia|apply in_u_lit; reflexivity|exact W1].
  - exact Eh.
Qed.

(** C11. A system that is configured within its memory boots: the program does not panic; the
    segments of the kernel are where the ELF file puts them, relative to the start of memory,
    with zeroes past what is in the file; a reader of the blob behind the kernel gets the
    device tree; the firmware is past the memory; nothing outside the memory that is mapped is
    written.  Every hart starts at the kernel in supervisor mode, or at the firmware in
    machine mode with the kernel in [a2], with its number in [a0] and the blob in [a1]; and it
    is well typed then and along every run, with [x0] zero as long as no misaligned load into
    [x0] is emulated. *)
Theorem system_boots flags cfg file m io tree : let d := devices cfg in let dt := KERNEL_ADDR + kernel_size file in
  0 < IoSystem.core d <= 32 -> 0 <= IoSystem.memory d < 2 ^ 40 -> config_ok d ->
  IoSystem.io_system (IoSystem.core d) d = Some io -> IoSystem.device_tree (IoSystem.core d) d io = Some tree ->
  dumps flags (Fdt.encode tree) = true -> Forall (in_u 8) (Fdt.encode tree) -> usize_len (Fdt.encode tree) < 2 ^ 32 ->
  good_kernel file -> byte_mem m -> kernel_size file + usize_len (Fdt.encode tree) <= IoSystem.memory d * 0x100000 -> firmware_fits cfg ->
  exists st, start_system flags cfg file m = Done st /\
    kernel_at file (guest_mem st) /\ read_tree (read_bytes (guest_mem st) dt (usize_len (Fdt.encode tree))) = Some tree /\ firmware_at cfg (guest_mem st) /\
    (forall x, ~ KERNEL_ADDR <= x < phys_limit (IoSystem.memory d) (has_firmware cfg) -> guest_mem st x = m x) /\
    length (harts st) = Z.to_nat (IoSystem.core d) /\
    forall i, 0 <= i < IoSystem.core d -> exists c, harts st !! Z.to_nat i = Some c /\ hart_ready cfg dt i c /\
      forall W (P : Platform W) (C : Compiler W) (Laws : PlatformLaws W) (CL : CodeLaws W) code ics model (w : W) m',
        let start := first_machine (IoSystem.core d) c (guest_mem st) code ics model w in
        (rtc (hart_step true) start m' -> typed m') /\ (rtc (hart_step false) start m' -> wf m').
Proof.
  intros d dt Hcore Hmem Hcfg Hio Htree Hdump Hblob Hlen Hk Hm Hfit Hfw.
  assert (Hsize : 0 <= kernel_size file). { unfold good_kernel, kernel_size in *. destruct (is_elf file); [apply Hk|unfold usize_len; lia]. }
  assert (Hb0 : 0 <= usize_len (Fdt.encode tree)) by (unfold usize_len; lia).
  pose proof (firmware_location_range (IoSystem.memory d) ltac:(lia)) as Hloc.
  destruct (load_system_ok file (Fdt.encode tree) (dumps flags) (contexts (bool_decide (firmware cfg = None)) (IoSystem.core d)) m Hk Hm Hblob Hdump) as (m1 & E1 & K1 & R1 & B1 & O1);
    [unfold KERNEL_ADDR; lia|].
  match type of E1 with _ = Some (_, ?l) => destruct (start_firmware_ok cfg m1 l Hmem Hfw B1) as (m2 & E2 & F2 & B2 & O2); set (cs := l) in * end.
  assert (Hin : forall x, KERNEL_ADDR <= x < dt + usize_len (Fdt.encode tree) -> m2 x = m1 x) by (intros x Hx; apply O2; fold d; unfold KERNEL_ADDR in *; lia).
  eexists (MkStarted io m2 _). split; [|cbn [guest_mem harts]; split; [|split; [|split; [exact F2|split; [|split]]]]].
  - unfold start_system. fold d. rewrite (proj2 (Z.eqb_neq _ _)) by lia. rewrite Hio. cbn [after or_panic]. rewrite Htree. cbn [after or_panic].
    change (fun blob => match dump_fdt flags with Some path => write_file path blob | None => true end) with (dumps flags).
    rewrite E1. cbn [after or_panic]. rewrite E2. reflexivity.
  - apply kernel_at_ext with m1; [exact Hk| |exact K1]. intros x Hx. apply Hin. unfold dt. lia.
  - rewrite (read_same m1 m2) by (intros x Hx; apply Hin; unfold dt, KERNEL_ADDR in *; lia). unfold dt. rewrite R1. apply encode_reads; [|exact Hlen].
    apply good_system in Hio as G; [|exact Hcfg]. destruct (tree_ok (IoSystem.core d) d io tree ltac:(lia) (g_wf _ _ G) Htree) as [Hw _]. exact Hw.
  - intros x Hx. fold d in O2. rewrite O2, O1; [reflexivity| |]; revert Hx; unfold phys_limit, phys_size, KERNEL_ADDR in *; destruct (has_firmware cfg); lia.
  - pose proof (contexts_length (bool_decide (firmware cfg = None)) (IoSystem.core d) ltac:(lia)). unfold cs. destruct (firmware cfg); rewrite ?length_map; lia.
  - intros i Hi. destruct (booted_hart cfg i dt (IoSystem.core d) Hi ltac:(lia)) as (Hr & Hw & Eh); [unfold dt, in_u, KERNEL_ADDR; lia|exact Hmem|].
    cbv zeta in Hr, Hw, Eh. match type of Hw with wf_ctx ?x => exists x end. split; [|split; [exact Hr|]].
    + unfold cs. destruct (firmware cfg); rewrite !list_lookup_fmap, contexts_lookup by lia; reflexivity.
    + intros W P C Laws CL code ics model w m'. match goal with |- (rtc _ ?x _ -> _) /\ _ => set (s0 := x) end.
      assert (Hwf : wf s0) by (apply first_machine_wf; [exact Hw|rewrite Eh; exact Hi|exact B2]).
      assert (Hty : typed s0) by (exists x0_zero; exact Hwf). clearbody s0. clear - Hwf Hty Laws CL.
      split; intros Hs; [clear Hwf|clear Hty]; induction Hs; eauto using hart_step_wf, hart_step_typed.
Qed.

End Start.

(** ** A system that boots *)

(** A file of two segments, the second with three bytes that are not in the file *)
Definition elf_phdr (off vaddr filesz memsz : Z) : list Z :=
  to_le_bytes 4 1 ++ to_le_bytes 4 7 ++ to_le_bytes 8 off ++ to_le_bytes 8 vaddr ++ to_le_bytes 8 vaddr ++ to_le_bytes 8 filesz ++ to_le_bytes 8 memsz ++ to_le_bytes 8 4096.
Definition sample_elf : list Z :=
  [0x7F; 69; 76; 70; 2; 1; 1; 0; 0; 0; 0; 0; 0; 0; 0; 0] ++ to_le_bytes 2 2 ++ to_le_bytes 2 243 ++ to_le_bytes 4 1 ++ to_le_bytes 8 0x80000000 ++
  to_le_bytes 8 64 ++ to_le_bytes 8 0 ++ to_le_bytes 4 0 ++ to_le_bytes 2 64 ++ to_le_bytes 2 56 ++ to_le_bytes 2 2 ++ to_le_bytes 2 64 ++ to_le_bytes 2 0 ++ to_le_bytes 2 0 ++
  elf_phdr 176 0x80000000 4 4 ++ elf_phdr 180 0x80001000 2 5 ++ [0x13; 0x05; 0x50; 0x00; 7; 8].

Lemma sample_good : good_image sample_elf.
Proof.
  split; [apply words_lit; vm_compute; reflexivity|]. split; [|vm_compute; discriminate].
  assert (E : phdr sample_elf = [MkPhdr 1 7 176 0x80000000 4 4; MkPhdr 1 7 180 0x80001000 2 5]) by (vm_compute; reflexivity). rewrite E. split.
  - repeat (apply Forall_cons; split; [intros _; unfold seg_ok; cbn; lia|]). apply Forall_nil. exact I.
  - apply FOP_cons; [apply Forall_cons; split; [intros _ _; cbn; lia|apply Forall_nil; exact I]|]. apply FOP_cons; [apply Forall_nil; exact I|apply FOP_nil].
Qed.

#[local] Instance one_file : Files := {| open_loader _ := Some sample_elf; from_toml _ := None; write_file _ _ := true |}.
Definition boot_config : SystemConfig := MkSystem sample_config [107] (Some [102]).

Lemma boot_fits : firmware_fits boot_config.
Proof. intros path E. exists sample_elf. split; [reflexivity|]. split; [exact sample_good|]. vm_compute. discriminate. Qed.

Lemma system_boots_witness : exists st, start_system default_flags boot_config sample_elf (fun _ => 0) = Done st /\
  guest_mem st 0x40000000 = 0x13 /\ guest_mem st 0x40001001 = 8 /\ guest_mem st 0x44001000 = 7 /\
  read_tree (read_bytes (guest_mem st) 0x40002000 (usize_len (Fdt.encode sample_tree))) = Some sample_tree /\
  exists c, harts st !! 0%nat = Some c /\ pc c = 0x44000000 /\ registers c !! 11%nat = Some 0x40002000.
Proof.
  destruct (system_boots default_flags boot_config sample_elf (fun _ => 0) sample_system sample_tree) as (st & E & K & R & Fw & _ & _ & Hh).
  - cbn. lia.
  - cbn. lia.
  - exact (plain_ok _ sample_plain).
  - exact sample_set_up.
  - vm_compute. reflexivity.
  - reflexivity.
  - apply words_lit. vm_compute. reflexivity.
  - vm_compute. reflexivity.
  - exact sample_good.
  - intros a. apply in_u_lit. reflexivity.
  - vm_compute. discriminate.
  - exact boot_fits.
  - exists st. split; [exact E|]. change (image_at sample_elf KERNEL_ADDR (guest_mem st)) in K. specialize (Fw [102] sample_elf eq_refl eq_refl).
    assert (H1 : MkPhdr 1 7 176 0x80000000 4 4 ∈ phdr sample_elf) by (vm_compute; left).
    assert (H2 : MkPhdr 1 7 180 0x80001000 2 5 ∈ phdr sample_elf) by (vm_compute; right; left).
    split; [exact (K _ H1 I 0 ltac:(cbn; lia))|]. split; [exact (K _ H2 I 1 ltac:(cbn; lia))|]. split; [exact (Fw _ H2 I 0 ltac:(cbn; lia))|].
    split; [exact R|]. destruct (Hh 0 ltac:(cbn; lia)) as (c & Ec & (_ & R11 & Hpc & _) & _). exists c. split; [exact Ec|]. split; [exact Hpc|exact R11].
Defined.

(** ** Switching models *)

(** A line that no access hits, whatever the size of the lines *)
Definition cold (l : CacheLine) : Prop := forall model addr, in_u 64 addr -> tag l <> addr >> cache_line_size_log2 model /\ tag l >> 1 <> addr >> cache_line_size_log2 model.

Lemma invalidate_cold l : cold (invalidate l).
Proof.
  intros model addr Ha. cbn [invalidate tag]. change ((2 ^ 63 - 1) >> 1) with (2 ^ 62 - 1).
  assert (0 <= addr >> cache_line_size_log2 model < 2 ^ 58); [|lia].
  unfold in_u in Ha. destruct model; cbn [cache_line_size_log2]; rewrite Z.shiftr_div_pow2 by lia; Z.to_euclidean_division_equations; lia.
Qed.

(** Switching models sets the models and the way the harts are run, and leaves nothing that
    depends on the old ones: no L0 line can be hit and no translated block is found, and all
    harts look for interrupts; the architectural state is the same. *)
Theorem models_switch id now s s' : on_exit (SwitchModel id) now s = Done s' ->
  switch_model id = Some (memory_model s', pipeline_model s') /\ model_id (run_flags s') = id /\
  thread (run_flags s') = negb (require_lockstep (memory_model s')) /\ ctxs s' = ctxs s /\ length (shareds s') = length (shareds s) /\
  Forall (fun h => Forall cold (line h) /\ Forall cold (i_line h) /\ Z.testbit (alarm h) 0 = true) (shareds s') /\
  Forall (fun ic => HartState.u_map ic = ∅ /\ HartState.s_map ic = ∅ /\ HartState.m_map ic = ∅) (caches s').
Proof.
  cbn [on_exit]. unfold set_model. destruct (switch_model id) as [[mm pm]|] eqn:E; [|discriminate]. cbn [after or_panic]. intros E'. injection E' as <-.
  cbn [memory_model pipeline_model run_flags ctxs shareds caches]. split; [reflexivity|]. split; [reflexivity|]. split; [reflexivity|]. split; [reflexivity|].
  split; [rewrite !length_map; reflexivity|]. split.
  - apply Forall_map, Forall_map, Forall_forall. intros h _. cbn [alert fire_alarm clear_local_icache clear_local_cache line i_line alarm set_alarm set_line set_i_line]. split; [apply Forall_map, Forall_forall; intros l _; apply invalidate_cold|].
    split; [apply Forall_map, Forall_forall; intros l _; apply invalidate_cold|]. rewrite Z.lor_spec. apply orb_true_r.
  - unfold icache_reset. apply Forall_map, Forall_forall. intros ic _. cbn. auto.
Qed.
