(* ===== verification/Syscall.v ===== *)
(** The system calls of user programs (src/emu/syscall.rs with the numbers and structures of
    src/emu/abi.rs): the translation of error numbers, flags, structures and paths between
    guest and host, the program break, and the dispatch.  The calls of the host's libc are an
    interface; the log of [--strace] goes to the terminal and is left out, but for the way it
    prints strings. *)

From Stdlib Require Import ZArith Lia Bool List String Ascii.
From stdpp Require Import base list.
From S2P Require Import Prelude Loader.
From S2P Require P9 IoSystem VirtioQueue.
Import ListNotations.
Local Open Scope string_scope.
Local Open Scope list_scope.
Local Open Scope Z_scope.
Local Open Scope rust_scope.

Module Syscall.
Import IoSystem.IoSystem (text).
Import Loader (usize_len, byte, memcpy, memset, PROT_READ, PROT_WRITE).

(** ** Printing strings *)

(** [char::is_ascii_control], and [{:02x}] *)
Definition is_ascii_control (c : Z) : bool := (c <? 32) || (c =? 127).
Definition hex2 (c : Z) : list Z := [IoSystem.IoSystem.hex_digit (c / 16); IoSystem.IoSystem.hex_digit (c mod 16)].

Definition plain (c : Z) : bool := (c <=? 0x7F) && ((c <>? 34) && (c <>? 92) && negb (is_ascii_control c)).

(** What is written for a byte that is not copied *)
Definition escape_byte (c : Z) : list Z :=
  92 :: (if (c =? 34) || (c =? 92) then [c] else if c =? 10 then [110] else if c =? 9 then [116] else hex2 c).

(** The loop of [Escape::fmt]: [l] from [i] on, [run] the bytes since [start] in reverse *)
Fixpoint escape_loop (l run : list Z) : list Z :=
  match l with
  | [] => rev run
  | c :: l => if plain c then escape_loop l (c :: run) else rev run ++ escape_byte c ++ escape_loop l []
  end.

Definition escape (s : list Z) : list Z :=
  [34] ++ escape_loop (take (Nat.min (length s) 64) s) [] ++ [34] ++ (if 64 <? usize_len s then [46; 46; 46] else []).

(** ** Error numbers *)

Inductive Errno : Type :=
| EPERM | ENOENT | ESRCH | EINTR | EIO | ENXIO | E2BIG | ENOEXEC | EBADF | ECHILD | EAGAIN | ENOMEM | EACCES | EFAULT | ENOTBLK | EBUSY | EEXIST
| EXDEV | ENODEV | ENOTDIR | EISDIR | EINVAL | ENFILE | EMFILE | ENOTTY | ETXTBSY | EFBIG | ENOSPC | ESPIPE | EROFS | EMLINK | EPIPE | EDOM | ERANGE
| EDEADLK | ENAMETOOLONG | ENOLCK | ENOSYS | ENOTEMPTY | ELOOP | EWOULDBLOCK | ENOMSG | EIDRM | ECHRNG | EL2NSYNC | EL3HLT | EL3RST | ELNRNG
| EUNATCH | ENOCSI | EL2HLT | EBADE | EBADR | EXFULL | ENOANO | EBADRQC | EBADSLT | EDEADLOCK | EBFONT | ENOSTR | ENODATA | ETIME | ENOSR | ENONET
| ENOPKG | EREMOTE | ENOLINK | EADV | ESRMNT | ECOMM | EPROTO | EMULTIHOP | EDOTDOT | EBADMSG | EOVERFLOW | ENOTUNIQ | EBADFD | EREMCHG | ELIBACC
| ELIBBAD | ELIBSCN | ELIBMAX | ELIBEXEC | EILSEQ | ERESTART | ESTRPIPE | EUSERS | ENOTSOCK | EDESTADDRREQ | EMSGSIZE | EPROTOTYPE | ENOPROTOOPT
| EPROTONOSUPPORT | ESOCKTNOSUPPORT | EOPNOTSUPP | EPFNOSUPPORT | EAFNOSUPPORT | EADDRINUSE | EADDRNOTAVAIL | ENETDOWN | ENETUNREACH | ENETRESET
| ECONNABORTED | ECONNRESET | ENOBUFS | EISCONN | ENOTCONN | ESHUTDOWN | ETOOMANYREFS | ETIMEDOUT | ECONNREFUSED | EHOSTDOWN | EHOSTUNREACH
| EALREADY | EINPROGRESS | ESTALE | EUCLEAN | ENOTNAM | ENAVAIL | EISNAM | EREMOTEIO | EDQUOT | ENOMEDIUM | EMEDIUMTYPE | ECANCELED | ENOKEY
| EKEYEXPIRED | EKEYREVOKED | EKEYREJECTED | EOWNERDEAD | ENOTRECOVERABLE | ERFKILL | EHWPOISON | ENOTSUP.

(** The constants of src/emu/abi.rs *)
Definition abi_errno (e : Errno) : Z :=
  match e with
  | EPERM => 1 | ENOENT => 2 | ESRCH => 3 | EINTR => 4 | EIO => 5 | ENXIO => 6 | E2BIG => 7 | ENOEXEC => 8 | EBADF => 9 | ECHILD => 10 | EAGAIN => 11
  | ENOMEM => 12 | EACCES => 13 | EFAULT => 14 | ENOTBLK => 15 | EBUSY => 16 | EEXIST => 17 | EXDEV => 18 | ENODEV => 19 | ENOTDIR => 20
  | EISDIR => 21 | EINVAL => 22 | ENFILE => 23 | EMFILE => 24 | ENOTTY => 25 | ETXTBSY => 26 | EFBIG => 27 | ENOSPC => 28 | ESPIPE => 29
  | EROFS => 30 | EMLINK => 31 | EPIPE => 32 | EDOM => 33 | ERANGE => 34 | EDEADLK => 35 | ENAMETOOLONG => 36 | ENOLCK => 37 | ENOSYS => 38
  | ENOTEMPTY => 39 | ELOOP => 40 | EWOULDBLOCK => 11 | ENOMSG => 42 | EIDRM => 43 | ECHRNG => 44 | EL2NSYNC => 45 | EL3HLT => 46 | EL3RST => 47
  | ELNRNG => 48 | EUNATCH => 49 | ENOCSI => 50 | EL2HLT => 51 | EBADE => 52 | EBADR => 53 | EXFULL => 54 | ENOANO => 55 | EBADRQC => 56
  | EBADSLT => 57 | EDEADLOCK => 35 | EBFONT => 59 | ENOSTR => 60 | ENODATA => 61 | ETIME => 62 | ENOSR => 63 | ENONET => 64 | ENOPKG => 65
  | EREMOTE => 66 | ENOLINK => 67 | EADV => 68 | ESRMNT => 69 | ECOMM => 70 | EPROTO => 71 | EMULTIHOP => 72 | EDOTDOT => 73 | EBADMSG => 74
  | EOVERFLOW => 75 | ENOTUNIQ => 76 | EBADFD => 77 | EREMCHG => 78 | ELIBACC => 79 | ELIBBAD => 80 | ELIBSCN => 81 | ELIBMAX => 82 | ELIBEXEC => 83
  | EILSEQ => 84 | ERESTART => 85 | ESTRPIPE => 86 | EUSERS => 87 | ENOTSOCK => 88 | EDESTADDRREQ => 89 | EMSGSIZE => 90 | EPROTOTYPE => 91
  | ENOPROTOOPT => 92 | EPROTONOSUPPORT => 93 | ESOCKTNOSUPPORT => 94 | EOPNOTSUPP => 95 | EPFNOSUPPORT => 96 | EAFNOSUPPORT => 97 | EADDRINUSE => 98
  | EADDRNOTAVAIL => 99 | ENETDOWN => 100 | ENETUNREACH => 101 | ENETRESET => 102 | ECONNABORTED => 103 | ECONNRESET => 104 | ENOBUFS => 105
  | EISCONN => 106 | ENOTCONN => 107 | ESHUTDOWN => 108 | ETOOMANYREFS => 109 | ETIMEDOUT => 110 | ECONNREFUSED => 111 | EHOSTDOWN => 112
  | EHOSTUNREACH => 113 | EALREADY => 114 | EINPROGRESS => 115 | ESTALE => 116 | EUCLEAN => 117 | ENOTNAM => 118 | ENAVAIL => 119 | EISNAM => 120
  | EREMOTEIO => 121 | EDQUOT => 122 | ENOMEDIUM => 123 | EMEDIUMTYPE => 124 | ECANCELED => 125 | ENOKEY => 126 | EKEYEXPIRED => 127
  | EKEYREVOKED => 128 | EKEYREJECTED => 129 | EOWNERDEAD => 130 | ENOTRECOVERABLE => 131 | ERFKILL => 131 | EHWPOISON => 133 | ENOTSUP => 95
  end.

(** The order of the [match] *)
Definition errnos : list Errno :=
  [EPERM; ENOENT; ESRCH; EINTR; EIO; ENXIO; E2BIG; ENOEXEC; EBADF; ECHILD; EAGAIN; ENOMEM; EACCES; EFAULT; ENOTBLK; EBUSY; EEXIST; EXDEV; ENODEV;
   ENOTDIR; EISDIR; EINVAL; ENFILE; EMFILE; ENOTTY; ETXTBSY; EFBIG; ENOSPC; ESPIPE; EROFS; EMLINK; EPIPE; EDOM; ERANGE; EDEADLK; ENAMETOOLONG;
   ENOLCK; ENOSYS; ENOTEMPTY; ELOOP; EWOULDBLOCK; ENOMSG; EIDRM; ECHRNG; EL2NSYNC; EL3HLT; EL3RST; ELNRNG; EUNATCH; ENOCSI; EL2HLT; EBADE; EBADR;
   EXFULL; ENOANO; EBADRQC; EBADSLT; EDEADLOCK; EBFONT; ENOSTR; ENODATA; ETIME; ENOSR; ENONET; ENOPKG; EREMOTE; ENOLINK; EADV; ESRMNT; ECOMM; EPROTO;
   EMULTIHOP; EDOTDOT; EBADMSG; EOVERFLOW; ENOTUNIQ; EBADFD; EREMCHG; ELIBACC; ELIBBAD; ELIBSCN; ELIBMAX; ELIBEXEC; EILSEQ; ERESTART; ESTRPIPE;
   EUSERS; ENOTSOCK; EDESTADDRREQ; EMSGSIZE; EPROTOTYPE; ENOPROTOOPT; EPROTONOSUPPORT; ESOCKTNOSUPPORT; EOPNOTSUPP; EPFNOSUPPORT; EAFNOSUPPORT;
   EADDRINUSE; EADDRNOTAVAIL; ENETDOWN; ENETUNREACH; ENETRESET; ECONNABORTED; ECONNRESET; ENOBUFS; EISCONN; ENOTCONN; ESHUTDOWN; ETOOMANYREFS;
   ETIMEDOUT; ECONNREFUSED; EHOSTDOWN; EHOSTUNREACH; EALREADY; EINPROGRESS; ESTALE; EUCLEAN; ENOTNAM; ENAVAIL; EISNAM; EREMOTEIO; EDQUOT; ENOMEDIUM;
   EMEDIUMTYPE; ECANCELED; ENOKEY; EKEYEXPIRED; EKEYREVOKED; EKEYREJECTED; EOWNERDEAD; ENOTRECOVERABLE; ERFKILL; EHWPOISON; ENOTSUP].

(** ** Flags and structures *)

Section Convert.
Context (libc_errno : Errno -> Z).

(** [convert_errno_from_host] *)
Definition convert_errno_from_host (number : Z) : Z :=
  match List.find (fun e => libc_errno e =? number) errnos with
  | Some e => abi_errno e
  | None => abi_errno ENOSYS
  end.

End Convert.

(** The flags of [open] of the host *)
Definition O_WRONLY : Z := 1.
Definition O_RDWR : Z := 2.
Definition O_CREAT : Z := 0x40.
Definition O_EXCL : Z := 0x80.
Definition O_TRUNC : Z := 0x200.
Definition O_APPEND : Z := 0x400.
Definition O_NONBLOCK : Z := 0x800.
Definition O_SYNC : Z := 0x101000.

Definition convert_open_flags_to_host (flags : Z) : Z :=
  let ret := 0 in
  let ret := if (flags .& 1) <>? 0 then ret .| O_WRONLY else ret in
  let ret := if (flags .& 2) <>? 0 then ret .| O_RDWR else ret in
  let ret := if (flags .& 0x40) <>? 0 then ret .| O_CREAT else ret in
  let ret := if (flags .& 0x80) <>? 0 then ret .| O_EXCL else ret in
  let ret := if (flags .& 0x200) <>? 0 then ret .| O_TRUNC else ret in
  let ret := if (flags .& 0x400) <>? 0 then ret .| O_APPEND else ret in
  let ret := if (flags .& 0x800) <>? 0 then ret .| O_NONBLOCK else ret in
  if (flags .& 0x101000) <>? 0 then ret .| O_SYNC else ret.

Definition ABI_PROT_READ : Z := 1.
Definition ABI_PROT_WRITE : Z := 2.
Definition ABI_PROT_EXEC : Z := 4.
Definition ABI_MAP_SHARED : Z := 1.
Definition ABI_MAP_PRIVATE : Z := 2.
Definition ABI_MAP_FIXED : Z := 0x10.
Definition ABI_MAP_ANON : Z := 0x20.

(** The same of the host *)
Definition MAP_SHARED : Z := 1.
Definition MAP_PRIVATE : Z := 2.
Definition MAP_FIXED : Z := 0x10.
Definition MAP_ANON : Z := 0x20.

Definition convert_mmap_prot_to_host (prot : Z) : Z :=
  let ret := 0 in
  let ret := if (prot .& ABI_PROT_READ) <>? 0 then ret .| PROT_READ else ret in
  let ret := if (prot .& ABI_PROT_WRITE) <>? 0 then ret .| PROT_WRITE else ret in
  if (prot .& ABI_PROT_EXEC) <>? 0 then ret .| PROT_READ else ret.

Definition convert_mmap_flags_to_host (flags : Z) : Z :=
  let ret := 0 in
  let ret := if (flags .& ABI_MAP_SHARED) <>? 0 then ret .| MAP_SHARED else ret in
  let ret := if (flags .& ABI_MAP_PRIVATE) <>? 0 then ret .| MAP_PRIVATE else ret in
  let ret := if (flags .& ABI_MAP_FIXED) <>? 0 then ret .| MAP_FIXED else ret in
  if (flags .& ABI_MAP_ANON) <>? 0 then ret .| MAP_ANON else ret.

(** [libc::stat] of the host *)
Record Stat : Type := MkStat {
  st_dev : Z; st_ino : Z; st_mode : Z; st_nlink : Z; st_uid : Z; st_gid : Z; st_rdev : Z; st_size : Z; st_blksize : Z; st_blocks : Z;
  st_atime : Z; st_atime_nsec : Z; st_mtime : Z; st_mtime_nsec : Z; st_ctime : Z; st_ctime_nsec : Z }.

(** A field of [n] bytes at an offset *)
Definition put (p off : Z) (n : nat) (v : Z) (m : Z -> Z) : Z -> Z := memcpy (p + off) (VirtioQueue.to_le_bytes n v) m.

(** [convert_stat_from_host], into the [abi::stat] at [p]: the paddings keep their bytes. *)
Definition convert_stat_from_host (p : Z) (h : Stat) (m : Z -> Z) : Z -> Z :=
  let m := put p 0 8 (st_dev h) m in
  let m := put p 8 8 (st_ino h) m in
  let m := put p 16 4 (st_mode h) m in
  let m := put p 20 4 (u32 (st_nlink h)) m in
  let m := put p 24 4 (st_uid h) m in
  let m := put p 28 4 (st_gid h) m in
  let m := put p 32 8 (st_rdev h) m in
  let m := put p 48 8 (st_size h) m in
  let m := put p 64 8 (st_blocks h) m in
  let m := put p 56 4 (u32 (st_blksize h)) m in
  let m := put p 72 8 (st_atime h) m in
  let m := put p 80 8 (st_atime_nsec h) m in
  let m := put p 88 8 (st_mtime h) m in
  let m := put p 96 8 (st_mtime_nsec h) m in
  let m := put p 104 8 (st_ctime h) m in
  put p 112 8 (st_ctime_nsec h) m.

Record Iovec : Type := MkIovec { iov_base : Z; iov_len : Z }.

Definition get (m : Z -> Z) (p : Z) (n : nat) : Z := VirtioQueue.from_le_bytes (map (fun i => m (p + Z.of_nat i)) (seq 0 n)).

(** [from_raw_parts] of [abi::iovec], with [convert_iovec_to_host] *)
Definition iovecs (m : Z -> Z) (p n : Z) : list Iovec := map (fun i => MkIovec (get m (p + 16 * i) 8) (get m (p + 16 * i + 8) 8)) (seqZ 0 n).

(** ** Paths *)

(** [std::path]: the separators and the components [.] at the start of the rest of a path,
    and at its end *)
Fixpoint drop_seps (l : list Z) : list Z :=
  match l with
  | 47 :: l => drop_seps l
  | 46 :: (47 :: l) => drop_seps l
  | [46] => []
  | _ => l
  end.
Definition trim (l : list Z) : list Z := rev (drop_seps (rev (drop_seps l))).

Fixpoint span_comp (l : list Z) : list Z * list Z :=
  match l with
  | [] => ([], [])
  | c :: l' => if c =? 47 then ([], l) else let (a, b) := span_comp l' in (c :: a, b)
  end.

Definition is_relative (p : list Z) : bool := match p with 47 :: _ => false | _ => true end.

(** [strip_prefix] of the root, and of one component *)
Definition strip_root (p : list Z) : option (list Z) := if is_relative p then None else Some (trim p).
Definition strip_comp (c p : list Z) : option (list Z) :=
  let (first, rest) := span_comp p in if bool_decide (first = c) then Some (trim rest) else None.

(** [{}] of an unsigned number, which has at most 20 digits *)
Fixpoint dec_digits (fuel : nat) (n : Z) : list Z :=
  match fuel with O => [] | S fuel => if n <? 10 then [48 + n] else dec_digits fuel (n / 10) ++ [48 + n mod 10] end.
Definition dec (n : Z) : list Z := dec_digits 20 n.

Definition is_proc_self (pid : Z) (path : list Z) : option (list Z) :=
  if P9.P9.is_utf8 path then
    let? p := strip_root path in
    let? p := strip_comp (text "proc") p in
    match strip_comp (text "self") p with
    | Some v => Some v
    | None => strip_comp (dec pid) p
    end
  else None.

(** [Path::join] with a path that is not absolute *)
Definition join (a b : list Z) : list Z := a ++ (match last a with Some c => if c =? 47 then [] else [47] | None => [] end) ++ b.

(** ** The host *)

(** [S] is the state of the process and of the kernel below it.  [mem] is the memory of the
    process; a call returns what the function of libc returns, [-1] for an error with the
    number in [errno], and paths are given as their bytes. *)
Class Libc (S : Type) : Type := {
  libc_errno : Errno -> Z;
  AT_FDCWD : Z;
  mem : S -> Z -> Z;
  set_mem : (Z -> Z) -> S -> S;
  errno : S -> Z;
  path_exists : list Z -> S -> bool;
  realpath : list Z -> S -> option (list Z) * S;
  libc_getcwd : Z -> Z -> S -> bool * S;
  libc_unlinkat : Z -> list Z -> Z -> S -> Z * S;
  libc_faccessat : Z -> list Z -> Z -> Z -> S -> Z * S;
  libc_openat : Z -> list Z -> Z -> Z -> S -> Z * S;
  libc_close : Z -> S -> Z * S;
  libc_lseek : Z -> Z -> Z -> S -> Z * S;
  libc_read : Z -> Z -> Z -> S -> Z * S;
  libc_write : Z -> Z -> Z -> S -> Z * S;
  libc_writev : Z -> list Iovec -> Z -> S -> Z * S;
  libc_readlinkat : Z -> list Z -> Z -> Z -> S -> Z * S;
  libc_fstatat : Z -> list Z -> Z -> S -> Z * Stat * S;
  libc_fstat : Z -> S -> Z * Stat * S;
  libc_stat : list Z -> S -> Z * Stat * S;
  libc_uname : Z -> S -> Z * S;
  libc_mmap : Z -> Z -> Z -> Z -> Z -> Z -> S -> Z * S;
  libc_munmap : Z -> Z -> S -> Z * S;
  libc_mprotect : Z -> Z -> Z -> S -> Z * S;
  libc_open : list Z -> Z -> Z -> S -> Z * S;
  libc_unlink : list Z -> S -> Z * S;
  getpid : Z; getppid : Z; getuid : Z; geteuid : Z; getgid : Z; getegid : Z;
  (** [*EPOCH + event_loop().time()], in microseconds *)
  time : S -> Z;
  (** [crate::shutdown(ExitReason::Exit(code))] *)
  shutdown : Z -> S -> S;
  (** [get_flags()] *)
  exec_path : list Z;
  sysroot : list Z;
  (** A bound on the strings the program passes; a longer one is taken as having no end. *)
  string_limit : nat;
}.

(** ** The program break *)

(** [ORIGINAL_BRK], [BRK], [HEAP_START] and [HEAP_END] *)
Record Heap : Type := MkHeap { original_brk : Z; brk : Z; heap_start : Z; heap_end : Z }.

Definition init_brk (b : Z) : Heap := MkHeap b b b b.

(** ** The calls *)

Definition ABI_AT_FDCWD : Z := -100.

Definition SYS_getcwd : Z := 17.
Definition SYS_unlinkat : Z := 35.
Definition SYS_faccessat : Z := 48.
Definition SYS_openat : Z := 56.
Definition SYS_close : Z := 57.
Definition SYS_lseek : Z := 62.
Definition SYS_read : Z := 63.
Definition SYS_write : Z := 64.
Definition SYS_writev : Z := 66.
Definition SYS_readlinkat : Z := 78.
Definition SYS_fstatat : Z := 79.
Definition SYS_fstat : Z := 80.
Definition SYS_exit : Z := 93.
Definition SYS_exit_group : Z := 94.
Definition SYS_uname : Z := 160.
Definition SYS_gettimeofday : Z := 169.
Definition SYS_getpid : Z := 172.
Definition SYS_getppid : Z := 173.
Definition SYS_getuid : Z := 174.
Definition SYS_geteuid : Z := 175.
Definition SYS_getgid : Z := 176.
Definition SYS_getegid : Z := 177.
Definition SYS_brk : Z := 214.
Definition SYS_munmap : Z := 215.
Definition SYS_mremap : Z := 216.
Definition SYS_mmap : Z := 222.
Definition SYS_mprotect : Z := 226.
Definition SYS_open : Z := 1024.
Definition SYS_unlink : Z := 1026.
Definition SYS_stat : Z := 1038.

Section Calls.
Context {S : Type} {H : Libc S}.

(** [return_errno] *)
Definition return_errno (r : Z * S) : Z * S :=
  let (val, s) := r in if val <>? -1 then (val, s) else (- convert_errno_from_host libc_errno (errno s), s).

(** [CStr::from_ptr] *)
Fixpoint cstr_loop (fuel : nat) (m : Z -> Z) (p : Z) : option (list Z) :=
  match fuel with
  | O => None
  | Datatypes.S fuel => if m p =? 0 then Some [] else let? l := cstr_loop fuel m (p + 1) in Some (m p :: l)
  end.
Definition cstr (p : Z) (s : S) : option (list Z) := cstr_loop string_limit (mem s) p.

Definition translate_path (path : list Z) (s : S) : list Z :=
  match strip_root path with
  | None => path
  | Some rest => let newpath := join sysroot rest in if path_exists newpath s then newpath else path
  end.

Definition translate_path_cstr (pathname : list Z) (s : S) : list Z :=
  if P9.P9.is_utf8 pathname then translate_path pathname s else pathname.

Definition dirfd (arg0 : Z) : Z := if i32 arg0 =? ABI_AT_FDCWD then AT_FDCWD else i32 arg0.

Definition modify (f : (Z -> Z) -> Z -> Z) (s : S) : S := set_mem (f (mem s)) s.

(** The three calls that return a [stat] *)
Definition store_stat (p : Z) (r : Z * Stat * S) : Z * S :=
  let '(v, h, s) := r in
  let (ret, s) := return_errno (v, s) in
  (ret, if ret =? 0 then modify (convert_stat_from_host p h) s else s).

Definition sys_brk (arg0 : Z) (h : Heap) (s : S) : Z * Heap * S :=
  let '(h, s) :=
    if arg0 <? original_brk h then (h, s)
    else if arg0 <=? heap_end h then
      let s := if brk h <? arg0 then modify (memset (brk h) 0 (arg0 - brk h)) s else s in
      (MkHeap (original_brk h) arg0 (heap_start h) (heap_end h), s)
    else
      let new_heap_end := Z.max (heap_start h) (u64 (arg0 + 4095) .& Z.lnot 4095) in
      let '(addr, s) := libc_mmap (heap_end h) (u64 (new_heap_end - heap_end h)) (PROT_READ .| PROT_WRITE) (MAP_PRIVATE .| MAP_ANON .| MAP_FIXED) (-1) 0 s in
      if addr =? -1 then (h, s)
      else (MkHeap (original_brk h) arg0 (heap_start h) new_heap_end, modify (memset (brk h) 0 (heap_end h - brk h)) s) in
  (brk h, h, s).

(** [strncpy] *)
Definition strncpy (dst : Z) (l : list Z) (n : Z) (m : Z -> Z) : Z -> Z :=
  memcpy dst (take (Z.to_nat n) l ++ replicate (Z.to_nat n - length l) 0) m.

Definition sys_readlinkat (arg0 arg1 arg2 arg3 : Z) (s : S) : option (Z * S) :=
  let? pathname := cstr arg1 s in
  if bool_decide (is_proc_self getpid pathname = Some (text "exe")) then
    match realpath exec_path s with
    | (None, s) => Some (return_errno (-1, s))
    | (Some path, s) => Some (usize_len path, modify (strncpy arg2 path arg3) s)
    end
  else Some (return_errno (libc_readlinkat (dirfd arg0) (translate_path_cstr pathname s) arg2 arg3 s)).

Definition sys_openat (arg0 arg1 arg2 : Z) (s : S) : option (Z * S) :=
  let arg3 := u32 (i32 arg0) in
  let? pathname := cstr arg1 s in
  let flags := convert_open_flags_to_host (i32 arg2) in
  if bool_decide (is_proc_self getpid pathname = Some (text "exe")) then Some (libc_openat (dirfd arg0) exec_path flags arg3 s)
  else Some (return_errno (libc_openat (dirfd arg0) (translate_path_cstr pathname s) flags arg3 s)).

(** The arms of the dispatch that do not touch the break, in their order; [other] is what the
    arms that follow do. *)

(** Names in directories *)
Definition path_call (nr arg0 arg1 arg2 arg3 arg4 arg5 : Z) (s : S) (other : option (Z * S)) : option (Z * S) :=
  if nr =? SYS_getcwd then let (ok, s) := libc_getcwd arg0 arg1 s in Some (if ok then 0 else - abi_errno EINVAL, s)
  else if nr =? SYS_unlinkat then
    let? pathname := cstr arg1 s in Some (return_errno (libc_unlinkat (dirfd arg0) (translate_path_cstr pathname s) (i32 arg2) s))
  else if nr =? SYS_faccessat then
    let? pathname := cstr arg1 s in Some (return_errno (libc_faccessat (dirfd arg0) (translate_path_cstr pathname s) (i32 arg2) (i32 arg3) s))
  else if nr =? SYS_openat then sys_openat arg0 arg1 arg2 s
  else other.

(** Open files *)
Definition fd_call (nr arg0 arg1 arg2 arg3 arg4 arg5 : Z) (s : S) (other : option (Z * S)) : option (Z * S) :=
  if nr =? SYS_close then Some (if arg0 <=? 2 then (0, s) else return_errno (libc_close (i32 arg0) s))
  else if nr =? SYS_lseek then Some (return_errno (libc_lseek (i32 arg0) (i64 arg1) (i32 arg2) s))
  else if nr =? SYS_read then Some (return_errno (libc_read (i32 arg0) arg1 arg2 s))
  else if nr =? SYS_write then Some (return_errno (libc_write (i32 arg0) arg1 arg2 s))
  else if nr =? SYS_writev then Some (return_errno (libc_writev (i32 arg0) (iovecs (mem s) arg1 arg2) (i32 arg2) s))
  else other.

(** Links and attributes *)
Definition stat_call (nr arg0 arg1 arg2 arg3 arg4 arg5 : Z) (s : S) (other : option (Z * S)) : option (Z * S) :=
  if nr =? SYS_readlinkat then sys_readlinkat arg0 arg1 arg2 arg3 s
  else if nr =? SYS_fstatat then
    let? pathname := cstr arg1 s in Some (store_stat arg2 (libc_fstatat (dirfd arg0) (translate_path_cstr pathname s) (i32 arg3) s))
  else if nr =? SYS_fstat then Some (store_stat arg1 (libc_fstat (i32 arg0) s))
  else other.

(** The process *)
Definition process_call (nr arg0 arg1 arg2 arg3 arg4 arg5 : Z) (s : S) (other : option (Z * S)) : option (Z * S) :=
  if (nr =? SYS_exit) || (nr =? SYS_exit_group) then Some (0, shutdown (i32 arg0) s)
  else if nr =? SYS_uname then Some (return_errno (libc_uname arg0 s))
  else if nr =? SYS_gettimeofday then
    Some (0, modify (fun m => put arg0 8 8 (time s mod 1000000) (put arg0 0 8 (time s / 1000000) m)) s)
  else if nr =? SYS_getpid then Some (getpid, s)
  else if nr =? SYS_getppid then Some (getppid, s)
  else if nr =? SYS_getuid then Some (getuid, s)
  else if nr =? SYS_geteuid then Some (geteuid, s)
  else if nr =? SYS_getgid then Some (getgid, s)
  else if nr =? SYS_getegid then Some (getegid, s)
  else other.

(** The address space, less the break *)
Definition memory_call (nr arg0 arg1 arg2 arg3 arg4 arg5 : Z) (s : S) (other : option (Z * S)) : option (Z * S) :=
  if nr =? SYS_munmap then Some (return_errno (libc_munmap arg0 arg1 s))
  else if nr =? SYS_mremap then Some (- abi_errno ENOSYS, s)
  else if nr =? SYS_mmap then
    Some (return_errno (libc_mmap arg0 arg1 (convert_mmap_prot_to_host (i32 arg2)) (convert_mmap_flags_to_host (i32 arg3)) (i32 arg4) (i64 arg5) s))
  else if nr =? SYS_mprotect then Some (return_errno (libc_mprotect arg0 arg1 (convert_mmap_prot_to_host (i32 arg2)) s))
  else other.

(** The calls that newer kernels do not have *)
Definition legacy_call (nr arg0 arg1 arg2 arg3 arg4 arg5 : Z) (s : S) (other : option (Z * S)) : option (Z * S) :=
  if nr =? SYS_open then
    let? pathname := cstr arg0 s in
    Some (return_errno (libc_open (translate_path_cstr pathname s) (convert_open_flags_to_host (i32 arg1)) (u32 arg2) s))
  else if nr =? SYS_unlink then let? pathname := cstr arg0 s in Some (return_errno (libc_unlink (translate_path_cstr pathname s) s))
  else if nr =? SYS_stat then let? pathname := cstr arg0 s in Some (store_stat arg1 (libc_stat (translate_path_cstr pathname s) s))
  else other.

Definition simple_call (nr arg0 arg1 arg2 arg3 arg4 arg5 : Z) (s : S) : option (Z * S) :=
  path_call nr arg0 arg1 arg2 arg3 arg4 arg5 s (fd_call nr arg0 arg1 arg2 arg3 arg4 arg5 s (stat_call nr arg0 arg1 arg2 arg3 arg4 arg5 s (process_call nr arg0 arg1 arg2 arg3 arg4 arg5 s
    (memory_call nr arg0 arg1 arg2 arg3 arg4 arg5 s (legacy_call nr arg0 arg1 arg2 arg3 arg4 arg5 s (Some (- abi_errno ENOSYS, s))))))).

(** [syscall] *)
Definition syscall (nr arg0 arg1 arg2 arg3 arg4 arg5 : Z) (h : Heap) (s : S) : option (Z * Heap * S) :=
  let? (ret, h, s) :=
    if i64 nr =? SYS_brk then let '(v, h, s) := sys_brk arg0 h s in Some (i64 v, h, s)
    else let? (ret, s) := simple_call (i64 nr) arg0 arg1 arg2 arg3 arg4 arg5 s in Some (ret, h, s) in
  Some (u64 ret, h, s).

End Calls.

End Syscall.

(** * Properties

    The system calls keep the promises of the kernel they stand for: the heap grows and
    shrinks as brk(2) says, error numbers are those of the guest, a [stat] reads back as the
    host filled it, and a logged string can be read back. *)

From Stdlib Require Import ZArith Lia Bool List String Ascii.
From stdpp Require Import base list.
From S2P Require Import Prelude Loader LoaderProps.
From S2P Require VirtioQueue VirtioQueueProps IoSystem.
Import ListNotations.
Local Open Scope Z_scope.
Local Open Scope rust_scope.
Import Loader (usize_len, memcpy, memset).
Import Syscall.

(** ** The heap *)

(** What mmap(2) documents of a private anonymous mapping at a fixed address: it fails and
    changes nothing, or the range is zero and nothing else has changed; an empty range, or
    one that does not fit the address space of a process, fails. *)
Class HeapLaws (S : Type) {H : Libc S} : Type := {
  mem_set_mem m s : mem (set_mem m s) = m;
  mmap_fails a n p s r s' : libc_mmap a n p (MAP_PRIVATE .| MAP_ANON .| MAP_FIXED) (-1) 0 s = (r, s') -> r = -1 -> mem s' = mem s;
  mmap_zeroes a n p s r s' x : libc_mmap a n p (MAP_PRIVATE .| MAP_ANON .| MAP_FIXED) (-1) 0 s = (r, s') -> r <> -1 ->
    r = a /\ 0 < n /\ a + n <= 2 ^ 47 /\ mem s' x = if (a <=? x) && (x <? a + n) then 0 else mem s x;
}.

(** The break is in the heap, which ends at a page. *)
Definition heap_ok (h : Heap) : Prop :=
  0 <= original_brk h <= brk h /\ brk h <= heap_end h <= 2 ^ 47 /\ heap_start h = original_brk h /\ heap_end h mod 4096 = 0.

Section Brk.
Context {S : Type} {H : Libc S} {L : HeapLaws S}.

Lemma memset_range a n m x : memset a 0 n m x = if (a <=? x) && (x <? a + n) then 0 else m x.
Proof. reflexivity. Qed.

Lemma heap_expand h arg0 s r s' : heap_ok h -> heap_end h < arg0 < 2 ^ 64 ->
  libc_mmap (heap_end h) (u64 (Z.max (heap_start h) (u64 (arg0 + 4095) .& Z.lnot 4095) - heap_end h)) (Loader.PROT_READ .| Loader.PROT_WRITE)
    (MAP_PRIVATE .| MAP_ANON .| MAP_FIXED) (-1) 0 s = (r, s') -> r <> -1 ->
  let e := Z.max (heap_start h) (u64 (arg0 + 4095) .& Z.lnot 4095) in
  arg0 <= e <= 2 ^ 47 /\ e mod 4096 = 0 /\ forall x, mem s' x = if (heap_end h <=? x) && (x <? e) then 0 else mem s x.
Proof.
  intros ((Ho & Hb) & (He & He47) & Hs & Hal) Ha E Hr e. pose proof (mmap_zeroes _ _ _ _ _ _ 0 E Hr) as (_ & Hn & Hfit & _).
  change (u64 (arg0 + 4095) .& Z.lnot 4095) with (Loader.page_up arg0) in *. destruct (Z_lt_dec arg0 (2 ^ 64 - 4095)) as [Hlt|Hge].
  - assert (Hpu : heap_end h < Loader.page_up arg0 < 2 ^ 64 /\ arg0 <= Loader.page_up arg0) by (clear -Ho Hb He Ha Hlt; pages). assert (Ee : e = Loader.page_up arg0) by (unfold e; lia).
    fold e in E, Hn, Hfit. rewrite Ee in *. rewrite u64_same in * by lia. split; [lia|]. split; [apply page_down_mult|].
    intros x. destruct (mmap_zeroes _ _ _ _ _ _ x E Hr) as (_ & _ & _ & ->). rewrite Zplus_minus. reflexivity.
  - exfalso. assert (E0 : Loader.page_up arg0 = 0).
    { unfold Loader.page_up, u64, wrap. replace ((arg0 + 4095) mod 2 ^ 64) with (arg0 + 4095 - 2 ^ 64) by (apply (Z.mod_unique _ _ 1); lia).
      rewrite page_down_eq. Z.to_euclidean_division_equations; lia. }
    rewrite E0, Z.max_l in Hn, Hfit by lia. destruct (Z.eq_dec (heap_end h) (heap_start h)) as [Eq|Ne].
    + rewrite Eq, Z.sub_diag in Hn. vm_compute in Hn. discriminate Hn.
    + revert Hfit. unfold u64, wrap. replace ((heap_start h - heap_end h) mod 2 ^ 64) with (heap_start h - heap_end h + 2 ^ 64) by (apply (Z.mod_unique _ _ (-1)); lia). lia.
Qed.

(** C15. [brk] is the program break of Linux: a break below the one the program was loaded with
    is refused, and one that the heap already has room for is set; otherwise the heap grows or
    the call fails, and what is returned is the break.  The data below both the old and the
    new break are kept, what is gained is zero, whatever it held before the heap shrank, and
    nothing outside the heap is touched. *)
Theorem brk_moves arg0 h s : heap_ok h -> in_u 64 arg0 ->
  let '(ret, h', s') := sys_brk arg0 h s in
  heap_ok h' /\ original_brk h' = original_brk h /\ ret = brk h' /\ (brk h' = arg0 \/ h' = h) /\
  (arg0 < original_brk h -> h' = h) /\ (original_brk h <= arg0 <= heap_end h -> brk h' = arg0 /\ heap_end h' = heap_end h) /\
  (forall x, original_brk h <= x < Z.min (brk h) (brk h') -> mem s' x = mem s x) /\
  (forall x, brk h <= x < brk h' -> mem s' x = 0) /\ (forall x, ~ original_brk h <= x < heap_end h' -> mem s' x = mem s x).
Proof.
  intros Hh Ha. assert (Hok := Hh). destruct Hh as ((Ho & Hb) & (He & He47) & Hs & Hal). unfold sys_brk.
  destruct (Z.ltb_spec arg0 (original_brk h)) as [H1|H1].
  { split; [exact Hok|]. repeat split; auto; try lia. }
  destruct (Z.leb_spec arg0 (heap_end h)) as [H2|H2].
  { cbn [brk original_brk heap_end heap_start]. split; [unfold heap_ok; cbn [brk original_brk heap_end heap_start]; lia|]. split; [reflexivity|]. split; [reflexivity|].
    split; [left; reflexivity|]. split; [lia|]. split; [auto|]. unfold modify.
    destruct (Z.ltb_spec (brk h) arg0); [rewrite mem_set_mem|]; (split; [|split]); intros x Hx; try reflexivity; try lia; rewrite memset_range;
      destruct ((brk h <=? x) && (x <? brk h + (arg0 - brk h))) eqn:Er; try reflexivity; lia. }
  destruct (libc_mmap _ _ _ _ _ _ s) as [r s1] eqn:E. destruct (Z.eqb_spec r (-1)) as [Er|Er].
  { split; [exact Hok|]. rewrite (mmap_fails _ _ _ _ _ _ E Er). repeat split; auto; try lia. }
  unfold in_u in Ha. destruct (heap_expand h arg0 s r s1 Hok ltac:(lia) E Er) as (Hne & Hnal & Hmem).
  set (e := Z.max _ _) in *. unfold modify. rewrite mem_set_mem. unfold heap_ok. cbn [brk original_brk heap_end heap_start].
  split; [lia|]. split; [reflexivity|]. split; [reflexivity|]. split; [left; reflexivity|]. split; [lia|]. split; [lia|].
  split; [|split]; intros x Hx; rewrite memset_range; (destruct ((brk h <=? x) && (x <? brk h + (heap_end h - brk h))) eqn:Ex; [try reflexivity; lia|]);
    rewrite Hmem; (destruct ((heap_end h <=? x) && (x <? e)) eqn:Ey; [try reflexivity; lia|]); try reflexivity; lia.
Qed.
End Brk.

(** A process that is memory alone: every mapping that fits succeeds, every other call fails
    with [ENOSYS]. *)
Definition no_stat : Stat := MkStat 0 0 0 0 0 0 0 0 0 0 0 0 0 0 0 0.

#[local] Instance bare_libc : Libc (Z -> Z) := {|
  libc_errno := abi_errno; AT_FDCWD := -100; mem s := s; set_mem m _ := m; errno _ := 38; path_exists _ _ := false; realpath _ s := (None, s);
  libc_getcwd _ _ s := (false, s); libc_unlinkat _ _ _ s := (-1, s); libc_faccessat _ _ _ _ s := (-1, s); libc_openat _ _ _ _ s := (-1, s);
  libc_close _ s := (-1, s); libc_lseek _ _ _ s := (-1, s); libc_read _ _ _ s := (-1, s); libc_write _ _ _ s := (-1, s); libc_writev _ _ _ s := (-1, s);
  libc_readlinkat _ _ _ _ s := (-1, s); libc_fstatat _ _ _ s := (-1, no_stat, s); libc_fstat _ s := (0, no_stat, s); libc_stat _ s := (-1, no_stat, s);
  libc_uname _ s := (-1, s);
  libc_mmap a n _ _ _ _ s := if (0 <=? a) && (0 <? n) && (a + n <=? 2 ^ 47) then (a, memset a 0 n s) else (-1, s);
  libc_munmap _ _ s := (-1, s); libc_mprotect _ _ _ s := (-1, s); libc_open _ _ _ s := (-1, s); libc_unlink _ s := (-1, s);
  getpid := 1; getppid := 1; getuid := 0; geteuid := 0; getgid := 0; getegid := 0; time _ := 0; shutdown _ s := s; exec_path := []; sysroot := []; string_limit := 4096 |}.

#[local] Instance bare_laws : HeapLaws (Z -> Z).
Proof.
  split; [reflexivity|..]; intros a n p s r s'; [|intros x]; cbn; destruct ((0 <=? a) && (0 <? n) && (a + n <=? 2 ^ 47)) eqn:Ef; intros E; injection E as <- <-; intros Hr; try reflexivity; try lia.
  repeat split; try lia.
Qed.

(** The heap shrinks, and what it gives up is zero when it grows again. *)
Lemma brk_moves_witness : let h := MkHeap 0x20000 0x20800 0x20000 0x21000 in
  exists h1 s1 h2 s2, sys_brk 0x20400 h (fun _ => 7) = (0x20400, h1, s1) /\ sys_brk 0x22100 h1 s1 = (0x22100, h2, s2) /\
    mem s2 0x20300 = 7 /\ mem s2 0x20600 = 0 /\ mem s2 0x22000 = 0 /\ mem s2 0x24000 = 7.
Proof.
  intros h. destruct (sys_brk 0x20400 h (fun _ => 7)) as [[r1 h1] s1] eqn:E1. destruct (sys_brk 0x22100 h1 s1) as [[r2 h2] s2] eqn:E2.
  pose proof (brk_moves 0x20400 h (fun _ => 7)) as B1. rewrite E1 in B1.
  destruct B1 as (K1 & O1 & R1 & _ & _ & F1 & D1 & _ & N1); [unfold heap_ok, h; cbn [original_brk brk heap_start heap_end]; repeat split; lia|unfold in_u; lia|]. destruct F1 as [F1 F1']; [cbn; lia|].
  pose proof (brk_moves 0x22100 h1 s1 K1) as B2. rewrite E2 in B2. destruct B2 as (K2 & O2 & R2 & M2 & _ & _ & D2 & Z2 & N2); [unfold in_u; lia|].
  exists h1, s1, h2, s2. rewrite F1 in *. assert (Hb : brk h2 = 0x22100).
  { destruct M2 as [M2|M2]; [exact M2|]. exfalso. revert E2. rewrite M2. injection E1 as _ <- _. vm_compute. discriminate. }
  rewrite Hb in *. cbn [original_brk brk h] in *. change (original_brk h) with 0x20000 in *. rewrite O1 in *.
  split; [rewrite ?E1, R1; reflexivity|]. split; [rewrite E2, R2; reflexivity|].
  split; [rewrite D2, D1 by (cbn; lia); reflexivity|]. split; [apply Z2; lia|]. split; [apply Z2; lia|].
  assert (He : heap_end h2 = 0x23000). { injection E1 as _ <- _. vm_compute in E2. injection E2 as _ <- _. reflexivity. }
  rewrite N2, N1 by (rewrite ?F1', ?He; cbn; lia). reflexivity.
Defined.

(** ** Error numbers *)

(** The numbers of errno(3) on Linux, which guest and host share: those of [abi], but for
    [ERFKILL] *)
Definition linux_errno (e : Errno) : Z := match e with ERFKILL => 132 | _ => abi_errno e end.

Lemma errnos_translated : forallb (fun e => convert_errno_from_host linux_errno (linux_errno e) =? (if linux_errno e =? 132 then 131 else linux_errno e)) errnos = true.
Proof. vm_compute. reflexivity. Qed.

Lemma find_none_errno n : ~ n ∈ map linux_errno errnos -> List.find (fun e => linux_errno e =? n) errnos = None.
Proof.
  intros Hn. destruct (List.find _ _) as [e|] eqn:E; [|reflexivity]. exfalso. apply List.find_some in E as [Hin He]. apply Hn.
  apply list_elem_of_In, in_map_iff. exists e. split; [lia|exact Hin].
Qed.

(** On a host that is Linux every error number is its own translation but that of [ERFKILL],
    which the guest sees as [ENOTRECOVERABLE]; a number that is no error number of Linux
    becomes [ENOSYS]. *)
Theorem errno_translated n : convert_errno_from_host linux_errno n =
  if decide (n ∈ map linux_errno errnos) then if n =? 132 then 131 else n else 38.
Proof.
  destruct (decide (n ∈ map linux_errno errnos)) as [Hin|Hout].
  - apply list_elem_of_In, in_map_iff in Hin as (e & <- & He). pose proof errnos_translated as F. rewrite forallb_forall in F. specialize (F e He). lia.
  - unfold convert_errno_from_host. rewrite find_none_errno by exact Hout. reflexivity.
Qed.

(** ** Structures *)

Lemma get_put p off n v m : get (put p off n v m) (p + off) n = v mod 256 ^ Z.of_nat n.
Proof.
  rewrite <- VirtioQueueProps.from_to_le_bytes. unfold get, put. f_equal.
  pose proof (read_memcpy (p + off) (VirtioQueue.to_le_bytes n v) m) as R. unfold read_bytes, usize_len in R. rewrite VirtioQueueProps.to_le_bytes_length in R.
  etransitivity; [|exact R]. replace (seqZ 0 (Z.of_nat n)) with (map Z.of_nat (seq 0 n)) by (unfold seqZ; rewrite Nat2Z.id; apply map_ext; intros; lia). rewrite map_map. reflexivity.
Qed.

Lemma put_out p off n v m x : ~ p + off <= x < p + off + Z.of_nat n -> put p off n v m x = m x.
Proof. intros Hx. unfold put. apply memcpy_out. unfold usize_len. rewrite VirtioQueueProps.to_le_bytes_length. exact Hx. Qed.

Lemma get_put_other p off n v m q k : q + Z.of_nat k <= p + off \/ p + off + Z.of_nat n <= q -> get (put p off n v m) q k = get m q k.
Proof. intros Ho. unfold get. f_equal. apply map_ext_in. intros i Hi. apply in_seq in Hi. apply put_out. lia. Qed.

(** The fields of [abi::stat] at their offsets *)
Definition stat_fields (h : Stat) : list (Z * nat * Z) :=
  [(0, 8%nat, st_dev h); (8, 8%nat, st_ino h); (16, 4%nat, st_mode h); (20, 4%nat, st_nlink h); (24, 4%nat, st_uid h); (28, 4%nat, st_gid h); (32, 8%nat, st_rdev h);
   (48, 8%nat, st_size h); (56, 4%nat, st_blksize h); (64, 8%nat, st_blocks h); (72, 8%nat, st_atime h); (80, 8%nat, st_atime_nsec h); (88, 8%nat, st_mtime h);
   (96, 8%nat, st_mtime_nsec h); (104, 8%nat, st_ctime h); (112, 8%nat, st_ctime_nsec h)].

(** The guest reads in its [stat] what the host filled in, reduced to the width of the field,
    and nothing outside the structure changes. *)
Theorem stat_reads_back p h m : let m' := convert_stat_from_host p h m in
  Forall (fun '(off, n, v) => get m' (p + off) n = v mod 256 ^ Z.of_nat n) (stat_fields h) /\ forall x, ~ p <= x < p + 120 -> m' x = m x.
Proof.
  unfold convert_stat_from_host, stat_fields. cbv zeta. split.
  - repeat (apply Forall_cons; split; [repeat (rewrite get_put_other by lia); rewrite get_put; try reflexivity; apply Z.mod_mod; lia|]). apply Forall_nil. exact I.
  - intros x Hx. rewrite !put_out by lia. reflexivity.
Qed.

(** ** Logged strings *)

(** Reading a string up to its closing quote *)
Definition unhex (c : Z) : option Z :=
  if (48 <=? c) && (c <=? 57) then Some (c - 48) else if (97 <=? c) && (c <=? 102) then Some (c - 87) else None.

Fixpoint unescape_loop (l : list Z) : option (list Z) :=
  match l with
  | [] => None
  | c :: l =>
      if c =? 34 then Some []
      else if c =? 92 then
        match l with
        | [] => None
        | c :: l =>
            if (c =? 34) || (c =? 92) then let? r := unescape_loop l in Some (c :: r)
            else if c =? 110 then let? r := unescape_loop l in Some (10 :: r)
            else if c =? 116 then let? r := unescape_loop l in Some (9 :: r)
            else match l with
              | d :: l => let? a := unhex c in let? b := unhex d in let? r := unescape_loop l in Some (16 * a + b :: r)
              | [] => None
              end
        end
      else let? r := unescape_loop l in Some (c :: r)
  end.

Definition unescape (l : list Z) : option (list Z) := match l with [] => None | c :: l => if c =? 34 then unescape_loop l else None end.

Lemma unhex_digit d : 0 <= d < 16 -> unhex (IoSystem.IoSystem.hex_digit d) = Some d.
Proof.
  intros Hd. unfold unhex, IoSystem.IoSystem.hex_digit. destruct (Z.ltb_spec d 10).
  - replace ((48 <=? 48 + d) && (48 + d <=? 57)) with true by lia. f_equal. lia.
  - replace ((48 <=? 87 + d) && (87 + d <=? 57)) with false by lia. replace ((97 <=? 87 + d) && (87 + d <=? 102)) with true by lia. f_equal. lia.
Qed.

Lemma hex_digit_range d : 0 <= d < 16 -> 48 <= IoSystem.IoSystem.hex_digit d <= 57 \/ 97 <= IoSystem.IoSystem.hex_digit d <= 102.
Proof. intros Hd. unfold IoSystem.IoSystem.hex_digit. destruct (Z.ltb_spec d 10); lia. Qed.

Lemma unescape_escaped c r : in_u 8 c -> unescape_loop (escape_byte c ++ r) = let? t := unescape_loop r in Some (c :: t).
Proof.
  intros Hc. unfold in_u in Hc. change (2 ^ 8) with 256 in Hc. unfold escape_byte. destruct ((c =? 34) || (c =? 92)) eqn:E1.
  { cbn [app unescape_loop]. rewrite E1. reflexivity. }
  destruct (Z.eqb_spec c 10) as [->|_]; [reflexivity|]. destruct (Z.eqb_spec c 9) as [->|_]; [reflexivity|].
  unfold hex2. cbn [app unescape_loop]. pose proof (hex_digit_range (c / 16) ltac:(Z.to_euclidean_division_equations; lia)) as R.
  replace ((IoSystem.IoSystem.hex_digit (c / 16) =? 34) || (IoSystem.IoSystem.hex_digit (c / 16) =? 92)) with false by lia.
  rewrite (proj2 (Z.eqb_neq _ 110)), (proj2 (Z.eqb_neq _ 116)) by lia. rewrite !unhex_digit by (Z.to_euclidean_division_equations; lia).
  rewrite <- Z.div_mod by lia. reflexivity.
Qed.

Lemma unescape_plain c r : plain c = true -> unescape_loop (c :: r) = let? t := unescape_loop r in Some (c :: t).
Proof. unfold plain. intros Hp. cbn [unescape_loop]. rewrite (proj2 (Z.eqb_neq c 34)), (proj2 (Z.eqb_neq c 92)) by lia. reflexivity. Qed.

Lemma unescape_run run r t : Forall (fun c => plain c = true) run -> unescape_loop r = Some t -> unescape_loop (run ++ r) = Some (run ++ t).
Proof. intros Hp Hr. induction Hp as [|c run Hc _ IH]; [exact Hr|]. cbn [app]. rewrite unescape_plain, IH by exact Hc. reflexivity. Qed.

Lemma unescape_loop_ok l rest : forall run, Forall (in_u 8) l -> Forall (fun c => plain c = true) run ->
  unescape_loop (escape_loop l run ++ 34 :: rest) = Some (rev run ++ l).
Proof.
  induction l as [|c l IH]; intros run Hl Hr; cbn [escape_loop].
  - rewrite app_nil_r. replace (rev run) with (rev run ++ []) at 2 by apply app_nil_r. apply unescape_run; [apply Forall_rev, Hr|reflexivity].
  - apply Forall_cons in Hl as [Hc Hl]. destruct (plain c) eqn:Ep.
    + rewrite IH by (try exact Hl; constructor; assumption). cbn [rev]. rewrite <- app_assoc. reflexivity.
    + rewrite <- !app_assoc. apply unescape_run; [apply Forall_rev, Hr|]. rewrite unescape_escaped by exact Hc. rewrite IH by (try exact Hl; constructor). reflexivity.
Qed.

(** A string the log shows can be read back: its first 64 bytes are never ambiguous. *)
Theorem escape_reads_back s : Forall (in_u 8) s -> unescape (escape s) = Some (take 64 s).
Proof.
  intros Hs. unfold escape, unescape. cbn [app]. rewrite Z.eqb_refl. rewrite unescape_loop_ok; [|apply Forall_take, Hs|constructor]. cbn [rev app].
  destruct (Nat.min_spec (length s) 64) as [[? ->]|[? ->]]; [rewrite !take_ge by lia|]; reflexivity.
Qed.

(** ** Paths *)

(** [/proc/self] and [/proc/<pid>] are recognised however the path is spelled, and nothing
    else is. *)
Example proc_self : is_proc_self 41 (IoSystem.IoSystem.text "/proc//self/./exe/"%string) = Some (IoSystem.IoSystem.text "exe"%string).
Proof. vm_compute. reflexivity. Qed.
Example proc_pid : is_proc_self 41 (IoSystem.IoSystem.text "/proc/41/fd/3"%string) = Some (IoSystem.IoSystem.text "fd/3"%string).
Proof. vm_compute. reflexivity. Qed.
Example proc_other : is_proc_self 41 (IoSystem.IoSystem.text "/proc/410/exe"%string) = None /\ is_proc_self 41 (IoSystem.IoSystem.text "proc/self/exe"%string) = None.
Proof. vm_compute. auto. Qed.

(** A path is looked up in the sysroot only when it is absolute and is there. *)
Theorem path_translated {S} {H : Libc S} p s : translate_path p s = p \/
  (exists rest, strip_root p = Some rest /\ translate_path p s = join sysroot rest /\ path_exists (join sysroot rest) s = true).
Proof.
  unfold translate_path. destruct (strip_root p) as [rest|]; [|left; reflexivity]. destruct (path_exists (join sysroot rest) s) eqn:E; [|left; reflexivity].
  right. exists rest. auto.
Qed.

(** The link of /proc/self/exe is reported with its full length, also when the buffer is
    smaller. *)
Theorem readlink_exe_length {S} {H : Libc S} arg0 arg1 arg2 arg3 s name path s' :
  cstr arg1 s = Some name -> is_proc_self getpid name = Some (IoSystem.IoSystem.text "exe"%string) -> realpath exec_path s = (Some path, s') ->
  exists s2, sys_readlinkat arg0 arg1 arg2 arg3 s = Some (usize_len path, s2).
Proof. intros Hc Hp Hr. unfold sys_readlinkat. rewrite Hc, Hp, Hr. rewrite bool_decide_true by reflexivity. eexists. reflexivity. Qed.
