(* ===== verification/NetDevices.v ===== *)
(** The devices that are not virtio: the Ethernet controller of
    lib/io/src/hw/network/xemaclite.rs with its transmit and receive tasks, the clock of
    lib/io/src/hw/rtc/zyncmp.rs, the network logger of lib/io/src/network/logger.rs, and the
    terminal of lib/io/src/serial/console.rs. *)

From Stdlib Require Import ZArith Lia Bool List.
From stdpp Require Import base list.
From S2P Require Import Prelude.
From S2P Require VirtioQueue.
Import ListNotations.
Local Open Scope Z_scope.
Local Open Scope rust_scope.

(** ** Xilinx AXI Ethernet Lite *)

Module Xemac.

Notation from_le_bytes := VirtioQueue.from_le_bytes (only parsing).
Notation to_le_bytes := VirtioQueue.to_le_bytes (only parsing).

(** [Mii::read] *)
Definition mii_read (reg : Z) : Z :=
  match reg with 0 => 0x3100 | 1 => 0x402D | 2 => 7 | 3 => 49393 | _ => 0xffff end.

Definition ADDR_MDIOADDR : Z := 0x7E4.
Definition ADDR_MDIOWR : Z := 0x7E8.
Definition ADDR_MDIORD : Z := 0x7EC.
Definition ADDR_MDIOCTRL : Z := 0x7F0.
Definition ADDR_TX_LEN_PING : Z := 0x7F4.
Definition ADDR_GIE : Z := 0x7F8.
Definition ADDR_TX_CTRL_PING : Z := 0x7FC.
Definition ADDR_TX_LEN_PONG : Z := 0xFF4.
Definition ADDR_TX_CTRL_PONG : Z := 0xFFC.
Definition ADDR_RX_CTRL_PING : Z := 0x17FC.
Definition ADDR_RX_CTRL_PONG : Z := 0x1FFC.

Record State : Type := MkState {
  mdio_enable : bool; mdio_op : bool; mdio_phyaddr : Z; mdio_regaddr : Z; mdio_wr : Z; mdio_rd : Z;
  tx_len_ping : Z; tx_len_pong : Z; global_irq_enabled : bool; tx_irq_enabled : bool; rx_irq_enabled : bool;
  tx_status_ping : bool; tx_status_pong : bool; rx_status_ping : bool; rx_status_pong : bool;
  buffer : list Z; mac : list Z }.

Definition set_mdio_enable (v : bool) (s : State) : State :=
  MkState v (mdio_op s) (mdio_phyaddr s) (mdio_regaddr s) (mdio_wr s) (mdio_rd s) (tx_len_ping s) (tx_len_pong s) (global_irq_enabled s) (tx_irq_enabled s) (rx_irq_enabled s) (tx_status_ping s) (tx_status_pong s) (rx_status_ping s) (rx_status_pong s) (buffer s) (mac s).
Definition set_mdio_op (v : bool) (s : State) : State :=
  MkState (mdio_enable s) v (mdio_phyaddr s) (mdio_regaddr s) (mdio_wr s) (mdio_rd s) (tx_len_ping s) (tx_len_pong s) (global_irq_enabled s) (tx_irq_enabled s) (rx_irq_enabled s) (tx_status_ping s) (tx_status_pong s) (rx_status_ping s) (rx_status_pong s) (buffer s) (mac s).
Definition set_mdio_phyaddr (v : Z) (s : State) : State :=
  MkState (mdio_enable s) (mdio_op s) v (mdio_regaddr s) (mdio_wr s) (mdio_rd s) (tx_len_ping s) (tx_len_pong s) (global_irq_enabled s) (tx_irq_enabled s) (rx_irq_enabled s) (tx_status_ping s) (tx_status_pong s) (rx_status_ping s) (rx_status_pong s) (buffer s) (mac s).
Definition set_mdio_regaddr (v : Z) (s : State) : State :=
  MkState (mdio_enable s) (mdio_op s) (mdio_phyaddr s) v (mdio_wr s) (mdio_rd s) (tx_len_ping s) (tx_len_pong s) (global_irq_enabled s) (tx_irq_enabled s) (rx_irq_enabled s) (tx_status_ping s) (tx_status_pong s) (rx_status_ping s) (rx_status_pong s) (buffer s) (mac s).
Definition set_mdio_wr (v : Z) (s : State) : State :=
  MkState (mdio_enable s) (mdio_op s) (mdio_phyaddr s) (mdio_regaddr s) v (mdio_rd s) (tx_len_ping s) (tx_len_pong s) (global_irq_enabled s) (tx_irq_enabled s) (rx_irq_enabled s) (tx_status_ping s) (tx_status_pong s) (rx_status_ping s) (rx_status_pong s) (buffer s) (mac s).
Definition set_mdio_rd (v : Z) (s : State) : State :=
  MkState (mdio_enable s) (mdio_op s) (mdio_phyaddr s) (mdio_regaddr s) (mdio_wr s) v (tx_len_ping s) (tx_len_pong s) (global_irq_enabled s) (tx_irq_enabled s) (rx_irq_enabled s) (tx_status_ping s) (tx_status_pong s) (rx_status_ping s) (rx_status_pong s) (buffer s) (mac s).
Definition set_tx_len_ping (v : Z) (s : State) : State :=
  MkState (mdio_enable s) (mdio_op s) (mdio_phyaddr s) (mdio_regaddr s) (mdio_wr s) (mdio_rd s) v (tx_len_pong s) (global_irq_enabled s) (tx_irq_enabled s) (rx_irq_enabled s) (tx_status_ping s) (tx_status_pong s) (rx_status_ping s) (rx_status_pong s) (buffer s) (mac s).
Definition set_tx_len_pong (v : Z) (s : State) : State :=
  MkState (mdio_enable s) (mdio_op s) (mdio_phyaddr s) (mdio_regaddr s) (mdio_wr s) (mdio_rd s) (tx_len_ping s) v (global_irq_enabled s) (tx_irq_enabled s) (rx_irq_enabled s) (tx_status_ping s) (tx_status_pong s) (rx_status_ping s) (rx_status_pong s) (buffer s) (mac s).
Definition set_global_irq_enabled (v : bool) (s : State) : State :=
  MkState (mdio_enable s) (mdio_op s) (mdio_phyaddr s) (mdio_regaddr s) (mdio_wr s) (mdio_rd s) (tx_len_ping s) (tx_len_pong s) v (tx_irq_enabled s) (rx_irq_enabled s) (tx_status_ping s) (tx_status_pong s) (rx_status_ping s) (rx_status_pong s) (buffer s) (mac s).
Definition set_tx_irq_enabled (v : bool) (s : State) : State :=
  MkState (mdio_enable s) (mdio_op s) (mdio_phyaddr s) (mdio_regaddr s) (mdio_wr s) (mdio_rd s) (tx_len_ping s) (tx_len_pong s) (global_irq_enabled s) v (rx_irq_enabled s) (tx_status_ping s) (tx_status_pong s) (rx_status_ping s) (rx_status_pong s) (buffer s) (mac s).
Definition set_rx_irq_enabled (v : bool) (s : State) : State :=
  MkState (mdio_enable s) (mdio_op s) (mdio_phyaddr s) (mdio_regaddr s) (mdio_wr s) (mdio_rd s) (tx_len_ping s) (tx_len_pong s) (global_irq_enabled s) (tx_irq_enabled s) v (tx_status_ping s) (tx_status_pong s) (rx_status_ping s) (rx_status_pong s) (buffer s) (mac s).
Definition set_tx_status_ping (v : bool) (s : State) : State :=
  MkState (mdio_enable s) (mdio_op s) (mdio_phyaddr s) (mdio_regaddr s) (mdio_wr s) (mdio_rd s) (tx_len_ping s) (tx_len_pong s) (global_irq_enabled s) (tx_irq_enabled s) (rx_irq_enabled s) v (tx_status_pong s) (rx_status_ping s) (rx_status_pong s) (buffer s) (mac s).
Definition set_tx_status_pong (v : bool) (s : State) : State :=
  MkState (mdio_enable s) (mdio_op s) (mdio_phyaddr s) (mdio_regaddr s) (mdio_wr s) (mdio_rd s) (tx_len_ping s) (tx_len_pong s) (global_irq_enabled s) (tx_irq_enabled s) (rx_irq_enabled s) (tx_status_ping s) v (rx_status_ping s) (rx_status_pong s) (buffer s) (mac s).
Definition set_rx_status_ping (v : bool) (s : State) : State :=
  MkState (mdio_enable s) (mdio_op s) (mdio_phyaddr s) (mdio_regaddr s) (mdio_wr s) (mdio_rd s) (tx_len_ping s) (tx_len_pong s) (global_irq_enabled s) (tx_irq_enabled s) (rx_irq_enabled s) (tx_status_ping s) (tx_status_pong s) v (rx_status_pong s) (buffer s) (mac s).
Definition set_rx_status_pong (v : bool) (s : State) : State :=
  MkState (mdio_enable s) (mdio_op s) (mdio_phyaddr s) (mdio_regaddr s) (mdio_wr s) (mdio_rd s) (tx_len_ping s) (tx_len_pong s) (global_irq_enabled s) (tx_irq_enabled s) (rx_irq_enabled s) (tx_status_ping s) (tx_status_pong s) (rx_status_ping s) v (buffer s) (mac s).
Definition set_buffer (v : list Z) (s : State) : State :=
  MkState (mdio_enable s) (mdio_op s) (mdio_phyaddr s) (mdio_regaddr s) (mdio_wr s) (mdio_rd s) (tx_len_ping s) (tx_len_pong s) (global_irq_enabled s) (tx_irq_enabled s) (rx_irq_enabled s) (tx_status_ping s) (tx_status_pong s) (rx_status_ping s) (rx_status_pong s) v (mac s).
Definition set_mac (v : list Z) (s : State) : State :=
  MkState (mdio_enable s) (mdio_op s) (mdio_phyaddr s) (mdio_regaddr s) (mdio_wr s) (mdio_rd s) (tx_len_ping s) (tx_len_pong s) (global_irq_enabled s) (tx_irq_enabled s) (rx_irq_enabled s) (tx_status_ping s) (tx_status_pong s) (rx_status_ping s) (rx_status_pong s) (buffer s) v.

Definition new_state : State :=
  MkState false false 0 0 0 0 0 0 false false false false false false false (replicate (Z.to_nat 8192) 0) (replicate 6 0).

(** The device: its state, the channel to the transmit task, the packet that task is at,
    which buffer the receive task fills next, and whether the transmit task, and with it the
    receiving end of the channel, is still there *)
Record Device : Type := MkDevice { state : State; queue : list bool; sending : option bool; rx_pong : bool; tx_task : bool }.

Definition new : Device := MkDevice new_state [] None false true.

Definition set_state (v : State) (d : Device) : Device := MkDevice v (queue d) (sending d) (rx_pong d) (tx_task d).

(** [LE::read_u32] and the like of [&buffer[addr..]]: a panic when they reach past the end *)
Definition read_buffer (n : nat) (addr : Z) (s : State) : option Z :=
  if addr + Z.of_nat n <=? Z.of_nat (length (buffer s)) then Some (from_le_bytes (take n (drop (Z.to_nat addr) (buffer s)))) else None.

(** [copy_from_slice] into the buffer, with the same panic *)
Definition store (addr : Z) (l : list Z) (s : State) : option State :=
  if addr + Z.of_nat (length l) <=? Z.of_nat (length (buffer s)) then
    Some (set_buffer (take (Z.to_nat addr) (buffer s) ++ l ++ drop (Z.to_nat addr + length l) (buffer s)) s)
  else None.

Definition bit (b : bool) : Z := if b then 1 else 0.

(** [IoMemory::read] *)
Definition read (addr size : Z) (d : Device) : option Z :=
  let s := state d in
  if (size =? 8) && ((addr .& 0x7ff) <? 0x7e0) then read_buffer 8 addr s
  else if size <>? 4 then Some 0
  else if addr =? ADDR_MDIOADDR then Some ((bit (mdio_op s) << 10) .| (mdio_phyaddr s << 5) .| mdio_regaddr s)
  else if addr =? ADDR_MDIOWR then Some (mdio_wr s)
  else if addr =? ADDR_MDIORD then Some (mdio_rd s)
  else if addr =? ADDR_MDIOCTRL then Some (bit (mdio_enable s) << 3)
  else if addr =? ADDR_TX_LEN_PING then Some (tx_len_ping s)
  else if addr =? ADDR_GIE then Some (bit (global_irq_enabled s) << 31)
  else if addr =? ADDR_TX_LEN_PONG then Some (tx_len_pong s)
  else if addr =? ADDR_TX_CTRL_PING then Some ((bit (tx_irq_enabled s) << 3) .| bit (tx_status_ping s))
  else if addr =? ADDR_TX_CTRL_PONG then Some (bit (tx_status_pong s))
  else if addr =? ADDR_RX_CTRL_PING then Some ((bit (rx_irq_enabled s) << 3) .| bit (rx_status_ping s))
  else if addr =? ADDR_RX_CTRL_PONG then Some (bit (rx_status_pong s))
  else read_buffer 4 addr s.

(** [try_send(..).unwrap()] on the channel of [start_tx]: it refuses when more than two
    messages wait, and when the receiver is gone. *)
Definition try_send (m : bool) (d : Device) : option Device :=
  if tx_task d && Nat.leb (length (queue d)) 2 then Some (MkDevice (state d) (queue d ++ [m]) (sending d) (rx_pong d) true) else None.

(** Whether the line is pulsed when a transmission, or a reception, is over *)
Definition tx_irq (s : State) : bool := global_irq_enabled s && tx_irq_enabled s.
Definition rx_irq (s : State) : bool := global_irq_enabled s && rx_irq_enabled s.

(** [ADDR_MDIOCTRL]: the transaction of the PHY at address 1 *)
Definition mdio_control (value : Z) (s : State) : State :=
  let s := set_mdio_enable ((value .& 8) <>? 0) s in
  if mdio_enable s && ((value .& 1) <>? 0) then
    if mdio_op s then set_mdio_rd (if mdio_phyaddr s =? 1 then mii_read (mdio_regaddr s) else 0xffff) s else s
  else s.

(** [IoMemory::write]: the device and whether the line is pulsed; [None] is a panic. *)
Definition write (addr value size : Z) (d : Device) : option (Device * bool) :=
  let s := state d in
  let quiet s := Some (set_state s d, false) in
  if (size =? 8) && ((addr .& 0x7ff) <? 0x7e0) then let? s := store addr (to_le_bytes 8 value) s in quiet s
  else if size <>? 4 then Some (d, false)
  else
  let value := u32 value in
  if addr =? ADDR_MDIOADDR then
    quiet (set_mdio_regaddr (value .& 31) (set_mdio_phyaddr ((value >> 5) .& 31) (set_mdio_op ((value .& 1024) <>? 0) s)))
  else if addr =? ADDR_MDIOWR then quiet (set_mdio_wr (u16 value) s)
  else if addr =? ADDR_MDIORD then quiet s
  else if addr =? ADDR_MDIOCTRL then quiet (mdio_control value s)
  else if addr =? ADDR_TX_LEN_PING then quiet (set_tx_len_ping (Z.min (u16 value) 2048) s)
  else if addr =? ADDR_GIE then quiet (set_global_irq_enabled (((value >> 31) .& 1) <>? 0) s)
  else if addr =? ADDR_TX_CTRL_PING then
    let s := set_tx_irq_enabled (((value >> 3) .& 1) <>? 0) s in
    let program := ((value >> 1) .& 1) <>? 0 in
    let status := (value .& 1) <>? 0 in
    if negb (tx_status_ping s) && status then
      if program then Some (set_state (set_mac (take 6 (buffer s)) s) d, tx_irq s)
      else let? d := try_send false (set_state (set_tx_status_ping true s) d) in Some (d, false)
    else quiet s
  else if addr =? ADDR_TX_LEN_PONG then quiet (set_tx_len_pong (Z.min (u16 value) 2048) s)
  else if addr =? ADDR_TX_CTRL_PONG then
    let program := ((value >> 1) .& 1) <>? 0 in
    let status := (value .& 1) <>? 0 in
    if negb (tx_status_pong s) && status then
      if program then Some (set_state (set_mac (take 6 (drop (Z.to_nat 0x800) (buffer s))) s) d, tx_irq s)
      else let? d := try_send true (set_state (set_tx_status_pong true s) d) in Some (d, false)
    else quiet s
  else if addr =? ADDR_RX_CTRL_PING then
    let s := set_rx_irq_enabled (((value >> 3) .& 1) <>? 0) s in
    quiet (if (value .& 1) =? 0 then set_rx_status_ping false s else s)
  else if addr =? ADDR_RX_CTRL_PONG then quiet (if (value .& 1) =? 0 then set_rx_status_pong false s else s)
  else let? s := store addr (to_le_bytes 4 value) s in quiet s.

(** *** The transmit task *)

(** [recv.next()] *)
Definition tx_next (d : Device) : option Device :=
  match sending d, queue d with
  | None, m :: q => Some (MkDevice (state d) q (Some m) (rx_pong d) (tx_task d))
  | _, _ => None
  end.

(** The packet [poll_fn] offers to the network: [None] when the status is not set, which ends
    the wait. *)
Definition tx_packet (pong : bool) (s : State) : option (list Z) :=
  if negb pong then if tx_status_ping s then Some (take (Z.to_nat (tx_len_ping s)) (buffer s)) else None
  else if tx_status_pong s then Some (take (Z.to_nat (tx_len_pong s)) (drop (Z.to_nat 0x800) (buffer s))) else None.

(** What [poll_send] of the network returns: [Pending], or ready with success or an error *)
Inductive Sending : Type := Pending | Done | Failed.

(** One poll of the task: the device, what was sent and whether the line is pulsed.  An error
    is unwrapped: the task ends in a panic, and what waits in its channel is lost with it.
    (In the profiles of the program a panic is the end of the emulator.) *)
Definition tx_poll (r : Sending) (d : Device) : option (Device * option (list Z) * bool) :=
  match sending d with
  | None => None
  | Some pong =>
      match tx_packet pong (state d) with
      | None => Some (MkDevice (state d) (queue d) None (rx_pong d) (tx_task d), None, false)
      | Some p =>
          match r with
          | Done =>
              let s := if negb pong then set_tx_status_ping false (state d) else set_tx_status_pong false (state d) in
              Some (MkDevice s (queue d) None (rx_pong d) (tx_task d), Some p, tx_irq s)
          | Pending => Some (d, None, false)
          | Failed => Some (MkDevice (state d) [] None (rx_pong d) false, None, false)
          end
      end
  end.

(** *** The receive task *)

(** One packet, which [recv] has put in a buffer of 2048 bytes; an error of [recv] is
    unwrapped, and no packet is received any more. *)
Definition rx (packet : list Z) (d : Device) : option (Device * bool) :=
  let s := state d in
  if negb (rx_pong d) then
    if negb (rx_status_ping s) then
      let? s := store 0x1000 packet s in
      let s := set_rx_status_ping true s in Some (MkDevice s (queue d) (sending d) true (tx_task d), rx_irq s)
    else Some (MkDevice s (queue d) (sending d) true (tx_task d), false)
  else
    if negb (rx_status_pong s) then
      let? s := store 0x1800 packet s in
      let s := set_rx_status_pong true s in Some (MkDevice s (queue d) (sending d) false (tx_task d), rx_irq s)
    else Some (MkDevice s (queue d) (sending d) false (tx_task d), false).

End Xemac.

(** ** The clock *)

Module ZyncMp.

(** [IoMemory::read]; [now] is the time in seconds.  Writes are ignored. *)
Definition rtc_read (now addr size : Z) : Z :=
  if size <>? 4 then 0
  else match addr with
    | 0x04 | 0x10 => now
    | 0x0C => 0x198233
    | 0x14 => 0xffff
    | 0x18 => 0
    | 0x20 => 3
    | 0x24 => 3
    | 0x40 => 1 << 31
    | _ => 0
    end.

End ZyncMp.

(** ** The logger *)

Module Logger.

(** The file of [Logger::new], and what [log] appends at a time *)
Definition header : list Z :=
  VirtioQueue.to_le_bytes 4 0xa1b2c3d4 ++ VirtioQueue.to_le_bytes 2 2 ++ VirtioQueue.to_le_bytes 2 4 ++ VirtioQueue.to_le_bytes 4 0 ++
  VirtioQueue.to_le_bytes 4 0 ++ VirtioQueue.to_le_bytes 4 0xffffffff ++ VirtioQueue.to_le_bytes 4 1.

Definition log (secs micros : Z) (buf : list Z) (file : list Z) : list Z :=
  file ++ VirtioQueue.to_le_bytes 4 (u32 secs) ++ VirtioQueue.to_le_bytes 4 micros ++ VirtioQueue.to_le_bytes 4 (u32 (Z.of_nat (length buf))) ++
  VirtioQueue.to_le_bytes 4 (u32 (Z.of_nat (length buf))) ++ buf.

(** [poll_send] and [poll_recv] around those of the network: [None] is [Pending]; the second
    leaves the buffer as the network filled it. *)
Definition poll_send {R} (secs micros : Z) (buf : list Z) (r : option R) (file : list Z) : list Z :=
  match r with Some _ => log secs micros buf file | None => file end.
Definition poll_recv {R} (secs micros : Z) (buf : list Z) (r : option R) (file : list Z) : list Z :=
  match r with Some _ => log secs micros buf file | None => file end.

End Logger.

(** ** The terminal *)

(** lib/io/src/serial/console.rs: what the thread that reads the terminal and the signal
    handler leave for the users of the console.  [step] is the processor, with the state its
    closure captures; a waker is a number. *)
Module Console.
Section Console.
Context {P : Type}.
Variable step : P -> Z -> P * option Z.

Record Inner : Type := MkInner { rx_buffer : list Z; rx_waker : list Z; size_changed : bool; size_changed_wakers : list Z; processor : P }.

Definition new_console (p : P) : Inner := MkInner [] [] false [] p.

(** One byte: the wakers that are woken are the second result. *)
Definition input_byte (byte : Z) (s : Inner) : Inner * list Z :=
  let (p, x) := step (processor s) byte in
  match x with
  | Some x => (MkInner (rx_buffer s ++ [x]) [] (size_changed s) (size_changed_wakers s) p, rx_waker s)
  | None => (MkInner (rx_buffer s) (rx_waker s) (size_changed s) (size_changed_wakers s) p, [])
  end.

(** The loop of the thread over what it has read *)
Fixpoint input (bytes : list Z) (s : Inner) : Inner * list Z :=
  match bytes with
  | [] => (s, [])
  | b :: bytes => let (s, w) := input_byte b s in let (s, w') := input bytes s in (s, w ++ w')
  end.

(** A waker is kept once. *)
Definition register (w : Z) (l : list Z) : list Z := if existsb (Z.eqb w) l then l else l ++ [w].

(** [handle_winch] *)
Definition handle_winch (s : Inner) : Inner * list Z := (MkInner (rx_buffer s) (rx_waker s) true [] (processor s), size_changed_wakers s).

(** [poll_read] into a buffer of [len] bytes; [None] is [Pending]. *)
Definition poll_read (w : Z) (len : nat) (s : Inner) : Inner * option (list Z) :=
  match rx_buffer s with
  | [] => (MkInner [] (register w (rx_waker s)) (size_changed s) (size_changed_wakers s) (processor s), None)
  | _ => (MkInner (drop len (rx_buffer s)) (rx_waker s) (size_changed s) (size_changed_wakers s) (processor s), Some (take len (rx_buffer s)))
  end.

(** [poll_window_size_changed]; [false] is [Pending]. *)
Definition poll_window_size_changed (w : Z) (s : Inner) : Inner * bool :=
  if size_changed s then (MkInner (rx_buffer s) (rx_waker s) false (size_changed_wakers s) (processor s), true)
  else (MkInner (rx_buffer s) (rx_waker s) false (register w (size_changed_wakers s)) (processor s), false).

End Console.
Arguments Inner P : clear implicits.
End Console.

(** * Properties

    The Ethernet controller keeps its books: a buffer handed over by the guest is sent once
    and given back, no aligned access panics while no send has failed, and a frame that was received is
    kept until the guest takes it; the log of a network can be read back. *)

From Stdlib Require Import ZArith Lia Bool List.
From stdpp Require Import base list relations.
From S2P Require Import Prelude.
From S2P Require VirtioQueue VirtioQueueProps.
Import ListNotations.
Local Open Scope Z_scope.
Local Open Scope rust_scope.
Import Xemac.

(** ** The Ethernet controller *)

(** The buffers that are on their way, first the one the task is at *)
Definition outstanding (d : Device) : list bool := match sending d with Some b => b :: queue d | None => queue d end.

Definition tx_status (pong : bool) (s : State) : bool := if pong then tx_status_pong s else tx_status_ping s.

Record xinv (d : Device) : Prop := {
  xi_len : Z.of_nat (length (buffer (state d))) = 8192;
  xi_ping : 0 <= tx_len_ping (state d) <= 2048;
  xi_pong : 0 <= tx_len_pong (state d) <= 2048;
  xi_once : NoDup (outstanding d);
  xi_status b : tx_task d = true -> tx_status b (state d) = true <-> b ∈ outstanding d;
  xi_ended : tx_task d = false -> outstanding d = [];
}.

Lemma bools_bound (l : list bool) : NoDup l -> (length l <= 2)%nat.
Proof.
  intros Hn. destruct l as [|a [|b [|c l]]]; cbn [length]; try lia. exfalso.
  rewrite !NoDup_cons, !not_elem_of_cons in Hn. destruct Hn as ((? & ? & ?) & (? & ?) & _), a, b, c; congruence.
Qed.

Lemma outstanding_snoc s d b : outstanding (MkDevice s (queue d ++ [b]) (sending d) (rx_pong d) true) = outstanding d ++ [b].
Proof. unfold outstanding. cbn [sending queue]. destruct (sending d); reflexivity. Qed.

(** What a change of the registers has to keep *)
Lemma xinv_state d s : xinv d -> length (buffer s) = length (buffer (state d)) -> 0 <= tx_len_ping s <= 2048 -> 0 <= tx_len_pong s <= 2048 ->
  tx_status_ping s = tx_status_ping (state d) -> tx_status_pong s = tx_status_pong (state d) -> xinv (set_state s d).
Proof.
  intros [] Hl H1 H2 E1 E2. split; cbn [state set_state tx_task]; try lia; [assumption| |assumption].
  intros b Ht. change (outstanding (set_state s d)) with (outstanding d). rewrite <- (xi_status0 b Ht). unfold tx_status. rewrite E1, E2. reflexivity.
Qed.

Lemma store_ok addr l s : Z.of_nat (length (buffer s)) = 8192 -> 0 <= addr -> addr + Z.of_nat (length l) <= 8192 ->
  exists b, store addr l s = Some (set_buffer b s) /\ length b = length (buffer s).
Proof.
  intros Hl Ha Hr. unfold store. rewrite (proj2 (Z.leb_le _ _)) by lia. eexists. split; [reflexivity|]. rewrite !length_app, length_take, length_drop. lia.
Qed.

(** What a write does to the buffers that are on their way *)
Definition handed (d d' : Device) : Prop :=
  outstanding d' = outstanding d \/ exists b, tx_status b (state d) = false /\ outstanding d' = outstanding d ++ [b].

Lemma tx_start d b s : xinv d -> tx_task d = true -> tx_status b (state d) = false -> length (buffer s) = length (buffer (state d)) ->
  0 <= tx_len_ping s <= 2048 -> 0 <= tx_len_pong s <= 2048 -> tx_status b s = true -> tx_status (negb b) s = tx_status (negb b) (state d) ->
  exists d', try_send b (set_state s d) = Some d' /\ xinv d' /\ handed d d'.
Proof.
  intros Hi Ht Hs Hl H1 H2 Eb En. assert (Hnot : ~ b ∈ outstanding d) by (rewrite <- (xi_status d Hi b Ht), Hs; discriminate).
  assert (Hq : (length (queue d) <= 2)%nat).
  { pose proof (bools_bound _ (xi_once d Hi)) as Hb. unfold outstanding in Hb. destruct (sending d); cbn [length] in Hb; lia. }
  unfold try_send. cbn [queue set_state tx_task]. rewrite Ht, (proj2 (Nat.leb_le _ _)) by exact Hq. eexists. split; [reflexivity|]. pose proof Hi as [].
  split; [|right; exists b; split; [exact Hs|exact (outstanding_snoc s d b)]]. split; cbn [state set_state queue sending rx_pong tx_task]; try lia.
  - rewrite (outstanding_snoc s d b). apply NoDup_app. split; [assumption|]. split; [|apply NoDup_singleton]. intros x Hx Hx'. apply list_elem_of_singleton in Hx' as ->. contradiction.
  - intros c _. rewrite (outstanding_snoc s d b), elem_of_app, list_elem_of_singleton, <- (xi_status0 c Ht). destruct (bool_dec c b) as [->|Hne].
    + rewrite Eb. tauto.
    + assert (c = negb b) as -> by (destruct c, b; cbn; congruence). rewrite En. split; [tauto|]. intros [?|Hx]; [assumption|destruct b; discriminate Hx].
Qed.

(** An access of the guest: within the region, aligned to its size *)
Definition access_ok (addr size : Z) : Prop := 0 <= addr < 0x2000 /\ (size = 1 \/ size = 2 \/ size = 4 \/ size = 8) /\ addr mod size = 0.

Lemma aligned_fits addr size : access_ok addr size -> addr + size <= 8192.
Proof. intros (Ha & Hs & Hm). destruct Hs as [-> |[-> |[-> | ->]]]; Z.to_euclidean_division_equations; lia. Qed.

Lemma min_len v : 0 <= Z.min (u16 v) 2048 <= 2048.
Proof. pose proof (wrap_range 16 v ltac:(lia)) as R. unfold in_u, u16 in *. lia. Qed.

(** A write that starts a transmission *)
Definition starts (addr value size : Z) (s : State) : bool :=
  (size =? 4) && ((value .& 1) <>? 0) && (((value >> 1) .& 1) =? 0) &&
  ((addr =? ADDR_TX_CTRL_PING) && negb (tx_status_ping s) || (addr =? ADDR_TX_CTRL_PONG) && negb (tx_status_pong s)).

(** What is known of a write: it panics when it starts a transmission and the task is gone. *)
Definition write_spec (b : bool) (d : Device) (r : option (Device * bool)) : Prop :=
  if b && negb (tx_task d) then r = None else exists d' irq, r = Some (d', irq) /\ xinv d' /\ handed d d'.

Lemma write_quiet d s : xinv (set_state s d) -> write_spec false d (Some (set_state s d, false)).
Proof. intros Hs. eexists _, _. split_and!; [reflexivity|exact Hs|left; reflexivity]. Qed.

Lemma write_starts d b s : xinv d -> tx_status b (state d) = false -> length (buffer s) = length (buffer (state d)) ->
  0 <= tx_len_ping s <= 2048 -> 0 <= tx_len_pong s <= 2048 -> tx_status b s = true -> tx_status (negb b) s = tx_status (negb b) (state d) ->
  write_spec true d (let? d := try_send b (set_state s d) in Some (d, false)).
Proof.
  intros Hi Hs Hl H1 H2 Eb En. unfold write_spec. destruct (tx_task d) eqn:Ht; cbn [negb andb].
  - destruct (tx_start d b s Hi Ht Hs Hl H1 H2 Eb En) as (d' & -> & Hd'). eauto 6.
  - unfold try_send. cbn [tx_task set_state]. rewrite Ht. reflexivity.
Qed.

Lemma low_bits value : u32 value .& 1 = value .& 1 /\ (u32 value >> 1) .& 1 = (value >> 1) .& 1.
Proof.
  unfold u32, wrap. split; apply Z.bits_inj'; intros i Hi; rewrite !Z.land_spec.
  - rewrite Z.testbit_mod_pow2 by lia. destruct (Z.ltb_spec i 32); [reflexivity|]. rewrite (Z.bits_above_log2 1 i) by (cbn; lia). rewrite !andb_false_r. reflexivity.
  - rewrite !Z.shiftr_spec, Z.testbit_mod_pow2 by lia. destruct (Z.ltb_spec (i + 1) 32); [reflexivity|]. rewrite (Z.bits_above_log2 1 i) by (cbn; lia). rewrite !andb_false_r. reflexivity.
Qed.

Lemma write_ok addr value size d : xinv d -> access_ok addr size -> write_spec (starts addr value size (state d)) d (write addr value size d).
Proof.
  intros Hi Ha. pose proof (aligned_fits _ _ Ha) as Hf. destruct Ha as (Ha & _). pose proof Hi as [Hl Hp1 Hp2 _ _ _].
  assert (Q0 : write_spec false d (Some (d, false))) by (eexists _, _; split_and!; [reflexivity|exact Hi|left; reflexivity]).
  unfold write, starts. destruct (low_bits value) as [L0 L1]. rewrite <- L0, <- L1. destruct (Z.eqb_spec size 8) as [E8|E8]; cbn [andb].
  - rewrite (proj2 (Z.eqb_neq size 4)) by lia. cbn [andb negb]. destruct (_ <? _); [|exact Q0].
    destruct (store_ok addr (VirtioQueue.to_le_bytes 8 value) (state d) Hl ltac:(lia)) as (b & -> & Hb); [rewrite VirtioQueueProps.to_le_bytes_length; lia|].
    apply write_quiet, xinv_state; auto.
  - destruct (Z.eqb_spec size 4) as [E4|E4]; cbn [negb andb]; [|exact Q0]. cbv zeta.
    assert (R : forall s, length (buffer s) = length (buffer (state d)) -> tx_len_ping s = tx_len_ping (state d) -> tx_len_pong s = tx_len_pong (state d) ->
      tx_status_ping s = tx_status_ping (state d) -> tx_status_pong s = tx_status_pong (state d) -> write_spec false d (Some (set_state s d, false))).
    { intros s H1 H2 H3 H4 H5. apply write_quiet, xinv_state; congruence || (rewrite ?H2, ?H3; assumption) || assumption. }
    destruct (Z.eqb_spec addr ADDR_TX_CTRL_PING) as [->|N1]; [|destruct (Z.eqb_spec addr ADDR_TX_CTRL_PONG) as [->|N2]]; cbn [andb orb].
    + repeat match goal with |- context [ADDR_TX_CTRL_PING =? ?a] => change (ADDR_TX_CTRL_PING =? a) with false || change (ADDR_TX_CTRL_PING =? a) with true end; cbv iota. rewrite orb_false_r.
      cbn [tx_status_ping set_tx_irq_enabled]. destruct (tx_status_ping (state d)) eqn:Es, ((u32 value .& 1) =? 0); cbn [negb andb]; try (rewrite ?andb_false_r; apply R; reflexivity || exact Es).
      destruct (((u32 value >> 1) .& 1) =? 0); cbn [negb andb].
      * apply write_starts; auto.
      * eexists _, _. split_and!; [reflexivity|apply xinv_state; auto|left; reflexivity].
    + repeat match goal with |- context [ADDR_TX_CTRL_PONG =? ?a] => change (ADDR_TX_CTRL_PONG =? a) with false || change (ADDR_TX_CTRL_PONG =? a) with true end; cbv iota.
      destruct (tx_status_pong (state d)) eqn:Es, ((u32 value .& 1) =? 0); cbn [negb andb]; try (rewrite ?andb_false_r; apply R; reflexivity || exact Es).
      destruct (((u32 value >> 1) .& 1) =? 0); cbn [negb andb].
      * apply write_starts; auto.
      * eexists _, _. split_and!; [reflexivity|apply xinv_state; auto|left; reflexivity].
    + rewrite andb_false_r.
      repeat match goal with |- context [if addr =? ?a then _ else _] => destruct (Z.eqb_spec addr a) end; try contradiction; try (apply R; reflexivity).
      * apply R; unfold mdio_control; repeat match goal with |- context [if ?c then _ else _] => destruct c end; reflexivity.
      * apply write_quiet, xinv_state; [exact Hi|reflexivity|apply min_len|exact Hp2|reflexivity|reflexivity].
      * apply write_quiet, xinv_state; [exact Hi|reflexivity|exact Hp1|apply min_len|reflexivity|reflexivity].
      * apply R; destruct (_ =? 0); reflexivity.
      * apply R; destruct (_ =? 0); reflexivity.
      * destruct (store_ok addr (VirtioQueue.to_le_bytes 4 (u32 value)) (state d) Hl ltac:(lia)) as (b & -> & Hb); [rewrite VirtioQueueProps.to_le_bytes_length; lia|].
        apply R; try reflexivity. exact Hb.
Qed.

Lemma read_ok addr size d : xinv d -> access_ok addr size -> is_Some (read addr size d).
Proof.
  intros Hi Ha. pose proof (aligned_fits _ _ Ha) as Hf. destruct Ha as (Ha & _). pose proof (xi_len d Hi) as Hl.
  assert (B : forall n, Z.of_nat n = size -> is_Some (read_buffer n addr (state d))).
  { intros n Hn. unfold read_buffer. rewrite (proj2 (Z.leb_le _ _)) by lia. eexists. reflexivity. }
  unfold read. destruct (Z.eqb_spec size 8) as [E8|E8]; cbn [andb].
  - destruct (_ <? _); [apply B; lia|]. destruct (Z.eqb_spec size 4); [lia|]. eexists. reflexivity.
  - destruct (Z.eqb_spec size 4) as [E4|E4]; cbn [negb]; [|eexists; reflexivity].
    repeat match goal with |- context [if addr =? ?a then _ else _] => destruct (addr =? a); [eexists; reflexivity|] end. apply B. lia.
Qed.

(** A step of the controller: an access of the guest, the transmit task taking the next buffer
    or polling the network, a frame of the network *)
Inductive xstep : Device -> Device -> Prop :=
| x_write d d' addr value size irq : access_ok addr size -> write addr value size d = Some (d', irq) -> xstep d d'
| x_next d d' : tx_next d = Some d' -> xstep d d'
| x_poll d d' r sent irq : tx_poll r d = Some (d', sent, irq) -> xstep d d'
| x_rx d d' packet irq : Z.of_nat (length packet) <= 2048 -> rx packet d = Some (d', irq) -> xstep d d'.

Definition tx_len (pong : bool) (s : State) : Z := if pong then tx_len_pong s else tx_len_ping s.
Definition tx_base (pong : bool) : Z := if pong then 0x800 else 0.
Definition rx_base (pong : bool) : Z := if pong then 0x1800 else 0x1000.
Definition rx_status (pong : bool) (s : State) : bool := if pong then rx_status_pong s else rx_status_ping s.

Lemma new_ok : xinv new.
Proof.
  split; cbn [state new new_state buffer tx_len_ping tx_len_pong tx_task]; try lia; [rewrite length_replicate; lia|apply NoDup_nil; exact I|].
  intros b _. unfold outstanding. cbn [sending queue new]. rewrite elem_of_nil. destruct b; cbn; split; intros H; [discriminate H|contradiction|discriminate H|contradiction].
Qed.

(** The task takes the first buffer that waits. *)
Lemma tx_next_ok d : xinv d -> sending d = None -> forall b q, outstanding d = b :: q ->
  exists d', tx_next d = Some d' /\ xinv d' /\ state d' = state d /\ outstanding d' = outstanding d /\ sending d' = Some b.
Proof.
  intros [] Hs b q Ho. unfold tx_next. pose proof Ho as Hq. unfold outstanding in Hq. rewrite Hs in *. rewrite Hq. eexists. split; [reflexivity|].
  assert (E : outstanding (MkDevice (state d) q (Some b) (rx_pong d) (tx_task d)) = outstanding d) by (rewrite Ho; reflexivity).
  split_and!; [|reflexivity|exact E|reflexivity]. split; cbn [state tx_task]; rewrite ?E; assumption.
Qed.

(** A task that is at a packet is there. *)
Lemma sending_alive d b : xinv d -> sending d = Some b -> tx_task d = true.
Proof.
  intros Hi Hs. destruct (tx_task d) eqn:E; [reflexivity|]. pose proof (xi_ended d Hi E) as Ho. unfold outstanding in Ho. rewrite Hs in Ho. discriminate Ho.
Qed.

(** Once the network takes the packet, the buffer is given back. *)
Lemma tx_sent d b q : xinv d -> sending d = Some b -> q = queue d ->
  exists d' p, tx_poll Done d = Some (d', Some p, tx_irq (state d)) /\ xinv d' /\ outstanding d' = q /\ tx_status b (state d') = false /\
    tx_packet b (state d) = Some p /\
    p = take (Z.to_nat (tx_len b (state d))) (drop (Z.to_nat (tx_base b)) (buffer (state d))) /\ Z.of_nat (length p) = tx_len b (state d).
Proof.
  intros Hi Hs ->. pose proof (sending_alive d b Hi Hs) as Ht. destruct Hi. unfold outstanding in xi_once0, xi_status0. rewrite Hs in *.
  assert (Eb : tx_status b (state d) = true) by (apply xi_status0; [exact Ht|left]).
  assert (Hx : ~ b ∈ queue d) by (inversion xi_once0; assumption). apply NoDup_cons in xi_once0 as [_ Hn].
  unfold tx_poll. rewrite Hs. destruct b; cbn [tx_status] in Eb; unfold tx_packet; cbn [negb]; rewrite Eb; eexists _, _; (split; [reflexivity|]);
    (split_and!; [split; cbn [state tx_task]; try assumption; try (rewrite Ht; discriminate)|reflexivity|reflexivity|reflexivity|reflexivity|rewrite length_take, ?length_drop; cbn [tx_len tx_base] in *; lia]);
    intros [|] _; unfold outstanding; cbn [sending queue tx_status state set_tx_status_pong set_tx_status_ping tx_status_pong tx_status_ping];
    try (split; [discriminate|contradiction]);
    match goal with |- ?s (state d) = true <-> ?c ∈ _ => change (s (state d)) with (tx_status c (state d)); rewrite (xi_status0 c Ht), elem_of_cons; split; [intros [E|]; [discriminate E|assumption]|auto] end.
Qed.

Lemma tx_poll_ok d r d' sent irq : xinv d -> tx_poll r d = Some (d', sent, irq) -> xinv d'.
Proof.
  intros Hi E. destruct (sending d) as [b|] eqn:Hs; [|unfold tx_poll in E; rewrite Hs in E; discriminate E].
  destruct (tx_sent d b _ Hi Hs eq_refl) as (d1 & p & E1 & Hi1 & _ & _ & Ep & _).
  unfold tx_poll in E, E1. rewrite Hs, Ep in *. destruct r; injection E as <- _ _; [exact Hi|injection E1 as <- _; exact Hi1|].
  pose proof Hi as []. split; cbn [state tx_task]; try assumption; [apply NoDup_nil_2|discriminate|reflexivity].
Qed.

(** A frame that arrives: stored when its buffer is free, dropped when it is not *)
Lemma rx_ok d packet : xinv d -> Z.of_nat (length packet) <= 2048 ->
  exists d' irq, rx packet d = Some (d', irq) /\ xinv d' /\ tx_task d' = tx_task d /\ outstanding d' = outstanding d /\ rx_pong d' = negb (rx_pong d) /\
    if rx_status (rx_pong d) (state d) then state d' = state d /\ irq = false
    else irq = rx_irq (state d) /\ rx_status (rx_pong d) (state d') = true /\ rx_status (negb (rx_pong d)) (state d') = rx_status (negb (rx_pong d)) (state d) /\
      let base := Z.to_nat (rx_base (rx_pong d)) in
      buffer (state d') = take base (buffer (state d)) ++ packet ++ drop (base + length packet) (buffer (state d)).
Proof.
  intros Hi Hp. pose proof Hi as [Hl Hp1 Hp2 Ho Hs Hd]. unfold rx.
  assert (K : forall s r, length (buffer s) = length (buffer (state d)) -> tx_len_ping s = tx_len_ping (state d) -> tx_len_pong s = tx_len_pong (state d) ->
    tx_status_ping s = tx_status_ping (state d) -> tx_status_pong s = tx_status_pong (state d) -> xinv (MkDevice s (queue d) (sending d) r (tx_task d))).
  { intros s r H1 H2 H3 H4 H5. destruct (xinv_state d s Hi H1 ltac:(rewrite H2; exact Hp1) ltac:(rewrite H3; exact Hp2) H4 H5). split; assumption. }
  destruct (rx_pong d); cbn [negb rx_status rx_base]; [destruct (rx_status_pong (state d))|destruct (rx_status_ping (state d))]; cbn [negb];
    try (eexists _, _; split_and!; try reflexivity; apply K; reflexivity);
    unfold store; rewrite (proj2 (Z.leb_le _ _)) by lia; eexists _, _; (split; [reflexivity|]);
    (split_and!; try reflexivity; apply K; try reflexivity; cbn [buffer set_buffer set_rx_status_ping set_rx_status_pong]; rewrite !length_app, length_take, length_drop; lia).
Qed.

Lemma xstep_ok d d' : xstep d d' -> xinv d -> xinv d'.
Proof.
  intros [d1 d2 addr value size irq Ha E|d1 d2 E|d1 d2 r sent irq E|d1 d2 packet irq Hp E] Hi.
  - pose proof (write_ok addr value size d1 Hi Ha) as H. unfold write_spec in H. destruct (_ && _); [congruence|].
    destruct H as (d3 & irq' & E' & H & _). congruence.
  - destruct (sending d1) eqn:Hs; [unfold tx_next in E; rewrite Hs in E; discriminate E|]. destruct (queue d1) as [|b q] eqn:Hq; [unfold tx_next in E; rewrite Hs, Hq in E; discriminate E|].
    destruct (tx_next_ok d1 Hi Hs b q) as (d3 & E' & H & _); [unfold outstanding; rewrite Hs; exact Hq|congruence].
  - exact (tx_poll_ok _ _ _ _ _ Hi E).
  - destruct (rx_ok d1 packet Hi Hp) as (d3 & irq' & E' & H & _). congruence.
Qed.

Lemma reachable_ok d : rtc xstep new d -> xinv d.
Proof. intros H. apply (rtc_ind_r (R := xstep) xinv new); [exact new_ok| |exact H]. intros d1 d2 _ Hs Hi. exact (xstep_ok _ _ Hs Hi). Qed.

Lemma write_facts addr value size d : xinv d -> access_ok addr size ->
  (write addr value size d = None <-> tx_task d = false /\ starts addr value size (state d) = true) /\
  forall d' irq, write addr value size d = Some (d', irq) -> handed d d'.
Proof.
  intros Hi Ha. pose proof (write_ok addr value size d Hi Ha) as H. unfold write_spec in H.
  destruct (starts addr value size (state d)), (tx_task d); cbn [andb negb] in H;
    try (destruct H as (d1 & irq1 & -> & _ & Hh); split; [split; [discriminate|intros [? ?]; discriminate]|intros d' irq E; injection E as <- _; exact Hh]).
  rewrite H. split; [tauto|discriminate].
Qed.

(** From the first buffer that is on its way: what becomes of it *)
Lemma tx_round d b q : xinv d -> tx_task d = true -> outstanding d = b :: q -> exists d1 d2 p,
  (sending d = Some b /\ d1 = d \/ tx_next d = Some d1) /\ state d1 = state d /\
  tx_poll Done d1 = Some (d2, Some p, tx_irq (state d)) /\ tx_task d2 = true /\ outstanding d2 = q /\ tx_status b (state d2) = false /\
  p = take (Z.to_nat (tx_len b (state d))) (drop (Z.to_nat (tx_base b)) (buffer (state d))) /\ Z.of_nat (length p) = tx_len b (state d) /\
  tx_poll Pending d1 = Some (d1, None, false) /\
  exists d3, tx_poll Failed d1 = Some (d3, None, false) /\ tx_task d3 = false /\ state d3 = state d.
Proof.
  intros Hi Ht Ho. assert (K : forall d1, xinv d1 -> state d1 = state d -> tx_task d1 = true -> sending d1 = Some b -> q = queue d1 -> exists d2 p,
    tx_poll Done d1 = Some (d2, Some p, tx_irq (state d)) /\ tx_task d2 = true /\ outstanding d2 = q /\ tx_status b (state d2) = false /\
    p = take (Z.to_nat (tx_len b (state d))) (drop (Z.to_nat (tx_base b)) (buffer (state d))) /\ Z.of_nat (length p) = tx_len b (state d) /\
    tx_poll Pending d1 = Some (d1, None, false) /\ exists d3, tx_poll Failed d1 = Some (d3, None, false) /\ tx_task d3 = false /\ state d3 = state d).
  { intros d1 Hi1 Es Ht1 Hs1 Eq. destruct (tx_sent d1 b q Hi1 Hs1 Eq) as (d2 & p & E & _ & H2 & H3 & Ep & H4 & H5). rewrite Es in *.
    exists d2, p. split; [exact E|]. split; [unfold tx_poll in E; rewrite Hs1, Es, Ep in E; injection E as <- _; exact Ht1|].
    split_and!; try assumption; unfold tx_poll; rewrite Hs1, Es, Ep; [reflexivity|eexists; split_and!; reflexivity]. }
  destruct (sending d) as [b'|] eqn:Hs.
  - pose proof Ho as Ho'. unfold outstanding in Ho'. rewrite Hs in Ho'. injection Ho' as -> Eq.
    destruct (K d Hi eq_refl Ht Hs (eq_sym Eq)) as (d2 & p & H). exists d, d2, p. split; [auto|]. split; [reflexivity|exact H].
  - destruct (tx_next_ok d Hi Hs b q Ho) as (d1 & E1 & Hi1 & Es & Eo & Hs1).
    assert (Eq : q = queue d1) by (rewrite Ho in Eo; unfold outstanding in Eo; rewrite Hs1 in Eo; congruence).
    destruct (K d1 Hi1 Es (sending_alive d1 b Hi1 Hs1) Hs1 Eq) as (d2 & p & H). exists d1, d2, p. split; [auto|]. split; [exact Es|exact H].
Qed.

Lemma tx_over d : xinv d -> tx_task d = false -> outstanding d = [] /\ tx_next d = None /\ forall r, tx_poll r d = None.
Proof.
  intros Hi Ht. pose proof (xi_ended d Hi Ht) as Ho. split; [exact Ho|]. unfold outstanding, tx_next, tx_poll in *.
  destruct (sending d); [discriminate|]. rewrite Ho. auto.
Qed.

(** C16. Whatever the guest, the network and the two tasks do, in any order, the Ethernet
    controller keeps its books.  No aligned read of the guest panics, and an aligned write
    panics exactly when it starts a transmission after the transmit task has ended, which
    it does when the network fails to send a packet; the channel to the task never refuses
    a buffer for being full.  While no send has failed: a write leaves the buffers that are
    on their way alone or hands over one more, at the end, whose status was clear; the
    status bit of a transmit buffer is set exactly while the buffer is on its way; the
    first of them is the one the transmit task is at, or takes next; when the network
    takes the packet, exactly the bytes of the buffer that the length register names are
    sent, its status bit is cleared and the others stay in order; when the network fails,
    nothing is sent and the task is gone.  After that nothing is on its way any more, and
    nothing is sent.  Each buffer is on its way at most once.  A frame of at most 2048 bytes
    is stored, byte for byte, at the receive buffer whose turn it is when the guest has
    released that buffer, and is dropped without a trace when it has not. *)
Theorem xemac_runs d : rtc xstep new d ->
  (forall addr size, access_ok addr size -> is_Some (read addr size d) /\ forall value,
    (write addr value size d = None <-> tx_task d = false /\ starts addr value size (state d) = true) /\
    forall d' irq, write addr value size d = Some (d', irq) -> handed d d') /\
  NoDup (outstanding d) /\
  (if tx_task d then
    (forall b, tx_status b (state d) = true <-> b ∈ outstanding d) /\
    forall b q, outstanding d = b :: q -> exists d1 d2 p,
      (sending d = Some b /\ d1 = d \/ tx_next d = Some d1) /\ state d1 = state d /\
      tx_poll Done d1 = Some (d2, Some p, tx_irq (state d)) /\ tx_task d2 = true /\ outstanding d2 = q /\ tx_status b (state d2) = false /\
      p = take (Z.to_nat (tx_len b (state d))) (drop (Z.to_nat (tx_base b)) (buffer (state d))) /\ Z.of_nat (length p) = tx_len b (state d) /\
      tx_poll Pending d1 = Some (d1, None, false) /\
      exists d3, tx_poll Failed d1 = Some (d3, None, false) /\ tx_task d3 = false /\ state d3 = state d
   else outstanding d = [] /\ tx_next d = None /\ forall r, tx_poll r d = None) /\
  (forall packet, Z.of_nat (length packet) <= 2048 -> exists d' irq, rx packet d = Some (d', irq) /\ rx_pong d' = negb (rx_pong d) /\ outstanding d' = outstanding d /\
    if rx_status (rx_pong d) (state d) then state d' = state d /\ irq = false
    else irq = rx_irq (state d) /\ rx_status (rx_pong d) (state d') = true /\ rx_status (negb (rx_pong d)) (state d') = rx_status (negb (rx_pong d)) (state d) /\
      let base := Z.to_nat (rx_base (rx_pong d)) in
      buffer (state d') = take base (buffer (state d)) ++ packet ++ drop (base + length packet) (buffer (state d))).
Proof.
  intros Hr. pose proof (reachable_ok d Hr) as Hi. split_and!.
  - intros addr size Ha. split; [exact (read_ok addr size d Hi Ha)|]. intros value. exact (write_facts addr value size d Hi Ha).
  - apply xi_once, Hi.
  - destruct (tx_task d) eqn:Ht; [split; [intros b; apply xi_status; assumption|intros b q; apply tx_round; assumption]|].
    apply tx_over; assumption.
  - intros packet Hp. destruct (rx_ok d packet Hi Hp) as (d' & irq & E & _ & _ & Ho & Hf & H). eauto 6.
Qed.

(** A frame of three bytes: the guest writes them, sets the length and starts the transmission. *)
Definition started : Device :=
  let w a v d := match write a v 4 d with Some (d', _) => d' | None => d end in
  w ADDR_TX_CTRL_PING 1 (w ADDR_TX_LEN_PING 3 (w 0 0x332211 new)).

Lemma started_reachable : rtc xstep new started.
Proof.
  assert (W : forall d a v, access_ok a 4 -> is_Some (write a v 4 d) -> rtc xstep d (match write a v 4 d with Some (d', _) => d' | None => d end)).
  { intros d a v Ha [[d' irq] E]. rewrite E. apply rtc_once. exact (x_write d d' a v 4 irq Ha E). }
  unfold started. cbv zeta. etrans; [etrans; [apply W|apply W]|apply W]; try (vm_compute; eauto; fail); unfold access_ok; (split_and!; [vm_compute; congruence|vm_compute; congruence|lia|reflexivity]).
Qed.

Lemma xemac_runs_witness : outstanding started = [false] /\
  exists d1 d2, tx_next started = Some d1 /\ tx_poll Done d1 = Some (d2, Some [0x11; 0x22; 0x33], false) /\ tx_status false (state d2) = false.
Proof.
  split; [reflexivity|]. destruct (xemac_runs started started_reachable) as (_ & _ & H & _). change (tx_task started) with true in H.
  destruct H as [_ H].
  destruct (H false [] eq_refl) as (d1 & d2 & p & [[Hs _]|Hn] & _ & E & _ & _ & Hst & Hp & _); [vm_compute in Hs; discriminate Hs|].
  exists d1, d2. split; [exact Hn|]. split; [|exact Hst]. rewrite E, Hp. reflexivity.
Defined.

(** After a send that fails the next start of a transmission panics. *)
Theorem failed_send_panics d : xinv d -> tx_task d = false -> tx_status false (state d) = false -> write ADDR_TX_CTRL_PING 1 4 d = None.
Proof.
  intros Hi Ht Hs. apply (write_facts ADDR_TX_CTRL_PING 1 4 d Hi); [|split; [exact Ht|unfold starts; cbn in Hs |- *; rewrite Hs; reflexivity]].
  split; [vm_compute; split; congruence|]. split; [auto|reflexivity].
Qed.

(** ** The logger *)

(** A reader of the log: time, packet *)
Fixpoint read_log (n : nat) (file : list Z) : list (Z * Z * list Z) :=
  match n with
  | O => []
  | S n =>
      let field k := VirtioQueue.from_le_bytes (take 4 (drop k file)) in
      let len := Z.to_nat (field 8%nat) in
      (field 0%nat, field 4%nat, take len (drop 16 file)) :: read_log n (drop (16 + len) file)
  end.

Definition log_all (rs : list (Z * Z * list Z)) (file : list Z) : list Z :=
  fold_left (fun f r => Logger.poll_send r.1.1 r.1.2 r.2 (Some ()) f) rs file.

Definition record_ok (r : Z * Z * list Z) : Prop := in_u 32 r.1.1 /\ in_u 32 r.1.2 /\ Z.of_nat (length r.2) < 2 ^ 32.

Lemma log_app rs file : log_all rs file = file ++ log_all rs [].
Proof.
  revert file. induction rs as [|r rs IH]; intros file; [cbn; rewrite app_nil_r; reflexivity|]. cbn [log_all fold_left Logger.poll_send]. fold (log_all rs).
  rewrite IH, (IH (Logger.log _ _ _ [])). unfold Logger.log. rewrite !app_nil_l, <- !app_assoc. reflexivity.
Qed.

Lemma field_at a b c (l : list Z) : length a = b -> length c = 4%nat -> take 4 (drop b (a ++ c ++ l)) = c.
Proof. intros <- Hc. rewrite drop_app_length, <- Hc, take_app_length. reflexivity. Qed.

Lemma le4 v : in_u 32 v -> VirtioQueue.from_le_bytes (VirtioQueue.to_le_bytes 4 (u32 v)) = v.
Proof. unfold in_u. intros H. unfold u32. rewrite wrap_id by exact H. apply VirtioQueueProps.le_bytes_back. exact H. Qed.

(** The packets that were sent are read back from the log, in order and with their times. *)
Theorem log_reads_back rs : Forall record_ok rs -> read_log (length rs) (drop (length Logger.header) (log_all rs Logger.header)) = rs.
Proof.
  rewrite log_app, drop_app_length. induction 1 as [|[[secs micros] buf] rs (Hs & Hm & Hb) _ IH]; [reflexivity|]. cbn [fst snd] in *.
  unfold log_all. cbn [fold_left length fst snd Logger.poll_send]. fold (log_all rs (Logger.log secs micros buf [])). rewrite log_app. unfold Logger.log. rewrite app_nil_l, <- !app_assoc.
  cbn [read_log]. set (rest := log_all rs []) in *.
  assert (L4 : forall v, length (VirtioQueue.to_le_bytes 4 v) = 4%nat) by (intros; apply VirtioQueueProps.to_le_bytes_length).
  assert (Hn : in_u 32 (Z.of_nat (length buf))) by (unfold in_u; lia).
  assert (E0 : forall x y z, take 4 (drop 0 (VirtioQueue.to_le_bytes 4 x ++ VirtioQueue.to_le_bytes 4 y ++ z)) = VirtioQueue.to_le_bytes 4 x) by (intros; apply (field_at []); [reflexivity|apply L4]).
  assert (E4 : forall x y z, take 4 (drop 4 (VirtioQueue.to_le_bytes 4 x ++ VirtioQueue.to_le_bytes 4 y ++ z)) = VirtioQueue.to_le_bytes 4 y) by (intros; apply field_at; apply L4).
  assert (E8 : forall x y w z, take 4 (drop 8 (VirtioQueue.to_le_bytes 4 x ++ VirtioQueue.to_le_bytes 4 y ++ VirtioQueue.to_le_bytes 4 w ++ z)) = VirtioQueue.to_le_bytes 4 w).
  { intros x y w z. rewrite app_assoc. apply field_at; [rewrite length_app, !L4; reflexivity|apply L4]. }
  assert (E16 : forall x y v w z, drop 16 (VirtioQueue.to_le_bytes 4 x ++ VirtioQueue.to_le_bytes 4 y ++ VirtioQueue.to_le_bytes 4 v ++ VirtioQueue.to_le_bytes 4 w ++ z) = z).
  { intros x y v w z. rewrite !app_assoc. rewrite drop_app_length'; [reflexivity|rewrite !length_app, !L4; reflexivity]. }
  rewrite <- drop_drop, E0, E4, E8, E16, !le4, Nat2Z.id, take_app_length, drop_app_length, IH by assumption. f_equal. f_equal. f_equal.
  rewrite <- (le4 micros Hm) at 2. unfold u32. rewrite wrap_id by exact Hm. reflexivity.
Qed.

(** ** The terminal *)

Module ConsoleProps.
Import Console.
Section Props.
Context {P : Type}.
Variable step : P -> Z -> P * option Z.

(** What happens to the console *)
Inductive Event : Type := Typed (bytes : list Z) | Read (w : Z) (len : nat) | Resized | Asked (w : Z).

(** The state, the bytes its users have got, and the wakers that were woken *)
Definition react (e : Event) (st : Inner P * list Z) : Inner P * list Z :=
  let (s, got) := st in
  match e with
  | Typed bytes => ((input step bytes s).1, got)
  | Read w len => let (s, r) := poll_read w len s in (s, got ++ match r with Some l => l | None => [] end)
  | Resized => ((handle_winch s).1, got)
  | Asked w => ((poll_window_size_changed w s).1, got)
  end.

(** All that was typed, and what the processor makes of it *)
Fixpoint typed (es : list Event) : list Z := match es with [] => [] | Typed l :: es => l ++ typed es | _ :: es => typed es end.
Fixpoint processed (p : P) (l : list Z) : list Z :=
  match l with [] => [] | b :: l => let (p, x) := step p b in match x with Some x => x :: processed p l | None => processed p l end end.
Fixpoint after (p : P) (l : list Z) : P := match l with [] => p | b :: l => after (step p b).1 l end.

Record cinv (s : Inner P) : Prop := {
  ci_awake : rx_buffer s <> [] -> rx_waker s = [];
  ci_size : size_changed s = true -> size_changed_wakers s = [];
  ci_once : NoDup (rx_waker s) /\ NoDup (size_changed_wakers s);
}.

Lemma register_once w l : NoDup l -> NoDup (register w l) /\ w ∈ register w l.
Proof.
  intros Hl. unfold register. destruct (existsb (Z.eqb w) l) eqn:E.
  - apply existsb_exists in E as (x & Hx & Ex). apply Z.eqb_eq in Ex as ->. split; [exact Hl|apply list_elem_of_In; exact Hx].
  - split; [|apply elem_of_app; right; left]. apply NoDup_app. split; [exact Hl|]. split; [|apply NoDup_singleton]. intros x Hx Hx'. apply list_elem_of_singleton in Hx' as ->.
    apply not_true_iff_false in E. apply E, existsb_exists. exists w. split; [apply list_elem_of_In; exact Hx|apply Z.eqb_refl].
Qed.

Lemma input_ok bytes : forall s, cinv s -> let s' := (input step bytes s).1 in
  cinv s' /\ rx_buffer s' = rx_buffer s ++ processed (processor s) bytes /\ processor s' = after (processor s) bytes.
Proof.
  induction bytes as [|b bytes IH]; intros s Hs; cbn [input processed after]; [rewrite app_nil_r; auto|].
  unfold input_byte. destruct (step (processor s) b) as [p x] eqn:E. destruct Hs as [H1 H2 [H3 H4]].
  assert (K : forall s1 l, cinv s1 -> processor s1 = p -> rx_buffer s1 = rx_buffer s ++ l -> let (s2, _) := input step bytes s1 in
    cinv s2 /\ rx_buffer s2 = rx_buffer s ++ l ++ processed p bytes /\ processor s2 = after p bytes).
  { intros s1 l Hi <- Hb. destruct (IH s1 Hi) as (Hi' & Hb' & Hp'). destruct (input step bytes s1) as [s2 w2]. cbn [fst] in *. rewrite Hb', Hb, <- app_assoc. auto. }
  destruct x as [x|]; [specialize (K (MkInner (rx_buffer s ++ [x]) [] (size_changed s) (size_changed_wakers s) p) [x])|specialize (K (MkInner (rx_buffer s) (rx_waker s) (size_changed s) (size_changed_wakers s) p) [])].
  - destruct (input step bytes _) as [s2 w2]. apply K; try reflexivity. split; cbn [rx_buffer rx_waker size_changed size_changed_wakers]; auto. split; [apply NoDup_nil_2|exact H4].
  - destruct (input step bytes _) as [s2 w2]. apply K; [split; auto|reflexivity|symmetry; apply app_nil_r].
Qed.

Lemma processed_app l l' : forall p, processed p (l ++ l') = processed p l ++ processed (after p l) l'.
Proof. induction l as [|b l IH]; intros p; [reflexivity|]. cbn [processed after app]. destruct (step p b) as [q [x|]]; cbn [fst]; rewrite IH; reflexivity. Qed.

Lemma after_app l l' : forall p, after p (l ++ l') = after (after p l) l'.
Proof. induction l as [|b l IH]; intros p; [reflexivity|]. cbn [after app]. apply IH. Qed.

Lemma react_ok es : forall s got, cinv s -> let st := fold_left (fun st e => react e st) es (s, got) in
  cinv st.1 /\ st.2 ++ rx_buffer st.1 = got ++ rx_buffer s ++ processed (processor s) (typed es).
Proof.
  induction es as [|e es IH]; intros s got Hs; cbn [fold_left typed]; [cbn [fst snd processed]; rewrite app_nil_r; auto|].
  pose proof Hs as [H1 H2 [H3 H4]]. destruct e as [bytes|w len| |w]; cbn [react typed].
  - destruct (input_ok bytes s Hs) as (Hi & Hb & Hp). destruct (IH _ got Hi) as [? E]. split; [assumption|]. rewrite E, Hb, Hp, processed_app, <- !app_assoc. reflexivity.
  - unfold poll_read. destruct (rx_buffer s) as [|x l] eqn:Eb.
    + destruct (register_once w _ H3) as [H5 _]. destruct (IH (MkInner [] (register w (rx_waker s)) (size_changed s) (size_changed_wakers s) (processor s)) (got ++ [])) as [? E];
        [split; cbn [rx_buffer rx_waker size_changed size_changed_wakers]; auto; congruence|]. split; [assumption|]. rewrite E, app_nil_r. reflexivity.
    + destruct (IH (MkInner (drop len (x :: l)) (rx_waker s) (size_changed s) (size_changed_wakers s) (processor s)) (got ++ take len (x :: l))) as [? E];
        [split; cbn [rx_buffer rx_waker size_changed size_changed_wakers]; auto; intros _; apply H1; discriminate|]. split; [assumption|]. rewrite E. cbn [rx_buffer processor].
      rewrite <- app_assoc, (app_assoc (take len _)), take_drop. reflexivity.
  - destruct (IH (handle_winch s).1 got) as [? E]; [split; cbn; auto; split; [assumption|apply NoDup_nil_2]|]. auto.
  - unfold poll_window_size_changed. destruct (size_changed s) eqn:Es; cbn [fst].
    + destruct (IH (MkInner (rx_buffer s) (rx_waker s) false (size_changed_wakers s) (processor s)) got) as [? E]; [split; cbn; auto; discriminate|]. auto.
    + destruct (register_once w _ H4) as [H5 _]. destruct (IH (MkInner (rx_buffer s) (rx_waker s) false (register w (size_changed_wakers s)) (processor s)) got) as [? E]; [split; cbn; auto; discriminate|]. auto.
Qed.

(** Whatever is typed, read and resized in any order: the bytes that were read, followed by
    those that wait, are what the processor makes of all that was typed, nothing is lost,
    repeated or reordered; nobody who was told to wait is left waiting when there is
    something to read, or when the size of the window has changed. *)
Theorem console_delivers es p : let st := fold_left (fun st e => react e st) es (new_console p, []) in
  st.2 ++ rx_buffer st.1 = processed p (typed es) /\ (rx_buffer st.1 <> [] -> rx_waker st.1 = []) /\ (size_changed st.1 = true -> size_changed_wakers st.1 = []).
Proof.
  destruct (react_ok es (new_console p) []) as [[H1 H2 _] E]; [split; cbn; try congruence; split; apply NoDup_nil_2|]. cbn [rx_buffer processor new_console app] in E. auto.
Qed.

End Props.
End ConsoleProps.
